(* ===== verification/_CoqProject ===== *)
-Q . S2P
Prelude.v
GoStrings.v
GoOs.v
Ordering.v
Sha256.v
GoTime.v
GoTimeText.v
SqliteText.v
RuntimeValues.v
Registry.v
Launch.v
Control.v
Output.v
OutputCapture.v
Lifecycle.v
Coordinator.v
Recovery.v
Owner.v
Ownership.v
RunPages.v
Shutdown.v
OwnerFrame.v
Handover.v
ShutdownOutcome.v
Plans.v
Continuity.v
ObservationGate.v
Projection.v
History.v
Upgrade.v
Attestation.v
Labels.v
UsageValues.v
Usage.v
UsageStore.v
Session.v
CommandIdentity.v
CommandAudit.v
Truncation.v
Memory.v
ManagedBlock.v
MemoryBridge.v
Event.v
Workspace.v
Interleaving.v
EventOrder.v
Refinement.v
Consolidation.v
Pressure.v
StoreContent.v
StoreFiles.v
Compaction.v
StoreCopy.v
StoreCompaction.v
CompactionSafe.v
CompactionKept.v
CompactionExamples.v
StoreUpgrade.v
UpgradeSafe.v
UpgradeKept.v
SpoolFiles.v
HookSpool.v
SpoolNames.v
HookSpoolSafe.v
HookSpoolAlone.v
MemoryTool.v
MemoryToolText.v
MemoryToolFiles.v
