(* ===== verification/Prelude.v ===== *)
(** * Traceary: a verification library for the decisions of the program

    Traceary records what coding agents do -- sessions, events, command
    audits, token usage, durable memories -- in a local SQLite store, and
    supervises the agent processes it launches.  The Go packages under
    [src/domain] hold its decisions as values and aggregates; those of
    [src/application] compose them into the runtime and the use cases, with
    the locks, goroutines and files that this takes; [src/infrastructure]
    stores the results.  This library models the decisions, the concurrent
    parts of the runtime around them as sequences of atomic sections, the
    usage ledger, the refinements and the consolidation requests down to their
    tables, the hook spool and the replacement of the store file down to their
    system calls, the agents' memory tool, and proves what makes them correct.

    ** How the parts interact

    A project and its worktrees are registered ([Registry]); a run is launched
    for a registered target and host profile ([Launch]) by a bounded owner that
    serves launch and resume requests, keeps the children and lists them
    ([Owner], [Ownership], [RunPages]); terminal input,
    resizes and stops go through a receipt ledger ([Control]), which workers
    fill under the runtime's lock while they ask the journal and the child
    ([Coordinator]); its output goes through a ring ([Output]) to subscribers
    that read at their own pace ([OutputCapture]); shutdown, freshness of
    evidence and update deferral are decided on snapshots of these
    ([Lifecycle]), and the owner is shut down, or handed off to an update, by
    coordinators beside the launches ([Shutdown], [OwnerFrame], [Handover],
    [ShutdownOutcome], [Plans]).  What survives a crash is sealed and resumed ([Recovery]).
    Native observations of a run are fenced by a continuity revision
    ([Continuity]), sampled and guarded by a gate ([ObservationGate]) and
    folded into a projection ([Projection]).  Committed events are read in
    pages ([History]).  A store file is replaced in phases
    ([Upgrade]): a candidate is built beside it, verified against it
    ([StoreContent]), and exchanged with it, each phase being journaled first
    ([StoreFiles], [Compaction]); a compaction keeps what the store holds
    ([StoreCompaction]), an offline upgrade migrates it by a recipe
    ([StoreUpgrade]).  The record is attested by a hash chain ([Attestation]).
    On the recording side, sessions ([Session]), events with the identity of
    their delivery ([Event]), command audits ([CommandIdentity],
    [CommandAudit], [Truncation]), token usage ([UsageValues], [Usage],
    [UsageStore]) and memories ([Memory]) are aggregates over shared labels
    and identifiers ([Labels]); the workspace of an event is related to that
    of its session ([Workspace]).  Accepted memories are exported into a
    managed block of a host's instruction file ([ManagedBlock],
    [MemoryBridge]), from which user-written bullets are imported.
    Events are ordered by their normalised time and then by id ([SqliteText],
    [EventOrder]).  Agents fold the events of a session into its refinement;
    refiners in several processes race for its row with a compare-and-swap on
    the generation ([Refinement]).  A stop hook asks for a fold when enough
    work has gathered since the last one ([Pressure]); the request is delivered
    in a prompt by one process under a durable lease, and closed by the
    outcome of the refinement that answers it ([Consolidation]).
    A hook writes its invocation to a spool of files before it runs its
    handler, so that a killed or refused hook is replayed by a later one, or
    by the operator, and retried a bounded number of times ([SpoolFiles],
    [HookSpool]).  Beside the durable memories, an agent keeps notes of its
    own under [/memories] ([MemoryTool]).

    ** Files

    - [Prelude.v] (this file): Go errors and results, the [let!] notation, the
      development's tactics, reachability ([star]) with its invariant rules,
      map loops and counts.
    - [GoStrings.v], [GoTime.v], [GoTimeText.v], [Sha256.v]: the parts of Go's
      standard library the program uses -- UTF-8 decoding,
      [strings.TrimSpace], searching, paths, decimal and hexadecimal numbers;
      [time.Time] with its monotonic reading, and its RFC 3339 text, written
      and parsed; SHA-256 (its constants computed from the primes).
      [GoOs.v]: the errors of package [os].
    - [Ordering.v]: comparison functions, their lexicographic product, and the
      order of strings by bytes; [SqliteText.v]: the column text of the
      datasources, with [ts_norm] of database.go ([infrastructure/sqlite]) and
      the stored column [created_at_norm]; [Interleaving.v]: use cases as
      programs over a shared store, and their rely-guarantee rules.
    - [RuntimeValues.v]: identifiers, bounded text and the immutable values of
      [domain/runtime] (registry.go, launch.go, metadata.go, observation.go).
    - [Registry.v], [Launch.v], [Control.v], [Output.v], [Lifecycle.v],
      [Continuity.v], [Projection.v], [History.v]: the files of
      [domain/runtime] of the same name; [Recovery.v]: recovery.go, resume.go
      and interruption.go.
    - [OutputCapture.v], [Coordinator.v], [ObservationGate.v]: output.go,
      control.go and observation_gate.go of [application/runtime].
    - [Owner.v]: launch.go, resume.go and recovery.go of
      [application/runtime]; [Ownership.v]: its invariant and theorems;
      [RunPages.v]: the listing of runs in pages.
    - [Shutdown.v]: lifecycle.go, update.go, lifecycle_client.go and
      update_client.go of [application/runtime], as further steps of the
      owner; [OwnerFrame.v]: what the owner's own steps leave alone;
      [Handover.v]: the invariant of owner and coordinators together;
      [ShutdownOutcome.v]: the answers of a shutdown; [Plans.v]: plans in
      pages (daemon_lifecycle_unix.go of [infrastructure/runtime]) and offers
      of an update.
    - [Upgrade.v]: prepared_store_upgrade.go, bound_drop_approval.go and
      unavailable_retention_approval.go of [domain], and the phase each
      recovery action records in [application/usecase].
    - [Attestation.v]: hash.go and anchor.go of [domain/attestation].
    - [Labels.v]: the closed sets and identifiers of [domain/types], with the
      class [KnownLabel] every reader of a closed set implements.
    - [Session.v], [CommandAudit.v], [Memory.v], [Event.v]: the aggregates of
      [domain/model] (session*.go, command_audit*.go, memory.go, event.go) and
      the delivery evidence of hook_delivery.go; [Workspace.v]: workspace.go of
      [domain/types], the relationships of hook_delivery.go, and
      workspace_alias.go; [CommandIdentity.v]: command_identity.go of
      [domain/types]; [Truncation.v]: the payload cut of
      [application/usecase/event_usecase_impl.go].
    - [UsageValues.v], [Usage.v]: usage_value.go, usage_cost.go,
      usage_observation.go and run_lineage.go of [domain/types], and
      usage_observation.go of [domain/model]; [UsageStore.v]:
      usage_observation_datasource.go of [infrastructure/sqlite].
    - [ManagedBlock.v]: managed_block.go, import_stub_block.go,
      activation_file_writer.go and import_stub_activation.go of
      [application/usecase]; [MemoryBridge.v]: memory_export.go and the parser
      of memory_bridge_import.go.
    - [EventOrder.v]: event_order_datasource.go of [infrastructure/sqlite];
      [Refinement.v]: session_refinement.go of [domain/model], its use case and
      its datasource; [Consolidation.v]: consolidation_request.go and the
      types it uses, its use case and its datasource; [Pressure.v]:
      consolidation_pressure_usecase_impl.go of [application/usecase].
    - [StoreContent.v]: the copy filter, the verification of a candidate and
      the rollback guard (compaction_copy_filter.go, compaction_sqlite.go,
      compaction_verify_tables.go and compaction_rollback_guard.go of
      [infrastructure/sqlite]), as functions of the tables they read, over the
      class [Engine] of what SQLite and the other checks answer;
      [StoreCopy.v]: what a verified copy keeps.
    - [StoreFiles.v]: the runs and their journal, the identity of a file, and
      the directory (compaction_files.go and the platform files);
      [Compaction.v]: the calls, and the file protocol of compaction_files.go
      and of the builder as programs over them, with the class [Recipe] of
      prepared_store_upgrade.go ([application]).
    - [StoreCompaction.v]: store_compaction.go of [application/usecase];
      [CompactionSafe.v]: what holds over every history of its commands, for
      any relation that the verification establishes; [CompactionKept.v]: its
      instances, and the loop of actions; [CompactionExamples.v]: histories,
      evaluated.
    - [StoreUpgrade.v]: prepared_store_upgrade.go of [application/usecase] and
      [FindActive] of its journal; [UpgradeSafe.v], [UpgradeKept.v]: what holds
      over every history of it, its loops, and histories, evaluated.
    - [SpoolFiles.v]: the record, the file names and the system calls of
      hook_spool.go ([presentation/cli]) and hook_spool_file_nofollow.go;
      [HookSpool.v]: its operations as programs over them; [SpoolNames.v]:
      the order of its names, by time;
      [HookSpoolSafe.v]: what holds over every interleaving, and the races
      that deliver twice; [HookSpoolAlone.v]: a drain and a refusal alone.
    - [MemoryTool.v]: memorytoolpath.go of [domain/types], memorytoolfile.go
      of [domain/model], memory_tool_file_datasource.go of
      [infrastructure/sqlite] and memory_tool_usecase.go of
      [application/usecase]; [MemoryToolText.v]: its edits and views;
      [MemoryToolFiles.v]: its paths and the rename.

    ** Correspondence

    A struct is a [Record] with its fields in order; a string type is a
    [string] with its constants; a constructor or method is the [Definition]
    of its name (with the type's name in front where two types share it); a
    call that fails returns [Err] with the error's format and arguments.  A
    method that mutates its receiver returns the new receiver beside the
    error, since some change it and fail; one that checks for a nil receiver
    takes an option where the check matters.  An [Optional] is an option, a
    map a [gmap], a slice a list, an integer a [Z] with its wrap-around
    written out.  The clock is an argument.  State machines have a step
    relation over these functions, with the refused calls as steps.  Where
    the code shares mutable objects (subscriptions, tickets, flights), they
    live in a heap, a [gmap] from addresses; a goroutine is the list of its
    sections between two locks, and what a port answers is an argument.
    Where several processes share the store, a use case is a program of
    [Interleaving]: the tree of its calls, each one statement or transaction
    and atomic, which may fail before or after it took effect; a theorem about
    one program assumes what the steps of the others keep and shows that its
    own keep it too.

    ** What the theorems show

    - Admission and restoration: [registry_invariant],
      [registry_snapshot_roundtrip], [projection_snapshot_current],
      [labels_exact], [session_restore_exact], [audit_outcome_exact],
      [usage_record_idempotent] -- an invariant every operation keeps, and
      snapshots or rows that are accepted exactly when they satisfy it and
      restore what they were taken from.
    - One-way state machines: [session_first_terminal_wins],
      [usage_first_terminal_wins], [memory_lifecycle],
      [resume_attempt_one_way], [upgrade_phases_one_way]; also the lemmas
      [launch_one_way], [control_terminal_immutable], [freshness_one_way] and
      [recovery_record_sealed].
    - Ownership of processes: [single_start], [ownership_bounded],
      [launch_outcome_final], [owner_answered], over every interleaving of
      callers, goroutines and the rest of the runtime.
    - Shutdown and update: [shutdown_fences_starts],
      [shutdown_covers_live_runs], [shutdown_outcome_exact],
      [shutdown_answered] and the lemma [lifecycle_single_flight], over every
      interleaving of the owner's steps and the coordinators';
      [plan_read_whole], what a client of any daemon accepts as a plan;
      [update_offer_handoff], what the daemon offers it accepts.
    - Concurrency: [control_effect_once], [control_pending_exact],
      [output_subscriber_exact], [output_bounded], [output_no_lost_wakeup],
      [with_current_unbroken], [gate_single_sampler], over every interleaving;
      [output_bounded] is in the limits that the capture was configured with.
    - The store: [usage_ledger_invariant], over every sequence of
      transactions; [refinement_coverage_advances], [refine_answer_exact],
      [refine_bound_lost_frozen] and [refine_replay_unchanged], over every
      interleaving of refiners with each other and with the removal of events;
      [prompt_lease_exclusive], [prompt_delivered_once],
      [accepted_outcome_closes] and [consolidation_request_once], over every
      interleaving of the ledger's statements; [pressure_due_exact], when a
      fold is asked for; [timestamp_order_exact], that the two stored normal
      forms of a time order rows alike and chronologically.
    - The store file: [compaction_keeps_records], [rollback_keeps_events] and
      [upgrade_publishes_verified], over every history of commands that may
      fail or die at any call, with writes between them;
      [verified_copy_keeps], [audit_merge_exact], [built_copy_verifies] and
      [rollback_guard_exact], what the verification and the guard decide;
      [apply_loop_terminates] and [upgrade_loops_terminate].
    - The spool: [spool_never_loses] and [hook_success_accounted], over every
      interleaving of hooks, drains and fixes whose system calls may fail,
      with processes that die between them; [drain_in_order] (of records that
      their handlers accept) and [refusal_exact] (of one that is refused, which
      goes to the tail of the queue), what a drain alone does.
    - The memory tool: [memory_paths_contained], over every interleaving of
      commands; [rename_exact], [str_replace_exact] and [insert_exact], what a
      command alone does -- a rename, in a table whose paths are their own
      normal form, which creation does not ensure ([rename_leaves_row]).
    - Exact outcomes of decisions: [control_ledger_invariant],
      [continuity_fence_exact], [projection_knowledge_origin],
      [truncate_payload_exact], [workspace_relationship_exact],
      [managed_merge_preserves], [managed_refusal_exact],
      [memory_export_exact], [bridge_import_unaffected].
    - Refinement of a specification: [bytelog_refines_stream], the output ring
      is an unbounded stream with bounded retention;
      [output_subscriber_exact], the frames of a reader are that stream;
      [history_walk_complete], walking history pages yields every row of the
      window once and in order ([history_page_transport]: a page survives its
      transport); [run_pages_complete], walking run pages yields the list.
    - Termination and progress: [control_answered], [upgrade_terminates],
      [upgrade_recovery_converges], [activation_converges].
    - Encodings: [attestation_content_binding], where equal digests mean equal
      content or exhibit a collision of its encodings;
      [attestation_chain_binding] and [delivery_identity_exact], where equal
      heads, rows and observations mean equal histories, reports and places
      when the payloads that are hashed for them do not collide
      ([collision_free] of [RuntimeValues]); [anchor_publish_sound].

    ** Bounds and fuel

    Numeric limits are the source's constants.  These functions run on fuel:
    decimal printing, with the argument's binary length, enough because a
    digit divides by ten ([digits_rev_spec]); the SHA-256 block loop, with the
    number of words, of which each round consumes sixteen; the loops of
    [Truncation], with the payload's length ([prefix_loop_fuel],
    [suffix_loop_fuel]); and the parent loops of [Workspace], with the path's
    length, whose result [workspace_ancestors_exact] gives in closed form; and
    the rounds of [doctor --fix] ([drain_rounds], [requeue_batches]), which the
    source bounds by a clock only: they answer [None] when the fuel is spent,
    and the theorems hold for every fuel.  The loops of actions of a compaction
    and of an upgrade have thirteen turns ([apply_fuel]), the rollback of an
    upgrade seven: more make no difference ([apply_loop_terminates],
    [upgrade_loops_terminate]).  The pages of the rollback guard have one turn
    for each event and one more ([rollback_guard_exact] gives the count in
    closed form).  Everything else is structural.

    No property assumes that hashing is injective.  Where the code relies on
    it, the statement has the collision of two given payloads as its
    alternative ([collision]), or asks that the payloads hashed in the two
    things compared do not collide among themselves ([collision_free], decided
    by evaluation in the witnesses), or, for the registry, that what is added
    has no identity of a registered project or worktree of another root or
    path ([fresh_project], [fresh_worktree] in the steps of [Registry]).

    ** What is not modelled

    Of the replacement of a store: the work copy that the builder filters, the
    sidecar files of SQLite and their clearing, the contents of the lease file,
    torn writes of a journal and the permissions of its files, the progress
    reports, and the capability probes, which answer or fail; the scrub, the
    compatibility policy and the attestation check of a store, which are
    parameters ([Engine]), and the recipe of an upgrade with its migrations
    ([Recipe]).  A new version of a file has an identity of its own: the
    theorems rest on modification times that do not repeat.  The invocations
    are serial, by the exclusive lease.  [Plan], [Apply] and [Status] of a
    compaction and [Prepare] and [Rollback] of an upgrade, which no command
    reaches, are modelled and are not among the requests of the histories.
    The in-place compaction is one atomic call, while the code runs several
    SQL statements and an incremental vacuum; audits of no event (orphans) are
    not among the records whose keeping is shown.

    The tool access values of [domain]; the diagnostics of the hook spool,
    which count and describe files, its batch loader and the observation a
    committed hook sends; the JSON text of spool records (a file is its bytes
    and the record that is decoded from them) and a torn write of one: writing
    the [.tmp] file beside a record, which is never replayed, is one call; the
    handlers that a hook or a replay runs, which are a parameter; the reporting
    queries over the request ledger; of the use cases all but the parts named
    above; the daemon process around the runtime, its sockets and their JSON records, and the processes
    it starts; the SQLite store but for the usage ledger, the refinements, the
    request ledger, the memory tool's files, the order of events and the run
    journals; the rest
    of the command line, which is input and output around these decisions; the textual diff of an
    activation plan; JSON lines of anchor files.  [strings.ToLower] is ASCII
    only, as [GoStrings] explains where it is defined, and a parameter where
    the code lower-cases paths ([Workspace]); the layouts that [time.Parse]
    accepts beyond RFC 3339 are a parameter ([GoTimeText]). *)

From Stdlib Require Export ZArith Lia Bool Ascii String.
From stdpp Require Export base tactics option list numbers gmap strings.

#[global] Open Scope Z_scope.

(** ** Go values *)

(** A Go [error] value.  [Sentinel] is a package-level variable made with
    [errors.New] / [xerrors.New]; [Errorf] is a fresh error without a wrapped
    cause, named by its format string and its arguments; [Wrap] is an error
    made with a [%w] verb; [Typed] is a struct error with its fields and what
    its [Unwrap] method returns; [Joined] is [errors.Join] of two errors. *)
Inductive error :=
| Sentinel (name : string)
| Errorf (format : string) (args : list string)
| Wrap (format : string) (args : list string) (cause : error)
| Typed (type : string) (fields : list string) (cause : error)
| Joined (left right : error).

(** [errors.Is e target] for a sentinel target. *)
Fixpoint errors_is (e : error) (target : string) : bool :=
  match e with
  | Sentinel name => String.eqb name target
  | Errorf _ _ => false
  | Wrap _ _ c => errors_is c target
  | Typed _ _ c => errors_is c target
  | Joined l r => errors_is l target || errors_is r target
  end.

(** A Go pair [(T, error)]: the code never reads the value beside a non-nil
    error, so the two are a sum. *)
Inductive result (A : Type) :=
| Ok (a : A)
| Err (e : error).
Arguments Ok {A} a.
Arguments Err {A} e.

#[global] Instance error_eq_dec : EqDecision error.
Proof. solve_decision. Defined.
#[global] Instance result_eq_dec `{EqDecision A} : EqDecision (result A).
Proof. solve_decision. Defined.

Declare Scope go_scope.
Delimit Scope go_scope with go.

Notation "'let!' x ':=' c1 'in' c2" :=
  (match c1 with Ok x => c2 | Err err => Err err end)
  (at level 10, x pattern, c1 at level 100, c2 at level 200) : go_scope.
Notation "s '=?s' t" := (String.eqb s t) (at level 70) : go_scope.
Notation "s '<>?s' t" := (negb (String.eqb s t)) (at level 70) : go_scope.
#[global] Open Scope go_scope.

Definition is_ok {A} (r : result A) : bool :=
  match r with Ok _ => true | Err _ => false end.

(** The error component of a Go call whose value is discarded. *)
Definition err_of {A} (r : result A) : option error :=
  match r with Ok _ => None | Err e => Some e end.

(** [xerrors.Errorf("...: %w", err)]: the same call with its error wrapped. *)
Definition wrap_err {A} (format : string) (r : result A) : result A :=
  match r with Ok a => Ok a | Err e => Err (Wrap format [] e) end.

(** A sequence of checks, each of which returns an error or nothing: the
    first error. *)
Fixpoint first_err (l : list (option error)) : option error :=
  match l with
  | [] => None
  | Some e :: _ => Some e
  | None :: l => first_err l
  end.
(** [if cond { return err }]. *)
Definition fails (cond : bool) (e : error) : option error := if cond then Some e else None.

Lemma first_err_None l : first_err l = None <-> Forall (fun o => o = None) l.
Proof.
  induction l as [|[e|] l IH]; simpl; [done| |].
  - split; [done|]. by intros [[=] _]%Forall_cons.
  - rewrite IH, Forall_cons. tauto.
Qed.
Lemma fails_None b e : fails b e = None <-> b = false.
Proof. by destruct b. Qed.
Lemma err_of_None {A} (r : result A) : err_of r = None <-> exists a, r = Ok a.
Proof. destruct r; simpl; split; [by eauto|done|done|by intros [? ?]]. Qed.
Lemma err_of_wrap_None {A} f (r : result A) : err_of (wrap_err f r) = None <-> exists a, r = Ok a.
Proof. destruct r; simpl; split; [by eauto|done|done|by intros [? ?]]. Qed.

(** ** Machine integers *)

Definition MaxUint64 : Z := 18446744073709551615.
Definition MaxUint16 : Z := 65535.
Definition MaxInt64 : Z := 9223372036854775807.
Definition MinInt64 : Z := -9223372036854775808.

(** Wrap-around of an unsigned 64-bit result. *)
Definition u64 (z : Z) : Z := z `mod` 2 ^ 64.
(** Two's complement: what an [int] operation leaves of its result. *)
Definition i64 (z : Z) : Z := (z + 2 ^ 63) `mod` 2 ^ 64 - 2 ^ 63.
Lemma i64_succ z : MinInt64 <= z <= MaxInt64 -> i64 (z + 1) = if z =? MaxInt64 then MinInt64 else z + 1.
Proof.
  intros H. unfold i64, MinInt64, MaxInt64 in *. destruct (Z.eqb_spec z 9223372036854775807) as [->|Hne]; [done|].
  rewrite Z.mod_small by lia. lia.
Qed.

(** The range of a [uint64]. *)
Definition is_u64 (z : Z) : Prop := 0 <= z <= MaxUint64.

Lemma u64_small z : is_u64 z -> u64 z = z.
Proof. unfold is_u64, u64, MaxUint64. intros. apply Z.mod_small. lia. Qed.

(** [len(s)] of a Go string or slice. *)
Definition slen (s : string) : Z := Z.of_nat (String.length s).
Definition llen {A} (l : list A) : Z := Z.of_nat (List.length l).

Lemma slen_nonneg s : 0 <= slen s.
Proof. unfold slen. lia. Qed.

(** [slices.Contains]. *)
Definition slices_contains (l : list string) (s : string) : bool :=
  existsb (String.eqb s) l.

Lemma slices_contains_spec l s : slices_contains l s = true <-> s ∈ l.
Proof.
  unfold slices_contains. rewrite existsb_exists, list_elem_of_In. split.
  - intros (x & Hx & Heq). apply String.eqb_eq in Heq. by subst.
  - intros H. exists s. split; [done | apply String.eqb_refl].
Qed.

(** ** Boolean guards

    The code's guards are kept as boolean expressions; [breflect] turns the
    guards found in the hypotheses into propositions. *)

Lemma bool_decide_eq_true_iff (P : Prop) `{Decision P} : bool_decide P = true <-> P.
Proof. apply bool_decide_eq_true. Qed.

Ltac breflect_step :=
  match goal with
  | H : andb _ _ = true |- _ => apply andb_true_iff in H; destruct H
  | H : orb _ _ = false |- _ => apply orb_false_iff in H; destruct H
  | H : negb _ = true |- _ => apply negb_true_iff in H
  | H : negb _ = false |- _ => apply negb_false_iff in H
  | H : String.eqb _ _ = true |- _ => apply String.eqb_eq in H
  | H : String.eqb _ _ = false |- _ => apply String.eqb_neq in H
  | H : Z.ltb _ _ = true |- _ => apply Z.ltb_lt in H
  | H : Z.ltb _ _ = false |- _ => apply Z.ltb_ge in H
  | H : Z.leb _ _ = true |- _ => apply Z.leb_le in H
  | H : Z.leb _ _ = false |- _ => apply Z.leb_gt in H
  | H : Z.eqb _ _ = true |- _ => apply Z.eqb_eq in H
  | H : Z.eqb _ _ = false |- _ => apply Z.eqb_neq in H
  | H : bool_decide _ = true |- _ => apply bool_decide_eq_true in H
  | H : bool_decide _ = false |- _ => apply bool_decide_eq_false in H
  | H : slices_contains _ _ = true |- _ => apply slices_contains_spec in H
  end.
Ltac breflect := repeat breflect_step.

(** Case analysis on every [if] and [match] of the hypotheses and the goal,
    keeping the equations. *)
Ltac split_ifs :=
  repeat (case_match; simplify_eq/=).

(** [ok_inv H] splits a hypothesis about the outcome of a call into the
    guards that led to it, innermost test first, and closes the branches with
    another outcome. *)
Ltac innermost_split H :=
  match type of H with
  | context [match ?x with _ => _ end] =>
      lazymatch x with
      | context [match _ with _ => _ end] => fail
      | _ => let E := fresh "E" in destruct x eqn:E; cbn beta iota in H; try discriminate H
      end
  end.
Ltac ok_inv H := repeat innermost_split H; try (injection H; clear H; intros; subst).
(** The same on the goal. *)
Ltac split_goal :=
  repeat match goal with
         | |- context [match ?x with _ => _ end] =>
             lazymatch x with
             | context [match _ with _ => _ end] => fail
             | _ => let E := fresh "E" in destruct x eqn:E; cbn beta iota; try discriminate
             end
         end.

(** Induction two elements at a time. *)
Lemma two_step_ind {A} (P : list A -> Prop) :
  P [] -> (forall a, P [a]) -> (forall a b l, P l -> P (a :: b :: l)) -> forall l, P l.
Proof.
  intros H0 H1 H2. fix IH 1. intros [|a [|b l]]; [exact H0|apply H1|apply H2, IH].
Qed.

Lemma elem_of_rev {A} (x : A) l : x ∈ rev l <-> x ∈ l.
Proof. by rewrite !list_elem_of_In, <-in_rev. Qed.

(** ** Reachability

    Each state machine of the library gives a step relation; reachability and
    the induction principle for invariants are shared. *)

Section Reach.
Context {S : Type} (step : S -> S -> Prop).

Inductive star : S -> S -> Prop :=
| star_refl s : star s s
| star_step s t u : step s t -> star t u -> star s u.

Lemma star_trans s t u : star s t -> star t u -> star s u.
Proof. induction 1; eauto using star. Qed.

Lemma star_one s t : step s t -> star s t.
Proof. eauto using star. Qed.

(** An invariant preserved by each step holds of every reachable state. *)
Lemma star_invariant (I : S -> Prop) :
  (forall s t, I s -> step s t -> I t) -> forall s t, star s t -> I s -> I t.
Proof. induction 2; eauto. Qed.

(** The same for a reflexive and transitive relation between states. *)
Lemma star_relation (I : S -> Prop) (R : S -> S -> Prop) :
  (forall s, R s s) -> (forall s t u, R s t -> R t u -> R s u) ->
  (forall s t, I s -> step s t -> I t) -> (forall s t, I s -> step s t -> R s t) ->
  forall s t, star s t -> I s -> R s t.
Proof. induction 5; eauto. Qed.
End Reach.

#[export] Hint Constructors star : core.

Create HintDb traceary.
Create Rewrite HintDb go_norm.
#[export] Hint Resolve slen_nonneg star_one : traceary.

(** ** Maps

    [for _, v := range m { if f(v) ... }]: the loop leaves early with the same
    result in whatever order the map is read. *)

Section MapRange.
Context {V : Type}.
Definition map_any (f : V -> bool) (m : gmap string V) : bool :=
  existsb (fun kv => f (snd kv)) (map_to_list m).

Lemma map_any_true f m : map_any f m = true <-> exists k v, m !! k = Some v /\ f v = true.
Proof.
  unfold map_any. rewrite existsb_exists. split.
  - intros ([k v] & Hin & Hf). exists k, v. split; [|done].
    by apply elem_of_map_to_list, list_elem_of_In.
  - intros (k & v & Hk & Hf). exists (k, v). split; [|done].
    by apply list_elem_of_In, elem_of_map_to_list.
Qed.
Lemma map_any_false f m : map_any f m = false <-> forall k v, m !! k = Some v -> f v = false.
Proof.
  rewrite <-not_true_iff_false, map_any_true. split.
  - intros H k v Hk. destruct (f v) eqn:E; [|done]. destruct H. by exists k, v.
  - intros H (k & v & Hk & Hf). by rewrite (H k v Hk) in Hf.
Qed.
End MapRange.

Lemma pair_parts {A B} (a c : A) (b d : B) : (a, b) = (c, d) -> a = c /\ b = d.
Proof. by intros [= -> ->]. Qed.

(** [len(m)]. *)
Definition msize `{Countable K} {V} (m : gmap K V) : Z := Z.of_nat (size m).

Lemma msize_insert_new `{Countable K} {V} (m : gmap K V) k v :
  m !! k = None -> msize (<[k:=v]> m) = msize m + 1.
Proof. intros Hk. unfold msize. rewrite map_size_insert_None by done. lia. Qed.
Lemma msize_insert_old `{Countable K} {V} (m : gmap K V) k v :
  is_Some (m !! k) -> msize (<[k:=v]> m) = msize m.
Proof. intros [w Hk]. unfold msize. by erewrite map_size_insert_Some. Qed.
Lemma msize_delete `{Countable K} {V} (m : gmap K V) k :
  is_Some (m !! k) -> msize (delete k m) = msize m - 1.
Proof.
  intros [w Hk]. unfold msize. erewrite map_size_delete_Some by done.
  assert (size m <> 0%nat) by (intros E%map_size_empty_inv; subst; done). lia.
Qed.
Lemma msize_nonneg `{Countable K} {V} (m : gmap K V) : 0 <= msize m.
Proof. unfold msize. lia. Qed.
#[export] Hint Resolve msize_nonneg : traceary.

(** Instantiates the negative outcome of a map loop at a known entry. *)
Ltac map_any_use :=
  match goal with
  | H : map_any ?f ?m = false, Hk : ?m !! ?k = Some ?v |- _ =>
      let H' := fresh "Hloop" in
      pose proof (proj1 (map_any_false f m) H k v Hk) as H'; cbn beta in H'; breflect
  end.

(** Closes an equation between closed terms by evaluating its left side. *)
Ltac vm_refl := match goal with |- _ = ?b => vm_cast_no_check (eq_refl b) end.

(** Two equations give one expression two different string constants. *)
Ltac str_contra :=
  exfalso;
  match goal with
  | H1 : ?x = ?a, H2 : ?x = ?b |- _ => rewrite H1 in H2; discriminate H2
  end.

(** The number of entries of a map that satisfy a test. *)
Section MapCount.
Context `{Countable K} {V : Type} (f : V -> bool).
Definition mcount (m : gmap K V) : Z := msize (filter (fun kv => f (snd kv) = true) m).
Definition b2z (b : bool) : Z := if b then 1 else 0.

Lemma mcount_empty : mcount ∅ = 0.
Proof. unfold mcount. by rewrite map_filter_empty. Qed.
Lemma mcount_nonneg m : 0 <= mcount m.
Proof. apply msize_nonneg. Qed.
Lemma mcount_le m : mcount m <= msize m.
Proof.
  unfold mcount, msize. apply inj_le, map_subseteq_size, map_filter_subseteq.
Qed.
Lemma mcount_insert_new m k v :
  m !! k = None -> mcount (<[k:=v]> m) = mcount m + b2z (f v).
Proof.
  intros Hk. unfold mcount, b2z. destruct (f v) eqn:E.
  - rewrite map_filter_insert_True by done. apply msize_insert_new.
    apply map_lookup_filter_None. by left.
  - rewrite map_filter_insert_False by (simpl; congruence).
    rewrite delete_id by done. lia.
Qed.
Lemma mcount_delete m k v :
  m !! k = Some v -> mcount (delete k m) = mcount m - b2z (f v).
Proof.
  intros Hk.
  assert (Hc : mcount (<[k:=v]> (delete k m)) = mcount (delete k m) + b2z (f v))
    by (apply mcount_insert_new, lookup_delete_eq).
  rewrite insert_delete_id in Hc by done. lia.
Qed.
Lemma mcount_insert_old m k v w :
  m !! k = Some v -> f w = f v -> mcount (<[k:=w]> m) = mcount m.
Proof.
  intros Hk Hf. rewrite <-insert_delete_eq, mcount_insert_new by apply lookup_delete_eq.
  rewrite (mcount_delete _ _ _ Hk), Hf. lia.
Qed.
Lemma mcount_update m k v w :
  m !! k = Some v -> mcount (<[k:=w]> m) = mcount m - b2z (f v) + b2z (f w).
Proof.
  intros Hk. rewrite <-insert_delete_eq, mcount_insert_new by apply lookup_delete_eq.
  by rewrite (mcount_delete _ _ _ Hk).
Qed.
End MapCount.

#[export] Hint Resolve mcount_nonneg mcount_le : traceary.

#[global] Arguments mcount {K _ _ V} f m : simpl never.
#[global] Arguments msize {K _ _ V} m : simpl never.
#[global] Arguments slen s : simpl never.
#[global] Arguments llen {A} l : simpl never.
#[global] Arguments u64 z : simpl never.
#[global] Arguments slices_contains l s : simpl never.

(** The entries that satisfy a test and those that do not are all of them. *)
Lemma mcount_split `{Countable K} {V} (f : V -> bool) (m : gmap K V) :
  mcount f m + mcount (fun v => negb (f v)) m = msize m.
Proof.
  induction m as [|k v m Hk IH] using map_ind.
  - rewrite !mcount_empty. unfold msize. by rewrite map_size_empty.
  - rewrite !mcount_insert_new, msize_insert_new by done.
    cbn beta. destruct (f v); simpl; lia.
Qed.
