(* ===== verification/GoStrings.v ===== *)
(** * Go strings

    A Go string is a sequence of bytes, here a [string] whose characters are
    the bytes.  This file models the parts of the Go standard library the
    domain packages use on strings: UTF-8 decoding, [strings.TrimSpace],
    prefixes, [strings.ReplaceAll] / [Split] / [Join], [path.Clean],
    [strconv] decimal numbers and [encoding/hex]. *)

From S2P Require Import Prelude.

(** ** Bytes *)

Definition byte_val (c : ascii) : Z := Z.of_N (N_of_ascii c).
Definition byte_chr (z : Z) : ascii := ascii_of_N (Z.to_N z).

Definition explode (s : string) : list ascii := list_ascii_of_string s.
Definition implode (l : list ascii) : string := string_of_list_ascii l.

Lemma implode_explode s : implode (explode s) = s.
Proof. apply string_of_list_ascii_of_string. Qed.
Lemma explode_implode l : explode (implode l) = l.
Proof. apply list_ascii_of_string_of_list_ascii. Qed.
Lemma explode_inj s t : explode s = explode t -> s = t.
Proof. intros H. by rewrite <-(implode_explode s), H, implode_explode. Qed.
Lemma length_explode s : List.length (explode s) = String.length s.
Proof. induction s; simpl; congruence. Qed.
Lemma explode_app s t : explode (s +:+ t) = explode s ++ explode t.
Proof. induction s; simpl; [done|]. unfold explode in *. f_equal. done. Qed.
Lemma implode_app l k : implode (l ++ k) = implode l +:+ implode k.
Proof. apply explode_inj. by rewrite explode_app, !explode_implode. Qed.

Lemma byte_val_range c : 0 <= byte_val c < 256.
Proof.
  unfold byte_val. pose proof (N_ascii_bounded c). lia.
Qed.
Lemma byte_chr_val c : byte_chr (byte_val c) = c.
Proof. unfold byte_chr, byte_val. by rewrite N2Z.id, ascii_N_embedding. Qed.
Lemma byte_val_chr z : 0 <= z < 256 -> byte_val (byte_chr z) = z.
Proof.
  intros H. unfold byte_chr, byte_val. rewrite N_ascii_embedding; lia.
Qed.

Lemma slen_app s t : slen (s +:+ t) = slen s + slen t.
Proof.
  unfold slen. rewrite <-!length_explode, explode_app, length_app. lia.
Qed.

Lemma slen_0 s : slen s = 0 -> s = "".
Proof. destruct s; [done|]. unfold slen. simpl. lia. Qed.

(** Append is cancellable on both sides. *)
Lemma string_app_inj_l (p s t : string) : p +:+ s = p +:+ t -> s = t.
Proof.
  intros H. apply explode_inj. apply (f_equal explode) in H.
  rewrite !explode_app in H. by apply app_inv_head in H.
Qed.
Lemma string_app_inj (s1 s2 t1 t2 : string) :
  slen s1 = slen s2 -> s1 +:+ t1 = s2 +:+ t2 -> s1 = s2 /\ t1 = t2.
Proof.
  intros Hl H. apply (f_equal explode) in H. rewrite !explode_app in H.
  unfold slen in Hl. apply app_inj_1 in H as [H1 H2].
  - split; by apply explode_inj.
  - rewrite !length_explode. lia.
Qed.

(** ** UTF-8 *)

Definition RuneError : Z := 65533.

(** [utf8.RuneStart]: not a continuation byte. *)
Definition in_range (lo hi b : Z) : bool := (lo <=? b) && (b <=? hi).
Definition cont (b : Z) : bool := in_range 128 191 b.

(** [utf8.DecodeRune]: the first rune and its width; [(RuneError, 1)] on an
    invalid encoding and [(RuneError, 0)] on empty input. *)
Definition decode_rune (l : list ascii) : Z * nat :=
  match map byte_val (take 4 l) with
  | [] => (RuneError, 0%nat)
  | b0 :: t =>
      if b0 <? 128 then (b0, 1%nat)
      else if in_range 194 223 b0 then
        match t with
        | b1 :: _ => if cont b1 then ((b0 - 192) * 64 + (b1 - 128), 2%nat) else (RuneError, 1%nat)
        | _ => (RuneError, 1%nat)
        end
      else if in_range 224 239 b0 then
        let lo := if b0 =? 224 then 160 else 128 in
        let hi := if b0 =? 237 then 159 else 191 in
        match t with
        | b1 :: b2 :: _ =>
            if in_range lo hi b1 && cont b2
            then ((b0 - 224) * 4096 + (b1 - 128) * 64 + (b2 - 128), 3%nat)
            else (RuneError, 1%nat)
        | _ => (RuneError, 1%nat)
        end
      else if in_range 240 244 b0 then
        let lo := if b0 =? 240 then 144 else 128 in
        let hi := if b0 =? 244 then 143 else 191 in
        match t with
        | b1 :: b2 :: b3 :: _ =>
            if in_range lo hi b1 && cont b2 && cont b3
            then ((b0 - 240) * 262144 + (b1 - 128) * 4096 + (b2 - 128) * 64 + (b3 - 128), 4%nat)
            else (RuneError, 1%nat)
        | _ => (RuneError, 1%nat)
        end
      else (RuneError, 1%nat)
  end.

(** [for _, r := range s]: the runes of [s]; [skip] bytes belong to the rune
    read last. *)
Fixpoint runes_go (skip : nat) (l : list ascii) : list (Z * nat) :=
  match l with
  | [] => []
  | _ :: t =>
      match skip with
      | S k => runes_go k t
      | O => let rw := decode_rune l in rw :: runes_go (pred (snd rw)) t
      end
  end.
Definition range_runes (s : string) : list Z := map fst (runes_go 0 (explode s)).

(** [utf8.ValidString]: no rune is an invalid byte. *)
Definition valid_utf8 (s : string) : bool :=
  forallb (fun rw => negb ((fst rw =? RuneError) && (snd rw =? 1)%nat)) (runes_go 0 (explode s)).

(** [utf8.AppendRune] of a decoded rune. *)
Definition encode_rune (r : Z) : list ascii :=
  map byte_chr
    (if r <? 128 then [r]
     else if r <? 2048 then [192 + r / 64; 128 + r `mod` 64]
     else if r <? 65536 then [224 + r / 4096; 128 + (r / 64) `mod` 64; 128 + r `mod` 64]
     else [240 + r / 262144; 128 + (r / 4096) `mod` 64; 128 + (r / 64) `mod` 64; 128 + r `mod` 64]).

(** [unicode.IsSpace] and [unicode.IsControl]. *)
Definition space_runes : list Z :=
  [9; 10; 11; 12; 13; 32; 133; 160; 5760; 8192; 8193; 8194; 8195; 8196; 8197; 8198;
   8199; 8200; 8201; 8202; 8232; 8233; 8239; 8287; 12288].
Definition is_space_rune (r : Z) : bool := existsb (Z.eqb r) space_runes.
Definition is_control_rune (r : Z) : bool := in_range 0 31 r || in_range 127 159 r.

(** A test that holds of ASCII only reads runes and bytes alike. *)
Section AsciiRunes.
Context (p : Z -> bool) (Hp : forall z, p z = true -> z < 128).

Lemma decode_rune_ascii c t : byte_val c < 128 -> decode_rune (c :: t) = (byte_val c, 1%nat).
Proof. intros H. unfold decode_rune. simpl. apply Z.ltb_lt in H. by rewrite H. Qed.
Lemma decode_rune_high c t : 128 <= byte_val c -> 128 <= fst (decode_rune (c :: t)).
Proof.
  intros H. unfold decode_rune. simpl map. cbn iota.
  replace (byte_val c <? 128) with false by (symmetry; apply Z.ltb_ge; lia).
  destruct (in_range 194 223 _) eqn:E1; [|destruct (in_range 224 239 _) eqn:E2;
    [|destruct (in_range 240 244 _) eqn:E3; [|done]]];
    cbv zeta; split_goal; simpl; unfold RuneError, in_range, cont in *; unfold in_range in *;
    breflect; try lia; destruct (_ =? _) eqn:?; breflect; try lia.
Qed.

Lemma forallb_runes_ascii l :
  forallb p (map fst (runes_go 0 l)) = forallb (fun c => p (byte_val c)) l.
Proof.
  induction l as [|c t IH]; [done|]. simpl runes_go. destruct (Z.ltb_spec (byte_val c) 128).
  - rewrite decode_rune_ascii by done. simpl. by rewrite IH.
  - pose proof (decode_rune_high c t ltac:(lia)). simpl.
    destruct (p (fst _)) eqn:E; [apply Hp in E; lia|].
    destruct (p (byte_val c)) eqn:E'; [apply Hp in E'; lia|]. done.
Qed.
End AsciiRunes.

(** ** strings.TrimSpace

    A prefix of a string decodes to a white-space rune exactly when the
    encoding of one is a prefix of its bytes, and the same for suffixes, so
    trimming strips encodings of white space from both ends. *)

Section Strip.
Context (encs : list (list ascii)).

Fixpoint is_prefix (p l : list ascii) : bool :=
  match p, l with
  | [], _ => true
  | a :: p', b :: l' => Ascii.eqb a b && is_prefix p' l'
  | _, [] => false
  end.

(** The width of the first of [encs] that [l] starts with, or 0. *)
Definition enc_width (l : list ascii) : nat :=
  match List.find (fun e => is_prefix e l) encs with
  | Some e => List.length e
  | None => 0
  end.

Fixpoint strip_go (skip : nat) (l : list ascii) : list ascii :=
  match l with
  | [] => []
  | _ :: t =>
      match skip with
      | S k => strip_go k t
      | O => match enc_width l with
             | O => l
             | S k => strip_go k t
             end
      end
  end.
Definition strip (l : list ascii) : list ascii := strip_go 0 l.
End Strip.

Definition space_encs : list (list ascii) := map encode_rune space_runes.
Definition space_encs_rev : list (list ascii) := map (@rev ascii) space_encs.

Definition trim_bytes (l : list ascii) : list ascii :=
  rev (strip space_encs_rev (rev (strip space_encs l))).
Definition TrimSpace (s : string) : string := implode (trim_bytes (explode s)).

Lemma is_prefix_app p l k : is_prefix p l = true -> is_prefix p (l ++ k) = true.
Proof.
  revert l. induction p as [|a p IH]; intros [|b l]; simpl; try done.
  intros H. breflect. rewrite H. simpl. by apply IH.
Qed.

Lemma is_prefix_spec p l : is_prefix p l = true <-> exists k, l = p ++ k.
Proof.
  split.
  - revert l. induction p as [|a p IH]; intros l; [by exists l|].
    destruct l as [|b l]; simpl; [done|]. intros H. breflect.
    apply Ascii.eqb_eq in H as ->. destruct (IH _ H0) as [k ->]. by exists k.
  - intros [k ->]. apply is_prefix_app. induction p; simpl; [done|].
    by rewrite Ascii.eqb_refl.
Qed.

Section StripFacts.
Context (encs : list (list ascii)).
Hypothesis encs_nonempty : Forall (fun e => e <> []) encs.

Lemma enc_width_0 l :
  enc_width encs l = 0%nat <-> forall e, e ∈ encs -> is_prefix e l = false.
Proof using encs_nonempty.
  unfold enc_width. destruct (List.find _ encs) as [e|] eqn:E.
  - apply find_some in E as [Hin Hp]. rewrite <-list_elem_of_In in Hin.
    rewrite Forall_forall in encs_nonempty. split.
    + intros H%nil_length_inv. by destruct (encs_nonempty _ Hin).
    + intros H. by rewrite H in Hp.
  - split; [|done]. intros _ e He. apply (find_none _ _ E), list_elem_of_In, He.
Qed.

Lemma strip_go_suffix skip l : exists k, l = k ++ strip_go encs skip l.
Proof using Type.
  revert skip. induction l as [|c t IH]; intros skip; [by exists []|]. simpl.
  destruct skip as [|k]; [destruct (enc_width encs (c :: t)) as [|k]; [by exists []|]|];
    destruct (IH k) as [p Hp]; exists (c :: p); simpl; congruence.
Qed.

Lemma strip_go_width skip l : enc_width encs (strip_go encs skip l) = 0%nat.
Proof using encs_nonempty.
  revert skip. induction l as [|c t IH]; intros skip.
  - apply enc_width_0. intros [|a e] He; [|done].
    rewrite Forall_forall in encs_nonempty. by destruct (encs_nonempty _ He).
  - simpl. destruct skip as [|k]; [|apply IH].
    destruct (enc_width encs (c :: t)) as [|k] eqn:E; [done|apply IH].
Qed.

Lemma strip_id l : enc_width encs l = 0%nat -> strip encs l = l.
Proof using Type. unfold strip. destruct l; simpl; [done|]. by intros ->. Qed.

Lemma strip_idemp l : strip encs (strip encs l) = strip encs l.
Proof using encs_nonempty. apply strip_id, strip_go_width. Qed.
End StripFacts.

Lemma space_encs_nonempty : Forall (fun e => e <> []) space_encs.
Proof. by apply Forall_forall; vm_compute; intros e He; repeat (apply elem_of_cons in He as [->|He]); try apply elem_of_nil in He. Qed.
Lemma space_encs_rev_nonempty : Forall (fun e => e <> []) space_encs_rev.
Proof. by apply Forall_forall; vm_compute; intros e He; repeat (apply elem_of_cons in He as [->|He]); try apply elem_of_nil in He. Qed.

(** Trimming leaves no white space at either end, and trimming again changes
    nothing. *)
Definition trimmed (l : list ascii) : Prop :=
  enc_width space_encs l = 0%nat /\ enc_width space_encs_rev (rev l) = 0%nat.

Lemma trim_bytes_trimmed l : trimmed (trim_bytes l).
Proof.
  unfold trimmed, trim_bytes. rewrite rev_involutive. split.
  - set (a := strip space_encs l).
    assert (Ha : enc_width space_encs a = 0%nat)
      by (apply strip_go_width, space_encs_nonempty).
    destruct (strip_go_suffix space_encs_rev 0 (rev a)) as [k Hk].
    apply (f_equal (@rev ascii)) in Hk. rewrite rev_involutive, rev_app_distr in Hk.
    apply (enc_width_0 _ space_encs_nonempty). intros e He.
    rewrite (enc_width_0 _ space_encs_nonempty) in Ha. specialize (Ha e He).
    apply not_true_is_false. intros E.
    rewrite Hk, (is_prefix_app _ _ _ E) in Ha. done.
  - apply strip_go_width, space_encs_rev_nonempty.
Qed.

Lemma trim_bytes_id l : trimmed l -> trim_bytes l = l.
Proof.
  intros [H1 H2]. unfold trim_bytes. rewrite (strip_id _ _ H1), (strip_id _ _ H2).
  apply rev_involutive.
Qed.

Lemma TrimSpace_idemp s : TrimSpace (TrimSpace s) = TrimSpace s.
Proof.
  unfold TrimSpace. rewrite explode_implode. f_equal.
  apply trim_bytes_id, trim_bytes_trimmed.
Qed.

Lemma trim_bytes_length l : (List.length (trim_bytes l) <= List.length l)%nat.
Proof.
  unfold trim_bytes. rewrite length_rev.
  destruct (strip_go_suffix space_encs_rev 0 (rev (strip space_encs l))) as [k Hk].
  destruct (strip_go_suffix space_encs 0 l) as [k' Hk'].
  apply (f_equal (@List.length ascii)) in Hk, Hk'.
  rewrite length_app, ?length_rev in *. unfold strip in *. lia.
Qed.

Lemma TrimSpace_length s : slen (TrimSpace s) <= slen s.
Proof.
  unfold slen, TrimSpace. rewrite <-!length_explode, explode_implode.
  pose proof (trim_bytes_length (explode s)). lia.
Qed.
(** A string that starts and ends with a visible ASCII byte is trimmed. *)
Definition graphic (c : ascii) : bool := in_range 33 126 (byte_val c).

Lemma graphic_width c l : graphic c = true ->
  enc_width space_encs (c :: l) = 0%nat /\ enc_width space_encs_rev (c :: l) = 0%nat.
Proof.
  intros Hc. destruct c as [[] [] [] [] [] [] [] []]; try discriminate Hc; split; reflexivity.
Qed.

Lemma trimmed_ends c d l : graphic c = true -> graphic d = true ->
  trimmed [c] /\ trimmed (c :: l ++ [d]).
Proof.
  intros Hc Hd. unfold trimmed. cbn [rev app]. rewrite rev_app_distr. cbn [rev app].
  split; (split; [exact (proj1 (graphic_width c _ Hc))|]).
  - exact (proj2 (graphic_width c [] Hc)).
  - exact (proj2 (graphic_width d _ Hd)).
Qed.

Lemma TrimSpace_graphic s : forallb graphic (explode s) = true -> TrimSpace s = s.
Proof.
  intros H. unfold TrimSpace. rewrite <-(implode_explode s) at 2. f_equal. apply trim_bytes_id.
  destruct (explode s) as [|c l]; [done|]. cbn [forallb] in H. apply andb_true_iff in H as [Hc Hl].
  destruct l as [|d l _] using rev_ind; [exact (proj1 (trimmed_ends c c [] Hc Hc))|].
  rewrite forallb_app in Hl. apply andb_true_iff in Hl as [_ Hd]. cbn in Hd.
  apply andb_true_iff in Hd as [Hd _]. exact (proj2 (trimmed_ends c d l Hc Hd)).
Qed.
Lemma TrimSpace_ends s c l d : explode s = c :: l ++ [d] -> graphic c = true -> graphic d = true -> TrimSpace s = s.
Proof.
  intros E Hc Hd. unfold TrimSpace. rewrite <-(implode_explode s) at 2. f_equal. rewrite E. by apply trim_bytes_id, trimmed_ends.
Qed.
(** Trimming keeps a prefix that starts and ends with a visible character. *)
Lemma strip_go_keeps encs d q :
  (forall e, e ∈ encs -> d ∉ e) ->
  forall l skip, d ∉ take skip (l ++ d :: q) -> exists l', strip_go encs skip (l ++ d :: q) = l' ++ d :: q.
Proof.
  intros Hd. induction l as [|c l IH]; intros skip Hs; simpl in *.
  - destruct skip as [|k]; [|simpl in Hs; apply not_elem_of_cons in Hs as [? _]; done].
    destruct (enc_width encs (d :: q)) as [|k] eqn:E; [by exists []|].
    unfold enc_width in E. destruct (List.find _ encs) as [e|] eqn:Ef; [|done].
    apply find_some in Ef as [Hin Hp]. apply list_elem_of_In in Hin. destruct e as [|a e]; [done|].
    simpl in Hp. apply andb_true_iff in Hp as [Ha _]. apply Ascii.eqb_eq in Ha as ->.
    destruct (Hd _ Hin). by left.
  - destruct skip as [|k].
    + destruct (enc_width encs (c :: l ++ d :: q)) as [|k] eqn:E; [by exists (c :: l)|].
      apply IH. intros Hin. unfold enc_width in E. destruct (List.find _ encs) as [e|] eqn:Ef; [|done].
      apply find_some in Ef as [Hine Hp]. apply list_elem_of_In in Hine. destruct e as [|a e]; [done|].
      simpl in E. injection E as <-. simpl in Hp. apply andb_true_iff in Hp as [_ Hp].
      apply is_prefix_spec in Hp as [t Ht]. rewrite Ht, take_app_length in Hin.
      apply (Hd _ Hine). by right.
    + apply IH. simpl in Hs. by apply not_elem_of_cons in Hs as [_ ?].
Qed.

Lemma graphic_not_space d e : graphic d = true -> e ∈ space_encs_rev -> d ∉ e.
Proof.
  intros Hd He Hin.
  assert (H : forallb (forallb (fun c => negb (graphic c))) space_encs_rev = true) by (by vm_compute).
  rewrite forallb_forall in H. apply list_elem_of_In in He. specialize (H e He).
  rewrite forallb_forall in H. apply list_elem_of_In in Hin. specialize (H d Hin). by rewrite Hd in H.
Qed.

Definition graphic_ends (p : list ascii) : bool :=
  match p, rev p with c :: _, d :: _ => graphic c && graphic d | _, _ => false end.

Lemma TrimSpace_prefix p r : graphic_ends p = true ->
  exists r', TrimSpace (implode (p ++ r)) = implode (p ++ r').
Proof.
  unfold graphic_ends. intros H. destruct p as [|c p]; [done|]. destruct (rev (c :: p)) as [|d q] eqn:Er; [done|].
  apply andb_true_iff in H as [Hc Hd]. unfold TrimSpace. rewrite explode_implode. unfold trim_bytes.
  rewrite (strip_id space_encs) by exact (proj1 (graphic_width c (p ++ r) Hc)).
  rewrite rev_app_distr, Er.
  destruct (strip_go_keeps space_encs_rev d q (fun e He => graphic_not_space d e Hd He) (rev r) 0) as [l' Hl'];
    [simpl; by intros ?%elem_of_nil|].
  unfold strip. rewrite Hl', rev_app_distr, <-Er, rev_involutive. by exists (rev l').
Qed.
(** What ends with a visible character is not empty when trimmed. *)
Lemma TrimSpace_visible x (d : ascii) : graphic d = true -> (TrimSpace (x +:+ String d "") =?s "") = false.
Proof.
  intros Hd. apply String.eqb_neq. unfold TrimSpace, trim_bytes. rewrite explode_app. change (explode (String d "")) with [d].
  destruct (strip_go_keeps space_encs d []) with (l := explode x) (skip := 0%nat) as [l' Hl'].
  - intros e He Hin. apply (graphic_not_space d (rev e) Hd); [|by apply elem_of_rev]. unfold space_encs_rev. apply list_elem_of_fmap. by exists e.
  - cbn. by intros ?%elem_of_nil.
  - unfold strip at 2. rewrite Hl', rev_app_distr. cbn [rev app]. rewrite strip_id by exact (proj2 (graphic_width d (rev l') Hd)).
    cbn [rev]. rewrite rev_involutive. intros H. apply (f_equal explode) in H. rewrite explode_implode in H. by apply app_nil in H as [_ ?].
Qed.
#[export] Hint Rewrite TrimSpace_idemp : go_norm.
#[global] Opaque TrimSpace.

(** ** Searching and replacing *)

Definition HasPrefix (s p : string) : bool := is_prefix (explode p) (explode s).
Definition HasSuffix (s p : string) : bool := is_prefix (rev (explode p)) (rev (explode s)).
(** [strings.TrimPrefix] and [strings.TrimSuffix]. *)
Definition TrimPrefix (s p : string) : string :=
  if HasPrefix s p then implode (drop (String.length p) (explode s)) else s.
Definition TrimSuffix (s p : string) : string :=
  if HasSuffix s p then implode (take (String.length s - String.length p) (explode s)) else s.

(** [strings.Index]: the first offset at which [p] occurs, or -1. *)
Fixpoint index_go (p l : list ascii) (i : Z) : Z :=
  if is_prefix p l then i
  else match l with [] => -1 | _ :: t => index_go p t (i + 1) end.
Definition Index (s p : string) : Z := index_go (explode p) (explode s) 0.
(** [strings.LastIndex]: the last offset, or -1. *)
Fixpoint last_index_go (p l : list ascii) (i : Z) : Z :=
  match l with
  | [] => if is_prefix p l then i else -1
  | _ :: t => let j := last_index_go p t (i + 1) in
              if j =? -1 then (if is_prefix p l then i else -1) else j
  end.
Definition LastIndex (s p : string) : Z := last_index_go (explode p) (explode s) 0.
(** The slice expressions [s[from:]] and [s[:to]], in range. *)
Definition slice_from (s : string) (from : Z) : string := implode (drop (Z.to_nat from) (explode s)).
Definition slice_to (s : string) (to : Z) : string := implode (take (Z.to_nat to) (explode s)).
(** The first component of [strings.Cut]. *)
Definition Cut_before (s sep : string) : string :=
  let i := Index s sep in if i <? 0 then s else slice_to s i.
Definition Contains (s p : string) : bool := negb (Index s p =? -1).
(** [strings.ContainsAny] for a set of ASCII bytes. *)
Definition ContainsAny (s : string) (set : list ascii) : bool :=
  existsb (fun c => existsb (Ascii.eqb c) set) (explode s).

(** ** Prefixes and suffixes *)

Lemma str_app_assoc (s t u : string) : (s +:+ t) +:+ u = s +:+ t +:+ u.
Proof. apply explode_inj. by rewrite !explode_app, app_assoc. Qed.
Lemma str_app_nil_r (s : string) : s +:+ "" = s.
Proof. apply explode_inj. by rewrite explode_app, app_nil_r. Qed.
Lemma slice_to_app s t : slice_to (s +:+ t) (llen (explode s)) = s.
Proof. unfold slice_to, llen. rewrite Nat2Z.id, explode_app, take_app_length. apply implode_explode. Qed.
Lemma slice_from_app s t : slice_from (s +:+ t) (llen (explode s)) = t.
Proof. unfold slice_from, llen. rewrite Nat2Z.id, explode_app, drop_app_length. apply implode_explode. Qed.
Lemma HasPrefix_app s t : HasPrefix (s +:+ t) s = true.
Proof. unfold HasPrefix. rewrite explode_app. apply is_prefix_spec. eauto. Qed.
Lemma HasPrefix_spec s p : HasPrefix s p = true -> exists t, s = p +:+ t.
Proof.
  unfold HasPrefix. intros [k Hk]%is_prefix_spec. exists (implode k). apply explode_inj. by rewrite explode_app, explode_implode.
Qed.
Lemma HasPrefix_same s p q : HasPrefix (s +:+ p) (s +:+ q) = HasPrefix p q.
Proof.
  unfold HasPrefix. rewrite !explode_app. induction (explode s) as [|a l IH]; [done|]. cbn [app is_prefix]. by rewrite Ascii.eqb_refl.
Qed.
Lemma TrimPrefix_app s t : TrimPrefix (s +:+ t) s = t.
Proof.
  unfold TrimPrefix. rewrite HasPrefix_app, explode_app, <-length_explode, drop_app_length. apply implode_explode.
Qed.
Lemma HasSuffix_app s p : HasSuffix (s +:+ p) p = true.
Proof. unfold HasSuffix. rewrite explode_app, rev_app_distr. apply is_prefix_spec. eauto. Qed.
Lemma HasSuffix_spec s p : HasSuffix s p = true -> exists x, s = x +:+ p.
Proof.
  unfold HasSuffix. intros [k Hk]%is_prefix_spec. exists (implode (rev k)). apply explode_inj. rewrite explode_app, explode_implode.
  rewrite <-(rev_involutive (explode s)), Hk, rev_app_distr, rev_involutive. done.
Qed.
Lemma TrimSuffix_app s p : TrimSuffix (s +:+ p) p = s.
Proof.
  unfold TrimSuffix. rewrite HasSuffix_app. apply explode_inj. rewrite explode_implode, explode_app, <-!length_explode, explode_app, length_app.
  replace (_ + _ - _)%nat with (List.length (explode s)) by lia. by rewrite take_app_length.
Qed.

(** [strings.ReplaceAll] of one byte by another. *)
Definition ReplaceByte (s : string) (a b : ascii) : string :=
  implode (map (fun c => if Ascii.eqb c a then b else c) (explode s)).

(** [strings.ToLower] on ASCII.  The domain compares a string with its lower
    case only beside [hex.DecodeString], which rejects every non-ASCII
    string, and otherwise lower-cases to compare. *)
Definition lower_chr (c : ascii) : ascii :=
  if in_range 65 90 (byte_val c) then byte_chr (byte_val c + 32) else c.
Definition ToLower (s : string) : string := implode (map lower_chr (explode s)).

(** [strings.Split] on a one-byte separator, and [strings.Join]. *)
Fixpoint split_go (sep : ascii) (cur : list ascii) (l : list ascii) : list string :=
  match l with
  | [] => [implode (rev cur)]
  | c :: t => if Ascii.eqb c sep then implode (rev cur) :: split_go sep [] t
              else split_go sep (c :: cur) t
  end.
Definition Split (s : string) (sep : ascii) : list string := split_go sep [] (explode s).

Fixpoint Join (l : list string) (sep : string) : string :=
  match l with
  | [] => ""
  | [s] => s
  | s :: t => s +:+ sep +:+ Join t sep
  end.

Definition slash : ascii := "/"%char.
Definition backslash : ascii := "\"%char.

(** ** path.Clean, path.Dir and path.Base

    [filepath.Clean] and [path.Clean] agree on Unix.  Both read the elements
    between slashes, drop [""] and ["."], and let [".."] remove the element
    before it unless that is another [".."] or the root. *)

Fixpoint clean_elems (rooted : bool) (stack : list string) (l : list string) : list string :=
  match l with
  | [] => rev stack
  | e :: t =>
      if (e =?s "") || (e =?s ".") then clean_elems rooted stack t
      else if e =?s ".." then
        match stack with
        | top :: below => if top =?s ".." then clean_elems rooted (e :: stack) t
                          else clean_elems rooted below t
        | [] => clean_elems rooted (if rooted then [] else [e]) t
        end
      else clean_elems rooted (e :: stack) t
  end.

Definition Clean (p : string) : string :=
  let rooted := HasPrefix p "/" in
  let body := Join (clean_elems rooted [] (Split p slash)) "/" in
  if rooted then "/" +:+ body else if body =?s "" then "." else body.

(** [path.Dir] of a cleaned path: what is before the last slash, cleaned. *)
Definition Dir (p : string) : string :=
  let i := LastIndex p "/" in
  Clean (implode (take (Z.to_nat (i + 1)) (explode p))).

(** [path.Base]: the last element, ["/"] for a path of slashes only. *)
Fixpoint drop_trailing (c : ascii) (l : list ascii) : list ascii :=
  match l with a :: t => if Ascii.eqb a c then drop_trailing c t else l | [] => [] end.
Definition Base (p : string) : string :=
  if p =?s "" then "."
  else
    let q := implode (rev (drop_trailing slash (rev (explode p)))) in
    let i := LastIndex q "/" in
    let b := if 0 <=? i then implode (drop (Z.to_nat (i + 1)) (explode q)) else q in
    if b =?s "" then "/" else b.

(** ** Decimal numbers *)

Definition digit_chr (d : Z) : ascii := byte_chr (48 + d).
Definition is_digit (c : ascii) : bool := in_range 48 57 (byte_val c).

(** [strconv.FormatUint(n, 10)]: the digits, least significant first; [fuel]
    bounds their number. *)
Fixpoint digits_rev (fuel : nat) (n : Z) : list ascii :=
  match fuel with
  | O => []
  | S f => digit_chr (n `mod` 10) :: (if n / 10 =? 0 then [] else digits_rev f (n / 10))
  end.
Definition FormatUint (n : Z) : string :=
  implode (rev (digits_rev (S (Z.to_nat (Z.log2 n))) n)).
(** [strconv.Itoa]. *)
Definition Itoa (n : Z) : string := if n <? 0 then "-" +:+ FormatUint (- n) else FormatUint n.

(** The value of a digit string, [None] when empty or not all digits. *)
Definition digits_val (l : list ascii) : Z := fold_left (fun acc c => acc * 10 + (byte_val c - 48)) l 0.
Definition parse_digits (l : list ascii) : option Z :=
  match l with [] => None | _ => if forallb is_digit l then Some (digits_val l) else None end.

(** [strconv.ParseUint(s, 10, 64)]. *)
Definition ParseUint (s : string) : option Z :=
  match parse_digits (explode s) with
  | Some n => if n <=? MaxUint64 then Some n else None
  | None => None
  end.

(** [strconv.Atoi]: an optional sign, digits, and the range of [int]. *)
Definition Atoi (s : string) : option Z :=
  let v := match explode s with
           | c :: t => if Ascii.eqb c "-"%char then option_map Z.opp (parse_digits t)
                       else if Ascii.eqb c "+"%char then parse_digits t
                       else parse_digits (c :: t)
           | [] => None
           end in
  match v with
  | Some n => if (MinInt64 <=? n) && (n <=? MaxInt64) then Some n else None
  | None => None
  end.

Lemma digit_chr_val d : 0 <= d < 10 -> byte_val (digit_chr d) = 48 + d.
Proof. intros. unfold digit_chr. apply byte_val_chr. lia. Qed.
Lemma is_digit_chr d : 0 <= d < 10 -> is_digit (digit_chr d) = true.
Proof.
  intros. unfold is_digit, in_range. rewrite digit_chr_val by done.
  apply andb_true_iff. rewrite !Z.leb_le. lia.
Qed.

Lemma digits_val_snoc l c : digits_val (l ++ [c]) = digits_val l * 10 + (byte_val c - 48).
Proof. unfold digits_val. by rewrite fold_left_app. Qed.

Lemma digits_rev_spec fuel n :
  0 <= n < 2 ^ Z.of_nat fuel -> (0 < fuel)%nat ->
  digits_val (rev (digits_rev fuel n)) = n /\
  forallb is_digit (rev (digits_rev fuel n)) = true /\ digits_rev fuel n <> [].
Proof.
  revert n. induction fuel as [|f IH]; intros n Hn Hf; [lia|].
  rewrite Nat2Z.inj_succ, Z.pow_succ_r in Hn by lia.
  pose proof (Z.mod_pos_bound n 10). pose proof (Z.div_mod n 10).
  simpl. rewrite digits_val_snoc, forallb_app, digit_chr_val by lia. simpl.
  rewrite is_digit_chr, andb_true_r by lia.
  destruct (n / 10 =? 0) eqn:E; breflect; simpl.
  - split; [|done]. change (digits_val []) with 0. lia.
  - destruct (IH (n / 10)) as (IH1 & IH2 & _).
    + split; [apply Z.div_pos; lia|]. apply Z.div_lt_upper_bound; lia.
    + destruct f; [|lia]. change (2 ^ Z.of_nat 0) with 1 in Hn.
      assert (n / 10 = 0) by (apply Z.div_small; lia). lia.
    + rewrite IH1, IH2. split; [lia|done].
Qed.

Lemma parse_digits_FormatUint n : 0 <= n -> parse_digits (explode (FormatUint n)) = Some n.
Proof.
  intros Hn. unfold FormatUint. rewrite explode_implode.
  destruct (digits_rev_spec (S (Z.to_nat (Z.log2 n))) n) as (H1 & H2 & H3); [|lia|].
  - split; [done|]. rewrite Nat2Z.inj_succ, Z2Nat.id by apply Z.log2_nonneg.
    destruct (decide (n = 0)) as [->|]; [done|]. apply Z.log2_spec. lia.
  - unfold parse_digits. destruct (rev _) as [|c l] eqn:E.
    + apply (f_equal (@rev ascii)) in E. rewrite rev_involutive in E. done.
    + by rewrite H2, H1.
Qed.

Lemma FormatUint_inj n m : 0 <= n -> 0 <= m -> FormatUint n = FormatUint m -> n = m.
Proof.
  intros Hn Hm H. apply (f_equal (fun s => parse_digits (explode s))) in H.
  rewrite !parse_digits_FormatUint in H by done. congruence.
Qed.

Lemma ParseUint_FormatUint n : is_u64 n -> ParseUint (FormatUint n) = Some n.
Proof.
  intros [Hn Hm]. unfold ParseUint. rewrite parse_digits_FormatUint by done.
  apply Z.leb_le in Hm. by rewrite Hm.
Qed.

(** A formatted number is a nonempty string of digits. *)
Lemma FormatUint_digits n : 0 <= n ->
  forallb is_digit (explode (FormatUint n)) = true /\ explode (FormatUint n) <> [].
Proof.
  intros Hn. pose proof (parse_digits_FormatUint n Hn) as H.
  unfold parse_digits in H. destruct (explode (FormatUint n)); [done|].
  destruct (forallb _ _); [done|discriminate].
Qed.

Lemma Atoi_FormatUint n : 0 <= n <= MaxInt64 -> Atoi (FormatUint n) = Some n.
Proof.
  intros [Hn Hm]. destruct (FormatUint_digits n Hn) as [Hd Hne].
  pose proof (parse_digits_FormatUint n Hn) as Hp. unfold Atoi.
  destruct (explode (FormatUint n)) as [|c t] eqn:E; [done|].
  simpl in Hd. breflect. unfold is_digit, in_range in H. breflect.
  destruct (Ascii.eqb c "-") eqn:E1; [apply Ascii.eqb_eq in E1; subst; done|].
  destruct (Ascii.eqb c "+") eqn:E2; [apply Ascii.eqb_eq in E2; subst; done|].
  rewrite Hp. apply Z.leb_le in Hm. rewrite Hm.
  replace (MinInt64 <=? n) with true; [done|]. symmetry. apply Z.leb_le. unfold MinInt64. lia.
Qed.

(** *** Canonical numerals *)

(** No leading zero, except the numeral ["0"] itself. *)
Definition canonical_digits (l : list ascii) : Prop :=
  forallb is_digit l = true /\ l <> [] /\ (forall t, l = "0"%char :: t -> t = []).

Lemma is_digit_range c : is_digit c = true <-> 0 <= byte_val c - 48 < 10.
Proof. unfold is_digit, in_range. rewrite andb_true_iff, !Z.leb_le. lia. Qed.

Lemma byte_val_inj c d : byte_val c = byte_val d -> c = d.
Proof. intros H. by rewrite <-(byte_chr_val c), H, byte_chr_val. Qed.

Lemma digits_snoc l c :
  forallb is_digit (l ++ [c]) = true <-> forallb is_digit l = true /\ 0 <= byte_val c - 48 < 10.
Proof. rewrite forallb_app. simpl. by rewrite andb_true_r, andb_true_iff, is_digit_range. Qed.

Lemma digits_val_nonneg l : forallb is_digit l = true -> 0 <= digits_val l.
Proof.
  induction l as [|c l IH] using rev_ind; [done|].
  rewrite digits_snoc, digits_val_snoc. intros [Hl Hc]. specialize (IH Hl). lia.
Qed.

(** A canonical numeral of [k + 1] digits is at least [10 ^ k], unless it is
    zero. *)
Lemma canonical_lower l : canonical_digits l ->
  l = ["0"%char] \/ 10 ^ (llen l - 1) <= digits_val l.
Proof.
  induction l as [|c l IH] using rev_ind; intros (Hd & Hne & Hz); [done|].
  apply digits_snoc in Hd as [Hd Hc].
  rewrite digits_val_snoc. unfold llen in *. rewrite length_app. simpl.
  destruct l as [|b l].
  - destruct (decide (byte_val c = 48)) as [E|E].
    + left. simpl. f_equal. by apply byte_val_inj.
    + right. change (10 ^ _) with 1. change (digits_val []) with 0. simpl in *. lia.
  - right. destruct IH as [IH|IH].
    + split_and!; [done|done|]. intros t Ht. injection Ht as -> ->.
      specialize (Hz (t ++ [c]) eq_refl). by destruct t.
    + injection IH as -> ->. specialize (Hz [c] eq_refl). done.
    + replace (Z.of_nat (List.length (b :: l) + 1) - 1) with (Z.succ (Z.of_nat (List.length (b :: l)) - 1)) by lia.
      rewrite Z.pow_succ_r by (simpl; lia). lia.
Qed.

Lemma canonical_inj l k :
  canonical_digits l -> canonical_digits k -> digits_val l = digits_val k -> l = k.
Proof.
  revert k. induction l as [|c l IH] using rev_ind; intros k Hl Hk H; [by destruct Hl as (_&?&_)|].
  destruct k as [|d k _] using rev_ind; [by destruct Hk as (_&?&_)|].
  rewrite !digits_val_snoc in H. pose proof Hl as (Dl & _ & Zl). pose proof Hk as (Dk & _ & Zk).
  apply digits_snoc in Dl as [Dl Rc], Dk as [Dk Rd].
  assert (Hc : byte_val c = byte_val d /\ digits_val l = digits_val k) by lia.
  destruct Hc as [->%byte_val_inj Hv]. f_equal.
  assert (Hhead : forall m e, canonical_digits (m ++ [e]) -> m <> [] ->
             canonical_digits m /\ m <> ["0"%char]).
  { intros m e (Dm & _ & Zm) Hm. apply digits_snoc in Dm as [Dm _].
    assert (Hz : forall t, m <> "0"%char :: t).
    { intros t ->. specialize (Zm (t ++ [e]) eq_refl). by destruct t. }
    split; [split_and!; auto|]; [intros t E|]; by destruct (Hz _ E) || apply Hz. }
  assert (Hpos : forall m e, canonical_digits (m ++ [e]) -> m <> [] -> 0 < digits_val m).
  { intros m e Hm Hne. destruct (Hhead m e Hm Hne) as [Cm Nz].
    destruct (canonical_lower m Cm) as [|Hlow]; [done|].
    assert (0 < 10 ^ (llen m - 1)); [|lia]. apply Z.pow_pos_nonneg; [lia|].
    unfold llen. destruct m; [done|]. simpl. lia. }
  destruct l as [|a l], k as [|b k]; try done.
  - specialize (Hpos _ _ Hk ltac:(done)). change (digits_val []) with 0 in Hv. lia.
  - specialize (Hpos _ _ Hl ltac:(done)). change (digits_val []) with 0 in Hv. lia.
  - apply IH; [by eapply Hhead|by eapply Hhead|done].
Qed.

Lemma digits_rev_last fuel n :
  0 <= n < 2 ^ Z.of_nat fuel -> (0 < fuel)%nat ->
  forall t, rev (digits_rev fuel n) = "0"%char :: t -> t = [].
Proof.
  revert n. induction fuel as [|f IH]; intros n Hn Hf t; [lia|].
  rewrite Nat2Z.inj_succ, Z.pow_succ_r in Hn by lia. simpl.
  pose proof (Z.mod_pos_bound n 10). pose proof (Z.div_mod n 10).
  destruct (n / 10 =? 0) eqn:E; breflect; simpl; [intros H1; by injection H1|].
  assert (Hq : 0 <= n / 10 < 2 ^ Z.of_nat f)
    by (split; [apply Z.div_pos; lia|apply Z.div_lt_upper_bound; lia]).
  assert (Hf0 : (0 < f)%nat).
  { destruct f; [|lia]. change (2 ^ Z.of_nat 0) with 1 in Hq. lia. }
  destruct (digits_rev_spec f (n / 10) Hq Hf0) as (Hv & _ & Hne).
  intros H1. destruct (rev (digits_rev f (n / 10))) as [|a l] eqn:El.
  - apply (f_equal (@rev ascii)) in El. rewrite rev_involutive in El. done.
  - simpl in H1. injection H1 as -> H1. rewrite (IH _ Hq Hf0 l El) in Hv.
    change (digits_val ["0"%char]) with 0 in Hv. lia.
Qed.

Lemma FormatUint_canonical n : 0 <= n -> canonical_digits (explode (FormatUint n)).
Proof.
  intros Hn. destruct (FormatUint_digits n Hn) as [H1 H2]. split_and!; [done|done|].
  unfold FormatUint. rewrite explode_implode. apply digits_rev_last; [|lia].
  split; [done|]. rewrite Nat2Z.inj_succ, Z2Nat.id by apply Z.log2_nonneg.
  destruct (decide (n = 0)) as [->|]; [done|]. apply Z.log2_spec. lia.
Qed.

(** Formatting the value of a canonical numeral gives it back. *)
Lemma FormatUint_parse s n :
  canonical_digits (explode s) -> parse_digits (explode s) = Some n -> FormatUint n = s.
Proof.
  intros Hc Hp. assert (Hv : digits_val (explode s) = n).
  { unfold parse_digits in Hp. destruct Hc as (Hd & Hne & _).
    destruct (explode s); [done|]. rewrite Hd in Hp. congruence. }
  assert (Hn : 0 <= n) by (rewrite <-Hv; apply digits_val_nonneg, Hc).
  apply explode_inj, canonical_inj; [by apply FormatUint_canonical|done|].
  pose proof (parse_digits_FormatUint n Hn) as Hf. unfold parse_digits in Hf.
  destruct (FormatUint_digits n Hn) as [Hd Hne].
  destruct (explode (FormatUint n)); [done|]. rewrite Hd in Hf. congruence.
Qed.
#[global] Opaque FormatUint.

(** *** Delimited text *)

(** A delimiter splits two equal texts at the same place if it does not occur
    in what is before it. *)
Lemma delimited_inj (c : ascii) (l1 l2 k1 k2 : list ascii) :
  c ∉ l1 -> c ∉ l2 -> l1 ++ c :: k1 = l2 ++ c :: k2 -> l1 = l2 /\ k1 = k2.
Proof.
  revert l2. induction l1 as [|a l1 IH]; intros [|b l2] H1 H2 H; simpl in H.
  - by injection H as ->.
  - injection H as <- _. by destruct H2; left.
  - injection H as -> _. by destruct H1; left.
  - injection H as -> H. apply not_elem_of_cons in H1 as [_ H1], H2 as [_ H2].
    destruct (IH l2 H1 H2 H) as [-> ->]. done.
Qed.

Lemma FormatUint_no_char n c : 0 <= n -> is_digit c = false -> c ∉ explode (FormatUint n).
Proof.
  intros Hn Hc Hin. destruct (FormatUint_digits n Hn) as [Hd _].
  rewrite forallb_forall in Hd. apply list_elem_of_In, Hd in Hin. congruence.
Qed.

(** ** encoding/hex *)

Definition hex_digit (d : Z) : ascii := if d <? 10 then byte_chr (48 + d) else byte_chr (87 + d).
Definition hex_val (c : ascii) : option Z :=
  let b := byte_val c in
  if in_range 48 57 b then Some (b - 48)
  else if in_range 97 102 b then Some (b - 87)
  else if in_range 65 70 b then Some (b - 55)
  else None.

(** [hex.EncodeToString]. *)
Definition hex_encode_bytes (l : list ascii) : list ascii :=
  flat_map (fun c => [hex_digit (byte_val c / 16); hex_digit (byte_val c `mod` 16)]) l.
Definition EncodeToString (l : list ascii) : string := implode (hex_encode_bytes l).

(** [hex.DecodeString]: [None] for an odd length or a byte that is no hex
    digit. *)
Fixpoint hex_decode_bytes (l : list ascii) : option (list ascii) :=
  match l with
  | [] => Some []
  | [_] => None
  | a :: b :: t =>
      match hex_val a, hex_val b, hex_decode_bytes t with
      | Some x, Some y, Some r => Some (byte_chr (x * 16 + y) :: r)
      | _, _, _ => None
      end
  end.
Definition DecodeString (s : string) : option (list ascii) := hex_decode_bytes (explode s).
Definition hex_ok (s : string) : bool := match DecodeString s with Some _ => true | None => false end.

Lemma hex_val_digit d : 0 <= d < 16 -> hex_val (hex_digit d) = Some d.
Proof.
  intros H. unfold hex_val, hex_digit. destruct (d <? 10) eqn:E; breflect.
  - rewrite byte_val_chr by lia. unfold in_range.
    replace (48 <=? 48 + d) with true by (symmetry; apply Z.leb_le; lia).
    replace (48 + d <=? 57) with true by (symmetry; apply Z.leb_le; lia). simpl. f_equal. lia.
  - rewrite byte_val_chr by lia. unfold in_range.
    replace (87 + d <=? 57) with false by (symmetry; apply Z.leb_gt; lia).
    rewrite andb_false_r.
    replace (97 <=? 87 + d) with true by (symmetry; apply Z.leb_le; lia).
    replace (87 + d <=? 102) with true by (symmetry; apply Z.leb_le; lia). simpl. f_equal. lia.
Qed.

Lemma hex_digit_lower d : 0 <= d < 16 -> lower_chr (hex_digit d) = hex_digit d.
Proof.
  intros H. unfold lower_chr, hex_digit, in_range. destruct (d <? 10) eqn:E; breflect.
  - rewrite byte_val_chr by lia. by replace (65 <=? 48 + d) with false by (symmetry; apply Z.leb_gt; lia).
  - rewrite byte_val_chr by lia. replace (87 + d <=? 90) with false by (symmetry; apply Z.leb_gt; lia).
    by rewrite andb_false_r.
Qed.

Lemma byte_nibbles c : 0 <= byte_val c / 16 < 16 /\ 0 <= byte_val c `mod` 16 < 16.
Proof.
  pose proof (byte_val_range c). split; [|apply Z.mod_pos_bound; lia].
  split; [apply Z.div_pos; lia|apply Z.div_lt_upper_bound; lia].
Qed.

(** Encoding what was decoded gives the lower-case digits. *)
Lemma hex_val_lower c x : hex_val c = Some x -> 0 <= x < 16 /\ hex_digit x = lower_chr c.
Proof.
  unfold hex_val, hex_digit, lower_chr, digit_chr, in_range. intros H.
  destruct ((48 <=? byte_val c) && (byte_val c <=? 57)) eqn:E1;
    [|destruct ((97 <=? byte_val c) && (byte_val c <=? 102)) eqn:E2;
      [|destruct ((65 <=? byte_val c) && (byte_val c <=? 70)) eqn:E3; [|done]]];
    injection H as <-; breflect; (split; [lia|]).
  - replace (byte_val c - 48 <? 10) with true by (symmetry; apply Z.ltb_lt; lia).
    replace (65 <=? byte_val c) with false by (symmetry; apply Z.leb_gt; lia). simpl.
    replace (48 + (byte_val c - 48)) with (byte_val c) by lia. apply byte_chr_val.
  - replace (byte_val c - 87 <? 10) with false by (symmetry; apply Z.ltb_ge; lia).
    replace (byte_val c <=? 90) with false by (symmetry; apply Z.leb_gt; lia). rewrite andb_false_r.
    replace (_ + _) with (byte_val c) by lia. apply byte_chr_val.
  - replace (byte_val c - 55 <? 10) with false by (symmetry; apply Z.ltb_ge; lia).
    replace (65 <=? byte_val c) with true by (symmetry; apply Z.leb_le; lia).
    replace (byte_val c <=? 90) with true by (symmetry; apply Z.leb_le; lia). simpl.
    f_equal. lia.
Qed.

Lemma hex_encode_decode l r : hex_decode_bytes l = Some r -> hex_encode_bytes r = map lower_chr l.
Proof.
  revert r. induction l as [|a|a b t IH] using two_step_ind; intros r H; simpl in H.
  - by injection H as <-.
  - done.
  - destruct (hex_val a) as [x|] eqn:Ea; [|done]. destruct (hex_val b) as [y|] eqn:Eb; [|done].
    destruct (hex_decode_bytes t) as [r'|] eqn:Et; [|done]. injection H as <-. cbn [map].
    destruct (hex_val_lower _ _ Ea) as [Hx <-], (hex_val_lower _ _ Eb) as [Hy <-].
    cbn [hex_encode_bytes flat_map map]. rewrite byte_val_chr by lia.
    replace ((x * 16 + y) / 16) with x by (rewrite Z.div_add_l, Z.div_small by lia; lia).
    replace ((x * 16 + y) `mod` 16) with y
      by (rewrite (Z.add_comm (x * 16)), Z.mod_add, Z.mod_small by lia; done).
    simpl. do 2 f_equal. by apply IH.
Qed.

Lemma hex_decode_encode l : hex_decode_bytes (hex_encode_bytes l) = Some l.
Proof.
  induction l as [|c l IH]; [done|]. cbn [hex_encode_bytes flat_map app hex_decode_bytes].
  destruct (byte_nibbles c). rewrite !hex_val_digit by done.
  fold (hex_encode_bytes l). rewrite IH.
  pose proof (Z.div_mod (byte_val c) 16). do 2 f_equal.
  replace (_ / 16 * 16 + _) with (byte_val c) by lia. apply byte_chr_val.
Qed.
Lemma DecodeString_EncodeToString l : DecodeString (EncodeToString l) = Some l.
Proof. unfold DecodeString, EncodeToString. rewrite explode_implode. apply hex_decode_encode. Qed.
Lemma EncodeToString_inj l k : EncodeToString l = EncodeToString k -> l = k.
Proof.
  intros H. apply (f_equal DecodeString) in H. rewrite !DecodeString_EncodeToString in H.
  congruence.
Qed.
Lemma EncodeToString_lower l : ToLower (EncodeToString l) = EncodeToString l.
Proof.
  unfold ToLower, EncodeToString. rewrite explode_implode. f_equal.
  induction l as [|c l IH]; [done|]. cbn [hex_encode_bytes flat_map app map].
  fold (hex_encode_bytes l). destruct (byte_nibbles c).
  by rewrite !hex_digit_lower, IH.
Qed.
Lemma EncodeToString_length l : slen (EncodeToString l) = 2 * llen l.
Proof.
  unfold slen, llen, EncodeToString. rewrite <-length_explode, explode_implode.
  induction l as [|c l IH]; [done|]. cbn [hex_encode_bytes flat_map app List.length].
  fold (hex_encode_bytes l). rewrite !Nat2Z.inj_succ in *. lia.
Qed.

(** [binary.BigEndian.PutUint64] of a length: eight bytes. *)
Fixpoint be_bytes (n : nat) (z : Z) : list ascii :=
  match n with
  | O => []
  | S k => be_bytes k (z / 256) ++ [byte_chr (z `mod` 256)]
  end.
Fixpoint be_val (l : list ascii) (acc : Z) : Z :=
  match l with [] => acc | c :: t => be_val t (acc * 256 + byte_val c) end.

Lemma be_bytes_length n z : List.length (be_bytes n z) = n.
Proof. revert z. induction n; intros; simpl; [done|]. rewrite length_app, IHn. simpl. lia. Qed.
Lemma be_val_app l k acc : be_val (l ++ k) acc = be_val k (be_val l acc).
Proof. revert acc. induction l; intros; simpl; auto. Qed.
Lemma be_val_bytes n z : 0 <= z < 2 ^ (8 * Z.of_nat n) -> be_val (be_bytes n z) 0 = z.
Proof.
  revert z. induction n as [|n IH]; intros z Hz.
  - simpl in Hz. simpl. lia.
  - cbn [be_bytes]. rewrite be_val_app.
    replace (8 * Z.of_nat (S n)) with (8 + 8 * Z.of_nat n) in Hz by lia.
    rewrite Z.pow_add_r in Hz by lia. change (2 ^ 8) with 256 in Hz.
    rewrite IH.
    + simpl. rewrite byte_val_chr by (apply Z.mod_pos_bound; lia).
      pose proof (Z.div_mod z 256). lia.
    + split; [apply Z.div_pos; lia|apply Z.div_lt_upper_bound; lia].
Qed.
Lemma be_bytes_inj n z w :
  0 <= z < 2 ^ (8 * Z.of_nat n) -> 0 <= w < 2 ^ (8 * Z.of_nat n) ->
  be_bytes n z = be_bytes n w -> z = w.
Proof.
  intros Hz Hw H. apply (f_equal (fun l => be_val l 0)) in H.
  by rewrite !be_val_bytes in H.
Qed.

(** ** Searching

    Steps of the search loops, for a pattern that cannot start where the text
    before it was skipped. *)

Section SearchFacts.
Context (p : list ascii).

Lemma last_index_skip c t i : is_prefix p (c :: t) = false ->
  last_index_go p (c :: t) i = last_index_go p t (i + 1).
Proof. intros H. cbn [last_index_go]. rewrite H. by destruct (Z.eqb_spec (last_index_go p t (i + 1)) (-1)). Qed.
Lemma last_index_here c t i : is_prefix p (c :: t) = true -> last_index_go p t (i + 1) = -1 ->
  last_index_go p (c :: t) i = i.
Proof. intros H Ht. cbn [last_index_go]. by rewrite Ht, H. Qed.
Lemma last_index_none l i k : 0 <= i -> 0 <= k -> last_index_go p l i = -1 -> last_index_go p l k = -1.
Proof.
  revert i k. induction l as [|c t IH]; intros i k Hi Hk; cbn [last_index_go].
  - destruct (is_prefix p []); lia.
  - destruct (Z.eqb_spec (last_index_go p t (i + 1)) (-1)) as [E|E]; [|done].
    rewrite (IH (i + 1) (k + 1)) by (done || lia). cbn. destruct (is_prefix p (c :: t)); lia.
Qed.
Lemma last_index_app h l i j : last_index_go p l (i + llen h) = j -> j <> -1 ->
  last_index_go p (h ++ l) i = j.
Proof.
  revert i. induction h as [|c h IH]; intros i Hj Hne; cbn [app last_index_go].
  - rewrite <-Hj. f_equal. unfold llen. cbn. lia.
  - rewrite (IH (i + 1)); [|rewrite <-Hj; f_equal; unfold llen; cbn; lia|done].
    by destruct (Z.eqb_spec j (-1)).
Qed.
Lemma last_index_digits ds l i : (forall d, is_digit d = true -> forall t, is_prefix p (d :: t) = false) ->
  forallb is_digit ds = true -> last_index_go p (ds ++ l) i = last_index_go p l (i + llen ds).
Proof.
  intros Hd. revert i. induction ds as [|d ds IH]; intros i H; cbn [app].
  - f_equal. unfold llen. cbn. lia.
  - cbn [forallb] in H. apply andb_true_iff in H as [Hdd Hds].
    rewrite last_index_skip by (by apply Hd). rewrite IH by done. f_equal. unfold llen. cbn. lia.
Qed.
Lemma index_digits ds l i : (forall d, is_digit d = true -> forall t, is_prefix p (d :: t) = false) ->
  forallb is_digit ds = true -> is_prefix p l = true -> index_go p (ds ++ l) i = i + llen ds.
Proof.
  intros Hd. revert i. induction ds as [|d ds IH]; intros i H Hp; cbn [app].
  - replace (i + llen []) with i by (unfold llen; cbn; lia).
    destruct l; cbn [index_go]; by rewrite Hp.
  - cbn [forallb] in H. apply andb_true_iff in H as [Hdd Hds]. cbn [index_go].
    rewrite Hd by done. rewrite IH by done. unfold llen. cbn. lia.
Qed.
End SearchFacts.
