(* ===== verification/GoOs.v ===== *)
(** * Errors of the operating system

    The errors of Go's [os] package for a file that does not exist, and
    [os.IsNotExist]. *)

From S2P Require Import Prelude.

Definition ErrNotExist : error := Sentinel "file does not exist".
Definition not_exist (op name : string) : error := Typed "*fs.PathError" [op; name] ErrNotExist.
Definition link_not_exist (src dst : string) : error := Typed "*os.LinkError" ["rename"; src; dst] ErrNotExist.
Definition os_error_types : list string := ["*fs.PathError"; "*os.LinkError"; "*os.SyscallError"].
(** [os.IsNotExist] looks through the three error types of the package and
    no other: unlike [errors.Is] it does not unwrap. *)
Definition os_IsNotExist (e : error) : bool :=
  bool_decide (e = ErrNotExist) ||
  match e with Typed t _ c => slices_contains os_error_types t && bool_decide (c = ErrNotExist) | _ => false end.
