(* ===== verification/Ordering.v ===== *)
(** * Orders

    Comparison functions that are total preorders, their lexicographic
    product, and the order of strings by their bytes: the order of
    [strings.Compare], of Go's [<] on strings and of SQLite's BINARY
    collation. *)

From stdpp Require Import sets.
From S2P Require Import Prelude GoStrings.

(** A comparison that orders totally, up to ties. *)
Record ordering {A} (c : A -> A -> comparison) : Prop := {
  ord_anti : forall x y, c y x = CompOpp (c x y);
  ord_trans : forall x y z, c x y <> Gt -> c y z <> Gt -> c x z <> Gt }.

Definition lex {A} (c d : A -> A -> comparison) (x y : A) : comparison :=
  match c x y with Eq => d x y | o => o end.

Lemma ordering_ties {A} (c : A -> A -> comparison) x y z : ordering c ->
  c x y <> Gt -> c y z <> Gt -> c x z = Eq -> c x y = Eq /\ c y z = Eq.
Proof.
  intros [Ha Ht] H1 H2 H3.
  assert (H4 : c z x <> Gt) by (rewrite (Ha x z), H3; done).
  pose proof (Ht y z x H2 H4) as H5. pose proof (Ht z x y H4 H1) as H6.
  rewrite (Ha x y) in H5. rewrite (Ha y z) in H6. by destruct (c x y), (c y z).
Qed.
Lemma ordering_lex {A} (c d : A -> A -> comparison) : ordering c -> ordering d -> ordering (lex c d).
Proof.
  intros Hc Hd. split.
  - intros x y. unfold lex. rewrite (ord_anti c Hc x y). destruct (c x y); simpl; try done. apply Hd.
  - intros x y z. unfold lex. pose proof (ordering_ties c x y z Hc) as Hties.
    pose proof (ord_trans c Hc x y z) as Htr. pose proof (ord_trans d Hd x y z) as Htd.
    destruct (c x y) eqn:E1, (c y z) eqn:E2, (c x z) eqn:E3; try done; try (by destruct Htr);
      try (by destruct Hties); intros; by auto.
Qed.
Lemma ordering_on {A B} (f : A -> B) (c : B -> B -> comparison) :
  ordering c -> ordering (fun x y => c (f x) (f y)).
Proof. intros [Ha Ht]. split; intros; [apply Ha|by eapply Ht]. Qed.
Lemma ordering_converse {A} (c : A -> A -> comparison) : ordering c -> ordering (fun x y => c y x).
Proof. intros [Ha Ht]. split; [intros; apply Ha|]. intros x y z H1 H2. by apply (Ht z y x). Qed.
Lemma ordering_Z : ordering Z.compare.
Proof. split; [apply Z.compare_antisym|]. intros x y z. change (x <= y -> y <= z -> x <= z). lia. Qed.

Lemma ascii_compare_eq a b : Ascii.compare a b = Eq -> a = b.
Proof. apply Ascii.compare_eq_iff. Qed.
Lemma ordering_ascii : ordering Ascii.compare.
Proof.
  split; [intros; apply Ascii.compare_antisym|]. intros x y z. unfold Ascii.compare.
  change ((Ascii.N_of_ascii x <= Ascii.N_of_ascii y)%N -> (Ascii.N_of_ascii y <= Ascii.N_of_ascii z)%N ->
    (Ascii.N_of_ascii x <= Ascii.N_of_ascii z)%N). lia.
Qed.
Lemma ordering_string : ordering String.compare.
Proof.
  split; [intros; apply compare_antisym|].
  induction x as [|a x IH]; intros [|b y] [|c z] H1 H2; simpl in *; try done.
  pose proof (ordering_ties _ a b c ordering_ascii) as Hties.
  pose proof (ord_trans _ ordering_ascii a b c) as Htr.
  destruct (Ascii.compare a b) eqn:E1, (Ascii.compare b c) eqn:E2, (Ascii.compare a c) eqn:E3; try done;
    try (by destruct Htr); try (by destruct Hties); by eauto.
Qed.

Lemma string_cmp s t : (s =?s t) = match String.compare s t with Eq => true | _ => false end.
Proof.
  destruct (String.compare s t) eqn:E; [apply compare_eq_iff in E as ->; apply String.eqb_refl| |];
    apply String.eqb_neq; intros ->; pose proof (ord_anti _ ordering_string t t) as H;
    rewrite E in H; done.
Qed.

(** ** Strict parts *)

Section Strict.
Context {A : Type} (c : A -> A -> comparison) (Hc : ordering c).
#[local] Set Default Proof Using "Hc".

Lemma ord_refl x : c x x = Eq.
Proof. pose proof (ord_anti c Hc x x). by destruct (c x x). Qed.
Lemma ord_gt_lt x y : c x y = Gt <-> c y x = Lt.
Proof. rewrite (ord_anti c Hc x y). by destruct (c x y). Qed.
Lemma ord_lt_le_trans x y z : c x y = Lt -> c y z <> Gt -> c x z = Lt.
Proof.
  intros H1 H2. assert (H3 : c x z <> Gt) by (apply (ord_trans c Hc x y z); [by rewrite H1|done]).
  destruct (c x z) eqn:E; [|done..]. destruct (ordering_ties c x y z Hc) as [H4 _]; [by rewrite H1|done..|congruence].
Qed.
Lemma ord_le_lt_trans x y z : c x y <> Gt -> c y z = Lt -> c x z = Lt.
Proof.
  intros H1 H2. assert (H3 : c x z <> Gt) by (apply (ord_trans c Hc x y z); [done|by rewrite H2]).
  destruct (c x z) eqn:E; [|done..]. destruct (ordering_ties c x y z Hc) as [_ H4]; [done|by rewrite H2|done|congruence].
Qed.
Lemma ord_lt_trans x y z : c x y = Lt -> c y z = Lt -> c x z = Lt.
Proof. intros H1 H2. apply (ord_lt_le_trans x y z); [done|by rewrite H2]. Qed.
Lemma ord_not_lt x y : c x y <> Lt -> c y x <> Gt.
Proof. intros H H'%ord_gt_lt. done. Qed.

(** The first of the least elements of a list: [ORDER BY ... LIMIT 1]. *)
Fixpoint least (l : list A) : option A :=
  match l with
  | [] => None
  | x :: l => match least l with
              | Some y => Some (match c y x with Lt => y | _ => x end)
              | None => Some x
              end
  end.
Lemma least_spec l : match least l with
                     | Some x => x ∈ l /\ forall y, y ∈ l -> c x y <> Gt
                     | None => l = []
                     end.
Proof.
  induction l as [|x l IH]; [done|]. cbn [least]. destruct (least l) as [m|].
  - destruct IH as [Hin Hm]. destruct (c m x) eqn:E; (split; [set_solver|]); intros y [->|Hy]%elem_of_cons.
    + by rewrite ord_refl.
    + intros H. apply (Hm y Hy). apply ord_gt_lt in H. apply ord_gt_lt. apply (ord_lt_le_trans y x m H).
      rewrite (ord_anti c Hc m x), E. done.
    + by rewrite E.
    + by apply Hm.
    + by rewrite ord_refl.
    + apply (ord_trans c Hc x m y); [|by apply Hm]. intros H%ord_gt_lt. congruence.
  - subst l. split; [set_solver|]. intros y [->|Hy]%elem_of_cons; [by rewrite ord_refl|set_solver].
Qed.
End Strict.

(** ** Sorted names *)

Definition string_le (a b : string) : Prop := Is_true (String.leb a b).
#[global] Instance string_le_dec : RelDecision string_le.
Proof. intros a b. unfold string_le. apply _. Defined.
Lemma string_le_cmp a b : string_le a b <-> String.compare a b <> Gt.
Proof. unfold string_le, String.leb. by destruct (String.compare a b). Qed.
#[global] Instance string_le_trans : Transitive string_le.
Proof. intros a b c. rewrite !string_le_cmp. apply (ord_trans _ ordering_string). Qed.
#[global] Instance string_le_total : Total string_le.
Proof.
  intros a b. rewrite !string_le_cmp. destruct (String.compare a b) eqn:E; [by left..|]. right. rewrite (ord_anti _ ordering_string a b), E. done.
Qed.
#[global] Instance string_le_antisym : AntiSymm eq string_le.
Proof.
  intros a b. rewrite !string_le_cmp, (ord_anti _ ordering_string a b). intros H1 H2. apply compare_eq_iff.
  by destruct (String.compare a b).
Qed.
