(* ===== verification/Sha256.v ===== *)
(** * SHA-256

    [crypto/sha256.Sum256] of the Go standard library, as FIPS 180-4 defines
    it: 32-bit words are [Z] reduced modulo [2^32].  The domain packages use
    it for identities, fingerprints and the attestation chain; no theorem
    of the library assumes that it is injective: those that need it speak of
    the inputs at hand ([collision], [collision_free] of [RuntimeValues]). *)

From S2P Require Import Prelude GoStrings.

Definition w32 (z : Z) : Z := z `mod` 2 ^ 32.
Definition rotr (n z : Z) : Z := Z.lor (Z.shiftr z n) (w32 (Z.shiftl z (32 - n))).
Definition Ch (x y z : Z) : Z := Z.lxor (Z.land x y) (Z.land (Z.lxor x (Z.ones 32)) z).
Definition Maj (x y z : Z) : Z := Z.lxor (Z.lxor (Z.land x y) (Z.land x z)) (Z.land y z).
Definition bsig0 (x : Z) : Z := Z.lxor (Z.lxor (rotr 2 x) (rotr 13 x)) (rotr 22 x).
Definition bsig1 (x : Z) : Z := Z.lxor (Z.lxor (rotr 6 x) (rotr 11 x)) (rotr 25 x).
Definition ssig0 (x : Z) : Z := Z.lxor (Z.lxor (rotr 7 x) (rotr 18 x)) (Z.shiftr x 3).
Definition ssig1 (x : Z) : Z := Z.lxor (Z.lxor (rotr 17 x) (rotr 19 x)) (Z.shiftr x 10).

(** The standard derives its constants from the first primes: [H256] is the
    first 32 fractional bits of the square roots of eight primes, [K256] of
    the cube roots of sixty-four. *)
Definition is_prime (n : Z) : bool :=
  (2 <=? n) && forallb (fun d => negb (n `mod` d =? 0)) (seqZ 2 (n - 2)).
Definition primes : list Z := List.filter is_prime (seqZ 2 310).

(** The largest [r < 2 ^ n] with [r ^ 3 <= x], bit by bit. *)
Fixpoint cube_root (n : nat) (r x : Z) : Z :=
  match n with
  | O => r
  | S k => let r' := r + 2 ^ Z.of_nat k in cube_root k (if r' ^ 3 <=? x then r' else r) x
  end.

Definition K256 : list Z :=
  Eval vm_compute in map (fun p => w32 (cube_root 36 0 (Z.shiftl p 96))) primes.
Definition H256 : list Z :=
  Eval vm_compute in map (fun p => w32 (Z.sqrt (Z.shiftl p 64))) (take 8 primes).

(** Padding: a one bit, zeros, and the bit length in eight bytes. *)
Definition pad (msg : list ascii) : list ascii :=
  let n := llen msg in
  msg ++ byte_chr 128 :: repeat (byte_chr 0) (Z.to_nat ((55 - n) `mod` 64)) ++ be_bytes 8 ((8 * n) `mod` 2 ^ 64).

Fixpoint words_of (l : list ascii) : list Z :=
  match l with
  | a :: b :: c :: d :: t => be_val [a; b; c; d] 0 :: words_of t
  | _ => []
  end.

(** The message schedule, newest word first. *)
Fixpoint schedule (n : nat) (rw : list Z) : list Z :=
  match n with
  | O => rw
  | S k =>
      let at_ i := nth i rw 0 in
      schedule k (w32 (ssig1 (at_ 1%nat) + at_ 6%nat + ssig0 (at_ 14%nat) + at_ 15%nat) :: rw)
  end.

Definition sha_round (st : list Z) (kw : Z * Z) : list Z :=
  match st with
  | [a; b; c; d; e; f; g; h] =>
      let t1 := h + bsig1 e + Ch e f g + fst kw + snd kw in
      let t2 := bsig0 a + Maj a b c in
      [w32 (t1 + t2); a; b; c; w32 (d + t1); e; f; g]
  | _ => st
  end.

Definition compress (h : list Z) (block : list Z) : list Z :=
  let w := rev (schedule 48 (rev block)) in
  zip_with (fun x y => w32 (x + y)) h (fold_left sha_round (zip K256 w) h).

Fixpoint blocks (fuel : nat) (h : list Z) (ws : list Z) : list Z :=
  match fuel with
  | O => h
  | S f => match ws with [] => h | _ => blocks f (compress h (take 16 ws)) (drop 16 ws) end
  end.

(** [sha256.Sum256]: the 32 digest bytes. *)
Definition Sum256 (msg : list ascii) : list ascii :=
  let ws := words_of (pad msg) in
  flat_map (be_bytes 4) (blocks (List.length ws) H256 ws).

Lemma sha_round_length st kw : List.length st = 8%nat -> List.length (sha_round st kw) = 8%nat.
Proof. destruct st as [|?[|?[|?[|?[|?[|?[|?[|?[|]]]]]]]]]; done. Qed.

Lemma compress_length h block : List.length h = 8%nat -> List.length (compress h block) = 8%nat.
Proof.
  intros Hh. unfold compress. rewrite length_zip_with, Hh.
  assert (H : forall l st, List.length st = 8%nat -> List.length (fold_left sha_round l st) = 8%nat).
  { induction l as [|kw l IH]; intros st Hst; simpl; auto using sha_round_length. }
  rewrite H; done.
Qed.

Lemma blocks_length fuel h ws : List.length h = 8%nat -> List.length (blocks fuel h ws) = 8%nat.
Proof.
  revert h ws. induction fuel as [|f IH]; intros h ws Hh; simpl; [done|].
  destruct ws; [done|]. apply IH, compress_length, Hh.
Qed.

(** A digest is 32 bytes. *)
Lemma Sum256_length msg : llen (Sum256 msg) = 32.
Proof.
  unfold Sum256, llen.
  set (l := blocks _ _ _). assert (Hl : List.length l = 8%nat) by (by apply blocks_length).
  clearbody l.
  assert (H : List.length (flat_map (be_bytes 4) l) = (4 * List.length l)%nat).
  { clear Hl. induction l as [|z l IH]; [done|]. cbn [flat_map].
    rewrite length_app, be_bytes_length, IH. simpl. lia. }
  rewrite H, Hl. done.
Qed.

(** The FIPS 180-4 example messages. *)
Example sum256_abc :
  EncodeToString (Sum256 (explode "abc")) =
  "ba7816bf8f01cfea414140de5dae2223b00361a396177a9cb410ff61f20015ad".
Proof. vm_refl. Qed.
Example sum256_two_blocks :
  EncodeToString (Sum256 (explode "abcdbcdecdefdefgefghfghighijhijkijkljklmklmnlmnomnopnopq")) =
  "248d6a61d20638b8e5c026930c3e6039a33ce45964ff2167f6ecedd419db06c1".
Proof. vm_refl. Qed.

#[global] Opaque Sum256.
