(* ===== verification/GoTime.v ===== *)
(** * Go time

    [time.Time] and [time.Duration] as the domain packages use them.  A time
    is an instant in nanoseconds since January 1, year 1 (UTC), an optional
    monotonic clock reading, and the offset of its location at that instant.
    The monotonic reading matters: [Sub], [Before], [After] and [Equal] use
    it when both operands carry one, and [Round(0)] and [UTC] strip it. *)

From S2P Require Import Prelude GoStrings.

(** A duration is a number of nanoseconds. *)
Definition Second : Z := 1000000000.
Definition Hour : Z := 3600 * Second.

Record Time := mkTime { ns : Z; mono : option Z; zone : Z }.
#[global] Instance Time_eq_dec : EqDecision Time.
Proof. solve_decision. Defined.

(** The zero [time.Time]. *)
Definition time_zero : Time := mkTime 0 None 0.

Definition IsZero (t : Time) : bool := ns t =? 0.
Definition StripMono (t : Time) : Time := mkTime (ns t) None (zone t).
(** [t.Round(0)]. *)
Definition Round0 (t : Time) : Time := StripMono t.
(** [t.UTC()]: [setLoc] strips the monotonic reading. *)
Definition UTC (t : Time) : Time := mkTime (ns t) None 0.

Definition cmp_with {A} (f : Z -> Z -> A) (t u : Time) : A :=
  match mono t, mono u with
  | Some a, Some b => f a b
  | _, _ => f (ns t) (ns u)
  end.
Definition Before (t u : Time) : bool := cmp_with Z.ltb t u.
Definition After (t u : Time) : bool := cmp_with (fun a b => b <? a) t u.
Definition Equal (t u : Time) : bool := cmp_with Z.eqb t u.

(** [t.Sub(u)] saturates at the range of a duration. *)
Definition sat (d : Z) : Z := Z.max MinInt64 (Z.min MaxInt64 d).
Definition Sub (t u : Time) : Z := cmp_with (fun a b => sat (a - b)) t u.

(** [t.Add(d)]: a monotonic reading that would overflow is dropped. *)
Definition Add (t : Time) (d : Z) : Time :=
  mkTime (ns t + d)
    (match mono t with
     | Some m => if (MinInt64 <=? m + d) && (m + d <=? MaxInt64) then Some (m + d) else None
     | None => None
     end)
    (zone t).

(** [time.Unix(0, 0)]. *)
Definition unix_epoch_ns : Z := 62135596800 * Second.
Definition UnixEpoch : Time := mkTime unix_epoch_ns None 0.

(** ** The civil calendar

    Days since January 1, year 1 to year, month and day (proleptic
    Gregorian), counting years from March. *)

Definition civil_of_days (d : Z) : Z * Z * Z :=
  let z := d + 306 in                      (* from March 1, year 0 *)
  let era := z / 146097 in
  let doe := z `mod` 146097 in
  let yoe := (doe - doe / 1460 + doe / 36524 - doe / 146096) / 365 in
  let doy := doe - (365 * yoe + yoe / 4 - yoe / 100) in
  let mp := (5 * doy + 2) / 153 in
  let day := doy - (153 * mp + 2) / 5 + 1 in
  let month := if mp <? 10 then mp + 3 else mp - 9 in
  let year := yoe + era * 400 + (if month <=? 2 then 1 else 0) in
  (year, month, day).

Definition local_seconds (t : Time) : Z := ns t / Second + zone t.
Definition Year (t : Time) : Z := fst (fst (civil_of_days (local_seconds t / 86400))).

(** [time.RFC3339Nano] of a time in UTC, the form [MarshalJSON] writes. *)
Definition pad_left (n : nat) (s : string) : string :=
  implode (repeat "0"%char (n - String.length s)) +:+ s.
Definition trim_zeros (s : string) : string :=
  implode (rev (drop_trailing "0"%char (rev (explode s)))).
Definition FormatRFC3339Nano (t : Time) : string :=
  let secs := local_seconds t in
  let '(y, m, d) := civil_of_days (secs / 86400) in
  let s := secs `mod` 86400 in
  let frac := ns t `mod` Second in
  pad_left 4 (FormatUint y) +:+ "-" +:+ pad_left 2 (FormatUint m) +:+ "-" +:+ pad_left 2 (FormatUint d)
  +:+ "T" +:+ pad_left 2 (FormatUint (s / 3600)) +:+ ":" +:+ pad_left 2 (FormatUint ((s / 60) `mod` 60))
  +:+ ":" +:+ pad_left 2 (FormatUint (s `mod` 60))
  +:+ (if frac =? 0 then "" else "." +:+ trim_zeros (pad_left 9 (FormatUint frac)))
  +:+ "Z".

Example rfc3339_zero : FormatRFC3339Nano time_zero = "0001-01-01T00:00:00Z".
Proof. by vm_compute. Qed.
Example rfc3339_epoch : FormatRFC3339Nano (mkTime (unix_epoch_ns + 951827696500000000) None 0) = "2000-02-29T12:34:56.5Z".
Proof. by vm_compute. Qed.
Example year_epoch : Year UnixEpoch = 1970 /\ Year (Add UnixEpoch (-1)) = 1969.
Proof. by vm_compute. Qed.

(** ** Comparison facts

    Without monotonic readings the comparisons are those of the instants. *)

Definition wall_only (t : Time) : Prop := mono t = None.

Lemma Round0_idemp t : Round0 (Round0 t) = Round0 t.
Proof. done. Qed.
Lemma UTC_Round0 t : Round0 (UTC t) = UTC t.
Proof. done. Qed.
Lemma UTC_idemp t : UTC (UTC t) = UTC t.
Proof. done. Qed.
Lemma UTC_id t : wall_only t -> zone t = 0 -> UTC t = t.
Proof. destruct t. unfold wall_only, UTC. simpl. by intros -> ->. Qed.
Lemma Before_wall t u : wall_only t -> Before t u = (ns t <? ns u).
Proof. unfold wall_only, Before, cmp_with. by intros ->. Qed.
Lemma After_wall t u : wall_only t -> After t u = (ns u <? ns t).
Proof. unfold wall_only, After, cmp_with. by intros ->. Qed.
Lemma Equal_wall t u : wall_only t -> Equal t u = (ns t =? ns u).
Proof. unfold wall_only, Equal, cmp_with. by intros ->. Qed.
Lemma wall_only_UTC t : wall_only (UTC t).
Proof. done. Qed.
Lemma wall_only_Add t d : wall_only t -> wall_only (Add t d).
Proof. unfold wall_only, Add. simpl. by intros ->. Qed.
Lemma Equal_refl t : Equal t t = true.
Proof. unfold Equal, cmp_with. destruct (mono t); apply Z.eqb_refl. Qed.
Lemma Equal_sym t u : Equal t u = Equal u t.
Proof. unfold Equal, cmp_with. destruct (mono t), (mono u); apply Z.eqb_sym. Qed.
#[export] Hint Rewrite Round0_idemp UTC_Round0 UTC_idemp Equal_refl : go_norm.
#[export] Hint Resolve wall_only_UTC wall_only_Add : traceary.
#[global] Opaque FormatRFC3339Nano.
