(* ===== verification/GoTimeText.v ===== *)
(** * Times as text

    [time.Parse] for the layout [RFC3339Nano], the form in which timestamps
    are stored, and the civil calendar read backwards.  [time.Parse] first
    tries the strict reader of that form; only a text the strict reader
    refuses reaches the general layout reader, which stays a parameter. *)

From S2P Require Import Prelude GoStrings GoTime.

(** ** The calendar, backwards *)

(** Days from January 1, year 1 to a civil date. *)
Definition days_of_civil (y m d : Z) : Z :=
  let y' := if m <=? 2 then y - 1 else y in
  let era := y' / 400 in
  let yoe := y' `mod` 400 in
  let doy := (153 * (if 2 <? m then m - 3 else m + 9) + 2) / 5 + d - 1 in
  let doe := 365 * yoe + yoe / 4 - yoe / 100 + doy in
  era * 146097 + doe - 306.

Definition leap (y : Z) : bool :=
  (y `mod` 4 =? 0) && (negb (y `mod` 100 =? 0) || (y `mod` 400 =? 0)).
Definition daysIn (m y : Z) : Z :=
  if m =? 2 then if leap y then 29 else 28
  else if (m =? 4) || (m =? 6) || (m =? 9) || (m =? 11) then 30 else 31.

(** Checks over an interval. *)
Fixpoint all_from (f : Z -> bool) (fuel : nat) (d : Z) : bool :=
  match fuel with O => true | S n => f d && all_from f n (d + 1) end.
Lemma all_from_spec f fuel d k : all_from f fuel d = true -> d <= k < d + Z.of_nat fuel -> f k = true.
Proof.
  revert d. induction fuel as [|n IH]; intros d H Hk; [lia|]. cbn [all_from] in H.
  apply andb_true_iff in H as [H0 H]. destruct (decide (k = d)) as [->|]; [done|].
  apply (IH (d + 1)); [done|lia].
Qed.

(** The year within a 400-year cycle that starts in March, and its first day. *)
Definition year_of_doe (doe : Z) : Z := (doe - doe / 1460 + doe / 36524 - doe / 146096) / 365.
Definition year_start (yoe : Z) : Z := 365 * yoe + yoe / 4 - yoe / 100.
(** The last day of such a year: February ends in the next civil year. *)
Definition year_last (yoe : Z) : Z := year_start yoe + (if leap (yoe + 1) then 365 else 364).

Lemma year_of_doe_mono a b : a <= b -> year_of_doe a <= year_of_doe b.
Proof.
  assert (Hq : forall k x y, 1 < k -> x <= y -> y / k - x / k <= y - x).
  { intros k x y Hk Hxy. pose proof (Z.div_mod x k). pose proof (Z.mod_pos_bound x k).
    pose proof (Z.div_mod y k). pose proof (Z.mod_pos_bound y k). nia. }
  intros H. unfold year_of_doe. apply Z.div_le_mono; [lia|].
  change 146096 with (36524 * 4). rewrite <-!Z.div_div by lia.
  pose proof (Z.div_le_mono a b 36524 ltac:(lia) H) as H4.
  pose proof (Hq 1460 a b ltac:(lia) H). pose proof (Hq 4 _ _ ltac:(lia) H4). lia.
Qed.

Definition year_ok (yoe : Z) : bool :=
  (year_of_doe (year_start yoe) =? yoe) && (year_of_doe (year_last yoe) =? yoe)
  && ((yoe =? 399) || (year_start (yoe + 1) =? year_last yoe + 1)).
Lemma years_checked : all_from year_ok 400 0 = true.
Proof. vm_compute. reflexivity. Qed.
Lemma year_facts yoe : 0 <= yoe <= 399 ->
  year_of_doe (year_start yoe) = yoe /\ year_of_doe (year_last yoe) = yoe /\
  (yoe < 399 -> year_start (yoe + 1) = year_last yoe + 1).
Proof.
  intros H. pose proof (all_from_spec _ _ _ yoe years_checked ltac:(lia)) as E. unfold year_ok in E.
  apply andb_true_iff in E as [[E1 E2]%andb_true_iff E3]. apply orb_true_iff in E3. lia.
Qed.

Lemma year_of_doe_spec doe : 0 <= doe < 146097 ->
  0 <= year_of_doe doe <= 399 /\ year_start (year_of_doe doe) <= doe <= year_last (year_of_doe doe).
Proof.
  intros H. set (y := year_of_doe doe).
  assert (Hy : 0 <= y <= 399).
  { split; [exact (year_of_doe_mono 0 doe ltac:(lia))|exact (year_of_doe_mono doe 146096 ltac:(lia))]. }
  split; [done|]. split.
  - destruct (decide (y = 0)) as [E|E]; [rewrite E; change (year_start 0) with 0; lia|].
    destruct (Z_lt_le_dec doe (year_start y)) as [Hlt|]; [exfalso|done].
    destruct (year_facts (y - 1) ltac:(lia)) as (_ & H2 & H3).
    replace (y - 1 + 1) with y in H3 by lia.
    pose proof (year_of_doe_mono doe (year_last (y - 1)) ltac:(lia)) as Hm. fold y in Hm. lia.
  - destruct (decide (y = 399)) as [E|E]; [rewrite E; change (year_last 399) with 146096; lia|].
    destruct (Z_lt_le_dec (year_last y) doe) as [Hlt|]; [exfalso|done].
    destruct (year_facts y Hy) as (_ & _ & H3). destruct (year_facts (y + 1) ltac:(lia)) as (H1 & _).
    pose proof (year_of_doe_mono (year_start (y + 1)) doe ltac:(lia)) as Hm. fold y in Hm. lia.
Qed.

(** The month and day within a year that starts in March. *)
Definition month_part (doy : Z) : Z := (5 * doy + 2) / 153.
Definition doy_ok (doy : Z) : bool :=
  let mp := month_part doy in
  let day := doy - (153 * mp + 2) / 5 + 1 in
  let m := if mp <? 10 then mp + 3 else mp - 9 in
  in_range 1 12 m && (1 <=? day) && ((if 2 <? m then m - 3 else m + 9) =? mp)
  && (if m =? 2 then (day <=? 28) || (doy =? 365) && (day =? 29) else day <=? daysIn m 1).
Lemma doys_checked : all_from doy_ok 366 0 = true.
Proof. vm_compute. reflexivity. Qed.

Lemma leap_cycle y k : leap (y + k * 400) = leap y.
Proof.
  unfold leap. replace (y + k * 400) with (y + k * 100 * 4) at 1 by lia. rewrite Z.mod_add by lia.
  replace (y + k * 400) with (y + k * 4 * 100) at 1 by lia. rewrite Z.mod_add by lia. by rewrite Z.mod_add by lia.
Qed.
Lemma daysIn_other m y : m <> 2 -> daysIn m y = daysIn m 1.
Proof. intros H. unfold daysIn. by apply Z.eqb_neq in H as ->. Qed.

(** The civil date of a day determines the day, and its month and day of the
    month are those of the calendar. *)
Lemma civil_roundtrip d y m dd : civil_of_days d = (y, m, dd) ->
  days_of_civil y m dd = d /\ 1 <= m <= 12 /\ 1 <= dd <= daysIn m y.
Proof.
  unfold civil_of_days. fold (year_of_doe ((d + 306) `mod` 146097)).
  set (era := (d + 306) / 146097). set (doe := (d + 306) `mod` 146097). set (yoe := year_of_doe doe).
  pose proof (Z.div_mod (d + 306) 146097 ltac:(lia)) as Hd. fold era doe in Hd.
  destruct (year_of_doe_spec doe) as [Hy [Hlo Hhi]]; [apply Z.mod_pos_bound; lia|]. fold yoe in Hy, Hlo, Hhi.
  fold (year_start yoe). set (doy := doe - year_start yoe). fold (month_part doy).
  assert (Hdoy : 0 <= doy <= 365 /\ (doy = 365 -> leap (yoe + 1) = true))
    by (unfold year_last in Hhi; destruct (leap (yoe + 1)); split; lia || done).
  pose proof (all_from_spec _ _ _ doy doys_checked ltac:(lia)) as E. unfold doy_ok in E.
  set (mp := month_part doy) in *. set (mm := if mp <? 10 then mp + 3 else mp - 9) in *.
  intros [= <- <- <-]. apply andb_true_iff in E as [[[Hm H1]%andb_true_iff H2]%andb_true_iff H3].
  unfold in_range in Hm. breflect.
  set (y := yoe + era * 400 + (if mm <=? 2 then 1 else 0)). split_and!; [|lia..|].
  - unfold days_of_civil. replace (if mm <=? 2 then y - 1 else y) with (yoe + era * 400)
      by (unfold y; destruct (mm <=? 2); lia).
    rewrite Z.div_add, Z.mod_add, Z.div_small, Z.mod_small by lia.
    match goal with H : (if 2 <? mm then _ else _) = mp |- _ => rewrite H end.
    fold (year_start yoe). lia.
  - destruct (Z.eqb_spec mm 2) as [E2|E2]; [|rewrite daysIn_other by done; lia].
    unfold daysIn, y. rewrite E2. cbn [Z.eqb Pos.eqb Z.leb Z.compare Pos.compare Pos.compare_cont].
    replace (yoe + era * 400 + 1) with (yoe + 1 + era * 400) by lia. rewrite leap_cycle.
    apply orb_true_iff in H3 as [H3|[H365 H3]%andb_true_iff]; breflect; [destruct (leap _); lia|].
    rewrite (proj2 Hdoy) by done. lia.
Qed.

(** ** Reading the strict form *)

(** [parseUint]: all digits, within the range. *)
Definition parse_field (l : list ascii) (lo hi : Z) : option Z :=
  if forallb is_digit l then
    let x := digits_val l in if (x <? lo) || (hi <? x) then None else Some x
  else None.

(** The digits at the front, and what follows. *)
Fixpoint span_digits (l : list ascii) : list ascii * list ascii :=
  match l with
  | c :: t => if is_digit c then let '(ds, r) := span_digits t in (c :: ds, r) else ([], l)
  | [] => ([], [])
  end.

(** The fraction: at most nine digits count. *)
Definition nanoseconds (ds : list ascii) : Z :=
  let ds := take 9 ds in digits_val ds * 10 ^ (9 - llen ds).
Definition parse_fraction (l : list ascii) : Z * list ascii :=
  match l with
  | c :: t => let '(ds, r) := span_digits t in
              if Ascii.eqb c "."%char && (0 <? llen ds) then (nanoseconds ds, r) else (0, l)
  | [] => (0, l)
  end.

(** The zone as an offset in seconds. *)
Definition parse_zone (l : list ascii) : option Z :=
  match l with
  | [z] => if Ascii.eqb z "Z"%char then Some 0 else None
  | [s; h1; h2; c; m1; m2] =>
      match parse_field [h1; h2] 0 23, parse_field [m1; m2] 0 59 with
      | Some hr, Some mm =>
          if (Ascii.eqb s "-"%char || Ascii.eqb s "+"%char) && Ascii.eqb c ":"%char
          then Some ((if Ascii.eqb s "-"%char then -1 else 1) * ((hr * 60 + mm) * 60)) else None
      | _, _ => None
      end
  | _ => None
  end.

(** [parseRFC3339]. *)
Definition parse_strict (l : list ascii) : option Time :=
  match l with
  | y1 :: y2 :: y3 :: y4 :: s4 :: m1 :: m2 :: s7 :: d1 :: d2 :: s10 :: h1 :: h2 :: s13 :: n1 :: n2 :: s16 :: c1 :: c2 :: rest =>
      match parse_field [y1; y2; y3; y4] 0 9999, parse_field [m1; m2] 1 12 with
      | Some y, Some m =>
          match parse_field [d1; d2] 1 (daysIn m y), parse_field [h1; h2] 0 23,
                parse_field [n1; n2] 0 59, parse_field [c1; c2] 0 59 with
          | Some d, Some h, Some mi, Some sec =>
              if Ascii.eqb s4 "-"%char && Ascii.eqb s7 "-"%char && Ascii.eqb s10 "T"%char
                 && Ascii.eqb s13 ":"%char && Ascii.eqb s16 ":"%char
              then
                let '(nsec, rest') := parse_fraction rest in
                match parse_zone rest' with
                | Some off =>
                    let secs := days_of_civil y m d * 86400 + h * 3600 + mi * 60 + sec in
                    Some (mkTime ((secs - off) * Second + nsec) None off)
                | None => None
                end
              else None
          | _, _, _, _ => None
          end
      | _, _ => None
      end
  | _ => None
  end.

Section Parse.
(** The general layout reader behind the strict one. *)
Context (parse_layout : string -> result Time).
Definition time_Parse (s : string) : result Time :=
  match parse_strict (explode s) with Some t => Ok t | None => parse_layout s end.
End Parse.

Example parse_examples :
  parse_strict (explode "2000-02-29T12:34:56.5Z") =
    Some (mkTime (unix_epoch_ns + 951827696500000000) None 0) /\
  parse_strict (explode "2000-02-29T14:34:56.5+02:00") =
    Some (mkTime (unix_epoch_ns + 951827696500000000) None 7200) /\
  parse_strict (explode "2001-02-29T12:34:56Z") = None /\
  parse_strict (explode "0001-01-01T00:00:00Z") = Some time_zero.
Proof. split_and!; vm_refl. Qed.

(** ** Fixed-width decimal fields *)

Lemma digits_val_cons0 l : digits_val ("0"%char :: l) = digits_val l.
Proof. done. Qed.
Lemma digits_val_pad n l : digits_val (repeat "0"%char n ++ l) = digits_val l.
Proof. induction n as [|n IH]; [done|]. cbn [repeat app]. by rewrite digits_val_cons0. Qed.

Lemma FormatUint_length n k : 0 <= n < 10 ^ Z.of_nat k -> (0 < k)%nat ->
  (String.length (FormatUint n) <= k)%nat.
Proof.
  intros [H0 Hn] Hk. rewrite <-length_explode.
  pose proof (FormatUint_canonical n H0) as Hc. destruct (FormatUint_digits n H0) as [Hd Hne].
  pose proof (parse_digits_FormatUint n H0) as Hp. unfold parse_digits in Hp.
  destruct (canonical_lower _ Hc) as [E|E]; [by rewrite E|].
  assert (Hv : digits_val (explode (FormatUint n)) = n).
  { destruct (explode (FormatUint n)) as [|c l]; [done|]. rewrite Hd in Hp. congruence. }
  rewrite Hv in E. unfold llen in E.
  destruct (Nat.le_gt_cases (List.length (explode (FormatUint n))) k) as [|Hlt]; [done|exfalso].
  assert (10 ^ Z.of_nat k <= 10 ^ (Z.of_nat (List.length (explode (FormatUint n))) - 1)); [|lia].
  apply Z.pow_le_mono_r; lia.
Qed.

(** A field of [n] digits. *)
Definition field (n : nat) (v : Z) : list ascii := explode (pad_left n (FormatUint v)).

Lemma field_spec n v : 0 <= v < 10 ^ Z.of_nat n -> (0 < n)%nat ->
  List.length (field n v) = n /\ forallb is_digit (field n v) = true /\ digits_val (field n v) = v.
Proof.
  intros Hv Hn. unfold field, pad_left. rewrite explode_app, explode_implode.
  pose proof (FormatUint_length v n Hv Hn) as Hl. destruct (FormatUint_digits v ltac:(lia)) as [Hd Hne].
  pose proof (parse_digits_FormatUint v ltac:(lia)) as Hp. unfold parse_digits in Hp. split_and!.
  - rewrite length_app, repeat_length, length_explode. lia.
  - rewrite forallb_app, Hd, andb_true_r. induction (n - _)%nat as [|m IH]; [done|]. by cbn.
  - rewrite digits_val_pad. destruct (explode (FormatUint v)) as [|c l]; [done|]. rewrite Hd in Hp. congruence.
Qed.

Lemma parse_field_field n v lo hi : 0 <= v < 10 ^ Z.of_nat n -> (0 < n)%nat -> lo <= v <= hi ->
  parse_field (field n v) lo hi = Some v.
Proof.
  intros Hv Hn Hr. destruct (field_spec n v Hv Hn) as (_ & Hd & Hval). unfold parse_field.
  rewrite Hd, Hval. destruct (Z.ltb_spec v lo), (Z.ltb_spec hi v); [lia..|done].
Qed.

(** Fields as explicit digits. *)
Lemma field2 v : 0 <= v < 100 -> exists a b, field 2 v = [a; b] /\
  forall lo hi, lo <= v <= hi -> parse_field [a; b] lo hi = Some v.
Proof.
  intros Hv. destruct (field_spec 2 v Hv ltac:(lia)) as (Hl & _).
  pose proof (fun lo hi => parse_field_field 2 v lo hi Hv ltac:(lia)) as Hp.
  destruct (field 2 v) as [|a [|b [|]]]; try discriminate Hl. eauto.
Qed.
Lemma field4 v : 0 <= v < 10000 -> exists a b c d, field 4 v = [a; b; c; d] /\
  forall lo hi, lo <= v <= hi -> parse_field [a; b; c; d] lo hi = Some v.
Proof.
  intros Hv. destruct (field_spec 4 v Hv ltac:(lia)) as (Hl & _).
  pose proof (fun lo hi => parse_field_field 4 v lo hi Hv ltac:(lia)) as Hp.
  destruct (field 4 v) as [|a [|b [|c [|d [|]]]]]; try discriminate Hl. eauto 10.
Qed.

(** ** The fraction *)

Lemma span_digits_app ds r : forallb is_digit ds = true ->
  match r with c :: _ => is_digit c = false | [] => True end -> span_digits (ds ++ r) = (ds, r).
Proof.
  induction ds as [|d ds IH]; cbn [app span_digits]; intros Hd Hr.
  - destruct r as [|c r]; [done|]. cbn. by rewrite Hr.
  - cbn in Hd. apply andb_true_iff in Hd as [-> Hd]. by rewrite (IH Hd Hr).
Qed.

(** Trailing zeros dropped: the digits that are left, and the value scaled. *)
Lemma drop_trailing_spec l : exists k, l = repeat "0"%char k ++ drop_trailing "0"%char l /\
  match drop_trailing "0"%char l with c :: _ => c <> "0"%char | [] => True end.
Proof.
  induction l as [|c l IH]; [by exists 0%nat|]. cbn [drop_trailing].
  destruct (Ascii.eqb_spec c "0"%char) as [->|Hne].
  - destruct IH as (k & Hk & Hc). exists (S k). split; [cbn; congruence|done].
  - by exists 0%nat.
Qed.

Lemma digits_val_zeros l k : digits_val (l ++ repeat "0"%char k) = digits_val l * 10 ^ Z.of_nat k.
Proof.
  induction k as [|k IH]; [by rewrite app_nil_r, Z.mul_1_r|].
  cbn [repeat]. rewrite repeat_cons, app_assoc, digits_val_snoc, IH, Nat2Z.inj_succ, Z.pow_succ_r by lia.
  change (byte_val "0") with 48. lia.
Qed.

Lemma fraction_spec frac : 0 < frac < Second ->
  exists ds, explode (trim_zeros (pad_left 9 (FormatUint frac))) = ds /\
    forallb is_digit ds = true /\ 0 < llen ds /\ nanoseconds ds = frac.
Proof.
  intros Hf. destruct (field_spec 9 frac) as (Hl & Hd & Hv); [unfold Second in Hf; lia|lia|].
  unfold field in *. set (l := explode (pad_left 9 (FormatUint frac))) in *.
  unfold trim_zeros. fold l. rewrite explode_implode.
  destruct (drop_trailing_spec (rev l)) as (k & Hk & _).
  set (m := drop_trailing "0"%char (rev l)) in *. exists (rev m). split; [done|].
  apply (f_equal (@rev ascii)) in Hk. rewrite rev_involutive, rev_app_distr, rev_repeat in Hk.
  rewrite Hk in Hd, Hv, Hl. rewrite forallb_app in Hd. apply andb_true_iff in Hd as [Hd _].
  rewrite digits_val_zeros in Hv. rewrite length_app, repeat_length in Hl.
  assert (Hm : (0 < List.length (rev m))%nat).
  { destruct (rev m); [|cbn; lia]. change (digits_val []) with 0 in Hv. lia. }
  split; [done|]. unfold nanoseconds, llen. split; [lia|]. rewrite take_ge by lia.
  rewrite <-Hv. do 2 f_equal. lia.
Qed.

(** ** Formatting and parsing *)

(** The text of a time, as bytes. *)
Definition text_of (y m d s frac : Z) : list ascii :=
  field 4 y ++ ["-"%char] ++ field 2 m ++ ["-"%char] ++ field 2 d ++ ["T"%char] ++ field 2 (s / 3600)
  ++ [":"%char] ++ field 2 ((s / 60) `mod` 60) ++ [":"%char] ++ field 2 (s `mod` 60)
  ++ (if frac =? 0 then [] else "."%char :: explode (trim_zeros (pad_left 9 (FormatUint frac))))
  ++ ["Z"%char].

#[local] Transparent FormatRFC3339Nano.
Lemma format_text t y m d : civil_of_days (local_seconds t / 86400) = (y, m, d) ->
  explode (FormatRFC3339Nano t) = text_of y m d (local_seconds t `mod` 86400) (ns t `mod` Second).
Proof.
  intros E. unfold FormatRFC3339Nano. rewrite E, !explode_app. unfold text_of, field. cbn zeta.
  destruct (_ =? 0); [done|]. by rewrite explode_app.
Qed.
#[local] Opaque FormatRFC3339Nano.

Lemma parse_fraction_text frac : 0 <= frac < Second ->
  parse_fraction ((if frac =? 0 then [] else "."%char :: explode (trim_zeros (pad_left 9 (FormatUint frac))))
                  ++ ["Z"%char]) = (frac, ["Z"%char]).
Proof.
  intros Hf. destruct (Z.eqb_spec frac 0) as [->|Hne]; [done|].
  destruct (fraction_spec frac) as (ds & -> & Hd & Hl & Hn); [lia|].
  cbn [app parse_fraction]. rewrite span_digits_app by done. rewrite Hn.
  by destruct (Z.ltb_spec 0 (llen ds)); [|lia].
Qed.

Lemma parse_text y m d s frac : 0 <= y <= 9999 -> 1 <= m <= 12 -> 1 <= d <= daysIn m y ->
  0 <= s < 86400 -> 0 <= frac < Second ->
  parse_strict (text_of y m d s frac) = Some (mkTime ((days_of_civil y m d * 86400 + s) * Second + frac) None 0).
Proof.
  intros Hy Hm Hd Hs Hf.
  assert (Hd31 : daysIn m y <= 31) by (unfold daysIn; repeat case_match; lia).
  pose proof (Z.div_mod s 3600 ltac:(lia)). pose proof (Z.mod_pos_bound s 3600 ltac:(lia)).
  pose proof (Z.div_mod s 60 ltac:(lia)). pose proof (Z.mod_pos_bound s 60 ltac:(lia)).
  pose proof (Z.div_mod (s / 60) 60 ltac:(lia)). pose proof (Z.mod_pos_bound (s / 60) 60 ltac:(lia)).
  assert (Hq : s / 60 / 60 = s / 3600) by (rewrite Z.div_div by lia; done).
  destruct (field4 y ltac:(lia)) as (y1 & y2 & y3 & y4 & Ey & Py).
  destruct (field2 m ltac:(lia)) as (m1 & m2 & Em & Pm).
  destruct (field2 d ltac:(lia)) as (d1 & d2 & Ed & Pd).
  destruct (field2 (s / 3600) ltac:(lia)) as (h1 & h2 & Eh & Ph).
  destruct (field2 ((s / 60) `mod` 60) ltac:(lia)) as (n1 & n2 & En & Pn).
  destruct (field2 (s `mod` 60) ltac:(lia)) as (c1 & c2 & Ec & Pc).
  unfold text_of. rewrite Ey, Em, Ed, Eh, En, Ec. cbn [app]. unfold parse_strict.
  rewrite Py, Pm, Pd, Ph, Pn, Pc, parse_fraction_text by lia. cbn.
  do 2 f_equal. f_equal. lia.
Qed.

(** A time in UTC whose year has four digits is read back from its text, down
    to the nanosecond. *)
Lemma format_parse t : zone t = 0 -> 0 <= Year t <= 9999 ->
  parse_strict (explode (FormatRFC3339Nano t)) = Some (mkTime (ns t) None 0).
Proof.
  intros Hz Hy. destruct (civil_of_days (local_seconds t / 86400)) as [[y m] d] eqn:E.
  unfold Year in Hy. rewrite E in Hy. cbn in Hy.
  destruct (civil_roundtrip _ _ _ _ E) as (Hdays & Hm & Hd). rewrite (format_text _ _ _ _ E).
  rewrite parse_text; [|done..|apply Z.mod_pos_bound; lia|apply Z.mod_pos_bound; unfold Second; lia].
  rewrite Hdays. do 2 f_equal. unfold local_seconds. rewrite Hz, Z.add_0_r.
  pose proof (Z.div_mod (ns t) Second ltac:(done)). pose proof (Z.div_mod (ns t / Second) 86400 ltac:(lia)). lia.
Qed.

Lemma time_Parse_format parse_layout t : zone t = 0 -> 0 <= Year t <= 9999 ->
  time_Parse parse_layout (FormatRFC3339Nano t) = Ok (mkTime (ns t) None 0).
Proof. intros. unfold time_Parse. by rewrite format_parse. Qed.
