(* ===== verification/SqliteText.v ===== *)
(** * Column text

    The forms in which the SQLite datasources store values, and the two
    normal forms of a timestamp by which they order rows: [ts_norm], the SQL
    function of [src/infrastructure/sqlite/database.go], and the stored column
    [created_at_norm] of [src/schema/sqlite/migrations/000031].  The order of
    the text is that of SQLite's BINARY collation. *)

From S2P Require Import Prelude GoStrings Ordering GoTime GoTimeText.

Definition formatTimestamp (t : Time) : string := FormatRFC3339Nano (UTC t).
Definition nullableString (s : string) : option string := if s =?s "" then None else Some s.
(** [sql.NullString.String]: NULL reads as the empty string. *)
Definition text (o : option string) : string := match o with Some s => s | None => "" end.
Definition boolToInt (b : bool) : Z := if b then 1 else 0.

(** Nine fractional digits, always. *)
Definition formatMemoryValidityTimestamp (timestamp : Time) : string :=
  let t := UTC timestamp in
  let secs := local_seconds t in
  let '(y, m, d) := civil_of_days (secs / 86400) in
  let s := secs `mod` 86400 in
  pad_left 4 (FormatUint y) +:+ "-" +:+ pad_left 2 (FormatUint m) +:+ "-" +:+ pad_left 2 (FormatUint d)
  +:+ "T" +:+ pad_left 2 (FormatUint (s / 3600)) +:+ ":" +:+ pad_left 2 (FormatUint ((s / 60) `mod` 60))
  +:+ ":" +:+ pad_left 2 (FormatUint (s `mod` 60))
  +:+ "." +:+ pad_left 9 (FormatUint (ns t `mod` Second)) +:+ "Z".

(** The column maintained by the insert trigger, on bytes: [substr] and
    [length] count the characters of the text, of which a timestamp has one
    for each byte. *)
Definition created_at_norm (created_at : string) : string :=
  let l := explode created_at in
  if bool_decide (last l = Some "Z"%char) && (20 <=? llen l)
  then implode (take 19 l) +:+ "." +:+
       implode (take 9 ((if bool_decide (l !! 19%nat = Some "."%char) then take (List.length l - 21) (drop 20 l) else [])
                        ++ repeat "0"%char 9)) +:+ "Z"
  else created_at.

Section Norm.
Context (parse_layout : string -> result Time).
Let Parse := time_Parse parse_layout.

Definition normalizeRFC3339NanoForCompare (raw : string) : string :=
  match Parse raw with Err _ => raw | Ok parsed => formatMemoryValidityTimestamp parsed end.
(** [ts_norm] of a TEXT value. *)
Definition ts_norm (raw : string) : string := normalizeRFC3339NanoForCompare raw.
(** [ts_valid]. *)
Definition ts_valid (raw : string) : bool := is_ok (Parse raw).
End Norm.

(** ** The calendar is monotone *)

Lemma euclid a k : 0 < k -> a = k * (a / k) + a `mod` k /\ 0 <= a `mod` k < k.
Proof. intros H. split; [apply Z.div_mod; lia|by apply Z.mod_pos_bound]. Qed.

(** Days up to March of a year. *)
Definition march (y : Z) : Z := 365 * y + y / 4 - y / 100 + y / 400.
Lemma days_of_march y m d :
  days_of_civil y m d =
  march (if m <=? 2 then y - 1 else y) + (153 * (if 2 <? m then m - 3 else m + 9) + 2) / 5 + d - 1 - 306.
Proof.
  unfold days_of_civil, march. set (z := if m <=? 2 then y - 1 else y).
  destruct (euclid z 400 ltac:(lia)), (euclid z 100 ltac:(lia)), (euclid z 4 ltac:(lia)).
  destruct (euclid (z `mod` 400) 100 ltac:(lia)), (euclid (z `mod` 400) 4 ltac:(lia)). lia.
Qed.
Lemma march_leap y : march y - march (y - 1) = if leap y then 366 else 365.
Proof.
  unfold march, leap.
  destruct (euclid y 400 ltac:(lia)), (euclid y 100 ltac:(lia)), (euclid y 4 ltac:(lia)).
  destruct (euclid (y - 1) 400 ltac:(lia)), (euclid (y - 1) 100 ltac:(lia)), (euclid (y - 1) 4 ltac:(lia)).
  destruct (Z.eqb_spec (y `mod` 4) 0), (Z.eqb_spec (y `mod` 100) 0), (Z.eqb_spec (y `mod` 400) 0); cbn [andb orb negb]; lia.
Qed.
Lemma march_mono a b : a <= b -> march a <= march b.
Proof.
  intros H. unfold march.
  destruct (euclid a 400 ltac:(lia)), (euclid a 100 ltac:(lia)), (euclid a 4 ltac:(lia)).
  destruct (euclid b 400 ltac:(lia)), (euclid b 100 ltac:(lia)), (euclid b 4 ltac:(lia)). lia.
Qed.

(** Dates of the calendar, compared year first. *)
Definition civil_date (c : Z * Z * Z) : Prop :=
  let '(y, m, d) := c in 1 <= m <= 12 /\ 1 <= d <= daysIn m y.
Definition civil_cmp : Z * Z * Z -> Z * Z * Z -> comparison :=
  lex (fun a b => fst (fst a) ?= fst (fst b)) (lex (fun a b => snd (fst a) ?= snd (fst b)) (fun a b => snd a ?= snd b)).
Definition days (c : Z * Z * Z) : Z := let '(y, m, d) := c in days_of_civil y m d.

Lemma months m : 1 <= m <= 12 ->
  m = 1 \/ m = 2 \/ m = 3 \/ m = 4 \/ m = 5 \/ m = 6 \/ m = 7 \/ m = 8 \/ m = 9 \/ m = 10 \/ m = 11 \/ m = 12.
Proof. lia. Qed.
Ltac each_month H := pose proof (months _ H); repeat (match goal with E : _ \/ _ |- _ => destruct E end); subst.
Ltac month_starts := cbn; repeat match goal with |- context [(153 * ?e + 2) / 5] =>
  let v := eval vm_compute in ((153 * e + 2) / 5) in change ((153 * e + 2) / 5) with v end.

Lemma year_days y m d : civil_date (y, m, d) -> march (y - 1) <= days_of_civil y m d < march y.
Proof.
  intros [Hm Hd]. rewrite days_of_march. pose proof (march_leap y) as Hl.
  each_month Hm; unfold daysIn in Hd; cbn in Hd; month_starts; destruct (leap y); lia.
Qed.
Lemma month_days y m d m' d' : civil_date (y, m, d) -> civil_date (y, m', d') -> m < m' ->
  days_of_civil y m d < days_of_civil y m' d'.
Proof.
  intros [Hm Hd] [Hm' Hd'] Hlt. rewrite !days_of_march. pose proof (march_leap y) as Hl.
  each_month Hm; unfold daysIn in Hd; cbn in Hd; each_month Hm'; try lia; unfold daysIn in Hd'; cbn in Hd'; month_starts; destruct (leap y); lia.
Qed.

Lemma days_lt a b : civil_date a -> civil_date b -> civil_cmp a b = Lt -> days a < days b.
Proof.
  destruct a as [[y m] d], b as [[y' m'] d']. intros Ha Hb. unfold civil_cmp, lex. cbn.
  destruct (Z.compare_spec y y') as [<-|Hy|Hy]; [|intros _|done].
  - destruct (Z.compare_spec m m') as [<-|Hlt|Hlt]; [|intros _; by apply month_days|done].
    intros Hlt%Z.compare_lt_iff. rewrite !days_of_march. do 2 apply Z.sub_lt_mono_r. by apply Z.add_lt_mono_l.
  - pose proof (year_days _ _ _ Ha). pose proof (year_days _ _ _ Hb). pose proof (march_mono y (y' - 1) ltac:(lia)). lia.
Qed.
Lemma ordering_civil : ordering civil_cmp.
Proof. repeat apply ordering_lex; apply (ordering_on _ Z.compare ordering_Z). Qed.
Lemma civil_cmp_eq a b : civil_cmp a b = Eq -> a = b.
Proof.
  destruct a as [[y m] d], b as [[y' m'] d']. unfold civil_cmp, lex. cbn.
  destruct (Z.compare_spec y y') as [<-| |]; [|done..]. destruct (Z.compare_spec m m') as [<-| |]; [|done..].
  by intros <-%Z.compare_eq_iff.
Qed.
Lemma days_cmp a b : civil_date a -> civil_date b -> (days a ?= days b) = civil_cmp a b.
Proof.
  intros Ha Hb. destruct (civil_cmp a b) eqn:E.
  - apply civil_cmp_eq in E as ->. apply Z.compare_refl.
  - by apply Z.compare_lt_iff, days_lt.
  - apply Z.compare_gt_iff, days_lt; [done..|]. by apply (ord_gt_lt _ ordering_civil).
Qed.

(** ** Digits compare as numbers *)

Lemma string_compare_cons a s b t :
  String.compare (String a s) (String b t) = match Ascii.compare a b with Eq => String.compare s t | o => o end.
Proof. done. Qed.
Lemma ascii_compare_val a b : Ascii.compare a b = (byte_val a ?= byte_val b).
Proof. unfold Ascii.compare, byte_val. by rewrite N2Z.inj_compare. Qed.
Lemma implode_cons a l : implode (a :: l) = String a (implode l).
Proof. done. Qed.

Lemma digits_val_cons c l : digits_val (c :: l) = (byte_val c - 48) * 10 ^ llen l + digits_val l.
Proof.
  unfold llen. induction l as [|x l IH] using rev_ind; [cbn; lia|].
  rewrite app_comm_cons, !digits_val_snoc, IH, length_app. cbn [List.length]. rewrite Nat2Z.inj_add, Z.pow_add_r by lia. cbn. lia.
Qed.
Lemma digits_val_bound l : forallb is_digit l = true -> 0 <= digits_val l < 10 ^ llen l.
Proof.
  unfold llen. induction l as [|c l IH]; [done|]. cbn [forallb]. intros [Hc Hl]%andb_true_iff. rewrite digits_val_cons.
  apply is_digit_range in Hc. specialize (IH Hl). unfold llen. cbn [List.length]. rewrite Nat2Z.inj_succ, Z.pow_succ_r by lia. nia.
Qed.

Lemma digits_compare ds es r r' : List.length ds = List.length es -> forallb is_digit ds = true -> forallb is_digit es = true ->
  String.compare (implode (ds ++ r)) (implode (es ++ r')) =
  match digits_val ds ?= digits_val es with Eq => String.compare (implode r) (implode r') | o => o end.
Proof.
  revert es. induction ds as [|d ds IH]; intros [|e es] Hl Hd He; try done.
  cbn [forallb] in Hd, He. apply andb_true_iff in Hd as [Hd Hds], He as [He Hes]. injection Hl as Hl.
  cbn [app]. rewrite !implode_cons, string_compare_cons, ascii_compare_val, (IH es Hl Hds Hes), !digits_val_cons.
  pose proof (digits_val_bound _ Hds) as Bd. pose proof (digits_val_bound _ Hes) as Be.
  assert (El : llen ds = llen es) by (unfold llen; by rewrite Hl). rewrite El in *.
  destruct (Z.compare_spec (byte_val d) (byte_val e)) as [->|Hlt|Hlt].
  - by rewrite Z.add_compare_mono_l.
  - assert (E : ((byte_val d - 48) * 10 ^ llen es + digits_val ds ?= (byte_val e - 48) * 10 ^ llen es + digits_val es) = Lt)
      by (apply Z.compare_lt_iff; nia). by rewrite E.
  - assert (E : ((byte_val d - 48) * 10 ^ llen es + digits_val ds ?= (byte_val e - 48) * 10 ^ llen es + digits_val es) = Gt)
      by (apply Z.compare_gt_iff; nia). by rewrite E.
Qed.
Lemma field_compare n a b r r' : 0 <= a < 10 ^ Z.of_nat n -> 0 <= b < 10 ^ Z.of_nat n -> (0 < n)%nat ->
  String.compare (implode (field n a ++ r)) (implode (field n b ++ r')) =
  match a ?= b with Eq => String.compare (implode r) (implode r') | o => o end.
Proof.
  intros Ha Hb Hn. destruct (field_spec n a Ha Hn) as (La & Da & Va), (field_spec n b Hb Hn) as (Lb & Db & Vb).
  rewrite digits_compare by congruence. by rewrite Va, Vb.
Qed.
Lemma chr_compare c r r' : String.compare (implode (c :: r)) (implode (c :: r')) = String.compare (implode r) (implode r').
Proof. by rewrite !implode_cons, string_compare_cons, ascii_compare_val, Z.compare_refl. Qed.

(** ** The fixed-width form *)

Definition fixed_text (c : Z * Z * Z) (s frac : Z) : list ascii :=
  let '(y, m, d) := c in
  field 4 y ++ "-"%char :: field 2 m ++ "-"%char :: field 2 d ++ "T"%char :: field 2 (s / 3600)
  ++ ":"%char :: field 2 ((s / 60) `mod` 60) ++ ":"%char :: field 2 (s `mod` 60)
  ++ "."%char :: field 9 frac ++ ["Z"%char].

Definition civil (t : Time) : Z * Z * Z := civil_of_days (local_seconds (UTC t) / 86400).
Definition day_seconds (t : Time) : Z := local_seconds (UTC t) `mod` 86400.
Definition fraction (t : Time) : Z := ns t `mod` Second.

Lemma civil_ok t : civil_date (civil t).
Proof. unfold civil, civil_date. destruct (civil_of_days _) as [[y m] d] eqn:E. by destruct (civil_roundtrip _ _ _ _ E). Qed.
Lemma fixed_format t : formatMemoryValidityTimestamp t = implode (fixed_text (civil t) (day_seconds t) (fraction t)).
Proof.
  unfold formatMemoryValidityTimestamp, fixed_text, civil, day_seconds, fraction. cbn zeta.
  destruct (civil_of_days _) as [[y m] d]. apply explode_inj. rewrite explode_implode, !explode_app. unfold field. by cbn.
Qed.

Lemma clock_compare s s' : 0 <= s < 86400 -> 0 <= s' < 86400 ->
  (s ?= s') = match s / 3600 ?= s' / 3600 with
              | Eq => match (s / 60) `mod` 60 ?= (s' / 60) `mod` 60 with Eq => s `mod` 60 ?= s' `mod` 60 | o => o end
              | o => o end.
Proof.
  intros H H'. destruct (euclid s 60 ltac:(lia)), (euclid s' 60 ltac:(lia)), (euclid (s / 60) 60 ltac:(lia)), (euclid (s' / 60) 60 ltac:(lia)).
  assert (E : s / 3600 = s / 60 / 60) by (rewrite Z.div_div by lia; done).
  assert (E' : s' / 3600 = s' / 60 / 60) by (rewrite Z.div_div by lia; done). rewrite E, E'.
  destruct (Z.compare_spec (s / 60 / 60) (s' / 60 / 60)); [|apply Z.compare_lt_iff; lia|apply Z.compare_gt_iff; lia].
  destruct (Z.compare_spec ((s / 60) `mod` 60) ((s' / 60) `mod` 60)); [|apply Z.compare_lt_iff; lia|apply Z.compare_gt_iff; lia].
  destruct (Z.compare_spec (s `mod` 60) (s' `mod` 60)); [apply Z.compare_eq_iff; lia|apply Z.compare_lt_iff; lia|apply Z.compare_gt_iff; lia].
Qed.

Lemma fixed_compare c s f c' s' f' : civil_date c -> civil_date c' -> 0 <= fst (fst c) <= 9999 -> 0 <= fst (fst c') <= 9999 ->
  0 <= s < 86400 -> 0 <= s' < 86400 -> 0 <= f < Second -> 0 <= f' < Second ->
  String.compare (implode (fixed_text c s f)) (implode (fixed_text c' s' f')) =
  match civil_cmp c c' with Eq => match s ?= s' with Eq => f ?= f' | o => o end | o => o end.
Proof.
  destruct c as [[y m] d], c' as [[y' m'] d']. intros [Hm Hd] [Hm' Hd'] Hy Hy' Hs Hs' Hf Hf'. cbn in Hy, Hy'.
  assert (Hday : d <= 31 /\ d' <= 31) by (unfold daysIn in *; repeat case_match; lia).
  destruct (euclid s 3600 ltac:(lia)), (euclid s 60 ltac:(lia)), (euclid (s / 60) 60 ltac:(lia)).
  destruct (euclid s' 3600 ltac:(lia)), (euclid s' 60 ltac:(lia)), (euclid (s' / 60) 60 ltac:(lia)).
  unfold Second in *. unfold fixed_text, civil_cmp, lex. cbn [fst snd].
  rewrite field_compare by (cbn; lia). destruct (y ?= y'); [|done..].
  rewrite chr_compare, field_compare by (cbn; lia). destruct (m ?= m'); [|done..].
  rewrite chr_compare, field_compare by (cbn; lia). destruct (d ?= d'); [|done..].
  rewrite (clock_compare s s') by lia.
  rewrite chr_compare, field_compare by (cbn; lia). destruct (s / 3600 ?= s' / 3600); [|done..].
  rewrite chr_compare, field_compare by (cbn; lia). destruct ((s / 60) `mod` 60 ?= _); [|done..].
  rewrite chr_compare, field_compare by (cbn; lia). destruct (s `mod` 60 ?= _); [|done..].
  rewrite chr_compare, field_compare by (cbn; lia). by destruct (f ?= f').
Qed.

Lemma ns_compare t u : (ns t ?= ns u) =
  match days (civil t) ?= days (civil u) with
  | Eq => match day_seconds t ?= day_seconds u with Eq => fraction t ?= fraction u | o => o end
  | o => o end.
Proof.
  assert (Hd : forall t, days (civil t) = local_seconds (UTC t) / 86400).
  { intros v. unfold civil, days. destruct (civil_of_days _) as [[y m] d] eqn:E. by destruct (civil_roundtrip _ _ _ _ E). }
  rewrite !Hd. unfold day_seconds, fraction, local_seconds, UTC. cbn [ns zone]. rewrite !Z.add_0_r.
  destruct (euclid (ns t) Second ltac:(done)), (euclid (ns u) Second ltac:(done)).
  destruct (euclid (ns t / Second) 86400 ltac:(done)), (euclid (ns u / Second) 86400 ltac:(done)). unfold Second in *.
  destruct (Z.compare_spec (ns t / 1000000000 / 86400) (ns u / 1000000000 / 86400)); [|apply Z.compare_lt_iff; lia|apply Z.compare_gt_iff; lia].
  destruct (Z.compare_spec ((ns t / 1000000000) `mod` 86400) ((ns u / 1000000000) `mod` 86400)); [|apply Z.compare_lt_iff; lia|apply Z.compare_gt_iff; lia].
  destruct (Z.compare_spec (ns t `mod` 1000000000) (ns u `mod` 1000000000)); [apply Z.compare_eq_iff; lia|apply Z.compare_lt_iff; lia|apply Z.compare_gt_iff; lia].
Qed.

(** Fixed-width texts of years of four digits are ordered as the instants. *)
Definition four_digits (t : Time) : Prop := 0 <= Year (UTC t) <= 9999.
Lemma fixed_chronological t u : four_digits t -> four_digits u ->
  String.compare (formatMemoryValidityTimestamp t) (formatMemoryValidityTimestamp u) = (ns t ?= ns u).
Proof.
  intros Ht Hu. rewrite !fixed_format, ns_compare, days_cmp by apply civil_ok.
  apply fixed_compare; try done; try apply civil_ok; try (apply Z.mod_pos_bound; unfold Second; lia).
Qed.

(** ** Stored timestamps *)

Lemma ts_norm_format parse_layout t : four_digits t ->
  ts_norm parse_layout (formatTimestamp t) = formatMemoryValidityTimestamp t.
Proof.
  intros Ht. unfold ts_norm, normalizeRFC3339NanoForCompare, formatTimestamp. by rewrite (time_Parse_format parse_layout (UTC t) eq_refl Ht).
Qed.

(** The first nineteen bytes. *)
Definition seconds_text (c : Z * Z * Z) (s : Z) : list ascii :=
  let '(y, m, d) := c in
  field 4 y ++ "-"%char :: field 2 m ++ "-"%char :: field 2 d ++ "T"%char :: field 2 (s / 3600)
  ++ ":"%char :: field 2 ((s / 60) `mod` 60) ++ ":"%char :: field 2 (s `mod` 60).
Lemma seconds_length c s : civil_date c -> 0 <= fst (fst c) <= 9999 -> 0 <= s < 86400 ->
  List.length (seconds_text c s) = 19%nat.
Proof.
  destruct c as [[y m] d]. intros [Hm Hd] Hy Hs. cbn in Hy.
  assert (Hday : d <= 31) by (unfold daysIn in *; repeat case_match; lia).
  destruct (euclid s 3600 ltac:(lia)), (euclid s 60 ltac:(lia)), (euclid (s / 60) 60 ltac:(lia)).
  unfold seconds_text. repeat (rewrite length_app || cbn [List.length]).
  destruct (field_spec 4 y), (field_spec 2 m), (field_spec 2 d), (field_spec 2 (s / 3600)), (field_spec 2 ((s / 60) `mod` 60)),
    (field_spec 2 (s `mod` 60)); cbn; lia.
Qed.
Lemma fixed_seconds c s f : fixed_text c s f = seconds_text c s ++ "."%char :: field 9 f ++ ["Z"%char].
Proof. destruct c as [[y m] d]. unfold fixed_text, seconds_text. by repeat (rewrite <-app_assoc; cbn [app]). Qed.
Lemma stored_seconds t : explode (formatTimestamp t) =
  seconds_text (civil t) (day_seconds t)
  ++ (if fraction t =? 0 then [] else "."%char :: explode (trim_zeros (pad_left 9 (FormatUint (fraction t))))) ++ ["Z"%char].
Proof.
  unfold formatTimestamp, civil, day_seconds. destruct (civil_of_days _) as [[y m] d] eqn:E. rewrite (format_text _ _ _ _ E).
  unfold text_of, seconds_text, fraction, UTC. cbn [ns]. by repeat (rewrite <-app_assoc; cbn [app]).
Qed.

Lemma padded_fraction f : 0 < f < Second ->
  take 9 (explode (trim_zeros (pad_left 9 (FormatUint f))) ++ repeat "0"%char 9) = field 9 f /\
  (0 < List.length (explode (trim_zeros (pad_left 9 (FormatUint f)))))%nat.
Proof.
  intros Hf. destruct (field_spec 9 f ltac:(unfold Second in *; cbn; lia) ltac:(lia)) as (Hl & _ & Hv).
  unfold trim_zeros. rewrite explode_implode. fold (field 9 f).
  destruct (drop_trailing_spec (rev (field 9 f))) as (k & E & _). set (ds := drop_trailing "0"%char (rev (field 9 f))) in *.
  assert (E' : field 9 f = rev ds ++ repeat "0"%char k).
  { rewrite <-(rev_involutive (field 9 f)), E, rev_app_distr. f_equal. clear. induction k as [|k IH]; [done|]. cbn [repeat rev]. rewrite IH.
    clear. induction k as [|k IH]; [done|]. cbn [repeat app]. by rewrite IH. }
  assert (Hk : (List.length (rev ds) + k = 9)%nat) by (rewrite <-Hl, E', length_app, repeat_length; done).
  split.
  - rewrite E'. assert (E9 : repeat "0"%char 9 = repeat "0"%char k ++ repeat "0"%char (9 - k))
      by (rewrite <-repeat_app; f_equal; lia).
    rewrite E9, app_assoc, take_app_le by (rewrite length_app, repeat_length; lia).
    apply take_ge. rewrite length_app, repeat_length. lia.
  - destruct (rev ds) as [|c l] eqn:Er; [exfalso|cbn; lia]. rewrite E' in Hv. cbn [app] in Hv.
    rewrite <-(app_nil_r (repeat _ _)), digits_val_pad in Hv. cbn in Hv. lia.
Qed.

Lemma created_at_norm_format t : four_digits t -> created_at_norm (formatTimestamp t) = formatMemoryValidityTimestamp t.
Proof.
  intros Ht. pose proof (civil_ok t) as Hc.
  assert (Hs : 0 <= day_seconds t < 86400) by (apply Z.mod_pos_bound; lia).
  assert (Hf : 0 <= fraction t < Second) by (apply Z.mod_pos_bound; unfold Second; lia).
  pose proof (seconds_length _ _ Hc Ht Hs) as Hl. rewrite fixed_format, fixed_seconds. unfold created_at_norm. rewrite stored_seconds.
  set (p := seconds_text _ _) in *. set (mid := if fraction t =? 0 then [] else _).
  rewrite !app_assoc, last_snoc, bool_decide_true by done. cbn [andb].
  destruct (Z.leb_spec 20 (llen ((p ++ mid) ++ ["Z"%char]))) as [_|Hlt]; [|exfalso; unfold llen in Hlt; rewrite !length_app, Hl in Hlt; cbn [List.length] in Hlt; lia].
  rewrite <-app_assoc, take_app_length' by lia.
  rewrite lookup_app_r, Hl, Nat.sub_diag by lia.
  rewrite (drop_app_ge p) by lia. rewrite Hl. cbn [Nat.sub].
  apply explode_inj. rewrite !explode_app, !explode_implode. f_equal. cbn [explode list_ascii_of_string app]. f_equal. f_equal.
  unfold mid. destruct (Z.eqb_spec (fraction t) 0) as [->|Hne].
  - cbn [app lookup list_lookup]. rewrite bool_decide_false by done. by vm_compute.
  - cbn [app lookup list_lookup]. rewrite bool_decide_true by done. cbn [drop].
    destruct (padded_fraction (fraction t) ltac:(lia)) as [E Hpos]. rewrite <-E. f_equal. f_equal.
    rewrite !length_app. cbn [List.length]. rewrite length_app, Hl. cbn [List.length].
    apply take_app_length'. lia.
Qed.

Lemma timestamps_agree parse_layout t : four_digits t ->
  ts_norm parse_layout (formatTimestamp t) = created_at_norm (formatTimestamp t) /\
  ts_norm parse_layout (formatTimestamp t) = formatMemoryValidityTimestamp t.
Proof. intros Ht. by rewrite ts_norm_format, created_at_norm_format. Qed.

(** (C36) The order by which rows are selected is the order of time: for
    instants of years 0 to 9999, the two normal forms of the stored texts are
    the same, in whatever zone the instants were given, and compare byte by
    byte as the instants do, down to the nanosecond. *)
Theorem timestamp_order_exact parse_layout t u : four_digits t -> four_digits u ->
  ts_norm parse_layout (formatTimestamp t) = created_at_norm (formatTimestamp t) /\
  String.compare (ts_norm parse_layout (formatTimestamp t)) (ts_norm parse_layout (formatTimestamp u)) = (ns t ?= ns u).
Proof.
  intros Ht Hu. rewrite !ts_norm_format, created_at_norm_format by done. split; [done|by apply fixed_chronological].
Qed.

(** ** Examples *)

Definition ex_whole : Time := mkTime (unix_epoch_ns + 951827696000000000) None 7200.
Definition ex_half : Time := mkTime (unix_epoch_ns + 951827696500000000) None 0.
Definition no_layout (s : string) : result Time := Err (Errorf "parsing time" [s]).

(** The stored texts themselves compare the other way. *)
Lemma timestamp_order_exact_witness :
  String.compare (formatTimestamp ex_whole) (formatTimestamp ex_half) = Gt /\
  String.compare (ts_norm no_layout (formatTimestamp ex_whole)) (ts_norm no_layout (formatTimestamp ex_half)) = Lt.
Proof.
  split; [by vm_compute|]. destruct (timestamp_order_exact no_layout ex_whole ex_half) as [_ H]; [by vm_compute|by vm_compute|exact H].
Defined.
