(* ===== verification/RuntimeValues.v ===== *)
(** * Runtime value objects

    [src/domain/runtime]: the sentinel errors, the bounded identifiers and the
    immutable values every runtime aggregate is built from -- projects,
    worktrees, targets, host profiles, launch identities, derived
    observations and metadata confirmations. *)

From S2P Require Import Prelude GoStrings Sha256.

(** ** Errors *)

Definition ErrInvalid : error := Sentinel "invalid runtime registry value".
Definition ErrDuplicate : error := Sentinel "runtime registry entry already exists".
Definition ErrNotFound : error := Sentinel "runtime registry entry not found".
Definition ErrForeign : error := Sentinel "worktree does not belong to the project".
Definition ErrChanged : error := Sentinel "runtime target or registry changed".
Definition ErrLimit : error := Sentinel "runtime registry limit exceeded".
Definition ErrInUse : error := Sentinel "runtime project still has registered worktrees".
Definition ErrUnsafe : error := Sentinel "unsafe runtime filesystem identity".
Definition ErrUnsupported : error := Sentinel "unsupported runtime metadata version".

Definition MaxProjects : Z := 100.
Definition MaxWorktrees : Z := 1000.

(** ** Identifiers and bounded text *)

Definition ascii_alnum (r : Z) : bool :=
  in_range 97 122 r || in_range 65 90 r || in_range 48 57 r.

(** [ProfileID] values are strings. *)
Definition ProfileIDFrom (value : string) : result string :=
  if (slen value =? 0) || (128 <? slen value) then Err ErrInvalid
  else if forallb (fun r => ascii_alnum r || (r =? 45) || (r =? 95)) (range_runes value)
  then Ok value else Err ErrInvalid.

(** The bytes hashed by [identity]: each value followed by a NUL byte. *)
Definition nul : ascii := Ascii.zero.
Definition identity_preimage (values : list string) : list ascii :=
  flat_map (fun v => explode v ++ [nul]) values.
Definition identity (prefix : string) (values : list string) : string :=
  prefix +:+ EncodeToString (Sum256 (identity_preimage values)).

Definition line_breaks : list ascii := [nul; "013"%char; "010"%char].
Definition validPath (s : string) : bool :=
  valid_utf8 s && HasPrefix s "/" && (Clean s =?s s) && (slen s <=? 4096)
  && negb (ContainsAny s line_breaks).
Definition validWitness (s : string) : bool :=
  valid_utf8 s && (0 <? slen s) && (slen s <=? 1024) && negb (ContainsAny s line_breaks).

Definition printableLaunchValue (s : string) (limit : Z) : bool :=
  if (slen s =? 0) || (limit <? slen s) || (TrimSpace s <>?s s) then false
  else forallb (fun r => negb ((r <? 32) || (126 <? r))) (range_runes s).

Definition observationCorrelation (value : string) (optional : bool) : bool :=
  if value =?s "" then optional
  else if 256 <? slen value then false
  else forallb (fun r => ascii_alnum r || (r =? 95) || (r =? 45) || (r =? 46) || (r =? 58))
         (range_runes value).

Definition validControlRequestID (s : string) : bool :=
  if (slen s <? 1) || (128 <? slen s) then false
  else forallb (fun c => ascii_alnum c || (c =? 45) || (c =? 95)) (range_runes s).

Definition ControlRequestIDFrom (value : string) : result string :=
  if validControlRequestID value then Ok value else Err ErrInvalid.

Definition canonicalHex (value : string) (size : Z) : bool :=
  if negb (slen value =? size) || (value <>?s ToLower value) then false else hex_ok value.
Definition validLaunchID (s : string) : bool :=
  if negb (slen s =? 32) then false else hex_ok s && (ToLower s =?s s).
Definition validMetadataDigest (digest : string) : bool :=
  if negb (slen digest =? 64) || (ToLower digest <>?s digest) then false else hex_ok digest.

(** ** Projects and worktrees *)

Record Project := mkProject {
  p_id : string; p_root : string; p_common : string; p_witness : string }.
#[global] Instance Project_eq_dec : EqDecision Project.
Proof. solve_decision. Defined.
Definition Project_zero : Project := mkProject "" "" "" "".

Definition ProjectOf (root common witness : string) : result Project :=
  if negb (validPath root) || negb (validPath common) || negb (validWitness witness)
  then Err ErrInvalid
  else Ok (mkProject (identity "p_" [root; common; witness]) root common witness).

Record Worktree := mkWorktree {
  w_id : string; w_project : string; w_path : string; w_common : string;
  w_store : string; w_witness : string }.
#[global] Instance Worktree_eq_dec : EqDecision Worktree.
Proof. solve_decision. Defined.
Definition Worktree_zero : Worktree := mkWorktree "" "" "" "" "" "".

Definition WorktreeOf (project path common store witness : string) : result Worktree :=
  if negb (slen project =? 66) || negb (HasPrefix project "p_") || negb (validPath path)
     || negb (validPath common) || negb (validPath store) || negb (validWitness witness)
  then Err ErrInvalid
  else Ok (mkWorktree (identity "w_" [project; path; common; store; witness])
             project path common store witness).

(** The check [valid, err := XOf(...); err != nil || valid != x]. *)
Definition Project_checked (p : Project) : bool :=
  bool_decide (ProjectOf (p_root p) (p_common p) (p_witness p) = Ok p).
Definition Worktree_checked (w : Worktree) : bool :=
  bool_decide (WorktreeOf (w_project w) (w_path w) (w_common w) (w_store w) (w_witness w) = Ok w).

Record Target := mkTarget { t_worktree : Worktree; t_profile : string }.
#[global] Instance Target_eq_dec : EqDecision Target.
Proof. solve_decision. Defined.

Definition TargetOf (worktree : Worktree) (profile : string) : result Target :=
  let! id := ProfileIDFrom profile in
  if w_id worktree =?s "" then Err ErrInvalid else Ok (mkTarget worktree id).

(** ** Host profiles and launch identities *)

Definition MaxActiveRuns : Z := 256.
Definition MaxLaunchRequests : Z := 1024.
Definition MaxHostProfiles : Z := 32.

Definition known_host (h : string) : bool :=
  slices_contains ["codex"; "claude"; "antigravity"; "grok"] h.

Record HostProfile := mkHostProfile {
  hp_id : string; hp_host : string; hp_executable : string;
  hp_executable_witness : string; hp_version : string }.
#[global] Instance HostProfile_eq_dec : EqDecision HostProfile.
Proof. solve_decision. Defined.

Definition HostProfileFrom (s : HostProfile) : result HostProfile :=
  let! _ := ProfileIDFrom (hp_id s) in
  if negb (known_host (hp_host s)) then Err ErrInvalid
  else if negb (validPath (hp_executable s)) || negb (validWitness (hp_executable_witness s))
          || negb (printableLaunchValue (hp_version s) 256)
  then Err ErrInvalid else Ok s.

Record LaunchIdentity := mkLaunchIdentity { li_run : string; li_generation : string; li_epoch : string }.
#[global] Instance LaunchIdentity_eq_dec : EqDecision LaunchIdentity.
Proof. solve_decision. Defined.
Definition LaunchIdentity_zero : LaunchIdentity := mkLaunchIdentity "" "" "".

Definition LaunchIdentity_Valid (i : LaunchIdentity) : bool :=
  validLaunchID (li_run i) && validLaunchID (li_generation i) && validLaunchID (li_epoch i).

(** ** Metadata forget confirmation *)

Definition MetadataForgetConfirmationOf (digest : string) (historyLoss recoveryLoss : bool) : result string :=
  if negb historyLoss || negb recoveryLoss || negb (validMetadataDigest digest)
  then Err ErrInvalid else Ok digest.

(** ** Derived observations *)

Definition ObservationPromptBoundary : string := "prompt_boundary".
Definition ObservationToolBoundary : string := "tool_boundary".
Definition ObservationTurnBoundary : string := "turn_boundary".
Definition ObservationSessionBoundary : string := "session_boundary".
Definition observation_boundaries : list string :=
  [ObservationPromptBoundary; ObservationToolBoundary; ObservationTurnBoundary; ObservationSessionBoundary].

Record DerivedObservationState := mkDerivedObservation {
  do_host : string; do_host_version : string; do_event_id : string;
  do_native_session_id : string; do_native_turn_id : string; do_kind : string }.

Definition DerivedObservationOf (s : DerivedObservationState) : result DerivedObservationState :=
  if negb (known_host (do_host s)) then Err ErrInvalid
  else if negb (slices_contains observation_boundaries (do_kind s)) then Err ErrInvalid
  else if negb (printableLaunchValue (do_host_version s) 256)
          || negb (observationCorrelation (do_event_id s) false)
          || negb (observationCorrelation (do_native_session_id s) true)
          || negb (observationCorrelation (do_native_turn_id s) true)
  then Err ErrInvalid else Ok s.

(** ** Facts *)

Lemma Project_checked_spec p : Project_checked p = true <->
  validPath (p_root p) = true /\ validPath (p_common p) = true /\ validWitness (p_witness p) = true /\
  p_id p = identity "p_" [p_root p; p_common p; p_witness p].
Proof.
  unfold Project_checked. rewrite bool_decide_eq_true. destruct p as [i r c w]. simpl.
  unfold ProjectOf. destruct (validPath r), (validPath c), (validWitness w); simpl;
    (split; [intros; by simplify_eq | intros (?&?&?&?); by simplify_eq]).
Qed.

Lemma Worktree_checked_spec w : Worktree_checked w = true <->
  WorktreeOf (w_project w) (w_path w) (w_common w) (w_store w) (w_witness w) = Ok w.
Proof. unfold Worktree_checked. by rewrite bool_decide_eq_true. Qed.

(** A value without a NUL byte. *)
Definition nul_free (s : string) : Prop := nul ∉ explode s.

(** [identity] hashes its values unambiguously: two lists of NUL-free values
    with the same preimage are equal, so distinct values share an identity
    only through a collision of the hash itself. *)
Lemma identity_preimage_inj vs ws :
  Forall nul_free vs -> Forall nul_free ws ->
  identity_preimage vs = identity_preimage ws -> vs = ws.
Proof.
  revert ws. induction vs as [|v vs IH]; intros [|w ws] Hv Hw H.
  - done.
  - simpl in H. by destruct (explode w).
  - simpl in H. by destruct (explode v).
  - apply Forall_cons in Hv as [Hv1 Hv2], Hw as [Hw1 Hw2].
    simpl in H. rewrite <-!app_assoc in H. simpl in H.
    apply delimited_inj in H as [H1 H2]; [|done|done].
    f_equal; [by apply explode_inj|by apply IH].
Qed.

Lemma validPath_nul_free s : validPath s = true -> nul_free s.
Proof.
  unfold validPath, ContainsAny, nul_free. intros H Hin. breflect.
  match goal with H : existsb _ _ = false |- _ => rename H into Hex end.
  rewrite <-not_true_iff_false, existsb_exists in Hex. apply Hex.
  exists nul. by split; [apply list_elem_of_In|].
Qed.
Lemma validWitness_nul_free s : validWitness s = true -> nul_free s.
Proof.
  unfold validWitness, ContainsAny, nul_free. intros H Hin. breflect.
  match goal with H : existsb _ _ = false |- _ => rename H into Hex end.
  rewrite <-not_true_iff_false, existsb_exists in Hex. apply Hex.
  exists nul. by split; [apply list_elem_of_In|].
Qed.

(** ASCII character sets and hexadecimal exclude the NUL byte. *)
Lemma ascii_test_nul_free (p : Z -> bool) s :
  (forall z, p z = true -> 0 < z < 128) -> forallb p (range_runes s) = true -> nul_free s.
Proof.
  intros Hp H Hin. unfold range_runes in H.
  rewrite forallb_runes_ascii in H by (intros z Hz; apply Hp in Hz; lia).
  rewrite forallb_forall in H. apply list_elem_of_In in Hin. specialize (H _ Hin).
  apply Hp in H. change (byte_val nul) with 0 in H. lia.
Qed.
Lemma hex_ok_nul_free s : hex_ok s = true -> nul_free s.
Proof.
  unfold hex_ok, DecodeString, nul_free. intros H.
  destruct (hex_decode_bytes (explode s)) as [r|] eqn:E; [|done]. clear H.
  revert r E. induction (explode s) as [| a | a b l IH] using two_step_ind; intros r E.
  - apply not_elem_of_nil.
  - done.
  - simpl in E. destruct (hex_val a) eqn:Ea; [|done]. destruct (hex_val b) eqn:Eb; [|done].
    destruct (hex_decode_bytes l) eqn:El; [|done].
    rewrite !elem_of_cons. intros [<-|[<-|Hin]]; [done|done|]. by eapply IH.
Qed.
Lemma validMetadataDigest_nul_free s : validMetadataDigest s = true -> nul_free s.
Proof. unfold validMetadataDigest. intros H. ok_inv H. by apply hex_ok_nul_free. Qed.
Lemma observationCorrelation_nul_free s : observationCorrelation s false = true -> nul_free s.
Proof.
  unfold observationCorrelation. intros H. ok_inv H. eapply ascii_test_nul_free; [|exact H].
  intros z Hz. cbn beta in Hz. unfold ascii_alnum, in_range in Hz.
  repeat (apply orb_true_iff in Hz as [Hz|Hz]); breflect; lia.
Qed.
#[export] Hint Resolve validPath_nul_free validWitness_nul_free validMetadataDigest_nul_free
  observationCorrelation_nul_free hex_ok_nul_free : traceary.

(** Two different inputs with one digest. *)
Definition collision (l k : list ascii) : Prop := l <> k /\ Sum256 l = Sum256 k.

(** No two different inputs of the two lists have one digest: what a claim may
    ask of SHA-256 about the inputs that the code hashes, which are given. *)
Definition collision_free (ps qs : list (list ascii)) : Prop :=
  forall p q, p ∈ ps -> q ∈ qs -> Sum256 p = Sum256 q -> p = q.
(** Decided with one digest of each input. *)
Definition distinct_digests (ds es : list (list ascii * list ascii)) : Prop :=
  Forall (fun d => Forall (fun e => d.2 = e.2 -> d.1 = e.1) es) ds.
Definition with_digest (p : list ascii) : list ascii * list ascii := (p, Sum256 p).
Lemma collision_free_digests ps qs : distinct_digests (with_digest <$> ps) (with_digest <$> qs) <-> collision_free ps qs.
Proof.
  unfold collision_free, distinct_digests. rewrite Forall_fmap, Forall_forall.
  setoid_rewrite Forall_fmap. setoid_rewrite Forall_forall. unfold with_digest. cbn. naive_solver.
Qed.
#[global] Instance distinct_digests_dec ds es : Decision (distinct_digests ds es).
Proof. unfold distinct_digests. apply _. Defined.
#[global] Instance collision_free_dec ps qs : Decision (collision_free ps qs).
Proof.
  refine (cast_if (decide (distinct_digests (with_digest <$> ps) (with_digest <$> qs))));
    by rewrite <-collision_free_digests.
Defined.

Lemma identity_exact prefix vs ws :
  Forall nul_free vs -> Forall nul_free ws -> identity prefix vs = identity prefix ws ->
  vs = ws \/ collision (identity_preimage vs) (identity_preimage ws).
Proof.
  unfold identity, collision. intros Hv Hw H%string_app_inj_l%EncodeToString_inj.
  destruct (decide (identity_preimage vs = identity_preimage ws)) as [E|E]; [left|by right].
  by apply identity_preimage_inj.
Qed.
