(* ===== verification/Registry.v ===== *)
(** * The runtime registry

    [src/domain/runtime/registry.go]: which projects and worktrees are
    registered.  The registry owns membership, uniqueness, the admission
    limits and explicit deletion through a previewed plan. *)

From stdpp Require Import sorting.
From S2P Require Import Prelude GoStrings Sha256 RuntimeValues.

Record Registry := mkRegistry {
  r_revision : Z;
  r_projects : gmap string Project;
  r_worktrees : gmap string Worktree }.

Record RegistryState := mkRegistryState {
  rs_revision : Z; rs_projects : list Project; rs_worktrees : list Worktree }.

Definition NewRegistry : Registry := mkRegistry 0 ∅ ∅.

(** ** Lookups *)

Definition Registry_Project (r : Registry) (id : string) : result Project :=
  match r_projects r !! id with Some p => Ok p | None => Err ErrNotFound end.
Definition Registry_Worktree (r : Registry) (id : string) : result Worktree :=
  match r_worktrees r !! id with Some w => Ok w | None => Err ErrNotFound end.
Definition Registry_Target (r : Registry) (id profile : string) : result Target :=
  let! p := ProfileIDFrom profile in
  let! w := Registry_Worktree r id in
  Ok (mkTarget w p).

(** ** Registration *)

Definition AddProject (r : Registry) (p : Project) : result Registry :=
  if negb (Project_checked p) then Err ErrInvalid
  else if map_any (fun e => (p_common e =?s p_common p) || (p_root e =?s p_root p)) (r_projects r)
  then Err ErrDuplicate
  else if (MaxProjects <=? msize (r_projects r)) || (r_revision r =? MaxUint64) then Err ErrLimit
  else Ok (mkRegistry (u64 (r_revision r + 1)) (<[p_id p := p]> (r_projects r)) (r_worktrees r)).

Definition AddWorktree (r : Registry) (w : Worktree) : result Registry :=
  if negb (Worktree_checked w) then Err ErrInvalid
  else
    let! p := Registry_Project r (w_project w) in
    if p_common p <>?s w_common w then Err ErrForeign
    else if map_any (fun e => w_path e =?s w_path w) (r_worktrees r) then Err ErrDuplicate
    else if (MaxWorktrees <=? msize (r_worktrees r)) || (r_revision r =? MaxUint64) then Err ErrLimit
    else Ok (mkRegistry (u64 (r_revision r + 1)) (r_projects r) (<[w_id w := w]> (r_worktrees r))).

Fixpoint add_all {A} (add : Registry -> A -> result Registry) (r : Registry) (l : list A) : result Registry :=
  match l with
  | [] => Ok r
  | a :: t => let! r' := add r a in add_all add r' t
  end.

Definition RegistryFrom (s : RegistryState) : result Registry :=
  let! r1 := add_all AddProject NewRegistry (rs_projects s) in
  let! r2 := add_all AddWorktree r1 (rs_worktrees s) in
  if rs_revision s <? r_revision r2 then Err ErrInvalid
  else Ok (mkRegistry (rs_revision s) (r_projects r2) (r_worktrees r2)).

(** ** Snapshots

    [slices.SortFunc] by identity: identities are map keys, so they are
    distinct and the sorted slice is unique. *)

Definition id_le {A} (id : A -> string) (a b : A) : Prop := String.le (id a) (id b).
#[global] Instance id_le_dec {A} (id : A -> string) : RelDecision (id_le id).
Proof. intros a b. unfold id_le. apply _. Defined.

Definition Snapshot (r : Registry) : RegistryState :=
  mkRegistryState (r_revision r)
    (merge_sort (id_le p_id) (map snd (map_to_list (r_projects r))))
    (merge_sort (id_le w_id) (map snd (map_to_list (r_worktrees r)))).

(** ** Deletion plans *)

Record DeletePlan := mkDeletePlan {
  dp_kind : string; dp_id : string; dp_revision : Z; dp_digest : string }.

Definition digest (r : Registry) : string :=
  let s := Snapshot r in
  identity "registry_" (map p_id (rs_projects s) ++ map w_id (rs_worktrees s)).

Definition PlanDeleteProject (r : Registry) (id : string) : result DeletePlan :=
  let! _ := Registry_Project r id in
  if map_any (fun w => w_project w =?s id) (r_worktrees r) then Err ErrInUse
  else Ok (mkDeletePlan "project" id (r_revision r) (digest r)).

Definition PlanDeleteWorktree (r : Registry) (id : string) : result DeletePlan :=
  let! _ := Registry_Worktree r id in
  Ok (mkDeletePlan "worktree" id (r_revision r) (digest r)).

Definition ApplyDelete (r : Registry) (p : DeletePlan) : result Registry :=
  if negb (dp_revision p =? r_revision r) || (dp_digest p <>?s digest r) then Err ErrChanged
  else if r_revision r =? MaxUint64 then Err ErrLimit
  else if dp_kind p =?s "project" then
    let! _ := PlanDeleteProject r (dp_id p) in
    Ok (mkRegistry (u64 (r_revision r + 1)) (delete (dp_id p) (r_projects r)) (r_worktrees r))
  else if dp_kind p =?s "worktree" then
    let! _ := Registry_Worktree r (dp_id p) in
    Ok (mkRegistry (u64 (r_revision r + 1)) (r_projects r) (delete (dp_id p) (r_worktrees r)))
  else Err ErrInvalid.

(** ** The invariant *)

(** The identity of [p] is no hash collision with a registered project: the
    only thing the registry relies on that the hash does not guarantee. *)
Definition fresh_project (r : Registry) (p : Project) : Prop :=
  forall q, r_projects r !! p_id p = Some q -> p_root q = p_root p.
Definition fresh_worktree (r : Registry) (w : Worktree) : Prop :=
  forall q, r_worktrees r !! w_id w = Some q -> w_path q = w_path w.

Record wf (r : Registry) : Prop := {
  wf_project : forall id p, r_projects r !! id = Some p -> p_id p = id /\ Project_checked p = true;
  wf_worktree : forall id w, r_worktrees r !! id = Some w -> w_id w = id /\ Worktree_checked w = true;
  wf_common : forall i j p q, r_projects r !! i = Some p -> r_projects r !! j = Some q ->
                p_common p = p_common q \/ p_root p = p_root q -> i = j;
  wf_path : forall i j v w, r_worktrees r !! i = Some v -> r_worktrees r !! j = Some w ->
              w_path v = w_path w -> i = j;
  wf_member : forall id w, r_worktrees r !! id = Some w ->
                exists p, r_projects r !! w_project w = Some p /\ p_common p = w_common w;
  wf_limits : msize (r_projects r) <= MaxProjects /\ msize (r_worktrees r) <= MaxWorktrees;
  wf_revision : msize (r_projects r) + msize (r_worktrees r) <= r_revision r <= MaxUint64 }.

(** One operation of the registry; the additions come from outside with an
    identity that does not collide. *)
Inductive step : Registry -> Registry -> Prop :=
| step_project r p r' : fresh_project r p -> AddProject r p = Ok r' -> step r r'
| step_worktree r w r' : fresh_worktree r w -> AddWorktree r w = Ok r' -> step r r'
| step_delete r d r' : ApplyDelete r d = Ok r' -> step r r'.

Lemma NewRegistry_wf : wf NewRegistry.
Proof.
  split; simpl; try (intros *; rewrite ?lookup_empty; discriminate).
  - unfold msize. rewrite !map_size_empty. unfold MaxProjects, MaxWorktrees. lia.
  - unfold msize. rewrite !map_size_empty. unfold MaxUint64. lia.
Qed.

(** What a successful call has checked. *)
Lemma AddProject_inv r p r' : AddProject r p = Ok r' ->
  Project_checked p = true /\
  (forall k q, r_projects r !! k = Some q -> p_common q <> p_common p /\ p_root q <> p_root p) /\
  msize (r_projects r) < MaxProjects /\ r_revision r <> MaxUint64 /\
  r' = mkRegistry (u64 (r_revision r + 1)) (<[p_id p := p]> (r_projects r)) (r_worktrees r).
Proof.
  unfold AddProject. intros H. ok_inv H. breflect.
  split_and!; auto; try lia. intros k q Hk. by map_any_use.
Qed.

Lemma AddWorktree_inv r w r' : AddWorktree r w = Ok r' ->
  Worktree_checked w = true /\
  (exists p, r_projects r !! w_project w = Some p /\ p_common p = w_common w) /\
  (forall k v, r_worktrees r !! k = Some v -> w_path v <> w_path w) /\
  msize (r_worktrees r) < MaxWorktrees /\ r_revision r <> MaxUint64 /\
  r' = mkRegistry (u64 (r_revision r + 1)) (r_projects r) (<[w_id w := w]> (r_worktrees r)).
Proof.
  unfold AddWorktree, Registry_Project. intros H. ok_inv H. breflect.
  split_and!; eauto; try lia. intros k v Hk. by map_any_use.
Qed.

Lemma ApplyDelete_inv r d r' : ApplyDelete r d = Ok r' ->
  dp_revision d = r_revision r /\ dp_digest d = digest r /\ r_revision r <> MaxUint64 /\
  ((dp_kind d = "project" /\ is_Some (r_projects r !! dp_id d) /\
    (forall k w, r_worktrees r !! k = Some w -> w_project w <> dp_id d) /\
    r' = mkRegistry (u64 (r_revision r + 1)) (delete (dp_id d) (r_projects r)) (r_worktrees r)) \/
   (dp_kind d = "worktree" /\ is_Some (r_worktrees r !! dp_id d) /\
    r' = mkRegistry (u64 (r_revision r + 1)) (r_projects r) (delete (dp_id d) (r_worktrees r)))).
Proof.
  unfold ApplyDelete, PlanDeleteProject, Registry_Project, Registry_Worktree. intros H.
  ok_inv H; breflect; split_and!; auto.
  - left. split_and!; auto. intros k w Hk. by map_any_use.

Qed.

(** Registration keeps every clause: a new entry takes a new key. *)
Lemma new_project_key r p : wf r -> fresh_project r p ->
  (forall k q, r_projects r !! k = Some q -> p_common q <> p_common p /\ p_root q <> p_root p) ->
  r_projects r !! p_id p = None.
Proof.
  intros Hwf Hfresh Hnew. destruct (r_projects r !! p_id p) as [q|] eqn:E; [|done].
  destruct (Hnew _ _ E) as [_ Hr]. by destruct Hr; apply Hfresh.
Qed.
Lemma new_worktree_key r w : wf r -> fresh_worktree r w ->
  (forall k v, r_worktrees r !! k = Some v -> w_path v <> w_path w) ->
  r_worktrees r !! w_id w = None.
Proof.
  intros Hwf Hfresh Hnew. destruct (r_worktrees r !! w_id w) as [q|] eqn:E; [|done].
  by destruct (Hnew _ _ E); apply Hfresh.
Qed.

Lemma next_revision n : 0 <= n <= MaxUint64 -> n <> MaxUint64 -> u64 (n + 1) = n + 1.
Proof. intros. apply u64_small. unfold is_u64. lia. Qed.

Lemma wf_revision_range r : wf r -> 0 <= r_revision r <= MaxUint64.
Proof.
  intros [_ _ _ _ _ _ H]. pose proof (msize_nonneg (r_projects r)).
  pose proof (msize_nonneg (r_worktrees r)). lia.
Qed.

Lemma AddProject_wf r p r' : wf r -> fresh_project r p -> AddProject r p = Ok r' -> wf r'.
Proof.
  intros Hwf Hfresh (Hc & Hnew & Hlim & Hrev & ->)%AddProject_inv.
  pose proof (new_project_key _ _ Hwf Hfresh Hnew) as Hkey.
  pose proof (wf_revision_range _ Hwf). destruct Hwf as [H1 H2 H3 H4 H5 H6 H7].
  split; simpl; auto.
  - intros id q [[<- <-]|[_ Hq]]%lookup_insert_Some; eauto.
  - intros i j q q' Hi Hj Hsame.
    apply lookup_insert_Some in Hi as [[<- <-]|[Hi1 Hi2]], Hj as [[<- <-]|[Hj1 Hj2]]; eauto.
    + destruct (Hnew _ _ Hj2). destruct Hsame; congruence.
    + destruct (Hnew _ _ Hi2). destruct Hsame; congruence.
  - intros id w Hw. destruct (H5 _ _ Hw) as (q & Hq & Hqc). exists q. split; [|done].
    rewrite lookup_insert_ne; [done|]. intros E. by rewrite <-E, Hkey in Hq.
  - rewrite msize_insert_new by done. lia.
  - rewrite msize_insert_new, next_revision by (done || lia). lia.
Qed.

Lemma AddWorktree_wf r w r' : wf r -> fresh_worktree r w -> AddWorktree r w = Ok r' -> wf r'.
Proof.
  intros Hwf Hfresh (Hc & Hp & Hnew & Hlim & Hrev & ->)%AddWorktree_inv.
  pose proof (new_worktree_key _ _ Hwf Hfresh Hnew) as Hkey.
  pose proof (wf_revision_range _ Hwf). destruct Hwf as [H1 H2 H3 H4 H5 H6 H7].
  split; simpl; auto.
  - intros id v [[<- <-]|[_ Hv]]%lookup_insert_Some; eauto.
  - intros i j v v' Hi Hj Hsame.
    apply lookup_insert_Some in Hi as [[<- <-]|[Hi1 Hi2]], Hj as [[<- <-]|[Hj1 Hj2]]; eauto.
    + by destruct (Hnew _ _ Hj2).
    + by destruct (Hnew _ _ Hi2).
  - intros id v [[<- <-]|[_ Hv]]%lookup_insert_Some; eauto.
  - rewrite msize_insert_new by done. lia.
  - rewrite msize_insert_new, next_revision by (done || lia). lia.
Qed.

Lemma ApplyDelete_wf r d r' : wf r -> ApplyDelete r d = Ok r' -> wf r'.
Proof.
  intros Hwf (_ & _ & Hrev & Hd)%ApplyDelete_inv. pose proof (wf_revision_range _ Hwf).
  destruct Hwf as [H1 H2 H3 H4 H5 H6 H7].
  destruct Hd as [(_ & Hin & Hfree & ->)|(_ & Hin & ->)]; split; simpl; auto;
    try (intros id v [_ Hv]%lookup_delete_Some; by eauto);
    try (intros i j v w [_ Hv]%lookup_delete_Some [_ Hw]%lookup_delete_Some; by eauto);
    try (rewrite msize_delete, ?next_revision by (done || lia); lia).
  intros id w Hw. destruct (H5 _ _ Hw) as (q & Hq & Hqc). exists q. split; [|done].
  rewrite lookup_delete_ne; [done|]. intros E. by apply (Hfree _ _ Hw).
Qed.

(** (C26) The registry invariant is kept by every operation: keys are the
    recomputed identities of the values they hold, no two projects share a
    root or a common directory, no two worktrees share a path, every worktree
    belongs to a registered project with its common directory (so a deletion
    never orphans one), both maps stay within their admission limits, and the
    revision bounds the membership and stays a [uint64].  The additions are
    those whose SHA-256 identity is not the identity of a registered project
    with another root, or of a registered worktree with another path
    ([fresh_project], [fresh_worktree]), which the code does not check. *)
Theorem registry_invariant r :
  star step NewRegistry r -> wf r.
Proof.
  intros H. eapply (star_invariant step wf); [|exact H|apply NewRegistry_wf].
  intros s t Hs Hst. destruct Hst; eauto using AddProject_wf, AddWorktree_wf, ApplyDelete_wf.
Qed.

(** ** Restoring a snapshot *)

Section AddAll.
Context {A : Type} (id : A -> string) (m : gmap string A).
Context (add : Registry -> A -> result Registry) (put : Z -> gmap string A -> Registry).
Hypothesis add_fresh : forall n a x,
  a ⊆ m -> a !! id x = None -> m !! id x = Some x -> 0 <= n < MaxUint64 ->
  add (put n a) x = Ok (put (n + 1) (<[id x := x]> a)).

(** Adding entries of [m] with distinct keys always succeeds. *)
Lemma add_all_fresh l n a :
  a ⊆ m -> NoDup (map id l) -> (forall x, x ∈ l -> m !! id x = Some x /\ a !! id x = None) ->
  0 <= n -> n + llen l <= MaxUint64 ->
  exists b, add_all add (put n a) l = Ok (put (n + llen l) b) /\
    forall k v, b !! k = Some v <-> a !! k = Some v \/ (v ∈ l /\ id v = k).
Proof using add_fresh.
  revert n a. induction l as [|x l IH]; intros n a Ha Hnd Hl Hn Hlen.
  - exists a. unfold llen. simpl. rewrite Z.add_0_r. split; [done|].
    intros. rewrite elem_of_nil. tauto.
  - unfold llen in *. simpl in *. apply NoDup_cons in Hnd as [Hx Hnd].
    destruct (Hl x) as [Hm Hn0]; [by left|].
    rewrite (add_fresh n a x Ha Hn0 Hm) by lia.
    destruct (IH (n + 1) (<[id x := x]> a)) as (b & Hb & Hb'); [|done| |lia|lia|].
    + by apply insert_subseteq_l.
    + intros y Hy. destruct (Hl y) as [Hmy Hay]; [by right|]. split; [done|].
      rewrite lookup_insert_ne; [done|]. intros E. apply Hx. rewrite E.
      by apply list_elem_of_fmap_2.
    + exists b. rewrite Hb. split; [do 2 f_equal; lia|]. intros k v.
      rewrite Hb', lookup_insert_Some, elem_of_cons. naive_solver.
Qed.

(** So adding the values of [m] in any order rebuilds it. *)
Lemma add_all_values l n :
  l ≡ₚ map snd (map_to_list m) -> (forall k v, m !! k = Some v -> id v = k) ->
  0 <= n -> n + msize m <= MaxUint64 ->
  add_all add (put n ∅) l = Ok (put (n + msize m) m).
Proof using add_fresh.
  intros Hl Hid Hn Hsize.
  assert (Hin : forall v, v ∈ l <-> m !! id v = Some v).
  { intros v. rewrite Hl, list_elem_of_fmap. split.
    - intros ([k w] & -> & Hk%elem_of_map_to_list). simpl. by rewrite (Hid _ _ Hk).
    - intros Hv. exists (id v, v). split; [done|]. by apply elem_of_map_to_list. }
  assert (Hlen : llen l = msize m).
  { unfold llen, msize. rewrite (Permutation_length Hl), length_map. by rewrite length_map_to_list. }
  destruct (add_all_fresh l n ∅) as (b & Hb & Hb'); [apply map_empty_subseteq| | |done|lia|].
  - rewrite Hl. replace (map id _) with (map fst (map_to_list m)).
    + apply NoDup_fst_map_to_list.
    + rewrite map_map. apply map_ext_in. intros [k v] Hk. simpl. symmetry. apply Hid.
      by apply elem_of_map_to_list, list_elem_of_In.
  - intros x Hx. split; [by apply Hin|]. by rewrite lookup_empty.
  - rewrite Hb, Hlen. do 2 f_equal. apply map_eq. intros k. apply option_eq. intros v.
    rewrite Hb', lookup_empty, Hin. split; [naive_solver|].
    intros Hk. right. by rewrite (Hid _ _ Hk).
Qed.
End AddAll.

Lemma room_for {A} (a m : gmap string A) k x :
  a ⊆ m -> a !! k = None -> m !! k = Some x -> msize a < msize m.
Proof.
  intros Ha Hk Hm. assert (H : <[k:=x]> a ⊆ m) by (by apply insert_subseteq_l).
  apply map_subseteq_size in H. rewrite map_size_insert_None in H by done.
  unfold msize. lia.
Qed.

Lemma AddProject_fresh r : wf r -> forall n a p,
  a ⊆ r_projects r -> a !! p_id p = None -> r_projects r !! p_id p = Some p -> 0 <= n < MaxUint64 ->
  AddProject (mkRegistry n a ∅) p = Ok (mkRegistry (n + 1) (<[p_id p := p]> a) ∅).
Proof.
  intros Hwf n a p Ha Hk Hp Hn. unfold AddProject. simpl.
  destruct (wf_project _ Hwf _ _ Hp) as [_ ->]. simpl.
  replace (map_any _ a) with false.
  - pose proof (room_for _ _ _ _ Ha Hk Hp). pose proof (proj1 (wf_limits _ Hwf)).
    replace (MaxProjects <=? msize a) with false by (symmetry; apply Z.leb_gt; lia).
    replace (n =? MaxUint64) with false by (symmetry; apply Z.eqb_neq; lia).
    simpl. rewrite u64_small; [done|]. unfold is_u64. lia.
  - symmetry. apply map_any_false. intros k q Hq.
    apply orb_false_iff. rewrite !String.eqb_neq.
    pose proof (lookup_weaken _ _ _ _ Hq Ha) as Hq'.
    assert (Hne : k <> p_id p) by congruence.
    split; intros E; apply Hne; apply (wf_common _ Hwf _ _ _ _ Hq' Hp); auto.
Qed.

Lemma AddWorktree_fresh r : wf r -> forall n a w,
  a ⊆ r_worktrees r -> a !! w_id w = None -> r_worktrees r !! w_id w = Some w -> 0 <= n < MaxUint64 ->
  AddWorktree (mkRegistry n (r_projects r) a) w = Ok (mkRegistry (n + 1) (r_projects r) (<[w_id w := w]> a)).
Proof.
  intros Hwf n a w Ha Hk Hw Hn. unfold AddWorktree, Registry_Project. simpl.
  destruct (wf_worktree _ Hwf _ _ Hw) as [_ ->]. simpl.
  destruct (wf_member _ Hwf _ _ Hw) as (p & -> & ->). rewrite String.eqb_refl. simpl.
  replace (map_any _ a) with false.
  - pose proof (room_for _ _ _ _ Ha Hk Hw). pose proof (proj2 (wf_limits _ Hwf)).
    replace (MaxWorktrees <=? msize a) with false by (symmetry; apply Z.leb_gt; lia).
    replace (n =? MaxUint64) with false by (symmetry; apply Z.eqb_neq; lia).
    simpl. rewrite u64_small; [done|]. unfold is_u64. lia.
  - symmetry. apply map_any_false. intros k q Hq. rewrite String.eqb_neq.
    pose proof (lookup_weaken _ _ _ _ Hq Ha) as Hq'.
    assert (Hne : k <> w_id w) by congruence.
    intros E. apply Hne, (wf_path _ Hwf _ _ _ _ Hq' Hw E).
Qed.

(** Restoring a snapshot rebuilds the registry exactly: validation
    accepts every snapshot of a well-formed registry, in the sorted order the
    snapshot lists it, and the revision is kept. *)
Theorem registry_snapshot_roundtrip r : wf r -> RegistryFrom (Snapshot r) = Ok r.
Proof.
  intros Hwf. pose proof (wf_revision _ Hwf) as Hrev.
  pose proof (msize_nonneg (r_projects r)). pose proof (msize_nonneg (r_worktrees r)).
  unfold RegistryFrom, Snapshot. simpl.
  rewrite (add_all_values p_id (r_projects r) AddProject (fun n a => mkRegistry n a ∅)
             (AddProject_fresh r Hwf) _ 0); [|apply merge_sort_Permutation| |lia|lia].
  2: { intros k p Hp. apply (wf_project _ Hwf _ _ Hp). }
  rewrite (add_all_values w_id (r_worktrees r) AddWorktree (fun n a => mkRegistry n (r_projects r) a)
             (AddWorktree_fresh r Hwf)); [|apply merge_sort_Permutation| |lia|lia].
  2: { intros k w Hw. apply (wf_worktree _ Hwf _ _ Hw). }
  simpl. replace (_ <? _) with false by (symmetry; apply Z.ltb_ge; lia).
  by destruct r.
Qed.

(** ** Exactness of deletion plans *)

Lemma step_revision r s : step r s -> wf r -> wf s /\ r_revision s = r_revision r + 1.
Proof.
  intros Hs Hwf. pose proof (wf_revision_range _ Hwf).
  destruct Hs as [r p s Hf Ha|r w s Hf Ha|r d s Ha].
  - split; [eauto using AddProject_wf|].
    apply AddProject_inv in Ha as (_ & _ & _ & Hr & ->). simpl. by apply next_revision.
  - split; [eauto using AddWorktree_wf|].
    apply AddWorktree_inv in Ha as (_ & _ & _ & _ & Hr & ->). simpl. by apply next_revision.
  - split; [eauto using ApplyDelete_wf|].
    apply ApplyDelete_inv in Ha as (_ & _ & Hr & [(_ & _ & _ & ->)|(_ & _ & ->)]);
      simpl; by apply next_revision.
Qed.

Lemma star_revision r s : star step r s -> wf r -> r_revision r <= r_revision s.
Proof.
  intros H. apply (star_relation step wf (fun r s => r_revision r <= r_revision s));
    try done; try lia; intros s1 s2 Hwf Hs; apply step_revision in Hs; lia || naive_solver.
Qed.

(** A deletion plan is exact.  Applied to the registry it was previewed
    on, a project plan removes that project and nothing else; after any
    further operation, whatever it did and whatever came later, the plan is
    refused with [ErrChanged]. *)
Theorem delete_plan_exact r id d :
  wf r -> PlanDeleteProject r id = Ok d ->
  (r_revision r <> MaxUint64 ->
     ApplyDelete r d = Ok (mkRegistry (r_revision r + 1) (delete id (r_projects r)) (r_worktrees r))) /\
  (forall s t, step r s -> star step s t -> ApplyDelete t d = Err ErrChanged).
Proof.
  intros Hwf Hplan. pose proof (wf_revision_range _ Hwf). pose proof Hplan as Hd.
  unfold PlanDeleteProject in Hd. ok_inv Hd. split.
  - intros Hmax. unfold ApplyDelete. simpl. rewrite Z.eqb_refl, String.eqb_refl. simpl.
    apply Z.eqb_neq in Hmax. rewrite Hmax, Hplan, next_revision; [done|done|].
    by apply Z.eqb_neq.
  - intros s t Hs Ht. apply step_revision in Hs as [Hws Hrs]; [|done].
    apply star_revision in Ht; [|done]. unfold ApplyDelete. simpl.
    by replace (_ =? _) with false by (symmetry; apply Z.eqb_neq; lia).
Qed.

(** ** Witnesses *)

Definition ex_project : Project :=
  mkProject (identity "p_" ["/repo"; "/repo/.git"; "dev:1"]) "/repo" "/repo/.git" "dev:1".
Definition ex_worktree : Worktree :=
  let p := p_id ex_project in
  mkWorktree (identity "w_" [p; "/repo"; "/repo/.git"; "/store.db"; "dev:1"])
    p "/repo" "/repo/.git" "/store.db" "dev:1".
Definition ex_registry1 : Registry := mkRegistry 1 {[p_id ex_project := ex_project]} ∅.
Definition ex_registry2 : Registry :=
  mkRegistry 2 {[p_id ex_project := ex_project]} {[w_id ex_worktree := ex_worktree]}.

Lemma ex_step1 : step NewRegistry ex_registry1.
Proof.
  apply (step_project _ ex_project); [intros q; simpl; by rewrite lookup_empty|vm_refl].
Qed.
Lemma ex_step2 : step ex_registry1 ex_registry2.
Proof.
  apply (step_worktree _ ex_worktree); [intros q; simpl; by rewrite lookup_empty|vm_refl].
Qed.
Lemma ex_registry1_wf : wf ex_registry1.
Proof. apply step_revision with NewRegistry; [apply ex_step1|apply NewRegistry_wf]. Qed.
Lemma ex_registry2_wf : wf ex_registry2.
Proof. apply step_revision with ex_registry1; [apply ex_step2|apply ex_registry1_wf]. Qed.

Lemma registry_invariant_witness : wf ex_registry2.
Proof.
  apply registry_invariant. eapply star_step; [apply ex_step1|].
  eapply star_step; [apply ex_step2|]. apply star_refl.
Defined.
Lemma registry_snapshot_roundtrip_witness : RegistryFrom (Snapshot ex_registry2) = Ok ex_registry2.
Proof. apply (registry_snapshot_roundtrip ex_registry2), ex_registry2_wf. Defined.
Lemma delete_plan_exact_witness :
  let d := mkDeletePlan "project" (p_id ex_project) 1 (digest ex_registry1) in
  (r_revision ex_registry1 <> MaxUint64 ->
     ApplyDelete ex_registry1 d = Ok (mkRegistry 2 (delete (p_id ex_project) (r_projects ex_registry1)) ∅)) /\
  (forall s t, step ex_registry1 s -> star step s t -> ApplyDelete t d = Err ErrChanged).
Proof.
  apply (delete_plan_exact ex_registry1 (p_id ex_project));
    [apply ex_registry1_wf | vm_refl].
Defined.
