(* ===== verification/Launch.v ===== *)
(** * Launch descriptors

    [src/domain/runtime/launch.go]: one owned child process.  A descriptor
    binds an identity, a target and a profile for ever, and moves one way from
    reserved to live to exited.  The methods return the receiver after the
    call beside the error, because a refused call must leave it unchanged. *)

From S2P Require Import Prelude GoStrings Sha256 RuntimeValues.

Definition RunReserved : string := "reserved".
Definition RunLive : string := "live".
Definition RunExited : string := "exited".

Record RunSnapshot := mkRunSnapshot {
  rn_identity : LaunchIdentity; rn_target : Target; rn_profile : HostProfile;
  rn_state : string; rn_pid : Z; rn_exit_code : Z; rn_uncertain : bool }.
#[global] Instance RunSnapshot_eq_dec : EqDecision RunSnapshot.
Proof. solve_decision. Defined.

Definition LaunchDescriptorOf (id : LaunchIdentity) (target : Target) (profile : HostProfile) : result RunSnapshot :=
  if negb (LaunchIdentity_Valid id) || (w_id (t_worktree target) =?s "")
     || (t_profile target <>?s hp_id profile)
  then Err ErrInvalid
  else
    let! _ := HostProfileFrom profile in
    Ok (mkRunSnapshot id target profile RunReserved 0 0 false).

Definition set_run (d : RunSnapshot) (state : string) (pid exit_code : Z) : RunSnapshot :=
  mkRunSnapshot (rn_identity d) (rn_target d) (rn_profile d) state pid exit_code (rn_uncertain d).

Definition Started (d : RunSnapshot) (pid : Z) : RunSnapshot * option error :=
  if rn_state d <>?s RunReserved then (d, Some ErrChanged)
  else if pid <=? 0 then (d, Some ErrInvalid)
  else (set_run d RunLive pid (rn_exit_code d), None).

Definition MarkUncertain (d : RunSnapshot) : RunSnapshot * option error :=
  (mkRunSnapshot (rn_identity d) (rn_target d) (rn_profile d) (rn_state d) (rn_pid d) (rn_exit_code d) true, None).

Definition Exit (d : RunSnapshot) (code : Z) : RunSnapshot * option error :=
  if rn_state d <>?s RunLive then (d, Some ErrChanged)
  else (set_run d RunExited (rn_pid d) code, None).

(** ** One-way transitions *)

Inductive step : RunSnapshot -> RunSnapshot -> Prop :=
| step_started d pid : step d (fst (Started d pid))
| step_uncertain d : step d (fst (MarkUncertain d))
| step_exit d code : step d (fst (Exit d code)).

(** A descriptor that came out of the constructor: a live or exited one holds
    the positive process id it was started with, and an exit code is recorded
    only by an exit. *)
Definition wf (d : RunSnapshot) : Prop :=
  (rn_state d = RunReserved /\ rn_pid d = 0 /\ rn_exit_code d = 0) \/
  (rn_state d = RunLive /\ 0 < rn_pid d /\ rn_exit_code d = 0) \/
  (rn_state d = RunExited /\ 0 < rn_pid d).

(** How [e] may follow [d]: same binding, and no state, process id, exit code
    or uncertainty is ever taken back. *)
Definition follows (d e : RunSnapshot) : Prop :=
  (rn_identity e = rn_identity d /\ rn_target e = rn_target d /\ rn_profile e = rn_profile d) /\
  (rn_uncertain d = true -> rn_uncertain e = true) /\
  (rn_state d = RunLive -> (rn_state e = RunLive \/ rn_state e = RunExited) /\ rn_pid e = rn_pid d) /\
  (rn_state d = RunExited ->
     rn_state e = RunExited /\ rn_pid e = rn_pid d /\ rn_exit_code e = rn_exit_code d).

Lemma launch_step_wf d e : wf d -> step d e -> wf e.
Proof.
  intros Hwf Hs. destruct Hs; unfold Started, MarkUncertain, Exit; split_goal; breflect; simpl; auto.
  - right; left. destruct Hwf as [(?&?&?)|[(?&?&?)|(?&?)]]; simpl; auto; str_contra.
  - right; right. destruct Hwf as [(?&?&?)|[(?&?&?)|(?&?)]]; simpl; auto; str_contra.
Qed.

Lemma follows_refl d : follows d d.
Proof. unfold follows. tauto. Qed.
Lemma follows_trans d e f : follows d e -> follows e f -> follows d f.
Proof.
  unfold follows. intros ((A1&A2&A3)&H1&H2&H3) ((B1&B2&B3)&H4&H5&H6).
  split; [split_and!; congruence|]. split; [auto|]. split.
  - intros [[E|E] Hp]%H2.
    + destruct (H5 E) as [? ->]. auto.
    + destruct (H6 E) as (? & -> & _). auto.
  - intros (E & Hp & Hc)%H3. destruct (H6 E) as (? & -> & ->). auto.
Qed.

Lemma step_follows d e : step d e -> follows d e.
Proof.
  intros Hs. destruct Hs as [d pid|d|d code]; unfold Started, MarkUncertain, Exit;
    split_goal; breflect; try apply follows_refl;
    unfold follows; simpl; (split; [done|split; [done|split]]);
    intros E1; rewrite ?E1 in *; auto; discriminate.
Qed.

(** A launch only ever moves forward: from the reservation the constructor
    returns, whatever calls are made and refused, the binding never changes,
    a live child keeps its positive process id, an exit is final with its
    code, and publication uncertainty is never cleared. *)
Theorem launch_one_way id target profile d e f :
  LaunchDescriptorOf id target profile = Ok d -> star step d e -> star step e f ->
  wf e /\ rn_identity e = id /\ rn_target e = target /\ follows e f.
Proof.
  intros Hd He Hf. unfold LaunchDescriptorOf in Hd. ok_inv Hd.
  set (d := mkRunSnapshot id target profile RunReserved 0 0 false) in *.
  assert (Hwf : wf d) by (left; auto).
  assert (Hfol : follows d e).
  { eapply (star_relation step (fun _ => True) follows); eauto using follows_refl, follows_trans, step_follows. }
  destruct Hfol as ((-> & -> & _) & _). split_and!; auto.
  - eapply (star_invariant step wf); eauto using launch_step_wf.
  - eapply (star_relation step (fun _ => True) follows); eauto using follows_refl, follows_trans, step_follows.
Qed.

Definition ex_run : string := "00000000000000000000000000000001".
Definition ex_identity : LaunchIdentity := mkLaunchIdentity ex_run ex_run ex_run.
Definition ex_profile : HostProfile := mkHostProfile "codex-main" "codex" "/usr/bin/codex" "dev:2" "1.0".
Definition ex_target : Target := mkTarget (mkWorktree "w_1" "p_1" "/repo" "/repo/.git" "/s.db" "x") "codex-main".
Definition ex_descriptor : RunSnapshot := mkRunSnapshot ex_identity ex_target ex_profile RunReserved 0 0 false.

Lemma ex_descriptor_ok : LaunchDescriptorOf ex_identity ex_target ex_profile = Ok ex_descriptor.
Proof. vm_refl. Qed.

Lemma launch_one_way_witness :
  let e := fst (Started ex_descriptor 4242) in
  let f := fst (Exit e 0) in
  wf e /\ rn_identity e = ex_identity /\ rn_target e = ex_target /\ follows e f.
Proof.
  apply (launch_one_way ex_identity ex_target ex_profile ex_descriptor).
  - exact ex_descriptor_ok.
  - apply star_one, step_started.
  - apply star_one, step_exit.
Defined.
