(* ===== verification/Control.v ===== *)
(** * Control intents, receipts and the control ledger

    [src/domain/runtime/control.go].  A control intent is one bounded
    operation on an owned terminal; the ledger admits each request id once,
    remembers its outcome, and keeps room for stop requests. *)

From S2P Require Import Prelude GoStrings Sha256 RuntimeValues.

Definition MaxControlInputBytes : Z := 16 * 1024.
Definition MaxControlReceipts : Z := 1024.
Definition ReservedLifecycleReceipts : Z := 16.
Definition MaxControlCoordinators : Z := 32.

Definition ControlInput : string := "input".
Definition ControlResize : string := "resize".
Definition ControlStop : string := "stop".

Definition ControlPending : string := "pending".
Definition ControlDelivered : string := "delivered".
Definition ControlUnknown : string := "unknown".
Definition ControlRejected : string := "rejected".

Record ControlIntentState := mkIntent {
  ci_request_id : string; ci_kind : string; ci_manual : bool; ci_work_loss : bool;
  ci_input_bytes : Z; ci_resize_sequence : Z; ci_rows : Z; ci_cols : Z }.
#[global] Instance ControlIntentState_eq_dec : EqDecision ControlIntentState.
Proof. solve_decision. Defined.

Definition ControlIntentFrom (s : ControlIntentState) : result ControlIntentState :=
  if negb (validControlRequestID (ci_request_id s)) then Err ErrInvalid
  else if ci_kind s =?s ControlInput then
    if negb (ci_manual s) || ci_work_loss s || (ci_input_bytes s <? 1)
       || (MaxControlInputBytes <? ci_input_bytes s) || negb (ci_resize_sequence s =? 0)
       || negb (ci_rows s =? 0) || negb (ci_cols s =? 0)
    then Err ErrInvalid else Ok s
  else if ci_kind s =?s ControlResize then
    if ci_manual s || ci_work_loss s || negb (ci_input_bytes s =? 0) || (ci_resize_sequence s =? 0)
       || (ci_rows s =? 0) || (ci_cols s =? 0)
    then Err ErrInvalid else Ok s
  else if ci_kind s =?s ControlStop then
    if ci_manual s || negb (ci_work_loss s) || negb (ci_input_bytes s =? 0)
       || negb (ci_resize_sequence s =? 0) || negb (ci_rows s =? 0) || negb (ci_cols s =? 0)
    then Err ErrInvalid else Ok s
  else Err ErrInvalid.

Record ControlSnapshot := mkControlSnapshot {
  cs_identity : LaunchIdentity; cs_intent : ControlIntentState; cs_outcome : string; cs_written : Z }.
#[global] Instance ControlSnapshot_eq_dec : EqDecision ControlSnapshot.
Proof. solve_decision. Defined.

Definition ControlReceiptFrom (s : ControlSnapshot) : result ControlSnapshot :=
  if negb (LaunchIdentity_Valid (cs_identity s)) then Err ErrInvalid
  else
    let! _ := ControlIntentFrom (cs_intent s) in
    if (cs_written s <? 0) || (ci_input_bytes (cs_intent s) <? cs_written s) then Err ErrInvalid
    else if (cs_outcome s =?s ControlPending) || (cs_outcome s =?s ControlRejected) then
      if negb (cs_written s =? 0) then Err ErrInvalid else Ok s
    else if cs_outcome s =?s ControlDelivered then
      if (ci_kind (cs_intent s) =?s ControlInput) && negb (cs_written s =? ci_input_bytes (cs_intent s))
      then Err ErrInvalid else Ok s
    else if cs_outcome s =?s ControlUnknown then Ok s
    else Err ErrInvalid.

(** ** The ledger

    Fingerprints are 32-byte arrays, here their bytes; the constant-time
    comparison is equality. *)

Record controlEntry := mkControlEntry { ce_snapshot : ControlSnapshot; ce_fingerprint : list ascii }.

Record ControlLedger := mkControlLedger {
  cl_identity : LaunchIdentity;
  cl_entries : gmap string controlEntry;
  cl_nonLifecycle : Z }.

Definition NewControlLedger (id : LaunchIdentity) : result ControlLedger :=
  if negb (LaunchIdentity_Valid id) then Err ErrInvalid else Ok (mkControlLedger id ∅ 0).

(** The outcome of [Inspect]: no such request, the recorded snapshot, or an
    error with the [found] flag the code returns beside it. *)
Inductive inspection :=
| NotFound
| Found (s : ControlSnapshot)
| Refused (found : bool) (e : error).

Definition Inspect (l : ControlLedger) (intent : ControlIntentState) (fingerprint : list ascii) : inspection :=
  match ControlIntentFrom intent with
  | Err e => Refused false e
  | Ok _ =>
      match cl_entries l !! ci_request_id intent with
      | None => NotFound
      | Some entry =>
          if negb (bool_decide (cs_intent (ce_snapshot entry) = intent))
             || negb (bool_decide (ce_fingerprint entry = fingerprint))
          then Refused true ErrChanged
          else Found (ce_snapshot entry)
      end
  end.

Definition is_stop (i : ControlIntentState) : bool := ci_kind i =?s ControlStop.

(** [Reserve]: the ledger after the call, and the snapshot with its [found]
    flag or the error. *)
Definition Reserve (l : ControlLedger) (intent : ControlIntentState) (fingerprint : list ascii)
  : ControlLedger * result (ControlSnapshot * bool) :=
  match Inspect l intent fingerprint with
  | Refused _ e => (l, Err e)
  | Found s => (l, Ok (s, true))
  | NotFound =>
      if (MaxControlReceipts <=? msize (cl_entries l))
         || negb (is_stop intent) && (MaxControlReceipts - ReservedLifecycleReceipts <=? cl_nonLifecycle l)
      then (l, Err ErrLimit)
      else
        let s := mkControlSnapshot (cl_identity l) intent ControlPending 0 in
        (mkControlLedger (cl_identity l)
           (<[ci_request_id intent := mkControlEntry s fingerprint]> (cl_entries l))
           (if is_stop intent then cl_nonLifecycle l else cl_nonLifecycle l + 1),
         Ok (s, false))
  end.

Definition Lookup (l : ControlLedger) (id : string) : result ControlSnapshot :=
  match cl_entries l !! id with Some e => Ok (ce_snapshot e) | None => Err ErrNotFound end.

Definition Complete (l : ControlLedger) (id : string) (outcome : string) (written : Z)
  : ControlLedger * result ControlSnapshot :=
  match cl_entries l !! id with
  | None => (l, Err ErrNotFound)
  | Some entry =>
      let s := ce_snapshot entry in
      let candidate := mkControlSnapshot (cs_identity s) (cs_intent s) outcome written in
      if outcome =?s ControlPending then (l, Err ErrInvalid)
      else match ControlReceiptFrom candidate with
           | Err e => (l, Err e)
           | Ok _ =>
               if cs_outcome s <>?s ControlPending then
                 if bool_decide (s = candidate) then (l, Ok s) else (l, Err ErrChanged)
               else
                 (mkControlLedger (cl_identity l)
                    (<[id := mkControlEntry candidate (ce_fingerprint entry)]> (cl_entries l))
                    (cl_nonLifecycle l),
                  Ok candidate)
           end
  end.

Definition AbandonUncommitted (l : ControlLedger) (id : string) : ControlLedger * option error :=
  match cl_entries l !! id with
  | None => (l, Some ErrNotFound)
  | Some entry =>
      if cs_outcome (ce_snapshot entry) <>?s ControlPending then (l, Some ErrChanged)
      else (mkControlLedger (cl_identity l) (delete id (cl_entries l))
              (if is_stop (cs_intent (ce_snapshot entry)) then cl_nonLifecycle l
               else cl_nonLifecycle l - 1), None)
  end.

Definition ValidateResizeSequence (current next : Z) : option error :=
  if current =? MaxUint64 then Some ErrLimit
  else if negb (next =? u64 (current + 1)) then Some ErrChanged
  else None.

(** ** The ledger invariant *)

Definition counted (e : controlEntry) : bool := negb (is_stop (cs_intent (ce_snapshot e))).

Record wf (l : ControlLedger) : Prop := {
  wf_identity : LaunchIdentity_Valid (cl_identity l) = true;
  wf_entry : forall id e, cl_entries l !! id = Some e ->
    ci_request_id (cs_intent (ce_snapshot e)) = id /\
    cs_identity (ce_snapshot e) = cl_identity l /\
    ControlReceiptFrom (ce_snapshot e) = Ok (ce_snapshot e);
  wf_count : cl_nonLifecycle l = mcount counted (cl_entries l);
  wf_cap : cl_nonLifecycle l <= MaxControlReceipts - ReservedLifecycleReceipts /\
           msize (cl_entries l) <= MaxControlReceipts }.

Inductive step : ControlLedger -> ControlLedger -> Prop :=
| step_reserve l i fp : step l (fst (Reserve l i fp))
| step_complete l id o n : step l (fst (Complete l id o n))
| step_abandon l id : step l (fst (AbandonUncommitted l id)).

(** A validator returns the very state it was given. *)
Lemma ControlIntentFrom_id s t : ControlIntentFrom s = Ok t -> t = s.
Proof. unfold ControlIntentFrom. intros H. by ok_inv H. Qed.
Lemma ControlReceiptFrom_id s t : ControlReceiptFrom s = Ok t -> t = s.
Proof. unfold ControlReceiptFrom. intros H. by ok_inv H. Qed.
Lemma intent_bytes s : ControlIntentFrom s = Ok s -> 0 <= ci_input_bytes s <= MaxControlInputBytes.
Proof.
  unfold ControlIntentFrom. intros H. ok_inv H; breflect; unfold MaxControlInputBytes in *; lia.
Qed.

Lemma receipt_intent s : ControlReceiptFrom s = Ok s -> ControlIntentFrom (cs_intent s) = Ok (cs_intent s).
Proof.
  unfold ControlReceiptFrom. intros H. case_match; [done|].
  destruct (ControlIntentFrom (cs_intent s)) eqn:E; [|done].
  by rewrite (ControlIntentFrom_id _ _ E) in E |- *.
Qed.

(** A pending receipt of an accepted intent is valid. *)
Lemma pending_receipt id i :
  LaunchIdentity_Valid id = true -> ControlIntentFrom i = Ok i ->
  ControlReceiptFrom (mkControlSnapshot id i ControlPending 0) = Ok (mkControlSnapshot id i ControlPending 0).
Proof.
  intros Hid Hi. pose proof (intent_bytes _ Hi). unfold ControlReceiptFrom. simpl.
  rewrite Hid, Hi. simpl. replace (_ <? 0) with false by (symmetry; apply Z.ltb_ge; lia). done.
Qed.

Lemma NewControlLedger_wf id l : NewControlLedger id = Ok l -> wf l /\ cl_identity l = id.
Proof.
  unfold NewControlLedger. intros H. ok_inv H. breflect. split; [|done]. split; simpl.
  - done.
  - intros k e He. by rewrite lookup_empty in He.
  - by rewrite mcount_empty.
  - unfold msize. rewrite map_size_empty. unfold MaxControlReceipts, ReservedLifecycleReceipts. lia.
Qed.

(** The three outcomes of a reservation. *)
Lemma Reserve_cases l i fp :
  (exists e, Reserve l i fp = (l, Err e)) \/
  (exists s, cl_entries l !! ci_request_id i = Some (mkControlEntry s fp) /\ cs_intent s = i /\
             Reserve l i fp = (l, Ok (s, true))) \/
  (ControlIntentFrom i = Ok i /\ cl_entries l !! ci_request_id i = None /\
   msize (cl_entries l) < MaxControlReceipts /\
   (is_stop i = true \/ cl_nonLifecycle l < MaxControlReceipts - ReservedLifecycleReceipts) /\
   let s := mkControlSnapshot (cl_identity l) i ControlPending 0 in
   Reserve l i fp =
     (mkControlLedger (cl_identity l) (<[ci_request_id i := mkControlEntry s fp]> (cl_entries l))
        (cl_nonLifecycle l + b2z (negb (is_stop i))), Ok (s, false))).
Proof.
  unfold Reserve, Inspect. destruct (ControlIntentFrom i) as [t|e] eqn:Ei; [|eauto].
  apply ControlIntentFrom_id in Ei as Et. subst t.
  destruct (cl_entries l !! ci_request_id i) as [[s f]|] eqn:El.
  - destruct (negb _ || negb _) eqn:E; [eauto|]. breflect. simpl in *. subst. right. left. eauto.
  - destruct (_ || _) eqn:E; [eauto|]. right. right. breflect.
    split_and!; auto; try lia.
    + destruct (is_stop i); [by left|right]. simpl in *. breflect. lia.
    + destruct (is_stop i); simpl; do 3 f_equal; lia.
Qed.

Lemma Complete_cases l id o n :
  (exists r, Complete l id o n = (l, r)) \/
  (exists e, cl_entries l !! id = Some e /\ cs_outcome (ce_snapshot e) = ControlPending /\
   o <> ControlPending /\
   let c := mkControlSnapshot (cs_identity (ce_snapshot e)) (cs_intent (ce_snapshot e)) o n in
   ControlReceiptFrom c = Ok c /\
   Complete l id o n =
     (mkControlLedger (cl_identity l) (<[id := mkControlEntry c (ce_fingerprint e)]> (cl_entries l))
        (cl_nonLifecycle l), Ok c)).
Proof.
  unfold Complete. destruct (cl_entries l !! id) as [e|] eqn:El; [|eauto].
  repeat (case_match; eauto). breflect. right. exists e.
  pose proof (ControlReceiptFrom_id _ _ H0). subst. split_and!; eauto.
Qed.

Lemma control_step_wf l m : wf l -> step l m -> wf m.
Proof.
  intros Hwf Hs. destruct Hs as [l i fp|l id o n|l id].
  - destruct (Reserve_cases l i fp) as [[e ->]|[(s & _ & _ & ->)|(Hi & Hk & Hsz & Hcap & ->)]]; try done.
    destruct Hwf as [W1 W2 W3 W4]. split; simpl; auto.
    + intros k e [[<- <-]|[_ He]]%lookup_insert_Some; eauto.
      simpl. split_and!; auto. by apply pending_receipt.
    + rewrite mcount_insert_new by done. by rewrite W3.
    + rewrite msize_insert_new by done. unfold b2z. destruct (is_stop i); simpl; [lia|].
      destruct Hcap; [done|lia].
  - destruct (Complete_cases l id o n) as [[r ->]|(e & He & Ho & Hne & Hr & ->)]; [done|].
    destruct Hwf as [W1 W2 W3 W4]. destruct (W2 _ _ He) as (E1 & E2 & _).
    split; simpl; auto.
    + intros k f [[<- <-]|[_ Hf]]%lookup_insert_Some; eauto.
    + by rewrite (mcount_insert_old _ _ _ _ _ He).
    + by rewrite msize_insert_old by eauto.
  - unfold AbandonUncommitted. destruct (cl_entries l !! id) as [e|] eqn:He; [|done].
    case_match; [done|]. simpl. destruct Hwf as [W1 W2 W3 W4]. split; simpl; auto.
    + intros k f [_ Hf]%lookup_delete_Some. eauto.
    + rewrite (mcount_delete _ _ _ _ He), W3. change (counted e) with (negb (is_stop (cs_intent (ce_snapshot e)))).
      destruct (is_stop _); simpl; lia.
    + rewrite msize_delete by eauto. pose proof (mcount_nonneg counted (cl_entries l)).
      destruct (is_stop _); lia.
Qed.

(** Along a run, a request with a terminal outcome keeps its entry. *)
Definition keeps_terminal (l m : ControlLedger) : Prop :=
  forall id e, cl_entries l !! id = Some e -> cs_outcome (ce_snapshot e) <> ControlPending ->
    cl_entries m !! id = Some e.

Lemma step_keeps_terminal l m : step l m -> keeps_terminal l m.
Proof.
  intros Hs k f Hf Ht. destruct Hs as [l i fp|l id o n|l id].
  - destruct (Reserve_cases l i fp) as [[e ->]|[(s & _ & _ & ->)|(Hi & Hk & _ & _ & ->)]]; try done.
    simpl. rewrite lookup_insert_ne; congruence.
  - destruct (Complete_cases l id o n) as [[r ->]|(e & He & Ho & Hne & Hr & ->)]; [done|].
    simpl. rewrite lookup_insert_ne; congruence.
  - unfold AbandonUncommitted. destruct (cl_entries l !! id) as [e|] eqn:He; [|done].
    case_match; [done|]. breflect. simpl. rewrite lookup_delete_ne; congruence.
Qed.

(** A stop is always admitted while fewer than the reserved number of
    stops are on the ledger, however full it is with input and resizes. *)
Lemma control_stop_admitted l i fp :
  wf l -> ControlIntentFrom i = Ok i -> ci_kind i = ControlStop ->
  cl_entries l !! ci_request_id i = None ->
  mcount (fun e => is_stop (cs_intent (ce_snapshot e))) (cl_entries l) < ReservedLifecycleReceipts ->
  exists m s, Reserve l i fp = (m, Ok (s, false)) /\ cs_outcome s = ControlPending /\
    cl_entries m !! ci_request_id i = Some (mkControlEntry s fp).
Proof.
  intros Hwf Hi Hk Hnew Hfew. unfold Reserve, Inspect. rewrite Hi, Hnew.
  assert (Hstop : is_stop i = true) by (unfold is_stop; rewrite Hk; apply String.eqb_refl).
  rewrite Hstop. pose proof (wf_count _ Hwf) as Hcount. pose proof (wf_cap _ Hwf) as [Hcap _].
  pose proof (mcount_split (fun e => is_stop (cs_intent (ce_snapshot e))) (cl_entries l)) as Hsplit.
  change (mcount (fun e => negb _) (cl_entries l)) with (mcount counted (cl_entries l)) in Hsplit.
  replace (MaxControlReceipts <=? _) with false by (symmetry; apply Z.leb_gt; lia). simpl.
  eexists _, _. split; [done|]. simpl. by rewrite lookup_insert_eq.
Qed.

(** The control ledger keeps its invariant through every reservation,
    completion and abandonment, refused or not: each entry is a valid receipt
    filed under its own request id and bound to the ledger's run, the
    non-lifecycle counter is exactly the number of entries that are not
    stops, and it never eats into the reserved lifecycle capacity.  So a stop
    is always admitted while fewer than the reserved number of stops are on
    the ledger, however full it is with input and resizes. *)
Theorem control_ledger_invariant id l0 l :
  NewControlLedger id = Ok l0 -> star step l0 l ->
  wf l /\
    forall i fp, ControlIntentFrom i = Ok i -> ci_kind i = ControlStop ->
    cl_entries l !! ci_request_id i = None ->
    mcount (fun e => is_stop (cs_intent (ce_snapshot e))) (cl_entries l) < ReservedLifecycleReceipts ->
    exists m s, Reserve l i fp = (m, Ok (s, false)) /\ cs_outcome s = ControlPending /\
    cl_entries m !! ci_request_id i = Some (mkControlEntry s fp).
Proof.
  intros [Hwf _]%NewControlLedger_wf Hs.
  assert (Hl : wf l) by (eapply (star_invariant step wf); eauto using control_step_wf).
  split; [exact Hl|]. intros i fp. by apply control_stop_admitted.
Qed.

(** Terminal evidence is immutable and replay is idempotent.  Once a
    request has a terminal outcome its entry is the same after any further
    operations, so the same request answers with the recorded snapshot, a
    different intent or fingerprint under that id is refused, and in both
    cases the ledger does not change. *)
Theorem control_terminal_immutable l m id e :
  wf l -> star step l m -> cl_entries l !! id = Some e ->
  cs_outcome (ce_snapshot e) <> ControlPending ->
  cl_entries m !! id = Some e /\
  Reserve m (cs_intent (ce_snapshot e)) (ce_fingerprint e) = (m, Ok (ce_snapshot e, true)) /\
  forall i fp, ci_request_id i = id -> ControlIntentFrom i = Ok i ->
    (i <> cs_intent (ce_snapshot e) \/ fp <> ce_fingerprint e) -> Reserve m i fp = (m, Err ErrChanged).
Proof.
  intros Hwf Hs He Ht.
  assert (Hm : cl_entries m !! id = Some e).
  { eapply (star_relation step (fun _ => True) keeps_terminal);
      eauto using step_keeps_terminal; unfold keeps_terminal; eauto. }
  assert (Hwm : wf m) by (eapply (star_invariant step wf); eauto using control_step_wf).
  destruct (wf_entry _ Hwm _ _ Hm) as (Hid & _ & Hr). split; [done|]. split.
  - unfold Reserve, Inspect. rewrite (receipt_intent _ Hr), Hid, Hm.
    by rewrite !bool_decide_eq_true_2.
  - intros i fp Hi Hok Hdiff. unfold Reserve, Inspect. rewrite Hok, Hi, Hm.
    destruct Hdiff; [rewrite bool_decide_eq_false_2 by done|
                     rewrite (bool_decide_eq_false_2 (ce_fingerprint e = fp)), orb_true_r by done]; done.
Qed.

(** A resize is admitted exactly when it carries the next sequence
    number, and the last sequence number never wraps around to zero. *)
Lemma resize_sequence_exact current next :
  is_u64 current -> is_u64 next ->
  (ValidateResizeSequence current next = None <-> next = current + 1 /\ current < MaxUint64).
Proof.
  unfold is_u64, ValidateResizeSequence. intros Hc Hn.
  destruct (current =? MaxUint64) eqn:E; breflect; [split; [done|lia]|].
  rewrite u64_small by (unfold is_u64; lia).
  destruct (next =? current + 1) eqn:E2; breflect; simpl; split; intros; try done; lia.
Qed.

(** ** Witnesses *)

Definition ex_id : LaunchIdentity :=
  let h := "0123456789abcdef0123456789abcdef" in mkLaunchIdentity h h h.
Definition ex_stop : ControlIntentState := mkIntent "stop-1" ControlStop false true 0 0 0 0.
Definition ex_input : ControlIntentState := mkIntent "in-1" ControlInput true false 5 0 0 0.
Definition ex_ledger : ControlLedger := mkControlLedger ex_id ∅ 0.
Definition ex_pending : ControlLedger := fst (Reserve ex_ledger ex_input []).
Definition ex_done : ControlLedger := fst (Complete ex_pending "in-1" ControlDelivered 5).

Lemma ex_ledger_new : NewControlLedger ex_id = Ok ex_ledger.
Proof. vm_refl. Qed.
Lemma ex_done_run : star step ex_ledger ex_done.
Proof.
  eapply star_step; [apply (step_reserve _ ex_input [])|]. apply star_one.
  apply (step_complete _ "in-1" ControlDelivered 5).
Qed.
Lemma ex_done_wf : wf ex_done.
Proof.
  apply (star_invariant step wf control_step_wf _ _ ex_done_run), (NewControlLedger_wf ex_id), ex_ledger_new.
Qed.

Lemma control_ledger_invariant_witness :
  wf ex_done /\
  exists m s, Reserve ex_done ex_stop [] = (m, Ok (s, false)) /\ cs_outcome s = ControlPending /\
    cl_entries m !! "stop-1" = Some (mkControlEntry s []).
Proof.
  destruct (control_ledger_invariant ex_id ex_ledger ex_done) as [H1 H2];
    [apply ex_ledger_new|apply ex_done_run|].
  split; [exact H1|]. apply (H2 ex_stop []); [vm_refl|done|vm_refl|by vm_compute].
Defined.

Lemma control_terminal_immutable_witness :
  let e := mkControlEntry (mkControlSnapshot ex_id ex_input ControlDelivered 5) [] in
  let m := fst (Complete ex_done "in-1" ControlUnknown 0) in
  cl_entries m !! "in-1" = Some e /\ Reserve m ex_input [] = (m, Ok (ce_snapshot e, true)) /\
  forall i fp, ci_request_id i = "in-1" -> ControlIntentFrom i = Ok i ->
    (i <> ex_input \/ fp <> []) -> Reserve m i fp = (m, Err ErrChanged).
Proof.
  apply (control_terminal_immutable ex_done).
  - apply ex_done_wf.
  - apply star_one, step_complete.
  - vm_refl.
  - discriminate.
Defined.
