(* ===== verification/Output.v ===== *)
(** * The terminal output log

    [src/domain/runtime/output.go]: byte offsets and [ByteLog], a lazily grown
    ring that keeps the newest bytes of an unbounded stream.  The ring is
    modelled with its storage and its modulo indexing; the refinement theorem
    relates it to the whole stream of bytes ever appended. *)

From S2P Require Import Prelude GoStrings RuntimeValues.

Definition MaxOutputBytes : Z := 2 * 1024 * 1024.
Definition MaxOutputChunk : Z := 32 * 1024.
Definition MaxOutputSubscribers : Z := 4.
Definition MaxOutputPending : Z := 256 * 1024.
Definition ErrOutputCursor : error := Sentinel "invalid runtime output cursor".

(** ** Byte offsets *)

Definition ParseByteOffset (s : string) : result Z :=
  if (slen s =? 0) || (20 <? slen s)
     || (1 <? slen s) && match explode s with c :: _ => Ascii.eqb c "0"%char | [] => false end
  then Err ErrOutputCursor
  else if negb (forallb (fun c => in_range 48 57 c) (range_runes s)) then Err ErrOutputCursor
  else match ParseUint s with Some n => Ok n | None => Err ErrOutputCursor end.

Definition ByteOffset_String (b : Z) : string := FormatUint b.

Definition Advance (b n : Z) : result Z :=
  if MaxUint64 - b <? n then Err ErrLimit else Ok (u64 (b + n)).

Record ByteSpan := mkSpan { sp_start : Z; sp_end : Z; sp_data : list ascii; sp_gap : bool }.
#[global] Instance ByteSpan_eq_dec : EqDecision ByteSpan.
Proof. solve_decision. Defined.

(** ** The ring *)

Record ByteLog := mkByteLog { bl_limit : Z; bl_data : list ascii; bl_base : Z; bl_head : Z }.

Record ByteLogState := mkByteLogState { bs_base : Z; bs_head : Z; bs_retained : Z }.

Definition NewByteLog (limit : Z) : result ByteLog :=
  if (limit <? 1) || (MaxOutputBytes <? limit) then Err ErrLimit
  else Ok (mkByteLog limit [] 0 0).

Definition ByteLog_Snapshot (b : ByteLog) : ByteLogState :=
  mkByteLogState (bl_base b) (bl_head b) (bl_head b - bl_base b).

(** [uint64(pos) % uint64(len(data))]. *)
Definition slot (d : list ascii) (pos : Z) : nat := Z.to_nat (pos `mod` llen d).

(** The write loop [data[(begin+i) % len(data)] = v]. *)
Fixpoint write_at (d : list ascii) (pos : Z) (l : list ascii) : list ascii :=
  match l with
  | [] => d
  | v :: t => write_at (<[slot d pos := v]> d) (pos + 1) t
  end.
(** The read loop [p[i] = data[(cursor+i) % len(data)]]. *)
Fixpoint read_at (d : list ascii) (pos : Z) (n : nat) : list ascii :=
  match n with
  | O => []
  | S k => nth (slot d pos) d nul :: read_at d (pos + 1) k
  end.

(** The storage of [Append]: the next capacity, and the retained bytes copied
    to their slots in it. *)
Definition grow (b : ByteLog) (n : Z) : list ascii :=
  let required := Z.min (bl_limit b) (bl_head b - bl_base b + n) in
  let old := llen (bl_data b) in
  let size := if old <? required then Z.min (bl_limit b) (Z.max required (Z.max 1024 (old * 2))) else old in
  if old <? size then
    write_at (repeat nul (Z.to_nat size)) (bl_base b)
      (read_at (bl_data b) (bl_base b) (Z.to_nat (bl_head b - bl_base b)))
  else bl_data b.

Definition Append (b : ByteLog) (p : list ascii) : result (ByteLog * ByteSpan) :=
  if MaxOutputChunk <? llen p then Err ErrLimit
  else
    let! next := Advance (bl_head b) (llen p) in
    let data :=
      if 0 <? llen p then
        let keep := drop (Z.to_nat (Z.max 0 (llen p - bl_limit b))) p in
        write_at (grow b (llen p)) (next - llen keep) keep
      else bl_data b in
    let base := if bl_limit b <? next then next - bl_limit b else bl_base b in
    Ok (mkByteLog (bl_limit b) data base next, mkSpan (bl_head b) next [] false).

Definition Read (b : ByteLog) (cursor limit : Z) : result ByteSpan :=
  if bl_head b <? cursor then Err ErrOutputCursor
  else if (limit <? 1) || (MaxOutputChunk <? limit) then Err ErrLimit
  else if cursor <? bl_base b then Ok (mkSpan cursor (bl_base b) [] true)
  else
    let size := Z.min limit (bl_head b - cursor) in
    Ok (mkSpan cursor (cursor + size) (read_at (bl_data b) cursor (Z.to_nat size)) false).

(** ** The loops *)

Lemma slot_lt d pos : 0 < llen d -> (slot d pos < List.length d)%nat.
Proof.
  intros H. unfold slot. pose proof (Z.mod_pos_bound pos (llen d) H) as Hm.
  set (m := pos `mod` llen d) in *. clearbody m. unfold llen in *. lia.
Qed.

Lemma slot_inj d p q : 0 < llen d -> slot d p = slot d q -> Z.abs (p - q) < llen d -> p = q.
Proof.
  intros Hd H Habs. unfold slot in H.
  pose proof (Z.mod_pos_bound p (llen d) Hd) as Hp. pose proof (Z.mod_pos_bound q (llen d) Hd) as Hq.
  pose proof (Z.div_mod p (llen d) ltac:(lia)) as Ep. pose proof (Z.div_mod q (llen d) ltac:(lia)) as Eq.
  set (a := p `mod` llen d) in *. set (b := q `mod` llen d) in *.
  set (x := p / llen d) in *. set (y := q / llen d) in *. clearbody a b x y.
  assert (a = b) by lia. subst b. assert (Hxy : p - q = llen d * (x - y)) by lia.
  destruct (decide (x = y)) as [->|Hne]; [lia|]. nia.
Qed.

Lemma slot_insert d i v pos : slot (<[i:=v]> d) pos = slot d pos.
Proof. unfold slot, llen. by rewrite length_insert. Qed.

Lemma write_at_length d pos l : List.length (write_at d pos l) = List.length d.
Proof. revert d pos. induction l; intros; simpl; [done|]. by rewrite IHl, length_insert. Qed.
Lemma write_at_llen d pos l : llen (write_at d pos l) = llen d.
Proof. unfold llen. by rewrite write_at_length. Qed.
Lemma write_at_slot d pos l q : slot (write_at d pos l) q = slot d q.
Proof. unfold slot, llen. by rewrite write_at_length. Qed.

Lemma llen_cons {A} (a : A) l : llen (a :: l) = llen l + 1.
Proof. unfold llen. simpl. lia. Qed.
Lemma llen_app {A} (l k : list A) : llen (l ++ k) = llen l + llen k.
Proof. unfold llen. rewrite length_app. lia. Qed.
Lemma llen_nonneg {A} (l : list A) : 0 <= llen l.
Proof. unfold llen. lia. Qed.
Lemma llen_drop {A} n (l : list A) : llen (drop n l) = Z.max 0 (llen l - Z.of_nat n).
Proof. unfold llen. rewrite length_drop. lia. Qed.
Lemma llen_take {A} n (l : list A) : llen (take n l) = Z.min (llen l) (Z.of_nat n).
Proof. unfold llen. rewrite length_take. lia. Qed.

(** A write keeps every position within one revolution before it. *)
Lemma write_at_old d pos l q :
  0 < llen d -> q < pos -> pos + llen l - q <= llen d ->
  write_at d pos l !! slot d q = d !! slot d q.
Proof.
  revert d pos. induction l as [|v l IH]; intros d pos Hd Hq Hl; simpl; [done|].
  rewrite llen_cons in Hl. pose proof (llen_nonneg l).
  set (d1 := <[slot d pos:=v]> d).
  assert (Hlen : llen d1 = llen d) by (unfold llen, d1; by rewrite length_insert).
  assert (Es : slot d1 q = slot d q) by apply slot_insert.
  rewrite <-Es, IH, Es by lia. unfold d1. rewrite list_lookup_insert_ne; [done|].
  intros E. apply slot_inj in E; lia.
Qed.

(** A write of at most one revolution puts each byte in its slot. *)
Lemma write_at_new d pos l q :
  0 < llen d -> llen l <= llen d -> pos <= q < pos + llen l ->
  write_at d pos l !! slot d q = l !! Z.to_nat (q - pos).
Proof.
  revert d pos. induction l as [|v l IH]; intros d pos Hd Hl Hq; rewrite ?llen_cons in *.
  - unfold llen in *. simpl in *. lia.
  - simpl. set (d1 := <[slot d pos:=v]> d).
    assert (Hlen : llen d1 = llen d) by (unfold llen, d1; by rewrite length_insert).
    assert (Es : slot d1 q = slot d q) by apply slot_insert.
    rewrite <-Es. destruct (decide (q = pos)) as [->|Hne].
    + rewrite Z.sub_diag. simpl. rewrite write_at_old, Es by lia.
      by apply list_lookup_insert_eq, slot_lt.
    + rewrite IH by lia.
      replace (Z.to_nat (q - pos)) with (S (Z.to_nat (q - (pos + 1)))) by lia. done.
Qed.

(** A stretch of the ring that holds a stretch of a stream reads as it. *)
Lemma read_at_spec d pos n (s : list ascii) :
  0 <= pos -> (forall q, pos <= q < pos + Z.of_nat n -> d !! slot d q = s !! Z.to_nat q) ->
  pos + Z.of_nat n <= llen s ->
  read_at d pos n = take n (drop (Z.to_nat pos) s).
Proof.
  revert pos. induction n as [|n IH]; intros pos Hpos Hq Hlen; simpl; [done|].
  assert (Hlt : (Z.to_nat pos < List.length s)%nat) by (unfold llen in *; lia).
  destruct (lookup_lt_is_Some_2 _ _ Hlt) as [v Hv].
  rewrite (drop_S _ _ _ Hv). simpl. f_equal.
  - apply nth_lookup_Some. rewrite Hq by lia. done.
  - rewrite IH by (try lia; intros; apply Hq; lia). f_equal. f_equal. lia.
Qed.
Lemma read_at_length d pos n : List.length (read_at d pos n) = n.
Proof. revert pos. induction n; intros; simpl; auto. Qed.

(** ** Refinement

    [refines b s]: the ring [b] is the stream [s] of all bytes ever appended,
    with only the newest [bl_limit b] of them still readable. *)

Record refines (b : ByteLog) (s : list ascii) : Prop := {
  rf_limit : 1 <= bl_limit b <= MaxOutputBytes;
  rf_head : bl_head b = llen s /\ llen s <= MaxUint64;
  rf_base : bl_base b = Z.max 0 (llen s - bl_limit b);
  rf_size : bl_head b - bl_base b <= llen (bl_data b) <= bl_limit b;
  rf_bytes : forall q, bl_base b <= q < bl_head b ->
    bl_data b !! slot (bl_data b) q = s !! Z.to_nat q }.

Lemma NewByteLog_refines limit b : NewByteLog limit = Ok b -> refines b [] /\ bl_limit b = limit.
Proof.
  unfold NewByteLog. intros H. ok_inv H. breflect. split; [|done].
  split; simpl; unfold llen, MaxUint64 in *; simpl; try lia.
Qed.

(** The storage after growing: large enough for the retained bytes, never
    above the limit, and with the retained bytes in their slots. *)
Lemma grow_spec b s n :
  refines b s -> 0 < n ->
  let d := grow b n in
  0 < llen d /\ Z.min (bl_limit b) (bl_head b - bl_base b + n) <= llen d <= bl_limit b /\
  (forall q, bl_base b <= q < bl_head b -> d !! slot d q = s !! Z.to_nat q).
Proof.
  intros [[L1 L2] [H1 H2] Hb [S1 S2] Hbytes] Hn. unfold grow.
  pose proof (llen_nonneg s).
  set (old := llen (bl_data b)) in *. set (req := Z.min _ _).
  destruct (old <? req) eqn:E; breflect.
  - set (size := Z.min _ _). assert (Hsz : old < size) by lia.
    replace (old <? size) with true by (symmetry; apply Z.ltb_lt; lia).
    set (z := repeat nul _). assert (Hz : llen z = size) by (unfold llen, z; rewrite repeat_length; lia).
    rewrite write_at_llen, Hz. split_and!; try lia.
    intros q Hq. set (kept := read_at _ _ _).
    assert (Hk : llen kept = bl_head b - bl_base b)
      by (unfold llen, kept; rewrite read_at_length; lia).
    rewrite write_at_slot, write_at_new by lia. unfold kept.
    rewrite (read_at_spec _ _ _ s); [|lia| |lia].
    + rewrite lookup_take_lt by lia. rewrite lookup_drop. f_equal. lia.
    + intros q' Hq'. apply Hbytes. lia.
  - replace (old <? old) with false by (symmetry; apply Z.ltb_ge; lia).
    fold old. split_and!; [unfold llen in *; lia|lia|lia|intros q Hq; by apply Hbytes].
Qed.

Lemma lookup_app_split (s p : list ascii) q :
  0 <= q -> (s ++ p) !! Z.to_nat q =
    (if q <? llen s then s !! Z.to_nat q else p !! Z.to_nat (q - llen s)).
Proof.
  intros Hq. unfold llen. destruct (q <? _) eqn:E; breflect.
  - apply lookup_app_l. lia.
  - rewrite lookup_app_r by lia. f_equal. lia.
Qed.

(** The bytes of [p] that are kept are the end of the stream. *)
Lemma keep_spec limit (s p : list ascii) q :
  let keep := drop (Z.to_nat (Z.max 0 (llen p - limit))) p in
  1 <= limit -> llen s + llen p - llen keep <= q < llen s + llen p ->
  keep !! Z.to_nat (q - (llen s + llen p - llen keep)) = (s ++ p) !! Z.to_nat q.
Proof.
  intros keep Hl Hq. pose proof (llen_nonneg s). unfold keep in *. rewrite llen_drop in *.
  rewrite lookup_app_split by lia. replace (q <? llen s) with false by (symmetry; apply Z.ltb_ge; lia).
  rewrite lookup_drop. f_equal. lia.
Qed.

Lemma Append_refines b s p b' sp :
  refines b s -> Append b p = Ok (b', sp) ->
  refines b' (s ++ p) /\ bl_limit b' = bl_limit b /\
  sp = mkSpan (llen s) (llen s + llen p) [] false.
Proof.
  intros Hr H. unfold Append, Advance in H.
  destruct (MaxOutputChunk <? llen p) eqn:?; [done|].
  destruct (MaxUint64 - bl_head b <? llen p) eqn:?; [done|]. breflect.
  injection H as <- <-.
  pose proof (rf_head _ _ Hr) as [Hh Hm]. pose proof (rf_limit _ _ Hr) as Hlim.
  pose proof (rf_base _ _ Hr) as Hbase. pose proof (rf_size _ _ Hr) as Hsize.
  pose proof (llen_nonneg s). pose proof (llen_nonneg p).
  assert (Hnext : u64 (bl_head b + llen p) = llen s + llen p)
    by (rewrite u64_small by (unfold is_u64; lia); lia).
  rewrite Hnext, Hh. split; [|done].
  assert (Hbase' : (if bl_limit b <? llen s + llen p then llen s + llen p - bl_limit b else bl_base b)
                   = Z.max 0 (llen s + llen p - bl_limit b))
    by (destruct (_ <? _) eqn:?; breflect; lia).
  split; simpl; rewrite ?llen_app, ?Hbase'; try lia.
  - destruct (0 <? llen p) eqn:Ep; breflect.
    + rewrite write_at_llen. destruct (grow_spec b s (llen p) Hr Ep) as (? & ? & _). lia.
    + lia.
  - intros q Hq. destruct (0 <? llen p) eqn:Ep; breflect.
    + destruct (grow_spec b s (llen p) Hr Ep) as (G1 & G2 & G3).
      set (keep := drop _ p) in *.
      assert (Hkeep : llen keep = Z.min (llen p) (bl_limit b)) by (unfold keep; rewrite llen_drop; lia).
      rewrite write_at_slot. destruct (decide (llen s + llen p - llen keep <= q)) as [Hge|Hlt].
      * rewrite write_at_new by lia. apply (keep_spec (bl_limit b)); fold keep; lia.
      * rewrite write_at_old, G3, lookup_app_split by lia.
        by replace (q <? llen s) with true by (symmetry; apply Z.ltb_lt; lia).
    + rewrite (rf_bytes _ _ Hr), lookup_app_split by lia.
      by replace (q <? llen s) with true by (symmetry; apply Z.ltb_lt; lia).
Qed.

(** What a reader may see of the stream [s] when the newest [limit] bytes are
    retained: the abstract specification of [Read]. *)
Definition spec_read (limit : Z) (s : list ascii) (cursor n : Z) : result ByteSpan :=
  let base := Z.max 0 (llen s - limit) in
  if llen s <? cursor then Err ErrOutputCursor
  else if (n <? 1) || (MaxOutputChunk <? n) then Err ErrLimit
  else if cursor <? base then Ok (mkSpan cursor base [] true)
  else let chunk := take (Z.to_nat n) (drop (Z.to_nat cursor) s) in
       Ok (mkSpan cursor (cursor + llen chunk) chunk false).

Lemma Read_refines b s cursor n :
  refines b s -> 0 <= cursor -> Read b cursor n = spec_read (bl_limit b) s cursor n.
Proof.
  intros Hr Hc. unfold Read, spec_read. pose proof (rf_head _ _ Hr) as [Hh Hm].
  pose proof (rf_base _ _ Hr) as Hb. rewrite Hh, <-Hb.
  destruct (llen s <? cursor) eqn:E1; [done|]. destruct (_ || _) eqn:E2; [done|].
  destruct (cursor <? bl_base b) eqn:E3; [done|]. breflect.
  rewrite (read_at_spec _ _ _ s); [|done| |lia].
  - rewrite llen_take, llen_drop. do 2 f_equal; [lia|].
    destruct (decide (n <= llen s - cursor)).
    + f_equal. lia.
    + rewrite !take_ge; [done| |]; rewrite length_drop; unfold llen in *; lia.
  - intros q Hq. apply (rf_bytes _ _ Hr). lia.
Qed.

(** A run of appends; a refused one leaves the log as it was. *)
Fixpoint append_all (b : ByteLog) (ps : list (list ascii)) : ByteLog :=
  match ps with
  | [] => b
  | p :: t => match Append b p with Ok (b', _) => append_all b' t | Err _ => append_all b t end
  end.
(** The bytes of the appends that were accepted. *)
Fixpoint accepted (b : ByteLog) (ps : list (list ascii)) : list ascii :=
  match ps with
  | [] => []
  | p :: t => match Append b p with Ok (b', _) => p ++ accepted b' t | Err _ => accepted b t end
  end.

Lemma append_all_refines ps b s :
  refines b s -> refines (append_all b ps) (s ++ accepted b ps) /\ bl_limit (append_all b ps) = bl_limit b.
Proof.
  revert b s. induction ps as [|p ps IH]; intros b s Hr; simpl; [by rewrite app_nil_r|].
  destruct (Append b p) as [[b' sp]|e] eqn:E; [|by apply IH].
  destruct (Append_refines _ _ _ _ _ Hr E) as (Hr' & Hl & _).
  rewrite app_assoc, <-Hl. by apply IH.
Qed.

(** (C33) The output ring implements an unbounded byte stream with bounded
    retention.  After any sequence of appends to a new log, every read at any
    offset answers exactly as the specification does on the stream of accepted
    bytes: an error beyond the head, an exact gap up to the oldest retained
    byte, and otherwise the very bytes at that offset; the storage never
    exceeds the limit. *)
Theorem bytelog_refines_stream limit b ps cursor n :
  NewByteLog limit = Ok b -> 0 <= cursor ->
  let log := append_all b ps in
  Read log cursor n = spec_read limit (accepted b ps) cursor n /\
  llen (bl_data log) <= limit /\ bs_head (ByteLog_Snapshot log) = llen (accepted b ps) /\
  bs_retained (ByteLog_Snapshot log) = Z.min limit (llen (accepted b ps)).
Proof.
  intros [Hr Hl]%NewByteLog_refines Hc log.
  destruct (append_all_refines ps b [] Hr) as [Hr' Hl']. simpl in Hr'. fold log in Hr', Hl'.
  rewrite <-Hl, <-Hl'. split; [by apply Read_refines|].
  pose proof (rf_size _ _ Hr') as [_ ?]. pose proof (rf_head _ _ Hr') as [Hh _].
  pose proof (rf_base _ _ Hr') as Hb. unfold ByteLog_Snapshot. simpl. lia.
Qed.

Lemma bytelog_refines_stream_witness :
  exists b, NewByteLog 4 = Ok b /\
  let log := append_all b [explode "abc"; explode "defg"] in
  Read log 5 2 = Ok (mkSpan 5 7 (explode "fg") false) /\
  Read log 0 2 = Ok (mkSpan 0 3 [] true) /\
  Read log 5 2 = spec_read 4 (accepted b [explode "abc"; explode "defg"]) 5 2.
Proof.
  eexists. split; [reflexivity|]. cbv zeta. split; [vm_compute; reflexivity|].
  split; [vm_compute; reflexivity|].
  apply (bytelog_refines_stream 4 _ [explode "abc"; explode "defg"] 5 2); [reflexivity|lia].
Defined.

(** ** Offsets on the wire *)

Lemma digit_test_ascii z : in_range 48 57 z = true -> z < 128.
Proof. unfold in_range. intros H. breflect. lia. Qed.

Lemma range_runes_digits s :
  forallb (fun c => in_range 48 57 c) (range_runes s) = forallb is_digit (explode s).
Proof. apply (forallb_runes_ascii _ digit_test_ascii). Qed.

Lemma FormatUint_slen n : is_u64 n -> 1 <= slen (FormatUint n) <= 20.
Proof.
  intros [Hn Hm]. pose proof (FormatUint_canonical n Hn) as Hc. pose proof Hc as (_ & Hne & _).
  unfold slen. rewrite <-length_explode. split; [destruct (explode _); simpl in *; [done|lia]|].
  destruct (canonical_lower _ Hc) as [E|Hl]; [rewrite E; simpl; lia|].
  pose proof (parse_digits_FormatUint n Hn) as Hp. unfold parse_digits in Hp.
  destruct (FormatUint_digits n Hn) as [Hd _]. destruct (explode (FormatUint n)) as [|c t]; [done|].
  rewrite Hd in Hp. injection Hp as Hp. rewrite Hp in Hl.
  destruct (Z.le_gt_cases (llen (c :: t)) 20) as [H|H]; [unfold llen in H; done|].
  exfalso. assert (10 ^ 20 <= 10 ^ (llen (c :: t) - 1)) by (apply Z.pow_le_mono_r; lia).
  unfold MaxUint64 in Hm. lia.
Qed.

(** The wire form of a byte offset is canonical: [ParseByteOffset]
    accepts exactly the strings that [String] prints for 64-bit offsets, and
    gives the printed offset back; every other string is refused. *)
Theorem byte_offset_roundtrip s n :
  ParseByteOffset s = Ok n <-> is_u64 n /\ ByteOffset_String n = s.
Proof.
  unfold ParseByteOffset, ByteOffset_String. rewrite range_runes_digits. split.
  - intros H. destruct (_ || _) eqn:E1; [done|]. destruct (negb _) eqn:E2; [done|].
    unfold ParseUint in H. destruct (parse_digits (explode s)) as [k|] eqn:E3; [|done].
    destruct (k <=? MaxUint64) eqn:E4; [|done]. injection H as ->. breflect.
    assert (Hn : 0 <= n).
    { unfold parse_digits in E3. ok_inv E3. by apply digits_val_nonneg. }
    split; [done|]. apply FormatUint_parse; [|done].
    split_and!; [done|intros Hz; rewrite Hz in E3; done|].
    intros t Ht. rewrite Ht in H0. apply andb_false_iff in H0 as [H0|H0]; [|done].
    breflect. unfold slen in H0. rewrite <-length_explode, Ht in H0. simpl in H0.
    destruct t; [done|simpl in H0; lia].
  - intros [Hn <-]. destruct (FormatUint_slen n Hn) as [L1 L2].
    destruct (FormatUint_digits n (proj1 Hn)) as [Hd _]. rewrite Hd, (ParseUint_FormatUint n Hn).
    replace (_ || _) with false; [done|]. symmetry. apply orb_false_iff. split.
    + apply orb_false_iff. split; [apply Z.eqb_neq|apply Z.ltb_ge]; lia.
    + destruct (FormatUint_canonical n (proj1 Hn)) as (_ & _ & Hz).
      destruct (explode (FormatUint n)) as [|c t] eqn:E; [by rewrite andb_false_r|].
      destruct (Ascii.eqb c "0") eqn:E0; [|by rewrite andb_false_r].
      apply Ascii.eqb_eq in E0. subst c. rewrite (Hz t eq_refl) in E.
      replace (slen (FormatUint n)) with 1; [done|].
      unfold slen. rewrite <-length_explode, E. done.
Qed.
