(* ===== verification/OutputCapture.v ===== *)
(** * Terminal output capture and its subscribers

    [src/application/runtime/output.go]: one owned launch's output ring
    ([Output.ByteLog]) shared by a producer and at most four readers, which
    the producer never waits for.  Subscriptions are pointers that the owner
    and the reader both hold, so they live in a store and the owner's set
    holds their addresses.  Every method is one step under the owner's mutex.
    The theorems say what a reader receives: every byte of its stretch of the
    stream, in order and once, or a gap frame that names what is missing. *)

From S2P Require Import Prelude GoStrings RuntimeValues Control Output.

Definition ErrClosedPipe : error := Sentinel "io: read/write on closed pipe".
Definition EOF : error := Sentinel "EOF".
Definition ErrRuntimeBusy : error := Sentinel "local runtime capacity exceeded".
Definition ErrRuntimeRejected : error := Sentinel "local runtime operation rejected".

Record OutputSelection := mkSelection { ol_identity : LaunchIdentity; ol_worktree : string; ol_profile : string }.
#[global] Instance OutputSelection_eq_dec : EqDecision OutputSelection.
Proof. solve_decision. Defined.

Record OutputLimits := mkOutputLimits { lim_retained : Z; lim_pending : Z }.

Record ResizeEvidence := mkResize { re_sequence : Z; re_rows : Z; re_cols : Z }.
#[global] Instance ResizeEvidence_eq_dec : EqDecision ResizeEvidence.
Proof. solve_decision. Defined.
Definition resize_zero : ResizeEvidence := mkResize 0 0 0.

Record OutputInfo := mkInfo {
  oi_selection : OutputSelection; oi_base : Z; oi_head : Z; oi_ended : bool;
  oi_resize : ResizeEvidence; oi_reason : string }.

Record OutputGap := mkGap { og_from : Z; og_to : Z; og_reason : string; og_deliveryUnknown : bool }.

Record OutputFrame := mkFrame {
  fr_kind : string; fr_info : OutputInfo; fr_start : Z; fr_end : Z; fr_data : list ascii;
  fr_gap : option OutputGap }.

Definition CaptureClosed : string := "closed".
Definition CaptureTerminalClosed : string := "terminal_closed".
Definition CaptureTailUnknown : string := "tail_unknown".
Definition CaptureReadError : string := "read_error".

(** A subscription; its [owner] is the state it is a part of. *)
Record OutputSubscription := mkSub {
  sb_cursor : Z; sb_attachHead : Z; sb_initial : bool; sb_closed : bool; sb_tailSent : bool;
  sb_detached : option OutputGap; sb_reading : bool }.

(** [Output].  [out_heap] holds every subscription ever made, by address;
    [out_subs] is the code's [subs], the set of attached ones.  [out_changed]
    counts the channels that [signalLocked] closed: a reader that waits on
    channel [n] is awake once the counter is past [n]. *)
Record Output := mkOutput {
  out_selection : OutputSelection; out_log : ByteLog; out_pending : Z; out_changed : Z;
  out_heap : gmap nat OutputSubscription; out_subs : gset nat;
  out_ended : bool; out_unknown : bool; out_reason : string;
  out_resize : ResizeEvidence; out_resizeSet : bool }.

Definition lower_hex (c : Z) : bool := negb (((c <? 48) || (57 <? c)) && ((c <? 97) || (102 <? c))).

Definition NewOutput (sel : OutputSelection) (limits : OutputLimits) : result Output :=
  if negb (LaunchIdentity_Valid (ol_identity sel)) || negb (slen (ol_worktree sel) =? 66)
     || negb (String.prefix "w_" (ol_worktree sel))
  then Err ErrInvalid
  else if negb (forallb lower_hex (range_runes (implode (drop 2 (explode (ol_worktree sel)))))) then Err ErrInvalid
  else
    let! _ := wrap_err "initialize runtime output: %w" (ProfileIDFrom (ol_profile sel)) in
    let retained := if lim_retained limits =? 0 then MaxOutputBytes else lim_retained limits in
    let pending := if lim_pending limits =? 0 then MaxOutputPending else lim_pending limits in
    if (pending <? 1) || (MaxOutputPending <? pending) then Err ErrLimit
    else
      let! log := wrap_err "initialize runtime output: %w" (NewByteLog retained) in
      Ok (mkOutput sel log pending 0 ∅ ∅ false false "" resize_zero false).

Definition signalLocked (o : Output) : Output :=
  mkOutput (out_selection o) (out_log o) (out_pending o) (out_changed o + 1) (out_heap o) (out_subs o)
    (out_ended o) (out_unknown o) (out_reason o) (out_resize o) (out_resizeSet o).

Definition infoLocked (o : Output) : OutputInfo :=
  let s := ByteLog_Snapshot (out_log o) in
  mkInfo (out_selection o) (bs_base s) (bs_head s) (out_ended o) (out_resize o) (out_reason o).

(** The wire cost of [n] bytes, in [uint64] arithmetic. *)
Definition pendingCost (n : Z) : Z :=
  if n =? 0 then 0
  else u64 (u64 (u64 (u64 (n + 2) / 3 * 4)
                 + u64 (2048 * (u64 (u64 (n + MaxOutputChunk) - 1) / MaxOutputChunk))) + 2048).

(** [live]: the unread bytes since the subscriber attached. *)
Definition live_bytes (s : OutputSubscription) (head : Z) : Z :=
  u64 (head - Z.max (sb_cursor s) (sb_attachHead s)).
Definition slow (pending head : Z) (s : OutputSubscription) : bool :=
  (MaxOutputPending <? live_bytes s head) || (pending <? pendingCost (live_bytes s head)).

Definition detach (head : Z) (s : OutputSubscription) : OutputSubscription :=
  mkSub (sb_cursor s) (sb_attachHead s) (sb_initial s) (sb_closed s) (sb_tailSent s)
    (Some (mkGap (sb_cursor s) head "slow_consumer" true)) (sb_reading s).

(** The loop over [o.subs] of [Append], each iteration of which reads and
    writes its own subscription. *)
Definition detach_slow (subs : gset nat) (pending head : Z) (heap : gmap nat OutputSubscription)
  : gmap nat OutputSubscription :=
  map_imap (fun a s => Some (if bool_decide (a ∈ subs) && slow pending head s then detach head s else s)) heap.
Definition still_attached (heap : gmap nat OutputSubscription) (pending head : Z) (subs : gset nat) : gset nat :=
  filter (fun a => slow pending head <$> (heap !! a) <> Some true) subs.

Definition with_log (o : Output) (log : ByteLog) (heap : gmap nat OutputSubscription) (subs : gset nat) : Output :=
  mkOutput (out_selection o) log (out_pending o) (out_changed o) heap subs
    (out_ended o) (out_unknown o) (out_reason o) (out_resize o) (out_resizeSet o).

Definition Output_Append (o : Output) (p : list ascii) : Output * option error :=
  if out_ended o then (o, Some ErrClosedPipe)
  else match Append (out_log o) p with
       | Err e => (o, Some (Wrap "append runtime output: %w" [] e))
       | Ok (log, _) =>
           let head := bs_head (ByteLog_Snapshot log) in
           (signalLocked (with_log o log (detach_slow (out_subs o) (out_pending o) head (out_heap o))
              (still_attached (out_heap o) (out_pending o) head (out_subs o))), None)
       end.

Definition Finish (o : Output) (reason : string) (unknown : bool) : Output :=
  if out_ended o then o
  else signalLocked (mkOutput (out_selection o) (out_log o) (out_pending o) (out_changed o) (out_heap o)
         (out_subs o) true unknown reason (out_resize o) (out_resizeSet o)).

Definition AcknowledgeResize (o : Output) (sel : OutputSelection) (sequence rows cols : Z)
  : Output * option error :=
  if negb (bool_decide (sel = out_selection o)) then (o, Some ErrChanged)
  else if (rows =? 0) || (cols =? 0) then (o, Some ErrInvalid)
  else
    let next := mkResize sequence rows cols in
    let apply := signalLocked (mkOutput (out_selection o) (out_log o) (out_pending o) (out_changed o)
                   (out_heap o) (out_subs o) (out_ended o) (out_unknown o) (out_reason o) next true) in
    if out_resizeSet o then
      if bool_decide (next = out_resize o) then (o, None)
      else match ValidateResizeSequence (re_sequence (out_resize o)) sequence with
           | Some e => (o, Some (Wrap "validate owner resize acknowledgment: %w" [] e))
           | None => (apply, None)
           end
    else if negb (sequence =? 0) || negb (rows =? 24) || negb (cols =? 80) then (o, Some ErrChanged)
    else (apply, None).

Definition ValidateResize (o : Output) (sel : OutputSelection) (sequence rows cols : Z) : option error :=
  if negb (bool_decide (sel = out_selection o)) || negb (out_resizeSet o) then Some ErrChanged
  else if (rows =? 0) || (cols =? 0) then Some ErrInvalid
  else match ValidateResizeSequence (re_sequence (out_resize o)) sequence with
       | Some e => Some (Wrap "validate explicit resize sequence: %w" [] e)
       | None => None
       end.

Definition with_subs (o : Output) (heap : gmap nat OutputSubscription) (subs : gset nat) : Output :=
  with_log o (out_log o) heap subs.

(** [Subscribe]; the address of the new subscription is the allocator's. *)
Definition Subscribe (o : Output) (sel : OutputSelection) (cursor : Z) : Output * result nat :=
  if negb (bool_decide (sel = out_selection o)) then (o, Err ErrChanged)
  else if bs_head (ByteLog_Snapshot (out_log o)) <? cursor then (o, Err ErrOutputCursor)
  else if MaxOutputSubscribers <=? Z.of_nat (size (out_subs o)) then (o, Err ErrLimit)
  else
    let a := fresh (dom (out_heap o)) in
    let s := mkSub cursor (bs_head (ByteLog_Snapshot (out_log o))) false false false None false in
    (with_subs o (<[a := s]> (out_heap o)) ({[ a ]} ∪ out_subs o), Ok a).

Definition set_closed (s : OutputSubscription) : OutputSubscription :=
  mkSub (sb_cursor s) (sb_attachHead s) (sb_initial s) true (sb_tailSent s) (sb_detached s) (sb_reading s).
Definition set_reading (s : OutputSubscription) (b : bool) : OutputSubscription :=
  mkSub (sb_cursor s) (sb_attachHead s) (sb_initial s) (sb_closed s) (sb_tailSent s) (sb_detached s) b.
Definition set_cursor (s : OutputSubscription) (c : Z) : OutputSubscription :=
  mkSub c (sb_attachHead s) (sb_initial s) (sb_closed s) (sb_tailSent s) (sb_detached s) (sb_reading s).

Definition Close (o : Output) (a : nat) : Output :=
  match out_heap o !! a with
  | None => o
  | Some s =>
      if sb_closed s then o
      else signalLocked (with_subs o (<[a := set_closed s]> (out_heap o)) (out_subs o ∖ {[ a ]}))
  end.

(** [nextLocked]: the subscription after the call, whether it leaves the
    owner's set, and the frame if one is ready. *)
Definition nextLocked (o : Output) (s : OutputSubscription) : OutputSubscription * bool * option OutputFrame :=
  let info := infoLocked o in
  let frame := fun kind gap => mkFrame kind info 0 0 [] gap in
  if negb (sb_initial s) then
    (mkSub (sb_cursor s) (sb_attachHead s) true (sb_closed s) (sb_tailSent s) (sb_detached s) (sb_reading s),
     false, Some (frame "snapshot" None))
  else match sb_detached s with
  | Some gap =>
      (mkSub (sb_cursor s) (sb_attachHead s) (sb_initial s) true (sb_tailSent s) None (sb_reading s),
       false, Some (frame "gap" (Some gap)))
  | None =>
      let span := match Read (out_log o) (sb_cursor s) MaxOutputChunk with
                  | Ok sp => sp | Err _ => mkSpan 0 0 [] false end in
      if sp_gap span then
        (set_cursor s (sp_end span), false, Some (frame "gap" (Some (mkGap (sp_start span) (sp_end span) "evicted" false))))
      else if 0 <? llen (sp_data span) then
        (set_cursor s (sp_end span), false,
         Some (mkFrame "data" info (sp_start span) (sp_end span) (sp_data span) None))
      else if out_ended o then
        if out_unknown o && negb (sb_tailSent s) then
          (mkSub (sb_cursor s) (sb_attachHead s) (sb_initial s) (sb_closed s) true (sb_detached s) (sb_reading s),
           false, Some (frame "gap" (Some (mkGap (sb_cursor s) (sb_cursor s) (out_reason o) true))))
        else (set_closed s, true, Some (frame "end" None))
      else (s, false, None)
  end.

(** The critical section of one iteration of [Next]: what it returns, or the
    channel on which it waits. *)
Inductive NextResult :=
| NextReturns (r : result OutputFrame)
| NextWaits (changed : Z).

Definition Next_locked (o : Output) (a : nat) : Output * NextResult :=
  match out_heap o !! a with
  | None => (o, NextReturns (Err EOF))
  | Some s =>
      if sb_closed s then (o, NextReturns (Err EOF))
      else
        let '(s', leaves, frame) := nextLocked o s in
        let o' := with_subs o (<[a := s']> (out_heap o)) (if leaves then out_subs o ∖ {[ a ]} else out_subs o) in
        match frame with
        | Some f => (o', NextReturns (Ok f))
        | None => (o', NextWaits (out_changed o))
        end
  end.

(** One call of [Next] up to its first wait, with the reader's context done
    or not: the compare-and-swap of the single consumer, the check of the
    context, the critical section, and the deferred release. *)
Definition release (o : Output) (a : nat) : Output :=
  with_subs o (alter (fun s => set_reading s false) a (out_heap o)) (out_subs o).
Definition acquire (o : Output) (a : nat) : Output * bool :=
  match out_heap o !! a with
  | Some s => if sb_reading s then (o, false)
              else (with_subs o (<[a := set_reading s true]> (out_heap o)) (out_subs o), true)
  | None => (o, false)
  end.
(** The body of the loop; [ctx] is what [ctx.Err()] gives. *)
Definition Next_loop (o : Output) (a : nat) (ctx : option error) : Output * NextResult :=
  match ctx with
  | Some e => (release (Close o a) a, NextReturns (Err (Wrap "read runtime output: %w" [] e)))
  | None =>
      match Next_locked o a with
      | (o', NextReturns r) => (release o' a, NextReturns r)
      | (o', NextWaits c) => (o', NextWaits c)
      end
  end.
Definition Next (o : Output) (a : nat) (ctx : option error) : Output * NextResult :=
  match acquire o a with
  | (o1, false) => (o1, NextReturns (Err ErrRuntimeBusy))
  | (o1, true) => Next_loop o1 a ctx
  end.

(** ** Runs

    The calls that the producer, the owner and the readers make, in the order
    in which they enter the critical section.  [World] carries beside the
    state what the run produced: the bytes accepted so far, where each
    subscription started and the frames that each received. *)

Inductive Action :=
| AAppend (p : list ascii)
| AFinish (reason : string) (unknown : bool)
| AResize (sel : OutputSelection) (sequence rows cols : Z)
| ASubscribe (sel : OutputSelection) (cursor : Z)
| AClose (a : nat)
| ANext (a : nat) (ctx : option error)
| AWake (a : nat) (ctx : option error).

Record World := mkWorld {
  w_out : Output; w_stream : list ascii; w_start : gmap nat Z; w_frames : gmap nat (list OutputFrame) }.

Definition frames_of (w : World) (a : nat) : list OutputFrame := default [] (w_frames w !! a).

Definition received (w : World) (a : nat) (r : Output * NextResult) : World :=
  match r with
  | (o, NextReturns (Ok f)) =>
      mkWorld o (w_stream w) (w_start w) (<[a := frames_of w a ++ [f]]> (w_frames w))
  | (o, _) => mkWorld o (w_stream w) (w_start w) (w_frames w)
  end.
Definition same_history (w : World) (o : Output) : World :=
  mkWorld o (w_stream w) (w_start w) (w_frames w).

(** Whether the subscription's reader is inside [Next]. *)
Definition in_next (o : Output) (a : nat) : bool :=
  match out_heap o !! a with Some s => sb_reading s | None => false end.

Definition play (w : World) (x : Action) : World :=
  let o := w_out w in
  match x with
  | AAppend p =>
      match Output_Append o p with
      | (o', None) => mkWorld o' (w_stream w ++ p) (w_start w) (w_frames w)
      | (o', Some _) => same_history w o'
      end
  | AFinish reason unknown => same_history w (Finish o reason unknown)
  | AResize sel q r c => same_history w (fst (AcknowledgeResize o sel q r c))
  | ASubscribe sel cursor =>
      match Subscribe o sel cursor with
      | (o', Ok a) => mkWorld o' (w_stream w) (<[a := cursor]> (w_start w)) (w_frames w)
      | (o', Err _) => same_history w o'
      end
  | AClose a => same_history w (Close o a)
  | ANext a ctx => received w a (Next o a ctx)
  | AWake a ctx => if in_next o a then received w a (Next_loop o a ctx) else w
  end.
Fixpoint play_all (w : World) (xs : list Action) : World :=
  match xs with
  | [] => w
  | x :: xs => play_all (play w x) xs
  end.
Definition world_of (o : Output) : World := mkWorld o [] ∅ ∅.

(** Cursors are unsigned. *)
Definition action_ok (x : Action) : Prop :=
  match x with ASubscribe _ cursor => is_u64 cursor | _ => True end.

(** ** What a reader is promised

    [delivers stream c0 fs c ph]: the frames [fs] account for the stream from
    [c0] to [c], each byte once and in order. *)

Inductive Phase := Reading | Detached | Ended.

Definition gap_frame (f : OutputFrame) (g : OutputGap) : Prop := fr_kind f = "gap" /\ fr_gap f = Some g.

Inductive delivers (stream : list ascii) (c0 : Z) : list OutputFrame -> Z -> Phase -> Prop :=
| dl_start : delivers stream c0 [] c0 Reading
| dl_snapshot fs c f :
    delivers stream c0 fs c Reading -> fr_kind f = "snapshot" -> delivers stream c0 (fs ++ [f]) c Reading
| dl_data fs c f :
    delivers stream c0 fs c Reading -> fr_kind f = "data" -> fr_start f = c ->
    fr_end f = c + llen (fr_data f) -> 0 < llen (fr_data f) <= MaxOutputChunk ->
    fr_data f = take (List.length (fr_data f)) (drop (Z.to_nat c) stream) ->
    delivers stream c0 (fs ++ [f]) (fr_end f) Reading
| dl_evicted fs c f to :
    delivers stream c0 fs c Reading -> gap_frame f (mkGap c to "evicted" false) ->
    c < to <= llen stream -> delivers stream c0 (fs ++ [f]) to Reading
| dl_tail fs c f reason :
    delivers stream c0 fs c Reading -> gap_frame f (mkGap c c reason true) ->
    oi_ended (fr_info f) = true -> delivers stream c0 (fs ++ [f]) c Reading
| dl_slow fs c f to :
    delivers stream c0 fs c Reading -> gap_frame f (mkGap c to "slow_consumer" true) ->
    c <= to <= llen stream -> delivers stream c0 (fs ++ [f]) to Detached
| dl_end fs c f :
    delivers stream c0 fs c Reading -> fr_kind f = "end" -> oi_head (fr_info f) = c ->
    oi_ended (fr_info f) = true -> delivers stream c0 (fs ++ [f]) c Ended.

Lemma delivers_grow stream p c0 fs c ph :
  delivers stream c0 fs c ph -> delivers (stream ++ p) c0 fs c ph.
Proof.
  pose proof (llen_nonneg p).
  induction 1 as [|fs c f _ IH Hk|fs c f _ IH Hk Hs He Hl Hd|fs c f to _ IH Hg Hb|fs c f r _ IH Hg Hi
                 |fs c f to _ IH Hg Hb|fs c f _ IH Hk Hh Hi].
  - constructor.
  - by constructor.
  - apply (dl_data _ _ fs c); auto. rewrite Hd at 1.
    assert (Hlen : (List.length (fr_data f) <= List.length (drop (Z.to_nat c) stream))%nat).
    { rewrite Hd at 1. rewrite length_take. lia. }
    rewrite length_drop in Hlen. unfold llen in Hl.
    rewrite drop_app_le, take_app_le; [done|rewrite length_drop; lia|lia].
  - apply (dl_evicted _ _ fs c); auto. rewrite llen_app. lia.
  - by apply (dl_tail _ _ fs c f r).
  - apply (dl_slow _ _ fs c); auto. rewrite llen_app. lia.
  - by apply dl_end.
Qed.

(** ** The invariant of a run *)

Section SubInvariant.
Context (pending : Z) (ended : bool).

(** One subscription, attached or not, against the stream, the offset where it
    started and the frames it received. *)
Record sub_ok (attached : Prop) (stream : list ascii) (c0 : Z) (fs : list OutputFrame) (s : OutputSubscription)
  : Prop := {
  so_cursor : 0 <= sb_cursor s <= llen stream;
  so_attach : 0 <= sb_attachHead s <= llen stream;
  so_open : sb_closed s = false -> delivers stream c0 fs (sb_cursor s) Reading;
  so_done : exists c ph, delivers stream c0 fs c ph /\ c <= llen stream /\
    (ph = Ended -> ended = true /\ c = llen stream);
  so_detached : forall g, sb_detached s = Some g ->
    ~ attached /\ exists to, g = mkGap (sb_cursor s) to "slow_consumer" true /\ sb_cursor s <= to <= llen stream;
  so_attached : attached -> sb_closed s = false /\ sb_detached s = None /\ slow pending (llen stream) s = false;
  so_member : sb_closed s = false -> sb_detached s = None -> attached }.

Lemma sub_ok_reading A stream c0 fs s b : sub_ok A stream c0 fs s -> sub_ok A stream c0 fs (set_reading s b).
Proof. intros []. by split. Qed.

Lemma sub_ok_closed A stream c0 fs s : sub_ok A stream c0 fs s -> sub_ok False stream c0 fs (set_closed s).
Proof.
  intros []. split; simpl; try done.
  intros g Hg. split; [tauto|]. by apply so_detached0.
Qed.

(** An accepted append: the attached and slow are detached. *)
Lemma sub_ok_append (attached : bool) stream p c0 fs s :
  ended = false -> sub_ok (attached = true) stream c0 fs s ->
  let head := llen (stream ++ p) in
  sub_ok (attached = true /\ slow pending head s = false) (stream ++ p) c0 fs
    (if attached && slow pending head s then detach head s else s).
Proof.
  intros He [Hc Ha Ho Hd Hdt Hat Hm] head.
  assert (Hgrow : llen stream <= head) by (unfold head; rewrite llen_app; pose proof (llen_nonneg p); lia).
  assert (Ho' : sb_closed s = false -> delivers (stream ++ p) c0 fs (sb_cursor s) Reading)
    by (intros E; by apply delivers_grow, Ho).
  assert (Hd' : exists c ph, delivers (stream ++ p) c0 fs c ph /\ c <= llen (stream ++ p) /\
    (ph = Ended -> ended = true /\ c = llen (stream ++ p))).
  { destruct Hd as (c & ph & D & Hle & Hph). exists c, ph. split_and!; [by apply delivers_grow|fold head; lia|].
    intros E. destruct (Hph E) as [? _]. congruence. }
  assert (Hkeep : attached = false \/ slow pending head s = false ->
    sub_ok (attached = true /\ slow pending head s = false) (stream ++ p) c0 fs s).
  { intros Hcase. split; fold head; try done; try lia.
    - intros g Hg. destruct (Hdt g Hg) as (Hna & to & -> & Hto). split; [naive_solver|].
      exists to. split; [done|lia].
    - intros [Ea Es]. destruct (Hat Ea) as (? & ? & _). done.
    - intros E1 E2. specialize (Hm E1 E2). destruct Hcase; [congruence|done]. }
  destruct attached; [|by apply Hkeep; left].
  destruct (slow pending head s) eqn:Es; simpl; [|by apply Hkeep; right].
  split; fold head; simpl; try done; try lia.
  - intros g [= <-]. split; [naive_solver|]. exists head. split; [done|lia].
Qed.

(** A subscription as [Subscribe] makes it. *)
Lemma sub_ok_new stream cursor :
  1 <= pending -> 0 <= cursor <= llen stream -> llen stream <= MaxUint64 ->
  sub_ok True stream cursor [] (mkSub cursor (llen stream) false false false None false).
Proof.
  intros Hp Hc Hm. split; simpl; try done; try lia.
  - intros _. constructor.
  - exists cursor, Reading. split_and!; [constructor|lia|done].
  - intros _. split_and!; [done|done|]. unfold slow, live_bytes. simpl.
    replace (llen stream - Z.max cursor (llen stream)) with 0 by lia.
    change (u64 0) with 0. unfold pendingCost. simpl. apply Z.ltb_ge. lia.
Qed.
End SubInvariant.

(** *** Wire cost *)

Lemma pendingCost_exact n : 0 < n <= MaxOutputPending ->
  pendingCost n = (n + 2) / 3 * 4 + 2048 * ((n + MaxOutputChunk - 1) / MaxOutputChunk) + 2048.
Proof.
  intros Hn. unfold pendingCost, MaxOutputPending, MaxOutputChunk in *.
  change (256 * 1024) with 262144 in Hn. change (32 * 1024) with 32768.
  replace (n =? 0) with false by (symmetry; apply Z.eqb_neq; lia).
  assert (0 <= (n + 2) / 3 <= 100000) by (split; [apply Z.div_pos|apply Z.div_le_upper_bound]; lia).
  assert (0 <= (n + 32768 - 1) / 32768 <= 10) by (split; [apply Z.div_pos|apply Z.div_le_upper_bound]; lia).
  rewrite (u64_small (n + 2)) by (unfold is_u64, MaxUint64; lia).
  rewrite (u64_small (n + 32768)) by (unfold is_u64, MaxUint64; lia).
  rewrite (u64_small (n + 32768 - 1)) by (unfold is_u64, MaxUint64; lia).
  set (x := (n + 2) / 3) in *. set (y := (n + 32768 - 1) / 32768) in *. clearbody x y.
  rewrite (u64_small (x * 4)) by (unfold is_u64, MaxUint64; lia).
  rewrite (u64_small (2048 * y)) by (unfold is_u64, MaxUint64; lia).
  rewrite (u64_small (x * 4 + 2048 * y)) by (unfold is_u64, MaxUint64; lia).
  by rewrite u64_small by (unfold is_u64, MaxUint64; lia).
Qed.

Lemma pendingCost_mono n m : 0 <= n <= m -> m <= MaxOutputPending -> pendingCost n <= pendingCost m.
Proof.
  intros Hn Hm. destruct (decide (m = 0)) as [->|Hm0]; [by replace n with 0 by lia|].
  rewrite (pendingCost_exact m) by lia.
  assert (0 <= (m + 2) / 3) by (apply Z.div_pos; lia).
  assert (0 <= (m + MaxOutputChunk - 1) / MaxOutputChunk) by (apply Z.div_pos; unfold MaxOutputChunk in *; lia).
  destruct (decide (n = 0)) as [->|Hn0]; [change (pendingCost 0) with 0; lia|].
  rewrite pendingCost_exact by lia.
  assert ((n + 2) / 3 <= (m + 2) / 3) by (apply Z.div_le_mono; lia).
  assert ((n + MaxOutputChunk - 1) / MaxOutputChunk <= (m + MaxOutputChunk - 1) / MaxOutputChunk)
    by (apply Z.div_le_mono; unfold MaxOutputChunk in *; lia).
  lia.
Qed.

(** Unread bytes without wrap-around. *)
Lemma live_bytes_exact s head :
  0 <= sb_cursor s <= head -> 0 <= sb_attachHead s <= head -> head <= MaxUint64 ->
  live_bytes s head = head - Z.max (sb_cursor s) (sb_attachHead s).
Proof. intros. unfold live_bytes. apply u64_small. unfold is_u64. lia. Qed.

(** A reader that moves on is not slower. *)
Lemma slow_mono pending head s s' :
  0 <= sb_attachHead s <= head -> head <= MaxUint64 -> sb_attachHead s' = sb_attachHead s ->
  0 <= sb_cursor s <= sb_cursor s' -> sb_cursor s' <= head ->
  slow pending head s = false -> slow pending head s' = false.
Proof.
  intros Ha Hh Ea Hc Hc' H. unfold slow in *. apply orb_false_iff in H as [H1 H2]. breflect.
  assert (Hs : live_bytes s head = head - Z.max (sb_cursor s) (sb_attachHead s))
    by (apply live_bytes_exact; lia).
  assert (Hs' : live_bytes s' head = head - Z.max (sb_cursor s') (sb_attachHead s'))
    by (apply live_bytes_exact; lia).
  assert (Hle : 0 <= live_bytes s' head <= live_bytes s head) by lia.
  pose proof (pendingCost_mono _ _ Hle H1). apply orb_false_iff. split; apply Z.ltb_ge; lia.
Qed.

(** *** One frame *)

Lemma take_length_take {A} n (l : list A) : take (List.length (take n l)) l = take n l.
Proof.
  rewrite length_take. destruct (decide (n <= List.length l)%nat).
  - by rewrite Nat.min_l by lia.
  - rewrite Nat.min_r by lia. by rewrite !take_ge by lia.
Qed.

(** What a read within the stream gives. *)
Lemma Read_cases b stream c n :
  refines b stream -> 0 <= c <= llen stream -> 1 <= n <= MaxOutputChunk ->
  (exists to, Read b c n = Ok (mkSpan c to [] true) /\ c < to <= llen stream) \/
  (exists chunk, Read b c n = Ok (mkSpan c (c + llen chunk) chunk false) /\
     llen chunk = Z.min n (llen stream - c) /\
     chunk = take (List.length chunk) (drop (Z.to_nat c) stream)).
Proof.
  intros Hr Hc Hn. rewrite (Read_refines _ _ _ _ Hr) by lia. unfold spec_read.
  pose proof (rf_limit _ _ Hr).
  replace (llen stream <? c) with false by (symmetry; apply Z.ltb_ge; lia).
  replace ((n <? 1) || (MaxOutputChunk <? n)) with false
    by (symmetry; apply orb_false_iff; split; apply Z.ltb_ge; lia).
  destruct (c <? _) eqn:Eg; breflect.
  - left. eexists. split; [reflexivity|]. lia.
  - right. eexists. split; [reflexivity|]. split; [rewrite llen_take, llen_drop; lia|].
    symmetry. apply take_length_take.
Qed.

Lemma sub_ok_next o (attached : Prop) stream c0 fs s s' leaves fr :
  refines (out_log o) stream -> sub_ok (out_pending o) (out_ended o) attached stream c0 fs s ->
  sb_closed s = false -> nextLocked o s = (s', leaves, fr) ->
  sub_ok (out_pending o) (out_ended o) (attached /\ leaves = false) stream c0 (fs ++ option_list fr) s'.
Proof.
  intros Hr [Hc Ha Ho Hd Hdt Hat Hm] Ecl H. specialize (Ho Ecl).
  pose proof (rf_head _ _ Hr) as [Hhead Hmax]. pose proof (rf_base _ _ Hr) as Hbase.
  pose proof (rf_limit _ _ Hr) as Hlim. pose proof (llen_nonneg stream).
  unfold nextLocked in H. destruct (sb_initial s) eqn:Ei; simpl in H; cycle 1.
  { injection H as <- <- <-. simpl. assert (D : delivers stream c0 (fs ++ [mkFrame "snapshot" (infoLocked o) 0 0 [] None]) (sb_cursor s) Reading) by by apply dl_snapshot.
    split; simpl; try done.
    - exists (sb_cursor s), Reading. split_and!; [done|lia|done].
    - intros g Hg. destruct (Hdt g Hg) as [Hna ?]. split; [by intros [? _]|done].
    - intros [A _]. by apply Hat.
    - intros _ E. split; [by apply Hm|done]. }
  destruct (sb_detached s) as [g|] eqn:Ed.
  { injection H as <- <- <-. destruct (Hdt g eq_refl) as (Hna & to & -> & Hto). simpl.
    split; simpl; try done; [|by intros [? _]].
    exists to, Detached. split_and!; [|lia|done].
    apply (dl_slow _ _ _ (sb_cursor s)); [done|by split|lia]. }
  specialize (Hm Ecl eq_refl). destruct (Hat Hm) as (_ & _ & Hslow).
  assert (Hcases := Read_cases _ _ _ MaxOutputChunk Hr Hc ltac:(done)).
  assert (Hmove : forall c', sb_cursor s < c' <= llen stream ->
    forall f, delivers stream c0 (fs ++ [f]) c' Reading ->
    sub_ok (out_pending o) (out_ended o) (attached /\ false = false) stream c0 (fs ++ [f]) (set_cursor s c')).
  { intros c' Hc' f D. split; simpl; rewrite ?Ecl, ?Ed; try done; try lia.
    - exists c', Reading. split_and!; [done|lia|done].
    - intros _. split_and!; try done. apply (slow_mono _ _ s); simpl; lia || done. }
  destruct Hcases as [(to & Er & Hto)|(chunk & Er & Hchunk & Hdata)]; rewrite Er in H;
    cbn [sp_gap sp_start sp_end sp_data] in H.
  { injection H as <- <- <-. apply Hmove; [done|].
    apply (dl_evicted _ _ _ (sb_cursor s)); [done|by split|done]. }
  destruct (0 <? llen chunk) eqn:Ec; breflect.
  { injection H as <- <- <-. apply Hmove; [lia|]. simpl. 
    apply (dl_data _ _ _ (sb_cursor s)). all: simpl. all: done || lia. }
  assert (Hend : sb_cursor s = llen stream) by (unfold MaxOutputChunk in *; lia).
  destruct (out_ended o) eqn:Een.
  - destruct (out_unknown o && negb (sb_tailSent s)).
    + injection H as <- <- <-. simpl. 
      assert (D : delivers stream c0 (fs ++ [mkFrame "gap" (infoLocked o) 0 0 []
        (Some (mkGap (sb_cursor s) (sb_cursor s) (out_reason o) true))]) (sb_cursor s) Reading)
        by (apply (dl_tail _ _ _ _ _ (out_reason o)); [exact Ho|by split|exact Een]).
      split; simpl; rewrite ?Ed; try done.
      exists (sb_cursor s), Reading. split_and!; [done|lia|done].
    + injection H as <- <- <-. simpl. split; simpl; rewrite ?Ed; try done; try (intros [? [=]]).
      exists (sb_cursor s), Ended. split_and!; [|lia|done].
      apply dl_end; simpl; [done|done|lia|done].
  - injection H as <- <- <-. simpl. rewrite app_nil_r. by split; rewrite ?Ed.
Qed.

(** *** All subscriptions *)

Record world_ok (w : World) : Prop := {
  wo_log : refines (out_log (w_out w)) (w_stream w);
  wo_pending : 1 <= out_pending (w_out w) <= MaxOutputPending;
  wo_subs : forall a, a ∈ out_subs (w_out w) -> is_Some (out_heap (w_out w) !! a);
  wo_size : Z.of_nat (size (out_subs (w_out w))) <= MaxOutputSubscribers;
  wo_sub : forall a s, out_heap (w_out w) !! a = Some s -> exists c0, w_start w !! a = Some c0 /\
    sub_ok (out_pending (w_out w)) (out_ended (w_out w)) (a ∈ out_subs (w_out w)) (w_stream w) c0 (frames_of w a) s;
  wo_frames : forall a, out_heap (w_out w) !! a = None -> w_frames w !! a = None }.

Lemma sub_ok_iff pending ended (A B : Prop) stream c0 fs s :
  (A <-> B) -> sub_ok pending ended A stream c0 fs s -> sub_ok pending ended B stream c0 fs s.
Proof. intros H []. split; try done; naive_solver. Qed.

Lemma NewOutput_ok sel limits o : NewOutput sel limits = Ok o -> world_ok (world_of o).
Proof.
  unfold NewOutput. intros H. destruct (_ || _); [done|]. destruct (negb _); [done|].
  destruct (wrap_err _ (ProfileIDFrom _)); [|done]. cbv zeta in H.
  set (pending := if lim_pending _ =? 0 then _ else _) in H. destruct (_ || _) eqn:Ep; [done|].
  unfold wrap_err in H. destruct (NewByteLog _) as [log|] eqn:El; [|done]. injection H as <-.
  apply orb_false_iff in Ep as [P1 P2]. breflect. split; simpl; try done.
  by eapply NewByteLog_refines.
Qed.

(** A call that changes one subscription, and perhaps detaches it. *)
Lemma world_ok_update w a s s' o' fs' frames' :
  let o := w_out w in
  world_ok w -> out_heap o !! a = Some s ->
  out_log o' = out_log o -> out_pending o' = out_pending o -> out_ended o' = out_ended o ->
  out_heap o' = <[a := s']> (out_heap o) ->
  out_subs o' ⊆ out_subs o -> (forall b, b <> a -> b ∈ out_subs o' <-> b ∈ out_subs o) ->
  (forall b, b <> a -> frames' !! b = w_frames w !! b) -> default [] (frames' !! a) = fs' ->
  (forall c0, sub_ok (out_pending o) (out_ended o) (a ∈ out_subs o) (w_stream w) c0 (frames_of w a) s ->
     sub_ok (out_pending o) (out_ended o) (a ∈ out_subs o') (w_stream w) c0 fs' s') ->
  world_ok (mkWorld o' (w_stream w) (w_start w) frames').
Proof.
  intros o Hw Ha El Ep Ee Eh Hsub Hother Hfr Hfra Hs. subst o. split; simpl; rewrite ?El, ?Ep, ?Ee, ?Eh.
  - apply (wo_log _ Hw).
  - apply (wo_pending _ Hw).
  - intros b Hb. apply lookup_insert_is_Some'. right. apply (wo_subs _ Hw). by apply Hsub.
  - pose proof (wo_size _ Hw). apply subseteq_size in Hsub. lia.
  - intros b sb Hb. unfold frames_of. simpl. destruct (decide (b = a)) as [->|Hne].
    + rewrite lookup_insert_eq in Hb. injection Hb as <-. destruct (wo_sub _ Hw a s Ha) as (c0 & Hc0 & Hok).
      exists c0. split; [done|]. rewrite Hfra. by apply Hs.
    + rewrite lookup_insert_ne in Hb by done. destruct (wo_sub _ Hw b sb Hb) as (c0 & Hc0 & Hok).
      exists c0. split; [done|]. rewrite Hfr by done. eapply sub_ok_iff; [symmetry; by apply Hother|done].
  - intros b Hb. apply lookup_insert_None in Hb as [Hb Hne]. rewrite Hfr by done. by apply (wo_frames _ Hw).
Qed.

(** A call that leaves the stream, the owner's set and the subscriptions. *)
Lemma world_ok_same w o' :
  let o := w_out w in
  world_ok w -> out_log o' = out_log o -> out_pending o' = out_pending o ->
  (out_ended o = true -> out_ended o' = true) ->
  out_heap o' = out_heap o -> out_subs o' = out_subs o -> world_ok (same_history w o').
Proof.
  intros o [Hl Hp Hs Hz Hok Hf] El Ep Ee Eh Es. split; simpl; rewrite ?El, ?Ep, ?Eh, ?Es; try done.
  intros a s Ha. destruct (Hok a s Ha) as (c0 & Hc0 & [C1 C2 C3 C4 C5 C6 C7]). exists c0. split; [done|].
  split; try done. destruct C4 as (c & ph & D & Hle & Hph). exists c, ph. split_and!; [done|done|].
  intros E. destruct (Hph E). auto.
Qed.

Lemma world_ok_close w a : world_ok w -> world_ok (same_history w (Close (w_out w) a)).
Proof.
  intros Hw. unfold Close. destruct (out_heap (w_out w) !! a) as [s|] eqn:Ha.
  - destruct (sb_closed s); [by apply world_ok_same|].
    apply (world_ok_update w a s (set_closed s) _ (frames_of w a)); simpl; try done; [set_solver|set_solver|].
    intros c0 H. apply (sub_ok_iff _ _ False); [set_solver|by eapply sub_ok_closed].
  - by apply world_ok_same.
Qed.

Lemma world_ok_set_reading w a s b :
  world_ok w -> out_heap (w_out w) !! a = Some s ->
  world_ok (same_history w (with_subs (w_out w) (<[a := set_reading s b]> (out_heap (w_out w))) (out_subs (w_out w)))).
Proof.
  intros Hw Ha. apply (world_ok_update w a s (set_reading s b) _ (frames_of w a)); try done.
  intros c0 H. by apply sub_ok_reading.
Qed.

Lemma alter_Some {A} (f : A -> A) (m : gmap nat A) i x : m !! i = Some x -> alter f i m = <[i := f x]> m.
Proof.
  intros H. apply map_eq. intros j. destruct (decide (i = j)) as [<-|Hne].
  - by rewrite lookup_alter_eq, H, lookup_insert_eq.
  - by rewrite lookup_alter_ne, lookup_insert_ne.
Qed.

Lemma world_ok_release w a : world_ok w -> world_ok (same_history w (release (w_out w) a)).
Proof.
  intros Hw. unfold release. destruct (out_heap (w_out w) !! a) as [s|] eqn:Ha.
  - rewrite (alter_Some _ _ _ s) by done. by apply world_ok_set_reading.
  - rewrite alter_id by (intros ? E; rewrite Ha in E; done). by apply world_ok_same.
Qed.

Lemma received_locked w a o1 r :
  received w a (release o1 a, NextReturns r) =
    same_history (received w a (o1, NextReturns r)) (release o1 a).
Proof. by destruct r. Qed.

Lemma world_ok_next_locked w a :
  world_ok w -> world_ok (received w a (Next_locked (w_out w) a)).
Proof.
  intros Hw. unfold Next_locked. destruct (out_heap (w_out w) !! a) as [s|] eqn:Ha; [|by apply world_ok_same].
  destruct (sb_closed s) eqn:Ec; [by apply world_ok_same|].
  destruct (nextLocked (w_out w) s) as [[s' leaves] fr] eqn:En.
  assert (Hs : forall c0, sub_ok (out_pending (w_out w)) (out_ended (w_out w)) (a ∈ out_subs (w_out w))
      (w_stream w) c0 (frames_of w a) s ->
    sub_ok (out_pending (w_out w)) (out_ended (w_out w))
      (a ∈ (if leaves then out_subs (w_out w) ∖ {[a]} else out_subs (w_out w)))
      (w_stream w) c0 (frames_of w a ++ option_list fr) s').
  { intros c0 H. eapply sub_ok_iff; [|by eapply (sub_ok_next _ _ _ _ _ s s' leaves fr (wo_log _ Hw) H)].
    destruct leaves; set_solver. }
  destruct fr as [f|]; simpl in *.
  - apply (world_ok_update w a s s' _ (frames_of w a ++ [f])); try done.
    + simpl. destruct leaves; set_solver.
    + simpl. destruct leaves; set_solver.
    + intros b Hb. by rewrite lookup_insert_ne.
    + by rewrite lookup_insert_eq.
  - apply (world_ok_update w a s s' _ (frames_of w a)); try done.
    + simpl. destruct leaves; set_solver.
    + simpl. destruct leaves; set_solver.
    + intros c0 H. rewrite <-(app_nil_r (frames_of w a)). by apply Hs.
Qed.

Lemma world_ok_next_loop w a ctx :
  world_ok w -> world_ok (received w a (Next_loop (w_out w) a ctx)).
Proof.
  intros Hw. unfold Next_loop. destruct ctx as [e|].
  - apply (world_ok_release (same_history w (Close (w_out w) a)) a). by apply world_ok_close.
  - pose proof (world_ok_next_locked w a Hw) as H.
    destruct (Next_locked (w_out w) a) as [o1 [r|c]]; [|done].
    rewrite received_locked. apply (world_ok_release _ a) in H.
    assert (E : w_out (received w a (o1, NextReturns r)) = o1) by by destruct r. by rewrite E in H.
Qed.

Lemma world_ok_append w p : world_ok w -> world_ok (play w (AAppend p)).
Proof.
  intros Hw. simpl. unfold Output_Append. destruct (out_ended (w_out w)) eqn:Ee; [by apply world_ok_same|].
  destruct (Append (out_log (w_out w)) p) as [[log sp]|] eqn:Ea; [|by apply world_ok_same].
  destruct (Append_refines _ _ _ _ _ (wo_log _ Hw) Ea) as (Hr & _ & _).
  assert (Hh : bs_head (ByteLog_Snapshot log) = llen (w_stream w ++ p)) by apply Hr.
  rewrite Hh. set (head := llen (w_stream w ++ p)) in *. split; simpl.
  - done.
  - apply (wo_pending _ Hw).
  - intros a [Hs Ha]%elem_of_filter. destruct (wo_subs _ Hw a Ha) as [s Hs'].
    unfold detach_slow. rewrite map_lookup_imap, Hs'. by eexists.
  - pose proof (wo_size _ Hw). assert (Hsub : still_attached (out_heap (w_out w)) (out_pending (w_out w)) head
      (out_subs (w_out w)) ⊆ out_subs (w_out w)) by (unfold still_attached; set_solver).
    apply subseteq_size in Hsub. lia.
  - intros a s Ha. unfold detach_slow in Ha. rewrite map_lookup_imap in Ha.
    destruct (out_heap (w_out w) !! a) as [s0|] eqn:Hs0; [|done]. injection Ha as <-.
    destruct (wo_sub _ Hw a s0 Hs0) as (c0 & Hc0 & Hok). exists c0. split; [done|].
    apply (sub_ok_iff _ _ (bool_decide (a ∈ out_subs (w_out w)) = true /\
      slow (out_pending (w_out w)) head s0 = false)).
    + unfold still_attached. rewrite elem_of_filter, Hs0, bool_decide_eq_true. simpl.
      destruct (slow _ _ s0); naive_solver.
    + apply sub_ok_append; [done|]. eapply sub_ok_iff; [|exact Hok]. by rewrite bool_decide_eq_true.
  - intros a Ha. apply (wo_frames _ Hw). unfold detach_slow in Ha. rewrite map_lookup_imap in Ha.
    by destruct (out_heap (w_out w) !! a).
Qed.

Lemma world_ok_subscribe w sel cursor :
  is_u64 cursor -> world_ok w -> world_ok (play w (ASubscribe sel cursor)).
Proof.
  intros Hc Hw. simpl. unfold Subscribe. destruct (negb _); [by apply world_ok_same|].
  destruct (_ <? cursor) eqn:Eh; [by apply world_ok_same|].
  destruct (_ <=? _) eqn:El; [by apply world_ok_same|]. breflect.
  set (a := fresh _). assert (Hf : out_heap (w_out w) !! a = None)
    by (apply not_elem_of_dom, is_fresh).
  pose proof (wo_log _ Hw) as Hlog. pose proof (rf_head _ _ Hlog) as [Hh Hm].
  unfold ByteLog_Snapshot in Eh. simpl in Eh. rewrite Hh in *. split; simpl; try by apply Hw.
  - intros b Hb. apply lookup_insert_is_Some'. destruct (decide (b = a)) as [->|Hne]; [by left|].
    right. apply (wo_subs _ Hw). set_solver.
  - rewrite size_union_alt, size_singleton. pose proof (subseteq_size (out_subs (w_out w) ∖ {[a]}) (out_subs (w_out w)) ltac:(set_solver)). lia.
  - intros b s Hb. destruct (decide (b = a)) as [->|Hne].
    + rewrite lookup_insert_eq in Hb. injection Hb as <-. exists cursor. rewrite lookup_insert_eq. split; [done|].
      unfold frames_of. simpl. rewrite (wo_frames _ Hw a Hf). simpl.
      apply (sub_ok_iff _ _ True); [set_solver|].
      rewrite Hh. apply sub_ok_new; [apply (wo_pending _ Hw)|unfold is_u64 in Hc; lia|done].
    + rewrite lookup_insert_ne in Hb by done. rewrite lookup_insert_ne by done.
      destruct (wo_sub _ Hw b s Hb) as (c0 & Hc0 & Hok). exists c0. split; [done|].
      eapply sub_ok_iff; [|exact Hok]. set_solver.
  - intros b Hb. apply lookup_insert_None in Hb as [Hb _]. by apply (wo_frames _ Hw).
Qed.

Lemma world_ok_play w x : action_ok x -> world_ok w -> world_ok (play w x).
Proof.
  intros Hx Hw. destruct x as [p|reason unknown|sel q r c|sel cursor|a|a ctx|a ctx].
  - by apply world_ok_append.
  - simpl. unfold Finish. destruct (out_ended (w_out w)); by apply world_ok_same.
  - simpl. unfold AcknowledgeResize. split_goal; by apply world_ok_same.
  - by apply world_ok_subscribe.
  - by apply world_ok_close.
  - simpl. unfold Next, acquire. destruct (out_heap (w_out w) !! a) as [s|] eqn:Ha; [|by apply world_ok_same].
    destruct (sb_reading s); [by apply world_ok_same|].
    exact (world_ok_next_loop _ a ctx (world_ok_set_reading w a s true Hw Ha)).
  - simpl. destruct (in_next _ _); [by apply world_ok_next_loop|done].
Qed.

Lemma world_ok_run xs w : Forall action_ok xs -> world_ok w -> world_ok (play_all w xs).
Proof.
  intros Hxs. revert w. induction Hxs as [|x xs Hx _ IH]; intros w Hw; simpl; [done|].
  by apply IH, world_ok_play.
Qed.

(** ** Wakeups

    What a reader that found nothing to return depends on. *)

Record same_view (a : nat) (o o' : Output) : Prop := {
  sv_log : out_log o' = out_log o;
  sv_ended : out_ended o' = out_ended o;
  sv_unknown : out_unknown o' = out_unknown o;
  sv_sub : out_heap o' !! a = out_heap o !! a }.

(** A call moves the channel on, or leaves what the reader of [a] waits for. *)
Definition quiet (a : nat) (o o' : Output) : Prop :=
  out_changed o < out_changed o' \/ out_changed o' = out_changed o /\ same_view a o o'.

Lemma quiet_refl a o : quiet a o o.
Proof. by right. Qed.
Lemma quiet_trans a o o1 o2 : quiet a o o1 -> quiet a o1 o2 -> quiet a o o2.
Proof.
  intros [H1|[E1 [A1 A2 A3 A4]]] [H2|[E2 [B1 B2 B3 B4]]]; [left; lia..|].
  right. split; [congruence|]. split; congruence.
Qed.

Lemma quiet_other a b o heap subs :
  b <> a -> (forall i, i <> b -> heap !! i = out_heap o !! i) -> quiet a o (with_subs o heap subs).
Proof. intros Hne H. right. split; [done|]. split; simpl; try done. apply H. done. Qed.

Lemma quiet_signal a o o' : out_changed o' = out_changed o -> quiet a o (signalLocked o').
Proof. intros H. left. simpl. lia. Qed.

Lemma quiet_close a b o : quiet a o (Close o b).
Proof.
  unfold Close. destruct (out_heap o !! b) as [s|]; [|apply quiet_refl].
  destruct (sb_closed s); [apply quiet_refl|by apply quiet_signal].
Qed.
Lemma quiet_release a b o : b <> a -> quiet a o (release o b).
Proof. intros H. apply (quiet_other a b); [done|]. intros i Hi. by rewrite lookup_alter_ne. Qed.

Lemma quiet_next_loop a b o ctx : b <> a -> quiet a o (fst (Next_loop o b ctx)).
Proof.
  intros Hne. unfold Next_loop. destruct ctx as [e|].
  - eapply quiet_trans; [apply quiet_close|by apply quiet_release].
  - assert (H : quiet a o (fst (Next_locked o b))).
    { unfold Next_locked. destruct (out_heap o !! b) as [s|]; [|apply quiet_refl].
      destruct (sb_closed s); [apply quiet_refl|]. destruct (nextLocked o s) as [[s' lv] [f|]];
        (apply (quiet_other a b); [done|intros i Hi; by rewrite lookup_insert_ne]). }
    destruct (Next_locked o b) as [o1 [r|c]]; [|done].
    eapply quiet_trans; [exact H|by apply quiet_release].
Qed.

(** The reader of [a] itself is not woken up. *)
Definition not_wake (a : nat) (x : Action) : Prop := match x with AWake b _ => b <> a | _ => True end.

Lemma received_out w a r : w_out (received w a r) = fst r.
Proof. by destruct r as [? [[]|]]. Qed.

Lemma quiet_play w a x :
  not_wake a x -> in_next (w_out w) a = true -> quiet a (w_out w) (w_out (play w x)).
Proof.
  intros Hx Hin. destruct x as [p|reason unknown|sel q r c|sel cursor|b|b ctx|b ctx]; simpl in *.
  - unfold Output_Append. destruct (out_ended (w_out w)); [apply quiet_refl|].
    destruct (Append _ p) as [[log sp]|]; [by apply quiet_signal|apply quiet_refl].
  - unfold Finish. destruct (out_ended (w_out w)); [apply quiet_refl|by apply quiet_signal].
  - unfold AcknowledgeResize. split_goal; simpl; first [apply quiet_refl|by apply quiet_signal].
  - unfold Subscribe. destruct (negb _); [apply quiet_refl|]. destruct (_ <? cursor); [apply quiet_refl|].
    destruct (_ <=? _); [apply quiet_refl|]. simpl. set (b := fresh _).
    assert (Hf : out_heap (w_out w) !! b = None) by (apply not_elem_of_dom, is_fresh).
    apply (quiet_other a b); [|intros i Hi; by rewrite lookup_insert_ne].
    intros ->. unfold in_next in Hin. by rewrite Hf in Hin.
  - apply quiet_close.
  - rewrite received_out. unfold Next, acquire. destruct (out_heap (w_out w) !! b) as [s|] eqn:Hb; [|apply quiet_refl].
    destruct (sb_reading s) eqn:Er; [apply quiet_refl|].
    assert (Hne : b <> a) by (intros ->; unfold in_next in Hin; rewrite Hb in Hin; congruence).
    eapply quiet_trans; [|by apply quiet_next_loop].
    apply (quiet_other a b); [done|]. intros i Hi. by rewrite lookup_insert_ne.
  - destruct (in_next (w_out w) b); [|apply quiet_refl]. rewrite received_out. by apply quiet_next_loop.
Qed.

Lemma quiet_in_next a o o' : same_view a o o' -> in_next o' a = in_next o a.
Proof. intros []. unfold in_next. by rewrite sv_sub0. Qed.

(** Once the channel moved on it never comes back. *)
Lemma changed_play w x : out_changed (w_out w) <= out_changed (w_out (play w x)).
Proof.
  assert (Hnl : forall o b ctx, out_changed o <= out_changed (fst (Next_loop o b ctx))).
  { intros o b ctx. destruct (quiet_next_loop (S b) b o ctx ltac:(lia)) as [H|[H _]]; lia. }
  destruct x as [p|reason unknown|sel q r c|sel cursor|b|b ctx|b ctx]; simpl.
  - unfold Output_Append. split_goal; simpl; lia.
  - unfold Finish. destruct (out_ended _); simpl; lia.
  - unfold AcknowledgeResize. split_goal; simpl; lia.
  - unfold Subscribe. split_goal; simpl; lia.
  - destruct (quiet_close b b (w_out w)) as [H|[H _]]; lia.
  - rewrite received_out. unfold Next, acquire. destruct (out_heap (w_out w) !! b) as [s|]; [|simpl; lia].
    destruct (sb_reading s); [simpl; lia|]. etransitivity; [|apply Hnl]. done.
  - destruct (in_next (w_out w) b); [|lia]. rewrite received_out. apply Hnl.
Qed.

Lemma quiet_run a xs w :
  Forall (not_wake a) xs -> in_next (w_out w) a = true ->
  quiet a (w_out w) (w_out (play_all w xs)).
Proof.
  intros Hxs. revert w. induction Hxs as [|x xs Hx _ IH]; intros w Hin; simpl; [apply quiet_refl|].
  destruct (quiet_play w a x Hx Hin) as [Hlt|[E V]].
  - left. assert (Hm : forall w', out_changed (w_out w') <= out_changed (w_out (play_all w' xs))).
    { clear. induction xs as [|x xs IH]; intros w'; simpl; [lia|]. etransitivity; [apply changed_play|apply IH]. }
    specialize (Hm (play w x)). lia.
  - eapply quiet_trans; [by right|]. apply IH. by rewrite (quiet_in_next _ _ _ V).
Qed.

(** A waiting reader: its subscription is held and its turn gave nothing. *)
Lemma Next_waits o a o1 c :
  Next o a None = (o1, NextWaits c) ->
  c = out_changed o1 /\ in_next o1 a = true /\ snd (Next_locked o1 a) = NextWaits c.
Proof.
  unfold Next, acquire. destruct (out_heap o !! a) as [s|] eqn:Ha; [|done].
  destruct (sb_reading s); [done|]. unfold Next_loop, Next_locked at 1. simpl.
  rewrite lookup_insert_eq. simpl. destruct (sb_closed s) eqn:Ec; [done|].
  set (o0 := with_subs o _ _). destruct (nextLocked o0 (set_reading s true)) as [[s' lv] [f|]] eqn:En; [done|].
  intros H. injection H as <- <-. simpl.
  assert (Es : s' = set_reading s true /\ lv = false).
  { unfold nextLocked in En. split_ifs; done. }
  destruct Es as [-> ->]. split; [done|]. unfold in_next, Next_locked. simpl. rewrite lookup_insert_eq. simpl.
  rewrite Ec. split; [done|].
  match goal with |- context [nextLocked ?p _] => replace (nextLocked p (set_reading s true)) with
    (set_reading s true, false, @None OutputFrame) by (symmetry; exact En) end. done.
Qed.

Lemma Next_locked_view o o' a c :
  same_view a o o' -> out_changed o' = out_changed o ->
  snd (Next_locked o a) = NextWaits c -> snd (Next_locked o' a) = NextWaits c.
Proof.
  intros [El Ee Eu Es] Ec. unfold Next_locked. rewrite Es. destruct (out_heap o !! a) as [s|]; [|done].
  destruct (sb_closed s); [done|]. unfold nextLocked. rewrite El, Ee, Eu, Ec.
  split_goal; simpl; done.
Qed.

(** ** Properties *)

(** (C7) A reader of a launch's terminal output is told the truth about every
    byte.  In any run of appends, resizes, subscriptions, cancellations and
    reads from a new capture, the frames that a subscription received account
    for the accepted stream from its starting cursor on: each data frame
    carries exactly the bytes of the stream at its offsets and starts where
    the previous one ended, bytes that it did not get are named by a gap frame
    with their exact range, nothing follows the gap of a detached slow reader,
    and the end frame comes only when the whole stream is accounted for. *)
Theorem output_subscriber_exact sel limits o xs a s :
  NewOutput sel limits = Ok o -> Forall action_ok xs ->
  let w := play_all (world_of o) xs in
  out_heap (w_out w) !! a = Some s ->
  exists c0 c ph, w_start w !! a = Some c0 /\ delivers (w_stream w) c0 (frames_of w a) c ph /\
    c <= llen (w_stream w) /\ (ph = Ended -> out_ended (w_out w) = true /\ c = llen (w_stream w)) /\
    (sb_closed s = false -> delivers (w_stream w) c0 (frames_of w a) (sb_cursor s) Reading).
Proof.
  intros Hn Hxs w Ha. assert (Hw : world_ok w) by (apply world_ok_run, (NewOutput_ok sel limits); done).
  destruct (wo_sub _ Hw a s Ha) as (c0 & Hc0 & Hok). destruct (so_done _ _ _ _ _ _ _ Hok) as (c & ph & D & Hle & He).
  exists c0, c, ph. split_and!; try done. apply (so_open _ _ _ _ _ _ _ Hok).
Qed.

(** The wire cost of [n] unread bytes: base64 in chunks with their envelopes. *)
Definition wire_cost (n : Z) : Z :=
  if n =? 0 then 0 else (n + 2) / 3 * 4 + 2048 * ((n + MaxOutputChunk - 1) / MaxOutputChunk) + 2048.

(** *** The configured limits *)

(** The two limits of a capture: the ring's and the readers'. *)
Definition budgets (o : Output) : Z * Z := (bl_limit (out_log o), out_pending o).

Lemma budgets_next_locked o a : budgets (fst (Next_locked o a)) = budgets o.
Proof. unfold Next_locked. by split_goal. Qed.
Lemma budgets_close o a : budgets (Close o a) = budgets o.
Proof. unfold Close. by split_goal. Qed.
Lemma budgets_loop o a ctx : budgets (fst (Next_loop o a ctx)) = budgets o.
Proof.
  unfold Next_loop. destruct ctx; [apply budgets_close|].
  pose proof (budgets_next_locked o a) as H. by destruct (Next_locked o a) as [o' []].
Qed.
Lemma budgets_next o a ctx : budgets (fst (Next o a ctx)) = budgets o.
Proof.
  unfold Next. assert (Ha : budgets (fst (acquire o a)) = budgets o) by (unfold acquire; by split_goal).
  destruct (acquire o a) as [o1 []]; [|done]. by rewrite budgets_loop.
Qed.
Lemma budgets_append o p : budgets (fst (Output_Append o p)) = budgets o.
Proof.
  unfold Output_Append. destruct (out_ended o); [done|]. destruct (Append (out_log o) p) as [[log sp]|] eqn:E; [|done].
  unfold Append, Advance in E. destruct (_ <? llen p); [done|]. destruct (_ <? llen p); [done|]. by injection E as <- _.
Qed.
Lemma budgets_received w a r : budgets (w_out (received w a r)) = budgets (fst r).
Proof. by destruct r as [o [[]|]]. Qed.
Lemma budgets_play w x : budgets (w_out (play w x)) = budgets (w_out w).
Proof.
  destruct x as [p|reason unknown|sel q r c|sel cursor|a|a ctx|a ctx]; cbn [play].
  - pose proof (budgets_append (w_out w) p) as H. by destruct (Output_Append (w_out w) p) as [o' []].
  - cbn. unfold Finish. by destruct (out_ended _).
  - cbn. unfold AcknowledgeResize. by split_goal.
  - unfold Subscribe. by split_goal.
  - apply budgets_close.
  - by rewrite budgets_received, budgets_next.
  - destruct (in_next _ _); [|done]. by rewrite budgets_received, budgets_loop.
Qed.
Lemma budgets_run w xs : budgets (w_out (play_all w xs)) = budgets (w_out w).
Proof. revert w. induction xs as [|x xs IH]; intros w; [done|]. cbn [play_all]. by rewrite IH, budgets_play. Qed.

(** What a configuration asks for; zero asks for the maximum. *)
Definition configured (value maximum : Z) : Z := if value =? 0 then maximum else value.
Lemma NewOutput_budgets sel limits o : NewOutput sel limits = Ok o ->
  budgets o = (configured (lim_retained limits) MaxOutputBytes, configured (lim_pending limits) MaxOutputPending).
Proof.
  unfold NewOutput. intros H. destruct (_ || _); [done|]. destruct (negb _); [done|].
  destruct (wrap_err _ (ProfileIDFrom _)); [|done]. cbv zeta in H. destruct (_ || _) eqn:Ep; [done|].
  unfold wrap_err in H. destruct (NewByteLog _) as [log|] eqn:El; [|done]. injection H as <-.
  apply NewByteLog_refines in El as [_ El]. unfold budgets. cbn. by rewrite El.
Qed.

(** (C37) Readers cannot make a capture grow.  In every reachable state at most
    four subscriptions are attached, the ring holds no more bytes than the
    capture was configured to retain, and the bytes that an attached reader
    has still to read cost no more on the wire than its configured pending
    budget, computed without overflow.  A limit of zero stands for the
    maximum, and no limit exceeds it. *)
Theorem output_bounded sel limits o xs :
  NewOutput sel limits = Ok o -> Forall action_ok xs ->
  let w := play_all (world_of o) xs in
  let retained := configured (lim_retained limits) MaxOutputBytes in
  let pending := configured (lim_pending limits) MaxOutputPending in
  Z.of_nat (size (out_subs (w_out w))) <= MaxOutputSubscribers /\
  llen (bl_data (out_log (w_out w))) <= retained <= MaxOutputBytes /\
  pending <= MaxOutputPending /\
  (forall a, a ∈ out_subs (w_out w) -> exists s, out_heap (w_out w) !! a = Some s /\ sb_closed s = false /\
     let unread := llen (w_stream w) - Z.max (sb_cursor s) (sb_attachHead s) in
     0 <= unread <= MaxOutputPending /\ wire_cost unread <= pending).
Proof.
  intros Hn Hxs w retained pending. assert (Hw : world_ok w) by (apply world_ok_run, (NewOutput_ok sel limits); done).
  pose proof (wo_log _ Hw) as Hr. pose proof (rf_limit _ _ Hr). pose proof (rf_size _ _ Hr).
  pose proof (rf_head _ _ Hr) as [_ Hmax].
  pose proof (budgets_run (world_of o) xs) as Hb. fold w in Hb. cbn in Hb. rewrite (NewOutput_budgets _ _ _ Hn) in Hb.
  injection Hb as Hret Hpend. fold retained in Hret. fold pending in Hpend. rewrite <-Hret, <-Hpend.
  split_and!; [apply (wo_size _ Hw)|lia|lia|apply (wo_pending _ Hw)|].
  intros a Ha. destruct (wo_subs _ Hw a Ha) as [s Hs]. exists s. split; [done|].
  destruct (wo_sub _ Hw a s Hs) as (c0 & _ & [C1 C2 _ _ _ C6 _]). destruct (C6 Ha) as (Hcl & _ & Hslow).
  split; [done|]. unfold slow in Hslow. rewrite live_bytes_exact in Hslow by lia.
  set (n := llen (w_stream w) - _) in *. apply orb_false_iff in Hslow as [H1 H2]. breflect.
  assert (Hn0 : 0 <= n) by lia. split; [done|]. unfold wire_cost. destruct (n =? 0) eqn:E; breflect.
  - pose proof (wo_pending _ Hw). lia.
  - by rewrite <-pendingCost_exact by lia.
Qed.

(** No wakeup is lost.  A reader that found nothing to return waits on
    a channel; as long as that channel is not closed, whatever the producer,
    the owner and the other readers did in between, there is still nothing
    for it to return.  So each frame, and each end of the stream, finds its
    waiting reader awake. *)
Theorem output_no_lost_wakeup w a o1 c xs :
  Next (w_out w) a None = (o1, NextWaits c) -> Forall (not_wake a) xs ->
  let w' := play_all (same_history w o1) xs in
  c < out_changed (w_out w') \/ snd (Next_locked (w_out w') a) = NextWaits c.
Proof.
  intros Hn Hxs w'. destruct (Next_waits _ _ _ _ Hn) as (-> & Hin & Hw).
  destruct (quiet_run a xs (same_history w o1) Hxs Hin) as [Hlt|[E V]]; [by left|right].
  by apply (Next_locked_view o1).
Qed.

(** *** Witnesses *)

Definition ex_selection : OutputSelection :=
  mkSelection ex_id ("w_" ++ "0123456789abcdef0123456789abcdef0123456789abcdef0123456789abcdef")%string "default".
Definition ex_output : Output :=
  mkOutput ex_selection (mkByteLog 4 [] 0 0) 5000 0 ∅ ∅ false false "" resize_zero false.
Definition ex_actions : list Action :=
  [AAppend (explode "abc"); ASubscribe ex_selection 0; ANext 0 None; AAppend (explode "def");
   ANext 0 None; ANext 0 None; ANext 0 None].

Lemma output_subscriber_exact_witness :
  NewOutput ex_selection (mkOutputLimits 4 5000) = Ok ex_output /\
  let w := play_all (world_of ex_output) ex_actions in
  w_stream w = explode "abcdef" /\
  map (fun f => (fr_kind f, fr_data f)) (frames_of w 0) =
    [("snapshot", []); ("gap", []); ("data", explode "cdef")] /\
  exists s c0 c ph, out_heap (w_out w) !! 0%nat = Some s /\ w_start w !! 0%nat = Some c0 /\
    delivers (w_stream w) c0 (frames_of w 0) c ph.
Proof.
  assert (Hn : NewOutput ex_selection (mkOutputLimits 4 5000) = Ok ex_output) by vm_refl.
  split; [exact Hn|]. intros w. split; [vm_refl|]. split; [vm_refl|].
  assert (Hs : out_heap (w_out w) !! 0%nat = Some (mkSub 6 3 true false false None true)) by vm_refl.
  destruct (output_subscriber_exact ex_selection (mkOutputLimits 4 5000) ex_output ex_actions 0 _ Hn
    ltac:(repeat constructor; done) Hs) as (c0 & c & ph & H1 & H2 & _).
  exists (mkSub 6 3 true false false None true), c0, c, ph. exact (conj Hs (conj H1 H2)).
Defined.

Lemma output_bounded_witness :
  NewOutput ex_selection (mkOutputLimits 4 5000) = Ok ex_output /\
  let w := play_all (world_of ex_output) ex_actions in
  bool_decide (0%nat ∈ out_subs (w_out w)) = true /\ llen (bl_data (out_log (w_out w))) <= 4.
Proof.
  assert (Hn : NewOutput ex_selection (mkOutputLimits 4 5000) = Ok ex_output) by vm_refl.
  split; [exact Hn|]. intros w. split; [vm_refl|].
  destruct (output_bounded ex_selection (mkOutputLimits 4 5000) ex_output ex_actions Hn
    ltac:(repeat constructor; done)) as (_ & [H _] & _). exact H.
Defined.

Lemma output_no_lost_wakeup_witness :
  let w := play_all (world_of ex_output) [ASubscribe ex_selection 0; ANext 0 None] in
  exists o1, Next (w_out w) 0 None = (o1, NextWaits 0) /\
  let w' := play_all (same_history w o1) [AResize ex_selection 0 24 80] in
  0 < out_changed (w_out w') \/ snd (Next_locked (w_out w') 0) = NextWaits 0.
Proof.
  intros w. exists (fst (Next (w_out w) 0 None)).
  assert (H : Next (w_out w) 0 None = (fst (Next (w_out w) 0 None), NextWaits 0)) by vm_refl.
  split; [exact H|]. apply (output_no_lost_wakeup w 0 _ 0 [AResize ex_selection 0 24 80] H).
  repeat constructor.
Defined.
