(* ===== verification/Lifecycle.v ===== *)
(** * Shutdown confirmation, causal freshness and update deferral

    [src/domain/runtime/lifecycle.go].  Mutating methods return the new state
    beside the error, because some of them change the state and fail. *)

From S2P Require Import Prelude GoStrings GoTime RuntimeValues Launch Control.

(** ** Shutdown *)

Definition MaxShutdownPreviewRuns : Z := MaxLaunchRequests.

Record ShutdownBindingState := mkShutdown {
  sd_epoch : string; sd_preview : string; sd_revision : Z; sd_roster : string;
  sd_total : Z; sd_launches : Z; sd_controls : Z; sd_reconciliations : Z }.
#[global] Instance ShutdownBindingState_eq_dec : EqDecision ShutdownBindingState.
Proof. solve_decision. Defined.

Definition ShutdownBindingFrom (s : ShutdownBindingState) : result ShutdownBindingState :=
  if negb (validLaunchID (sd_epoch s)) || negb (validLaunchID (sd_preview s))
     || negb (canonicalHex (sd_roster s) 64)
     || (sd_total s <? 0) || (MaxShutdownPreviewRuns <? sd_total s)
     || (sd_launches s <? 0) || (MaxActiveRuns <? sd_launches s)
     || (sd_controls s <? 0) || (MaxControlCoordinators <? sd_controls s)
     || (sd_reconciliations s <? 0) || (MaxActiveRuns <? sd_reconciliations s)
  then Err ErrInvalid else Ok s.

Definition Confirm (b current : ShutdownBindingState) (workLossAcknowledged : bool) : option error :=
  if negb workLossAcknowledged then Some ErrInvalid
  else match ShutdownBindingFrom b with
       | Err e => Some e
       | Ok _ =>
           match ShutdownBindingFrom current with
           | Err e => Some e
           | Ok _ =>
               if negb (bool_decide (b = current)) || negb (sd_launches current =? 0)
                  || negb (sd_controls current =? 0) || negb (sd_reconciliations current =? 0)
               then Some ErrChanged else None
           end
       end.

(** No request is in flight. *)
Definition quiescent (s : ShutdownBindingState) : Prop :=
  sd_launches s = 0 /\ sd_controls s = 0 /\ sd_reconciliations s = 0.

(** A shutdown is confirmed exactly when the work loss is acknowledged
    and the full roster is well formed, quiescent and equal, field for field,
    to the one that was previewed. *)
Theorem shutdown_confirm_exact b current ack :
  Confirm b current ack = None <->
  ack = true /\ ShutdownBindingFrom b = Ok b /\ quiescent b /\ current = b.
Proof.
  unfold Confirm, quiescent. split.
  - intros H. destruct ack; [|done]. destruct (ShutdownBindingFrom b) eqn:Eb; [|done].
    destruct (ShutdownBindingFrom current) eqn:Ec; [|done]. simpl in H.
    destruct (_ || _) eqn:E in H; [done|]. breflect. subst current.
    unfold ShutdownBindingFrom in Eb. split_and!; auto. by destruct (_ || _) in Eb |- *.
  - intros (-> & Hb & (H1 & H2 & H3) & ->). simpl. rewrite Hb, H1, H2, H3.
    by rewrite bool_decide_eq_true_2.
Qed.

(** ** Freshness *)

Record FreshnessBinding := mkFreshnessBinding {
  fb_identity : LaunchIdentity; fb_worktree : string; fb_profile : string }.
#[global] Instance FreshnessBinding_eq_dec : EqDecision FreshnessBinding.
Proof. solve_decision. Defined.

Definition FreshnessBinding_valid (b : FreshnessBinding) : bool :=
  if negb (LaunchIdentity_Valid (fb_identity b)) || negb (HasPrefix (fb_worktree b) "w_")
     || negb (canonicalHex (TrimPrefix (fb_worktree b) "w_") 64)
  then false else is_ok (ProfileIDFrom (fb_profile b)).

Definition FreshnessSleepWake : string := "sleep_wake".
Definition FreshnessCommunicationGap : string := "communication_gap".
Definition FreshnessRestart : string := "restart".
Definition FreshnessProcessExit : string := "process_exit".

Definition reason_valid (r : string) : bool :=
  slices_contains [FreshnessSleepWake; FreshnessCommunicationGap; FreshnessRestart; FreshnessProcessExit] r.
Definition reason_terminal (r : string) : bool :=
  (r =?s FreshnessRestart) || (r =?s FreshnessProcessExit).

Record Freshness := mkFreshness {
  fr_binding : FreshnessBinding; fr_revision : Z; fr_known : bool; fr_reason : string;
  fr_exhausted : bool }.

Definition FreshnessFrom (s : Freshness) : result Freshness :=
  if negb (FreshnessBinding_valid (fr_binding s)) || (fr_revision s =? 0)
     || (fr_reason s <>?s "") && negb (reason_valid (fr_reason s))
     || fr_known s && (fr_exhausted s || reason_terminal (fr_reason s))
     || fr_exhausted s && negb (fr_revision s =? MaxUint64)
  then Err ErrInvalid else Ok s.

Definition NewFreshness (binding : FreshnessBinding) : result Freshness :=
  FreshnessFrom (mkFreshness binding 1 false "" false).

Definition Invalidate (f : Freshness) (reason : string) : Freshness * option error :=
  if negb (reason_valid reason) then (f, Some ErrInvalid)
  else
    let r := if reason_terminal (fr_reason f) then fr_reason f else reason in
    if fr_revision f =? MaxUint64 then
      (mkFreshness (fr_binding f) (fr_revision f) false r true, Some ErrLimit)
    else (mkFreshness (fr_binding f) (u64 (fr_revision f + 1)) false r (fr_exhausted f), None).

Record CausalFreshnessEvidence := mkEvidence {
  ev_binding : FreshnessBinding; ev_revision : Z; ev_session : string; ev_event : string }.

Definition Reconcile (f : Freshness) (e : CausalFreshnessEvidence) : Freshness * option error :=
  if fr_exhausted f || reason_terminal (fr_reason f)
     || negb (bool_decide (ev_binding e = fr_binding f)) || negb (ev_revision e =? fr_revision f)
  then (f, Some ErrChanged)
  else if negb (printableLaunchValue (ev_session e) 256) || negb (printableLaunchValue (ev_event e) 256)
  then (f, Some ErrInvalid)
  else (mkFreshness (fr_binding f) (fr_revision f) true (fr_reason f) (fr_exhausted f), None).

(** *** The state machine *)

Inductive freshness_step : Freshness -> Freshness -> Prop :=
| step_invalidate f reason : freshness_step f (fst (Invalidate f reason))
| step_reconcile f e : freshness_step f (fst (Reconcile f e)).

(** The invariant [FreshnessFrom] checks, with the range of the revision. *)
Record fresh_wf (f : Freshness) : Prop := {
  fw_binding : FreshnessBinding_valid (fr_binding f) = true;
  fw_revision : 1 <= fr_revision f <= MaxUint64;
  fw_reason : fr_reason f = "" \/ reason_valid (fr_reason f) = true;
  fw_known : fr_known f = true -> fr_exhausted f = false /\ reason_terminal (fr_reason f) = false;
  fw_exhausted : fr_exhausted f = true -> fr_revision f = MaxUint64 }.

(** Evidence stamped at revision [n] is permanently refused by [f]. *)
Definition refuses (f : Freshness) (n : Z) : Prop :=
  n < fr_revision f \/ fr_exhausted f = true \/ reason_terminal (fr_reason f) = true.

Definition fresh_follows (f g : Freshness) : Prop :=
  fr_binding g = fr_binding f /\ fr_revision f <= fr_revision g /\
  (fr_exhausted f = true -> fr_exhausted g = true) /\
  (reason_terminal (fr_reason f) = true -> fr_reason g = fr_reason f).

Lemma fresh_wf_checked f : fresh_wf f -> FreshnessFrom f = Ok f.
Proof.
  intros [Hb Hr Hre Hk He]. unfold FreshnessFrom. rewrite Hb. simpl.
  replace (fr_revision f =? 0) with false by (symmetry; apply Z.eqb_neq; lia). simpl.
  destruct (fr_known f).
  - destruct Hk as [-> ->]; [done|]. simpl. destruct Hre as [->| ->]; [done|]. by rewrite andb_false_r.
  - simpl. destruct (fr_exhausted f); simpl.
    + rewrite He by done. destruct Hre as [->| ->]; [done|]. by rewrite andb_false_r.
    + destruct Hre as [->| ->]; [done|]. by rewrite andb_false_r.
Qed.

Lemma NewFreshness_wf b f : NewFreshness b = Ok f -> fresh_wf f.
Proof.
  unfold NewFreshness, FreshnessFrom. intros H. ok_inv H. breflect.
  split; simpl in *; unfold MaxUint64; auto; try lia; done.
Qed.

Lemma fresh_step_wf f g : fresh_wf f -> freshness_step f g -> fresh_wf g.
Proof.
  intros [Hb Hr Hre Hk He] Hs. destruct Hs as [f r|f e].
  - unfold Invalidate. destruct (reason_valid r) eqn:Er; simpl; [|by split].
    assert (Hreason : (if reason_terminal (fr_reason f) then fr_reason f else r) = "" \/
                      reason_valid (if reason_terminal (fr_reason f) then fr_reason f else r) = true)
      by (destruct (reason_terminal _); auto).
    destruct (fr_revision f =? MaxUint64) eqn:Em; breflect; simpl; split; simpl; auto; try done;
      try (rewrite u64_small by (unfold is_u64; lia)); intros; try (specialize (He H)); lia.
  - unfold Reconcile. split_goal; [by split| |]; breflect; split; simpl; auto; done.
Qed.

Lemma fresh_follows_refl f : fresh_follows f f.
Proof. by unfold fresh_follows. Qed.
Lemma fresh_follows_trans f g h : fresh_follows f g -> fresh_follows g h -> fresh_follows f h.
Proof.
  intros (A1 & A2 & A3 & A4) (B1 & B2 & B3 & B4). split_and!; [congruence|lia|auto|].
  intros H. rewrite B4; [auto|]. by rewrite A4.
Qed.

Lemma fresh_step_follows f g : fresh_wf f -> freshness_step f g -> fresh_follows f g.
Proof.
  intros [Hb Hr Hre Hk He] Hs. destruct Hs as [f r|f e]; unfold Invalidate, Reconcile; split_goal;
    breflect; try apply fresh_follows_refl; unfold fresh_follows; simpl; split_and!; auto; try lia;
    try done; try congruence; rewrite u64_small by (unfold is_u64; lia); lia.
Qed.

Lemma fresh_star f g :
  fresh_wf f -> star freshness_step f g -> fresh_wf g /\ fresh_follows f g.
Proof.
  intros Hf Hs. split.
  - eapply (star_invariant freshness_step fresh_wf); eauto using fresh_step_wf.
  - eapply (star_relation freshness_step fresh_wf fresh_follows);
      eauto using fresh_step_wf, fresh_step_follows, fresh_follows_refl, fresh_follows_trans.
Qed.

Lemma invalidate_refuses f r n :
  fresh_wf f -> reason_valid r = true -> n <= fr_revision f -> refuses (fst (Invalidate f r)) n.
Proof.
  intros Hf Hr Hn. pose proof (fw_revision _ Hf). unfold Invalidate, refuses. rewrite Hr. simpl.
  destruct (_ =? _) eqn:E; breflect; simpl; [auto|].
  left. rewrite u64_small by (unfold is_u64; lia). lia.
Qed.

Lemma refuses_follows f g n : fresh_follows f g -> refuses f n -> refuses g n.
Proof.
  intros (_ & H1 & H2 & H3) [Hn|[He|Ht]]; unfold refuses; [left; lia|auto|].
  right; right. by rewrite H3.
Qed.

Lemma refuses_reconcile f e : refuses f (ev_revision e) -> Reconcile f e = (f, Some ErrChanged).
Proof.
  intros H. unfold Reconcile. replace (_ || _) with true; [done|]. symmetry.
  destruct H as [H|[H|H]]; [|by rewrite H|by rewrite H, orb_true_r].
  replace (ev_revision e =? fr_revision f) with false by (symmetry; apply Z.eqb_neq; lia).
  apply orb_true_r.
Qed.

(** Old evidence never resurrects knowledge.  On any state reached from
    a new freshness, a valid invalidation clears the interaction knowledge,
    and from then on, whatever else happens, evidence stamped at or before
    that moment is refused with no effect; even when the 64-bit revision is
    used up.  Every reachable state passes the checks of [FreshnessFrom]. *)
Lemma freshness_stale_evidence_refused b f0 f r g e :
  NewFreshness b = Ok f0 -> star freshness_step f0 f -> reason_valid r = true ->
  ev_revision e <= fr_revision f -> star freshness_step (fst (Invalidate f r)) g ->
  fr_known (fst (Invalidate f r)) = false /\
  Reconcile g e = (g, Some ErrChanged) /\ FreshnessFrom g = Ok g.
Proof.
  intros H0%NewFreshness_wf Hf Hr He Hg. destruct (fresh_star _ _ H0 Hf) as [Hwf _].
  assert (Hwf' : fresh_wf (fst (Invalidate f r))) by (eapply fresh_step_wf; eauto using step_invalidate).
  destruct (fresh_star _ _ Hwf' Hg) as [Hwg Hfg]. split_and!.
  - unfold Invalidate. rewrite Hr. simpl. by destruct (_ =? _).
  - apply refuses_reconcile. eauto using refuses_follows, invalidate_refuses.
  - by apply fresh_wf_checked.
Qed.

(** A terminal loss is final: after a restart or a process exit was
    recorded, no sequence of calls makes the interaction known again or
    replaces the terminal reason, and the binding never changes. *)
Lemma freshness_terminal_is_final b f0 f g :
  NewFreshness b = Ok f0 -> star freshness_step f0 f ->
  reason_terminal (fr_reason f) = true -> star freshness_step f g ->
  fr_known g = false /\ fr_reason g = fr_reason f /\ fr_binding g = b.
Proof.
  intros H0 Hf Ht Hg. pose proof (NewFreshness_wf _ _ H0) as Hwf0.
  destruct (fresh_star _ _ Hwf0 Hf) as [Hwf (Hb1 & _)].
  destruct (fresh_star _ _ Hwf Hg) as [Hwg (Hb2 & _ & _ & Hr)].
  specialize (Hr Ht). split_and!; [|done|].
  - destruct (fr_known g) eqn:E; [|done]. destruct (fw_known _ Hwg E) as [_ H].
    rewrite Hr in H. congruence.
  - rewrite Hb2, Hb1. unfold NewFreshness, FreshnessFrom in H0. ok_inv H0. done.
Qed.

(** Freshness is lost one way.  On any state reached from a new
    freshness, a valid invalidation clears the interaction knowledge, and from
    then on, whatever else happens, evidence stamped at or before that moment
    is refused with no effect, even when the 64-bit revision is used up.  Once
    a restart or a process exit was recorded nothing makes the interaction
    known again or replaces that reason.  The binding never changes, and every
    reachable state passes the checks of [FreshnessFrom]. *)
Theorem freshness_one_way b f0 f g :
  NewFreshness b = Ok f0 -> star freshness_step f0 f -> star freshness_step f g ->
  FreshnessFrom g = Ok g /\ fr_binding g = b /\
  (forall r e h, reason_valid r = true -> ev_revision e <= fr_revision f ->
     star freshness_step (fst (Invalidate f r)) h ->
     fr_known (fst (Invalidate f r)) = false /\ Reconcile h e = (h, Some ErrChanged)) /\
  (reason_terminal (fr_reason f) = true -> fr_known g = false /\ fr_reason g = fr_reason f).
Proof.
  intros H0 Hf Hg. pose proof (NewFreshness_wf _ _ H0) as Hwf0.
  destruct (fresh_star _ _ Hwf0 Hf) as [Hwf (Hb1 & _)].
  destruct (fresh_star _ _ Hwf Hg) as [Hwg (Hb2 & _)]. split_and!.
  - by apply fresh_wf_checked.
  - rewrite Hb2, Hb1. unfold NewFreshness, FreshnessFrom in H0. ok_inv H0. done.
  - intros r e h Hr He Hh.
    destruct (freshness_stale_evidence_refused b f0 f r h e H0 Hf Hr He Hh) as (H1 & H2 & _). done.
  - intros Ht. destruct (freshness_terminal_is_final b f0 f g H0 Hf Ht Hg) as (H1 & H2 & _). done.
Qed.

(** ** Update deferral *)

Record UpdateTarget := mkUpdateTarget { ut_version : string; ut_protocol : Z }.
#[global] Instance UpdateTarget_eq_dec : EqDecision UpdateTarget.
Proof. solve_decision. Defined.

Definition UpdateTarget_valid (t : UpdateTarget) : bool :=
  if (slen (ut_version t) =? 0) || (128 <? slen (ut_version t)) || (ut_protocol t <? 1)
     || (MaxUint16 <? ut_protocol t)
  then false
  else forallb (fun r => in_range 97 122 r || in_range 65 90 r || in_range 48 57 r
                         || (r =? 46) || (r =? 45) || (r =? 95) || (r =? 43))
         (range_runes (ut_version t)).

Record UpdateDeferral := mkDeferral { ud_target : UpdateTarget; ud_started : Time; ud_notified : bool }.

Definition UpdateDeferralFrom (s : UpdateDeferral) : result UpdateDeferral :=
  if negb (UpdateTarget_valid (ud_target s)) || IsZero (ud_started s) then Err ErrInvalid else Ok s.

Definition NewUpdateDeferral (target : UpdateTarget) (now : Time) : result UpdateDeferral :=
  UpdateDeferralFrom (mkDeferral target now false).

Definition Retarget (d : UpdateDeferral) (target : UpdateTarget) : UpdateDeferral * option error :=
  if negb (UpdateTarget_valid target) then (d, Some ErrInvalid)
  else (mkDeferral target (ud_started d) (ud_notified d), None).

Definition Overdue24h (d : UpdateDeferral) (now : Time) : bool :=
  negb (Before now (Add (ud_started d) (24 * Hour))).

Definition UpdateAttempt : string := "attempt".
Definition UpdateStatus : string := "notice_publication".

Definition Notice (d : UpdateDeferral) (now : Time) (trigger : string) : UpdateDeferral * bool :=
  if trigger =?s UpdateAttempt then (d, true)
  else if trigger =?s UpdateStatus then
    if ud_notified d || negb (Overdue24h d now) then (d, false)
    else (mkDeferral (ud_target d) (ud_started d) true, true)
  else (d, false).

Inductive deferral_call :=
| CallRetarget (target : UpdateTarget)
| CallNotice (now : Time) (trigger : string).

(** The state after a sequence of calls, and the times of the reminders that
    were published; explicit attempts are not reminders. *)
Fixpoint deferral_run (d : UpdateDeferral) (calls : list deferral_call) : UpdateDeferral * list Time :=
  match calls with
  | [] => (d, [])
  | CallRetarget t :: rest => deferral_run (fst (Retarget d t)) rest
  | CallNotice now trigger :: rest =>
      let '(d1, shown) := Notice d now trigger in
      let '(d2, times) := deferral_run d1 rest in
      (d2, if shown && (trigger =?s UpdateStatus) then now :: times else times)
  end.

(** A reminder was asked for at an overdue time. *)
Definition asked_overdue (d : UpdateDeferral) (calls : list deferral_call) : Prop :=
  exists now, In (CallNotice now UpdateStatus) calls /\ Overdue24h d now = true.

Lemma Overdue24h_started d e now : ud_started e = ud_started d -> Overdue24h e now = Overdue24h d now.
Proof. unfold Overdue24h. by intros ->. Qed.

Lemma deferral_run_notified d calls :
  ud_notified d = true -> ud_started (fst (deferral_run d calls)) = ud_started d /\
  snd (deferral_run d calls) = [].
Proof.
  revert d. induction calls as [|[t|now trg] rest IH]; intros d Hn; simpl; [done| |].
  - unfold Retarget. destruct (negb _); simpl; [by apply IH|].
    destruct (IH (mkDeferral t (ud_started d) (ud_notified d)) Hn) as [-> ->]. done.
  - unfold Notice. rewrite Hn. simpl. destruct (IH d Hn) as [E1 E2].
    destruct (deferral_run d rest) as [d2 times] eqn:E. simpl in *. subst.
    destruct (trg =?s UpdateAttempt) eqn:Ea; [|by destruct (trg =?s UpdateStatus); rewrite E; simpl].
    breflect. subst. rewrite E. done.
Qed.

Lemma deferral_run_fresh d calls :
  ud_notified d = false ->
  ud_started (fst (deferral_run d calls)) = ud_started d /\
  ((snd (deferral_run d calls) = [] /\ ~ asked_overdue d calls) \/
   exists now, snd (deferral_run d calls) = [now] /\ Overdue24h d now = true).
Proof.
  revert d. induction calls as [|[t|now trg] rest IH]; intros d Hn; simpl.
  - split; [done|]. left. split; [done|]. by intros (? & [] & _).
  - assert (Hs : ud_started (fst (Retarget d t)) = ud_started d /\ ud_notified (fst (Retarget d t)) = false)
      by (unfold Retarget; by destruct (negb _)).
    destruct Hs as [Hs Hn']. destruct (IH _ Hn') as [-> Hor]. split; [done|].
    destruct Hor as [[-> Hno]|(u & -> & Ho)]; [left; split; [done|]|right].
    + intros (u & [?|Hin] & Ho); [done|]. apply Hno. exists u. by rewrite (Overdue24h_started d).
    + exists u. by rewrite (Overdue24h_started (fst (Retarget d t))).
  - assert (Hstay : forall trg', (trg' =?s UpdateStatus) = false \/ Overdue24h d now = false ->
        ud_started (fst (deferral_run d rest)) = ud_started d /\
        ((snd (deferral_run d rest) = [] /\ ~ asked_overdue d (CallNotice now trg' :: rest)) \/
         exists u, snd (deferral_run d rest) = [u] /\ Overdue24h d u = true)).
    { intros trg' Ht. destruct (IH d Hn) as [-> [[-> Hno]|H]]; split; auto. left. split; [done|].
      intros (u & [[= <- ->]|Hin] & Ho); [destruct Ht; [done|congruence]|]. apply Hno. by exists u. }
    unfold Notice. rewrite Hn. simpl.
    destruct (trg =?s UpdateAttempt) eqn:Ea.
    { breflect. subst. destruct (deferral_run d rest) as [d2 times] eqn:E.
      apply (Hstay UpdateAttempt). by left. }
    destruct (trg =?s UpdateStatus) eqn:Es;
      [destruct (Overdue24h d now) eqn:Eo; simpl|].
    + set (d1 := mkDeferral _ _ true).
      destruct (deferral_run_notified d1 rest eq_refl) as [E1 E2].
      destruct (deferral_run d1 rest) as [d2 times]. simpl in *. subst times. split; [done|].
      right. by exists now.
    + destruct (deferral_run d rest) as [d2 times] eqn:E. apply (Hstay trg). by right.
    + destruct (deferral_run d rest) as [d2 times] eqn:E. simpl. apply (Hstay trg). by left.
Qed.

(** A deferral reminds once.  From a new deferral, over any sequence of
    retargets and notices, at most one reminder is published; one is published
    exactly when a reminder was asked for twenty-four hours or more after the
    start; the start is never reset; and an explicit attempt is always shown. *)
Theorem update_deferral_reminds_once target now d calls :
  NewUpdateDeferral target now = Ok d ->
  let '(d', times) := deferral_run d calls in
  ud_started d' = now /\
  (times = [] /\ ~ asked_overdue d calls \/ exists t, times = [t] /\ Overdue24h d t = true) /\
  (forall t, snd (Notice d' t UpdateAttempt) = true).
Proof.
  unfold NewUpdateDeferral, UpdateDeferralFrom. intros H. ok_inv H.
  set (d := mkDeferral target now false).
  destruct (deferral_run_fresh d calls eq_refl) as [H1 H2].
  destruct (deferral_run d calls) as [d' times]. by split_and!.
Qed.

(** ** Examples *)

Definition ex_binding : FreshnessBinding :=
  mkFreshnessBinding ex_identity ("w_" +:+ implode (repeat "0"%char 64)) "codex-main".
Definition ex_fresh : Freshness := mkFreshness ex_binding 1 false "" false.
Definition ex_evidence : CausalFreshnessEvidence := mkEvidence ex_binding 1 "session-1" "event-1".
Definition ex_known : Freshness := fst (Reconcile ex_fresh ex_evidence).

Lemma ex_fresh_new : NewFreshness ex_binding = Ok ex_fresh.
Proof. vm_refl. Qed.

Lemma freshness_one_way_witness :
  let f := fst (Invalidate ex_known FreshnessSleepWake) in
  fr_known ex_known = true /\ FreshnessFrom ex_known = Ok ex_known /\
  fr_known f = false /\ Reconcile f ex_evidence = (f, Some ErrChanged).
Proof.
  destruct (freshness_one_way ex_binding ex_fresh ex_known ex_known) as (H1 & _ & H2 & _).
  - exact ex_fresh_new.
  - apply star_one, step_reconcile.
  - apply star_refl.
  - split; [by vm_compute|]. split; [exact H1|]. apply H2; [done|by vm_compute|apply star_refl].
Defined.

Definition ex_update : UpdateTarget := mkUpdateTarget "v1.2.3" 1.
Definition ex_calls : list deferral_call :=
  [CallNotice UnixEpoch UpdateStatus; CallNotice (Add UnixEpoch (25 * Hour)) UpdateStatus;
   CallRetarget ex_update; CallNotice (Add UnixEpoch (26 * Hour)) UpdateStatus].

Lemma update_deferral_reminds_once_witness :
  let d := mkDeferral ex_update UnixEpoch false in
  snd (deferral_run d ex_calls) = [Add UnixEpoch (25 * Hour)] /\
  let '(d', times) := deferral_run d ex_calls in
  ud_started d' = UnixEpoch /\
  (times = [] /\ ~ asked_overdue d ex_calls \/ exists t, times = [t] /\ Overdue24h d t = true) /\
  (forall t, snd (Notice d' t UpdateAttempt) = true).
Proof.
  cbv zeta. split; [by vm_compute|].
  apply (update_deferral_reminds_once ex_update). by vm_compute.
Defined.
