(* ===== verification/Coordinator.v ===== *)
(** * The control coordinator

    [src/application/runtime/control.go]: [Runtime.Control] admits one bounded
    operation on an owned child and hands it to a goroutine, which revalidates
    it, reserves its receipt in the run's ledger ([Control]) and durably in
    the journal, applies it to the child once and records the outcome.  Every
    section between two acquisitions of the runtime's mutex is a definition;
    what the registry, the profile catalog, the child and the journal answer is
    an argument.  The step relation interleaves any number of these goroutines
    with new requests, run transitions and shutdown.  The theorems: an effect
    is applied at most once and only after its durable reservation, and the
    pending counter is the number of goroutines at work. *)

From S2P Require Import Prelude GoStrings Sha256 RuntimeValues Launch Control Output OutputCapture.

Definition ErrControlUnknown : error :=
  Sentinel "runtime control outcome uncertain; inspect the original receipt without replay".
Definition ErrControlCommitUncertain : error := Sentinel "runtime control intent commit uncertain".

Record ControlRequest := mkControlRequest {
  cq_selection : OutputSelection; cq_intent : ControlIntentState; cq_data : list ascii }.
Record ControlResult := mkControlResult { cr_selection : OutputSelection; cr_receipt : ControlSnapshot }.
Record ControlEffect := mkControlEffect { ef_outcome : string; ef_written : Z }.

(** A ticket is shared by the map, the goroutine and the callers that wait. *)
Record controlTicket := mkTicket {
  ct_intent : ControlIntentState; ct_fingerprint : list ascii;
  ct_result : ControlResult; ct_err : option error; ct_done : bool }.
Record runControls := mkRunControls {
  rc_ledger : ControlLedger; rc_tickets : gmap string nat; rc_busy : bool }.

(** The fields of [ownedRun] and [Runtime] that controls read or write;
    [or_controlled] and [rt_controlJournal] say whether the child and the
    journal implement the control interfaces. *)
Record ownedRun := mkOwnedRun {
  or_published : bool; or_controls : option runControls; or_descriptor : RunSnapshot; or_controlled : bool }.
Record Runtime := mkRuntime {
  rt_runs : gmap string ownedRun; rt_heap : gmap nat controlTicket;
  rt_controlKey : option (list ascii); rt_controlJournal : bool; rt_controlsPending : Z;
  rt_revision : Z; rt_revisionExhausted : bool; rt_disabled : bool;
  rt_shutdownPreparing : bool; rt_shutdownCommitted : bool; rt_lifecycleUncertain : bool }.

Definition selection_of (d : RunSnapshot) : OutputSelection :=
  mkSelection (rn_identity d) (w_id (t_worktree (rn_target d))) (hp_id (rn_profile d)).

Definition selectedRunLocked (s : Runtime) (sel : OutputSelection) : result ownedRun :=
  match rt_runs s !! li_run (ol_identity sel) with
  | None => Err ErrNotFound
  | Some run => if bool_decide (sel = selection_of (or_descriptor run)) then Ok run else Err ErrChanged
  end.

(** ** The fingerprint

    [json.Marshal] of the selection and the intent: both were matched and
    validated, so none of their strings needs escaping. *)
Definition json_string (s : string) : string := String "034" (s ++ String "034" "").
Definition json_bool (b : bool) : string := if b then "true" else "false".
Fixpoint json_fields (l : list (string * string)) : string :=
  match l with
  | [] => ""
  | [(k, v)] => json_string k ++ ":" ++ v
  | (k, v) :: rest => json_string k ++ ":" ++ v ++ "," ++ json_fields rest
  end.
Definition json_object (l : list (string * string)) : string := "{" ++ json_fields l ++ "}".
Definition control_header (sel : OutputSelection) (i : ControlIntentState) : string :=
  let id := ol_identity sel in
  json_object
    [("Selection", json_object
       [("Identity", json_object
          [("Run", json_string (li_run id)); ("Generation", json_string (li_generation id));
           ("Epoch", json_string (li_epoch id))]);
        ("Worktree", json_string (ol_worktree sel)); ("Profile", json_string (ol_profile sel))]);
     ("Intent", json_object
       [("RequestID", json_string (ci_request_id i)); ("Kind", json_string (ci_kind i));
        ("ManualTerminal", json_bool (ci_manual i)); ("WorkLossAcknowledged", json_bool (ci_work_loss i));
        ("InputBytes", FormatUint (ci_input_bytes i)); ("ResizeSequence", FormatUint (ci_resize_sequence i));
        ("Rows", FormatUint (ci_rows i)); ("Cols", FormatUint (ci_cols i))])].

(** HMAC with SHA-256 for a key of at most one block. *)
Definition xor_pad (key : list ascii) (b : Z) : list ascii :=
  map (fun c => ascii_of_nat (Z.to_nat (Z.lxor (Z.of_nat (nat_of_ascii c)) b)))
    (key ++ repeat nul (64 - List.length key)).
Definition hmac_sha256 (key msg : list ascii) : list ascii :=
  Sum256 (xor_pad key 92 ++ Sum256 (xor_pad key 54 ++ msg)).

Definition with_key (s : Runtime) (key : list ascii) : Runtime :=
  mkRuntime (rt_runs s) (rt_heap s) (Some key) (rt_controlJournal s) (rt_controlsPending s) (rt_revision s)
    (rt_revisionExhausted s) (rt_disabled s) (rt_shutdownPreparing s) (rt_shutdownCommitted s) (rt_lifecycleUncertain s).

(** [random] is what [rand.Read] fills the key with, if it succeeds. *)
Definition controlFingerprintLocked (s : Runtime) (random : option (list ascii)) (request : ControlRequest)
  : Runtime * result (list ascii) :=
  match (match rt_controlKey s with Some key => Some (s, key)
         | None => match random with Some key => Some (with_key s key, key) | None => None end end) with
  | None => (s, Err ErrUnsafe)
  | Some (s', key) =>
      (s', Ok (hmac_sha256 key (explode (control_header (cq_selection request) (cq_intent request))
                                ++ nul :: cq_data request)))
  end.

Definition validateControlRequest (request : ControlRequest) : option error :=
  match ControlIntentFrom (cq_intent request) with
  | Err e => Some (Wrap "validate runtime control intent: %w" [] e)
  | Ok state =>
      if ci_kind state =?s ControlInput then
        fails (negb (llen (cq_data request) =? ci_input_bytes state)) ErrInvalid
      else fails (negb (llen (cq_data request) =? 0)) ErrInvalid
  end.

(** ** State changes *)

Definition changedLocked (s : Runtime) : Runtime :=
  if rt_revision s =? MaxUint64 then
    mkRuntime (rt_runs s) (rt_heap s) (rt_controlKey s) (rt_controlJournal s) (rt_controlsPending s) (rt_revision s)
      true true (rt_shutdownPreparing s) (rt_shutdownCommitted s) (rt_lifecycleUncertain s)
  else
    mkRuntime (rt_runs s) (rt_heap s) (rt_controlKey s) (rt_controlJournal s) (rt_controlsPending s)
      (u64 (rt_revision s + 1)) (rt_revisionExhausted s) (rt_disabled s) (rt_shutdownPreparing s)
      (rt_shutdownCommitted s) (rt_lifecycleUncertain s).

Definition with_runs (s : Runtime) (runs : gmap string ownedRun) (heap : gmap nat controlTicket) (pending : Z) : Runtime :=
  mkRuntime runs heap (rt_controlKey s) (rt_controlJournal s) pending (rt_revision s)
    (rt_revisionExhausted s) (rt_disabled s) (rt_shutdownPreparing s) (rt_shutdownCommitted s) (rt_lifecycleUncertain s).
Definition set_controls (run : ownedRun) (c : runControls) : ownedRun :=
  mkOwnedRun (or_published run) (Some c) (or_descriptor run) (or_controlled run).
(** Assignments through the pointers [run.controls] and [ticket]. *)
Definition put_controls (s : Runtime) (r : string) (c : runControls) : Runtime :=
  with_runs s (alter (fun run => set_controls run c) r (rt_runs s)) (rt_heap s) (rt_controlsPending s).
Definition put_ticket (s : Runtime) (a : nat) (t : controlTicket) : Runtime :=
  with_runs s (rt_runs s) (<[a := t]> (rt_heap s)) (rt_controlsPending s).
Definition with_pending (s : Runtime) (n : Z) : Runtime := with_runs s (rt_runs s) (rt_heap s) n.

(** ** Admission

    What [Control] does up to the wait: an error, the ticket of an earlier
    identical request, or a new ticket with its goroutine. *)
Inductive Admission :=
| Failed (e : error)
| Joined (ticket : nat)
| Spawned (ticket : nat).

Definition admission_error (s : Runtime) (run : ownedRun) (i : ControlIntentState) : option error :=
  first_err
    [fails (rt_revisionExhausted s || (rt_revision s =? MaxUint64)) ErrLimit;
     fails (rt_shutdownPreparing s
            || (rt_shutdownCommitted s || rt_lifecycleUncertain s) && (ci_kind i <>?s ControlStop)) ErrRuntimeBusy;
     fails (negb (or_controlled run)) ErrUnsupported;
     fails (negb (rt_controlJournal s)) ErrUnsupported;
     fails (rn_state (or_descriptor run) <>?s RunLive) ErrChanged;
     fails ((ci_kind i =?s ControlInput) && negb (or_published run)) ErrRuntimeRejected;
     fails ((MaxControlCoordinators <=? rt_controlsPending s)
            || match or_controls run with Some c => rc_busy c | None => false end) ErrRuntimeBusy].

Definition Control_admit (s : Runtime) (ctx : option error) (random : option (list ascii)) (request : ControlRequest)
  : Runtime * Admission :=
  let i := cq_intent request in
  let r := li_run (ol_identity (cq_selection request)) in
  match ctx with
  | Some e => (s, Failed (Wrap "admit runtime control: %w" [] e))
  | None =>
  match validateControlRequest request with
  | Some e => (s, Failed e)
  | None =>
  match selectedRunLocked s (cq_selection request) with
  | Err e => (s, Failed e)
  | Ok run =>
  match controlFingerprintLocked s random request with
  | (s, Err e) => (s, Failed e)
  | (s, Ok fingerprint) =>
  let found := match or_controls run with Some c => rc_tickets c !! ci_request_id i | None => None end in
  match found with
  | Some a =>
      match rt_heap s !! a with
      | Some t => if negb (bool_decide (ct_intent t = i)) || negb (bool_decide (ct_fingerprint t = fingerprint))
                  then (s, Failed ErrChanged) else (s, Joined a)
      | None => (s, Joined a)
      end
  | None =>
  match admission_error s run i with
  | Some e => (s, Failed e)
  | None =>
  match (match or_controls run with
         | Some c => Ok c
         | None => let! l := wrap_err "bind runtime control ledger: %w"
                                (NewControlLedger (ol_identity (cq_selection request))) in
                   Ok (mkRunControls l ∅ false) end) with
  | Err e => (s, Failed e)
  | Ok c =>
      let a := fresh (dom (rt_heap s)) in
      let t := mkTicket i fingerprint
                 (mkControlResult (cq_selection request)
                    (mkControlSnapshot (ol_identity (cq_selection request)) i ControlPending 0)) None false in
      let s1 := put_ticket (put_controls s r
                  (mkRunControls (rc_ledger c) (<[ci_request_id i := a]> (rc_tickets c)) true)) a t in
      (changedLocked (with_pending s1 (rt_controlsPending s1 + 1)), Spawned a)
  end end end end end end end.

(** What the callers see: the wait, whose context may be over, and [Receipt]. *)
Definition awaitControl (t : controlTicket) (ctxDone : bool) : option (ControlResult * option error) :=
  if negb ctxDone then (if ct_done t then Some (ct_result t, ct_err t) else None)
  else if cs_outcome (cr_receipt (ct_result t)) <>?s ControlPending then Some (ct_result t, ct_err t)
  else
    let v := cr_receipt (ct_result t) in
    Some (mkControlResult (cr_selection (ct_result t))
            (mkControlSnapshot (cs_identity v) (cs_intent v) ControlUnknown (cs_written v)), Some ErrControlUnknown).

Definition Receipt (s : Runtime) (sel : OutputSelection) (id : string) : result ControlResult :=
  let! _ := wrap_err "validate receipt reference: %w" (ControlRequestIDFrom id) in
  let! run := selectedRunLocked s sel in
  match or_controls run with
  | None => Err ErrNotFound
  | Some c =>
      match rc_tickets c !! id with
      | None => Err ErrNotFound
      | Some a => match rt_heap s !! a with Some t => Ok (ct_result t) | None => Err ErrNotFound end
      end
  end.

(** ** The goroutine of one control

    Where [performControl] is, with what it holds there. *)
Inductive Worker :=
| WAdmit                                                      (* before the checks *)
| WReserve                                                    (* before the ledger *)
| WJournal (pending : ControlSnapshot)                        (* before the durable reservation *)
| WApply (pending : ControlSnapshot)                          (* before the effect *)
| WRollback (e : error)
| WComplete (effect : ControlEffect) (effectErr : option error)
| WLedger (result : ControlResult)                            (* the outcome is saved *)
| WReject (e : error)
| WFinish (result : ControlResult) (err : option error) (drop : bool)
| WDone.

(** The answers of the registry, the catalog and the child, and of the
    deadline after them. *)
Record AdmitAnswers := mkAnswers {
  an_revalidate : option error; an_profile : result HostProfile; an_validate : option error; an_ctx : option error }.

Definition wrap_opt (format : string) (e : option error) : option error :=
  match e with Some e => Some (Wrap format [] e) | None => None end.

Definition perform_admit (d : RunSnapshot) (an : AdmitAnswers) : Worker :=
  match first_err
    [wrap_opt "revalidate control target: %w" (an_revalidate an);
     err_of (wrap_err "revalidate control profile: %w" (an_profile an));
     match an_profile an with Ok p => fails (negb (bool_decide (p = rn_profile d))) ErrChanged | Err _ => None end;
     wrap_opt "revalidate native control witness: %w" (an_validate an);
     wrap_opt "validate control admission budget: %w" (an_ctx an)] with
  | Some e => WReject e
  | None => WReserve
  end.

Definition set_receipt (t : controlTicket) (receipt : ControlSnapshot) : controlTicket :=
  mkTicket (ct_intent t) (ct_fingerprint t) (mkControlResult (cr_selection (ct_result t)) receipt) (ct_err t) (ct_done t).
Definition with_outcome (r : ControlResult) (outcome : string) (written : Z) : ControlResult :=
  let c := cr_receipt r in
  mkControlResult (cr_selection r) (mkControlSnapshot (cs_identity c) (cs_intent c) outcome written).
Definition set_outcome (r : ControlResult) (outcome : string) : ControlResult :=
  with_outcome r outcome (cs_written (cr_receipt r)).

(** The section that reserves the receipt in the run's ledger. *)
Definition perform_reserve (s : Runtime) (r : string) (run : ownedRun) (c : runControls) (a : nat) (t : controlTicket)
  : Runtime * Worker :=
  if rn_state (or_descriptor run) <>?s RunLive then (s, WReject ErrChanged)
  else match Reserve (rc_ledger c) (ct_intent t) (ct_fingerprint t) with
       | (l, Ok (pending, _)) =>
           (put_ticket (put_controls s r (mkRunControls l (rc_tickets c) (rc_busy c))) a (set_receipt t pending),
            WJournal pending)
       | (l, Err e) =>
           (put_controls s r (mkRunControls l (rc_tickets c) (rc_busy c)),
            WReject (Wrap "reserve runtime control receipt: %w" [] e))
       end.

(** [answer] is what [journal.ReserveControl] returns. *)
Definition perform_journal (pending : ControlSnapshot) (answer : option error) (ctxErr : bool) : Worker :=
  match ControlReceiptFrom pending with
  | Err e => WRollback e
  | Ok _ =>
      match answer with
      | None => WApply pending
      | Some e =>
          if negb (errors_is e "runtime control intent commit uncertain") && negb ctxErr
          then WRollback (Wrap "reserve durable control intent: %w" [] e)
          else WComplete (mkControlEffect ControlUnknown 0) (Some ErrControlUnknown)
      end
  end.

(** [answer] is what [child.ApplyControl] returns; it is called exactly when
    the deadline has not passed. *)
Definition perform_apply (pending : ControlSnapshot) (ctx : option error) (answer : ControlEffect * option error) : Worker :=
  let '(effect, err) := match ctx with None => answer | Some e => (mkControlEffect ControlUnknown 0, Some e) end in
  let effect := match err with Some _ => mkControlEffect ControlUnknown (ef_written effect) | None => effect end in
  let effect :=
    if (ef_outcome effect <>?s ControlDelivered) && (ef_outcome effect <>?s ControlUnknown)
       && (ef_outcome effect <>?s ControlRejected)
    then mkControlEffect ControlUnknown (ef_written effect) else effect in
  let candidate := mkControlSnapshot (cs_identity pending) (cs_intent pending) (ef_outcome effect) (ef_written effect) in
  match ControlReceiptFrom candidate with
  | Err _ => WComplete (mkControlEffect ControlUnknown 0) err
  | Ok _ => WComplete effect err
  end.

Definition rollbackControl (s : Runtime) (r : string) (c : runControls) (t : controlTicket) (e : error)
  : Runtime * Worker :=
  match AbandonUncommitted (rc_ledger c) (ci_request_id (ct_intent t)) with
  | (l, Some _) => (put_controls s r (mkRunControls l (rc_tickets c) (rc_busy c)),
                    WFinish (set_outcome (ct_result t) ControlUnknown) (Some ErrControlUnknown) false)
  | (l, None) => (put_controls s r (mkRunControls l (rc_tickets c) (rc_busy c)), WReject e)
  end.

(** [completeControl] up to the ledger; [answer] is what [journal.SaveControl]
    returns for [saved_receipt]. *)
Definition saved_receipt (t : controlTicket) (effect : ControlEffect) : ControlResult :=
  let result := with_outcome (ct_result t) (ef_outcome effect) (ef_written effect) in
  match ControlReceiptFrom (cr_receipt result) with
  | Err _ => with_outcome result ControlUnknown 0
  | Ok _ => result
  end.
Definition complete_save (t : controlTicket) (effect : ControlEffect) (effectErr answer : option error) : Worker :=
  let result := saved_receipt t effect in
  WLedger (match answer, effectErr with None, None => result | _, _ => set_outcome result ControlUnknown end).

Definition outcome_error (outcome : string) : option error :=
  if outcome =?s ControlDelivered then None
  else if outcome =?s ControlRejected then Some ErrRuntimeRejected else Some ErrControlUnknown.
Definition complete_ledger (s : Runtime) (r : string) (c : runControls) (t : controlTicket) (result : ControlResult)
  : Runtime * Worker :=
  let '(l, final) := Complete (rc_ledger c) (ci_request_id (ct_intent t))
                       (cs_outcome (cr_receipt result)) (cs_written (cr_receipt result)) in
  let result := match final with
                | Ok f => mkControlResult (cr_selection result) f
                | Err _ => set_outcome result ControlUnknown end in
  (put_controls s r (mkRunControls l (rc_tickets c) (rc_busy c)),
   WFinish result (outcome_error (cs_outcome (cr_receipt result))) false).

Definition finishControl (s : Runtime) (r : string) (c : runControls) (a : nat) (t : controlTicket)
  (result : ControlResult) (err : option error) (drop : bool) : Runtime :=
  let tickets := if drop then delete (ci_request_id (ct_intent t)) (rc_tickets c) else rc_tickets c in
  let s1 := put_ticket s a (mkTicket (ct_intent t) (ct_fingerprint t) result err true) in
  let s2 := put_controls s1 r (mkRunControls (rc_ledger c) tickets false) in
  changedLocked (with_pending s2 (rt_controlsPending s2 - 1)).

Definition rejectControl (t : controlTicket) (e : error) : Worker :=
  WFinish (set_outcome (ct_result t) ControlRejected) (Some e) true.

(** ** The system

    [sy_workers] holds each goroutine by its ticket, with the key of its run.
    [sy_reserved] and [sy_effects] record, newest first, the durable
    reservations that succeeded and the effects that were applied: the run,
    the request and the ticket. *)
Record Reference := mkRef { rf_run : string; rf_request : string }.
#[global] Instance Reference_eq_dec : EqDecision Reference.
Proof. solve_decision. Defined.

Record System := mkSystem {
  sy_rt : Runtime; sy_workers : gmap nat (string * Worker);
  sy_reserved : list Reference; sy_effects : list Reference }.

(** What the outside answers at one turn of a goroutine. *)
Record Answers := mkTurn {
  tn_admit : AdmitAnswers; tn_journal : option error; tn_ctx : option error;
  tn_apply : ControlEffect * option error; tn_save : option error }.

Definition turn (s : Runtime) (a : nat) (r : string) (run : ownedRun) (c : runControls) (t : controlTicket)
  (w : Worker) (n : Answers) : Runtime * Worker :=
  match w with
  | WAdmit => (s, perform_admit (or_descriptor run) (tn_admit n))
  | WReserve => perform_reserve s r run c a t
  | WJournal pending => (s, perform_journal pending (tn_journal n) (bool_decide (tn_ctx n <> None)))
  | WApply pending => (s, perform_apply pending (tn_ctx n) (tn_apply n))
  | WRollback e => rollbackControl s r c t e
  | WComplete effect err => (s, complete_save t effect err (tn_save n))
  | WLedger result => complete_ledger s r c t result
  | WReject e => (s, rejectControl t e)
  | WFinish result err drop => (finishControl s r c a t result err drop, WDone)
  | WDone => (s, WDone)
  end.

(** Whether this turn reserves durably, and whether it applies the effect. *)
Definition reserves (w : Worker) (n : Answers) : bool :=
  match w with
  | WJournal pending => is_ok (ControlReceiptFrom pending) && bool_decide (tn_journal n = None)
  | _ => false
  end.
Definition applies (w : Worker) (n : Answers) : bool :=
  match w with WApply _ => bool_decide (tn_ctx n = None) | _ => false end.

Definition take_turn (y : System) (a : nat) (n : Answers) : System :=
  match sy_workers y !! a with
  | None => y
  | Some (r, w) =>
      match rt_runs (sy_rt y) !! r, rt_heap (sy_rt y) !! a with
      | Some run, Some t =>
          match or_controls run with
          | None => y
          | Some c =>
              let '(s, w') := turn (sy_rt y) a r run c t w n in
              let ref := mkRef r (ci_request_id (ct_intent t)) in
              mkSystem s
                (match w' with WDone => delete a (sy_workers y) | _ => <[a := (r, w')]> (sy_workers y) end)
                (if reserves w n then ref :: sy_reserved y else sy_reserved y)
                (if applies w n then ref :: sy_effects y else sy_effects y)
          end
      | _, _ => y
      end
  end.

Definition request_control (y : System) (ctx : option error) (random : option (list ascii)) (request : ControlRequest)
  : System :=
  match Control_admit (sy_rt y) ctx random request with
  | (s, Spawned a) =>
      mkSystem s (<[a := (li_run (ol_identity (cq_selection request)), WAdmit)]> (sy_workers y))
        (sy_reserved y) (sy_effects y)
  | (s, _) => mkSystem s (sy_workers y) (sy_reserved y) (sy_effects y)
  end.

(** The rest of the runtime: it adds runs under new keys, moves a run's
    descriptor on, publishes it, and changes its own flags and revision. *)
Record outside (s s' : Runtime) : Prop := {
  os_heap : rt_heap s' = rt_heap s;
  os_pending : rt_controlsPending s' = rt_controlsPending s;
  os_runs : forall r run, rt_runs s !! r = Some run -> exists run', rt_runs s' !! r = Some run' /\
    or_controls run' = or_controls run /\ follows (or_descriptor run) (or_descriptor run');
  os_new : forall r run', rt_runs s' !! r = Some run' -> rt_runs s !! r = None -> or_controls run' = None }.

Inductive system_step : System -> System -> Prop :=
| ys_request y ctx random request : system_step y (request_control y ctx random request)
| ys_turn y a n : system_step y (take_turn y a n)
| ys_outside y s : outside (sy_rt y) s ->
    system_step y (mkSystem s (sy_workers y) (sy_reserved y) (sy_effects y)).

(** ** The invariant *)

Definition request_of (t : controlTicket) : string := ci_request_id (ct_intent t).
Definition selected (t : controlTicket) : OutputSelection := cr_selection (ct_result t).
Definition outcome_of (r : ControlResult) : string := cs_outcome (cr_receipt r).

(** The points of [performControl] after its one chance to apply. *)
Definition after_effect (w : Worker) : Prop :=
  match w with
  | WComplete _ _ | WLedger _ => True
  | WFinish _ _ drop => drop = false
  | _ => False
  end.

Definition worker_ok (reserved effects : list Reference) (ref : Reference) (sel : OutputSelection) (w : Worker) : Prop :=
  match w with
  | WApply _ => ref ∈ reserved
  | WComplete ef _ => ef_outcome ef = ControlDelivered -> ref ∈ effects
  | WLedger res => cr_selection res = sel /\ (outcome_of res = ControlDelivered -> ref ∈ effects)
  | WFinish res _ _ => cr_selection res = sel /\ outcome_of res <> ControlPending /\
      (outcome_of res = ControlDelivered -> ref ∈ effects)
  | WDone => False
  | _ => True
  end.

(** The controls of a run. *)
Definition has_controls (s : Runtime) (r : string) (c : runControls) : Prop :=
  exists run, rt_runs s !! r = Some run /\ or_controls run = Some c.

(** The goroutine of ticket [a] is at [w] and works for [t] under [c]. *)
Record working (y : System) (a : nat) (r : string) (w : Worker) (c : runControls) (t : controlTicket) : Prop := {
  wk_controls : has_controls (sy_rt y) r c;
  wk_ticket : rt_heap (sy_rt y) !! a = Some t;
  wk_filed : rc_tickets c !! request_of t = Some a;
  wk_busy : rc_busy c = true;
  wk_open : ct_done t = false;
  wk_ok : worker_ok (sy_reserved y) (sy_effects y) (mkRef r (request_of t)) (selected t) w }.

Record sys_ok (y : System) : Prop := {
  so_worker : forall a r w, sy_workers y !! a = Some (r, w) -> exists c t, working y a r w c t;
  so_single : forall a b r w v, sy_workers y !! a = Some (r, w) -> sy_workers y !! b = Some (r, v) -> a = b;
  so_tickets : forall r c id a, has_controls (sy_rt y) r c -> rc_tickets c !! id = Some a ->
    exists t, rt_heap (sy_rt y) !! a = Some t /\ request_of t = id /\ li_run (ol_identity (selected t)) = r /\
      (outcome_of (ct_result t) = ControlDelivered -> mkRef r id ∈ sy_effects y);
  so_ledger : forall r c, has_controls (sy_rt y) r c -> Control.wf (rc_ledger c) /\
    forall id e, cl_entries (rc_ledger c) !! id = Some e -> cs_outcome (ce_snapshot e) = ControlDelivered ->
      mkRef r id ∈ sy_effects y;
  so_busy : forall r c, has_controls (sy_rt y) r c -> rc_busy c = true -> exists a w, sy_workers y !! a = Some (r, w);
  so_pending : rt_controlsPending (sy_rt y) = Z.of_nat (size (sy_workers y)) /\
    rt_controlsPending (sy_rt y) <= MaxControlCoordinators;
  so_effects : forall r id, mkRef r id ∈ sy_effects y -> mkRef r id ∈ sy_reserved y /\
    exists c a, has_controls (sy_rt y) r c /\ rc_tickets c !! id = Some a /\
      forall w, sy_workers y !! a = Some (r, w) -> after_effect w;
  so_once : NoDup (sy_effects y) }.

Lemma has_controls_fun s r c d : has_controls s r c -> has_controls s r d -> c = d.
Proof. intros (run & H1 & H2) (run' & H3 & H4). congruence. Qed.

(** Before its chance to apply, a goroutine's effect was not applied. *)
Lemma not_applied y a r w c t :
  sys_ok y -> sy_workers y !! a = Some (r, w) -> working y a r w c t -> ~ after_effect w ->
  mkRef r (request_of t) ∉ sy_effects y.
Proof.
  intros Hy Hw [Hc Ht Hf _ _ _] Hn Hin. destruct (so_effects _ Hy _ _ Hin) as (_ & c' & a' & Hc' & Ha' & Hafter).
  rewrite <-(has_controls_fun _ _ _ _ Hc Hc') in Ha'. rewrite Hf in Ha'. injection Ha' as <-. auto.
Qed.

(** Two states whose runs differ in the controls of [r] only. *)
Definition only_controls (s s' : Runtime) (r : string) (c' : runControls) : Prop :=
  forall r' d, has_controls s' r' d <-> (r' = r /\ d = c') \/ (r' <> r /\ has_controls s r' d).

Lemma put_controls_new s r run c' : rt_runs s !! r = Some run -> only_controls s (put_controls s r c') r c'.
Proof.
  intros Hr r' d. unfold has_controls. simpl. destruct (decide (r' = r)) as [->|Hne].
  - rewrite lookup_alter_eq, Hr. simpl. split.
    + intros (run' & [= <-] & [= <-]). by left.
    + intros [[_ ->]|[? _]]; [|done]. by eexists.
  - rewrite lookup_alter_ne by done. split; [by right|]. by intros [[? _]|[_ ?]].
Qed.

Lemma put_controls_only s r c c' : has_controls s r c -> only_controls s (put_controls s r c') r c'.
Proof. intros (run & Hr & _). by apply (put_controls_new _ _ run). Qed.

Lemma same_controls_only s s' r c : rt_runs s' = rt_runs s -> has_controls s r c -> only_controls s s' r c.
Proof.
  intros E Hc r' d. unfold has_controls. rewrite E. split.
  - intros Hd. destruct (decide (r' = r)) as [->|Hne]; [left|by right].
    split; [done|]. symmetry. by eapply has_controls_fun.
  - by intros [[-> ->]|[_ ?]].
Qed.

(** A turn that goes on. *)
Lemma sys_ok_continue y a r w c t s' w' c' t' res eff :
  sys_ok y -> sy_workers y !! a = Some (r, w) -> working y a r w c t ->
  let ref := mkRef r (request_of t) in
  only_controls (sy_rt y) s' r c' -> rc_tickets c' = rc_tickets c -> rc_busy c' = rc_busy c ->
  rt_heap s' = <[a := t']> (rt_heap (sy_rt y)) -> ct_intent t' = ct_intent t -> ct_done t' = ct_done t ->
  selected t' = selected t -> rt_controlsPending s' = rt_controlsPending (sy_rt y) ->
  Control.wf (rc_ledger c') ->
  (res = sy_reserved y \/ res = ref :: sy_reserved y) ->
  (eff = sy_effects y \/ eff = ref :: sy_effects y /\ ~ after_effect w /\ after_effect w' /\ ref ∈ res) ->
  (forall id e, cl_entries (rc_ledger c') !! id = Some e -> cs_outcome (ce_snapshot e) = ControlDelivered -> mkRef r id ∈ eff) ->
  (outcome_of (ct_result t') = ControlDelivered -> ref ∈ eff) ->
  (after_effect w -> after_effect w') -> worker_ok res eff ref (selected t) w' ->
  sys_ok (mkSystem s' (<[a := (r, w')]> (sy_workers y)) res eff).
Proof.
  intros Hy Hw Hwk ref Honly Etick Ebusy Eheap Eint Edone Esel Epend Hwf Hres Heff Hled Hdel Haft Hok.
  assert (Ereq : request_of t' = request_of t) by (unfold request_of; by rewrite Eint).
  assert (Hsres : forall x, x ∈ sy_reserved y -> x ∈ res)
    by (intros x Hx; destruct Hres as [->| ->]; [done|by right]).
  assert (Hseff : forall x, x ∈ sy_effects y -> x ∈ eff)
    by (intros x Hx; destruct Heff as [->|[-> _]]; [done|by right]).
  assert (Hother : forall b r' w0, b <> a -> sy_workers y !! b = Some (r', w0) -> r' <> r).
  { intros b r' w0 Hne Hb ->. destruct Hne. by apply (so_single _ Hy b a r w0 w). }
  pose proof (not_applied y a r w c t Hy Hw Hwk) as Hnot. destruct Hwk as [Hc Ht Hf Hb Ho _].
  assert (Hc' : has_controls s' r c') by (apply Honly; by left).
  destruct (so_tickets _ Hy r c _ a Hc Hf) as (t1 & Ht1 & _ & Hrun & _).
  assert (t1 = t) by congruence. subst t1. split; simpl.
  - intros b r' w0 [[<- [= <- <-]]|[Hne Hb0]]%lookup_insert_Some.
    + exists c', t'. split; simpl; rewrite ?Eheap, ?Ereq, ?Etick, ?Ebusy, ?Edone, ?Esel; try done.
      by rewrite lookup_insert_eq.
    + destruct (so_worker _ Hy _ _ _ Hb0) as (d & t0 & [D1 D2 D3 D4 D5 D6]).
      assert (r' <> r) by (by apply (Hother b r' w0)).
      exists d, t0. split; simpl; rewrite ?Eheap; try done.
      * apply Honly. by right.
      * by rewrite lookup_insert_ne.
      * destruct w0; simpl in *; intuition auto.
  - intros b b' r' w0 v H1 H2. apply lookup_insert_Some in H1 as [[<- [= <- <-]]|[N1 H1]];
      apply lookup_insert_Some in H2 as [[<- E2]|[N2 H2]]; try done.
    + exfalso. by eapply Hother.
    + injection E2 as <- <-. exfalso. by eapply Hother.
    + by eapply (so_single _ Hy).
  - assert (Hpt : forall r' id b t0, rt_heap (sy_rt y) !! b = Some t0 -> request_of t0 = id ->
      li_run (ol_identity (selected t0)) = r' ->
      (outcome_of (ct_result t0) = ControlDelivered -> mkRef r' id ∈ sy_effects y) ->
      exists t2, rt_heap s' !! b = Some t2 /\ request_of t2 = id /\ li_run (ol_identity (selected t2)) = r' /\
        (outcome_of (ct_result t2) = ControlDelivered -> mkRef r' id ∈ eff)).
    { intros r' id b t0 H0 E0 R0 D0. rewrite Eheap. destruct (decide (b = a)) as [->|Hnb].
      - rewrite lookup_insert_eq. assert (t0 = t) by congruence. subst t0 id r'. exists t'.
        rewrite Ereq, Esel, Hrun. split_and!; done.
      - rewrite lookup_insert_ne by done. exists t0. split_and!; auto. }
    intros r' d id b Hd Hb0. apply Honly in Hd as [[-> ->]|[Hne Hd]].
    + rewrite Etick in Hb0. destruct (so_tickets _ Hy r c id b Hc Hb0) as (t0 & ? & ? & ? & ?). by eapply Hpt.
    + destruct (so_tickets _ Hy r' d id b Hd Hb0) as (t0 & ? & ? & ? & ?). by eapply Hpt.
  - intros r' d Hd. apply Honly in Hd as [[-> ->]|[Hne Hd]]; [done|].
    destruct (so_ledger _ Hy r' d Hd) as [W1 W2]. split; [done|]. intros id e He Hde. eauto.
  - intros r' d Hd Hbusy. apply Honly in Hd as [[-> ->]|[Hne Hd]].
    + exists a, w'. by rewrite lookup_insert_eq.
    + destruct (so_busy _ Hy r' d Hd Hbusy) as (b & w0 & Hb0). exists b, w0. rewrite lookup_insert_ne; [done|].
      intros <-. congruence.
  - rewrite Epend, map_size_insert_Some by eauto. apply (so_pending _ Hy).
  - assert (Hold : forall r' id, mkRef r' id ∈ sy_effects y -> mkRef r' id ∈ res /\
      exists c0 a0, has_controls s' r' c0 /\ rc_tickets c0 !! id = Some a0 /\
        forall w0, <[a := (r, w')]> (sy_workers y) !! a0 = Some (r', w0) -> after_effect w0).
    { intros r' id Hin. destruct (so_effects _ Hy _ _ Hin) as (Hr & d & b & Hd & Hb0 & Hw0). split; [auto|].
      destruct (decide (r' = r)) as [->|Hne].
      - exists c', b. rewrite Etick, <-(has_controls_fun _ _ _ _ Hd Hc). split_and!; [done|done|].
        intros w0 [[<- [= <-]]|[Hnb Hw1]]%lookup_insert_Some; [|by apply Hw0]. apply Haft. by apply Hw0.
      - exists d, b. split_and!; [apply Honly; by right|done|].
        intros w0 [[<- [= E _]]|[Hnb Hw1]]%lookup_insert_Some; [congruence|by apply Hw0]. }
    intros r' id Hin. destruct Heff as [->|(-> & Hn & Ha & Hr)]; [by apply Hold|].
    apply elem_of_cons in Hin as [[= -> ->]|Hin]; [|by apply Hold]. split; [done|].
    exists c', a. rewrite Etick. split_and!; [done|done|].
    intros w0 [[_ [= <-]]|[? _]]%lookup_insert_Some; done.
  - destruct Heff as [->|(-> & Hn & _)]; [apply (so_once _ Hy)|].
    apply NoDup_cons. split; [by apply Hnot|apply (so_once _ Hy)].
Qed.

(** The last turn: the goroutine files its result and is gone. *)
Lemma sys_ok_finish y a r c t s' c' t' result err drop :
  sys_ok y -> sy_workers y !! a = Some (r, WFinish result err drop) ->
  working y a r (WFinish result err drop) c t ->
  only_controls (sy_rt y) s' r c' ->
  rc_tickets c' = (if drop then delete (request_of t) (rc_tickets c) else rc_tickets c) -> rc_busy c' = false ->
  rc_ledger c' = rc_ledger c ->
  rt_heap s' = <[a := t']> (rt_heap (sy_rt y)) -> ct_intent t' = ct_intent t -> ct_result t' = result ->
  rt_controlsPending s' = rt_controlsPending (sy_rt y) - 1 ->
  sys_ok (mkSystem s' (delete a (sy_workers y)) (sy_reserved y) (sy_effects y)).
Proof.
  intros Hy Hw Hwk Honly Etick Ebusy Eled Eheap Eint Eres Epend.
  assert (Ereq : request_of t' = request_of t) by (unfold request_of; by rewrite Eint).
  assert (Hother : forall b r' w0, b <> a -> sy_workers y !! b = Some (r', w0) -> r' <> r).
  { intros b r' w0 Hne Hb ->. destruct Hne. by apply (so_single _ Hy b a r w0 (WFinish result err drop)). }
  pose proof (not_applied y a r _ c t Hy Hw Hwk) as Hnot. destruct Hwk as [Hc Ht Hf Hb Ho (Hsel & _ & Hdel)].
  assert (Hc' : has_controls s' r c') by (apply Honly; by left).
  destruct (so_tickets _ Hy r c _ a Hc Hf) as (t1 & Ht1 & _ & Hrun & _).
  assert (t1 = t) by congruence. subst t1.
  assert (Hsub : forall id b, rc_tickets c' !! id = Some b -> rc_tickets c !! id = Some b).
  { intros id b. rewrite Etick. destruct drop; [|done]. by intros [_ ?]%lookup_delete_Some. }
  split; simpl.
  - intros b r' w0 [Hne Hb0]%lookup_delete_Some.
    destruct (so_worker _ Hy _ _ _ Hb0) as (d & t0 & [D1 D2 D3 D4 D5 D6]).
    assert (r' <> r) by (by apply (Hother b r' w0)).
    exists d, t0. split; simpl; rewrite ?Eheap; try done.
    + apply Honly. by right.
    + by rewrite lookup_insert_ne.
  - intros b b' r' w0 v [_ H1]%lookup_delete_Some [_ H2]%lookup_delete_Some. by eapply (so_single _ Hy).
  - assert (Hpt : forall r' id b t0, rt_heap (sy_rt y) !! b = Some t0 -> request_of t0 = id ->
      li_run (ol_identity (selected t0)) = r' ->
      (outcome_of (ct_result t0) = ControlDelivered -> mkRef r' id ∈ sy_effects y) ->
      exists t2, rt_heap s' !! b = Some t2 /\ request_of t2 = id /\ li_run (ol_identity (selected t2)) = r' /\
        (outcome_of (ct_result t2) = ControlDelivered -> mkRef r' id ∈ sy_effects y)).
    { intros r' id b t0 H0 E0 R0 D0. rewrite Eheap. destruct (decide (b = a)) as [->|Hnb].
      - rewrite lookup_insert_eq. assert (t0 = t) by congruence. subst t0 id r'. exists t'.
        unfold selected at 1. rewrite Ereq, Eres, Hsel, Hrun. split_and!; done.
      - rewrite lookup_insert_ne by done. exists t0. split_and!; auto. }
    intros r' d id b Hd Hb0. apply Honly in Hd as [[-> ->]|[Hne Hd]].
    + apply Hsub in Hb0. destruct (so_tickets _ Hy r c id b Hc Hb0) as (t0 & ? & ? & ? & ?). by eapply Hpt.
    + destruct (so_tickets _ Hy r' d id b Hd Hb0) as (t0 & ? & ? & ? & ?). by eapply Hpt.
  - intros r' d Hd. apply Honly in Hd as [[-> ->]|[Hne Hd]]; [rewrite Eled; by apply (so_ledger _ Hy)|].
    by apply (so_ledger _ Hy).
  - intros r' d Hd Hbusy. apply Honly in Hd as [[-> ->]|[Hne Hd]]; [congruence|].
    destruct (so_busy _ Hy r' d Hd Hbusy) as (b & w0 & Hb0). exists b, w0. rewrite lookup_delete_ne; [done|].
    intros <-. congruence.
  - destruct (so_pending _ Hy) as [E1 E2]. rewrite Epend, E1, map_size_delete_Some by eauto.
    assert (size (sy_workers y) <> 0%nat) by (intros E%map_size_empty_inv; rewrite E in Hw; done). lia.
  - intros r' id Hin. destruct (so_effects _ Hy _ _ Hin) as (Hr & d & b & Hd & Hb0 & Hw0). split; [done|].
    destruct (decide (r' = r)) as [->|Hne].
    + exists c', b. rewrite (has_controls_fun _ _ _ _ Hd Hc) in Hb0. split_and!; [done| |].
      * rewrite Etick. destruct drop; [|done]. rewrite lookup_delete_ne; [done|]. intros <-. by apply Hnot in Hin.
      * intros w0 [_ Hw1]%lookup_delete_Some. by apply Hw0.
    + exists d, b. split_and!; [apply Honly; by right|done|].
      intros w0 [_ Hw1]%lookup_delete_Some. by apply Hw0.
  - apply (so_once _ Hy).
Qed.

(** A turn outside the mutex. *)
Lemma sys_ok_stay y a r w c t w' res eff :
  sys_ok y -> sy_workers y !! a = Some (r, w) -> working y a r w c t ->
  let ref := mkRef r (request_of t) in
  (res = sy_reserved y \/ res = ref :: sy_reserved y) ->
  (eff = sy_effects y \/ eff = ref :: sy_effects y /\ ~ after_effect w /\ after_effect w' /\ ref ∈ res) ->
  (after_effect w -> after_effect w') -> worker_ok res eff ref (selected t) w' ->
  sys_ok (mkSystem (sy_rt y) (<[a := (r, w')]> (sy_workers y)) res eff).
Proof.
  intros Hy Hw Hwk ref Hres Heff Haft Hok. pose proof Hwk as [Hc Ht Hf _ _ _].
  assert (Hseff : forall x, x ∈ sy_effects y -> x ∈ eff)
    by (intros x Hx; destruct Heff as [->|[-> _]]; [done|by right]).
  destruct (so_tickets _ Hy r c _ a Hc Hf) as (t1 & Ht1 & _ & _ & Hdel). assert (t1 = t) by congruence. subst t1.
  destruct (so_ledger _ Hy r c Hc) as [Hwf Hled].
  apply (sys_ok_continue y a r w c t (sy_rt y) w' c t); auto.
  - by apply same_controls_only.
  - symmetry. by apply insert_id.
  - intros id e He Hde. eauto.
Qed.

(** The three sections that write the ledger. *)
Lemma sys_ok_ledger y a r w c t l w' receipt :
  sys_ok y -> sy_workers y !! a = Some (r, w) -> working y a r w c t ->
  let ref := mkRef r (request_of t) in
  Control.step (rc_ledger c) l ->
  (forall id e, cl_entries l !! id = Some e -> cs_outcome (ce_snapshot e) = ControlDelivered ->
     mkRef r id ∈ sy_effects y) ->
  (cs_outcome receipt = ControlDelivered -> ref ∈ sy_effects y) ->
  (after_effect w -> after_effect w') -> worker_ok (sy_reserved y) (sy_effects y) ref (selected t) w' ->
  let s1 := put_controls (sy_rt y) r (mkRunControls l (rc_tickets c) (rc_busy c)) in
  sys_ok (mkSystem s1 (<[a := (r, w')]> (sy_workers y)) (sy_reserved y) (sy_effects y)) /\
  sys_ok (mkSystem (put_ticket s1 a (set_receipt t receipt)) (<[a := (r, w')]> (sy_workers y)) (sy_reserved y) (sy_effects y)).
Proof.
  intros Hy Hw Hwk ref Hstep Hled Hrec Haft Hok s1. pose proof Hwk as [Hc Ht Hf _ _ _].
  destruct (so_tickets _ Hy r c _ a Hc Hf) as (t1 & Ht1 & _ & _ & Hdel). assert (t1 = t) by congruence. subst t1.
  destruct (so_ledger _ Hy r c Hc) as [Hwf _]. pose proof (control_step_wf _ _ Hwf Hstep) as Hwf'.
  assert (Honly : only_controls (sy_rt y) s1 r (mkRunControls l (rc_tickets c) (rc_busy c)))
    by (by eapply put_controls_only).
  split.
  - apply (sys_ok_continue y a r w c t s1 w' (mkRunControls l (rc_tickets c) (rc_busy c)) t); auto.
    simpl. symmetry. by apply insert_id.
  - by apply (sys_ok_continue y a r w c t _ w' (mkRunControls l (rc_tickets c) (rc_busy c)) (set_receipt t receipt)); auto.
Qed.

Lemma Complete_outcome l id o n l' f : Complete l id o n = (l', Ok f) -> cs_outcome f = o /\ o <> ControlPending.
Proof.
  unfold Complete. intros H. destruct (cl_entries l !! id) as [e|]; [|done].
  destruct (o =?s ControlPending) eqn:Eo; [done|]. breflect. destruct (ControlReceiptFrom _); [|done].
  destruct (_ <>?s _); [destruct (bool_decide _) eqn:Eb; [|done]|]; injection H as <- <-; [|done].
  breflect. by rewrite Eb.
Qed.

Lemma saved_receipt_ok t ef :
  cr_selection (saved_receipt t ef) = selected t /\
  (outcome_of (saved_receipt t ef) = ControlDelivered -> ef_outcome ef = ControlDelivered).
Proof. unfold saved_receipt. by destruct (ControlReceiptFrom _). Qed.

Lemma perform_apply_ok pending ctx answer :
  exists ef err, perform_apply pending ctx answer = WComplete ef err /\
    (ef_outcome ef = ControlDelivered -> ctx = None).
Proof.
  unfold perform_apply. destruct ctx as [e|]; [|destruct answer as [ef er]; case_match; eauto].
  case_match; [|by eexists _, _]. eexists _, _. split; [reflexivity|]. done.
Qed.

(** For sections that leave the ticket. *)
Definition no_receipt : ControlSnapshot :=
  mkControlSnapshot LaunchIdentity_zero (mkIntent "" "" false false 0 0 0 0) "" 0.

Lemma sys_ok_turn y a n : sys_ok y -> sys_ok (take_turn y a n).
Proof.
  intros Hy. unfold take_turn. destruct (sy_workers y !! a) as [[r w]|] eqn:Hw; [|done].
  destruct (so_worker _ Hy _ _ _ Hw) as (c & t & Hwk). pose proof Hwk as [Hc Ht Hf Hb Ho Hok].
  destruct Hc as (run & Hrun & Hctl). rewrite Hrun, Ht, Hctl.
  assert (Hc : has_controls (sy_rt y) r c) by (by exists run).
  destruct (so_ledger _ Hy r c Hc) as [Hwf Hled].
  destruct w as [| |pending|pending|e|ef er|res|e|res er drop|]; cbn [turn reserves applies].
  - unfold perform_admit. destruct (first_err _);
      apply (sys_ok_stay y a r WAdmit c t); auto; done.
  - unfold perform_reserve. destruct (_ <>?s _); [apply (sys_ok_stay y a r WReserve c t); auto; done|].
    pose proof (step_reserve (rc_ledger c) (ct_intent t) (ct_fingerprint t)) as Hstep.
    destruct (Reserve_cases (rc_ledger c) (ct_intent t) (ct_fingerprint t)) as
      [[e E]|[(sn & Hsn & _ & E)|(_ & _ & _ & _ & E)]]; rewrite E in *; simpl in Hstep.
    + by apply (sys_ok_ledger y a r WReserve c t _ _ no_receipt).
    + apply (sys_ok_ledger y a r WReserve c t); auto; try done.
      intros Hd. by apply (Hled _ _ Hsn).
    + apply (sys_ok_ledger y a r WReserve c t); auto; try done.
      intros id e0 He0. simpl in He0.
      apply lookup_insert_Some in He0 as [[<- <-]|[_ He0]]; [done|by apply Hled].
  - unfold perform_journal. destruct (ControlReceiptFrom pending) eqn:Er; simpl;
      [|apply (sys_ok_stay y a r (WJournal pending) c t); auto; done].
    destruct (tn_journal n) as [e|] eqn:Ej; simpl.
    + destruct (_ && _); apply (sys_ok_stay y a r (WJournal pending) c t); auto; done.
    + apply (sys_ok_stay y a r (WJournal pending) c t); auto. simpl. by left.
  - destruct (perform_apply_ok pending (tn_ctx n) (tn_apply n)) as (ef & er & -> & Hdel).
    destruct (bool_decide (tn_ctx n = None)) eqn:Ectx; breflect.
    + apply (sys_ok_stay y a r (WApply pending) c t); auto; simpl; try done.
      * right. split_and!; auto.
      * intros _. by left.
    + apply (sys_ok_stay y a r (WApply pending) c t); auto; simpl; try done. intros E. by apply Hdel in E.
  - unfold rollbackControl.
    pose proof (step_abandon (rc_ledger c) (ci_request_id (ct_intent t))) as Hstep.
    assert (Hsub : forall id e0, cl_entries (fst (AbandonUncommitted (rc_ledger c) (ci_request_id (ct_intent t)))) !! id = Some e0 ->
      cl_entries (rc_ledger c) !! id = Some e0).
    { intros id e0. unfold AbandonUncommitted.
      destruct (cl_entries (rc_ledger c) !! ci_request_id (ct_intent t)); [|done].
      destruct (_ <>?s _); [done|]. simpl. by intros [_ ?]%lookup_delete_Some. }
    destruct (AbandonUncommitted _ _) as [l [e'|]]; simpl in Hstep, Hsub;
      apply (sys_ok_ledger y a r (WRollback e) c t _ _ no_receipt); auto; try done;
      intros id e0 He0 Hd; apply (Hled id e0); auto.
  - apply (sys_ok_stay y a r (WComplete ef er) c t); auto. simpl in *. unfold complete_save.
    destruct (saved_receipt_ok t ef) as [Es Ed].
    destruct (tn_save n), er; simpl; split; auto; intros Hx; try discriminate Hx; auto.
  - simpl in Hok. destruct Hok as [Hsel Hdel]. unfold complete_ledger.
    pose proof (step_complete (rc_ledger c) (ci_request_id (ct_intent t)) (cs_outcome (cr_receipt res)) (cs_written (cr_receipt res))) as Hstep.
    pose proof (Complete_cases (rc_ledger c) (ci_request_id (ct_intent t)) (cs_outcome (cr_receipt res)) (cs_written (cr_receipt res))) as Hcases.
    destruct (Complete _ _ _ _) as [l final] eqn:Ecomp. simpl in Hstep.
    apply (sys_ok_ledger y a r (WLedger res) c t _ _ no_receipt); auto; try done.
    + intros id e0 He0 Hd. destruct Hcases as [[r0 [= -> _]]|(e & He & _ & _ & _ & [= -> _])]; [by apply (Hled id e0)|].
      simpl in He0. apply lookup_insert_Some in He0 as [[<- <-]|[_ He0]]; [by apply Hdel|by apply (Hled id e0)].
    + simpl. destruct final as [f|e]; simpl; [|done].
      destruct (Complete_outcome _ _ _ _ _ _ Ecomp) as [E1 E2]. unfold outcome_of. simpl. rewrite E1. auto.
  - apply (sys_ok_stay y a r (WReject e) c t); auto; simpl; try done.
  - unfold finishControl. cbv beta iota zeta.
    match goal with |- sys_ok (mkSystem (changedLocked ?s1) _ _ _) =>
      assert (E1 : rt_runs (changedLocked s1) = rt_runs s1 /\ rt_heap (changedLocked s1) = rt_heap s1 /\
        rt_controlsPending (changedLocked s1) = rt_controlsPending s1) by (unfold changedLocked; by destruct (_ =? _))
    end.
    destruct E1 as (R1 & R2 & R3).
    eapply (sys_ok_finish y a r c t _ (mkRunControls (rc_ledger c)
      (if drop then delete (ci_request_id (ct_intent t)) (rc_tickets c) else rc_tickets c) false)
      (mkTicket (ct_intent t) (ct_fingerprint t) res er true) res er drop Hy Hw Hwk); try done.
    intros r' d. rewrite <-(put_controls_only _ _ _ (mkRunControls (rc_ledger c)
      (if drop then delete (ci_request_id (ct_intent t)) (rc_tickets c) else rc_tickets c) false) Hc r' d).
    unfold has_controls. by rewrite R1.
  - done.
Qed.

(** A change outside the fields that controls depend on. *)
Lemma sys_ok_same y s' :
  sys_ok y -> (forall r c, has_controls s' r c <-> has_controls (sy_rt y) r c) ->
  rt_heap s' = rt_heap (sy_rt y) -> rt_controlsPending s' = rt_controlsPending (sy_rt y) ->
  sys_ok (mkSystem s' (sy_workers y) (sy_reserved y) (sy_effects y)).
Proof.
  intros [A1 A2 A3 A4 A5 A6 A7 A8] Hc Eh Ep. split; simpl; rewrite ?Eh, ?Ep; try done.
  - intros a r w Ha. destruct (A1 a r w Ha) as (c & t & [D1 D2 D3 D4 D5 D6]). exists c, t.
    split; simpl; rewrite ?Eh; try done. by apply Hc.
  - intros r c id a Hd. apply A3. by apply Hc.
  - intros r c Hd. apply A4. by apply Hc.
  - intros r c Hd. apply (A5 r c). by apply Hc.
  - intros r id Hin. destruct (A7 r id Hin) as (Hr & c & a & Hd & Ha & Hw). split; [done|].
    exists c, a. split_and!; [by apply Hc|done|done].
Qed.

Lemma sys_ok_outside y s : sys_ok y -> outside (sy_rt y) s ->
  sys_ok (mkSystem s (sy_workers y) (sy_reserved y) (sy_effects y)).
Proof.
  intros Hy [Oh Op Or On]. apply sys_ok_same; try done. intros r c. split.
  - intros (run' & Hr' & Hc). destruct (rt_runs (sy_rt y) !! r) as [run|] eqn:Hr.
    + destruct (Or r run Hr) as (run2 & Hr2 & E & _). exists run. split; [done|congruence].
    + rewrite (On r run' Hr' Hr) in Hc. done.
  - intros (run & Hr & Hc). destruct (Or r run Hr) as (run2 & Hr2 & E & _). exists run2. split; [done|congruence].
Qed.

(** What [Control] did when it made a new ticket. *)
Lemma admit_cases s ctx random q :
  match Control_admit s ctx random q with
  | (s', Spawned a) =>
      let i := cq_intent q in let sel := cq_selection q in let r := li_run (ol_identity sel) in
      exists run c fp,
        rt_runs s !! r = Some run /\ rt_heap s !! a = None /\ ControlIntentFrom i = Ok i /\
        rc_tickets c !! ci_request_id i = None /\ rc_busy c = false /\
        rt_controlsPending s < MaxControlCoordinators /\
        (or_controls run = Some c \/ or_controls run = None /\ rc_tickets c = ∅ /\
           NewControlLedger (ol_identity sel) = Ok (rc_ledger c)) /\
        only_controls s s' r (mkRunControls (rc_ledger c) (<[ci_request_id i := a]> (rc_tickets c)) true) /\
        rt_heap s' = <[a := mkTicket i fp (mkControlResult sel
          (mkControlSnapshot (ol_identity sel) i ControlPending 0)) None false]> (rt_heap s) /\
        rt_controlsPending s' = rt_controlsPending s + 1
  | (s', _) => rt_runs s' = rt_runs s /\ rt_heap s' = rt_heap s /\ rt_controlsPending s' = rt_controlsPending s
  end.
Proof.
  unfold Control_admit. destruct ctx as [e|]; [done|].
  destruct (validateControlRequest q) eqn:Ev; [done|].
  assert (Hi : ControlIntentFrom (cq_intent q) = Ok (cq_intent q)).
  { unfold validateControlRequest in Ev. destruct (ControlIntentFrom _) as [i|] eqn:Ei; [|done].
    by rewrite (ControlIntentFrom_id _ _ Ei). }
  destruct (selectedRunLocked s (cq_selection q)) as [run|] eqn:Es; [|done].
  unfold selectedRunLocked in Es. destruct (rt_runs s !! _) as [run0|] eqn:Hr; [|done].
  destruct (bool_decide _); [|done]. injection Es as ->.
  assert (Hfp : match controlFingerprintLocked s random q with (s1, _) =>
    rt_runs s1 = rt_runs s /\ rt_heap s1 = rt_heap s /\ rt_controlsPending s1 = rt_controlsPending s end).
  { unfold controlFingerprintLocked. destruct (rt_controlKey s); [done|]. by destruct random. }
  destruct (controlFingerprintLocked s random q) as [s1 [fp|e]]; [|done]. destruct Hfp as (E1 & E2 & E3).
  destruct (match or_controls run with Some c => rc_tickets c !! ci_request_id (cq_intent q) | None => None end)
    as [a|] eqn:Efound.
  { destruct (rt_heap s1 !! a) as [t|]; [|done]. by destruct (_ || _). }
  destruct (admission_error s1 run (cq_intent q)) eqn:Eadm; [done|].
  apply first_err_None in Eadm. rewrite !Forall_cons in Eadm.
  destruct Eadm as (_ & _ & _ & _ & _ & _ & Ecap & _). apply fails_None in Ecap. breflect.
  set (rc := match or_controls run with Some c => Ok c | None => _ end).
  destruct rc as [c|e] eqn:Erc; [|done].
  assert (Hc : rc_tickets c !! ci_request_id (cq_intent q) = None /\ rc_busy c = false /\
    (or_controls run = Some c \/ or_controls run = None /\ rc_tickets c = ∅ /\
       NewControlLedger (ol_identity (cq_selection q)) = Ok (rc_ledger c))).
  { unfold rc in Erc. destruct (or_controls run) as [c0|].
    - injection Erc as ->. auto.
    - unfold wrap_err in Erc. destruct (NewControlLedger _) as [l|]; [|done]. injection Erc as <-. simpl.
      split_and!; auto. }
  destruct Hc as (Ht & Hb & Hctl). cbv zeta.
  set (a := fresh _). assert (Ha : rt_heap s1 !! a = None) by (apply not_elem_of_dom, is_fresh).
  match goal with |- context [changedLocked ?s2] =>
    assert (E4 : rt_runs (changedLocked s2) = rt_runs s2 /\ rt_heap (changedLocked s2) = rt_heap s2 /\
      rt_controlsPending (changedLocked s2) = rt_controlsPending s2) by (unfold changedLocked; by destruct (_ =? _))
  end.
  destruct E4 as (R1 & R2 & R3). rewrite <-E2, <-E3. exists run, c, fp. split_and!; try done.
  intros r' d. unfold has_controls. rewrite R1. simpl. rewrite E1.
  apply (put_controls_new s _ run _ Hr r' d).
Qed.

Lemma sys_ok_request y ctx random q : sys_ok y -> sys_ok (request_control y ctx random q).
Proof.
  intros Hy. unfold request_control. pose proof (admit_cases (sy_rt y) ctx random q) as H.
  destruct (Control_admit (sy_rt y) ctx random q) as [s' adm].
  destruct adm as [e|a|a]; [| |cbv zeta in H];
    [destruct H as (E1 & E2 & E3); apply sys_ok_same; try done; intros; unfold has_controls; by rewrite E1..|].
  destruct H as (run & c & fp & Hr & Ha & Hi & Ht & Hb & Hcap & Hctl & Honly & Eh & Ep).
  set (i := cq_intent q) in *. set (sel := cq_selection q) in *. set (r := li_run (ol_identity sel)) in *.
  set (c' := mkRunControls _ _ _) in Honly. set (t := mkTicket _ _ _ _ _) in Eh.
  assert (Hold : forall d, has_controls (sy_rt y) r d -> d = c).
  { intros d (run0 & H1 & H2). destruct Hctl as [|[? _]]; congruence. }
  assert (Hidle : forall b w, sy_workers y !! b <> Some (r, w)).
  { intros b w Hw. destruct (so_worker _ Hy _ _ _ Hw) as (d & t0 & [D1 _ _ D4 _ _]).
    rewrite (Hold d D1) in D4. congruence. }
  assert (Hna : sy_workers y !! a = None).
  { destruct (sy_workers y !! a) as [[r0 w]|] eqn:E; [|done].
    destruct (so_worker _ Hy _ _ _ E) as (d & t0 & [_ D2 _ _ _ _]). congruence. }
  assert (Hwf : Control.wf (rc_ledger c) /\ (forall id e, cl_entries (rc_ledger c) !! id = Some e ->
    cs_outcome (ce_snapshot e) = ControlDelivered -> mkRef r id ∈ sy_effects y)).
  { destruct Hctl as [E|(E & _ & En)].
    - apply (so_ledger _ Hy r c). by exists run.
    - split; [by apply (NewControlLedger_wf _ _ En)|]. unfold NewControlLedger in En.
      destruct (negb _); [done|]. injection En as En. intros k e He. by rewrite <-En in He. }
  assert (Htick : forall id b, rc_tickets c !! id = Some b -> has_controls (sy_rt y) r c).
  { intros id b Hib. destruct Hctl as [E|(_ & E & _)]; [by exists run|]. by rewrite E in Hib. }
  split; simpl.
  - intros b r' w [[<- [= <- <-]]|[Hne Hb0]]%lookup_insert_Some.
    + exists c', t. split; simpl; try done.
      * apply Honly. by left.
      * by rewrite Eh, lookup_insert_eq.
      * unfold request_of. simpl. by rewrite lookup_insert_eq.
    + destruct (so_worker _ Hy _ _ _ Hb0) as (d & t0 & [D1 D2 D3 D4 D5 D6]).
      assert (r' <> r) by (intros ->; by apply (Hidle b w)).
      exists d, t0. split; simpl; try done; [apply Honly; by right|].
      rewrite Eh, lookup_insert_ne; [done|]. congruence.
  - intros b b' r' w v [[<- [= <- <-]]|[N1 H1]]%lookup_insert_Some [[<- E2]|[N2 H2]]%lookup_insert_Some; try done.
    + exfalso. by eapply Hidle.
    + injection E2 as <- <-. exfalso. by eapply Hidle.
    + by eapply (so_single _ Hy).
  - intros r' d id b Hd Hb0. apply Honly in Hd as [[-> ->]|[Hne Hd]].
    + simpl in Hb0. apply lookup_insert_Some in Hb0 as [[<- <-]|[Hid Hb0]].
      * exists t. by rewrite Eh, lookup_insert_eq.
      * destruct (so_tickets _ Hy r c id b (Htick _ _ Hb0) Hb0) as (t0 & H0 & ?). exists t0.
        rewrite Eh, lookup_insert_ne by congruence. done.
    + destruct (so_tickets _ Hy r' d id b Hd Hb0) as (t0 & H0 & ?). exists t0.
      rewrite Eh, lookup_insert_ne by congruence. done.
  - intros r' d Hd. apply Honly in Hd as [[-> ->]|[Hne Hd]]; [done|]. by apply (so_ledger _ Hy).
  - intros r' d Hd Hbusy. apply Honly in Hd as [[-> ->]|[Hne Hd]].
    + exists a, WAdmit. by rewrite lookup_insert_eq.
    + destruct (so_busy _ Hy r' d Hd Hbusy) as (b & w & Hb0). exists b, w. rewrite lookup_insert_ne; [done|].
      congruence.
  - destruct (so_pending _ Hy) as [E1 E2]. rewrite Ep, map_size_insert_None by done. lia.
  - intros r' id Hin. destruct (so_effects _ Hy _ _ Hin) as (Hres & d & b & Hd & Hb0 & Hw0). split; [done|].
    assert (Hba : b <> a).
    { intros ->. destruct (so_tickets _ Hy r' d id a Hd Hb0) as (t0 & H0 & _). congruence. }
    destruct (decide (r' = r)) as [->|Hne].
    + rewrite (Hold d Hd) in Hb0. exists c', b. split_and!; [apply Honly; by left| |].
      * simpl. rewrite lookup_insert_ne; [done|]. congruence.
      * intros w. rewrite lookup_insert_ne by done. apply Hw0.
    + exists d, b. split_and!; [apply Honly; by right|done|].
      intros w. rewrite lookup_insert_ne by done. apply Hw0.
  - apply (so_once _ Hy).
Qed.

Lemma sys_ok_step y y' : sys_ok y -> system_step y y' -> sys_ok y'.
Proof.
  intros Hy Hs. destruct Hs as [y ctx random q|y a n|y s Ho].
  - by apply sys_ok_request.
  - by apply sys_ok_turn.
  - by apply sys_ok_outside.
Qed.

(** ** Properties

    A runtime that no control has reached yet. *)
Definition new_system (s : Runtime) : System := mkSystem s ∅ [] [].
Definition fresh_runtime (s : Runtime) : Prop :=
  rt_controlsPending s = 0 /\ forall r run, rt_runs s !! r = Some run -> or_controls run = None.

Lemma new_system_ok s : fresh_runtime s -> sys_ok (new_system s).
Proof.
  intros [Hp Hn].
  assert (Hnone : forall r c, ~ has_controls s r c).
  { intros r c (run & Hr & Hc). by rewrite (Hn r run Hr) in Hc. }
  split; simpl; try done.
  - intros r c id a Hc. by apply Hnone in Hc.
  - intros r c Hc. by apply Hnone in Hc.
  - intros r c Hc. by apply Hnone in Hc.
  - by rewrite Hp.
  - intros r id Hin. by apply elem_of_nil in Hin.
  - constructor.
Qed.

Lemma run_ok s y : fresh_runtime s -> star system_step (new_system s) y -> sys_ok y.
Proof.
  intros Hs Hr. by apply (star_invariant system_step sys_ok sys_ok_step _ _ Hr), new_system_ok.
Qed.

(** (C5) An effect on a child is applied at most once, and never without its
    durable reservation.  In every interleaving of requests, replays,
    goroutines, run transitions and shutdown, and whatever the child and the
    journal answer: no request of a run is applied twice; each applied one was
    reserved in the journal before and keeps its ticket, so that a replay
    finds it; and a ticket answers delivered only if its effect was applied. *)
Theorem control_effect_once s y :
  fresh_runtime s -> star system_step (new_system s) y ->
  NoDup (sy_effects y) /\
  (forall r id, mkRef r id ∈ sy_effects y -> mkRef r id ∈ sy_reserved y /\
     exists c a, has_controls (sy_rt y) r c /\ rc_tickets c !! id = Some a) /\
  (forall r c id a t, has_controls (sy_rt y) r c -> rc_tickets c !! id = Some a -> rt_heap (sy_rt y) !! a = Some t ->
     cs_outcome (cr_receipt (ct_result t)) = ControlDelivered -> mkRef r id ∈ sy_effects y).
Proof.
  intros Hs Hr. pose proof (run_ok s y Hs Hr) as Hy. split_and!.
  - apply (so_once _ Hy).
  - intros r id Hin. destruct (so_effects _ Hy r id Hin) as (Hres & c & a & Hc & Ha & _). eauto.
  - intros r c id a t Hc Ha Ht Hd. destruct (so_tickets _ Hy r c id a Hc Ha) as (t' & Ht' & _ & _ & H).
    rewrite Ht in Ht'. injection Ht' as <-. auto.
Qed.

(** The coordinator counts what it runs.  In every reachable state the
    pending counter, which shutdown waits for, is the number of goroutines at
    work, at most thirty-two; a run has at most one of them, and has one while
    it is busy; and every run's ledger keeps its capacity invariant. *)
Theorem control_pending_exact s y :
  fresh_runtime s -> star system_step (new_system s) y ->
  rt_controlsPending (sy_rt y) = Z.of_nat (size (sy_workers y)) /\
  rt_controlsPending (sy_rt y) <= MaxControlCoordinators /\
  (forall a b r w v, sy_workers y !! a = Some (r, w) -> sy_workers y !! b = Some (r, v) -> a = b) /\
  (forall r c, has_controls (sy_rt y) r c ->
     (rc_busy c = true <-> exists a w, sy_workers y !! a = Some (r, w)) /\ Control.wf (rc_ledger c)).
Proof.
  intros Hs Hr. pose proof (run_ok s y Hs Hr) as Hy. destruct (so_pending _ Hy) as [E1 E2].
  split_and!; [done|done|apply (so_single _ Hy)|].
  intros r c Hc. split; [|exact (proj1 (so_ledger _ Hy r c Hc))]. split; [by apply (so_busy _ Hy)|].
  intros (a & w & Hw). destruct (so_worker _ Hy _ _ _ Hw) as (d & t & [D1 _ _ D4 _ _]).
  by rewrite (has_controls_fun _ _ _ _ Hc D1).
Qed.

(** How many turns a goroutine has left at most. *)
Definition turns_left (w : Worker) : nat :=
  match w with
  | WAdmit => 8 | WReserve => 7 | WJournal _ => 6 | WApply _ => 5 | WRollback _ => 4
  | WComplete _ _ => 4 | WLedger _ => 3 | WReject _ => 2 | WFinish _ _ _ => 1 | WDone => 0
  end.

Lemma turn_decreases s a r run c t w n s' w' :
  turn s a r run c t w n = (s', w') -> w <> WDone -> (turns_left w' < turns_left w)%nat.
Proof.
  intros H Hw. destruct w; simpl in *; try done.
  - unfold perform_admit in H. destruct (first_err _); injection H as <- <-; simpl; lia.
  - unfold perform_reserve in H. destruct (_ <>?s _); [injection H as <- <-; simpl; lia|].
    destruct (Reserve _ _ _) as [l [[p b]|e]]; injection H as <- <-; simpl; lia.
  - unfold perform_journal in H. split_ifs; lia.
  - destruct (perform_apply_ok pending (tn_ctx n) (tn_apply n)) as (ef & er & E & _). rewrite E in H.
    injection H as <- <-. simpl. lia.
  - unfold rollbackControl in H. destruct (AbandonUncommitted _ _) as [l [e'|]]; injection H as <- <-; simpl; lia.
  - injection H as <- <-. simpl. lia.
  - unfold complete_ledger in H. destruct (Complete _ _ _ _) as [l f]. injection H as <- <-. simpl. lia.
  - injection H as <- <-. simpl. lia.
  - injection H as <- <-. simpl. lia.
Qed.

(** Every accepted control is answered.  From any reachable state a
    goroutine is gone after at most eight turns of its own, whatever it is
    answered: each turn brings it closer, or files a final outcome, closes
    the ticket for every caller that waits, and gives back its place; and the
    steps of others leave it where it is. *)
Theorem control_answered s y a r w :
  fresh_runtime s -> star system_step (new_system s) y -> sy_workers y !! a = Some (r, w) ->
  (forall n, let y' := take_turn y a n in
     (exists w', sy_workers y' !! a = Some (r, w') /\ (turns_left w' < turns_left w <= 8)%nat) \/
     (sy_workers y' !! a = None /\ exists t, rt_heap (sy_rt y') !! a = Some t /\ ct_done t = true /\
        cs_outcome (cr_receipt (ct_result t)) <> ControlPending)) /\
  (forall b n, b <> a -> sy_workers (take_turn y b n) !! a = Some (r, w)) /\
  (forall ctx random q, sy_workers (request_control y ctx random q) !! a = Some (r, w)).
Proof.
  intros Hs Hr Hw. pose proof (run_ok s y Hs Hr) as Hy.
  destruct (so_worker _ Hy _ _ _ Hw) as (c & t & [(run & Hrun & Hctl) Ht Hf Hb Ho Hok]). split_and!.
  - intros n. cbv zeta. unfold take_turn. rewrite Hw, Hrun, Ht, Hctl.
    destruct (turn (sy_rt y) a r run c t w n) as [s' w'] eqn:Et.
    assert (Hnd : w <> WDone) by (intros ->; done).
    pose proof (turn_decreases _ _ _ _ _ _ _ _ _ _ Et Hnd) as Hlt.
    assert (Hmax : (turns_left w <= 8)%nat) by (destruct w; simpl; lia).
    assert (Hcase : w' = WDone \/ w' <> WDone) by (destruct w'; first [by left|by right]).
    destruct Hcase as [->|Hne].
    + right. simpl. rewrite lookup_delete_eq. split; [done|].
      destruct w as [| |p|p|e|ef er|res|e|res er drop|]; simpl in Et; try done.
      * unfold perform_admit in Et. by destruct (first_err _).
      * unfold perform_reserve in Et. destruct (_ <>?s _); [done|]. by destruct (Reserve _ _ _) as [l [[p b]|e]].
      * unfold perform_journal in Et. destruct (ControlReceiptFrom _); [|done].
        destruct (tn_journal n); [by destruct (_ && _)|done].
      * destruct (perform_apply_ok p (tn_ctx n) (tn_apply n)) as (ef & er & E & _). by rewrite E in Et.
      * unfold rollbackControl in Et. by destruct (AbandonUncommitted _ _) as [l [e'|]].
      * unfold complete_ledger in Et. by destruct (Complete _ _ _ _) as [l f].
      * injection Et as <-. destruct Hok as (_ & Hp & _).
        exists (mkTicket (ct_intent t) (ct_fingerprint t) res er true). split; [|done].
        unfold finishControl. cbv zeta. unfold changedLocked. destruct (_ =? _); simpl; by rewrite lookup_insert_eq.
    + left. exists w'. split; [|done].
      destruct w'; try done; simpl; by rewrite lookup_insert_eq.
  - intros b n Hne. unfold take_turn. destruct (sy_workers y !! b) as [[r0 w0]|]; [|done].
    destruct (rt_runs (sy_rt y) !! r0) as [run0|]; [|done]. destruct (rt_heap (sy_rt y) !! b) as [t0|]; [|done].
    destruct (or_controls run0); [|done]. destruct (turn _ _ _ _ _ _ _ _) as [s' w']. simpl.
    destruct w'; by rewrite ?lookup_insert_ne, ?lookup_delete_ne.
  - intros ctx random q. unfold request_control. pose proof (admit_cases (sy_rt y) ctx random q) as H.
    destruct (Control_admit (sy_rt y) ctx random q) as [s' [e|b|b]]; [done|done|].
    cbv zeta in H. destruct H as (_ & _ & _ & _ & Hb0 & _). simpl. rewrite lookup_insert_ne; [done|]. congruence.
Qed.

(** *** Witnesses *)

Definition ex_live : RunSnapshot := fst (Started Launch.ex_descriptor 4242).
Definition ex_runtime : Runtime :=
  mkRuntime {[ ex_run := mkOwnedRun true None ex_live true ]} ∅ None true 0 1 false false false false false.
Definition ex_request : ControlRequest :=
  mkControlRequest (selection_of ex_live) (mkIntent "in-1" ControlInput true false 2 0 0 0) (explode "ls").
Definition ex_answers : Answers :=
  mkTurn (mkAnswers None (Ok ex_profile) None None) None None (mkControlEffect ControlDelivered 2, None) None.
Fixpoint turns (k : nat) (y : System) : System :=
  match k with O => y | S k => turns k (take_turn y 0 ex_answers) end.
Definition ex_started : System := request_control (new_system ex_runtime) None (Some (repeat nul 32)) ex_request.

Lemma ex_runtime_fresh : fresh_runtime ex_runtime.
Proof.
  split; [done|]. intros r run H. unfold ex_runtime, rt_runs in H. by apply lookup_singleton_Some in H as [_ <-].
Qed.
Lemma star_turns k y : star system_step y (turns k y).
Proof.
  revert y. induction k as [|k IH]; intros y; simpl; [apply star_refl|].
  apply (star_step _ _ (take_turn y 0 ex_answers)); [apply ys_turn|apply IH].
Qed.
Lemma ex_reach k : star system_step (new_system ex_runtime) (turns k ex_started).
Proof. apply (star_step _ _ ex_started); [apply ys_request|apply star_turns]. Qed.

Lemma control_effect_once_witness :
  let y := turns 7 ex_started in
  fresh_runtime ex_runtime /\ star system_step (new_system ex_runtime) y /\
  sy_effects y = [mkRef ex_run "in-1"] /\ map_to_list (sy_workers y) = [] /\ NoDup (sy_effects y).
Proof.
  intros y. split; [exact ex_runtime_fresh|]. split; [exact (ex_reach 7)|].
  split; [vm_refl|]. split; [vm_refl|].
  destruct (control_effect_once ex_runtime y ex_runtime_fresh (ex_reach 7)) as [H _]. exact H.
Defined.

Lemma control_pending_exact_witness :
  let y := turns 3 ex_started in
  fresh_runtime ex_runtime /\ star system_step (new_system ex_runtime) y /\
  rt_controlsPending (sy_rt y) = 1 /\ rt_controlsPending (sy_rt y) = Z.of_nat (size (sy_workers y)).
Proof.
  intros y. split; [exact ex_runtime_fresh|]. split; [exact (ex_reach 3)|]. split; [vm_refl|].
  destruct (control_pending_exact ex_runtime y ex_runtime_fresh (ex_reach 3)) as [H _]. exact H.
Defined.

Lemma control_answered_witness :
  let y := turns 6 ex_started in
  exists w, sy_workers y !! 0%nat = Some (ex_run, w) /\ turns_left w = 1%nat /\
  forall ctx random q, sy_workers (request_control y ctx random q) !! 0%nat = Some (ex_run, w).
Proof.
  intros y.
  set (w := match sy_workers y !! 0%nat with Some (_, w) => w | None => WDone end).
  assert (Hw : sy_workers y !! 0%nat = Some (ex_run, w)) by vm_refl.
  exists w. split; [exact Hw|]. split; [vm_refl|].
  destruct (control_answered ex_runtime y 0 ex_run w ex_runtime_fresh (ex_reach 6) Hw) as (_ & _ & H). exact H.
Defined.
