(* ===== verification/Recovery.v ===== *)
(** * Recovery records, resume attempts and interruptions

    [src/domain/runtime/recovery.go], [resume.go] and [interruption.go].  The
    methods have pointer receivers and check them for nil; [method] is that
    check, so a receiver here is an option. *)

From S2P Require Import Prelude GoStrings Sha256 GoTime RuntimeValues Launch Control Lifecycle.

Definition method {S} (body : S -> S * option error) (p : option S) : option S * option error :=
  match p with
  | None => (None, Some ErrInvalid)
  | Some s => let '(s', e) := body s in (Some s', e)
  end.

(** ** Recovery bindings *)

Record RecoveryBinding := mkRecoveryBinding {
  rb_identity : LaunchIdentity; rb_target : Target; rb_profile : HostProfile; rb_pid : Z;
  rb_session : string; rb_history : string; rb_namespace : string;
  rb_model : string; rb_provider : string }.
#[global] Instance RecoveryBinding_eq_dec : EqDecision RecoveryBinding.
Proof. solve_decision. Defined.

Definition RecoveryBinding_zero : RecoveryBinding :=
  mkRecoveryBinding LaunchIdentity_zero (mkTarget Worktree_zero "") (mkHostProfile "" "" "" "" "")
    0 "" "" "" "" "".

Definition RecoveryBindingOf (s : RecoveryBinding) : result RecoveryBinding :=
  if negb (is_ok (LaunchDescriptorOf (rb_identity s) (rb_target s) (rb_profile s))) then Err ErrInvalid
  else if (rb_pid s <=? 0) || negb (observationCorrelation (rb_session s) false)
          || negb (validPath (rb_history s)) || negb (validMetadataDigest (rb_namespace s))
          || negb (printableLaunchValue (rb_model s) 256) || negb (printableLaunchValue (rb_provider s) 256)
  then Err ErrInvalid else Ok s.

Definition ConversationKey (b : RecoveryBinding) : string :=
  match RecoveryBindingOf b with
  | Err _ => ""
  | Ok _ => identity "n_" [hp_host (rb_profile b); rb_namespace b; rb_session b]
  end.

(** ** Recovery records *)

Record RecoveryRecord := mkRecoveryRecord { rr_binding : RecoveryBinding; rr_exited : bool; rr_code : Z }.
#[global] Instance RecoveryRecord_eq_dec : EqDecision RecoveryRecord.
Proof. solve_decision. Defined.

Definition RecoveryRecordFrom (s : RecoveryRecord) : result RecoveryRecord :=
  if negb (is_ok (RecoveryBindingOf (rr_binding s)))
     || negb (rr_exited s) && negb (rr_code s =? 0)
     || rr_exited s && ((rr_code s <? -1) || (255 <? rr_code s))
  then Err ErrInvalid else Ok s.

Definition NewRecoveryRecord (binding : RecoveryBinding) : result RecoveryRecord :=
  RecoveryRecordFrom (mkRecoveryRecord binding false 0).

Definition observe_owned_exit (id : LaunchIdentity) (code : Z) (r : RecoveryRecord)
  : RecoveryRecord * option error :=
  if (code <? -1) || (255 <? code) then (r, Some ErrInvalid)
  else if negb (bool_decide (id = rb_identity (rr_binding r))) || rr_exited r && negb (rr_code r =? code)
  then (r, Some ErrChanged)
  else (mkRecoveryRecord (rr_binding r) true code, None).
Definition ObserveOwnedExit (r : option RecoveryRecord) (id : LaunchIdentity) (code : Z) :=
  method (observe_owned_exit id code) r.

Definition with_model (b : RecoveryBinding) (model : string) : RecoveryBinding :=
  mkRecoveryBinding (rb_identity b) (rb_target b) (rb_profile b) (rb_pid b) (rb_session b)
    (rb_history b) (rb_namespace b) model (rb_provider b).

Definition observe_qualified_owned_exit (id : LaunchIdentity) (code : Z) (binding : RecoveryBinding)
  (r : RecoveryRecord) : RecoveryRecord * option error :=
  match RecoveryBindingOf binding with
  | Err e => (r, Some e)
  | Ok _ =>
      if negb (bool_decide (with_model (rr_binding r) (rb_model binding) = binding))
         || rr_exited r && negb (bool_decide (rr_binding r = binding))
      then (r, Some ErrChanged)
      else match observe_owned_exit id code r with
           | (r', Some e) => (r', Some e)
           | (r', None) => (mkRecoveryRecord binding (rr_exited r') (rr_code r'), None)
           end
  end.
Definition ObserveQualifiedOwnedExit (r : option RecoveryRecord) (id : LaunchIdentity) (code : Z)
  (binding : RecoveryBinding) :=
  method (observe_qualified_owned_exit id code binding) r.

(** *** Sealing *)

Inductive record_step : RecoveryRecord -> RecoveryRecord -> Prop :=
| step_exit_observed r id code r' e :
    ObserveOwnedExit (Some r) id code = (Some r', e) -> record_step r r'
| step_exit_qualified r id code b r' e :
    ObserveQualifiedOwnedExit (Some r) id code b = (Some r', e) -> record_step r r'.

(** The binding up to its model. *)
Definition same_conversation (b c : RecoveryBinding) : Prop := with_model b (rb_model c) = c.

(** What any call may do: nothing to a sealed record, and to an open one only
    seal it, possibly with the final model. *)
Definition record_follows (r s : RecoveryRecord) : Prop :=
  same_conversation (rr_binding r) (rr_binding s) /\ (rr_exited r = true -> s = r) /\
  (rr_exited s = false -> s = r).

Lemma same_conversation_refl b : same_conversation b b.
Proof. by destruct b. Qed.

Lemma observe_owned_exit_cases id code r :
  let '(r', e) := observe_owned_exit id code r in
  (r' = r /\ e <> None) \/
  (e = None /\ id = rb_identity (rr_binding r) /\ -1 <= code <= 255 /\
   r' = mkRecoveryRecord (rr_binding r) true code /\ (rr_exited r = true -> r' = r)).
Proof.
  unfold observe_owned_exit. destruct (_ || _) eqn:E1; [by left|]. breflect.
  destruct (negb _ || _) eqn:E2; [by left|]. breflect. right. split_and!; auto; try lia.
  destruct r as [b x c]. simpl in *. intros ->. simpl in *. breflect. congruence.
Qed.

Lemma observe_qualified_cases id code b r :
  let '(r', e) := observe_qualified_owned_exit id code b r in
  (r' = r /\ e <> None) \/
  (e = None /\ is_ok (RecoveryBindingOf b) = true /\ same_conversation (rr_binding r) b /\
   -1 <= code <= 255 /\ r' = mkRecoveryRecord b true code /\ (rr_exited r = true -> r' = r)).
Proof.
  unfold observe_qualified_owned_exit. destruct (RecoveryBindingOf b) eqn:Eb; [|by left].
  destruct (_ || _) eqn:E1; [by left|]. breflect.
  pose proof (observe_owned_exit_cases id code r) as Hc.
  destruct (observe_owned_exit id code r) as [r' [e|]].
  - left. destruct Hc as [[-> ?]|(? & _)]; [|done]. done.
  - destruct Hc as [[_ ?]|(_ & Hid & Hcode & -> & Hsame)]; [done|]. right. simpl.
    split_and!; auto; try lia. intros Hx. rewrite Hx in *. simpl in *. breflect.
    rewrite <-H0 in *. by apply Hsame.
Qed.

Lemma record_step_follows r s : record_step r s -> record_follows r s.
Proof.
  intros Hs. unfold record_follows.
  destruct Hs as [r id code r' e H|r id code b r' e H];
    unfold ObserveOwnedExit, ObserveQualifiedOwnedExit, method in H.
  - pose proof (observe_owned_exit_cases id code r) as Hc.
    destruct (observe_owned_exit id code r) as [r1 e1]. injection H as -> ->.
    destruct Hc as [[-> _]|(_ & _ & _ & -> & Hs)]; split_and!; auto using same_conversation_refl; done.
  - pose proof (observe_qualified_cases id code b r) as Hc.
    destruct (observe_qualified_owned_exit id code b r) as [r1 e1]. injection H as -> ->.
    destruct Hc as [[-> _]|(_ & _ & Hb & _ & -> & Hs)]; split_and!; auto using same_conversation_refl; done.
Qed.

Lemma same_conversation_trans b c d :
  same_conversation b c -> same_conversation c d -> same_conversation b d.
Proof. unfold same_conversation. intros <- <-. done. Qed.

Lemma record_follows_trans r s t : record_follows r s -> record_follows s t -> record_follows r t.
Proof.
  intros (A1 & A2 & A3) (B1 & B2 & B3). split_and!.
  - by eapply same_conversation_trans.
  - intros Hr. pose proof (A2 Hr) as ->. by apply B2.
  - intros Ht. pose proof (B3 Ht) as ->. by apply A3.
Qed.

Definition record_wf (r : RecoveryRecord) : Prop := is_ok (RecoveryRecordFrom r) = true.

Lemma record_wf_checked r : record_wf r -> RecoveryRecordFrom r = Ok r.
Proof. unfold record_wf, RecoveryRecordFrom. by destruct (_ || _). Qed.

Lemma record_wf_iff r : record_wf r <->
  is_ok (RecoveryBindingOf (rr_binding r)) = true /\
  (rr_exited r = false -> rr_code r = 0) /\ (rr_exited r = true -> -1 <= rr_code r <= 255).
Proof.
  unfold record_wf, RecoveryRecordFrom. split.
  - destruct (_ || _) eqn:E; [done|]. breflect. intros _. split; [done|].
    destruct (rr_exited r); simpl in *; breflect; split; intros; try done; lia.
  - intros (-> & H1 & H2). destruct (rr_exited r); simpl.
    + destruct (H2 eq_refl). destruct (_ || _) eqn:E; [|done].
      apply orb_true_iff in E as [E|E]; breflect; lia.
    + by rewrite H1.
Qed.

Lemma record_step_wf r s : record_wf r -> record_step r s -> record_wf s.
Proof.
  rewrite !record_wf_iff. intros (H1 & H2 & H3) Hs.
  destruct Hs as [r id code r' e H|r id code b r' e H];
    unfold ObserveOwnedExit, ObserveQualifiedOwnedExit, method in H.
  - pose proof (observe_owned_exit_cases id code r) as Hc.
    destruct (observe_owned_exit id code r) as [r1 e1]. injection H as -> ->.
    by destruct Hc as [[-> _]|(_ & _ & ? & -> & _)].
  - pose proof (observe_qualified_cases id code b r) as Hc.
    destruct (observe_qualified_owned_exit id code b r) as [r1 e1]. injection H as -> ->.
    by destruct Hc as [[-> _]|(_ & ? & _ & ? & -> & _)].
Qed.

(** An owned exit is sealed.  From a new record, whatever exits are
    reported, every state passes the checks of [RecoveryRecordFrom] and still
    names the same conversation, process and target: only the model may have
    been refined, and only until the exit is sealed.  Once it is, no report of
    any identity, code or binding changes the record any more. *)
Theorem recovery_record_sealed b r0 r s :
  NewRecoveryRecord b = Ok r0 -> star record_step r0 r -> star record_step r s ->
  RecoveryRecordFrom s = Ok s /\ same_conversation b (rr_binding s) /\
  (rr_exited r = true -> s = r) /\ (rr_exited s = false -> s = r0).
Proof.
  intros H0 Hr Hs. unfold NewRecoveryRecord in H0.
  assert (Hwf : record_wf r0 /\ rr_binding r0 = b).
  { unfold RecoveryRecordFrom in H0. destruct (_ || _) eqn:E in H0; [done|]. injection H0 as <-.
    unfold record_wf, RecoveryRecordFrom. by rewrite E. }
  destruct Hwf as [Hwf <-].
  assert (Hfol : forall x y, star record_step x y -> record_follows x y).
  { intros x y Hxy. eapply (star_relation record_step (fun _ => True)); eauto.
    - intros z. unfold record_follows. auto using same_conversation_refl.
    - intros ??? ?; by apply record_follows_trans.
    - auto using record_step_follows. }
  assert (Hrs : star record_step r0 s) by (eapply star_trans; eauto).
  pose proof (star_invariant record_step record_wf record_step_wf _ _ Hrs Hwf) as Hws.
  destruct (Hfol _ _ Hrs) as (F1 & _ & F3). destruct (Hfol _ _ Hs) as (_ & F4 & _).
  split_and!; auto using record_wf_checked.
Qed.

(** The conversation key serializes exactly one native conversation:
    valid bindings share a key only if they have the same host, namespace
    witness and native session (or exhibit a SHA-256 collision), and whatever
    their profiles, models, targets, paths and processes, they do share it
    then. *)
Theorem conversation_key_exact b c :
  RecoveryBindingOf b = Ok b -> RecoveryBindingOf c = Ok c ->
  let native x := [hp_host (rb_profile x); rb_namespace x; rb_session x] in
  (native b = native c -> ConversationKey b = ConversationKey c) /\
  (ConversationKey b = ConversationKey c ->
     native b = native c \/ collision (identity_preimage (native b)) (identity_preimage (native c))).
Proof.
  intros Hb Hc native. unfold ConversationKey. rewrite Hb, Hc. split; [by unfold native; intros ->|].
  assert (Hfree : forall x, RecoveryBindingOf x = Ok x -> Forall nul_free (native x)).
  { intros x Hx. unfold RecoveryBindingOf in Hx. destruct (negb (is_ok _)) eqn:E1; [done|].
    destruct (_ || _) eqn:E2 in Hx; [done|]. breflect. unfold LaunchDescriptorOf in E1.
    destruct (_ || _) in E1; [done|]. unfold HostProfileFrom in E1.
    destruct (ProfileIDFrom _); [|done]. destruct (negb (known_host _)) eqn:Eh; [done|].
    unfold native. repeat apply Forall_cons_2; auto using Forall_nil_2 with traceary.
    apply negb_false_iff in Eh. unfold known_host in Eh. breflect.
    unfold nul_free. rewrite !elem_of_cons in Eh.
    destruct Eh as [->|[->|[->|[->|Eh]]]]; [..|by apply elem_of_nil in Eh];
      by apply (bool_decide_unpack _); vm_compute. }
  intros H. exact (identity_exact "n_" (native b) (native c) (Hfree b Hb) (Hfree c Hc) H).
Qed.

(** ** Resume attempts *)

Definition ResumeReserved : string := "reserved".
Definition ResumeStarted : string := "started".
Definition ResumeConfirmed : string := "confirmed".
Definition ResumeUnknown : string := "unknown".
Definition ResumeFailedBeforeStart : string := "failed_before_start".

Record ResumeAttempt := mkResume {
  ra_request : string; ra_binding : RecoveryBinding; ra_exit_code : Z; ra_next : LaunchIdentity;
  ra_phase : string; ra_confirmed : RecoveryBinding }.
#[global] Instance ResumeAttempt_eq_dec : EqDecision ResumeAttempt.
Proof. solve_decision. Defined.

(** [b] run by another process of identity [id]. *)
Definition with_process (b : RecoveryBinding) (id : LaunchIdentity) (pid : Z) : RecoveryBinding :=
  mkRecoveryBinding id (rb_target b) (rb_profile b) pid (rb_session b) (rb_history b)
    (rb_namespace b) (rb_model b) (rb_provider b).

Definition matchingResumeBinding (attempt : ResumeAttempt) (successor : RecoveryBinding) : bool :=
  if negb (is_ok (RecoveryBindingOf successor)) || negb (bool_decide (rb_identity successor = ra_next attempt))
  then false
  else
    let state := with_process successor (rb_identity (ra_binding attempt)) (rb_pid (ra_binding attempt)) in
    bool_decide (state = ra_binding attempt).

Definition ResumeAttemptFrom (s : ResumeAttempt) : result ResumeAttempt :=
  if negb (validControlRequestID (ra_request s)) || negb (LaunchIdentity_Valid (ra_next s))
     || (ra_exit_code s <? -1) || (255 <? ra_exit_code s)
  then Err ErrInvalid
  else if negb (is_ok (RecoveryBindingOf (ra_binding s)))
          || (li_run (ra_next s) =?s li_run (rb_identity (ra_binding s)))
          || (li_generation (ra_next s) =?s li_generation (rb_identity (ra_binding s)))
  then Err ErrInvalid
  else if slices_contains [ResumeReserved; ResumeStarted; ResumeUnknown; ResumeFailedBeforeStart] (ra_phase s)
  then if negb (bool_decide (ra_confirmed s = RecoveryBinding_zero)) then Err ErrInvalid else Ok s
  else if ra_phase s =?s ResumeConfirmed
  then if negb (matchingResumeBinding s (ra_confirmed s)) then Err ErrInvalid else Ok s
  else Err ErrInvalid.

Definition NewResumeAttempt (requestID : string) (record : option RecoveryRecord) (next : LaunchIdentity)
  : result ResumeAttempt :=
  match record with
  | None => Err ErrInvalid
  | Some r =>
      if negb (rr_exited r) then Err ErrChanged
      else ResumeAttemptFrom (mkResume requestID (rr_binding r) (rr_code r) next ResumeReserved RecoveryBinding_zero)
  end.

Definition set_phase (a : ResumeAttempt) (phase : string) (confirmed : RecoveryBinding) : ResumeAttempt :=
  mkResume (ra_request a) (ra_binding a) (ra_exit_code a) (ra_next a) phase confirmed.

(** The three label-only transitions are one [switch]: the phases that may
    move to [to]. *)
Definition move (from : list string) (to : string) (a : ResumeAttempt) : ResumeAttempt * option error :=
  if slices_contains from (ra_phase a) then (set_phase a to (ra_confirmed a), None)
  else (a, Some ErrChanged).

Definition MarkStarted (a : option ResumeAttempt) :=
  method (move [ResumeReserved; ResumeStarted] ResumeStarted) a.
Definition FailBeforeStart (a : option ResumeAttempt) :=
  method (move [ResumeReserved; ResumeFailedBeforeStart] ResumeFailedBeforeStart) a.
Definition MarkUnknown (a : option ResumeAttempt) :=
  method (move [ResumeReserved; ResumeStarted; ResumeUnknown] ResumeUnknown) a.

Definition confirm (successor : RecoveryBinding) (a : ResumeAttempt) : ResumeAttempt * option error :=
  if negb (matchingResumeBinding a successor) then (a, Some ErrChanged)
  else if slices_contains [ResumeStarted; ResumeUnknown] (ra_phase a)
  then (set_phase a ResumeConfirmed successor, None)
  else if ra_phase a =?s ResumeConfirmed
  then if bool_decide (ra_confirmed a = successor) then (a, None) else (a, Some ErrChanged)
  else (a, Some ErrChanged).
Definition ResumeAttempt_Confirm (a : option ResumeAttempt) (successor : RecoveryBinding) :=
  method (confirm successor) a.

Inductive resume_step : ResumeAttempt -> ResumeAttempt -> Prop :=
| step_mark_started a b e : MarkStarted (Some a) = (Some b, e) -> resume_step a b
| step_fail a b e : FailBeforeStart (Some a) = (Some b, e) -> resume_step a b
| step_mark_unknown a b e : MarkUnknown (Some a) = (Some b, e) -> resume_step a b
| step_confirm a s b e : ResumeAttempt_Confirm (Some a) s = (Some b, e) -> resume_step a b.

(** The order of the phases: an attempt only moves to a phase of at least the
    same rank, and never leaves the two final ones. *)
Definition rank (phase : string) : Z :=
  if phase =?s ResumeReserved then 0 else if phase =?s ResumeStarted then 1
  else if phase =?s ResumeUnknown then 2 else 3.

Definition resume_follows (a b : ResumeAttempt) : Prop :=
  (ra_request b = ra_request a /\ ra_binding b = ra_binding a /\ ra_exit_code b = ra_exit_code a /\
   ra_next b = ra_next a) /\
  (rank (ra_phase a) < rank (ra_phase b) /\ rank (ra_phase a) < 3 \/ b = a).

Definition resume_wf (a : ResumeAttempt) : Prop := is_ok (ResumeAttemptFrom a) = true.

Lemma set_phase_same a : set_phase a (ra_phase a) (ra_confirmed a) = a.
Proof. by destruct a. Qed.

(** A transition function with the outcome of every phase computed. *)
Lemma move_follows from to a :
  Forall (fun p => rank p < rank to /\ rank p < 3 \/ p = to) from ->
  resume_follows a (fst (move from to a)).
Proof.
  intros Hf. unfold move. destruct (slices_contains _ _) eqn:E; breflect;
    (split; [done|]); [|by right].
  rewrite Forall_forall in Hf. simpl. destruct (Hf _ E) as [H|<-]; [by left|right].
  apply set_phase_same.
Qed.

Lemma resume_step_follows a b : resume_step a b -> resume_follows a b.
Proof.
  assert (Hm : forall from to a b e, method (move from to) (Some a) = (Some b, e) ->
            Forall (fun p => rank p < rank to /\ rank p < 3 \/ p = to) from -> resume_follows a b).
  { intros from to x y e H Hf. apply (move_follows from to x) in Hf. unfold method in H.
    destruct (move from to x) as [y' e']. simpl in Hf. by injection H as -> ->. }
  intros Hs. destruct Hs as [x y e H|x y e H|x y e H|x s y e H];
    [eapply Hm; [exact H|repeat apply Forall_cons_2; try apply Forall_nil_2; by vm_compute; auto]..|].
  unfold ResumeAttempt_Confirm, method, confirm in H.
  destruct (negb _); [injection H as -> _; split; [done|by right]|].
  destruct (slices_contains _ _) eqn:E2; breflect.
  - injection H as <- _. split; [done|left]. rewrite !elem_of_cons in E2.
    destruct E2 as [->|[->|E2]]; [by vm_compute..|by apply elem_of_nil in E2].
  - assert (y = x) as ->; [|split; [done|by right]]. by split_ifs.
Qed.

Lemma resume_follows_trans a b c : resume_follows a b -> resume_follows b c -> resume_follows a c.
Proof.
  intros ((A1&A2&A3&A4) & A5) ((B1&B2&B3&B4) & B5). split; [split_and!; congruence|].
  destruct A5 as [A5| ->], B5 as [B5| ->]; auto. left. lia.
Qed.

Lemma matching_set_phase a p c s :
  matchingResumeBinding (set_phase a p c) s = matchingResumeBinding a s.
Proof. done. Qed.

(** The checks of [ResumeAttemptFrom] that no transition touches, and the
    check that goes with the phase. *)
Definition open_phases : list string :=
  [ResumeReserved; ResumeStarted; ResumeUnknown; ResumeFailedBeforeStart].
Definition resume_base (a : ResumeAttempt) : Prop :=
  is_ok (ResumeAttemptFrom (set_phase a ResumeReserved RecoveryBinding_zero)) = true.
Definition phase_ok (a : ResumeAttempt) : Prop :=
  (ra_phase a ∈ open_phases /\ ra_confirmed a = RecoveryBinding_zero) \/
  (ra_phase a = ResumeConfirmed /\ matchingResumeBinding a (ra_confirmed a) = true).

Lemma ResumeAttemptFrom_ok s a : ResumeAttemptFrom s = Ok a -> a = s.
Proof. unfold ResumeAttemptFrom. intros H. by ok_inv H. Qed.
Lemma resume_wf_checked a : resume_wf a -> ResumeAttemptFrom a = Ok a.
Proof.
  unfold resume_wf. destruct (ResumeAttemptFrom a) as [b|] eqn:E; [|done].
  by apply ResumeAttemptFrom_ok in E as ->.
Qed.

Lemma resume_wf_iff a : resume_wf a <-> resume_base a /\ phase_ok a.
Proof.
  unfold resume_wf, resume_base, phase_ok, ResumeAttemptFrom.
  cbn [ra_request ra_next ra_exit_code ra_binding ra_phase ra_confirmed set_phase].
  destruct (_ || (255 <? _)) eqn:E1; [split; [done|by intros [? _]]|].
  destruct (_ || (li_generation _ =?s _)) eqn:E2; [split; [done|by intros [? _]]|].
  fold open_phases. change (slices_contains open_phases ResumeReserved) with true. cbn iota.
  rewrite (bool_decide_eq_true_2 (RecoveryBinding_zero = RecoveryBinding_zero)) by done. cbn.
  destruct (slices_contains open_phases (ra_phase a)) eqn:E3.
  - apply slices_contains_spec in E3. case_bool_decide; cbn; [by split; auto|]. split; [done|].
    intros (_ & [[_ ?]|[Hp _]]); [done|]. rewrite Hp in E3.
    apply slices_contains_spec in E3. discriminate E3.
  - destruct (ra_phase a =?s ResumeConfirmed) eqn:E4; breflect.
    + destruct (matchingResumeBinding _ _); cbn; [by split; auto|]. split; [done|].
      intros (_ & [[Hp _]|[_ ?]]); [|done]. apply slices_contains_spec in Hp. congruence.
    + split; [done|]. intros (_ & [[Hp _]|[? _]]); [|done].
      apply slices_contains_spec in Hp. congruence.
Qed.

Lemma phase_open a : phase_ok a -> ra_phase a <> ResumeConfirmed -> ra_confirmed a = RecoveryBinding_zero.
Proof. by intros [[_ ?]|[? _]]. Qed.

Lemma move_phase_ok from to a :
  phase_ok a -> Forall (fun p => p <> ResumeConfirmed) from -> to ∈ open_phases ->
  phase_ok (fst (move from to a)).
Proof.
  intros Hok Hf Hto. unfold move. destruct (slices_contains _ _) eqn:E; breflect; [|done].
  left. split; [done|]. simpl. apply phase_open; [done|]. rewrite Forall_forall in Hf. by apply Hf.
Qed.

Lemma confirm_phase_ok s a : phase_ok a -> phase_ok (fst (confirm s a)).
Proof.
  intros Hok. unfold confirm. destruct (negb (matchingResumeBinding a s)) eqn:E; [done|]. breflect.
  destruct (slices_contains _ _); [by right|]. by split_ifs.
Qed.

Lemma resume_step_wf a b : resume_wf a -> resume_step a b -> resume_wf b.
Proof.
  rewrite !resume_wf_iff. intros [Hb Hp] Hs.
  split.
  - destruct (resume_step_follows _ _ Hs) as [(R1 & R2 & R3 & R4) _].
    unfold resume_base, set_phase in *. by rewrite R1, R2, R3, R4.
  - assert (Hopen : forall from to e, method (move from to) (Some a) = (Some b, e) ->
       Forall (fun p => p <> ResumeConfirmed) from -> to ∈ open_phases -> phase_ok b).
    { intros from to e H Hf Hto. pose proof (move_phase_ok from to a Hp Hf Hto) as Hok.
      unfold method in H. destruct (move from to a). by injection H as -> ->. }
    destruct Hs as [a b e H|a b e H|a b e H|a s b e H]; [eapply Hopen; [exact H| |]..|];
      try (apply slices_contains_spec; reflexivity); try (repeat constructor; discriminate).
    pose proof (confirm_phase_ok s a Hp) as Hok.
    unfold ResumeAttempt_Confirm, method in H. destruct (confirm s a). by injection H as -> ->.
Qed.

(** A resume attempt starts at most one successor and never rearms.  An
    attempt is created only from a record whose owned exit was observed.
    Whatever transitions are attempted on it, its request, predecessor binding
    and successor identity never change, its phase only moves forward, and a
    confirmed or failed attempt is final.  Every state passes the checks of
    [ResumeAttemptFrom]; a confirmed one names the reserved successor and the
    same conversation, target, profile and model as its predecessor. *)
Theorem resume_attempt_one_way request record next a0 a b :
  NewResumeAttempt request record next = Ok a0 -> star resume_step a0 a -> star resume_step a b ->
  (exists r, record = Some r /\ rr_exited r = true /\ ra_binding b = rr_binding r) /\
  ra_request b = request /\ ra_next b = next /\ ResumeAttemptFrom b = Ok b /\
  rank (ra_phase a) <= rank (ra_phase b) /\ (rank (ra_phase a) = 3 -> b = a) /\
  (ra_phase b = ResumeConfirmed ->
     rb_identity (ra_confirmed b) = next /\
     with_process (ra_confirmed b) (rb_identity (ra_binding b)) (rb_pid (ra_binding b)) = ra_binding b).
Proof.
  intros H0 Ha Hb. assert (Hrec : exists r, record = Some r /\ rr_exited r = true /\ resume_wf a0 /\
    a0 = mkResume request (rr_binding r) (rr_code r) next ResumeReserved RecoveryBinding_zero).
  { unfold NewResumeAttempt in H0. destruct record as [r|]; [|done].
    destruct (negb _) eqn:Ex; [done|]. breflect. exists r. split_and!; [done|done| |].
    - unfold resume_wf. apply ResumeAttemptFrom_ok in H0 as E. by rewrite E, H0.
    - by apply ResumeAttemptFrom_ok in H0. }
  destruct Hrec as (r & -> & Hx & Hwf & ->).
  assert (Hfol : forall x y, star resume_step x y -> resume_follows x y).
  { intros x y Hxy. eapply (star_relation resume_step (fun _ => True)); eauto.
    - intros z. split; auto.
    - intros ???; apply resume_follows_trans.
    - auto using resume_step_follows. }
  pose proof (star_trans _ _ _ _ Ha Hb) as Hab.
  destruct (Hfol _ _ Hab) as ((F1 & F2 & _ & F4) & _). simpl in F1, F2, F4.
  destruct (Hfol _ _ Hb) as (_ & Hrank).
  pose proof (star_invariant resume_step resume_wf resume_step_wf _ _ Hab Hwf) as Hwb.
  split_and!; eauto using resume_wf_checked; [destruct Hrank as [?| ->]; lia|
    destruct Hrank as [?| ->]; [lia|done]|].
  intros Hc. apply resume_wf_iff in Hwb as [_ [[Hp _]|[_ Hm]]].
  { apply slices_contains_spec in Hp. rewrite Hc in Hp. discriminate Hp. }
  unfold matchingResumeBinding in Hm. destruct (negb _ || _) eqn:E; [done|]. breflect.
  split; [congruence|done].
Qed.

(** ** Interruptions *)

Record Interruption := mkInterruption {
  in_binding : FreshnessBinding; in_process_unknown : bool; in_pending : Z }.

Definition InterruptionFrom (s : Interruption) : result Interruption :=
  if negb (FreshnessBinding_valid (in_binding s)) || (in_pending s <? 0)
     || (MaxControlReceipts <? in_pending s) || negb (in_process_unknown s) && (in_pending s =? 0)
  then Err ErrInvalid else Ok s.

Definition InterruptionOf (snapshot : RunSnapshot) (pendingControls : Z) : result Interruption :=
  if (rn_state snapshot <>?s RunReserved) && (rn_state snapshot <>?s RunLive)
     && (rn_state snapshot <>?s RunExited)
  then Err ErrInvalid
  else InterruptionFrom
         (mkInterruption
            (mkFreshnessBinding (rn_identity snapshot) (w_id (t_worktree (rn_target snapshot)))
               (hp_id (rn_profile snapshot)))
            ((rn_state snapshot <>?s RunExited) || rn_uncertain snapshot) pendingControls).

Definition Status (i : Interruption) : string :=
  if in_process_unknown i then "orphaned" else "historical_unknown".

(** The exit of the run is known and published. *)
Definition settled (s : RunSnapshot) : Prop := rn_state s = RunExited /\ rn_uncertain s = false.

(** An earlier execution is classified without losing any of it.  For a
    run in a known state with a valid binding and a bounded number of pending
    controls, there is nothing to reconcile exactly when its exit is settled
    and no control is pending; otherwise the interruption keeps the original
    binding and count, and calls the process orphaned exactly when its exit is
    not settled. *)
Theorem interruption_exact s n :
  rn_state s ∈ [RunReserved; RunLive; RunExited] -> 0 <= n <= MaxControlReceipts ->
  let binding := mkFreshnessBinding (rn_identity s) (w_id (t_worktree (rn_target s))) (hp_id (rn_profile s)) in
  FreshnessBinding_valid binding = true ->
  (InterruptionOf s n = Err ErrInvalid <-> settled s /\ n = 0) /\
  (forall i, InterruptionOf s n = Ok i ->
     in_binding i = binding /\ in_pending i = n /\
     (Status i = "orphaned" <-> ~ settled s)).
Proof.
  intros Hst Hn binding Hb. unfold InterruptionOf, settled. fold binding.
  replace (_ && _ && _) with false.
  2: { symmetry. rewrite !elem_of_cons in Hst.
       destruct Hst as [->|[->|[->|Hst]]]; [done..|by apply elem_of_nil in Hst]. }
  assert (Hset : (rn_state s <>?s RunExited) || rn_uncertain s = false <->
                 rn_state s = RunExited /\ rn_uncertain s = false).
  { rewrite orb_false_iff, negb_false_iff, String.eqb_eq. done. }
  set (u := (rn_state s <>?s RunExited) || rn_uncertain s) in *.
  unfold InterruptionFrom. cbn [in_binding in_pending in_process_unknown]. rewrite Hb.
  replace (n <? 0) with false by (symmetry; apply Z.ltb_ge; lia).
  replace (MaxControlReceipts <? n) with false by (symmetry; apply Z.ltb_ge; lia). simpl.
  rewrite <-Hset. clearbody u. split.
  - destruct u; simpl; [by split; [|intros [? _]]|]. destruct (n =? 0) eqn:E; breflect; [by split; auto|].
    by split; [|intros [_ ?]].
  - intros i Hi. destruct (_ && _); [done|]. injection Hi as <-. simpl. split_and!; auto.
    unfold Status. simpl. rewrite <-Hset. destruct u; split; [by intros _ ?|done|done|intros H; by destruct H].
Qed.

(** ** Examples *)

Definition ex_recovery : RecoveryBinding :=
  mkRecoveryBinding ex_identity ex_target ex_profile 4242 "native-1" "/home/u/.codex/s.jsonl"
    (implode (repeat "a"%char 64)) "model-1" "provider".
Definition ex_record : RecoveryRecord := mkRecoveryRecord ex_recovery false 0.
Definition ex_sealed : RecoveryRecord := mkRecoveryRecord (with_model ex_recovery "model-2") true 0.

Lemma ex_record_new : NewRecoveryRecord ex_recovery = Ok ex_record.
Proof. vm_refl. Qed.
Lemma ex_record_exit :
  ObserveQualifiedOwnedExit (Some ex_record) ex_identity 0 (with_model ex_recovery "model-2") =
  (Some ex_sealed, None).
Proof. vm_refl. Qed.

Lemma recovery_record_sealed_witness :
  let s := match ObserveOwnedExit (Some ex_sealed) ex_identity 9 with (Some s, _) => s | _ => ex_sealed end in
  RecoveryRecordFrom s = Ok s /\ same_conversation ex_recovery (rr_binding s) /\
  (rr_exited ex_sealed = true -> s = ex_sealed) /\ (rr_exited s = false -> s = ex_record).
Proof.
  cbv zeta. apply (recovery_record_sealed ex_recovery ex_record); [exact ex_record_new| |].
  - apply star_one. eapply step_exit_qualified. exact ex_record_exit.
  - apply star_one, (step_exit_observed ex_sealed ex_identity 9 _ (Some ErrChanged)). reflexivity.
Defined.

Definition ex_recovery2 : RecoveryBinding :=
  mkRecoveryBinding ex_identity ex_target ex_profile 77 "native-1" "/elsewhere"
    (implode (repeat "a"%char 64)) "model-9" "provider".
Lemma conversation_key_exact_witness : ConversationKey ex_recovery = ConversationKey ex_recovery2.
Proof. apply (conversation_key_exact ex_recovery ex_recovery2); [by vm_compute..|done]. Defined.

Definition ex_next_run : string := "00000000000000000000000000000002".
Definition ex_next : LaunchIdentity := mkLaunchIdentity ex_next_run ex_next_run ex_run.
Definition ex_attempt : ResumeAttempt :=
  mkResume "resume-1" (rr_binding ex_sealed) 0 ex_next ResumeReserved RecoveryBinding_zero.
Definition ex_unknown : ResumeAttempt := set_phase ex_attempt ResumeUnknown RecoveryBinding_zero.
Definition ex_successor : RecoveryBinding := with_process (rr_binding ex_sealed) ex_next 99.
Definition ex_confirmed : ResumeAttempt := set_phase ex_attempt ResumeConfirmed ex_successor.

Lemma ex_attempt_new : NewResumeAttempt "resume-1" (Some ex_sealed) ex_next = Ok ex_attempt.
Proof. vm_refl. Qed.
Lemma ex_attempt_confirm :
  ResumeAttempt_Confirm (Some ex_unknown) ex_successor = (Some ex_confirmed, None).
Proof. vm_refl. Qed.

Lemma resume_attempt_one_way_witness :
  with_process ex_successor (rb_identity (ra_binding ex_confirmed)) (rb_pid (ra_binding ex_confirmed))
    = ra_binding ex_confirmed.
Proof.
  refine (proj2 (proj2 (proj2 (proj2 (proj2 (proj2 (proj2
    (resume_attempt_one_way "resume-1" (Some ex_sealed) ex_next ex_attempt ex_unknown ex_confirmed
       ex_attempt_new _ _)))))) eq_refl)).
  - apply star_one. eapply step_mark_unknown. reflexivity.
  - apply star_one. eapply step_confirm. exact ex_attempt_confirm.
Defined.

Definition ex_lost_run : RunSnapshot :=
  mkRunSnapshot ex_identity
    (mkTarget (mkWorktree ("w_" +:+ implode (repeat "0"%char 64)) "p_1" "/repo" "/repo/.git" "/s.db" "x") "codex-main")
    ex_profile RunLive 4242 0 false.
Lemma interruption_exact_witness :
  is_ok (InterruptionOf ex_lost_run 0) = true /\
  (InterruptionOf ex_lost_run 0 = Err ErrInvalid <-> settled ex_lost_run /\ 0 = 0).
Proof.
  split; [by vm_compute|]. apply (interruption_exact ex_lost_run 0); [|split; discriminate|by vm_compute].
  apply slices_contains_spec. reflexivity.
Defined.
