(* ===== verification/Owner.v ===== *)
(** * Ownership of launched and resumed processes

    [src/application/runtime/launch.go] and [resume.go]: the runtime admits a
    bounded number of launch and resume requests, each identified by its
    request, prepares them outside its mutex, reserves them durably, starts a
    child once, and keeps the child until its exit is known.  Tickets and runs
    are pointers that callers, goroutines and the runtime's maps share, so
    they live in heaps.  A goroutine is the sequence of its sections between
    two acquisitions of the mutex; what the registry, the catalog, the
    launcher, the journal and the deadline answer is an argument.  The
    theorems are in [Ownership.v]. *)

From S2P Require Import Prelude GoStrings GoTime RuntimeValues Launch Control Lifecycle Recovery Output OutputCapture.

Definition launch_unknown : string := "runtime launch outcome uncertain; inspect the original request without replay".
Definition ErrLaunchUnknown : error := Sentinel launch_unknown.
Definition context_canceled : string := "context canceled".
Definition context_deadline : string := "context deadline exceeded".

(** ** Requests and tickets *)

Record LaunchRequest := mkLaunchRequest {
  lq_epoch : string; lq_worktree : string; lq_profile : string; lq_request : string }.
#[global] Instance LaunchRequest_eq_dec : EqDecision LaunchRequest.
Proof. solve_decision. Defined.

Definition validLaunchRequest (r : LaunchRequest) : bool :=
  if (slen (lq_request r) =? 0) || (128 <? slen (lq_request r)) then false
  else if negb (forallb (fun c => negb ((c <? 33) || (126 <? c))) (range_runes (lq_request r))) then false
  else is_ok (ProfileIDFrom (lq_profile r)) && (slen (lq_worktree r) =? 66) && HasPrefix (lq_worktree r) "w_".

(** The zero value of a descriptor. *)
Definition run_zero : RunSnapshot :=
  mkRunSnapshot LaunchIdentity_zero (mkTarget Worktree_zero "") (mkHostProfile "" "" "" "" "") "" 0 0 false.

(** [lt_cancelled] is a call of the ticket's cancel function; [done] is closed
    in the section that sets [complete]. *)
Record launchTicket := mkLaunch {
  lt_request : LaunchRequest; lt_cancelled : bool; lt_waiters : Z;
  lt_starting : bool; lt_complete : bool; lt_aborted : bool; lt_abandoned : bool;
  lt_descriptor : RunSnapshot; lt_result : RunSnapshot; lt_err : option error }.

Record ResumeRequest := mkResumeRequest {
  sq_epoch : string; sq_selection : OutputSelection; sq_request : string; sq_acknowledged : bool }.
#[global] Instance ResumeRequest_eq_dec : EqDecision ResumeRequest.
Proof. solve_decision. Defined.

Definition ResumeRequest_Valid (r : ResumeRequest) : bool :=
  let sel := sq_selection r in
  if negb (sq_acknowledged r) || negb (LaunchIdentity_Valid (ol_identity sel))
     || negb (LaunchIdentity_Valid (mkLaunchIdentity (sq_epoch r) (sq_epoch r) (sq_epoch r))) then false
  else if negb (validLaunchRequest (mkLaunchRequest (sq_epoch r) (ol_worktree sel) (ol_profile sel) (sq_request r)))
  then false
  else
    let digits := TrimPrefix (ol_worktree sel) "w_" in
    match DecodeString digits with
    | None => false
    | Some bytes => if EncodeToString bytes <>?s digits then false else is_ok (ControlRequestIDFrom (sq_request r))
    end.

Record ResumeResult := mkResumeResult { sr_selection : OutputSelection; sr_phase : string; sr_owned : bool }.
#[global] Instance ResumeResult_eq_dec : EqDecision ResumeResult.
Proof. solve_decision. Defined.
Definition selection_zero : OutputSelection := mkSelection LaunchIdentity_zero "" "".
Definition resume_zero : ResumeResult := mkResumeResult selection_zero "" false.

Record resumeTicket := mkResumeTicket {
  st_request : ResumeRequest; st_cancelled : bool; st_waiters : Z;
  st_starting : bool; st_complete : bool; st_attached : bool; st_possibleChild : bool;
  st_descriptor : RunSnapshot; st_result : ResumeResult; st_err : option error }.

(** The publication and ownership fields of [ownedRun]; a child is its
    process id, and its observations and controls are other components'. *)
Record ownedRun := mkOwned {
  or_published : bool; or_recoveryExpected : RecoveryBinding; or_descriptor : RunSnapshot;
  or_child : Z; or_done : bool; or_waitErr : option error }.

(** ** The runtime *)

Record ShutdownPreview := mkPreview { sp_binding : ShutdownBindingState; sp_runs : list RunSnapshot }.
Record ShutdownConfirmation := mkConfirmation { sc_binding : ShutdownBindingState; sc_acknowledged : bool }.
#[global] Instance ShutdownConfirmation_eq_dec : EqDecision ShutdownConfirmation.
Proof. solve_decision. Defined.
Record ShutdownResult := mkShutdownResult { sh_binding : ShutdownBindingState; sh_outcome : string; sh_closed : Z }.
Inductive shutdownPurpose := shutdownManual | shutdownUpdate.
#[global] Instance shutdownPurpose_eq_dec : EqDecision shutdownPurpose.
Proof. solve_decision. Defined.
Record shutdownTicket := mkShutdownTicket {
  ht_confirmation : ShutdownConfirmation; ht_purpose : shutdownPurpose; ht_target : UpdateTarget;
  ht_result : ShutdownResult; ht_err : option error; ht_done : bool }.

(** The lifecycle fields. *)
Record LifecycleState := mkLife {
  lc_bound : bool; lc_starting : bool; lc_uncertain : bool; lc_deferral : option UpdateDeferral;
  lc_preview : option ShutdownPreview; lc_tickets : gmap string nat; lc_heap : gmap nat shutdownTicket;
  lc_preparing : bool; lc_committed : bool; lc_pending : Z }.
Definition life_zero : LifecycleState := mkLife false false false None None ∅ ∅ false false 0.

(** [Runtime], with a heap for each kind of pointer; [ow_controls] is
    [controlsPending], which the control coordinator keeps. *)
Record Runtime := mkRuntime {
  ow_epoch : string;
  ow_tickets : gmap string nat; ow_launches : gmap nat launchTicket;
  ow_resumes : gmap string nat; ow_attempts : gmap nat resumeTicket;
  ow_runs : gmap string nat; ow_owned : gmap nat ownedRun;
  ow_pending : Z; ow_active : Z; ow_controls : Z;
  ow_disabled : bool; ow_revision : Z; ow_revisionExhausted : bool;
  ow_life : LifecycleState }.

Definition NewRuntime (epoch : string) : result Runtime :=
  if negb (LaunchIdentity_Valid (mkLaunchIdentity epoch epoch epoch)) then Err ErrInvalid
  else Ok (mkRuntime epoch ∅ ∅ ∅ ∅ ∅ ∅ 0 0 0 false 0 false life_zero).

(** Assignments. *)
Definition set_launches (s : Runtime) (tickets : gmap string nat) (heap : gmap nat launchTicket) : Runtime :=
  mkRuntime (ow_epoch s) tickets heap (ow_resumes s) (ow_attempts s) (ow_runs s) (ow_owned s)
    (ow_pending s) (ow_active s) (ow_controls s) (ow_disabled s) (ow_revision s) (ow_revisionExhausted s) (ow_life s).
Definition set_attempts (s : Runtime) (resumes : gmap string nat) (heap : gmap nat resumeTicket) : Runtime :=
  mkRuntime (ow_epoch s) (ow_tickets s) (ow_launches s) resumes heap (ow_runs s) (ow_owned s)
    (ow_pending s) (ow_active s) (ow_controls s) (ow_disabled s) (ow_revision s) (ow_revisionExhausted s) (ow_life s).
Definition set_runs (s : Runtime) (runs : gmap string nat) (heap : gmap nat ownedRun) : Runtime :=
  mkRuntime (ow_epoch s) (ow_tickets s) (ow_launches s) (ow_resumes s) (ow_attempts s) runs heap
    (ow_pending s) (ow_active s) (ow_controls s) (ow_disabled s) (ow_revision s) (ow_revisionExhausted s) (ow_life s).
Definition set_counts (s : Runtime) (pending active : Z) : Runtime :=
  mkRuntime (ow_epoch s) (ow_tickets s) (ow_launches s) (ow_resumes s) (ow_attempts s) (ow_runs s) (ow_owned s)
    pending active (ow_controls s) (ow_disabled s) (ow_revision s) (ow_revisionExhausted s) (ow_life s).
Definition set_gate (s : Runtime) (disabled : bool) (revision : Z) (exhausted : bool) : Runtime :=
  mkRuntime (ow_epoch s) (ow_tickets s) (ow_launches s) (ow_resumes s) (ow_attempts s) (ow_runs s) (ow_owned s)
    (ow_pending s) (ow_active s) (ow_controls s) disabled revision exhausted (ow_life s).
Definition set_life (s : Runtime) (life : LifecycleState) : Runtime :=
  mkRuntime (ow_epoch s) (ow_tickets s) (ow_launches s) (ow_resumes s) (ow_attempts s) (ow_runs s) (ow_owned s)
    (ow_pending s) (ow_active s) (ow_controls s) (ow_disabled s) (ow_revision s) (ow_revisionExhausted s) life.

(** Assignments through the pointers. *)
Definition put_launch (s : Runtime) (a : nat) (t : launchTicket) : Runtime :=
  set_launches s (ow_tickets s) (<[a := t]> (ow_launches s)).
Definition put_attempt (s : Runtime) (a : nat) (t : resumeTicket) : Runtime :=
  set_attempts s (ow_resumes s) (<[a := t]> (ow_attempts s)).
Definition put_run (s : Runtime) (r : nat) (run : ownedRun) : Runtime :=
  set_runs s (ow_runs s) (<[r := run]> (ow_owned s)).

Definition changedLocked (s : Runtime) : Runtime :=
  if ow_revision s =? MaxUint64 then set_gate s true (ow_revision s) true
  else set_gate s (ow_disabled s) (u64 (ow_revision s + 1)) (ow_revisionExhausted s).

Definition executionAdmissionClosedLocked (s : Runtime) : bool :=
  ow_disabled s || lc_preparing (ow_life s) || lc_committed (ow_life s) || lc_starting (ow_life s).

Definition at_capacity (s : Runtime) : bool :=
  (MaxActiveRuns <=? ow_pending s + ow_active s)
  || (MaxLaunchRequests <=? msize (ow_tickets s) + msize (ow_resumes s)).

(** [markUncertain], but for the run's observations. *)
Definition markUncertain (run : ownedRun) : ownedRun :=
  mkOwned false (or_recoveryExpected run) (fst (MarkUncertain (or_descriptor run))) (or_child run) (or_done run)
    (or_waitErr run).

(** [newLaunchIdentity]; [random] is what [rand.Read] yields. *)
Definition newLaunchIdentity (epoch : string) (random : option (list ascii)) : result LaunchIdentity :=
  match random with
  | None => Err ErrUnsafe
  | Some bytes => Ok (mkLaunchIdentity (EncodeToString (take 16 bytes)) (EncodeToString (drop 16 bytes)) epoch)
  end.

(** ** Launching: the caller *)

Definition new_launch (request : LaunchRequest) : launchTicket :=
  mkLaunch request false 1 false false false false run_zero run_zero None.
Definition add_waiter (t : launchTicket) (n : Z) : launchTicket :=
  mkLaunch (lt_request t) (lt_cancelled t) (lt_waiters t + n) (lt_starting t) (lt_complete t) (lt_aborted t)
    (lt_abandoned t) (lt_descriptor t) (lt_result t) (lt_err t).
Definition abandon (t : launchTicket) : launchTicket :=
  mkLaunch (lt_request t) true (lt_waiters t) (lt_starting t) (lt_complete t) (lt_aborted t) true
    (lt_descriptor t) (lt_result t) (lt_err t).

(** What a call does before it waits: it is refused, or waits on a ticket,
    for which it may have to start the goroutine. *)
Inductive Entry := Refused (e : error) | Waiting (ticket : nat) (created : bool).

Definition launch_refusal (s : Runtime) : option error :=
  first_err [fails (ow_revisionExhausted s || (ow_revision s =? MaxUint64)) ErrLimit;
             fails (executionAdmissionClosedLocked s) ErrRuntimeBusy;
             fails (at_capacity s) ErrLimit].

Definition Launch_enter (s : Runtime) (ctx : option error) (request : LaunchRequest) : Runtime * Entry :=
  match ctx with
  | Some e => (s, Refused (Wrap "start owned runtime launch: %w" [] e))
  | None =>
      if lq_epoch request <>?s ow_epoch s then (s, Refused ErrChanged)
      else if negb (validLaunchRequest request) then (s, Refused ErrInvalid)
      else
        match ow_tickets s !! lq_request request with
        | Some a =>
            match ow_launches s !! a with
            | Some t => if negb (bool_decide (lt_request t = request)) then (s, Refused ErrChanged)
                        else (put_launch s a (add_waiter t 1), Waiting a false)
            | None => (s, Refused ErrChanged)
            end
        | None =>
            match launch_refusal s with
            | Some e => (s, Refused e)
            | None =>
                let a := fresh (dom (ow_launches s)) in
                let s1 := set_launches s (<[lq_request request := a]> (ow_tickets s))
                            (<[a := new_launch request]> (ow_launches s)) in
                (changedLocked (set_counts s1 (ow_pending s + 1) (ow_active s)), Waiting a true)
            end
        end
  end.

(** The section after [done]: the answer, or nothing when the call starts
    over. *)
Definition Launch_done (s : Runtime) (a : nat) (t : launchTicket) : Runtime * option (RunSnapshot * option error) :=
  (put_launch s a (add_waiter t (-1)),
   if lt_aborted t then None else Some (lt_result t, lt_err t)).

(** The section after the caller's own context is over. *)
Definition Launch_cancelled (s : Runtime) (a : nat) (t : launchTicket) (ctx : error) : Runtime * (RunSnapshot * option error) :=
  let t1 := add_waiter t (-1) in
  if lt_complete t1 && negb (lt_aborted t1) then (put_launch s a t1, (lt_result t1, lt_err t1))
  else if negb (lt_starting t1) then
    (put_launch s a (if lt_waiters t1 =? 0 then abandon t1 else t1),
     (run_zero, Some (Wrap "wait for owned runtime launch: %w" [] ctx)))
  else (put_launch s a t1, (lt_descriptor t1, Some ErrLaunchUnknown)).

(** ** Launching: the goroutine *)

(** The error of a ticket's context: it was cancelled, or its deadline has
    passed. *)
Definition ticket_ctx (cancelled : bool) (deadline : option error) : option error :=
  if cancelled then Some (Sentinel context_canceled) else deadline.

(** Where the goroutine of a ticket is.  [LWait] to [LJoin] are [reconcile],
    for the run at an address. *)
Inductive LWorker :=
| LPrepare
| LCommit (d : RunSnapshot)
| LReserve (d : RunSnapshot)
| LStart (d : RunSnapshot)
| LAttach (d : RunSnapshot) (child : Z)
| LSave (run : nat) (d : RunSnapshot) (descriptorErr : bool)
| LPublish (run : nat) (bad : bool)
| LFail (e : error)
| LFailSave (snapshot : RunSnapshot)
| LFailEnd
| LDone (reconcile : option nat).

(** The answers at one turn. *)
Record LaunchAnswers := mkLaunchAnswers {
  la_target : result Target; la_profile : result HostProfile; la_random : option (list ascii);
  la_revalidate : option error; la_deadline : option error; la_journal : option error;
  la_start : result (option Z) }.

(** Up to the commit boundary: no section of it touches the runtime. *)
Definition launch_prepare (epoch : string) (r : LaunchRequest) (n : LaunchAnswers) : result RunSnapshot :=
  let! target := la_target n in
  let! profile := la_profile n in
  if (w_id (t_worktree target) <>?s lq_worktree r) || (hp_id profile <>?s lq_profile r) then Err ErrChanged
  else
    let! id := newLaunchIdentity epoch (la_random n) in
    let! descriptor := LaunchDescriptorOf id target profile in
    match la_revalidate n with Some e => Err e | None => Ok descriptor end.

Definition set_starting (t : launchTicket) (d : RunSnapshot) : launchTicket :=
  mkLaunch (lt_request t) (lt_cancelled t) (lt_waiters t) true (lt_complete t) (lt_aborted t) (lt_abandoned t)
    d (lt_result t) (lt_err t).
Definition launch_commit (s : Runtime) (a : nat) (t : launchTicket) (d : RunSnapshot) (n : LaunchAnswers)
  : Runtime * LWorker :=
  match ticket_ctx (lt_cancelled t) (la_deadline n) with
  | Some e => (s, LFail e)
  | None => (changedLocked (put_launch s a (set_starting t d)), LReserve d)
  end.

Definition launch_start (d : RunSnapshot) (n : LaunchAnswers) : LWorker :=
  match la_start n with
  | Err e => LFail e
  | Ok None => LFail ErrLaunchUnknown
  | Ok (Some child) => LAttach d child
  end.

(** A started child enters the maps, whatever its process id is. *)
Definition own_child (d : RunSnapshot) (child : Z) : RunSnapshot * bool :=
  match Started d child with
  | (d, None) => (d, false)
  | (d, Some _) => (fst (MarkUncertain d), true)
  end.
Definition attach (s : Runtime) (run : ownedRun) : Runtime * nat :=
  let r := fresh (dom (ow_owned s)) in
  (changedLocked (set_counts (set_runs s (<[li_run (rn_identity (or_descriptor run)) := r]> (ow_runs s))
                                         (<[r := run]> (ow_owned s)))
                    (ow_pending s - 1) (ow_active s + 1)), r).
Definition set_descriptor (t : launchTicket) (d : RunSnapshot) : launchTicket :=
  mkLaunch (lt_request t) (lt_cancelled t) (lt_waiters t) (lt_starting t) (lt_complete t) (lt_aborted t)
    (lt_abandoned t) d (lt_result t) (lt_err t).
Definition launch_attach (s : Runtime) (a : nat) (t : launchTicket) (d : RunSnapshot) (child : Z) : Runtime * LWorker :=
  let '(d, bad) := own_child d child in
  let '(s, r) := attach s (mkOwned false RecoveryBinding_zero d child false None) in
  (put_launch s a (set_descriptor t d), LSave r d bad).

Definition publish (run : ownedRun) : ownedRun :=
  mkOwned true (or_recoveryExpected run) (or_descriptor run) (or_child run) (or_done run) (or_waitErr run).
Definition complete_launch (t : launchTicket) (result : RunSnapshot) (err : option error) : launchTicket :=
  mkLaunch (lt_request t) (lt_cancelled t) (lt_waiters t) (lt_starting t) true (lt_aborted t) (lt_abandoned t)
    (lt_descriptor t) result err.
Definition launch_publish (s : Runtime) (a : nat) (t : launchTicket) (r : nat) (run : ownedRun) (bad : bool)
  : Runtime * LWorker :=
  let run := if bad then markUncertain run else publish run in
  let err := if bad then Some ErrLaunchUnknown else lt_err t in
  (changedLocked (put_launch (put_run s r run) a (complete_launch t (or_descriptor run) err)), LDone (Some r)).

(** [fail]: its first section, and the second one after the write that an
    uncertain start needs. *)
Definition set_failure (t : launchTicket) (aborted : bool) (d result : RunSnapshot) (err : option error) : launchTicket :=
  mkLaunch (lt_request t) (lt_cancelled t) (lt_waiters t) (lt_starting t) (lt_complete t) aborted (lt_abandoned t)
    d result err.
Definition fail_end (s : Runtime) (a : nat) (t : launchTicket) : Runtime :=
  changedLocked (put_launch s a (complete_launch t (lt_result t) (lt_err t))).
Definition launch_fail (s : Runtime) (a : nat) (t : launchTicket) (e : error) : Runtime * LWorker :=
  let uncertain := lt_starting t && errors_is e launch_unknown in
  let d := if uncertain then fst (MarkUncertain (lt_descriptor t)) else lt_descriptor t in
  let result := if lt_starting t then d else lt_result t in
  let aborted := negb (lt_starting t) && lt_abandoned t in
  let t1 := set_failure t (if aborted then true else lt_aborted t) d result (if aborted then lt_err t else Some e) in
  let s1 := if uncertain then s else set_counts s (ow_pending s - 1) (ow_active s) in
  let s2 := if aborted then set_launches s1 (delete (lq_request (lt_request t)) (ow_tickets s1)) (ow_launches s1) else s1 in
  if uncertain then (put_launch s2 a t1, LFailSave result) else (fail_end s2 a t1, LDone None).

Definition launch_turn (s : Runtime) (a : nat) (t : launchTicket) (w : LWorker) (n : LaunchAnswers) : Runtime * LWorker :=
  match w with
  | LPrepare => (s, match launch_prepare (ow_epoch s) (lt_request t) n with Ok d => LCommit d | Err e => LFail e end)
  | LCommit d => launch_commit s a t d n
  | LReserve d => (s, match la_journal n with Some e => LFail e | None => LStart d end)
  | LStart d => (s, launch_start d n)
  | LAttach d child => launch_attach s a t d child
  | LSave r d bad => (s, LPublish r (bad || bool_decide (la_journal n <> None)))
  | LPublish r bad =>
      match ow_owned s !! r with Some run => launch_publish s a t r run bad | None => (s, w) end
  | LFail e => launch_fail s a t e
  | LFailSave _ => (s, LFailEnd)
  | LFailEnd => (fail_end s a t, LDone None)
  | LDone _ => (s, w)
  end.

(** ** Reconciling an exit *)

Inductive XWorker :=
| XWait
| XSave (snapshot : RunSnapshot) (published exitKnown : bool)
| XJoin (journalErr exitKnown : bool)
| XDone.

Record ExitAnswers := mkExitAnswers {
  xa_wait : result Z; xa_journal : option error;
  xa_binding : option (result RecoveryBinding); xa_budget : bool }.

Definition set_exit (run : ownedRun) (d : RunSnapshot) : ownedRun :=
  mkOwned (or_published run) (or_recoveryExpected run) d (or_child run) (or_done run) (or_waitErr run).
Definition set_waitErr (run : ownedRun) (e : error) : ownedRun :=
  mkOwned (or_published run) (or_recoveryExpected run) (or_descriptor run) (or_child run) (or_done run) (Some e).
Definition exit_wait (s : Runtime) (r : nat) (run : ownedRun) (wait : result Z) : Runtime * XWorker :=
  let '(d, err) := match wait with
                   | Ok code => Exit (or_descriptor run) code
                   | Err e => (or_descriptor run, Some e) end in
  let run := set_exit run d in
  let run := match err with Some _ => set_waitErr (markUncertain run) ErrLaunchUnknown | None => run end in
  (changedLocked (put_run s r run),
   XSave (or_descriptor run) (or_published run) (match err with None => true | Some _ => false end)).

(** The record that [persistOwnedRecovery] saves, if any: [binding] is what a
    child that is a [RecoveryBindingSource] answers within its budget. *)
Definition wanted_binding (expected : RecoveryBinding) (snapshot : RunSnapshot) (published : bool) (model : string)
  : RecoveryBinding :=
  let w := with_process expected (rn_identity snapshot) (rn_pid snapshot) in
  if published then with_model w model else w.
Definition ownedRecovery (binding : option (result RecoveryBinding)) (budgetOver : bool) (snapshot : RunSnapshot)
  (expected : RecoveryBinding) (published : bool) : option RecoveryRecord :=
  match binding with
  | None | Some (Err _) => None
  | Some (Ok b) =>
      if budgetOver then None
      else if negb (bool_decide (rb_identity b = rn_identity snapshot)) || negb (bool_decide (rb_target b = rn_target snapshot))
              || negb (bool_decide (rb_profile b = rn_profile snapshot)) || negb (rb_pid b =? rn_pid snapshot)
              || (rn_state snapshot <>?s RunExited) then None
      else if negb (bool_decide (expected = RecoveryBinding_zero))
              && negb (bool_decide (RecoveryBindingOf (wanted_binding expected snapshot published (rb_model b)) = Ok b))
      then None
      else match NewRecoveryRecord b with
           | Err _ => None
           | Ok record => match ObserveOwnedExit (Some record) (rn_identity snapshot) (rn_exit_code snapshot) with
                          | (Some r, None) => Some r
                          | _ => None
                          end
           end
  end.
Definition exit_record (run : ownedRun) (w : XWorker) (n : ExitAnswers) : option RecoveryRecord :=
  match w with
  | XSave snapshot published true =>
      match xa_journal n with
      | None => ownedRecovery (xa_binding n) (xa_budget n) snapshot (or_recoveryExpected run) published
      | Some _ => None
      end
  | _ => None
  end.

Definition set_done (run : ownedRun) : ownedRun :=
  mkOwned (or_published run) (or_recoveryExpected run) (or_descriptor run) (or_child run) true (or_waitErr run).
Definition exit_join (s : Runtime) (r : nat) (run : ownedRun) (journalErr exitKnown : bool) : Runtime :=
  let run := if journalErr then markUncertain run else run in
  let s1 := put_run s r (set_done run) in
  changedLocked (if exitKnown then set_counts s1 (ow_pending s1) (ow_active s1 - 1) else s1).

Definition exit_turn (s : Runtime) (r : nat) (run : ownedRun) (w : XWorker) (n : ExitAnswers) : Runtime * XWorker :=
  match w with
  | XWait => exit_wait s r run (xa_wait n)
  | XSave _ _ known => (s, XJoin (bool_decide (xa_journal n <> None)) known)
  | XJoin journalErr known => (exit_join s r run journalErr known, XDone)
  | XDone => (s, XDone)
  end.

(** ** Resuming: the caller *)

Definition new_resume (request : ResumeRequest) : resumeTicket :=
  mkResumeTicket request false 1 false false false false run_zero resume_zero None.
Definition add_resume_waiter (t : resumeTicket) (n : Z) : resumeTicket :=
  mkResumeTicket (st_request t) (st_cancelled t) (st_waiters t + n) (st_starting t) (st_complete t) (st_attached t)
    (st_possibleChild t) (st_descriptor t) (st_result t) (st_err t).
Definition cancel_resume (t : resumeTicket) : resumeTicket :=
  mkResumeTicket (st_request t) true (st_waiters t) (st_starting t) (st_complete t) (st_attached t)
    (st_possibleChild t) (st_descriptor t) (st_result t) (st_err t).

Definition resume_refusal (s : Runtime) : option error :=
  first_err [fails (executionAdmissionClosedLocked s) ErrRuntimeBusy; fails (at_capacity s) ErrLimit].

(** [journal] says whether the journal is a [RecoveryJournal]. *)
Definition Resume_enter (journal : bool) (s : Runtime) (ctx : option error) (request : ResumeRequest) : Runtime * Entry :=
  match ctx with
  | Some e => (s, Refused (Wrap "admit managed resume: %w" [] e))
  | None =>
      if sq_epoch request <>?s ow_epoch s then (s, Refused ErrChanged)
      else if negb (ResumeRequest_Valid request) then (s, Refused ErrInvalid)
      else if negb journal then (s, Refused ErrUnsupported)
      else
        match ow_resumes s !! sq_request request with
        | Some a =>
            match ow_attempts s !! a with
            | Some t => if negb (bool_decide (st_request t = request)) then (s, Refused ErrChanged)
                        else (put_attempt s a (add_resume_waiter t 1), Waiting a false)
            | None => (s, Refused ErrChanged)
            end
        | None =>
            match resume_refusal s with
            | Some e => (s, Refused e)
            | None =>
                let a := fresh (dom (ow_attempts s)) in
                let s1 := set_attempts s (<[sq_request request := a]> (ow_resumes s))
                            (<[a := new_resume request]> (ow_attempts s)) in
                (changedLocked (set_counts s1 (ow_pending s + 1) (ow_active s)), Waiting a true)
            end
        end
  end.

Definition Resume_done (s : Runtime) (a : nat) (t : resumeTicket) : Runtime * (ResumeResult * option error) :=
  (put_attempt s a (add_resume_waiter t (-1)), (st_result t, st_err t)).
Definition Resume_cancelled (s : Runtime) (a : nat) (t : resumeTicket) (ctx : error)
  : Runtime * (ResumeResult * option error) :=
  let t1 := add_resume_waiter t (-1) in
  if st_complete t1 then (put_attempt s a t1, (st_result t1, st_err t1))
  else if negb (st_starting t1) then
    (put_attempt s a (if st_waiters t1 =? 0 then cancel_resume t1 else t1),
     (resume_zero, Some (Wrap "wait for managed resume: %w" [] ctx)))
  else (put_attempt s a t1, (st_result t1, Some ErrLaunchUnknown)).

(** ** Resuming: the goroutine *)

Definition resumeSelection (b : RecoveryBinding) (id : LaunchIdentity) : OutputSelection :=
  mkSelection id (w_id (t_worktree (rb_target b))) (hp_id (rb_profile b)).
Definition storedResumeResult (a : ResumeAttempt) : ResumeResult * option error :=
  let result := mkResumeResult (resumeSelection (ra_binding a) (ra_next a)) (ra_phase a) false in
  (result, if ra_phase a =?s ResumeConfirmed then None
           else if ra_phase a =?s ResumeFailedBeforeStart then Some ErrRuntimeRejected
           else Some ErrLaunchUnknown).
Definition resumeMatchesRequest (a : ResumeAttempt) (request : ResumeRequest) : bool :=
  (ra_request a =?s sq_request request)
  && bool_decide (resumeSelection (ra_binding a) (rb_identity (ra_binding a)) = sq_selection request).

(** Where the goroutine is; [reconcile] of a [RComplete] is the run whose exit
    it goes on to wait for. *)
Inductive RWorker :=
| RList
| RRecords
| RCheck (record : RecoveryRecord)
| RValidate (record : RecoveryRecord)
| RCommit (d : RunSnapshot) (attempt : ResumeAttempt)
| RReserve (d : RunSnapshot) (attempt : ResumeAttempt)
| RIntent (d : RunSnapshot) (attempt : ResumeAttempt)
| RLaunch (d : RunSnapshot) (attempt : ResumeAttempt)
| RStart (d : RunSnapshot) (attempt : ResumeAttempt)
| RNotStarted (attempt : ResumeAttempt) (cause : error)
| RLost (attempt : ResumeAttempt)
| RAttach (d : RunSnapshot) (attempt : ResumeAttempt) (child : Z) (startErr : bool)
| RSave (run : nat) (d : RunSnapshot) (attempt : ResumeAttempt) (bad : bool)
| RStarted (run : nat) (attempt : ResumeAttempt)
| RConfirm (run : nat) (attempt : ResumeAttempt)
| RPublish (run : nat) (attempt : ResumeAttempt) (bad : bool)
| RRecord (run : nat) (attempt : ResumeAttempt) (bad : bool)
| RComplete (result : ResumeResult) (err : option error) (possibleChild : bool) (reconcile : option nat)
| RDone (reconcile : option nat).

(** The answers at one turn; [sa_native] says whether the launcher is a
    [NativeResumer] and [sa_source] whether the child is a
    [RecoveryBindingSource]. *)
Record ResumeAnswers := mkResumeAnswers {
  sa_list : result (list ResumeAttempt); sa_native : bool; sa_records : result (list RecoveryRecord);
  sa_target : result Target; sa_profile : result HostProfile; sa_revalidate : option error;
  sa_recovery : option error; sa_random : option (list ascii); sa_deadline : option error;
  sa_reserve : result (ResumeAttempt * bool); sa_journal : option error;
  sa_start : option Z * option error; sa_save : option error;
  sa_source : option (result RecoveryBinding); sa_budget : option error; sa_saveRecovery : option error }.

(** A goroutine that ends before it started a child. *)
Definition refuse (e : error) : RWorker := RComplete resume_zero (Some e) false None.

(** The loop over the stored attempts. *)
Fixpoint find_attempt (attempts : list ResumeAttempt) (request : ResumeRequest) : option RWorker :=
  match attempts with
  | [] => None
  | a :: rest =>
      if ra_request a <>?s sq_request request then find_attempt rest request
      else if negb (resumeMatchesRequest a request) then Some (refuse ErrChanged)
      else let '(result, err) := storedResumeResult a in Some (RComplete result err false None)
  end.
Definition resume_list (t : resumeTicket) (n : ResumeAnswers) : RWorker :=
  match sa_list n with
  | Err e => refuse e
  | Ok attempts =>
      match find_attempt attempts (st_request t) with
      | Some w => w
      | None => if negb (sa_native n) then refuse ErrUnsupported else RRecords
      end
  end.

(** The loop over the recovery records. *)
Fixpoint select_record (records : list RecoveryRecord) (sel : OutputSelection) (selected : option RecoveryRecord)
  : result (option RecoveryRecord) :=
  match records with
  | [] => Ok selected
  | r :: rest =>
      if negb (bool_decide (resumeSelection (rr_binding r) (rb_identity (rr_binding r)) = sel))
      then select_record rest sel selected
      else match selected with
           | Some _ => Err ErrInvalid
           | None => let! r := RecoveryRecordFrom r in select_record rest sel (Some r)
           end
  end.
Definition resume_records (t : resumeTicket) (n : ResumeAnswers) : RWorker :=
  match sa_records n with
  | Err e => refuse e
  | Ok records =>
      match select_record records (sq_selection (st_request t)) None with
      | Err e => refuse e
      | Ok None => refuse ErrChanged
      | Ok (Some r) => if negb (rr_exited r) then refuse ErrChanged else RCheck r
      end
  end.

(** The owned run of the binding, if there is one, must have exited. *)
Definition contradicts (s : Runtime) (b : RecoveryBinding) : bool :=
  match ow_runs s !! li_run (rb_identity b) with
  | None => false
  | Some r =>
      match ow_owned s !! r with
      | None => false
      | Some old =>
          negb (bool_decide (rn_identity (or_descriptor old) = rb_identity b))
          || (rn_state (or_descriptor old) <>?s RunExited) || bool_decide (or_waitErr old <> None)
      end
  end.

Definition resume_validate (epoch : string) (t : resumeTicket) (record : RecoveryRecord) (n : ResumeAnswers)
  : result (RunSnapshot * ResumeAttempt) :=
  let b := rr_binding record in
  let! target := sa_target n in
  let! profile := sa_profile n in
  if negb (bool_decide (target = rb_target b)) || negb (bool_decide (profile = rb_profile b)) then Err ErrChanged
  else match first_err [sa_revalidate n; sa_recovery n] with
       | Some e => Err e
       | None =>
           let! id := newLaunchIdentity epoch (sa_random n) in
           let! descriptor := LaunchDescriptorOf id target profile in
           let! attempt := NewResumeAttempt (sq_request (st_request t)) (Some record) id in
           Ok (descriptor, attempt)
       end.

Definition resume_starting (t : resumeTicket) (d : RunSnapshot) : resumeTicket :=
  mkResumeTicket (st_request t) (st_cancelled t) (st_waiters t) true (st_complete t) (st_attached t)
    (st_possibleChild t) d (mkResumeResult selection_zero ResumeUnknown false) (st_err t).
Definition resume_commit (s : Runtime) (a : nat) (t : resumeTicket) (d : RunSnapshot) (attempt : ResumeAttempt)
  (n : ResumeAnswers) : Runtime * RWorker :=
  match first_err [ticket_ctx (st_cancelled t) (sa_deadline n);
                   fails (executionAdmissionClosedLocked s) ErrRuntimeBusy] with
  | Some e => (s, refuse e)
  | None => (changedLocked (put_attempt s a (resume_starting t d)), RReserve d attempt)
  end.

(** The result of an attempt that is reserved and not started. *)
Definition reserved_result (attempt : ResumeAttempt) : ResumeResult :=
  mkResumeResult (resumeSelection (ra_binding attempt) (ra_next attempt)) ResumeReserved false.
Definition with_phase (r : ResumeResult) (phase : string) : ResumeResult :=
  mkResumeResult (sr_selection r) phase (sr_owned r).

(** Errors that say that nothing was reserved. *)
Definition is_error (e target : error) : bool :=
  match target with Sentinel name => errors_is e name | _ => false end.
Definition definite (e : error) : bool :=
  existsb (is_error e)
    [ErrChanged; ErrInvalid; ErrLimit; ErrUnsupported; Sentinel context_canceled; Sentinel context_deadline].
Definition resume_reserve (t : resumeTicket) (d : RunSnapshot) (attempt : ResumeAttempt) (n : ResumeAnswers) : RWorker :=
  match sa_reserve n with
  | Err e =>
      RComplete (mkResumeResult selection_zero ResumeUnknown false)
        (Some (if negb (definite e) then ErrLaunchUnknown else e)) false None
  | Ok (saved, created) =>
      if negb created then
        if negb (resumeMatchesRequest saved (st_request t))
        then RComplete (reserved_result attempt) (Some ErrChanged) false None
        else let '(result, err) := storedResumeResult saved in RComplete result err false None
      else RIntent d attempt
  end.

Definition set_result (t : resumeTicket) (r : ResumeResult) : resumeTicket :=
  mkResumeTicket (st_request t) (st_cancelled t) (st_waiters t) (st_starting t) (st_complete t) (st_attached t)
    (st_possibleChild t) (st_descriptor t) r (st_err t).
Definition resume_intent (s : Runtime) (a : nat) (t : resumeTicket) (d : RunSnapshot) (attempt : ResumeAttempt)
  : Runtime * RWorker :=
  (changedLocked (put_attempt s a (set_result t (reserved_result attempt))), RLaunch d attempt).

Definition resume_launch (t : resumeTicket) (d : RunSnapshot) (attempt : ResumeAttempt) (n : ResumeAnswers) : RWorker :=
  match first_err [sa_journal n; ticket_ctx (st_cancelled t) (sa_deadline n)] with
  | Some e => RNotStarted attempt e
  | None => RStart d attempt
  end.
Definition resume_start (d : RunSnapshot) (attempt : ResumeAttempt) (n : ResumeAnswers) : RWorker :=
  match sa_start n with
  | (Some child, err) => RAttach d attempt child (bool_decide (err <> None))
  | (None, None) => RLost attempt
  | (None, Some e) => if errors_is e launch_unknown then RLost attempt else RNotStarted attempt e
  end.

(** [resumeBeforeStartFailure]. *)
Definition resume_not_started (attempt : ResumeAttempt) (cause : error) (n : ResumeAnswers) : RWorker :=
  let failed := match FailBeforeStart (Some attempt) with (_, None) => sa_save n | (_, Some e) => Some e end in
  match failed with
  | Some _ => RComplete (with_phase (reserved_result attempt) ResumeUnknown) (Some ErrLaunchUnknown) false None
  | None => RComplete (with_phase (reserved_result attempt) ResumeFailedBeforeStart) (Some cause) false None
  end.

Definition owned_result (attempt : ResumeAttempt) (phase : string) : ResumeResult :=
  mkResumeResult (resumeSelection (ra_binding attempt) (ra_next attempt)) phase true.
Definition set_attached (t : resumeTicket) (d : RunSnapshot) (r : ResumeResult) : resumeTicket :=
  mkResumeTicket (st_request t) (st_cancelled t) (st_waiters t) (st_starting t) (st_complete t) true
    (st_possibleChild t) d r (st_err t).
Definition resume_attach (s : Runtime) (a : nat) (t : resumeTicket) (d : RunSnapshot) (attempt : ResumeAttempt)
  (child : Z) (startErr : bool) : Runtime * RWorker :=
  let '(d, bad) := own_child d child in
  let '(s, r) := attach s (mkOwned false (ra_binding attempt) d child false None) in
  (put_attempt s a (set_attached t d (owned_result attempt ResumeReserved)), RSave r d attempt (startErr || bad)).

(** The receiver after a method of [ResumeAttempt]. *)
Definition attempt_after (r : option ResumeAttempt * option error) (a : ResumeAttempt) : ResumeAttempt :=
  default a (fst r).
Definition resume_save (r : nat) (attempt : ResumeAttempt) (bad : bool) (n : ResumeAnswers) : RWorker :=
  if bad || bool_decide (sa_journal n <> None) then RPublish r attempt true
  else
    let marked := MarkStarted (Some attempt) in
    match first_err [snd marked; sa_save n] with
    | Some _ => RPublish r (attempt_after marked attempt) true
    | None => RStarted r (attempt_after marked attempt)
    end.
Definition resume_started (s : Runtime) (a : nat) (t : resumeTicket) (r : nat) (attempt : ResumeAttempt)
  : Runtime * RWorker :=
  (changedLocked (put_attempt s a (set_result t (with_phase (st_result t) ResumeStarted))), RConfirm r attempt).

(** [confirmResume], and the attempt after it. *)
Definition confirmResume (attempt : ResumeAttempt) (n : ResumeAnswers) : ResumeAttempt * option error :=
  match sa_source n with
  | None => (attempt, Some ErrUnsupported)
  | Some (Err e) => (attempt, Some (Wrap "verify resumed native binding: %w" [] e))
  | Some (Ok binding) =>
      match sa_budget n with
      | Some e => (attempt, Some (Wrap "confirm native recovery budget: %w" [] e))
      | None =>
          match ResumeAttemptFrom attempt with
          | Err e => (attempt, Some (Wrap "check recovery confirmation: %w" [] e))
          | Ok candidate =>
              match snd (ResumeAttempt_Confirm (Some candidate) binding) with
              | Some e => (attempt, Some (Wrap "confirm same native conversation: %w" [] e))
              | None =>
                  match NewRecoveryRecord binding with
                  | Err e => (attempt, Some (Wrap "bind resumed native owner: %w" [] e))
                  | Ok _ =>
                      match sa_saveRecovery n, sa_save n with
                      | Some e, _ => (attempt, Some (Wrap "persist resumed native binding: %w" [] e))
                      | None, Some e => (attempt, Some (Wrap "persist confirmed resume outcome: %w" [] e))
                      | None, None =>
                          let confirmed := ResumeAttempt_Confirm (Some attempt) binding in
                          (attempt_after confirmed attempt,
                           match snd confirmed with
                           | Some e => Some (Wrap "retain confirmed recovery result: %w" [] e)
                           | None => None
                           end)
                      end
                  end
              end
          end
      end
  end.
Definition resume_confirm (r : nat) (attempt : ResumeAttempt) (n : ResumeAnswers) : RWorker :=
  let '(attempt, err) := confirmResume attempt n in RPublish r attempt (bool_decide (err <> None)).

Definition resume_publish (s : Runtime) (r : nat) (run : ownedRun) (attempt : ResumeAttempt) (bad : bool)
  : Runtime * RWorker :=
  (changedLocked (put_run s r (if bad then markUncertain run else publish run)), RRecord r attempt bad).
Definition resume_record (r : nat) (attempt : ResumeAttempt) (bad : bool) : RWorker :=
  if bad then RComplete (owned_result attempt ResumeUnknown) (Some ErrLaunchUnknown) false (Some r)
  else RComplete (owned_result attempt ResumeConfirmed) None false (Some r).

Definition set_complete (t : resumeTicket) (result : ResumeResult) (err : option error) (possibleChild : bool) : resumeTicket :=
  mkResumeTicket (st_request t) (st_cancelled t) (st_waiters t) (st_starting t) true (st_attached t)
    possibleChild (st_descriptor t) result err.
Definition completeResume (s : Runtime) (a : nat) (t : resumeTicket) (result : ResumeResult) (err : option error)
  (possibleChild : bool) : Runtime :=
  let s1 := if negb (st_attached t) && negb possibleChild then set_counts s (ow_pending s - 1) (ow_active s) else s in
  changedLocked (put_attempt s1 a (set_complete t result err possibleChild)).

Definition resume_turn (s : Runtime) (a : nat) (t : resumeTicket) (w : RWorker) (n : ResumeAnswers) : Runtime * RWorker :=
  match w with
  | RList => (s, resume_list t n)
  | RRecords => (s, resume_records t n)
  | RCheck r => (s, if contradicts s (rr_binding r) then refuse ErrChanged else RValidate r)
  | RValidate r =>
      (s, match resume_validate (ow_epoch s) t r n with Ok (d, attempt) => RCommit d attempt | Err e => refuse e end)
  | RCommit d attempt => resume_commit s a t d attempt n
  | RReserve d attempt => (s, resume_reserve t d attempt n)
  | RIntent d attempt => resume_intent s a t d attempt
  | RLaunch d attempt => (s, resume_launch t d attempt n)
  | RStart d attempt => (s, resume_start d attempt n)
  | RNotStarted attempt cause => (s, resume_not_started attempt cause n)
  | RLost attempt =>
      (s, RComplete (with_phase (reserved_result attempt) ResumeUnknown) (Some ErrLaunchUnknown) true None)
  | RAttach d attempt child startErr => resume_attach s a t d attempt child startErr
  | RSave r _ attempt bad => (s, resume_save r attempt bad n)
  | RStarted r attempt => resume_started s a t r attempt
  | RConfirm r attempt => (s, resume_confirm r attempt n)
  | RPublish r attempt bad =>
      match ow_owned s !! r with Some run => resume_publish s r run attempt bad | None => (s, w) end
  | RRecord r attempt bad => (s, resume_record r attempt bad)
  | RComplete result err possibleChild run => (completeResume s a t result err possibleChild, RDone run)
  | RDone _ => (s, w)
  end.

(** ** Reading *)

(** Sorting by run, as [sort.Slice] does: the keys differ. *)
Fixpoint insert_run (x : RunSnapshot) (l : list RunSnapshot) : list RunSnapshot :=
  match l with
  | [] => [x]
  | y :: t => if String.ltb (li_run (rn_identity y)) (li_run (rn_identity x)) then y :: insert_run x t else x :: l
  end.
Definition sort_runs (l : list RunSnapshot) : list RunSnapshot := fold_right insert_run [] l.

Definition owned_snapshots (s : Runtime) : list RunSnapshot :=
  omap (fun e => option_map or_descriptor (ow_owned s !! e.2)) (map_to_list (ow_runs s)).
(** A launch that is under way or uncertain, and is not yet an owned run. *)
Definition launch_snapshot (s : Runtime) (t : launchTicket) : option RunSnapshot :=
  let open := lt_starting t && negb (lt_complete t) in
  let snapshot := if open then lt_descriptor t else lt_result t in
  if (li_run (rn_identity snapshot) <>?s "") && (rn_uncertain snapshot || open)
  then match ow_runs s !! li_run (rn_identity snapshot) with None => Some snapshot | Some _ => None end
  else None.
Definition resume_snapshot (t : resumeTicket) : option RunSnapshot :=
  if st_attached t || negb (st_possibleChild t) && (negb (st_starting t) || st_complete t) then None
  else if LaunchIdentity_Valid (rn_identity (st_descriptor t)) then Some (fst (MarkUncertain (st_descriptor t))) else None.
Definition run_entries (s : Runtime) : list RunSnapshot :=
  owned_snapshots s
  ++ omap (fun e => match ow_launches s !! e.2 with Some t => launch_snapshot s t | None => None end)
       (map_to_list (ow_tickets s))
  ++ omap (fun e => match ow_attempts s !! e.2 with Some t => resume_snapshot t | None => None end)
       (map_to_list (ow_resumes s)).
Definition listLocked (s : Runtime) : list RunSnapshot := sort_runs (run_entries s).

Record RunPageRequest := mkRunPageRequest { pq_epoch : string; pq_cursor : string; pq_revision : Z }.
Record RunPage := mkRunPage { pg_epoch : string; pg_revision : Z; pg_runs : list RunSnapshot; pg_next : string }.

(** [sort.Search]: the first index from which the runs are at least [cursor]. *)
Fixpoint search_run (l : list RunSnapshot) (cursor : string) : nat :=
  match l with
  | [] => 0
  | r :: t => if String.ltb (li_run (rn_identity r)) cursor then S (search_run t cursor) else 0
  end.
Definition last_run (l : list RunSnapshot) : string :=
  match last l with Some r => li_run (rn_identity r) | None => "" end.

Definition Page (s : Runtime) (request : RunPageRequest) : result RunPage :=
  if pq_epoch request <>?s ow_epoch s then Err ErrChanged
  else if negb (pq_revision request =? 0) && negb (pq_revision request =? ow_revision s) then Err ErrChanged
  else
    let runs := listLocked s in
    let! start :=
      (if pq_cursor request <>?s "" then
         if pq_revision request =? 0 then Err ErrInvalid
         else
           let index := search_run runs (pq_cursor request) in
           match runs !! index with
           | Some r => if li_run (rn_identity r) <>?s pq_cursor request then Err ErrChanged else Ok (S index)
           | None => Err ErrChanged
           end
       else Ok 0%nat) in
    let shown := take 2 (drop start runs) in
    let more := (start + 2 <? List.length runs)%nat in
    Ok (mkRunPage (ow_epoch s) (ow_revision s) shown (if more then last_run shown else "")).

Definition HasActive (s : Runtime) : bool := 0 <? ow_pending s + ow_active s.
Definition DisableLaunches (s : Runtime) : Runtime :=
  if negb (ow_disabled s) then changedLocked (set_gate s true (ow_revision s) (ow_revisionExhausted s)) else s.
(** What [AwaitIdle] waits for. *)
Definition idle (s : Runtime) : bool :=
  ow_pending s + ow_active s + ow_controls s + lc_pending (ow_life s) =? 0.

(** One look of [AwaitExit]: an answer, or what to wait for. *)
Inductive ExitLook :=
| ExitAnswer (snapshot : RunSnapshot) (err : option error)
| AwaitRun (run : nat)
| AwaitLaunch (ticket : nat)
| AwaitResume (ticket : nat).
Definition find_ticket {T} (heap : gmap nat T) (test : T -> bool) (tickets : gmap string nat) : option (nat * T) :=
  head (omap (fun e => match heap !! e.2 with Some t => if test t then Some (e.2, t) else None | None => None end)
          (map_to_list tickets)).
Definition AwaitExit_look (s : Runtime) (id : LaunchIdentity) : ExitLook :=
  let mine d := bool_decide (rn_identity d = id) in
  match ow_runs s !! li_run id ≫= fun r => option_map (pair r) (ow_owned s !! r) with
  | Some (r, run) => if mine (or_descriptor run) then AwaitRun r else ExitAnswer run_zero (Some ErrChanged)
  | None =>
      match find_ticket (ow_launches s) (fun t => lt_starting t && mine (lt_descriptor t)) (ow_tickets s) with
      | Some (a, t) =>
          if lt_complete t
          then ExitAnswer (lt_result t) (Some (match lt_err t with Some e => e | None => ErrLaunchUnknown end))
          else AwaitLaunch a
      | None =>
          match find_ticket (ow_attempts s) (fun t => st_starting t && mine (st_descriptor t)) (ow_resumes s) with
          | Some (a, t) => if st_complete t then ExitAnswer (st_descriptor t) (Some ErrLaunchUnknown) else AwaitResume a
          | None => ExitAnswer run_zero (Some ErrChanged)
          end
      end
  end.

(** ** The system

    [ys_launch], [ys_resume] and [ys_exit] hold the goroutines by the address
    of their ticket or run.  [ys_log] records, newest first, what happened
    outside the mutex and what the counters follow. *)
Inductive Event :=
| Reserved (d : RunSnapshot)                            (* [ReserveLaunch] succeeded *)
| StartCalled (ticket : nat) (d : RunSnapshot)          (* [launcher.Start] *)
| ResumeCalled (ticket : nat) (d : RunSnapshot)         (* [native.Resume] *)
| ChildOwned                                            (* a child was handed over *)
| StartUncertain                                        (* a start that may have left a child *)
| ExitKnown                                             (* a child's exit is known and joined *)
| RecoverySaved (r : RecoveryRecord).

Record System := mkSystem {
  ys_rt : Runtime; ys_launch : gmap nat LWorker; ys_resume : gmap nat RWorker; ys_exit : gmap nat XWorker;
  ys_log : list Event }.

Definition launch_events (a : nat) (t : launchTicket) (w : LWorker) (n : LaunchAnswers) : list Event :=
  match w with
  | LReserve d => match la_journal n with None => [Reserved d] | Some _ => [] end
  | LStart d => [StartCalled a d]
  | LAttach _ _ => [ChildOwned]
  | LFail e => if lt_starting t && errors_is e launch_unknown then [StartUncertain] else []
  | _ => []
  end.
Definition resume_events (a : nat) (t : resumeTicket) (w : RWorker) (n : ResumeAnswers) : list Event :=
  match w with
  | RLaunch d _ => match sa_journal n with None => [Reserved d] | Some _ => [] end
  | RStart d _ => [ResumeCalled a d]
  | RAttach _ _ _ _ => [ChildOwned]
  | RComplete _ _ true _ => if st_attached t then [] else [StartUncertain]
  | _ => []
  end.
Definition exit_events (run : ownedRun) (w : XWorker) (n : ExitAnswers) : list Event :=
  match w with XJoin _ true => [ExitKnown] | _ => [] end
  ++ match exit_record run w n with Some r => [RecoverySaved r] | None => [] end.

(** A goroutine goes on, or it ends. *)
Definition go_on {W} (a : nat) (next : option W) (ws : gmap nat W) : gmap nat W :=
  match next with Some w => <[a := w]> ws | None => delete a ws end.
Definition launch_next (w : LWorker) : option LWorker := match w with LDone _ => None | _ => Some w end.
Definition resume_next (w : RWorker) : option RWorker := match w with RDone _ => None | _ => Some w end.
Definition exit_next (w : XWorker) : option XWorker := match w with XDone => None | _ => Some w end.
(** [go s.reconcile(run)]. *)
Definition spawn_exit (run : option nat) (m : gmap nat XWorker) : gmap nat XWorker :=
  match run with Some r => <[r := XWait]> m | None => m end.

Definition enter_launch (y : System) (ctx : option error) (request : LaunchRequest) : System :=
  let '(s, entry) := Launch_enter (ys_rt y) ctx request in
  mkSystem s (match entry with Waiting a true => <[a := LPrepare]> (ys_launch y) | _ => ys_launch y end)
    (ys_resume y) (ys_exit y) (ys_log y).
Definition enter_resume (y : System) (journal : bool) (ctx : option error) (request : ResumeRequest) : System :=
  let '(s, entry) := Resume_enter journal (ys_rt y) ctx request in
  mkSystem s (ys_launch y)
    (match entry with Waiting a true => <[a := RList]> (ys_resume y) | _ => ys_resume y end) (ys_exit y) (ys_log y).

(** A caller that waits goes on, because its ticket is done or its own context
    is over. *)
Definition leave_launch (y : System) (a : nat) (ctx : option error) : System :=
  match ow_launches (ys_rt y) !! a with
  | None => y
  | Some t =>
      if negb (0 <? lt_waiters t) then y
      else
        match ctx with
        | Some e => mkSystem (fst (Launch_cancelled (ys_rt y) a t e)) (ys_launch y) (ys_resume y) (ys_exit y) (ys_log y)
        | None => if lt_complete t
                  then mkSystem (fst (Launch_done (ys_rt y) a t)) (ys_launch y) (ys_resume y) (ys_exit y) (ys_log y)
                  else y
        end
  end.
Definition leave_resume (y : System) (a : nat) (ctx : option error) : System :=
  match ow_attempts (ys_rt y) !! a with
  | None => y
  | Some t =>
      if negb (0 <? st_waiters t) then y
      else
        match ctx with
        | Some e => mkSystem (fst (Resume_cancelled (ys_rt y) a t e)) (ys_launch y) (ys_resume y) (ys_exit y) (ys_log y)
        | None => if st_complete t
                  then mkSystem (fst (Resume_done (ys_rt y) a t)) (ys_launch y) (ys_resume y) (ys_exit y) (ys_log y)
                  else y
        end
  end.

Definition turn_launch (y : System) (a : nat) (n : LaunchAnswers) : System :=
  match ys_launch y !! a, ow_launches (ys_rt y) !! a with
  | Some w, Some t =>
      let '(s, w') := launch_turn (ys_rt y) a t w n in
      mkSystem s (go_on a (launch_next w') (ys_launch y))
        (ys_resume y) (match w' with LDone run => spawn_exit run (ys_exit y) | _ => ys_exit y end)
        (launch_events a t w n ++ ys_log y)
  | _, _ => y
  end.
Definition turn_resume (y : System) (a : nat) (n : ResumeAnswers) : System :=
  match ys_resume y !! a, ow_attempts (ys_rt y) !! a with
  | Some w, Some t =>
      let '(s, w') := resume_turn (ys_rt y) a t w n in
      mkSystem s (ys_launch y) (go_on a (resume_next w') (ys_resume y))
        (match w' with RDone run => spawn_exit run (ys_exit y) | _ => ys_exit y end)
        (resume_events a t w n ++ ys_log y)
  | _, _ => y
  end.
Definition turn_exit (y : System) (r : nat) (n : ExitAnswers) : System :=
  match ys_exit y !! r, ow_owned (ys_rt y) !! r with
  | Some w, Some run =>
      let '(s, w') := exit_turn (ys_rt y) r run w n in
      mkSystem s (ys_launch y) (ys_resume y)
        (go_on r (exit_next w') (ys_exit y))
        (exit_events run w n ++ ys_log y)
  | _, _ => y
  end.

(** The rest of the runtime, the control coordinator and the lifecycle, changes
    its own fields, the gate and the revision. *)
Record outside (s s' : Runtime) : Prop := {
  ou_epoch : ow_epoch s' = ow_epoch s;
  ou_launches : ow_tickets s' = ow_tickets s /\ ow_launches s' = ow_launches s;
  ou_resumes : ow_resumes s' = ow_resumes s /\ ow_attempts s' = ow_attempts s;
  ou_runs : ow_runs s' = ow_runs s /\ ow_owned s' = ow_owned s;
  ou_counts : ow_pending s' = ow_pending s /\ ow_active s' = ow_active s }.
Definition with_rt (y : System) (s : Runtime) : System :=
  mkSystem s (ys_launch y) (ys_resume y) (ys_exit y) (ys_log y).

(** The runtime's own steps, and those with the rest of it. *)
Inductive own_step : System -> System -> Prop :=
| os_enter_launch y ctx request : own_step y (enter_launch y ctx request)
| os_enter_resume y journal ctx request : own_step y (enter_resume y journal ctx request)
| os_leave_launch y a ctx : own_step y (leave_launch y a ctx)
| os_leave_resume y a ctx : own_step y (leave_resume y a ctx)
| os_turn_launch y a n : own_step y (turn_launch y a n)
| os_turn_resume y a n : own_step y (turn_resume y a n)
| os_turn_exit y r n : own_step y (turn_exit y r n)
| os_disable y : own_step y (with_rt y (DisableLaunches (ys_rt y))).
Inductive owner_step : System -> System -> Prop :=
| os_own y y' : own_step y y' -> owner_step y y'
| os_outside y s : outside (ys_rt y) s -> owner_step y (with_rt y s).

Definition new_system (s : Runtime) : System := mkSystem s ∅ ∅ ∅ [].
