(* ===== verification/Ownership.v ===== *)
(** * What the owner of the processes keeps

    The theorems about [Owner.v].  A launch and a resume are the same machine
    for the invariants: callers and one goroutine share a ticket, the maps
    file it by its request, and the goroutine calls the launcher at most once.
    [tickets_ok] states that for both; the counts, the final outcomes and the
    termination of the goroutines follow from it. *)

From S2P Require Import Prelude GoStrings GoTime RuntimeValues Launch Control Lifecycle Recovery Output OutputCapture Owner.

(** ** Tickets *)

(** What the two kinds of ticket have in common: [like] is what a caller may
    not change, [wf] a property of each ticket and [called] the event of the
    goroutine's call of the launcher. *)
Record TicketKind (T W : Type) := mkKind {
  tk_id : T -> string; tk_complete : T -> bool; tk_starting : T -> bool; tk_aborted : T -> bool;
  tk_like : T -> T -> Prop; tk_wf : T -> Prop;
  tk_at : gmap nat ownedRun -> list Event -> nat -> T -> W -> Prop;
  tk_called : nat -> RunSnapshot -> Event }.
Arguments mkKind {T W}.
Arguments tk_id {T W}.
Arguments tk_complete {T W}.
Arguments tk_starting {T W}.
Arguments tk_aborted {T W}.
Arguments tk_like {T W}.
Arguments tk_wf {T W}.
Arguments tk_at {T W}.
Arguments tk_called {T W}.

Definition never_called {T W} (K : TicketKind T W) (log : list Event) (a : nat) : Prop :=
  forall d, tk_called K a d ∉ log.
Definition grows (runs runs' : gmap nat ownedRun) : Prop := forall r, is_Some (runs !! r) -> is_Some (runs' !! r).

(** What the lemmas need to know about a kind. *)
Class TicketLaws {T W} (K : TicketKind T W) : Prop := {
  tk_mono runs runs' log log' a t w :
    tk_at K runs log a t w -> grows runs runs' -> (forall e, e ∈ log -> e ∈ log') ->
    (never_called K log a -> never_called K log' a) -> tk_at K runs' log' a t w;
  tk_touched runs log a t t' w : tk_like K t t' -> tk_at K runs log a t w -> tk_at K runs log a t' w;
  tk_kept t t' : tk_like K t t' -> tk_id K t' = tk_id K t /\ tk_complete K t' = tk_complete K t /\
    tk_starting K t' = tk_starting K t /\ tk_aborted K t' = tk_aborted K t;
  tk_called_inj a b d d' : tk_called K a d = tk_called K b d' -> a = b /\ d = d' }.

Record tickets_ok {T W} (K : TicketKind T W) (index : gmap string nat) (heap : gmap nat T) (ws : gmap nat W)
  (runs : gmap nat ownedRun) (log : list Event) : Prop := {
  to_worker : forall a w, ws !! a = Some w ->
    exists t, heap !! a = Some t /\ tk_complete K t = false /\ tk_at K runs log a t w;
  to_open : forall a t, heap !! a = Some t -> tk_complete K t = false -> is_Some (ws !! a) /\ tk_aborted K t = false;
  to_filed : forall id a, index !! id = Some a -> exists t, heap !! a = Some t /\ tk_id K t = id;
  to_kept : forall a t, heap !! a = Some t -> tk_aborted K t = false -> index !! tk_id K t = Some a;
  to_wf : forall a t, heap !! a = Some t -> tk_wf K t;
  to_started : forall a d, tk_called K a d ∈ log -> exists t, heap !! a = Some t /\ tk_starting K t = true }.

Lemma fresh_lookup {V} (m : gmap nat V) : m !! fresh (dom m) = None.
Proof. apply not_elem_of_dom, is_fresh. Qed.

Lemma runs_grow_refl runs : grows runs runs.
Proof. by intros r. Qed.
Lemma runs_grow_insert runs r run : grows runs (<[r := run]> runs).
Proof. intros q Hq. rewrite lookup_insert. by case_decide. Qed.
#[local] Hint Resolve runs_grow_refl runs_grow_insert : traceary.

Section tickets.
Context {T W : Type} (K : TicketKind T W) `{!TicketLaws K}.

Lemma tk_at_frame runs runs' log evs a t w :
  tk_at K runs log a t w -> grows runs runs' -> never_called K evs a -> tk_at K runs' (evs ++ log) a t w.
Proof.
  intros Hat Hr He. eapply tk_mono; [exact Hat|done| |].
  - intros e Hin. apply elem_of_app. by right.
  - intros Hn d [Hin|Hin]%elem_of_app; [by apply (He d)|by apply (Hn d)].
Qed.

(** Steps of the others. *)
Lemma tickets_frame index heap ws runs runs' log evs :
  tickets_ok K index heap ws runs log -> grows runs runs' -> (forall a, never_called K evs a) ->
  tickets_ok K index heap ws runs' (evs ++ log).
Proof.
  intros [H1 H2 H3 H4 H5 H6] Hr He. split; auto.
  - intros a w Hw. destruct (H1 a w Hw) as (t & Ht & Hc & Hat). exists t. eauto using tk_at_frame.
  - intros a d [Hin|Hin]%elem_of_app; [by apply He in Hin|eauto].
Qed.

(** A caller's section. *)
Lemma tickets_touch index heap ws runs log a t t' :
  tickets_ok K index heap ws runs log -> heap !! a = Some t -> tk_like K t t' -> tk_wf K t' ->
  tickets_ok K index (<[a := t']> heap) ws runs log.
Proof.
  intros [H1 H2 H3 H4 H5 H6] Ht Hl Hwf. destruct (tk_kept _ _ Hl) as (Ei & Ec & Es & Ea).
  assert (Hlook : forall b u, <[a := t']> heap !! b = Some u -> exists u0, heap !! b = Some u0 /\
    tk_id K u = tk_id K u0 /\ tk_complete K u = tk_complete K u0 /\ tk_aborted K u = tk_aborted K u0 /\ tk_wf K u).
  { intros b u. rewrite lookup_insert. case_decide as E; [subst b; intros [= <-]; by exists t|intros Hu; exists u; eauto 6]. }
  split.
  - intros b w Hw. destruct (H1 b w Hw) as (u & Hu & Hcu & Hat). rewrite lookup_insert. case_decide as E; [|eauto].
    subst b. rewrite Ht in Hu. injection Hu as <-. exists t'. split_and!; [done|congruence|by eapply tk_touched].
  - intros b u (u0 & Hu & _ & -> & -> & _)%Hlook. by apply H2.
  - intros id b (u & Hu & Hid)%H3. rewrite lookup_insert. case_decide as E; [|by exists u].
    subst b. rewrite Ht in Hu. injection Hu as <-. exists t'. split; [done|congruence].
  - intros b u (u0 & Hu & -> & _ & -> & _)%Hlook. by apply H4.
  - intros b u (u0 & _ & _ & _ & _ & Hw)%Hlook. done.
  - intros b d (u & Hu & Hst)%H6. rewrite lookup_insert. case_decide as E; [|by exists u].
    subst b. rewrite Ht in Hu. injection Hu as <-. exists t'. split; [done|congruence].
Qed.

(** A new ticket and its goroutine. *)
Lemma tickets_new index heap ws runs log a t w :
  tickets_ok K index heap ws runs log -> heap !! a = None -> index !! tk_id K t = None ->
  tk_complete K t = false -> tk_aborted K t = false -> tk_wf K t -> tk_at K runs log a t w ->
  tickets_ok K (<[tk_id K t := a]> index) (<[a := t]> heap) (<[a := w]> ws) runs log.
Proof.
  intros [H1 H2 H3 H4 H5 H6] Ha Hi Hc Hab Hwf Hat. split.
  - intros b v. rewrite !lookup_insert. case_decide as E; [|by apply H1]. subst b. intros [= <-]. by exists t.
  - intros b u. rewrite !lookup_insert. case_decide as E; [|by apply H2]. intros [= <-] _. eauto.
  - intros id b. rewrite lookup_insert. case_decide as E.
    + intros [= <-]. exists t. by rewrite lookup_insert_eq.
    + intros (u & Hu & Hid)%H3. exists u. rewrite lookup_insert_ne; [done|congruence].
  - intros b u. rewrite (lookup_insert heap). case_decide as E; [intros [= <-] _; subst b; apply lookup_insert_eq|].
    intros Hu Hna. pose proof (H4 _ _ Hu Hna) as Hk. rewrite lookup_insert_ne; [done|congruence].
  - intros b u. rewrite lookup_insert. case_decide as E; [by intros [= <-]|by apply H5].
  - intros b d (u & Hu & Hst)%H6. exists u. rewrite lookup_insert_ne; [done|congruence].
Qed.

(** The goroutine's section: it goes on, or ends with its ticket, which may
    then leave the index. *)
Lemma tickets_turn index index' heap ws ws' runs runs' log a t t' evs :
  tickets_ok K index heap ws runs log -> heap !! a = Some t -> tk_complete K t = false ->
  tk_id K t' = tk_id K t -> (tk_starting K t = true -> tk_starting K t' = true) -> tk_wf K t' ->
  grows runs runs' -> (forall b d, tk_called K b d ∈ evs -> b = a /\ tk_starting K t' = true) ->
  (tk_complete K t' = false /\ tk_aborted K t' = false /\ index' = index /\
     (exists w', ws' = <[a := w']> ws /\ tk_at K runs' (evs ++ log) a t' w') \/
   tk_complete K t' = true /\ ws' = delete a ws /\
     index' = if tk_aborted K t' then delete (tk_id K t) index else index) ->
  tickets_ok K index' (<[a := t']> heap) ws' runs' (evs ++ log).
Proof.
  intros [H1 H2 H3 H4 H5 H6] Ht Hc Ei Hst Hwf Hr He Hw.
  destruct (H2 _ _ Ht Hc) as [_ Hab]. pose proof (H4 _ _ Ht Hab) as Hfiled.
  assert (Hws : forall b w, b <> a -> ws' !! b = Some w <-> ws !! b = Some w).
  { intros b w Hne. destruct Hw as [(_ & _ & _ & w' & -> & _)|(_ & -> & _)];
      [by rewrite lookup_insert_ne|by rewrite lookup_delete_ne]. }
  assert (Hix : forall id b, index' !! id = Some b -> index !! id = Some b).
  { intros id b. destruct Hw as [(_ & _ & -> & _)|(_ & _ & ->)]; [done|].
    case_match; [by intros [_ ?]%lookup_delete_Some|done]. }
  assert (Hlook : forall b u, heap !! b = Some u -> exists u', <[a := t']> heap !! b = Some u' /\
    tk_id K u' = tk_id K u /\ (tk_starting K u = true -> tk_starting K u' = true)).
  { intros b u Hb. rewrite lookup_insert. case_decide as E; [subst b|by exists u].
    rewrite Ht in Hb. injection Hb as <-. by exists t'. }
  split.
  - intros b w. rewrite lookup_insert. case_decide as E.
    + subst b. intros Hb. destruct Hw as [(Hc' & _ & _ & w' & -> & Hat)|(_ & -> & _)]; [|by rewrite lookup_delete_eq in Hb].
      rewrite lookup_insert_eq in Hb. injection Hb as <-. by exists t'.
    + rewrite Hws by done. intros (u & Hu & Hcu & Hat)%H1. exists u. split_and!; [done|done|].
      apply (tk_at_frame runs); [done|done|]. intros d Hin. by apply He in Hin as [-> _].
  - intros b u. rewrite lookup_insert. case_decide as E.
    + subst b. intros [= <-] Hcu. destruct Hw as [(_ & Hab' & _ & w' & -> & _)|(? & _)]; [|congruence].
      rewrite lookup_insert_eq. eauto.
    + intros Hu Hcu. destruct (H2 _ _ Hu Hcu) as [[w Hbw] Ha]. split; [|done]. exists w. by apply Hws.
  - intros id b (u & Hu & Hid)%Hix%H3. destruct (Hlook _ _ Hu) as (u' & Hu' & Hid' & _). exists u'. split; [done|congruence].
  - intros b u. rewrite lookup_insert. case_decide as E.
    + subst b. intros [= <-] Hna. destruct Hw as [(_ & _ & -> & _)|(_ & _ & ->)]; rewrite Ei; [done|]. by rewrite Hna.
    + intros Hu Hna. pose proof (H4 _ _ Hu Hna) as Hk. destruct Hw as [(_ & _ & -> & _)|(_ & _ & ->)]; [done|].
      case_match; [|done]. rewrite lookup_delete_ne; [done|congruence].
  - intros b u. rewrite lookup_insert. case_decide as E; [by intros [= <-]|by apply H5].
  - intros b d [Hin|Hin]%elem_of_app.
    + apply He in Hin as [-> Hs]. exists t'. by rewrite lookup_insert_eq.
    + destruct (H6 _ _ Hin) as (u & Hu & Hs). destruct (Hlook _ _ Hu) as (u' & Hu' & _ & Hs'). exists u'. auto.
Qed.
End tickets.

(** ** The launches *)

Definition launch_at (runs : gmap nat ownedRun) (log : list Event) (a : nat) (t : launchTicket) (w : LWorker) : Prop :=
  match w with
  | LPrepare | LCommit _ => lt_starting t = false
  | LReserve _ => lt_starting t = true /\ forall d, StartCalled a d ∉ log
  | LStart d => lt_starting t = true /\ (forall d', StartCalled a d' ∉ log) /\ Reserved d ∈ log
  | LSave r _ _ | LPublish r _ => lt_starting t = true /\ is_Some (runs !! r)
  | LAttach _ _ | LFailSave _ | LFailEnd => lt_starting t = true
  | LFail _ => True
  | LDone _ => False
  end.
(** A ticket is abandoned only before its commit, with its context. *)
Definition launch_wf (t : launchTicket) : Prop :=
  (lt_abandoned t = true -> lt_cancelled t = true /\ lt_starting t = false) /\
  (lt_aborted t = true -> lt_abandoned t = true).
Definition launch_like (t t' : launchTicket) : Prop :=
  lt_request t' = lt_request t /\ lt_starting t' = lt_starting t /\ lt_complete t' = lt_complete t /\
  lt_aborted t' = lt_aborted t /\ lt_result t' = lt_result t /\ lt_err t' = lt_err t /\ lt_descriptor t' = lt_descriptor t.
Definition launches : TicketKind launchTicket LWorker :=
  mkKind (fun t => lq_request (lt_request t)) lt_complete lt_starting lt_aborted launch_like launch_wf launch_at StartCalled.
#[global] Instance launches_laws : TicketLaws launches.
Proof.
  split.
  - intros runs runs' log log' a t w Hat Hr Hl Hn. unfold grows in Hr.
    destruct w; cbn in *; unfold never_called in Hn; cbn in Hn; naive_solver.
  - intros runs log a t t' w (_ & E & _). by destruct w; cbn; rewrite ?E.
  - intros t t' (Er & Es & Ec & Ea & _). cbn. by rewrite Er.
  - by intros a b d d' [= -> ->].
Qed.

(** ** The resumes *)

Definition resume_at (runs : gmap nat ownedRun) (log : list Event) (a : nat) (t : resumeTicket) (w : RWorker) : Prop :=
  match w with
  | RList | RRecords | RCheck _ | RValidate _ | RCommit _ _ => st_starting t = false /\ st_attached t = false
  | RReserve _ _ | RIntent _ _ | RLaunch _ _ =>
      st_starting t = true /\ st_attached t = false /\ forall d, ResumeCalled a d ∉ log
  | RStart d _ => st_starting t = true /\ st_attached t = false /\ (forall d', ResumeCalled a d' ∉ log) /\ Reserved d ∈ log
  | RNotStarted _ _ | RLost _ | RAttach _ _ _ _ => st_starting t = true /\ st_attached t = false
  | RSave r _ _ _ | RStarted r _ | RConfirm r _ | RPublish r _ _ | RRecord r _ _ =>
      st_starting t = true /\ st_attached t = true /\ is_Some (runs !! r)
  | RComplete _ _ possible (Some r) => possible = false /\ st_attached t = true /\ is_Some (runs !! r)
  | RComplete _ _ _ None => st_attached t = false
  | RDone _ => False
  end.
Definition resume_like (t t' : resumeTicket) : Prop :=
  st_request t' = st_request t /\ st_starting t' = st_starting t /\ st_complete t' = st_complete t /\
  st_attached t' = st_attached t /\ st_result t' = st_result t /\ st_err t' = st_err t /\
  st_descriptor t' = st_descriptor t /\ st_possibleChild t' = st_possibleChild t.
Definition resumes : TicketKind resumeTicket RWorker :=
  mkKind (fun t => sq_request (st_request t)) st_complete st_starting (fun _ => false) resume_like (fun _ => True)
    resume_at ResumeCalled.
#[global] Instance resumes_laws : TicketLaws resumes.
Proof.
  split.
  - intros runs runs' log log' a t w Hat Hr Hl Hn. unfold grows in Hr.
    destruct w as [| | | | | | | | | | | | | | | | |? ? ? [r|]|]; cbn in *; unfold never_called in Hn; cbn in Hn; naive_solver.
  - intros runs log a t t' w (_ & E & _ & Ea & _). destruct w as [| | | | | | | | | | | | | | | | |? ? ? [r|]|]; cbn; by rewrite ?E, ?Ea.
  - intros t t' (Er & Es & Ec & Ea & _). cbn. by rewrite Er.
  - by intros a b d d' [= -> ->].
Qed.

(** ** The whole state *)

Definition events (f : Event -> bool) (log : list Event) : Z := foldr (fun e n => b2z (f e) + n) 0 log.
Definition is_child (e : Event) : bool := match e with ChildOwned => true | _ => false end.
Definition is_uncertain (e : Event) : bool := match e with StartUncertain => true | _ => false end.
Definition is_exit (e : Event) : bool := match e with ExitKnown => true | _ => false end.
Definition is_recovery (e : Event) : bool := match e with RecoverySaved _ => true | _ => false end.

Lemma events_app f l k : events f (l ++ k) = events f l + events f k.
Proof. induction l as [|e l IH]; cbn; [done|]. fold (events f (l ++ k)) (events f l). lia. Qed.
Lemma events_nonneg f l : 0 <= events f l.
Proof. induction l as [|e l IH]; cbn; [done|]. fold (events f l). unfold b2z. destruct (f e); lia. Qed.

Arguments events f log : simpl never.

(** A call of the launcher has its reservation, and no earlier call for its
    ticket, behind it. *)
Definition lawful (e : Event) (before : list Event) : Prop :=
  match e with
  | StartCalled a d => Reserved d ∈ before /\ forall d', StartCalled a d' ∉ before
  | ResumeCalled a d => Reserved d ∈ before /\ forall d', ResumeCalled a d' ∉ before
  | _ => True
  end.
Fixpoint ordered (log : list Event) : Prop :=
  match log with [] => True | e :: before => lawful e before /\ ordered before end.

(** The goroutines that account for one of [ow_pending]. *)
Definition lholds (w : LWorker) : bool :=
  match w with LSave _ _ _ | LPublish _ _ | LFailSave _ | LFailEnd | LDone _ => false | _ => true end.
Definition rholds (w : RWorker) : bool :=
  match w with
  | RSave _ _ _ _ | RStarted _ _ | RConfirm _ _ | RPublish _ _ _ | RRecord _ _ _ | RComplete _ _ _ (Some _) | RDone _ => false
  | _ => true
  end.

Record system_ok (y : System) : Prop := {
  so_launches : tickets_ok launches (ow_tickets (ys_rt y)) (ow_launches (ys_rt y)) (ys_launch y) (ow_owned (ys_rt y)) (ys_log y);
  so_resumes : tickets_ok resumes (ow_resumes (ys_rt y)) (ow_attempts (ys_rt y)) (ys_resume y) (ow_owned (ys_rt y)) (ys_log y);
  so_pending : ow_pending (ys_rt y) =
    mcount lholds (ys_launch y) + mcount rholds (ys_resume y) + events is_uncertain (ys_log y);
  so_active : ow_active (ys_rt y) = events is_child (ys_log y) - events is_exit (ys_log y);
  so_room : ow_pending (ys_rt y) + ow_active (ys_rt y) <= MaxActiveRuns;
  so_requests : msize (ow_tickets (ys_rt y)) + msize (ow_resumes (ys_rt y)) <= MaxLaunchRequests;
  so_ordered : ordered (ys_log y) }.

Lemma changed_outside s : outside s (changedLocked s).
Proof. unfold changedLocked. by case_match. Qed.
Lemma outside_refl s : outside s s.
Proof. done. Qed.
Lemma outside_trans s1 s2 s3 : outside s1 s2 -> outside s2 s3 -> outside s1 s3.
Proof. intros [? [] [] [] []] [? [] [] [] []]. split; split_and?; congruence. Qed.
Lemma changed_trans s1 s2 : outside s1 s2 -> outside s1 (changedLocked s2).
Proof. intros H. exact (outside_trans _ _ _ H (changed_outside s2)). Qed.
#[local] Hint Resolve changed_outside outside_refl changed_trans : traceary.

Lemma ok_outside s s' l r x x' log :
  outside s s' -> system_ok (mkSystem s l r x log) -> system_ok (mkSystem s' l r x' log).
Proof.
  intros [? [El Eh] [Er Ea] [_ Eo] [Ep Eac]] [H1 H2 H3 H4 H5 H6 H7]. cbn in *.
  split; cbn; by rewrite ?El, ?Eh, ?Er, ?Ea, ?Eo, ?Ep, ?Eac.
Qed.

(** ** Sections of the goroutines *)

Definition held {W} (holds : W -> bool) (next : option W) : Z :=
  match next with Some w => b2z (holds w) | None => 0 end.

Lemma held_count {W} (holds : W -> bool) ws a w next :
  ws !! a = Some w -> mcount holds (go_on a next ws) = mcount holds ws - b2z (holds w) + held holds next.
Proof. intros Hw. destruct next as [w'|]; cbn; [by apply mcount_update|]. rewrite (mcount_delete _ _ _ _ Hw). lia. Qed.

Lemma ordered_app evs log : ordered log -> (forall e, e ∈ evs -> lawful e log) -> (List.length evs <= 1)%nat -> ordered (evs ++ log).
Proof. destruct evs as [|e [|]]; cbn; [done| |lia]. intros Ho Hl _. split; [apply Hl; by left|done]. Qed.

Section section_of.
Context (y : System) (Hy : system_ok y).
Let s := ys_rt y.

(** A section of a launch. *)
Lemma launch_section a w t t' next s' owned evs exits :
  ys_launch y !! a = Some w -> ow_launches s !! a = Some t ->
  lt_request t' = lt_request t -> (lt_starting t = true -> lt_starting t' = true) -> launch_wf t' ->
  grows (ow_owned s) owned ->
  outside (set_counts (set_launches (set_runs s (ow_runs s') owned)
             (if lt_aborted t' then delete (lq_request (lt_request t)) (ow_tickets s) else ow_tickets s)
             (<[a := t']> (ow_launches s)))
             (ow_pending s + held lholds next - b2z (lholds w) + events is_uncertain evs)
             (ow_active s + events is_child evs - events is_exit evs)) s' ->
  match next with
  | Some w' => lt_complete t' = false /\ lt_aborted t' = false /\ launch_at owned (evs ++ ys_log y) a t' w'
  | None => lt_complete t' = true
  end ->
  held lholds next - b2z (lholds w) + events is_uncertain evs + events is_child evs - events is_exit evs <= 0 ->
  (forall b d, StartCalled b d ∈ evs -> b = a /\ lt_starting t' = true) -> (forall b d, ResumeCalled b d ∉ evs) ->
  (forall e, e ∈ evs -> lawful e (ys_log y)) -> (List.length evs <= 1)%nat ->
  system_ok (mkSystem s' (go_on a next (ys_launch y)) (ys_resume y) exits (evs ++ ys_log y)).
Proof using Hy.
  intros Hw Ht Er Es Hwf Hg Ho Hnext Hroom He He' Hl Hlen.
  destruct Hy as [H1 H2 H3 H4 H5 H6 H7]. refine (ok_outside _ s' _ _ exits exits _ Ho _). clear Ho.
  destruct (to_worker _ _ _ _ _ _ H1 _ _ Hw) as (u & Hu & Hc & _). fold s in Hu. rewrite Ht in Hu. injection Hu as <-.
  split; cbn.
  - apply (tickets_turn launches (ow_tickets s) _ (ow_launches s) (ys_launch y) _ (ow_owned s) _ _ _ t); try done; [by cbn; rewrite Er|].
    destruct next as [w'|]; [left|right]; cbn.
    + destruct Hnext as (Hc' & Ha' & Hat). rewrite Ha'. eauto 6.
    + done.
  - apply (tickets_frame resumes _ _ _ (ow_owned s)); [done|done|]. by intros b d.
  - rewrite events_app, (held_count _ _ _ _ _ Hw). fold s in H3. lia.
  - rewrite !events_app. fold s in H4. lia.
  - fold s in H5. lia.
  - etrans; [|exact H6]. apply Z.add_le_mono_r. destruct (lt_aborted t'); [|apply Z.le_refl]. unfold msize. apply inj_le, map_subseteq_size, delete_subseteq.
  - by apply ordered_app.
Qed.

(** A section of a resume. *)
Lemma resume_section a w t t' next s' owned evs exits :
  ys_resume y !! a = Some w -> ow_attempts s !! a = Some t ->
  st_request t' = st_request t -> (st_starting t = true -> st_starting t' = true) ->
  grows (ow_owned s) owned ->
  outside (set_counts (set_attempts (set_runs s (ow_runs s') owned) (ow_resumes s) (<[a := t']> (ow_attempts s)))
             (ow_pending s + held rholds next - b2z (rholds w) + events is_uncertain evs)
             (ow_active s + events is_child evs - events is_exit evs)) s' ->
  match next with
  | Some w' => st_complete t' = false /\ resume_at owned (evs ++ ys_log y) a t' w'
  | None => st_complete t' = true
  end ->
  held rholds next - b2z (rholds w) + events is_uncertain evs + events is_child evs - events is_exit evs <= 0 ->
  (forall b d, ResumeCalled b d ∈ evs -> b = a /\ st_starting t' = true) -> (forall b d, StartCalled b d ∉ evs) ->
  (forall e, e ∈ evs -> lawful e (ys_log y)) -> (List.length evs <= 1)%nat ->
  system_ok (mkSystem s' (ys_launch y) (go_on a next (ys_resume y)) exits (evs ++ ys_log y)).
Proof using Hy.
  intros Hw Ht Er Es Hg Ho Hnext Hroom He He' Hl Hlen.
  destruct Hy as [H1 H2 H3 H4 H5 H6 H7]. refine (ok_outside _ s' _ _ exits exits _ Ho _). clear Ho.
  destruct (to_worker _ _ _ _ _ _ H2 _ _ Hw) as (u & Hu & Hc & _). fold s in Hu. rewrite Ht in Hu. injection Hu as <-.
  split; cbn.
  - apply (tickets_frame launches _ _ _ (ow_owned s)); [done|done|]. by intros b d.
  - apply (tickets_turn resumes (ow_resumes s) _ (ow_attempts s) (ys_resume y) _ (ow_owned s) _ _ _ t); try done; [by cbn; rewrite Er|].
    destruct next as [w'|]; [left|right]; cbn; [|done]. destruct Hnext as (Hc' & Hat). eauto 6.
  - rewrite events_app, (held_count _ _ _ _ _ Hw). fold s in H3. lia.
  - rewrite !events_app. fold s in H4. lia.
  - fold s in H5. lia.
  - done.
  - by apply ordered_app.
Qed.
End section_of.

(** Reads the fields of a state after assignments. *)
Ltac fields :=
  unfold changedLocked, events; repeat case_match; split; cbn; split_and?; rewrite ?insert_id by done; try done; try lia.
Ltac evs_lia := unfold events; cbn; lia.
Ltac no_event :=
  let Hin := fresh "Hin" in first [intros ? ? Hin | intros ? Hin];
  first [by apply elem_of_nil in Hin | by apply list_elem_of_singleton in Hin
        |by apply list_elem_of_singleton in Hin as ->].
Ltac section_goals := try done; try apply runs_grow_refl; try apply runs_grow_insert; try no_event; try evs_lia.


Lemma launch_stay y a w t w' evs exits :
  system_ok y -> ys_launch y !! a = Some w -> ow_launches (ys_rt y) !! a = Some t -> lholds w' = lholds w ->
  launch_at (ow_owned (ys_rt y)) (evs ++ ys_log y) a t w' ->
  evs = [] \/ (exists d, evs = [Reserved d]) \/
  (exists d, evs = [StartCalled a d] /\ lt_starting t = true /\ lawful (StartCalled a d) (ys_log y)) ->
  system_ok (mkSystem (ys_rt y) (<[a := w']> (ys_launch y)) (ys_resume y) exits (evs ++ ys_log y)).
Proof.
  intros Hy Hw Ht Eh Hat He.
  destruct (to_worker _ _ _ _ _ _ (so_launches _ Hy) _ _ Hw) as (u & Hu & Hc & _). rewrite Ht in Hu. injection Hu as <-.
  destruct (to_open _ _ _ _ _ _ (so_launches _ Hy) _ _ Ht Hc) as [_ Hab]. cbn in Hc, Hab.
  assert (Hn : events is_uncertain evs = 0 /\ events is_child evs = 0 /\ events is_exit evs = 0)
    by (destruct He as [->|[[d ->]|(d & -> & _)]]; done).
  destruct Hn as (En & Ec & Ex).
  apply (launch_section y Hy a w t t (Some w') _ (ow_owned (ys_rt y)) evs); try done; try apply runs_grow_refl; rewrite ?En, ?Ec, ?Ex, ?Hab; cbn [held];
    rewrite ?Eh; try lia.
  - exact (to_wf _ _ _ _ _ _ (so_launches _ Hy) _ _ Ht).
  - fields.
  - intros b d Hin. destruct He as [->|[[d' ->]|(d' & -> & Hs & _)]]; [by apply elem_of_nil in Hin| |];
      apply list_elem_of_singleton in Hin; [done|by injection Hin as -> ->].
  - intros b d Hin. by destruct He as [->|[[d' ->]|(d' & -> & _)]]; [apply elem_of_nil in Hin| |]; try apply list_elem_of_singleton in Hin.
  - intros e Hin. destruct He as [->|[[d' ->]|(d' & -> & _ & Hl)]]; [by apply elem_of_nil in Hin| |];
      apply list_elem_of_singleton in Hin as ->; done.
  - destruct He as [->|[[d' ->]|(d' & -> & _)]]; cbn; lia.
Qed.
Ltac stay w evs := eapply (launch_stay _ _ w _ _ evs); try done; cbn; auto.

Lemma launch_prepared y a t d :
  system_ok y -> ow_launches (ys_rt y) !! a = Some t -> lt_starting t = false -> StartCalled a d ∉ ys_log y.
Proof.
  intros Hy Ht Hs Hin. destruct (to_started _ _ _ _ _ _ (so_launches _ Hy) _ _ Hin) as (u & Hu & Hs').
  cbn in Hs'. rewrite Ht in Hu. congruence.
Qed.

Lemma turn_launch_ok y a n : system_ok y -> system_ok (turn_launch y a n).
Proof.
  intros Hy. unfold turn_launch.
  destruct (ys_launch y !! a) as [w|] eqn:Hw; [|done]. destruct (ow_launches (ys_rt y) !! a) as [t|] eqn:Ht; [|done].
  destruct (to_worker _ _ _ _ _ _ (so_launches _ Hy) _ _ Hw) as (u & Hu & Hc & Hat). rewrite Ht in Hu. injection Hu as <-.
  destruct (to_open _ _ _ _ _ _ (so_launches _ Hy) _ _ Ht Hc) as [_ Hab].
  pose proof (to_wf _ _ _ _ _ _ (so_launches _ Hy) _ _ Ht) as Hwf. cbn in Hc, Hab, Hat, Hwf.
  destruct w; cbn -[launch_attach launch_publish launch_fail launch_commit launch_prepare go_on app] in *.
  - destruct (launch_prepare _ _ _); stay LPrepare ([] : list Event).
  - unfold launch_commit. destruct (ticket_ctx _ _) eqn:E; cbn -[changedLocked app]; [by stay (LCommit d) ([] : list Event)|].
    apply (launch_section y Hy a (LCommit d) t (set_starting t d) (Some (LReserve d)) _ (ow_owned (ys_rt y)) []); section_goals.
    + unfold launch_wf in *. cbn. split; [intros Hd|by rewrite Hab].
      destruct Hwf as [Hwf _]. destruct (Hwf Hd) as [Hcan _]. by rewrite Hcan in E.
    + cbn. rewrite Hab. fields.
    + cbn. split_and!; [done|done|done|]. intros d'. by apply (launch_prepared _ _ t).
  - destruct Hat as [Hs Hn]. destruct (la_journal n) eqn:E; cbn -[app].
    + stay (LReserve d) ([] : list Event).
    + stay (LReserve d) [Reserved d]; [|by eauto]. split_and!; [done| |by left].
      intros d' [?|?]%elem_of_cons; [done|by apply (Hn d')].
  - destruct Hat as (Hs & Hn & Hr).
    assert (He : exists d0, [StartCalled a d] = [StartCalled a d0] /\ lt_starting t = true /\ lawful (StartCalled a d0) (ys_log y))
      by (exists d; cbn; auto).
    unfold launch_start. destruct (la_start n) as [[child|]|e]; cbn -[app]; stay (LStart d) [StartCalled a d].
  - unfold launch_attach. destruct (own_child d child) as [d' bad]. cbn -[changedLocked app go_on].
    set (r := fresh _). set (run := mkOwned _ _ _ _ _ _).
    apply (launch_section y Hy a (LAttach d child) t (set_descriptor t d') (Some (LSave r d' bad)) _
             (<[r := run]> (ow_owned (ys_rt y))) [ChildOwned]); section_goals.
    + cbn. rewrite Hab. fields.
    + cbn. split_and!; [done|done|done|]. rewrite lookup_insert_eq. by eexists.
  - destruct Hat as [Hs Hr]. stay (LSave run d descriptorErr) ([] : list Event).
  - destruct Hat as [Hs [o Hr]]. rewrite Hr. unfold launch_publish. cbn -[changedLocked go_on].
    set (o' := if bad then _ else _).
    apply (launch_section y Hy a (LPublish run bad) t (complete_launch t (or_descriptor o') (if bad then Some ErrLaunchUnknown else lt_err t))
             None _ (<[run := o']> (ow_owned (ys_rt y))) []); section_goals.
    cbn. rewrite Hab. fields.
  - unfold launch_fail. destruct (lt_starting t && errors_is e launch_unknown) eqn:Eu.
    + apply andb_true_iff in Eu as [Hs Eu]. rewrite Hs. cbn -[changedLocked go_on].
      set (t1 := set_failure _ _ _ _ _).
      apply (launch_section y Hy a (LFail e) t t1 (Some (LFailSave (fst (MarkUncertain (lt_descriptor t))))) _ (ow_owned (ys_rt y)) [StartUncertain]);
        section_goals.
      * cbn. rewrite Hab. fields.
    + cbn -[changedLocked go_on fail_end]. set (t0 := set_failure _ _ _ _ _). unfold fail_end.
      set (t1 := complete_launch t0 (lt_result t0) (lt_err t0)).
      apply (launch_section y Hy a (LFail e) t t1 None _ (ow_owned (ys_rt y)) []); section_goals.
      * subst t1 t0. unfold launch_wf in *. cbn. destruct Hwf as [H1 H2]. split; [done|].
        rewrite Hab. destruct (lt_starting t), (lt_abandoned t); done.
      * subst t1 t0. cbn. rewrite Hab. destruct (negb (lt_starting t) && lt_abandoned t); fields.
  - stay (LFailSave snapshot) ([] : list Event).
  - unfold fail_end. apply (launch_section y Hy a LFailEnd t (complete_launch t (lt_result t) (lt_err t)) None _ (ow_owned (ys_rt y)) []); section_goals.
    cbn. rewrite Hab. fields.
  - done.
Qed.

Lemma resume_stay y a w t w' evs exits :
  system_ok y -> ys_resume y !! a = Some w -> ow_attempts (ys_rt y) !! a = Some t -> rholds w' = rholds w ->
  resume_at (ow_owned (ys_rt y)) (evs ++ ys_log y) a t w' ->
  evs = [] \/ (exists d, evs = [Reserved d]) \/
  (exists d, evs = [ResumeCalled a d] /\ st_starting t = true /\ lawful (ResumeCalled a d) (ys_log y)) ->
  system_ok (mkSystem (ys_rt y) (ys_launch y) (<[a := w']> (ys_resume y)) exits (evs ++ ys_log y)).
Proof.
  intros Hy Hw Ht Eh Hat He.
  destruct (to_worker _ _ _ _ _ _ (so_resumes _ Hy) _ _ Hw) as (u & Hu & Hc & _). rewrite Ht in Hu. injection Hu as <-.
  cbn in Hc.
  assert (Hn : events is_uncertain evs = 0 /\ events is_child evs = 0 /\ events is_exit evs = 0)
    by (destruct He as [->|[[d ->]|(d & -> & _)]]; done).
  destruct Hn as (En & Ec & Ex).
  apply (resume_section y Hy a w t t (Some w') _ (ow_owned (ys_rt y)) evs); try done; try apply runs_grow_refl;
    rewrite ?En, ?Ec, ?Ex; cbn [held]; rewrite ?Eh; try lia.
  - fields.
  - intros b d Hin. destruct He as [->|[[d' ->]|(d' & -> & Hs & _)]]; [by apply elem_of_nil in Hin| |];
      apply list_elem_of_singleton in Hin; [done|by injection Hin as -> ->].
  - intros b d Hin. by destruct He as [->|[[d' ->]|(d' & -> & _)]]; [apply elem_of_nil in Hin| |]; try apply list_elem_of_singleton in Hin.
  - intros e Hin. destruct He as [->|[[d' ->]|(d' & -> & _ & Hl)]]; [by apply elem_of_nil in Hin| |];
      apply list_elem_of_singleton in Hin as ->; done.
  - destruct He as [->|[[d' ->]|(d' & -> & _)]]; cbn; lia.
Qed.
Ltac rstay w evs := eapply (resume_stay _ _ w _ _ evs); try done; cbn; auto.

Lemma resume_prepared y a t d :
  system_ok y -> ow_attempts (ys_rt y) !! a = Some t -> st_starting t = false -> ResumeCalled a d ∉ ys_log y.
Proof.
  intros Hy Ht Hs Hin. destruct (to_started _ _ _ _ _ _ (so_resumes _ Hy) _ _ Hin) as (u & Hu & Hs').
  cbn in Hs'. rewrite Ht in Hu. congruence.
Qed.

(** The preparation leads on, or ends without a child. *)
Definition unattached_end (w : RWorker) : Prop := exists r e, w = RComplete r e false None.
Lemma find_attempt_end attempts request w : find_attempt attempts request = Some w -> unattached_end w.
Proof.
  induction attempts as [|x attempts IH]; [done|]. cbn. repeat case_match; auto; intros [= <-]; by eexists _, _.
Qed.
Lemma resume_list_next t n : unattached_end (resume_list t n) \/ resume_list t n = RRecords.
Proof.
  unfold resume_list. repeat case_match; subst; eauto using find_attempt_end; left; by eexists _, _.
Qed.
Lemma resume_records_next t n : unattached_end (resume_records t n) \/ exists r, resume_records t n = RCheck r.
Proof. unfold resume_records. repeat case_match; subst; eauto; left; by eexists _, _. Qed.
Lemma resume_reserve_next t d attempt n :
  unattached_end (resume_reserve t d attempt n) \/ resume_reserve t d attempt n = RIntent d attempt.
Proof. unfold resume_reserve. repeat case_match; subst; eauto; left; by eexists _, _. Qed.
Lemma resume_not_started_end attempt cause n : unattached_end (resume_not_started attempt cause n).
Proof. unfold resume_not_started. repeat case_match; by eexists _, _. Qed.
Lemma resume_save_next r attempt bad n :
  exists attempt', resume_save r attempt bad n = RPublish r attempt' true \/ resume_save r attempt bad n = RStarted r attempt'.
Proof. unfold resume_save. repeat case_match; eauto. Qed.
Lemma resume_confirm_next r attempt n : exists attempt' bad, resume_confirm r attempt n = RPublish r attempt' bad.
Proof. unfold resume_confirm. case_match. eauto. Qed.

Lemma turn_resume_ok y a n : system_ok y -> system_ok (turn_resume y a n).
Proof.
  intros Hy. unfold turn_resume.
  destruct (ys_resume y !! a) as [w|] eqn:Hw; [|done]. destruct (ow_attempts (ys_rt y) !! a) as [t|] eqn:Ht; [|done].
  destruct (to_worker _ _ _ _ _ _ (so_resumes _ Hy) _ _ Hw) as (u & Hu & Hc & Hat). rewrite Ht in Hu. injection Hu as <-.
  cbn in Hc, Hat.
  destruct w as [| |record|record|d attempt|d attempt|d attempt|d attempt|d attempt|attempt cause|attempt|d attempt child se
    |r d attempt bad|r attempt|r attempt|r attempt bad|r attempt bad|result err possible [r|]|]; cbn -[resume_list resume_records
      contradicts resume_validate resume_commit resume_reserve resume_intent resume_launch resume_start resume_not_started resume_attach
      resume_save resume_started resume_confirm resume_publish completeResume go_on app] in *.
  - destruct Hat. destruct (resume_list_next t n) as [(?&?&->)| ->]; rstay RList ([] : list Event).
  - destruct Hat. destruct (resume_records_next t n) as [(?&?&->)|[? ->]]; rstay RRecords ([] : list Event).
  - destruct Hat. destruct (contradicts _ _); rstay (RCheck record) ([] : list Event).
  - destruct Hat. destruct (resume_validate _ _ _ _) as [[d attempt]|e]; rstay (RValidate record) ([] : list Event).
  - destruct Hat as [Hs Ha]. unfold resume_commit. destruct (first_err _) eqn:E; cbn -[changedLocked app go_on].
    + rstay (RCommit d attempt) ([] : list Event).
    + apply (resume_section y Hy a (RCommit d attempt) t (resume_starting t d) (Some (RReserve d attempt)) _ (ow_owned (ys_rt y)) []);
        section_goals; [fields|]. cbn. split_and!; [done|done|done|]. intros d'. by apply (resume_prepared _ _ t).
  - destruct Hat as (Hs & Ha & Hn). destruct (resume_reserve_next t d attempt n) as [(?&?&->)| ->]; rstay (RReserve d attempt) ([] : list Event).
  - destruct Hat as (Hs & Ha & Hn). unfold resume_intent. cbn -[changedLocked app go_on].
    apply (resume_section y Hy a (RIntent d attempt) t (set_result t (reserved_result attempt)) (Some (RLaunch d attempt)) _ (ow_owned (ys_rt y)) []);
        section_goals; fields.
  - destruct Hat as (Hs & Ha & Hn). unfold resume_launch. destruct (sa_journal n) eqn:E.
    + rstay (RLaunch d attempt) ([] : list Event).
    + destruct (first_err _); rstay (RLaunch d attempt) [Reserved d]; [| |]; eauto.
      split_and!; [done|done| |by left]. intros d' [?|?]%elem_of_cons; [done|by apply (Hn d')].
  - destruct Hat as (Hs & Ha & Hn & Hr).
    assert (He : exists d0, [ResumeCalled a d] = [ResumeCalled a d0] /\ st_starting t = true /\ lawful (ResumeCalled a d0) (ys_log y))
      by (exists d; cbn; auto).
    unfold resume_start. destruct (sa_start n) as [[child|] [e|]]; [| |case_match|]; rstay (RStart d attempt) [ResumeCalled a d].
  - destruct Hat as [Hs Ha]. destruct (resume_not_started_end attempt cause n) as (?&?&->). rstay (RNotStarted attempt cause) ([] : list Event).
  - destruct Hat as [Hs Ha]. rstay (RLost attempt) ([] : list Event).
  - destruct Hat as [Hs Ha]. unfold resume_attach. destruct (own_child d child) as [d' bad]. cbn -[changedLocked app go_on].
    set (r := fresh _). set (run := mkOwned _ _ _ _ _ _).
    apply (resume_section y Hy a (RAttach d attempt child se) t (set_attached t d' (owned_result attempt ResumeReserved))
             (Some (RSave r d' attempt (se || bad))) _ (<[r := run]> (ow_owned (ys_rt y))) [ChildOwned]); section_goals; [fields|].
    cbn. split_and!; [done|done|done|]. rewrite lookup_insert_eq. by eexists.
  - destruct Hat as (Hs & Ha & Hr).
    destruct (resume_save_next r attempt bad n) as [a' [-> | ->]]; rstay (RSave r d attempt bad) ([] : list Event).
  - destruct Hat as (Hs & Ha & Hr). unfold resume_started. cbn -[changedLocked app go_on].
    apply (resume_section y Hy a (RStarted r attempt) t (set_result t (with_phase (st_result t) ResumeStarted)) (Some (RConfirm r attempt))
             _ (ow_owned (ys_rt y)) []); section_goals; fields.
  - destruct Hat as (Hs & Ha & Hr).
    destruct (resume_confirm_next r attempt n) as (a' & b & ->). rstay (RConfirm r attempt) ([] : list Event).
  - destruct Hat as (Hs & Ha & [o Hr]). rewrite Hr. unfold resume_publish. cbn -[changedLocked app go_on].
    set (o' := if bad then _ else _).
    apply (resume_section y Hy a (RPublish r attempt bad) t t (Some (RRecord r attempt bad)) _ (<[r := o']> (ow_owned (ys_rt y))) []);
      section_goals; [fields|]. cbn. split_and!; [done|done|done|]. rewrite lookup_insert_eq. by eexists.
  - destruct Hat as (Hs & Ha & Hr). unfold resume_record. destruct bad; [rstay (RRecord r attempt true) ([] : list Event)|rstay (RRecord r attempt false) ([] : list Event)].
  - destruct Hat as (-> & Ha & Hr). unfold completeResume. rewrite Ha. cbn -[changedLocked app go_on].
    apply (resume_section y Hy a (RComplete result err false (Some r)) t (set_complete t result err false) None _ (ow_owned (ys_rt y)) []);
      section_goals; fields.
  - unfold completeResume. rewrite Hat. destruct possible; cbn -[changedLocked app go_on].
    + apply (resume_section y Hy a (RComplete result err true None) t (set_complete t result err true) None _ (ow_owned (ys_rt y))
               [StartUncertain]); section_goals; fields.
    + apply (resume_section y Hy a (RComplete result err false None) t (set_complete t result err false) None _ (ow_owned (ys_rt y)) []);
        section_goals; fields.
  - done.
Qed.


(** A section that only an exit's events follow. *)
Lemma exit_section y s' l r x evs owned :
  system_ok y -> l = ys_launch y -> r = ys_resume y ->
  outside (set_counts (set_runs (ys_rt y) (ow_runs s') owned) (ow_pending (ys_rt y)) (ow_active (ys_rt y) - events is_exit evs)) s' ->
  grows (ow_owned (ys_rt y)) owned -> (forall e, e ∈ evs -> is_exit e || is_recovery e = true) ->
  system_ok (mkSystem s' l r x (evs ++ ys_log y)).
Proof.
  intros [H1 H2 H3 H4 H5 H6 H7] -> -> Ho Hg Hev. refine (ok_outside _ s' _ _ x x _ Ho _). clear Ho.
  assert (Hz : events is_uncertain evs = 0 /\ events is_child evs = 0 /\ ordered (evs ++ ys_log y)).
  { clear -H7 Hev. induction evs as [|e evs IH]; [done|].
    destruct IH as (E1 & E2 & E3); [intros e' He'; apply Hev; by right|].
    pose proof (Hev e ltac:(left)) as He. unfold events in *. cbn. rewrite E1, E2. by destruct e. }
  destruct Hz as (E1 & E2 & E3). split; cbn.
  - apply (tickets_frame launches _ _ _ (ow_owned (ys_rt y))); [done|done|]. by intros b d ?%Hev.
  - apply (tickets_frame resumes _ _ _ (ow_owned (ys_rt y))); [done|done|]. by intros b d ?%Hev.
  - rewrite events_app. lia.
  - rewrite !events_app. lia.
  - pose proof (events_nonneg is_exit evs). lia.
  - done.
  - done.
Qed.

Lemma turn_exit_ok y r n : system_ok y -> system_ok (turn_exit y r n).
Proof.
  intros Hy. unfold turn_exit.
  destruct (ys_exit y !! r) as [w|] eqn:Hw; [|done]. destruct (ow_owned (ys_rt y) !! r) as [run|] eqn:Hr; [|done].
  assert (Hev : forall e, e ∈ exit_events run w n -> is_exit e || is_recovery e = true).
  { unfold exit_events. intros e [He|He]%elem_of_app; revert He; repeat case_match; intros He;
      first [by apply elem_of_nil in He | by apply list_elem_of_singleton in He as ->]. }
  destruct (exit_turn _ _ _ _ _) as [s' w'] eqn:Et.
  assert (exists owned, outside (set_counts (set_runs (ys_rt y) (ow_runs s') owned) (ow_pending (ys_rt y))
             (ow_active (ys_rt y) - events is_exit (exit_events run w n))) s' /\ grows (ow_owned (ys_rt y)) owned) as (owned & Ho & Hg).
  { unfold exit_events. destruct w as [|snapshot published known|je known|]; cbn -[app exit_record] in *.
    - cbn [exit_record]. unfold exit_wait in Et. destruct (match xa_wait n with Ok _ => _ | Err _ => _ end) as [d [e|]]; injection Et as <- _;
      (eexists; split; [|apply runs_grow_insert]; fields).
    - injection Et as <- _. exists (ow_owned (ys_rt y)). split; [|apply runs_grow_refl].
      unfold events. destruct (exit_record _ _ _); cbn; fields.
    - cbn [exit_record]. injection Et as <- _. unfold exit_join. destruct je; (eexists; split; [|apply runs_grow_insert]; destruct known; fields).
    - injection Et as <- _. exists (ow_owned (ys_rt y)). split; [|apply runs_grow_refl]. unfold events. cbn. fields. }
  by apply (exit_section y s' _ _ _ _ owned).
Qed.

(** ** The callers' sections *)


Lemma ok_touch_launch y a t t' l x :
  system_ok y -> l = ys_launch y -> ow_launches (ys_rt y) !! a = Some t -> launch_like t t' -> launch_wf t' ->
  system_ok (mkSystem (put_launch (ys_rt y) a t') l (ys_resume y) x (ys_log y)).
Proof.
  intros [H1 H2 H3 H4 H5 H6 H7] -> Ht Hl Hwf. split; cbn; try done. by apply (tickets_touch launches _ _ _ _ _ _ t).
Qed.
Lemma ok_touch_resume y a t t' r x :
  system_ok y -> r = ys_resume y -> ow_attempts (ys_rt y) !! a = Some t -> resume_like t t' ->
  system_ok (mkSystem (put_attempt (ys_rt y) a t') (ys_launch y) r x (ys_log y)).
Proof.
  intros [H1 H2 H3 H4 H5 H6 H7] -> Ht Hl. split; cbn; try done. by apply (tickets_touch resumes _ _ _ _ _ _ t).
Qed.

Lemma no_worker {T W} (K : TicketKind T W) index heap ws runs log a :
  tickets_ok K index heap ws runs log -> heap !! a = None -> ws !! a = None.
Proof.
  intros H Ha. destruct (ws !! a) as [w|] eqn:E; [|done]. destruct (to_worker _ _ _ _ _ _ H _ _ E) as (t & Ht & _). congruence.
Qed.
Lemma capacity_left s : at_capacity s = false ->
  ow_pending s + ow_active s < MaxActiveRuns /\ msize (ow_tickets s) + msize (ow_resumes s) < MaxLaunchRequests.
Proof. unfold at_capacity. intros [H1 H2]%orb_false_iff. lia. Qed.

Lemma enter_launch_ok y ctx request : system_ok y -> system_ok (enter_launch y ctx request).
Proof.
  intros Hy. assert (Hstay : system_ok (mkSystem (ys_rt y) (ys_launch y) (ys_resume y) (ys_exit y) (ys_log y))) by (by destruct y).
  unfold enter_launch, Launch_enter. destruct ctx; [done|]. destruct (negb (_ =? _)%string); [done|].
  destruct (validLaunchRequest request); cbn [negb]; [|done].
  destruct (ow_tickets (ys_rt y) !! lq_request request) as [a|] eqn:Ei.
  - destruct (ow_launches (ys_rt y) !! a) as [t|] eqn:Ht; [|done]. destruct (negb _); [done|].
    pose proof (to_wf _ _ _ _ _ _ (so_launches _ Hy) _ _ Ht). by apply (ok_touch_launch y a t).
  - destruct (launch_refusal (ys_rt y)) eqn:Er; [done|].
    assert (Hroom : at_capacity (ys_rt y) = false).
    { unfold launch_refusal in Er. destruct (at_capacity (ys_rt y)); [|done]. cbn in Er. by repeat case_match. }
    apply capacity_left in Hroom as [Hroom Hreq]. set (a := fresh _).
    assert (Ha : ow_launches (ys_rt y) !! a = None) by apply fresh_lookup.
    refine (ok_outside _ _ _ _ (ys_exit y) _ _ (changed_outside _) _). destruct Hy as [H1 H2 H3 H4 H5 H6 H7].
    pose proof (no_worker _ _ _ _ _ _ _ H1 Ha) as Hw. split; cbn; try done.
    + by apply (tickets_new launches _ _ _ _ _ a (new_launch request) LPrepare).
    + rewrite mcount_insert_new by done. cbn. lia.
    + lia.
    + rewrite msize_insert_new by done. lia.
Qed.

Lemma enter_resume_ok y journal ctx request : system_ok y -> system_ok (enter_resume y journal ctx request).
Proof.
  intros Hy. assert (Hstay : system_ok (mkSystem (ys_rt y) (ys_launch y) (ys_resume y) (ys_exit y) (ys_log y))) by (by destruct y).
  unfold enter_resume, Resume_enter. destruct ctx; [done|]. destruct (negb (_ =? _)%string); [done|].
  destruct (ResumeRequest_Valid request), journal; cbn [negb]; try done.
  destruct (ow_resumes (ys_rt y) !! sq_request request) as [a|] eqn:Ei.
  - destruct (ow_attempts (ys_rt y) !! a) as [t|] eqn:Ht; [|done]. destruct (negb _); [done|]. by apply (ok_touch_resume y a t).
  - destruct (resume_refusal (ys_rt y)) eqn:Er; [done|].
    assert (Hroom : at_capacity (ys_rt y) = false).
    { unfold resume_refusal in Er. destruct (at_capacity (ys_rt y)); [|done]. cbn in Er. by repeat case_match. }
    apply capacity_left in Hroom as [Hroom Hreq]. set (a := fresh _).
    assert (Ha : ow_attempts (ys_rt y) !! a = None) by apply fresh_lookup.
    refine (ok_outside _ _ _ _ (ys_exit y) _ _ (changed_outside _) _). destruct Hy as [H1 H2 H3 H4 H5 H6 H7].
    pose proof (no_worker _ _ _ _ _ _ _ H2 Ha) as Hw. split; cbn; try done.
    + by apply (tickets_new resumes _ _ _ _ _ a (new_resume request) RList).
    + rewrite mcount_insert_new by done. cbn. lia.
    + lia.
    + rewrite msize_insert_new by done. lia.
Qed.

Lemma leave_launch_ok y a ctx : system_ok y -> system_ok (leave_launch y a ctx).
Proof.
  intros Hy. unfold leave_launch. destruct (ow_launches (ys_rt y) !! a) as [t|] eqn:Ht; [|done].
  pose proof (to_wf _ _ _ _ _ _ (so_launches _ Hy) _ _ Ht) as Hwf. cbn in Hwf.
  destruct (negb _); [done|]. destruct ctx as [e|]; [|destruct (lt_complete t); [|done]; by apply (ok_touch_launch y a t)].
  unfold Launch_cancelled. repeat case_match; try by apply (ok_touch_launch y a t).
  apply (ok_touch_launch y a t); try done. unfold launch_wf in *. cbn in *.
  destruct Hwf as [_ Hwf]. destruct (lt_starting t); [done|]. auto.
Qed.

Lemma leave_resume_ok y a ctx : system_ok y -> system_ok (leave_resume y a ctx).
Proof.
  intros Hy. unfold leave_resume. destruct (ow_attempts (ys_rt y) !! a) as [t|] eqn:Ht; [|done].
  destruct (negb _); [done|]. destruct ctx as [e|]; [|destruct (st_complete t); [|done]; by apply (ok_touch_resume y a t)].
  unfold Resume_cancelled. repeat case_match; by apply (ok_touch_resume y a t).
Qed.

Lemma step_ok y y' : system_ok y -> owner_step y y' -> system_ok y'.
Proof.
  intros Hy Hs. destruct Hs as [y y' Hs|y s Ho]; [destruct Hs|];
    eauto using enter_launch_ok, enter_resume_ok, leave_launch_ok, leave_resume_ok, turn_launch_ok, turn_resume_ok, turn_exit_ok.
  - unfold with_rt, DisableLaunches. case_match; [|by destruct y].
    refine (ok_outside _ _ _ _ (ys_exit y) _ _ (changed_trans (ys_rt y) _ _) _); [done|by destruct y].
  - refine (ok_outside _ _ _ _ (ys_exit y) _ _ Ho _). by destruct y.
Qed.

Lemma new_ok epoch s : NewRuntime epoch = Ok s -> system_ok (new_system s).
Proof.
  unfold NewRuntime. case_match; [done|]. intros [= <-].
  assert (Hm : msize (∅ : gmap string nat) = 0) by done.
  split; cbn; rewrite ?Hm, ?mcount_empty; try done; split; cbn; try done; intros ? ? Hin; by apply elem_of_nil in Hin.
Qed.

Definition reached (epoch : string) (y : System) : Prop :=
  exists s, NewRuntime epoch = Ok s /\ star owner_step (new_system s) y.
Lemma reached_ok epoch y : reached epoch y -> system_ok y.
Proof. intros (s & Hs & Hy). eapply star_invariant; [apply step_ok|exact Hy|by eapply new_ok]. Qed.

(** ** One start for each request *)

(** The request whose ticket a call of the launcher served. *)
Definition start_request (s : Runtime) (e : Event) : option string :=
  match e with StartCalled a _ => option_map (tk_id launches) (ow_launches s !! a) | _ => None end.
Definition resume_request (s : Runtime) (e : Event) : option string :=
  match e with ResumeCalled a _ => option_map (tk_id resumes) (ow_attempts s !! a) | _ => None end.
Definition starts_of (request : Event -> option string) (id : string) (log : list Event) : list Event :=
  List.filter (fun e => bool_decide (request e = Some id)) log.

Lemma starts_once (request : Event -> option string) (called : nat -> RunSnapshot -> Event) id log :
  (forall a b d d', called a d = called b d' -> a = b /\ d = d') ->
  (forall e, e ∈ log -> request e = Some id -> exists a d, e = called a d) ->
  (forall a b d d', called a d ∈ log -> called b d' ∈ log -> request (called a d) = Some id -> request (called b d') = Some id -> a = b) ->
  (forall after before a d, log = after ++ called a d :: before -> forall d', called a d' ∉ before) ->
  (List.length (starts_of request id log) <= 1)%nat.
Proof.
  intros Hinj. induction log as [|e log IH]; intros Hc Hu Ho; [cbn; lia|].
  assert (IH' : (List.length (starts_of request id log) <= 1)%nat).
  { apply IH; [intros; apply Hc; [by right|done]|intros; eapply Hu; eauto; by right|].
    intros after before a d ->. exact (Ho (e :: after) before a d eq_refl). }
  unfold starts_of. cbn. case_bool_decide as E; [|done]. destruct (Hc e ltac:(left) E) as (a & d & ->). cbn.
  destruct (starts_of request id log) as [|e' l] eqn:El; unfold starts_of in El; rewrite El; [cbn; lia|exfalso].
  assert (Hin : e' ∈ starts_of request id log) by (unfold starts_of; rewrite El; left).
  apply list_elem_of_In, filter_In in Hin as [Hin Hr]. apply list_elem_of_In in Hin. apply bool_decide_eq_true in Hr.
  destruct (Hc e' ltac:(by right) Hr) as (b & d' & ->).
  assert (a = b) as <- by (eapply Hu; eauto; [by left|by right]).
  exact (Ho [] log a d eq_refl d' Hin).
Qed.

Lemma ordered_lawful after e before : ordered (after ++ e :: before) -> lawful e before.
Proof. induction after as [|x after IH]; cbn; [by intros [H _]|intros [_ H]; auto]. Qed.

(** A ticket that has called the launcher is the one its request is filed under. *)
Lemma started_filed {T W} (K : TicketKind T W) index heap ws runs log a d t :
  tickets_ok K index heap ws runs log -> (forall t, tk_wf K t -> tk_aborted K t = true -> tk_starting K t = false) ->
  tk_called K a d ∈ log -> heap !! a = Some t -> index !! tk_id K t = Some a.
Proof.
  intros H Hw Hin Ht. destruct (to_started _ _ _ _ _ _ H _ _ Hin) as (u & Hu & Hs). rewrite Ht in Hu. injection Hu as <-.
  apply (to_kept _ _ _ _ _ _ H); [done|]. destruct (tk_aborted K t) eqn:E; [|done].
  apply Hw in E; [congruence|exact (to_wf _ _ _ _ _ _ H _ _ Ht)].
Qed.

Lemma launch_starts_once y id : system_ok y -> (List.length (starts_of (start_request (ys_rt y)) id (ys_log y)) <= 1)%nat.
Proof.
  intros Hy. apply (starts_once _ StartCalled); [by intros a b d d' [= -> ->]| | |].
  - intros [] _; cbn; try done. eauto.
  - intros a b d d' Ha Hb. cbn.
    destruct (ow_launches (ys_rt y) !! a) as [t|] eqn:Ht; [|done]. destruct (ow_launches (ys_rt y) !! b) as [u|] eqn:Hu; [|done].
    assert (Hw : forall t, tk_wf launches t -> tk_aborted launches t = true -> tk_starting launches t = false) by (cbn; unfold launch_wf; naive_solver).
    pose proof (started_filed launches _ _ _ _ _ a d t (so_launches _ Hy) Hw Ha Ht).
    pose proof (started_filed launches _ _ _ _ _ b d' u (so_launches _ Hy) Hw Hb Hu).
    cbn in *. intros [= E1] [= E2]. congruence.
  - intros after before a d E. pose proof (so_ordered _ Hy) as Ho. rewrite E in Ho. by apply ordered_lawful in Ho as [_ ?].
Qed.
Lemma resume_starts_once y id : system_ok y -> (List.length (starts_of (resume_request (ys_rt y)) id (ys_log y)) <= 1)%nat.
Proof.
  intros Hy. apply (starts_once _ ResumeCalled); [by intros a b d d' [= -> ->]| | |].
  - intros [] _; cbn; try done. eauto.
  - intros a b d d' Ha Hb. cbn.
    destruct (ow_attempts (ys_rt y) !! a) as [t|] eqn:Ht; [|done]. destruct (ow_attempts (ys_rt y) !! b) as [u|] eqn:Hu; [|done].
    pose proof (started_filed resumes _ _ _ _ _ a d t (so_resumes _ Hy) ltac:(done) Ha Ht).
    pose proof (started_filed resumes _ _ _ _ _ b d' u (so_resumes _ Hy) ltac:(done) Hb Hu).
    cbn in *. intros [= E1] [= E2]. congruence.
  - intros after before a d E. pose proof (so_ordered _ Hy) as Ho. rewrite E in Ho. by apply ordered_lawful in Ho as [_ ?].
Qed.

(** (C1) A request starts at most one child: however callers come, leave and come
    back, the launcher is called at most once for each launch request and for
    each resume request, each call follows the durable reservation of the
    descriptor it starts, and a launch that all its callers abandoned never
    calls it. *)
Theorem single_start epoch y : reached epoch y ->
  (forall id, (List.length (starts_of (start_request (ys_rt y)) id (ys_log y)) <= 1)%nat) /\
  (forall id, (List.length (starts_of (resume_request (ys_rt y)) id (ys_log y)) <= 1)%nat) /\
  (forall after before a d, ys_log y = after ++ StartCalled a d :: before \/ ys_log y = after ++ ResumeCalled a d :: before ->
     Reserved d ∈ before) /\
  (forall a t d, ow_launches (ys_rt y) !! a = Some t -> lt_abandoned t = true -> StartCalled a d ∉ ys_log y).
Proof.
  intros Hy%reached_ok. split_and!; [intros id; by apply launch_starts_once|intros id; by apply resume_starts_once| |].
  - intros after before a d E. pose proof (so_ordered _ Hy) as Ho.
    destruct E as [E|E]; rewrite E in Ho; by apply ordered_lawful in Ho as [? _].
  - intros a t d Ht Hb. apply (launch_prepared _ _ t); [done|done|].
    by apply (to_wf _ _ _ _ _ _ (so_launches _ Hy) _ _ Ht).
Qed.

(** ** Counts *)

(** Admission bounds what is owned: the reservations the goroutines and the
    uncertain starts hold and the children whose exit is not known are what
    the two counters say, together at most the bound on active runs, and the
    tickets of both kinds are at most the bound on requests. *)
Theorem ownership_bounded epoch y : reached epoch y ->
  ow_active (ys_rt y) = events is_child (ys_log y) - events is_exit (ys_log y) /\
  ow_pending (ys_rt y) = mcount lholds (ys_launch y) + mcount rholds (ys_resume y) + events is_uncertain (ys_log y) /\
  events is_child (ys_log y) + events is_uncertain (ys_log y) <= MaxActiveRuns + events is_exit (ys_log y) /\
  msize (ow_tickets (ys_rt y)) + msize (ow_resumes (ys_rt y)) <= MaxLaunchRequests.
Proof.
  intros Hy%reached_ok. destruct Hy as [_ _ H3 H4 H5 H6 _].
  pose proof (mcount_nonneg lholds (ys_launch y)). pose proof (mcount_nonneg rholds (ys_resume y)).
  split_and!; [done|done|lia|done].
Qed.

(** ** Outcomes and termination *)

(** What a step may do to the ticket at [a]: a caller's section leaves what
    [tk_like] fixes and the goroutine alone, and only the goroutine's own turn
    does more. *)
Definition others {T W} (K : TicketKind T W) (a : nat) (heap heap' : gmap nat T) (ws ws' : gmap nat W) : Prop :=
  forall t, heap !! a = Some t -> ws' !! a = ws !! a /\ exists t', heap' !! a = Some t' /\ tk_like K t t'.

Lemma others_same {T W} (K : TicketKind T W) a heap ws : (forall t, tk_like K t t) -> others K a heap heap ws ws.
Proof. intros Hl t Ht. eauto. Qed.
Lemma others_touch {T W} (K : TicketKind T W) a b heap ws t t' :
  (forall t, tk_like K t t) -> heap !! b = Some t -> tk_like K t t' -> others K a heap (<[b := t']> heap) ws ws.
Proof.
  intros Hl Hb Ht u Hu. split; [done|]. rewrite lookup_insert. case_decide as E; [|eauto]. subst b. exists t'. by simplify_eq.
Qed.
Lemma others_new {T W} (K : TicketKind T W) a b heap ws t w :
  (forall t, tk_like K t t) -> heap !! b = None -> others K a heap (<[b := t]> heap) ws (<[b := w]> ws).
Proof. intros Hl Hb u Hu. rewrite !lookup_insert_ne by congruence. eauto. Qed.
Lemma others_turn {T W} (K : TicketKind T W) a b heap ws t next :
  (forall t, tk_like K t t) -> a <> b -> others K a heap (<[b := t]> heap) ws (go_on b next ws).
Proof.
  intros Hl Hab u Hu. rewrite lookup_insert_ne by done. split; [|eauto].
  destruct next; cbn; [by rewrite lookup_insert_ne|by rewrite lookup_delete_ne].
Qed.
Lemma launch_like_refl t : tk_like launches t t.
Proof. done. Qed.
Lemma resume_like_refl t : tk_like resumes t t.
Proof. done. Qed.
#[local] Hint Resolve launch_like_refl resume_like_refl : traceary.

(** What one turn does to the heaps. *)
Lemma changed_launches s : ow_launches (changedLocked s) = ow_launches s.
Proof. apply (changed_outside s). Qed.
Lemma changed_attempts s : ow_attempts (changedLocked s) = ow_attempts s.
Proof. apply (changed_outside s). Qed.
Ltac heaps := cbn -[changedLocked]; rewrite ?changed_launches, ?changed_attempts; cbn -[changedLocked];
  rewrite ?changed_launches, ?changed_attempts; cbn -[changedLocked]; split; [try done|eauto].

Lemma launch_turn_heap s a t w n :
  let s' := fst (launch_turn s a t w n) in
  ow_attempts s' = ow_attempts s /\ (ow_launches s' = ow_launches s \/ exists u, ow_launches s' = <[a := u]> (ow_launches s)).
Proof.
  destruct w; cbn -[launch_commit launch_attach launch_publish launch_fail]; try by auto.
  - unfold launch_commit. case_match; heaps.
  - unfold launch_attach. destruct (own_child d child). heaps.
  - destruct (ow_owned s !! run); [|by auto]. unfold launch_publish. heaps.
  - unfold launch_fail, fail_end. repeat case_match; heaps.
  - unfold fail_end. heaps.
Qed.
Lemma resume_turn_heap s a t w n :
  let s' := fst (resume_turn s a t w n) in
  ow_launches s' = ow_launches s /\ (ow_attempts s' = ow_attempts s \/ exists u, ow_attempts s' = <[a := u]> (ow_attempts s)).
Proof.
  destruct w; cbn -[resume_commit resume_intent resume_attach resume_started resume_publish completeResume]; try by auto.
  - unfold resume_commit. case_match; heaps.
  - unfold resume_intent. heaps.
  - unfold resume_attach. destruct (own_child d child). heaps.
  - unfold resume_started. heaps.
  - destruct (ow_owned s !! run); [|by auto]. unfold resume_publish. heaps.
  - unfold completeResume. repeat case_match; heaps.
Qed.
Lemma exit_turn_heap s r run w n :
  let s' := fst (exit_turn s r run w n) in ow_launches s' = ow_launches s /\ ow_attempts s' = ow_attempts s.
Proof.
  destruct w; cbn -[exit_wait exit_join]; try by auto.
  - unfold exit_wait. repeat case_match; heaps.
  - unfold exit_join. repeat case_match; heaps.
Qed.

(** A turn that changes one heap at [b], for the ticket at another address. *)
Lemma others_turned {T W} (K : TicketKind T W) a b heap heap' ws next :
  (forall t, tk_like K t t) -> a <> b -> (heap' = heap \/ exists u, heap' = <[b := u]> heap) ->
  others K a heap heap' ws (go_on b next ws).
Proof.
  intros Hl Hab [->|[u ->]]; [|by apply others_turn]. intros t Ht. split; [|eauto].
  destruct next; cbn; [by rewrite lookup_insert_ne|by rewrite lookup_delete_ne].
Qed.

(** The turns of a launch's own goroutine are the steps to count. *)
Inductive launch_run (a : nat) : nat -> System -> System -> Prop :=
| lr_refl y : launch_run a 0 y y
| lr_other y y' z k : owner_step y y' -> launch_run a k y' z -> launch_run a k y z
| lr_turn y n z k : launch_run a k (turn_launch y a n) z -> launch_run a (S k) y z.
Inductive resume_run (a : nat) : nat -> System -> System -> Prop :=
| rr_refl y : resume_run a 0 y y
| rr_other y y' z k : owner_step y y' -> resume_run a k y' z -> resume_run a k y z
| rr_turn y n z k : resume_run a k (turn_resume y a n) z -> resume_run a (S k) y z.

(** The steps that are not a turn of a goroutine of [a], for both heaps. *)
Definition passive (y y' : System) : Prop := forall a,
  others launches a (ow_launches (ys_rt y)) (ow_launches (ys_rt y')) (ys_launch y) (ys_launch y') /\
  others resumes a (ow_attempts (ys_rt y)) (ow_attempts (ys_rt y')) (ys_resume y) (ys_resume y').
Lemma passive_same y y' :
  ow_launches (ys_rt y') = ow_launches (ys_rt y) -> ow_attempts (ys_rt y') = ow_attempts (ys_rt y) ->
  ys_launch y' = ys_launch y -> ys_resume y' = ys_resume y -> passive y y'.
Proof. intros E1 E2 E3 E4 a. rewrite E1, E2, E3, E4. split; by apply others_same. Qed.
Ltac same := by apply passive_same.

Lemma enter_launch_passive y ctx request : passive y (enter_launch y ctx request).
Proof.
  unfold enter_launch, Launch_enter. repeat case_match; simplify_eq; try same.
  - intros b. split; [by eapply others_touch|by apply others_same].
  - intros b. cbn -[changedLocked]. rewrite changed_launches, changed_attempts.
    split; [by apply others_new, fresh_lookup|by apply others_same].
Qed.
Lemma enter_resume_passive y journal ctx request : passive y (enter_resume y journal ctx request).
Proof.
  unfold enter_resume, Resume_enter. repeat case_match; simplify_eq; try same.
  - intros b. split; [by apply others_same|by eapply others_touch].
  - intros b. cbn -[changedLocked]. rewrite changed_launches, changed_attempts.
    split; [by apply others_same|by apply others_new, fresh_lookup].
Qed.
Lemma leave_launch_passive y a ctx : passive y (leave_launch y a ctx).
Proof.
  unfold leave_launch, Launch_cancelled. repeat case_match; simplify_eq; try same;
    intros b; (split; [by eapply others_touch|by apply others_same]).
Qed.
Lemma leave_resume_passive y a ctx : passive y (leave_resume y a ctx).
Proof.
  unfold leave_resume, Resume_cancelled. repeat case_match; simplify_eq; try same;
    intros b; (split; [by apply others_same|by eapply others_touch]).
Qed.
Lemma turn_exit_passive y r n : passive y (turn_exit y r n).
Proof.
  unfold turn_exit. destruct (ys_exit y !! r) as [w|]; [|same]. destruct (ow_owned (ys_rt y) !! r) as [run|]; [|same].
  pose proof (exit_turn_heap (ys_rt y) r run w n) as [E1 E2]. destruct (exit_turn _ _ _ _ _). same.
Qed.
Lemma turn_launch_others y b n a :
  (a <> b -> others launches a (ow_launches (ys_rt y)) (ow_launches (ys_rt (turn_launch y b n))) (ys_launch y) (ys_launch (turn_launch y b n))) /\
  others resumes a (ow_attempts (ys_rt y)) (ow_attempts (ys_rt (turn_launch y b n))) (ys_resume y) (ys_resume (turn_launch y b n)).
Proof.
  unfold turn_launch.
  destruct (ys_launch y !! b) as [w|]; [|split; intros; by apply others_same].
  destruct (ow_launches (ys_rt y) !! b) as [t|]; [|split; intros; by apply others_same].
  pose proof (launch_turn_heap (ys_rt y) b t w n) as [E1 E2]. destruct (launch_turn _ _ _ _ _) as [s' w']. cbn in *.
  rewrite E1. split; [intros Hab; by apply others_turned|by apply others_same].
Qed.
Lemma turn_resume_others y b n a :
  others launches a (ow_launches (ys_rt y)) (ow_launches (ys_rt (turn_resume y b n))) (ys_launch y) (ys_launch (turn_resume y b n)) /\
  (a <> b -> others resumes a (ow_attempts (ys_rt y)) (ow_attempts (ys_rt (turn_resume y b n))) (ys_resume y) (ys_resume (turn_resume y b n))).
Proof.
  unfold turn_resume.
  destruct (ys_resume y !! b) as [w|]; [|split; intros; by apply others_same].
  destruct (ow_attempts (ys_rt y) !! b) as [t|]; [|split; intros; by apply others_same].
  pose proof (resume_turn_heap (ys_rt y) b t w n) as [E1 E2]. destruct (resume_turn _ _ _ _ _) as [s' w']. cbn in *.
  rewrite E1. split; [by apply others_same|intros Hab; by apply others_turned].
Qed.

Lemma step_others y y' a : owner_step y y' ->
  (others launches a (ow_launches (ys_rt y)) (ow_launches (ys_rt y')) (ys_launch y) (ys_launch y') \/ exists n, y' = turn_launch y a n) /\
  (others resumes a (ow_attempts (ys_rt y)) (ow_attempts (ys_rt y')) (ys_resume y) (ys_resume y') \/ exists n, y' = turn_resume y a n).
Proof.
  intros Hs. assert (Hp : passive y y' -> (others launches a (ow_launches (ys_rt y)) (ow_launches (ys_rt y')) (ys_launch y) (ys_launch y') \/
    exists n, y' = turn_launch y a n) /\
    (others resumes a (ow_attempts (ys_rt y)) (ow_attempts (ys_rt y')) (ys_resume y) (ys_resume y') \/ exists n, y' = turn_resume y a n))
    by (intros Hp; destruct (Hp a); auto).
  destruct Hs as [y y' Hs|y s' Ho]; [destruct Hs as [y ctx q|y j ctx q|y b ctx|y b ctx|y b n|y b n|y r n|y]|];
    [apply Hp, enter_launch_passive|apply Hp, enter_resume_passive|apply Hp, leave_launch_passive|apply Hp, leave_resume_passive
    | | |apply Hp, turn_exit_passive| |].
  - destruct (turn_launch_others y b n a) as [H1 H2]. split; [|by left]. destruct (decide (a = b)) as [->|]; eauto.
  - destruct (turn_resume_others y b n a) as [H1 H2]. split; [by left|]. destruct (decide (a = b)) as [->|]; eauto.
  - apply Hp. unfold DisableLaunches. case_match; [|same]. apply passive_same; cbn -[changedLocked]; by rewrite ?changed_launches, ?changed_attempts.
  - apply Hp. destruct Ho as [_ [] [] _ _]. same.
Qed.

(** A completed ticket keeps its outcome. *)
Lemma launch_final_step y y' a t :
  system_ok y -> owner_step y y' -> ow_launches (ys_rt y) !! a = Some t -> lt_complete t = true ->
  exists t', ow_launches (ys_rt y') !! a = Some t' /\ launch_like t t'.
Proof.
  intros Hy Hs Ht Hc. destruct (step_others y y' a Hs) as [[Ho|[n ->]] _].
  - by destruct (Ho t Ht) as [_ ?].
  - exists t. split; [|done]. unfold turn_launch. destruct (ys_launch y !! a) as [w|] eqn:E; [|done].
    destruct (to_worker _ _ _ _ _ _ (so_launches _ Hy) _ _ E) as (u & Hu & Hcu & _). cbn in Hcu. congruence.
Qed.
Lemma launch_like_trans t u v : launch_like t u -> launch_like u v -> launch_like t v.
Proof. unfold launch_like. naive_solver congruence. Qed.
Lemma launch_final y y' a t :
  star owner_step y y' -> system_ok y -> ow_launches (ys_rt y) !! a = Some t -> lt_complete t = true ->
  exists t', ow_launches (ys_rt y') !! a = Some t' /\ launch_like t t'.
Proof.
  intros Hs. revert t. induction Hs as [y|y u z Hs _ IH]; intros t Hy Ht Hc; [by exists t|].
  destruct (launch_final_step _ _ _ _ Hy Hs Ht Hc) as (t1 & Ht1 & Hl1).
  assert (Hc1 : lt_complete t1 = true) by (destruct Hl1 as (_ & _ & -> & _); done).
  destruct (IH t1 (step_ok _ _ Hy Hs) Ht1 Hc1) as (t2 & Ht2 & Hl2). eauto using launch_like_trans.
Qed.

(** (C25) A completed launch answers for good: whatever happens afterwards, its
    ticket stays filed under its request with the same outcome, so a later
    call with the same request joins it and returns that outcome at once,
    even when admission is closed or full, and one with another request under
    the same id is refused. *)
Theorem launch_outcome_final epoch y y' a t request :
  reached epoch y -> star owner_step y y' ->
  ow_launches (ys_rt y) !! a = Some t -> lt_complete t = true -> lt_aborted t = false ->
  lq_request request = lq_request (lt_request t) -> lq_epoch request = ow_epoch (ys_rt y') -> validLaunchRequest request = true ->
  (request = lt_request t ->
     snd (Launch_enter (ys_rt y') None request) = Waiting a false /\
     exists t', ow_launches (ys_rt (enter_launch y' None request)) !! a = Some t' /\ lt_complete t' = true /\
       snd (Launch_done (ys_rt (enter_launch y' None request)) a t') = Some (lt_result t, lt_err t)) /\
  (request <> lt_request t -> Launch_enter (ys_rt y') None request = (ys_rt y', Refused ErrChanged)).
Proof.
  intros Hy%reached_ok Hs Ht Hc Hab Eid Eep Hv. destruct (launch_final _ _ _ _ Hs Hy Ht Hc) as (t1 & Ht1 & Er & _ & Ec & Ea & Eres & Eerr & _).
  assert (Hy' : system_ok y') by (eapply star_invariant; [apply step_ok|exact Hs|done]).
  assert (Hf : ow_tickets (ys_rt y') !! lq_request request = Some a).
  { rewrite Eid, <-Er. apply (to_kept _ _ _ _ _ _ (so_launches _ Hy')); [done|]. cbn. congruence. }
  unfold enter_launch, Launch_enter. rewrite Eep, String.eqb_refl, Hv, Hf, Ht1, Er. cbn [negb].
  split; intros Hq.
  - rewrite bool_decide_eq_true_2 by done. split; [done|]. exists (add_waiter t1 1). cbn. rewrite lookup_insert_eq.
    split_and!; [done|congruence|]. rewrite Ea, Hab, Eres, Eerr. done.
  - rewrite bool_decide_eq_false_2 by congruence. done.
Qed.

(** The turns a goroutine has left. *)
Definition lrank (w : LWorker) : nat :=
  match w with
  | LPrepare => 7 | LCommit _ => 6 | LReserve _ => 5 | LStart _ => 4 | LAttach _ _ | LFail _ => 3
  | LSave _ _ _ | LFailSave _ => 2 | LPublish _ _ | LFailEnd => 1 | LDone _ => 0
  end.
Definition rrank (w : RWorker) : nat :=
  match w with
  | RList => 16 | RRecords => 15 | RCheck _ => 14 | RValidate _ => 13 | RCommit _ _ => 12 | RReserve _ _ => 11
  | RIntent _ _ => 10 | RLaunch _ _ => 9 | RStart _ _ => 8 | RAttach _ _ _ _ => 7 | RSave _ _ _ _ => 6 | RStarted _ _ => 5
  | RConfirm _ _ => 4 | RPublish _ _ _ => 3 | RRecord _ _ _ | RNotStarted _ _ | RLost _ => 2 | RComplete _ _ _ _ => 1 | RDone _ => 0
  end.
Definition left_of {W} (rank : W -> nat) (ws : gmap nat W) (a : nat) : nat :=
  match ws !! a with Some w => rank w | None => 0 end.

Lemma left_go_on {W} (rank : W -> nat) ws a (next : option W) w :
  ws !! a = Some w -> (forall w', next = Some w' -> (rank w' < rank w)%nat) ->
  (left_of rank (go_on a next ws) a <= pred (left_of rank ws a))%nat.
Proof.
  intros Hw Hr. unfold left_of. rewrite Hw. destruct next as [w'|]; cbn.
  - rewrite lookup_insert_eq. specialize (Hr w' eq_refl). lia.
  - rewrite lookup_delete_eq. lia.
Qed.

Lemma launch_turn_rank s a t w n runs log w' :
  launch_at runs log a t w -> runs = ow_owned s -> launch_next (snd (launch_turn s a t w n)) = Some w' -> (lrank w' < lrank w)%nat.
Proof.
  intros Hat ->. destruct w; cbn -[launch_prepare launch_commit launch_attach launch_publish launch_fail] in *.
  - destruct (launch_prepare _ _ _); intros [= <-]; cbn; lia.
  - unfold launch_commit. case_match; intros [= <-]; cbn; lia.
  - case_match; intros [= <-]; cbn; lia.
  - unfold launch_start. repeat case_match; intros [= <-]; cbn; lia.
  - unfold launch_attach. destruct (own_child d child). cbn. intros [= <-]; cbn; lia.
  - intros [= <-]; cbn; lia.
  - destruct Hat as [_ [o ->]]. done.
  - unfold launch_fail. repeat case_match; intros [= <-]; cbn; lia.
  - intros [= <-]; cbn; lia.
  - done.
  - done.
Qed.
Lemma resume_turn_rank s a t w n runs log w' :
  resume_at runs log a t w -> runs = ow_owned s -> resume_next (snd (resume_turn s a t w n)) = Some w' -> (rrank w' < rrank w)%nat.
Proof.
  intros Hat ->. destruct w; cbn -[resume_list resume_records contradicts resume_validate resume_commit resume_reserve resume_launch
    resume_start resume_not_started resume_attach resume_save resume_confirm resume_record completeResume] in *.
  - destruct (resume_list_next t n) as [(?&?&->)| ->]; intros [= <-]; cbn; lia.
  - destruct (resume_records_next t n) as [(?&?&->)|[? ->]]; intros [= <-]; cbn; lia.
  - case_match; intros [= <-]; cbn; lia.
  - repeat case_match; intros [= <-]; cbn; lia.
  - unfold resume_commit. case_match; intros [= <-]; cbn; lia.
  - destruct (resume_reserve_next t d attempt n) as [(?&?&->)| ->]; intros [= <-]; cbn; lia.
  - intros [= <-]; cbn; lia.
  - unfold resume_launch. case_match; intros [= <-]; cbn; lia.
  - unfold resume_start. repeat case_match; intros [= <-]; cbn; lia.
  - destruct (resume_not_started_end attempt cause n) as (?&?&->). intros [= <-]; cbn; lia.
  - intros [= <-]; cbn; lia.
  - unfold resume_attach. destruct (own_child d child). intros [= <-]; cbn; lia.
  - destruct (resume_save_next run attempt bad n) as [a' [-> | ->]]; intros [= <-]; cbn; lia.
  - intros [= <-]; cbn; lia.
  - destruct (resume_confirm_next run attempt n) as (a' & b & ->). intros [= <-]; cbn; lia.
  - destruct Hat as (_ & _ & [o ->]). intros [= <-]; cbn; lia.
  - unfold resume_record. case_match; intros [= <-]; cbn; lia.
  - done.
  - done.
Qed.

(** Steps of others leave the turns of a goroutine, and its own turns use
    them up. *)
Definition launch_left (y : System) (a : nat) : nat := left_of lrank (ys_launch y) a.
Definition resume_left (y : System) (a : nat) : nat := left_of rrank (ys_resume y) a.

Lemma launch_turn_left y a n t : system_ok y -> ow_launches (ys_rt y) !! a = Some t ->
  is_Some (ow_launches (ys_rt (turn_launch y a n)) !! a) /\ (launch_left (turn_launch y a n) a <= pred (launch_left y a))%nat.
Proof.
  intros Hy Ht. unfold turn_launch, launch_left. destruct (ys_launch y !! a) as [w|] eqn:Hw.
  - rewrite Ht. destruct (to_worker _ _ _ _ _ _ (so_launches _ Hy) _ _ Hw) as (u & Hu & _ & Hat). rewrite Ht in Hu. injection Hu as <-.
    pose proof (launch_turn_heap (ys_rt y) a t w n) as [_ Eh].
    pose proof (fun w' => launch_turn_rank (ys_rt y) a t w n _ _ w' Hat eq_refl) as Hr. destruct (launch_turn _ _ _ _ _) as [s' w'].
    cbn in *. split; [|by apply (left_go_on lrank _ _ _ w)].
    destruct Eh as [->|[u ->]]; rewrite ?lookup_insert_eq; eauto.
  - unfold left_of. rewrite Hw. split; [by rewrite Ht|lia].
Qed.
Lemma resume_turn_left y a n t : system_ok y -> ow_attempts (ys_rt y) !! a = Some t ->
  is_Some (ow_attempts (ys_rt (turn_resume y a n)) !! a) /\ (resume_left (turn_resume y a n) a <= pred (resume_left y a))%nat.
Proof.
  intros Hy Ht. unfold turn_resume, resume_left. destruct (ys_resume y !! a) as [w|] eqn:Hw.
  - rewrite Ht. destruct (to_worker _ _ _ _ _ _ (so_resumes _ Hy) _ _ Hw) as (u & Hu & _ & Hat). rewrite Ht in Hu. injection Hu as <-.
    pose proof (resume_turn_heap (ys_rt y) a t w n) as [_ Eh].
    pose proof (fun w' => resume_turn_rank (ys_rt y) a t w n _ _ w' Hat eq_refl) as Hr. destruct (resume_turn _ _ _ _ _) as [s' w'].
    cbn in *. split; [|by apply (left_go_on rrank _ _ _ w)].
    destruct Eh as [->|[u ->]]; rewrite ?lookup_insert_eq; eauto.
  - unfold left_of. rewrite Hw. split; [by rewrite Ht|lia].
Qed.
Lemma others_left {T W} (K : TicketKind T W) rank a heap heap' ws ws' t :
  others K a heap heap' ws ws' -> heap !! a = Some t -> is_Some (heap' !! a) /\ left_of rank ws' a = left_of rank ws a.
Proof. intros Ho Ht. destruct (Ho t Ht) as (E & t' & Ht' & _). unfold left_of. rewrite E. eauto. Qed.

Lemma launch_run_left a k y z t :
  launch_run a k y z -> system_ok y -> ow_launches (ys_rt y) !! a = Some t ->
  system_ok z /\ is_Some (ow_launches (ys_rt z) !! a) /\ (launch_left z a + k <= launch_left y a \/ launch_left z a = 0)%nat.
Proof.
  intros Hr. revert t. induction Hr as [y|y y' z k Hs _ IH|y n z k _ IH]; intros t Hy Ht; [eauto with lia| |].
  - assert (Hl : is_Some (ow_launches (ys_rt y') !! a) /\ (launch_left y' a <= launch_left y a)%nat).
    { destruct (step_others y y' a Hs) as [[Ho|[n ->]] _].
      - destruct (others_left launches lrank _ _ _ _ _ t Ho Ht) as [H1 H2]. split; [done|]. unfold launch_left. lia.
      - destruct (launch_turn_left y a n t Hy Ht). split; [done|lia]. }
    destruct Hl as [[t' Ht'] Hl]. destruct (IH t' (step_ok _ _ Hy Hs) Ht') as (H1 & H2 & H3). split_and!; [done|done|lia].
  - destruct (launch_turn_left y a n t Hy Ht) as [[t' Ht'] Hl].
    destruct (IH t' (turn_launch_ok _ _ _ Hy) Ht') as (H1 & H2 & H3). split_and!; [done|done|lia].
Qed.
Lemma resume_run_left a k y z t :
  resume_run a k y z -> system_ok y -> ow_attempts (ys_rt y) !! a = Some t ->
  system_ok z /\ is_Some (ow_attempts (ys_rt z) !! a) /\ (resume_left z a + k <= resume_left y a \/ resume_left z a = 0)%nat.
Proof.
  intros Hr. revert t. induction Hr as [y|y y' z k Hs _ IH|y n z k _ IH]; intros t Hy Ht; [eauto with lia| |].
  - assert (Hl : is_Some (ow_attempts (ys_rt y') !! a) /\ (resume_left y' a <= resume_left y a)%nat).
    { destruct (step_others y y' a Hs) as [_ [Ho|[n ->]]].
      - destruct (others_left resumes rrank _ _ _ _ _ t Ho Ht) as [H1 H2]. split; [done|]. unfold resume_left. lia.
      - destruct (resume_turn_left y a n t Hy Ht). split; [done|lia]. }
    destruct Hl as [[t' Ht'] Hl]. destruct (IH t' (step_ok _ _ Hy Hs) Ht') as (H1 & H2 & H3). split_and!; [done|done|lia].
  - destruct (resume_turn_left y a n t Hy Ht) as [[t' Ht'] Hl].
    destruct (IH t' (turn_resume_ok _ _ _ Hy) Ht') as (H1 & H2 & H3). split_and!; [done|done|lia].
Qed.

Lemma rank_left {T W} (K : TicketKind T W) rank index heap ws runs log a t :
  tickets_ok K index heap ws runs log -> heap !! a = Some t -> left_of rank ws a = 0%nat ->
  (forall w, rank w = 0%nat -> ~ tk_at K runs log a t w) -> tk_complete K t = true.
Proof.
  intros H Ht Hl Hr. destruct (tk_complete K t) eqn:Ec; [done|exfalso].
  destruct (to_open _ _ _ _ _ _ H _ _ Ht Ec) as [[w Hw] _]. unfold left_of in Hl. rewrite Hw in Hl.
  destruct (to_worker _ _ _ _ _ _ H _ _ Hw) as (u & Hu & _ & Hat). rewrite Ht in Hu. injection Hu as <-. by apply (Hr w).
Qed.
Lemma launch_left_bound y a : (launch_left y a <= 7)%nat.
Proof. unfold launch_left, left_of. destruct (ys_launch y !! a) as [[]|]; cbn; lia. Qed.
Lemma resume_left_bound y a : (resume_left y a <= 16)%nat.
Proof. unfold resume_left, left_of. destruct (ys_resume y !! a) as [[]|]; cbn; lia. Qed.

(** (C39) Every admitted request is answered: in whatever way the steps of the
    callers, of the other goroutines and of the rest of the runtime are
    interleaved, and whatever the outside answers, a launch ticket is complete
    after seven turns of its goroutine and a resume ticket after sixteen. *)
Theorem owner_answered epoch y a z : reached epoch y ->
  (forall t k, ow_launches (ys_rt y) !! a = Some t -> launch_run a k y z -> (7 <= k)%nat ->
     exists t', ow_launches (ys_rt z) !! a = Some t' /\ lt_complete t' = true) /\
  (forall t k, ow_attempts (ys_rt y) !! a = Some t -> resume_run a k y z -> (16 <= k)%nat ->
     exists t', ow_attempts (ys_rt z) !! a = Some t' /\ st_complete t' = true).
Proof.
  intros Hy%reached_ok. split; intros t k Ht Hr Hk.
  - destruct (launch_run_left _ _ _ _ _ Hr Hy Ht) as (Hz & [t' Ht'] & Hl). pose proof (launch_left_bound y a). exists t'. split; [done|].
    apply (rank_left launches lrank _ _ _ _ _ _ _ (so_launches _ Hz) Ht'); [unfold launch_left in *; lia|]. intros [] E; try discriminate E; by intros [].
  - destruct (resume_run_left _ _ _ _ _ Hr Hy Ht) as (Hz & [t' Ht'] & Hl). pose proof (resume_left_bound y a). exists t'. split; [done|].
    apply (rank_left resumes rrank _ _ _ _ _ _ _ (so_resumes _ Hz) Ht'); [unfold resume_left in *; lia|]. intros [] E; try discriminate E; by intros [].
Qed.

(** ** Examples *)

Definition ex_wid : string := "w_0000000000000000000000000000000000000000000000000000000000000001".
Definition ex_owned_target : Target := mkTarget (mkWorktree ex_wid "p_1" "/repo" "/repo/.git" "/s.db" "x") "codex-main".
Definition ex_request : LaunchRequest := mkLaunchRequest ex_run ex_wid "codex-main" "request-1".
Definition ex_answers : LaunchAnswers :=
  mkLaunchAnswers (Ok ex_owned_target) (Ok ex_profile) (Some (replicate 32 (ascii_of_nat 17))) None None None (Ok (Some 42)).
Definition ex_runtime : Runtime := mkRuntime ex_run ∅ ∅ ∅ ∅ ∅ ∅ 0 0 0 false 0 false life_zero.
Definition ex_entered : System := enter_launch (new_system ex_runtime) None ex_request.
Definition ex_turns (k : nat) : System := Nat.iter k (fun y => turn_launch y 0 ex_answers) ex_entered.

Lemma ex_entered_reached : reached ex_run ex_entered.
Proof. exists ex_runtime. split; [by vm_compute|]. apply star_one. do 2 constructor. Qed.
Lemma ex_turns_reached k : reached ex_run (ex_turns k).
Proof.
  destruct ex_entered_reached as (s & Hs & Hy). exists s. split; [done|]. induction k as [|k IH]; [done|].
  eapply star_trans; [exact IH|]. apply star_one. do 2 constructor.
Qed.
Lemma ex_turns_run k : launch_run 0 k ex_entered (ex_turns k).
Proof.
  assert (H : forall y, launch_run 0 k y (Nat.iter k (fun y => turn_launch y 0 ex_answers) y)).
  { induction k as [|k IH]; intros y; [constructor|]. rewrite Nat.iter_succ_r. apply (lr_turn 0 _ ex_answers), IH. }
  apply H.
Qed.

Lemma single_start_witness :
  starts_of (start_request (ys_rt (ex_turns 7))) "request-1" (ys_log (ex_turns 7)) <> [] /\
  (List.length (starts_of (start_request (ys_rt (ex_turns 7))) "request-1" (ys_log (ex_turns 7))) <= 1)%nat.
Proof.
  split; [vm_compute; discriminate|]. destruct (single_start ex_run (ex_turns 7) (ex_turns_reached 7)) as [H _]. exact (H "request-1").
Defined.

Lemma ownership_bounded_witness :
  ow_active (ys_rt (ex_turns 7)) = 1 /\
  ow_active (ys_rt (ex_turns 7)) = events is_child (ys_log (ex_turns 7)) - events is_exit (ys_log (ex_turns 7)).
Proof. split; [by vm_compute|]. exact (proj1 (ownership_bounded ex_run (ex_turns 7) (ex_turns_reached 7))). Defined.

Definition ex_done : launchTicket :=
  match ow_launches (ys_rt (ex_turns 7)) !! 0%nat with Some t => t | None => new_launch ex_request end.
Lemma launch_outcome_final_witness :
  lt_err ex_done = None /\ snd (Launch_enter (ys_rt (ex_turns 7)) None ex_request) = Waiting 0 false.
Proof.
  split; [by vm_compute|].
  destruct (launch_outcome_final ex_run (ex_turns 7) (ex_turns 7) 0 ex_done ex_request (ex_turns_reached 7) (star_refl _ _)
    ltac:(by vm_compute) ltac:(by vm_compute) ltac:(by vm_compute) ltac:(by vm_compute) ltac:(by vm_compute) ltac:(by vm_compute)) as [H _].
  exact (proj1 (H ltac:(by vm_compute))).
Defined.

Lemma owner_answered_witness :
  exists t', ow_launches (ys_rt (ex_turns 7)) !! 0%nat = Some t' /\ lt_complete t' = true.
Proof.
  destruct (owner_answered ex_run ex_entered 0 (ex_turns 7) ex_entered_reached) as [H _].
  exact (H (new_launch ex_request) 7%nat ltac:(by vm_compute) (ex_turns_run 7) (le_n 7)).
Defined.
