(* ===== verification/RunPages.v ===== *)
(** * Listing the runs in pages

    [Runtime.listLocked] and [Runtime.Page] of
    [src/application/runtime/launch.go], whose definitions are in [Owner.v]:
    a client that follows the cursors at one revision reads the whole list,
    each run once and in order, and one that comes back after a change is told
    so. *)

From Stdlib Require Import Sorted.
From S2P Require Import Prelude GoStrings GoTime RuntimeValues Launch Lifecycle Recovery OutputCapture Owner.

Definition run_id (r : RunSnapshot) : string := li_run (rn_identity r).

(** The client's loop: it follows [Next] at the revision of the first page. *)
Fixpoint read_pages (fuel : nat) (s : Runtime) (cursor : string) (revision : Z) : result (list RunSnapshot) :=
  match fuel with
  | O => Err ErrLimit
  | S n =>
      let! p := Page s (mkRunPageRequest (ow_epoch s) cursor revision) in
      if pg_next p =?s "" then Ok (pg_runs p)
      else let! rest := read_pages n s (pg_next p) (pg_revision p) in Ok (pg_runs p ++ rest)
  end.

(** ** Sorting *)

Lemma ltb_irrefl a : String.ltb a a = false.
Proof. unfold String.ltb. pose proof (compare_antisym a a) as E. by destruct (String.compare a a). Qed.
Lemma ltb_true a b : String.le a b -> a <> b -> String.ltb a b = true.
Proof.
  unfold String.le, String.leb, String.ltb. destruct (String.compare a b) eqn:E; [|done|done].
  by apply compare_eq_iff in E.
Qed.
Lemma ltb_le a b : String.ltb a b = true -> String.le a b.
Proof. unfold String.le, String.leb, String.ltb. by destruct (String.compare a b). Qed.
Lemma ltb_ge a b : String.ltb a b = false -> String.le b a.
Proof.
  intros H. destruct (total String.le a b) as [Hl|Hl]; [|done].
  destruct (decide (a = b)) as [->|Hne]; [done|]. rewrite ltb_true in H; done.
Qed.

Definition run_le (x y : RunSnapshot) : Prop := String.le (run_id x) (run_id y).
Lemma insert_run_perm x l : insert_run x l ≡ₚ x :: l.
Proof.
  induction l as [|y t IH]; [done|]. cbn. case_match; [|done].
  rewrite IH. apply Permutation_swap.
Qed.
Lemma insert_run_sorted x l : StronglySorted run_le l -> StronglySorted run_le (insert_run x l).
Proof.
  induction 1 as [|y t Ht IH Hy]; cbn; [repeat constructor|]. case_match eqn:E.
  - constructor; [done|]. rewrite insert_run_perm. constructor; [|done]. by apply ltb_le in E.
  - apply ltb_ge in E. constructor; [by constructor|]. constructor; [done|].
    eapply Forall_impl; [exact Hy|]. intros z Hz. unfold run_le in *. by etrans.
Qed.
Lemma sort_runs_perm l : sort_runs l ≡ₚ l.
Proof. induction l as [|x l IH]; [done|]. cbn. by rewrite insert_run_perm, IH. Qed.
Lemma sort_runs_sorted l : StronglySorted run_le (sort_runs l).
Proof. induction l as [|x l IH]; [constructor|]. by apply insert_run_sorted. Qed.

(** Searching for a run that is there finds its place. *)
Lemma search_run_found l1 x l2 :
  StronglySorted run_le (l1 ++ x :: l2) -> NoDup (run_id <$> l1 ++ x :: l2) ->
  search_run (l1 ++ x :: l2) (run_id x) = List.length l1.
Proof.
  induction l1 as [|y l1 IH]; cbn; intros Hs Hn; fold (run_id x) in *.
  - by rewrite ltb_irrefl.
  - inversion_clear Hs as [|? ? Hs' Hy]. apply NoDup_cons in Hn as [Hy' Hn].
    rewrite ltb_true; [by rewrite IH| |].
    + rewrite Forall_forall in Hy. apply Hy. apply elem_of_app. right. by left.
    + intros E. apply Hy'. fold (run_id y) in E. rewrite E. apply list_elem_of_fmap. exists x. split; [done|].
      apply elem_of_app. right. by left.
Qed.

(** ** The pages *)

Section pages.
Context (s : Runtime) (Hn : NoDup (run_id <$> listLocked s)) (He : "" ∉ run_id <$> listLocked s).

Definition page_at (k : nat) : RunPage :=
  mkRunPage (ow_epoch s) (ow_revision s) (take 2 (drop k (listLocked s)))
    (if (k + 2 <? List.length (listLocked s))%nat then last_run (take 2 (drop k (listLocked s))) else "").

Lemma first_page : Page s (mkRunPageRequest (ow_epoch s) "" 0) = Ok (page_at 0).
Proof using. unfold Page. cbn [pq_epoch pq_revision pq_cursor]. by rewrite String.eqb_refl. Qed.

Lemma next_page k r : listLocked s !! k = Some r -> ow_revision s <> 0 ->
  Page s (mkRunPageRequest (ow_epoch s) (run_id r) (ow_revision s)) = Ok (page_at (S k)).
Proof using Hn He.
  intros Hk Hrev. unfold Page. cbn [pq_epoch pq_revision pq_cursor].
  rewrite String.eqb_refl, Z.eqb_refl. replace (ow_revision s =? 0) with false by lia. cbn [negb andb].
  destruct (String.eqb_spec (run_id r) "") as [E|_].
  { destruct He. rewrite <-E. apply list_elem_of_fmap. exists r. split; [done|]. by eapply list_elem_of_lookup_2. }
  cbn [negb]. pose proof (take_drop_middle _ _ _ Hk) as Em.
  assert (Hs : search_run (listLocked s) (run_id r) = k).
  { rewrite <-Em at 1. rewrite search_run_found; [apply length_take_le|rewrite Em; apply sort_runs_sorted|by rewrite Em].
    apply lookup_lt_Some in Hk. lia. }
  rewrite Hs, Hk. fold (run_id r). by rewrite String.eqb_refl.
Qed.

(** The last run of a page that is not the last one. *)
Lemma page_next k : (k + 2 < List.length (listLocked s))%nat ->
  exists r, listLocked s !! (k + 1)%nat = Some r /\ pg_next (page_at k) = run_id r /\ run_id r <> "".
Proof using He.
  intros Hk. destruct (lookup_lt_is_Some_2 (listLocked s) (k + 1)) as [r Hr]; [lia|]. exists r.
  split; [done|]. unfold page_at. cbn [pg_next]. rewrite (proj2 (Nat.ltb_lt _ _) Hk).
  split.
  - unfold last_run. rewrite last_lookup, length_take, length_drop.
    rewrite Nat.min_l by lia. cbn [Nat.pred]. rewrite lookup_take_lt by lia. by rewrite lookup_drop, Hr.
  - intros E. destruct He. rewrite <-E. apply list_elem_of_fmap. exists r. split; [done|]. by eapply list_elem_of_lookup_2.
Qed.

Lemma read_pages_from fuel k : ow_revision s <> 0 -> (List.length (listLocked s) - k < fuel)%nat ->
  (k = 0%nat -> read_pages fuel s "" 0 = Ok (listLocked s)) /\
  (forall r, listLocked s !! k = Some r -> read_pages fuel s (run_id r) (ow_revision s) = Ok (drop (S k) (listLocked s))).
Proof using Hn He.
  intros Hrev. revert k. induction fuel as [|n IH]; intros k Hf; [lia|].
  assert (Hpage : forall j, (List.length (listLocked s) - j < S n)%nat ->
    (if pg_next (page_at j) =?s "" then Ok (pg_runs (page_at j))
     else let! rest := read_pages n s (pg_next (page_at j)) (pg_revision (page_at j)) in Ok (pg_runs (page_at j) ++ rest))
    = Ok (drop j (listLocked s))).
  { intros j Hj. destruct (Nat.ltb_spec (j + 2) (List.length (listLocked s))) as [Hl|Hl].
    - destruct (page_next j Hl) as (r & Hr & -> & Hne). apply String.eqb_neq in Hne as ->. cbn [pg_revision page_at].
      destruct (IH (j + 1)%nat ltac:(lia)) as [_ ->]; [|done]. cbn. f_equal.
      replace (S (j + 1)) with (j + 2)%nat by lia. rewrite <-drop_drop. apply take_drop.
    - unfold page_at. cbn [pg_next pg_runs]. rewrite (proj2 (Nat.ltb_ge _ _) Hl). cbn [String.eqb].
      rewrite take_ge; [done|]. rewrite length_drop. lia. }
  split.
  - intros ->. cbn [read_pages]. rewrite first_page. exact (Hpage 0%nat Hf).
  - intros r Hr. cbn [read_pages]. rewrite (next_page k r) by done. apply Hpage. lia.
Qed.
End pages.

(** The pages are the list: from no cursor, following the cursors at the
    revision of the first page, a client reads every run once, in the order
    of their ids, in finitely many pages of at most two; what it reads is
    every owned run, open launch and unattached resume; and a cursor of
    another revision is refused. *)
Theorem run_pages_complete s :
  NoDup (run_id <$> listLocked s) -> "" ∉ run_id <$> listLocked s -> ow_revision s <> 0 ->
  read_pages (S (List.length (listLocked s))) s "" 0 = Ok (listLocked s) /\
  listLocked s ≡ₚ run_entries s /\ StronglySorted run_le (listLocked s) /\
  (forall request p, Page s request = Ok p -> (List.length (pg_runs p) <= 2)%nat) /\
  (forall cursor revision, revision <> 0 -> revision <> ow_revision s ->
     Page s (mkRunPageRequest (ow_epoch s) cursor revision) = Err ErrChanged).
Proof.
  intros Hn He Hr. split_and!.
  - apply (read_pages_from s Hn He _ 0 Hr); [lia|done].
  - apply sort_runs_perm.
  - apply sort_runs_sorted.
  - intros request p Hp. unfold Page in Hp. repeat (case_match; try done); injection Hp as <-; cbn; rewrite length_take; lia.
  - intros cursor revision H0 H1. unfold Page. cbn [pq_epoch pq_revision]. rewrite String.eqb_refl.
    apply Z.eqb_neq in H0 as ->, H1 as ->. done.
Qed.

(** ** Examples *)

Definition ex_owned (run : string) : ownedRun :=
  mkOwned true RecoveryBinding_zero (mkRunSnapshot (mkLaunchIdentity run run ex_run) ex_target ex_profile RunReserved 0 0 false)
    42 false None.
Definition ex_listed : Runtime :=
  mkRuntime ex_run ∅ ∅ ∅ ∅ {["b" := 1%nat; "a" := 2%nat; "c" := 3%nat]}
    {[1%nat := ex_owned "b"; 2%nat := ex_owned "a"; 3%nat := ex_owned "c"]} 0 3 0 false 6 false life_zero.
Lemma run_pages_complete_witness :
  run_id <$> listLocked ex_listed = ["a"; "b"; "c"] /\
  read_pages 4 ex_listed "" 0 = Ok (listLocked ex_listed).
Proof.
  assert (E : run_id <$> listLocked ex_listed = ["a"; "b"; "c"]) by (by vm_compute). split; [exact E|].
  apply (run_pages_complete ex_listed); rewrite ?E; [by apply (bool_decide_unpack _); vm_compute|set_solver|done].
Defined.
