(* ===== verification/Shutdown.v ===== *)
(** * Shutdown and update of the daemon

    [src/application/runtime/lifecycle.go] and [update.go], on the [Runtime]
    of [Owner.v], and the clients' checks of [lifecycle_client.go] and
    [update_client.go].  A shutdown is previewed, confirmed with the exact
    plan that was previewed, checked and reserved durably, and only then are
    the terminals of the plan closed; an update is deferred while the daemon
    works and handed off as the shutdown of an empty one.  Coordinators are
    goroutines, cut at the runtime's mutex, as in [Owner.v]; what the
    registry, the catalog, the children and the repository answer is an
    argument.  The theorems are in
    [Handover.v], [ShutdownOutcome.v] and [Plans.v]. *)

From S2P Require Import Prelude GoStrings GoTime Sha256 RuntimeValues Launch Control Lifecycle Recovery Output OutputCapture Owner.

Definition ErrShutdownUnknown : error :=
  Sentinel "daemon shutdown outcome uncertain; inspect the original preview without replay".
Definition commit_uncertain : string := "runtime lifecycle metadata commit uncertain".
Definition ErrLifecycleCommitUncertain : error := Sentinel commit_uncertain.
Definition ShutdownPending : string := "pending".
Definition ShutdownDraining : string := "draining".
Definition ShutdownUnknown : string := "unknown".
Definition ShutdownRejected : string := "rejected".

(** What the journal implements besides [LaunchJournal]: [ShutdownJournal],
    [LifecycleRepository] and [UpdateHandoffJournal]. *)
Record JournalKind := mkJournalKind { jk_shutdown : bool; jk_lifecycle : bool; jk_handoff : bool }.

(** ** The roster *)

Record ShutdownPreviewRun := mkPreviewRun { pv_selection : OutputSelection; pv_state : string; pv_uncertain : bool }.
#[global] Instance ShutdownPreviewRun_eq_dec : EqDecision ShutdownPreviewRun.
Proof. solve_decision. Defined.
Definition pv_run (r : ShutdownPreviewRun) : string := li_run (ol_identity (pv_selection r)).

Definition ShutdownPreviewRunFrom (s : RunSnapshot) : ShutdownPreviewRun :=
  mkPreviewRun (mkSelection (rn_identity s) (w_id (t_worktree (rn_target s))) (hp_id (rn_profile s)))
    (rn_state s) (rn_uncertain s).
Definition ShutdownPreviewRun_Valid (r : ShutdownPreviewRun) : bool :=
  let sel := pv_selection r in
  if negb (FreshnessBinding_valid (mkFreshnessBinding (ol_identity sel) (ol_worktree sel) (ol_profile sel))) then false
  else if (pv_state r =?s RunReserved) || (pv_state r =?s RunLive) then true
  else if pv_state r =?s RunExited then pv_uncertain r else false.

(** [json.Marshal] of the roster.  Its strings are validated identifiers, in
    which no character is escaped. *)
Definition json_string (s : string) : string := String (ascii_of_nat 34) s +:+ String (ascii_of_nat 34) EmptyString.
Definition json_field (name value : string) : string := json_string name +:+ ":" +:+ value.
Definition json_object (fields : list string) : string := "{" +:+ Join fields "," +:+ "}".
Definition json_bool (b : bool) : string := if b then "true" else "false".
Definition roster_entry (r : ShutdownPreviewRun) : string :=
  let id := ol_identity (pv_selection r) in
  json_object
    [json_field "Identity" (json_object [json_field "Run" (json_string (li_run id));
                                         json_field "Generation" (json_string (li_generation id));
                                         json_field "Epoch" (json_string (li_epoch id))]);
     json_field "Worktree" (json_string (ol_worktree (pv_selection r)));
     json_field "Profile" (json_string (ol_profile (pv_selection r)));
     json_field "State" (json_string (pv_state r));
     json_field "Uncertain" (json_bool (pv_uncertain r))].
Definition roster_json (rows : list ShutdownPreviewRun) : list ascii :=
  explode ("[" +:+ Join (map roster_entry rows) "," +:+ "]").

(** The loop over the rows: they are valid and in the order of their runs. *)
Fixpoint roster_ok (previous : string) (rows : list ShutdownPreviewRun) : bool :=
  match rows with
  | [] => true
  | r :: rest =>
      if negb (ShutdownPreviewRun_Valid r) || (previous <>?s "") && String.leb (pv_run r) previous then false
      else roster_ok (pv_run r) rest
  end.
Definition ShutdownRosterDigest (rows : list ShutdownPreviewRun) : result string :=
  if MaxShutdownPreviewRuns <? llen rows then Err ErrLimit
  else if negb (roster_ok "" rows) then Err ErrInvalid
  else Ok (EncodeToString (Sum256 (roster_json rows))).

Definition shutdownRosterLocked (s : Runtime) : list RunSnapshot :=
  List.filter (fun r => (rn_state r <>?s RunExited) || rn_uncertain r) (listLocked s).

(** Tickets that own their child and are not published yet, and exits that are
    not joined yet. *)
Definition owned_now (s : Runtime) (d : RunSnapshot) : bool := bool_decide (is_Some (ow_runs s !! li_run (rn_identity d))).
Definition launch_publishing (s : Runtime) (a : nat) : bool :=
  match ow_launches s !! a with
  | Some t => lt_starting t && negb (lt_complete t) && owned_now s (lt_descriptor t)
  | None => false
  end.
Definition resume_publishing (s : Runtime) (a : nat) : bool :=
  match ow_attempts s !! a with
  | Some t => st_starting t && negb (st_complete t) && st_attached t && owned_now s (st_descriptor t)
  | None => false
  end.
Definition exit_reconciling (s : Runtime) (r : nat) : bool :=
  match ow_owned s !! r with
  | Some run => (rn_state (or_descriptor run) =?s RunExited) && negb (or_done run)
  | None => false
  end.
Definition shutdownBindingLocked (s : Runtime) (id : string) : ShutdownBindingState :=
  let runs := shutdownRosterLocked s in
  mkShutdown (ow_epoch s) id (ow_revision s)
    (match ShutdownRosterDigest (map ShutdownPreviewRunFrom runs) with Ok digest => digest | Err _ => "" end)
    (llen runs)
    (ow_pending s + (mcount (launch_publishing s) (ow_tickets s) + mcount (resume_publishing s) (ow_resumes s)))
    (ow_controls s) (mcount (exit_reconciling s) (ow_runs s)).

(** ** Assignments to the lifecycle fields *)

Definition set_bound (l : LifecycleState) (bound starting uncertain : bool) (deferral : option UpdateDeferral) : LifecycleState :=
  mkLife bound starting uncertain deferral (lc_preview l) (lc_tickets l) (lc_heap l) (lc_preparing l) (lc_committed l) (lc_pending l).
Definition set_preview (l : LifecycleState) (preview : option ShutdownPreview) : LifecycleState :=
  mkLife (lc_bound l) (lc_starting l) (lc_uncertain l) (lc_deferral l) preview (lc_tickets l) (lc_heap l)
    (lc_preparing l) (lc_committed l) (lc_pending l).
Definition set_shutdowns (l : LifecycleState) (tickets : gmap string nat) (heap : gmap nat shutdownTicket) : LifecycleState :=
  mkLife (lc_bound l) (lc_starting l) (lc_uncertain l) (lc_deferral l) (lc_preview l) tickets heap
    (lc_preparing l) (lc_committed l) (lc_pending l).
Definition set_phase_flags (l : LifecycleState) (preparing committed : bool) (pending : Z) : LifecycleState :=
  mkLife (lc_bound l) (lc_starting l) (lc_uncertain l) (lc_deferral l) (lc_preview l) (lc_tickets l) (lc_heap l)
    preparing committed pending.
Definition close_gate (s : Runtime) : Runtime := set_gate s true (ow_revision s) (ow_revisionExhausted s).

(** ** Previews *)

Definition random_id (random : option (list ascii)) : result string :=
  match random with Some bytes => Ok (EncodeToString bytes) | None => Err ErrUnsafe end.
Definition exhausted (s : Runtime) : bool := ow_revisionExhausted s || (ow_revision s =? MaxUint64).

Definition PreviewShutdown (s : Runtime) (ctx : option error) (random : option (list ascii))
  : Runtime * result ShutdownPreview :=
  let l := ow_life s in
  match ctx with
  | Some e => (s, Err (Wrap "preview daemon shutdown: %w" [] e))
  | None =>
      match random_id random with
      | Err e => (s, Err e)
      | Ok id =>
          if lc_preparing l || lc_committed l || lc_starting l || (0 <? lc_pending l) || lc_uncertain l
          then (s, Err ErrRuntimeBusy)
          else if exhausted s then (s, Err ErrLimit)
          else
            let preview := mkPreview (shutdownBindingLocked s id) (shutdownRosterLocked s) in
            (set_life s (set_preview l (Some preview)), Ok preview)
      end
  end.
Definition previewed (s : Runtime) (binding : ShutdownBindingState) : option ShutdownPreview :=
  match lc_preview (ow_life s) with
  | Some p => if bool_decide (sp_binding p = binding) then Some p else None
  | None => None
  end.
Definition ReadShutdownPreview (s : Runtime) (binding : ShutdownBindingState) : result ShutdownPreview :=
  match previewed s binding with
  | Some p => if bool_decide (shutdownBindingLocked s (sd_preview binding) = binding) then Ok p else Err ErrChanged
  | None => Err ErrChanged
  end.
Definition CancelShutdown (s : Runtime) (binding : ShutdownBindingState) : Runtime * option error :=
  let l := ow_life s in
  if bool_decide (previewed s binding = None) || lc_preparing l || lc_committed l || lc_uncertain l
  then (s, Some ErrChanged) else (set_life s (set_preview l None), None).

(** ** Confirmation *)

Definition hasUncertainLocked (s : Runtime) : bool :=
  let l := ow_life s in
  lc_uncertain l
  || map_any (fun a => match lc_heap l !! a with Some t => sh_outcome (ht_result t) =?s ShutdownUnknown | None => false end)
       (lc_tickets l)
  || map_any (fun r => match ow_owned s !! r with Some run => rn_uncertain (or_descriptor run) | None => false end) (ow_runs s)
  || map_any (fun a => match ow_launches s !! a with Some t => rn_uncertain (lt_result t) | None => false end) (ow_tickets s).

Definition emptyUpdateBinding (b : ShutdownBindingState) : bool :=
  match ShutdownRosterDigest [] with
  | Ok digest => (sd_roster b =?s digest) && (sd_total b =? 0) && (sd_launches b =? 0) && (sd_controls b =? 0)
                 && (sd_reconciliations b =? 0)
  | Err _ => false
  end.
Definition updateRepositoryLocked (j : JournalKind) (s : Runtime) : option error :=
  fails (negb (jk_lifecycle j) || negb (lc_bound (ow_life s))) ErrUnsupported.

(** A plan's children, by the address of their runs; [closing] says which
    children are [ClosingPTYChild]. *)
Fixpoint closing_children (s : Runtime) (closing : nat -> bool) (runs : list RunSnapshot) : result (list (nat * RunSnapshot)) :=
  match runs with
  | [] => Ok []
  | snapshot :: rest =>
      match ow_runs s !! li_run (rn_identity snapshot) with
      | None => Err ErrChanged
      | Some r =>
          if negb (closing r) then Err ErrUnsupported
          else let! children := closing_children s closing rest in Ok ((r, snapshot) :: children)
      end
  end.
Record ShutdownWork := mkWork { wk_children : list (nat * RunSnapshot); wk_revision : Z }.

Definition same_ticket (t : shutdownTicket) (request : ShutdownConfirmation) (purpose : shutdownPurpose) (target : UpdateTarget) : bool :=
  bool_decide (ht_confirmation t = request) && bool_decide (ht_purpose t = purpose) && bool_decide (ht_target t = target).

(** The checks before the mutex, and under it for a new ticket. *)
Definition confirm_syntax (request : ShutdownConfirmation) (purpose : shutdownPurpose) (target : UpdateTarget) : option error :=
  match ShutdownBindingFrom (sc_binding request) with
  | Err e => Some (Wrap "validate shutdown binding: %w" [] e)
  | Ok _ =>
      first_err [fails (negb (sc_acknowledged request)) ErrInvalid;
                 match purpose with
                 | shutdownUpdate => fails (negb (UpdateTarget_valid target) || negb (emptyUpdateBinding (sc_binding request))) ErrInvalid
                 | shutdownManual => None
                 end]
  end.
Definition confirm_refusal (j : JournalKind) (s : Runtime) (request : ShutdownConfirmation) (purpose : shutdownPurpose)
  (target : UpdateTarget) : option error :=
  let l := ow_life s in
  let binding := sc_binding request in
  first_err
    [fails (bool_decide (previewed s binding = None)) ErrChanged;
     match Confirm binding (shutdownBindingLocked s (sd_preview binding)) true with
     | Some e => Some (Wrap "validate current shutdown roster: %w" [] e)
     | None => None
     end;
     fails (exhausted s) ErrLimit;
     fails (lc_preparing l || lc_committed l || lc_starting l || (0 <? lc_pending l) || hasUncertainLocked s) ErrRuntimeBusy;
     match purpose with
     | shutdownManual => None
     | shutdownUpdate =>
         first_err [updateRepositoryLocked j s; fails (negb (jk_handoff j)) ErrUnsupported; fails (ow_disabled s) ErrRuntimeBusy;
                    match lc_deferral l with
                    | Some d => fails (negb (bool_decide (ud_target d = target))) ErrChanged
                    | None => None
                    end]
     end;
     fails (negb (jk_shutdown j)) ErrUnsupported].

Definition new_shutdown (request : ShutdownConfirmation) (purpose : shutdownPurpose) (target : UpdateTarget) : shutdownTicket :=
  mkShutdownTicket request purpose target (mkShutdownResult (sc_binding request) ShutdownPending 0) None false.
Definition admit_shutdown (s : Runtime) (t : shutdownTicket) : Runtime * nat :=
  let l := ow_life s in
  let a := fresh (dom (lc_heap l)) in
  let l1 := set_shutdowns l (<[sd_preview (sc_binding (ht_confirmation t)) := a]> (lc_tickets l)) (<[a := t]> (lc_heap l)) in
  (changedLocked (set_life s (set_phase_flags l1 true (lc_committed l) (lc_pending l + 1))), a).

(** A call is refused, joins a ticket, or starts the goroutine of a new one. *)
Inductive ConfirmEntry := ConfirmRefused (e : error) | ConfirmJoined (ticket : nat) | ConfirmStarted (ticket : nat) (work : ShutdownWork).

Definition confirmShutdown (j : JournalKind) (closing : nat -> bool) (s : Runtime) (ctx : option error)
  (request : ShutdownConfirmation) (purpose : shutdownPurpose) (target : UpdateTarget) : Runtime * ConfirmEntry :=
  let l := ow_life s in
  match ctx with
  | Some e => (s, ConfirmRefused (Wrap "confirm daemon shutdown: %w" [] e))
  | None =>
      match confirm_syntax request purpose target with
      | Some e => (s, ConfirmRefused e)
      | None =>
          match lc_tickets l !! sd_preview (sc_binding request) with
          | Some a =>
              match lc_heap l !! a with
              | Some t => (s, if same_ticket t request purpose target then ConfirmJoined a else ConfirmRefused ErrChanged)
              | None => (s, ConfirmRefused ErrChanged)
              end
          | None =>
              match confirm_refusal j s request purpose target with
              | Some e => (s, ConfirmRefused e)
              | None =>
                  let runs := match lc_preview l with Some p => sp_runs p | None => [] end in
                  match closing_children s closing runs with
                  | Err e => (s, ConfirmRefused e)
                  | Ok children =>
                      if MaxLaunchRequests <=? msize (lc_tickets l) then (s, ConfirmRefused ErrLimit)
                      else
                        let '(s1, a) := admit_shutdown s (new_shutdown request purpose target) in
                        (s1, ConfirmStarted a (mkWork children (ow_revision s1)))
                  end
              end
          end
      end
  end.
Definition HandoffUpdate (j : JournalKind) (closing : nat -> bool) (s : Runtime) (ctx : option error) (target : UpdateTarget)
  (binding : ShutdownBindingState) (exitAcknowledged : bool) : Runtime * ConfirmEntry :=
  confirmShutdown j closing s ctx (mkConfirmation binding exitAcknowledged) shutdownUpdate target.

(** [awaitShutdown]: after [done], and after the caller's context is over. *)
Definition awaitShutdown_done (t : shutdownTicket) : ShutdownResult * option error := (ht_result t, ht_err t).
Definition awaitShutdown_cancelled (t : shutdownTicket) : ShutdownResult * option error :=
  if sh_outcome (ht_result t) <>?s ShutdownPending then (ht_result t, ht_err t)
  else (mkShutdownResult (sh_binding (ht_result t)) ShutdownUnknown (sh_closed (ht_result t)), Some ErrShutdownUnknown).

(** ** Performing a shutdown *)

(** [finishShutdown]. *)
Definition finishShutdown (s : Runtime) (a : nat) (t : shutdownTicket) (result : ShutdownResult) (err : option error)
  (committed : bool) : Runtime :=
  let l := ow_life s in
  let unknown := sh_outcome result =?s ShutdownUnknown in
  let retire := bool_decide (ht_purpose t = shutdownUpdate) && bool_decide (err = None) && (sh_outcome result =?s ShutdownDraining) in
  let t1 := mkShutdownTicket (ht_confirmation t) (ht_purpose t) (ht_target t) result err true in
  let l1 := set_shutdowns l (lc_tickets l) (<[a := t1]> (lc_heap l)) in
  let l2 := set_bound l1 (lc_bound l1) (lc_starting l1) (if unknown then true else lc_uncertain l1)
              (if retire then None else lc_deferral l1) in
  let l3 := set_phase_flags l2 false (if committed then true else lc_committed l2) (lc_pending l2 - 1) in
  let s1 := set_life s l3 in
  changedLocked (if unknown || committed then close_gate s1 else s1).

(** Where the goroutine is: the checks of each child, the decision, the
    durable reservation, the commit, the closing of the terminals, which other
    goroutines do at the same time and which is joined, the final write, and
    the last section. *)
Inductive SWorker :=
| SCheck (rest : list (nat * RunSnapshot))
| SDecide
| SReserve
| SCommit
| SClose
| SSave (result : ShutdownResult)
| SFinish (result : ShutdownResult) (err : option error) (committed : bool)
| SDone.

Record ShutdownAnswers := mkShutdownAnswers {
  ha_revalidate : option error; ha_profile : result HostProfile; ha_validate : option error;
  ha_reserve : option error; ha_budget : bool; ha_close : nat -> option error; ha_save : option error }.

Definition with_outcome (r : ShutdownResult) (outcome : string) : ShutdownResult :=
  mkShutdownResult (sh_binding r) outcome (sh_closed r).
Definition reject (t : shutdownTicket) (e : error) : SWorker :=
  SFinish (with_outcome (ht_result t) ShutdownRejected) (Some e) false.

Definition check_child (snapshot : RunSnapshot) (n : ShutdownAnswers) : option error :=
  match ha_revalidate n with
  | Some e => Some e
  | None =>
      match ha_profile n with
      | Err e => Some e
      | Ok profile => if negb (bool_decide (profile = rn_profile snapshot)) then Some ErrChanged else ha_validate n
      end
  end.
Definition shutdown_check (t : shutdownTicket) (rest : list (nat * RunSnapshot)) (n : ShutdownAnswers) : SWorker :=
  match rest with
  | [] => SDecide
  | (_, snapshot) :: rest => match check_child snapshot n with Some e => reject t e | None => SCheck rest end
  end.
Definition shutdown_decide (s : Runtime) (t : shutdownTicket) (work : ShutdownWork) : SWorker :=
  if negb (ow_revision s =? wk_revision work) || hasUncertainLocked s then reject t ErrChanged else SReserve.
Definition shutdown_reserve (t : shutdownTicket) (n : ShutdownAnswers) : SWorker :=
  match ha_reserve n with
  | None => SCommit
  | Some e => if errors_is e commit_uncertain || ha_budget n
              then SFinish (with_outcome (ht_result t) ShutdownUnknown) (Some ErrShutdownUnknown) false
              else reject t e
  end.
Definition shutdown_commit (s : Runtime) : Runtime :=
  let l := ow_life s in
  changedLocked (close_gate (set_life s (set_phase_flags l (lc_preparing l) true (lc_pending l)))).
(** One terminal: an error makes the outcome unknown, otherwise it counts. *)
Definition close_one (n : ShutdownAnswers) (result : ShutdownResult) (child : nat * RunSnapshot) : ShutdownResult :=
  match ha_close n (fst child) with
  | Some _ => with_outcome result ShutdownUnknown
  | None => mkShutdownResult (sh_binding result) (sh_outcome result) (sh_closed result + 1)
  end.
Definition shutdown_close (t : shutdownTicket) (work : ShutdownWork) (n : ShutdownAnswers) : ShutdownResult :=
  let result := fold_left (close_one n) (wk_children work) (ht_result t) in
  if sh_outcome result <>?s ShutdownUnknown then with_outcome result ShutdownDraining else result.
Definition shutdown_save (j : JournalKind) (t : shutdownTicket) (result : ShutdownResult) (n : ShutdownAnswers) : SWorker :=
  let err := match ht_purpose t with
             | shutdownUpdate => if jk_handoff j then ha_save n else Some ErrUnsupported
             | shutdownManual => ha_save n
             end in
  match err with
  | None => if sh_outcome result =?s ShutdownUnknown
            then SFinish (with_outcome result ShutdownUnknown) (Some ErrShutdownUnknown) true
            else SFinish result None true
  | Some _ => SFinish (with_outcome result ShutdownUnknown) (Some ErrShutdownUnknown) true
  end.

Definition shutdown_turn (j : JournalKind) (s : Runtime) (a : nat) (t : shutdownTicket) (work : ShutdownWork) (w : SWorker)
  (n : ShutdownAnswers) : Runtime * SWorker :=
  match w with
  | SCheck rest => (s, shutdown_check t rest n)
  | SDecide => (s, shutdown_decide s t work)
  | SReserve => (s, shutdown_reserve t n)
  | SCommit => (shutdown_commit s, SClose)
  | SClose => (s, SSave (shutdown_close t work n))
  | SSave result => (s, shutdown_save j t result n)
  | SFinish result err committed => (finishShutdown s a t result err committed, SDone)
  | SDone => (s, SDone)
  end.

(** ** Receipts, the clean marker and the first epoch *)

Definition ShutdownReceipt (s : Runtime) (binding : ShutdownBindingState) : result ShutdownResult :=
  match ShutdownBindingFrom binding with
  | Err e => Err (Wrap "validate shutdown receipt binding: %w" [] e)
  | Ok _ =>
      match lc_tickets (ow_life s) !! sd_preview binding ≫= fun a => lc_heap (ow_life s) !! a with
      | None => Err ErrNotFound
      | Some t => if bool_decide (sc_binding (ht_confirmation t) = binding) then Ok (ht_result t) else Err ErrChanged
      end
  end.
Definition AwaitShutdownConfirmation_look (s : Runtime) : bool := lc_committed (ow_life s).
Definition ShutdownInProgress (s : Runtime) : bool :=
  lc_preparing (ow_life s) || lc_committed (ow_life s) || lc_uncertain (ow_life s).

(** The section of [PublishCleanShutdown]; [record] is the repository's
    answer, asked only when the section lets it. *)
Definition clean_refusal (j : JournalKind) (s : Runtime) : option error :=
  first_err
    [fails (negb (lc_bound (ow_life s))) ErrUnsupported;
     fails (negb (ow_disabled s) || negb (idle s)) ErrRuntimeBusy;
     fails (hasUncertainLocked s) ErrShutdownUnknown;
     fails (negb (jk_lifecycle j)) ErrUnsupported].
Definition PublishCleanShutdown (j : JournalKind) (s : Runtime) (record : option error) : option error :=
  match clean_refusal j s with
  | Some e => Some e
  | None => match record with Some e => Some (Wrap "publish clean daemon shutdown: %w" [] e) | None => None end
  end.

Record LifecycleSnapshot := mkLifecycleSnapshot {
  ls_epoch : string; ls_previous : string; ls_clean : bool; ls_previousClean : bool;
  ls_interrupted : list Interruption; ls_shutdowns : list ShutdownResult; ls_autoStart : bool; ls_deferral : option UpdateDeferral }.

(** [InitializeLifecycle]: the section before [RecordEpochStart] and the one
    after it. *)
Definition InitializeLifecycle_enter (j : JournalKind) (s : Runtime) : Runtime * option error :=
  let l := ow_life s in
  if lc_starting l || lc_bound l || ow_disabled s || negb (msize (ow_tickets s) =? 0) || negb (msize (ow_resumes s) =? 0)
     || lc_preparing l || lc_committed l
  then (s, Some ErrRuntimeBusy)
  else if negb (jk_lifecycle j) then (s, Some ErrUnsupported)
  else (changedLocked (set_life s (set_bound l (lc_bound l) true (lc_uncertain l) (lc_deferral l))), None).
Definition restored_deferral (answer : result LifecycleSnapshot) : result (option UpdateDeferral) :=
  let! snapshot := answer in
  match ls_deferral snapshot with
  | None => Ok None
  | Some d => let! d := UpdateDeferralFrom d in Ok (Some d)
  end.
Definition InitializeLifecycle_end (s : Runtime) (answer : result LifecycleSnapshot) : Runtime * result LifecycleSnapshot :=
  let l := ow_life s in
  match restored_deferral answer with
  | Err e =>
      let uncertain := if errors_is e commit_uncertain then true else lc_uncertain l in
      (changedLocked (close_gate (set_life s (set_bound l (lc_bound l) false uncertain (lc_deferral l)))),
       Err (Wrap "initialize daemon lifecycle: %w" [] e))
  | Ok restored => (changedLocked (set_life s (set_bound l true false (lc_uncertain l) restored)), answer)
  end.

(** ** Updates *)

Record UpdateStatusView := mkStatusView {
  us_epoch : string; us_quiescent : bool; us_blockers : option (list string); us_deferral : option UpdateDeferral; us_overdue : bool }.
Record UpdateAttemptResult := mkAttemptResult {
  ur_target : UpdateTarget; ur_status : UpdateStatusView; ur_notice : bool; ur_preview : option ShutdownBindingState }.
Record UpdateHandoffRequest := mkHandoff { uh_target : UpdateTarget; uh_binding : ShutdownBindingState; uh_acknowledged : bool }.

Definition updateBlockerOrder : list string :=
  ["active_runs"; "pending_launches"; "pending_controls"; "pending_reconciliations"; "lifecycle_busy";
   "publication_uncertain"; "admission_closed"; "revision_exhausted"].
(** [append], if the condition holds. *)
Definition blocker (cond : bool) (name : string) : list string := if cond then [name] else [].
Definition update_blockers (s : Runtime) : list string :=
  let l := ow_life s in
  let binding := shutdownBindingLocked s "" in
  blocker (negb (sd_total binding =? 0)) "active_runs"
  ++ blocker (negb (sd_launches binding =? 0)) "pending_launches"
  ++ blocker (negb (sd_controls binding =? 0)) "pending_controls"
  ++ blocker (negb (sd_reconciliations binding =? 0)) "pending_reconciliations"
  ++ blocker (lc_starting l || negb (lc_pending l =? 0)) "lifecycle_busy"
  ++ blocker (hasUncertainLocked s) "publication_uncertain"
  ++ blocker (ow_disabled s || lc_preparing l || lc_committed l) "admission_closed"
  ++ blocker (exhausted s) "revision_exhausted".
Definition updateStatusLocked (s : Runtime) (now : Time) : UpdateStatusView :=
  let blockers := update_blockers s in
  mkStatusView (ow_epoch s) (llen blockers =? 0) (Some blockers) (lc_deferral (ow_life s))
    (match lc_deferral (ow_life s) with Some d => Overdue24h d now | None => false end).
Definition updateMetadataBusyLocked (s : Runtime) : bool :=
  let l := ow_life s in
  ow_disabled s || lc_starting l || negb (lc_pending l =? 0) || lc_preparing l || lc_committed l || lc_uncertain l.

Definition clock_now (clock : Time) : Time := Round0 (UTC clock).
Definition UpdateStatus_read (j : JournalKind) (s : Runtime) (ctx : option error) (clock : Time) : result UpdateStatusView :=
  match ctx with
  | Some e => Err (Wrap "read update status: %w" [] e)
  | None =>
      let now := clock_now clock in
      if IsZero now then Err ErrInvalid
      else match updateRepositoryLocked j s with Some e => Err e | None => Ok (updateStatusLocked s now) end
  end.

Definition emptyUpdatePreviewLocked (s : Runtime) (id : string) : Runtime * ShutdownBindingState :=
  let binding := shutdownBindingLocked s id in
  (set_life s (set_preview (ow_life s) (Some (mkPreview binding []))), binding).

(** [AttemptUpdate] answers at once, or has a candidate to save. *)
Inductive AttemptEntry :=
| AttemptRefused (e : error)
| AttemptAnswered (result : UpdateAttemptResult) (err : option error)
| AttemptSaving (result : UpdateAttemptResult) (candidate : UpdateDeferral) (id : string) (now : Time).

Definition set_ur_preview (r : UpdateAttemptResult) (p : ShutdownBindingState) : UpdateAttemptResult :=
  mkAttemptResult (ur_target r) (ur_status r) (ur_notice r) (Some p).
Definition begin_lifecycle (s : Runtime) : Runtime :=
  let l := ow_life s in
  changedLocked (set_life s (set_phase_flags l (lc_preparing l) (lc_committed l) (lc_pending l + 1))).
Definition retargeted (d : UpdateDeferral) (target : UpdateTarget) : result UpdateDeferral :=
  let! d := UpdateDeferralFrom d in
  match Retarget d target with (d, None) => Ok d | (_, Some e) => Err e end.

Definition AttemptUpdate_enter (j : JournalKind) (s : Runtime) (ctx : option error) (clock : Time) (target : UpdateTarget)
  (random : option (list ascii)) : Runtime * AttemptEntry :=
  match ctx with
  | Some e => (s, AttemptRefused (Wrap "attempt daemon update: %w" [] e))
  | None =>
      let now := clock_now clock in
      match NewUpdateDeferral target now with
      | Err e => (s, AttemptRefused (Wrap "validate update target and clock: %w" [] e))
      | Ok candidate =>
          match random_id random with
          | Err e => (s, AttemptRefused e)
          | Ok id =>
              match updateRepositoryLocked j s with
              | Some e => (s, AttemptRefused e)
              | None =>
                  let result := mkAttemptResult target (updateStatusLocked s now) (snd (Notice candidate now UpdateAttempt)) None in
                  if exhausted s then (s, AttemptAnswered result (Some ErrLimit))
                  else if updateMetadataBusyLocked s then (s, AttemptAnswered result (Some ErrRuntimeBusy))
                  else
                    let save d := (begin_lifecycle s, AttemptSaving result (fst (Notice d now UpdateStatus)) id now) in
                    match lc_deferral (ow_life s) with
                    | None =>
                        if us_quiescent (ur_status result)
                        then let '(s1, binding) := emptyUpdatePreviewLocked s id in (s1, AttemptAnswered (set_ur_preview result binding) None)
                        else save candidate
                    | Some d =>
                        match retargeted d target with
                        | Err e => (s, AttemptAnswered result (Some (Wrap "retarget continuous update deferral: %w" [] e)))
                        | Ok d => save d
                        end
                    end
              end
          end
      end
  end.

(** [persistUpdateDeferral]: [save] is the repository's answer and [budget]
    whether its context was over by then. *)
Definition persistUpdateDeferral (save : option error) (budget : bool) : option error :=
  match save with
  | None => None
  | Some e =>
      let e := if errors_is e commit_uncertain || budget then Joined ErrLifecycleCommitUncertain e else e in
      Some (Wrap "persist continuous update deferral: %w" [] e)
  end.
Definition finishUpdateLocked (s : Runtime) (candidate : UpdateDeferral) (err : option error) : Runtime :=
  let l := ow_life s in
  let uncertain := match err with Some e => errors_is e commit_uncertain | None => false end in
  let l1 := set_bound l (lc_bound l) (lc_starting l) (if uncertain then true else lc_uncertain l)
              (match err with None => Some candidate | Some _ => lc_deferral l end) in
  let s1 := set_life s (set_phase_flags l1 (lc_preparing l1) (lc_committed l1) (lc_pending l1 - 1)) in
  changedLocked (if uncertain then close_gate s1 else s1).
Definition AttemptUpdate_end (s : Runtime) (result : UpdateAttemptResult) (candidate : UpdateDeferral) (id : string) (now : Time)
  (err : option error) : Runtime * (UpdateAttemptResult * option error) :=
  let s1 := finishUpdateLocked s candidate err in
  let result := mkAttemptResult (ur_target result) (updateStatusLocked s1 now) (ur_notice result) (ur_preview result) in
  if bool_decide (err = None) && us_quiescent (ur_status result)
  then let '(s2, binding) := emptyUpdatePreviewLocked s1 id in (s2, (set_ur_preview result binding, err))
  else (s1, (result, err)).

(** [PublishDueUpdateNotice] answers at once, or has a candidate to save. *)
Inductive NoticeEntry := NoticeAnswered (err : option error) | NoticeSaving (candidate : UpdateDeferral).
Definition PublishDueUpdateNotice_enter (j : JournalKind) (s : Runtime) (ctx : option error) (clock : Time) : Runtime * NoticeEntry :=
  match ctx with
  | Some e => (s, NoticeAnswered (Some (Wrap "publish update notice: %w" [] e)))
  | None =>
      let now := clock_now clock in
      if IsZero now then (s, NoticeAnswered (Some ErrInvalid))
      else
        match updateRepositoryLocked j s with
        | Some e => (s, NoticeAnswered (Some e))
        | None =>
            match lc_deferral (ow_life s) with
            | None => (s, NoticeAnswered None)
            | Some d =>
                if ud_notified d || negb (Overdue24h d now) then (s, NoticeAnswered None)
                else if exhausted s then (s, NoticeAnswered (Some ErrLimit))
                else if updateMetadataBusyLocked s then (s, NoticeAnswered (Some ErrRuntimeBusy))
                else match UpdateDeferralFrom d with
                     | Err e => (s, NoticeAnswered (Some (Wrap "restore continuous update notice: %w" [] e)))
                     | Ok d => (begin_lifecycle s, NoticeSaving (fst (Notice d now UpdateStatus)))
                     end
            end
        end
  end.
Definition PublishDueUpdateNotice_end (s : Runtime) (candidate : UpdateDeferral) (err : option error) : Runtime * option error :=
  (finishUpdateLocked s candidate err, err).

(** ** The clients' checks *)

Record ShutdownPageRequest := mkShutdownPageRequest { hq_binding : ShutdownBindingState; hq_cursor : string; hq_offset : Z }.
(** [pp_runs] is [None] for a nil slice. *)
Record ShutdownPreviewPage := mkPreviewPage {
  pp_binding : ShutdownBindingState; pp_offset : Z; pp_runs : option (list ShutdownPreviewRun); pp_next : string }.
Record ShutdownPlan := mkPlan { sn_binding : ShutdownBindingState; sn_runs : list ShutdownPreviewRun }.

(** The loop over the runs of a page: the last run, if they are valid, of the
    epoch and in order. *)
Fixpoint page_rows (epoch previous : string) (rows : list ShutdownPreviewRun) : option string :=
  match rows with
  | [] => Some previous
  | r :: rest =>
      if negb (ShutdownPreviewRun_Valid r) || (li_epoch (ol_identity (pv_selection r)) <>?s epoch)
         || (previous <>?s "") && String.leb (pv_run r) previous
      then None else page_rows epoch (pv_run r) rest
  end.
Definition ShutdownPreviewPage_Valid (p : ShutdownPreviewPage) : bool :=
  let b := pp_binding p in
  is_ok (ShutdownBindingFrom b) &&
  match pp_runs p with
  | None => false
  | Some runs =>
      if (2 <? llen runs) || (pp_offset p <? 0) || (sd_total b <? pp_offset p) || (sd_total b <? pp_offset p + llen runs) then false
      else
        match page_rows (sd_epoch b) "" runs with
        | None => false
        | Some previous =>
            if pp_next p =?s "" then pp_offset p + llen runs =? sd_total b
            else (0 <? llen runs) && (pp_offset p + llen runs <? sd_total b) && (pp_next p =?s previous)
        end
  end.

Definition ErrRuntimeProtocol : error := Sentinel "invalid local runtime protocol".
Definition ErrRuntimeUnsupported : error := Sentinel "unsupported local runtime protocol or operation".

(** The loop of [ReadShutdownPlan]; [continue] is [client.ShutdownPage]. *)
Fixpoint plan_loop (calls : nat) (continue : ShutdownPageRequest -> result ShutdownPreviewPage) (epoch : string)
  (plan : ShutdownPlan) (page : ShutdownPreviewPage) : result ShutdownPlan :=
  match calls with
  | O => Err ErrRuntimeProtocol
  | S calls =>
      if negb (ShutdownPreviewPage_Valid page) || (sd_epoch (pp_binding page) <>?s epoch)
         || negb (bool_decide (pp_binding page = sn_binding plan)) || negb (pp_offset page =? llen (sn_runs plan))
      then Err ErrRuntimeProtocol
      else
        let plan := mkPlan (sn_binding plan) (sn_runs plan ++ default [] (pp_runs page)) in
        if MaxShutdownPreviewRuns <? llen (sn_runs plan) then Err ErrRuntimeProtocol
        else if pp_next page =?s "" then
          match ShutdownRosterDigest (sn_runs plan) with
          | Err _ => Err ErrRuntimeProtocol
          | Ok digest =>
              if negb (llen (sn_runs plan) =? sd_total (sn_binding plan)) || (digest <>?s sd_roster (sn_binding plan))
              then Err ErrRuntimeProtocol else Ok plan
          end
        else
          match continue (mkShutdownPageRequest (sn_binding plan) (pp_next page) (llen (sn_runs plan))) with
          | Err e => Err (Wrap "continue shutdown preview: %w" [] e)
          | Ok page => plan_loop calls continue epoch plan page
          end
  end.
(** [client] is nil, or what its calls answer. *)
Record LifecycleClient := mkLifecycleClient {
  cl_preview : result ShutdownPreviewPage; cl_page : ShutdownPageRequest -> result ShutdownPreviewPage }.
Definition ReadShutdownPlan (client : option LifecycleClient) (epoch : string) : result ShutdownPlan :=
  if negb (LaunchIdentity_Valid (mkLaunchIdentity epoch epoch epoch)) then Err ErrRuntimeProtocol
  else
    match client with
    | None => Err ErrRuntimeUnsupported
    | Some c =>
        match cl_preview c with
        | Err e => Err (Wrap "read shutdown preview: %w" [] e)
        | Ok page => plan_loop (Z.to_nat (MaxShutdownPreviewRuns + 1)) (cl_page c) epoch (mkPlan (pp_binding page) []) page
        end
    end.

Definition UpdateAttemptRequest_Valid (epoch : string) (target : UpdateTarget) : bool :=
  LaunchIdentity_Valid (mkLaunchIdentity epoch epoch epoch) && UpdateTarget_valid target.
(** [slices.Index]. *)
Fixpoint index_of (name : string) (l : list string) : Z :=
  match l with
  | [] => -1
  | x :: rest => if x =?s name then 0 else let i := index_of name rest in if i <? 0 then -1 else i + 1
  end.
Fixpoint blockers_ordered (last : Z) (blockers : list string) : bool :=
  match blockers with
  | [] => true
  | b :: rest => let index := index_of b updateBlockerOrder in if index <=? last then false else blockers_ordered index rest
  end.
Definition UpdateStatus_Valid (s : UpdateStatusView) : bool :=
  LaunchIdentity_Valid (mkLaunchIdentity (us_epoch s) (us_epoch s) (us_epoch s)) &&
  match us_blockers s with
  | None => false
  | Some blockers =>
      if (llen updateBlockerOrder <? llen blockers) || negb (bool_decide (us_quiescent s = (llen blockers =? 0))) then false
      else if negb (blockers_ordered (-1) blockers) then false
      else
        match us_deferral s with
        | None => negb (us_overdue s)
        | Some d => is_ok (UpdateDeferralFrom d) && (0 <=? Year (ud_started d)) && (Year (ud_started d) <=? 9999)
        end
  end.
Definition UpdateAttemptResult_Valid (r : UpdateAttemptResult) : bool :=
  if negb (UpdateTarget_valid (ur_target r)) || negb (ur_notice r) || negb (UpdateStatus_Valid (ur_status r)) then false
  else
    match ur_preview r with
    | None => true
    | Some binding =>
        is_ok (ShutdownBindingFrom binding) && us_quiescent (ur_status r) && (sd_epoch binding =?s us_epoch (ur_status r))
        && emptyUpdateBinding binding
    end.
Definition UpdateHandoffRequest_Valid (r : UpdateHandoffRequest) : bool :=
  is_ok (ShutdownBindingFrom (uh_binding r)) && UpdateTarget_valid (uh_target r) && uh_acknowledged r
  && emptyUpdateBinding (uh_binding r).

(** ** The daemon

    The owner's steps, those of the lifecycle coordinators, and those of the
    control coordinator, which changes its counter.  [dm_shutdowns] holds the
    goroutines of shutdowns by their ticket, [dm_updates] the candidates whose
    metadata is being written, [dm_starting] whether [RecordEpochStart] is
    under way.  [dm_log] records the durable reservations, the commits and the
    terminals that were closed. *)
Inductive LifeEvent :=
| ShutdownReserved (ticket : nat)
| ShutdownCommitted (ticket : nat) (work : ShutdownWork)
| CloseCalled (run : nat) (err : option error)
| HandoffRetired (target : UpdateTarget).

Record Daemon := mkDaemon {
  dm_sys : System; dm_shutdowns : gmap nat (ShutdownWork * SWorker); dm_updates : list UpdateDeferral; dm_starting : bool;
  dm_log : list LifeEvent }.
Definition dm_rt (d : Daemon) : Runtime := ys_rt (dm_sys d).
Definition dm_life (d : Daemon) : LifecycleState := ow_life (dm_rt d).
Definition put_rt (d : Daemon) (s : Runtime) : Daemon :=
  mkDaemon (with_rt (dm_sys d) s) (dm_shutdowns d) (dm_updates d) (dm_starting d) (dm_log d).

Definition shutdown_events (j : JournalKind) (a : nat) (t : shutdownTicket) (work : ShutdownWork) (w : SWorker) (n : ShutdownAnswers)
  : list LifeEvent :=
  match w with
  | SReserve => match ha_reserve n with None => [ShutdownReserved a] | Some _ => [] end
  | SCommit => [ShutdownCommitted a work]
  | SClose => map (fun child => CloseCalled (fst child) (ha_close n (fst child))) (wk_children work)
  | SFinish result None _ => if bool_decide (ht_purpose t = shutdownUpdate) && (sh_outcome result =?s ShutdownDraining)
                             then [HandoffRetired (ht_target t)] else []
  | _ => []
  end.
Definition shutdown_next (w : SWorker) : option SWorker := match w with SDone => None | _ => Some w end.

Definition do_confirm (j : JournalKind) (closing : nat -> bool) (d : Daemon) (ctx : option error) (request : ShutdownConfirmation)
  (purpose : shutdownPurpose) (target : UpdateTarget) : Daemon :=
  let '(s, entry) := confirmShutdown j closing (dm_rt d) ctx request purpose target in
  let d1 := put_rt d s in
  match entry with
  | ConfirmStarted a work =>
      mkDaemon (dm_sys d1) (<[a := (work, SCheck (wk_children work))]> (dm_shutdowns d1)) (dm_updates d1) (dm_starting d1) (dm_log d1)
  | _ => d1
  end.
Definition turn_shutdown (j : JournalKind) (d : Daemon) (a : nat) (n : ShutdownAnswers) : Daemon :=
  match dm_shutdowns d !! a, lc_heap (dm_life d) !! a with
  | Some (work, w), Some t =>
      let '(s, w') := shutdown_turn j (dm_rt d) a t work w n in
      mkDaemon (with_rt (dm_sys d) s) (go_on a (option_map (pair work) (shutdown_next w')) (dm_shutdowns d)) (dm_updates d)
        (dm_starting d) (shutdown_events j a t work w n ++ dm_log d)
  | _, _ => d
  end.
Definition do_initialize (j : JournalKind) (d : Daemon) : Daemon :=
  let '(s, err) := InitializeLifecycle_enter j (dm_rt d) in
  let d1 := put_rt d s in
  match err with
  | None => mkDaemon (dm_sys d1) (dm_shutdowns d1) (dm_updates d1) true (dm_log d1)
  | Some _ => d1
  end.
Definition end_initialize (d : Daemon) (answer : result LifecycleSnapshot) : Daemon :=
  if dm_starting d then
    let d1 := put_rt d (fst (InitializeLifecycle_end (dm_rt d) answer)) in
    mkDaemon (dm_sys d1) (dm_shutdowns d1) (dm_updates d1) false (dm_log d1)
  else d.
Definition begin_update (d : Daemon) (s : Runtime) (candidate : UpdateDeferral) : Daemon :=
  let d1 := put_rt d s in mkDaemon (dm_sys d1) (dm_shutdowns d1) (candidate :: dm_updates d1) (dm_starting d1) (dm_log d1).
Definition do_attempt (j : JournalKind) (d : Daemon) (ctx : option error) (clock : Time) (target : UpdateTarget)
  (random : option (list ascii)) : Daemon :=
  match AttemptUpdate_enter j (dm_rt d) ctx clock target random with
  | (s, AttemptSaving _ candidate _ _) => begin_update d s candidate
  | (s, _) => put_rt d s
  end.
Definition do_notice (j : JournalKind) (d : Daemon) (ctx : option error) (clock : Time) : Daemon :=
  match PublishDueUpdateNotice_enter j (dm_rt d) ctx clock with
  | (s, NoticeSaving candidate) => begin_update d s candidate
  | (s, NoticeAnswered _) => put_rt d s
  end.
(** The section that ends an update; an attempt then may leave a preview. *)
Definition end_update (d : Daemon) (result : option (UpdateAttemptResult * string * Time)) (err : option error) : Daemon :=
  match dm_updates d with
  | [] => d
  | candidate :: rest =>
      let s := match result with
               | Some (r, id, now) => fst (AttemptUpdate_end (dm_rt d) r candidate id now err)
               | None => fst (PublishDueUpdateNotice_end (dm_rt d) candidate err)
               end in
      let d1 := put_rt d s in mkDaemon (dm_sys d1) (dm_shutdowns d1) rest (dm_starting d1) (dm_log d1)
  end.
Definition set_controls (s : Runtime) (n : Z) : Runtime :=
  changedLocked (mkRuntime (ow_epoch s) (ow_tickets s) (ow_launches s) (ow_resumes s) (ow_attempts s) (ow_runs s) (ow_owned s)
    (ow_pending s) (ow_active s) n (ow_disabled s) (ow_revision s) (ow_revisionExhausted s) (ow_life s)).

Inductive daemon_step : Daemon -> Daemon -> Prop :=
| dn_own d y : own_step (dm_sys d) y -> daemon_step d (mkDaemon y (dm_shutdowns d) (dm_updates d) (dm_starting d) (dm_log d))
| dn_controls d n : daemon_step d (put_rt d (set_controls (dm_rt d) n))
| dn_preview d ctx random : daemon_step d (put_rt d (fst (PreviewShutdown (dm_rt d) ctx random)))
| dn_cancel d binding : daemon_step d (put_rt d (fst (CancelShutdown (dm_rt d) binding)))
| dn_confirm j closing d ctx request purpose target : daemon_step d (do_confirm j closing d ctx request purpose target)
| dn_shutdown j d a n : daemon_step d (turn_shutdown j d a n)
| dn_initialize j d : daemon_step d (do_initialize j d)
| dn_initialized d answer : daemon_step d (end_initialize d answer)
| dn_attempt j d ctx clock target random : daemon_step d (do_attempt j d ctx clock target random)
| dn_notice j d ctx clock : daemon_step d (do_notice j d ctx clock)
| dn_updated d result err : daemon_step d (end_update d result err).

Definition new_daemon (s : Runtime) : Daemon := mkDaemon (new_system s) ∅ [] false [].
