(* ===== verification/OwnerFrame.v ===== *)
(** * What the owner's steps change

    Lemmas about the steps of [Owner.v] that the coordinators of the lifecycle
    rely on ([Handover.v]): they leave the lifecycle fields alone, admit
    nothing while admission is closed, never bring a run back to life, and
    what changes the list of runs moves the revision or is still pending. *)

From S2P Require Import Prelude GoStrings GoTime RuntimeValues Launch Control Lifecycle Recovery Output OutputCapture Owner Ownership.

(** ** What the owner's steps do to the runtime *)

Definition next_revision (r : Z) : Z := if r =? MaxUint64 then r else u64 (r + 1).
Definition bumped (s s' : Runtime) : Prop := ow_revision s' = next_revision (ow_revision s).

Lemma changed_next_revision s : ow_revision (changedLocked s) = next_revision (ow_revision s).
Proof. unfold changedLocked, next_revision. by case_match. Qed.
Lemma changed_disabled s : ow_disabled s = true -> ow_disabled (changedLocked s) = true.
Proof. unfold changedLocked. by case_match. Qed.
Lemma changed_life s : ow_life (changedLocked s) = ow_life s.
Proof. unfold changedLocked. by case_match. Qed.
Lemma changed_controls s : ow_controls (changedLocked s) = ow_controls s.
Proof. unfold changedLocked. by case_match. Qed.
Lemma changed_pending s : ow_pending (changedLocked s) = ow_pending s.
Proof. apply (changed_outside s). Qed.
Lemma changed_runs s : ow_runs (changedLocked s) = ow_runs s.
Proof. apply (changed_outside s). Qed.
Lemma changed_owned s : ow_owned (changedLocked s) = ow_owned s.
Proof. apply (changed_outside s). Qed.
Lemma changed_epoch s : ow_epoch (changedLocked s) = ow_epoch s.
Proof. apply (changed_outside s). Qed.
Create Rewrite HintDb changed.
#[export] Hint Rewrite changed_next_revision changed_life changed_controls changed_pending changed_runs changed_owned changed_epoch
  changed_launches changed_attempts : changed.

(** The runs that are owned: none appears, and none comes back to life. *)
Definition run_follows (run run' : ownedRun) : Prop :=
  rn_identity (or_descriptor run') = rn_identity (or_descriptor run) /\
  (rn_state (or_descriptor run) = RunExited -> rn_state (or_descriptor run') = RunExited).
Definition runs_follow (s s' : Runtime) : Prop :=
  ow_runs s' = ow_runs s /\ forall r, option_Forall2 run_follows (ow_owned s !! r) (ow_owned s' !! r).
(** A run that appears, under its own id. *)
Definition attached (s s' : Runtime) : Prop :=
  exists r run, ow_owned s !! r = None /\ ow_owned s' = <[r := run]> (ow_owned s) /\
    ow_runs s' = <[li_run (rn_identity (or_descriptor run)) := r]> (ow_runs s).

Record effects (s s' : Runtime) (attaches : Prop) : Prop := {
  ef_life : ow_life s' = ow_life s;
  ef_controls : ow_controls s' = ow_controls s;
  ef_epoch : ow_epoch s' = ow_epoch s;
  ef_disabled : ow_disabled s = true -> ow_disabled s' = true;
  ef_pending : ow_pending s' <= ow_pending s;
  ef_runs : attaches /\ attached s s' \/ runs_follow s s' }.

Lemma run_follows_refl run : run_follows run run.
Proof. done. Qed.
Lemma owned_follow_refl (o : option ownedRun) : option_Forall2 run_follows o o.
Proof. destruct o; by constructor. Qed.
Lemma runs_follow_refl s : runs_follow s s.
Proof. split; [done|]. intros r. apply owned_follow_refl. Qed.
Lemma runs_follow_put s s' r run run' :
  ow_runs s' = ow_runs s -> ow_owned s' = <[r := run']> (ow_owned s) -> ow_owned s !! r = Some run -> run_follows run run' ->
  runs_follow s s'.
Proof.
  intros E1 E2 Hr Hf. split; [done|]. intros q. rewrite E2, lookup_insert. case_decide as E; [|apply owned_follow_refl].
  subst q. rewrite Hr. by constructor.
Qed.
Lemma runs_follow_same s s' : ow_runs s' = ow_runs s -> ow_owned s' = ow_owned s -> runs_follow s s'.
Proof. intros E1 E2. split; [done|]. intros r. rewrite E2. apply owned_follow_refl. Qed.
Lemma effects_refl s P : effects s s P.
Proof. split; auto using runs_follow_refl. lia. Qed.

Lemma markUncertain_follows run : run_follows run (markUncertain run).
Proof. done. Qed.
Lemma publish_follows run : run_follows run (publish run).
Proof. done. Qed.
Lemma run_follows_trans r1 r2 r3 : run_follows r1 r2 -> run_follows r2 r3 -> run_follows r1 r3.
Proof. intros [E1 H1] [E2 H2]. split; [congruence|auto]. Qed.
Lemma Exit_follows d code : rn_identity (fst (Exit d code)) = rn_identity d /\ (rn_state d = RunExited -> rn_state (fst (Exit d code)) = RunExited).
Proof. unfold Exit. repeat case_match; done. Qed.

(** A section that ends in [changedLocked] has these effects if its
    assignments do. *)
Ltac effect := split; cbn -[changedLocked]; autorewrite with changed; cbn -[changedLocked];
  autorewrite with changed; cbn -[changedLocked]; try done; try lia;
  try (intros ?; apply changed_disabled; done).

Lemma launch_turn_effects s a t w n :
  let s' := fst (launch_turn s a t w n) in
  effects s s' (exists d child, w = LAttach d child) /\
  (bumped s s' \/ s' = s \/ exists e, w = LFail e /\ ow_revision s' = ow_revision s /\ ow_pending s' = ow_pending s).
Proof.
  destruct w; cbn -[launch_commit launch_attach launch_publish launch_fail fail_end]; try by eauto using effects_refl.
  - unfold launch_commit. case_match; cbn -[changedLocked]; [eauto using effects_refl|]. split.
    + effect. right. by apply runs_follow_same; autorewrite with changed.
    + left. unfold bumped. by autorewrite with changed.
  - unfold launch_attach. destruct (own_child d child) as [d' bad]. cbn -[changedLocked]. split.
    + effect. left. split; [by eauto|]. do 2 eexists. cbn -[changedLocked]. autorewrite with changed. cbn. split_and!; [apply fresh_lookup|done|done].
    + left. unfold bumped. cbn -[changedLocked]. by autorewrite with changed.
  - destruct (ow_owned s !! run) as [o|] eqn:Ho; [|cbn; eauto using effects_refl]. unfold launch_publish. cbn -[changedLocked]. split.
    + effect. right. eapply (runs_follow_put _ _ run o); autorewrite with changed; [done|done|done|].
      destruct bad; [apply markUncertain_follows|apply publish_follows].
    + left. unfold bumped. by autorewrite with changed.
  - unfold launch_fail, fail_end.
    assert (Hsame : forall s1, ow_runs s1 = ow_runs s -> ow_owned s1 = ow_owned s -> (exists d child, LFail e = LAttach d child) /\ attached s s1 \/ runs_follow s s1)
      by (intros; right; by apply runs_follow_same).
    destruct (lt_starting t), (errors_is e launch_unknown), (lt_abandoned t); cbn -[changedLocked];
      (split; [effect; apply Hsame; by autorewrite with changed|]);
      first [left; unfold bumped; by autorewrite with changed | right; right; by exists e].
  - unfold fail_end. split; [effect; right; by apply runs_follow_same; autorewrite with changed|].
    left. unfold bumped. by autorewrite with changed.
Qed.

Lemma resume_turn_effects s a t w n :
  let s' := fst (resume_turn s a t w n) in
  effects s s' (exists d attempt child e, w = RAttach d attempt child e) /\ (bumped s s' \/ s' = s).
Proof.
  destruct w; cbn -[resume_commit resume_intent resume_attach resume_started resume_publish completeResume]; try by eauto using effects_refl.
  - unfold resume_commit. case_match; cbn -[changedLocked]; [eauto using effects_refl|]. split.
    + effect. right. by apply runs_follow_same; autorewrite with changed.
    + left. unfold bumped. by autorewrite with changed.
  - unfold resume_intent. cbn -[changedLocked]. split.
    + effect. right. by apply runs_follow_same; autorewrite with changed.
    + left. unfold bumped. by autorewrite with changed.
  - unfold resume_attach. destruct (own_child d child) as [d' bad]. cbn -[changedLocked]. split.
    + effect. left. split; [by eauto 6|]. do 2 eexists. cbn -[changedLocked]. autorewrite with changed. cbn. split_and!; [apply fresh_lookup|done|done].
    + left. unfold bumped. cbn -[changedLocked]. by autorewrite with changed.
  - unfold resume_started. cbn -[changedLocked]. split.
    + effect. right. by apply runs_follow_same; autorewrite with changed.
    + left. unfold bumped. by autorewrite with changed.
  - destruct (ow_owned s !! run) as [o|] eqn:Ho; [|cbn; eauto using effects_refl]. unfold resume_publish. cbn -[changedLocked]. split.
    + effect. right. eapply (runs_follow_put _ _ run o); autorewrite with changed; [done|done|done|].
      destruct bad; [apply markUncertain_follows|apply publish_follows].
    + left. unfold bumped. by autorewrite with changed.
  - unfold completeResume. split; [|left; unfold bumped; autorewrite with changed; by case_match].
    destruct (negb (st_attached t) && negb possibleChild); effect; right; by apply runs_follow_same; autorewrite with changed.
Qed.

Lemma exit_turn_effects s r run w n :
  ow_owned s !! r = Some run -> let s' := fst (exit_turn s r run w n) in effects s s' False /\ (bumped s s' \/ s' = s).
Proof.
  intros Hr. destruct w; cbn -[exit_wait exit_join]; try by eauto using effects_refl.
  - unfold exit_wait. destruct (match xa_wait n with Ok _ => _ | Err _ => _ end) as [d e] eqn:Ed. cbn -[changedLocked]. split.
    + effect. right. eapply (runs_follow_put _ _ r run); autorewrite with changed; [done|done|done|].
      assert (Hx : run_follows run (set_exit run d)).
      { destruct (xa_wait n) as [code|]; [|by injection Ed as <- _]. pose proof (Exit_follows (or_descriptor run) code). rewrite Ed in H. done. }
      by destruct e.
    + left. unfold bumped. by autorewrite with changed.
  - unfold exit_join. cbn -[changedLocked]. split.
    + destruct exitKnown; effect; right; eapply (runs_follow_put _ _ r run); autorewrite with changed; try done; by destruct journalErr.
    + left. unfold bumped. autorewrite with changed. by case_match.
Qed.

(** ** The owner's steps *)

Definition no_call (evs : list Event) : Prop := forall a d, StartCalled a d ∉ evs /\ ResumeCalled a d ∉ evs.

Record own_frame (s s' : Runtime) : Prop := {
  of_life : ow_life s' = ow_life s;
  of_epoch : ow_epoch s' = ow_epoch s;
  of_disabled : ow_disabled s = true -> ow_disabled s' = true;
  of_pending : ow_pending s' <= ow_pending s \/ executionAdmissionClosedLocked s = false;
  of_runs : 0 < ow_pending s /\ attached s s' \/ runs_follow s s';
  of_revision : bumped s s' \/
    ow_revision s' = ow_revision s /\ ow_pending s' = ow_pending s /\ (0 < ow_pending s \/ listLocked s' = listLocked s) }.

Lemma omap_same {A B} (f g : A -> option B) (l : list A) : (forall x, f x = g x) -> omap f l = omap g l.
Proof. intros H. induction l as [|x l IH]; [done|]. cbn. by rewrite H, IH. Qed.
Lemma listed_touch_launch s a t t' :
  ow_launches s !! a = Some t -> launch_like t t' -> listLocked (put_launch s a t') = listLocked s.
Proof.
  intros Ht (_ & Es & Ec & _ & Er & _ & Ed). unfold listLocked, run_entries. f_equal. f_equal. f_equal. apply omap_same.
  intros [id b]. cbn. rewrite lookup_insert. case_decide as E; [|done]. subst b. rewrite Ht.
  unfold launch_snapshot. by rewrite Es, Ec, Er, Ed.
Qed.
Lemma listed_touch_attempt s a t t' :
  ow_attempts s !! a = Some t -> resume_like t t' -> listLocked (put_attempt s a t') = listLocked s.
Proof.
  intros Ht (_ & Es & Ec & Ea & _ & _ & Ed & Ep). unfold listLocked, run_entries. f_equal. f_equal. f_equal. apply omap_same.
  intros [id b]. cbn. rewrite lookup_insert. case_decide as E; [|done]. subst b. rewrite Ht.
  unfold resume_snapshot. by rewrite Es, Ec, Ea, Ed, Ep.
Qed.
Lemma own_frame_refl s : own_frame s s.
Proof. split; auto using runs_follow_refl; lia. Qed.
Lemma frame_touch_launch s a t t' : ow_launches s !! a = Some t -> launch_like t t' -> own_frame s (put_launch s a t').
Proof. intros Ht Hl. split; cbn; auto with lia; [by right; apply runs_follow_same|]. right. do 2 (split; [done|]). right. by apply (listed_touch_launch s a t). Qed.
Lemma frame_touch_attempt s a t t' : ow_attempts s !! a = Some t -> resume_like t t' -> own_frame s (put_attempt s a t').
Proof. intros Ht Hl. split; cbn; auto with lia; [by right; apply runs_follow_same|]. right. do 2 (split; [done|]). right. by apply (listed_touch_attempt s a t). Qed.
Lemma frame_effects s s' (P : Prop) :
  effects s s' P -> (P -> 0 < ow_pending s) -> bumped s s' \/ s' = s \/ 0 < ow_pending s /\ ow_revision s' = ow_revision s /\ ow_pending s' = ow_pending s ->
  own_frame s s'.
Proof.
  intros [H1 H2 H3 H4 H5 H6] HP Hb. split; auto.
  - destruct H6 as [[]|]; auto.
  - destruct Hb as [Hb|[->|(Hp & Hr & Hpp)]]; auto.
Qed.

Lemma holder_pending {W} (holds : W -> bool) (ws : gmap nat W) a w : ws !! a = Some w -> holds w = true -> 0 < mcount holds ws.
Proof.
  intros Hw Hh. pose proof (mcount_delete holds ws a w Hw) as E. pose proof (mcount_nonneg holds (delete a ws)).
  rewrite Hh in E. unfold b2z in E. lia.
Qed.
Lemma launch_holder y a w : system_ok y -> ys_launch y !! a = Some w -> lholds w = true -> 0 < ow_pending (ys_rt y).
Proof.
  intros Hy Hw Hh. rewrite (so_pending _ Hy). pose proof (holder_pending lholds _ _ _ Hw Hh).
  pose proof (mcount_nonneg rholds (ys_resume y)). pose proof (events_nonneg is_uncertain (ys_log y)). lia.
Qed.
Lemma resume_holder y a w : system_ok y -> ys_resume y !! a = Some w -> rholds w = true -> 0 < ow_pending (ys_rt y).
Proof.
  intros Hy Hw Hh. rewrite (so_pending _ Hy). pose proof (holder_pending rholds _ _ _ Hw Hh).
  pose proof (mcount_nonneg lholds (ys_launch y)). pose proof (events_nonneg is_uncertain (ys_log y)). lia.
Qed.
Lemma pending_nonneg y : system_ok y -> 0 <= ow_pending (ys_rt y).
Proof.
  intros Hy. rewrite (so_pending _ Hy). pose proof (mcount_nonneg lholds (ys_launch y)).
  pose proof (mcount_nonneg rholds (ys_resume y)). pose proof (events_nonneg is_uncertain (ys_log y)). lia.
Qed.

Lemma refusal_open s e : first_err (fails (executionAdmissionClosedLocked s) ErrRuntimeBusy :: e) = None -> executionAdmissionClosedLocked s = false.
Proof. cbn. by destruct (executionAdmissionClosedLocked s). Qed.
Lemma frame_new s s1 :
  executionAdmissionClosedLocked s = false -> ow_life s1 = ow_life s -> ow_epoch s1 = ow_epoch s -> ow_disabled s1 = ow_disabled s ->
  ow_revision s1 = ow_revision s -> ow_runs s1 = ow_runs s -> ow_owned s1 = ow_owned s -> own_frame s (changedLocked s1).
Proof.
  intros Ho E1 E2 E3 E4 E5 E6. split; autorewrite with changed; auto.
  - intros Hd. apply changed_disabled. congruence.
  - right. by apply runs_follow_same; autorewrite with changed.
  - left. unfold bumped. by autorewrite with changed; rewrite E4.
Qed.

Lemma enter_launch_frame y ctx request : own_frame (ys_rt y) (ys_rt (enter_launch y ctx request)).
Proof.
  unfold enter_launch, Launch_enter. destruct ctx; [apply own_frame_refl|]. destruct (negb (_ =? _)%string); [apply own_frame_refl|].
  destruct (validLaunchRequest request); cbn [negb]; [|apply own_frame_refl].
  destruct (ow_tickets (ys_rt y) !! lq_request request) as [a|].
  - destruct (ow_launches (ys_rt y) !! a) as [t|] eqn:Ht; [|apply own_frame_refl]. destruct (negb _); [apply own_frame_refl|].
    by apply (frame_touch_launch _ a t).
  - destruct (launch_refusal (ys_rt y)) eqn:Er; [apply own_frame_refl|]. cbn -[changedLocked]. apply frame_new; try done.
    unfold launch_refusal in Er. cbn in Er. repeat case_match; try done. by destruct (executionAdmissionClosedLocked (ys_rt y)).
Qed.
Lemma enter_resume_frame y journal ctx request : own_frame (ys_rt y) (ys_rt (enter_resume y journal ctx request)).
Proof.
  unfold enter_resume, Resume_enter. destruct ctx; [apply own_frame_refl|]. destruct (negb (_ =? _)%string); [apply own_frame_refl|].
  destruct (ResumeRequest_Valid request), journal; cbn [negb]; try apply own_frame_refl.
  destruct (ow_resumes (ys_rt y) !! sq_request request) as [a|].
  - destruct (ow_attempts (ys_rt y) !! a) as [t|] eqn:Ht; [|apply own_frame_refl]. destruct (negb _); [apply own_frame_refl|].
    by apply (frame_touch_attempt _ a t).
  - destruct (resume_refusal (ys_rt y)) eqn:Er; [apply own_frame_refl|]. cbn -[changedLocked]. apply frame_new; try done.
    unfold resume_refusal in Er. by apply refusal_open in Er.
Qed.
Lemma leave_launch_frame y a ctx : own_frame (ys_rt y) (ys_rt (leave_launch y a ctx)).
Proof.
  unfold leave_launch, Launch_cancelled. destruct (ow_launches (ys_rt y) !! a) as [t|] eqn:Ht; [|apply own_frame_refl].
  repeat case_match; cbn; try apply own_frame_refl; by apply (frame_touch_launch _ a t).
Qed.
Lemma leave_resume_frame y a ctx : own_frame (ys_rt y) (ys_rt (leave_resume y a ctx)).
Proof.
  unfold leave_resume, Resume_cancelled. destruct (ow_attempts (ys_rt y) !! a) as [t|] eqn:Ht; [|apply own_frame_refl].
  repeat case_match; cbn; try apply own_frame_refl; by apply (frame_touch_attempt _ a t).
Qed.
Lemma turn_launch_frame y a n : system_ok y -> own_frame (ys_rt y) (ys_rt (turn_launch y a n)).
Proof.
  intros Hy. unfold turn_launch. destruct (ys_launch y !! a) as [w|] eqn:Hw; [|apply own_frame_refl].
  destruct (ow_launches (ys_rt y) !! a) as [t|]; [|apply own_frame_refl].
  pose proof (launch_turn_effects (ys_rt y) a t w n) as [He Hb]. destruct (launch_turn _ _ _ _ _) as [s' w']. cbn in *.
  apply (frame_effects _ _ _ He).
  - intros (d & child & ->). by apply (launch_holder _ _ _ Hy Hw).
  - destruct Hb as [Hb|[->|(e & -> & Hr)]]; auto. right. right. split; [|done]. by apply (launch_holder _ _ _ Hy Hw).
Qed.
Lemma turn_resume_frame y a n : system_ok y -> own_frame (ys_rt y) (ys_rt (turn_resume y a n)).
Proof.
  intros Hy. unfold turn_resume. destruct (ys_resume y !! a) as [w|] eqn:Hw; [|apply own_frame_refl].
  destruct (ow_attempts (ys_rt y) !! a) as [t|]; [|apply own_frame_refl].
  pose proof (resume_turn_effects (ys_rt y) a t w n) as [He Hb]. destruct (resume_turn _ _ _ _ _) as [s' w']. cbn in *.
  apply (frame_effects _ _ _ He).
  - intros (d & attempt & child & e & ->). by apply (resume_holder _ _ _ Hy Hw).
  - destruct Hb as [Hb|Hb]; auto.
Qed.
Lemma turn_exit_frame y r n : own_frame (ys_rt y) (ys_rt (turn_exit y r n)).
Proof.
  unfold turn_exit. destruct (ys_exit y !! r) as [w|]; [|apply own_frame_refl].
  destruct (ow_owned (ys_rt y) !! r) as [run|] eqn:Hr; [|apply own_frame_refl].
  pose proof (exit_turn_effects (ys_rt y) r run w n Hr) as [He Hb]. destruct (exit_turn _ _ _ _ _) as [s' w']. cbn in *.
  apply (frame_effects _ _ _ He); [done|]. destruct Hb; auto.
Qed.

Lemma own_step_frame y y' : system_ok y -> own_step y y' -> own_frame (ys_rt y) (ys_rt y').
Proof.
  intros Hy Hs. destruct Hs; auto using enter_launch_frame, enter_resume_frame, leave_launch_frame, leave_resume_frame,
    turn_launch_frame, turn_resume_frame, turn_exit_frame.
  unfold DisableLaunches. cbn. case_match; [|apply own_frame_refl]. split; autorewrite with changed; auto; cbn; try lia.
  - intros _. by apply changed_disabled.
  - right. by apply runs_follow_same; autorewrite with changed.
  - left. unfold bumped. by autorewrite with changed.
Qed.

Lemma own_step_log y y' : system_ok y -> own_step y y' ->
  exists evs, ys_log y' = evs ++ ys_log y /\ (0 < ow_pending (ys_rt y) \/ no_call evs).
Proof.
  intros Hy Hs.
  assert (Hnil : no_call []) by (intros a d; by split; intros ?%elem_of_nil).
  assert (Hsame : forall z, ys_log z = ys_log y -> exists evs, ys_log z = evs ++ ys_log y /\ (0 < ow_pending (ys_rt y) \/ no_call evs))
    by (intros z ->; exists []; auto).
  destruct Hs; try (apply Hsame; done).
  - apply Hsame. unfold enter_launch. by destruct (Launch_enter _ _ _).
  - apply Hsame. unfold enter_resume. by destruct (Resume_enter _ _ _ _).
  - apply Hsame. unfold leave_launch. by repeat case_match.
  - apply Hsame. unfold leave_resume. by repeat case_match.
  - unfold turn_launch. destruct (ys_launch y !! a) as [w|] eqn:Hw; [|by apply Hsame].
    destruct (ow_launches (ys_rt y) !! a) as [t|]; [|by apply Hsame].
    destruct (launch_turn _ _ _ _ _) as [s' w']. exists (launch_events a t w n). split; [done|].
    destruct (lholds w) eqn:Eh; [left; by apply (launch_holder _ _ _ Hy Hw)|right]. by destruct w.
  - unfold turn_resume. destruct (ys_resume y !! a) as [w|] eqn:Hw; [|by apply Hsame].
    destruct (ow_attempts (ys_rt y) !! a) as [t|]; [|by apply Hsame].
    destruct (resume_turn _ _ _ _ _) as [s' w']. exists (resume_events a t w n). split; [done|].
    destruct (rholds w) eqn:Eh; [left; by apply (resume_holder _ _ _ Hy Hw)|right].
    intros b d. destruct w; cbn; try done; repeat case_match; try done; split;
      first [by intros ?%elem_of_nil | by intros ?%list_elem_of_singleton].
  - unfold turn_exit. destruct (ys_exit y !! r) as [w|]; [|by apply Hsame]. destruct (ow_owned (ys_rt y) !! r) as [run|]; [|by apply Hsame].
    destruct (exit_turn _ _ _ _ _) as [s' w']. exists (exit_events run w n). split; [done|]. right.
    intros b d. unfold exit_events. rewrite !not_elem_of_app. repeat case_match; split_and!;
      first [by intros ?%elem_of_nil | by intros ?%list_elem_of_singleton].
Qed.
