(* ===== verification/Handover.v ===== *)
(** * Shutting the owner down

    The theorems about the coordinators of [Shutdown.v] together with the
    owner of [Owner.v].  The runtime has one mutex but many goroutines: a
    confirmed plan is still the whole truth when it is carried out, because a
    change of the roster moves the revision, a confirmed plan leaves nothing
    pending, and admission stays closed from the confirmation on. *)

From S2P Require Import Prelude GoStrings GoTime Sha256 RuntimeValues Launch Control Lifecycle Recovery Output OutputCapture.
From S2P Require Import Owner Ownership Shutdown OwnerFrame RunPages.

(** ** The invariant *)

Definition alive (run : ownedRun) : Prop := rn_state (or_descriptor run) <> RunExited.
(** A run is filed under its id. *)
Definition keyed (s : Runtime) : Prop :=
  forall id r, ow_runs s !! id = Some r -> exists run, ow_owned s !! r = Some run /\ li_run (rn_identity (or_descriptor run)) = id.
(** A plan has every run that is alive. *)
Definition covers (s : Runtime) (work : ShutdownWork) : Prop :=
  forall id r run, ow_runs s !! id = Some r -> ow_owned s !! r = Some run -> alive run ->
    exists snapshot, (r, snapshot) ∈ wk_children work /\ rn_identity snapshot = rn_identity (or_descriptor run).
(** A preview is the roster, unless the revision moved or work is pending. *)
Definition preview_ok (s : Runtime) (p : ShutdownPreview) : Prop :=
  sd_revision (sp_binding p) < MaxUint64 /\ sd_revision (sp_binding p) <= ow_revision s /\
  (sd_revision (sp_binding p) = ow_revision s -> ow_pending s = 0 -> sp_runs p = shutdownRosterLocked s).

Definition commits (log : list LifeEvent) : Prop := exists a work, ShutdownCommitted a work ∈ log.
Definition life_lawful (e : LifeEvent) (before : list LifeEvent) : Prop :=
  match e with
  | ShutdownCommitted a _ => ShutdownReserved a ∈ before /\ ~ commits before
  | CloseCalled r _ => exists a work snapshot, ShutdownCommitted a work ∈ before /\ (r, snapshot) ∈ wk_children work
  | _ => True
  end.
Fixpoint life_ordered (log : list LifeEvent) : Prop :=
  match log with [] => True | e :: before => life_lawful e before /\ life_ordered before end.

(** Where the goroutine of a shutdown may be. *)
Definition shutdown_at (s : Runtime) (log : list LifeEvent) (a : nat) (work : ShutdownWork) (w : SWorker) : Prop :=
  let l := ow_life s in
  match w with
  | SCheck _ | SDecide | SReserve => lc_committed l = false /\ covers s work
  | SCommit => lc_committed l = false /\ covers s work /\ ShutdownReserved a ∈ log
  | SClose => lc_committed l = true /\ ShutdownCommitted a work ∈ log
  | SSave _ | SFinish _ _ true => lc_committed l = true
  | SFinish _ _ false => lc_committed l = false
  | SDone => False
  end.

Record daemon_ok (d : Daemon) : Prop := {
  do_sys : system_ok (dm_sys d);
  do_keyed : keyed (dm_rt d);
  do_revision : 0 <= ow_revision (dm_rt d) <= MaxUint64;
  do_count : lc_pending (dm_life d) = msize (dm_shutdowns d) + llen (dm_updates d);
  do_single : lc_pending (dm_life d) <= 1;
  do_preparing : lc_preparing (dm_life d) = (0 <? msize (dm_shutdowns d));
  do_starting : lc_starting (dm_life d) = dm_starting d /\ (dm_starting d = true -> lc_pending (dm_life d) = 0 /\ lc_bound (dm_life d) = false);
  do_bound : dm_updates d <> [] -> lc_bound (dm_life d) = true;
  do_frozen : lc_preparing (dm_life d) = true \/ lc_committed (dm_life d) = true -> ow_pending (dm_rt d) = 0;
  do_closed : lc_committed (dm_life d) = true -> ow_disabled (dm_rt d) = true;
  do_preview : forall p, lc_preview (dm_life d) = Some p -> preview_ok (dm_rt d) p;
  do_worker : forall a work w, dm_shutdowns d !! a = Some (work, w) ->
    (exists t, lc_heap (dm_life d) !! a = Some t /\ ht_done t = false) /\ shutdown_at (dm_rt d) (dm_log d) a work w;
  do_committed : lc_committed (dm_life d) = true <-> commits (dm_log d);
  do_covers : forall a work, ShutdownCommitted a work ∈ dm_log d -> covers (dm_rt d) work;
  do_ordered : life_ordered (dm_log d);
  do_open : forall a t, lc_heap (dm_life d) !! a = Some t -> ht_done t = false -> is_Some (dm_shutdowns d !! a) }.

(** ** The revision *)

Lemma next_revision_range r : 0 <= r <= MaxUint64 -> 0 <= next_revision r <= MaxUint64 /\ r <= next_revision r.
Proof.
  intros Hr. unfold next_revision. destruct (r =? MaxUint64) eqn:E; [lia|]. apply Z.eqb_neq in E.
  unfold u64. unfold MaxUint64 in *. rewrite Z.mod_small by lia. lia.
Qed.
Lemma next_revision_moves r p : 0 <= r <= MaxUint64 -> p < MaxUint64 -> p <= r -> p <> next_revision r.
Proof.
  intros Hr Hp Hle. unfold next_revision. destruct (r =? MaxUint64) eqn:E; [lia|]. apply Z.eqb_neq in E.
  unfold u64, MaxUint64 in *. rewrite Z.mod_small by lia. lia.
Qed.

(** What a step must do for previews to stay right. *)
Definition moves (s s' : Runtime) : Prop :=
  bumped s s' \/ ow_revision s' = ow_revision s /\ ow_pending s' = ow_pending s /\ (0 < ow_pending s \/ listLocked s' = listLocked s).

Lemma preview_moves s s' p : 0 <= ow_revision s <= MaxUint64 -> moves s s' -> preview_ok s p -> preview_ok s' p.
Proof.
  intros Hr Hm (H1 & H2 & H3). destruct Hm as [Hb|(Er & Ep & Hl)]; unfold preview_ok.
  - unfold bumped in Hb. rewrite Hb. destruct (next_revision_range _ Hr). pose proof (next_revision_moves _ _ Hr H1 H2).
    split_and!; [done|lia|done].
  - rewrite Er. split_and!; [done|done|]. intros Erev Hp. unfold shutdownRosterLocked. destruct Hl as [Hl|Hl]; [lia|].
    rewrite Hl. apply H3; [done|lia].
Qed.
Lemma moves_range s s' : 0 <= ow_revision s <= MaxUint64 -> moves s s' -> 0 <= ow_revision s' <= MaxUint64.
Proof. intros Hr [Hb|[E _]]; [rewrite Hb; by apply next_revision_range|by rewrite E]. Qed.

(** ** The owner's steps keep it *)

Lemma keyed_follow s s' : keyed s -> runs_follow s s' -> keyed s'.
Proof.
  intros Hk [E Hf] id r. rewrite E. intros (run & Hr & Hid)%Hk. specialize (Hf r). rewrite Hr in Hf.
  inversion Hf as [? run' [Ei _] E1 E2|]; subst. exists run'. split; [done|congruence].
Qed.
Lemma keyed_attached s s' : keyed s -> attached s s' -> keyed s'.
Proof.
  intros Hk (r & run & Hn & Eo & Er) id q. rewrite Er, lookup_insert. case_decide as E.
  - intros [= <-]. exists run. by rewrite Eo, lookup_insert_eq.
  - intros (o & Ho & Hid)%Hk. exists o. rewrite Eo, lookup_insert_ne; [done|congruence].
Qed.
Lemma covers_follow s s' work : covers s work -> runs_follow s s' -> covers s' work.
Proof.
  intros Hc [E Hf] id r run'. rewrite E. intros Hid Hr' Ha. specialize (Hf r). rewrite Hr' in Hf.
  inversion Hf as [run ? [Ei Hs] E1 E2|]; subst. destruct (Hc id r run Hid) as (snapshot & Hin & Es); [done| |].
  - intros Hx. by apply Ha, Hs.
  - exists snapshot. split; [done|congruence].
Qed.
Lemma shutdown_at_covers s s' log a work w :
  shutdown_at s log a work w -> lc_committed (ow_life s') = lc_committed (ow_life s) -> (covers s work -> covers s' work) ->
  shutdown_at s' log a work w.
Proof. intros Hat E Hc. destruct w as [| | | | | |? ? []|]; cbn in *; rewrite ?E; naive_solver. Qed.

Lemma own_daemon_ok d y : daemon_ok d -> own_step (dm_sys d) y ->
  daemon_ok (mkDaemon y (dm_shutdowns d) (dm_updates d) (dm_starting d) (dm_log d)).
Proof.
  intros [H1 H2 H3 H4 H5 H6 H7 H8 H9 H10 H11 H12 H13 H14 H15 H16] Hs.
  pose proof (own_step_frame _ _ H1 Hs) as [E1 E2 E3 E4 E5 E6]. fold (dm_rt d) in *.
  pose proof (step_ok _ _ H1 (os_own _ _ Hs)) as Hy. pose proof (pending_nonneg _ Hy) as Hp.
  assert (Hfrozen : lc_preparing (dm_life d) = true \/ lc_committed (dm_life d) = true -> ow_pending (ys_rt y) = 0 /\ runs_follow (dm_rt d) (ys_rt y)).
  { intros Hc. pose proof (H9 Hc) as Hz. split; [|destruct E5 as [[? _]|]; [lia|done]].
    destruct E4 as [E4|E4]; [lia|]. unfold executionAdmissionClosedLocked in E4. fold (dm_life d) in E4.
    rewrite !orb_false_iff in E4. destruct E4 as [[[_ Ea] Eb] _]. destruct Hc; congruence. }
  split; cbn; unfold dm_life, dm_rt in *; cbn; rewrite ?E1; auto.
  - destruct E5 as [[_ Ha]|Hf]; [by apply (keyed_attached _ _ H2)|by apply (keyed_follow _ _ H2)].
  - by apply (moves_range _ _ H3).
  - intros Hc. by apply Hfrozen.
  - intros p Hpv. by apply (preview_moves _ _ _ H3 E6), H11.
  - intros a work w Hw. destruct (H12 a work w Hw) as [Ht Hat]. split; [done|].
    apply (shutdown_at_covers (ys_rt (dm_sys d))); [done|by rewrite E1|]. intros Hc. apply (covers_follow _ _ _ Hc), Hfrozen. left.
    rewrite H6. apply Z.ltb_lt. pose proof (msize_delete (dm_shutdowns d) a ltac:(by eexists)). pose proof (msize_nonneg (delete a (dm_shutdowns d))). lia.
  - intros a work Hin. apply (covers_follow (ys_rt (dm_sys d))); [by apply (H14 a)|]. apply Hfrozen. right. apply H13. by exists a, work.
Qed.

(** ** The coordinators' sections keep it *)

Lemma listed_outside s s' : outside s s' -> listLocked s' = listLocked s.
Proof.
  intros [_ [El Eh] [Er Ea] [En Eo] _]. unfold listLocked, run_entries, owned_snapshots, launch_snapshot.
  by rewrite El, Eh, Er, Ea, En, Eo.
Qed.
Lemma roster_outside s s' : outside s s' -> shutdownRosterLocked s' = shutdownRosterLocked s.
Proof. intros H. unfold shutdownRosterLocked. by rewrite (listed_outside _ _ H). Qed.
Lemma covers_outside s s' work : outside s s' -> covers s work -> covers s' work.
Proof. intros [_ _ _ [En Eo] _] Hc id r run. rewrite En, Eo. apply Hc. Qed.
Lemma preview_outside s s' p : 0 <= ow_revision s <= MaxUint64 -> outside s s' -> bumped s s' \/ ow_revision s' = ow_revision s ->
  preview_ok s p -> preview_ok s' p.
Proof.
  intros Hr Ho Hm. apply preview_moves; [done|]. destruct Hm as [Hm|E]; [by left|]. right. split; [done|].
  split; [apply (ou_counts _ _ Ho)|]. right. by apply listed_outside.
Qed.

Section life.
Context (d : Daemon) (Hd : daemon_ok d).
Let s := dm_rt d.
Let l := dm_life d.

Lemma life_ok s' sh' up' st' evs :
  outside s s' -> bumped s s' \/ ow_revision s' = ow_revision s ->
  lc_pending (ow_life s') = msize sh' + llen up' -> lc_pending (ow_life s') <= 1 -> lc_preparing (ow_life s') = (0 <? msize sh') ->
  lc_starting (ow_life s') = st' -> (st' = true -> lc_pending (ow_life s') = 0 /\ lc_bound (ow_life s') = false) ->
  (up' <> [] -> lc_bound (ow_life s') = true) ->
  (lc_preparing (ow_life s') = true \/ lc_committed (ow_life s') = true -> ow_pending s = 0) ->
  (lc_committed (ow_life s') = true -> ow_disabled s' = true) ->
  (forall p, lc_preview (ow_life s') = Some p -> lc_preview l = Some p \/ preview_ok s' p) ->
  (forall a work w, sh' !! a = Some (work, w) ->
     (exists t, lc_heap (ow_life s') !! a = Some t /\ ht_done t = false) /\ shutdown_at s' (evs ++ dm_log d) a work w) ->
  (lc_committed (ow_life s') = true <-> commits (evs ++ dm_log d)) ->
  (forall a work, ShutdownCommitted a work ∈ evs -> covers s work) -> life_ordered (evs ++ dm_log d) ->
  (forall a t, lc_heap (ow_life s') !! a = Some t -> ht_done t = false -> is_Some (sh' !! a)) ->
  daemon_ok (mkDaemon (with_rt (dm_sys d) s') sh' up' st' (evs ++ dm_log d)).
Proof using Hd.
  intros Ho Hm Hcount Hsingle Hprep Hst Hst' Hb Hf Hc Hp Hw Hcm Hcv Hord Hop.
  destruct Hd as [H1 H2 H3 H4 H5 H6 H7 H8 H9 H10 H11 H12 H13 H14 H15 H16].
  split; unfold dm_rt, dm_life; cbn; auto.
  - refine (ok_outside _ _ _ _ (ys_exit (dm_sys d)) _ _ Ho _). subst s. unfold dm_rt. by destruct (dm_sys d).
  - intros id r. destruct (ou_runs _ _ Ho) as [-> ->]. apply H2.
  - destruct Hm as [Hm|E]; [rewrite Hm; by apply next_revision_range|by rewrite E].
  - intros Hpc. destruct (ou_counts _ _ Ho) as [-> _]. by apply Hf.
  - intros p Hpp. destruct (Hp p Hpp) as [Hold|]; [|done]. apply (preview_outside s s'); auto.
  - intros a work [Hin|Hin]%elem_of_app; apply (covers_outside s s'); eauto.
Qed.

(** Sections that leave the coordinators, the gate and the log alone. *)
Lemma put_ok s' :
  outside s s' -> bumped s s' \/ ow_revision s' = ow_revision s -> (ow_disabled s = true -> ow_disabled s' = true) ->
  (forall p, lc_preview (ow_life s') = Some p -> lc_preview l = Some p \/ preview_ok s' p) ->
  (exists p, ow_life s' = set_preview l p) -> daemon_ok (put_rt d s').
Proof using Hd.
  intros Ho Hm Hdis Hp [p El]. pose proof Hd as [H1 H2 H3 H4 H5 H6 H7 H8 H9 H10 H11 H12 H13 H14 H15 H16].
  apply (life_ok s' (dm_shutdowns d) (dm_updates d) (dm_starting d) []); auto; rewrite ?El; cbn; auto; try apply H7.
  - intros a work w Hw. destruct (H12 a work w Hw) as [Ht Hat]. split; [done|].
    apply (shutdown_at_covers s); [done|by rewrite El|by apply covers_outside].
  - intros a work ?%elem_of_nil. done.
Qed.
End life.

Lemma set_preview_same l : set_preview l (lc_preview l) = l.
Proof. by destruct l. Qed.

Lemma controls_daemon_ok d n : daemon_ok d -> daemon_ok (put_rt d (set_controls (dm_rt d) n)).
Proof.
  intros Hd. unfold set_controls. apply put_ok; autorewrite with changed; [done|by apply changed_trans|by left; unfold bumped; autorewrite with changed
    |intros ?; by apply changed_disabled|auto|]. exists (lc_preview (dm_life d)). by rewrite set_preview_same.
Qed.

Lemma preview_daemon_ok d ctx random : daemon_ok d -> daemon_ok (put_rt d (fst (PreviewShutdown (dm_rt d) ctx random))).
Proof.
  intros Hd. assert (Hsame : daemon_ok (put_rt d (dm_rt d)))
    by (apply put_ok; auto using outside_refl; exists (lc_preview (dm_life d)); by rewrite set_preview_same).
  unfold PreviewShutdown. destruct ctx; [done|]. destruct (random_id random) as [id|]; [|done].
  destruct (_ || _ || _ || _ || _); [done|]. destruct (exhausted (dm_rt d)) eqn:Ee; [done|]. cbn.
  apply put_ok; auto; [| |by eexists]; [done|]. cbn. intros p [= <-]. right.
  unfold exhausted in Ee. apply orb_false_iff in Ee as [_ Ee]. apply Z.eqb_neq in Ee. pose proof (do_revision _ Hd).
  unfold preview_ok. cbn. split_and!; [lia|lia|done].
Qed.

Lemma cancel_daemon_ok d binding : daemon_ok d -> daemon_ok (put_rt d (fst (CancelShutdown (dm_rt d) binding))).
Proof.
  intros Hd. unfold CancelShutdown. case_match; cbn.
  - apply put_ok; auto using outside_refl. exists (lc_preview (dm_life d)). by rewrite set_preview_same.
  - apply put_ok; auto; [done|done|by eexists].
Qed.

(** *** Confirmation *)

Lemma msize_positive {V} (m : gmap nat V) a v : m !! a = Some v -> 0 < msize m.
Proof. intros H. pose proof (msize_delete m a ltac:(by eexists)). pose proof (msize_nonneg (delete a m)). lia. Qed.
Lemma msize_zero {V} (m : gmap nat V) a : msize m = 0 -> m !! a = None.
Proof. intros H. destruct (m !! a) as [v|] eqn:E; [|done]. apply msize_positive in E. lia. Qed.

Lemma roster_owned s id r run :
  ow_runs s !! id = Some r -> ow_owned s !! r = Some run -> alive run -> or_descriptor run ∈ shutdownRosterLocked s.
Proof.
  intros Hid Hr Ha. apply list_elem_of_In, filter_In. split.
  - apply list_elem_of_In. unfold listLocked. rewrite sort_runs_perm. unfold run_entries. apply elem_of_app. left.
    unfold owned_snapshots. apply list_elem_of_omap. exists (id, r). split; [by apply elem_of_map_to_list|]. cbn. by rewrite Hr.
  - unfold alive in Ha. apply String.eqb_neq in Ha as ->. done.
Qed.
Lemma closing_children_all s closing runs children snapshot :
  closing_children s closing runs = Ok children -> snapshot ∈ runs ->
  exists r, ow_runs s !! li_run (rn_identity snapshot) = Some r /\ (r, snapshot) ∈ children.
Proof.
  revert children. induction runs as [|x runs IH]; intros children; cbn; [by intros _ ?%elem_of_nil|].
  destruct (ow_runs s !! li_run (rn_identity x)) as [r|] eqn:Er; [|done]. destruct (closing r); [|done]. cbn.
  destruct (closing_children s closing runs) as [rest|]; [|done]. intros [= <-] [->|Hin]%elem_of_cons.
  - exists r. split; [done|by left].
  - destruct (IH rest eq_refl Hin) as (q & Hq & Hc). exists q. split; [done|by right].
Qed.
Lemma previewed_Some s b p : previewed s b = Some p -> lc_preview (ow_life s) = Some p /\ sp_binding p = b.
Proof. unfold previewed. destruct (lc_preview (ow_life s)) as [q|]; [|done]. case_bool_decide; [|done]. by intros [= <-]. Qed.

(** What an admitted confirmation has established. *)
Lemma confirm_admits j s request purpose target :
  confirm_refusal j s request purpose target = None -> 0 <= ow_pending s ->
  exists p, lc_preview (ow_life s) = Some p /\ sp_binding p = sc_binding request /\
    shutdownBindingLocked s (sd_preview (sc_binding request)) = sc_binding request /\ ow_pending s = 0 /\
    lc_preparing (ow_life s) = false /\ lc_committed (ow_life s) = false /\ lc_starting (ow_life s) = false /\
    lc_pending (ow_life s) <= 0 /\ hasUncertainLocked s = false /\ exhausted s = false.
Proof.
  intros Hr Hp. unfold confirm_refusal in Hr. rewrite first_err_None in Hr.
  apply Forall_cons in Hr as [H1 Hr]. apply Forall_cons in Hr as [H2 Hr]. apply Forall_cons in Hr as [H3 Hr].
  apply Forall_cons in Hr as [H4 _]. apply fails_None in H1, H3, H4. apply bool_decide_eq_false in H1.
  destruct (previewed s (sc_binding request)) as [p|] eqn:Ep; [|done]. apply previewed_Some in Ep as [Ep Eb].
  destruct (Confirm _ _ true) eqn:Ec; [done|]. apply shutdown_confirm_exact in Ec as (_ & _ & Hq & Ecur).
  rewrite !orb_false_iff in H4. destruct H4 as [[[[Ea Ebb] Ecc] Edd] Eee]. exists p.
  assert (Hz : ow_pending s = 0).
  { destruct Hq as [Hq _]. rewrite <-Ecur in Hq. cbn in Hq.
    pose proof (mcount_nonneg (launch_publishing s) (ow_tickets s)). pose proof (mcount_nonneg (resume_publishing s) (ow_resumes s)). lia. }
  apply Z.ltb_ge in Edd. split_and!; auto.
Qed.

Lemma confirm_daemon_ok j closing d ctx request purpose target :
  daemon_ok d -> daemon_ok (do_confirm j closing d ctx request purpose target).
Proof.
  intros Hd. assert (Hsame : daemon_ok (put_rt d (dm_rt d)))
    by (apply put_ok; auto using outside_refl; exists (lc_preview (dm_life d)); by rewrite set_preview_same).
  unfold do_confirm, confirmShutdown. destruct ctx; [done|]. destruct (confirm_syntax _ _ _); [done|].
  destruct (lc_tickets (ow_life (dm_rt d)) !! _) as [a|].
  { destruct (lc_heap _ !! a); [|done]. by destruct (same_ticket _ _ _ _). }
  destruct (confirm_refusal _ _ _ _ _) eqn:Er; [done|].
  destruct (closing_children _ _ _) as [children|] eqn:Ec; [|done]. destruct (MaxLaunchRequests <=? _); [done|].
  pose proof (pending_nonneg _ (do_sys _ Hd)) as Hnn. fold (dm_rt d) in Hnn.
  destruct (confirm_admits _ _ _ _ _ Er Hnn) as (p & Ep & Eb & Ecur & Hz & Hprep & Hcom & Hst & Hlp & _ & _).
  fold (dm_life d) in *. rewrite Ep in Ec. pose proof Hd as [H1 H2 H3 H4 H5 H6 H7 H8 H9 H10 H11 H12 H13 H14 H15 H16].
  pose proof (msize_nonneg (dm_shutdowns d)) as Hsh. pose proof (llen_nonneg (dm_updates d)) as Hup.
  assert (Hempty : msize (dm_shutdowns d) = 0 /\ dm_updates d = []) by (split; [lia|]; destruct (dm_updates d); [done|unfold llen in *; cbn in *; lia]).
  destruct Hempty as [Hsh0 Hup0].
  set (t := new_shutdown request purpose target). unfold admit_shutdown. set (a := fresh _). cbn -[changedLocked].
  assert (Hcov : covers (dm_rt d) (mkWork children (ow_revision (changedLocked (set_life (dm_rt d) (set_phase_flags
     (set_shutdowns (ow_life (dm_rt d)) (<[sd_preview (sc_binding request):=a]> (lc_tickets (ow_life (dm_rt d))))
        (<[a:=t]> (lc_heap (ow_life (dm_rt d))))) true (lc_committed (ow_life (dm_rt d))) (lc_pending (ow_life (dm_rt d)) + 1))))))).
  { intros id r run Hid Hr Ha. pose proof (roster_owned _ _ _ _ Hid Hr Ha) as Hin.
    destruct (H11 p Ep) as (_ & _ & Hroster). rewrite <-Hroster in Hin; [|rewrite Eb, <-Ecur; done|done].
    destruct (closing_children_all _ _ _ _ _ Ec Hin) as (q & Hq & Hc). destruct (H2 id r Hid) as (o & Ho & Eid).
    rewrite Hr in Ho. injection Ho as <-. rewrite Eid, Hid in Hq. injection Hq as <-. by exists (or_descriptor run). }
  set (s1 := set_life _ _) in *. set (work := mkWork _ _) in *.
  apply (life_ok d Hd (changedLocked s1) (<[a := (work, SCheck children)]> (dm_shutdowns d)) (dm_updates d) (dm_starting d) []);
    autorewrite with changed; cbn -[changedLocked]; fold (dm_life d); auto.
  1: by apply changed_trans.
  1: left; unfold bumped; by autorewrite with changed.
  - rewrite msize_insert_new by (by apply msize_zero). lia.
  - lia.
  - rewrite msize_insert_new, Hsh0 by (by apply msize_zero). done.
  - apply H7.
  - destruct H7 as [H7 _]. intros E. rewrite E in H7. unfold dm_life in *. congruence.
  - unfold dm_life in *. congruence.
  - intros b work' w. rewrite lookup_insert. case_decide as E; [|by rewrite msize_zero]. subst b. intros [= <- <-].
    rewrite lookup_insert_eq. split; [by exists t|]. cbn -[changedLocked]. autorewrite with changed. split; [done|].
    apply (covers_outside (dm_rt d)); [by apply changed_trans|done].
  - intros b work' Hin. by apply elem_of_nil in Hin.
  - intros b u. rewrite !lookup_insert. case_decide; [eauto|]. apply H16.
Qed.

(** *** The goroutine of a shutdown *)

Lemma life_ordered_app evs log : life_ordered log -> Forall (fun e => match e with ShutdownCommitted _ _ | CloseCalled _ _ => False | _ => True end) evs ->
  life_ordered (evs ++ log).
Proof. intros Hl. induction 1 as [|e evs He _ IH]; [done|]. split; [by destruct e|done]. Qed.
Lemma commits_app evs log : commits (evs ++ log) <-> commits evs \/ commits log.
Proof. unfold commits. setoid_rewrite elem_of_app. naive_solver. Qed.
Lemma commits_mono evs log : commits log -> commits (evs ++ log).
Proof. rewrite commits_app. auto. Qed.
Lemma not_commits evs : (forall a work, ShutdownCommitted a work ∉ evs) -> ~ commits evs.
Proof. intros H (a & work & Hin). by apply (H a work). Qed.
Lemma shutdown_at_log s evs log a work w : shutdown_at s log a work w -> shutdown_at s (evs ++ log) a work w.
Proof. intros H. destruct w as [| | | | | |? ? []|]; cbn in *; try done; rewrite ?elem_of_app; naive_solver. Qed.

(** A turn that leaves the runtime alone. *)
Lemma worker_ok d a work w w' evs :
  daemon_ok d -> dm_shutdowns d !! a = Some (work, w) -> shutdown_at (dm_rt d) (evs ++ dm_log d) a work w' ->
  (forall b work', ShutdownCommitted b work' ∉ evs) -> life_ordered (evs ++ dm_log d) ->
  daemon_ok (mkDaemon (with_rt (dm_sys d) (dm_rt d)) (<[a := (work, w')]> (dm_shutdowns d)) (dm_updates d) (dm_starting d) (evs ++ dm_log d)).
Proof.
  intros Hd Hw Hat Hev Hord. pose proof Hd as [H1 H2 H3 H4 H5 H6 H7 H8 H9 H10 H11 H12 H13 H14 H15 H16].
  assert (Hsize : msize (<[a := (work, w')]> (dm_shutdowns d)) = msize (dm_shutdowns d)) by (by apply msize_insert_old; eexists).
  apply (life_ok d Hd); rewrite ?Hsize; auto using outside_refl; fold (dm_life d); try apply H7.
  - intros b work' v. rewrite lookup_insert. case_decide as E.
    + subst b. intros [= <- <-]. split; [by apply (H12 a work w)|done].
    + intros Hb. destruct (H12 b work' v Hb) as [Ht Hv]. split; [done|by apply shutdown_at_log].
  - rewrite H13, commits_app. split; [auto|]. intros [Hc|]; [|done]. by apply not_commits in Hc.
  - intros b work' Hin. by apply Hev in Hin.
  - intros b u. rewrite lookup_insert. case_decide; [eauto|]. apply H16.
Qed.

Lemma worker_silent d a work w w' :
  daemon_ok d -> dm_shutdowns d !! a = Some (work, w) -> shutdown_at (dm_rt d) (dm_log d) a work w' ->
  daemon_ok (mkDaemon (with_rt (dm_sys d) (dm_rt d)) (<[a := (work, w')]> (dm_shutdowns d)) (dm_updates d) (dm_starting d) (dm_log d)).
Proof.
  intros Hd Hw Hat. apply (worker_ok d a work w w' []); auto; [|by apply do_ordered]. intros b work' Hin. by apply elem_of_nil in Hin.
Qed.

Lemma commit_ok d a work :
  daemon_ok d -> dm_shutdowns d !! a = Some (work, SCommit) ->
  daemon_ok (mkDaemon (with_rt (dm_sys d) (shutdown_commit (dm_rt d))) (<[a := (work, SClose)]> (dm_shutdowns d)) (dm_updates d)
    (dm_starting d) (ShutdownCommitted a work :: dm_log d)).
Proof.
  intros Hd Hw. pose proof Hd as [H1 H2 H3 H4 H5 H6 H7 H8 H9 H10 H11 H12 H13 H14 H15 H16].
  destruct (H12 a work _ Hw) as [Ht (Hcom & Hcov & Hres)]. fold (dm_life d) in *.
  assert (Hprep : lc_preparing (dm_life d) = true) by (rewrite H6; apply Z.ltb_lt; by apply (msize_positive _ a (work, SCommit))).
  assert (Hnone : ~ commits (dm_log d)) by (intros Hc%H13; congruence).
  assert (Hsize : msize (<[a := (work, SClose)]> (dm_shutdowns d)) = msize (dm_shutdowns d)) by (by apply msize_insert_old; eexists).
  assert (Hsh : msize (dm_shutdowns d) = 1 /\ dm_updates d = []).
  { pose proof (msize_positive _ _ _ Hw). pose proof (llen_nonneg (dm_updates d)). split; [lia|].
    destruct (dm_updates d); [done|]. unfold llen in *. cbn in *. lia. }
  unfold shutdown_commit. set (s1 := close_gate _).
  apply (life_ok d Hd (changedLocked s1) _ _ _ [ShutdownCommitted a work]); rewrite ?Hsize; autorewrite with changed; cbn -[changedLocked];
    fold (dm_life d); auto.
  - by apply changed_trans.
  - left. unfold bumped. by autorewrite with changed.
  - apply H7.
  - apply H7.
  - intros _. by apply changed_disabled.
  - intros b work' w. rewrite lookup_insert. case_decide as E.
    + subst b. intros [= <- <-]. split; [done|]. cbn -[changedLocked]. autorewrite with changed. split; [done|by left].
    + intros Hb. pose proof (msize_delete (dm_shutdowns d) a ltac:(by eexists)) as Hx.
      assert (Hy : delete a (dm_shutdowns d) !! b = None) by (apply msize_zero; lia). rewrite lookup_delete_ne in Hy by done. congruence.
  - split; [|done]. intros _. exists a, work. by left.
  - intros b work' [= -> ->]%list_elem_of_singleton. done.
  - intros b u. rewrite lookup_insert. case_decide; [eauto|]. apply H16.
Qed.

Lemma finish_ok d a t work result err committed evs :
  daemon_ok d -> dm_shutdowns d !! a = Some (work, SFinish result err committed) -> lc_heap (dm_life d) !! a = Some t ->
  evs = [] \/ (exists target, evs = [HandoffRetired target]) ->
  daemon_ok (mkDaemon (with_rt (dm_sys d) (finishShutdown (dm_rt d) a t result err committed)) (delete a (dm_shutdowns d)) (dm_updates d)
    (dm_starting d) (evs ++ dm_log d)).
Proof.
  intros Hd Hw Ht Hevs. pose proof Hd as [H1 H2 H3 H4 H5 H6 H7 H8 H9 H10 H11 H12 H13 H14 H15 H16].
  destruct (H12 a work _ Hw) as [_ Hat]. assert (Ecom : (if committed then true else lc_committed (dm_life d)) = lc_committed (dm_life d)).
  { destruct committed; [done|reflexivity]. }
  assert (Hprep : lc_preparing (dm_life d) = true) by (rewrite H6; apply Z.ltb_lt; by apply (msize_positive _ a (work, SFinish result err committed))).
  pose proof (msize_delete (dm_shutdowns d) a ltac:(by eexists)) as Hsize.
  assert (Hsh : msize (dm_shutdowns d) = 1 /\ dm_updates d = []).
  { pose proof (msize_positive _ _ _ Hw). pose proof (llen_nonneg (dm_updates d)). split; [lia|].
    destruct (dm_updates d); [done|]. unfold llen in *. cbn in *. lia. }
  destruct Hsh as [Hsh Hup].
  assert (Hnc : forall b work', ShutdownCommitted b work' ∉ evs).
  { intros b work'. destruct Hevs as [->|[target ->]]; [by intros ?%elem_of_nil|by intros ?%list_elem_of_singleton]. }
  unfold finishShutdown. set (s1 := set_life _ _).
  match goal with |- context [changedLocked ?x] => set (s2 := x) end.
  assert (E2 : outside (dm_rt d) s2 /\ ow_life s2 = ow_life s1 /\ ow_revision s2 = ow_revision (dm_rt d)) by (subst s2; by destruct (_ || committed)).
  destruct E2 as (Ho & El & Er).
  apply (life_ok d Hd (changedLocked s2)); autorewrite with changed; rewrite ?El; cbn; fold (dm_life d); rewrite ?Ecom, ?Hsize, ?Hup; auto.
  - by apply changed_trans.
  - left. unfold bumped. autorewrite with changed. by rewrite Er.
  - rewrite H4, Hup. cbn. lia.
  - lia.
  - by rewrite Hsh.
  - apply H7.
  - intros E. destruct H7 as [_ H7]. destruct (H7 E). pose proof (llen_nonneg (dm_updates d)). lia.
  - intros Hc. apply changed_disabled. subst s2. destruct (_ || committed); [done|]. cbn. rewrite <-Ecom in *. auto.
  - intros b work' w Hb. rewrite msize_zero in Hb by lia. done.
  - rewrite H13, commits_app. split; [auto|]. intros [Hc|]; [|done]. by apply not_commits in Hc.
  - intros b work' Hin. by apply Hnc in Hin.
  - apply life_ordered_app; [done|]. destruct Hevs as [->|[target ->]]; by repeat constructor.
  - intros b u. rewrite lookup_insert, lookup_delete. case_decide; [by intros [= <-]|]. apply H16.
Qed.

Lemma turn_shutdown_daemon_ok j d a n : daemon_ok d -> daemon_ok (turn_shutdown j d a n).
Proof.
  intros Hd. unfold turn_shutdown. destruct (dm_shutdowns d !! a) as [[work w]|] eqn:Hw; [|done].
  destruct (lc_heap (dm_life d) !! a) as [t|] eqn:Ht; [|done].
  pose proof (do_ordered _ Hd) as Hord. destruct (do_worker _ Hd a work w Hw) as [_ Hat].
  assert (Hrej : forall e, lc_committed (dm_life d) = false -> shutdown_at (dm_rt d) (dm_log d) a work (reject t e)) by done.
  destruct w; cbn.
  - destruct Hat as [Hc Hcov]. assert (Hat' : shutdown_at (dm_rt d) (dm_log d) a work (shutdown_check t rest n)).
    { unfold shutdown_check. destruct rest as [|[r snapshot] rest]; [done|]. destruct (check_child _ _); [by apply Hrej|done]. }
    assert (En : shutdown_next (shutdown_check t rest n) = Some (shutdown_check t rest n)).
    { unfold shutdown_check. destruct rest as [|[r snapshot] rest]; [done|]. by destruct (check_child _ _). }
    rewrite En. by apply worker_silent with (SCheck rest).
  - destruct Hat as [Hc Hcov]. unfold shutdown_decide. destruct (_ || _); cbn; by apply worker_silent with SDecide.
  - destruct Hat as [Hc Hcov]. unfold shutdown_reserve. destruct (ha_reserve n) as [e|].
    + destruct (_ || _); cbn; by apply worker_silent with SReserve.
    + apply (worker_ok d a work SReserve SCommit [ShutdownReserved a]); try done; [|by intros b work' Hin%list_elem_of_singleton].
      split_and!; [done|done|by left].
  - by apply commit_ok.
  - destruct Hat as [Hc Hin]. apply (worker_ok d a work SClose _ (map _ _)); [done|done|done| |].
    + intros b work' (? & ? & _)%list_elem_of_fmap. done.
    + assert (Hsub : forall child, child ∈ wk_children work -> child ∈ wk_children work) by done. revert Hsub.
      generalize (wk_children work) at 1 3 as rest. induction rest as [|[r snapshot] rest IH]; [done|]. intros Hsub. split; [|apply IH; intros c Hin'; apply Hsub; by right].
      exists a, work, snapshot. split; [apply elem_of_app; by right|apply Hsub; by left].
  - assert (En : exists e r, shutdown_save j t result n = SFinish r e true) by (unfold shutdown_save; repeat case_match; eauto).
    destruct En as (e & r & ->). by apply worker_silent with (SSave result).
  - apply finish_ok with work; auto. destruct err; [by left|]. case_match; [|by left]. right. by eexists.
  - done.
Qed.

(** *** The first epoch and the updates *)

Lemma same_daemon_ok d : daemon_ok d -> daemon_ok (put_rt d (dm_rt d)).
Proof. intros Hd. apply put_ok; auto using outside_refl. exists (lc_preview (dm_life d)). by rewrite set_preview_same. Qed.

(** No goroutine of the coordinators: the only worker rules are empty. *)
Lemma no_shutdowns d : daemon_ok d -> lc_preparing (dm_life d) = false -> msize (dm_shutdowns d) = 0.
Proof. intros Hd Hp. rewrite (do_preparing _ Hd) in Hp. apply Z.ltb_ge in Hp. pose proof (msize_nonneg (dm_shutdowns d)). lia. Qed.
Lemma no_updates (l : list UpdateDeferral) : llen l <= 0 -> l = [].
Proof. destruct l; [done|]. unfold llen. cbn. lia. Qed.

(** [life_ok] for the sections of the updates and of the first epoch: no
    shutdown is under way, and the log stays. *)
Lemma metadata_ok d s' up' st' :
  daemon_ok d -> outside (dm_rt d) s' -> bumped (dm_rt d) s' \/ ow_revision s' = ow_revision (dm_rt d) ->
  lc_preparing (dm_life d) = false -> lc_preparing (ow_life s') = false -> lc_committed (ow_life s') = lc_committed (dm_life d) ->
  (ow_disabled (dm_rt d) = true -> ow_disabled s' = true) ->
  lc_pending (ow_life s') = llen up' -> llen up' <= 1 ->
  lc_heap (ow_life s') = lc_heap (dm_life d) -> lc_starting (ow_life s') = st' ->
  (st' = true -> up' = [] /\ lc_bound (ow_life s') = false) -> (up' <> [] -> lc_bound (ow_life s') = true) ->
  (forall p, lc_preview (ow_life s') = Some p -> lc_preview (dm_life d) = Some p \/ preview_ok s' p) ->
  daemon_ok (mkDaemon (with_rt (dm_sys d) s') (dm_shutdowns d) up' st' (dm_log d)).
Proof.
  intros Hd Ho Hm Hp Hp' Hc Hdis Hup Hone Hh Hst Hst' Hb Hpv. pose proof (no_shutdowns _ Hd Hp) as Hz.
  pose proof Hd as [H1 H2 H3 H4 H5 H6 H7 H8 H9 H10 H11 H12 H13 H14 H15 H16].
  apply (life_ok d Hd s' (dm_shutdowns d) up' st' []); auto; rewrite ?Hp', ?Hc, ?Hz, ?Hup, ?Hh; auto.
  - intros E. destruct (Hst' E) as [-> ?]. done.
  - intros [?|?]; [done|]. apply H9. by right.
  - intros b work w Hw. by rewrite msize_zero in Hw.
  - intros b work Hin. by apply elem_of_nil in Hin.
Qed.

Lemma initialize_daemon_ok j d : daemon_ok d -> daemon_ok (do_initialize j d).
Proof.
  intros Hd. unfold do_initialize, InitializeLifecycle_enter. destruct (_ || _) eqn:E; cbn; [by apply same_daemon_ok|].
  destruct (negb (jk_lifecycle j)); cbn -[changedLocked]; [by apply same_daemon_ok|]. rewrite !orb_false_iff in E.
  destruct E as [[[[[[E1 E2] E3] _] _] E4] E5]. pose proof (no_shutdowns _ Hd E4) as Hz. pose proof Hd as [H1 H2 H3 H4 H5 H6 H7 H8 H9 H10 H11 H12 H13 H14 H15 H16].
  assert (Hup : dm_updates d = []). { destruct (dm_updates d) eqn:Eu; [done|]. unfold dm_life in H8. rewrite H8 in E2 by done. done. }
  rewrite Hup in *. apply metadata_ok; autorewrite with changed; cbn -[changedLocked]; auto; fold (dm_life d); try done.
  - by apply changed_trans.
  - left. unfold bumped. by autorewrite with changed.
  - intros ?. by apply changed_disabled.
  - unfold llen in *. cbn in *. lia.
Qed.

Lemma end_initialize_daemon_ok d answer : daemon_ok d -> daemon_ok (end_initialize d answer).
Proof.
  intros Hd. unfold end_initialize. destruct (dm_starting d) eqn:E; [|done].
  pose proof Hd as [H1 H2 H3 H4 H5 H6 H7 H8 H9 H10 H11 H12 H13 H14 H15 H16]. destruct H7 as [_ H7]. destruct (H7 E) as [Hz _].
  pose proof (msize_nonneg (dm_shutdowns d)). pose proof (llen_nonneg (dm_updates d)).
  assert (Hp : lc_preparing (dm_life d) = false) by (rewrite H6; apply Z.ltb_ge; lia).
  assert (Hup : dm_updates d = []) by (apply no_updates; lia). cbn. rewrite Hup.
  assert (Hend : forall s', outside (dm_rt d) s' -> bumped (dm_rt d) s' -> (ow_disabled (dm_rt d) = true -> ow_disabled s' = true) ->
    (exists b u df, ow_life s' = set_bound (dm_life d) b false u df) ->
    daemon_ok (mkDaemon (with_rt (dm_sys d) s') (dm_shutdowns d) [] false (dm_log d))).
  { intros s' Ho Hb Hdis (b & u & df & El). apply metadata_ok; rewrite ?El; cbn; auto; done. }
  unfold InitializeLifecycle_end. destruct (restored_deferral answer); cbn -[changedLocked]; apply Hend;
    autorewrite with changed; cbn -[changedLocked]; try (by apply changed_trans); try (by unfold bumped; autorewrite with changed);
    try (intros ?; by apply changed_disabled); by repeat eexists.
Qed.

Lemma begin_daemon_ok j d candidate :
  daemon_ok d -> updateRepositoryLocked j (dm_rt d) = None -> updateMetadataBusyLocked (dm_rt d) = false ->
  daemon_ok (begin_update d (begin_lifecycle (dm_rt d)) candidate).
Proof.
  intros Hd Hr Hb. apply fails_None in Hr. rewrite orb_false_iff, !negb_false_iff in Hr. destruct Hr as [_ Hr].
  unfold updateMetadataBusyLocked in Hb. rewrite !orb_false_iff, negb_false_iff in Hb. destruct Hb as [[[[[_ E1] E2] E3] E4] _].
  apply Z.eqb_eq in E2. pose proof Hd as [H1 H2 H3 H4 H5 H6 H7 H8 H9 H10 H11 H12 H13 H14 H15 H16].
  pose proof (msize_nonneg (dm_shutdowns d)). pose proof (llen_nonneg (dm_updates d)). fold (dm_life d) in *.
  assert (Hup : dm_updates d = []) by (apply no_updates; lia). unfold begin_update. cbn -[changedLocked begin_lifecycle]. rewrite Hup.
  unfold begin_lifecycle. apply metadata_ok; autorewrite with changed; cbn -[changedLocked]; fold (dm_life d); auto.
  - by apply changed_trans.
  - left. unfold bumped. by autorewrite with changed.
  - intros ?. by apply changed_disabled.
  - rewrite E2. done.
  - done.
  - destruct H7 as [H7 _]. congruence.
  - destruct H7 as [H7 _]. intros E. congruence.
Qed.

(** A quiescent runtime has an empty roster and revisions left. *)
Lemma blocker_nil cond name : blocker cond name = [] -> cond = false.
Proof. by destruct cond. Qed.
Lemma quiescent_empty s now : us_quiescent (updateStatusLocked s now) = true ->
  shutdownRosterLocked s = [] /\ exhausted s = false /\ sd_launches (shutdownBindingLocked s "") = 0 /\
  sd_controls (shutdownBindingLocked s "") = 0 /\ sd_reconciliations (shutdownBindingLocked s "") = 0 /\
  lc_starting (ow_life s) = false /\ lc_pending (ow_life s) = 0 /\ hasUncertainLocked s = false /\
  ow_disabled s = false /\ lc_preparing (ow_life s) = false /\ lc_committed (ow_life s) = false.
Proof.
  cbn. intros E%Z.eqb_eq. assert (Hnil : update_blockers s = []) by (destruct (update_blockers s); [done|unfold llen in E; cbn in E; lia]).
  unfold update_blockers in Hnil. repeat (apply app_eq_nil in Hnil as [Hx%blocker_nil Hnil]; revert Hx). apply blocker_nil in Hnil.
  rewrite !negb_false_iff, !orb_false_iff, !negb_false_iff, !Z.eqb_eq. intros [[H8 H9] H10] H7 [H5 H6] H4 H3 H2 H1. split_and!; auto.
  cbn in H1. destruct (shutdownRosterLocked s); [done|]. unfold llen in H1. cbn in H1. lia.
Qed.
Lemma empty_preview_ok s id now : 0 <= ow_revision s <= MaxUint64 -> us_quiescent (updateStatusLocked s now) = true ->
  preview_ok (fst (emptyUpdatePreviewLocked s id)) (mkPreview (shutdownBindingLocked s id) []).
Proof.
  intros Hr Hq. destruct (quiescent_empty _ _ Hq) as (E1 & E2 & _). unfold exhausted in E2. apply orb_false_iff in E2 as [_ E2].
  apply Z.eqb_neq in E2. unfold preview_ok. cbn. split_and!; [lia|lia|]. intros _ _. by rewrite <-E1.
Qed.

Lemma attempt_daemon_ok j d ctx clock target random : daemon_ok d -> daemon_ok (do_attempt j d ctx clock target random).
Proof.
  intros Hd. pose proof (same_daemon_ok _ Hd) as Hsame. unfold do_attempt, AttemptUpdate_enter. destruct ctx; [done|].
  destruct (NewUpdateDeferral _ _) as [candidate|]; [|done]. destruct (random_id random) as [id|]; [|done].
  destruct (updateRepositoryLocked j (dm_rt d)) eqn:Er; [done|]. destruct (exhausted (dm_rt d)); [done|].
  destruct (updateMetadataBusyLocked (dm_rt d)) eqn:Eb; [done|].
  destruct (lc_deferral (ow_life (dm_rt d))) as [df|].
  - destruct (retargeted df target); [|done]. by apply (begin_daemon_ok j).
  - cbn [ur_status]. destruct (us_quiescent _) eqn:Eq; [|by apply (begin_daemon_ok j)]. cbn -[emptyUpdatePreviewLocked].
    apply put_ok; cbn; auto; [done| |by eexists]. intros p [= <-]. right.
    apply (empty_preview_ok _ id _ (do_revision _ Hd) Eq).
Qed.
Lemma notice_daemon_ok j d ctx clock : daemon_ok d -> daemon_ok (do_notice j d ctx clock).
Proof.
  intros Hd. pose proof (same_daemon_ok _ Hd) as Hsame. unfold do_notice, PublishDueUpdateNotice_enter. destruct ctx; [done|].
  destruct (IsZero _); [done|]. destruct (updateRepositoryLocked j (dm_rt d)) eqn:Er; [done|].
  destruct (lc_deferral _) as [df|]; [|done]. destruct (_ || _); [done|]. destruct (exhausted _); [done|].
  destruct (updateMetadataBusyLocked (dm_rt d)) eqn:Eb; [done|]. destruct (UpdateDeferralFrom df); [|done]. by apply (begin_daemon_ok j).
Qed.

Lemma finish_update_ok d candidate rest err :
  daemon_ok d -> dm_updates d = candidate :: rest ->
  let s := finishUpdateLocked (dm_rt d) candidate err in
  daemon_ok (mkDaemon (with_rt (dm_sys d) s) (dm_shutdowns d) rest (dm_starting d) (dm_log d)) /\ rest = [] /\ lc_preparing (dm_life d) = false.
Proof.
  intros Hd Hu. cbn zeta. pose proof Hd as [H1 H2 H3 H4 H5 H6 H7 H8 H9 H10 H11 H12 H13 H14 H15 H16].
  pose proof (msize_nonneg (dm_shutdowns d)). pose proof (llen_nonneg rest). rewrite Hu in *.
  assert (El : llen (candidate :: rest) = llen rest + 1) by (unfold llen; cbn; lia). rewrite El in H4.
  assert (Hr : rest = []) by (apply no_updates; lia). assert (Hp : lc_preparing (dm_life d) = false) by (rewrite H6; apply Z.ltb_ge; lia).
  split; [|done]. subst rest. destruct H7 as [Hst Hst0].
  assert (Hnost : dm_starting d = false) by (destruct (dm_starting d); [destruct (Hst0 eq_refl); lia|done]). rewrite Hnost in *.
  unfold finishUpdateLocked. set (s1 := set_life _ _). match goal with |- context [changedLocked ?x] => set (s2 := x) end.
  assert (E2 : outside (dm_rt d) s2 /\ ow_life s2 = ow_life s1 /\ ow_revision s2 = ow_revision (dm_rt d) /\
    (ow_disabled (dm_rt d) = true -> ow_disabled s2 = true)) by (subst s2; by case_match).
  destruct E2 as (Ho & E2 & Er & Hdis). apply metadata_ok; autorewrite with changed; rewrite ?E2; cbn; fold (dm_life d); auto; try done.
  - by apply changed_trans.
  - left. unfold bumped. autorewrite with changed. by rewrite Er.
  - intros ?. apply changed_disabled. auto.
  - cbn in *. lia.
Qed.

Lemma end_update_daemon_ok d result err : daemon_ok d -> daemon_ok (end_update d result err).
Proof.
  intros Hd. unfold end_update. destruct (dm_updates d) as [|candidate rest] eqn:Eu; [done|]. cbn.
  destruct (finish_update_ok d candidate rest err Hd Eu) as (Hok & _ & _). destruct result as [[[r id] now]|]; [|done].
  unfold AttemptUpdate_end. destruct (_ && _) eqn:Eq; [|done]. apply andb_true_iff in Eq as [_ Eq]. cbn [ur_status] in Eq.
  cbn -[emptyUpdatePreviewLocked finishUpdateLocked].
  set (d1 := mkDaemon _ _ _ _ _) in Hok. apply (put_ok d1 Hok); cbn; auto; [done| |by eexists]. intros p [= <-]. right.
  apply (empty_preview_ok _ id _ (do_revision _ Hok) Eq).
Qed.

Lemma daemon_step_ok d d' : daemon_ok d -> daemon_step d d' -> daemon_ok d'.
Proof.
  intros Hd Hs. destruct Hs; auto using own_daemon_ok, controls_daemon_ok, preview_daemon_ok, cancel_daemon_ok, confirm_daemon_ok,
    turn_shutdown_daemon_ok, initialize_daemon_ok, end_initialize_daemon_ok, attempt_daemon_ok, notice_daemon_ok, end_update_daemon_ok.
Qed.
Lemma daemon_steps_ok d d' : daemon_ok d -> rtc daemon_step d d' -> daemon_ok d'.
Proof. intros Hd Hs. induction Hs; eauto using daemon_step_ok. Qed.

(** ** Reachable daemons *)

Definition served (epoch : string) (d : Daemon) : Prop := exists s, NewRuntime epoch = Ok s /\ star daemon_step (new_daemon s) d.

Lemma new_daemon_ok epoch s : NewRuntime epoch = Ok s -> daemon_ok (new_daemon s).
Proof.
  intros Hs. pose proof (new_ok _ _ Hs) as Hy. unfold NewRuntime in Hs. case_match; [done|]. injection Hs as <-.
  assert (Hm : msize (∅ : gmap nat (ShutdownWork * SWorker)) = 0) by done.
  split; cbn; try done; try (intros ? ? Hin; by apply elem_of_nil in Hin); try (by intros []).
  split; [done|]. intros (? & ? & Hin). by apply elem_of_nil in Hin.
Qed.
Lemma served_ok epoch d : served epoch d -> daemon_ok d.
Proof. intros (s & Hs & Hd). eapply star_invariant; [apply daemon_step_ok|exact Hd|by eapply new_daemon_ok]. Qed.

(** ** What a step leaves *)

(** Steps of the coordinators do not touch the owner's log; the log of the
    lifecycle only grows. *)
Lemma daemon_step_logs d d' : daemon_ok d -> daemon_step d d' ->
  (exists evs, dm_log d' = evs ++ dm_log d) /\
  exists evs, ys_log (dm_sys d') = evs ++ ys_log (dm_sys d) /\ (0 < ow_pending (dm_rt d) \/ no_call evs).
Proof.
  intros Hd Hs.
  assert (Hnil : no_call []) by (intros a x; by split; intros ?%elem_of_nil).
  assert (Hput : forall z, ys_log (dm_sys z) = ys_log (dm_sys d) -> dm_log z = dm_log d -> (exists evs, dm_log z = evs ++ dm_log d) /\
    exists evs, ys_log (dm_sys z) = evs ++ ys_log (dm_sys d) /\ (0 < ow_pending (dm_rt d) \/ no_call evs)).
  { intros z -> ->. split; exists []; auto. }
  destruct Hs; try (apply Hput; done).
  - split; [by exists []|]. apply (own_step_log (dm_sys d) y); [by apply do_sys|done].
  - unfold do_confirm. destruct (confirmShutdown _ _ _ _ _ _ _) as [s []]; by apply Hput.
  - unfold turn_shutdown. destruct (dm_shutdowns d !! a) as [[work w]|]; [|by apply Hput].
    destruct (lc_heap _ !! a) as [t|]; [|by apply Hput]. destruct (shutdown_turn _ _ _ _ _ _ _) as [s w'].
    split; [by eexists|]. exists []. auto.
  - unfold do_initialize. destruct (InitializeLifecycle_enter _ _) as [s []]; by apply Hput.
  - unfold end_initialize. by destruct (dm_starting d); apply Hput.
  - unfold do_attempt. destruct (AttemptUpdate_enter _ _ _ _ _ _) as [s []]; by apply Hput.
  - unfold do_notice. destruct (PublishDueUpdateNotice_enter _ _ _ _) as [s []]; by apply Hput.
  - unfold end_update. destruct (dm_updates d); by apply Hput.
Qed.

Lemma commits_steps d d' : daemon_ok d -> star daemon_step d d' -> commits (dm_log d) ->
  commits (dm_log d') /\ exists evs, ys_log (dm_sys d') = evs ++ ys_log (dm_sys d) /\ no_call evs.
Proof.
  intros Hd Hs. revert Hd. induction Hs as [d|d u d' Hs _ IH]; intros Hd Hc; [split; [done|]; exists []; split; [done|intros a x; by split; intros ?%elem_of_nil]|].
  destruct (daemon_step_logs _ _ Hd Hs) as [[levs El] (evs & Ee & Hevs)].
  destruct IH as (Hc' & evs' & Ee' & Hevs'); [by apply (daemon_step_ok d)|rewrite El; by apply commits_mono|]. split; [done|].
  exists (evs' ++ evs). split; [by rewrite Ee', Ee, app_assoc|].
  assert (Hn : no_call evs). { destruct Hevs as [Hp|]; [|done]. rewrite (do_frozen _ Hd) in Hp; [lia|]. right. by apply do_committed. }
  intros a x. rewrite !not_elem_of_app. destruct (Hn a x), (Hevs' a x). done.
Qed.

(** The refusals of a new request while admission is closed. *)
Lemma closed_refuses s : ow_disabled s = true ->
  (forall request, ow_tickets s !! lq_request request = None -> exists e, Launch_enter s None request = (s, Refused e)) /\
  (forall journal request, ow_resumes s !! sq_request request = None -> exists e, Resume_enter journal s None request = (s, Refused e)).
Proof.
  intros Hd. split.
  - intros request Hn. unfold Launch_enter. rewrite Hn. destruct (_ <>?s _); [eauto|]. destruct (negb (validLaunchRequest _)); [eauto|].
    destruct (launch_refusal s) eqn:E; [eauto|]. unfold launch_refusal in E. rewrite first_err_None in E.
    apply Forall_cons in E as [_ E]. apply Forall_cons in E as [E _]. apply fails_None in E.
    unfold executionAdmissionClosedLocked in E. by rewrite Hd in E.
  - intros journal request Hn. unfold Resume_enter. rewrite Hn. destruct (_ <>?s _); [eauto|].
    destruct (negb (ResumeRequest_Valid _)); [eauto|]. destruct (negb journal); [eauto|].
    destruct (resume_refusal s) eqn:E; [eauto|]. unfold resume_refusal in E. rewrite first_err_None in E.
    apply Forall_cons in E as [E _]. apply fails_None in E. unfold executionAdmissionClosedLocked in E. by rewrite Hd in E.
Qed.

(** (C2) A committed shutdown is final: from the commit on, whatever the
    callers, the goroutines and the other coordinators do, no agent is started
    or resumed any more, no launch or resume is pending, admission is closed,
    and every new request to launch or resume is refused and changes nothing. *)
Theorem shutdown_fences_starts epoch d d' :
  served epoch d -> commits (dm_log d) -> star daemon_step d d' ->
  (exists evs, ys_log (dm_sys d') = evs ++ ys_log (dm_sys d) /\ forall a x, StartCalled a x ∉ evs /\ ResumeCalled a x ∉ evs) /\
  ow_pending (dm_rt d') = 0 /\ lc_committed (dm_life d') = true /\ ow_disabled (dm_rt d') = true /\
  (forall request, ow_tickets (dm_rt d') !! lq_request request = None ->
     exists e, Launch_enter (dm_rt d') None request = (dm_rt d', Refused e)) /\
  (forall journal request, ow_resumes (dm_rt d') !! sq_request request = None ->
     exists e, Resume_enter journal (dm_rt d') None request = (dm_rt d', Refused e)).
Proof.
  intros Hd%served_ok Hc Hs. destruct (commits_steps _ _ Hd Hs Hc) as [Hc' Hevs]. split; [done|].
  assert (Hd' : daemon_ok d') by (eapply star_invariant; [apply daemon_step_ok|exact Hs|done]).
  assert (Hl : lc_committed (dm_life d') = true) by by apply do_committed.
  assert (Hdis : ow_disabled (dm_rt d') = true) by by apply do_closed.
  split; [by apply (do_frozen _ Hd'); right|]. do 2 (split; [done|]). by apply closed_refuses.
Qed.

Lemma life_ordered_at later e before : life_ordered (later ++ e :: before) -> life_lawful e before.
Proof. induction later as [|x later IH]; cbn; [by intros []|]. intros []. auto. Qed.
Lemma commits_once later a work before : life_ordered (later ++ ShutdownCommitted a work :: before) -> ~ commits later /\ ~ commits before.
Proof.
  intros Ho. split; [|by apply (life_ordered_at later) in Ho as []]. intros (b & work' & (l1 & l2 & ->)%list_elem_of_split).
  rewrite <-app_assoc in Ho. cbn in Ho. apply life_ordered_at in Ho as [_ Hn]. apply Hn. exists a, work. apply elem_of_app. right. by left.
Qed.

(** (C3) What a shutdown closes is what was confirmed: a commit follows its
    durable reservation, nothing was committed before it or is afterwards, and
    its plan has every run that is alive, although checks, reservation and
    closing go on without the runtime's mutex; a terminal is closed only after
    the commit, and only if its run is in the committed plan. *)
Theorem shutdown_covers_live_runs epoch d :
  served epoch d ->
  (forall later a work before, dm_log d = later ++ ShutdownCommitted a work :: before ->
     ShutdownReserved a ∈ before /\ ~ commits before /\ ~ commits later /\ covers (dm_rt d) work) /\
  (forall later r err before, dm_log d = later ++ CloseCalled r err :: before ->
     exists a work snapshot, ShutdownCommitted a work ∈ before /\ (r, snapshot) ∈ wk_children work).
Proof.
  intros Hd%served_ok. pose proof (do_ordered _ Hd) as Ho. split.
  - intros later a work before E. rewrite E in Ho. destruct (commits_once _ _ _ _ Ho) as [Hl Hb].
    apply life_ordered_at in Ho as [Hr _]. split_and!; [done|done|done|]. apply (do_covers _ Hd a). rewrite E. apply elem_of_app. right. by left.
  - intros later r err before E. rewrite E in Ho. by apply life_ordered_at in Ho.
Qed.

(** One coordinator at a time: the pending counter counts the goroutines
    of the shutdowns, the writes of the updates and nothing else, and is at
    most one; a shutdown is being prepared exactly while its goroutine is
    under way, no launch or resume is then pending, and the first epoch is
    recorded alone. *)
Theorem lifecycle_single_flight epoch d :
  served epoch d ->
  lc_pending (dm_life d) = msize (dm_shutdowns d) + llen (dm_updates d) /\ lc_pending (dm_life d) <= 1 /\
  (lc_preparing (dm_life d) = true <-> exists a work w, dm_shutdowns d !! a = Some (work, w)) /\
  (lc_preparing (dm_life d) = true -> dm_updates d = [] /\ ow_pending (dm_rt d) = 0) /\
  (lc_starting (dm_life d) = true -> lc_pending (dm_life d) = 0 /\ lc_bound (dm_life d) = false).
Proof.
  intros Hd%served_ok. pose proof Hd as [H1 H2 H3 H4 H5 H6 H7 H8 H9 H10 H11 H12 H13 H14 H15 H16].
  pose proof (llen_nonneg (dm_updates d)). split_and!; auto.
  - rewrite H6, Z.ltb_lt. split.
    + intros Hm. destruct (decide (dm_shutdowns d = ∅)) as [E|Hne]; [by rewrite E in Hm|].
      apply map_choose in Hne as (a & [work w] & Hw). eauto.
    + intros (a & work & w & Hw). by apply (msize_positive _ a (work, w)).
  - intros Hp. split; [|by apply H9; left]. apply no_updates. rewrite H6, Z.ltb_lt in Hp. lia.
  - destruct H7 as [-> H7]. done.
Qed.

(** ** Examples *)

(** The launch of [Ownership.v], published, then previewed, confirmed and
    closed. *)
Definition ex_launched (k : nat) : Daemon := mkDaemon (ex_turns k) ∅ [] false [].
Definition ex_random : option (list ascii) := Some (replicate 16 (ascii_of_nat 17)).
Definition ex_previewed : Daemon :=
  put_rt (ex_launched 7) (fst (PreviewShutdown (dm_rt (ex_launched 7)) None ex_random)).
Definition ex_binding : ShutdownBindingState :=
  match lc_preview (dm_life ex_previewed) with Some p => sp_binding p | None => shutdownBindingLocked (dm_rt ex_previewed) "" end.
Definition ex_journal : JournalKind := mkJournalKind true true true.
Definition ex_confirmation : ShutdownConfirmation := mkConfirmation ex_binding true.
Definition ex_closing : nat -> bool := fun _ => true.
Definition ex_confirmed : Daemon := do_confirm ex_journal ex_closing ex_previewed None ex_confirmation shutdownManual ex_update.
Definition ex_shutdown_answers : ShutdownAnswers := mkShutdownAnswers None (Ok ex_profile) None None false (fun _ => None) None.
Definition ex_shutdown (k : nat) : Daemon := Nat.iter k (fun d => turn_shutdown ex_journal d 0 ex_shutdown_answers) ex_confirmed.

Lemma ex_launched_served k : served ex_run (ex_launched k).
Proof.
  exists ex_runtime. split; [by vm_compute|]. eapply star_trans; [apply star_one, (dn_own (new_daemon ex_runtime)), (os_enter_launch _ None ex_request)|].
  induction k as [|k IH]; [apply star_refl|]. eapply star_trans; [exact IH|].
  apply star_one, (dn_own (ex_launched k)), (os_turn_launch _ 0 ex_answers).
Qed.
Lemma turns_star j n k d : star daemon_step d (Nat.iter k (fun d => turn_shutdown j d 0 n) d).
Proof. induction k as [|k IH]; [apply star_refl|]. eapply star_trans; [exact IH|]. apply star_one. cbn [Nat.iter]. apply dn_shutdown. Qed.
Lemma served_star epoch d d' : served epoch d -> star daemon_step d d' -> served epoch d'.
Proof. intros (s & Hs & Hd) Hs'. exists s. split; [done|]. by eapply star_trans. Qed.
Lemma ex_confirmed_served : served ex_run ex_confirmed.
Proof.
  unfold ex_confirmed. eapply served_star; [|apply star_one, dn_confirm]. unfold ex_previewed.
  eapply served_star; [|apply star_one, dn_preview]. apply ex_launched_served.
Qed.
Lemma ex_shutdown_served k : served ex_run (ex_shutdown k).
Proof. eapply served_star; [apply ex_confirmed_served|]. unfold ex_shutdown. apply turns_star. Qed.
Lemma ex_shutdown_star k : star daemon_step (ex_shutdown 5) (ex_shutdown (k + 5)).
Proof. unfold ex_shutdown. rewrite Nat.iter_add. apply turns_star. Qed.

Definition ex_work : ShutdownWork := match dm_shutdowns ex_confirmed !! 0%nat with Some (work, _) => work | None => mkWork [] 0 end.
Definition ex_other_request : LaunchRequest := mkLaunchRequest ex_run ex_wid "codex-main" "request-2".
Definition ex_ticket : shutdownTicket :=
  match lc_heap (dm_life (ex_shutdown 8)) !! 0%nat with Some t => t | None => new_shutdown ex_confirmation shutdownManual ex_update end.

(** The whole run, evaluated once. *)
Lemma ex_evaluated :
  (dm_log (ex_shutdown 8), dm_log (ex_shutdown 5), llen (wk_children ex_work), lc_preparing (dm_life (ex_shutdown 3)),
   ow_tickets (dm_rt (ex_shutdown 8)) !! "request-2",
   snd (confirmShutdown ex_journal ex_closing (dm_rt ex_previewed) None ex_confirmation shutdownManual ex_update),
   (lc_heap (dm_life (ex_shutdown 8)) !! 0%nat, ht_done ex_ticket, sh_outcome (ht_result ex_ticket)))
  = ([CloseCalled 0 None] ++ ShutdownCommitted 0 ex_work :: [ShutdownReserved 0], [ShutdownCommitted 0 ex_work; ShutdownReserved 0], 1, true,
     None, ConfirmStarted 0 ex_work, (Some ex_ticket, true, ShutdownDraining)).
Proof. by vm_compute. Qed.
Lemma ex_facts :
  dm_log (ex_shutdown 8) = [CloseCalled 0 None] ++ ShutdownCommitted 0 ex_work :: [ShutdownReserved 0] /\
  dm_log (ex_shutdown 5) = [ShutdownCommitted 0 ex_work; ShutdownReserved 0] /\ llen (wk_children ex_work) = 1 /\
  lc_preparing (dm_life (ex_shutdown 3)) = true /\ ow_tickets (dm_rt (ex_shutdown 8)) !! "request-2" = None /\
  snd (confirmShutdown ex_journal ex_closing (dm_rt ex_previewed) None ex_confirmation shutdownManual ex_update) = ConfirmStarted 0 ex_work /\
  lc_heap (dm_life (ex_shutdown 8)) !! 0%nat = Some ex_ticket /\ ht_done ex_ticket = true /\ sh_outcome (ht_result ex_ticket) = ShutdownDraining.
Proof.
  pose proof ex_evaluated as H. apply pair_parts in H as [H H7]. apply pair_parts in H as [H H6]. apply pair_parts in H as [H H5].
  apply pair_parts in H as [H H4]. apply pair_parts in H as [H H3]. apply pair_parts in H as [H H2].
  apply pair_parts in H7 as [H7 H9]. apply pair_parts in H7 as [H7 H8].
  repeat (split; [assumption|]). assumption.
Qed.

Lemma shutdown_fences_starts_witness :
  commits (dm_log (ex_shutdown 5)) /\ exists e, Launch_enter (dm_rt (ex_shutdown 8)) None ex_other_request = (dm_rt (ex_shutdown 8), Refused e).
Proof.
  destruct ex_facts as (_ & Hlog & _ & _ & Hnone & _).
  assert (Hc : commits (dm_log (ex_shutdown 5))) by (exists 0%nat, ex_work; rewrite Hlog; by left). split; [exact Hc|].
  destruct (shutdown_fences_starts ex_run (ex_shutdown 5) (ex_shutdown (3 + 5)) (ex_shutdown_served 5) Hc (ex_shutdown_star 3)) as (_ & _ & _ & _ & H & _).
  exact (H ex_other_request Hnone).
Defined.

Lemma shutdown_covers_live_runs_witness :
  llen (wk_children ex_work) = 1 /\ ShutdownReserved 0 ∈ [ShutdownReserved 0] /\ covers (dm_rt (ex_shutdown 8)) ex_work /\
  exists a work snapshot, ShutdownCommitted a work ∈ [ShutdownCommitted 0 ex_work; ShutdownReserved 0] /\ (0%nat, snapshot) ∈ wk_children work.
Proof.
  destruct ex_facts as (Hlog & _ & Hone & _). split; [exact Hone|].
  destruct (shutdown_covers_live_runs ex_run (ex_shutdown 8) (ex_shutdown_served 8)) as [H1 H2].
  destruct (H1 _ _ _ _ Hlog) as (Hr & _ & _ & Hc). do 2 (split; [assumption|]). exact (H2 [] 0%nat None _ Hlog).
Defined.

Lemma lifecycle_single_flight_witness :
  lc_preparing (dm_life (ex_shutdown 3)) = true /\ lc_pending (dm_life (ex_shutdown 3)) <= 1 /\ dm_updates (ex_shutdown 3) = [].
Proof.
  destruct ex_facts as (_ & _ & _ & Hp & _). split; [exact Hp|].
  destruct (lifecycle_single_flight ex_run (ex_shutdown 3) (ex_shutdown_served 3)) as (_ & H1 & _ & H2 & _).
  split; [exact H1|exact (proj1 (H2 Hp))].
Defined.
