(* ===== verification/ShutdownOutcome.v ===== *)
(** * What a shutdown answers

    The goroutine of a confirmed shutdown ends, and its ticket then tells the
    truth about what happened: the model is [Shutdown.v], its invariant
    [Handover.v]. *)

From S2P Require Import Prelude GoStrings GoTime RuntimeValues Launch Control Lifecycle Recovery Output OutputCapture.
From S2P Require Import Owner Ownership Shutdown OwnerFrame Handover.

(** ** Steps that leave the shutdowns alone *)

Record quiet (d d' : Daemon) : Prop := {
  qu_heap : lc_heap (dm_life d') = lc_heap (dm_life d);
  qu_tickets : lc_tickets (dm_life d') = lc_tickets (dm_life d);
  qu_shutdowns : dm_shutdowns d' = dm_shutdowns d;
  qu_log : dm_log d' = dm_log d;
  qu_uncertain : lc_uncertain (dm_life d) = true -> lc_uncertain (dm_life d') = true }.

Lemma quiet_put d s up st :
  lc_heap (ow_life s) = lc_heap (dm_life d) -> lc_tickets (ow_life s) = lc_tickets (dm_life d) ->
  (lc_uncertain (dm_life d) = true -> lc_uncertain (ow_life s) = true) ->
  quiet d (mkDaemon (with_rt (dm_sys d) s) (dm_shutdowns d) up st (dm_log d)).
Proof. intros H1 H2 H3. by split. Qed.

Lemma quiet_finish d candidate err up :
  quiet d (mkDaemon (with_rt (dm_sys d) (finishUpdateLocked (dm_rt d) candidate err)) (dm_shutdowns d) up (dm_starting d) (dm_log d)).
Proof.
  unfold finishUpdateLocked. set (s1 := set_life _ _).
  apply quiet_put; autorewrite with changed; destruct err as [e|]; try destruct (errors_is e commit_uncertain); cbn; auto.
Qed.

(** A confirmation that starts a goroutine, or a turn of one. *)
Lemma daemon_step_kind d d' : daemon_ok d -> daemon_step d d' ->
  quiet d d' \/
  (exists j closing ctx request purpose target s a work,
     confirmShutdown j closing (dm_rt d) ctx request purpose target = (s, ConfirmStarted a work) /\
     d' = do_confirm j closing d ctx request purpose target) \/
  (exists j a n, d' = turn_shutdown j d a n).
Proof.
  intros Hd Hs. destruct Hs; try (right; right; by repeat eexists); [left|left|left|left| |left|left|left|left|left].
  - pose proof (of_life _ _ (own_step_frame _ _ (do_sys _ Hd) H)) as E. by split; unfold dm_life, dm_rt in *; cbn; rewrite ?E.
  - unfold set_controls. apply quiet_put; by autorewrite with changed.
  - apply quiet_put; unfold PreviewShutdown; repeat case_match; done.
  - apply quiet_put; unfold CancelShutdown; case_match; done.
  - destruct (confirmShutdown j closing (dm_rt d) ctx request purpose target) as [s [e|a|a work]] eqn:E; [left|left|right; left; by repeat eexists];
      unfold do_confirm; rewrite E; unfold confirmShutdown in E; repeat (case_match; simplify_eq); by apply quiet_put.
  - unfold do_initialize, InitializeLifecycle_enter. destruct (_ || _); [by apply quiet_put|].
    destruct (negb (jk_lifecycle j)); cbn -[changedLocked]; apply quiet_put; by autorewrite with changed.
  - unfold end_initialize, InitializeLifecycle_end. destruct (dm_starting d); [|by split]. cbn -[changedLocked restored_deferral].
    apply quiet_put; destruct (restored_deferral answer) as [|e]; cbn -[changedLocked]; autorewrite with changed; cbn; try done. by case_match.
  - assert (Hb : forall candidate, quiet d (begin_update d (begin_lifecycle (dm_rt d)) candidate))
      by (intros; unfold begin_update; cbn -[changedLocked begin_lifecycle]; apply quiet_put; unfold begin_lifecycle; autorewrite with changed; auto).
    unfold do_attempt, AttemptUpdate_enter. destruct ctx; [done|].
    destruct (NewUpdateDeferral _ _); [|done]. destruct (random_id random); [|done]. destruct (updateRepositoryLocked _ _); [done|].
    destruct (exhausted _); [done|]. destruct (updateMetadataBusyLocked _); [done|]. destruct (lc_deferral _); [by destruct (retargeted _ _)|].
    by destruct (us_quiescent _).
  - unfold do_notice, PublishDueUpdateNotice_enter. repeat (case_match; simplify_eq); unfold begin_update; cbn -[changedLocked begin_lifecycle]; apply quiet_put; unfold begin_lifecycle; autorewrite with changed; auto.
  - unfold end_update. destruct (dm_updates d) as [|candidate rest]; [by split|]. cbn -[finishUpdateLocked].
    destruct result as [[[r id] now]|]; [|apply quiet_finish]. unfold AttemptUpdate_end. destruct (_ && _); [|apply quiet_finish].
    destruct (quiet_finish d candidate err rest). by apply quiet_put.
Qed.

(** ** The outcome is what happened *)

(** A completed ticket: every terminal of the plan was closed, or the outcome
    is unknown and the daemon says so for good, or nothing was committed. *)
Definition outcome_true (d : Daemon) (a : nat) (t : shutdownTicket) : Prop :=
  (sh_outcome (ht_result t) = ShutdownDraining /\ ht_err t = None /\
     exists work, ShutdownCommitted a work ∈ dm_log d /\ sh_closed (ht_result t) = llen (wk_children work) /\
       forall r snapshot, (r, snapshot) ∈ wk_children work -> CloseCalled r None ∈ dm_log d) \/
  (sh_outcome (ht_result t) = ShutdownUnknown /\ ht_err t = Some ErrShutdownUnknown /\ lc_uncertain (dm_life d) = true) \/
  (sh_outcome (ht_result t) = ShutdownRejected /\ ht_err t <> None /\ forall work, ShutdownCommitted a work ∉ dm_log d).

Definition all_closed (log : list LifeEvent) (work : ShutdownWork) : Prop :=
  forall r snapshot, (r, snapshot) ∈ wk_children work -> CloseCalled r None ∈ log.
(** What the goroutine is about to answer. *)
Definition answer_true (log : list LifeEvent) (a : nat) (work : ShutdownWork) (w : SWorker) : Prop :=
  match w with
  | SSave result =>
      ShutdownCommitted a work ∈ log /\
      (sh_outcome result = ShutdownUnknown \/
       sh_outcome result = ShutdownDraining /\ sh_closed result = llen (wk_children work) /\ all_closed log work)
  | SFinish result err true =>
      sh_outcome result = ShutdownUnknown /\ err = Some ErrShutdownUnknown \/
      sh_outcome result = ShutdownDraining /\ err = None /\ sh_closed result = llen (wk_children work) /\ all_closed log work /\
        ShutdownCommitted a work ∈ log
  | SFinish result err false =>
      sh_outcome result = ShutdownUnknown /\ err = Some ErrShutdownUnknown \/ sh_outcome result = ShutdownRejected /\ err <> None
  | _ => True
  end.
Definition unanswered (t : shutdownTicket) : Prop := ht_result t = mkShutdownResult (sc_binding (ht_confirmation t)) ShutdownPending 0.

Record settled (d : Daemon) : Prop := {
  se_worker : forall a work w t, dm_shutdowns d !! a = Some (work, w) -> lc_heap (dm_life d) !! a = Some t ->
    unanswered t /\ answer_true (dm_log d) a work w;
  se_done : forall a t, lc_heap (dm_life d) !! a = Some t -> ht_done t = true -> outcome_true d a t }.

Lemma answer_log evs log a work w : answer_true log a work w -> answer_true (evs ++ log) a work w.
Proof.
  assert (Hall : all_closed log work -> all_closed (evs ++ log) work) by (intros H r x Hin; apply elem_of_app; right; by apply (H r x)).
  destruct w as [| | | | | |? ? []|]; cbn; try done; rewrite elem_of_app; naive_solver.
Qed.
Lemma outcome_log evs d d' a t :
  dm_log d' = evs ++ dm_log d -> (lc_uncertain (dm_life d) = true -> lc_uncertain (dm_life d') = true) ->
  (forall work, ShutdownCommitted a work ∉ evs) -> outcome_true d a t -> outcome_true d' a t.
Proof.
  intros E Hu He [(H1 & H2 & work & H3 & H4 & H5)|[(H1 & H2 & H3)|(H1 & H2 & H3)]]; unfold outcome_true; rewrite E.
  - left. do 2 (split; [done|]). exists work. rewrite elem_of_app. do 2 (split; [auto|]). intros r x Hin. apply elem_of_app. right. by apply (H5 r x).
  - right. left. auto.
  - right. right. do 2 (split; [done|]). intros w. rewrite not_elem_of_app. auto.
Qed.

Lemma settled_quiet d d' : settled d -> quiet d d' -> settled d'.
Proof.
  intros [H1 H2] [E1 E2 E3 E4 Hu]. split.
  - intros a work w t. rewrite E1, E3, E4. apply H1.
  - intros a t. rewrite E1. intros Ht Hd. specialize (H2 a t Ht Hd).
    apply (outcome_log [] d); [done|done| |done]. intros work Hin. by apply elem_of_nil in Hin.
Qed.

Lemma started_inv j closing s ctx request purpose target s' a work :
  confirmShutdown j closing s ctx request purpose target = (s', ConfirmStarted a work) ->
  exists t, unanswered t /\ ht_done t = false /\ ht_confirmation t = request /\ a = fresh (dom (lc_heap (ow_life s))) /\
    ow_life s' = set_phase_flags (set_shutdowns (ow_life s) (<[sd_preview (sc_binding request) := a]> (lc_tickets (ow_life s)))
      (<[a := t]> (lc_heap (ow_life s)))) true (lc_committed (ow_life s)) (lc_pending (ow_life s) + 1).
Proof.
  unfold confirmShutdown. destruct ctx; [done|]. destruct (confirm_syntax _ _ _); [done|].
  destruct (lc_tickets _ !! _) as [b|]; [destruct (lc_heap _ !! b); [destruct (same_ticket _ _ _ _)|]; done|].
  destruct (confirm_refusal _ _ _ _ _); [done|]. destruct (closing_children _ _ _); [|done]. destruct (_ <=? _); [done|].
  unfold admit_shutdown. set (b := fresh _). intros [= <- <- _]. exists (new_shutdown request purpose target).
  do 4 (split; [done|]). by autorewrite with changed.
Qed.

(** The goroutine's worker and ticket after a turn. *)
Lemma settled_turn d a work w t s' w' evs :
  daemon_ok d -> settled d -> dm_shutdowns d !! a = Some (work, w) -> lc_heap (dm_life d) !! a = Some t ->
  ow_life s' = dm_life d \/ (exists p c n, ow_life s' = set_phase_flags (dm_life d) p c n) ->
  (forall b work', ShutdownCommitted b work' ∈ evs -> b = a) -> answer_true (evs ++ dm_log d) a work w' ->
  settled (mkDaemon (with_rt (dm_sys d) s') (<[a := (work, w')]> (dm_shutdowns d)) (dm_updates d) (dm_starting d) (evs ++ dm_log d)).
Proof.
  intros Hd [H1 H2] Hw Ht El Hev Ha. pose proof (H1 _ _ _ _ Hw Ht) as [Hu _].
  destruct (do_worker _ Hd a work w Hw) as [(t' & Ht' & Hnd) _]. rewrite Ht in Ht'. injection Ht' as <-.
  assert (E : lc_heap (ow_life s') = lc_heap (dm_life d) /\ lc_uncertain (ow_life s') = lc_uncertain (dm_life d))
    by (destruct El as [->|(p & c & n & ->)]; done). destruct E as [Eh Eu].
  split; unfold dm_life, dm_rt; cbn; rewrite ?Eh.
  - intros b work' v u. rewrite lookup_insert. case_decide as E.
    + subst b. intros [= <- <-] Hb. fold (dm_life d) in Hb. split; [congruence|done].
    + intros Hb Hbt. destruct (H1 b work' v u Hb Hbt) as [? Hv]. split; [done|by apply answer_log].
  - intros b u Hb Hdone. assert (b <> a) by (intros ->; unfold dm_life in *; congruence). specialize (H2 b u Hb Hdone).
    apply (outcome_log evs d); [done|by unfold dm_life, dm_rt; cbn; rewrite Eu| |done]. intros work' Hin. by apply Hev in Hin.
Qed.

Lemma close_unknown n children r : sh_outcome r = ShutdownUnknown -> sh_outcome (fold_left (close_one n) children r) = ShutdownUnknown.
Proof. revert r. induction children as [|c l IH]; [done|]. intros r Hr. cbn. apply IH. unfold close_one. by case_match. Qed.
Lemma close_outcome n children result :
  sh_outcome result <> ShutdownUnknown -> let r := fold_left (close_one n) children result in
  sh_outcome r = ShutdownUnknown \/
  sh_outcome r <> ShutdownUnknown /\ sh_closed r = sh_closed result + llen children /\ Forall (fun c => ha_close n (fst c) = None) children.
Proof.
  cbn zeta. revert result. induction children as [|c l IH]; intros result Hr; cbn.
  - right. split_and!; [done| |done]. unfold llen. cbn. lia.
  - assert (El : llen (c :: l) = llen l + 1) by (unfold llen; cbn; lia). unfold close_one at 2 4 6. destruct (ha_close n (fst c)) eqn:E.
    + left. by apply close_unknown.
    + set (r1 := mkShutdownResult _ _ _). destruct (IH r1 Hr) as [?|(? & Er & Hf)]; [by left|]. right. rewrite Er, El.
      split_and!; [done|cbn; lia|by constructor].
Qed.
Lemma shutdown_close_true t a work n log :
  unanswered t -> ShutdownCommitted a work ∈ log ->
  answer_true (map (fun child => CloseCalled (fst child) (ha_close n (fst child))) (wk_children work) ++ log) a work
    (SSave (shutdown_close t work n)).
Proof.
  intros Hu Hin. cbn. split; [apply elem_of_app; by right|]. assert (Hp : sh_outcome (ht_result t) <> ShutdownUnknown) by (rewrite Hu; done).
  pose proof (close_outcome n (wk_children work) (ht_result t) Hp) as Hc. unfold shutdown_close. cbn zeta in *.
  destruct Hc as [E|(E & Ec & Hf)].
  - rewrite E. by left.
  - apply String.eqb_neq in E as ->. cbn. right. split; [done|]. rewrite Ec, Hu. split; [done|]. intros r x Hrx.
    apply elem_of_app. left. apply list_elem_of_fmap. exists (r, x). split; [|done]. rewrite Forall_forall in Hf. pose proof (Hf (r, x) Hrx) as Hn. cbn in Hn |- *. by rewrite Hn.
Qed.

Lemma settled_finish d a work t result err committed evs :
  daemon_ok d -> settled d -> dm_shutdowns d !! a = Some (work, SFinish result err committed) -> lc_heap (dm_life d) !! a = Some t ->
  (forall b work', ShutdownCommitted b work' ∉ evs) ->
  settled (mkDaemon (with_rt (dm_sys d) (finishShutdown (dm_rt d) a t result err committed)) (delete a (dm_shutdowns d)) (dm_updates d)
    (dm_starting d) (evs ++ dm_log d)).
Proof.
  intros Hd [H1 H2] Hw Ht Hev. destruct (H1 _ _ _ _ Hw Ht) as [_ Ha]. destruct (do_worker _ Hd a work _ Hw) as [_ Hat].
  set (t1 := mkShutdownTicket (ht_confirmation t) (ht_purpose t) (ht_target t) result err true).
  set (d' := mkDaemon _ _ _ _ _).
  assert (E : lc_heap (dm_life d') = <[a := t1]> (lc_heap (dm_life d)) /\
    lc_uncertain (dm_life d') = (if sh_outcome result =?s ShutdownUnknown then true else lc_uncertain (dm_life d))).
  { subst d'. unfold dm_life, dm_rt. cbn. unfold finishShutdown. autorewrite with changed. by destruct (_ || committed). }
  destruct E as [Eh Eu]. split; rewrite Eh.
  - intros b work' w u. cbn. rewrite lookup_delete, lookup_insert. case_decide; [done|]. intros Hb Hbt.
    destruct (H1 b work' w u Hb Hbt) as [? Hv]. split; [done|by apply answer_log].
  - intros b u. rewrite lookup_insert. case_decide as E.
    + intros [= <-] _. subst b. unfold outcome_true. cbn [ht_result ht_err t1]. rewrite Eu.
      assert (Hfin : sh_outcome result = ShutdownUnknown /\ err = Some ErrShutdownUnknown \/ outcome_true d' a t1).
      { destruct committed; cbn in Ha.
        - destruct Ha as [Ha|(Ho & He & Hc & Hall & Hin)]; [by left|right]. left. do 2 (split; [done|]). exists work.
          split; [by apply elem_of_app; right|]. split; [done|]. intros r x Hx. apply elem_of_app. right. by apply (Hall r x).
        - destruct Ha as [Ha|[Ho He]]; [by left|right]. right. right. do 2 (split; [done|]). intros work' [Hin|Hin]%elem_of_app; [by apply Hev in Hin|].
          assert (Hc : lc_committed (dm_life d) = true) by (apply (do_committed _ Hd); by exists a, work'). cbn in Hat. unfold dm_life in Hc. congruence. }
      destruct Hfin as [[Ho He]|Hfin]; [|by rewrite <-Eu]. right. left. rewrite Ho. done.
    + intros Hb Hdone. apply (outcome_log evs d); [done| |intros ? Hin; by apply Hev in Hin|by apply H2]. rewrite Eu. intros ->. by case_match.
Qed.

Lemma settled_shutdown j d a n : daemon_ok d -> settled d -> settled (turn_shutdown j d a n).
Proof.
  intros Hd Hs. unfold turn_shutdown. destruct (dm_shutdowns d !! a) as [[work w]|] eqn:Hw; [|done].
  destruct (lc_heap (dm_life d) !! a) as [t|] eqn:Ht; [|done].
  destruct (do_worker _ Hd a work w Hw) as [_ Hat]. destruct (se_worker _ Hs _ _ _ _ Hw Ht) as [Hu Ha].
  assert (Hsilent : forall w', answer_true (dm_log d) a work w' ->
    settled (mkDaemon (with_rt (dm_sys d) (dm_rt d)) (<[a := (work, w')]> (dm_shutdowns d)) (dm_updates d) (dm_starting d) (dm_log d))).
  { intros w' Hw'. apply (settled_turn d a work w t _ w' []); auto. intros b work' Hin. by apply elem_of_nil in Hin. }
  destruct w; cbn.
  - assert (En : shutdown_next (shutdown_check t rest n) = Some (shutdown_check t rest n) /\ answer_true (dm_log d) a work (shutdown_check t rest n)).
    { unfold shutdown_check. destruct rest as [|[r x] rest]; [done|]. destruct (check_child _ _); [|done]. split; [done|by right]. }
    destruct En as [-> En]. by apply Hsilent.
  - unfold shutdown_decide. destruct (_ || _); apply Hsilent; [by right|done].
  - unfold shutdown_reserve. destruct (ha_reserve n) as [e|].
    + destruct (_ || _); apply Hsilent; [by left|by right].
    + apply (settled_turn d a work SReserve t _ SCommit [ShutdownReserved a]); auto. by intros b work' Hin%list_elem_of_singleton.
  - apply (settled_turn d a work SCommit t _ SClose [ShutdownCommitted a work]); auto.
    + right. unfold shutdown_commit. autorewrite with changed. by do 3 eexists.
    + by intros b work' [= -> ->]%list_elem_of_singleton.
  - apply (settled_turn d a work SClose t _ _ (map _ _)); auto; [by intros b work' (? & ? & _)%list_elem_of_fmap|].
    apply shutdown_close_true; [done|apply Hat].
  - destruct Ha as [Hin Ha]. assert (Hsave : exists r e, shutdown_save j t result n = SFinish r e true /\
      answer_true (dm_log d) a work (SFinish r e true)).
    { unfold shutdown_save. set (err := match ht_purpose t with shutdownUpdate => _ | shutdownManual => _ end).
      destruct err; [by do 2 eexists; split; [done|]; left|].
      destruct Ha as [->|(Ho & Hc & Hall)]; [by do 2 eexists; split; [done|]; left|]. rewrite Ho. cbn. do 2 eexists. split; [done|]. by right. }
    destruct Hsave as (r & e & -> & Hf). by apply Hsilent.
  - apply settled_finish with work; auto. destruct err; [by intros ? ? ?%elem_of_nil|]. case_match; [|by intros ? ? ?%elem_of_nil].
    by intros ? ? ?%list_elem_of_singleton.
  - done.
Qed.

Lemma confirm_started j closing d ctx request purpose target s a work :
  confirmShutdown j closing (dm_rt d) ctx request purpose target = (s, ConfirmStarted a work) ->
  do_confirm j closing d ctx request purpose target =
    mkDaemon (with_rt (dm_sys d) s) (<[a := (work, SCheck (wk_children work))]> (dm_shutdowns d)) (dm_updates d) (dm_starting d) (dm_log d).
Proof. intros E. unfold do_confirm. by rewrite E. Qed.

Lemma settled_confirm j closing d ctx request purpose target s a work :
  settled d -> confirmShutdown j closing (dm_rt d) ctx request purpose target = (s, ConfirmStarted a work) ->
  settled (do_confirm j closing d ctx request purpose target).
Proof.
  intros [H1 H2] E. rewrite (confirm_started _ _ _ _ _ _ _ _ _ _ E).
  destruct (started_inv _ _ _ _ _ _ _ _ _ _ E) as (t & Hu & Hnd & _ & _ & El).
  split; unfold dm_life, dm_rt; cbn; rewrite El; cbn.
  - intros b work' w u. rewrite !lookup_insert. case_decide; [intros [= <- <-] [= <-]; split; done|]. apply H1.
  - intros b u. rewrite lookup_insert. case_decide; [congruence|]. intros Hb Hdone.
    apply (outcome_log [] d); [done|unfold dm_life at 2, dm_rt; cbn; by rewrite El|by intros ? ?%elem_of_nil|by apply H2].
Qed.

Lemma settled_step d d' : daemon_ok d /\ settled d -> daemon_step d d' -> daemon_ok d' /\ settled d'.
Proof.
  intros [Hd He] Hs. split; [by apply (daemon_step_ok d)|].
  destruct (daemon_step_kind _ _ Hd Hs) as [Hq|[(j & closing & ctx & q & p & t & s & a & work & E & ->)|(j & a & n & ->)]].
  - by apply (settled_quiet d).
  - by apply (settled_confirm _ _ _ _ _ _ _ s a work).
  - by apply settled_shutdown.
Qed.
Lemma served_settled epoch d : served epoch d -> daemon_ok d /\ settled d.
Proof.
  intros (s & Hs & Hd). refine (star_invariant daemon_step (fun d => daemon_ok d /\ settled d) settled_step _ _ Hd _). split; [by eapply new_daemon_ok|].
  unfold NewRuntime in Hs. case_match; [done|]. injection Hs as <-. by split.
Qed.

(** (C4) A shutdown's answer tells what happened, whatever the others do in the
    meantime: a ticket that is not done answers pending; once done, draining
    means that its plan was committed and every terminal of it was closed
    without an error, rejected that it never was committed, and unknown that
    the daemon has marked itself uncertain, for good. *)
Theorem shutdown_outcome_exact epoch d a t :
  served epoch d -> lc_heap (dm_life d) !! a = Some t ->
  (ht_done t = false -> ht_result t = mkShutdownResult (sc_binding (ht_confirmation t)) ShutdownPending 0) /\
  (ht_done t = true -> outcome_true d a t).
Proof.
  intros [Hd He]%served_settled Ht. split; [|by apply (se_done _ He)]. intros Hn.
  destruct (do_open _ Hd a t Ht Hn) as [[work w] Hw]. exact (proj1 (se_worker _ He a work w t Hw Ht)).
Qed.

(** ** Every shutdown is answered *)

(** The turns of a shutdown's own goroutine are the steps to count. *)
Inductive shutdown_run (a : nat) : nat -> Daemon -> Daemon -> Prop :=
| hr_refl d : shutdown_run a 0 d d
| hr_other d u d' k : daemon_step d u -> shutdown_run a k u d' -> shutdown_run a k d d'
| hr_turn j d n d' k : shutdown_run a k (turn_shutdown j d a n) d' -> shutdown_run a (S k) d d'.

Definition srank (w : SWorker) : nat :=
  match w with
  | SCheck rest => List.length rest + 7 | SDecide => 6 | SReserve => 5 | SCommit => 4 | SClose => 3 | SSave _ => 2 | SFinish _ _ _ => 1
  | SDone => 0
  end.
Definition shutdown_left (d : Daemon) (a : nat) : nat := match dm_shutdowns d !! a with Some (_, w) => srank w | None => 0 end.

Lemma shutdown_turn_rank j s a t work w n w' : shutdown_next (snd (shutdown_turn j s a t work w n)) = Some w' -> (srank w' < srank w)%nat.
Proof.
  destruct w; cbn -[shutdown_check shutdown_decide shutdown_reserve shutdown_save]; try done.
  - unfold shutdown_check. destruct rest as [|[r x] rest]; [intros [= <-]; cbn; lia|]. destruct (check_child _ _); intros [= <-]; cbn; lia.
  - unfold shutdown_decide. case_match; intros [= <-]; cbn; lia.
  - unfold shutdown_reserve. repeat case_match; intros [= <-]; cbn; lia.
  - intros [= <-]; cbn; lia.
  - intros [= <-]; cbn; lia.
  - unfold shutdown_save. repeat case_match; intros [= <-]; cbn; lia.
Qed.

Lemma shutdown_turn_heap j s a t work w n : lc_heap (ow_life s) !! a = Some t ->
  let h := lc_heap (ow_life (fst (shutdown_turn j s a t work w n))) in
  is_Some (h !! a) /\ forall b, b <> a -> h !! b = lc_heap (ow_life s) !! b.
Proof.
  intros Ht. assert (Hsame : forall h, h = lc_heap (ow_life s) -> is_Some (h !! a) /\ forall b, b <> a -> h !! b = lc_heap (ow_life s) !! b)
    by (intros h ->; eauto).
  destruct w; cbn -[finishShutdown]; try (by apply Hsame).
  - apply Hsame. unfold shutdown_commit. by autorewrite with changed.
  - unfold finishShutdown. set (l1 := set_phase_flags _ _ _ _).
    assert (E : lc_heap l1 = <[a := mkShutdownTicket (ht_confirmation t) (ht_purpose t) (ht_target t) result err true]> (lc_heap (ow_life s))) by done.
    clearbody l1. match goal with |- context [changedLocked ?x] => assert (El : ow_life x = l1) by by case_match end.
    autorewrite with changed. rewrite El, E, lookup_insert_eq. split; [eauto|]. intros b Hb. by rewrite lookup_insert_ne.
Qed.

Lemma turn_left j d a n t : lc_heap (dm_life d) !! a = Some t ->
  is_Some (lc_heap (dm_life (turn_shutdown j d a n)) !! a) /\ (shutdown_left (turn_shutdown j d a n) a <= pred (shutdown_left d a))%nat.
Proof.
  intros Ht. unfold turn_shutdown, shutdown_left. destruct (dm_shutdowns d !! a) as [[work w]|] eqn:Hw; [|by rewrite Hw; split; [eauto|]].
  rewrite Ht. pose proof (shutdown_turn_heap j (dm_rt d) a t work w n Ht) as [Hh _].
  pose proof (shutdown_turn_rank j (dm_rt d) a t work w n) as Hr. destruct (shutdown_turn _ _ _ _ _ _ _) as [s w']. cbn in *. split; [done|].
  destruct (shutdown_next w') as [v|]; cbn; rewrite ?lookup_insert_eq, ?lookup_delete_eq; [specialize (Hr v eq_refl); lia|lia].
Qed.
Lemma other_left j d a b n : b <> a -> is_Some (lc_heap (dm_life d) !! b) ->
  is_Some (lc_heap (dm_life (turn_shutdown j d a n)) !! b) /\ shutdown_left (turn_shutdown j d a n) b = shutdown_left d b.
Proof.
  intros Hb Hs. unfold turn_shutdown, shutdown_left. destruct (dm_shutdowns d !! a) as [[work w]|]; [|done].
  destruct (lc_heap (dm_life d) !! a) as [t|] eqn:Ht; [|done]. pose proof (shutdown_turn_heap j (dm_rt d) a t work w n Ht) as [_ Hh].
  destruct (shutdown_turn _ _ _ _ _ _ _) as [s w']. cbn in *. split; [by rewrite Hh|].
  destruct (shutdown_next w'); cbn; by rewrite ?lookup_insert_ne, ?lookup_delete_ne.
Qed.

Lemma step_left d d' a : daemon_ok d -> daemon_step d d' -> is_Some (lc_heap (dm_life d) !! a) ->
  is_Some (lc_heap (dm_life d') !! a) /\ (shutdown_left d' a <= shutdown_left d a)%nat.
Proof.
  intros Hd Hs Ha. destruct (daemon_step_kind _ _ Hd Hs) as [Hq|[(j & closing & ctx & q & p & g & s & b & work & E & ->)|(j & b & n & ->)]].
  - unfold shutdown_left. rewrite (qu_heap _ _ Hq), (qu_shutdowns _ _ Hq). done.
  - rewrite (confirm_started _ _ _ _ _ _ _ _ _ _ E). destruct (started_inv _ _ _ _ _ _ _ _ _ _ E) as (t & _ & _ & _ & Eb & El).
    assert (Hne : b <> a) by (intros ->; rewrite Eb in Ha; destruct Ha as [x Hx]; pose proof (fresh_lookup (lc_heap (dm_life d))); unfold dm_life in *; congruence).
    unfold shutdown_left, dm_life, dm_rt. cbn. rewrite El. cbn. by rewrite !lookup_insert_ne.
  - destruct (decide (b = a)) as [->|Hne].
    + destruct Ha as [t Ht]. destruct (turn_left j d a n t Ht). split; [done|lia].
    + destruct (other_left j d b a n ltac:(done) Ha) as [? ->]. done.
Qed.

Lemma shutdown_run_left a k d d' : shutdown_run a k d d' -> daemon_ok d -> is_Some (lc_heap (dm_life d) !! a) ->
  daemon_ok d' /\ is_Some (lc_heap (dm_life d') !! a) /\ (shutdown_left d' a + k <= shutdown_left d a \/ shutdown_left d' a = 0)%nat.
Proof.
  intros Hr. induction Hr as [d|d u d' k Hs _ IH|j d n d' k _ IH]; intros Hd Ha; [eauto with lia| |].
  - destruct (step_left _ _ _ Hd Hs Ha) as [Hu Hl]. destruct (IH (daemon_step_ok _ _ Hd Hs) Hu) as (H1 & H2 & H3). split_and!; [done|done|lia].
  - destruct Ha as [t Ht]. destruct (turn_left j d a n t Ht) as [Hu Hl].
    destruct (IH (turn_shutdown_daemon_ok _ _ _ _ Hd) Hu) as (H1 & H2 & H3). split_and!; [done|done|lia].
Qed.

Lemma srank_done s log a work w : shutdown_at s log a work w -> (0 < srank w)%nat.
Proof. destruct w; cbn; [lia..|done]. Qed.

(** Every admitted shutdown is answered: in whatever way the steps of the
    callers, of the owner and of the other coordinators are interleaved, and
    whatever the children and the journal answer, its ticket is done after one
    turn of its goroutine for each child of the plan and seven more. *)
Theorem shutdown_answered epoch d j closing ctx request purpose target s a work k d' :
  served epoch d -> confirmShutdown j closing (dm_rt d) ctx request purpose target = (s, ConfirmStarted a work) ->
  shutdown_run a k (do_confirm j closing d ctx request purpose target) d' -> (List.length (wk_children work) + 7 <= k)%nat ->
  exists t, lc_heap (dm_life d') !! a = Some t /\ ht_done t = true.
Proof.
  intros Hd%served_ok E Hr Hk. pose proof (confirm_daemon_ok j closing d ctx request purpose target Hd) as Hd1.
  rewrite (confirm_started _ _ _ _ _ _ _ _ _ _ E) in *. destruct (started_inv _ _ _ _ _ _ _ _ _ _ E) as (t & _ & _ & _ & _ & El).
  destruct (shutdown_run_left _ _ _ _ Hr Hd1) as (Hd' & [t' Ht'] & Hl).
  { unfold dm_life, dm_rt. cbn. rewrite El. cbn. rewrite lookup_insert_eq. eauto. }
  assert (E1 : shutdown_left d' a = 0%nat) by (unfold shutdown_left at 2 in Hl; cbn in Hl; rewrite lookup_insert_eq in Hl; cbn in Hl; lia).
  exists t'. split; [done|]. destruct (ht_done t') eqn:Hdone; [done|exfalso]. destruct (do_open _ Hd' a t' Ht' Hdone) as [[work' w] Hw].
  destruct (do_worker _ Hd' a work' w Hw) as [_ Hat%srank_done]. unfold shutdown_left in E1. rewrite Hw in E1. lia.
Qed.

(** ** Examples *)

Lemma shutdown_outcome_exact_witness :
  sh_outcome (ht_result ex_ticket) = ShutdownDraining /\ outcome_true (ex_shutdown 8) 0 ex_ticket.
Proof.
  destruct ex_facts as (_ & _ & _ & _ & _ & _ & Ht & Hd & Ho). split; [exact Ho|].
  exact (proj2 (shutdown_outcome_exact ex_run (ex_shutdown 8) 0 ex_ticket (ex_shutdown_served 8) Ht) Hd).
Defined.

Lemma ex_turns_count j n k d : shutdown_run 0 k d (Nat.iter k (fun d => turn_shutdown j d 0 n) d).
Proof. revert d. induction k as [|k IH]; intros d; [constructor|]. rewrite Nat.iter_succ_r. apply (hr_turn 0 j _ n), IH. Qed.
Lemma ex_previewed_served : served ex_run ex_previewed.
Proof. unfold ex_previewed. eapply served_star; [|apply star_one, dn_preview]. apply ex_launched_served. Qed.
Lemma with_answer {A B} (p : A * B) (b : B) : snd p = b -> exists a, p = (a, b).
Proof. intros <-. exists (fst p). apply surjective_pairing. Qed.
Lemma ex_started : exists s,
  confirmShutdown ex_journal ex_closing (dm_rt ex_previewed) None ex_confirmation shutdownManual ex_update = (s, ConfirmStarted 0 ex_work).
Proof. destruct ex_facts as (_ & _ & _ & _ & _ & Hs & _). exact (with_answer _ _ Hs). Qed.
Lemma ex_run_count :
  shutdown_run 0 8 (do_confirm ex_journal ex_closing ex_previewed None ex_confirmation shutdownManual ex_update) (ex_shutdown 8).
Proof. unfold ex_shutdown, ex_confirmed. apply ex_turns_count. Qed.
Lemma one_child {A} (l : list A) : llen l = 1 -> (List.length l + 7 <= 8)%nat.
Proof. unfold llen. lia. Qed.
Lemma ex_work_turns : (List.length (wk_children ex_work) + 7 <= 8)%nat.
Proof. destruct ex_facts as (_ & _ & Hone & _). exact (one_child _ Hone). Qed.

Lemma shutdown_answered_witness : exists t, lc_heap (dm_life (ex_shutdown 8)) !! 0%nat = Some t /\ ht_done t = true.
Proof.
  destruct ex_started as [s Hs].
  exact (shutdown_answered ex_run ex_previewed ex_journal ex_closing None ex_confirmation shutdownManual ex_update s 0 ex_work 8 (ex_shutdown 8)
    ex_previewed_served Hs ex_run_count ex_work_turns).
Defined.
