(* ===== verification/Plans.v ===== *)
(** * Reading a shutdown plan, and offering an update

    The clients of [Shutdown.v].  A plan travels in pages of at most two runs
    ([shutdownPreviewReply] and the [shutdown_page] arm of [lifecycleReply] of
    [src/infrastructure/runtime/daemon_lifecycle_unix.go], [LocalDaemon]'s
    checks of the same file, and [ReadShutdownPlan] of
    [src/application/runtime/lifecycle_client.go]); an update is offered as
    the shutdown of an empty daemon ([src/application/runtime/update.go]). *)

From S2P Require Import Prelude GoStrings GoTime Sha256 RuntimeValues Launch Control Lifecycle Recovery Output OutputCapture.
From S2P Require Import Owner Ownership Shutdown OwnerFrame RunPages Handover.

(** ** The pages of the daemon *)

Section server.
(** The size of the reply's frame, when it is marshalled. *)
Context (frame : ShutdownPreviewPage -> option Z) (limit : Z).

Definition last_preview_run (rows : list ShutdownPreviewRun) : string :=
  match last rows with Some r => pv_run r | None => "" end.
Definition page_fits (page : ShutdownPreviewPage) : bool :=
  match frame page with Some size => size <=? limit | None => false end.
(** The loop that shortens the page, with the rows in reverse. *)
Fixpoint shorten (binding : ShutdownBindingState) (offset : Z) (next : string) (rev_rows : list ShutdownPreviewRun)
  : result ShutdownPreviewPage :=
  let page := mkPreviewPage binding offset (Some (reverse rev_rows)) next in
  if page_fits page then Ok page
  else
    match rev_rows with
    | _ :: ((r :: _) as rest) => shorten binding offset (pv_run r) rest
    | _ => Err ErrLimit
    end.
Definition shutdownPreviewReply (preview : ShutdownPreview) (start : nat) : result ShutdownPreviewPage :=
  let rows := map ShutdownPreviewRunFrom (take 2 (drop start (sp_runs preview))) in
  shorten (sp_binding preview) (Z.of_nat start)
    (if (start + 2 <? List.length (sp_runs preview))%nat then last_preview_run rows else "") (reverse rows).

(** The [shutdown_preview] and [shutdown_page] arms. *)
Definition preview_reply (s : Runtime) (epoch : string) (random : option (list ascii)) : Runtime * result ShutdownPreviewPage :=
  if epoch <>?s ow_epoch s then (s, Err ErrChanged)
  else
    let '(s1, answer) := PreviewShutdown s None random in
    (s1, let! preview := answer in shutdownPreviewReply preview 0).
Definition page_reply (s : Runtime) (r : ShutdownPageRequest) : result ShutdownPreviewPage :=
  let! preview := ReadShutdownPreview s (hq_binding r) in
  let index := search_run (sp_runs preview) (hq_cursor r) in
  match sp_runs preview !! index with
  | Some run => if (li_run (rn_identity run) <>?s hq_cursor r) || negb (Z.of_nat (S index) =? hq_offset r) then Err ErrChanged
                else shutdownPreviewReply preview (S index)
  | None => Err ErrChanged
  end.

(** [LocalDaemon]'s checks of the answers; what the wire carries is decoded to
    the page that was encoded. *)
Definition local_preview (epoch : string) (answer : result ShutdownPreviewPage) : result ShutdownPreviewPage :=
  if negb (LaunchIdentity_Valid (mkLaunchIdentity epoch epoch epoch)) then Err ErrRuntimeProtocol
  else
    let! page := answer in
    if negb (ShutdownPreviewPage_Valid page) || (sd_epoch (pp_binding page) <>?s epoch) || negb (pp_offset page =? 0)
    then Err ErrRuntimeProtocol else Ok page.
Definition valid_page_request (r : ShutdownPageRequest) : bool :=
  LaunchIdentity_Valid (mkLaunchIdentity (hq_cursor r) (hq_cursor r) (hq_cursor r)) && negb (hq_offset r <? 1)
  && is_ok (ShutdownBindingFrom (hq_binding r)) && (hq_offset r <=? sd_total (hq_binding r)).
Definition local_page (r : ShutdownPageRequest) (answer : result ShutdownPreviewPage) : result ShutdownPreviewPage :=
  if negb (valid_page_request r) then Err ErrRuntimeProtocol
  else
    let! page := answer in
    let first := match pp_runs page with Some (x :: _) => String.leb (pv_run x) (hq_cursor r) | _ => false end in
    if negb (ShutdownPreviewPage_Valid page) || negb (bool_decide (pp_binding page = hq_binding r))
       || negb (pp_offset page =? hq_offset r) || first
    then Err ErrRuntimeProtocol else Ok page.
(** A client of a runtime that stays as it is after the preview. *)
Definition local_client (s : Runtime) (epoch : string) (random : option (list ascii)) : LifecycleClient :=
  let '(s1, answer) := preview_reply s epoch random in
  mkLifecycleClient (local_preview epoch answer) (fun r => local_page r (page_reply s1 r)).
End server.

(** ** Valid rosters *)

Lemma valid_row_id r : ShutdownPreviewRun_Valid r = true -> validLaunchID (pv_run r) = true /\ pv_run r <> "".
Proof.
  unfold ShutdownPreviewRun_Valid, FreshnessBinding_valid. cbn.
  destruct (LaunchIdentity_Valid (ol_identity (pv_selection r))) eqn:E; [|done]. intros _.
  unfold LaunchIdentity_Valid in E. rewrite !andb_true_iff in E. destruct E as [[Hv _] _].
  fold (pv_run r) in Hv. split; [done|]. intros Er. by rewrite Er in Hv.
Qed.
Lemma roster_ok_cons previous x l : roster_ok previous (x :: l) = true ->
  ShutdownPreviewRun_Valid x = true /\ (previous <> "" -> String.leb (pv_run x) previous = false) /\ roster_ok (pv_run x) l = true.
Proof.
  cbn. destruct (negb _ || _) eqn:E; [done|]. rewrite orb_false_iff, negb_false_iff, andb_false_iff, negb_false_iff in E.
  intros H. destruct E as [Hv Hp]. split_and!; [done| |done]. intros Hne. destruct Hp as [Hp|]; [|done]. by apply String.eqb_eq in Hp.
Qed.
Lemma roster_ok_weaken previous l : roster_ok previous l = true -> roster_ok "" l = true.
Proof. destruct l as [|x l]; [done|]. intros (Hv & _ & H)%roster_ok_cons. cbn. rewrite Hv. cbn. done. Qed.
Lemma roster_ok_drop k l : roster_ok "" l = true -> roster_ok "" (drop k l) = true.
Proof.
  revert l. induction k as [|k IH]; [done|]. intros [|x l]; [done|]. intros (_ & _ & H)%roster_ok_cons. by apply IH, (roster_ok_weaken (pv_run x)).
Qed.
Lemma leb_gt a b : String.leb a b = false -> String.ltb b a = true.
Proof. unfold String.leb, String.ltb. pose proof (compare_antisym a b) as E. by destruct (String.compare a b), (String.compare b a). Qed.
Lemma ltb_trans a b c : String.ltb a b = true -> String.ltb b c = true -> String.ltb a c = true.
Proof.
  intros Hab Hbc. apply ltb_true; [etrans; by apply ltb_le|]. intros ->.
  unfold String.ltb in *. pose proof (compare_antisym b c) as E. by destruct (String.compare b c), (String.compare c b).
Qed.
Lemma roster_later previous l r : roster_ok previous l = true -> previous <> "" -> r ∈ l -> String.ltb previous (pv_run r) = true.
Proof.
  revert previous. induction l as [|x l IH]; intros previous H Hne Hin; [by apply elem_of_nil in Hin|].
  apply roster_ok_cons in H as (Hv & Hp & H). specialize (Hp Hne). apply leb_gt in Hp. apply elem_of_cons in Hin as [->|Hin]; [done|].
  eapply ltb_trans; [done|]. apply IH; [done|by apply valid_row_id|done].
Qed.
Lemma search_roster runs j r : roster_ok "" (map ShutdownPreviewRunFrom runs) = true -> runs !! j = Some r ->
  search_run runs (run_id r) = j.
Proof.
  revert j. induction runs as [|x runs IH]; intros j H Hj; [done|]. cbn. fold (run_id x).
  cbn [map] in H. apply roster_ok_cons in H as (Hv & _ & H). destruct j as [|j]; cbn in Hj.
  - injection Hj as ->. by rewrite ltb_irrefl.
  - assert (Hlt : String.ltb (run_id x) (run_id r) = true).
    { apply (roster_later _ _ (ShutdownPreviewRunFrom r) H); [by apply (valid_row_id (ShutdownPreviewRunFrom x))|].
      apply list_elem_of_fmap. exists r. split; [done|]. by apply list_elem_of_lookup_2 in Hj. }
    rewrite Hlt. f_equal. apply IH; [|done]. by apply (roster_ok_weaken (pv_run (ShutdownPreviewRunFrom x))).
Qed.

(** A page's rows. *)
Lemma page_rows_ok epoch previous l : roster_ok previous l = true -> Forall (fun r => li_epoch (ol_identity (pv_selection r)) = epoch) l ->
  page_rows epoch previous l = Some (match last l with Some r => pv_run r | None => previous end).
Proof.
  revert previous. induction l as [|x l IH]; intros previous H Hf; [done|]. apply roster_ok_cons in H as (Hv & Hp & H).
  apply Forall_cons in Hf as [Ee Hf]. cbn. rewrite Hv, Ee, String.eqb_refl. cbn.
  assert (E : (previous <>?s "") && String.leb (pv_run x) previous = false).
  { destruct (String.eqb_spec previous "") as [->|Hne]; [done|]. by rewrite Hp. }
  rewrite E, (IH _ H Hf). rewrite last_cons. by destruct (last l).
Qed.
Lemma roster_ok_prefix previous l n : roster_ok previous l = true -> roster_ok previous (take n l) = true.
Proof.
  revert previous n. induction l as [|x l IH]; intros previous [|n] H; try done. pose proof H as (_ & _ & Hl)%roster_ok_cons.
  cbn in *. destruct (negb _ || _); [done|]. by apply IH.
Qed.

(** ** The whole plan is read *)

Section plans.
Context (frame : ShutdownPreviewPage -> option Z) (limit : Z) (p : ShutdownPreview).
Let rows := map ShutdownPreviewRunFrom (sp_runs p).
Let b := sp_binding p.
Let epoch := sd_epoch b.
Context (Hdigest : ShutdownRosterDigest rows = Ok (sd_roster b)) (Htotal : sd_total b = llen rows)
  (Hbinding : is_ok (ShutdownBindingFrom b) = true) (Hepoch : Forall (fun r => li_epoch (ol_identity (pv_selection r)) = epoch) rows).

Definition next_of (k n : nat) : string :=
  if (k + n <? List.length rows)%nat then last_preview_run (take n (drop k rows)) else "".
Definition part (k n : nat) : ShutdownPreviewPage := mkPreviewPage b (Z.of_nat k) (Some (take n (drop k rows))) (next_of k n).
(** A page of one run fits the frame. *)
Context (Hfits : forall k, page_fits frame limit (part k 1) = true).

Lemma rows_ok : roster_ok "" rows = true /\ llen rows <= MaxShutdownPreviewRuns.
Proof using Hdigest.
  revert Hdigest. unfold ShutdownRosterDigest. destruct (_ <? _) eqn:E; [done|]. destruct (roster_ok "" rows); [|done].
  apply Z.ltb_ge in E. auto.
Qed.

Lemma shorten_fits binding offset next l : page_fits frame limit (mkPreviewPage binding offset (Some l) next) = true ->
  shorten frame limit binding offset next (reverse l) = Ok (mkPreviewPage binding offset (Some l) next).
Proof using.
  intros H. rewrite <-(reverse_involutive l) in H |- * at 2. destruct (reverse l); cbn; cbn in H; by rewrite H.
Qed.
(** What is sent is one run or two. *)
Lemma reply_part k : (k < List.length rows)%nat \/ k = 0%nat ->
  exists n, (n = 1 \/ n = 2)%nat /\ shutdownPreviewReply frame limit p k = Ok (part k n).
Proof using Hfits.
  intros Hk. unfold shutdownPreviewReply. rewrite <-firstn_map, <-skipn_map. fold rows b.
  rewrite <-(length_map ShutdownPreviewRunFrom (sp_runs p)). fold rows.
  destruct (page_fits frame limit (part k 2)) eqn:E2.
  - exists 2%nat. split; [auto|]. by apply shorten_fits.
  - exists 1%nat. split; [auto|]. specialize (Hfits k). unfold part, next_of, last_preview_run in *.
    assert (Hl : List.length (drop k rows) = (List.length rows - k)%nat) by apply length_drop.
    destruct (Nat.ltb_spec (k + 1) (List.length rows)) as [H1|H1]; destruct (Nat.ltb_spec (k + 2) (List.length rows)) as [H2|H2];
      try lia; destruct (drop k rows) as [|x [|y l]]; cbn in Hl; try lia; cbn in *; rewrite ?take_0 in *; try congruence;
      cbn in *; by rewrite E2, Hfits.
Qed.

Lemma row_ok j x : rows !! j = Some x -> ShutdownPreviewRun_Valid x = true /\ validLaunchID (pv_run x) = true /\ pv_run x <> "".
Proof using Hdigest.
  intros Hj. destruct rows_ok as [Hr _]. apply (roster_ok_drop j) in Hr. rewrite (drop_S _ _ _ Hj) in Hr.
  apply roster_ok_cons in Hr as (Hv & _). by pose proof (valid_row_id _ Hv).
Qed.
(** The run a page goes on from. *)
Lemma next_row k n : (0 < n)%nat -> (k + n < List.length rows)%nat ->
  exists x, rows !! (k + n - 1)%nat = Some x /\ next_of k n = pv_run x.
Proof using.
  intros Hn Hk. destruct (lookup_lt_is_Some_2 rows (k + n - 1)) as [x Hx]; [lia|]. exists x. split; [done|].
  unfold next_of. rewrite (proj2 (Nat.ltb_lt _ _)) by lia. unfold last_preview_run. rewrite last_lookup, length_take, length_drop.
  rewrite Nat.min_l by lia. rewrite lookup_take_lt by lia. rewrite lookup_drop. replace (k + Nat.pred n)%nat with (k + n - 1)%nat by lia.
  by rewrite Hx.
Qed.

Lemma part_valid k n : (n = 1 \/ n = 2)%nat -> (k < List.length rows)%nat \/ k = 0%nat -> ShutdownPreviewPage_Valid (part k n) = true.
Proof using Hdigest Htotal Hbinding Hepoch.
  intros Hn Hk. destruct rows_ok as [Hr _]. unfold ShutdownPreviewPage_Valid, part. cbn [pp_binding pp_runs pp_offset pp_next].
  rewrite Hbinding. cbn [andb]. assert (El : List.length (take n (drop k rows)) = Nat.min n (List.length rows - k)) by (by rewrite length_take, length_drop).
  unfold llen in *. rewrite El, Htotal.
  assert (E : (2 <? Z.of_nat (Nat.min n (List.length rows - k))) || (Z.of_nat k <? 0) || (Z.of_nat (List.length rows) <? Z.of_nat k)
    || (Z.of_nat (List.length rows) <? Z.of_nat k + Z.of_nat (Nat.min n (List.length rows - k))) = false) by (rewrite !orb_false_iff, !Z.ltb_ge; lia).
  rewrite E. clear E. rewrite (page_rows_ok epoch "").
  2: by apply roster_ok_prefix, roster_ok_drop.
  2: by apply Forall_take, Forall_drop.
  destruct (Nat.ltb_spec (k + n) (List.length rows)) as [Hlt|Hge].
  - destruct (next_row k n ltac:(lia) Hlt) as (x & Hx & En). pose proof (row_ok _ _ Hx) as (_ & _ & Hne).
    assert (Elast : next_of k n = match last (take n (drop k rows)) with Some r => pv_run r | None => "" end).
    { unfold next_of. by rewrite (proj2 (Nat.ltb_lt _ _) Hlt). }
    rewrite <-Elast, En. apply String.eqb_neq in Hne as ->. rewrite String.eqb_refl, !andb_true_iff, !Z.ltb_lt. lia.
  - unfold next_of. rewrite (proj2 (Nat.ltb_ge _ _) Hge). cbn [String.eqb]. apply Z.eqb_eq. lia.
Qed.

(** The request for the next page is answered. *)
Lemma continue_part s k n x :
  ReadShutdownPreview s b = Ok p -> (0 < n)%nat -> (k + n < List.length rows)%nat -> rows !! (k + n - 1)%nat = Some x ->
  exists m, (m = 1 \/ m = 2)%nat /\
    let r := mkShutdownPageRequest b (pv_run x) (Z.of_nat (k + n)) in local_page r (page_reply frame limit s r) = Ok (part (k + n) m).
Proof using All.
  intros Hs Hn Hk Hx. destruct (reply_part (k + n) ltac:(lia)) as (m & Hm & Hreply). exists m. split; [done|]. cbn zeta.
  destruct rows_ok as [Hr _]. pose proof (row_ok _ _ Hx) as (Hv & Hid & Hne).
  unfold local_page, valid_page_request. cbn [hq_cursor hq_binding hq_offset]. unfold LaunchIdentity_Valid. cbn [li_run li_generation li_epoch].
  rewrite Hid, Hbinding, Htotal. unfold llen.
  rewrite (proj2 (Z.ltb_ge (Z.of_nat (k + n)) 1)), (proj2 (Z.leb_le (Z.of_nat (k + n)) (Z.of_nat (List.length rows)))) by lia. cbn [andb negb].
  unfold page_reply. cbn [hq_binding hq_cursor hq_offset]. rewrite Hs. cbn [mbind].
  assert (Hrun : exists run, sp_runs p !! (k + n - 1)%nat = Some run /\ run_id run = pv_run x).
  { unfold rows in Hx. rewrite list_lookup_fmap in Hx. destruct (sp_runs p !! (k + n - 1)%nat) as [run|]; [|done]. injection Hx as <-. by exists run. }
  destruct Hrun as (run & Hrun & Eid). rewrite <-Eid, (search_roster _ _ _ Hr Hrun), Hrun. fold (run_id run). rewrite String.eqb_refl.
  replace (S (k + n - 1)) with (k + n)%nat by lia. rewrite Z.eqb_refl. cbn [negb orb].
  rewrite Hreply. cbn [mbind]. rewrite part_valid by lia. unfold part at 1. cbn [pp_binding pp_offset pp_runs part].
  rewrite bool_decide_eq_true_2 by done. rewrite Z.eqb_refl. cbn [negb orb].
  destruct (lookup_lt_is_Some_2 rows (k + n)) as [y Hy]; [lia|]. rewrite (drop_S _ _ _ Hy).
  destruct m as [|m]; [lia|]. cbn [take]. assert (Hord : String.leb (pv_run y) (run_id run) = false).
  { rewrite Eid. pose proof (roster_ok_drop (k + n - 1) _ Hr) as Hd. rewrite (drop_S _ _ _ Hx) in Hd.
    replace (S (k + n - 1)) with (k + n)%nat in Hd by lia. rewrite (drop_S _ _ _ Hy) in Hd.
    apply roster_ok_cons in Hd as (_ & _ & Hd). apply roster_ok_cons in Hd as (_ & Hp & _). by apply Hp. }
  by rewrite Hord.
Qed.

Lemma plan_loop_reads s calls k n :
  ReadShutdownPreview s b = Ok p -> (n = 1 \/ n = 2)%nat -> (k < List.length rows)%nat \/ k = 0%nat ->
  (List.length rows - k < calls)%nat ->
  plan_loop calls (fun r => local_page r (page_reply frame limit s r)) epoch (mkPlan b (take k rows)) (part k n) = Ok (mkPlan b rows).
Proof using All.
  intros Hs. revert k n. induction calls as [|calls IH]; intros k n Hn Hk Hc; [lia|]. cbn [plan_loop].
  rewrite part_valid by done. cbn [pp_binding part pp_offset sn_binding sn_runs pp_runs pp_next from_option id].
  fold epoch. rewrite String.eqb_refl, bool_decide_eq_true_2 by done.
  assert (Hkl : (k <= List.length rows)%nat) by lia.
  assert (Et : llen (take k rows) = Z.of_nat k) by (unfold llen; rewrite length_take; lia). rewrite Et, Z.eqb_refl. cbn [negb orb].
  rewrite take_take_drop. destruct rows_ok as [Hr Hmax].
  assert (Em : MaxShutdownPreviewRuns <? llen (take (k + n) rows) = false).
  { apply Z.ltb_ge. unfold llen in *. rewrite length_take. lia. }
  rewrite Em. destruct (Nat.ltb_spec (k + n) (List.length rows)) as [Hlt|Hge].
  - destruct (next_row k n ltac:(lia) Hlt) as (x & Hx & ->). pose proof (row_ok _ _ Hx) as (_ & _ & Hne). apply String.eqb_neq in Hne as ->.
    assert (Et' : llen (take (k + n) rows) = Z.of_nat (k + n)) by (unfold llen; rewrite length_take; lia). rewrite Et'.
    destruct (continue_part s k n x Hs ltac:(lia) Hlt Hx) as (m & Hm & Ec). cbn zeta in Ec. rewrite Ec. apply IH; [done|by left|lia].
  - unfold next_of. rewrite (proj2 (Nat.ltb_ge _ _) Hge). cbn [String.eqb]. rewrite take_ge by done. rewrite Hdigest, Htotal, Z.eqb_refl, String.eqb_refl. done.
Qed.
End plans.

(** The pages of another plan are refused. *)
Lemma plan_loop_sound calls continue epoch plan page result :
  plan_loop calls continue epoch plan page = Ok result ->
  sn_binding result = sn_binding plan /\ ShutdownRosterDigest (sn_runs result) = Ok (sd_roster (sn_binding result)) /\
  llen (sn_runs result) = sd_total (sn_binding result).
Proof.
  revert plan page. induction calls as [|calls IH]; intros plan page; [done|]. cbn [plan_loop].
  destruct (_ || _); [done|]. destruct (_ <? _); [done|]. destruct (pp_next page =?s "").
  - cbn [sn_runs]. set (read := sn_runs plan ++ default [] (pp_runs page)). destruct (ShutdownRosterDigest read) as [digest|] eqn:Ed; [|done].
    destruct (_ || _) eqn:E; [done|]. intros [= <-].
    rewrite orb_false_iff, !negb_false_iff, Z.eqb_eq, String.eqb_eq in E. destruct E as [E1 E2]. cbn in *. split_and!; [done|by rewrite Ed, E2|done].
  - destruct (continue _) as [page'|]; [|done]. intros H%IH. exact H.
Qed.

Definition plan_of (p : ShutdownPreview) : ShutdownPlan := mkPlan (sp_binding p) (map ShutdownPreviewRunFrom (sp_runs p)).

(** (C40) A client that reads a plan shows the whole plan or none: whatever the
    other side answers, a plan it accepts has the digest and the count that
    its binding names, for the epoch it asked about; and from a daemon that
    has made the preview of a valid roster and does not change, it reads
    exactly that roster, in order, in pages of one or two runs, provided that
    a page of one run fits a frame. *)
Theorem plan_read_whole frame limit s epoch random :
  (forall client plan, ReadShutdownPlan (Some client) epoch = Ok plan ->
     ShutdownRosterDigest (sn_runs plan) = Ok (sd_roster (sn_binding plan)) /\ llen (sn_runs plan) = sd_total (sn_binding plan) /\
     exists page, cl_preview client = Ok page /\ sn_binding plan = pp_binding page) /\
  (forall s1 p, PreviewShutdown s None random = (s1, Ok p) -> epoch = ow_epoch s -> is_ok (ShutdownBindingFrom (sp_binding p)) = true ->
     ShutdownRosterDigest (sn_runs (plan_of p)) = Ok (sd_roster (sp_binding p)) ->
     Forall (fun r => li_epoch (ol_identity (pv_selection r)) = epoch) (sn_runs (plan_of p)) ->
     (forall k, page_fits frame limit (part p k 1) = true) ->
     ReadShutdownPlan (Some (local_client frame limit s epoch random)) epoch = Ok (plan_of p)).
Proof.
  split.
  - intros client plan. unfold ReadShutdownPlan. destruct (negb _); [done|]. destruct (cl_preview client) as [page|]; [|done].
    intros (E & H1 & H2)%plan_loop_sound. split_and!; [done|done|]. by exists page.
  - intros s1 p Hp -> Hb Hd He Hf. unfold plan_of in *. cbn [sn_runs] in *.
    assert (Hfacts : sd_epoch (sp_binding p) = ow_epoch s /\ sd_total (sp_binding p) = llen (sp_runs p) /\
      ReadShutdownPreview s1 (sp_binding p) = Ok p).
    { unfold PreviewShutdown in Hp. destruct (random_id random) as [id|]; [|done]. destruct (_ || _ || _ || _ || _); [done|].
      destruct (exhausted s); [done|]. injection Hp as <- <-. split_and!; [done|done|]. unfold ReadShutdownPreview, previewed. cbn.
      rewrite !bool_decide_eq_true_2 by done. done. }
    destruct Hfacts as (Eep & Etot & Hread). assert (Hid : validLaunchID (ow_epoch s) = true).
    { rewrite <-Eep. unfold ShutdownBindingFrom in Hb. destruct (validLaunchID (sd_epoch (sp_binding p))); done. }
    assert (Hlid : LaunchIdentity_Valid (mkLaunchIdentity (ow_epoch s) (ow_epoch s) (ow_epoch s)) = true).
    { unfold LaunchIdentity_Valid. cbn. by rewrite Hid. }
    unfold ReadShutdownPlan, local_client, preview_reply. rewrite Hlid, String.eqb_refl. cbn [negb]. rewrite Hp. cbn [cl_preview cl_page mbind].
    assert (Et : sd_total (sp_binding p) = llen (map ShutdownPreviewRunFrom (sp_runs p))) by (rewrite Etot; unfold llen; by rewrite length_map).
    assert (Hep : Forall (fun r => li_epoch (ol_identity (pv_selection r)) = sd_epoch (sp_binding p)) (map ShutdownPreviewRunFrom (sp_runs p)))
      by (by rewrite Eep).
    destruct (reply_part frame limit p Hf 0) as (n & Hn & Er); [by right|]. rewrite Er. unfold local_preview. rewrite Hlid. cbn [negb mbind].
    rewrite (part_valid p Hd Et Hb Hep 0 n Hn) by (by right). cbn [pp_binding part pp_offset]. rewrite Eep, String.eqb_refl. cbn [negb orb Z.of_nat Z.eqb].
    rewrite <-Eep. apply (plan_loop_reads frame limit p Hd Et Hb Hep Hf s1 _ 0 n Hread Hn); [by right|].
    pose proof (rows_ok p Hd) as [_ Hmax]. unfold llen in Hmax. lia.
Qed.

(** ** The offer of an update *)

Lemma random_id_valid random id : random_id (Some random) = Ok id -> llen random = 16 -> validLaunchID id = true.
Proof.
  intros [= <-] Hl. unfold validLaunchID, hex_ok. rewrite EncodeToString_length, Hl. cbn [Z.mul Z.eqb negb].
  by rewrite DecodeString_EncodeToString, EncodeToString_lower, String.eqb_refl.
Qed.

(** The preview of a quiescent runtime is a handoff that it accepts. *)
Record offered (j : JournalKind) (s : Runtime) (target : UpdateTarget) : Prop := {
  of_quiescent : exists now, us_quiescent (updateStatusLocked s now) = true;
  of_repository : updateRepositoryLocked j s = None;
  of_target : UpdateTarget_valid target = true;
  of_deferral : forall d, lc_deferral (ow_life s) = Some d -> ud_target d = target }.

Lemma empty_binding s id now : us_quiescent (updateStatusLocked s now) = true -> validLaunchID (ow_epoch s) = true -> validLaunchID id = true ->
  ShutdownBindingFrom (shutdownBindingLocked s id) = Ok (shutdownBindingLocked s id) /\ emptyUpdateBinding (shutdownBindingLocked s id) = true.
Proof.
  intros (Er & _ & El & Ec & Ex & _)%quiescent_empty He Hid. cbn in El, Ec, Ex. unfold shutdownBindingLocked, ShutdownBindingFrom, emptyUpdateBinding.
  rewrite Er. cbn [sd_epoch sd_preview sd_roster sd_total sd_launches sd_controls sd_reconciliations map]. rewrite He, Hid, El, Ec, Ex.
  split; [by vm_compute|]. by vm_compute.
Qed.

Lemma offer_accepted j closing s id target :
  offered j s target -> validLaunchID (ow_epoch s) = true -> validLaunchID id = true ->
  jk_shutdown j = true -> jk_handoff j = true -> lc_tickets (ow_life s) !! id = None -> msize (lc_tickets (ow_life s)) < MaxLaunchRequests ->
  let '(s1, b) := emptyUpdatePreviewLocked s id in
  exists s2 a work, HandoffUpdate j closing s1 None target b true = (s2, ConfirmStarted a work) /\ wk_children work = [].
Proof.
  intros [[now Hq] Hr Ht Hd] He Hid Hjs Hjh Hn Hm. destruct (empty_binding s id now Hq He Hid) as [Hb Hempty].
  destruct (quiescent_empty _ _ Hq) as (Er & Ex & El & Ec & Exx & Est & Elp & Eun & Edis & Eprep & Ecom).
  unfold emptyUpdatePreviewLocked, HandoffUpdate, confirmShutdown. set (b := shutdownBindingLocked s id) in *. set (s1 := set_life s _).
  cbn [sc_binding]. unfold confirm_syntax. cbn [sc_binding sc_acknowledged]. rewrite Hb, Ht, Hempty. cbn [negb fails orb first_err].
  replace (lc_tickets (ow_life s1)) with (lc_tickets (ow_life s)) by done.
  change (sd_preview b) with id. rewrite Hn.
  assert (Hrefuse : confirm_refusal j s1 (mkConfirmation b true) shutdownUpdate target = None).
  { unfold confirm_refusal. cbn [sc_binding]. replace (previewed s1 b) with (Some (mkPreview b [])) by (unfold previewed; cbn; by rewrite bool_decide_eq_true_2).
    change (shutdownBindingLocked s1 (sd_preview b)) with b.
    assert (Hc : Confirm b b true = None).
    { apply shutdown_confirm_exact. rewrite Hb. split_and!; try done. }
    rewrite Hc. replace (exhausted s1) with (exhausted s) by done. rewrite Ex.
    replace (hasUncertainLocked s1) with (hasUncertainLocked s) by done. rewrite Eun.
    replace (updateRepositoryLocked j s1) with (updateRepositoryLocked j s) by done. rewrite Hr.
    cbn. rewrite Eprep, Ecom, Est, Elp, Hjh, Hjs, Edis. cbn. destruct (lc_deferral (ow_life s)) as [d|] eqn:Edf; [|done].
    rewrite (Hd d eq_refl). by rewrite bool_decide_eq_true_2. }
  rewrite Hrefuse. cbn [lc_preview ow_life s1 set_life set_preview sp_runs closing_children].
  rewrite (proj2 (Z.leb_gt _ _) Hm). unfold admit_shutdown. by do 3 eexists.
Qed.

(** An attempt that was answered at once, or that saved its deferral and was
    answered from the state [s] it then found. *)
Definition attempt_answers (j : JournalKind) (clock : Time) (target : UpdateTarget) (random : list ascii)
  (s s1 : Runtime) (r : UpdateAttemptResult) : Prop :=
  AttemptUpdate_enter j s None clock target (Some random) = (s1, AttemptAnswered r None) \/
  exists s0 saved r0 candidate id now,
    AttemptUpdate_enter j s0 None clock target (Some random) = (saved, AttemptSaving r0 candidate id now) /\
    updateRepositoryLocked j s = None /\ AttemptUpdate_end s r0 candidate id now None = (s1, (r, None)).

Lemma saving_inv j s clock target random saved r candidate id now :
  AttemptUpdate_enter j s None clock target (Some random) = (saved, AttemptSaving r candidate id now) ->
  random_id (Some random) = Ok id /\ UpdateTarget_valid target = true /\ ur_target r = target /\ ur_notice r = true /\ ur_preview r = None /\
  ud_target candidate = target /\ is_ok (UpdateDeferralFrom candidate) = true.
Proof.
  unfold AttemptUpdate_enter. destruct (NewUpdateDeferral target (clock_now clock)) as [c|] eqn:En; [|done].
  destruct (random_id (Some random)) as [id'|]; [|done]. destruct (updateRepositoryLocked j s); [done|]. destruct (exhausted s); [done|].
  destruct (updateMetadataBusyLocked s); [done|].
  assert (Hc : UpdateDeferralFrom c = Ok c /\ ud_target c = target /\ UpdateTarget_valid target = true).
  { unfold NewUpdateDeferral, UpdateDeferralFrom in En. cbn in En. destruct (UpdateTarget_valid target) eqn:Et; [|done].
    destruct (IsZero (clock_now clock)) eqn:Ez; [done|]. injection En as <-. unfold UpdateDeferralFrom. cbn. by rewrite Et, Ez. }
  destruct Hc as (Hc & Ec & Ht).
  assert (Hnotice : forall d n, UpdateDeferralFrom d = Ok d -> ud_target (fst (Notice d n UpdateStatus)) = ud_target d /\
    is_ok (UpdateDeferralFrom (fst (Notice d n UpdateStatus))) = true).
  { intros d n Hd. change (Notice d n UpdateStatus) with
      (if ud_notified d || negb (Overdue24h d n) then (d, false) else (mkDeferral (ud_target d) (ud_started d) true, true)).
    destruct (_ || _); cbn [fst]; [by rewrite Hd|]. split; [done|].
    revert Hd. unfold UpdateDeferralFrom. cbn. by destruct (_ || _). }
  destruct (lc_deferral (ow_life s)) as [d|].
  - destruct (retargeted d target) as [d'|] eqn:Er; [|done]. intros [= _ <- <- <- <-]. cbn.
    assert (Hd' : UpdateDeferralFrom d' = Ok d' /\ ud_target d' = target).
    { unfold retargeted in Er. destruct (UpdateDeferralFrom d) as [d0|] eqn:Ed; [|done]. cbn in Er. unfold Retarget in Er. rewrite Ht in Er.
      cbn in Er. injection Er as <-. split; [|done]. unfold UpdateDeferralFrom in *. cbn in *. rewrite Ht.
      destruct (UpdateTarget_valid (ud_target d)); [|done]. destruct (IsZero (ud_started d)) eqn:Ez; [done|]. injection Ed as <-. by rewrite Ez. }
    destruct Hd' as [Hd' Et]. destruct (Hnotice d' (clock_now clock) Hd') as [H1 H2]. split_and!; try done; exact (eq_trans H1 ltac:(done)).
  - destruct (us_quiescent _); [done|]. intros [= _ <- <- <- <-]. destruct (Hnotice c (clock_now clock) Hc) as [H1 H2].
    cbn. split_and!; try done; exact (eq_trans H1 ltac:(done)).
Qed.

(** What an offer consists of. *)
Lemma offer_inv j clock target random s s1 r b :
  attempt_answers j clock target random s s1 r -> ur_preview r = Some b ->
  exists s' id now, offered j s' target /\ random_id (Some random) = Ok id /\ emptyUpdatePreviewLocked s' id = (s1, b) /\
    ow_epoch s' = ow_epoch s /\ lc_tickets (ow_life s') = lc_tickets (ow_life s) /\
    ur_target r = target /\ ur_notice r = true /\ ur_status r = updateStatusLocked s' now /\
    forall d, lc_deferral (ow_life s') = Some d -> is_ok (UpdateDeferralFrom d) = true.
Proof.
  intros [H|(s0 & saved & r0 & candidate & id & now & H0 & Hr & He)] Hb.
  - unfold AttemptUpdate_enter in H. destruct (NewUpdateDeferral target (clock_now clock)) as [c|] eqn:En; [|done].
    destruct (random_id (Some random)) as [id|]; [|done]. destruct (updateRepositoryLocked j s) eqn:Hr; [done|]. destruct (exhausted s); [done|].
    destruct (updateMetadataBusyLocked s); [done|]. destruct (lc_deferral (ow_life s)) as [d|] eqn:Ed; [by destruct (retargeted d target)|].
    cbn [ur_status] in H. destruct (us_quiescent _) eqn:Eq; [|done]. cbn -[emptyUpdatePreviewLocked] in H.
    destruct (emptyUpdatePreviewLocked s id) as [s2 b'] eqn:Ee. injection H as <- <-. cbn in Hb. injection Hb as ->.
    exists s, id, (clock_now clock). split_and!; try done; [|by rewrite Ed]. split; [by exists (clock_now clock)|done| |by rewrite Ed].
    unfold NewUpdateDeferral, UpdateDeferralFrom in En. cbn in En. by destruct (UpdateTarget_valid target).
  - destruct (saving_inv _ _ _ _ _ _ _ _ _ _ H0) as (Hid & Ht & Et & Enot & Ep & Ec & Hc).
    unfold AttemptUpdate_end in He. cbn [ur_status] in He. rewrite bool_decide_eq_true_2 in He by done. cbn [andb] in He.
    set (s' := finishUpdateLocked s candidate None) in *. destruct (us_quiescent (updateStatusLocked s' now)) eqn:Eq.
    + destruct (emptyUpdatePreviewLocked s' id) as [s2 b'] eqn:Ee. injection He as <- <-. cbn in Hb. injection Hb as ->.
      assert (El : ow_life s' = set_phase_flags (set_bound (ow_life s) (lc_bound (ow_life s)) (lc_starting (ow_life s)) (lc_uncertain (ow_life s)) (Some candidate))
        (lc_preparing (ow_life s)) (lc_committed (ow_life s)) (lc_pending (ow_life s) - 1)) by (unfold s', finishUpdateLocked; by autorewrite with changed).
      exists s', id, now. split_and!; try done.
      * split; [by exists now| |done|]; rewrite ?El; cbn; [|congruence]. unfold updateRepositoryLocked in *. by rewrite El.
      * unfold s', finishUpdateLocked. by autorewrite with changed.
      * by rewrite El.
      * rewrite El. cbn. by intros d [= <-].
    + injection He as _ <-. cbn in Hb. congruence.
Qed.

(** An update that is offered can be handed off: when an attempt answers
    with a preview, at once or after its deferral was saved, whatever happened
    in between, the answer passes the client's checks, the preview is the
    plan of a daemon with nothing to lose, the request built from it is
    well-formed, and the daemon that gave it accepts that request and then
    has no terminal to close. *)
Theorem update_offer_handoff j clock target random s s1 r b closing :
  attempt_answers j clock target random s s1 r -> ur_preview r = Some b -> llen random = 16 -> validLaunchID (ow_epoch s) = true ->
  (forall d, us_deferral (ur_status r) = Some d -> 0 <= Year (ud_started d) <= 9999) ->
  jk_shutdown j = true -> jk_handoff j = true ->
  lc_tickets (ow_life s) !! sd_preview b = None -> msize (lc_tickets (ow_life s)) < MaxLaunchRequests ->
  UpdateAttemptResult_Valid r = true /\ sd_total b = 0 /\ UpdateHandoffRequest_Valid (mkHandoff target b true) = true /\
  exists s2 a work, HandoffUpdate j closing s1 None target b true = (s2, ConfirmStarted a work) /\ wk_children work = [].
Proof.
  intros Ha Hb Hl He Hy Hjs Hjh Hn Hm.
  destruct (offer_inv _ _ _ _ _ _ _ _ Ha Hb) as (s' & id & now & Hof & Hid & Ep & Ee & Etk & Et & Enot & Est & Hd).
  pose proof (random_id_valid _ _ Hid Hl) as Hvid. rewrite <-Ee in He. rewrite <-Etk in Hn, Hm.
  assert (Eb : b = shutdownBindingLocked s' id) by (by injection Ep). pose proof Hof as [[now0 Hq] Hr Htv Hdt].
  destruct (empty_binding s' id now0 Hq He Hvid) as [Hbind Hempty]. destruct (quiescent_empty _ _ Hq) as (Er & _). rewrite Eb in Hn.
  pose proof (offer_accepted j closing s' id target Hof He Hvid Hjs Hjh Hn Hm) as Hacc. rewrite Ep in Hacc.
  assert (Hstatus : us_quiescent (ur_status r) = true) by (by rewrite Est).
  split_and!; [|subst b; cbn; by rewrite Er|unfold UpdateHandoffRequest_Valid; cbn; by rewrite Eb, Hbind, Htv, Hempty|done].
  unfold UpdateAttemptResult_Valid. rewrite Et, Htv, Enot, Hb, Eb, Hbind, Hempty, Hstatus. rewrite Est in Hy, Hstatus |- *.
  assert (Hv : UpdateStatus_Valid (updateStatusLocked s' now) = true).
  { unfold UpdateStatus_Valid, LaunchIdentity_Valid. cbn in Hy, Hstatus |- *. rewrite He. apply Z.eqb_eq in Hstatus.
    assert (Hnil : update_blockers s' = []) by (destruct (update_blockers s'); [done|unfold llen in Hstatus; cbn in Hstatus; lia]).
    rewrite Hnil. cbn. destruct (lc_deferral (ow_life s')) as [d|]; [|done]. rewrite (Hd d eq_refl).
    destruct (Hy d eq_refl) as [Hy1 Hy2]. apply Z.leb_le in Hy1 as ->. by apply Z.leb_le in Hy2 as ->. }
  rewrite Hv. cbn. by rewrite String.eqb_refl.
Qed.

(** ** Examples *)

Definition ex_owned_run (id : string) : ownedRun :=
  mkOwned true (mkRecoveryBinding (mkLaunchIdentity id id ex_run) ex_owned_target ex_profile 7 "" "" "" "" "") (mkRunSnapshot (mkLaunchIdentity id id ex_run) ex_owned_target ex_profile RunLive 7 0 false) 7 false None.
Definition ex_ids : list string := ["00000000000000000000000000000002"; "00000000000000000000000000000001"].
Definition ex_two : Runtime :=
  mkRuntime ex_run ∅ ∅ ∅ ∅ (list_to_map (zip ex_ids [0; 1]%nat)) (list_to_map (zip [0; 1]%nat (map ex_owned_run ex_ids)))
    0 2 0 false 5 false life_zero.
Definition ex_bytes : list ascii := replicate 16 (ascii_of_nat 17).
(** A frame as long as its page has runs. *)
Definition ex_frame (page : ShutdownPreviewPage) : option Z := Some (llen (default [] (pp_runs page))).
Definition ex_frozen : ShutdownPreview :=
  match snd (PreviewShutdown ex_two None (Some ex_bytes)) with Ok p => p | Err _ => mkPreview ex_binding [] end.
Lemma ex_plan_evaluated :
  (PreviewShutdown ex_two None (Some ex_bytes), is_ok (ShutdownBindingFrom (sp_binding ex_frozen)),
   ShutdownRosterDigest (sn_runs (plan_of ex_frozen)), llen (sp_runs ex_frozen))
  = ((fst (PreviewShutdown ex_two None (Some ex_bytes)), Ok ex_frozen), true, Ok (sd_roster (sp_binding ex_frozen)), 2).
Proof. by vm_compute. Qed.

Lemma ex_frame_fits p k : page_fits ex_frame 1 (part p k 1) = true.
Proof.
  unfold page_fits, ex_frame, part. cbn [pp_runs from_option id]. apply Z.leb_le. unfold llen. rewrite length_take. lia.
Qed.

Lemma plan_read_whole_witness :
  llen (sp_runs ex_frozen) = 2 /\
  ReadShutdownPlan (Some (local_client ex_frame 1 ex_two ex_run (Some ex_bytes))) ex_run = Ok (plan_of ex_frozen).
Proof.
  pose proof ex_plan_evaluated as Ep. apply pair_parts in Ep as [Ep El]. apply pair_parts in Ep as [Ep Ed]. apply pair_parts in Ep as [Ep Eb].
  split; [exact El|]. destruct (plan_read_whole ex_frame 1 ex_two ex_run (Some ex_bytes)) as [_ H].
  apply (H _ ex_frozen Ep); [reflexivity|exact Eb|exact Ed| |intros k; apply ex_frame_fits].
  apply Forall_fold_right. vm_compute. tauto.
Defined.

Definition ex_idle : Runtime :=
  mkRuntime ex_run ∅ ∅ ∅ ∅ ∅ ∅ 0 0 0 false 2 false (mkLife true false false None None ∅ ∅ false false 0).
Definition ex_attempt : Runtime * AttemptEntry := AttemptUpdate_enter ex_journal ex_idle None UnixEpoch ex_update (Some ex_bytes).
Definition ex_offer : UpdateAttemptResult :=
  match snd ex_attempt with AttemptAnswered r _ => r | _ => mkAttemptResult ex_update (updateStatusLocked ex_idle UnixEpoch) false None end.
Definition ex_offered : ShutdownBindingState := default (shutdownBindingLocked ex_idle "") (ur_preview ex_offer).

Lemma update_offer_handoff_witness :
  UpdateAttemptResult_Valid ex_offer = true /\
  exists s a work, HandoffUpdate ex_journal ex_closing (fst ex_attempt) None ex_update ex_offered true = (s, ConfirmStarted a work) /\ wk_children work = [].
Proof.
  destruct (update_offer_handoff ex_journal UnixEpoch ex_update ex_bytes ex_idle (fst ex_attempt) ex_offer ex_offered ex_closing) as (H1 & _ & _ & H2).
  - left. by vm_compute.
  - by vm_compute.
  - by vm_compute.
  - by vm_compute.
  - intros d Hd. by vm_compute in Hd.
  - by vm_compute.
  - by vm_compute.
  - by vm_compute.
  - by vm_compute.
  - split; [exact H1|exact H2].
Defined.
