(* ===== verification/Continuity.v ===== *)
(** * Watcher continuity

    [src/domain/runtime/continuity.go]: the daemon-wide fence.  Observations
    are stamped with the revision at intake; the theorem says that a stamp
    stays current exactly as long as the watcher saw no discontinuity. *)

From S2P Require Import Prelude GoStrings GoTime RuntimeValues Lifecycle.

Record PowerWitness := mkPower { pw_sleep : Time; pw_wake : Time }.
Record ContinuitySample := mkSample { sa_at : Time; sa_power : PowerWitness; sa_available : bool }.
Definition sample_zero : ContinuitySample := mkSample time_zero (mkPower time_zero time_zero) false.

(** [ContinuityState] and the fields of [ObservationContinuity] around it. *)
Record ObservationContinuity := mkContinuity {
  oc_revision : Z; oc_available : bool; oc_reason : string; oc_exhausted : bool;
  oc_maxGap : Z; oc_last : ContinuitySample; oc_observed : bool }.

Definition NewObservationContinuity (maxGap : Z) : result ObservationContinuity :=
  if maxGap <=? 0 then Err ErrInvalid
  else Ok (mkContinuity 1 false "" false maxGap sample_zero false).

Definition samePowerWitness (a b : PowerWitness) : bool :=
  Equal (Round0 (pw_sleep a)) (Round0 (pw_sleep b)) && Equal (Round0 (pw_wake a)) (Round0 (pw_wake b)).

(** [(bool, FreshnessReason)] of a sample taken by itself. *)
Definition sample_continuity (s : ContinuitySample) : bool * string :=
  if negb (sa_available s) || IsZero (sa_at s) then (false, FreshnessCommunicationGap)
  else
    let sleep := Round0 (pw_sleep (sa_power s)) in
    let wake := Round0 (pw_wake (sa_power s)) in
    if IsZero sleep && IsZero wake then (true, "")
    else
      let at_ := Round0 (sa_at s) in
      if existsb (fun stamp => negb (IsZero stamp) && (Before stamp UnixEpoch || After stamp at_)) [sleep; wake]
      then (false, FreshnessCommunicationGap)
      else if IsZero sleep then (false, FreshnessCommunicationGap)
      else if IsZero wake || After sleep wake then (false, FreshnessSleepWake)
      else (true, "").

Definition discontinuity (c : ObservationContinuity) (next : ContinuitySample) : string :=
  if negb (samePowerWitness (sa_power next) (sa_power (oc_last c))) then FreshnessSleepWake
  else
    let elapsed := Sub (sa_at next) (sa_at (oc_last c)) in
    let wallElapsed := Sub (Round0 (sa_at next)) (Round0 (sa_at (oc_last c))) in
    if (elapsed <? 0) || (oc_maxGap c <=? elapsed) || (wallElapsed <? 0) || (oc_maxGap c <=? wallElapsed)
    then FreshnessCommunicationGap else "".

Definition with_state (c : ObservationContinuity) (rev : Z) (av : bool) (reason : string) (ex : bool)
  (last : ContinuitySample) (observed : bool) : ObservationContinuity :=
  mkContinuity rev av reason ex (oc_maxGap c) last observed.

Definition advance (c : ObservationContinuity) : ObservationContinuity * option error :=
  if oc_revision c =? MaxUint64
  then (with_state c (oc_revision c) false (oc_reason c) true (oc_last c) (oc_observed c), Some ErrLimit)
  else (with_state c (u64 (oc_revision c + 1)) (oc_available c) (oc_reason c) (oc_exhausted c)
          (oc_last c) (oc_observed c), None).

Definition set_reason (c : ObservationContinuity) (reason : string) : ObservationContinuity :=
  with_state c (oc_revision c) (oc_available c) reason (oc_exhausted c) (oc_last c) (oc_observed c).
(** The assignments at the end of a healthy observation. *)
Definition opened (c : ObservationContinuity) (sample : ContinuitySample) : ObservationContinuity :=
  with_state c (oc_revision c) true (oc_reason c) (oc_exhausted c) sample true.
Definition closed (c : ObservationContinuity) (reason : string) : ObservationContinuity :=
  with_state c (oc_revision c) false reason (oc_exhausted c) (oc_last c) true.

Definition Observe (c : ObservationContinuity) (sample : ContinuitySample)
  : ObservationContinuity * option error :=
  if oc_exhausted c then (c, Some ErrLimit)
  else
    let '(available, reason) := sample_continuity sample in
    if negb available then
      let wasAvailable := oc_available c in
      let '(c1, err) := if wasAvailable then advance c else (c, None) in
      match err with
      | Some e => (c1, Some e)
      | None =>
          let keep := negb ((oc_reason c1 =?s "") || negb (oc_observed c1) || wasAvailable
                            || (reason =?s FreshnessSleepWake)) in
          (closed c1 (if keep then oc_reason c1 else reason), None)
      end
    else if oc_observed c then
      if negb (oc_available c) then
        match advance c with
        | (c1, Some e) => (c1, Some e)
        | (c1, None) =>
            let changed := negb (IsZero (sa_at (oc_last c1)))
                           && negb (samePowerWitness (sa_power sample) (sa_power (oc_last c1))) in
            (opened (if changed then set_reason c1 FreshnessSleepWake else c1) sample, None)
        end
      else
        let reason := discontinuity c sample in
        if reason <>?s "" then
          match advance c with
          | (c1, Some e) => (c1, Some e)
          | (c1, None) => (opened (set_reason c1 reason) sample, None)
          end
        else (opened c sample, None)
    else (opened c sample, None).

(** ** Runs of samples *)

Fixpoint observe_all (c : ObservationContinuity) (samples : list ContinuitySample) : ObservationContinuity :=
  match samples with
  | [] => c
  | s :: rest => observe_all (fst (Observe c s)) rest
  end.

Definition healthy (s : ContinuitySample) : Prop := fst (sample_continuity s) = true.

(** [next] continues [last] within the gap budget: the same power stamps, and
    both the monotonic and the wall clock moved forward by less than the gap. *)
Definition continues (gap : Z) (last next : ContinuitySample) : Prop :=
  samePowerWitness (sa_power next) (sa_power last) = true /\
  0 <= Sub (sa_at next) (sa_at last) < gap /\
  0 <= Sub (Round0 (sa_at next)) (Round0 (sa_at last)) < gap.

Fixpoint unbroken (gap : Z) (last : ContinuitySample) (samples : list ContinuitySample) : Prop :=
  match samples with
  | [] => True
  | s :: rest => healthy s /\ continues gap last s /\ unbroken gap s rest
  end.

Record cont_wf (c : ObservationContinuity) : Prop := {
  cw_revision : 1 <= oc_revision c <= MaxUint64;
  cw_exhausted : oc_exhausted c = true -> oc_available c = false /\ oc_revision c = MaxUint64;
  cw_available : oc_available c = true -> oc_observed c = true }.

Lemma discontinuity_continues c s :
  discontinuity c s = "" <-> continues (oc_maxGap c) (oc_last c) s.
Proof.
  unfold discontinuity, continues. destruct (samePowerWitness _ _) eqn:E; simpl.
  - destruct (_ || _) eqn:Eg.
    + split; [done|]. intros (_ & H1 & H2). repeat (apply orb_true_iff in Eg as [Eg|Eg]); breflect; lia.
    + breflect. split; [intros _; split_and!; auto; lia|done].
  - split; [done|]. by intros [? _].
Qed.

(** The outcomes of one observation. *)
Variant observed_as (c : ObservationContinuity) (s : ContinuitySample) : ObservationContinuity -> Prop :=
| as_exhausted : oc_exhausted c = true -> observed_as c s c
| as_overflow c' : oc_exhausted c = false -> oc_revision c = MaxUint64 ->
    oc_revision c' = MaxUint64 -> oc_available c' = false -> oc_exhausted c' = true ->
    oc_observed c' = oc_observed c ->
    ~ (oc_available c = true /\ healthy s /\ continues (oc_maxGap c) (oc_last c) s) ->
    observed_as c s c'
| as_closed c' : oc_exhausted c' = false -> oc_available c' = false -> oc_observed c' = true -> ~ healthy s ->
    oc_revision c' = (if oc_available c then oc_revision c + 1 else oc_revision c) ->
    oc_revision c' <= MaxUint64 -> observed_as c s c'
| as_first c' : oc_observed c = false -> oc_exhausted c' = false -> oc_available c' = true ->
    oc_observed c' = true -> oc_revision c' = oc_revision c -> observed_as c s c'
| as_reopened c' : oc_observed c = true -> oc_exhausted c' = false -> oc_available c' = true ->
    oc_observed c' = true -> oc_revision c' = oc_revision c + 1 -> oc_revision c' <= MaxUint64 ->
    (oc_available c = true -> ~ continues (oc_maxGap c) (oc_last c) s) -> observed_as c s c'
| as_continued : oc_observed c = true -> oc_available c = true -> healthy s ->
    continues (oc_maxGap c) (oc_last c) s -> oc_exhausted c = false -> observed_as c s (opened c s).

Lemma advance_cases c c1 e :
  cont_wf c -> advance c = (c1, e) ->
  match e with
  | Some _ => oc_revision c = MaxUint64 /\ oc_revision c1 = MaxUint64 /\ oc_available c1 = false /\
              oc_exhausted c1 = true /\ oc_observed c1 = oc_observed c
  | None => oc_revision c1 = oc_revision c + 1 /\ oc_revision c1 <= MaxUint64 /\
            oc_exhausted c1 = oc_exhausted c /\ oc_observed c1 = oc_observed c
  end.
Proof.
  intros Hwf H. pose proof (cw_revision _ Hwf). unfold advance in H.
  destruct (_ =? _) eqn:E; breflect; injection H as <- <-; simpl; [auto|].
  rewrite u64_small by (unfold is_u64; lia). split_and!; auto; lia.
Qed.

Lemma Observe_cases c s : cont_wf c -> observed_as c s (fst (Observe c s)).
Proof.
  intros Hwf. pose proof (cw_revision _ Hwf) as Hr. unfold Observe.
  destruct (oc_exhausted c) eqn:Ex; [by apply as_exhausted|].
  destruct (sample_continuity s) as [av reason] eqn:Es.
  assert (Hh : healthy s <-> av = true) by (unfold healthy; by rewrite Es).
  destruct av; simpl negb; cbn iota.
  - destruct (oc_observed c) eqn:Eo; [|apply as_first; simpl; auto].
    destruct (oc_available c) eqn:Ea; simpl negb; cbn iota.
    + destruct (discontinuity c s =?s "") eqn:Ed; simpl negb; cbn iota.
      * breflect. apply discontinuity_continues in Ed. apply as_continued; auto. by apply Hh.
      * assert (Hd : ~ continues (oc_maxGap c) (oc_last c) s)
          by (rewrite <-discontinuity_continues; by apply String.eqb_neq).
        destruct (advance c) as [c1 [e|]] eqn:Eadv; pose proof (advance_cases _ _ _ Hwf Eadv) as Hc; cbn beta iota zeta in Hc.
        -- destruct Hc as (? & ? & ? & ? & ?). apply as_overflow; auto. by intros (_ & _ & ?).
        -- destruct Hc as (? & ? & ? & ?). apply as_reopened; simpl; auto; congruence.
    + destruct (advance c) as [c1 [e|]] eqn:Eadv; pose proof (advance_cases _ _ _ Hwf Eadv) as Hc; cbn beta iota zeta in Hc.
      * destruct Hc as (? & ? & ? & ? & ?). apply as_overflow; auto. intros (? & _); congruence.
      * destruct Hc as (? & ? & ? & ?).
        destruct (negb _ && negb _); apply as_reopened; simpl; auto; congruence.
  - assert (Hnh : ~ healthy s) by (rewrite Hh; done).
    destruct (oc_available c) eqn:Ea.
    + destruct (advance c) as [c1 [e|]] eqn:Eadv; pose proof (advance_cases _ _ _ Hwf Eadv) as Hc; cbn beta iota zeta in Hc.
      * destruct Hc as (? & ? & ? & ? & ?). apply as_overflow; auto. by intros (_ & ? & _).
      * destruct Hc as (? & ? & ? & ?). apply as_closed; simpl; rewrite ?Ea; auto; congruence.
    + apply as_closed; simpl; rewrite ?Ea; auto; lia.
Qed.

Lemma Observe_wf c s : cont_wf c -> cont_wf (fst (Observe c s)).
Proof.
  intros Hwf. pose proof (cw_revision _ Hwf). pose proof (Observe_cases c s Hwf) as Hc.
  destruct Hc; [exact Hwf|..]; split; intros; simpl in *;
    try destruct (oc_available c) eqn:?; try (split; congruence); try congruence; lia.
Qed.

Lemma Observe_mono c s : cont_wf c -> oc_revision c <= oc_revision (fst (Observe c s)).
Proof.
  intros Hwf. pose proof (cw_revision _ Hwf). pose proof (Observe_cases c s Hwf) as Hc.
  destruct Hc; simpl; try lia. destruct (oc_available c); lia.
Qed.

Lemma observe_all_mono samples c : cont_wf c -> oc_revision c <= oc_revision (observe_all c samples).
Proof.
  revert c. induction samples as [|s rest IH]; intros c Hwf; simpl; [lia|].
  etrans; [by apply Observe_mono|]. by apply IH, Observe_wf.
Qed.

(** Once closed, the fence only reopens at a later revision. *)
Lemma closed_reopens_later samples c :
  cont_wf c -> oc_observed c = true -> oc_available c = false ->
  oc_available (observe_all c samples) = true -> oc_revision c < oc_revision (observe_all c samples).
Proof.
  revert c. induction samples as [|s rest IH]; intros c Hwf Ho Ha Hav; simpl in *; [congruence|].
  pose proof (Observe_wf c s Hwf) as Hwf'. pose proof (observe_all_mono rest _ Hwf') as Hm.
  pose proof (Observe_cases c s Hwf) as Hc. remember (fst (Observe c s)) as c' eqn:Ec.
  pose proof (Observe_mono c s Hwf) as Hle. rewrite <-Ec in *.
  destruct Hc; try congruence; [by apply IH| | |lia].
  - pose proof (IH c' Hwf' ltac:(congruence) ltac:(done) Hav). lia.
  - eapply Z.le_lt_trans; [exact Hle|]. by apply IH.
Qed.

Lemma observe_all_wf samples c : cont_wf c -> cont_wf (observe_all c samples).
Proof. revert c. induction samples; intros; simpl; auto using Observe_wf. Qed.
Lemma observe_all_app l k c : observe_all c (l ++ k) = observe_all (observe_all c l) k.
Proof. revert c. induction l; intros; simpl; auto. Qed.

Lemma new_cont_wf gap c : NewObservationContinuity gap = Ok c -> cont_wf c.
Proof.
  unfold NewObservationContinuity. intros H. ok_inv H. by split; simpl; unfold MaxUint64; [lia|..].
Qed.

Lemma Observe_gap c s : oc_maxGap (fst (Observe c s)) = oc_maxGap c.
Proof. unfold Observe, advance. by split_goal. Qed.

Lemma continued_opened c s :
  oc_observed c = true -> oc_available c = true -> oc_exhausted c = false -> healthy s ->
  continues (oc_maxGap c) (oc_last c) s -> fst (Observe c s) = opened c s.
Proof.
  intros Ho Ha Hx Hh Hc. apply discontinuity_continues in Hc. unfold Observe, healthy in *.
  rewrite Hx. destruct (sample_continuity s) as [av r]. simpl in Hh. subst av. simpl.
  by rewrite Ho, Ha, Hc.
Qed.

Lemma observe_all_gap samples c : oc_maxGap (observe_all c samples) = oc_maxGap c.
Proof. revert c. induction samples as [|s l IH]; intros c; simpl; [done|]. by rewrite IH, Observe_gap. Qed.

Lemma new_cont_gap gap c : NewObservationContinuity gap = Ok c -> oc_maxGap c = gap.
Proof. unfold NewObservationContinuity. intros H. by ok_inv H. Qed.

(** An open fence stays open at its revision exactly while nothing is lost. *)
Lemma fence_exact gap c samples :
  cont_wf c -> oc_maxGap c = gap -> oc_available c = true ->
  let c' := observe_all c samples in
  oc_available c' = true /\ oc_revision c' = oc_revision c <-> unbroken gap (oc_last c) samples.
Proof.
  intros Hwf Hgap Ha c'. subst c'. revert c Ha Hwf Hgap.
  induction samples as [|s rest IH]; intros c Ha Hwf Hgap; simpl; [tauto|].
  pose proof (cw_available _ Hwf Ha) as Ho.
  assert (Hx : oc_exhausted c = false).
  { destruct (oc_exhausted c) eqn:E; [|done]. destruct (cw_exhausted _ Hwf E). congruence. }
  split.
  - intros [Hav Hrev]. pose proof (Observe_wf c s Hwf) as Hwf'.
    pose proof (observe_all_mono rest _ Hwf') as Hm.
    pose proof (closed_reopens_later rest _ Hwf') as Hlater. pose proof (Observe_gap c s) as Hg.
    pose proof (Observe_mono c s Hwf) as Hle. pose proof (IH (fst (Observe c s))) as IH'.
    destruct (Observe_cases c s Hwf); try congruence.
    + specialize (Hlater ltac:(congruence) ltac:(done) Hav). lia.
    + specialize (Hlater ltac:(done) ltac:(done) Hav). rewrite Ha in *. lia.
    + lia.
    + rewrite <-Hgap. split_and!; auto. rewrite Hgap.
      apply (IH' eq_refl Hwf' Hgap). auto.
  - intros (Hh & Hc & Hrest). rewrite continued_opened by (rewrite ?Hgap; auto).
    apply (IH (opened c s)); auto. rewrite <-(continued_opened c s) by (rewrite ?Hgap; auto).
    by apply Observe_wf.
Qed.

(** The intake fence is exact.  Take any state the watcher reaches in
    which the fence is open, and any further samples.  The fence is still open
    at the same revision, so that stamps taken before are still accepted,
    exactly when every sample was healthy and continued its predecessor: same
    power stamps, and monotonic and wall clocks that moved forward by less
    than the gap budget.  Any loss in between, even one that has recovered
    since, shows as a later revision or a closed fence, also when the 64-bit
    revision is used up. *)
Theorem continuity_fence_exact gap c0 before c samples :
  NewObservationContinuity gap = Ok c0 -> c = observe_all c0 before -> oc_available c = true ->
  let c' := observe_all c samples in
  oc_available c' = true /\ oc_revision c' = oc_revision c <-> unbroken gap (oc_last c) samples.
Proof.
  intros H0 -> Ha. apply fence_exact; [by apply observe_all_wf, (new_cont_wf gap)| |done].
  rewrite observe_all_gap. by apply new_cont_gap.
Qed.

Definition ex_sample (seconds : Z) : ContinuitySample :=
  mkSample (Add UnixEpoch (seconds * Second)) (mkPower time_zero time_zero) true.

Lemma continuity_fence_exact_witness :
  let c0 := mkContinuity 1 false "" false (10 * Second) sample_zero false in
  let c := observe_all c0 [ex_sample 1000] in
  let near := observe_all c [ex_sample 1005; ex_sample 1009] in
  let far := observe_all c [ex_sample 1005; ex_sample 1020] in
  oc_revision near = 1 /\ oc_revision far = 2 /\
  (oc_available near = true /\ oc_revision near = oc_revision c <->
   unbroken (10 * Second) (oc_last c) [ex_sample 1005; ex_sample 1009]).
Proof.
  cbv zeta. split; [by vm_compute|]. split; [by vm_compute|].
  apply (continuity_fence_exact (10 * Second)
           (mkContinuity 1 false "" false (10 * Second) sample_zero false) [ex_sample 1000]);
    by vm_compute.
Defined.
