(* ===== verification/ObservationGate.v ===== *)
(** * The observation gate

    [src/application/runtime/observation_gate.go]: the daemon's fence around
    [Continuity.ObservationContinuity].  Any number of callers stamp their
    intake and later read or commit under the stamp; one sampler goroutine at
    a time reads the native evidence without the lock.  Each critical section
    under the gate's mutex is one definition; the step relation interleaves
    them in every order, with contexts and timers that end at any time.  A
    context is an identity and the set of cancelled ones; a flight is a
    pointer that the sampler and its waiters share, so flights live in a
    store. *)

From S2P Require Import Prelude GoStrings GoTime RuntimeValues Lifecycle Continuity.

Definition MaxObservationContinuityGap : Z := 30 * Second.
Definition ErrObservationUnknown : error := Sentinel "native observation continuity unknown".

Record observationSampleFlight := mkFlight {
  fl_done : bool; fl_request : Z; fl_generation : Z; fl_applied : bool; fl_revision : Z }.

(** The zero stamp has no gate and no context. *)
Record ObservationStamp := mkStamp {
  st_gate : option nat; st_epoch : string; st_revision : Z; st_ctx : option nat }.

(** [gt_addr] is the gate's address; [gt_ctxDone] says whether its lifetime
    context is over, [gt_scope] is the current intake scope, a child of it, and
    [gt_cancelled] are the scopes cancelled by themselves.  [gt_flights] holds
    every flight ever made.  [gt_observed] is not a field of the code: it
    records the samples given to [continuity.Observe]. *)
Record ObservationGate := mkGate {
  gt_addr : nat; gt_continuity : ObservationContinuity; gt_epoch : string;
  gt_ctxDone : bool; gt_scope : nat; gt_cancelled : gset nat;
  gt_flight : option nat; gt_flights : gmap nat observationSampleFlight;
  gt_request : Z; gt_generation : Z; gt_closed : bool;
  gt_observed : list ContinuitySample }.

Definition NewObservationGate (addr : nat) (ctxNil samplerNil ctxDone : bool) (epoch : string)
  : result ObservationGate :=
  if ctxNil || samplerNil || negb (LaunchIdentity_Valid (mkLaunchIdentity epoch epoch epoch))
  then Err ErrInvalid
  else
    let! continuity := wrap_err "create observation continuity: %w"
                         (NewObservationContinuity MaxObservationContinuityGap) in
    Ok (mkGate addr continuity epoch ctxDone 0 {[ 0%nat ]} None ∅ 0 0 false []).

(** [scope.Err() != nil]: cancelled itself or by its parent. *)
Definition scope_err (g : ObservationGate) (scope : nat) : bool :=
  gt_ctxDone g || bool_decide (scope ∈ gt_cancelled g).
(** [stamp.Context().Err() != nil]; a stamp without a context has the revoked
    one. *)
Definition stamp_err (g : ObservationGate) (s : ObservationStamp) : bool :=
  match st_ctx s with None => true | Some scope => scope_err g scope end.

Definition with_continuity (g : ObservationGate) (c : ObservationContinuity) (sample : ContinuitySample)
  : ObservationGate :=
  mkGate (gt_addr g) c (gt_epoch g) (gt_ctxDone g) (gt_scope g) (gt_cancelled g) (gt_flight g)
    (gt_flights g) (gt_request g) (gt_generation g) (gt_closed g) (gt_observed g ++ [sample]).
(** [_ = g.continuity.Observe(sample)]. *)
Definition observe (g : ObservationGate) (sample : ContinuitySample) : ObservationGate :=
  with_continuity g (fst (Observe (gt_continuity g) sample)) sample.

Definition with_scopes (g : ObservationGate) (done : bool) (scope : nat) (cancelled : gset nat) (closed : bool)
  : ObservationGate :=
  mkGate (gt_addr g) (gt_continuity g) (gt_epoch g) done scope cancelled (gt_flight g)
    (gt_flights g) (gt_request g) (gt_generation g) closed (gt_observed g).
Definition cancelScope (g : ObservationGate) : ObservationGate :=
  with_scopes g (gt_ctxDone g) (gt_scope g) ({[ gt_scope g ]} ∪ gt_cancelled g) (gt_closed g).
(** [g.scope, g.cancelScope = context.WithCancel(g.ctx)]: a new scope. *)
Definition newScope (g : ObservationGate) : ObservationGate :=
  with_scopes g (gt_ctxDone g) (fresh ({[ gt_scope g ]} ∪ gt_cancelled g)) (gt_cancelled g) (gt_closed g).
Definition with_counters (g : ObservationGate) (request generation : Z) : ObservationGate :=
  mkGate (gt_addr g) (gt_continuity g) (gt_epoch g) (gt_ctxDone g) (gt_scope g) (gt_cancelled g)
    (gt_flight g) (gt_flights g) request generation (gt_closed g) (gt_observed g).
Definition with_flights (g : ObservationGate) (flight : option nat) (flights : gmap nat observationSampleFlight)
  : ObservationGate :=
  mkGate (gt_addr g) (gt_continuity g) (gt_epoch g) (gt_ctxDone g) (gt_scope g) (gt_cancelled g)
    flight flights (gt_request g) (gt_generation g) (gt_closed g) (gt_observed g).

Definition closeLocked (g : ObservationGate) : ObservationGate :=
  if gt_closed g then g
  else observe (cancelScope (with_scopes g true (gt_scope g) (gt_cancelled g) true)) sample_zero.

Definition applySampleLocked (g : ObservationGate) (sample : ContinuitySample) : ObservationGate :=
  let before := gt_continuity g in
  let g1 := observe g sample in
  let after := gt_continuity g1 in
  if negb (oc_available after) then cancelScope g1
  else if negb (oc_available before) || negb (oc_revision before =? oc_revision after)
  then newScope (cancelScope g1)
  else g1.

Definition failClosedLocked (g : ObservationGate) : ObservationGate :=
  if gt_closed g then g
  else if gt_generation g =? MaxUint64 then closeLocked g
  else applySampleLocked (with_counters g (gt_request g) (u64 (gt_generation g + 1))) sample_zero.

Definition InvalidateGap : ObservationGate -> ObservationGate := failClosedLocked.
Definition Gate_Close : ObservationGate -> ObservationGate := closeLocked.
Definition Gate_Snapshot (g : ObservationGate) : Z * bool * string * bool :=
  (oc_revision (gt_continuity g), oc_available (gt_continuity g), oc_reason (gt_continuity g),
   oc_exhausted (gt_continuity g)).

(** [ctxErr] is whether the caller's own context is over. *)
Definition currentLocked (g : ObservationGate) (ctxErr : bool) (revision : Z) : bool :=
  let state := gt_continuity g in
  negb (gt_closed g) && negb ctxErr && negb (gt_ctxDone g) && oc_available state
  && negb (oc_exhausted state) && (oc_revision state =? revision) && negb (scope_err g (gt_scope g)).

(** ** Refresh

    Its critical sections, in order: entry, one turn of the loop up to the
    wait, the three ways out of the wait, and the check after a completed
    flight. *)

Definition refresh_begin (g : ObservationGate) (ctxErr : bool) : ObservationGate * result Z :=
  if ctxErr then (g, Err ErrObservationUnknown)
  else if gt_closed g || gt_ctxDone g || (gt_request g =? MaxUint64)
  then (closeLocked g, Err ErrObservationUnknown)
  else let request := u64 (gt_request g + 1) in (with_counters g request (gt_generation g), Ok request).

Definition refresh_join (g : ObservationGate) (waitErr : bool) : ObservationGate * result nat :=
  if gt_closed g || gt_ctxDone g || waitErr then (failClosedLocked g, Err ErrObservationUnknown)
  else match gt_flight g with
       | Some f => (g, Ok f)
       | None =>
           let f := fresh (dom (gt_flights g)) in
           (with_flights g (Some f)
              (<[f := mkFlight false (gt_request g) (gt_generation g) false 0]> (gt_flights g)), Ok f)
       end.

(** The select: [None] is still waiting. *)
Inductive Woken := WaitOver | LifetimeOver | FlightDone.
Definition refresh_wait (g : ObservationGate) (w : Woken) : ObservationGate * option error :=
  match w with
  | WaitOver => (InvalidateGap g, Some ErrObservationUnknown)
  | LifetimeOver => (g, Some ErrObservationUnknown)
  | FlightDone => (g, None)
  end.

(** [None] repeats the loop. *)
Definition refresh_check (g : ObservationGate) (flight : observationSampleFlight) (request : Z) (waitErr : bool)
  : option (result Z) :=
  if negb (fl_applied flight) || negb (fl_generation flight =? gt_generation g) || gt_closed g
     || gt_ctxDone g || waitErr
  then Some (Err ErrObservationUnknown)
  else if request <=? fl_request flight then Some (Ok (fl_revision flight))
  else None.

(** The critical section of [sample], once the sampler returned. *)
Definition sample_finish (g : ObservationGate) (f : nat) (timedOut : bool) (sample : ContinuitySample)
  : ObservationGate :=
  match gt_flights g !! f with
  | None => g
  | Some flight =>
      let '(g1, flight1) :=
        if negb (gt_closed g) && negb (gt_ctxDone g) && (fl_generation flight =? gt_generation g) then
          if timedOut then (failClosedLocked g, flight)
          else
            let g1 := applySampleLocked g sample in
            let state := gt_continuity g1 in
            (g1, mkFlight (fl_done flight) (fl_request flight) (fl_generation flight)
                   (oc_available state && negb (oc_exhausted state)) (oc_revision state))
        else (g, flight) in
      with_flights g1 None
        (<[f := mkFlight true (fl_request flight1) (fl_generation flight1) (fl_applied flight1)
                  (fl_revision flight1)]> (gt_flights g1))
  end.

(** ** Stamps *)

(** [Stamp] after its refresh. *)
Definition Stamp_locked (g : ObservationGate) (ctxErr : bool) (revision : Z) : result ObservationStamp :=
  if negb (currentLocked g ctxErr revision) then Err ErrObservationUnknown
  else Ok (mkStamp (Some (gt_addr g)) (gt_epoch g) revision (Some (gt_scope g))).

(** [WithCurrent] before its refresh, and after it: [fn] is what the guarded
    function returns, and the call returns it or the guard's error. *)
Definition WithCurrent_entry (g : ObservationGate) (stamp : ObservationStamp) (fnNil : bool) : option error :=
  if negb (bool_decide (st_gate stamp = Some (gt_addr g))) || (st_epoch stamp <>?s gt_epoch g)
     || stamp_err g stamp || fnNil
  then Some ErrObservationUnknown else None.
Definition WithCurrent_guard (g : ObservationGate) (ctxErr : bool) (stamp : ObservationStamp) (revision : Z) : bool :=
  negb (negb (revision =? st_revision stamp) || negb (currentLocked g ctxErr revision)
        || negb (bool_decide (st_ctx stamp = Some (gt_scope g))) || stamp_err g stamp).
Definition WithCurrent_locked (g : ObservationGate) (ctxErr : bool) (stamp : ObservationStamp) (revision : Z)
  (fn : option error) : option error :=
  if WithCurrent_guard g ctxErr stamp revision then fn else Some ErrObservationUnknown.

(** ** Interleavings *)

Inductive gate_step : ObservationGate -> ObservationGate -> Prop :=
| gs_lifetime_over g :
    gate_step g (with_scopes g true (gt_scope g) (gt_cancelled g) (gt_closed g))
| gs_begin g ctxErr : gate_step g (fst (refresh_begin g ctxErr))
| gs_join g waitErr : gate_step g (fst (refresh_join g waitErr))
| gs_wait g w : gate_step g (fst (refresh_wait g w))
| gs_invalidate g : gate_step g (InvalidateGap g)
| gs_close g : gate_step g (Gate_Close g)
| gs_sampled g f flight timedOut sample :
    gt_flights g !! f = Some flight -> fl_done flight = false ->
    gate_step g (sample_finish g f timedOut sample).

(** ** What every step keeps *)

(** [g'] comes after [g]. *)
Record later (g g' : ObservationGate) : Prop := {
  lt_self : gt_addr g' = gt_addr g /\ gt_epoch g' = gt_epoch g;
  lt_observed : exists l, gt_observed g' = gt_observed g ++ l /\
    gt_continuity g' = observe_all (gt_continuity g) l;
  lt_request : gt_request g <= gt_request g';
  lt_flights : forall f fl, gt_flights g !! f = Some fl ->
    exists fl', gt_flights g' !! f = Some fl' /\ fl_request fl' = fl_request fl;
  lt_applied : forall f fl', gt_flights g' !! f = Some fl' -> fl_applied fl' = true ->
    (exists fl, gt_flights g !! f = Some fl /\ fl_applied fl = true) \/
    (List.length (gt_observed g) < List.length (gt_observed g'))%nat;
  lt_closed : gt_closed g = true -> gt_closed g' = true;
  lt_ctxDone : gt_ctxDone g = true -> gt_ctxDone g' = true }.

Lemma gate_later_refl g : later g g.
Proof. split; eauto; [|lia]. exists []. by rewrite app_nil_r. Qed.

Lemma gate_later_trans g g1 g2 : later g g1 -> later g1 g2 -> later g g2.
Proof.
  intros [[A1 A2] (l & A3 & A4) A5 A6 A7 A8 A9] [[B1 B2] (k & B3 & B4) B5 B6 B7 B8 B9].
  assert (Hlen : (List.length (gt_observed g) <= List.length (gt_observed g1))%nat)
    by (rewrite A3, length_app; lia).
  assert (Hlen' : (List.length (gt_observed g1) <= List.length (gt_observed g2))%nat)
    by (rewrite B3, length_app; lia).
  split; [split; congruence| |lia| | |auto|auto].
  - exists (l ++ k). by rewrite B3, A3, app_assoc, observe_all_app, <-A4.
  - intros f fl Hf. destruct (A6 f fl Hf) as (fl1 & Hf1 & E1). destruct (B6 f fl1 Hf1) as (fl2 & Hf2 & E2).
    exists fl2. split; [done|congruence].
  - intros f fl2 Hf2 Ha2. destruct (B7 f fl2 Hf2 Ha2) as [(fl1 & Hf1 & Ha1)|]; [|right; lia].
    destruct (A7 f fl1 Hf1 Ha1) as [|]; [by left|right; lia].
Qed.

(** A state that differs in contexts only, or has seen one more sample. *)
Lemma later_scopes g done scope cancelled closed :
  (gt_closed g = true -> closed = true) -> (gt_ctxDone g = true -> done = true) ->
  later g (with_scopes g done scope cancelled closed).
Proof. intros Hc Hd. split; simpl; eauto; [|lia]. exists []. by rewrite app_nil_r. Qed.
Lemma later_cancel g : later g (cancelScope g).
Proof. by apply later_scopes. Qed.
Lemma later_new g : later g (newScope g).
Proof. by apply later_scopes. Qed.
Lemma later_observe g s : later g (observe g s).
Proof. split; simpl; eauto; lia. Qed.
Lemma later_counters g r gen : gt_request g <= r -> later g (with_counters g r gen).
Proof. intros H. split; simpl; eauto. exists []. by rewrite app_nil_r. Qed.

Lemma later_close g : later g (closeLocked g).
Proof.
  unfold closeLocked. destruct (gt_closed g); [apply gate_later_refl|].
  eapply gate_later_trans; [by apply later_scopes|]. eapply gate_later_trans; [apply later_cancel|apply later_observe].
Qed.

Lemma later_apply g s : later g (applySampleLocked g s).
Proof.
  unfold applySampleLocked. eapply gate_later_trans; [apply (later_observe g s)|].
  destruct (negb _); [apply later_cancel|]. destruct (_ || _); [|apply gate_later_refl].
  eapply gate_later_trans; [apply later_cancel|apply later_new].
Qed.

Lemma later_fail g : later g (failClosedLocked g).
Proof.
  unfold failClosedLocked. destruct (gt_closed g); [apply gate_later_refl|]. destruct (_ =? _); [apply later_close|].
  eapply gate_later_trans; [|apply later_apply]. apply later_counters. lia.
Qed.

(** What the samples and the contexts leave alone. *)
Record same_flights (g g' : ObservationGate) : Prop := {
  sf_flight : gt_flight g' = gt_flight g;
  sf_flights : gt_flights g' = gt_flights g;
  sf_request : gt_request g' = gt_request g }.
Lemma same_flights_apply g s : same_flights g (applySampleLocked g s).
Proof. unfold applySampleLocked. destruct (negb _); [done|]. by destruct (_ || _). Qed.
Lemma same_flights_close g : same_flights g (closeLocked g).
Proof. unfold closeLocked. by destruct (gt_closed g). Qed.
Lemma same_flights_fail g : same_flights g (failClosedLocked g).
Proof.
  unfold failClosedLocked. destruct (gt_closed g); [done|]. destruct (_ =? _); [apply same_flights_close|].
  by destruct (same_flights_apply (with_counters g (gt_request g) (u64 (gt_generation g + 1))) sample_zero).
Qed.

(** The flight in the slot is the one that is under way, if any. *)
Record gate_ok (g : ObservationGate) : Prop := {
  go_request : is_u64 (gt_request g);
  go_flight : forall f, gt_flight g = Some f <->
    exists fl, gt_flights g !! f = Some fl /\ fl_done fl = false;
  go_requests : forall f fl, gt_flights g !! f = Some fl -> fl_request fl <= gt_request g }.

Lemma gate_ok_same g g' : same_flights g g' -> gate_ok g -> gate_ok g'.
Proof. intros [E1 E2 E3] [A1 A2 A3]. by split; rewrite ?E1, ?E2, ?E3. Qed.

Lemma begin_cases g ctxErr :
  gate_ok g ->
  match refresh_begin g ctxErr with
  | (g', Ok r) => r = gt_request g + 1 /\ g' = with_counters g r (gt_generation g) /\ is_u64 r
  | (g', Err _) => g' = g \/ g' = closeLocked g
  end.
Proof.
  intros Hok. pose proof (go_request _ Hok) as Hr. unfold refresh_begin. destruct ctxErr; [by left|].
  destruct (_ || _ || _) eqn:E; [by right|]. breflect. unfold is_u64 in *.
  rewrite u64_small by (unfold is_u64; lia). split_and!; [done|done|lia|lia].
Qed.

Lemma sample_cases g f timedOut sample flight :
  gt_flights g !! f = Some flight ->
  exists g1 applied revision,
    sample_finish g f timedOut sample =
      with_flights g1 None (<[f := mkFlight true (fl_request flight) (fl_generation flight) applied revision]> (gt_flights g)) /\
    same_flights g g1 /\ later g g1 /\
    (applied = true -> fl_applied flight = true \/ (List.length (gt_observed g) < List.length (gt_observed g1))%nat).
Proof.
  intros Hf. unfold sample_finish. rewrite Hf.
  destruct (_ && _ && _); [destruct timedOut|].
  - exists (failClosedLocked g), (fl_applied flight), (fl_revision flight).
    pose proof (same_flights_fail g) as Hs. rewrite (sf_flights _ _ Hs).
    split_and!; [done|done|apply later_fail|by left].
  - pose proof (same_flights_apply g sample) as Hs. simpl. rewrite (sf_flights _ _ Hs).
    eexists _, _, _. split_and!; [reflexivity|done|apply later_apply|]. intros _. right.
    unfold applySampleLocked. destruct (negb _); [|destruct (_ || _)]; simpl; rewrite length_app; simpl; lia.
  - exists g, (fl_applied flight), (fl_revision flight). split_and!; [done|done|apply gate_later_refl|by left].
Qed.

Lemma gate_step_ok g g' : gate_ok g -> gate_step g g' -> gate_ok g'.
Proof.
  intros Hok Hstep. destruct Hstep as [g|g ctxErr|g waitErr|g w|g|g|g f flight timedOut sample Hf Hd].
  - by apply (gate_ok_same g).
  - pose proof (begin_cases g ctxErr Hok) as H. destruct (refresh_begin g ctxErr) as [g' [r|e]]; simpl.
    + destruct H as (-> & -> & Hr). destruct Hok as [A1 A2 A3]. split; simpl; [done|done|].
      intros f fl Hf. specialize (A3 f fl Hf). lia.
    + destruct H as [->| ->]; [done|]. apply (gate_ok_same g); [apply same_flights_close|done].
  - unfold refresh_join. destruct (_ || _ || _); [apply (gate_ok_same g); [apply same_flights_fail|done]|].
    destruct (gt_flight g) as [f|] eqn:Ef; [done|]. simpl. set (f := fresh _).
    assert (Hf : gt_flights g !! f = None) by (apply not_elem_of_dom, is_fresh).
    destruct Hok as [A1 A2 A3]. split; simpl; [done| |].
    + intros k. split.
      * intros [= <-]. rewrite lookup_insert_eq. by eexists.
      * intros (fl & Hk & Hfd). destruct (decide (k = f)) as [->|Hne]; [done|].
        rewrite lookup_insert_ne in Hk by done. assert (gt_flight g = Some k) by (apply A2; eauto). congruence.
    + intros k fl Hk. destruct (decide (k = f)) as [->|Hne].
      * rewrite lookup_insert_eq in Hk. injection Hk as <-. simpl. lia.
      * rewrite lookup_insert_ne in Hk by done. eauto.
  - destruct w; simpl; [|done..]. apply (gate_ok_same g); [apply same_flights_fail|done].
  - apply (gate_ok_same g); [apply same_flights_fail|done].
  - apply (gate_ok_same g); [apply same_flights_close|done].
  - destruct (sample_cases g f timedOut sample flight Hf) as (g1 & ap & rv & -> & Hs & _ & _).
    pose proof (gate_ok_same _ _ Hs Hok) as Hok1. destruct Hok as [A1 A2 A3].
    assert (Hslot : gt_flight g = Some f) by (apply A2; eauto).
    split; simpl; [by apply Hok1| |].
    + intros k. split; [done|]. intros (fl & Hk & Hfd). destruct (decide (k = f)) as [->|Hne].
      * rewrite lookup_insert_eq in Hk. by injection Hk as <-.
      * rewrite lookup_insert_ne in Hk by done. assert (gt_flight g = Some k) by (apply A2; eauto). congruence.
    + intros k fl Hk. rewrite (sf_request _ _ Hs). destruct (decide (k = f)) as [->|Hne].
      * rewrite lookup_insert_eq in Hk. injection Hk as <-. simpl. eauto.
      * rewrite lookup_insert_ne in Hk by done. eauto.
Qed.

Lemma later_flights g g1 flight f fl :
  later g g1 -> gt_flights g1 = gt_flights g -> 
  (forall fl0, gt_flights g !! f = Some fl0 -> fl_request fl = fl_request fl0) ->
  (fl_applied fl = true -> (exists fl0, gt_flights g !! f = Some fl0 /\ fl_applied fl0 = true) \/
     (List.length (gt_observed g) < List.length (gt_observed g1))%nat) ->
  later g (with_flights g1 flight (<[f := fl]> (gt_flights g))).
Proof.
  intros [A1 A2 A3 A4 A5 A6 A7] Ef Hr Ha. split; simpl; try done.
  - intros k fl0 Hk. destruct (decide (k = f)) as [->|Hne].
    + exists fl. rewrite lookup_insert_eq. split; [done|]. by apply Hr.
    + exists fl0. by rewrite lookup_insert_ne.
  - intros k fl' Hk Hap. destruct (decide (k = f)) as [->|Hne].
    + rewrite lookup_insert_eq in Hk. injection Hk as <-. by apply Ha.
    + rewrite lookup_insert_ne in Hk by done. left. eauto.
Qed.

Lemma gate_step_later g g' : gate_ok g -> gate_step g g' -> later g g'.
Proof.
  intros Hok Hstep. destruct Hstep as [g|g ctxErr|g waitErr|g w|g|g|g f flight timedOut sample Hf Hd].
  - by apply later_scopes.
  - pose proof (begin_cases g ctxErr Hok) as H. destruct (refresh_begin g ctxErr) as [g' [r|e]]; simpl.
    + destruct H as (-> & -> & _). apply later_counters. lia.
    + destruct H as [->| ->]; [apply gate_later_refl|apply later_close].
  - unfold refresh_join. destruct (_ || _ || _); [apply later_fail|].
    destruct (gt_flight g) as [f|] eqn:Ef; [apply gate_later_refl|]. simpl.
    assert (Hf : gt_flights g !! fresh (dom (gt_flights g)) = None) by (apply not_elem_of_dom, is_fresh).
    apply later_flights; [apply gate_later_refl|done|intros fl0 E; congruence|done].
  - destruct w; simpl; [apply later_fail|apply gate_later_refl..].
  - apply later_fail.
  - apply later_close.
  - destruct (sample_cases g f timedOut sample flight Hf) as (g1 & ap & rv & -> & Hs & Hl & Hap).
    apply later_flights; [done|apply Hs|intros fl0 E; simpl; congruence|].
    simpl. intros E. destruct (Hap E) as [|]; [left; eauto|by right].
Qed.

Lemma gate_run_later g g' : gate_ok g -> star gate_step g g' -> gate_ok g' /\ later g g'.
Proof.
  intros Hok Hrun. split.
  - by apply (star_invariant gate_step gate_ok gate_step_ok _ _ Hrun).
  - exact (star_relation gate_step gate_ok later gate_later_refl gate_later_trans gate_step_ok gate_step_later _ _ Hrun Hok).
Qed.

Lemma NewObservationGate_ok addr n1 n2 d epoch g :
  NewObservationGate addr n1 n2 d epoch = Ok g ->
  gate_ok g /\ cont_wf (gt_continuity g) /\ oc_maxGap (gt_continuity g) = MaxObservationContinuityGap.
Proof.
  unfold NewObservationGate. intros H. destruct (_ || _); [done|]. unfold wrap_err in H.
  destruct (NewObservationContinuity _) as [c|] eqn:E; [|done]. injection H as <-.
  split; [|split; [by apply (new_cont_wf _ _ E)|by apply (new_cont_gap _ _ E)]].
  split; simpl; [unfold is_u64, MaxUint64; lia| |done].
  intros f. split; [done|]. by intros (fl & Hf & _).
Qed.

Lemma currentLocked_true g ctxErr rev :
  currentLocked g ctxErr rev = true ->
  gt_closed g = false /\ ctxErr = false /\ gt_ctxDone g = false /\
  oc_available (gt_continuity g) = true /\ oc_exhausted (gt_continuity g) = false /\
  oc_revision (gt_continuity g) = rev /\ scope_err g (gt_scope g) = false.
Proof. unfold currentLocked. intros H. breflect. done. Qed.

(** A call of [WithCurrent] that runs the guarded function: the stamp was
    issued in [gs], the call entered its refresh in [gb], the refresh ended in
    [ge] with flight [f], and the guard was passed in [gc]; between these
    points anything may happen. *)
Record guarded_run (stamp : ObservationStamp) (gs gb ge gc : ObservationGate) (f : nat) : Prop := {
  gr_stamp : exists ctxErr rev, Stamp_locked gs ctxErr rev = Ok stamp;
  gr_queued : star gate_step gs gb;
  gr_refresh : exists ctxErr gb' request fl waitErr rev ctxErr',
    refresh_begin gb ctxErr = (gb', Ok request) /\ star gate_step gb' ge /\
    gt_flights ge !! f = Some fl /\ refresh_check ge fl request waitErr = Some (Ok rev) /\
    star gate_step ge gc /\ WithCurrent_guard gc ctxErr' stamp rev = true }.

(** (C24) Evidence is committed only on an unbroken watch.  Whatever other
    callers, samplers, invalidations and timeouts do in between, a guarded
    function runs only if, from the moment its stamp was issued to the moment
    it runs, every sample applied was healthy and continued the one before
    it, so that no gap, sleep or restart of the watcher lies in between; and
    at least one of these samples was taken after the call began, by a
    sampler that was started after the call began. *)
Theorem with_current_unbroken addr d epoch g0 stamp gs gb ge gc f :
  NewObservationGate addr false false d epoch = Ok g0 -> star gate_step g0 gs ->
  guarded_run stamp gs gb ge gc f ->
  exists l1 l2,
    gt_observed gb = gt_observed gs ++ l1 /\ gt_observed gc = gt_observed gb ++ l2 /\ l2 <> [] /\
    gt_flights gb !! f = None /\ st_epoch stamp = gt_epoch gc /\
    unbroken MaxObservationContinuityGap (oc_last (gt_continuity gs)) (l1 ++ l2).
Proof.
  intros H0 Hs [(ce & rev1 & Hstamp) Hq (ce2 & gb' & r & fl & we & rev2 & ce3 & Hb & Hr & Hf & Hc & Hg & Hguard)].
  destruct (NewObservationGate_ok _ _ _ _ _ _ H0) as (Hok0 & Hwf & Hgap).
  destruct (gate_run_later _ _ Hok0 Hs) as [Hoks L0]. destruct (gate_run_later _ _ Hoks Hq) as [Hokb L1].
  pose proof (begin_cases gb ce2 Hokb) as Hbegin. rewrite Hb in Hbegin. destruct Hbegin as (-> & -> & Hr64).
  assert (Hokb' : gate_ok (with_counters gb (gt_request gb + 1) (gt_generation gb))).
  { apply (gate_step_ok gb); [done|]. pose proof (gs_begin gb ce2) as Hst. by rewrite Hb in Hst. }
  destruct (gate_run_later _ _ Hokb' Hr) as [Hoke L2]. destruct (gate_run_later _ _ Hoke Hg) as [Hokc L3].
  (* The two guards. *)
  unfold Stamp_locked in Hstamp. destruct (negb (currentLocked gs ce rev1)) eqn:Ecur; [done|]. injection Hstamp as <-.
  apply negb_false_iff, currentLocked_true in Ecur as (_ & _ & _ & Hav & _ & Hrev & _).
  unfold WithCurrent_guard in Hguard. simpl in Hguard. breflect. subst rev2.
  match goal with H : currentLocked gc _ _ = true |- _ =>
    apply currentLocked_true in H as (_ & _ & _ & Hav' & _ & Hrev' & _) end.
  (* The flight that was waited for. *)
  unfold refresh_check in Hc. destruct (_ || _ || _ || _ || _) eqn:Echk; [done|]. breflect.
  destruct (_ <=? _) eqn:Ereq in Hc; [|done]. breflect.
  destruct (lt_observed _ _ L1) as (l1 & E1 & C1). destruct (lt_observed _ _ L2) as (l2 & E2 & C2).
  destruct (lt_observed _ _ L3) as (l3 & E3 & C3). simpl in E2, C2.
  assert (Hnew : gt_flights gb !! f = None).
  { destruct (gt_flights gb !! f) as [fl0|] eqn:Efl; [|done].
    pose proof (go_requests _ Hokb f fl0 Efl). destruct (lt_flights _ _ L2 f fl0 Efl) as (fl' & Hf' & Eq).
    rewrite Hf in Hf'. injection Hf' as <-. lia. }
  exists l1, (l2 ++ l3). split_and!; [done|by rewrite E3, E2, app_assoc| |done| |].
  - destruct (lt_applied _ _ L2 f fl Hf) as [(fl0 & Hfl0 & _)|Hlen]; [done|simpl in Hfl0; congruence|].
    simpl in Hlen. rewrite E2, length_app in Hlen. destruct l2; simpl in *; [lia|done].
  - simpl. destruct (lt_self _ _ L1), (lt_self _ _ L2), (lt_self _ _ L3). simpl in *. congruence.
  - rewrite C2, C1, <-!observe_all_app in C3.
    destruct (lt_observed _ _ L0) as (l0 & _ & C0).
    apply (fence_exact _ (gt_continuity gs)); [rewrite C0; by apply observe_all_wf| |done|].
    + by rewrite C0, observe_all_gap.
    + rewrite <-C3. split; [done|congruence].
Qed.

(** At most one sampler runs, and a closed gate stays closed.  In every
    reachable state two flights that are under way are the same one; and from
    a closed state no interleaving, not even a sampler that returns late,
    issues a stamp or runs a guarded function again. *)
Theorem gate_single_sampler addr d epoch g0 g :
  NewObservationGate addr false false d epoch = Ok g0 -> star gate_step g0 g ->
  (forall f1 fl1 f2 fl2, gt_flights g !! f1 = Some fl1 -> gt_flights g !! f2 = Some fl2 ->
     fl_done fl1 = false -> fl_done fl2 = false -> f1 = f2) /\
  (gt_closed g = true -> forall g', star gate_step g g' -> forall ctxErr rev stamp,
     Stamp_locked g' ctxErr rev = Err ErrObservationUnknown /\ WithCurrent_guard g' ctxErr stamp rev = false).
Proof.
  intros H0 Hs. destruct (NewObservationGate_ok _ _ _ _ _ _ H0) as (Hok0 & _ & _).
  destruct (gate_run_later _ _ Hok0 Hs) as [Hok _]. split.
  - intros f1 fl1 f2 fl2 H1 H2 D1 D2.
    assert (A1 : gt_flight g = Some f1) by (apply (go_flight _ Hok); eauto).
    assert (A2 : gt_flight g = Some f2) by (apply (go_flight _ Hok); eauto). congruence.
  - intros Hc g' Hg' ctxErr rev stamp. destruct (gate_run_later _ _ Hok Hg') as [_ L].
    pose proof (lt_closed _ _ L Hc) as Hc'.
    assert (E : currentLocked g' ctxErr rev = false) by (unfold currentLocked; by rewrite Hc').
    unfold Stamp_locked, WithCurrent_guard. rewrite E. simpl. by rewrite orb_true_r.
Qed.

(** *** Witnesses *)

Definition ex_epoch : string := "0123456789abcdef0123456789abcdef".
Definition ex_gate : ObservationGate :=
  mkGate 7 (mkContinuity 1 false "" false MaxObservationContinuityGap sample_zero false) ex_epoch
    false 0 {[ 0%nat ]} None ∅ 0 0 false [].
(** One refresh: entry, a new flight, and its sample. *)
Definition ex_begun (g : ObservationGate) : ObservationGate := fst (refresh_begin g false).
Definition ex_joined (g : ObservationGate) : ObservationGate := fst (refresh_join g false).
Definition ex_sampled (f : nat) (seconds : Z) (g : ObservationGate) : ObservationGate :=
  sample_finish (ex_joined (ex_begun g)) f false (ex_sample seconds).
Definition ex_g1 : ObservationGate := Eval vm_compute in ex_sampled 0 1000 ex_gate.
Definition ex_g2 : ObservationGate := Eval vm_compute in ex_sampled 1 1010 ex_g1.
Definition ex_stamp : ObservationStamp := mkStamp (Some 7%nat) ex_epoch 1 (Some (gt_scope ex_g1)).

Lemma ex_refresh g f seconds fl :
  gt_flights (ex_joined (ex_begun g)) !! f = Some fl -> fl_done fl = false ->
  star gate_step (ex_begun g) (ex_sampled f seconds g).
Proof.
  intros Hf Hd. apply (star_step _ _ (ex_joined (ex_begun g))); [exact (gs_join _ false)|].
  apply star_one. exact (gs_sampled _ f fl false (ex_sample seconds) Hf Hd).
Qed.

Lemma with_current_unbroken_witness :
  NewObservationGate 7 false false false ex_epoch = Ok ex_gate /\
  guarded_run ex_stamp ex_g1 ex_g1 ex_g2 ex_g2 1 /\
  exists l1 l2, gt_observed ex_g1 = gt_observed ex_g1 ++ l1 /\ gt_observed ex_g2 = gt_observed ex_g1 ++ l2 /\ l2 <> [].
Proof.
  assert (H0 : NewObservationGate 7 false false false ex_epoch = Ok ex_gate) by vm_refl.
  assert (Hs : star gate_step ex_gate ex_g1).
  { apply (star_step _ _ (ex_begun ex_gate)); [exact (gs_begin ex_gate false)|].
    replace ex_g1 with (ex_sampled 0 1000 ex_gate) by vm_refl.
    apply (ex_refresh ex_gate 0 1000 (mkFlight false 1 0 false 0)); vm_refl. }
  assert (Hr : guarded_run ex_stamp ex_g1 ex_g1 ex_g2 ex_g2 1).
  { split; [exists false, 1; vm_refl|apply star_refl|].
    exists false, (ex_begun ex_g1), 2, (mkFlight true 2 0 true 1), false, 1, false.
    split; [vm_refl|]. split; [|split; [vm_refl|split; [vm_refl|split; [apply star_refl|vm_refl]]]].
    replace ex_g2 with (ex_sampled 1 1010 ex_g1) by vm_refl.
    apply (ex_refresh ex_g1 1 1010 (mkFlight false 2 0 false 0)); vm_refl. }
  split; [exact H0|]. split; [exact Hr|].
  destruct (with_current_unbroken 7 false ex_epoch ex_gate ex_stamp ex_g1 ex_g1 ex_g2 ex_g2 1 H0 Hs Hr)
    as (l1 & l2 & A1 & A2 & A3 & _).
  exists l1, l2. exact (conj A1 (conj A2 A3)).
Defined.

Lemma gate_single_sampler_witness :
  NewObservationGate 7 false false false ex_epoch = Ok ex_gate /\
  gt_closed (Gate_Close ex_gate) = true /\
  WithCurrent_guard (Gate_Close ex_gate) false ex_stamp 1 = false.
Proof.
  assert (H0 : NewObservationGate 7 false false false ex_epoch = Ok ex_gate) by vm_refl.
  split; [exact H0|]. split; [vm_refl|].
  destruct (gate_single_sampler 7 false ex_epoch ex_gate (Gate_Close ex_gate) H0
    (star_one _ _ _ (gs_close ex_gate))) as [_ H].
  destruct (H ltac:(vm_refl) _ (star_refl _ _) false 1 ex_stamp) as [_ Hg]. exact Hg.
Defined.
