(* ===== verification/Projection.v ===== *)
(** * Observation projection

    [src/domain/runtime/projection.go]: what is currently known of a managed
    run's interaction, from native evidence with causal order, expiry by a
    monotonic clock, bounded deduplication and a version counter.  Pointer
    methods return the new projection. *)

From S2P Require Import Prelude GoStrings Sha256 GoTime RuntimeValues Launch Lifecycle.

Definition MaxProjectionEvents : Z := 256.
Definition InteractionTTL : Z := 60 * Second.

Record ProjectionSelection := mkSelection {
  sl_identity : LaunchIdentity; sl_worktree : string; sl_profile : string }.
#[global] Instance ProjectionSelection_eq_dec : EqDecision ProjectionSelection.
Proof. solve_decision. Defined.
Definition ProjectionSelection_zero : ProjectionSelection := mkSelection LaunchIdentity_zero "" "".

Definition ProjectionSelection_Valid (b : ProjectionSelection) : bool :=
  let w := sl_worktree b in
  if negb (LaunchIdentity_Valid (sl_identity b)) || negb (slen w =? 66) || negb (HasPrefix w "w_")
     || (w <>?s ToLower w)
  then false
  else if negb (hex_ok (implode (drop 2 (explode w)))) then false
  else is_ok (ProfileIDFrom (sl_profile b)).

Record ProjectionClock := mkClock { ck_elapsed : Z; ck_wall : Time }.
Definition ProjectionClock_zero : ProjectionClock := mkClock 0 time_zero.

Definition ProjectionUnknown : string := "unknown".
Definition ProjectionWorking : string := "working".
Definition ProjectionWaiting : string := "waiting".
Definition ProjectionStop : string := "stop".
Definition ProjectionApproval : string := "approval".

Definition ProjectionGap : string := "gap".
Definition ProjectionSleepWake : string := "sleep_wake".
Definition ProjectionRestart : string := "restart".
Definition ProjectionExpired : string := "expired".
Definition ProjectionClockReversal : string := "clock_reversal".
Definition ProjectionConflict : string := "conflict".
Definition ProjectionCausality : string := "causality_unknown".
Definition ProjectionCapacity : string := "capacity".
Definition ProjectionProcessInactive : string := "process_inactive".

(** ** Events *)

Record ProjectionEventState := mkEventState {
  es_selection : ProjectionSelection; es_source : string; es_event_id : string;
  es_session : string; es_turn : string; es_request : string; es_source_version : string;
  es_boundary : string; es_kind : string; es_received : ProjectionClock;
  es_host_time : Time; es_has_host_time : bool }.
Definition ProjectionEventState_zero : ProjectionEventState :=
  mkEventState ProjectionSelection_zero "" "" "" "" "" "" "" "" ProjectionClock_zero time_zero false.

Record ProjectionEvent := mkEvent {
  pe_state : ProjectionEventState; pe_key : string; pe_fingerprint : string; pe_valid : bool }.

(** [encoding/json] of the content of an event.  Every string of a validated
    event is ASCII, for which these are the escapes of [json.Marshal]. *)
Definition dquote : ascii := Ascii.ascii_of_nat 34.
Definition hex4 (b : Z) : string := "\u00" +:+ EncodeToString [byte_chr b].
Definition json_escape (c : ascii) : string :=
  let b := byte_val c in
  if b =? 34 then "\" +:+ String dquote ""
  else if b =? 92 then "\\"
  else if b =? 8 then "\b" else if b =? 12 then "\f" else if b =? 10 then "\n"
  else if b =? 13 then "\r" else if b =? 9 then "\t"
  else if (b <? 32) || (b =? 60) || (b =? 62) || (b =? 38) then hex4 b
  else String c "".
Definition json_string (s : string) : string :=
  String dquote (String.concat "" (map json_escape (explode s))) +:+ String dquote "".
Definition json_object (fields : list (string * string)) : string :=
  "{" +:+ String.concat "," (map (fun kv => json_string (fst kv) +:+ ":" +:+ snd kv) fields) +:+ "}".
Definition json_bool (b : bool) : string := if b then "true" else "false".
(** [Time.MarshalJSON] refuses years that do not have four digits. *)
Definition json_time (t : Time) : option string :=
  if (0 <=? Year t) && (Year t <=? 9999) then Some (json_string (FormatRFC3339Nano t)) else None.
Definition json_identity (i : LaunchIdentity) : string :=
  json_object [("Run", json_string (li_run i)); ("Generation", json_string (li_generation i));
               ("Epoch", json_string (li_epoch i))].
Definition json_selection (s : ProjectionSelection) : string :=
  json_object [("Identity", json_identity (sl_identity s)); ("Worktree", json_string (sl_worktree s));
               ("Profile", json_string (sl_profile s))].

(** [json.Marshal(content)], where the receipt has been zeroed. *)
Definition marshal_content (s : ProjectionEventState) : option string :=
  match json_time (es_host_time s), json_time time_zero with
  | Some host, Some zero =>
      Some (json_object
        [("Selection", json_selection (es_selection s)); ("Source", json_string (es_source s));
         ("EventID", json_string (es_event_id s)); ("NativeSessionID", json_string (es_session s));
         ("TurnID", json_string (es_turn s)); ("RequestID", json_string (es_request s));
         ("SourceVersion", json_string (es_source_version s)); ("Boundary", json_string (es_boundary s));
         ("Kind", json_string (es_kind s));
         ("Received", json_object [("Elapsed", "0"); ("Wall", zero)]);
         ("HostTime", host); ("HasHostTime", json_bool (es_has_host_time s))])
  | _, _ => None
  end.

Definition event_key (source event_id : string) : string :=
  implode (Sum256 (explode source ++ nul :: explode event_id)).

Definition ProjectionEventOf (s : ProjectionEventState) : result ProjectionEvent :=
  let wall := ck_wall (es_received s) in
  if negb (ProjectionSelection_Valid (es_selection s)) || (ck_elapsed (es_received s) <? 0)
     || IsZero wall || (Year wall <? 1) || (9999 <? Year wall)
     || negb (printableLaunchValue (es_source_version s) 256)
  then Err ErrInvalid
  else if negb (known_host (es_source s)) then Err ErrInvalid
  else if negb (observationCorrelation (es_event_id s) false) || negb (observationCorrelation (es_session s) true)
          || negb (observationCorrelation (es_turn s) true) || negb (observationCorrelation (es_request s) true)
  then Err ErrInvalid
  else if negb (slices_contains [ProjectionUnknown; ProjectionWorking; ProjectionWaiting; ProjectionStop;
                                 ProjectionApproval] (es_kind s))
  then Err ErrInvalid
  else if negb (slices_contains ("" :: observation_boundaries) (es_boundary s)) then Err ErrInvalid
  else if Bool.eqb (es_has_host_time s) (IsZero (es_host_time s)) then Err ErrInvalid
  else
    let s' := mkEventState (es_selection s) (es_source s) (es_event_id s) (es_session s) (es_turn s)
                (es_request s) (es_source_version s) (es_boundary s) (es_kind s)
                (mkClock (ck_elapsed (es_received s)) (UTC (Round0 wall)))
                (UTC (Round0 (es_host_time s))) (es_has_host_time s) in
    match marshal_content s' with
    | None => Err ErrInvalid
    | Some encoded =>
        Ok (mkEvent s' (event_key (es_source s) (es_event_id s)) (implode (Sum256 (explode encoded))) true)
    end.

Record NativeProjectionEvidence := mkNative {
  nv_event : ProjectionEvent; nv_revision : Z; nv_sequence : Z; nv_previous : string }.
Record ProjectionAttention := mkAttention { at_source : string; at_event_id : string; at_revision : Z }.

(** ** The projection *)

Definition CaptureUnknown : string := "unknown".
Definition CaptureHealthy : string := "healthy".
Definition CaptureDegraded : string := "degraded".
Definition ConnectionUnknown : string := "unknown".
Definition ConnectionConnected : string := "connected".
Definition ConnectionDisconnected : string := "disconnected".

Record ProjectionSnapshot := mkSnapshot {
  ps_refresh : Z; ps_selection : ProjectionSelection; ps_version : Z; ps_revision : Z;
  ps_process : string; ps_interaction : string; ps_reason : string;
  ps_capture : string; ps_connection : string;
  ps_last : ProjectionEventState; ps_last_waiting : ProjectionEventState;
  ps_has_last : bool; ps_has_waiting : bool; ps_stale : bool; ps_exhausted : bool;
  ps_attention : ProjectionAttention }.

Record projectionReceipt := mkReceipt {
  rc_fingerprint : string; rc_native : bool; rc_sequence : Z; rc_previous : string }.
Definition projectionReceipt_zero : projectionReceipt := mkReceipt "" false 0 "".

Record ObservationProjection := mkProjection {
  op_state : ProjectionSnapshot; op_seen : gmap string projectionReceipt;
  op_last_clock : Z; op_accepted_at : Z; op_clock_seen : bool; op_sequence : Z;
  op_anchor : string; op_session : string; op_source : string }.

(** *** Field updates *)

Definition on_state (f : ProjectionSnapshot -> ProjectionSnapshot) (p : ObservationProjection) :=
  mkProjection (f (op_state p)) (op_seen p) (op_last_clock p) (op_accepted_at p) (op_clock_seen p)
    (op_sequence p) (op_anchor p) (op_session p) (op_source p).
Definition set_seen (seen : gmap string projectionReceipt) (p : ObservationProjection) :=
  mkProjection (op_state p) seen (op_last_clock p) (op_accepted_at p) (op_clock_seen p)
    (op_sequence p) (op_anchor p) (op_session p) (op_source p).
Definition set_clock (now : Z) (p : ObservationProjection) :=
  mkProjection (op_state p) (op_seen p) now (op_accepted_at p) true
    (op_sequence p) (op_anchor p) (op_session p) (op_source p).
Definition set_accepted (at_ : Z) (p : ObservationProjection) :=
  mkProjection (op_state p) (op_seen p) (op_last_clock p) at_ (op_clock_seen p)
    (op_sequence p) (op_anchor p) (op_session p) (op_source p).
Definition set_frontier (sequence : Z) (anchor session source : string) (p : ObservationProjection) :=
  mkProjection (op_state p) (op_seen p) (op_last_clock p) (op_accepted_at p) (op_clock_seen p)
    sequence anchor session source.

Definition st_refresh (d : Z) (s : ProjectionSnapshot) := mkSnapshot d (ps_selection s) (ps_version s)
  (ps_revision s) (ps_process s) (ps_interaction s) (ps_reason s) (ps_capture s) (ps_connection s)
  (ps_last s) (ps_last_waiting s) (ps_has_last s) (ps_has_waiting s) (ps_stale s) (ps_exhausted s) (ps_attention s).
Definition st_version (v : Z) (s : ProjectionSnapshot) := mkSnapshot (ps_refresh s) (ps_selection s) v
  (ps_revision s) (ps_process s) (ps_interaction s) (ps_reason s) (ps_capture s) (ps_connection s)
  (ps_last s) (ps_last_waiting s) (ps_has_last s) (ps_has_waiting s) (ps_stale s) (ps_exhausted s) (ps_attention s).
Definition st_revision (v : Z) (s : ProjectionSnapshot) := mkSnapshot (ps_refresh s) (ps_selection s) (ps_version s)
  v (ps_process s) (ps_interaction s) (ps_reason s) (ps_capture s) (ps_connection s)
  (ps_last s) (ps_last_waiting s) (ps_has_last s) (ps_has_waiting s) (ps_stale s) (ps_exhausted s) (ps_attention s).
Definition st_exhausted (s : ProjectionSnapshot) := mkSnapshot (ps_refresh s) (ps_selection s) (ps_version s)
  (ps_revision s) (ps_process s) (ps_interaction s) (ps_reason s) (ps_capture s) (ps_connection s)
  (ps_last s) (ps_last_waiting s) (ps_has_last s) (ps_has_waiting s) (ps_stale s) true (ps_attention s).
Definition st_interaction (kind reason : string) (stale : bool) (s : ProjectionSnapshot) :=
  mkSnapshot (ps_refresh s) (ps_selection s) (ps_version s)
  (ps_revision s) (ps_process s) kind reason (ps_capture s) (ps_connection s)
  (ps_last s) (ps_last_waiting s) (ps_has_last s) (ps_has_waiting s) stale (ps_exhausted s) (ps_attention s).
Definition st_process (v : string) (s : ProjectionSnapshot) := mkSnapshot (ps_refresh s) (ps_selection s) (ps_version s)
  (ps_revision s) v (ps_interaction s) (ps_reason s) (ps_capture s) (ps_connection s)
  (ps_last s) (ps_last_waiting s) (ps_has_last s) (ps_has_waiting s) (ps_stale s) (ps_exhausted s) (ps_attention s).
Definition st_capture (v : string) (s : ProjectionSnapshot) := mkSnapshot (ps_refresh s) (ps_selection s) (ps_version s)
  (ps_revision s) (ps_process s) (ps_interaction s) (ps_reason s) v (ps_connection s)
  (ps_last s) (ps_last_waiting s) (ps_has_last s) (ps_has_waiting s) (ps_stale s) (ps_exhausted s) (ps_attention s).
Definition st_connection (v : string) (s : ProjectionSnapshot) := mkSnapshot (ps_refresh s) (ps_selection s) (ps_version s)
  (ps_revision s) (ps_process s) (ps_interaction s) (ps_reason s) (ps_capture s) v
  (ps_last s) (ps_last_waiting s) (ps_has_last s) (ps_has_waiting s) (ps_stale s) (ps_exhausted s) (ps_attention s).
Definition st_last (e : ProjectionEventState) (s : ProjectionSnapshot) := mkSnapshot (ps_refresh s) (ps_selection s) (ps_version s)
  (ps_revision s) (ps_process s) (ps_interaction s) (ps_reason s) (ps_capture s) (ps_connection s)
  e (ps_last_waiting s) true (ps_has_waiting s) (ps_stale s) (ps_exhausted s) (ps_attention s).
Definition st_waiting (e : ProjectionEventState) (s : ProjectionSnapshot) := mkSnapshot (ps_refresh s) (ps_selection s) (ps_version s)
  (ps_revision s) (ps_process s) (ps_interaction s) (ps_reason s) (ps_capture s) (ps_connection s)
  (ps_last s) e (ps_has_last s) true true (ps_exhausted s) (ps_attention s).
Definition st_attention (a : ProjectionAttention) (s : ProjectionSnapshot) := mkSnapshot (ps_refresh s) (ps_selection s) (ps_version s)
  (ps_revision s) (ps_process s) (ps_interaction s) (ps_reason s) (ps_capture s) (ps_connection s)
  (ps_last s) (ps_last_waiting s) (ps_has_last s) (ps_has_waiting s) (ps_stale s) (ps_exhausted s) a.

(** *** Operations *)

Definition projectionProcess (s : string) : bool := slices_contains [RunReserved; RunLive; RunExited] s.

Definition NewObservationProjection (b : ProjectionSelection) (process : string) : result ObservationProjection :=
  if negb (ProjectionSelection_Valid b) || negb (projectionProcess process) then Err ErrInvalid
  else Ok (mkProjection
             (mkSnapshot 0 b 1 1 process ProjectionUnknown "" CaptureUnknown ConnectionUnknown
                ProjectionEventState_zero ProjectionEventState_zero false false false false
                (mkAttention "" "" 0))
             ∅ 0 0 false 0 "" "" "").

Definition unknown (reason : string) : ObservationProjection -> ObservationProjection :=
  on_state (fun s => st_interaction ProjectionUnknown reason (ps_has_waiting s) s).

Definition changed (p : ObservationProjection) : ObservationProjection :=
  if ps_version (op_state p) =? MaxUint64 then unknown ProjectionCapacity (on_state st_exhausted p)
  else on_state (fun s => st_version (u64 (ps_version s + 1)) s) p.

(** The pair of calls most refusals make. *)
Definition lose (reason : string) (p : ObservationProjection) : ObservationProjection :=
  changed (unknown reason p).

Definition Invalidate (reason : string) (p : ObservationProjection) : ObservationProjection :=
  let reason' :=
    if slices_contains [ProjectionGap; ProjectionSleepWake; ProjectionRestart; ProjectionClockReversal] reason
    then reason else ProjectionGap in
  lose reason'
    (if ps_revision (op_state p) =? MaxUint64 then on_state st_exhausted p
     else on_state (fun s => st_revision (u64 (ps_revision s + 1)) s) p).

Definition known (p : ObservationProjection) : bool := ps_interaction (op_state p) <>?s ProjectionUnknown.

Definition advance (now : ProjectionClock) (p : ObservationProjection) : ObservationProjection * bool :=
  if (ck_elapsed now <? 0) || IsZero (ck_wall now) || op_clock_seen p && (ck_elapsed now <? op_last_clock p)
  then (Invalidate ProjectionClockReversal p, false)
  else
    let p1 := set_clock (ck_elapsed now) p in
    (if known p1 && (InteractionTTL <=? ck_elapsed now - op_accepted_at p1)
     then lose ProjectionExpired p1 else p1, true).

Definition Snapshot (now : ProjectionClock) (p : ObservationProjection) : ObservationProjection * ProjectionSnapshot :=
  let p1 := fst (advance now p) in
  (p1, if known p1
       then st_refresh (InteractionTTL - (ck_elapsed now - op_accepted_at p1)) (op_state p1)
       else op_state p1).

Definition intake (e : ProjectionEvent) (now : ProjectionClock) (p : ObservationProjection)
  : ObservationProjection * (bool * option error) :=
  if negb (bool_decide (es_selection (pe_state e) = ps_selection (op_state p))) then (p, (false, Some ErrChanged))
  else if negb (pe_valid e) then (p, (false, Some ErrInvalid))
  else
    let '(p1, ok) := advance now p in
    if negb ok then (p1, (false, Some ErrChanged))
    else if ck_elapsed now <? ck_elapsed (es_received (pe_state e))
    then (lose ProjectionCausality p1, (false, Some ErrChanged))
    else if ps_exhausted (op_state p1) then (p1, (false, Some ErrLimit))
    else match op_seen p1 !! pe_key e with
         | Some old =>
             if rc_fingerprint old <>?s pe_fingerprint e
             then (lose ProjectionConflict p1, (false, Some ErrChanged))
             else (p1, (false, None))
         | None =>
             if MaxProjectionEvents <=? msize (op_seen p1)
             then (lose ProjectionCapacity (on_state st_exhausted p1), (false, Some ErrLimit))
             else
               let p2 := set_seen (<[pe_key e := mkReceipt (pe_fingerprint e) false 0 ""]> (op_seen p1)) p1 in
               (changed (on_state (st_last (pe_state e)) p2), (true, None))
         end.

Definition ObserveUnbound (e : ProjectionEvent) (now : ProjectionClock) (p : ObservationProjection)
  : ObservationProjection * option error :=
  if negb (pe_valid e) then (p, Some ErrInvalid)
  else if negb (bool_decide (es_selection (pe_state e) = ps_selection (op_state p))) then (p, Some ErrChanged)
  else
    let '(p1, ok) := advance now p in
    if negb ok then (p1, Some ErrChanged)
    else if ck_elapsed now <? ck_elapsed (es_received (pe_state e)) then (p1, Some ErrChanged)
    else (changed (on_state (st_last (pe_state e)) p1), None).

(** The end of [ReconcileNative], once the event continues the frontier. *)
Definition accept (e : ProjectionEventState) (now : ProjectionClock) (p : ObservationProjection)
  : ObservationProjection * option error :=
  let p1 := if es_kind e =?s ProjectionWaiting then on_state (st_waiting e) p else p in
  if ps_process (op_state p1) <>?s RunLive then (lose ProjectionProcessInactive p1, None)
  else if InteractionTTL <=? ck_elapsed now - ck_elapsed (es_received e)
  then (lose ProjectionExpired p1, None)
  else
    let previous := ps_interaction (op_state p1) in
    let p2 := set_accepted (ck_elapsed (es_received e)) p1 in
    let renews := slices_contains [ProjectionWorking; ProjectionWaiting] (es_kind e) in
    let attention := renews && (es_kind e =?s ProjectionWaiting) && (previous <>?s ProjectionWaiting) in
    let p3 := changed
      (if renews
       then on_state (fun s => st_interaction (es_kind e) ""
                                 (ps_has_waiting s && (es_kind e <>?s ProjectionWaiting)) s) p2
       else unknown ProjectionCausality p2) in
    (if attention && negb (ps_exhausted (op_state p3))
     then on_state (st_attention (mkAttention (es_source e) (es_event_id e) (ps_version (op_state p3)))) p3
     else p3, None).

Definition ReconcileNative (n : NativeProjectionEvidence) (now : ProjectionClock) (p : ObservationProjection)
  : ObservationProjection * option error :=
  let e := pe_state (nv_event n) in
  if negb (bool_decide (es_selection e = ps_selection (op_state p))) then (p, Some ErrChanged)
  else if negb (nv_revision n =? ps_revision (op_state p)) then (lose ProjectionCausality p, Some ErrChanged)
  else if (nv_sequence n =? 0) || negb (observationCorrelation (nv_previous n) true) || (es_session e =?s "")
  then (lose ProjectionCausality p, Some ErrChanged)
  else
    let '(p1, (fresh, err)) := intake (nv_event n) now p in
    match err with
    | Some er => (p1, Some er)
    | None =>
        let old := default projectionReceipt_zero (op_seen p1 !! pe_key (nv_event n)) in
        if negb fresh then
          if rc_native old && (negb (rc_sequence old =? nv_sequence n) || (rc_previous old <>?s nv_previous n))
          then (lose ProjectionConflict p1, Some ErrChanged)
          else (p1, None)
        else
          let p2 := set_seen (<[pe_key (nv_event n) :=
                       mkReceipt (rc_fingerprint old) true (nv_sequence n) (nv_previous n)]> (op_seen p1)) p1 in
          if (0 <? op_sequence p2) && ((es_source e <>?s op_source p2) || (es_session e <>?s op_session p2))
          then (lose ProjectionCausality p2, Some ErrChanged)
          else if nv_sequence n <? op_sequence p2 then (p2, None)
          else if nv_sequence n =? op_sequence p2 then (lose ProjectionCausality p2, Some ErrChanged)
          else
            let causal := nv_previous n =?s op_anchor p2 in
            let p3 := set_frontier (nv_sequence n) (es_event_id e) (es_session e) (es_source e) p2 in
            if negb causal then (lose ProjectionCausality p3, Some ErrChanged)
            else accept e now p3
    end.

Definition UpdateProcess (s : string) (p : ObservationProjection) : ObservationProjection * option error :=
  if negb (projectionProcess s) then (p, Some ErrInvalid)
  else
    let current := ps_process (op_state p) in
    if (current =?s RunExited) && (s <>?s RunExited) || (current =?s RunLive) && (s =?s RunReserved)
    then (p, Some ErrChanged)
    else if current <>?s s then
      let p1 := on_state (st_process s) p in
      (changed (if s <>?s RunLive then unknown ProjectionProcessInactive p1 else p1), None)
    else (p, None).

Definition UpdateCapture (s : string) (p : ObservationProjection) : ObservationProjection * option error :=
  if negb (slices_contains [CaptureUnknown; CaptureHealthy; CaptureDegraded] s) then (p, Some ErrInvalid)
  else if s <>?s ps_capture (op_state p) then (changed (on_state (st_capture s) p), None) else (p, None).

Definition UpdateConnection (s : string) (p : ObservationProjection) : ObservationProjection * option error :=
  if negb (slices_contains [ConnectionUnknown; ConnectionConnected; ConnectionDisconnected] s) then (p, Some ErrInvalid)
  else if s <>?s ps_connection (op_state p) then (changed (on_state (st_connection s) p), None) else (p, None).

(** ** Invariants *)

(** What holds even between the assignments of one operation. *)
Record proj_weak (p : ObservationProjection) : Prop := {
  pw_version : 1 <= ps_version (op_state p) <= MaxUint64;
  pw_revision : 1 <= ps_revision (op_state p) <= MaxUint64;
  pw_seen : msize (op_seen p) <= MaxProjectionEvents;
  pw_refresh : ps_refresh (op_state p) = 0 }.

(** Knowledge of the interaction needs a live process, a clock, and evidence
    received less than the TTL ago. *)
Record proj_known (p : ObservationProjection) : Prop := {
  pk_kind : ps_interaction (op_state p) = ProjectionWorking \/ ps_interaction (op_state p) = ProjectionWaiting;
  pk_process : ps_process (op_state p) = RunLive;
  pk_exhausted : ps_exhausted (op_state p) = false;
  pk_clock : op_clock_seen p = true;
  pk_fresh : 0 <= op_accepted_at p <= op_last_clock p /\ op_last_clock p - op_accepted_at p < InteractionTTL }.

Record proj_wf (p : ObservationProjection) : Prop := {
  pj_weak : proj_weak p;
  pj_known : known p = true -> proj_known p;
  pj_stale : ps_has_waiting (op_state p) = true ->
    ps_stale (op_state p) = (ps_interaction (op_state p) <>?s ProjectionWaiting);
  pj_waiting : ps_interaction (op_state p) = ProjectionWaiting -> ps_has_waiting (op_state p) = true }.

(** How a projection may evolve silently: knowledge is kept as it was, with
    its age, or lost. *)
Definition keeps (p q : ObservationProjection) : Prop :=
  known q = false \/
  (known p = true /\ ps_interaction (op_state q) = ps_interaction (op_state p) /\
   op_accepted_at q = op_accepted_at p).

(** Every change is visible as a higher version, or as exhaustion. *)
Definition later (p q : ObservationProjection) : Prop :=
  ps_version (op_state p) <= ps_version (op_state q) /\
  (ps_exhausted (op_state p) = true -> ps_exhausted (op_state q) = true) /\
  (ps_version (op_state q) = ps_version (op_state p) ->
     op_state q = op_state p \/ ps_exhausted (op_state q) = true).

(** The causal frontier and the process are untouched. *)
Definition frame (p q : ObservationProjection) : Prop :=
  op_sequence q = op_sequence p /\ op_anchor q = op_anchor p /\
  ps_process (op_state q) = ps_process (op_state p).

Lemma keeps_refl p : keeps p p.
Proof. unfold keeps. destruct (known p); auto. Qed.
Lemma keeps_trans p q r : keeps p q -> keeps q r -> keeps p r.
Proof.
  intros [H1|(H1 & H2 & H3)] [H4|(H4 & H5 & H6)]; try (by left); [congruence|].
  right. split_and!; congruence.
Qed.
Lemma later_refl p : later p p.
Proof. unfold later. split_and!; auto; lia. Qed.
Lemma later_trans p q r : later p q -> later q r -> later p r.
Proof.
  intros (A1 & A2 & A3) (B1 & B2 & B3). split_and!; [lia|auto|]. intros E.
  destruct (B3 ltac:(lia)) as [->|?]; [|auto]. apply A3. lia.
Qed.

(** [changed] after any assignments [q] made to [p]. *)
Lemma changed_version q :
  proj_weak q ->
  ps_version (op_state q) < ps_version (op_state (changed q)) \/
  (ps_version (op_state (changed q)) = MaxUint64 /\ ps_version (op_state q) = MaxUint64 /\
   ps_exhausted (op_state (changed q)) = true).
Proof.
  intros Hw. pose proof (pw_version _ Hw). unfold changed.
  destruct (_ =? _) eqn:E; breflect; simpl; [by right|left].
  rewrite u64_small by (unfold is_u64; lia). lia.
Qed.

Lemma changed_exhausted q : ps_exhausted (op_state q) = true -> ps_exhausted (op_state (changed q)) = true.
Proof. unfold changed. by destruct (_ =? _). Qed.

Lemma later_changed p q :
  proj_weak q -> ps_version (op_state q) = ps_version (op_state p) ->
  (ps_exhausted (op_state p) = true -> ps_exhausted (op_state q) = true) -> later p (changed q).
Proof.
  intros Hw Hv He. pose proof (pw_version _ Hw). split_and!.
  - destruct (changed_version q Hw) as [?|(? & ? & ?)]; lia.
  - auto using changed_exhausted.
  - intros E. right. destruct (changed_version q Hw) as [?|(? & ? & ?)]; [lia|done].
Qed.

Lemma changed_weak q : proj_weak q -> proj_weak (changed q).
Proof.
  intros Hw. unfold changed. destruct (_ =? _) eqn:E; breflect; destruct Hw; split; simpl; auto.
  rewrite u64_small by (unfold is_u64; lia). lia.
Qed.

Lemma changed_keeps p q : keeps p q -> keeps p (changed q).
Proof. unfold changed. destruct (_ =? _); [by left|done]. Qed.

Lemma unknown_unknown reason p : known (unknown reason p) = false.
Proof. done. Qed.

Lemma unknown_weak reason p : proj_weak p -> proj_weak (unknown reason p).
Proof. by intros []. Qed.

Lemma changed_wf p : proj_wf p -> proj_wf (changed p).
Proof.
  intros Hp. pose proof (changed_weak _ (pj_weak _ Hp)) as Hw. unfold changed in *.
  destruct (_ =? _); [by split|]. destruct Hp as [_ Hk Hs Hwt]. split; auto.
  intros Hkn. destruct (Hk Hkn). by split.
Qed.

Lemma unknown_wf reason p : proj_weak p -> proj_wf (unknown reason p).
Proof. intros Hw. split; [by apply unknown_weak|discriminate|by intros H|discriminate]. Qed.

Lemma lose_wf reason p : proj_weak p -> proj_wf (lose reason p).
Proof. intros Hw. by apply changed_wf, unknown_wf. Qed.
Lemma lose_unknown reason q : known (lose reason q) = false.
Proof. unfold lose, changed. by destruct (_ =? MaxUint64). Qed.
Lemma lose_keeps p reason q : keeps p (lose reason q).
Proof. apply changed_keeps. by left. Qed.
Lemma lose_later p reason q :
  proj_weak q -> ps_version (op_state q) = ps_version (op_state p) ->
  (ps_exhausted (op_state p) = true -> ps_exhausted (op_state q) = true) -> later p (lose reason q).
Proof. intros. apply later_changed; auto using unknown_weak. Qed.

Lemma on_exhausted_weak p : proj_weak p -> proj_weak (on_state st_exhausted p).
Proof. by intros []. Qed.

#[local] Hint Resolve keeps_refl later_refl lose_keeps changed_keeps lose_wf changed_wf pj_weak
  on_exhausted_weak unknown_weak changed_weak lose_later : proj.

Lemma Invalidate_inv reason p : proj_weak p -> proj_wf (Invalidate reason p) /\ known (Invalidate reason p) = false
  /\ later p (Invalidate reason p).
Proof.
  intros Hw. unfold Invalidate. set (q := if _ =? _ then _ else _).
  assert (Hq : proj_weak q /\ ps_version (op_state q) = ps_version (op_state p) /\
               (ps_exhausted (op_state p) = true -> ps_exhausted (op_state q) = true)).
  { unfold q. destruct Hw. destruct (_ =? _) eqn:E; breflect; simpl; (split; [split|split]); simpl; auto.
    rewrite u64_small by (unfold is_u64; lia). lia. }
  destruct Hq as (Hq & Hv & He). split_and!; auto with proj.
  apply lose_unknown.
Qed.

Lemma set_clock_wf now p :
  proj_wf p -> (known p = true -> op_last_clock p <= now /\ now - op_accepted_at p < InteractionTTL) ->
  proj_wf (set_clock now p).
Proof.
  intros [Hw Hk Hs Hwt] Hn. split; auto; [by destruct Hw|]. intros Hkn.
  destruct (Hk Hkn) as [K1 K2 K3 K4 K5]. destruct (Hn Hkn). split; simpl; auto; lia.
Qed.

Lemma advance_inv now p :
  proj_wf p ->
  let '(q, ok) := advance now p in
  proj_wf q /\ keeps p q /\ later p q /\ op_seen q = op_seen p /\ frame p q /\
  (ok = true -> op_clock_seen q = true /\ op_last_clock q = ck_elapsed now /\ 0 <= ck_elapsed now /\
     ps_revision (op_state q) = ps_revision (op_state p)).
Proof.
  intros Hp. unfold advance. destruct (_ || (op_clock_seen p && _)) eqn:E.
  - destruct (Invalidate_inv ProjectionClockReversal p (pj_weak _ Hp)) as (H1 & H2 & H3).
    do 2 (split; [by auto || by left|]). split; [done|]. split; [|split; [|done]];
      unfold frame, Invalidate, lose, changed; by split_goal.
  - breflect.
    assert (Hclk : proj_weak (set_clock (ck_elapsed now) p)) by (destruct (pj_weak _ Hp); by split).
    assert (Hkeep : keeps p (set_clock (ck_elapsed now) p)) by (apply (keeps_refl p)).
    assert (Hlate : later p (set_clock (ck_elapsed now) p)) by (apply (later_refl p)).
    destruct (known (set_clock _ p) && _) eqn:Ex.
    + split_and!; auto with proj; unfold frame, lose, changed; split_goal; simpl; auto.
    + split_and!; auto; [|by unfold frame]. apply set_clock_wf; [done|]. intros Hkn. pose proof (pj_known _ Hp Hkn) as [].
      change (known (set_clock (ck_elapsed now) p)) with (known p) in Ex. rewrite Hkn in Ex.
      match goal with H : op_clock_seen p && _ = false |- _ => rewrite pk_clock0 in H end.
      simpl in *. breflect. lia.
Qed.

Lemma changed_frame p q : frame p q -> frame p (changed q).
Proof. unfold changed. by destruct (_ =? MaxUint64). Qed.
Lemma lose_frame p q reason : frame p q -> frame p (lose reason q).
Proof. intros H. by apply changed_frame. Qed.
Lemma frame_refl p : frame p p.
Proof. by unfold frame. Qed.
Lemma frame_trans p q r : frame p q -> frame q r -> frame p r.
Proof. unfold frame. intros (?&?&?) (?&?&?). split_and!; congruence. Qed.
Lemma changed_seen q : op_seen (changed q) = op_seen q.
Proof. unfold changed. by destruct (_ =? MaxUint64). Qed.
Lemma changed_clock q : op_last_clock (changed q) = op_last_clock q /\ op_clock_seen (changed q) = op_clock_seen q
  /\ op_accepted_at (changed q) = op_accepted_at q.
Proof. unfold changed. by destruct (_ =? MaxUint64). Qed.
Lemma changed_revision q : ps_revision (op_state (changed q)) = ps_revision (op_state q).
Proof. unfold changed. by destruct (_ =? MaxUint64). Qed.

Lemma changed_exhausts q :
  ps_exhausted (op_state q) = false -> ps_exhausted (op_state (changed q)) = true ->
  ps_version (op_state (changed q)) = MaxUint64.
Proof. unfold changed. destruct (_ =? MaxUint64) eqn:E; breflect; simpl; congruence. Qed.

Lemma same_state_later p q : op_state q = op_state p -> later p q.
Proof. intros E. unfold later. rewrite E. split_and!; auto; lia. Qed.

(** Recording an arrival beside the knowledge. *)
Lemma st_last_wf e p : proj_wf p -> proj_wf (on_state (st_last e) p).
Proof.
  intros [Hw Hk Hs Hwt]. split; auto; [by destruct Hw|]. intros Hkn. destruct (Hk Hkn). by split.
Qed.
Lemma set_seen_wf seen p : proj_wf p -> msize seen <= MaxProjectionEvents -> proj_wf (set_seen seen p).
Proof.
  intros [Hw Hk Hs Hwt] Hm. split; auto; [by destruct Hw; split|]. intros Hkn. destruct (Hk Hkn). by split.
Qed.

#[local] Hint Resolve frame_refl : proj.

(** A new event enters the ledger once, and only under a running clock. *)
Record entered (e : ProjectionEvent) (now : ProjectionClock) (p q : ObservationProjection) : Prop := {
  en_valid : pe_valid e = true;
  en_new : op_seen p !! pe_key e = None;
  en_seen : is_Some (op_seen q !! pe_key e);
  en_clock : op_clock_seen q = true /\ op_last_clock q = ck_elapsed now;
  en_now : 0 <= ck_elapsed now /\ ck_elapsed (es_received (pe_state e)) <= ck_elapsed now;
  en_open : ps_exhausted (op_state p) = false;
  en_full : ps_exhausted (op_state q) = true -> ps_version (op_state q) = MaxUint64 }.

Lemma intake_inv e now p :
  proj_wf p ->
  let '(q, (fresh, err)) := intake e now p in
  proj_wf q /\ keeps p q /\ later p q /\ frame p q /\
  (fresh = true -> err = None /\ entered e now p q).
Proof.
  intros Hp. unfold intake.
  destruct (negb (bool_decide _)); [split_and!; auto with proj; done|].
  destruct (negb (pe_valid e)) eqn:Ev; [split_and!; auto with proj; done|].
  pose proof (advance_inv now p Hp) as Ha. destruct (advance now p) as [q ok].
  destruct Ha as (Hq & Hkp & Hlp & Hseen & Hfr & Hclk).
  assert (Hlose : forall reason r, op_state r = op_state q \/ op_state r = st_exhausted (op_state q) ->
            proj_weak r -> frame q r ->
            proj_wf (lose reason r) /\ keeps p (lose reason r) /\ later p (lose reason r) /\ frame p (lose reason r)).
  { intros reason r Hr Hwr Hfq. split_and!; auto with proj.
    - eapply later_trans; [exact Hlp|]. apply lose_later; [done|by destruct Hr as [-> | ->]|].
      by destruct Hr as [-> | ->].
    - eapply lose_frame, frame_trans; eauto. }
  destruct ok; simpl negb; cbn iota; [|split_and!; auto; done].
  destruct (Hclk eq_refl) as (Hcs & Hlc & Hnn & Hrev).
  destruct (_ <? _) eqn:Er; [destruct (Hlose ProjectionCausality q (or_introl eq_refl) (pj_weak _ Hq) (frame_refl q)) as (?&?&?&?);
    by split_and!|].
  destruct (ps_exhausted (op_state q)) eqn:Ex; [split_and!; auto; done|].
  destruct (op_seen q !! pe_key e) as [old|] eqn:Eo.
  - destruct (_ <>?s _); [|split_and!; auto; done].
    destruct (Hlose ProjectionConflict q (or_introl eq_refl) (pj_weak _ Hq) (frame_refl q)) as (?&?&?&?).
    by split_and!.
  - destruct (MaxProjectionEvents <=? msize (op_seen q)) eqn:Em.
    + destruct (Hlose ProjectionCapacity (on_state st_exhausted q) (or_intror eq_refl)
                  (on_exhausted_weak _ (pj_weak _ Hq)) (frame_refl q)) as (?&?&?&?). by split_and!.
    + breflect. set (seen' := <[_ := _]> _).
      assert (Hsz : msize seen' <= MaxProjectionEvents)
        by (unfold seen'; rewrite msize_insert_new by done; lia).
      assert (Hwf2 : proj_wf (on_state (st_last (pe_state e)) (set_seen seen' q)))
        by (by apply st_last_wf, set_seen_wf).
      split_and!; auto with proj.
      * eapply later_trans; [exact Hlp|]. apply later_changed; auto with proj.
      * eapply frame_trans; [exact Hfr|]. apply changed_frame. by unfold frame.
      * intros _. split; [done|]. destruct (changed_clock (on_state (st_last (pe_state e)) (set_seen seen' q))) as (C1 & C2 & _).
        split; auto.
        -- congruence.
        -- rewrite changed_seen. simpl. unfold seen'. rewrite lookup_insert_eq. eauto.
        -- by rewrite C1, C2.
        -- destruct Hlp as (_ & Hx & _). destruct (ps_exhausted (op_state p)); [|done].
           by rewrite (Hx eq_refl) in Ex.
        -- by apply changed_exhausts.
Qed.

(** An event as [ProjectionEventOf] makes it, or an invalid one. *)
Definition event_ok (e : ProjectionEvent) : Prop :=
  pe_valid e = true -> 0 <= ck_elapsed (es_received (pe_state e)).

Lemma ProjectionEventOf_ok s e : ProjectionEventOf s = Ok e -> event_ok e.
Proof.
  unfold ProjectionEventOf. intros H _.
  destruct (_ || negb (printableLaunchValue _ _)) eqn:E in H; [done|]. breflect.
  ok_inv H. simpl. lia.
Qed.

(** Evidence that may make the interaction known: new, of the current
    continuity revision, next in the native causal chain, about a live
    process, and received less than the TTL ago. *)
Record renews (n : NativeProjectionEvidence) (now : ProjectionClock) (p q : ObservationProjection) : Prop := {
  rn_new : op_seen p !! pe_key (nv_event n) = None;
  rn_current : nv_revision n = ps_revision (op_state p);
  rn_later : op_sequence p < nv_sequence n;
  rn_chained : nv_previous n = op_anchor p;
  rn_open : ps_exhausted (op_state p) = false;
  rn_live : ps_process (op_state p) = RunLive;
  rn_age : 0 <= ck_elapsed now - ck_elapsed (es_received (pe_state (nv_event n))) < InteractionTTL;
  rn_kind : ps_interaction (op_state q) = es_kind (pe_state (nv_event n));
  rn_at : op_accepted_at q = ck_elapsed (es_received (pe_state (nv_event n))) }.

Lemma st_waiting_weak e p : proj_weak p -> proj_weak (on_state (st_waiting e) p).
Proof. by intros []. Qed.

Lemma attention_wf p a : proj_wf p -> proj_wf (on_state (st_attention a) p).
Proof.
  intros [Hw Hk Hs Hwt]. split; auto; [by destruct Hw|]. intros Hkn. destruct (Hk Hkn). by split.
Qed.

(** Recording an accepted interaction [k], received at [at_]. *)
Definition record_kind (k : string) (at_ : Z) (p : ObservationProjection) : ObservationProjection :=
  on_state (fun s => st_interaction k "" (ps_has_waiting s && (k <>?s ProjectionWaiting)) s) (set_accepted at_ p).

Lemma record_wf k at_ p :
  proj_weak p -> op_clock_seen p = true -> 0 <= at_ <= op_last_clock p ->
  op_last_clock p - at_ < InteractionTTL -> ps_process (op_state p) = RunLive ->
  k = ProjectionWorking \/ k = ProjectionWaiting ->
  (k = ProjectionWaiting -> ps_has_waiting (op_state p) = true) ->
  (ps_exhausted (op_state p) = true -> ps_version (op_state p) = MaxUint64) ->
  proj_wf (changed (record_kind k at_ p)).
Proof.
  intros Hw Hcs Hr Hage Hlive Hk Hhw Hex. set (q := record_kind k at_ p).
  assert (Hq : proj_weak q) by (destruct Hw; by split).
  destruct (decide (ps_version (op_state p) = MaxUint64)) as [Hv|Hv].
  - unfold changed. change (ps_version (op_state q)) with (ps_version (op_state p)). rewrite Hv.
    apply unknown_wf. destruct Hw. by split.
  - apply changed_wf. split; simpl; auto.
    + intros _. split; simpl; auto. destruct (ps_exhausted _); [by destruct Hv; apply Hex|done].
    + by intros ->.
Qed.

Lemma changed_live q : known (changed q) = true ->
  changed q = on_state (fun s => st_version (u64 (ps_version s + 1)) s) q.
Proof. unfold changed. by destruct (_ =? MaxUint64). Qed.

(** What [accept] does: nothing silently, and knowledge only of the event. *)
Lemma accept_inv e now p :
  proj_wf p -> op_clock_seen p = true -> op_last_clock p = ck_elapsed now ->
  0 <= ck_elapsed (es_received e) <= ck_elapsed now ->
  (ps_exhausted (op_state p) = true -> ps_version (op_state p) = MaxUint64) ->
  let q := fst (accept e now p) in
  proj_wf q /\ later p q /\
  (known q = false \/
   (ps_process (op_state p) = RunLive /\ ck_elapsed now - ck_elapsed (es_received e) < InteractionTTL /\
    ps_interaction (op_state q) = es_kind e /\ op_accepted_at q = ck_elapsed (es_received e))).
Proof.
  intros Hp Hcs Hlc Hr Hex. unfold accept.
  set (p1 := if _ =?s ProjectionWaiting then _ else p).
  assert (Hp1 : proj_weak p1 /\ ps_version (op_state p1) = ps_version (op_state p) /\
    ps_exhausted (op_state p1) = ps_exhausted (op_state p) /\ ps_process (op_state p1) = ps_process (op_state p) /\
    op_clock_seen p1 = true /\ op_last_clock p1 = ck_elapsed now /\
    (es_kind e = ProjectionWaiting -> ps_has_waiting (op_state p1) = true)).
  { unfold p1. destruct (_ =?s _) eqn:E; breflect; split_and!; auto using st_waiting_weak, pj_weak. }
  destruct Hp1 as (Hw1 & Hv1 & He1 & Hl1 & Hc1 & Hlc1 & Hhw1). clearbody p1.
  assert (Hlose : forall r, proj_wf (lose r p1) /\ later p (lose r p1) /\ known (lose r p1) = false).
  { intros r. split_and!; auto using lose_wf, lose_unknown. apply lose_later; congruence. }
  destruct (_ <>?s RunLive) eqn:El; [destruct (Hlose ProjectionProcessInactive) as (?&?&?); simpl; auto|].
  destruct (InteractionTTL <=? _) eqn:Et; [destruct (Hlose ProjectionExpired) as (?&?&?); simpl; auto|].
  breflect. destruct (slices_contains _ (es_kind e)) eqn:Ek; simpl andb.
  - breflect. rewrite !elem_of_cons in Ek.
    assert (Hk : es_kind e = ProjectionWorking \/ es_kind e = ProjectionWaiting)
      by (destruct Ek as [?|[?|Ek]]; auto; by apply elem_of_nil in Ek).
    fold (record_kind (es_kind e) (ck_elapsed (es_received e)) p1).
    set (q := record_kind (es_kind e) (ck_elapsed (es_received e)) p1).
    assert (Hq : proj_wf (changed q)) by (apply record_wf; rewrite ?He1, ?Hv1; auto; lia || congruence).
    assert (Hlater : later p (changed q)).
    { apply later_changed; [by destruct Hw1|done|]. change (ps_exhausted (op_state q)) with (ps_exhausted (op_state p1)).
      congruence. }
    assert (Heff : known (changed q) = false \/
      (ps_process (op_state p) = RunLive /\ ck_elapsed now - ck_elapsed (es_received e) < InteractionTTL /\
       ps_interaction (op_state (changed q)) = es_kind e /\ op_accepted_at (changed q) = ck_elapsed (es_received e))).
    { destruct (known (changed q)) eqn:Ekn; [right|by left]. rewrite (changed_live _ Ekn). split_and!; auto; congruence. }
    destruct (_ && negb (ps_exhausted _)) eqn:Ea; simpl; [|done]. breflect.
    split; [by apply attention_wf|]. split; [|exact Heff].
    destruct (changed_version q) as [Hlt|(_ & _ & Hx)]; [by destruct Hw1| |congruence].
    change (ps_version (op_state q)) with (ps_version (op_state p1)) in Hlt.
    split_and!; simpl; [lia|by apply Hlater|lia].
  - fold (lose ProjectionCausality (set_accepted (ck_elapsed (es_received e)) p1)). simpl.
    assert (Hw2 : proj_weak (set_accepted (ck_elapsed (es_received e)) p1)) by (destruct Hw1; by split).
    split_and!; auto using lose_wf. apply lose_later; auto. simpl. congruence.
    left. apply lose_unknown.
Qed.

(** *** One step of the projection *)

Definition reconciled (n : NativeProjectionEvidence) (now : ProjectionClock) (p q : ObservationProjection) : Prop :=
  proj_wf q /\ later p q /\ (keeps p q \/ renews n now p q).

Lemma lose_reconciled n now p q reason :
  later p q -> proj_weak q -> reconciled n now p (lose reason q).
Proof.
  intros Hl Hw. split; [by apply lose_wf|]. split; [|left; apply lose_keeps].
  eapply later_trans; [exact Hl|]. by apply lose_later.
Qed.

Lemma ReconcileNative_inv n now p :
  proj_wf p -> event_ok (nv_event n) -> reconciled n now p (fst (ReconcileNative n now p)).
Proof.
  intros Hp Hev. assert (Hsame : reconciled n now p p) by (split; [|split]; auto with proj).
  unfold ReconcileNative. destruct (negb (bool_decide _)); [done|].
  destruct (negb (nv_revision n =? _)) eqn:Erev; [by apply lose_reconciled, pj_weak; auto with proj|].
  destruct (_ || _); [by apply lose_reconciled, pj_weak; auto with proj|]. breflect.
  pose proof (intake_inv (nv_event n) now p Hp) as Hi.
  destruct (intake (nv_event n) now p) as [p1 [fresh err]]. destruct Hi as (Hp1 & Hkeep & Hlate & Hfr & Hfresh).
  destruct err as [er|]; [split; auto|]. cbv zeta.
  destruct fresh; simpl negb; cbn iota.
  2: { destruct (_ && _); [by apply lose_reconciled, pj_weak|split; auto]. }
  destruct (Hfresh eq_refl) as (_ & [V N S [C1 C2] [T1 T2] O F]).
  set (seen' := <[_:=_]> _). set (p2 := set_seen seen' p1).
  assert (Hp2 : proj_wf p2).
  { apply set_seen_wf; [done|]. unfold seen'. rewrite msize_insert_old by done.
    apply (pw_seen _ (pj_weak _ Hp1)). }
  assert (Hlate2 : later p p2) by (eapply later_trans; [exact Hlate|by apply same_state_later]).
  assert (Hkeep2 : keeps p p2) by (eapply keeps_trans; [exact Hkeep|apply (keeps_refl p1)]).
  destruct (_ && (_ || _)); [by apply lose_reconciled, pj_weak|].
  destruct (nv_sequence n <? _) eqn:E1; [by split; auto|].
  destruct (nv_sequence n =? _) eqn:E2; [by apply lose_reconciled, pj_weak|]. breflect.
  set (p3 := set_frontier _ _ _ _ p2).
  assert (Hp3 : proj_wf p3) by (destruct Hp2 as [[] Hk Hs Hwt]; split; auto; [by split|];
    intros Hkn; destruct (Hk Hkn); by split).
  assert (Hlate3 : later p p3) by (eapply later_trans; [exact Hlate2|by apply same_state_later]).
  destruct (negb (_ =?s _)) eqn:Ec; [by apply lose_reconciled, pj_weak|]. breflect.
  specialize (Hev V).
  destruct (accept_inv (pe_state (nv_event n)) now p3 Hp3 C1 C2 (conj Hev T2) F) as (H1 & H2 & H3).
  split; [done|]. split; [by eapply later_trans|].
  destruct H3 as [H3|(L & A & K & T)]; [left; by left|right].
  destruct Hfr as (F1 & F2 & F3). simpl in *.
  split; auto; try congruence; try lia.
Qed.

Variant proj_op :=
| OpSnapshot (now : ProjectionClock)
| OpInvalidate (reason : string)
| OpObserve (e : ProjectionEvent) (now : ProjectionClock)
| OpReconcile (n : NativeProjectionEvidence) (now : ProjectionClock)
| OpProcess (s : string)
| OpCapture (s : string)
| OpConnection (s : string).

Definition run_op (o : proj_op) (p : ObservationProjection) : ObservationProjection :=
  match o with
  | OpSnapshot now => fst (Snapshot now p)
  | OpInvalidate reason => Invalidate reason p
  | OpObserve e now => fst (ObserveUnbound e now p)
  | OpReconcile n now => fst (ReconcileNative n now p)
  | OpProcess s => fst (UpdateProcess s p)
  | OpCapture s => fst (UpdateCapture s p)
  | OpConnection s => fst (UpdateConnection s p)
  end.

(** Events are opaque: a caller holds one that [ProjectionEventOf] returned,
    or the zero value. *)
Definition made (e : ProjectionEvent) : Prop := (exists s, ProjectionEventOf s = Ok e) \/ pe_valid e = false.
Definition op_made (o : proj_op) : Prop :=
  match o with OpReconcile n _ => made (nv_event n) | OpObserve e _ => made e | _ => True end.

Inductive proj_step : ObservationProjection -> ObservationProjection -> Prop :=
| step_op o p : op_made o -> proj_step p (run_op o p).

Lemma made_ok e : made e -> event_ok e.
Proof. intros [[s H]|H]; [by eapply ProjectionEventOf_ok|]. unfold event_ok. congruence. Qed.

(** The effect every operation has. *)
Definition stepped (o : proj_op) (p q : ObservationProjection) : Prop :=
  proj_wf q /\ later p q /\
  (keeps p q \/ exists n now, o = OpReconcile n now /\ renews n now p q).

Lemma stepped_changed o p q :
  proj_wf q -> ps_version (op_state q) = ps_version (op_state p) ->
  (ps_exhausted (op_state p) = true -> ps_exhausted (op_state q) = true) -> keeps p q ->
  stepped o p (changed q).
Proof. intros Hq Hv He Hk. split; [|split; [|left]]; auto using later_changed, pj_weak with proj. Qed.

Lemma st_health_wf f p :
  proj_wf p -> f = st_capture \/ f = st_connection -> forall s, proj_wf (on_state (f s) p).
Proof.
  intros [Hw Hk Hs Hwt] [-> | ->] s; (split; auto; [by destruct Hw|intros Hkn; destruct (Hk Hkn); by split]).
Qed.

Lemma UpdateProcess_stepped s p : proj_wf p -> stepped (OpProcess s) p (fst (UpdateProcess s p)).
Proof.
  intros Hp. assert (Hsame : stepped (OpProcess s) p p) by (split; [|split]; auto with proj).
  unfold UpdateProcess. destruct (negb (projectionProcess s)); [done|].
  destruct (_ || _) eqn:E1; [done|]. destruct (_ <>?s s) eqn:E2; [|done]. breflect. cbv zeta. simpl fst.
  assert (Hw : proj_weak (on_state (st_process s) p)) by (destruct (pj_weak _ Hp); by split).
  destruct (s <>?s RunLive) eqn:El; breflect.
  - apply stepped_changed; auto using unknown_wf. by left.
  - apply stepped_changed; auto; [|apply (keeps_refl p)].
    destruct Hp as [_ Hk Hs Hwt]. split; auto. intros Hkn. destruct (Hk Hkn). by split.
Qed.

Lemma run_op_stepped o p : proj_wf p -> op_made o -> stepped o p (run_op o p).
Proof.
  intros Hp Hm. assert (Hsame : stepped o p p) by (split; [|split]; auto with proj).
  destruct o as [now|reason|e now|n now|s|s|s]; simpl.
  - pose proof (advance_inv now p Hp) as H. unfold Snapshot. destruct (advance now p) as [q ok].
    destruct H as (? & ? & ? & _). split; auto.
  - destruct (Invalidate_inv reason p (pj_weak _ Hp)) as (H1 & H2 & H3). split; auto. split; auto. by left; left.
  - unfold ObserveUnbound. destruct (negb _); [done|]. destruct (negb _); [done|].
    pose proof (advance_inv now p Hp) as H. destruct (advance now p) as [q ok].
    destruct H as (Hq & Hk & Hl & _).
    assert (Hstay : stepped (OpObserve e now) p q) by (split; auto).
    destruct (negb ok); [done|]. destruct (_ <? _); [done|]. simpl fst.
    destruct (stepped_changed (OpObserve e now) q (on_state (st_last (pe_state e)) q)) as (G1 & G2 & G3);
      [by apply st_last_wf|done|done|apply (keeps_refl q)|].
    split; [done|]. split; [by eapply later_trans|]. left.
    destruct G3 as [G3|(? & ? & ? & _)]; [by eapply keeps_trans|done].
  - destruct (ReconcileNative_inv n now p Hp (made_ok _ Hm)) as (H1 & H2 & [H3|H3]);
      (split; [done|split; [done|]]); eauto.
  - by apply UpdateProcess_stepped.
  - unfold UpdateCapture. destruct (negb (slices_contains _ _)); [done|]. destruct (_ <>?s _); [|done].
    apply stepped_changed; auto; [apply st_health_wf; auto|apply (keeps_refl p)].
  - unfold UpdateConnection. destruct (negb (slices_contains _ _)); [done|]. destruct (_ <>?s _); [|done].
    apply stepped_changed; auto; [apply st_health_wf; auto|apply (keeps_refl p)].
Qed.

Lemma new_projection_wf b process p : NewObservationProjection b process = Ok p -> proj_wf p.
Proof.
  unfold NewObservationProjection. intros H. ok_inv H.
  split; [split; simpl; unfold MaxUint64, msize; simpl; try lia; done|done..].
Qed.

Lemma reachable_wf p0 p : proj_wf p0 -> star proj_step p0 p -> proj_wf p.
Proof.
  intros H0 Hs. refine (star_invariant proj_step proj_wf _ _ _ Hs H0).
  intros s t Hp Hst. destruct Hst as [o q Hm]. exact (proj1 (run_op_stepped o q Hp Hm)).
Qed.

(** (C34) What a projection shows is backed by current evidence.  In every
    state reachable from a new projection, whatever a caller reads at any
    clock: an interaction other than unknown is working or waiting, belongs to
    a live process, is not exhausted, and its refresh delay is positive and at
    most the TTL; a waiting one comes with the waiting event and is not stale;
    and the deduplication ledger never exceeds its bound. *)
Theorem projection_snapshot_current b process p0 p now :
  NewObservationProjection b process = Ok p0 -> star proj_step p0 p ->
  let s := snd (Snapshot now p) in
  (ps_interaction s <> ProjectionUnknown ->
     (ps_interaction s = ProjectionWorking \/ ps_interaction s = ProjectionWaiting) /\
     ps_process s = RunLive /\ ps_exhausted s = false /\ 0 < ps_refresh s <= InteractionTTL) /\
  (ps_interaction s = ProjectionUnknown -> ps_refresh s = 0) /\
  (ps_interaction s = ProjectionWaiting -> ps_has_waiting s = true /\ ps_stale s = false) /\
  msize (op_seen p) <= MaxProjectionEvents.
Proof.
  intros H0 Hs. pose proof (reachable_wf _ _ (new_projection_wf _ _ _ H0) Hs) as Hp. cbv zeta.
  pose proof (advance_inv now p Hp) as Ha. unfold Snapshot. destruct (advance now p) as [q ok] eqn:Eadv.
  destruct Ha as (Hq & _ & _ & _ & _ & Hok). simpl fst. simpl snd.
  assert (Hwait : ps_interaction (op_state q) = ProjectionWaiting ->
            ps_has_waiting (op_state q) = true /\ ps_stale (op_state q) = false).
  { intros E. pose proof (pj_waiting _ Hq E) as Hw. split; [done|]. by rewrite (pj_stale _ Hq Hw), E. }
  assert (Hseen : msize (op_seen p) <= MaxProjectionEvents) by apply (pw_seen _ (pj_weak _ Hp)).
  destruct (known q) eqn:Ek.
  - destruct (pj_known _ Hq Ek) as [K1 K2 K3 K4 K5].
    assert (Hclk : ok = true).
    { destruct ok; [done|]. unfold advance in Eadv. destruct (_ || _) in Eadv; [|done].
      injection Eadv as <-. destruct (Invalidate_inv ProjectionClockReversal p (pj_weak _ Hp)) as (_ & ? & _).
      congruence. }
    destruct (Hok Hclk) as (_ & Hlc & _). simpl. split_and!; auto; [intros _; split_and!; auto; lia|].
    intros E. destruct K1; str_contra.
  - unfold known in Ek. breflect. split; [done|]. split; [|by split].
    intros _. apply (pw_refresh _ (pj_weak _ Hq)).
Qed.

(** Knowledge has one origin.  In any reachable state, an operation
    either leaves the known interaction and its age as they were, or loses
    it, or is the reconciliation of native evidence that is new to the ledger,
    of the current continuity revision, later than and chained to the accepted
    frontier, about a live process and younger than the TTL.  Duplicates, late
    or unbound arrivals, reads and health updates never create or renew it. *)
Theorem projection_knowledge_origin b process p0 p o :
  NewObservationProjection b process = Ok p0 -> star proj_step p0 p -> op_made o ->
  let q := run_op o p in
  known q = false \/
  (known p = true /\ ps_interaction (op_state q) = ps_interaction (op_state p) /\
   op_accepted_at q = op_accepted_at p) \/
  exists n now, o = OpReconcile n now /\ renews n now p q.
Proof.
  intros H0 Hs Hm. pose proof (reachable_wf _ _ (new_projection_wf _ _ _ H0) Hs) as Hp.
  destruct (run_op_stepped o p Hp Hm) as (_ & _ & [[H|H]|H]); auto.
Qed.

(** No change is silent.  Along any sequence of operations the version
    never decreases, exhaustion is permanent, and two states with the same
    version show the same projection unless it is exhausted: a subscriber that
    compares versions misses nothing. *)
Theorem projection_no_silent_change b process p0 p q :
  NewObservationProjection b process = Ok p0 -> star proj_step p0 p -> star proj_step p q ->
  ps_version (op_state p) <= ps_version (op_state q) /\
  (ps_exhausted (op_state p) = true -> ps_exhausted (op_state q) = true) /\
  (ps_version (op_state q) = ps_version (op_state p) ->
     op_state q = op_state p \/ ps_exhausted (op_state q) = true).
Proof.
  intros H0 Hs Hpq. pose proof (reachable_wf _ _ (new_projection_wf _ _ _ H0) Hs) as Hp.
  refine (star_relation proj_step proj_wf later later_refl later_trans _ _ _ _ Hpq Hp);
    intros s t Hw Hst; destruct Hst as [o r Hm]; by destruct (run_op_stepped o r Hw Hm) as (? & ? & _).
Qed.

(** ** Examples *)

Definition ex_run : string := "00000000000000000000000000000001".
Definition ex_selection : ProjectionSelection :=
  mkSelection (mkLaunchIdentity ex_run ex_run ex_run) ("w_" +:+ implode (repeat "0"%char 64)) "codex-main".
Definition ex_event_state : ProjectionEventState :=
  mkEventState ex_selection "codex" "event-1" "native-1" "" "" "1.0" "" ProjectionWaiting
    (mkClock Second UnixEpoch) time_zero false.
Definition ex_event : ProjectionEvent :=
  match ProjectionEventOf ex_event_state with
  | Ok e => e
  | Err _ => mkEvent ProjectionEventState_zero "" "" false
  end.
Definition ex_native : NativeProjectionEvidence := mkNative ex_event 1 1 "".
Definition ex_now : ProjectionClock := mkClock (2 * Second) UnixEpoch.
Definition ex_new : ObservationProjection :=
  mkProjection (mkSnapshot 0 ex_selection 1 1 RunLive ProjectionUnknown "" CaptureUnknown ConnectionUnknown
     ProjectionEventState_zero ProjectionEventState_zero false false false false (mkAttention "" "" 0))
    ∅ 0 0 false 0 "" "" "".
Definition ex_waiting : ObservationProjection := run_op (OpReconcile ex_native ex_now) ex_new.

Lemma ex_event_made : ProjectionEventOf ex_event_state = Ok ex_event.
Proof. vm_refl. Qed.
Lemma ex_new_ok : NewObservationProjection ex_selection RunLive = Ok ex_new.
Proof. vm_refl. Qed.
Lemma ex_waiting_shown : ps_interaction (snd (Snapshot ex_now ex_waiting)) = ProjectionWaiting.
Proof. vm_refl. Qed.
Lemma ex_waiting_step : proj_step ex_new ex_waiting.
Proof. apply step_op. left. exists ex_event_state. exact ex_event_made. Qed.

Lemma projection_snapshot_current_witness :
  let s := snd (Snapshot ex_now ex_waiting) in
  ps_interaction s = ProjectionWaiting /\ ps_has_waiting s = true /\ ps_stale s = false.
Proof.
  split; [exact ex_waiting_shown|].
  apply (projection_snapshot_current ex_selection RunLive ex_new ex_waiting ex_now);
    [exact ex_new_ok|exact (star_one _ _ _ ex_waiting_step)|exact ex_waiting_shown].
Defined.

Lemma projection_knowledge_origin_witness :
  known ex_waiting = true /\
  (known ex_waiting = false \/
   (known ex_new = true /\ ps_interaction (op_state ex_waiting) = ps_interaction (op_state ex_new) /\
    op_accepted_at ex_waiting = op_accepted_at ex_new) \/
   exists n now, OpReconcile ex_native ex_now = OpReconcile n now /\ renews n now ex_new ex_waiting).
Proof.
  split; [vm_refl|].
  apply (projection_knowledge_origin ex_selection RunLive ex_new ex_new (OpReconcile ex_native ex_now));
    [exact ex_new_ok|apply star_refl|left; exists ex_event_state; exact ex_event_made].
Defined.

Lemma projection_no_silent_change_witness :
  ps_version (op_state ex_new) <= ps_version (op_state ex_waiting).
Proof.
  apply (projection_no_silent_change ex_selection RunLive ex_new ex_new ex_waiting);
    [exact ex_new_ok|apply star_refl|exact (star_one _ _ _ ex_waiting_step)].
Defined.
