(* ===== verification/History.v ===== *)
(** * Committed history pages

    [src/domain/runtime/history.go]: keyset pagination in descending
    (timestamp, ID) order over the committed events of one worktree. *)

From S2P Require Import Prelude GoStrings GoTime RuntimeValues.
From Stdlib Require Import Sorted.

Definition MaxHistoryPageEvents : Z := 64.

Record HistoryAnchor := mkAnchor { an_at : Time; an_id : string }.
#[global] Instance HistoryAnchor_eq_dec : EqDecision HistoryAnchor.
Proof. solve_decision. Defined.
Definition HistoryAnchor_zero : HistoryAnchor := mkAnchor time_zero "".
Definition HistoryAnchor_IsZero (a : HistoryAnchor) : bool := IsZero (an_at a) && (an_id a =?s "").

Definition validHistoryTime (t : Time) : bool := negb (IsZero t) && (1 <=? Year t) && (Year t <=? 9999).
Definition historyText (s : string) (required : bool) : bool :=
  if (256 <? slen s) || negb (valid_utf8 s) || required && (TrimSpace s =?s "") then false
  else forallb (fun r => negb (is_control_rune r)) (range_runes s).
Definition historyIdentifier (s : string) (required : bool) : bool :=
  historyText s required && (TrimSpace s =?s s).

(** ** Selections *)

Record HistorySelection := mkHistorySelection {
  hs_from : Time; hs_to : Time; hs_limit : Z; hs_before : HistoryAnchor }.
#[global] Instance HistorySelection_eq_dec : EqDecision HistorySelection.
Proof. solve_decision. Defined.

Definition utc (t : Time) : Time := Round0 (UTC t).

Definition HistorySelectionOf (from to : Time) (limit : Z) (before : HistoryAnchor) : result HistorySelection :=
  let from := utc from in
  let to := utc to in
  let before := if negb (HistoryAnchor_IsZero before) then mkAnchor (utc (an_at before)) (an_id before) else before in
  if negb (validHistoryTime from) || negb (validHistoryTime to) || negb (Before from to)
     || (limit <? 1) || (MaxHistoryPageEvents <? limit)
  then Err ErrInvalid
  else if negb (HistoryAnchor_IsZero before)
          && (negb (validHistoryTime (an_at before)) || negb (historyIdentifier (an_id before) true)
              || Before (an_at before) from || negb (Before (an_at before) to))
  then Err ErrInvalid
  else Ok (mkHistorySelection from to limit before).

Definition HistorySelection_Valid (v : HistorySelection) : bool :=
  is_ok (HistorySelectionOf (hs_from v) (hs_to v) (hs_limit v) (hs_before v)).

(** ** Sources and events *)

Record HistorySource := mkSource { so_worktree : Worktree; so_witness : string }.
#[global] Instance HistorySource_eq_dec : EqDecision HistorySource.
Proof. solve_decision. Defined.

Definition HistorySourceOf (w : Worktree) (witness : string) : result HistorySource :=
  if negb (Worktree_checked w) || negb (validWitness witness) then Err ErrInvalid
  else Ok (mkSource w witness).
Definition StoreIdentityChanged (s : HistorySource) : bool := so_witness s <>?s w_witness (so_worktree s).
Definition HistorySource_Valid (s : HistorySource) : bool :=
  is_ok (HistorySourceOf (so_worktree s) (so_witness s)).

Record HistoryEvent := mkHistoryEvent {
  he_id : string; he_kind : string; he_client : string; he_agent : string; he_session : string;
  he_workspace : string; he_source_hook : string; he_created : Time }.
#[global] Instance HistoryEvent_eq_dec : EqDecision HistoryEvent.
Proof. solve_decision. Defined.

Definition set_created (s : HistoryEvent) (t : Time) : HistoryEvent :=
  mkHistoryEvent (he_id s) (he_kind s) (he_client s) (he_agent s) (he_session s) (he_workspace s)
    (he_source_hook s) t.
Definition HistoryEventOf (s : HistoryEvent) : result HistoryEvent :=
  let s := set_created s (utc (he_created s)) in
  if negb (historyIdentifier (he_id s) true) || negb (historyIdentifier (he_kind s) true)
     || negb (historyText (he_client s) false) || negb (historyIdentifier (he_agent s) false)
     || negb (historyIdentifier (he_session s) false) || negb (historyText (he_source_hook s) false)
     || negb (validPath (he_workspace s)) || negb (validHistoryTime (he_created s))
  then Err ErrInvalid
  else Ok (set_created s (utc (he_created s))).

(** [a.ID > b.ID]: byte order. *)
Definition str_gt (a b : string) : bool := negb (String.leb a b).
Definition historyAfter (a b : HistoryAnchor) : bool :=
  After (an_at a) (an_at b) || Equal (an_at a) (an_at b) && str_gt (an_id a) (an_id b).
Definition anchor (e : HistoryEvent) : HistoryAnchor := mkAnchor (he_created e) (he_id e).

(** ** Pages *)

Record HistoryPage := mkPage {
  hp_source : HistorySource; hp_selection : HistorySelection; hp_events : list HistoryEvent;
  hp_more : bool; hp_next : HistoryAnchor }.
#[global] Instance HistoryPage_eq_dec : EqDecision HistoryPage.
Proof. solve_decision. Defined.

(** [p.events[len(p.events)-1].anchor()] of a nonempty page. *)
Definition last_anchor (events : list HistoryEvent) : HistoryAnchor :=
  match last events with Some e => anchor e | None => HistoryAnchor_zero end.

Definition Prefix (p : HistoryPage) (limit : Z) : result HistoryPage :=
  if negb (HistorySource_Valid (hp_source p)) || negb (HistorySelection_Valid (hp_selection p))
     || (limit <? 1) || (llen (hp_events p) <? limit)
  then Err ErrInvalid
  else
    let more := if limit <? llen (hp_events p) then true else hp_more p in
    let events := take (Z.to_nat limit) (hp_events p) in
    Ok (mkPage (hp_source p) (hp_selection p) events more (if more then last_anchor events else hp_next p)).

(** The loop over the fetched rows. *)
Fixpoint check_rows (source : HistorySource) (selection : HistorySelection) (prev : option HistoryEvent)
  (seen : list string) (rows : list HistoryEvent) : option error :=
  match rows with
  | [] => None
  | e :: rest =>
      match HistoryEventOf e with
      | Err err => Some err
      | Ok _ =>
          if (he_workspace e <>?s w_path (so_worktree source)) || Before (he_created e) (hs_from selection)
             || negb (Before (he_created e) (hs_to selection)) || slices_contains seen (he_id e)
          then Some ErrInvalid
          else if negb (HistoryAnchor_IsZero (hs_before selection))
                  && negb (historyAfter (hs_before selection) (anchor e))
                  || match prev with Some r => negb (historyAfter (anchor r) (anchor e)) | None => false end
          then Some ErrInvalid
          else check_rows source selection (Some e) (he_id e :: seen) rest
      end
  end.

Definition HistoryPageOf (source : HistorySource) (selection : HistorySelection) (rows : list HistoryEvent)
  : result HistoryPage :=
  if negb (HistorySource_Valid source) || negb (HistorySelection_Valid selection) then Err ErrInvalid
  else if hs_limit selection + 1 <? llen rows then Err ErrLimit
  else match check_rows source selection None [] rows with
       | Some e => Err e
       | None =>
           let p := mkPage source selection rows false HistoryAnchor_zero in
           if hs_limit selection <? llen rows then Prefix p (hs_limit selection) else Ok p
       end.

(** The transport state of a page; [Events] may be a nil slice. *)
Record HistoryPageState := mkPageState {
  st_source : HistorySource; st_selection : HistorySelection; st_events : option (list HistoryEvent);
  st_more : bool; st_next : HistoryAnchor }.

Definition HistoryPageFrom (s : HistoryPageState) : result HistoryPage :=
  match st_events s with
  | None => Err ErrInvalid
  | Some events =>
      if hs_limit (st_selection s) <? llen events then Err ErrInvalid
      else
        let! p := HistoryPageOf (st_source s) (st_selection s) events in
        if st_more s then
          match last (hp_events p) with
          | None => Err ErrInvalid
          | Some e =>
              if negb (Equal (an_at (st_next s)) (he_created e)) || (an_id (st_next s) <>?s he_id e)
              then Err ErrInvalid
              else Ok (mkPage (hp_source p) (hp_selection p) (hp_events p) true (anchor e))
          end
        else if negb (HistoryAnchor_IsZero (st_next s)) then Err ErrInvalid
        else Ok p
  end.

(** ** Order *)

Lemma str_gt_irrefl a : str_gt a a = false.
Proof. unfold str_gt. apply negb_false_iff. by destruct (String.leb_total a a). Qed.
Lemma leb_le a b : String.leb a b = true <-> String.le a b.
Proof. unfold String.le. by rewrite Is_true_true. Qed.
Lemma str_gt_trans a b c : str_gt a b = true -> str_gt b c = true -> str_gt a c = true.
Proof.
  unfold str_gt. rewrite !negb_true_iff. intros H1 H2.
  destruct (String.leb a c) eqn:E; [|done]. exfalso.
  destruct (String.leb_total b c) as [H|H]; [congruence|]. apply leb_le in H, E.
  assert (Hab : String.le a b) by (etrans; eauto). apply leb_le in Hab. congruence.
Qed.

(** The strict order behind [historyAfter]. *)
Definition anchor_gt (a b : HistoryAnchor) : Prop :=
  ns (an_at b) < ns (an_at a) \/ ns (an_at a) = ns (an_at b) /\ str_gt (an_id a) (an_id b) = true.

Lemma anchor_gt_trans a b c : anchor_gt a b -> anchor_gt b c -> anchor_gt a c.
Proof.
  unfold anchor_gt. intros [H1|[H1 G1]] [H2|[H2 G2]]; [left; lia..|].
  right. split; [lia|by eapply str_gt_trans].
Qed.
Lemma anchor_gt_irrefl a : ~ anchor_gt a a.
Proof. intros [H|[_ H]]; [lia|]. by rewrite str_gt_irrefl in H. Qed.

Lemma historyAfter_gt a b : wall_only (an_at a) -> historyAfter a b = true <-> anchor_gt a b.
Proof.
  intros Ha. unfold historyAfter, anchor_gt. rewrite After_wall, Equal_wall by done.
  rewrite orb_true_iff, andb_true_iff, Z.ltb_lt, Z.eqb_eq. done.
Qed.

Definition event_gt (e f : HistoryEvent) : Prop := anchor_gt (anchor e) (anchor f).
#[global] Instance event_gt_trans : Transitive event_gt.
Proof. intros a b c. apply anchor_gt_trans. Qed.

(** An event as its constructor returns it. *)
Definition event_made (e : HistoryEvent) : Prop := HistoryEventOf e = Ok e.

Lemma utc_utc t : utc (utc t) = utc t.
Proof. done. Qed.

Lemma HistoryEventOf_made s e : HistoryEventOf s = Ok e -> event_made e.
Proof.
  unfold event_made, HistoryEventOf. cbv zeta. destruct (_ || negb (validHistoryTime _)) eqn:E; [done|].
  intros [= <-]. cbv zeta. simpl in *. rewrite !utc_utc, E. done.
Qed.

Lemma event_made_time e : event_made e ->
  wall_only (he_created e) /\ IsZero (he_created e) = false /\ utc (he_created e) = he_created e /\
  validHistoryTime (he_created e) = true /\ historyIdentifier (he_id e) true = true.
Proof.
  unfold event_made, HistoryEventOf. cbv zeta. intros H. destruct (_ || _) eqn:E in H; [done|].
  breflect. injection H as H. assert (Hc : he_created e = utc (utc (he_created e))).
  { transitivity (he_created (set_created (set_created e (utc (he_created e))) (utc (utc (he_created e)))));
      [by rewrite <-H at 1|done]. }
  simpl in *. change (utc (utc (he_created e))) with (utc (he_created e)) in Hc.
  rewrite <-Hc in *. split_and!; auto; [by rewrite Hc|].
  unfold validHistoryTime in *. breflect. done.
Qed.

(** ** Pages *)

(** A row belongs to the page's window and worktree. *)
Definition in_window (source : HistorySource) (selection : HistorySelection) (e : HistoryEvent) : Prop :=
  he_workspace e = w_path (so_worktree source) /\
  Before (he_created e) (hs_from selection) = false /\ Before (he_created e) (hs_to selection) = true.
(** It comes after the anchor of the previous page. *)
Definition past (before : HistoryAnchor) (e : HistoryEvent) : bool :=
  HistoryAnchor_IsZero before || historyAfter before (anchor e).

(** What the rows of a page must be. *)
Definition page_rows (source : HistorySource) (selection : HistorySelection) (rows : list HistoryEvent) : Prop :=
  Forall (in_window source selection) rows /\ NoDup (map he_id rows) /\
  StronglySorted event_gt rows /\ Forall (fun e => past (hs_before selection) e = true) rows.

Lemma check_rows_spec source selection rows prev seen :
  Forall event_made rows -> match prev with Some r => event_made r | None => True end ->
  check_rows source selection prev seen rows = None <->
  Forall (in_window source selection) rows /\
  (NoDup (map he_id rows) /\ Forall (fun e => he_id e ∉ seen) rows) /\
  match prev with Some r => Sorted event_gt (r :: rows) | None => Sorted event_gt rows end /\
  Forall (fun e => past (hs_before selection) e = true) rows.
Proof.
  revert prev seen. induction rows as [|e rest IH]; intros prev seen Hm Hp; simpl.
  { split; [|done]. intros _. split_and!; auto using NoDup_nil_2. destruct prev; auto. }
  apply Forall_cons in Hm as [He Hm]. pose proof He as He'. unfold event_made in He'. rewrite He'.
  pose proof (IH (Some e) (he_id e :: seen) Hm He) as Hrest. clear IH He'.
  assert (Hgt : match prev with Some r => negb (historyAfter (anchor r) (anchor e)) | None => false end = false
                <-> match prev with Some r => event_gt r e | None => True end).
  { destruct prev as [r|]; [|done]. rewrite negb_false_iff. apply historyAfter_gt.
    by apply event_made_time in Hp as (? & _). }
  assert (Hpast : negb (HistoryAnchor_IsZero (hs_before selection)) && negb (historyAfter (hs_before selection) (anchor e)) = false
                <-> past (hs_before selection) e = true).
  { unfold past. by destruct (HistoryAnchor_IsZero _), (historyAfter _ _). }
  assert (Hwin : (he_workspace e <>?s w_path (so_worktree source)) || Before (he_created e) (hs_from selection)
            || negb (Before (he_created e) (hs_to selection)) = false <-> in_window source selection e).
  { unfold in_window. rewrite !orb_false_iff, !negb_false_iff, String.eqb_eq. tauto. }
  assert (Hseen : slices_contains seen (he_id e) = false <-> he_id e ∉ seen)
    by (by rewrite <-slices_contains_spec, not_true_iff_false).
  rewrite !Forall_cons, NoDup_cons.
  assert (Hsort : match prev with Some r => Sorted event_gt (r :: e :: rest) | None => Sorted event_gt (e :: rest) end
    <-> match prev with Some r => event_gt r e | None => True end /\ Sorted event_gt (e :: rest)).
  { destruct prev as [r|]; [|tauto]. split.
    - intros Hs. inversion Hs as [|? ? Hs' Hr]. by inversion Hr.
    - intros [? ?]. constructor; [done|by constructor]. }
  assert (Hfresh : Forall (fun f => he_id f ∉ he_id e :: seen) rest <->
                   he_id e ∉ map he_id rest /\ Forall (fun f => he_id f ∉ seen) rest).
  { rewrite !Forall_forall. setoid_rewrite list_elem_of_fmap. setoid_rewrite not_elem_of_cons. split.
    - intros H. split; [intros (f & Hf & Hin)|intros f Hin]; destruct (H f Hin); congruence.
    - intros [H1 H2] f Hin. split; [|by apply H2]. intros E. apply H1. exists f. by rewrite E. }
  rewrite Hsort, <-Hgt, <-Hpast, <-Hwin, <-Hseen.
  rewrite Hfresh in Hrest. clear Hgt Hpast Hwin Hseen Hsort Hfresh.
  destruct (_ || negb (Before _ _)); simpl; [split; [done|by intros ([? _] & _)]|].
  destruct (slices_contains _ _); simpl; [split; [done|by intros (_ & (_ & [? _]) & _)]|].
  destruct (negb _ && _); simpl; [split; [done|by intros (_ & _ & _ & ? & _)]|].
  destruct (match prev with Some _ => _ | None => _ end); [split; [done|by intros (_ & _ & [? _] & _)]|].
  rewrite Hrest. tauto.
Qed.

Lemma Sorted_iff rows : Sorted event_gt rows <-> StronglySorted event_gt rows.
Proof. split; [apply Sorted_StronglySorted, event_gt_trans|apply StronglySorted_Sorted]. Qed.

Lemma check_rows_page source selection rows :
  Forall event_made rows ->
  check_rows source selection None [] rows = None <-> page_rows source selection rows.
Proof.
  intros Hm. rewrite check_rows_spec by done. unfold page_rows. rewrite Sorted_iff.
  assert (Forall (fun e => he_id e ∉ []) rows) by (apply Forall_true; intros; apply not_elem_of_nil). tauto.
Qed.

(** A selection as its constructor returns it. *)
Lemma HistorySelectionOf_idem f t l b s :
  HistorySelectionOf f t l b = Ok s ->
  HistorySelectionOf (hs_from s) (hs_to s) (hs_limit s) (hs_before s) = Ok s /\ 1 <= hs_limit s.
Proof.
  unfold HistorySelectionOf. cbv zeta. destruct (_ || (MaxHistoryPageEvents <? l)) eqn:E1; [done|].
  destruct (negb (HistoryAnchor_IsZero _) && _) eqn:E2; [done|]. intros [= <-].
  cbn [hs_from hs_to hs_limit hs_before]. rewrite !utc_utc, E1.
  assert (Hl : 1 <= l) by (breflect; lia). split; [|done].
  destruct (HistoryAnchor_IsZero b) eqn:Eb; cbn [negb] in *; cbn iota in *; [rewrite Eb; cbn [negb]; cbn iota; by rewrite Eb|].
  cbn [an_at an_id] in *. rewrite !utc_utc in *.
  change (HistoryAnchor_IsZero (mkAnchor (utc (an_at b)) (an_id b))) with (HistoryAnchor_IsZero b) in *.
  rewrite Eb in *. cbn [negb andb] in *. cbn iota. cbn [an_at an_id]. 
  change (HistoryAnchor_IsZero (mkAnchor (utc (an_at b)) (an_id b))) with (HistoryAnchor_IsZero b).
  rewrite Eb. cbn [negb andb]. by rewrite E2.
Qed.

Lemma SSorted_app_l {A} (R : A -> A -> Prop) l k : StronglySorted R (l ++ k) -> StronglySorted R l.
Proof.
  induction l as [|a l IH]; simpl; intros H; [constructor|].
  inversion H as [|? ? Hs Hf]. apply Forall_app in Hf as [Hf _]. constructor; auto.
Qed.

Lemma SSorted_app_r {A} (R : A -> A -> Prop) l k : StronglySorted R (l ++ k) -> StronglySorted R k.
Proof. induction l as [|a l IH]; simpl; intros H; [done|]. inversion H. auto. Qed.

Lemma page_rows_prefix source selection rows n :
  page_rows source selection rows -> page_rows source selection (take n rows).
Proof.
  intros (H1 & H2 & H3 & H4). split_and!; auto using Forall_take.
  - rewrite <-(take_drop n rows), map_app in H2. by apply NoDup_app in H2 as (? & _).
  - rewrite <-(take_drop n rows) in H3. by eapply SSorted_app_l.
Qed.

Section Pages.
Context (source : HistorySource) (selection : HistorySelection).
Hypothesis source_valid : HistorySource_Valid source = true.
Hypothesis selection_valid : HistorySelection_Valid selection = true.

Lemma limit_pos : 1 <= hs_limit selection.
Proof.
  unfold HistorySelection_Valid in selection_valid.
  destruct (HistorySelectionOf _ _ _ _) as [s|] eqn:E; [|done].
  unfold HistorySelectionOf in E. destruct (_ || (_ <? hs_limit selection)) eqn:E1 in E; [done|].
  breflect. lia.
Qed.

Definition page (events : list HistoryEvent) (more : bool) : HistoryPage :=
  mkPage source selection events more (if more then last_anchor events else HistoryAnchor_zero).

(** Trimming a page to its first rows. *)
Lemma Prefix_page events more n :
  1 <= n <= llen events ->
  Prefix (page events more) n =
    Ok (page (take (Z.to_nat n) events) (if n <? llen events then true else more)).
Proof.
  intros Hn. unfold Prefix, page. cbn [hp_source hp_selection hp_events hp_more hp_next].
  rewrite source_valid, selection_valid. simpl negb. simpl orb.
  replace (n <? 1) with false by (symmetry; apply Z.ltb_ge; lia).
  replace (llen events <? n) with false by (symmetry; apply Z.ltb_ge; lia). simpl.
  destruct (n <? llen events) eqn:E; breflect; [done|].
  rewrite take_ge by (unfold llen in *; lia). by destruct more.
Qed.

Lemma HistoryPageOf_ok rows :
  Forall event_made rows -> page_rows source selection rows -> llen rows <= hs_limit selection + 1 ->
  HistoryPageOf source selection rows =
    Ok (page (take (Z.to_nat (hs_limit selection)) rows) (hs_limit selection <? llen rows)).
Proof.
  intros Hm Hr Hl. unfold HistoryPageOf. rewrite source_valid, selection_valid. simpl.
  replace (_ + 1 <? llen rows) with false by (symmetry; apply Z.ltb_ge; lia).
  rewrite (proj2 (check_rows_page source selection rows Hm) Hr). cbv zeta.
  change (mkPage source selection rows false HistoryAnchor_zero) with (page rows false).
  pose proof limit_pos. destruct (_ <? llen rows) eqn:E; breflect.
  - rewrite Prefix_page by lia. apply Z.ltb_lt in E. by rewrite E.
  - f_equal. rewrite take_ge by (unfold llen in *; lia). done.
Qed.

Lemma HistoryPageOf_inv rows p :
  Forall event_made rows -> HistoryPageOf source selection rows = Ok p ->
  page_rows source selection rows /\ llen rows <= hs_limit selection + 1.
Proof.
  intros Hm H. unfold HistoryPageOf in H. destruct (_ || _); [done|].
  destruct (_ + 1 <? _) eqn:El; [done|]. breflect. split; [|lia].
  apply check_rows_page; [done|]. by destruct (check_rows _ _ _ _ _).
Qed.

(** A page is exactly the requested rows.  For a valid source and
    selection, the fetched rows are accepted exactly when there are at most
    one more than the limit, all lie in the worktree and the window, have
    distinct identities, are strictly descending, and come after the previous
    page's anchor; the page is then their first [limit] rows, with a
    continuation at its last row exactly when a row was left over. *)
Theorem history_page_exact rows p :
  Forall event_made rows ->
  HistoryPageOf source selection rows = Ok p <->
  page_rows source selection rows /\ llen rows <= hs_limit selection + 1 /\
  p = page (take (Z.to_nat (hs_limit selection)) rows) (hs_limit selection <? llen rows).
Proof.
  intros Hm. split.
  - intros H. destruct (HistoryPageOf_inv rows p Hm H) as [Hr Hl]. split_and!; auto.
    rewrite HistoryPageOf_ok in H; congruence.
  - intros (Hr & Hl & ->). by apply HistoryPageOf_ok.
Qed.

Lemma last_made events e : Forall event_made events -> last events = Some e -> event_made e.
Proof.
  intros Hm Hl. rewrite Forall_forall in Hm. apply Hm. apply list_elem_of_lookup.
  exists (pred (List.length events)). by rewrite <-last_lookup.
Qed.

(** The transport state of a page. *)
Definition state_of (p : HistoryPage) : HistoryPageState :=
  mkPageState (hp_source p) (hp_selection p) (Some (hp_events p)) (hp_more p) (hp_next p).

Lemma take_made n (rows : list HistoryEvent) : Forall event_made rows -> Forall event_made (take n rows).
Proof. apply Forall_take. Qed.

Lemma from_page events more :
  Forall event_made events -> page_rows source selection events -> llen events <= hs_limit selection ->
  (more = true -> events <> []) -> HistoryPageFrom (state_of (page events more)) = Ok (page events more).
Proof.
  intros Hm Hr Hl Hne. unfold HistoryPageFrom. cbn [state_of st_source st_selection st_events st_more st_next page
    hp_source hp_selection hp_events hp_more hp_next].
  replace (_ <? llen events) with false by (symmetry; apply Z.ltb_ge; lia).
  rewrite HistoryPageOf_ok by (auto; lia). rewrite take_ge by (unfold llen in *; lia).
  replace (_ <? llen events) with false by (symmetry; apply Z.ltb_ge; lia).
  cbn [page hp_source hp_selection hp_events]. destruct more; [|done].
  unfold last_anchor. destruct (last events) as [e|] eqn:El.
  - cbn [anchor an_at an_id]. rewrite Equal_refl, String.eqb_refl. unfold page, last_anchor. by rewrite El.
  - apply last_None in El. by destruct Hne.
Qed.

(** A page survives transport.  The state of any page built from
    fetched rows, even after it was trimmed to fit a frame, is accepted by
    [HistoryPageFrom] and gives the same page back. *)
Theorem history_page_transport rows p n q :
  Forall event_made rows -> HistoryPageOf source selection rows = Ok p ->
  Prefix p n = Ok q \/ q = p -> HistoryPageFrom (state_of q) = Ok q.
Proof.
  intros Hm H Hq. destruct (HistoryPageOf_inv rows p Hm H) as [Hr Hl].
  rewrite HistoryPageOf_ok in H by done. injection H as <-. pose proof limit_pos as Hpos.
  set (events := take (Z.to_nat (hs_limit selection)) rows) in *.
  assert (Hev : Forall event_made events /\ page_rows source selection events /\
                llen events <= hs_limit selection /\
                (hs_limit selection <? llen rows = true -> events <> [])).
  { unfold events. split_and!; auto using Forall_take, page_rows_prefix.
    - unfold llen. rewrite length_take. lia.
    - intros Hlt. breflect. destruct rows; [unfold llen in Hlt; simpl in Hlt; lia|].
      destruct (Z.to_nat (hs_limit selection)) eqn:Ez; [lia|done]. }
  destruct Hev as (Hm' & Hr' & Hl' & Hne). clearbody events.
  destruct Hq as [Hq| ->]; [|by apply from_page].
  assert (Hn : 1 <= n <= llen events).
  { unfold Prefix in Hq. destruct (_ || (llen _ <? n)) eqn:E in Hq; [done|]. breflect. simpl in *. lia. }
  rewrite Prefix_page in Hq by done. injection Hq as <-. apply from_page; auto using Forall_take, page_rows_prefix.
  - unfold llen in *. rewrite length_take. lia.
  - intros _. destruct events; [unfold llen in Hn; simpl in Hn; lia|].
    destruct (Z.to_nat n) eqn:Ez; [lia|done].
Qed.
End Pages.

(** ** Following continuations

    A reader fetches at most one row more than the limit, newest first, among
    the committed rows past the anchor; the transport may trim any page to a
    nonempty prefix ([cuts], zero for no trimming) and the client continues
    from the page it got. *)
Section Walk.
Context (source : HistorySource) (from to : Time) (limit : Z) (all : list HistoryEvent).

Definition fetch (before : HistoryAnchor) : list HistoryEvent :=
  take (Z.to_nat (limit + 1)) (List.filter (past before) all).

Definition trim (c : Z) (p : HistoryPage) : result HistoryPage :=
  if (1 <=? c) && (c <=? llen (hp_events p)) then Prefix p c else Ok p.

Fixpoint walk (cuts : list Z) (before : HistoryAnchor) : result (list HistoryEvent) :=
  match cuts with
  | [] => Err (Errorf "too many pages" [])
  | c :: rest =>
      let! selection := HistorySelectionOf from to limit before in
      let! p := HistoryPageOf source selection (fetch before) in
      let! q := trim c p in
      if hp_more q
      then let! tail := walk rest (hp_next q) in Ok (hp_events q ++ tail)
      else Ok (hp_events q)
  end.

Context (first : HistorySelection).
Hypothesis source_valid : HistorySource_Valid source = true.
Hypothesis first_ok : HistorySelectionOf from to limit HistoryAnchor_zero = Ok first.
Hypothesis all_made : Forall event_made all.
Hypothesis all_in : Forall (in_window source first) all.
Hypothesis all_distinct : NoDup (map he_id all).
Hypothesis all_sorted : StronglySorted event_gt all.

(** The anchors a client continues from. *)
Definition reached (before : HistoryAnchor) (pre suf : list HistoryEvent) : Prop :=
  all = pre ++ suf /\
  match last pre with Some e => before = anchor e | None => before = HistoryAnchor_zero end.

Lemma anchor_nonzero e : event_made e -> HistoryAnchor_IsZero (anchor e) = false.
Proof. intros (_ & H & _)%event_made_time. unfold HistoryAnchor_IsZero. simpl. by rewrite H. Qed.

Lemma reached_selection before pre suf :
  reached before pre suf ->
  exists s, HistorySelectionOf from to limit before = Ok s /\ hs_from s = hs_from first /\
            hs_to s = hs_to first /\ hs_limit s = limit /\ hs_before s = before.
Proof.
  intros [Hall Hb]. pose proof first_ok as H. unfold HistorySelectionOf in H. cbv zeta in H.
  destruct (_ || (MaxHistoryPageEvents <? limit)) eqn:E1; [done|]. simpl in H. injection H as H.
  unfold HistorySelectionOf. cbv zeta. rewrite E1.
  destruct (last pre) as [e|] eqn:El; subst before.
  - assert (Hin : e ∈ all).
    { rewrite Hall. apply elem_of_app. left. apply list_elem_of_lookup.
      exists (pred (List.length pre)). by rewrite <-last_lookup. }
    assert (He : event_made e) by (rewrite Forall_forall in all_made; auto).
    rewrite Forall_forall in all_in. destruct (all_in e Hin) as (_ & W1 & W2).
    rewrite <-H in W1, W2. cbn [hs_from hs_to] in W1, W2.
    pose proof (anchor_nonzero e He) as Hz. apply event_made_time in He as (_ & _ & Hu & Hv & Hid).
    rewrite Hz. cbn [negb]. cbn iota. cbn [anchor an_at an_id]. rewrite Hu. fold (anchor e).
    rewrite Hz, Hv, Hid, W1, W2. cbn. eexists. split; [done|]. by rewrite <-H.
  - eexists. split; [done|]. by rewrite <-H.
Qed.

Lemma sorted_split l1 e l2 :
  all = l1 ++ e :: l2 -> List.filter (past (anchor e)) all = l2.
Proof.
  intros Hall. pose proof all_sorted as Hs. pose proof all_made as Hm. rewrite Hall in *.
  clear Hall all_in all_distinct first_ok all_made all_sorted.
  assert (Hgt : forall f, event_made e -> past (anchor e) f = true <-> event_gt e f).
  { intros f He. unfold past. rewrite (anchor_nonzero e He). apply historyAfter_gt.
    by apply event_made_time in He as (? & _). }
  assert (He : event_made e) by (apply Forall_app in Hm as [_ Hm]; by apply Forall_cons in Hm as [? _]).
  rewrite List.filter_app.
  assert (H1 : List.filter (past (anchor e)) l1 = []).
  { clear Hm. induction l1 as [|f l1 IH]; [done|]. simpl in *. inversion Hs as [|? ? Hs' Hf]. subst.
    assert (Hfe : event_gt f e) by (rewrite Forall_forall in Hf; apply Hf, elem_of_app; right; left).
    destruct (past (anchor e) f) eqn:E; [|by apply IH]. apply Hgt in E; [|done].
    exfalso. eapply anchor_gt_irrefl, anchor_gt_trans; [exact E|exact Hfe]. }
  rewrite H1. simpl.
  destruct (past (anchor e) e) eqn:E.
  { apply Hgt in E; [|done]. by apply anchor_gt_irrefl in E. }
  assert (Hs2 : StronglySorted event_gt (e :: l2)) by (by apply SSorted_app_r in Hs).
  inversion Hs2 as [|? ? _ Hf]. clear -Hf Hgt He.
  induction Hf as [|f l Hef Hf IH]; simpl; [done|].
  rewrite (proj2 (Hgt f He) Hef). by rewrite IH.
Qed.

Lemma reached_suffix before pre suf : reached before pre suf -> List.filter (past before) all = suf.
Proof.
  intros [Hall Hb]. destruct (last pre) as [e|] eqn:El; subst before.
  - apply last_Some in El as [pre' ->]. apply (sorted_split pre' e suf). by rewrite Hall, <-app_assoc.
  - apply last_None in El as ->. rewrite Hall. simpl. clear. by induction suf; simpl; [|f_equal].
Qed.

Lemma reached_rows before pre suf s n :
  reached before pre suf -> hs_from s = hs_from first -> hs_to s = hs_to first -> hs_before s = before ->
  page_rows source s (take n suf) /\ Forall event_made (take n suf).
Proof.
  intros Hr Hf Ht Hb. pose proof (reached_suffix _ _ _ Hr) as Hfil. destruct Hr as [Hall _].
  assert (Hin : Forall (in_window source s) suf).
  { rewrite Hall in all_in. apply Forall_app in all_in as [_ H]. eapply Forall_impl; [exact H|].
    intros e. unfold in_window. by rewrite Hf, Ht. }
  split; [|rewrite Hall in all_made; apply Forall_app in all_made as [_ H]; by apply Forall_take].
  apply page_rows_prefix. split_and!; auto.
  - rewrite Hall, map_app in all_distinct. by apply NoDup_app in all_distinct as (_ & _ & ?).
  - apply (SSorted_app_r _ pre). by rewrite <-Hall.
  - rewrite Hb, <-Hfil, Forall_forall. intros e He. apply list_elem_of_In, filter_In in He. by destruct He.
Qed.

(** One page: the retained rows, and where the client continues. *)
Lemma walk_page before pre suf c :
  reached before pre suf ->
  exists s p q, HistorySelectionOf from to limit before = Ok s /\
    HistoryPageOf source s (fetch before) = Ok p /\ trim c p = Ok q /\
    if hp_more q
    then exists suf', suf = hp_events q ++ suf' /\ hp_events q <> [] /\
           reached (hp_next q) (pre ++ hp_events q) suf'
    else hp_events q = suf.
Proof.
  intros Hr. destruct (reached_selection _ _ _ Hr) as (s & Es & Hf & Ht & Hl & Hb).
  destruct (reached_rows before pre suf s (Z.to_nat (limit + 1)) Hr Hf Ht Hb) as [Hrows Hmade].
  destruct (HistorySelectionOf_idem _ _ _ _ _ Es) as [Hid Hpos]. rewrite Hl in Hpos.
  assert (Hv : HistorySelection_Valid s = true) by (unfold HistorySelection_Valid; by rewrite Hid).
  unfold fetch. rewrite (reached_suffix _ _ _ Hr). set (rows := take (Z.to_nat (limit + 1)) suf) in *.
  assert (Hlen : llen rows <= hs_limit s + 1) by (unfold rows, llen; rewrite length_take, Hl; lia).
  pose proof (HistoryPageOf_ok source s source_valid Hv rows Hmade Hrows Hlen) as Hp.
  set (events := take (Z.to_nat (hs_limit s)) rows) in *.
  assert (Hev : events = take (Z.to_nat limit) suf)
    by (unfold events, rows; rewrite Hl, take_take; f_equal; lia).
  set (more := hs_limit s <? llen rows) in *.
  assert (Hmore : if more then events <> [] else events = suf).
  { unfold more. destruct (_ <? _) eqn:E; breflect; unfold rows, llen in E; rewrite length_take in E.
    - rewrite Hev. destruct suf; [simpl in E; lia|]. destruct (Z.to_nat limit) eqn:?; [lia|done].
    - rewrite Hev. apply take_ge. lia. }
  (* any nonempty prefix of the page leads to a reached state *)
  assert (Hgo : forall n, (0 < n)%nat -> take n events <> [] ->
    exists suf', suf = take n events ++ suf' /\ reached (last_anchor (take n events)) (pre ++ take n events) suf').
  { intros n Hn Hne. exists (drop (List.length (take n events)) suf).
    assert (Hpre : suf = take n events ++ drop (List.length (take n events)) suf).
    { rewrite Hev, take_take. rewrite <-(take_drop (n `min` Z.to_nat limit) suf) at 1. f_equal.
      rewrite length_take. destruct (decide (n `min` Z.to_nat limit <= List.length suf)%nat).
      - f_equal. lia.
      - rewrite !drop_ge; [done|lia|lia]. }
    split; [done|]. destruct Hr as [Hall _]. split; [by rewrite Hall, <-app_assoc, <-Hpre|].
    rewrite last_app. unfold last_anchor. destruct (last (take n events)) eqn:E; [done|].
    by apply last_None in E. }
  exists s, (page source s events more). unfold trim. cbn [page hp_events].
  destruct ((1 <=? c) && _) eqn:Ec; breflect.
  - exists (page source s (take (Z.to_nat c) events) (if c <? llen events then true else more)).
    split; [done|]. split; [done|]. split; [by apply Prefix_page|]. cbn [page hp_more hp_events hp_next].
    assert (Hne : take (Z.to_nat c) events <> []).
    { intros E. apply (f_equal List.length) in E. rewrite length_take in E. unfold llen in *. simpl in E. lia. }
    destruct (c <? llen events) eqn:Elt.
    + destruct (Hgo (Z.to_nat c)) as (suf' & ? & ?); [lia|done|]. by exists suf'.
    + breflect. destruct more.
      * destruct (Hgo (Z.to_nat c)) as (suf' & ? & ?); [lia|done|]. by exists suf'.
      * rewrite take_ge by (unfold llen in *; lia). done.
  - exists (page source s events more). do 3 (split; [done|]). cbn [page hp_more hp_events hp_next].
    destruct more; [|done]. destruct (Hgo (S (List.length events))) as (suf' & H1 & H2); [lia| |].
    + by rewrite take_ge by lia.
    + rewrite take_ge in H1, H2 by lia. by exists suf'.
Qed.

Lemma walk_from cuts before pre suf :
  reached before pre suf -> (List.length suf < List.length cuts)%nat -> walk cuts before = Ok suf.
Proof.
  revert before pre suf. induction cuts as [|c rest IH]; intros before pre suf Hr Hlen; [simpl in Hlen; lia|].
  destruct (walk_page before pre suf c Hr) as (s & p & q & Es & Ep & Eq & Hq).
  cbn [walk]. rewrite Es, Ep, Eq. destruct (hp_more q); [|by f_equal].
  destruct Hq as (suf' & Hsuf & Hne & Hr').
  rewrite (IH _ _ suf' Hr'); [by rewrite Hsuf|].
  rewrite Hsuf, length_app in Hlen. destruct (hp_events q); [done|]. simpl in *. lia.
Qed.

(** (C32) Pagination loses and repeats nothing.  Over committed rows of the
    window that are strictly descending with distinct identities, a client
    that follows the continuations from the first page receives exactly these
    rows, in order and each once, and stops, whatever page limit it asked for
    and however the transport trims each page; one page more than there are
    rows is always enough. *)
Theorem history_walk_complete cuts :
  (List.length all < List.length cuts)%nat -> walk cuts HistoryAnchor_zero = Ok all.
Proof. apply (walk_from _ _ []). by split. Qed.
End Walk.

(** ** Examples *)

Definition ex_worktree : Worktree :=
  match WorktreeOf (identity "p_" ["/repo"]) "/repo" "/repo/.git" "/s.db" "w" with
  | Ok w => w
  | Err _ => Worktree_zero
  end.
Definition ex_source : HistorySource := mkSource ex_worktree "witness".
Definition ex_at (hours : Z) : Time := Add UnixEpoch (hours * Hour).
Definition ex_row (id : string) (hours : Z) : HistoryEvent :=
  mkHistoryEvent id "prompt" "cli" "codex" "s1" "/repo" "" (ex_at hours).
Definition ex_rows : list HistoryEvent := [ex_row "d" 9; ex_row "c" 5; ex_row "b" 5; ex_row "a" 1].
Definition ex_first : HistorySelection := mkHistorySelection (ex_at 0) (ex_at 24) 2 HistoryAnchor_zero.

Lemma ex_source_valid : HistorySource_Valid ex_source = true.
Proof. vm_refl. Qed.
Lemma ex_first_valid : HistorySelection_Valid ex_first = true.
Proof. vm_refl. Qed.
Lemma ex_first_ok : HistorySelectionOf (ex_at 0) (ex_at 24) 2 HistoryAnchor_zero = Ok ex_first.
Proof. vm_refl. Qed.
Lemma ex_rows_made : Forall event_made ex_rows.
Proof. repeat constructor; vm_refl. Qed.
Lemma ex_rows_in : Forall (in_window ex_source ex_first) ex_rows.
Proof. repeat constructor; vm_refl. Qed.
Lemma ex_rows_distinct : NoDup (map he_id ex_rows).
Proof. by apply (bool_decide_unpack _); vm_compute. Qed.
Lemma ex_rows_sorted : StronglySorted event_gt ex_rows.
Proof.
  apply Sorted_iff. repeat constructor; unfold event_gt; apply historyAfter_gt; try done; vm_refl.
Qed.

Definition ex_page : HistoryPage := page ex_source ex_first [ex_row "d" 9; ex_row "c" 5] true.

Lemma history_page_exact_witness :
  HistoryPageOf ex_source ex_first (take 3 ex_rows) = Ok ex_page.
Proof.
  apply (history_page_exact ex_source ex_first ex_source_valid ex_first_valid).
  - exact (Forall_take event_made 3 ex_rows ex_rows_made).
  - split; [|by vm_compute]. apply page_rows_prefix.
    split_and!; [exact ex_rows_in|exact ex_rows_distinct|exact ex_rows_sorted|repeat constructor].
Defined.

Lemma ex_page_ok : HistoryPageOf ex_source ex_first (take 3 ex_rows) = Ok ex_page.
Proof. vm_refl. Qed.

Definition ex_trimmed : HistoryPage := page ex_source ex_first [ex_row "d" 9] true.
Lemma history_page_transport_witness :
  HistoryPageFrom (state_of ex_trimmed) = Ok ex_trimmed.
Proof.
  apply (history_page_transport ex_source ex_first ex_source_valid ex_first_valid (take 3 ex_rows) ex_page 1).
  - exact (Forall_take event_made 3 ex_rows ex_rows_made).
  - exact ex_page_ok.
  - left. vm_refl.
Defined.

Lemma history_walk_complete_witness :
  walk ex_source (ex_at 0) (ex_at 24) 2 ex_rows [0; 1; 0; 0; 0] HistoryAnchor_zero = Ok ex_rows.
Proof.
  apply (history_walk_complete ex_source (ex_at 0) (ex_at 24) 2 ex_rows ex_first ex_source_valid
           ex_first_ok ex_rows_made ex_rows_in ex_rows_distinct ex_rows_sorted). simpl. lia.
Defined.
