(* ===== verification/Upgrade.v ===== *)
(** * Prepared store upgrades

    [src/domain/prepared_store_upgrade.go]: the durable phases of replacing a
    store file, the next normal action, the recovery decisions taken from an
    observed file placement, and the approvals a run carries
    ([bound_drop_approval.go], [unavailable_retention_approval.go]).  The
    compaction names of [compaction_run.go] are aliases of these types. *)

From S2P Require Import Prelude GoStrings GoTime.

(** ** Phases *)

Definition Planned : string := "planned".
Definition CopyIntent : string := "copy_intent".
Definition CopyRetryIntent : string := "copy_retry_intent".
Definition CandidatePrepared : string := "candidate_prepared".
Definition CopyComplete : string := "copy_complete".
Definition CandidateSyncIntent : string := "candidate_sync_intent".
Definition CandidateSynced : string := "candidate_synced".
Definition ScrubInProgress : string := "scrub_in_progress".
Definition CandidateVerified : string := "candidate_verified".
Definition SwapIntent : string := "swap_intent".
Definition Swapped : string := "swapped".
Definition RollbackPublishIntent : string := "rollback_publish_intent".
Definition RollbackReady : string := "rollback_ready".
Definition Committed : string := "committed".
Definition RollbackSwapIntent : string := "rollback_swap_intent".
Definition RollbackSwapped : string := "rollback_swapped".
Definition RolledBack : string := "rolled_back".
Definition Abandoned : string := "abandoned".

(** [preparedStoreUpgradeTransitions]. *)
Definition transition_table : list (string * list string) :=
  [(Planned, [CopyIntent; Abandoned]);
   (CopyIntent, [CandidatePrepared; Abandoned]);
   (CopyRetryIntent, [CandidatePrepared; Abandoned]);
   (CandidatePrepared, [CopyComplete; CopyRetryIntent; Abandoned]);
   (CopyComplete, [CandidateSyncIntent]);
   (CandidateSyncIntent, [CandidateSynced]);
   (CandidateSynced, [ScrubInProgress]);
   (ScrubInProgress, [CandidateVerified]);
   (CandidateVerified, [SwapIntent]);
   (SwapIntent, [Swapped]);
   (Swapped, [RollbackPublishIntent]);
   (RollbackPublishIntent, [RollbackReady]);
   (RollbackReady, [Committed; RollbackSwapIntent]);
   (Committed, [RollbackSwapIntent]);
   (RollbackSwapIntent, [RollbackSwapped]);
   (RollbackSwapped, [RolledBack])].
Definition transitions (p : string) : list string :=
  match List.find (fun row => fst row =?s p) transition_table with
  | Some row => snd row
  | None => []
  end.

Definition IsTerminal (p : string) : bool := slices_contains [Committed; RolledBack; Abandoned] p.
Definition IsPrePublication (p : string) : bool :=
  slices_contains [Planned; CopyIntent; CopyRetryIntent; CandidatePrepared] p.

(** ** The run *)

Record StoreFileIdentity := mkFileIdentity {
  fi_device : Z; fi_inode : Z; fi_size : Z; fi_mod_unix : Z; fi_mode : Z; fi_links : Z }.
#[global] Instance StoreFileIdentity_eq_dec : EqDecision StoreFileIdentity.
Proof. solve_decision. Defined.
Definition StoreFileIdentity_zero : StoreFileIdentity := mkFileIdentity 0 0 0 0 0 0.

Definition SameInode (i other : StoreFileIdentity) : bool :=
  (fi_device i =? fi_device other) && (fi_inode i =? fi_inode other)
  && negb (fi_device i =? 0) && negb (fi_inode i =? 0).

Record BoundDropApproval := mkBoundDrop { bd_row_count : Z; bd_identity_digest : string }.
Definition NewBoundDropApproval (rowCount : Z) (identityDigest : string) : result BoundDropApproval :=
  let digest := TrimSpace identityDigest in
  if rowCount <? 0 then Err (Errorf "bound drop approval row count must not be negative" [])
  else if digest =?s "" then Err (Errorf "bound drop approval identity digest must not be empty" [])
  else Ok (mkBoundDrop rowCount digest).
Definition BoundDropApproval_Matches (a : BoundDropApproval) (rowCount : Z) (identityDigest : string) : bool :=
  (bd_row_count a =? rowCount) && (bd_identity_digest a =?s identityDigest).

Record UnavailableRetentionApproval := mkRetention {
  ur_run_id : string; ur_source : StoreFileIdentity; ur_schema_version : Z; ur_row_count : Z;
  ur_set_digest : string }.
Definition NewUnavailableRetentionApproval (rowCount : Z) (setDigest : string) (schemaVersion : Z)
  : result UnavailableRetentionApproval :=
  let digest := TrimSpace setDigest in
  if rowCount <? 0 then Err (Errorf "unavailable retention approval row count must not be negative" [])
  else if digest =?s "" then Err (Errorf "unavailable retention approval set digest must not be empty" [])
  else if schemaVersion <? 0 then Err (Errorf "unavailable retention approval schema version must not be negative" [])
  else Ok (mkRetention "" StoreFileIdentity_zero schemaVersion rowCount digest).
Definition Bind (a : UnavailableRetentionApproval) (runID : string) (source : StoreFileIdentity) :=
  mkRetention (TrimSpace runID) source (ur_schema_version a) (ur_row_count a) (ur_set_digest a).
Definition UnavailableRetentionApproval_Matches (a : UnavailableRetentionApproval) (runID : string)
  (source : StoreFileIdentity) (schemaVersion rowCount : Z) (setDigest : string) : bool :=
  (ur_run_id a =?s runID) && bool_decide (ur_source a = source) && (ur_schema_version a =? schemaVersion)
  && (ur_row_count a =? rowCount) && (ur_set_digest a =?s setDigest).

Definition OperationCompaction : string := "compaction".
Definition OperationOfflineMigrationUpgrade : string := "offline_migration_upgrade".
Definition Operation_Known (o : string) : bool :=
  (o =?s OperationCompaction) || (o =?s OperationOfflineMigrationUpgrade).

(** The run.  The resource plan, the budget and the evidence are carried and
    never read by the operations below, so they are one payload [Payload]. *)
Section Run.
Context {Payload : Type}.

Record Run := mkRun {
  ru_id : string; ru_source_path : string; ru_candidate_path : string; ru_rollback_path : string;
  ru_phase : string; ru_source : StoreFileIdentity; ru_candidate : StoreFileIdentity;
  ru_prepared : StoreFileIdentity; ru_attempt : Z; ru_operation : string; ru_consumer : string;
  ru_plan_digest : string; ru_source_digest : string; ru_bound_drop : option BoundDropApproval;
  ru_retention : option UnavailableRetentionApproval; ru_payload : Payload;
  ru_created : Time; ru_updated : Time }.

Definition set_phase (r : Run) (phase : string) (updated : Time) : Run :=
  mkRun (ru_id r) (ru_source_path r) (ru_candidate_path r) (ru_rollback_path r) phase (ru_source r)
    (ru_candidate r) (ru_prepared r) (ru_attempt r) (ru_operation r) (ru_consumer r) (ru_plan_digest r)
    (ru_source_digest r) (ru_bound_drop r) (ru_retention r) (ru_payload r) (ru_created r) updated.

Definition ShouldAbandonForStaleSource (r : Run) (current : StoreFileIdentity) : bool :=
  IsPrePublication (ru_phase r) && negb (bool_decide (current = StoreFileIdentity_zero))
  && negb (bool_decide (current = ru_source r)).

Definition Advance (r : Run) (next : string) (now : Time) : result Run :=
  if (ru_phase r =?s Committed) && (next =?s RollbackSwapIntent)
     && (ru_operation r =?s OperationOfflineMigrationUpgrade)
  then Err (Errorf "upgrade run refuses post-commit rollback: retained file is a forensic backup, not an interchangeable rollback target" [])
  else if slices_contains (transitions (ru_phase r)) next then Ok (set_phase r next (UTC now))
  else Err (Errorf "invalid prepared upgrade transition %q -> %q" [ru_phase r; next]).

(** ** Actions *)

Definition NextAction (r : Run) : result string :=
  let p := ru_phase r in
  if p =?s Planned then Ok "recheck_plan"
  else if (p =?s CopyIntent) || (p =?s CopyRetryIntent) then Ok "prepare_candidate"
  else if p =?s CandidatePrepared then Ok "build_candidate"
  else if p =?s CopyComplete then Ok "record_sync_intent"
  else if p =?s CandidateSyncIntent then Ok "sync_candidate"
  else if p =?s CandidateSynced then Ok "record_scrub_in_progress"
  else if p =?s ScrubInProgress then Ok "verify_candidate"
  else if p =?s CandidateVerified then Ok "record_swap_intent"
  else if p =?s SwapIntent then Ok "exchange"
  else if p =?s Swapped then Ok "record_publish_intent"
  else if p =?s RollbackPublishIntent then Ok "publish_rollback"
  else if p =?s RollbackReady then Ok "commit"
  else if p =?s Committed then Ok ""
  else Err (Errorf "no normal apply action in phase %q" [p]).

Definition OrientationSourceOriginal : string := "source_original".
Definition OrientationCandidateReady : string := "candidate_ready".
Definition OrientationSwapped : string := "swapped".
Definition OrientationRollbackReady : string := "rollback_ready".
Definition OrientationRolledBack : string := "rolled_back".

Record Observation := mkObservation {
  ob_orientation : string; ob_source : StoreFileIdentity; ob_candidate : StoreFileIdentity;
  ob_rollback : StoreFileIdentity; ob_candidate_exists : bool; ob_rollback_exists : bool;
  ob_condition : string }.

Definition ConditionComplete : string := "complete".
Definition ConditionOwnedIncomplete : string := "owned_incomplete".

Definition RecoveryActions (r : Run) (obs : Observation) : result (list string) :=
  let p := ru_phase r in
  let o := ob_orientation obs in
  let unsafe := Err (Errorf "unsafe prepared upgrade observation %q in phase %q" [o; p]) in
  if o =?s OrientationSwapped then
    if p =?s CandidateVerified then Ok ["record_swap_intent"; "sync_recovered_orientation"; "record_swapped"]
    else if p =?s SwapIntent then Ok ["sync_recovered_orientation"; "record_swapped"]
    else if p =?s Swapped then Ok []
    else if p =?s RollbackPublishIntent then Ok []
    else unsafe
  else if o =?s OrientationRollbackReady then
    if p =?s Swapped then Ok ["record_publish_intent"; "sync_recovered_orientation"; "record_rollback_ready"]
    else if p =?s RollbackPublishIntent then Ok ["sync_recovered_orientation"; "record_rollback_ready"]
    else if (p =?s RollbackReady) || (p =?s Committed) then Ok []
    else if p =?s RollbackSwapIntent then Ok ["rollback_exchange"; "record_rollback_swapped"; "record_rolled_back"]
    else unsafe
  else if o =?s OrientationRolledBack then
    if p =?s RollbackSwapIntent then Ok ["sync_recovered_orientation"; "record_rollback_swapped"; "record_rolled_back"]
    else if p =?s RollbackSwapped then Ok ["record_rolled_back"]
    else if p =?s RolledBack then Ok []
    else unsafe
  else if o =?s OrientationSourceOriginal then
    if (p =?s Planned) || (p =?s CopyIntent) || (p =?s CopyRetryIntent) then Ok [] else unsafe
  else if o =?s OrientationCandidateReady then
    if p =?s CopyIntent then Err (Errorf "candidate appeared before prepared identity was durable" [])
    else if p =?s CopyRetryIntent then
      if negb (SameInode (ob_candidate obs) (ru_prepared r)) then Err (Errorf "retry candidate identity changed" [])
      else Ok ["remove_owned_partial_candidate"]
    else if p =?s CandidatePrepared then
      if negb (SameInode (ob_candidate obs) (ru_prepared r)) then Err (Errorf "prepared candidate identity changed" [])
      else if ob_condition obs =?s ConditionComplete then Ok ["record_copy_complete"]
      else if ob_condition obs =?s ConditionOwnedIncomplete
      then Ok ["record_copy_retry_intent"; "remove_owned_partial_candidate"]
      else Err (Errorf "candidate ownership/completeness is unknown" [])
    else if slices_contains [CopyComplete; CandidateSyncIntent; CandidateSynced; ScrubInProgress; CandidateVerified] p
    then Ok []
    else if p =?s SwapIntent then Ok ["exchange"; "record_swapped"]
    else unsafe
  else unsafe.

(** The phase an action records: [recoverPreparation] for the copy phases and
    [phaseForPreparedRecoveryAction] for the rest. *)
Definition recorded_phase (action : string) : option string :=
  if action =?s "record_copy_retry_intent" then Some CopyRetryIntent
  else if action =?s "record_copy_complete" then Some CopyComplete
  else if action =?s "record_swap_intent" then Some SwapIntent
  else if action =?s "record_swapped" then Some Swapped
  else if action =?s "record_publish_intent" then Some RollbackPublishIntent
  else if action =?s "record_rollback_ready" then Some RollbackReady
  else if action =?s "record_rollback_swapped" then Some RollbackSwapped
  else if action =?s "record_rolled_back" then Some RolledBack
  else None.

(** ** The phase graph *)

Inductive advanced : Run -> Run -> Prop :=
| advance_step r next now s : Advance r next now = Ok s -> advanced r s.

Lemma Advance_inv r next now s :
  Advance r next now = Ok s ->
  next ∈ transitions (ru_phase r) /\ s = set_phase r next (UTC now) /\
  ~ (ru_phase r = Committed /\ ru_operation r = OperationOfflineMigrationUpgrade).
Proof.
  unfold Advance. intros H. destruct (_ && _) eqn:E1; [done|].
  destruct (slices_contains _ _) eqn:E2; [|done]. injection H as <-. breflect.
  split; [done|]. split; [done|]. intros [Hp Ho]. rewrite Hp in E2.
  assert (next = RollbackSwapIntent) as ->.
  { unfold transitions in E2. simpl in E2. by apply list_elem_of_singleton in E2. }
  rewrite Hp, Ho in E1. discriminate E1.
Qed.

(** A check of every transition of the table holds of every transition. *)
Lemma transitions_check (P : string -> string -> bool) p q :
  forallb (fun row => forallb (P (fst row)) (snd row)) transition_table = true ->
  q ∈ transitions p -> P p q = true.
Proof.
  intros H Hq. unfold transitions in Hq. destruct (List.find _ _) as [row|] eqn:E; [|by apply elem_of_nil in Hq].
  apply find_some in E as [Hin Hp]. breflect. subst p.
  rewrite forallb_forall in H. specialize (H _ Hin). rewrite forallb_forall in H.
  apply H. by apply list_elem_of_In.
Qed.

(** The position of a phase in the protocol. *)
Definition rank (p : string) : Z :=
  match list_find (fun x => x = p)
    [Planned; CopyIntent; CandidatePrepared; CopyComplete; CandidateSyncIntent; CandidateSynced;
     ScrubInProgress; CandidateVerified; SwapIntent; Swapped; RollbackPublishIntent; RollbackReady;
     Committed; RollbackSwapIntent; RollbackSwapped; RolledBack; Abandoned] with
  | Some (i, _) => Z.of_nat i
  | None => 1
  end.

Definition is_retry (p q : string) : bool := (p =?s CandidatePrepared) && (q =?s CopyRetryIntent).

Lemma rank_step p q :
  q ∈ transitions p -> 0 <= rank p <= 16 /\ 0 <= rank q <= 16 /\
  (if is_retry p q then rank q = rank p - 1 else rank p < rank q).
Proof.
  intros H.
  set (P := fun p q => (0 <=? rank p) && (rank p <=? 16) && (0 <=? rank q) && (rank q <=? 16)
                       && (if is_retry p q then rank q =? rank p - 1 else rank p <? rank q)).
  assert (HP : P p q = true) by (apply transitions_check; [by vm_compute|done]).
  unfold P in HP. destruct (is_retry p q); breflect; lia.
Qed.

(** What [Advance] never touches. *)
Definition same_run (r s : Run) : Prop := set_phase s (ru_phase r) (ru_updated r) = r.

(** Runs from a phase at which the candidate is complete never go back. *)
Lemma publication_step p q :
  q ∈ transitions p -> IsPrePublication p = false -> IsPrePublication q = false /\ q <> Abandoned.
Proof.
  intros H Hp. set (P := fun p q => IsPrePublication p || negb (IsPrePublication q) && (q <>?s Abandoned)).
  assert (HP : P p q = true) by (apply transitions_check; [by vm_compute|done]).
  unfold P in HP. rewrite Hp in HP. simpl in HP. breflect. done.
Qed.

Lemma final_no_transition p : p ∈ [RolledBack; Abandoned] -> transitions p = [].
Proof.
  rewrite !elem_of_cons. intros [->|[->|H]]; [done|done|by apply elem_of_nil in H].
Qed.

Lemma prepublication_abandon p : IsPrePublication p = true <-> Abandoned ∈ transitions p.
Proof.
  split.
  - intros H. apply slices_contains_spec in H. rewrite !elem_of_cons in H.
    destruct H as [->|[->|[->|[->|H]]]]; [..|by apply elem_of_nil in H]; by apply slices_contains_spec.
  - intros H. set (P := fun p q => IsPrePublication p || (q <>?s Abandoned)).
    assert (HP : P p Abandoned = true) by (apply transitions_check; [by vm_compute|done]).
    unfold P in HP. by destruct (IsPrePublication p).
Qed.

Lemma same_run_refl r : same_run r r.
Proof. by destruct r. Qed.
Lemma same_run_trans r s t : same_run r s -> same_run s t -> same_run r t.
Proof.
  unfold same_run. intros H1 H2. rewrite <-H1, <-H2. destruct t. reflexivity.
Qed.
Lemma Advance_same r next now s : Advance r next now = Ok s -> same_run r s.
Proof. intros (_ & -> & _)%Advance_inv. by destruct r. Qed.

(** The closure facts of one step. *)
Definition upgrade_follows (r s : Run) : Prop :=
  same_run r s /\
  (IsPrePublication (ru_phase r) = false -> ru_phase r <> Abandoned ->
     IsPrePublication (ru_phase s) = false /\ ru_phase s <> Abandoned) /\
  (ru_phase r ∈ [RolledBack; Abandoned] \/
   ru_phase r = Committed /\ ru_operation r = OperationOfflineMigrationUpgrade -> s = r).

Lemma upgrade_follows_refl r : upgrade_follows r r.
Proof. split; [apply same_run_refl|]. by split. Qed.
Lemma upgrade_follows_trans r s t : upgrade_follows r s -> upgrade_follows s t -> upgrade_follows r t.
Proof.
  intros (A1 & A2 & A3) (B1 & B2 & B3). split; [by eapply same_run_trans|]. split.
  - intros H1 H2. destruct (A2 H1 H2). by apply B2.
  - intros H. pose proof (A3 H) as ->. by apply B3.
Qed.
Lemma advanced_follows r s : advanced r s -> upgrade_follows r s.
Proof.
  intros [r' next now s' H]. pose proof (Advance_same _ _ _ _ H) as Hs.
  destruct (Advance_inv _ _ _ _ H) as (Hn & -> & Hc). split; [done|]. split.
  - intros Hp _. by apply (publication_step (ru_phase r')).
  - intros [Hf|Hf]; [|by destruct Hc]. by rewrite (final_no_transition _ Hf) in Hn; apply elem_of_nil in Hn.
Qed.

(** (C21) The replacement protocol is one-way where it must be.  Whatever
    phases are advanced to, only the phase and the update time of a run
    change; once the candidate is complete the run never returns to the copy
    phases and can never be abandoned; a rolled-back or abandoned run, and a
    committed offline migration, stay as they are for ever; and abandoning is
    accepted exactly in the phases before publication. *)
Theorem upgrade_phases_one_way r s :
  star advanced r s ->
  same_run r s /\
  (IsPrePublication (ru_phase r) = false -> ru_phase r <> Abandoned ->
     IsPrePublication (ru_phase s) = false /\ ru_phase s <> Abandoned) /\
  (ru_phase r ∈ [RolledBack; Abandoned] \/
   ru_phase r = Committed /\ ru_operation r = OperationOfflineMigrationUpgrade -> s = r) /\
  (forall now, is_ok (Advance s Abandoned now) = IsPrePublication (ru_phase s)).
Proof.
  intros H. assert (Hf : upgrade_follows r s).
  { refine (star_relation advanced (fun _ => True) upgrade_follows upgrade_follows_refl upgrade_follows_trans
              _ _ _ _ H I); auto using advanced_follows. }
  destruct Hf as (H1 & H2 & H3). split_and!; auto. intros now. unfold Advance.
  replace (Abandoned =?s RollbackSwapIntent) with false by done. rewrite andb_false_r. simpl.
  destruct (IsPrePublication (ru_phase s)) eqn:E.
  - apply prepublication_abandon, slices_contains_spec in E. by rewrite E.
  - destruct (slices_contains _ _) eqn:Ec; [|done]. apply slices_contains_spec, prepublication_abandon in Ec.
    congruence.
Qed.

(** A sequence of [n] successful advances, [k] of which schedule a copy retry. *)
Inductive advances : Run -> Z -> Z -> Run -> Prop :=
| advances_none r : advances r 0 0 r
| advances_more r next now s n k t :
    Advance r next now = Ok s -> advances s n k t ->
    advances r (n + 1) (k + (if is_retry (ru_phase r) next then 1 else 0)) t.

Lemma advances_retries r n k s : advances r n k s -> 0 <= k <= n.
Proof. induction 1 as [|r next now s n k t H Ha IH]; [lia|]. destruct (is_retry _ _); lia. Qed.

Lemma advances_rank r n k s :
  advances r n k s -> n = 0 /\ s = r \/ 0 <= rank (ru_phase r) /\ rank (ru_phase r) + n - 2 * k <= 16.
Proof.
  induction 1 as [r|r next now s n k t H Ha IH]; [by left|]. right.
  destruct (Advance_inv _ _ _ _ H) as (Hn & -> & _). destruct (rank_step _ _ Hn) as (R1 & R2 & R3).
  pose proof (advances_retries _ _ _ _ Ha).
  simpl in IH. destruct (is_retry _ _); destruct IH as [[-> _]|IH]; lia.
Qed.

(** The protocol terminates.  Any sequence of advances of a run, from
    any phase, takes at most sixteen steps and two more for each copy retry;
    and a run that is not rolled back, not abandoned and not a committed
    offline migration can always take a further step. *)
Theorem upgrade_terminates r n k s :
  advances r n k s ->
  n <= 16 + 2 * k /\
  (forall p, ru_phase s = p -> p ∈ map fst transition_table ->
     ~ (p = Committed /\ ru_operation s = OperationOfflineMigrationUpgrade) ->
     exists next now t, Advance s next now = Ok t).
Proof.
  intros H. pose proof (advances_retries _ _ _ _ H). split.
  { destruct (advances_rank _ _ _ _ H) as [[-> _]|?]; lia. }
  intros p Hp Hin Hoff. set (next := default "" (head (transitions p))).
  exists next, time_zero, (set_phase s next (UTC time_zero)). unfold Advance. rewrite Hp.
  assert (Hnext : slices_contains (transitions p) next = true).
  { assert (H1 : forallb (fun p => slices_contains (transitions p) (default "" (head (transitions p))))
                   (map fst transition_table) = true) by (by vm_compute).
    rewrite forallb_forall in H1. apply H1. by apply list_elem_of_In. }
  rewrite Hnext. destruct (_ && _) eqn:E; [|done]. breflect. by destruct Hoff.
Qed.

(** ** Recovery

    [execute] is the loop that carries out recovery actions: a record action
    advances the journal, a file action changes the placement as its name
    says and leaves the fenced identities as observed. *)
Definition placement_after (action orientation : string) : string :=
  if action =?s "exchange" then OrientationSwapped
  else if action =?s "rollback_exchange" then OrientationRolledBack
  else if action =?s "remove_owned_partial_candidate" then OrientationSourceOriginal
  else orientation.

Definition set_orientation (obs : Observation) (o : string) : Observation :=
  mkObservation o (ob_source obs) (ob_candidate obs) (ob_rollback obs) (ob_candidate_exists obs)
    (ob_rollback_exists obs) (ob_condition obs).

Fixpoint execute (r : Run) (obs : Observation) (now : Time) (actions : list string) : result (Run * Observation) :=
  match actions with
  | [] => Ok (r, obs)
  | a :: rest =>
      match recorded_phase a with
      | Some phase => let! r' := Advance r phase now in execute r' obs now rest
      | None => execute r (set_orientation obs (placement_after a (ob_orientation obs))) now rest
      end
  end.

Lemma Advance_ok r p next now :
  ru_phase r = p -> p <> Committed -> slices_contains (transitions p) next = true ->
  Advance r next now = Ok (set_phase r next (UTC now)).
Proof.
  intros <- Hc Hn. unfold Advance. rewrite Hn.
  destruct (ru_phase r =?s Committed) eqn:E; [by apply String.eqb_eq in E|done].
Qed.

(** What one record action does from a known phase. *)
Lemma execute_record r obs now p a phase rest :
  recorded_phase a = Some phase -> ru_phase r = p -> p <> Committed ->
  slices_contains (transitions p) phase = true ->
  execute r obs now (a :: rest) = execute (set_phase r phase (UTC now)) obs now rest.
Proof. intros Ha Hp Hc Hn. cbn [execute]. rewrite Ha. by rewrite (Advance_ok r p phase now). Qed.
Lemma execute_file r obs now a rest :
  recorded_phase a = None ->
  execute r obs now (a :: rest) =
  execute r (set_orientation obs (placement_after a (ob_orientation obs))) now rest.
Proof. intros Ha. cbn [execute]. by rewrite Ha. Qed.

Ltac run_actions :=
  repeat first
    [ rewrite execute_file by reflexivity
    | erewrite execute_record by first [eassumption | reflexivity | discriminate] ];
  eexists _, _; split; [reflexivity|].

(** Recovery converges.  Whenever the observed placement and the
    journal phase are accepted, every journal record the recovery asks for is
    a legal advance in the order given, and once the actions are carried out
    the new placement and phase are accepted again with nothing left to do:
    recovery never leaves the journal stuck and is idempotent. *)
Theorem upgrade_recovery_converges r obs now actions :
  RecoveryActions r obs = Ok actions ->
  exists r' obs', execute r obs now actions = Ok (r', obs') /\ RecoveryActions r' obs' = Ok [].
Proof.
  intros H. pose proof H as Hagain. unfold RecoveryActions in H. cbv zeta in H.
  repeat match type of H with
  | (if ?o =?s ?c then _ else _) = _ => destruct (o =?s c) eqn:?
  | (if ?b then _ else _) = _ => destruct b eqn:?
  | Err _ = Ok _ => discriminate H
  | Ok _ = Ok _ => injection H as <-
  end;
  (* nothing to do *)
  try (exists r, obs; split; [reflexivity|exact Hagain]);
  clear Hagain; breflect; run_actions; unfold RecoveryActions; cbv zeta; simpl;
  repeat match goal with E : ob_orientation _ = _ |- _ => rewrite E | E : ru_phase _ = _ |- _ => rewrite E end;
  reflexivity.
Qed.
End Run.
Arguments Run : clear implicits.

(** ** Examples *)

Definition ex_id : StoreFileIdentity := mkFileIdentity 1 2 3 4 0 0.
Definition ex_run (phase : string) : Run unit :=
  mkRun "run-1" "/s.db" "/s.db.candidate" "/s.db.rollback" phase ex_id ex_id ex_id 1
    OperationOfflineMigrationUpgrade "" "" "" None None tt UnixEpoch UnixEpoch.

Lemma upgrade_phases_one_way_witness :
  is_ok (Advance (ex_run CandidatePrepared) Abandoned UnixEpoch) = true /\
  is_ok (Advance (ex_run SwapIntent) Abandoned UnixEpoch) = IsPrePublication SwapIntent.
Proof.
  split; [by vm_compute|].
  apply (upgrade_phases_one_way (ex_run CandidateVerified) (ex_run SwapIntent)).
  apply star_one, (advance_step _ SwapIntent UnixEpoch). reflexivity.
Defined.

Definition ex_retried : Run unit := set_phase (ex_run CandidatePrepared) CopyRetryIntent UnixEpoch.
Definition ex_prepared_again : Run unit := set_phase ex_retried CandidatePrepared UnixEpoch.
Lemma ex_retry_advances : advances (ex_run CandidatePrepared) (0 + 1 + 1) (0 + 0 + 1) ex_prepared_again.
Proof.
  apply (advances_more (ex_run CandidatePrepared) CopyRetryIntent UnixEpoch ex_retried (0 + 1) (0 + 0) ex_prepared_again); [reflexivity|].
  apply (advances_more ex_retried CandidatePrepared UnixEpoch ex_prepared_again 0 0 ex_prepared_again); [reflexivity|apply advances_none].
Qed.
Lemma upgrade_terminates_witness : 0 + 1 + 1 <= 16 + 2 * (0 + 0 + 1).
Proof.
  apply (upgrade_terminates (ex_run CandidatePrepared) (0 + 1 + 1) (0 + 0 + 1) ex_prepared_again).
  exact ex_retry_advances.
Defined.

Definition ex_swapped : Observation := mkObservation OrientationSwapped ex_id ex_id ex_id true false "unknown".
Lemma upgrade_recovery_converges_witness :
  exists r' obs', execute (ex_run CandidateVerified) ex_swapped UnixEpoch
      ["record_swap_intent"; "sync_recovered_orientation"; "record_swapped"] = Ok (r', obs') /\
    RecoveryActions r' obs' = Ok [].
Proof. apply upgrade_recovery_converges. reflexivity. Defined.
