(* ===== verification/Attestation.v ===== *)
(** * Attestation chain

    [src/domain/attestation/hash.go]: the v1 encoding of attested content, the
    hash links; and [anchor.go]: the published heads, as records (decoding
    the JSON lines of an anchor file is not modelled). *)

From S2P Require Import Prelude GoStrings Sha256 RuntimeValues Output.

Definition nl : string := String "010"%char "".
Definition KindPrompt : string := "prompt".
Definition KindCommand : string := "command".
Definition genesisPayload : string := "traceary.attest.genesis.v1" +:+ nl.
Definition contentVersionV1 : string := "traceary.attest.v1".
Definition linkVersionV1 : string := "traceary.attest.link.v1".

(** A digest is its list of bytes; Go's [[32]byte] fixes the length. *)
Definition digest : Type := list ascii.

Record PromptContent := mkPrompt { pc_event_id : string; pc_created_at : string; pc_body : list ascii }.
Record CommandContent := mkCommand {
  cc_event_id : string; cc_created_at : string; cc_command : list ascii; cc_input : list ascii }.

Definition GenesisSHA256 : digest := Sum256 (explode genesisPayload).
Definition GenesisHex : string := EncodeToString GenesisSHA256.

Definition validateIdentity (eventID createdAt : string) : option error :=
  if TrimSpace eventID =?s "" then Some (Errorf "attestation event id must not be empty" [])
  else if TrimSpace createdAt =?s "" then Some (Errorf "attestation created_at must not be empty" [])
  else None.

(** The header both encodings start with. *)
Definition content_header (kind eventID createdAt : string) : string :=
  contentVersionV1 +:+ nl +:+ "kind " +:+ kind +:+ nl +:+ "event_id " +:+ eventID +:+ nl
  +:+ "created_at " +:+ createdAt +:+ nl.

Definition encodePromptContent (c : PromptContent) : list ascii :=
  explode (content_header KindPrompt (pc_event_id c) (pc_created_at c)
           +:+ "body " +:+ FormatUint (llen (pc_body c)) +:+ nl) ++ pc_body c.

Definition encodeCommandContent (c : CommandContent) : list ascii :=
  explode (content_header KindCommand (cc_event_id c) (cc_created_at c)
           +:+ "command_text " +:+ FormatUint (llen (cc_command c)) +:+ nl) ++ cc_command c
  ++ explode (nl +:+ "input_text " +:+ FormatUint (llen (cc_input c)) +:+ nl) ++ cc_input c.

Definition PromptContentSHA256 (c : PromptContent) : result digest :=
  match validateIdentity (pc_event_id c) (pc_created_at c) with
  | Some e => Err e
  | None => Ok (Sum256 (encodePromptContent c))
  end.
Definition CommandContentSHA256 (c : CommandContent) : result digest :=
  match validateIdentity (cc_event_id c) (cc_created_at c) with
  | Some e => Err e
  | None => Ok (Sum256 (encodeCommandContent c))
  end.
Definition ContentSHA256 (kind : string) (prompt : PromptContent) (command : CommandContent) : result digest :=
  if kind =?s KindPrompt then PromptContentSHA256 prompt
  else if kind =?s KindCommand then CommandContentSHA256 command
  else Err (Errorf "unknown attestation kind %q" [kind]).

Definition link_payload (prev content : digest) : list ascii :=
  explode (linkVersionV1 +:+ nl +:+ "prev " +:+ EncodeToString prev +:+ nl +:+ "content "
           +:+ EncodeToString content +:+ nl).
Definition LinkSHA256 (prev content : digest) : digest := Sum256 (link_payload prev content).

Definition EncodeHex (sum : digest) : string := EncodeToString sum.

Definition ParseHex (value : string) : result digest :=
  match DecodeString (TrimSpace value) with
  | None => Err (Errorf "decode attestation digest: %w" [])
  | Some raw =>
      if negb (llen raw =? 32)
      then Err (Errorf "attestation digest must be %d bytes, got %d" ["32"; FormatUint (llen raw)])
      else Ok raw
  end.

(** ** Encodings *)

Definition newline_free (s : string) : Prop := "010"%char ∉ explode s.

Lemma explode_nl : explode nl = ["010"%char].
Proof. done. Qed.

(** Strips one header line [name value nl] from two equal texts. *)
Lemma line_inj (name a b : string) (k1 k2 : list ascii) :
  newline_free a -> newline_free b ->
  explode (name +:+ a +:+ nl) ++ k1 = explode (name +:+ b +:+ nl) ++ k2 -> a = b /\ k1 = k2.
Proof.
  intros Ha Hb. rewrite !explode_app, explode_nl, <-!app_assoc. intros H%app_inv_head.
  apply delimited_inj in H as [H ->]; [|done|done]. split; [by apply explode_inj|done].
Qed.

Lemma FormatUint_newline_free n : 0 <= n -> newline_free (FormatUint n).
Proof. intros Hn. by apply FormatUint_no_char. Qed.

(** A length-prefixed field: [name length nl bytes]. *)
Lemma sized_inj (name : string) (l1 l2 k1 k2 : list ascii) :
  explode (name +:+ FormatUint (llen l1) +:+ nl) ++ l1 ++ k1 =
  explode (name +:+ FormatUint (llen l2) +:+ nl) ++ l2 ++ k2 -> l1 = l2 /\ k1 = k2.
Proof.
  intros H. apply line_inj in H as [Hn H];
    [|apply FormatUint_newline_free, llen_nonneg|apply FormatUint_newline_free, llen_nonneg].
  apply FormatUint_inj in Hn; [|apply llen_nonneg|apply llen_nonneg].
  apply app_inj_1 in H; [done|]. unfold llen in Hn. lia.
Qed.

Lemma content_header_inj kind i1 c1 i2 c2 k1 k2 :
  newline_free i1 -> newline_free c1 -> newline_free i2 -> newline_free c2 ->
  explode (content_header kind i1 c1) ++ k1 = explode (content_header kind i2 c2) ++ k2 ->
  i1 = i2 /\ c1 = c2 /\ k1 = k2.
Proof.
  intros H1 H2 H3 H4. unfold content_header. intros H.
  assert (Hsplit : forall i c k,
    explode (contentVersionV1 +:+ nl +:+ "kind " +:+ kind +:+ nl +:+ "event_id " +:+ i +:+ nl
      +:+ "created_at " +:+ c +:+ nl) ++ k =
    explode (contentVersionV1 +:+ nl +:+ "kind " +:+ kind +:+ nl) ++
      explode ("event_id " +:+ i +:+ nl) ++ explode ("created_at " +:+ c +:+ nl) ++ k).
  { intros i c k. rewrite !explode_app. by rewrite <-!app_assoc. }
  rewrite !Hsplit in H. apply app_inv_head in H.
  apply line_inj in H as [-> H]; [|done|done]. by apply line_inj in H as [-> ->].
Qed.

Definition prompt_lines (p : PromptContent) : Prop :=
  newline_free (pc_event_id p) /\ newline_free (pc_created_at p).
Definition command_lines (c : CommandContent) : Prop :=
  newline_free (cc_event_id c) /\ newline_free (cc_created_at c).

Lemma encodePrompt_inj p q :
  prompt_lines p -> prompt_lines q -> encodePromptContent p = encodePromptContent q -> p = q.
Proof.
  intros [H1 H2] [H3 H4]. destruct p as [i c b], q as [i' c' b'].
  unfold encodePromptContent. cbn [pc_event_id pc_created_at pc_body] in *.
  rewrite !(explode_app (content_header _ _ _)), <-!app_assoc. intros H.
  apply content_header_inj in H as (-> & -> & H); auto.
  assert (Hb : b = b' /\ @nil ascii = []) by (apply (sized_inj "body "); by rewrite !app_nil_r).
  by destruct Hb as [-> _].
Qed.

Lemma encodeCommand_inj c d :
  command_lines c -> command_lines d -> encodeCommandContent c = encodeCommandContent d -> c = d.
Proof.
  intros [H1 H2] [H3 H4]. destruct c as [i a t n], d as [i' a' t' n'].
  unfold encodeCommandContent. cbn [cc_event_id cc_created_at cc_command cc_input] in *.
  rewrite !(explode_app (content_header _ _ _)), <-!app_assoc. intros H.
  apply content_header_inj in H as (-> & -> & H); auto.
  apply (sized_inj "command_text ") in H as [-> H].
  assert (Hs : forall x k, explode (nl +:+ "input_text " +:+ FormatUint x +:+ nl) ++ k =
                           "010"%char :: explode ("input_text " +:+ FormatUint x +:+ nl) ++ k)
    by (intros x k; by rewrite explode_app).
  rewrite !Hs in H. apply (app_inv_head ["010"%char]) in H.
  assert (Hn : n = n' /\ @nil ascii = []) by (apply (sized_inj "input_text "); by rewrite !app_nil_r).
  by destruct Hn as [-> _].
Qed.

(** The two kinds are never confused. *)
Lemma kinds_distinct p c : encodePromptContent p <> encodeCommandContent c.
Proof.
  unfold encodePromptContent, encodeCommandContent, content_header. intros H.
  (* "prompt" and "command" differ in their first letter, at byte 24 *)
  apply (f_equal (fun l => nth 24 l nul)) in H. discriminate H.
Qed.

(** The content encoding is unambiguous.  For identities and times
    without a line break, which is how the store writes them, two attested
    contents of either kind with the same digest are the same content, or the
    digest function has collided. *)
Theorem attestation_content_binding p q c d :
  prompt_lines p -> prompt_lines q -> command_lines c -> command_lines d ->
  (PromptContentSHA256 p = PromptContentSHA256 q -> is_ok (PromptContentSHA256 p) = true ->
     p = q \/ collision (encodePromptContent p) (encodePromptContent q)) /\
  (CommandContentSHA256 c = CommandContentSHA256 d -> is_ok (CommandContentSHA256 c) = true ->
     c = d \/ collision (encodeCommandContent c) (encodeCommandContent d)) /\
  (PromptContentSHA256 p = CommandContentSHA256 c -> is_ok (PromptContentSHA256 p) = true ->
     collision (encodePromptContent p) (encodeCommandContent c)).
Proof.
  intros Hp Hq Hc Hd. unfold PromptContentSHA256, CommandContentSHA256, collision.
  split_and!; intros H Hok.
  - destruct (validateIdentity (pc_event_id p) _); [done|].
    destruct (validateIdentity (pc_event_id q) _); [done|]. injection H as H.
    destruct (decide (encodePromptContent p = encodePromptContent q)) as [E|E]; [left|by right].
    by apply encodePrompt_inj.
  - destruct (validateIdentity (cc_event_id c) _); [done|].
    destruct (validateIdentity (cc_event_id d) _); [done|]. injection H as H.
    destruct (decide (encodeCommandContent c = encodeCommandContent d)) as [E|E]; [left|by right].
    by apply encodeCommand_inj.
  - destruct (validateIdentity (pc_event_id p) _); [done|].
    destruct (validateIdentity (cc_event_id c) _); [done|]. injection H as H.
    split; [apply kinds_distinct|done].
Qed.

(** The checks of [validateIdentity] alone do not make the encoding
    unambiguous: a line break in the creation time shifts the body. *)
Example prompt_encoding_needs_lines :
  let p := mkPrompt "e" "t" (explode ("X" +:+ nl +:+ "body 0" +:+ nl)) in
  let q := mkPrompt "e" ("t" +:+ nl +:+ "body 9" +:+ nl +:+ "X") [] in
  p <> q /\ is_ok (PromptContentSHA256 p) = true /\ PromptContentSHA256 p = PromptContentSHA256 q.
Proof.
  cbv zeta. split; [intros H; by apply (f_equal pc_created_at) in H|].
  split; [by vm_compute|]. unfold PromptContentSHA256.
  replace (encodePromptContent (mkPrompt "e" "t" _)) with
    (encodePromptContent (mkPrompt "e" ("t" +:+ nl +:+ "body 9" +:+ nl +:+ "X") [])) by (by vm_compute).
  by vm_compute.
Qed.

(** ** Links *)

Definition is_digest (d : digest) : Prop := llen d = 32.

Lemma LinkSHA256_digest p c : is_digest (LinkSHA256 p c).
Proof. apply Sum256_length. Qed.
Lemma Genesis_digest : is_digest GenesisSHA256.
Proof. apply Sum256_length. Qed.

Lemma hex_newline_free l : newline_free (EncodeToString l).
Proof.
  unfold newline_free. intros H.
  assert (Hok : hex_ok (EncodeToString l) = true) by (unfold hex_ok; by rewrite DecodeString_EncodeToString).
  revert H. unfold EncodeToString. rewrite explode_implode.
  clear Hok. induction l as [|c l IH]; [apply not_elem_of_nil|].
  cbn [hex_encode_bytes flat_map]. change (flat_map _ l) with (hex_encode_bytes l).
  simpl. rewrite !elem_of_cons. pose proof (byte_nibbles c) as [H1 H2].
  intros [H|[H|H]]; [| |by apply IH].
  - assert (E : hex_val "010"%char = Some (byte_val c / 16)) by (rewrite H; by apply hex_val_digit). done.
  - assert (E : hex_val "010"%char = Some (byte_val c `mod` 16)) by (rewrite H; by apply hex_val_digit). done.
Qed.

Lemma link_payload_inj p c q d : link_payload p c = link_payload q d -> p = q /\ c = d.
Proof.
  unfold link_payload. intros H.
  assert (Hs : forall x y, explode (linkVersionV1 +:+ nl +:+ "prev " +:+ x +:+ nl +:+ "content " +:+ y +:+ nl) =
     explode (linkVersionV1 +:+ nl) ++ explode ("prev " +:+ x +:+ nl) ++ explode ("content " +:+ y +:+ nl) ++ []).
  { intros x y. rewrite !explode_app. by rewrite app_nil_r, <-!app_assoc. }
  rewrite !Hs in H. apply app_inv_head in H.
  apply line_inj in H as [H1 H]; [|apply hex_newline_free..].
  apply line_inj in H as [H2 _]; [|apply hex_newline_free..].
  split; by apply EncodeToString_inj.
Qed.

Lemma link_not_genesis p c : link_payload p c <> explode genesisPayload.
Proof.
  intros H. apply (f_equal (fun l => nth 16 l nul)) in H. discriminate H.
Qed.

(** The head of the chain over the content digests, oldest first. *)
Definition chain_head (contents : list digest) : digest := fold_left LinkSHA256 contents GenesisSHA256.

Lemma chain_head_snoc l c : chain_head (l ++ [c]) = LinkSHA256 (chain_head l) c.
Proof. unfold chain_head. by rewrite fold_left_app. Qed.

(** What the chain hashes: the genesis payload and the payload of each link. *)
Definition chain_payloads (contents : list digest) : list (list ascii) :=
  explode genesisPayload :: imap (fun i c => link_payload (chain_head (take i contents)) c) contents.

Lemma chain_payloads_snoc l c : chain_payloads (l ++ [c]) = chain_payloads l ++ [link_payload (chain_head l) c].
Proof.
  unfold chain_payloads. cbn [app]. f_equal. rewrite imap_app. f_equal.
  - apply imap_ext. intros i d Hi. apply lookup_lt_Some in Hi. by rewrite take_app_le by lia.
  - cbn [imap]. by rewrite Nat.add_0_r, take_app_length.
Qed.
Lemma link_hashed l c : link_payload (chain_head l) c ∈ chain_payloads (l ++ [c]).
Proof. rewrite chain_payloads_snoc. apply elem_of_app. right. by left. Qed.
Lemma genesis_hashed l : explode genesisPayload ∈ chain_payloads l.
Proof. left. Qed.
Lemma collision_free_app ps qs ps' qs' : collision_free (ps ++ ps') (qs ++ qs') -> collision_free ps qs.
Proof. intros H p q Hp Hq. apply H; apply elem_of_app; by left. Qed.

(** (C22) The chain head commits to the whole history.  Of two chains whose
    hashed payloads (the genesis payload and those of their links) do not
    collide among themselves, the heads are the same exactly when the contents
    are, in the same order and number: no event can be dropped, inserted,
    reordered or rewritten behind a published head but by a collision between
    payloads of those very chains. *)
Theorem attestation_chain_binding l k :
  collision_free (chain_payloads l) (chain_payloads k) -> (chain_head l = chain_head k <-> l = k).
Proof.
  intros Hfree. split; [|by intros ->]. revert k Hfree.
  induction l as [|c l IH] using rev_ind; intros k Hfree H; destruct k as [|d k _] using rev_ind; [done| | |];
    rewrite ?chain_head_snoc in H.
  - destruct (link_not_genesis (chain_head k) d). symmetry.
    exact (Hfree _ _ (genesis_hashed []) (link_hashed k d) H).
  - destruct (link_not_genesis (chain_head l) c). exact (Hfree _ _ (link_hashed l c) (genesis_hashed []) H).
  - pose proof (Hfree _ _ (link_hashed l c) (link_hashed k d) H) as [E ->]%link_payload_inj.
    rewrite !chain_payloads_snoc in Hfree. apply collision_free_app in Hfree. by rewrite (IH k Hfree E).
Qed.

Lemma hex_val_case c : hex_val (lower_chr c) = hex_val c.
Proof. destruct c as [[] [] [] [] [] [] [] []]; vm_compute; reflexivity. Qed.
Lemma hex_decode_lower l : hex_decode_bytes (map lower_chr l) = hex_decode_bytes l.
Proof.
  induction l as [|a|a b t IH] using two_step_ind; [done|done|].
  cbn [map hex_decode_bytes]. by rewrite !hex_val_case, IH.
Qed.

(** Digests survive their text form.  [ParseHex] reads a text as the
    digest [d] exactly when the text is, up to surrounding white space and
    letter case, the [EncodeHex] form of [d]; it accepts nothing else. *)
Theorem attestation_hex_roundtrip s d :
  ParseHex s = Ok d <-> is_digest d /\ ToLower (TrimSpace s) = EncodeHex d.
Proof.
  unfold ParseHex, EncodeHex, is_digest, EncodeToString, ToLower, DecodeString. split.
  - destruct (hex_decode_bytes _) as [raw|] eqn:E; [|done]. destruct (negb _) eqn:El; [done|].
    intros [= ->]. breflect. split; [done|]. f_equal. symmetry. by apply hex_encode_decode.
  - intros [Hd H]. apply (f_equal explode) in H. rewrite !explode_implode in H.
    rewrite <-hex_decode_lower, H, hex_decode_encode. by rewrite Hd.
Qed.

(** ** Anchors *)

Definition AnchorFormatVersion : Z := 1.
Record AnchorRecord := mkAnchorRecord { ar_version : Z; ar_seq : Z; ar_head : string; ar_published : string }.
#[global] Instance AnchorRecord_eq_dec : EqDecision AnchorRecord.
Proof. solve_decision. Defined.

Definition AnchorMatches : string := "matches".
Definition AnchorMissing : string := "missing".
Definition AnchorBehind : string := "behind".
Definition AnchorMismatch : string := "mismatch".
Definition AnchorAhead : string := "ahead".

Definition validateAnchorRecord (r : AnchorRecord) : option error :=
  if ar_seq r <? 0 then Some (Errorf "attestation anchor seq must not be negative" [])
  else match ParseHex (ar_head r) with
       | Err e => Some (Wrap "attestation anchor head: %w" [] e)
       | Ok _ =>
           if TrimSpace (ar_published r) =?s ""
           then Some (Errorf "attestation anchor timestamp must not be empty" []) else None
       end.

(** [strings.EqualFold] on strings whose letters are ASCII, which heads are. *)
Definition EqualFold (a b : string) : bool := ToLower a =?s ToLower b.

Fixpoint CheckAnchorHistory (records : list AnchorRecord) : option error :=
  match records with
  | prev :: (rec :: _) as rest =>
      if ar_seq rec <? ar_seq prev
      then Some (Errorf "attestation anchor seq moved backward from %d to %d" [Itoa (ar_seq prev); Itoa (ar_seq rec)])
      else if (ar_seq rec =? ar_seq prev) && (ar_head rec <>?s ar_head prev)
      then Some (Errorf "attestation anchor seq %d has conflicting heads" [Itoa (ar_seq rec)])
      else CheckAnchorHistory rest
  | _ => None
  end.

Definition RelateAnchor (storeSeq : Z) (storeHead : string) (last : AnchorRecord) (present : bool) : string :=
  if negb present then AnchorMissing
  else if ar_seq last <? storeSeq then AnchorBehind
  else if storeSeq <? ar_seq last then AnchorAhead
  else if negb (EqualFold (ar_head last) storeHead) then AnchorMismatch
  else AnchorMatches.

Definition DecideAnchorAppend (last : AnchorRecord) (present : bool) (next : AnchorRecord) : result bool :=
  match validateAnchorRecord next with
  | Some e => Err e
  | None =>
      if negb present then Ok true
      else if ar_seq next <? ar_seq last
      then Err (Errorf "attestation anchor file is ahead of store (file_seq=%d store_seq=%d)"
                  [Itoa (ar_seq last); Itoa (ar_seq next)])
      else if ar_seq next =? ar_seq last then
        if negb (EqualFold (ar_head last) (ar_head next))
        then Err (Errorf "attestation anchor seq %d has conflicting heads" [Itoa (ar_seq next)])
        else Ok false
      else Ok true
  end.

Definition FormatSeq (seq : Z) : string := Itoa seq.

(** *** Publishing

    The file is the list of its records; publishing appends the next record
    when [DecideAnchorAppend] says so. *)
Definition AnchorRecord_zero : AnchorRecord := mkAnchorRecord 0 0 "" "".
Definition publish (file : list AnchorRecord) (next : AnchorRecord) : result (list AnchorRecord) :=
  let present := match file with [] => false | _ => true end in
  let! append := DecideAnchorAppend (default AnchorRecord_zero (last file)) present next in
  Ok (if append then file ++ [next] else file).

(** A refused record leaves the file. *)
Definition publish_all (file : list AnchorRecord) (records : list AnchorRecord) : list AnchorRecord :=
  fold_left (fun f r => match publish f r with Ok f' => f' | Err _ => f end) records file.

Lemma CheckAnchorHistory_snoc file prev next :
  CheckAnchorHistory (file ++ [prev]) = None -> ar_seq prev < ar_seq next ->
  CheckAnchorHistory ((file ++ [prev]) ++ [next]) = None.
Proof.
  intros H Hlt. induction file as [|a [|b file] IH].
  - simpl. replace (ar_seq next <? ar_seq prev) with false by (symmetry; apply Z.ltb_ge; lia).
    by replace (ar_seq next =? ar_seq prev) with false by (symmetry; apply Z.eqb_neq; lia).
  - cbn [app CheckAnchorHistory] in *. destruct (_ <? ar_seq a); [done|]. destruct (_ && _); [done|].
    by apply IH.
  - cbn [app CheckAnchorHistory] in *. destruct (_ <? ar_seq a); [done|]. destruct (_ && _); [done|].
    by apply IH.
Qed.

Lemma publish_inv file next file' :
  CheckAnchorHistory file = None -> publish file next = Ok file' ->
  CheckAnchorHistory file' = None /\
  exists r, last file' = Some r /\ ar_seq r = ar_seq next /\ EqualFold (ar_head r) (ar_head next) = true.
Proof.
  intros Hc H. unfold publish, DecideAnchorAppend in H. destruct (validateAnchorRecord next); [done|].
  destruct file as [|prev file _] using rev_ind.
  - simpl in H. injection H as <-. split; [done|]. exists next. split_and!; auto.
    unfold EqualFold. apply String.eqb_refl.
  - rewrite last_snoc in H. replace (match file ++ [prev] with [] => false | _ => true end) with true in H
      by (by destruct file). simpl in H.
    destruct (ar_seq next <? ar_seq prev) eqn:E1; [done|]. destruct (ar_seq next =? ar_seq prev) eqn:E2.
    + destruct (negb _) eqn:E3; [done|]. injection H as <-. breflect. split; [done|].
      exists prev. rewrite last_snoc. auto.
    + injection H as <-. breflect. split; [apply CheckAnchorHistory_snoc; [done|lia]|].
      exists next. rewrite last_snoc. split_and!; auto. unfold EqualFold. apply String.eqb_refl.
Qed.

(** Publishing keeps the anchor log sound.  Starting from no file, and
    whatever heads are published or refused, the file always passes
    [CheckAnchorHistory]; and a publication that succeeds leaves a last record
    that matches the published head, so that it is neither behind, ahead of
    nor in conflict with the store. *)
Theorem anchor_publish_sound records next file' :
  let file := publish_all [] records in
  CheckAnchorHistory file = None /\
  (publish file next = Ok file' ->
     exists r, last file' = Some r /\ RelateAnchor (ar_seq next) (ar_head next) r true = AnchorMatches).
Proof.
  cbv zeta. assert (H : forall l f, CheckAnchorHistory f = None -> CheckAnchorHistory (publish_all f l) = None).
  { intros l. induction l as [|r l IH]; intros f Hf; simpl; [done|]. apply IH.
    destruct (publish f r) eqn:E; [|done]. by apply publish_inv in E as [? _]. }
  pose proof (H records [] eq_refl) as Hc. split; [done|].
  intros (_ & r & Hl & Hs & Hh)%publish_inv; [|done]. exists r. split; [done|].
  unfold RelateAnchor. rewrite Hs, Z.ltb_irrefl, Hh. done.
Qed.

(** ** Examples *)

Definition ex_prompt : PromptContent := mkPrompt "e1" "2026-01-01T00:00:00Z" (explode "hello").
Definition ex_command : CommandContent := mkCommand "e2" "2026-01-01T00:00:01Z" (explode "ls") [].

Lemma newline_free_check s : bool_decide (newline_free s) = true -> newline_free s.
Proof. apply bool_decide_eq_true. Qed.

Lemma ex_prompt_lines : prompt_lines ex_prompt.
Proof. split; apply newline_free_check; reflexivity. Qed.
Lemma ex_command_lines : command_lines ex_command.
Proof. split; apply newline_free_check; reflexivity. Qed.

Lemma ex_prompt_digest : is_ok (PromptContentSHA256 ex_prompt) = true.
Proof. vm_refl. Qed.
Lemma attestation_content_binding_witness :
  ex_prompt = ex_prompt \/ collision (encodePromptContent ex_prompt) (encodePromptContent ex_prompt).
Proof.
  exact (proj1 (attestation_content_binding ex_prompt ex_prompt ex_command ex_command
    ex_prompt_lines ex_prompt_lines ex_command_lines ex_command_lines) eq_refl ex_prompt_digest).
Defined.

(** Two histories of the same two events in different orders. *)
Definition ex_chain : list digest := [repeat "a"%char 32; repeat "b"%char 32].
Definition ex_reordered : list digest := [repeat "b"%char 32; repeat "a"%char 32].
Lemma ex_chains_free : collision_free (chain_payloads ex_chain) (chain_payloads ex_reordered).
Proof. apply (bool_decide_eq_true _). vm_refl. Qed.
Lemma attestation_chain_binding_witness : chain_head ex_chain <> chain_head ex_reordered.
Proof. intros H. apply (attestation_chain_binding ex_chain ex_reordered ex_chains_free) in H. discriminate H. Defined.

Definition ex_record : AnchorRecord := mkAnchorRecord 1 3 GenesisHex "2026-01-01T00:00:00Z".
Lemma ex_publish : publish (publish_all [] []) ex_record = Ok [ex_record].
Proof. vm_refl. Qed.
Lemma anchor_publish_sound_witness :
  exists r, last [ex_record] = Some r /\ RelateAnchor 3 GenesisHex r true = AnchorMatches.
Proof. apply (proj2 (anchor_publish_sound [] ex_record [ex_record])). exact ex_publish. Defined.
