(* ===== verification/Labels.v ===== *)
(** * Persisted labels and identifiers

    The string value objects of [src/domain/types]: closed sets of persisted
    values (runtime modes, terminal reasons, statuses, kinds) and open
    identifiers.  Every closed set is read by a function of its own in the
    source; the class [KnownLabel] states what they all promise, and the
    aggregates are verified against it. *)

From S2P Require Import Prelude GoStrings.

(** ** Closed sets *)

Definition TerminalReasonSuccess : string := "success".
Definition TerminalReasonFailure : string := "failure".
Definition TerminalReasonTimeout : string := "timeout".
Definition TerminalReasonSignal : string := "signal".
Definition TerminalReasonAbortedStream : string := "aborted_stream".
Definition TerminalReasonLegacyUnknown : string := "legacy_unknown".
Definition knownTerminalReasons : list string :=
  [TerminalReasonSuccess; TerminalReasonFailure; TerminalReasonTimeout; TerminalReasonSignal;
   TerminalReasonAbortedStream; TerminalReasonLegacyUnknown].
Definition TerminalReasonFrom (value : string) : result string :=
  let trimmed := TrimSpace value in
  if trimmed =?s "" then Err (Errorf "terminal reason must not be empty" [])
  else if negb (slices_contains knownTerminalReasons trimmed)
  then Err (Errorf "unknown terminal reason: %s (allowed values: %s)" [trimmed; Join knownTerminalReasons ", "])
  else Ok trimmed.

Definition RuntimeModeInteractive : string := "interactive".
Definition RuntimeModeOneShot : string := "one_shot".
Definition RuntimeModeResumed : string := "resumed".
Definition RuntimeModeBackground : string := "background".
Definition knownRuntimeModes : list string :=
  [RuntimeModeInteractive; RuntimeModeOneShot; RuntimeModeResumed; RuntimeModeBackground].
Definition RuntimeModeFrom (value : string) : result string :=
  let trimmed := TrimSpace value in
  if trimmed =?s "" then Err (Errorf "runtime mode must not be empty" [])
  else if negb (slices_contains knownRuntimeModes trimmed)
  then Err (Errorf "unknown runtime mode: %s (allowed values: %s)" [trimmed; Join knownRuntimeModes ", "])
  else Ok trimmed.

Definition knownSessionStatuses : list string := ["active"; "stale"; "ended"; "ended_with_late_events"].
Definition SessionStatusFrom (value : string) : result string :=
  let trimmedValue := TrimSpace value in
  if trimmedValue =?s "" then Err (Errorf "session status must not be empty" [])
  else if slices_contains knownSessionStatuses trimmedValue then Ok trimmedValue
  else Err (Errorf "unknown session status: %s" [trimmedValue]).

Definition MemoryStatusCandidate : string := "candidate".
Definition MemoryStatusAccepted : string := "accepted".
Definition MemoryStatusRejected : string := "rejected".
Definition MemoryStatusSuperseded : string := "superseded".
Definition MemoryStatusExpired : string := "expired".
Definition knownMemoryStatuses : list string :=
  [MemoryStatusCandidate; MemoryStatusAccepted; MemoryStatusRejected; MemoryStatusSuperseded; MemoryStatusExpired].
Definition MemoryStatusFrom (value : string) : result string :=
  let trimmedValue := TrimSpace value in
  if trimmedValue =?s "" then Err (Errorf "memory status must not be empty" [])
  else if slices_contains knownMemoryStatuses trimmedValue then Ok trimmedValue
  else Err (Errorf "unknown memory status: %s" [trimmedValue]).

Definition knownMemoryTypes : list string := ["preference"; "decision"; "constraint"; "lesson"; "artifact"].
Definition MemoryTypeFrom (value : string) : result string :=
  let trimmedValue := TrimSpace value in
  if trimmedValue =?s "" then Err (Errorf "memory type must not be empty" [])
  else if slices_contains knownMemoryTypes trimmedValue then Ok trimmedValue
  else Err (Errorf "unknown memory type: %s" [trimmedValue]).

Definition knownMemorySources : list string :=
  ["manual"; "extracted"; "extracted-hidden"; "remember-intent"; "compact-summary"; "imported"].
Definition MemorySourceFrom (value : string) : result string :=
  let trimmedValue := TrimSpace value in
  if trimmedValue =?s "" then Err (Errorf "memory source must not be empty" [])
  else if slices_contains knownMemorySources trimmedValue then Ok trimmedValue
  else Err (Errorf "unknown memory source: %s" [trimmedValue]).

Definition knownConfidenceLevels : list string := ["low"; "medium"; "high"; "verified"].
Definition ConfidenceFrom (value : string) : result string :=
  let trimmedValue := TrimSpace value in
  if trimmedValue =?s "" then Err (Errorf "confidence must not be empty" [])
  else if slices_contains knownConfidenceLevels trimmedValue then Ok trimmedValue
  else Err (Errorf "unknown confidence: %s" [trimmedValue]).

Definition knownEventKinds : list string :=
  ["note"; "command_executed"; "reviewed"; "session_started"; "session_ended"; "compact_summary";
   "prompt"; "transcript"].
Definition EventKindFrom (value : string) : result string :=
  let trimmedValue := TrimSpace value in
  if trimmedValue =?s "" then Err (Errorf "event kind must not be empty" [])
  else if slices_contains knownEventKinds trimmedValue then Ok trimmedValue
  else Err (Errorf "unknown event kind: %s (allowed values: %s)" [trimmedValue; Join knownEventKinds ", "]).

Definition CommandFailureReasonUnknown : string := "unknown".
Definition CommandFailureReasonNone : string := "none".
Definition CommandFailureReasonExitCode : string := "exit_code".
Definition CommandFailureReasonSignal : string := "signal".
Definition CommandFailureReasonTimeout : string := "timeout".
Definition CommandFailureReasonHookDenied : string := "hook_denied".
Definition CommandFailureReasonHostError : string := "host_error".
Definition knownCommandFailureReasons : list string :=
  [CommandFailureReasonUnknown; CommandFailureReasonNone; CommandFailureReasonExitCode;
   CommandFailureReasonSignal; CommandFailureReasonTimeout; CommandFailureReasonHookDenied;
   CommandFailureReasonHostError].
Definition CommandFailureReasonFrom (value : string) : result string :=
  let trimmed := TrimSpace value in
  if trimmed =?s "" then Err (Errorf "command failure reason must not be empty" [])
  else if negb (slices_contains knownCommandFailureReasons trimmed)
  then Err (Errorf "unknown command failure reason: %s (allowed values: %s)"
              [trimmed; Join knownCommandFailureReasons ", "])
  else Ok trimmed.

(** Usage terminal codes are compared without trimming. *)
Definition knownUsageTerminalCodes : list string :=
  ["success"; "failure"; "timeout"; "signal"; "aborted_stream"; "unknown"].
Definition UsageTerminalCodeFrom (value : string) : result string :=
  if slices_contains knownUsageTerminalCodes value then Ok value
  else Err (Errorf "unsupported usage terminal code: %q" [value]).

(** ** Open identifiers *)

Definition SessionIDFrom (value : string) : result string :=
  let trimmedValue := TrimSpace value in
  if trimmedValue =?s "" then Err (Errorf "session ID must not be empty" []) else Ok trimmedValue.
Definition AgentFrom (value : string) : result string :=
  let trimmedValue := TrimSpace value in
  if trimmedValue =?s "" then Err (Errorf "agent must not be empty" []) else Ok trimmedValue.
Definition ClientFrom (value : string) : result string :=
  let trimmedValue := TrimSpace value in
  if trimmedValue =?s "" then Err (Errorf "client must not be empty" []) else Ok trimmedValue.
Definition EventIDFrom (value : string) : result string :=
  let trimmedValue := TrimSpace value in
  if trimmedValue =?s "" then Err (Errorf "event ID must not be empty" []) else Ok trimmedValue.
Definition MemoryIDFrom (value : string) : result string :=
  let trimmedValue := TrimSpace value in
  if trimmedValue =?s "" then Err (Errorf "memory ID must not be empty" []) else Ok trimmedValue.
Definition WorkspaceFrom (value : string) : result string :=
  let trimmedValue := TrimSpace value in
  if trimmedValue =?s "" then Err (Errorf "workspace must not be empty" []) else Ok trimmedValue.

(** ** What a reader promises *)

(** A reader of a closed set returns exactly the known values, trimmed. *)
Class KnownLabel (known : list string) (from : string -> result string) : Prop :=
  label_spec : forall v s, from v = Ok s <-> s = TrimSpace v /\ s ∈ known.

(** A known value is trimmed and not empty, which makes it readable as it is. *)
Definition clean_label (s : string) : bool := (TrimSpace s =?s s) && (s <>?s "").

Section LabelReader.
Context (known : list string) (clean : forallb clean_label known = true).

Lemma known_clean s : s ∈ known -> TrimSpace s = s /\ s <> "".
Proof.
  intros H. rewrite forallb_forall in clean.
  apply list_elem_of_In, clean in H. unfold clean_label in H. by breflect.
Qed.

(** What the source's readers test, in whichever order they test it. *)
Lemma reader_spec (from : string -> result string) :
  (forall v, if (TrimSpace v =?s "") || negb (slices_contains known (TrimSpace v))
             then is_ok (from v) = false else from v = Ok (TrimSpace v)) ->
  KnownLabel known from.
Proof.
  intros Hf v s. specialize (Hf v). destruct (_ || _) eqn:E; split.
  - intros H. by rewrite H in Hf.
  - intros [-> Hin]. destruct (known_clean _ Hin) as [_ Hne%String.eqb_neq].
    apply slices_contains_spec in Hin. by rewrite Hne, Hin in E.
  - rewrite Hf. intros [= <-]. by breflect.
  - intros [-> _]. done.
Qed.
End LabelReader.

Ltac known_label :=
  apply reader_spec; [vm_compute; reflexivity|];
  intros v;
  match goal with |- context [is_ok (?f v)] => unfold f end;
  destruct (TrimSpace v =?s ""), (slices_contains _ _); reflexivity.

#[export] Instance TerminalReason_known : KnownLabel knownTerminalReasons TerminalReasonFrom.
Proof. known_label. Qed.
#[export] Instance RuntimeMode_known : KnownLabel knownRuntimeModes RuntimeModeFrom.
Proof. known_label. Qed.
#[export] Instance SessionStatus_known : KnownLabel knownSessionStatuses SessionStatusFrom.
Proof. known_label. Qed.
#[export] Instance MemoryStatus_known : KnownLabel knownMemoryStatuses MemoryStatusFrom.
Proof. known_label. Qed.
#[export] Instance MemoryType_known : KnownLabel knownMemoryTypes MemoryTypeFrom.
Proof. known_label. Qed.
#[export] Instance MemorySource_known : KnownLabel knownMemorySources MemorySourceFrom.
Proof. known_label. Qed.
#[export] Instance Confidence_known : KnownLabel knownConfidenceLevels ConfidenceFrom.
Proof. known_label. Qed.
#[export] Instance EventKind_known : KnownLabel knownEventKinds EventKindFrom.
Proof. known_label. Qed.
#[export] Instance CommandFailureReason_known : KnownLabel knownCommandFailureReasons CommandFailureReasonFrom.
Proof. known_label. Qed.

(** ** Consequences shared by the aggregates *)

Section KnownLabelFacts.
Context {known : list string} {from : string -> result string} `{!KnownLabel known from}.

Lemma label_known v s : from v = Ok s -> s ∈ known.
Proof. intros H%label_spec. tauto. Qed.
Lemma label_trimmed v s : from v = Ok s -> TrimSpace s = s.
Proof. intros [-> _]%label_spec. apply TrimSpace_idemp. Qed.
Lemma label_idemp v s : from v = Ok s -> from s = Ok s.
Proof.
  intros H. apply label_spec. split; [|by eapply label_known]. symmetry. by eapply label_trimmed.
Qed.
Lemma label_refused v : TrimSpace v ∉ known -> exists e, from v = Err e.
Proof.
  intros H. destruct (from v) as [s|e] eqn:E; [|by eauto].
  apply label_spec in E as [-> Hin]. done.
Qed.
End KnownLabelFacts.

(** The one shape of identifier reader. *)
Lemma id_reader_spec (from : string -> result string) (e : error) :
  (forall v, from v = if TrimSpace v =?s "" then Err e else Ok (TrimSpace v)) ->
  (forall v s, from v = Ok s <-> s = TrimSpace v /\ s <> "") /\
  (forall v s, from v = Ok s -> from s = Ok s).
Proof.
  intros Hf.
  assert (H : forall v s, from v = Ok s <-> s = TrimSpace v /\ s <> "").
  { intros v s. rewrite Hf. destruct (String.eqb_spec (TrimSpace v) "") as [E|E]; split.
    - done.
    - intros [-> ?]. done.
    - intros [= <-]. done.
    - intros [-> ?]. done. }
  split; [exact H|]. intros v s [-> Hne]%H. apply H. by rewrite TrimSpace_idemp.
Qed.

(** The readers of the closed sets, with their sets. *)
Definition label_readers : list (list string * (string -> result string)) :=
  [(knownTerminalReasons, TerminalReasonFrom); (knownRuntimeModes, RuntimeModeFrom);
   (knownSessionStatuses, SessionStatusFrom); (knownMemoryStatuses, MemoryStatusFrom);
   (knownMemoryTypes, MemoryTypeFrom); (knownMemorySources, MemorySourceFrom);
   (knownConfidenceLevels, ConfidenceFrom); (knownEventKinds, EventKindFrom);
   (knownCommandFailureReasons, CommandFailureReasonFrom)].
(** The readers of the open identifiers. *)
Definition id_readers : list (string -> result string) :=
  [SessionIDFrom; AgentFrom; ClientFrom; EventIDFrom; MemoryIDFrom; WorkspaceFrom].

(** Every persisted label of a closed set is read back exactly: a reader
    accepts a string when and only when its trimmed form is a known value, and
    returns that value, so every known value reads as itself and reading twice
    changes nothing.  An identifier reader accepts every string that is not
    blank and returns it trimmed.  A usage terminal code is the known value
    itself, untrimmed. *)
Theorem labels_exact :
  Forall (fun '(known, from) =>
    forallb clean_label known = true /\ NoDup known /\
    (forall v s, from v = Ok s <-> s = TrimSpace v /\ s ∈ known) /\
    (forall s, s ∈ known -> from s = Ok s) /\
    (forall v s, from v = Ok s -> from s = Ok s)) label_readers /\
  Forall (fun from : string -> result string =>
    (forall v s, from v = Ok s <-> s = TrimSpace v /\ s <> "") /\
    (forall v s, from v = Ok s -> from s = Ok s)) id_readers /\
  (forall v s, UsageTerminalCodeFrom v = Ok s <-> s = v /\ v ∈ knownUsageTerminalCodes).
Proof.
  split_and!.
  - repeat (apply List.Forall_cons; [|]); try apply List.Forall_nil;
      (split; [vm_compute; reflexivity|]; split;
       [match goal with |- ?P => apply (@bool_decide_unpack P _) end; vm_compute; exact I|]; split; [apply label_spec|]; split;
       [intros s Hs; apply label_spec; split; [|done]; symmetry;
        eapply known_clean; [|exact Hs]; vm_compute; reflexivity
       |intros v s; apply label_idemp]).
  - repeat (apply List.Forall_cons; [|]); try apply List.Forall_nil;
      refine (id_reader_spec _ _ (fun v => eq_refl)).
  - intros v s. unfold UsageTerminalCodeFrom. split.
    + intros H. ok_inv H. by breflect.
    + intros [-> Hin%slices_contains_spec]. by rewrite Hin.
Qed.
