(* ===== verification/UsageValues.v ===== *)
(** * Usage values

    [usage_value.go], [usage_cost.go], [usage_observation.go] and
    [run_lineage.go] of [src/domain/types]: token counts and costs that keep
    "unknown", "unavailable" and "zero" apart, the identifiers and labels of a
    usage observation, the local source it comes from and the run it belongs
    to. *)

From S2P Require Import Prelude GoStrings RuntimeValues Labels.

(** ** Counts *)

Definition UsageValueUnknown : string := "unknown".
Definition UsageValueUnavailable : string := "unavailable".
Definition UsageValueKnown : string := "known".

Definition UsageAvailabilityUnknown : string := "unknown".
Definition UsageAvailabilityUnavailable : string := "unavailable".
Definition UsageAvailabilityPartial : string := "partial".
Definition UsageAvailabilityAvailable : string := "available".

Record UsageValue := mkUsageValue { state : string; value : Z }.
#[global] Instance UsageValue_eq_dec : EqDecision UsageValue.
Proof. solve_decision. Defined.

Definition UnknownUsageValue : UsageValue := mkUsageValue UsageValueUnknown 0.
Definition UnavailableUsageValue : UsageValue := mkUsageValue UsageValueUnavailable 0.
Definition KnownUsageValue (v : Z) : result UsageValue :=
  if v <? 0 then Err (Errorf "usage value must not be negative" [])
  else Ok (mkUsageValue UsageValueKnown v).

Definition UsageValueFrom (state : string) (value : option Z) : result UsageValue :=
  if state =?s UsageValueUnknown then
    match value with
    | Some _ => Err (Errorf "unknown usage value must not carry a number" [])
    | None => Ok UnknownUsageValue
    end
  else if state =?s UsageValueUnavailable then
    match value with
    | Some _ => Err (Errorf "unavailable usage value must not carry a number" [])
    | None => Ok UnavailableUsageValue
    end
  else if state =?s UsageValueKnown then
    match value with
    | None => Err (Errorf "known usage value requires a number" [])
    | Some numeric => KnownUsageValue numeric
    end
  else Err (Errorf "unsupported usage value state: %q" [state]).

(** [v.Value()] and [optionalUsageValue]. *)
Definition Value (v : UsageValue) : option Z :=
  if state v <>?s UsageValueKnown then None else Some (value v).
Definition validate (v : UsageValue) : option error := err_of (UsageValueFrom (state v) (Value v)).

(** ** Counters *)

Record UsageCounters := mkUsageCounters {
  input : UsageValue; cachedInput : UsageValue; cacheWriteInput : UsageValue;
  output : UsageValue; reasoningOutput : UsageValue; total : UsageValue }.
#[global] Instance UsageCounters_eq_dec : EqDecision UsageCounters.
Proof. solve_decision. Defined.

Definition values (c : UsageCounters) : list UsageValue :=
  [input c; cachedInput c; cacheWriteInput c; output c; reasoningOutput c; total c].
Definition UnknownUsageCounters : UsageCounters :=
  let unknown := UnknownUsageValue in mkUsageCounters unknown unknown unknown unknown unknown unknown.

(** The loop of [UsageCountersOf]: the first value that does not validate. *)
Fixpoint first_invalid (l : list UsageValue) : option error :=
  match l with
  | [] => None
  | v :: l => match validate v with
              | Some err => Some (Wrap "invalid usage counters: %w" [] err)
              | None => first_invalid l
              end
  end.
Definition UsageCountersOf (input cachedInput cacheWriteInput output reasoningOutput total : UsageValue)
    : result UsageCounters :=
  match first_invalid [input; cachedInput; cacheWriteInput; output; reasoningOutput; total] with
  | Some err => Err err
  | None => Ok (mkUsageCounters input cachedInput cacheWriteInput output reasoningOutput total)
  end.

(** The loop of [Availability]; [None] is its early return. *)
Fixpoint count_known (l : list UsageValue) (known : Z) : option Z :=
  match l with
  | [] => Some known
  | v :: l => if state v =?s UsageValueUnknown then None
              else count_known l (if state v =?s UsageValueKnown then known + 1 else known)
  end.
Definition Availability (c : UsageCounters) : string :=
  match count_known (values c) 0 with
  | None => UsageAvailabilityUnknown
  | Some known =>
      if known =? 0 then UsageAvailabilityUnavailable
      else if known =? llen (values c) then UsageAvailabilityAvailable
      else UsageAvailabilityPartial
  end.

(** ** Costs *)

Definition UsageCostUnknown : string := "unknown".
Definition UsageCostUnavailable : string := "unavailable".
Definition UsageCostKnown : string := "known".
Definition UsageCostEstimated : string := "estimated".
Definition UsageCostProviderReported : string := "provider_reported".

Record UsageCost := mkUsageCost {
  cost_state : string; amountMicros : Z; currency : string; origin : string; priceTableVersion : string }.
#[global] Instance UsageCost_eq_dec : EqDecision UsageCost.
Proof. solve_decision. Defined.

Definition UnknownUsageCost : UsageCost := mkUsageCost UsageCostUnknown 0 "" "" "".
Definition UnavailableUsageCost : UsageCost := mkUsageCost UsageCostUnavailable 0 "" "" "".

(** [range] over the runes of the three bytes. *)
Definition isUpperCurrency (s : string) : bool :=
  (slen s =? 3) && forallb (in_range 65 90) (range_runes s).

Definition knownUsageCost (amount : Z) (currency origin version : string) : result UsageCost :=
  if amount <? 0 then Err (Errorf "usage cost amount must not be negative" [])
  else
    let normalizedCurrency := TrimSpace currency in
    if negb (isUpperCurrency normalizedCurrency)
    then Err (Errorf "usage cost currency must be three uppercase ASCII letters" [])
    else Ok (mkUsageCost UsageCostKnown amount normalizedCurrency origin version).

Definition EstimatedUsageCost (amount : Z) (currency priceTableVersion : string) : result UsageCost :=
  let version := TrimSpace priceTableVersion in
  if version =?s "" then Err (Errorf "estimated usage cost requires a price-table version" [])
  else knownUsageCost amount currency UsageCostEstimated version.
Definition ProviderReportedUsageCost (amount : Z) (currency : string) : result UsageCost :=
  knownUsageCost amount currency UsageCostProviderReported "".

Definition requireEmptyUsageCost (amount : option Z) (currency origin version : string) : option error :=
  match amount with
  | Some _ => Some (Errorf "cost without a known value must not carry amount or provenance" [])
  | None => if (currency <>?s "") || (origin <>?s "") || (version <>?s "")
            then Some (Errorf "cost without a known value must not carry amount or provenance" [])
            else None
  end.

Definition UsageCostFrom (state : string) (amount : option Z) (currency origin version : string) : result UsageCost :=
  if state =?s UsageCostUnknown then
    match requireEmptyUsageCost amount currency origin version with
    | Some err => Err (Wrap "invalid unknown usage cost: %w" [] err)
    | None => Ok UnknownUsageCost
    end
  else if state =?s UsageCostUnavailable then
    match requireEmptyUsageCost amount currency origin version with
    | Some err => Err (Wrap "invalid unavailable usage cost: %w" [] err)
    | None => Ok UnavailableUsageCost
    end
  else if state =?s UsageCostKnown then
    match amount with
    | None => Err (Errorf "known usage cost requires an amount" [])
    | Some amount =>
        if origin =?s UsageCostEstimated then EstimatedUsageCost amount currency version
        else if origin =?s UsageCostProviderReported then
          if TrimSpace version <>?s ""
          then Err (Errorf "provider-reported usage cost must not carry a price-table version" [])
          else ProviderReportedUsageCost amount currency
        else Err (Errorf "unsupported usage cost origin: %q" [origin])
    end
  else Err (Errorf "unsupported usage cost state: %q" [state]).

Definition AmountMicros (c : UsageCost) : option Z :=
  if cost_state c <>?s UsageCostKnown then None else Some (amountMicros c).

(** ** Identifiers and labels *)

Definition UsageObservationIDFrom (value : string) : result string :=
  let trimmed := TrimSpace value in
  if trimmed =?s "" then Err (Errorf "usage observation ID must not be empty" [])
  else if 512 <? slen trimmed then Err (Errorf "usage observation ID must not exceed 512 bytes" [])
  else Ok trimmed.

Definition UsageExclusivityKeyFrom (value : string) : result string :=
  let trimmed := TrimSpace value in
  if trimmed =?s "" then Err (Errorf "usage exclusivity key must not be empty" [])
  else if 512 <? slen trimmed then Err (Errorf "usage exclusivity key must not exceed 512 bytes" [])
  else if ContainsAny trimmed line_breaks
  then Err (Errorf "usage exclusivity key contains invalid control characters" [])
  else Ok trimmed.

Definition UsageScopeCall : string := "call".
Definition UsageScopeRun : string := "run".
Definition UsageScopeSessionSnapshot : string := "session_snapshot".
Definition UsageScopeFrom (value : string) : result string :=
  if slices_contains [UsageScopeCall; UsageScopeRun; UsageScopeSessionSnapshot] value then Ok value
  else Err (Errorf "unsupported usage scope: %q" [value]).

Definition UsageAccountingAdditive : string := "additive".
Definition UsageAccountingLatestSnapshot : string := "latest_snapshot".
Definition UsageAccountingExcluded : string := "excluded".
Definition UsageAccountingFrom (value : string) : result string :=
  if slices_contains [UsageAccountingAdditive; UsageAccountingLatestSnapshot; UsageAccountingExcluded] value
  then Ok value else Err (Errorf "unsupported usage accounting mode: %q" [value]).

Definition UsageObservationPending : string := "pending".
Definition UsageObservationFinalized : string := "finalized".
Definition UsageObservationStatusFrom (value : string) : result string :=
  if slices_contains [UsageObservationPending; UsageObservationFinalized] value
  then Ok value else Err (Errorf "unsupported usage observation status: %q" [value]).

(** ** Sources and runs *)

Record UsageSource := mkUsageSource {
  host : string; name : string; version : string; provider : string; model : string }.
#[global] Instance UsageSource_eq_dec : EqDecision UsageSource.
Proof. solve_decision. Defined.

Definition UsageSourceOf (host name version provider model : string) : result UsageSource :=
  let host := TrimSpace host in let name := TrimSpace name in let version := TrimSpace version in
  if (host =?s "") || (name =?s "") || (version =?s "")
  then Err (Errorf "usage source host, name, and version must not be empty" [])
  else Ok (mkUsageSource host name version (TrimSpace provider) (TrimSpace model)).

Definition maxRunIDBytes : Z := 512.
Record RunIdentity := mkRunIdentity { run_host : string; runID : string }.
#[global] Instance RunIdentity_eq_dec : EqDecision RunIdentity.
Proof. solve_decision. Defined.

Definition RunIdentityFrom (host runID : string) : result RunIdentity :=
  let host := TrimSpace host in
  if (host =?s "") || negb (valid_utf8 host)
  then Err (Errorf "run identity host must be valid non-empty UTF-8" [])
  else if negb (valid_utf8 runID) || (TrimSpace runID =?s "")
  then Err (Errorf "run ID must be valid non-whitespace UTF-8" [])
  else if maxRunIDBytes <? slen runID
  then Err (Errorf "run ID must not exceed %d bytes" [Itoa maxRunIDBytes])
  else Ok (mkRunIdentity host runID).

Example currency_examples :
  map isUpperCurrency ["USD"; "usd"; "US"; "USDX"; "U D"] = [true; false; false; false; false].
Proof. by vm_compute. Qed.
Example availability_examples :
  let k := mkUsageValue UsageValueKnown 0 in let u := UnavailableUsageValue in
  map Availability [UnknownUsageCounters; mkUsageCounters u u u u u u; mkUsageCounters k k k k k k;
                    mkUsageCounters k u u u u k; mkUsageCounters k u u u u UnknownUsageValue]
  = ["unknown"; "unavailable"; "available"; "partial"; "unknown"].
Proof. by vm_compute. Qed.

(** ** What is constructible *)

(** The values the constructors of the package can make: a number only in the
    known state, and never a negative one. *)
Definition wf_value (v : UsageValue) : Prop :=
  (v = UnknownUsageValue \/ v = UnavailableUsageValue) \/ (state v = UsageValueKnown /\ 0 <= value v).
Definition wf_counters (c : UsageCounters) : Prop := Forall wf_value (values c).

Definition wf_cost (c : UsageCost) : Prop :=
  (c = UnknownUsageCost \/ c = UnavailableUsageCost) \/
  (cost_state c = UsageCostKnown /\ 0 <= amountMicros c /\ isUpperCurrency (currency c) = true /\
   ((origin c = UsageCostEstimated /\ TrimSpace (priceTableVersion c) = priceTableVersion c /\
     priceTableVersion c <> "") \/
    (origin c = UsageCostProviderReported /\ priceTableVersion c = ""))).

Lemma UsageValueFrom_exact s n v :
  UsageValueFrom s n = Ok v <-> wf_value v /\ s = state v /\ n = Value v.
Proof.
  split.
  - unfold UsageValueFrom, KnownUsageValue, wf_value. intros H. ok_inv H; breflect; subst; simpl; auto.
  - intros ([[-> | ->]|[Hs Hv]] & -> & ->); [done|done|].
    unfold UsageValueFrom, Value, KnownUsageValue. rewrite Hs. cbn.
    destruct (Z.ltb_spec (value v) 0); [lia|]. destruct v; simpl in *; by subst.
Qed.

Lemma validate_None v : validate v = None <-> exists w, UsageValueFrom (state v) (Value v) = Ok w.
Proof.
  unfold validate. destruct (UsageValueFrom _ _) as [w|e]; cbn; split; [by eauto|done|done|].
  by intros [? ?].
Qed.

Lemma wf_value_validate v : wf_value v -> validate v = None.
Proof. intros H. apply validate_None. exists v. by apply UsageValueFrom_exact. Qed.

Lemma first_invalid_None l : first_invalid l = None <-> Forall (fun v => validate v = None) l.
Proof.
  induction l as [|v l IH]; cbn [first_invalid]; [done|]. rewrite Forall_cons, <-IH.
  destruct (validate v); [|tauto]. split; [done|]. by intros [? _].
Qed.

Lemma UsageCountersOf_wf c : wf_counters c ->
  UsageCountersOf (input c) (cachedInput c) (cacheWriteInput c) (output c) (reasoningOutput c) (total c) = Ok c.
Proof.
  intros H. unfold UsageCountersOf. fold (values c).
  rewrite (proj2 (first_invalid_None (values c))); [by destruct c|].
  eapply Forall_impl; [exact H|]. apply wf_value_validate.
Qed.

(** ** Costs *)

Lemma upper_graphic s : isUpperCurrency s = true -> forallb graphic (explode s) = true.
Proof.
  unfold isUpperCurrency, range_runes. intros [_ H]%andb_true_iff.
  rewrite forallb_runes_ascii in H.
  - rewrite forallb_forall in *. intros c Hc%H. revert Hc. unfold graphic, in_range.
    rewrite !andb_true_iff, !Z.leb_le. lia.
  - intros x. unfold in_range. rewrite andb_true_iff, !Z.leb_le. lia.
Qed.
Lemma upper_trimmed s : isUpperCurrency s = true -> TrimSpace s = s.
Proof. intros H. apply TrimSpace_graphic, upper_graphic, H. Qed.

Lemma knownUsageCost_inv a cur o ver c : knownUsageCost a cur o ver = Ok c ->
  0 <= a /\ isUpperCurrency (TrimSpace cur) = true /\ c = mkUsageCost UsageCostKnown a (TrimSpace cur) o ver.
Proof. unfold knownUsageCost. intros H. ok_inv H. by breflect. Qed.
Lemma knownUsageCost_ok a cur o ver : 0 <= a -> isUpperCurrency cur = true ->
  knownUsageCost a cur o ver = Ok (mkUsageCost UsageCostKnown a cur o ver).
Proof.
  intros Ha Hc. unfold knownUsageCost. rewrite (upper_trimmed _ Hc), Hc.
  by destruct (Z.ltb_spec a 0); [lia|].
Qed.

Lemma UsageCostFrom_wf s a cur o ver c : UsageCostFrom s a cur o ver = Ok c -> wf_cost c.
Proof.
  unfold UsageCostFrom, EstimatedUsageCost, ProviderReportedUsageCost. intros H.
  repeat innermost_split H; try (injection H as <-; left; tauto);
    apply knownUsageCost_inv in H as (Ha & Hc & ->); right; split_and!; try done.
  - left. cbn. split_and!; [done|apply TrimSpace_idemp|by breflect].
  - by right.
Qed.

Lemma UsageCostFrom_columns c : wf_cost c ->
  UsageCostFrom (cost_state c) (AmountMicros c) (currency c) (origin c) (priceTableVersion c) = Ok c.
Proof.
  destruct c as [s a cur o ver].
  intros [[-> | ->]|(Hs & Ha & Hc & H)]; cbn in *; [reflexivity..|]. subst s.
  unfold UsageCostFrom, AmountMicros. cbn.
  destruct H as [(-> & Ht & Hne)|(-> & ->)]; cbn; unfold EstimatedUsageCost, ProviderReportedUsageCost.
  - rewrite Ht. apply String.eqb_neq in Hne. rewrite Hne. by apply knownUsageCost_ok.
  - by apply knownUsageCost_ok.
Qed.

(** ** Completeness *)

Definition known_count (l : list UsageValue) : Z :=
  llen (filter (fun v => state v = UsageValueKnown) l).

Lemma count_known_spec l k :
  count_known l k = if existsb (fun v => state v =?s UsageValueUnknown) l then None
                    else Some (k + known_count l).
Proof.
  revert k. induction l as [|v l IH]; intros k; cbn [count_known existsb]; [by rewrite Z.add_0_r|].
  destruct (state v =?s UsageValueUnknown); [done|]. rewrite IH. cbn [orb].
  destruct (existsb _ l); [done|]. f_equal. unfold known_count. rewrite filter_cons.
  destruct (String.eqb_spec (state v) UsageValueKnown) as [E|E].
  - rewrite decide_True by done. unfold llen. cbn. lia.
  - by rewrite decide_False.
Qed.

Lemma known_count_bounds l : 0 <= known_count l <= llen l.
Proof. unfold known_count, llen. pose proof (length_filter (fun v => state v = UsageValueKnown) l). lia. Qed.
Lemma known_count_all l : known_count l = llen l <-> Forall (fun v => state v = UsageValueKnown) l.
Proof.
  unfold known_count, llen. induction l as [|v l IH]; [done|]. rewrite filter_cons, Forall_cons, <-IH.
  pose proof (known_count_bounds l) as [_ Hb]. unfold known_count, llen in Hb.
  case_decide as E; cbn [List.length]; split; intros H; [split; [done|lia]|destruct H; lia|lia|tauto].
Qed.
Lemma known_count_none l : known_count l = 0 <-> Forall (fun v => state v <> UsageValueKnown) l.
Proof.
  unfold known_count, llen. induction l as [|v l IH]; [done|]. rewrite filter_cons, Forall_cons, <-IH.
  case_decide as E; cbn [List.length]; split; intros H; [lia|tauto|by split|tauto].
Qed.

Lemma wf_value_states v : wf_value v ->
  (state v = UsageValueUnknown <-> v = UnknownUsageValue) /\
  (state v = UsageValueUnavailable <-> v = UnavailableUsageValue) /\
  (state v = UsageValueKnown <-> is_Some (Value v)) /\
  (state v = UsageValueUnknown \/ state v = UsageValueUnavailable \/ state v = UsageValueKnown).
Proof.
  unfold Value. intros [[-> | ->]|[Hs Hv]].
  - cbn. split_and!; [done|split; discriminate|split; [discriminate|by intros [? ?]]|auto].
  - cbn. split_and!; [split; discriminate|done|split; [discriminate|by intros [? ?]]|auto].
  - rewrite Hs. cbn. split_and!; [split; [discriminate|intros ->; discriminate Hs]
      |split; [discriminate|intros ->; discriminate Hs]|by eauto|auto].
Qed.

Lemma open_spec l : Forall wf_value l -> existsb (fun v => state v =?s UsageValueUnknown) l = true <->
  Exists (fun v => v = UnknownUsageValue) l.
Proof.
  intros Hwf. rewrite existsb_exists, Exists_exists. rewrite List.Forall_forall in Hwf.
  split; intros (v & Hin & Hv); exists v; rewrite list_elem_of_In in *; (split; [done|]).
  - apply String.eqb_eq in Hv. by apply (wf_value_states _ (Hwf v Hin)).
  - by rewrite Hv.
Qed.
Lemma all_known_spec l : Forall wf_value l -> known_count l = llen l <-> Forall (fun v => is_Some (Value v)) l.
Proof.
  rewrite known_count_all. induction 1 as [|v k Hv Hk IH]; [done|]. rewrite !Forall_cons, IH.
  pose proof (wf_value_states _ Hv). tauto.
Qed.
Lemma none_known_spec l : Forall wf_value l -> ~ Exists (fun v => v = UnknownUsageValue) l ->
  (known_count l = 0 <-> Forall (fun v => v = UnavailableUsageValue) l).
Proof.
  rewrite known_count_none. induction 1 as [|v k Hv Hk IH]; [done|].
  rewrite Exists_cons, !Forall_cons. intros Hno.
  pose proof (wf_value_states _ Hv) as (H1 & H2 & H3 & H4). rewrite IH by tauto.
  assert (Hs : state v <> UsageValueKnown <-> v = UnavailableUsageValue); [|tauto].
  rewrite <-H2. split; [|by intros ->]. destruct H4 as [H4|[H4|H4]]; [|done|done].
  destruct Hno. left. by apply H1.
Qed.

Lemma Availability_exact c : wf_counters c ->
  (Availability c = UsageAvailabilityUnknown <-> Exists (fun v => v = UnknownUsageValue) (values c)) /\
  (Availability c = UsageAvailabilityUnavailable <-> Forall (fun v => v = UnavailableUsageValue) (values c)) /\
  (Availability c = UsageAvailabilityAvailable <-> Forall (fun v => is_Some (Value v)) (values c)).
Proof.
  unfold wf_counters, Availability. intros H. rewrite count_known_spec, Z.add_0_l.
  pose proof (open_spec _ H) as Ho. pose proof (all_known_spec _ H) as Ha.
  pose proof (none_known_spec _ H) as Hn.
  assert (Hl : llen (values c) = 6) by done. rewrite Hl in *. clear Hl.
  destruct (existsb _ _).
  - apply proj1 in Ho. specialize (Ho eq_refl). split_and!; [done|split; [discriminate|]..]; intros Hf; exfalso;
      apply Exists_exists in Ho as (v & Hv & ->); rewrite Forall_forall in Hf; specialize (Hf _ Hv);
      [discriminate Hf|by destruct Hf].
  - rewrite <-Ho in *. specialize (Hn ltac:(done)).
    destruct (Z.eqb_spec (known_count (values c)) 0) as [E|E]; [|destruct (Z.eqb_spec (known_count (values c)) 6)].
    + rewrite <-Hn, <-Ha. split_and!; split; try discriminate; try done; lia.
    + rewrite <-Hn, <-Ha. split_and!; split; try discriminate; try done; lia.
    + rewrite <-Hn, <-Ha. split_and!; split; try discriminate; try done; lia.
Qed.

(** (C1) A count is restored from its persisted pair exactly: a state and an
    optional number are accepted when and only when they are those of a value
    the package constructs, so no number is lost, no missing one becomes zero
    and no negative one enters.  A persisted cost that is accepted is a
    constructible cost, and a constructible cost is restored from its own
    columns unchanged.  The availability of valid counters is "available" only
    when all six dimensions have a number, "unavailable" only when all are
    terminally missing, and "unknown" exactly when one is still open. *)
Theorem usage_amounts_exact :
  (forall s n v, UsageValueFrom s n = Ok v <-> wf_value v /\ s = state v /\ n = Value v) /\
  (forall s n cur o ver c, UsageCostFrom s n cur o ver = Ok c -> wf_cost c) /\
  (forall c, wf_cost c ->
     UsageCostFrom (cost_state c) (AmountMicros c) (currency c) (origin c) (priceTableVersion c) = Ok c) /\
  (forall c, wf_counters c ->
     (Availability c = UsageAvailabilityUnknown <-> Exists (fun v => v = UnknownUsageValue) (values c)) /\
     (Availability c = UsageAvailabilityUnavailable <-> Forall (fun v => v = UnavailableUsageValue) (values c)) /\
     (Availability c = UsageAvailabilityAvailable <-> Forall (fun v => is_Some (Value v)) (values c))).
Proof.
  split_and!; [exact UsageValueFrom_exact|exact UsageCostFrom_wf|exact UsageCostFrom_columns|].
  exact Availability_exact.
Qed.
