(* ===== verification/Usage.v ===== *)
(** * Usage observations

    [src/domain/model/usage_observation.go]: the identity of one authoritative
    observation of token usage, the observation itself, and the transitions
    that let a source deliver it again -- open, then final, then replayed --
    without its accounting ever being counted twice or replaced. *)

From S2P Require Import Prelude GoStrings GoTime RuntimeValues Labels UsageValues.

Definition ErrInvalidUsageObservation : error := Sentinel "invalid usage observation".
Definition ErrConflictingUsageObservation : error := Sentinel "conflicting usage observation".

(** ** Descriptors *)

Record UsageObservationDescriptor := mkDescriptor {
  observationID : string; sessionID : string; source : UsageSource; scope : string; accounting : string;
  observedAt : Time; snapshotSeries : string; snapshotRevision : Z; supersedesID : option string;
  runIdentity : option RunIdentity; exclusivityKey : option string }.
#[global] Instance Descriptor_eq_dec : EqDecision UsageObservationDescriptor.
Proof. solve_decision. Defined.

Definition present {A} (o : option A) : bool := match o with Some _ => true | None => false end.

(** The snapshot block of [validate]. *)
Definition check_scope (d : UsageObservationDescriptor) : option error :=
  if scope d =?s UsageScopeSessionSnapshot then
    first_err
      [ fails (present (runIdentity d)) (Errorf "session snapshot cannot carry run identity" []);
        fails (present (exclusivityKey d)) (Errorf "session snapshot cannot carry an exclusivity key" []);
        fails ((accounting d <>?s UsageAccountingLatestSnapshot) || (snapshotSeries d =?s "")
               || (snapshotRevision d <? 1))
          (Errorf "session snapshot requires latest-snapshot accounting, series, and positive revision" []);
        fails (512 <? slen (snapshotSeries d))
          (Errorf "usage snapshot series must not exceed 512 bytes" []) ]
  else if (snapshotSeries d <>?s "") || negb (snapshotRevision d =? 0)
  then Some (Errorf "call/run descriptor must not carry snapshot metadata" [])
  else fails (present (supersedesID d)) (Errorf "call/run descriptor must not supersede a snapshot" []).

Definition check_predecessor (d : UsageObservationDescriptor) : option error :=
  match supersedesID d with
  | None => None
  | Some predecessor =>
      first_err
        [ err_of (wrap_err "invalid superseded observation ID: %w" (UsageObservationIDFrom predecessor));
          fails (predecessor =?s observationID d) (Errorf "usage snapshot cannot supersede itself" []) ]
  end.

Definition check_run (d : UsageObservationDescriptor) : option error :=
  match runIdentity d with
  | None => None
  | Some r =>
      first_err
        [ fails (match RunIdentityFrom (run_host r) (runID r) with
                 | Ok validated => negb (bool_decide (validated = r)) | Err _ => true end)
            (Errorf "invalid usage run identity" []);
          fails (run_host r <>?s host (source d))
            (Errorf "usage run identity host must match source host" []) ]
  end.

Definition exclusive_accounting (a : string) : bool :=
  slices_contains [UsageAccountingAdditive; UsageAccountingExcluded] a.

Definition check_key (d : UsageObservationDescriptor) : option error :=
  match exclusivityKey d with
  | None => None
  | Some key =>
      first_err
        [ err_of (wrap_err "invalid usage exclusivity key: %w" (UsageExclusivityKeyFrom key));
          fails ((accounting d <>?s UsageAccountingAdditive) && (accounting d <>?s UsageAccountingExcluded))
            (Errorf "usage exclusivity requires additive or excluded accounting" []) ]
  end.

Definition descriptor_validate (d : UsageObservationDescriptor) : option error :=
  let s := source d in
  first_err
    [ err_of (wrap_err "invalid usage observation descriptor: %w" (UsageObservationIDFrom (observationID d)));
      err_of (wrap_err "invalid usage observation descriptor: %w" (SessionIDFrom (sessionID d)));
      err_of (wrap_err "invalid usage observation descriptor: %w"
                (UsageSourceOf (host s) (name s) (version s) (provider s) (model s)));
      err_of (wrap_err "invalid usage observation descriptor: %w" (UsageScopeFrom (scope d)));
      err_of (wrap_err "invalid usage observation descriptor: %w" (UsageAccountingFrom (accounting d)));
      fails (IsZero (observedAt d)) (Errorf "usage observation timestamp must not be zero" []);
      check_scope d; check_predecessor d; check_run d; check_key d ].

Definition checked (d : UsageObservationDescriptor) : result UsageObservationDescriptor :=
  match descriptor_validate d with Some err => Err err | None => Ok d end.

Definition NewUsageObservationDescriptor (oid sid : string) (src : UsageSource) (sc acc : string) (at_ : Time)
    : result UsageObservationDescriptor :=
  if (sc <>?s UsageScopeCall) && (sc <>?s UsageScopeRun)
  then Err (Errorf "call/run descriptor has unsupported scope %q" [sc])
  else if (acc <>?s UsageAccountingAdditive) && (acc <>?s UsageAccountingExcluded)
  then Err (Errorf "call/run descriptor has unsupported accounting %q" [acc])
  else checked (mkDescriptor oid sid src sc acc at_ "" 0 None None None).

Definition with_run (d : UsageObservationDescriptor) (r : RunIdentity) : UsageObservationDescriptor :=
  mkDescriptor (observationID d) (sessionID d) (source d) (scope d) (accounting d) (observedAt d)
    (snapshotSeries d) (snapshotRevision d) (supersedesID d) (Some r) (exclusivityKey d).
Definition with_key (d : UsageObservationDescriptor) (k : string) : UsageObservationDescriptor :=
  mkDescriptor (observationID d) (sessionID d) (source d) (scope d) (accounting d) (observedAt d)
    (snapshotSeries d) (snapshotRevision d) (supersedesID d) (runIdentity d) (Some k).
Definition with_accounting (d : UsageObservationDescriptor) (a : string) : UsageObservationDescriptor :=
  mkDescriptor (observationID d) (sessionID d) (source d) (scope d) a (observedAt d)
    (snapshotSeries d) (snapshotRevision d) (supersedesID d) (runIdentity d) (exclusivityKey d).

Definition WithExclusivityKey (d : UsageObservationDescriptor) (key : string) : result UsageObservationDescriptor :=
  match UsageExclusivityKeyFrom key with
  | Err err => Err (Wrap "invalid usage exclusivity key: %w" [] err)
  | Ok validated => checked (with_key d validated)
  end.

Definition NewUsageObservationDescriptorWithRunIdentity (oid sid : string) (src : UsageSource)
    (sc acc : string) (at_ : Time) (run : RunIdentity) : result UsageObservationDescriptor :=
  let! descriptor := NewUsageObservationDescriptor oid sid src sc acc at_ in
  checked (with_run descriptor run).

Definition NewUsageSnapshotDescriptor (oid sid : string) (src : UsageSource) (series : string) (revision : Z)
    (supersedes : option string) (at_ : Time) : result UsageObservationDescriptor :=
  checked (mkDescriptor oid sid src UsageScopeSessionSnapshot UsageAccountingLatestSnapshot at_
             (TrimSpace series) revision supersedes None None).

Definition equivalent (d other : UsageObservationDescriptor) : bool :=
  if (observationID d <>?s observationID other) || (sessionID d <>?s sessionID other)
     || negb (bool_decide (source d = source other)) || (scope d <>?s scope other)
     || (accounting d <>?s accounting other) || (snapshotSeries d <>?s snapshotSeries other)
     || negb (snapshotRevision d =? snapshotRevision other) || negb (Equal (observedAt d) (observedAt other))
  then false
  else bool_decide (supersedesID d = supersedesID other) && bool_decide (runIdentity d = runIdentity other)
       && bool_decide (exclusivityKey d = exclusivityKey other).

(** ** Observations *)

Record UsageObservation := mkObservation {
  descriptor : UsageObservationDescriptor; status : string; counters : UsageCounters; cost : UsageCost;
  terminalCode : option string; finalizedAt : option Time }.
#[global] Instance Observation_eq_dec : EqDecision UsageObservation.
Proof. solve_decision. Defined.

Definition allUsageValuesHaveState (c : UsageCounters) (s : string) : bool :=
  forallb (fun v => state v =?s s) (values c).

Definition invalid (message : string) : error := Wrap message [] ErrInvalidUsageObservation.

Definition check_pending (o : UsageObservation) : option error :=
  first_err
    [ fails (scope (descriptor o) =?s UsageScopeSessionSnapshot) (invalid "session snapshot cannot be pending: %w");
      fails (negb (allUsageValuesHaveState (counters o) UsageValueUnknown)
             || (cost_state (cost o) <>?s UsageCostUnknown))
        (invalid "pending usage observation must contain only unknown values: %w");
      fails (present (terminalCode o)) (invalid "pending usage observation must not have a terminal code: %w");
      fails (present (finalizedAt o)) (invalid "pending usage observation must not have a final timestamp: %w") ].

Definition check_final (o : UsageObservation) : option error :=
  first_err
    [ fails ((Availability (counters o) =?s UsageAvailabilityUnknown) || (cost_state (cost o) =?s UsageCostUnknown))
        (invalid "finalized usage observation must not contain unknown values: %w");
      match terminalCode o with
      | None => Some (invalid "finalized usage observation requires a terminal code: %w")
      | Some code => err_of (wrap_err "invalid usage observation terminal code: %w" (UsageTerminalCodeFrom code))
      end;
      match finalizedAt o with
      | None => Some (invalid "finalized usage observation has an invalid final timestamp: %w")
      | Some t => fails (IsZero t || Before t (observedAt (descriptor o)))
                    (invalid "finalized usage observation has an invalid final timestamp: %w")
      end ].

Definition observation_validate (receiver : option UsageObservation) : option error :=
  match receiver with
  | None => Some ErrInvalidUsageObservation
  | Some o =>
      let c := counters o in
      first_err
        [ option_map (Wrap "invalid usage observation: %w" []) (descriptor_validate (descriptor o));
          err_of (wrap_err "invalid usage observation: %w" (UsageObservationStatusFrom (status o)));
          err_of (wrap_err "invalid usage observation counters: %w"
                    (UsageCountersOf (input c) (cachedInput c) (cacheWriteInput c) (output c)
                       (reasoningOutput c) (total c)));
          err_of (wrap_err "invalid usage observation cost: %w"
                    (UsageCostFrom (cost_state (cost o)) (AmountMicros (cost o)) (currency (cost o))
                       (origin (cost o)) (priceTableVersion (cost o))));
          if status o =?s UsageObservationPending then check_pending o else check_final o ]
  end.

Definition UsageObservationOf (d : UsageObservationDescriptor) (status : string) (c : UsageCounters)
    (cost : UsageCost) (code : option string) (at_ : option Time) : result UsageObservation :=
  let observation := mkObservation d status c cost code at_ in
  match observation_validate (Some observation) with Some err => Err err | None => Ok observation end.
Definition NewPendingUsageObservation (d : UsageObservationDescriptor) : result UsageObservation :=
  UsageObservationOf d UsageObservationPending UnknownUsageCounters UnknownUsageCost None None.
Definition NewFinalizedUsageObservation (d : UsageObservationDescriptor) (c : UsageCounters) (cost : UsageCost)
    (code : string) (at_ : Time) : result UsageObservation :=
  UsageObservationOf d UsageObservationFinalized c cost (Some code) (Some at_).

(** ** Transitions *)

Definition UsageObservationTransitionApplied : string := "applied".
Definition UsageObservationTransitionAlreadyApplied : string := "already_applied".

(** [*UsageObservationConflictError], with what its [Unwrap] returns. *)
Definition newUsageObservationConflict (id field : string) : error :=
  Typed "UsageObservationConflictError" [id; field] ErrConflictingUsageObservation.

Definition set_final (o proposed : UsageObservation) : UsageObservation :=
  mkObservation (descriptor o) (status proposed) (counters proposed) (cost proposed) (terminalCode proposed)
    (finalizedAt proposed).

(** The value of an [Optional], or the zero value. *)
Definition code_or_zero (o : option string) : string := match o with Some c => c | None => "" end.
Definition time_or_zero (o : option Time) : Time := match o with Some t => t | None => time_zero end.

Definition same_terminal (o proposed : UsageObservation) : bool :=
  bool_decide (counters o = counters proposed) && bool_decide (cost o = cost proposed)
  && (code_or_zero (terminalCode o) =?s code_or_zero (terminalCode proposed))
  && Equal (time_or_zero (finalizedAt o)) (time_or_zero (finalizedAt proposed)).

(** The receiver afterwards, and the transition. *)
Definition Reconcile (receiver proposed : option UsageObservation) : option UsageObservation * result string :=
  match receiver, proposed with
  | Some o, Some p =>
      if negb (equivalent (descriptor o) (descriptor p))
      then (receiver, Err (newUsageObservationConflict (observationID (descriptor o)) "identity metadata"))
      else if (status o =?s UsageObservationPending) && (status p =?s UsageObservationPending)
      then (receiver, Ok UsageObservationTransitionAlreadyApplied)
      else if (status o =?s UsageObservationPending) && (status p =?s UsageObservationFinalized)
      then (Some (set_final o p), Ok UsageObservationTransitionApplied)
      else if status o =?s UsageObservationFinalized then
        if status p =?s UsageObservationPending then (receiver, Ok UsageObservationTransitionAlreadyApplied)
        else if same_terminal o p then (receiver, Ok UsageObservationTransitionAlreadyApplied)
        else (receiver, Err (newUsageObservationConflict (observationID (descriptor o)) "terminal accounting"))
      else (receiver, Err ErrInvalidUsageObservation)
  | _, _ => (receiver, Err ErrInvalidUsageObservation)
  end.

Definition same_option_time (a b : option Time) : bool :=
  match a, b with Some t, Some u => Equal t u | None, None => true | _, _ => false end.

Definition ValidateAccountingAlternative (receiver alternative : option UsageObservation) : option error :=
  match receiver, alternative with
  | Some o, Some a =>
      let current := descriptor o in
      let other := descriptor a in
      if (accounting current <>?s UsageAccountingAdditive) || (accounting other <>?s UsageAccountingExcluded)
      then Some (newUsageObservationConflict (observationID current) "accounting alternatives")
      else if negb (equivalent (with_accounting current (accounting other)) other) || (status o <>?s status a)
              || negb (bool_decide (counters o = counters a)) || negb (bool_decide (cost o = cost a))
      then Some (newUsageObservationConflict (observationID (descriptor o)) "accounting alternative semantics")
      else if negb (bool_decide (terminalCode o = terminalCode a))
              || negb (same_option_time (finalizedAt o) (finalizedAt a))
      then Some (newUsageObservationConflict (observationID (descriptor o))
                   "accounting alternative terminal semantics")
      else None
  | _, _ => Some ErrInvalidUsageObservation
  end.

Definition ValidateSnapshotSuccessor (receiver head : option UsageObservation) : option error :=
  match receiver with
  | None => Some ErrInvalidUsageObservation
  | Some o =>
      let d := descriptor o in
      let conflict field := Some (newUsageObservationConflict (observationID d) field) in
      if (scope d <>?s UsageScopeSessionSnapshot) || (status o <>?s UsageObservationFinalized)
      then Some ErrInvalidUsageObservation
      else match head with
      | None => if present (supersedesID d) then conflict "missing snapshot predecessor" else None
      | Some h =>
          let hd := descriptor h in
          if (scope hd <>?s UsageScopeSessionSnapshot) || (snapshotSeries hd <>?s snapshotSeries d)
             || (status h <>?s UsageObservationFinalized)
          then conflict "snapshot series"
          else if (sessionID hd <>?s sessionID d) || negb (bool_decide (source hd = source d))
          then conflict "snapshot lineage"
          else if negb (bool_decide (supersedesID d = Some (observationID hd)))
          then conflict "snapshot predecessor"
          else if snapshotRevision d <=? snapshotRevision hd
          then conflict "snapshot revision"
          else None
      end
  end.

(** ** Validity *)

Definition valid (o : UsageObservation) : Prop := observation_validate (Some o) = None.

(** What validity says of each part. *)
Lemma valid_spec o : valid o <->
  descriptor_validate (descriptor o) = None /\
  (status o = UsageObservationPending \/ status o = UsageObservationFinalized) /\
  (exists c, UsageCountersOf (input (counters o)) (cachedInput (counters o)) (cacheWriteInput (counters o))
               (output (counters o)) (reasoningOutput (counters o)) (total (counters o)) = Ok c) /\
  (exists c, UsageCostFrom (cost_state (cost o)) (AmountMicros (cost o)) (currency (cost o)) (origin (cost o))
               (priceTableVersion (cost o)) = Ok c) /\
  (status o = UsageObservationPending -> check_pending o = None) /\
  (status o = UsageObservationFinalized -> check_final o = None).
Proof.
  unfold valid, observation_validate. rewrite first_err_None, !Forall_cons, !err_of_wrap_None.
  assert (Hd : option_map (Wrap "invalid usage observation: %w" []) (descriptor_validate (descriptor o)) = None <->
               descriptor_validate (descriptor o) = None) by (by destruct (descriptor_validate _)).
  rewrite Hd. clear Hd.
  assert (Hs : (exists s, UsageObservationStatusFrom (status o) = Ok s) <->
               status o = UsageObservationPending \/ status o = UsageObservationFinalized).
  { unfold UsageObservationStatusFrom. split.
    - intros [s H]. ok_inv H. breflect. apply elem_of_cons in E as [-> |E]; [auto|apply list_elem_of_singleton in E; auto].
    - intros [-> | ->]; eexists; reflexivity. }
  rewrite Hs. destruct (String.eqb_spec (status o) UsageObservationPending) as [E|E].
  - rewrite E. split; [intros (?&?&?&?&?&_); split_and!; auto; discriminate|].
    intros (?&?&?&?&?&?). split_and!; auto.
  - split.
    + intros (?&?&?&?&?&_). split_and!; auto. intros; done.
    + intros (?&[]&?&?&?&?); [done|]. split_and!; auto.
Qed.

Lemma UsageObservationOf_valid d s c co code t o : UsageObservationOf d s c co code t = Ok o -> valid o.
Proof. unfold UsageObservationOf, valid. destruct (observation_validate _) eqn:E; [done|]. by intros [= <-]. Qed.

Definition is_final (o : UsageObservation) : bool := status o =?s UsageObservationFinalized.
Definition is_pending (o : UsageObservation) : bool := status o =?s UsageObservationPending.

Lemma valid_status o : valid o -> is_final o = negb (is_pending o).
Proof. intros (_&[H|H]&_)%valid_spec; unfold is_final, is_pending; by rewrite H. Qed.

Lemma equivalent_spec d e : equivalent d e = true <->
  observationID d = observationID e /\ sessionID d = sessionID e /\ source d = source e /\
  scope d = scope e /\ accounting d = accounting e /\ snapshotSeries d = snapshotSeries e /\
  snapshotRevision d = snapshotRevision e /\ Equal (observedAt d) (observedAt e) = true /\
  supersedesID d = supersedesID e /\ runIdentity d = runIdentity e /\ exclusivityKey d = exclusivityKey e.
Proof.
  unfold equivalent. split.
  - destruct (_ || _) eqn:E; [done|]. intros H. by breflect.
  - intros (-> & -> & -> & -> & -> & -> & -> & -> & -> & -> & ->).
    rewrite !String.eqb_refl, Z.eqb_refl. by rewrite !bool_decide_true.
Qed.
Lemma equivalent_refl d : equivalent d d = true.
Proof. apply equivalent_spec. split_and!; auto using Equal_refl. Qed.

Lemma same_terminal_refl o : same_terminal o o = true.
Proof. unfold same_terminal. by rewrite !bool_decide_true, String.eqb_refl, Equal_refl. Qed.

(** An observation whose times carry no monotonic reading, as every one does
    that was read back from the store. *)
Definition wall (o : UsageObservation) : Prop := wall_only (observedAt (descriptor o)).

(** Finalizing keeps an observation valid. *)
Lemma set_final_valid o p : valid o -> valid p -> wall o -> wall p ->
  equivalent (descriptor o) (descriptor p) = true -> is_final p = true -> valid (set_final o p).
Proof.
  intros Ho Hp Hwo Hwp He Hf. apply valid_spec in Ho as (Hd & _).
  apply valid_spec in Hp as (_ & Hs & Hc & Hco & _ & Hfin). apply String.eqb_eq in Hf.
  apply valid_spec. cbn [set_final descriptor status counters cost terminalCode finalizedAt].
  split_and!; [done|by right|done|done|by rewrite Hf|]. intros _. specialize (Hfin Hf).
  unfold check_final in *. cbn [set_final descriptor status counters cost terminalCode finalizedAt].
  rewrite first_err_None, !Forall_cons in *. destruct Hfin as (H1 & H2 & H3 & _). split_and!; auto.
  destruct (finalizedAt p) as [t|]; [|done]. rewrite fails_None in *.
  apply orb_false_iff in H3 as [Hz Hb]. rewrite Hz. cbn [orb].
  apply equivalent_spec in He as (_&_&_&_&_&_&_&Ht&_).
  rewrite (Equal_wall _ _ Hwo), Z.eqb_eq in Ht. unfold wall, wall_only, Before, cmp_with in *.
  rewrite Hwp in Hb. rewrite Hwo. destruct (mono t); by rewrite Ht.
Qed.

(** ** Deliveries *)

(** One delivery, and a sequence of them. *)
Definition deliver (o p : UsageObservation) : UsageObservation :=
  match fst (Reconcile (Some o) (Some p)) with Some o' => o' | None => o end.
Definition deliver_all (o : UsageObservation) (ps : list UsageObservation) : UsageObservation :=
  fold_left deliver ps o.

(** The deliveries that may close an open observation. *)
Definition closes (o p : UsageObservation) : bool := equivalent (descriptor o) (descriptor p) && is_final p.

Lemma deliver_pending o p : is_pending o = true ->
  deliver o p = if closes o p then set_final o p else o.
Proof.
  unfold is_pending, deliver, Reconcile, closes, is_final. intros Ho%String.eqb_eq. rewrite Ho.
  destruct (equivalent _ _); [|done]. cbn [negb andb].
  destruct (String.eqb_spec (status p) UsageObservationPending) as [E|E]; [by rewrite E|]. cbn.
  by destruct (status p =?s UsageObservationFinalized).
Qed.
Lemma deliver_final o p : is_final o = true -> deliver o p = o.
Proof.
  unfold is_final, deliver, Reconcile. intros Ho%String.eqb_eq. rewrite Ho.
  destruct (equivalent _ _); [|done]. cbn. destruct (status p =?s _); [done|]. by destruct (same_terminal o p).
Qed.

Lemma deliver_all_spec o ps : is_pending o = true ->
  deliver_all o ps = match find (closes o) ps with Some p => set_final o p | None => o end.
Proof.
  revert o. induction ps as [|p ps IH]; intros o Ho; [done|]. cbn [deliver_all fold_left find].
  rewrite (deliver_pending _ _ Ho). destruct (closes o p) eqn:E; [|by apply IH].
  assert (Hf : is_final (set_final o p) = true) by (by apply andb_true_iff in E as [_ E]).
  clear IH E. induction ps as [|q ps IH]; [done|]. cbn [fold_left]. by rewrite (deliver_final _ _ Hf).
Qed.

Lemma replay_final o p : is_final o = true -> is_pending o = false ->
  equivalent (descriptor o) (descriptor p) = true ->
  Reconcile (Some o) (Some p) =
    (Some o, if is_pending p || same_terminal o p then Ok UsageObservationTransitionAlreadyApplied
             else Err (newUsageObservationConflict (observationID (descriptor o)) "terminal accounting")).
Proof.
  unfold is_final, is_pending, Reconcile. intros Hf Hp He. rewrite He, Hf, Hp. cbn.
  destruct (status p =?s _); [done|]. cbn. by destruct (same_terminal o p).
Qed.

(** The first terminal delivery wins, and only it counts.  Whatever
    observations are delivered to an open one, in whatever order and however
    often, it ends as the first terminal one of the same identity made it --
    or stays open when there is none -- keeps its identity, and stays valid.
    From then on every delivery leaves it as it is: an open or equal one is
    reported as already applied, one with other accounting as a conflict. *)
Theorem usage_first_terminal_wins : forall o ps,
  valid o -> wall o -> is_pending o = true -> Forall (fun p => valid p /\ wall p) ps ->
  let o' := deliver_all o ps in
  o' = match find (closes o) ps with Some p => set_final o p | None => o end /\
  valid o' /\ descriptor o' = descriptor o /\
  (is_final o' = existsb (closes o) ps) /\
  (is_final o' = true -> forall p, equivalent (descriptor o) (descriptor p) = true ->
     Reconcile (Some o') (Some p) =
       (Some o', if is_pending p || same_terminal o' p then Ok UsageObservationTransitionAlreadyApplied
                 else Err (newUsageObservationConflict (observationID (descriptor o)) "terminal accounting"))).
Proof.
  intros o ps Ho Hw Hp Hps o'. unfold o'. rewrite (deliver_all_spec _ _ Hp).
  assert (Hv : forall p, find (closes o) ps = Some p -> valid (set_final o p) /\ is_final p = true).
  { intros p [Hin Hc]%find_some. apply andb_true_iff in Hc as [He Hf]. split; [|done].
    rewrite List.Forall_forall in Hps. destruct (Hps p Hin). by apply set_final_valid. }
  assert (Hex : existsb (closes o) ps = present (find (closes o) ps)).
  { clear. induction ps as [|p ps IH]; [done|]. cbn. by destruct (closes o p). }
  rewrite Hex. destruct (find (closes o) ps) as [p|] eqn:E.
  - destruct (Hv p eq_refl) as [Hvalid Hf]. split_and!; try done.
    intros _ q Hq. refine (replay_final (set_final o p) q Hf _ Hq).
    pose proof (valid_status _ Hvalid) as Hs. unfold is_final, is_pending in *. cbn in *.
    rewrite Hf in Hs. by destruct (status p =?s UsageObservationPending).
  - split_and!; try done; rewrite (valid_status _ Ho), Hp; done.
Qed.

(** ** Examples *)

Definition ex_source : UsageSource := mkUsageSource "codex" "headless_stream" "1" "openai" "".
Definition ex_at (s : Z) : Time := Add UnixEpoch (s * Second).
Definition ex_descriptor : UsageObservationDescriptor :=
  mkDescriptor "o1" "s1" ex_source UsageScopeRun UsageAccountingAdditive (ex_at 100) "" 0 None None (Some "k1").
Definition ex_pending : UsageObservation :=
  mkObservation ex_descriptor UsageObservationPending UnknownUsageCounters UnknownUsageCost None None.
Definition ex_counters (n : Z) : UsageCounters :=
  let k := mkUsageValue UsageValueKnown n in let u := UnavailableUsageValue in mkUsageCounters k u u k u u.
Definition ex_final (n : Z) : UsageObservation :=
  mkObservation ex_descriptor UsageObservationFinalized (ex_counters n)
    (mkUsageCost UsageCostKnown 0 "USD" UsageCostProviderReported "") (Some "success") (Some (ex_at 160)).

Lemma valid_ok o : bool_decide (observation_validate (Some o) = None) = true -> valid o.
Proof. apply bool_decide_eq_true. Qed.
Lemma ex_pending_valid : valid ex_pending /\ wall ex_pending.
Proof. split; [|done]. apply valid_ok. vm_refl. Qed.
Lemma ex_final_valid : (valid (ex_final 7) /\ wall (ex_final 7)) /\ (valid (ex_final 9) /\ wall (ex_final 9)).
Proof. split; (split; [apply valid_ok; vm_refl|done]). Qed.

Lemma usage_first_terminal_wins_witness :
  deliver_all ex_pending [ex_pending; ex_final 7; ex_final 9; ex_final 7] = ex_final 7.
Proof.
  destruct (usage_first_terminal_wins ex_pending [ex_pending; ex_final 7; ex_final 9; ex_final 7]) as (H & _).
  - exact (proj1 ex_pending_valid).
  - exact (proj2 ex_pending_valid).
  - reflexivity.
  - repeat (apply List.Forall_cons;
      [first [exact ex_pending_valid|exact (proj1 ex_final_valid)|exact (proj2 ex_final_valid)]|]).
    apply List.Forall_nil.
  - rewrite H. vm_compute. reflexivity.
Defined.

Example reconcile_examples :
  snd (Reconcile (Some ex_pending) (Some (ex_final 7))) = Ok "applied" /\
  snd (Reconcile (Some (ex_final 7)) (Some ex_pending)) = Ok "already_applied" /\
  snd (Reconcile (Some (ex_final 7)) (Some (ex_final 9))) =
    Err (newUsageObservationConflict "o1" "terminal accounting").
Proof. split_and!; vm_refl. Qed.
