(* ===== verification/UsageStore.v ===== *)
(** * The usage store

    [src/infrastructure/sqlite/usage_observation_datasource.go]: usage
    observations as rows of two tables, and the transactions that record
    them.  A row is what the statements bind and scan; a statement is a
    function of the tables; a transaction that fails leaves them as they were.
    The unique indexes and the predecessor trigger of the schema
    ([src/schema/sqlite/migrations/000027], [000030]) are the guards of an
    insertion; the [CHECK] constraints of a single row are a parameter. *)

From S2P Require Import Prelude GoStrings GoTime GoTimeText SqliteText RuntimeValues Labels UsageValues Usage.

(** ** Rows *)

Record UsageRow := mkRow {
  r_id : string; r_session : string; r_host : string; r_source_name : string; r_source_version : string;
  r_provider : option string; r_model : option string; r_scope : string; r_accounting : string;
  r_key : option string; r_status : string; r_observed_at : string; r_finalized_at : option string;
  r_code : option string; r_counters : list (string * option Z); r_cost_state : string;
  r_cost_amount : option Z; r_cost_currency : option string; r_cost_origin : option string;
  r_price_table : option string; r_series : option string; r_revision : option Z;
  r_supersedes : option string }.
#[global] Instance UsageRow_eq_dec : EqDecision UsageRow.
Proof. solve_decision. Defined.

(** The observations by primary key, and the run attributions. *)
Record UsageStore := mkStore { rows : gmap string UsageRow; runs : gmap string RunIdentity }.


(** ** Writing a row *)

(** The columns a finalization sets. *)
Definition usageFinalizationArgs (o : UsageObservation) (r : UsageRow) : UsageRow :=
  let c := cost o in
  let known := AmountMicros c in
  let when_known (s : option string) := match known with Some _ => s | None => None end in
  mkRow (r_id r) (r_session r) (r_host r) (r_source_name r) (r_source_version r) (r_provider r) (r_model r)
    (r_scope r) (r_accounting r) (r_key r) (status o) (r_observed_at r)
    (option_map formatTimestamp (finalizedAt o)) (terminalCode o)
    (map (fun v => (state v, Value v)) (values (counters o)))
    (cost_state c) known (when_known (Some (currency c))) (when_known (Some (origin c)))
    (when_known (nullableString (priceTableVersion c)))
    (r_series r) (r_revision r) (r_supersedes r).

Definition usageObservationArgs (o : UsageObservation) : UsageRow :=
  let d := descriptor o in
  let s := source d in
  usageFinalizationArgs o
    (mkRow (observationID d) (sessionID d) (host s) (name s) (version s)
       (nullableString (provider s)) (nullableString (model s)) (scope d) (accounting d)
       (exclusivityKey d) "" (formatTimestamp (observedAt d)) None None [] "" None None None None
       (nullableString (snapshotSeries d))
       (if 0 <? snapshotRevision d then Some (snapshotRevision d) else None)
       (supersedesID d)).

(** ** Reading a row *)

Fixpoint restore_values (l : list (string * option Z)) (index : Z) : result (list UsageValue) :=
  match l with
  | [] => Ok []
  | (s, n) :: l =>
      match UsageValueFrom s n with
      | Err err => Err (Wrap "failed to restore usage counter %d: %w" [Itoa index] err)
      | Ok v => let! vs := restore_values l (index + 1) in Ok (v :: vs)
      end
  end.
Definition restoreUsageCounters (l : list (string * option Z)) : result UsageCounters :=
  if negb (2 * llen l =? 12) then Err (Errorf "usage counter row requires 12 values" [])
  else
    let! restored := restore_values l 0 in
    match restored with
    | [a; b; c; d; e; f] => wrap_err "failed to validate restored usage counters: %w" (UsageCountersOf a b c d e f)
    | _ => Err (Errorf "usage counter row requires 12 values" [])
    end.

(** [f] applied to a column that is not NULL. *)
Definition restore_option {A} (format : string) (f : string -> result A) (o : option string) : result (option A) :=
  match o with
  | None => Ok None
  | Some s => match f s with Err err => Err (Wrap format [] err) | Ok a => Ok (Some a) end
  end.

Section Store.
Context (parse_layout : string -> result Time) (row_checks : UsageRow -> bool).
Let Parse := time_Parse parse_layout.

(** The descriptor of a scanned call or run. *)
Definition restore_run (run : option RunIdentity) (id sid : string) (src : UsageSource) (at_ : Time) (sc acc : string)
    : result UsageObservationDescriptor :=
  match run with
  | Some run =>
      match RunIdentityFrom (run_host run) (runID run) with
      | Err err => Err (Wrap "failed to restore usage run identity: %w" [] err)
      | Ok identity =>
          wrap_err "failed to restore usage observation descriptor: %w"
            (NewUsageObservationDescriptorWithRunIdentity id sid src sc acc at_ identity)
      end
  | None => wrap_err "failed to restore usage observation descriptor: %w"
              (NewUsageObservationDescriptor id sid src sc acc at_)
  end.

(** The descriptor of a scanned row, before its key. *)
Definition restore_descriptor (r : UsageRow) (run : option RunIdentity) (id sid : string) (src : UsageSource)
    (at_ : Time) (sc acc : string) : result UsageObservationDescriptor :=
  if sc =?s UsageScopeSessionSnapshot then
    let! predecessor := restore_option "failed to restore superseded usage observation ID: %w"
                          UsageObservationIDFrom (r_supersedes r) in
    match r_revision r with
    | None => Err (Errorf "usage snapshot revision is missing" [])
    | Some revision =>
        wrap_err "failed to restore usage observation descriptor: %w"
          (NewUsageSnapshotDescriptor id sid src (text (r_series r)) revision predecessor at_)
    end
  else restore_run run id sid src at_ sc acc.

Definition restore_key (r : UsageRow) (d : UsageObservationDescriptor) : result UsageObservationDescriptor :=
  match r_key r with
  | None => Ok d
  | Some raw =>
      let! key := wrap_err "failed to restore usage exclusivity key: %w" (UsageExclusivityKeyFrom raw) in
      wrap_err "failed to attach usage exclusivity key: %w" (WithExclusivityKey d key)
  end.

(** The two halves of a scan: the identity, and the state. *)
Definition scan_descriptor (r : UsageRow) (run : option RunIdentity) : result UsageObservationDescriptor :=
  let! id := wrap_err "failed to restore usage observation ID: %w" (UsageObservationIDFrom (r_id r)) in
  let! sid := wrap_err "failed to restore usage session ID: %w" (SessionIDFrom (r_session r)) in
  let! src := wrap_err "failed to restore usage source: %w"
                (UsageSourceOf (r_host r) (r_source_name r) (r_source_version r)
                   (text (r_provider r)) (text (r_model r))) in
  let! observed := wrap_err "invalid usage observed_at: %w" (Parse (r_observed_at r)) in
  let! sc := wrap_err "failed to restore usage scope: %w" (UsageScopeFrom (r_scope r)) in
  let! acc := wrap_err "failed to restore usage accounting: %w" (UsageAccountingFrom (r_accounting r)) in
  let! d0 := restore_descriptor r run id sid src observed sc acc in
  restore_key r d0.
Definition scan_state (r : UsageRow) (d : UsageObservationDescriptor) : result UsageObservation :=
  let! c := wrap_err "failed to restore usage counters: %w" (restoreUsageCounters (r_counters r)) in
  let! co := wrap_err "failed to restore usage cost: %w"
               (UsageCostFrom (r_cost_state r) (r_cost_amount r) (text (r_cost_currency r))
                  (text (r_cost_origin r)) (text (r_price_table r))) in
  let! st := wrap_err "failed to restore usage observation status: %w" (UsageObservationStatusFrom (r_status r)) in
  let! code := restore_option "failed to restore usage terminal code: %w" UsageTerminalCodeFrom (r_code r) in
  let! final := restore_option "invalid usage finalized_at: %w" Parse (r_finalized_at r) in
  wrap_err "failed to restore usage observation aggregate: %w" (UsageObservationOf d st c co code final).
Definition scanUsageObservation (r : UsageRow) (run : option RunIdentity) : result UsageObservation :=
  let! d := scan_descriptor r run in scan_state r d.

(** ** Queries *)

Definition findUsageObservation (s : UsageStore) (id : string) : result (option UsageObservation) :=
  match rows s !! id with
  | None => Ok None
  | Some r =>
      let! o := wrap_err "failed to restore usage observation: %w" (scanUsageObservation r (runs s !! id)) in
      Ok (Some o)
  end.

(** [WHERE]: the keys and rows that satisfy a condition. *)
Definition select (s : UsageStore) (cond : UsageRow -> bool) : list (string * UsageRow) :=
  List.filter (fun kr => cond (snd kr)) (map_to_list (rows s)).
Definition exists_row (s : UsageStore) (cond : UsageRow -> bool) : bool :=
  map_any cond (rows s).

Definition eq_col (o : option string) (v : string) : bool :=
  match o with Some s => s =?s v | None => false end.

(** A row of the series that no row supersedes. *)
Definition is_head (s : UsageStore) (series : string) (r : UsageRow) : bool :=
  eq_col (r_series r) series && negb (exists_row s (fun successor => eq_col (r_supersedes successor) (r_id r))).

Definition findUsageSnapshotHead (s : UsageStore) (series : string) : result (option UsageObservation) :=
  match select s (is_head s series) with
  | [] => Ok None
  | [(observationID, _)] =>
      let! id := wrap_err "invalid usage snapshot head identity: %w" (UsageObservationIDFrom observationID) in
      let! head := wrap_err "failed to load usage snapshot head: %w" (findUsageObservation s id) in
      match head with
      | Some value => Ok (Some value)
      | None => Err (Wrap "usage snapshot head disappeared: %w" [] ErrConflictingUsageObservation)
      end
  | heads => Err (Wrap "usage snapshot series %q has %d heads: %w" [series; Itoa (llen heads)]
                    ErrConflictingUsageObservation)
  end.

Definition claims (key : string) (r : UsageRow) : bool :=
  eq_col (r_key r) key && (r_accounting r =?s UsageAccountingAdditive).
Definition findUsageExclusivityWinner (s : UsageStore) (key : string) : result (option string) :=
  match select s (claims key) with
  | [] => Ok None
  | (raw, _) :: _ =>
      let! id := wrap_err "invalid stored usage exclusivity winner: %w" (UsageObservationIDFrom raw) in
      Ok (Some id)
  end.

(** ** Statements *)

Definition eq_opt {A} `{EqDecision A} (a b : option A) : bool :=
  match a, b with Some x, Some y => bool_decide (x = y) | _, _ => false end.
Definition lt_opt (a b : option Z) : bool :=
  match a, b with Some x, Some y => x <? y | _, _ => false end.

(** The row the trigger [usage_observations_validate_snapshot_predecessor]
    looks for. *)
Definition is_predecessor (new r : UsageRow) : bool :=
  eq_col (r_supersedes new) (r_id r) && eq_opt (r_series r) (r_series new)
  && (r_session r =?s r_session new) && (r_host r =?s r_host new)
  && (r_source_name r =?s r_source_name new) && (r_source_version r =?s r_source_version new)
  && bool_decide (r_provider r = r_provider new) && bool_decide (r_model r = r_model new)
  && (r_scope r =?s UsageScopeSessionSnapshot) && (r_status r =?s UsageObservationFinalized)
  && lt_opt (r_revision r) (r_revision new).

Definition is_root (r : UsageRow) : bool :=
  (r_scope r =?s UsageScopeSessionSnapshot) && negb (present (r_supersedes r)).

(** The unique indexes, as what a row already there excludes. *)
Definition unique_conflict (new r : UsageRow) : bool :=
  (eq_opt (r_series r) (r_series new) && eq_opt (r_revision r) (r_revision new))
  || eq_opt (r_supersedes r) (r_supersedes new)
  || (is_root r && is_root new && eq_opt (r_series r) (r_series new))
  || ((r_accounting r =?s UsageAccountingAdditive) && (r_accounting new =?s UsageAccountingAdditive)
      && eq_opt (r_key r) (r_key new)).

Definition constraint_failed (name : string) : error := Errorf "constraint failed" [name].

Definition insert_row (s : UsageStore) (new : UsageRow) : result UsageStore :=
  if negb (row_checks new) then Err (constraint_failed "CHECK")
  else if present (rows s !! r_id new) then Err (constraint_failed "PRIMARY KEY")
  else if present (r_supersedes new) && negb (exists_row s (is_predecessor new))
  then Err (constraint_failed "invalid usage snapshot predecessor")
  else if exists_row s (unique_conflict new) then Err (constraint_failed "UNIQUE")
  else Ok (mkStore (<[r_id new := new]> (rows s)) (runs s)).

Definition insertUsageObservation (s : UsageStore) (o : UsageObservation) : result UsageStore :=
  let! s1 := wrap_err "failed to insert usage observation: %w" (insert_row s (usageObservationArgs o)) in
  match runIdentity (descriptor o) with
  | None => Ok s1
  | Some run =>
      let id := observationID (descriptor o) in
      if present (runs s1 !! id)
      then Err (Wrap "failed to insert usage run attribution: %w" [] (constraint_failed "PRIMARY KEY"))
      else Ok (mkStore (rows s1) (<[id := run]> (runs s1)))
  end.

Definition updateFinalizedUsageObservation (s : UsageStore) (o : UsageObservation) : result UsageStore :=
  let id := observationID (descriptor o) in
  let updated_none := Wrap "usage observation finalization updated %d rows: %w" [Itoa 0] ErrConflictingUsageObservation in
  match rows s !! id with
  | None => Err updated_none
  | Some r =>
      if r_status r <>?s UsageObservationPending then Err updated_none
      else
        let r' := usageFinalizationArgs o r in
        if negb (row_checks r')
        then Err (Wrap "failed to finalize usage observation: %w" [] (constraint_failed "CHECK"))
        else Ok (mkStore (<[id := r']> (rows s)) (runs s))
  end.

Definition set_key (r : UsageRow) (key : string) : UsageRow :=
  mkRow (r_id r) (r_session r) (r_host r) (r_source_name r) (r_source_version r) (r_provider r) (r_model r)
    (r_scope r) (r_accounting r) (Some key) (r_status r) (r_observed_at r) (r_finalized_at r) (r_code r)
    (r_counters r) (r_cost_state r) (r_cost_amount r) (r_cost_currency r) (r_cost_origin r) (r_price_table r)
    (r_series r) (r_revision r) (r_supersedes r).
Definition attachLegacyUsageExclusivityKey (s : UsageStore) (id key : string) : result UsageStore :=
  match rows s !! id with
  | Some r =>
      if negb (present (r_key r)) && (r_accounting r =?s UsageAccountingExcluded) then
        if negb (row_checks (set_key r key))
        then Err (Wrap "failed to attach portable key to legacy usage observation: %w" [] (constraint_failed "CHECK"))
        else Ok (mkStore (<[id := set_key r key]> (rows s)) (runs s))
      else Ok s
  | None => Ok s
  end.

(** ** Transactions *)

(** The store an operation leaves, and its transition; after an error the
    transaction is rolled back. *)
Definition recordTransaction (s : UsageStore) (operation : UsageStore -> result (UsageStore * string))
    : UsageStore * result string :=
  match operation s with Err err => (s, Err err) | Ok (s', transition) => (s', Ok transition) end.

Definition recordUsageObservation (s : UsageStore) (o : UsageObservation) : result (UsageStore * string) :=
  let! current := wrap_err "failed to inspect existing usage observation: %w"
                    (findUsageObservation s (observationID (descriptor o))) in
  match current with
  | Some existing =>
      match Reconcile (Some existing) (Some o) with
      | (_, Err err) => Err (Wrap "failed to reconcile usage observation: %w" [] err)
      | (existing', Ok transition) =>
          if transition =?s UsageObservationTransitionApplied then
            match existing' with
            | Some o' => let! s' := wrap_err "failed to apply usage finalization: %w"
                                      (updateFinalizedUsageObservation s o') in
                         Ok (s', transition)
            | None => Err ErrInvalidUsageObservation
            end
          else Ok (s, transition)
      end
  | None =>
      let! _ :=
        (if scope (descriptor o) =?s UsageScopeSessionSnapshot then
           let! head := wrap_err "failed to inspect usage snapshot series: %w"
                          (findUsageSnapshotHead s (snapshotSeries (descriptor o))) in
           match ValidateSnapshotSuccessor (Some o) head with
           | Some err => Err (Wrap "failed to validate usage snapshot successor: %w" [] err)
           | None => Ok tt
           end
         else Ok tt) in
      let! s' := wrap_err "failed to record new usage observation: %w" (insertUsageObservation s o) in
      Ok (s', UsageObservationTransitionApplied)
  end.

Definition Record_ (s : UsageStore) (receiver : option UsageObservation) : UsageStore * result string :=
  match receiver with
  | None => (s, Err ErrInvalidUsageObservation)
  | Some o => recordTransaction s (fun s => recordUsageObservation s o)
  end.

(** Which alternative [RecordExclusive] records. *)
Definition select_alternative (s : UsageStore) (winner : option string) (additive excluded : UsageObservation)
    : result UsageObservation :=
  let id := observationID (descriptor additive) in
  match winner with
  | Some winnerID => Ok (if winnerID <>?s id then excluded else additive)
  | None =>
      let! existing := wrap_err "failed to inspect existing exclusive usage observation: %w"
                         (findUsageObservation s id) in
      Ok (match existing with
          | Some current => if accounting (descriptor current) =?s UsageAccountingExcluded then excluded else additive
          | None => additive
          end)
  end.

Definition RecordExclusive (s : UsageStore) (key : string) (additive excluded : option UsageObservation)
    : UsageStore * result string :=
  match UsageExclusivityKeyFrom key with
  | Err err => (s, Err (Wrap "invalid usage exclusivity key: %w" [] err))
  | Ok validatedKey =>
      match ValidateAccountingAlternative additive excluded, additive, excluded with
      | Some err, _, _ => (s, Err (Wrap "invalid usage accounting alternatives: %w" [] err))
      | None, Some a, Some e =>
          if negb (eq_col (exclusivityKey (descriptor a)) validatedKey)
          then (s, Err (Errorf "usage accounting alternatives do not carry the requested exclusivity key" []))
          else recordTransaction s (fun s =>
            let! winner := findUsageExclusivityWinner s validatedKey in
            let! selected := select_alternative s winner a e in
            let! s1 := attachLegacyUsageExclusivityKey s (observationID (descriptor selected)) validatedKey in
            recordUsageObservation s1 selected)
      | None, _, _ => (s, Err ErrInvalidUsageObservation)
      end
  end.

End Store.

(** ** The invariant of the tables *)

Record store_inv (s : UsageStore) : Prop := {
  inv_id : forall i r, rows s !! i = Some r -> r_id r = i;
  inv_additive : forall i j r q k, rows s !! i = Some r -> rows s !! j = Some q ->
    claims k r = true -> claims k q = true -> i = j;
  inv_series : forall i r, rows s !! i = Some r -> is_Some (r_series r) ->
    r_scope r = UsageScopeSessionSnapshot /\ exists n, r_revision r = Some n /\ 1 <= n;
  inv_predecessor : forall i r p, rows s !! i = Some r -> r_supersedes r = Some p ->
    exists q, rows s !! p = Some q /\ is_Some (r_series q) /\ r_series q = r_series r /\
              lt_opt (r_revision q) (r_revision r) = true;
  inv_successor : forall i j r q p, rows s !! i = Some r -> rows s !! j = Some q ->
    r_supersedes r = Some p -> r_supersedes q = Some p -> i = j;
  inv_root : forall i j r q t, rows s !! i = Some r -> rows s !! j = Some q ->
    r_series r = Some t -> r_series q = Some t -> r_supersedes r = None -> r_supersedes q = None -> i = j }.

Definition empty_store : UsageStore := mkStore ∅ ∅.
Lemma empty_inv : store_inv empty_store.
Proof. split; intros i; intros; by try match goal with H : _ !! _ = Some _ |- _ => rewrite lookup_empty in H end. Qed.

(** What no statement changes of a row, apart from the first key of an
    excluded one. *)
Definition same_frame (r r' : UsageRow) : Prop :=
  r_id r' = r_id r /\ r_scope r' = r_scope r /\ r_accounting r' = r_accounting r /\
  r_series r' = r_series r /\ r_revision r' = r_revision r /\ r_supersedes r' = r_supersedes r /\
  (r_accounting r = UsageAccountingAdditive -> r_key r' = r_key r).

Lemma same_frame_refl r : same_frame r r.
Proof. by split_and!. Qed.
Lemma same_frame_trans r q t : same_frame r q -> same_frame q t -> same_frame r t.
Proof.
  unfold same_frame. intros (A1&A2&A3&A4&A5&A6&Ak) (B1&B2&B3&B4&B5&B6&Bk). split_and!; try congruence.
  intros Ha. rewrite Bk, Ak; congruence.
Qed.
Lemma same_frame_claims k r r' : same_frame r r' -> claims k r' = claims k r.
Proof.
  intros (_&_&Ha&_&_&_&Hk). unfold claims. rewrite Ha.
  destruct (String.eqb_spec (r_accounting r) UsageAccountingAdditive) as [E|E]; [|by rewrite !andb_false_r].
  by rewrite Hk.
Qed.

Lemma finalization_frame o r : same_frame r (usageFinalizationArgs o r).
Proof. by split_and!. Qed.
Lemma set_key_frame r k : r_accounting r = UsageAccountingExcluded -> same_frame r (set_key r k).
Proof. intros E. split_and!; try done. by rewrite E. Qed.

(** Every row of the new tables is a row of the old ones in another state. *)
Definition rows_frame (m m' : gmap string UsageRow) : Prop :=
  (forall i r', m' !! i = Some r' -> exists r, m !! i = Some r /\ same_frame r r') /\
  (forall i r, m !! i = Some r -> exists r', m' !! i = Some r' /\ same_frame r r').

Lemma rows_frame_refl m : rows_frame m m.
Proof. split; eauto using same_frame_refl. Qed.
Lemma rows_frame_trans a b c : rows_frame a b -> rows_frame b c -> rows_frame a c.
Proof.
  intros [H1 H2] [H3 H4]. split.
  - intros i r (q & Hq & Fq)%H3. apply H1 in Hq as (t & Ht & Ft). eauto using same_frame_trans.
  - intros i r (q & Hq & Fq)%H2. apply H4 in Hq as (t & Ht & Ft). eauto using same_frame_trans.
Qed.
Lemma update_frame (m : gmap string UsageRow) i r r' : m !! i = Some r -> same_frame r r' -> rows_frame m (<[i:=r']> m).
Proof.
  intros Hi Hf. split; intros j q; destruct (decide (i = j)) as [<-|Hne];
    rewrite ?lookup_insert_eq, ?lookup_insert_ne by done; try by eauto using same_frame_refl.
  - intros [= <-]. eauto.
  - rewrite Hi. intros [= <-]. eauto.
Qed.

Lemma frame_inv s s' : rows_frame (rows s) (rows s') -> store_inv s -> store_inv s'.
Proof.
  intros [Hb Hf] [I1 I2 I3 I4 I5 I6]. split.
  - intros i r Hi. apply Hb in Hi as (q & Hq & F). destruct F as (-> & _). eauto.
  - intros i j r q k Hi Hj Hr Hq. apply Hb in Hi as (r0 & Hi & F), Hj as (q0 & Hj & G).
    rewrite (same_frame_claims _ _ _ F) in Hr. rewrite (same_frame_claims _ _ _ G) in Hq. eauto.
  - intros i r Hi Hs. apply Hb in Hi as (r0 & Hi & (_&->&_&E&->&_)). rewrite E in Hs. eauto.
  - intros i r p Hi Hs. apply Hb in Hi as (r0 & Hi & (_&_&_&->&->&E&_)). rewrite E in Hs.
    destruct (I4 _ _ _ Hi Hs) as (q & Hq & H7 & H8 & H9). apply Hf in Hq as (q' & Hq' & (_&_&_&E1&E2&_)).
    exists q'. rewrite E1, E2. done.
  - intros i j r q p Hi Hj Hr Hq.
    apply Hb in Hi as (r0 & Hi & (_&_&_&_&_&E1&_)), Hj as (q0 & Hj & (_&_&_&_&_&E2&_)).
    rewrite E1 in Hr. rewrite E2 in Hq. eauto.
  - intros i j r q t Hi Hj Hr Hq Nr Nq.
    apply Hb in Hi as (r0 & Hi & (_&_&_&S1&_&E1&_)), Hj as (q0 & Hj & (_&_&_&S2&_&E2&_)).
    rewrite S1 in Hr. rewrite S2 in Hq. rewrite E1 in Nr. rewrite E2 in Nq. eauto.
Qed.

(** ** Insertion keeps the invariant *)

Lemma eq_col_spec o v : eq_col o v = true <-> o = Some v.
Proof. destruct o as [u|]; cbn; [rewrite String.eqb_eq; split; congruence|done]. Qed.
Lemma eq_opt_spec {A} `{EqDecision A} (a b : option A) : eq_opt a b = true <-> a = b /\ is_Some a.
Proof.
  destruct a as [x|], b as [y|]; cbn; rewrite ?bool_decide_eq_true;
    (split; [intros; simplify_eq; eauto|intros [? [? ?]]; simplify_eq; done]).
Qed.
Lemma present_spec {A} (o : option A) : present o = true <-> is_Some o.
Proof. destruct o; split; [by eauto|done|done|by intros [? ?]]. Qed.
Lemma present_None {A} (o : option A) : present o = false <-> o = None.
Proof. by destruct o. Qed.

(** What a unique index excludes, clause by clause. *)
Lemma unique_conflict_false new r : unique_conflict new r = false ->
  (forall t n, r_series r = Some t -> r_series new = Some t -> r_revision r = Some n -> r_revision new <> Some n) /\
  (forall p, r_supersedes r = Some p -> r_supersedes new <> Some p) /\
  (forall t, is_root r = true -> is_root new = true -> r_series r = Some t -> r_series new <> Some t) /\
  (forall k, claims k r = true -> claims k new = false).
Proof.
  unfold unique_conflict. intros [[[HA HB]%orb_false_iff HC]%orb_false_iff HD]%orb_false_iff. split_and!.
  - intros t n E1 E2 E3 E4. rewrite E1, E2, E3, E4 in HA. cbn in HA. by rewrite !bool_decide_true in HA.
  - intros p E1 E2. rewrite E1, E2 in HB. cbn in HB. by rewrite bool_decide_true in HB.
  - intros t E1 E2 E3 E4. rewrite E1, E2, E3, E4 in HC. cbn in HC. by rewrite bool_decide_true in HC.
  - intros k. unfold claims. intros [Hr Ar]%andb_true_iff. apply not_true_is_false. intros [Hn An]%andb_true_iff.
    rewrite Ar, An in HD. apply eq_col_spec in Hr, Hn. rewrite Hr, Hn in HD. cbn in HD.
    by rewrite bool_decide_true in HD.
Qed.

(** What the domain guarantees of a row before it is inserted. *)
Definition row_shape (r : UsageRow) : Prop :=
  (is_Some (r_series r) -> r_scope r = UsageScopeSessionSnapshot /\ exists n, r_revision r = Some n /\ 1 <= n).

Lemma is_root_spec r : row_shape r -> is_Some (r_series r) -> r_supersedes r = None -> is_root r = true.
Proof. intros H Hs E. unfold is_root. destruct (H Hs) as [-> _]. by rewrite E. Qed.

Section InsertRow.
Context (row_checks : UsageRow -> bool).

Lemma insert_row_inv s new s' : store_inv s -> row_shape new -> insert_row row_checks s new = Ok s' ->
  store_inv s' /\ rows s' = <[r_id new := new]> (rows s) /\ rows s !! r_id new = None /\ runs s' = runs s.
Proof.
  intros I Hshape. unfold insert_row. intros H. repeat innermost_split H. injection H as <-.
  apply present_None in E0. rename E0 into Hfresh. rename E1 into Hpre. rename E2 into Huniq.
  assert (Hc : forall i r, rows s !! i = Some r -> unique_conflict new r = false)
    by exact (proj1 (map_any_false _ _) Huniq). clear Huniq.
  split; [|done]. cbn [rows runs].
  assert (Hcase : forall i r, <[r_id new := new]> (rows s) !! i = Some r ->
            (i = r_id new /\ r = new) \/ (i <> r_id new /\ rows s !! i = Some r)).
  { intros i r. destruct (decide (r_id new = i)) as [<-|Hne].
    - rewrite lookup_insert_eq. intros [= <-]. by left.
    - rewrite lookup_insert_ne by done. by right. }
  split; cbn [rows].
  - intros i r [[-> ->]|[_ Hi]]%Hcase; [done|by apply I].
  - intros i j r q k [[-> ->]|[_ Hi]]%Hcase [[-> ->]|[_ Hj]]%Hcase Hr Hq; [done|exfalso|exfalso|exact (inv_additive _ I _ _ _ _ _ Hi Hj Hr Hq)].
    + apply Hc, unique_conflict_false in Hj as (_&_&_&Hk). rewrite (Hk k Hq) in Hr. done.
    + apply Hc, unique_conflict_false in Hi as (_&_&_&Hk). rewrite (Hk k Hr) in Hq. done.
  - intros i r [[-> ->]|[_ Hi]]%Hcase Hs; [by apply Hshape|by eapply (inv_series _ I)].
  - intros i r p [[-> ->]|[_ Hi]]%Hcase Hp.
    + rewrite Hp in Hpre. cbn in Hpre. apply negb_false_iff, map_any_true in Hpre as (q & qr & Hq & Hpred).
      unfold is_predecessor in Hpred. breflect. apply eq_col_spec in H. rewrite Hp in H. injection H as ->.
      rewrite (inv_id _ I _ _ Hq). exists qr. rewrite lookup_insert_ne by (intros E'; rewrite E', Hq in Hfresh; discriminate Hfresh).
      repeat match goal with E : eq_opt _ _ = true |- _ => apply eq_opt_spec in E as [? ?] end. done.
    + destruct (inv_predecessor _ I _ _ _ Hi Hp) as (q & Hq & H7). exists q.
      rewrite lookup_insert_ne by (intros E'; rewrite E', Hq in Hfresh; discriminate Hfresh). exact (conj Hq H7).
  - intros i j r q p [[-> ->]|[_ Hi]]%Hcase [[-> ->]|[_ Hj]]%Hcase Hr Hq; [done|exfalso|exfalso|exact (inv_successor _ I _ _ _ _ _ Hi Hj Hr Hq)].
    + apply Hc, unique_conflict_false in Hj as (_&Hk&_). by apply (Hk p).
    + apply Hc, unique_conflict_false in Hi as (_&Hk&_). by apply (Hk p).
  - intros i j r q t [[-> ->]|[_ Hi]]%Hcase [[-> ->]|[_ Hj]]%Hcase Hr Hq Nr Nq;
      [done|exfalso|exfalso|exact (inv_root _ I _ _ _ _ _ Hi Hj Hr Hq Nr Nq)].
    + pose proof Hj as Hj'. apply Hc, unique_conflict_false in Hj as (_&_&Hk&_).
      refine (Hk t _ _ Hq Hr); apply is_root_spec; eauto; intros Hs; by eapply (inv_series _ I).
    + pose proof Hi as Hi'. apply Hc, unique_conflict_false in Hi as (_&_&Hk&_).
      refine (Hk t _ _ Hr Hq); apply is_root_spec; eauto; intros Hs; by eapply (inv_series _ I).
Qed.
End InsertRow.

(** ** Operations keep the invariant, and rows *)

(** Rows never go, and an attribution comes with its row. *)
Definition grows (s s' : UsageStore) : Prop :=
  (forall i r, rows s !! i = Some r -> exists r', rows s' !! i = Some r' /\ same_frame r r') /\
  (forall i, is_Some (runs s' !! i) -> is_Some (runs s !! i) \/ is_Some (rows s' !! i)).
Definition runs_ok (s : UsageStore) : Prop := forall i, is_Some (runs s !! i) -> is_Some (rows s !! i).

Lemma grows_refl s : grows s s.
Proof. split; [|by left]. intros i r H. eauto using same_frame_refl. Qed.
Lemma grows_trans s t u : grows s t -> grows t u -> grows s u.
Proof.
  intros [H1 R1] [H2 R2]. split.
  - intros i r (q & Hq & F)%H1. apply H2 in Hq as (v & Hv & G). eauto using same_frame_trans.
  - intros i [H%R1|H]%R2; [|by right]. destruct H as [H|[r Hr]]; [by left|right].
    apply H2 in Hr as (v & Hv & _). eauto.
Qed.
Lemma frame_grows s s' : rows_frame (rows s) (rows s') -> runs s' = runs s -> grows s s'.
Proof. intros [_ H] E. split; [done|]. intros i. rewrite E. by left. Qed.
Lemma grows_runs_ok s s' : grows s s' -> runs_ok s -> runs_ok s'.
Proof. intros [H R] Hok i [[r Hr]%Hok|Hi]%R; [|done]. apply H in Hr as (v & Hv & _). eauto. Qed.

(** Validity, check by check. *)
Lemma descriptor_valid_checks d : descriptor_validate d = None ->
  check_scope d = None /\ check_predecessor d = None /\ check_run d = None /\ check_key d = None.
Proof.
  unfold descriptor_validate. rewrite first_err_None, !Forall_cons. tauto.
Qed.
Lemma valid_descriptor o : valid o -> descriptor_validate (descriptor o) = None.
Proof. intros H%valid_spec. tauto. Qed.

Lemma check_scope_shape d : check_scope d = None ->
  if scope d =?s UsageScopeSessionSnapshot
  then runIdentity d = None /\ exclusivityKey d = None /\ accounting d = UsageAccountingLatestSnapshot /\
       snapshotSeries d <> "" /\ 1 <= snapshotRevision d
  else snapshotSeries d = "" /\ snapshotRevision d = 0 /\ supersedesID d = None.
Proof.
  unfold check_scope. destruct (_ =?s _).
  - rewrite first_err_None, !Forall_cons, !fails_None. intros (H1 & H2 & H3 & _).
    apply orb_false_iff in H3 as [[H3 H4]%orb_false_iff H5]. breflect.
    split_and!; [by apply present_None..|done|done|lia].
  - destruct (_ || _) eqn:E; [done|]. rewrite fails_None. intros H%present_None. breflect. auto.
Qed.

Lemma args_shape o : valid o -> row_shape (usageObservationArgs o).
Proof.
  intros Hv [t Ht]. apply valid_descriptor, descriptor_valid_checks, proj1, check_scope_shape in Hv.
  cbn in *. unfold nullableString in Ht.
  destruct (String.eqb_spec (scope (descriptor o)) UsageScopeSessionSnapshot) as [->|E].
  - destruct Hv as (_&_&_&_&Hr). split; [done|]. destruct (Z.ltb_spec 0 (snapshotRevision (descriptor o))); [|lia].
    eauto.
  - destruct Hv as (Hs&_). by rewrite Hs in Ht.
Qed.

Section Record.
Context (parse_layout : string -> result Time) (row_checks : UsageRow -> bool).
Let record := recordUsageObservation parse_layout row_checks.

Lemma insert_inv s o s' : valid o -> store_inv s -> insertUsageObservation row_checks s o = Ok s' ->
  store_inv s' /\ grows s s'.
Proof.
  intros Hv I. unfold insertUsageObservation. destruct (insert_row _ _ _) as [s1|] eqn:E; [|done]. cbn.
  apply insert_row_inv in E as (I1 & Hr & Hnew & Hruns); [|done|by apply args_shape].
  assert (Hg : grows s s1).
  { split; [|intros i; rewrite Hruns; by left]. intros i r Hi. exists r. split; [|apply same_frame_refl]. rewrite Hr, lookup_insert_ne; [done|].
    intros Heq. by rewrite Heq, Hi in Hnew. }
  destruct (runIdentity _); [|by intros [= <-]].
  destruct (present _); [done|]. intros [= <-]. split; [eapply frame_inv; [|exact I1]; apply rows_frame_refl|].
  destruct Hg as [Hg Hgr]. split; [done|]. cbn [rows runs]. intros i.
  destruct (decide (observationID (descriptor o) = i)) as [<-|Hne]; [|rewrite lookup_insert_ne by done; apply Hgr].
  intros _. right. rewrite Hr. change (r_id (usageObservationArgs o)) with (observationID (descriptor o)).
  rewrite lookup_insert_eq. eauto.
Qed.

Lemma update_inv s o s' : store_inv s -> updateFinalizedUsageObservation row_checks s o = Ok s' ->
  store_inv s' /\ grows s s'.
Proof.
  unfold updateFinalizedUsageObservation. intros I H. ok_inv H.
  pose proof (update_frame _ _ _ _ E (finalization_frame o u)) as F.
  split; [exact (frame_inv _ (mkStore _ (runs s)) F I)|exact (frame_grows s (mkStore _ (runs s)) F eq_refl)].
Qed.

Lemma attach_inv s id key s' : store_inv s -> attachLegacyUsageExclusivityKey row_checks s id key = Ok s' ->
  store_inv s' /\ grows s s'.
Proof.
  unfold attachLegacyUsageExclusivityKey. intros I H. ok_inv H; try (split; [done|apply grows_refl]).
  breflect. pose proof (update_frame _ _ _ _ E (set_key_frame u key ltac:(done))) as F.
  split; [exact (frame_inv _ (mkStore _ (runs s)) F I)|exact (frame_grows s (mkStore _ (runs s)) F eq_refl)].
Qed.

Lemma record_inv s o s' t : valid o -> store_inv s -> record s o = Ok (s', t) -> store_inv s' /\ grows s s'.
Proof.
  intros Hv I. unfold record, recordUsageObservation.
  destruct (findUsageObservation _ _ _) as [[existing|]|]; cbn [wrap_err]; [| |done].
  - destruct (Reconcile (Some existing) (Some o)) as [o' [tr|]]; [|done]. destruct (tr =?s _).
    + destruct o' as [o'|]; [|done]. destruct (updateFinalizedUsageObservation _ _ _) eqn:E; [|done].
      cbn. intros [= <- <-]. by eapply update_inv.
    + intros [= <- <-]. split; [done|apply grows_refl].
  - match goal with |- match ?c with _ => _ end = _ -> _ => destruct c; [|done] end.
    destruct (insertUsageObservation _ _ _) eqn:E; [|done]. cbn. intros [= <- <-]. by eapply insert_inv.
Qed.

(** One call of the repository, with whatever it is given. *)
Inductive store_step : UsageStore -> UsageStore -> Prop :=
| step_record s o : valid o -> store_step s (fst (Record_ parse_layout row_checks s (Some o)))
| step_exclusive s key a e : valid a -> valid e ->
    store_step s (fst (RecordExclusive parse_layout row_checks s key (Some a) (Some e))).

Lemma step_inv s s' : store_inv s -> store_step s s' -> store_inv s' /\ grows s s'.
Proof.
  intros I H. inversion H as [s0 o Hv|s0 key a e Ha He]; subst; clear H.
  - unfold Record_, recordTransaction. fold record. destruct (record s o) as [[s1 t]|] eqn:E; cbn.
    + exact (record_inv _ _ _ _ Hv I E).
    + split; [done|apply grows_refl].
  - unfold RecordExclusive, recordTransaction.
    destruct (UsageExclusivityKeyFrom key) as [k|]; [|split; [done|apply grows_refl]].
    destruct (ValidateAccountingAlternative _ _); [split; [done|apply grows_refl]|].
    destruct (negb _); [split; [done|apply grows_refl]|].
    destruct (findUsageExclusivityWinner _ _) as [w|]; [|split; [done|apply grows_refl]].
    destruct (select_alternative _ _ _ _ _) as [o|] eqn:Es; [|split; [done|apply grows_refl]].
    assert (Ho : valid o) by (unfold select_alternative in Es; ok_inv Es; done).
    destruct (attachLegacyUsageExclusivityKey _ _ _ _) as [s1|] eqn:Ea; [|split; [done|apply grows_refl]].
    apply attach_inv in Ea as [I1 G1]; [|done]. fold record.
    destruct (record s1 o) as [[s2 t]|] eqn:E; cbn; [|split; [done|apply grows_refl]].
    destruct (record_inv _ _ _ _ Ho I1 E) as [I2 G2]. eauto using grows_trans.
Qed.

Lemma reachable_inv s : star store_step empty_store s -> store_inv s.
Proof.
  intros H. refine (star_invariant _ store_inv _ _ _ H empty_inv). intros; by eapply step_inv.
Qed.
Lemma reachable_grows s s' : store_inv s -> star store_step s s' -> grows s s'.
Proof.
  intros I H. refine (star_relation _ store_inv grows grows_refl grows_trans _ _ _ _ H I); intros; by eapply step_inv.
Qed.
End Record.

(** ** Snapshot series are chains *)

Section Chains.
Context (s : UsageStore) (I : store_inv s) (t : string).

Definition member (i : string) (r : UsageRow) : Prop := rows s !! i = Some r /\ r_series r = Some t.
Definition succ (i j : string) : Prop := exists r, rows s !! j = Some r /\ r_supersedes r = Some i.

Lemma member_revision i r : member i r -> exists n, r_revision r = Some n /\ 1 <= n.
Proof. intros [Hi Hs]. apply (inv_series _ I _ _ Hi). by rewrite Hs. Qed.

(** A member is the root of its series or has a predecessor in it. *)
Lemma member_pred i r n : member i r -> r_revision r = Some n ->
  r_supersedes r = None \/
  exists p q m, r_supersedes r = Some p /\ member p q /\ r_revision q = Some m /\ 1 <= m < n.
Proof.
  intros [Hi Hs] Hn. destruct (r_supersedes r) as [p|] eqn:E; [right|by left].
  destruct (inv_predecessor _ I _ _ _ Hi E) as (q & Hq & Hqs & Heq & Hlt).
  assert (Hm : member p q) by (split; congruence).
  destruct (member_revision _ _ Hm) as (m & Em & Hm1). exists p, q, m. split_and!; try done.
  rewrite Em, Hn in Hlt. cbn in Hlt. by breflect.
Qed.

(** The root reaches every member. *)
Lemma root_reaches i r : member i r -> r_supersedes r = None ->
  forall j q, member j q -> star succ i j.
Proof.
  intros Hi Hr j q Hj. destruct (member_revision _ _ Hj) as (n & En & Hn).
  assert (H0 : 0 <= n) by lia. revert n H0 j q Hj En Hn.
  apply (Z_lt_induction (fun n => forall j q, member j q -> r_revision q = Some n -> 1 <= n -> star succ i j)).
  intros n IH j q Hj En Hn. destruct (member_pred _ _ _ Hj En) as [E|(p & pq & m & E & Hp & Em & Hm)].
  - destruct Hi as [Hi Si], Hj as [Hj Sj]. rewrite (inv_root _ I _ _ _ _ _ Hi Hj Si Sj Hr E). constructor.
  - eapply star_trans; [eapply (IH m); [lia|exact Hp|done|lia]|].
    apply star_one. exists q. split; [apply Hj|done].
Qed.

(** A successor is the only one. *)
Lemma succ_unique i j k : succ i j -> succ i k -> j = k.
Proof. intros (r & Hj & Er) (q & Hk & Eq). exact (inv_successor _ I _ _ _ _ _ Hj Hk Er Eq). Qed.

(** Any two members are on one chain. *)
Lemma comparable i r j q : member i r -> member j q -> star succ i j \/ star succ j i.
Proof.
  intros Hi. destruct (member_revision _ _ Hi) as (n & En & Hn).
  assert (H0 : 0 <= n) by lia. revert n H0 i r Hi En Hn.
  apply (Z_lt_induction (fun n => forall i r, member i r -> r_revision r = Some n -> 1 <= n ->
           member j q -> star succ i j \/ star succ j i)).
  intros n IH i r Hi En Hn Hj. destruct (member_pred _ _ _ Hi En) as [E|(p & pr & m & E & Hp & Em & Hm)].
  - left. by eapply root_reaches.
  - assert (Hpi : succ p i) by (exists r; split; [apply Hi|done]).
    destruct (IH m ltac:(lia) p pr Hp Em ltac:(lia) Hj) as [H|H].
    + inversion H as [|? z ? Hz Hzj]; subst; [right; by apply star_one|].
      left. by rewrite (succ_unique _ _ _ Hpi Hz).
    + right. eapply star_trans; [exact H|by apply star_one].
Qed.

Lemma head_no_succ i r j : rows s !! i = Some r -> is_head s t r = true -> ~ succ i j.
Proof.
  intros Hi Hh (q & Hq & Eq). unfold is_head in Hh. apply andb_true_iff in Hh as [_ Hh].
  apply negb_true_iff in Hh. rewrite (inv_id _ I _ _ Hi) in Hh.
  pose proof (proj1 (map_any_false _ _) Hh _ _ Hq) as Hn. cbn beta in Hn. rewrite Eq in Hn. cbn in Hn.
  by rewrite String.eqb_refl in Hn.
Qed.

Lemma head_member i r : rows s !! i = Some r -> is_head s t r = true -> member i r.
Proof. unfold is_head. intros Hi [H _]%andb_true_iff. apply eq_col_spec in H. by split. Qed.

Lemma head_unique i j r q : rows s !! i = Some r -> rows s !! j = Some q ->
  is_head s t r = true -> is_head s t q = true -> i = j.
Proof.
  intros Hi Hj Hr Hq. destruct (comparable i r j q) as [H|H]; [by apply head_member..| |].
  - inversion H as [|? z ? Hz _]; subst; [done|]. by apply (head_no_succ i r z) in Hz.
  - inversion H as [|? z ? Hz _]; subst; [done|]. by apply (head_no_succ j q z) in Hz.
Qed.

(** A member with the largest revision is a head. *)
Lemma head_exists i r : member i r -> exists h hr, rows s !! h = Some hr /\ is_head s t hr = true.
Proof.
  intros Hi. set (revision r := default 0 (r_revision r)).
  set (ms := List.filter (fun kr => eq_col (r_series (snd kr)) t) (map_to_list (rows s))).
  assert (Hms : forall kr, In kr ms <-> member (fst kr) (snd kr)).
  { intros [k kr]. unfold ms. rewrite filter_In, <-list_elem_of_In, elem_of_map_to_list. cbn.
    by rewrite eq_col_spec. }
  assert (Hmax : exists m, In m ms /\ forall kr, In kr ms -> revision (snd kr) <= revision (snd m)).
  { assert (Hne : ms <> []) by (intros E; pose proof (proj2 (Hms (i, r)) Hi) as Hin; by rewrite E in Hin).
    clear Hms Hi. clearbody ms. induction ms as [|a l IH]; [done|]. destruct l as [|b l].
    - exists a. split; [by left|]. intros kr [->|[]]. lia.
    - destruct IH as (m & Hm & Hle); [done|].
      destruct (Z_le_gt_dec (revision (snd a)) (revision (snd m))) as [Hc|Hc].
      + exists m. split; [by right|]. intros kr [->|H]; [done|auto].
      + exists a. split; [by left|]. intros kr [->|H]; [lia|]. specialize (Hle _ H). lia. }
  destruct Hmax as ([h hr] & Hh & Hle). apply Hms in Hh. exists h, hr. split; [apply Hh|].
  unfold is_head. apply andb_true_iff. split; [apply eq_col_spec, Hh|]. apply negb_true_iff.
  apply map_any_false. intros j q Hj. apply not_true_is_false. intros Hs%eq_col_spec.
  destruct Hh as [Hh Hst]. cbn in Hh, Hst. rewrite (inv_id _ I _ _ Hh) in Hs.
  destruct (inv_predecessor _ I _ _ _ Hj Hs) as (q' & Hq' & _ & Heq & Hlt).
  rewrite Hh in Hq'. injection Hq' as <-. rewrite Hst in Heq.
  specialize (Hle (j, q) ltac:(apply Hms; by split)). unfold revision in Hle. cbn in Hle.
  unfold lt_opt in Hlt. destruct (r_revision hr), (r_revision q); try done. cbn in Hle. breflect. lia.
Qed.
End Chains.

(** ** Queries over a store that satisfies the invariant *)

Lemma select_spec s cond i r : In (i, r) (select s cond) <-> rows s !! i = Some r /\ cond r = true.
Proof. unfold select. by rewrite filter_In, <-list_elem_of_In, elem_of_map_to_list. Qed.

(** A condition that one key at most satisfies selects one row at most. *)
Lemma select_unique s cond :
  (forall i j r q, rows s !! i = Some r -> rows s !! j = Some q -> cond r = true -> cond q = true -> i = j) ->
  select s cond = [] \/ exists kr, select s cond = [kr].
Proof.
  intros H. assert (Hnd : List.NoDup (select s cond)).
  { unfold select. apply List.NoDup_filter, NoDup_ListNoDup, NoDup_map_to_list. }
  destruct (select s cond) as [|[i r] [|[j q] l]] eqn:E; [by left|by eauto|exfalso].
  assert (Hi : In (i, r) (select s cond)) by (rewrite E; by left).
  assert (Hj : In (j, q) (select s cond)) by (rewrite E; by right; left).
  apply select_spec in Hi as [Hi Ci], Hj as [Hj Cj].
  assert (i = j) as -> by (by eapply H). rewrite Hi in Hj. injection Hj as ->.
  inversion Hnd as [|? ? Hn _]. apply Hn. by left.
Qed.

(** ** Rows read back *)

(** A timestamp whose text keeps it: no monotonic reading, four-digit year. *)
Definition storable (t : Time) : Prop := wall_only t /\ 0 <= Year (UTC t) <= 9999.

(** An observation made of parsed identifiers and constructed values. *)
Record normal (o : UsageObservation) : Prop := {
  n_id : UsageObservationIDFrom (observationID (descriptor o)) = Ok (observationID (descriptor o));
  n_session : SessionIDFrom (sessionID (descriptor o)) = Ok (sessionID (descriptor o));
  n_source : let s := source (descriptor o) in
             UsageSourceOf (host s) (name s) (version s) (provider s) (model s) = Ok s;
  n_series : TrimSpace (snapshotSeries (descriptor o)) = snapshotSeries (descriptor o);
  n_accounting : scope (descriptor o) <> UsageScopeSessionSnapshot ->
    accounting (descriptor o) = UsageAccountingAdditive \/ accounting (descriptor o) = UsageAccountingExcluded;
  n_predecessor : forall p, supersedesID (descriptor o) = Some p -> UsageObservationIDFrom p = Ok p;
  n_key : forall k, exclusivityKey (descriptor o) = Some k -> UsageExclusivityKeyFrom k = Ok k;
  n_counters : wf_counters (counters o);
  n_cost : wf_cost (cost o);
  n_observed : storable (observedAt (descriptor o));
  n_final : forall t, finalizedAt o = Some t -> storable t }.

(** What is read back: the same, with its times in UTC. *)
Definition stored_descriptor (d : UsageObservationDescriptor) : UsageObservationDescriptor :=
  mkDescriptor (observationID d) (sessionID d) (source d) (scope d) (accounting d) (UTC (observedAt d))
    (snapshotSeries d) (snapshotRevision d) (supersedesID d) (runIdentity d) (exclusivityKey d).
Definition stored (o : UsageObservation) : UsageObservation :=
  mkObservation (stored_descriptor (descriptor o)) (status o) (counters o) (cost o) (terminalCode o)
    (option_map UTC (finalizedAt o)).

Lemma text_nullable s : text (nullableString s) = s.
Proof. unfold nullableString. by destruct (String.eqb_spec s ""). Qed.

Lemma checked_ok d : descriptor_validate d = None -> checked d = Ok d.
Proof. unfold checked. by intros ->. Qed.

(** A call or run stays valid without its run and key. *)
Definition attributed (d : UsageObservationDescriptor) (run : option RunIdentity) (key : option string) :=
  mkDescriptor (observationID d) (sessionID d) (source d) (scope d) (accounting d) (observedAt d)
    (snapshotSeries d) (snapshotRevision d) (supersedesID d) run key.
Lemma attributed_valid d run key : descriptor_validate d = None ->
  (scope d =?s UsageScopeSessionSnapshot) = false ->
  (run = None \/ run = runIdentity d) -> (key = None \/ key = exclusivityKey d) ->
  descriptor_validate (attributed d run key) = None.
Proof.
  unfold descriptor_validate. rewrite !first_err_None, !Forall_cons. intros H Hs Hr Hk.
  destruct H as (H1&H2&H3&H4&H5&H6&H7&H8&H9&H10&_). split_and!; try done.
  - unfold check_scope in *. cbn. by rewrite Hs in *.
  - unfold check_run in *. cbn. by destruct Hr as [-> | ->].
  - unfold check_key in *. cbn. by destruct Hk as [-> | ->].
Qed.

Lemma restore_values_ok vs index : Forall wf_value vs ->
  restore_values (map (fun v => (state v, Value v)) vs) index = Ok vs.
Proof.
  intros H. revert index. induction H as [|v vs Hv _ IH]; intros index; [done|]. cbn [map restore_values].
  rewrite (proj2 (UsageValueFrom_exact (state v) (Value v) v)) by done. by rewrite IH.
Qed.
Lemma restore_counters_ok c : wf_counters c ->
  restoreUsageCounters (map (fun v => (state v, Value v)) (values c)) = Ok c.
Proof.
  intros H. unfold restoreUsageCounters. cbn [Z.mul]. rewrite (restore_values_ok _ _ H).
  replace (negb _) with false by done. cbn [values]. by rewrite UsageCountersOf_wf.
Qed.

Lemma cost_columns c : wf_cost c ->
  let when_known (s : option string) := match AmountMicros c with Some _ => s | None => None end in
  UsageCostFrom (cost_state c) (AmountMicros c) (text (when_known (Some (currency c))))
    (text (when_known (Some (origin c)))) (text (when_known (nullableString (priceTableVersion c)))) = Ok c.
Proof.
  intros H. pose proof (UsageCostFrom_columns c H) as Hc. destruct H as [[-> | ->]|(Hs & _)]; [done|done|].
  unfold AmountMicros in *. rewrite Hs in *. cbn in *. by rewrite text_nullable.
Qed.

(** The constructor of a call or run, from the parts of a valid descriptor. *)
Lemma new_descriptor_ok o : valid o -> (scope (descriptor o) =?s UsageScopeSessionSnapshot) = false ->
  (scope (descriptor o) <> UsageScopeSessionSnapshot ->
   accounting (descriptor o) = UsageAccountingAdditive \/ accounting (descriptor o) = UsageAccountingExcluded) ->
  let d := descriptor o in
  NewUsageObservationDescriptor (observationID d) (sessionID d) (source d) (scope d) (accounting d) (UTC (observedAt d))
  = Ok (attributed (stored_descriptor d) None None).
Proof.
  intros Hv Es Ha d. pose proof (valid_descriptor _ Hv : descriptor_validate (stored_descriptor d) = None) as Hd.
  assert (Hsc : scope d = UsageScopeCall \/ scope d = UsageScopeRun).
  { unfold descriptor_validate in Hd. rewrite first_err_None, !Forall_cons, !err_of_wrap_None in Hd.
    destruct Hd as (_&_&_&[sc H]&_). unfold UsageScopeFrom in H. ok_inv H. breflect. cbn in E. fold d in Es.
    apply elem_of_cons in E as [E|E]; [by left|]. apply elem_of_cons in E as [E|E]; [by right|].
    apply list_elem_of_singleton in E. by rewrite E in Es. }
  pose proof (descriptor_valid_checks _ Hd) as (Hshape & _). apply check_scope_shape in Hshape. cbn in Hshape.
  fold d in Es. rewrite Es in Hshape. destruct Hshape as (Hse & Hrev & Hsup).
  unfold NewUsageObservationDescriptor.
  replace ((scope d <>?s UsageScopeCall) && (scope d <>?s UsageScopeRun)) with false
    by (by destruct Hsc as [-> | ->]).
  replace ((accounting d <>?s UsageAccountingAdditive) && (accounting d <>?s UsageAccountingExcluded)) with false.
  - replace (mkDescriptor _ _ _ _ _ _ _ _ _ _ _) with (attributed (stored_descriptor d) None None).
    + apply checked_ok, attributed_valid; auto.
    + unfold attributed. cbn. by rewrite Hse, Hrev, Hsup.
  - destruct Ha as [Ha|Ha]; [by apply String.eqb_neq|fold d in Ha; by rewrite Ha..].
Qed.

Section RoundTrip.
Context (parse_layout : string -> result Time).

Lemma Parse_format t : storable t -> time_Parse parse_layout (formatTimestamp t) = Ok (UTC t).
Proof. intros [_ Hy]. unfold formatTimestamp. by rewrite time_Parse_format. Qed.

Lemma restore_code_ok o : valid o ->
  restore_option "failed to restore usage terminal code: %w" UsageTerminalCodeFrom (terminalCode o) = Ok (terminalCode o).
Proof.
  intros (_ & Hs & _ & _ & Hp & Hf)%valid_spec. destruct (terminalCode o) as [code|] eqn:E; [|done]. cbn [restore_option].
  destruct Hs as [Hs|Hs].
  - specialize (Hp Hs). unfold check_pending in Hp. rewrite first_err_None, !Forall_cons, !fails_None, E in Hp.
    by destruct Hp as (_&_&?&_).
  - specialize (Hf Hs). unfold check_final in Hf. rewrite first_err_None, !Forall_cons, E, !err_of_wrap_None in Hf.
    destruct Hf as (_&[c Hc]&_). unfold UsageTerminalCodeFrom in *. by destruct (slices_contains _ _).
Qed.
Lemma restore_final_ok o : normal o ->
  restore_option "invalid usage finalized_at: %w" (time_Parse parse_layout) (option_map formatTimestamp (finalizedAt o))
  = Ok (option_map UTC (finalizedAt o)).
Proof.
  intros N. pose proof (n_final _ N) as Nf. destruct (finalizedAt o) as [t|]; [|done].
  cbn [option_map restore_option]. by rewrite (Parse_format t (Nf t eq_refl)).
Qed.

Lemma restore_descriptor_ok o : valid o -> normal o ->
  let d := descriptor o in
  (let! d0 := restore_descriptor (usageObservationArgs o) (runIdentity d) (observationID d) (sessionID d) (source d)
                (UTC (observedAt d)) (scope d) (accounting d) in
   restore_key (usageObservationArgs o) d0) = Ok (stored_descriptor d).
Proof.
  intros Hv N d. pose proof (valid_descriptor _ Hv : descriptor_validate (stored_descriptor d) = None) as Hd.
  pose proof (descriptor_valid_checks _ Hd) as (Hsc & _ & Hrun & Hkey). apply check_scope_shape in Hsc.
  unfold restore_descriptor, restore_key. cbn in Hsc.
  change (r_supersedes (usageObservationArgs o)) with (supersedesID d).
  change (r_key (usageObservationArgs o)) with (exclusivityKey d).
  change (r_series (usageObservationArgs o)) with (nullableString (snapshotSeries d)).
  change (r_revision (usageObservationArgs o))
    with (if 0 <? snapshotRevision d then Some (snapshotRevision d) else None).
  destruct (scope d =?s UsageScopeSessionSnapshot) eqn:Es.
  - destruct Hsc as (Hr & Hk & Ha & Hne & Hrev). unfold restore_option.
    replace (match supersedesID d with Some s => _ | None => Ok None end) with (Ok (supersedesID d) : result (option string))
      by (destruct (supersedesID d) eqn:Ep; [by rewrite (n_predecessor _ N _ Ep)|done]).
    destruct (Z.ltb_spec 0 (snapshotRevision d)); [|lia]. rewrite text_nullable.
    unfold NewUsageSnapshotDescriptor. rewrite (n_series _ N : TrimSpace (snapshotSeries d) = _).
    replace (mkDescriptor _ _ _ _ _ _ _ _ _ _ _) with (stored_descriptor d).
    + rewrite checked_ok by done. cbn [wrap_err]. by rewrite Hk.
    + unfold stored_descriptor. rewrite Hr, Hk, Ha. by apply String.eqb_eq in Es as ->.
  - destruct Hsc as (Hse & Hrev & Hsup).
    assert (Hpart : forall run key, (run = None \/ run = runIdentity d) -> (key = None \/ key = exclusivityKey d) ->
              checked (attributed (stored_descriptor d) run key) = Ok (attributed (stored_descriptor d) run key))
      by (intros; by apply checked_ok, attributed_valid).
    pose proof (new_descriptor_ok o Hv Es (n_accounting _ N)) as Hn. cbv zeta in Hn. fold d in Hn.
    assert (Hsd : stored_descriptor d = attributed (stored_descriptor d) (runIdentity d) (exclusivityKey d)) by done.
    assert (Hrunok : restore_run (runIdentity d) (observationID d) (sessionID d) (source d)
                (UTC (observedAt d)) (scope d) (accounting d) = Ok (attributed (stored_descriptor d) (runIdentity d) None)).
    { unfold restore_run. destruct (runIdentity d) as [run|] eqn:Er; [|by rewrite Hn].
      unfold check_run in Hrun. cbn [runIdentity stored_descriptor] in Hrun. rewrite Er in Hrun.
      rewrite first_err_None, !Forall_cons, !fails_None in Hrun. destruct Hrun as (Hid & _).
      destruct (RunIdentityFrom _ _) as [v|]; [|done]. breflect. subst v.
      unfold NewUsageObservationDescriptorWithRunIdentity. rewrite Hn.
      change (with_run (attributed (stored_descriptor d) None None) run)
        with (attributed (stored_descriptor d) (Some run) None).
      rewrite Hpart; auto. }
    rewrite Hrunok. clear Hrunok. pose proof (n_key _ N) as Nk. fold d in Nk.
    destruct (exclusivityKey d) as [k|]; [|by rewrite Hsd].
    rewrite (Nk k eq_refl). cbn [wrap_err]. unfold WithExclusivityKey. rewrite (Nk k eq_refl).
    change (with_key (attributed (stored_descriptor d) (runIdentity d) None) k)
      with (attributed (stored_descriptor d) (runIdentity d) (Some k)).
    rewrite Hpart by auto. by rewrite Hsd.
Qed.

(** Reading an instant back in UTC keeps an observation valid. *)
Lemma stored_valid o : valid o -> normal o -> valid (stored o).
Proof.
  intros Hv N. apply valid_spec in Hv as (Hd & Hs & Hc & Hco & Hp & Hf). apply valid_spec.
  split_and!; [exact Hd|exact Hs|exact Hc|exact Hco| |].
  - intros E. specialize (Hp E). unfold check_pending in *. rewrite first_err_None, !Forall_cons in *.
    destruct Hp as (H1 & H2 & H3 & H4 & _). split_and!; try done. cbn. by destruct (finalizedAt o).
  - intros E. specialize (Hf E). unfold check_final in *. rewrite first_err_None, !Forall_cons in *.
    destruct Hf as (H1 & H2 & H3 & _). split_and!; try done. cbn.
    pose proof (n_final _ N) as Nf. destruct (finalizedAt o) as [t|]; [|done]. cbn.
    destruct (Nf t eq_refl) as [Hw _]. rewrite fails_None in *. rewrite <-H3.
    f_equal. rewrite !Before_wall by done. done.
Qed.

(** The state columns of an observation are read back beside whatever
    descriptor makes a valid observation of them. *)
Definition restored (d : UsageObservationDescriptor) (o : UsageObservation) : UsageObservation :=
  mkObservation d (status o) (counters o) (cost o) (terminalCode o) (option_map UTC (finalizedAt o)).

Lemma scan_state_args o r d : valid o -> normal o -> valid (restored d o) ->
  scan_state parse_layout (usageFinalizationArgs o r) d = Ok (restored d o).
Proof.
  intros Hv N Hr. pose proof Hv as (_ & Hs & _)%valid_spec. set (row := usageFinalizationArgs o r). unfold scan_state.
  change (r_counters row) with (map (fun v => (state v, Value v)) (values (counters o))).
  rewrite (restore_counters_ok _ (n_counters _ N)). cbn [wrap_err].
  pose proof (cost_columns _ (n_cost _ N)) as Hcost. cbv zeta in Hcost.
  change (UsageCostFrom (r_cost_state row) (r_cost_amount row) (text (r_cost_currency row)) (text (r_cost_origin row))
            (text (r_price_table row))) with
    (UsageCostFrom (cost_state (cost o)) (AmountMicros (cost o))
       (text match AmountMicros (cost o) with Some _ => Some (currency (cost o)) | None => None end)
       (text match AmountMicros (cost o) with Some _ => Some (origin (cost o)) | None => None end)
       (text match AmountMicros (cost o) with Some _ => nullableString (priceTableVersion (cost o)) | None => None end)).
  rewrite Hcost. cbn [wrap_err]. change (r_status row) with (status o).
  replace (UsageObservationStatusFrom (status o)) with (Ok (status o) : result string)
    by (by destruct Hs as [-> | ->]). cbn [wrap_err].
  change (r_code row) with (terminalCode o). change (r_finalized_at row) with (option_map formatTimestamp (finalizedAt o)).
  rewrite (restore_code_ok o Hv), (restore_final_ok o N).
  unfold UsageObservationOf. change (mkObservation _ _ _ _ _ _) with (restored d o). by rewrite Hr.
Qed.

Lemma scan_descriptor_args o : valid o -> normal o ->
  scan_descriptor parse_layout (usageObservationArgs o) (runIdentity (descriptor o)) = Ok (stored_descriptor (descriptor o)).
Proof.
  intros Hv N. pose proof (restore_descriptor_ok o Hv N) as Hrd. cbv zeta in Hrd.
  pose proof (valid_descriptor _ Hv) as Hd.
  unfold descriptor_validate in Hd. rewrite first_err_None, !Forall_cons, !err_of_wrap_None in Hd.
  destruct Hd as (_&_&_&[sc Hsc]&[acc Hacc]&_).
  assert (sc = scope (descriptor o)) as -> by (unfold UsageScopeFrom in Hsc; by ok_inv Hsc).
  assert (acc = accounting (descriptor o)) as -> by (unfold UsageAccountingFrom in Hacc; by ok_inv Hacc).
  set (d := descriptor o) in *. set (r := usageObservationArgs o) in *. unfold scan_descriptor.
  change (r_id r) with (observationID d). rewrite (n_id _ N : UsageObservationIDFrom (observationID d) = _). cbn [wrap_err].
  change (r_session r) with (sessionID d). rewrite (n_session _ N : SessionIDFrom (sessionID d) = _). cbn [wrap_err].
  change (r_host r) with (host (source d)). change (r_source_name r) with (name (source d)).
  change (r_source_version r) with (version (source d)).
  change (r_provider r) with (nullableString (provider (source d))).
  change (r_model r) with (nullableString (model (source d))). rewrite !text_nullable.
  pose proof (n_source _ N) as Nsrc. cbv zeta in Nsrc. fold d in Nsrc. rewrite Nsrc. cbn [wrap_err].
  change (r_observed_at r) with (formatTimestamp (observedAt d)). rewrite (Parse_format (observedAt d) (n_observed _ N)).
  cbn [wrap_err]. change (r_scope r) with (scope d). rewrite Hsc. cbn [wrap_err].
  change (r_accounting r) with (accounting d). rewrite Hacc. cbn [wrap_err].
  by destruct (restore_descriptor _ _ _ _ _ _ _ _) as [d0|].
Qed.

(** A recorded observation is read back as it was, with its times in UTC. *)
Lemma scan_args o : valid o -> normal o ->
  scanUsageObservation parse_layout (usageObservationArgs o) (runIdentity (descriptor o)) = Ok (stored o).
Proof.
  intros Hv N. unfold scanUsageObservation. rewrite (scan_descriptor_args o Hv N).
  unfold usageObservationArgs. cbv zeta. by rewrite (scan_state_args o _ _ Hv N (stored_valid o Hv N)).
Qed.
End RoundTrip.

(** ** Replays *)

Lemma Equal_UTC t : Equal (UTC t) t = true.
Proof. by rewrite (Equal_wall _ _ (wall_only_UTC t)), Z.eqb_refl. Qed.

Lemma replay_self d o : valid o -> equivalent d (descriptor o) = true ->
  Reconcile (Some (restored d o)) (Some o) = (Some (restored d o), Ok UsageObservationTransitionAlreadyApplied).
Proof.
  intros (_&Hs&_)%valid_spec He. unfold Reconcile. cbn [descriptor status restored]. rewrite He.
  destruct Hs as [-> | ->]; [done|]. cbn -[same_terminal].
  replace (same_terminal _ _) with true; [done|]. unfold same_terminal. cbn [counters cost terminalCode finalizedAt restored].
  rewrite !bool_decide_true, String.eqb_refl by done. symmetry. cbn [andb].
  destruct (finalizedAt o); [apply Equal_UTC|done].
Qed.

Lemma reconcile_applied e o e' : Reconcile (Some e) (Some o) = (e', Ok UsageObservationTransitionApplied) ->
  e' = Some (set_final e o) /\ is_final o = true /\ equivalent (descriptor e) (descriptor o) = true.
Proof.
  unfold Reconcile, is_final, UsageObservationTransitionApplied, UsageObservationTransitionAlreadyApplied.
  destruct (equivalent _ _); [|done]. cbn [negb]. intros H.
  repeat innermost_split H; try discriminate H. injection H as <-. breflect. split_and!; [done|by apply String.eqb_eq|done].
Qed.

Section Replay.
Context (parse_layout : string -> result Time) (row_checks : UsageRow -> bool).
Context (parse_wall : forall v t, parse_layout v = Ok t -> wall_only t).
Let record := recordUsageObservation parse_layout row_checks.

Lemma Parse_wall v t : time_Parse parse_layout v = Ok t -> wall_only t.
Proof.
  unfold time_Parse. destruct (parse_strict (explode v)) as [u|] eqn:E; [|apply parse_wall].
  intros [= <-]. unfold parse_strict in E. repeat innermost_split E. by injection E as <-.
Qed.

Lemma restore_descriptor_observed r run id sid src at_ sc acc d :
  restore_descriptor r run id sid src at_ sc acc = Ok d -> observedAt d = at_.
Proof.
  unfold restore_descriptor, restore_run, NewUsageSnapshotDescriptor, NewUsageObservationDescriptorWithRunIdentity,
    NewUsageObservationDescriptor, checked, wrap_err. intros H. ok_inv H; done.
Qed.
Lemma restore_key_observed r d d' : restore_key r d = Ok d' -> observedAt d' = observedAt d.
Proof. unfold restore_key, WithExclusivityKey, checked, wrap_err. intros H. ok_inv H; done. Qed.

Lemma scan_descriptor_wall r run d : scan_descriptor parse_layout r run = Ok d -> wall_only (observedAt d).
Proof.
  unfold scan_descriptor. intros H.
  destruct (UsageObservationIDFrom _); [|done]. destruct (SessionIDFrom _); [|done].
  destruct (UsageSourceOf _ _ _ _ _); [|done]. destruct (time_Parse _ _) as [t|] eqn:E; [|done].
  destruct (UsageScopeFrom _); [|done]. destruct (UsageAccountingFrom _); [|done]. cbn [wrap_err] in H.
  destruct (restore_descriptor _ _ _ _ _ _ _ _) as [d0|] eqn:Ed; [|done].
  rewrite (restore_key_observed _ _ _ H), (restore_descriptor_observed _ _ _ _ _ _ _ _ _ Ed). by eapply Parse_wall.
Qed.

Lemma scan_inv r run e : scanUsageObservation parse_layout r run = Ok e ->
  scan_descriptor parse_layout r run = Ok (descriptor e) /\ valid e /\ wall e.
Proof.
  unfold scanUsageObservation. destruct (scan_descriptor _ _ _) as [d|] eqn:Ed; [|done].
  unfold scan_state, wrap_err. intros H. pose proof (scan_descriptor_wall _ _ _ Ed) as Hw.
  assert (Hv : descriptor e = d /\ valid e).
  { repeat innermost_split H. injection H as <-. split; [|by eapply UsageObservationOf_valid].
    match goal with E : UsageObservationOf _ _ _ _ _ _ = Ok _ |- _ => unfold UsageObservationOf in E; ok_inv E; done end. }
  destruct Hv as [<- Hv]. done.
Qed.

Lemma restored_final_valid e o : valid e -> wall e -> valid o -> normal o ->
  equivalent (descriptor e) (descriptor o) = true -> is_final o = true -> valid (restored (descriptor e) o).
Proof.
  intros He Hwe Ho N Heq Hf.
  assert (Hwo : wall o) by apply (n_observed _ N).
  pose proof (set_final_valid e o He Ho Hwe Hwo Heq Hf) as Hv.
  apply valid_spec in Hv as (Hd & Hs & Hc & Hco & Hp & Hfin). apply valid_spec.
  split_and!; [exact Hd|exact Hs|exact Hc|exact Hco| |].
  - intros E. unfold is_final in Hf. cbn in E. rewrite E in Hf. discriminate Hf.
  - intros E. specialize (Hfin E). unfold check_final in *. rewrite first_err_None, !Forall_cons in *.
    destruct Hfin as (H1 & H2 & H3 & _). split_and!; try done. cbn in *.
    pose proof (n_final _ N) as Nf. destruct (finalizedAt o) as [t|]; [|done]. cbn.
    destruct (Nf t eq_refl) as [Hw _]. rewrite fails_None in *. rewrite <-H3.
    f_equal. rewrite !Before_wall by done. done.
Qed.

(** After a call that changed the store, the observation is found in it. *)
Lemma record_applied_found s o s' : runs_ok s -> valid o -> normal o ->
  record s o = Ok (s', UsageObservationTransitionApplied) ->
  exists d, findUsageObservation parse_layout s' (observationID (descriptor o)) = Ok (Some (restored d o)) /\
            equivalent d (descriptor o) = true.
Proof.
  intros Hruns Hv N. unfold record, recordUsageObservation, findUsageObservation.
  set (id := observationID (descriptor o)). destruct (rows s !! id) as [r|] eqn:Er; cbn [wrap_err].
  - destruct (scanUsageObservation _ _ _) as [e|] eqn:Es; [|done]. cbn [wrap_err].
    destruct (scan_inv _ _ _ Es) as (Hd & He & Hwe).
    destruct (Reconcile (Some e) (Some o)) as [e' [tr|]] eqn:Ec; [|done].
    destruct (String.eqb_spec tr UsageObservationTransitionApplied) as [->|Hne]; [|by intros [= _ ->]].
    apply reconcile_applied in Ec as (-> & Hf & Heq).
    pose proof Heq as (Hid & _)%equivalent_spec. fold id in Hid.
    unfold updateFinalizedUsageObservation. change (observationID (descriptor (set_final e o))) with (observationID (descriptor e)).
    rewrite Hid, Er. destruct (_ <>?s _); [done|]. destruct (negb _); [done|]. cbn [wrap_err]. intros [= <-].
    exists (descriptor e). split; [|done]. cbn [rows runs]. rewrite lookup_insert_eq.
    change (usageFinalizationArgs (set_final e o) r) with (usageFinalizationArgs o r).
    unfold scanUsageObservation. change (scan_descriptor parse_layout (usageFinalizationArgs o r) (runs s !! id))
      with (scan_descriptor parse_layout r (runs s !! id)). rewrite Hd.
    by rewrite (scan_state_args parse_layout o r _ Hv N (restored_final_valid e o He Hwe Hv N Heq Hf)).
  - match goal with |- match ?c with _ => _ end = _ -> _ => destruct c; [|done] end.
    unfold insertUsageObservation, insert_row. change (r_id (usageObservationArgs o)) with id. rewrite Er.
    destruct (negb _); [done|]. cbn [present]. destruct (_ && _); [done|]. destruct (exists_row _ _); [done|].
    assert (Hno : runs s !! id = None).
    { destruct (runs s !! id) as [x|] eqn:Ex; [|done]. destruct (Hruns id) as [y Hy]; [by eauto|]. by rewrite Hy in Er. }
    cbn [wrap_err runs rows]. fold id. rewrite Hno. cbn [present]. intros H.
    exists (stored_descriptor (descriptor o)).
    assert (Hs' : rows s' !! id = Some (usageObservationArgs o) /\ runs s' !! id = runIdentity (descriptor o)).
    { destruct (runIdentity _); injection H as <-; cbn [rows runs]; by rewrite ?lookup_insert_eq. }
    destruct Hs' as [-> ->]. rewrite (scan_args parse_layout o Hv N). split; [done|].
    apply equivalent_spec. cbn. split_and!; try done. apply Equal_UTC.
Qed.

Lemma replay_found s o d : findUsageObservation parse_layout s (observationID (descriptor o)) = Ok (Some (restored d o)) ->
  valid o -> equivalent d (descriptor o) = true -> record s o = Ok (s, UsageObservationTransitionAlreadyApplied).
Proof.
  intros Hf Hv He. unfold record, recordUsageObservation. rewrite Hf. cbn [wrap_err].
  by rewrite (replay_self d o Hv He).
Qed.

(** The transition is one of two. *)
Lemma record_transition s o s' t : record s o = Ok (s', t) ->
  t = UsageObservationTransitionApplied \/ (t = UsageObservationTransitionAlreadyApplied /\ s' = s).
Proof.
  unfold record, recordUsageObservation. destruct (findUsageObservation _ _ _) as [[e|]|]; cbn [wrap_err]; [| |done].
  - destruct (Reconcile (Some e) (Some o)) as [e' [tr|]] eqn:Ec; [|done].
    destruct (String.eqb_spec tr UsageObservationTransitionApplied) as [->|Hne].
    + destruct e'; [|done]. destruct (updateFinalizedUsageObservation _ _ _); [|done]. cbn. intros [= <- <-]. by left.
    + intros [= <- <-]. right. split; [|done]. unfold Reconcile in Ec. by ok_inv Ec.
  - match goal with |- match ?c with _ => _ end = _ -> _ => destruct c; [|done] end.
    destruct (insertUsageObservation _ _ _); [|done]. cbn. intros [= <- <-]. by left.
Qed.
End Replay.

(** Recording is durable and idempotent.  In every store the repository
    can reach, when recording an observation succeeds the same call made again
    -- by a retry, another hook or another process -- succeeds without
    changing the store and says so; and when the first call changed the store,
    the observation is found under its identity with exactly the status,
    counters, cost, terminal code and instants that were recorded.  Rows hold
    what they are given: the text of a time and NULL for an empty optional
    column lose nothing. *)
Theorem usage_record_idempotent : forall parse_layout row_checks s o s' t,
  (forall v u, parse_layout v = Ok u -> wall_only u) ->
  star (store_step parse_layout row_checks) empty_store s -> valid o -> normal o ->
  Record_ parse_layout row_checks s (Some o) = (s', Ok t) ->
  Record_ parse_layout row_checks s' (Some o) = (s', Ok UsageObservationTransitionAlreadyApplied) /\
  (t = UsageObservationTransitionAlreadyApplied -> s' = s) /\
  (t = UsageObservationTransitionApplied -> exists d,
     findUsageObservation parse_layout s' (observationID (descriptor o)) = Ok (Some (restored d o)) /\
     equivalent d (descriptor o) = true).
Proof.
  intros parse_layout row_checks s o s' t Hp Hs Hv N. unfold Record_, recordTransaction.
  destruct (recordUsageObservation _ _ s o) as [[s1 t1]|] eqn:E; [|done]. intros [= <- <-].
  assert (Hr : runs_ok s).
  { apply (grows_runs_ok empty_store); [exact (reachable_grows _ _ _ _ empty_inv Hs)|].
    intros i [x Hx]. cbn in Hx. by rewrite lookup_empty in Hx. }
  destruct (record_transition _ _ _ _ _ _ E) as [-> |[-> ->]].
  - destruct (record_applied_found _ _ Hp _ _ _ Hr Hv N E) as (d & Hf & He). split_and!; [|done|by eauto].
    by rewrite (replay_found _ _ _ _ _ Hf Hv He).
  - rewrite E. done.
Qed.

(** (C8) The ledger counts a claim once and keeps its snapshots in order, in
    every store the repository can reach and whatever happens after.  The one
    observation that holds the additive claim of an exclusivity key keeps it
    for ever and no other ever gets it; a series without snapshots has no
    head and one with snapshots exactly one, so the conflict of several heads
    is never reported; and a superseded snapshot is in the series of its
    successor, with a smaller revision. *)
Theorem usage_ledger_invariant : forall parse_layout row_checks s s',
  star (store_step parse_layout row_checks) empty_store s -> star (store_step parse_layout row_checks) s s' ->
  (forall key i r, rows s !! i = Some r -> claims key r = true ->
     (exists r', rows s' !! i = Some r' /\ claims key r' = true) /\
     (forall j q, rows s' !! j = Some q -> claims key q = true -> j = i)) /\
  (forall series,
     ((exists kr, select s' (is_head s' series) = [kr]) <->
      (exists i r, rows s' !! i = Some r /\ r_series r = Some series)) /\
     (select s' (is_head s' series) = [] \/ exists kr, select s' (is_head s' series) = [kr])) /\
  (forall i r p, rows s' !! i = Some r -> r_supersedes r = Some p ->
     exists q, rows s' !! p = Some q /\ r_series q = r_series r /\ lt_opt (r_revision q) (r_revision r) = true).
Proof.
  intros parse_layout row_checks s s' Hs Hs'. pose proof (reachable_inv _ _ _ Hs) as I.
  pose proof (reachable_inv _ _ _ (star_trans _ _ _ _ Hs Hs')) as I'.
  destruct (reachable_grows _ _ _ _ I Hs') as [Hg _]. split_and!.
  - intros key i r Hi Hc. destruct (Hg i r Hi) as (r' & Hi' & F).
    assert (Hc' : claims key r' = true) by (by rewrite (same_frame_claims _ _ _ F)).
    split; [by eauto|]. intros j q Hj Hq. exact (inv_additive _ I' _ _ _ _ _ Hj Hi' Hq Hc').
  - intros series.
    assert (Hu : select s' (is_head s' series) = [] \/ exists kr, select s' (is_head s' series) = [kr])
      by (apply select_unique; intros i j r q; apply (head_unique s' I')).
    split; [|exact Hu]. split.
    + intros [[i r] E]. assert (Hin : In (i, r) (select s' (is_head s' series))) by (rewrite E; by left).
      apply select_spec in Hin as [Hi Hh]. exists i, r. by apply head_member.
    + intros (i & r & Hi). destruct (head_exists s' I' series i r Hi) as (h & hr & Hh & Hd).
      destruct Hu as [Hu|Hu]; [|done]. exfalso.
      assert (Hin : In (h, hr) (select s' (is_head s' series))) by (by apply select_spec). by rewrite Hu in Hin.
  - intros i r p Hi Hp. destruct (inv_predecessor _ I' _ _ _ Hi Hp) as (q & Hq & _ & H). eauto.
Qed.

(** ** Examples *)

Definition no_layout (v : string) : result Time := Err (Errorf "parsing time %q" [v]).
Definition all_checks (r : UsageRow) : bool := true.

Definition ex_other : UsageSource := mkUsageSource "codex" "rollout_file" "1" "openai" "".
Definition ex_obs (oid : string) (src : UsageSource) (acc : string) (n : Z) : UsageObservation :=
  mkObservation (mkDescriptor oid "s1" src UsageScopeRun acc (ex_at 100) "" 0 None None (Some "k1"))
    UsageObservationFinalized (ex_counters n) (mkUsageCost UsageCostKnown 0 "USD" UsageCostProviderReported "")
    (Some "success") (Some (ex_at 160)).
Definition ex_snapshot (oid : string) (revision : Z) (supersedes : option string) : UsageObservation :=
  mkObservation (mkDescriptor oid "s1" ex_source UsageScopeSessionSnapshot UsageAccountingLatestSnapshot
                   (ex_at (100 + revision)) "series" revision supersedes None None)
    UsageObservationFinalized (ex_counters revision) UnavailableUsageCost (Some "success") (Some (ex_at 200)).

Definition ex_exclusive (s : UsageStore) (oid : string) (src : UsageSource) (n : Z) : UsageStore * result string :=
  RecordExclusive no_layout all_checks s "k1" (Some (ex_obs oid src UsageAccountingAdditive n))
    (Some (ex_obs oid src UsageAccountingExcluded n)).
Definition ex_s1 : UsageStore := fst (ex_exclusive empty_store "o1" ex_source 7).
Definition ex_s2 : UsageStore := fst (ex_exclusive ex_s1 "o2" ex_other 9).
Definition ex_s3 : UsageStore := fst (Record_ no_layout all_checks ex_s2 (Some (ex_snapshot "p1" 1 None))).
Definition ex_s4 : UsageStore := fst (Record_ no_layout all_checks ex_s3 (Some (ex_snapshot "p2" 2 (Some "p1")))).

Example store_examples :
  snd (ex_exclusive ex_s1 "o2" ex_other 9) = Ok "applied" /\
  option_map r_accounting (rows ex_s4 !! "o1") = Some "additive" /\
  option_map r_accounting (rows ex_s4 !! "o2") = Some "excluded" /\
  findUsageExclusivityWinner ex_s4 "k1" = Ok (Some "o1") /\
  snd (ex_exclusive ex_s4 "o1" ex_source 7) = Ok "already_applied" /\
  is_ok (snd (Record_ no_layout all_checks ex_s4 (Some (ex_snapshot "p3" 3 (Some "p1"))))) = false /\
  is_ok (snd (Record_ no_layout all_checks ex_s4 (Some (ex_obs "o3" ex_other UsageAccountingAdditive 1)))) = false /\
  findUsageSnapshotHead no_layout ex_s4 "series" = Ok (Some (ex_snapshot "p2" 2 (Some "p1"))).
Proof. split_and!; vm_refl. Qed.

Lemma ex_reachable : star (store_step no_layout all_checks) empty_store ex_s2 /\
  star (store_step no_layout all_checks) ex_s2 ex_s4.
Proof.
  assert (Hv : forall oid src acc n, bool_decide (observation_validate (Some (ex_obs oid src acc n)) = None) = true ->
            valid (ex_obs oid src acc n)) by (intros; by apply valid_ok).
  split.
  - apply (star_step _ _ ex_s1); [exact (step_exclusive _ _ empty_store "k1" _ _ (Hv _ _ _ _ ltac:(vm_refl)) (Hv _ _ _ _ ltac:(vm_refl)))|].
    apply star_one. exact (step_exclusive _ _ ex_s1 "k1" _ _ (Hv _ _ _ _ ltac:(vm_refl)) (Hv _ _ _ _ ltac:(vm_refl))).
  - apply (star_step _ _ ex_s3);
      [exact (step_record _ _ ex_s2 (ex_snapshot "p1" 1 None) (valid_ok _ ltac:(vm_refl)))|].
    apply star_one. exact (step_record _ _ ex_s3 (ex_snapshot "p2" 2 (Some "p1")) (valid_ok _ ltac:(vm_refl))).
Qed.

Lemma usage_ledger_invariant_witness :
  exists r', rows ex_s4 !! "o1" = Some r' /\ claims "k1" r' = true.
Proof.
  destruct (usage_ledger_invariant no_layout all_checks ex_s2 ex_s4 (proj1 ex_reachable) (proj2 ex_reachable))
    as (H & _).
  exact (proj1 (H "k1" "o1" (usageObservationArgs (ex_obs "o1" ex_source UsageAccountingAdditive 7))
                  ltac:(vm_refl) ltac:(vm_refl))).
Defined.

Lemma ex_counters_wf n : 0 <= n -> wf_counters (ex_counters n).
Proof.
  intros Hn. assert (Hk : wf_value (mkUsageValue UsageValueKnown n)) by (right; by split).
  assert (Hu : wf_value UnavailableUsageValue) by (left; by right).
  repeat (apply List.Forall_cons; [first [exact Hk|exact Hu]|]). apply List.Forall_nil.
Qed.
Lemma storable_ok t : bool_decide (mono t = None) && (0 <=? Year (UTC t)) && (Year (UTC t) <=? 9999) = true -> storable t.
Proof. intros H. breflect. by repeat split. Qed.

Lemma ex_normal : normal (ex_snapshot "p1" 1 None).
Proof.
  split.
  - vm_refl.
  - vm_refl.
  - cbv zeta. vm_refl.
  - vm_refl.
  - intros H. destruct H. reflexivity.
  - intros p H. discriminate H.
  - intros k H. discriminate H.
  - apply ex_counters_wf. lia.
  - left. by right.
  - apply storable_ok. vm_refl.
  - intros t [= <-]. apply storable_ok. vm_refl.
Qed.
Lemma usage_record_idempotent_witness :
  Record_ no_layout all_checks ex_s3 (Some (ex_snapshot "p1" 1 None)) = (ex_s3, Ok "already_applied").
Proof.
  refine (proj1 (usage_record_idempotent no_layout all_checks ex_s2 (ex_snapshot "p1" 1 None) ex_s3 "applied" _ _ _ ex_normal _)).
  - intros v u H. discriminate H.
  - exact (proj1 ex_reachable).
  - apply valid_ok. vm_refl.
  - vm_refl.
Defined.
