(* ===== verification/Session.v ===== *)
(** * Sessions

    [src/domain/model/session.go], [session_lifecycle.go],
    [session_restore.go] and [session_errors.go]: the session aggregate, its
    terminal transitions and its restoration from persisted state.  A method
    with a nil guard takes the receiver as an option. *)

From S2P Require Import Prelude GoStrings GoTime Labels.

Definition ErrInvalidSessionState : error := Sentinel "invalid session state".
Definition ErrConflictingTerminalState : error :=
  Wrap "%w: conflicting terminal state" [] ErrInvalidSessionState.
Definition ErrSupervisorOwnedSession : error :=
  Sentinel "one-shot outcome is managed by the session run supervisor; session end cannot change it".

(** ** The aggregate *)

Record Session := mkSession {
  sessionID : string; startedAt : Time; endedAt : option Time; client : string; agent : string;
  workspace : string; label : string; summary : string; runtimeMode : string;
  terminalReason : option string; model : string; parentSessionID : string;
  spawnEventID : string; subagentKind : string; spawnOrder : option Z }.
#[global] Instance Session_eq_dec : EqDecision Session.
Proof. solve_decision. Defined.

Definition NewSession (sessionID : string) (startedAt : Time) (client agent workspace : string) : Session :=
  mkSession sessionID startedAt None client agent workspace "" "" RuntimeModeInteractive None "" "" "" "" None.

Definition NewSessionWithRuntimeModeAndParent (sessionID : string) (startedAt : Time)
    (client agent workspace runtimeMode parentSessionID : string) : result Session :=
  match RuntimeModeFrom runtimeMode with
  | Err err => Err (Wrap "invalid session runtime mode: %w" [] err)
  | Ok validatedMode =>
      if (parentSessionID <>?s "") && (parentSessionID =?s sessionID)
      then Err (Wrap "session cannot be its own parent: %w" [] ErrInvalidSessionState)
      else Ok (mkSession sessionID startedAt None client agent workspace "" "" validatedMode None ""
                 parentSessionID "" "" None)
  end.

Definition NewSessionWithRuntimeMode (sessionID : string) (startedAt : Time)
    (client agent workspace runtimeMode : string) : result Session :=
  NewSessionWithRuntimeModeAndParent sessionID startedAt client agent workspace runtimeMode "".

Definition NewChildSession (parent : Session) (sid : string) (started : Time)
    (agent workspace spawnEvent kind : string) (order : Z) : Session :=
  let session := NewSession sid started (client parent) agent workspace in
  mkSession sid (startedAt session) (endedAt session) (client session) agent workspace
    (label session) (summary session) (runtimeMode session) (terminalReason session) (model session)
    (sessionID parent) spawnEvent kind (Some order).

(** A dynamically typed argument, as far as [SessionOf] tells them apart. *)
Inductive any :=
| AnyEventID (value : string)
| AnyString (value : string)
| AnyOptionalInt (value : option Z)
| AnyOther.

Definition SessionOf (sid : string) (started : Time) (ended : option Time)
    (client agent workspace label summary parent : string) (spawnMetadata : list any) : Session :=
  let spawnEvent := match spawnMetadata !! 0%nat with Some (AnyEventID v) => v | _ => "" end in
  let kind := match spawnMetadata !! 1%nat with Some (AnyString v) => v | _ => "" end in
  let order := match spawnMetadata !! 2%nat with Some (AnyOptionalInt v) => v | _ => None end in
  let modelName := match spawnMetadata !! 3%nat with Some (AnyString v) => v | _ => "" end in
  let reason := match ended with Some _ => Some TerminalReasonLegacyUnknown | None => None end in
  mkSession sid started ended client agent workspace label summary RuntimeModeInteractive reason
    modelName parent spawnEvent kind order.

(** ** Terminal transitions *)

Definition SessionTerminalTransitionApplied : string := "applied".
Definition SessionTerminalTransitionAlreadyApplied : string := "already_applied".

(** [*SessionTerminalConflictError], with what its [Unwrap] returns. *)
Definition SessionTerminalConflictError (current proposed : string) : error :=
  Typed "SessionTerminalConflictError" [current; proposed] ErrConflictingTerminalState.
(** The accessors of that error. *)
Definition CurrentReason (e : error) : option string :=
  match e with Typed "SessionTerminalConflictError" [current; _] _ => Some current | _ => None end.
Definition ProposedReason (e : error) : option string :=
  match e with Typed "SessionTerminalConflictError" [_; proposed] _ => Some proposed | _ => None end.

Definition set_terminal (s : Session) (at_ : Time) (reason text : string) : Session :=
  mkSession (sessionID s) (startedAt s) (Some at_) (client s) (agent s) (workspace s) (label s) text
    (runtimeMode s) (Some reason) (model s) (parentSessionID s) (spawnEventID s) (subagentKind s)
    (spawnOrder s).

Definition terminate (receiver : option Session) (at_ : Time) (reason text : string)
    : option Session * result string :=
  match receiver with
  | None => (None, Err ErrInvalidSessionState)
  | Some s =>
      match TerminalReasonFrom reason with
      | Err err => (receiver, Err err)
      | Ok validatedReason =>
          if IsZero at_ || Before at_ (startedAt s) then (receiver, Err ErrInvalidSessionState)
          else match terminalReason s with
          | Some current =>
              if current =?s validatedReason then (receiver, Ok SessionTerminalTransitionAlreadyApplied)
              else (receiver, Err (SessionTerminalConflictError current validatedReason))
          | None =>
              match endedAt s with
              | Some _ => (receiver, Err ErrInvalidSessionState)
              | None => (Some (set_terminal s at_ validatedReason text), Ok SessionTerminalTransitionApplied)
              end
          end
      end
  end.

Definition is_one_shot (s : Session) : bool := runtimeMode s =?s RuntimeModeOneShot.

Definition Terminate (receiver : option Session) (at_ : Time) (reason text : string)
    : option Session * result string :=
  match receiver with
  | Some s => if is_one_shot s then (receiver, Err ErrSupervisorOwnedSession)
              else terminate receiver at_ reason text
  | None => terminate receiver at_ reason text
  end.

Definition FinalizeOneShot (receiver : option Session) (at_ : Time) (reason text : string)
    : option Session * result string :=
  match receiver with
  | None => (receiver, Err ErrInvalidSessionState)
  | Some s => if negb (is_one_shot s) then (receiver, Err ErrInvalidSessionState)
              else terminate receiver at_ reason text
  end.

Definition End_ (receiver : option Session) (at_ : Time) (text : string) : option Session * option error :=
  let '(receiver', out) := Terminate receiver at_ TerminalReasonSuccess text in
  match out with
  | Err err => (receiver', Some err)
  | Ok transition =>
      if transition =?s SessionTerminalTransitionAlreadyApplied then (receiver', Some ErrInvalidSessionState)
      else (receiver', None)
  end.

Definition set_text (s : Session) (label model : string) : Session :=
  mkSession (sessionID s) (startedAt s) (endedAt s) (client s) (agent s) (workspace s) label (summary s)
    (runtimeMode s) (terminalReason s) model (parentSessionID s) (spawnEventID s) (subagentKind s)
    (spawnOrder s).
Definition SetLabel (s : Session) (label : string) : Session := set_text s label (model s).
Definition SetModel (receiver : option Session) (name : string) : option Session :=
  match receiver with
  | None => None
  | Some s => let trimmed := TrimSpace name in
              if trimmed <>?s "" then Some (set_text s (label s) trimmed) else receiver
  end.
Definition Model (receiver : option Session) : string :=
  match receiver with None => "" | Some s => model s end.

(** ** Restoration *)

Record SessionSnapshot := mkSessionSnapshot {
  SessionID : string; StartedAt : Time; EndedAt : option Time; Client : string; Agent : string;
  Workspace : string; Label : string; Summary : string; ModelName : string; RuntimeMode : string;
  TerminalReason : option string; ParentSessionID : string; SpawnEventID : string;
  SubagentKind : string; SpawnOrder : option Z }.

Definition SessionFromSnapshot (snapshot : SessionSnapshot) : result Session :=
  let mode := if RuntimeMode snapshot =?s "" then RuntimeModeInteractive else RuntimeMode snapshot in
  match RuntimeModeFrom mode with
  | Err err => Err (Wrap "restore session runtime mode: %w" [] err)
  | Ok validatedMode =>
      let restored reason :=
        Ok (mkSession (SessionID snapshot) (StartedAt snapshot) (EndedAt snapshot) (Client snapshot)
              (Agent snapshot) (Workspace snapshot) (Label snapshot) (Summary snapshot) validatedMode
              reason (ModelName snapshot) (ParentSessionID snapshot) (SpawnEventID snapshot)
              (SubagentKind snapshot) (SpawnOrder snapshot)) in
      match EndedAt snapshot with
      | None =>
          match TerminalReason snapshot with
          | Some reason =>
              Err (Wrap "active session cannot have terminal reason %q: %w" [reason] ErrInvalidSessionState)
          | None => restored None
          end
      | Some ended =>
          if IsZero ended || Before ended (StartedAt snapshot)
          then Err (Wrap "session terminal time precedes its start: %w" [] ErrInvalidSessionState)
          else
            let reason := match TerminalReason snapshot with
                          | Some reason => reason | None => TerminalReasonLegacyUnknown end in
            match TerminalReasonFrom reason with
            | Err err => Err (Wrap "restore session terminal reason: %w" [] err)
            | Ok validatedReason => restored (Some validatedReason)
            end
      end
  end.

(** ** Invariant *)

(** A session has a terminal reason exactly when it has an end, the end is not
    before the start, and its mode and reason are known values. *)
Definition wf (s : Session) : Prop :=
  runtimeMode s ∈ knownRuntimeModes /\
  match endedAt s, terminalReason s with
  | None, None => True
  | Some t, Some r => IsZero t = false /\ Before t (startedAt s) = false /\ r ∈ knownTerminalReasons
  | _, _ => False
  end.

(** What no operation of the aggregate changes. *)
Definition same_identity (s t : Session) : Prop :=
  sessionID t = sessionID s /\ startedAt t = startedAt s /\ client t = client s /\ agent t = agent s /\
  workspace t = workspace s /\ runtimeMode t = runtimeMode s /\ parentSessionID t = parentSessionID s /\
  spawnEventID t = spawnEventID s /\ subagentKind t = subagentKind s /\ spawnOrder t = spawnOrder s.

(** The calls a holder of the aggregate can make; refused calls are steps too. *)
Inductive call :=
| CallTerminate (at_ : Time) (reason text : string)
| CallFinalizeOneShot (at_ : Time) (reason text : string)
| CallEnd (at_ : Time) (text : string)
| CallSetLabel (text : string)
| CallSetModel (name : string).

Definition after_call (s : Session) (c : call) : option Session :=
  match c with
  | CallTerminate t r x => fst (Terminate (Some s) t r x)
  | CallFinalizeOneShot t r x => fst (FinalizeOneShot (Some s) t r x)
  | CallEnd t x => fst (End_ (Some s) t x)
  | CallSetLabel x => Some (SetLabel s x)
  | CallSetModel x => SetModel (Some s) x
  end.
Inductive session_step : Session -> Session -> Prop :=
| session_call s c t : after_call s c = Some t -> session_step s t.

(** The three outcomes of [terminate] on a session. *)
Inductive terminate_outcome (s : Session) (at_ : Time) (reason text : string)
    : option Session * result string -> Prop :=
| terminate_refused e :
    terminate_outcome s at_ reason text (Some s, Err e)
| terminate_again r :
    TerminalReasonFrom reason = Ok r -> terminalReason s = Some r ->
    terminate_outcome s at_ reason text (Some s, Ok SessionTerminalTransitionAlreadyApplied)
| terminate_first r :
    TerminalReasonFrom reason = Ok r -> IsZero at_ = false -> Before at_ (startedAt s) = false ->
    terminalReason s = None -> endedAt s = None ->
    terminate_outcome s at_ reason text
      (Some (set_terminal s at_ r text), Ok SessionTerminalTransitionApplied).

Lemma terminate_cases s at_ reason text :
  terminate_outcome s at_ reason text (terminate (Some s) at_ reason text).
Proof.
  unfold terminate. destruct (TerminalReasonFrom reason) as [r|e] eqn:Hr; [|constructor].
  destruct (IsZero at_ || Before at_ (startedAt s)) eqn:Ht; [constructor|].
  destruct (terminalReason s) as [c|] eqn:Hc.
  - destruct (String.eqb_spec c r) as [->|]; [by econstructor|constructor].
  - destruct (endedAt s) eqn:He; [constructor|]. breflect. by constructor.
Qed.

(** [Terminate], [FinalizeOneShot] and [End] refuse or do what [terminate] does. *)
Lemma Terminate_cases s at_ reason text :
  terminate_outcome s at_ reason text (Terminate (Some s) at_ reason text).
Proof. unfold Terminate. destruct (is_one_shot s); [constructor|apply terminate_cases]. Qed.
Lemma FinalizeOneShot_cases s at_ reason text :
  terminate_outcome s at_ reason text (FinalizeOneShot (Some s) at_ reason text).
Proof.
  unfold FinalizeOneShot. destruct (negb _); [constructor|apply terminate_cases].
Qed.
Lemma End_state s at_ text :
  fst (End_ (Some s) at_ text) = fst (Terminate (Some s) at_ TerminalReasonSuccess text).
Proof.
  unfold End_. destruct (Terminate (Some s) at_ TerminalReasonSuccess text) as [s' [tr|e]]; [|done].
  by destruct (tr =?s _).
Qed.

(** A step either finds the session still active and ends it, or changes at
    most the label and the model. *)
Lemma session_step_cases s t : session_step s t ->
  (exists at_ r text, IsZero at_ = false /\ Before at_ (startedAt s) = false /\
     r ∈ knownTerminalReasons /\ terminalReason s = None /\ endedAt s = None /\ t = set_terminal s at_ r text) \/
  (exists l m, t = set_text s l m).
Proof.
  intros Hst. destruct Hst as [s c t Hc].
  assert (Hsame : exists l m, s = set_text s l m) by (exists (label s), (model s); by destruct s).
  assert (Hout : forall at_ reason text p, terminate_outcome s at_ reason text p -> fst p = Some t ->
    (exists at_ r text, IsZero at_ = false /\ Before at_ (startedAt s) = false /\
     r ∈ knownTerminalReasons /\ terminalReason s = None /\ endedAt s = None /\ t = set_terminal s at_ r text) \/
    (exists l m, t = set_text s l m)).
  { intros at_ reason text p Hp Hf.
    destruct Hp as [e|r Hr Hcur|r Hr Hz Hb Hn He]; cbn [fst] in Hf; injection Hf as <-; auto.
    left. exists at_, r, text. split_and!; auto. by eapply label_known. }
  destruct c; cbn [after_call] in Hc.
  - eapply Hout; [apply Terminate_cases|exact Hc].
  - eapply Hout; [apply FinalizeOneShot_cases|exact Hc].
  - rewrite End_state in Hc. eapply Hout; [apply Terminate_cases|exact Hc].
  - injection Hc as <-. right. by eexists _, _.
  - right. cbn [SetModel] in Hc. destruct (_ <>?s _); injection Hc as <-; eauto.
Qed.

Lemma session_step_wf s t : wf s -> session_step s t -> wf t.
Proof.
  intros Hwf [(at_ & r & text & Hz & Hb & Hr & _ & _ & ->)|(l & m & ->)]%session_step_cases;
    destruct Hwf as [Hm Ht]; split; done.
Qed.

Definition follows (s t : Session) : Prop :=
  same_identity s t /\
  (terminalReason s <> None ->
     terminalReason t = terminalReason s /\ endedAt t = endedAt s /\ summary t = summary s).

Lemma session_follows_refl s : follows s s.
Proof. unfold follows, same_identity. split_and!; auto. Qed.
Lemma session_follows_trans s t u : follows s t -> follows t u -> follows s u.
Proof.
  unfold follows, same_identity. intros [A HA] [B HB]. split.
  - destruct_and!. split_and!; congruence.
  - intros Hs. destruct (HA Hs) as (E1 & E2 & E3).
    destruct HB as (F1 & F2 & F3); [congruence|]. split_and!; congruence.
Qed.
Lemma session_step_follows s t : session_step s t -> follows s t.
Proof.
  intros [(at_ & r & text & Hz & Hb & Hr & Hn & _ & ->)|(l & m & ->)]%session_step_cases;
    (split; [unfold same_identity; split_and!; reflexivity|]).
  - congruence.
  - intros _. auto.
Qed.

(** ** Properties *)

(** The constructors of a live aggregate. *)
Inductive session_created : Session -> Prop :=
| created_new id at_ c a w : session_created (NewSession id at_ c a w)
| created_mode id at_ c a w m s :
    NewSessionWithRuntimeMode id at_ c a w m = Ok s -> session_created s
| created_parent id at_ c a w m p s :
    NewSessionWithRuntimeModeAndParent id at_ c a w m p = Ok s -> session_created s
| created_child parent id at_ a w ev kind order :
    session_created (NewChildSession parent id at_ a w ev kind order)
| created_restored sn s : SessionFromSnapshot sn = Ok s -> session_created s.

Lemma interactive_known : RuntimeModeInteractive ∈ knownRuntimeModes.
Proof. by left. Qed.
Lemma session_parent_wf id at_ c a w m p s :
  NewSessionWithRuntimeModeAndParent id at_ c a w m p = Ok s -> wf s.
Proof.
  unfold NewSessionWithRuntimeModeAndParent. intros H.
  destruct (RuntimeModeFrom m) eqn:Hm; [|done]. destruct (_ && _); [done|].
  injection H as <-. split; [by eapply label_known|done].
Qed.
Lemma session_restored_wf sn s : SessionFromSnapshot sn = Ok s -> wf s.
Proof.
  unfold SessionFromSnapshot. intros H.
  destruct (RuntimeModeFrom _) as [m|] eqn:Hm; [|done]. cbn zeta in H.
  destruct (EndedAt sn) as [t|] eqn:He.
  - destruct (_ || _) eqn:Ht; [done|]. destruct (TerminalReasonFrom _) as [r|] eqn:Hr; [|done].
    injection H as <-. breflect. split; [by eapply label_known|].
    split_and!; [done|done|by eapply label_known].
  - destruct (TerminalReason sn); [done|]. injection H as <-. split; [by eapply label_known|done].
Qed.
Lemma session_created_wf s : session_created s -> wf s.
Proof.
  intros Hc. destruct Hc; eauto using session_parent_wf, session_restored_wf.
  - split; [apply interactive_known|done].
  - split; [apply interactive_known|done].
Qed.

Lemma session_reached s t u : session_created s -> star session_step s t -> star session_step t u ->
  wf t /\ wf u /\ follows s t /\ follows t u.
Proof.
  intros Hc Hst Htu. apply session_created_wf in Hc.
  assert (Ht : wf t) by (eapply (star_invariant session_step wf); eauto using session_step_wf).
  assert (Hrel : forall a b, star session_step a b -> wf a -> follows a b).
  { intros a b. apply (star_relation session_step wf follows);
      eauto using session_follows_refl, session_follows_trans, session_step_wf, session_step_follows. }
  split_and!; auto. eapply (star_invariant session_step wf); eauto using session_step_wf.
Qed.

(** (C6) The first terminal state of a session is its only one: whatever is
    called on a created or restored session, it has a reason exactly when it
    has an end, never one before its start, its identity and mode never
    change, and once it is terminal its reason, its end and its summary stay
    what they are. *)
Theorem session_first_terminal_wins s t u :
  session_created s -> star session_step s t -> star session_step t u ->
  wf t /\ wf u /\ same_identity s u /\
  (terminalReason t <> None ->
     terminalReason u = terminalReason t /\ endedAt u = endedAt t /\ summary u = summary t).
Proof.
  intros Hc Hst Htu. destruct (session_reached s t u Hc Hst Htu) as (Ht & Hu & Hf & Hg).
  split_and!; auto.
  - by destruct (session_follows_trans _ _ _ Hf Hg).
  - by destruct Hg.
Qed.

Definition ex_started : Time := mkTime 63000000000000000000 None 0.
Definition ex_ended : Time := mkTime 63000000060000000000 None 0.
Definition ex_later : Time := mkTime 63000000090000000000 None 0.
Definition ex_session : Session := NewSession "s-1" ex_started "hook" "claude" "github.com/o/r".
Definition ex_terminal : Session := set_terminal ex_session ex_ended TerminalReasonFailure "boom".

Lemma session_first_terminal_wins_witness :
  terminalReason (SetLabel ex_terminal "x") = Some TerminalReasonFailure.
Proof.
  destruct (session_first_terminal_wins ex_session ex_terminal (SetLabel ex_terminal "x")) as (_ & _ & _ & H).
  - apply created_new.
  - apply star_one, (session_call _ (CallTerminate ex_ended "failure" "boom")). vm_compute. reflexivity.
  - eapply star_step; [apply (session_call _ (CallTerminate ex_later "success" "fine")); vm_compute; reflexivity|].
    apply star_one, (session_call _ (CallSetLabel "x")). reflexivity.
  - destruct H as [H _]; [done|exact H].
Defined.

(** The call through which the session's mode lets it be ended, and the other. *)
Definition owner_call (s : Session) : option Session -> Time -> string -> string -> option Session * result string :=
  if is_one_shot s then FinalizeOneShot else Terminate.
Definition foreign_call (s : Session) : option Session -> Time -> string -> string -> option Session * result string :=
  if is_one_shot s then Terminate else FinalizeOneShot.
Definition timely (s : Session) (at_ : Time) : bool := negb (IsZero at_) && negb (Before at_ (startedAt s)).

Lemma owner_terminate s at_ reason text :
  owner_call s (Some s) at_ reason text = terminate (Some s) at_ reason text.
Proof. unfold owner_call. destruct (is_one_shot s) eqn:E; unfold FinalizeOneShot, Terminate; by rewrite E. Qed.
Lemma foreign_refused s at_ reason text :
  foreign_call s (Some s) at_ reason text =
    (Some s, Err (if is_one_shot s then ErrSupervisorOwnedSession else ErrInvalidSessionState)).
Proof. unfold foreign_call. destruct (is_one_shot s) eqn:E; unfold FinalizeOneShot, Terminate; by rewrite E. Qed.

Lemma terminal_reason_read reason :
  TrimSpace reason ∈ knownTerminalReasons -> TerminalReasonFrom reason = Ok (TrimSpace reason).
Proof. intros H. by apply label_spec. Qed.

Lemma terminate_timely s at_ reason text :
  wf s -> TrimSpace reason ∈ knownTerminalReasons -> timely s at_ = true ->
  terminate (Some s) at_ reason text =
    match terminalReason s with
    | None => (Some (set_terminal s at_ (TrimSpace reason) text), Ok SessionTerminalTransitionApplied)
    | Some current =>
        if current =?s TrimSpace reason then (Some s, Ok SessionTerminalTransitionAlreadyApplied)
        else (Some s, Err (SessionTerminalConflictError current (TrimSpace reason)))
    end.
Proof.
  intros [_ Hwf] Hr Ht. unfold terminate. rewrite (terminal_reason_read _ Hr).
  unfold timely in Ht. apply andb_true_iff in Ht as [-> %negb_true_iff ->%negb_true_iff].
  cbn [orb]. destruct (terminalReason s), (endedAt s); done.
Qed.

(** Ending a session does exactly one of these.  The call its mode does
    not own -- [Terminate] on a one-shot session, [FinalizeOneShot] on any
    other -- is refused, and for a one-shot session with an error a retry
    cannot mistake for an applied boundary.  The call its mode owns refuses an
    unknown reason and a time that is zero or before the start; otherwise it
    establishes the first terminal state, answers a repetition of the same
    reason (at any later time, with any summary) without changing anything,
    and refuses another reason with an error that carries both reasons. *)
Theorem session_terminate_exact s at_ reason text :
  wf s ->
  foreign_call s (Some s) at_ reason text =
    (Some s, Err (if is_one_shot s then ErrSupervisorOwnedSession else ErrInvalidSessionState)) /\
  errors_is ErrSupervisorOwnedSession "invalid session state" = false /\
  (TrimSpace reason ∉ knownTerminalReasons ->
     exists e, owner_call s (Some s) at_ reason text = (Some s, Err e)) /\
  (TrimSpace reason ∈ knownTerminalReasons -> timely s at_ = false ->
     owner_call s (Some s) at_ reason text = (Some s, Err ErrInvalidSessionState)) /\
  (TrimSpace reason ∈ knownTerminalReasons -> timely s at_ = true ->
     match terminalReason s with
     | None =>
         let t := set_terminal s at_ (TrimSpace reason) text in
         owner_call s (Some s) at_ reason text = (Some t, Ok SessionTerminalTransitionApplied) /\
         forall later text', timely s later = true ->
           owner_call t (Some t) later reason text' = (Some t, Ok SessionTerminalTransitionAlreadyApplied)
     | Some current =>
         if current =?s TrimSpace reason
         then owner_call s (Some s) at_ reason text = (Some s, Ok SessionTerminalTransitionAlreadyApplied)
         else exists e, owner_call s (Some s) at_ reason text = (Some s, Err e) /\
                CurrentReason e = Some current /\ ProposedReason e = Some (TrimSpace reason) /\
                errors_is e "invalid session state" = true
     end).
Proof.
  intros Hwf. split_and!; [apply foreign_refused|reflexivity| | |].
  - intros Hr. rewrite owner_terminate. unfold terminate.
    destruct (label_refused (from := TerminalReasonFrom) reason Hr) as [e ->]. by exists e.
  - intros Hr Ht. rewrite owner_terminate. unfold terminate. rewrite (terminal_reason_read _ Hr).
    unfold timely in Ht. rewrite <-negb_orb in Ht. apply negb_false_iff in Ht. by rewrite Ht.
  - intros Hr Ht. rewrite !owner_terminate, (terminate_timely s at_ reason text) by done.
    destruct (terminalReason s) as [c|] eqn:Hc.
    + destruct (String.eqb c (TrimSpace reason)); [done|]. eexists. split_and!; reflexivity.
    + cbn zeta. split; [done|]. intros later text' Hl.
      rewrite owner_terminate, terminate_timely; [|split|done|done].
      * cbn [set_terminal terminalReason]. by rewrite String.eqb_refl.
      * apply Hwf.
      * unfold timely in Ht. breflect. done.
Qed.

Lemma session_terminate_exact_witness :
  owner_call ex_terminal (Some ex_terminal) ex_later " failure " "other" =
    (Some ex_terminal, Ok SessionTerminalTransitionAlreadyApplied).
Proof.
  destruct (session_terminate_exact ex_terminal ex_later " failure " "other") as (_ & _ & _ & _ & H).
  - split; [apply interactive_known|]. split_and!; [reflexivity|reflexivity|].
    apply slices_contains_spec. reflexivity.
  - apply H; [apply slices_contains_spec|]; reflexivity.
Defined.

(** The snapshot that carries the fields of an aggregate. *)
Definition snapshot_of (s : Session) : SessionSnapshot :=
  mkSessionSnapshot (sessionID s) (startedAt s) (endedAt s) (client s) (agent s) (workspace s) (label s)
    (summary s) (model s) (runtimeMode s) (terminalReason s) (parentSessionID s) (spawnEventID s)
    (subagentKind s) (spawnOrder s).
(** What restoration reads from a snapshot: the trimmed values, an absent mode
    as interactive, an end without a reason as [legacy_unknown]. *)
Definition read_mode (sn : SessionSnapshot) : string :=
  if RuntimeMode sn =?s "" then RuntimeModeInteractive else TrimSpace (RuntimeMode sn).
Definition read_reason (sn : SessionSnapshot) : option string :=
  match TerminalReason sn, EndedAt sn with
  | Some r, _ => Some (TrimSpace r)
  | None, Some _ => Some TerminalReasonLegacyUnknown
  | None, None => None
  end.
Definition read_snapshot (sn : SessionSnapshot) : SessionSnapshot :=
  mkSessionSnapshot (SessionID sn) (StartedAt sn) (EndedAt sn) (Client sn) (Agent sn) (Workspace sn)
    (Label sn) (Summary sn) (ModelName sn) (read_mode sn) (read_reason sn) (ParentSessionID sn)
    (SpawnEventID sn) (SubagentKind sn) (SpawnOrder sn).

Lemma snapshot_of_inj s t : snapshot_of s = snapshot_of t -> s = t.
Proof. destruct s, t. unfold snapshot_of. cbn. intros [=]. by subst. Qed.

Lemma mode_read sn : TrimSpace (if RuntimeMode sn =?s "" then RuntimeModeInteractive else RuntimeMode sn)
  = read_mode sn.
Proof. unfold read_mode. by destruct (_ =?s _). Qed.

Lemma restore_sound sn s : SessionFromSnapshot sn = Ok s -> snapshot_of s = read_snapshot sn.
Proof.
  unfold SessionFromSnapshot, read_snapshot, read_reason. intros H.
  destruct (RuntimeModeFrom _) as [m|] eqn:Hm; [|done]. cbn zeta in H.
  apply label_spec in Hm as [Hm _]. rewrite mode_read in Hm.
  destruct (EndedAt sn) as [t|] eqn:He.
  - destruct (_ || _) eqn:Ht; [done|]. destruct (TerminalReasonFrom _) as [r|] eqn:Hr; [|done].
    apply label_spec in Hr as [Hr _]. injection H as <-. unfold snapshot_of. cbn.
    rewrite ?He, Hm, Hr. by destruct (TerminalReason sn).
  - destruct (TerminalReason sn) eqn:Hr; [done|]. injection H as <-. unfold snapshot_of. cbn.
    by rewrite ?He, Hm.
Qed.

Lemma restore_complete sn s : wf s -> snapshot_of s = read_snapshot sn -> SessionFromSnapshot sn = Ok s.
Proof.
  intros [Hm Hwf] Hsn. unfold SessionFromSnapshot.
  assert (Em : runtimeMode s = read_mode sn) by exact (f_equal RuntimeMode Hsn).
  assert (Er : terminalReason s = read_reason sn) by exact (f_equal TerminalReason Hsn).
  assert (Ee : endedAt s = EndedAt sn) by exact (f_equal EndedAt Hsn).
  assert (Es : startedAt s = StartedAt sn) by exact (f_equal StartedAt Hsn).
  rewrite Em in Hm. rewrite Er, Ee, Es in Hwf. unfold read_reason in *.
  rewrite (proj2 (label_spec _ _) (conj (eq_sym (mode_read sn)) Hm)). cbn zeta.
  destruct (EndedAt sn) as [t|] eqn:He.
  - assert (Hr : exists r, TerminalReasonFrom
      match TerminalReason sn with Some reason => reason | None => TerminalReasonLegacyUnknown end = Ok r /\
      terminalReason s = Some r /\ IsZero t = false /\ Before t (StartedAt sn) = false).
    { destruct (TerminalReason sn) as [r|]; destruct Hwf as (Hz & Hb & Hr).
      - exists (TrimSpace r). by rewrite (terminal_reason_read _ Hr).
      - by exists TerminalReasonLegacyUnknown. }
    destruct Hr as (r & -> & Hr & -> & ->). cbn [orb]. f_equal. apply snapshot_of_inj.
    rewrite Hsn. unfold snapshot_of, read_snapshot. cbn. rewrite <-He, <-Hr, Er. unfold read_reason.
    by rewrite ?He.
  - destruct (TerminalReason sn) as [r|] eqn:Hr; [done|]. f_equal. apply snapshot_of_inj.
    rewrite Hsn. unfold snapshot_of, read_snapshot, read_reason. cbn. by rewrite Hr, He.
Qed.

(** Restoring reads persisted state exactly: a snapshot is accepted when
    and only when what it says, read with the legacy defaults, is a
    well-formed session, which is the session returned; and every session a
    program can reach is restored from its own fields unchanged. *)
Theorem session_restore_exact c s :
  session_created c -> star session_step c s ->
  SessionFromSnapshot (snapshot_of s) = Ok s /\
  forall sn t, SessionFromSnapshot sn = Ok t <-> wf t /\ snapshot_of t = read_snapshot sn.
Proof.
  intros Hc Hcs. destruct (session_reached c s s Hc Hcs (star_refl _ _)) as (Hwf & _).
  split.
  - apply restore_complete; [done|]. destruct Hwf as [Hm Hr].
    destruct (known_clean knownRuntimeModes eq_refl _ Hm) as [Em%eq_sym Hne%String.eqb_neq].
    unfold read_snapshot, read_mode, read_reason, snapshot_of. cbn. rewrite Hne, <-Em. f_equal.
    destruct (terminalReason s) as [r|], (endedAt s); try done.
    destruct Hr as (_ & _ & Hr). by destruct (known_clean knownTerminalReasons eq_refl _ Hr) as [-> _].
  - intros sn t. split.
    + intros H. split; [by eapply session_restored_wf|by apply restore_sound].
    + intros [Ht Hsn]. by apply restore_complete.
Qed.

Lemma session_restore_exact_witness :
  SessionFromSnapshot (snapshot_of ex_terminal) = Ok ex_terminal.
Proof.
  destruct (session_restore_exact ex_session ex_terminal) as [H _]; [| |exact H].
  - apply created_new.
  - apply star_one, (session_call _ (CallTerminate ex_ended "failure" "boom")). vm_compute. reflexivity.
Defined.
