(* ===== verification/CommandIdentity.v ===== *)
(** * Command identities

    [src/domain/types/command_identity.go]: the wrapper and executable names
    under which a recorded command is reported.  The reader of the command's
    first words is a quote-aware scanner over runes; its loop is the fold
    [scan] over the runes of the command, which stops at the word limit. *)

From S2P Require Import Prelude GoStrings.

Definition CommandNameUnknown : string := "unknown".

Record CommandIdentity := mkCommandIdentity { wrapper : option string; command : string }.
#[global] Instance CommandIdentity_eq_dec : EqDecision CommandIdentity.
Proof. solve_decision. Defined.

(** ** The scanner *)

(** The variables of the loop; [builder] is the text written so far. *)
Record scanner := mkScanner {
  tokens : list string; builder : list ascii; quote : Z; escaped : bool; inToken : bool }.
Definition scanner0 : scanner := mkScanner [] [] 0 false false.

Definition rune_backslash : Z := 92.
Definition rune_single : Z := 39.
Definition rune_double : Z := 34.

(** The token read so far with one more rune, or with none. *)
Definition write (st : scanner) (r : Z) : scanner :=
  mkScanner (tokens st) (builder st ++ encode_rune r) (quote st) false true.
Definition set_quote (st : scanner) (q : Z) : scanner :=
  mkScanner (tokens st) (builder st) q (escaped st) true.
(** [flush]: the state after it and whether the limit is reached. *)
Definition flush (limit : Z) (st : scanner) : scanner * bool :=
  if negb (inToken st) then (st, false)
  else let ts := tokens st ++ [implode (builder st)] in
       (mkScanner ts [] (quote st) (escaped st) false, limit <=? llen ts).

(** One iteration; the second component asks for the early return. *)
Definition scan_rune (limit : Z) (st : scanner) (r : Z) : scanner * bool :=
  if escaped st then (write st r, false)
  else if (r =? rune_backslash) && negb (quote st =? rune_single)
  then (mkScanner (tokens st) (builder st) (quote st) true true, false)
  else if negb (quote st =? 0)
  then (if r =? quote st then set_quote st 0 else write st r, false)
  else if (r =? rune_single) || (r =? rune_double) then (set_quote st r, false)
  else if is_space_rune r then flush limit st
  else (write st r, false).

Fixpoint scan (limit : Z) (st : scanner) (runes : list Z) : list string * bool :=
  match runes with
  | [] => if escaped st || negb (quote st =? 0) then (tokens st, false)
          else (tokens (fst (flush limit st)), true)
  | r :: rest => let '(st', full) := scan_rune limit st r in
                 if full then (tokens st', true) else scan limit st' rest
  end.

Definition commandPrefixTokens (raw : string) (limit : Z) : list string * bool :=
  if limit <=? 0 then ([], false) else scan limit scanner0 (range_runes raw).

(** ** Names *)

Definition shell_metacharacters : list ascii := explode "$`;&|<>()".
Definition commandTokenName (token : string) : string :=
  let trimmed := TrimSpace token in
  if (trimmed =?s "") || ContainsAny trimmed shell_metacharacters then CommandNameUnknown
  else Base trimmed.

Definition CommandIdentityFrom (raw : string) : CommandIdentity :=
  let '(toks, valid) := commandPrefixTokens raw 3 in
  match valid, toks with
  | true, tok0 :: more =>
      let first := commandTokenName tok0 in
      if first <>?s "rtk" then mkCommandIdentity None first
      else
        let identity := mkCommandIdentity (Some "rtk") CommandNameUnknown in
        match more with
        | [] => identity
        | tok1 :: _ =>
            let commandIndex := if tok1 =?s "proxy" then 2%nat else 1%nat in
            match toks !! commandIndex with
            | None => identity
            | Some tok =>
                let candidate := commandTokenName tok in
                if (candidate <>?s "") && negb (HasPrefix candidate "-")
                then mkCommandIdentity (Some "rtk") candidate else identity
            end
        end
  | _, _ => mkCommandIdentity None CommandNameUnknown
  end.

Definition CommandIdentityOf (w : option string) (c : string) : CommandIdentity :=
  mkCommandIdentity w (if TrimSpace c =?s "" then CommandNameUnknown else c).

(** The [Command] accessor. *)
Definition Command (i : CommandIdentity) : string :=
  if TrimSpace (command i) =?s "" then CommandNameUnknown else command i.

Example identity_examples :
  CommandIdentityFrom "rtk proxy /usr/bin/git status" = mkCommandIdentity (Some "rtk") "git" /\
  CommandIdentityFrom "'/opt/my tools/run it' --now" = mkCommandIdentity None "run it" /\
  CommandIdentityFrom "$(whoami) x" = mkCommandIdentity None "unknown" /\
  CommandIdentityFrom "echo 'unterminated" = mkCommandIdentity None "unknown".
Proof. vm_compute. auto. Qed.

(** ** The last element of a path *)

Lemma last_index_chr c l i : 0 <= i ->
  (last_index_go [c] l i = -1 /\ c ∉ l) \/
  (i <= last_index_go [c] l i /\
   c ∉ drop (Z.to_nat (last_index_go [c] l i + 1 - i)) l).
Proof.
  revert i. induction l as [|a l IH]; intros i Hi.
  - left. split; [reflexivity|apply not_elem_of_nil].
  - destruct (IH (i + 1) ltac:(lia)) as [[E Hn]|[E Hn]]; cbn [last_index_go].
    + rewrite E. change (-1 =? -1) with true. cbn iota.
      destruct (is_prefix [c] (a :: l)) eqn:Ep.
      * right. split; [lia|]. replace (Z.to_nat (i + 1 - i)) with 1%nat by lia. exact Hn.
      * left. split; [done|]. intros [->|Hin]%elem_of_cons; [|done].
        cbn in Ep. by rewrite Ascii.eqb_refl in Ep.
    + set (j := last_index_go [c] l (i + 1)) in *.
      replace (j =? -1) with false by (symmetry; apply Z.eqb_neq; lia).
      right. split; [lia|].
      replace (Z.to_nat (j + 1 - i)) with (S (Z.to_nat (j + 1 - (i + 1)))) by lia. exact Hn.
Qed.

Lemma drop_trailing_incl c l a : a ∈ drop_trailing c l -> a ∈ l.
Proof.
  induction l as [|b l IH]; [done|]. cbn [drop_trailing]. destruct (Ascii.eqb b c); [|done].
  intros H. right. auto.
Qed.

Lemma elem_of_drop' {A} (x : A) n l : x ∈ drop n l -> x ∈ l.
Proof. intros H. rewrite <-(take_drop n l). apply elem_of_app. by right. Qed.

(** A base name is ["/"] or has no slash, and has no byte that was not there. *)
Lemma Base_spec p :
  (Base p = "/" \/ slash ∉ explode (Base p)) /\
  (forall c, c ∈ explode (Base p) -> c ∈ explode p \/ c = "."%char \/ c = slash).
Proof.
  unfold Base. destruct (p =?s "") eqn:Ep.
  { split; [right; vm_compute; intros H; by apply elem_of_cons in H as [H|H%not_elem_of_nil]|].
    intros c. change (explode ".") with ["."%char]. rewrite list_elem_of_singleton. auto. }
  set (q := implode (rev (drop_trailing slash (rev (explode p))))).
  assert (Hq : forall c, c ∈ explode q -> c ∈ explode p).
  { intros c. unfold q. rewrite explode_implode, elem_of_rev.
    intros H%drop_trailing_incl. by apply elem_of_rev. }
  cbn zeta. set (i := LastIndex q "/").
  set (b := if 0 <=? i then implode (drop (Z.to_nat (i + 1)) (explode q)) else q).
  assert (Hb : slash ∉ explode b /\ forall c, c ∈ explode b -> c ∈ explode p).
  { unfold b, i, LastIndex. change (explode "/") with [slash].
    destruct (last_index_chr slash (explode q) 0 ltac:(lia)) as [[-> Hn]|[Hle Hn]].
    - split; [exact Hn|exact Hq].
    - apply Z.leb_le in Hle. rewrite Hle, explode_implode, Z.sub_0_r in *.
      split; [exact Hn|]. intros c Hc%elem_of_drop'. auto. }
  destruct (b =?s "") eqn:Eb.
  - split; [by left|]. intros c. change (explode "/") with [slash]. rewrite list_elem_of_singleton. auto.
  - destruct Hb as [Hb1 Hb2]. split; [by right|]. auto.
Qed.

(** ** Properties of the names *)

Lemma ContainsAny_false s set : ContainsAny s set = false <-> forall c, c ∈ set -> c ∉ explode s.
Proof.
  unfold ContainsAny. rewrite <-not_true_iff_false, existsb_exists. split.
  - intros H c Hc Hs. apply H. exists c. split; [by apply list_elem_of_In|].
    apply existsb_exists. exists c. split; [by apply list_elem_of_In|apply Ascii.eqb_refl].
  - intros H (c & Hc & (d & Hd & ->%Ascii.eqb_eq)%existsb_exists).
    by apply (H d); apply list_elem_of_In.
Qed.

(** What every name the reader returns satisfies. *)
Definition name_ok (s : string) : Prop :=
  ContainsAny s shell_metacharacters = false /\ (s = "/" \/ slash ∉ explode s).

Lemma unknown_ok : name_ok CommandNameUnknown.
Proof.
  split; [reflexivity|]. right. vm_compute. intros H.
  repeat (apply elem_of_cons in H as [H|H]; [done|]). by apply not_elem_of_nil in H.
Qed.
Lemma token_name_ok t : name_ok (commandTokenName t).
Proof.
  unfold commandTokenName. destruct (_ || _) eqn:E; [apply unknown_ok|].
  apply orb_false_iff in E as [_ E]. destruct (Base_spec (TrimSpace t)) as [Hs Hc].
  split; [|exact Hs]. apply ContainsAny_false. intros c Hm [H|[->| ->]]%Hc.
  - by apply (proj1 (ContainsAny_false _ _) E c).
  - by vm_compute in Hm; repeat (apply elem_of_cons in Hm as [Hm|Hm]; [done|]);
      apply not_elem_of_nil in Hm.
  - by vm_compute in Hm; repeat (apply elem_of_cons in Hm as [Hm|Hm]; [done|]);
      apply not_elem_of_nil in Hm.
Qed.

Lemma Command_ok i : name_ok (command i) -> name_ok (Command i).
Proof. unfold Command. destruct (_ =?s _); [intros _; apply unknown_ok|auto]. Qed.
Lemma Command_nonblank i : TrimSpace (Command i) <> "".
Proof. unfold Command. destruct (_ =?s _) eqn:E; [vm_compute; done|by breflect]. Qed.

(** ** Reading quoted words *)

(** A word the single quotes of a shell can carry. *)
Definition quotable (w : string) : bool :=
  forallb (fun c => (byte_val c <? 128) && negb (Ascii.eqb c "'"%char)) (explode w).
Definition quote_word (w : string) : string := "'" +:+ w +:+ "'".
Definition ascii_string (s : string) : bool := forallb (fun c => byte_val c <? 128) (explode s).

Lemma range_runes_ascii s : ascii_string s = true -> range_runes s = map byte_val (explode s).
Proof.
  unfold ascii_string, range_runes. induction (explode s) as [|c l IH]; [done|].
  cbn [forallb]. intros [Hc Hl]%andb_true_iff. apply Z.ltb_lt in Hc.
  cbn [runes_go]. rewrite decode_rune_ascii by done. cbn. by rewrite <-IH.
Qed.
Lemma ascii_string_app s t : ascii_string (s +:+ t) = ascii_string s && ascii_string t.
Proof. unfold ascii_string. by rewrite explode_app, forallb_app. Qed.
Lemma quotable_ascii w : quotable w = true -> ascii_string w = true.
Proof.
  unfold quotable, ascii_string. rewrite !forallb_forall. intros H c Hc%H. by apply andb_true_iff in Hc as [? _].
Qed.

(** Inside single quotes every rune but the closing quote is copied. *)
Lemma scan_quoted limit ts b k l rest :
  forallb (fun c => (byte_val c <? 128) && negb (Ascii.eqb c "'"%char)) l = true ->
  scan limit (mkScanner ts b rune_single false k) (map byte_val l ++ rest) =
  scan limit (mkScanner ts (b ++ l) rune_single false (if l is [] then k else true)) rest.
Proof.
  revert b k. induction l as [|c l IH]; intros b k H; [by rewrite app_nil_r|].
  cbn [forallb] in H. apply andb_true_iff in H as [[Ha Hq]%andb_true_iff Hl].
  assert (Hc : (byte_val c =? rune_single) = false).
  { apply Z.eqb_neq. intros E. change rune_single with (byte_val "'"%char) in E.
    apply byte_val_inj in E. by rewrite E in Hq. }
  assert (Henc : encode_rune (byte_val c) = [c])
    by (unfold encode_rune; rewrite Ha; cbn; by rewrite byte_chr_val).
  change (map byte_val (c :: l) ++ rest) with (byte_val c :: (map byte_val l ++ rest)).
  cbn [scan]. unfold scan_rune. cbn [escaped quote].
  replace ((byte_val c =? rune_backslash) && negb (rune_single =? rune_single)) with false
    by (rewrite Z.eqb_refl, andb_false_r; reflexivity).
  change (negb (rune_single =? 0)) with true. cbn iota. rewrite Hc. cbn iota.
  unfold write. cbn [tokens builder quote]. rewrite Henc, IH by done.
  rewrite <-app_assoc. by destruct l.
Qed.

Definition quoted_words (ws : list string) : string := Join (map quote_word ws) " ".

(** A quoted word at the start of a command, between tokens. *)
Lemma scan_word limit ts w rest : quotable w = true ->
  scan limit (mkScanner ts [] 0 false false) (map byte_val (explode (quote_word w)) ++ rest) =
  scan limit (mkScanner ts (explode w) 0 false true) rest.
Proof.
  intros Hw. unfold quote_word. rewrite !explode_app, !map_app, <-!app_assoc.
  change (map byte_val (explode "'")) with [rune_single].
  change (scan limit (mkScanner ts [] rune_single false true)
            (map byte_val (explode w) ++ rune_single :: rest) =
          scan limit (mkScanner ts (explode w) 0 false true) rest).
  rewrite scan_quoted by exact Hw. cbn [app]. by destruct (explode w).
Qed.

Lemma flush_word limit ts w :
  flush limit (mkScanner ts (explode w) 0 false true) =
  (mkScanner (ts ++ [w]) [] 0 false false, limit <=? llen (ts ++ [w])).
Proof. unfold flush. cbn. by rewrite implode_explode. Qed.

Lemma scan_words limit ws ts : Forall (fun w => quotable w = true) ws -> ws <> [] ->
  llen ts < limit ->
  scan limit (mkScanner ts [] 0 false false) (map byte_val (explode (quoted_words ws))) =
  (take (Z.to_nat limit) (ts ++ ws), true).
Proof.
  revert ts. induction ws as [|w ws IH]; intros ts Hws Hne Hts; [done|].
  inversion_clear Hws as [|? ? Hw Hrest]. destruct ws as [|w2 ws].
  - unfold quoted_words. cbn [map Join]. rewrite <-(app_nil_r (map _ _)), scan_word by done.
    cbn [scan escaped quote orb Z.eqb negb]. rewrite flush_word. cbn [fst tokens].
    rewrite take_ge; [done|]. rewrite length_app. cbn. unfold llen in Hts. lia.
  - unfold quoted_words. cbn [map]. change (Join (quote_word w :: quote_word w2 :: map quote_word ws) " ")
      with (quote_word w +:+ " " +:+ quoted_words (w2 :: ws)).
    rewrite !explode_app, !map_app, scan_word by done.
    change (map byte_val (explode " ")) with [32]. cbn [app scan].
    change (scan_rune limit (mkScanner ts (explode w) 0 false true) 32)
      with (flush limit (mkScanner ts (explode w) 0 false true)).
    rewrite flush_word. destruct (limit <=? llen (ts ++ [w])) eqn:El.
    + cbn [tokens]. apply Z.leb_le in El. unfold llen in *. rewrite length_app in El. cbn in El.
      f_equal. replace (ts ++ w :: w2 :: ws) with ((ts ++ [w]) ++ w2 :: ws) by (by rewrite <-app_assoc).
      replace (Z.to_nat limit) with (List.length (ts ++ [w])) by (rewrite length_app; cbn; lia).
      symmetry. apply (take_app_length (ts ++ [w])).
    + apply Z.leb_gt in El. rewrite IH by (done || lia). by rewrite <-app_assoc.
Qed.

Lemma quoted_words_ascii ws : Forall (fun w => quotable w = true) ws -> ascii_string (quoted_words ws) = true.
Proof.
  unfold quoted_words. induction 1 as [|w ws Hw Hws IH]; [done|].
  assert (Hq : ascii_string (quote_word w) = true).
  { unfold quote_word. rewrite !ascii_string_app, (quotable_ascii w) by done. done. }
  destruct ws as [|w2 ws]; [done|]. cbn [map] in *.
  change (Join (quote_word w :: quote_word w2 :: map quote_word ws) " ")
    with (quote_word w +:+ " " +:+ Join (quote_word w2 :: map quote_word ws) " ").
  by rewrite !ascii_string_app, Hq, IH.
Qed.

(** The reported identity of any command is safe to aggregate by: the
    wrapper is absent or [rtk], the name is never blank, holds no shell
    metacharacter (no substitution, no control operator), is a single path
    element, is not an option when a wrapper was removed, and survives being
    stored and restored.  The words themselves are read exactly: words written
    between single quotes, whatever they hold, come back as they are, up to
    the limit. *)
Theorem command_identity_exact raw :
  let i := CommandIdentityFrom raw in
  let stored := CommandIdentityOf (wrapper i) (Command i) in
  (wrapper i = None \/ wrapper i = Some "rtk") /\
  TrimSpace (Command i) <> "" /\
  ContainsAny (Command i) shell_metacharacters = false /\
  (Command i = "/" \/ slash ∉ explode (Command i)) /\
  (wrapper i <> None -> HasPrefix (Command i) "-" = false) /\
  (wrapper stored = wrapper i /\ Command stored = Command i) /\
  (forall ws limit, Forall (fun w => quotable w = true) ws -> ws <> [] -> 0 < limit ->
     commandPrefixTokens (quoted_words ws) limit = (take (Z.to_nat limit) ws, true)).
Proof.
  cbn zeta. set (i := CommandIdentityFrom raw).
  assert (Hi : (wrapper i = None \/ wrapper i = Some "rtk") /\ name_ok (command i) /\
    (wrapper i <> None -> HasPrefix (command i) "-" = false)).
  { unfold i, CommandIdentityFrom. destruct (commandPrefixTokens raw 3) as [toks valid].
    destruct valid; [destruct toks as [|tok0 more]|]; try by (split_and!; [auto|apply unknown_ok|done]).
    destruct (commandTokenName tok0 <>?s "rtk").
    { split_and!; [auto|apply token_name_ok|done]. }
    cbn zeta. destruct more as [|tok1 more]; [by (split_and!; [auto|apply unknown_ok|done])|].
    destruct (_ !! _) as [tok|]; [|by (split_and!; [auto|apply unknown_ok|done])].
    destruct (_ && negb (HasPrefix _ "-")) eqn:E; [|by (split_and!; [auto|apply unknown_ok|done])].
    apply andb_true_iff in E as [_ E%negb_true_iff]. split_and!; [auto|apply token_name_ok|done]. }
  destruct Hi as (Hw & Hn & Hd). pose proof (Command_ok i Hn) as [Hm Hs].
  split_and!; auto.
  - apply Command_nonblank.
  - intros H%Hd. unfold Command. by destruct (_ =?s _).
  - unfold CommandIdentityOf. pose proof (Command_nonblank i) as Hb%String.eqb_neq. rewrite Hb.
    unfold Command at 1. cbn [command]. by rewrite Hb.
  - intros ws limit Hws Hne Hl. unfold commandPrefixTokens.
    destruct (Z.leb_spec limit 0); [lia|].
    rewrite range_runes_ascii by (by apply quoted_words_ascii).
    unfold scanner0. by rewrite scan_words.
Qed.
