(* ===== verification/CommandAudit.v ===== *)
(** * Command audits

    [src/domain/model/command_audit.go] and [command_audit_restore.go]: the
    outcome recorded for a command and its restoration, and the truncation of
    its payloads, whose cut is [truncateAuditPayload] of
    [src/application/usecase/event_usecase_impl.go].  A method with a nil
    guard does nothing on a nil receiver; the model is of the others. *)

From S2P Require Import Prelude GoStrings Labels CommandIdentity.

Definition IsFailure (r : string) : bool :=
  (r =?s CommandFailureReasonExitCode) || (r =?s CommandFailureReasonSignal)
  || (r =?s CommandFailureReasonTimeout) || (r =?s CommandFailureReasonHookDenied)
  || (r =?s CommandFailureReasonHostError).

(** ** Truncation markers *)

Definition auditTruncationMarkerPrefix : string := "...[truncated original_bytes=".
Definition auditTruncationMarkerSuffix : string := "]...".

Definition AuditPayloadTruncationMarker (originalBytes : Z) : string :=
  if originalBytes <=? 0 then auditTruncationMarkerPrefix +:+ "0" +:+ auditTruncationMarkerSuffix
  else auditTruncationMarkerPrefix +:+ Itoa originalBytes +:+ auditTruncationMarkerSuffix.

Definition AuditPayloadOriginalBytesFromTruncationMarker (payload : string) : Z :=
  let markerIndex := LastIndex payload auditTruncationMarkerPrefix in
  if markerIndex <? 0 then 0
  else
    let valueStart := markerIndex + slen auditTruncationMarkerPrefix in
    let suffixIndex := Index (slice_from payload valueStart) auditTruncationMarkerSuffix in
    if suffixIndex <? 0 then 0
    else match Atoi (slice_to (slice_from payload valueStart) suffixIndex) with
         | None => 0
         | Some value => value
         end.

Definition inferAuditPayloadOriginalBytes (payload : string) (truncated : bool) : Z :=
  if negb truncated then 0 else AuditPayloadOriginalBytesFromTruncationMarker payload.

(** ** The audit *)

Record ReadOnlyOutputMetadata := mkReadOnlyOutputMetadata {
  paths : list string; bytes_ : Z; sha256_ : string; truncated_ : bool }.
Record CommandAudit := mkCommandAudit {
  eventID : string; command_ : string; commandIdentity : CommandIdentity; input : string; output : string;
  inputTruncated : bool; outputTruncated : bool; inputOriginalBytes : Z; outputOriginalBytes : Z;
  inputRedacted : bool; outputRedacted : bool; exitCode : option Z; failed : bool;
  failureReason : string; outputMetadata : option ReadOnlyOutputMetadata }.

Definition NewCommandAudit (eid cmd inp out : string) (inpTruncated outTruncated : bool) : result CommandAudit :=
  let trimmedCommand := TrimSpace cmd in
  if trimmedCommand =?s "" then Err (Errorf "command must not be empty" [])
  else Ok (mkCommandAudit eid trimmedCommand (CommandIdentityFrom trimmedCommand) inp out
             inpTruncated outTruncated
             (inferAuditPayloadOriginalBytes inp inpTruncated)
             (inferAuditPayloadOriginalBytes out outTruncated)
             false false None false CommandFailureReasonUnknown None).

Definition CommandAuditOf (eid cmd inp out : string) (inpTruncated outTruncated : bool)
    (code : option Z) (fail : bool) : CommandAudit :=
  mkCommandAudit eid cmd (CommandIdentityOf None CommandNameUnknown) inp out inpTruncated outTruncated
    (inferAuditPayloadOriginalBytes inp inpTruncated) (inferAuditPayloadOriginalBytes out outTruncated)
    false false code fail CommandFailureReasonUnknown None.

Definition RebindEventID (a : CommandAudit) (eid : string) : CommandAudit :=
  match EventIDFrom eid with
  | Ok parsed =>
      mkCommandAudit parsed (command_ a) (commandIdentity a) (input a) (output a) (inputTruncated a)
        (outputTruncated a) (inputOriginalBytes a) (outputOriginalBytes a) (inputRedacted a)
        (outputRedacted a) (exitCode a) (failed a) (failureReason a) (outputMetadata a)
  | Err _ => a
  end.

Definition SetOriginalPayloadBytes (a : CommandAudit) (inputBytes outputBytes : Z) : CommandAudit :=
  mkCommandAudit (eventID a) (command_ a) (commandIdentity a) (input a) (output a) (inputTruncated a)
    (outputTruncated a)
    (if inputTruncated a && (0 <? inputBytes) then inputBytes else inputOriginalBytes a)
    (if outputTruncated a && (0 <? outputBytes) then outputBytes else outputOriginalBytes a)
    (inputRedacted a) (outputRedacted a) (exitCode a) (failed a) (failureReason a) (outputMetadata a).

Definition SetRedaction (a : CommandAudit) (inp out : bool) : CommandAudit :=
  mkCommandAudit (eventID a) (command_ a) (commandIdentity a) (input a) (output a) (inputTruncated a)
    (outputTruncated a) (inputOriginalBytes a) (outputOriginalBytes a) inp out (exitCode a) (failed a)
    (failureReason a) (outputMetadata a).

Definition SetReadOnlyOutputMetadata (a : CommandAudit) (metadata : ReadOnlyOutputMetadata) : CommandAudit :=
  mkCommandAudit (eventID a) (command_ a) (commandIdentity a) (input a) (output a) (inputTruncated a)
    (outputTruncated a) (inputOriginalBytes a) (outputOriginalBytes a) (inputRedacted a) (outputRedacted a)
    (exitCode a) (failed a) (failureReason a) (Some metadata).

(** The [FailureReason] accessor. *)
Definition FailureReason (a : CommandAudit) : string :=
  if failureReason a =?s "" then CommandFailureReasonUnknown else failureReason a.

Definition set_outcome (a : CommandAudit) (code : option Z) (fail : bool) (reason : string) : CommandAudit :=
  mkCommandAudit (eventID a) (command_ a) (commandIdentity a) (input a) (output a) (inputTruncated a)
    (outputTruncated a) (inputOriginalBytes a) (outputOriginalBytes a) (inputRedacted a) (outputRedacted a)
    code fail reason (outputMetadata a).

(** The receiver after the call, beside the error. *)
Definition ClassifyOutcome (a : CommandAudit) (code : option Z) (reportedReason : string)
    (structuralFailure : bool) : CommandAudit * option error :=
  let reason := if reportedReason =?s "" then CommandFailureReasonUnknown else reportedReason in
  match CommandFailureReasonFrom reason with
  | Err err => (a, Some (Wrap "invalid command failure reason: %w" [] err))
  | Ok validated =>
      match code with
      | Some c =>
          if c =? 0 then (set_outcome a code false CommandFailureReasonNone, None)
          else
            let r := if (validated =?s CommandFailureReasonSignal) || (validated =?s CommandFailureReasonTimeout)
                        || (validated =?s CommandFailureReasonHookDenied)
                     then validated else CommandFailureReasonExitCode in
            (set_outcome a code true r, None)
      | None =>
          let r := if (validated =?s CommandFailureReasonUnknown) && structuralFailure
                   then CommandFailureReasonHostError else validated in
          (set_outcome a None (IsFailure r) r, None)
      end
  end.

Definition SetExitCode (a : CommandAudit) (code : option Z) : CommandAudit :=
  fst (ClassifyOutcome a code (failureReason a) (failed a)).
Definition SetFailed (a : CommandAudit) (fail : bool) : CommandAudit :=
  fst (ClassifyOutcome a (exitCode a) (failureReason a) fail).

(** ** Restoration *)

Record CommandAuditSnapshot := mkCommandAuditSnapshot {
  EventID : string; CommandText : string; Wrapper : option string; CommandName : string;
  Input : string; Output : string; InputTruncated : bool; OutputTruncated : bool;
  InputOriginalBytes : Z; OutputOriginalBytes : Z; ExitCode : option Z; Failed : bool;
  SnapshotReason : string; OutputMetadata : option ReadOnlyOutputMetadata }.

(** The reasons that may stand beside a non-zero exit code. *)
Definition nonzero_reason (r : string) : bool :=
  (r =?s CommandFailureReasonUnknown) || (r =?s CommandFailureReasonExitCode)
  || (r =?s CommandFailureReasonSignal) || (r =?s CommandFailureReasonTimeout)
  || (r =?s CommandFailureReasonHookDenied).

(** The exit code checks of the restoration. *)
Definition check_exit_code (code : option Z) (r : string) : result unit :=
  match code with
  | None => Ok tt
  | Some c =>
      if (c =? 0) && IsFailure r
      then Err (Errorf "restore command audit: exit code zero cannot be a failure" [])
      else if negb (c =? 0) && (r =?s CommandFailureReasonNone)
      then Err (Errorf "restore command audit: non-zero exit code cannot have no failure reason" [])
      else if negb (c =? 0) && negb (nonzero_reason r)
      then Err (Errorf "restore command audit: non-zero exit code cannot have failure reason %s" [r])
      else Ok tt
  end.

Definition commandAuditFromSnapshot (snapshot : CommandAuditSnapshot) (cmd : string) : result CommandAudit :=
  let commandName := if TrimSpace (CommandName snapshot) =?s "" then CommandNameUnknown
                     else CommandName snapshot in
  let reason := if SnapshotReason snapshot =?s "" then CommandFailureReasonUnknown
                else SnapshotReason snapshot in
  match CommandFailureReasonFrom reason with
  | Err err => Err (Wrap "restore command audit failure reason: %w" [] err)
  | Ok r =>
      let! _ := check_exit_code (ExitCode snapshot) r in
      if (r <>?s CommandFailureReasonUnknown) && negb (Bool.eqb (Failed snapshot) (IsFailure r))
      then Err (Errorf "restore command audit: failed flag contradicts structured failure reason" [])
      else
        let fail := if r <>?s CommandFailureReasonUnknown then IsFailure r else Failed snapshot in
        Ok (mkCommandAudit (EventID snapshot) cmd (CommandIdentityOf (Wrapper snapshot) commandName)
              (Input snapshot) (Output snapshot) (InputTruncated snapshot) (OutputTruncated snapshot)
              (InputOriginalBytes snapshot) (OutputOriginalBytes snapshot) false false
              (ExitCode snapshot) fail r (OutputMetadata snapshot))
  end.

Definition CommandAuditFromSnapshot (snapshot : CommandAuditSnapshot) : result CommandAudit :=
  let cmd := TrimSpace (CommandText snapshot) in
  if cmd =?s "" then Err (Errorf "restore command audit: command must not be empty" [])
  else commandAuditFromSnapshot snapshot cmd.

Definition CommandAuditFromListingMetadata (snapshot : CommandAuditSnapshot) : result CommandAudit :=
  commandAuditFromSnapshot snapshot (TrimSpace (CommandText snapshot)).

(** ** Outcomes *)

(** A recorded outcome that does not contradict itself. *)
Definition outcome_ok (code : option Z) (fail : bool) (reason : string) : Prop :=
  reason ∈ knownCommandFailureReasons /\ fail = IsFailure reason /\
  match code with
  | None => True
  | Some c => if c =? 0 then reason = CommandFailureReasonNone
              else fail = true /\ reason <> CommandFailureReasonHostError
  end.
Definition coherent (a : CommandAudit) : Prop := outcome_ok (exitCode a) (failed a) (failureReason a).
Definition named (a : CommandAudit) : Prop := TrimSpace (command_ a) = command_ a /\ command_ a <> "".

(** Every call on an audit; refused ones are steps too. *)
Inductive audit_step : CommandAudit -> CommandAudit -> Prop :=
| step_rebind a eid : audit_step a (RebindEventID a eid)
| step_bytes a i o : audit_step a (SetOriginalPayloadBytes a i o)
| step_redaction a i o : audit_step a (SetRedaction a i o)
| step_metadata a m : audit_step a (SetReadOnlyOutputMetadata a m)
| step_classify a code reason structural : audit_step a (fst (ClassifyOutcome a code reason structural))
| step_exit_code a code : audit_step a (SetExitCode a code)
| step_failed a fail : audit_step a (SetFailed a fail).

(** The reason a reported value stands for. *)
Definition reported (reason : string) : string :=
  if reason =?s "" then CommandFailureReasonUnknown else TrimSpace reason.

Lemma reported_read reason r :
  CommandFailureReasonFrom (if reason =?s "" then CommandFailureReasonUnknown else reason) = Ok r <->
  r = reported reason /\ r ∈ knownCommandFailureReasons.
Proof.
  rewrite label_spec. unfold reported. by destruct (reason =?s "").
Qed.

(** The outcome [ClassifyOutcome] stores for accepted evidence. *)
Lemma classify_cases a code reason structural :
  (reported reason ∉ knownCommandFailureReasons /\ exists e,
     ClassifyOutcome a code reason structural = (a, Some e)) \/
  (reported reason ∈ knownCommandFailureReasons /\ exists fail r,
     ClassifyOutcome a code reason structural = (set_outcome a code fail r, None) /\
     outcome_ok code fail r /\
     match code with
     | Some c => if c =? 0 then fail = false
                 else fail = true /\
                   r = if bool_decide (reported reason ∈ [CommandFailureReasonSignal;
                            CommandFailureReasonTimeout; CommandFailureReasonHookDenied])
                       then reported reason else CommandFailureReasonExitCode
     | None => r = if (reported reason =?s CommandFailureReasonUnknown) && structural
                   then CommandFailureReasonHostError else reported reason
     end).
Proof.
  unfold ClassifyOutcome. cbn zeta.
  destruct (CommandFailureReasonFrom _) as [v|e] eqn:Hv.
  - apply reported_read in Hv as [-> Hin]. right. split; [done|].
    destruct code as [c|]; [destruct (c =? 0) eqn:Ec|]; cbn iota.
    + eexists _, _. split; [reflexivity|]. split; [|done]. split_and!; [by right; left|reflexivity|].
      by rewrite Ec.
    + assert (Hb : (reported reason =?s CommandFailureReasonSignal)
        || (reported reason =?s CommandFailureReasonTimeout)
        || (reported reason =?s CommandFailureReasonHookDenied) =
        bool_decide (reported reason ∈ [CommandFailureReasonSignal;
                       CommandFailureReasonTimeout; CommandFailureReasonHookDenied])).
      { apply eq_true_iff_eq. rewrite bool_decide_eq_true, !orb_true_iff, !String.eqb_eq.
        rewrite !elem_of_cons, elem_of_nil. tauto. }
      rewrite Hb. destruct (bool_decide _) eqn:Ed; (eexists _, _; split; [reflexivity|]);
        (split; [|done]); unfold outcome_ok; rewrite Ec.
      * apply bool_decide_eq_true in Ed. split; [done|].
        rewrite !elem_of_cons, elem_of_nil in Ed.
        by destruct Ed as [Ed|[Ed|[Ed|Ed]]]; rewrite ?Ed.
      * split_and!; [by do 2 right; left|reflexivity|reflexivity|done].
    + eexists _, _. split; [reflexivity|]. split; [|done]. split_and!; [|reflexivity|done].
      destruct (_ && _); [by do 6 right; left|done].
  - left. split; [|by eexists]. intros Hin.
    by rewrite (proj2 (reported_read _ _) (conj eq_refl Hin)) in Hv.
Qed.

Lemma classify_ok a code reason structural :
  coherent a -> coherent (fst (ClassifyOutcome a code reason structural)).
Proof.
  intros Ha. destruct (classify_cases a code reason structural)
    as [(_ & e & ->)|(_ & fail & r & -> & Ho & _)]; done.
Qed.
Lemma classify_named a code reason structural :
  named a -> named (fst (ClassifyOutcome a code reason structural)).
Proof.
  intros Ha. destruct (classify_cases a code reason structural)
    as [(_ & e & ->)|(_ & fail & r & -> & Ho & _)]; done.
Qed.

Lemma audit_step_ok a b : coherent a /\ named a -> audit_step a b -> coherent b /\ named b.
Proof.
  intros [Hc Hn] Hs. destruct Hs; try done.
  - unfold RebindEventID. by destruct (EventIDFrom eid).
  - split; [by apply classify_ok|by apply classify_named].
  - split; [by apply classify_ok|by apply classify_named].
  - split; [by apply classify_ok|by apply classify_named].
Qed.

Lemma new_audit_ok eid cmd i o it ot a :
  NewCommandAudit eid cmd i o it ot = Ok a -> coherent a /\ named a.
Proof.
  unfold NewCommandAudit. cbn zeta. destruct (_ =?s _) eqn:E; [done|]. intros [= <-]. breflect.
  split; [split_and!; [by left|reflexivity|done]|]. split; [apply TrimSpace_idemp|exact E].
Qed.

(** What persistence reads from an audit, and what it does not keep: the
    redaction flags, and the stored form of a blank command name. *)
Definition audit_snapshot (a : CommandAudit) : CommandAuditSnapshot :=
  mkCommandAuditSnapshot (eventID a) (command_ a) (wrapper (commandIdentity a))
    (Command (commandIdentity a)) (input a) (output a) (inputTruncated a) (outputTruncated a)
    (inputOriginalBytes a) (outputOriginalBytes a) (exitCode a) (failed a) (FailureReason a)
    (outputMetadata a).
Definition persisted (a : CommandAudit) : CommandAudit :=
  mkCommandAudit (eventID a) (command_ a)
    (CommandIdentityOf (wrapper (commandIdentity a)) (Command (commandIdentity a)))
    (input a) (output a) (inputTruncated a) (outputTruncated a) (inputOriginalBytes a)
    (outputOriginalBytes a) false false (exitCode a) (failed a) (failureReason a) (outputMetadata a).

Lemma failure_reasons_clean r : r ∈ knownCommandFailureReasons -> TrimSpace r = r /\ r <> "".
Proof. exact (known_clean knownCommandFailureReasons eq_refl r). Qed.

Lemma check_exit_code_ok code fail r : outcome_ok code fail r -> check_exit_code code r = Ok tt.
Proof.
  intros (Hin & -> & Hc). unfold check_exit_code. destruct code as [c|]; [|done].
  destruct (c =? 0); [by rewrite Hc|]. cbn [andb negb].
  destruct Hc as [Hf Hh]. unfold IsFailure, nonzero_reason in *.
  destruct (r =?s CommandFailureReasonNone) eqn:En; [by apply String.eqb_eq in En; subst r|].
  apply String.eqb_neq in Hh. rewrite Hh, orb_false_r in Hf.
  rewrite <-!orb_assoc in Hf. rewrite <-!orb_assoc, Hf, orb_true_r. done.
Qed.

Lemma coherent_restored a : coherent a -> named a ->
  CommandAuditFromSnapshot (audit_snapshot a) = Ok (persisted a).
Proof.
  intros Ha [Ht Hne%String.eqb_neq].
  unfold CommandAuditFromSnapshot, audit_snapshot, persisted, commandAuditFromSnapshot.
  cbn [CommandText CommandName SnapshotReason ExitCode Failed EventID Wrapper Input Output InputTruncated
       OutputTruncated InputOriginalBytes OutputOriginalBytes OutputMetadata].
  rewrite Ht, Hne. cbn zeta.
  pose proof (Command_nonblank (commandIdentity a)) as Hb%String.eqb_neq. rewrite Hb.
  destruct Ha as (Hin & Hf & Hc). destruct (failure_reasons_clean _ Hin) as [Hr Hrne%String.eqb_neq].
  unfold FailureReason. rewrite !Hrne.
  rewrite (proj2 (label_spec _ _) (conj (eq_sym Hr) Hin)).
  rewrite (check_exit_code_ok (exitCode a) (failed a)) by (split_and!; done).
  rewrite Hf, eqb_reflx, andb_false_r. by destruct (_ <>?s _).
Qed.

(** Redundant or legacy rows: what a restored audit says once its reason is known. *)
Lemma restored_coherent sn a : CommandAuditFromSnapshot sn = Ok a ->
  failureReason a ∈ knownCommandFailureReasons /\
  (failureReason a <> CommandFailureReasonUnknown -> coherent a).
Proof.
  unfold CommandAuditFromSnapshot, commandAuditFromSnapshot. cbn zeta.
  destruct (_ =?s ""); [done|]. destruct (CommandFailureReasonFrom _) as [r|] eqn:Hr; [|done].
  destruct (check_exit_code (ExitCode sn) r) eqn:Hx; [|done].
  destruct ((r <>?s CommandFailureReasonUnknown) && _) eqn:Hf; [done|].
  intros [= <-]. apply reported_read in Hr as [_ Hin]. split; [exact Hin|].
  cbn [failureReason]. intros Hne%String.eqb_neq. rewrite Hne in Hf.
  unfold coherent. cbn [failureReason exitCode failed]. rewrite Hne. cbn [negb].
  split_and!; [exact Hin|reflexivity|]. unfold check_exit_code in Hx.
  destruct (ExitCode sn) as [c|]; [|done]. destruct (c =? 0).
  - destruct (IsFailure r) eqn:Hi; [done|].
    assert (Hall : forallb (fun r => IsFailure r || (r =?s CommandFailureReasonUnknown)
      || (r =?s CommandFailureReasonNone)) knownCommandFailureReasons = true) by reflexivity.
    rewrite forallb_forall in Hall. apply list_elem_of_In, Hall in Hin.
    rewrite Hi, Hne in Hin. by apply String.eqb_eq in Hin.
  - cbn [negb andb] in Hx. destruct (r =?s CommandFailureReasonNone); [done|].
    destruct (nonzero_reason r) eqn:Hn; [|done]. unfold nonzero_reason in Hn. rewrite Hne in Hn.
    cbn [orb] in Hn. unfold IsFailure. rewrite Hn. split; [reflexivity|]. intros ->. done.
Qed.

(** The recorded outcome of a command never contradicts itself: after
    whatever calls on a new audit, the failure flag is what the reason says, a
    zero exit code stands beside [none] and a non-zero one beside a failure
    other than a host error; such an audit is restored from what is persisted
    of it (the redaction flags are not).  New evidence is refused as a whole
    or decides the outcome: a zero exit code is success whatever else is
    reported, a non-zero one is the reported signal, timeout or denial and
    otherwise [exit_code], and without a code a structural failure turns
    missing evidence into a host error.  A restored row with a known reason
    is coherent too. *)
Theorem audit_outcome_exact eid cmd i o it ot a0 a :
  NewCommandAudit eid cmd i o it ot = Ok a0 -> star audit_step a0 a ->
  coherent a /\ CommandAuditFromSnapshot (audit_snapshot a) = Ok (persisted a) /\
  (forall code reason structural,
     let '(b, err) := ClassifyOutcome a code reason structural in
     if bool_decide (reported reason ∈ knownCommandFailureReasons)
     then err = None /\ coherent b /\ exitCode b = code /\
       match code with
       | Some 0 => failed b = false /\ failureReason b = CommandFailureReasonNone
       | Some _ => failed b = true /\
           failureReason b = if bool_decide (reported reason ∈ [CommandFailureReasonSignal;
                               CommandFailureReasonTimeout; CommandFailureReasonHookDenied])
                             then reported reason else CommandFailureReasonExitCode
       | None => failed b = IsFailure (reported reason)
                   || (reported reason =?s CommandFailureReasonUnknown) && structural
       end
     else b = a /\ is_Some err) /\
  (forall sn b, CommandAuditFromSnapshot sn = Ok b ->
     failureReason b ∈ knownCommandFailureReasons /\
     (failureReason b <> CommandFailureReasonUnknown -> coherent b)).
Proof.
  intros Hnew Hsteps. apply new_audit_ok in Hnew.
  apply (star_invariant audit_step (fun a => coherent a /\ named a)) in Hsteps as [Hc Hn];
    [|apply audit_step_ok|exact Hnew].
  split_and!; [done|by apply coherent_restored| |apply restored_coherent].
  intros code reason structural.
  destruct (classify_cases a code reason structural)
    as [(Hin & e & ->)|(Hin & fail & r & -> & Ho & Hm)].
  - rewrite bool_decide_false by done. split; [done|by eexists].
  - rewrite bool_decide_true by done. split_and!; [done|exact Ho|done|].
    cbn [set_outcome failed failureReason]. destruct Ho as (Hr & Hf & Hx).
    destruct code as [c|].
    + destruct (Z.eqb_spec c 0) as [->|Hc0]; [by split|]. destruct c; done.
    + subst r fail. destruct (String.eqb_spec (reported reason) CommandFailureReasonUnknown) as [->|Hu].
      * by destruct structural.
      * cbn [andb]. by rewrite orb_false_r.
Qed.

Definition ex_audit : CommandAudit :=
  match NewCommandAudit "e-1" " go test ./... " "" "" false false with Ok a => a
  | Err _ => CommandAuditOf "" "" "" "" false false None false end.
Definition ex_timeout : CommandAudit := fst (ClassifyOutcome ex_audit (Some 124) "timeout" false).

Lemma audit_outcome_exact_witness :
  coherent ex_timeout /\ CommandAuditFromSnapshot (audit_snapshot ex_timeout) = Ok (persisted ex_timeout).
Proof.
  destruct (audit_outcome_exact "e-1" " go test ./... " "" "" false false ex_audit ex_timeout)
    as (H1 & H2 & _); [vm_compute; reflexivity|apply star_one, step_classify|].
  split; [exact H1|exact H2].
Defined.

(** [SetFailed] classifies again from the reason already stored, so it does
    not mark what its comment says once a reason is known. *)
Example SetFailed_not_stored :
  let hostError := SetFailed ex_audit true in
  let success := SetExitCode ex_audit (Some 0) in
  failed hostError = true /\ failed (SetFailed hostError false) = true /\
  failed (SetFailed (SetExitCode success None) true) = false.
Proof. vm_compute. auto. Qed.
