(* ===== verification/Truncation.v ===== *)
(** * Truncated audit payloads

    [truncateAuditPayload] and its helpers in
    [src/application/usecase/event_usecase_impl.go]: a payload over the limit
    keeps a head and a tail, cut between runes, around the marker that
    [CommandAudit.v] reads the original size back from.  The two loops run
    with the payload's length as fuel: each round consumes a byte at least. *)

From S2P Require Import Prelude GoStrings CommandAudit.

Record auditPayloadTruncation := mkTruncation { Body : string; Truncated : bool; OriginalBytes : Z }.

(** ** utf8.DecodeLastRuneInString

    The library scans back from the last byte to the nearest byte that is not
    a continuation byte, over five bytes at most, and decodes from there. *)

Definition RuneStart (c : ascii) : bool := negb (cont (byte_val c)).

(** [front] is what precedes the last [k - 1] bytes, reversed; the result is
    the number of bytes to decode. *)
Fixpoint window (fuel : nat) (front : list ascii) (k : nat) : nat :=
  match front with
  | [] => pred k
  | c :: t => match fuel with
              | O => k
              | S fuel' => if RuneStart c then k else window fuel' t (S k)
              end
  end.
(** On the reversed bytes of the string. *)
Definition decode_last_rune (rl : list ascii) : Z * nat :=
  match rl with
  | [] => (RuneError, 0%nat)
  | c :: t =>
      if byte_val c <? 128 then (byte_val c, 1%nat)
      else
        let k := window 3 t 2 in
        let '(r, size) := decode_rune (rev (take k rl)) in
        if negb (size =? k)%nat then (RuneError, 1%nat) else (r, size)
  end.

(** ** The cuts *)

(** The loop of [takeUTF8PrefixBytes]: [rest] is [value[end:]]. *)
Fixpoint prefix_loop (fuel : nat) (rest : list ascii) (end_ limit : Z) : Z :=
  match fuel, rest with
  | S fuel', _ :: _ =>
      let '(r, size) := decode_rune rest in
      if (r =? RuneError) && (size =? 0)%nat then end_
      else if limit <? end_ + Z.of_nat size then end_
      else prefix_loop fuel' (drop size rest) (end_ + Z.of_nat size) limit
  | _, _ => end_
  end.
Definition takeUTF8PrefixBytes (value : string) (limit : Z) : string :=
  if limit <=? 0 then ""
  else if slen value <=? limit then value
  else slice_to value (prefix_loop (String.length value) (explode value) 0 limit).

(** The loop of [takeUTF8SuffixBytes]: [front] is [value[:start]] reversed and
    [kept] is [len(value) - start]. *)
Fixpoint suffix_loop (fuel : nat) (front : list ascii) (kept limit : Z) : Z :=
  match fuel, front with
  | S fuel', _ :: _ =>
      let '(r, size) := decode_last_rune front in
      if (r =? RuneError) && (size =? 0)%nat then kept
      else if limit <? kept + Z.of_nat size then kept
      else suffix_loop fuel' (drop size front) (kept + Z.of_nat size) limit
  | _, _ => kept
  end.
Definition takeUTF8SuffixBytes (value : string) (limit : Z) : string :=
  if limit <=? 0 then ""
  else if slen value <=? limit then value
  else slice_from value
         (slen value - suffix_loop (String.length value) (rev (explode value)) 0 limit).

Definition newline : string := String "010"%char "".
Definition marker_line (originalBytes : Z) : string :=
  newline +:+ AuditPayloadTruncationMarker originalBytes +:+ newline.

Definition truncateAuditPayload (value : string) (limit : Z) : auditPayloadTruncation :=
  let originalBytes := slen value in
  if limit <=? 0 then mkTruncation value false originalBytes
  else if originalBytes <=? limit then mkTruncation value false originalBytes
  else
    let marker := marker_line originalBytes in
    if limit <=? slen marker then mkTruncation (takeUTF8PrefixBytes marker limit) true originalBytes
    else
      let payloadBudget := limit - slen marker in
      let headBudget := Z.quot payloadBudget 2 in
      let tailBudget := payloadBudget - headBudget in
      let head := takeUTF8PrefixBytes value headBudget in
      let tail := takeUTF8SuffixBytes value tailBudget in
      mkTruncation (head +:+ marker +:+ tail) true originalBytes.

Definition resolveAuditPayloadLimit (value defaultValue : Z) : result Z :=
  if value <? 0 then Err (Errorf "value must be greater than or equal to 0" [])
  else if value =? 0 then Ok defaultValue
  else Ok value.

(** ** Runes as chunks of bytes

    A valid string is a sequence of rune encodings; the loops cut between
    them, and anywhere else they keep within the budget all the same. *)

Definition rune_enc (c : list ascii) : bool :=
  match c with
  | [] => false
  | _ => let '(r, n) := decode_rune c in (n =? List.length c)%nat && negb ((r =? RuneError) && (n =? 1)%nat)
  end.
Definition valid_bytes (l : list ascii) : bool :=
  forallb (fun rw => negb ((fst rw =? RuneError) && (snd rw =? 1)%nat)) (runes_go 0 l).

Lemma decode_rune_width l : (snd (decode_rune l) <= List.length l)%nat /\ (snd (decode_rune l) <= 4)%nat /\
  (l <> [] -> (1 <= snd (decode_rune l))%nat).
Proof.
  destruct l as [|a [|b [|c [|d l]]]]; unfold decode_rune; cbn [take map];
    split_goal; cbn; (split; [lia|split; [lia|]]); try lia; done.
Qed.

Lemma runes_go_skip n l : runes_go n l = runes_go 0 (drop n l).
Proof.
  revert n. induction l as [|a l IH]; intros n; [by destruct n|].
  destruct n as [|n]; [done|]. cbn [runes_go drop]. apply IH.
Qed.
Lemma runes_go_cons a l :
  runes_go 0 (a :: l) = decode_rune (a :: l) :: runes_go 0 (drop (snd (decode_rune (a :: l))) (a :: l)).
Proof.
  cbn [runes_go]. rewrite runes_go_skip.
  destruct (decode_rune_width (a :: l)) as (_ & _ & H). specialize (H ltac:(done)).
  by destruct (snd (decode_rune (a :: l))); [lia|].
Qed.

(** A proper rune is decoded alike whatever follows it. *)
Lemma decode_rune_take l k : l <> [] ->
  negb ((fst (decode_rune l) =? RuneError) && (snd (decode_rune l) =? 1)%nat) = true ->
  decode_rune (take (snd (decode_rune l)) l ++ k) = decode_rune l.
Proof.
  intros Hne. destruct l as [|a [|b [|c [|d l]]]]; [done| | | |];
    unfold decode_rune at 1 2 4; cbn [take map]; split_goal; cbn [fst snd take app negb andb Nat.eqb Z.eqb];
    intros H; try done; unfold decode_rune; cbn [take map app];
    repeat match goal with E : ?x = _ |- context [?x] => rewrite E end; try done.
Qed.

Definition proper (rw : Z * nat) : bool := negb ((fst rw =? RuneError) && (snd rw =? 1)%nat).

Lemma rune_enc_spec c : rune_enc c = true <->
  c <> [] /\ snd (decode_rune c) = List.length c /\ proper (decode_rune c) = true.
Proof.
  unfold rune_enc, proper. destruct c as [|a c]; [by split; [|intros [? _]]|].
  destruct (decode_rune (a :: c)) as [r n]. cbn [fst snd].
  rewrite andb_true_iff, Nat.eqb_eq. split; [intros [? ?]; done|intros (_ & ? & ?); done].
Qed.

(** A rune encoding at the front of a string is what is decoded there. *)
Lemma decode_rune_chunk c k : rune_enc c = true -> decode_rune (c ++ k) = decode_rune c.
Proof.
  intros (Hne & Hn & Hp)%rune_enc_spec.
  pose proof (decode_rune_take c k Hne Hp) as H. by rewrite Hn, firstn_all in H.
Qed.

Lemma runes_chunk c k : rune_enc c = true -> runes_go 0 (c ++ k) = decode_rune c :: runes_go 0 k.
Proof.
  intros Hc. pose proof (decode_rune_chunk c k Hc) as Hd.
  apply rune_enc_spec in Hc as (Hne & Hn & _). destruct c as [|a c]; [done|].
  change ((a :: c) ++ k) with (a :: (c ++ k)) in *. rewrite runes_go_cons, Hd, Hn.
  f_equal. f_equal. change (a :: c ++ k) with ((a :: c) ++ k). by rewrite drop_app_length.
Qed.

Lemma valid_chunk_app c k : rune_enc c = true -> valid_bytes (c ++ k) = valid_bytes k.
Proof.
  intros Hc. unfold valid_bytes. rewrite runes_chunk by done.
  apply rune_enc_spec in Hc as (_ & _ & Hp). cbn [forallb]. unfold proper in Hp. by rewrite Hp.
Qed.

Definition runes_of (cs : list (list ascii)) : Prop := Forall (fun c => rune_enc c = true) cs.

Lemma valid_concat cs k : runes_of cs -> valid_bytes (concat cs ++ k) = valid_bytes k.
Proof.
  induction 1 as [|c cs Hc _ IH]; [done|]. cbn [concat]. rewrite <-app_assoc.
  by rewrite valid_chunk_app.
Qed.

Lemma valid_chunks l : valid_bytes l = true <-> exists cs, l = concat cs /\ runes_of cs.
Proof.
  split.
  - remember (List.length l) as n eqn:Hn. revert l Hn.
    induction (lt_wf n) as [n _ IH]. intros l -> Hv. destruct l as [|a l]; [by exists []; split; [|constructor]|].
    unfold valid_bytes in Hv. rewrite runes_go_cons in Hv. cbn [forallb] in Hv.
    apply andb_true_iff in Hv as [Hp Hv]. destruct (decode_rune_width (a :: l)) as (Hl & _ & H1).
    specialize (H1 ltac:(done)). set (n := snd (decode_rune (a :: l))) in *.
    destruct (IH (List.length (drop n (a :: l)))) with (l := drop n (a :: l)) as (cs & Hcs & Hrs);
      [rewrite length_drop; cbn [List.length] in *; lia|done|exact Hv|].
    exists (take n (a :: l) :: cs). split; [cbn [concat]; by rewrite <-Hcs, take_drop|].
    constructor; [|done]. apply rune_enc_spec.
    assert (Ed : decode_rune (take n (a :: l)) = decode_rune (a :: l)).
    { rewrite <-(app_nil_r (take n (a :: l))). by apply decode_rune_take. }
    rewrite Ed. split_and!; [destruct n; [lia|done]| |exact Hp].
    rewrite length_take. fold n. lia.
  - intros (cs & -> & Hcs). rewrite <-(app_nil_r (concat cs)), valid_concat by done. done.
Qed.

Lemma valid_utf8_bytes s : valid_utf8 s = valid_bytes (explode s).
Proof. done. Qed.
Lemma valid_bytes_app l k : valid_bytes l = true -> valid_bytes (l ++ k) = valid_bytes k.
Proof. intros (cs & -> & Hcs)%valid_chunks. by apply valid_concat. Qed.

(** A rune of several bytes starts with a byte that is not a continuation byte
    and goes on with up to three continuation bytes. *)
Lemma rune_enc_shape a t : rune_enc (a :: t) = true ->
  (t = [] /\ byte_val a < 128) \/
  (t <> [] /\ 128 <= byte_val a /\ RuneStart a = true /\
   Forall (fun c => cont (byte_val c) = true) t /\ (List.length t <= 3)%nat).
Proof.
  intros (_ & Hn & Hp)%rune_enc_spec. unfold proper in Hp.
  destruct (Z.ltb_spec (byte_val a) 128) as [Ha|Ha].
  - rewrite decode_rune_ascii in Hn by done. left. by destruct t.
  - right.
    assert (Hs : forall lo hi, cont lo = false -> 192 <= lo -> in_range lo hi (byte_val a) = true -> RuneStart a = true).
    { intros lo hi _ Hlo [H%Z.leb_le _]%andb_true_iff. unfold RuneStart, cont, in_range.
      apply negb_true_iff, andb_false_iff. right. apply Z.leb_gt. lia. }
    assert (Hc : forall b lo hi, 128 <= lo -> hi <= 191 -> in_range lo hi (byte_val b) = true -> cont (byte_val b) = true).
    { intros b lo hi Hlo Hhi [H1%Z.leb_le H2%Z.leb_le]%andb_true_iff. unfold cont, in_range.
      apply andb_true_iff. split; apply Z.leb_le; lia. }
    assert (H3 : forall b lo hi, (lo = 128 \/ lo = 144 \/ lo = 160) -> (hi = 191 \/ hi = 159 \/ hi = 143) ->
      in_range lo hi (byte_val b) = true -> cont (byte_val b) = true)
      by (intros b lo hi ? ?; apply Hc; lia).
    revert Hn Hp. destruct t as [|b [|c [|d [|e t]]]]; unfold decode_rune; cbn [take map];
      rewrite (proj2 (Z.ltb_ge _ _) Ha); split_goal; cbn [fst snd List.length]; intros Hn Hp;
      try discriminate; breflect;
      (split; [done|split; [done|split; [eapply Hs; [| |eassumption]; [reflexivity|lia]|split; [|lia]]]]);
      repeat (apply List.Forall_cons; [first [eassumption|eapply H3; [| |eassumption]; repeat case_match; auto]|]);
      try apply List.Forall_nil.
Qed.

(** ** The last rune of a string *)

Lemma window_cont f u a v k : Forall (fun c => cont (byte_val c) = true) u -> RuneStart a = true ->
  (List.length u <= f)%nat -> window f (u ++ a :: v) k = (k + List.length u)%nat.
Proof.
  intros Hu Ha. revert f k. induction Hu as [|b u Hb Hu IH]; intros f k Hf; cbn [app List.length] in *.
  - destruct f; cbn [window]; rewrite ?Ha; lia.
  - destruct f as [|f]; [lia|]. cbn [window]. unfold RuneStart at 1. rewrite Hb. cbn [negb].
    rewrite IH by lia. lia.
Qed.

Lemma decode_last_chunk l c : rune_enc c = true ->
  decode_last_rune (rev (l ++ c)) = decode_rune c.
Proof.
  intros Hc. rewrite rev_app_distr. pose proof (proj1 (rune_enc_spec c) Hc) as (Hne & Hn & _).
  destruct c as [|a t]; [done|]. destruct (rune_enc_shape a t Hc) as [[-> Ha]|(Ht & Ha & Hs & Hcont & Hl)].
  - cbn [rev app]. unfold decode_last_rune. rewrite decode_rune_ascii by done.
    apply Z.ltb_lt in Ha. by rewrite Ha.
  - destruct (exists_last Ht) as (t' & z & ->). apply Forall_app in Hcont as [Ht' Hz].
    apply Forall_cons in Hz as [Hz _]. cbn [rev]. rewrite rev_app_distr. cbn [rev app].
    unfold decode_last_rune. set (rl := z :: ((rev t' ++ [a]) ++ rev l)).
    assert (Ez : byte_val z <? 128 = false).
    { apply Z.ltb_ge. unfold cont, in_range in Hz. breflect. lia. }
    rewrite Ez. rewrite length_app in Hl. cbn [List.length] in Hl.
    assert (Hw : window 3 ((rev t' ++ [a]) ++ rev l) 2 = List.length (a :: t' ++ [z])).
    { rewrite <-app_assoc. cbn [app]. rewrite window_cont; [|by apply Forall_rev|done|rewrite length_rev; lia].
      cbn [List.length]. rewrite length_rev, length_app. cbn. lia. }
    rewrite Hw. cbn zeta.
    assert (Et : take (List.length (a :: t' ++ [z])) rl = rev (a :: t' ++ [z])).
    { assert (E : rl = rev (a :: t' ++ [z]) ++ rev l).
      { unfold rl. cbn [rev]. rewrite rev_app_distr. reflexivity. }
      rewrite E. rewrite <-(length_rev (a :: t' ++ [z])). apply take_app_length. }
    rewrite Et, rev_involutive. destruct (decode_rune (a :: t' ++ [z])) as [r n]. cbn [snd] in Hn.
    subst n. by rewrite Nat.eqb_refl.
Qed.

Lemma decode_last_small rl : (snd (decode_last_rune rl) <= 4)%nat.
Proof.
  destruct rl as [|c t]; [cbn; lia|]. unfold decode_last_rune. destruct (_ <? _); [cbn; lia|].
  cbn zeta. set (k := window 3 t 2). pose proof (decode_rune_width (rev (take k (c :: t)))) as (_ & H & _).
  destruct (decode_rune (rev (take k (c :: t)))) as [r n]. destruct (negb _); cbn [snd] in *; lia.
Qed.
Lemma decode_last_width rl : (snd (decode_last_rune rl) <= List.length rl)%nat.
Proof.
  destruct rl as [|c t]; [done|]. unfold decode_last_rune. destruct (_ <? _); [cbn; lia|].
  cbn zeta. set (k := window 3 t 2).
  pose proof (decode_rune_width (rev (take k (c :: t)))) as [H _].
  destruct (decode_rune (rev (take k (c :: t)))) as [r n]. destruct (negb _); cbn [snd] in *; [cbn; lia|].
  rewrite length_rev, length_take in H. lia.
Qed.

Lemma window_pos f front k : (2 <= k)%nat -> (1 <= window f front k)%nat.
Proof.
  revert front k. induction f as [|f IH]; intros [|c t] k Hk; cbn [window]; try lia.
  destruct (RuneStart c); [lia|]. apply IH. lia.
Qed.
Lemma decode_last_pos c t : (1 <= snd (decode_last_rune (c :: t)))%nat.
Proof.
  unfold decode_last_rune. destruct (_ <? _); [cbn; lia|]. cbn zeta.
  set (k := window 3 t 2). assert (Hk : (1 <= k)%nat) by (apply window_pos; lia).
  destruct (decode_rune _) as [r n]. destruct (Nat.eqb_spec n k); cbn [negb snd]; lia.
Qed.

(** ** Where the loops stop *)

Section Loops.
Context (limit : Z).

Lemma prefix_loop_bounds fuel rest e : e <= limit ->
  e <= prefix_loop fuel rest e limit <= limit /\ prefix_loop fuel rest e limit <= e + llen rest.
Proof.
  revert rest e. induction fuel as [|f IH]; intros rest e He; [unfold llen; cbn; lia|].
  destruct rest as [|a l]; [unfold llen; cbn; lia|]. cbn [prefix_loop].
  pose proof (decode_rune_width (a :: l)) as [Hw _]. destruct (decode_rune (a :: l)) as [r n]. cbn [snd] in Hw.
  destruct (_ && _); [unfold llen; cbn; lia|]. destruct (Z.ltb_spec limit (e + Z.of_nat n)); [unfold llen; cbn; lia|].
  specialize (IH (drop n (a :: l)) (e + Z.of_nat n) ltac:(lia)). unfold llen in *.
  rewrite length_drop in IH. lia.
Qed.

Lemma suffix_loop_bounds fuel front e : e <= limit ->
  e <= suffix_loop fuel front e limit <= limit /\ suffix_loop fuel front e limit <= e + llen front.
Proof.
  revert front e. induction fuel as [|f IH]; intros front e He; [unfold llen; cbn; lia|].
  destruct front as [|a l]; [unfold llen; cbn; lia|]. cbn [suffix_loop].
  pose proof (decode_last_width (a :: l)) as Hw. destruct (decode_last_rune (a :: l)) as [r n]. cbn [snd] in Hw.
  destruct (_ && _); [unfold llen; cbn; lia|]. destruct (Z.ltb_spec limit (e + Z.of_nat n)); [unfold llen; cbn; lia|].
  specialize (IH (drop n (a :: l)) (e + Z.of_nat n) ltac:(lia)). unfold llen in *.
  rewrite length_drop in IH. lia.
Qed.

(** The payload's length is enough fuel: more changes nothing. *)
Lemma prefix_loop_fuel f g rest e : (List.length rest <= f)%nat -> (List.length rest <= g)%nat ->
  prefix_loop f rest e limit = prefix_loop g rest e limit.
Proof.
  revert g rest e. induction f as [|f IH]; intros g [|a l] e Hf Hg; cbn [List.length] in *;
    try lia; try (by destruct g). destruct g as [|g]; [lia|]. cbn [prefix_loop].
  destruct (decode_rune_width (a :: l)) as (_ & _ & Hw). specialize (Hw ltac:(done)).
  destruct (decode_rune (a :: l)) as [r n]. cbn [snd] in Hw. destruct (_ && _); [done|].
  destruct (limit <? _); [done|]. apply IH; rewrite length_drop; cbn [List.length]; lia.
Qed.
Lemma suffix_loop_fuel f g front e : (List.length front <= f)%nat -> (List.length front <= g)%nat ->
  suffix_loop f front e limit = suffix_loop g front e limit.
Proof.
  revert g front e. induction f as [|f IH]; intros g [|a l] e Hf Hg; cbn [List.length] in *;
    try lia; try (by destruct g). destruct g as [|g]; [lia|]. cbn [suffix_loop].
  pose proof (decode_last_pos a l) as Hw.
  destruct (decode_last_rune (a :: l)) as [r n]. cbn [snd] in Hw. destruct (_ && _); [done|].
  destruct (limit <? _); [done|]. apply IH; rewrite length_drop; cbn [List.length]; lia.
Qed.

(** A loop stops at the end or where the next rune does not fit. *)
Lemma prefix_loop_full fuel rest e : (List.length rest <= fuel)%nat -> e <= limit ->
  let n := prefix_loop fuel rest e limit in
  n = e + llen rest \/ limit < n + Z.of_nat (snd (decode_rune (drop (Z.to_nat (n - e)) rest))).
Proof.
  cbv zeta. revert rest e. induction fuel as [|f IH]; intros [|a l] e Hf He; cbn [List.length] in *;
    try lia; try (left; unfold llen; cbn; lia). cbn [prefix_loop].
  destruct (decode_rune_width (a :: l)) as (Hw & _ & Hp). specialize (Hp ltac:(done)).
  destruct (decode_rune (a :: l)) as [r n] eqn:Ed. cbn [snd] in Hw, Hp.
  destruct (Nat.eqb_spec n 0); [lia|]. rewrite andb_false_r. destruct (Z.ltb_spec limit (e + Z.of_nat n)) as [Hl|Hl].
  { right. rewrite Z.sub_diag. change (drop (Z.to_nat 0) (a :: l)) with (a :: l). by rewrite Ed. }
  pose proof (prefix_loop_bounds f (drop n (a :: l)) (e + Z.of_nat n) Hl) as [[Hge _] _].
  destruct (IH (drop n (a :: l)) (e + Z.of_nat n)) as [E|E]; [rewrite length_drop; cbn [List.length]; lia|done| |].
  - left. rewrite E. unfold llen. rewrite length_drop. lia.
  - right. rewrite drop_drop in E. set (m := prefix_loop _ _ _ _) in *.
    by replace (Z.to_nat (m - e)) with (n + Z.to_nat (m - (e + Z.of_nat n)))%nat by lia.
Qed.
Lemma suffix_loop_full fuel front e : (List.length front <= fuel)%nat -> e <= limit ->
  let n := suffix_loop fuel front e limit in
  n = e + llen front \/ limit < n + Z.of_nat (snd (decode_last_rune (drop (Z.to_nat (n - e)) front))).
Proof.
  cbv zeta. revert front e. induction fuel as [|f IH]; intros [|a l] e Hf He; cbn [List.length] in *;
    try lia; try (left; unfold llen; cbn; lia). cbn [suffix_loop].
  pose proof (decode_last_width (a :: l)) as Hw. pose proof (decode_last_pos a l) as Hp.
  destruct (decode_last_rune (a :: l)) as [r n] eqn:Ed. cbn [snd] in Hw, Hp.
  destruct (Nat.eqb_spec n 0); [lia|]. rewrite andb_false_r. destruct (Z.ltb_spec limit (e + Z.of_nat n)) as [Hl|Hl].
  { right. rewrite Z.sub_diag. change (drop (Z.to_nat 0) (a :: l)) with (a :: l). by rewrite Ed. }
  pose proof (suffix_loop_bounds f (drop n (a :: l)) (e + Z.of_nat n) Hl) as [[Hge _] _].
  destruct (IH (drop n (a :: l)) (e + Z.of_nat n)) as [E|E]; [rewrite length_drop; cbn [List.length]; lia|done| |].
  - left. rewrite E. unfold llen. rewrite length_drop. lia.
  - right. rewrite drop_drop in E. set (m := suffix_loop _ _ _ _) in *.
    by replace (Z.to_nat (m - e)) with (n + Z.to_nat (m - (e + Z.of_nat n)))%nat by lia.
Qed.

(** On whole runes the cut falls between two of them, and the next rune would
    not have fitted. *)
Lemma prefix_loop_runes cs : runes_of cs -> forall fuel e,
  (List.length (concat cs) <= fuel)%nat -> e <= limit ->
  exists pre post, cs = pre ++ post /\ prefix_loop fuel (concat cs) e limit = e + llen (concat pre) /\
    match post with [] => True | c :: _ => limit < e + llen (concat pre) + llen c end.
Proof.
  induction 1 as [|c cs Hc Hcs IH]; intros fuel e Hf He.
  { exists [], []. split_and!; [done| |done]. unfold llen. destruct fuel; cbn; lia. }
  pose proof (decode_rune_chunk c (concat cs) Hc) as Hd.
  apply rune_enc_spec in Hc as (Hne & Hn & Hp). cbn [concat] in *. rewrite length_app in Hf.
  destruct c as [|a c]; [done|]. destruct fuel as [|f]; [cbn in Hf; lia|].
  change ((a :: c) ++ concat cs) with (a :: (c ++ concat cs)) in *. cbn [prefix_loop].
  rewrite Hd. destruct (decode_rune (a :: c)) as [r n]. cbn [snd] in Hn. subst n.
  change (List.length (a :: c) =? 0)%nat with false. rewrite andb_false_r.
  destruct (Z.ltb_spec limit (e + Z.of_nat (List.length (a :: c)))) as [Hl|Hl].
  - exists [], ((a :: c) :: cs). split_and!; [done| |]; unfold llen; cbn in *; lia.
  - change (a :: c ++ concat cs) with ((a :: c) ++ concat cs). rewrite drop_app_length.
    destruct (IH f (e + Z.of_nat (List.length (a :: c)))) as (pre & post & -> & -> & Hnext);
      [cbn [List.length] in *; lia|lia|].
    exists ((a :: c) :: pre), post. split; [done|].
    cbn [concat]. unfold llen in *. rewrite length_app. split; [lia|]. destruct post; [done|lia].
Qed.

Lemma suffix_loop_runes cs : runes_of cs -> forall fuel e,
  (List.length (concat cs) <= fuel)%nat -> e <= limit ->
  exists pre post, cs = pre ++ post /\
    suffix_loop fuel (rev (concat cs)) e limit = e + llen (concat post) /\
    (pre = [] \/ exists pre' c, pre = pre' ++ [c] /\ limit < e + llen (concat post) + llen c).
Proof.
  induction cs as [|c cs IH] using rev_ind; intros Hcs fuel e Hf He.
  { exists [], []. split_and!; [done| |by left]. unfold llen. destruct fuel; cbn; lia. }
  apply Forall_app in Hcs as [Hcs Hc]. apply Forall_cons in Hc as [Hc _].
  rewrite concat_app in *. cbn [concat] in *. rewrite app_nil_r in *. rewrite length_app in Hf.
  pose proof (decode_last_chunk (concat cs) c Hc) as Hd.
  assert (Ef : rev (concat cs ++ c) = rev c ++ rev (concat cs)) by apply rev_app_distr.
  apply rune_enc_spec in Hc as (Hne & Hn & Hp).
  destruct fuel as [|f]; [destruct c; [done|cbn in Hf; lia]|].
  destruct (rev (concat cs ++ c)) as [|x xs] eqn:Ex.
  { apply (f_equal (@List.length _)) in Ex. rewrite length_rev, length_app in Ex. destruct c; [done|cbn in Ex; lia]. }
  cbn [suffix_loop]. rewrite Hd. destruct (decode_rune c) as [r n]. cbn [snd] in Hn. subst n.
  replace (List.length c =? 0)%nat with false by (symmetry; apply Nat.eqb_neq; by destruct c).
  rewrite andb_false_r.
  destruct (Z.ltb_spec limit (e + Z.of_nat (List.length c))) as [Hl|Hl].
  - exists (cs ++ [c]), []. split_and!; [by rewrite app_nil_r|unfold llen; cbn; lia|].
    right. exists cs, c. split; [done|]. unfold llen. cbn. lia.
  - rewrite Ef. rewrite <-(length_rev c), drop_app_length, length_rev.
    destruct (IH Hcs f (e + Z.of_nat (List.length c))) as (pre & post & -> & -> & Hnext);
      [destruct c; [done|cbn [List.length] in *; lia]|lia|].
    exists pre, (post ++ [c]). split; [by rewrite app_assoc|]. rewrite concat_app.
    cbn [concat]. rewrite app_nil_r. unfold llen in *. rewrite length_app. split; [lia|].
    destruct Hnext as [->|(pre' & d & -> & Hd')]; [by left|]. right. exists pre', d. split; [done|lia].
Qed.
End Loops.

(** ** The head and the tail *)

Lemma slen_explode s : slen s = llen (explode s).
Proof. unfold slen, llen. by rewrite length_explode. Qed.
Lemma slen_implode l : slen (implode l) = llen l.
Proof. by rewrite slen_explode, explode_implode. Qed.

(** A cut of a string, with its size and what it keeps of validity. *)
Definition cut_ok (value part : string) (limit : Z) : Prop :=
  slen part <= Z.max 0 limit /\ slen part <= slen value /\
  (valid_utf8 value = true -> valid_utf8 part = true).

Lemma cut_whole value limit : slen value <= Z.max 0 limit -> cut_ok value value limit.
Proof. unfold cut_ok. auto with lia. Qed.
Lemma cut_empty value limit : cut_ok value "" limit.
Proof. unfold cut_ok. split_and!; [unfold slen; cbn; lia|unfold slen; cbn; lia|done]. Qed.

Lemma prefix_cut value limit : cut_ok value (takeUTF8PrefixBytes value limit) limit /\
  exists rest, value = takeUTF8PrefixBytes value limit +:+ rest.
Proof.
  unfold takeUTF8PrefixBytes. destruct (Z.leb_spec limit 0) as [Hl|Hl].
  { split; [apply cut_empty|by exists value]. }
  destruct (Z.leb_spec (slen value) limit) as [Hs|Hs].
  { split; [apply cut_whole; lia|]. exists "". apply explode_inj. by rewrite explode_app, app_nil_r. }
  pose proof (prefix_loop_bounds limit (String.length value) (explode value) 0 ltac:(lia)) as [[H0 H1] H2].
  set (n := prefix_loop _ _ _ _) in *. rewrite <-slen_explode in H2. unfold slice_to. split.
  - unfold cut_ok. split_and!.
    + rewrite slen_implode. unfold llen. rewrite length_take. lia.
    + rewrite slen_implode. unfold llen. rewrite length_take, length_explode. unfold slen. lia.
    + rewrite !valid_utf8_bytes, explode_implode. intros (cs & Hcs & Hr)%valid_chunks.
      destruct (prefix_loop_runes limit cs Hr (String.length value) 0) as (pre & post & E & En & _);
        [rewrite <-Hcs, length_explode; lia|lia|].
      rewrite <-Hcs in En. fold n in En. rewrite Hcs, E, concat_app, En.
      replace (Z.to_nat (0 + llen (concat pre))) with (List.length (concat pre)) by (unfold llen; lia).
      rewrite take_app_length. apply valid_chunks. exists pre. split; [done|].
      rewrite E in Hr. by apply Forall_app in Hr as [? _].
  - exists (implode (drop (Z.to_nat n) (explode value))). apply explode_inj.
    by rewrite explode_app, !explode_implode, take_drop.
Qed.

Lemma suffix_cut value limit : cut_ok value (takeUTF8SuffixBytes value limit) limit /\
  exists front, value = front +:+ takeUTF8SuffixBytes value limit.
Proof.
  unfold takeUTF8SuffixBytes. destruct (Z.leb_spec limit 0) as [Hl|Hl].
  { split; [apply cut_empty|exists value]. apply explode_inj. by rewrite explode_app, app_nil_r. }
  destruct (Z.leb_spec (slen value) limit) as [Hs|Hs].
  { split; [apply cut_whole; lia|by exists ""]. }
  pose proof (suffix_loop_bounds limit (String.length value) (rev (explode value)) 0 ltac:(lia)) as [[H0 H1] H2].
  set (n := suffix_loop _ _ _ _) in *. unfold llen in H2. rewrite length_rev, length_explode in H2.
  unfold slice_from. split.
  - unfold cut_ok. split_and!.
    + rewrite slen_implode. unfold llen. rewrite length_drop, length_explode. unfold slen. lia.
    + rewrite slen_implode. unfold llen. rewrite length_drop, length_explode. unfold slen. lia.
    + rewrite !valid_utf8_bytes, explode_implode. intros (cs & Hcs & Hr)%valid_chunks.
      destruct (suffix_loop_runes limit cs Hr (String.length value) 0) as (pre & post & E & En & _);
        [rewrite <-Hcs, length_explode; lia|lia|].
      rewrite <-Hcs in En. fold n in En. rewrite slen_explode, Hcs, E, concat_app, En.
      replace (Z.to_nat (llen (concat pre ++ concat post) - (0 + llen (concat post))))
        with (List.length (concat pre)) by (unfold llen; rewrite length_app; lia).
      rewrite drop_app_length. apply valid_chunks. exists post. split; [done|].
      rewrite E in Hr. by apply Forall_app in Hr as [_ ?].
  - exists (implode (take (Z.to_nat (slen value - n)) (explode value))). apply explode_inj.
    by rewrite explode_app, !explode_implode, take_drop.
Qed.

(** The size of the first rune of a string, and of its last. *)
Definition first_size (s : string) : Z := Z.of_nat (snd (decode_rune (explode s))).
Definition last_size (s : string) : Z := Z.of_nat (snd (decode_last_rune (rev (explode s)))).
Lemma first_size_le s : first_size s <= 4.
Proof. unfold first_size. pose proof (decode_rune_width (explode s)). lia. Qed.
Lemma last_size_le s : last_size s <= 4.
Proof. unfold last_size. pose proof (decode_last_small (rev (explode s))). lia. Qed.
Lemma first_size_pos s : 0 < slen s -> 0 < first_size s.
Proof.
  unfold first_size. rewrite slen_explode. intros Hs. destruct (decode_rune_width (explode s)) as (_ & _ & H).
  destruct (explode s); [done|]. specialize (H ltac:(done)). lia.
Qed.
Lemma last_size_pos s : 0 < slen s -> 0 < last_size s.
Proof.
  unfold last_size. rewrite slen_explode. intros Hs. destruct (rev (explode s)) as [|a l] eqn:E.
  - apply (f_equal (@List.length _)) in E. rewrite length_rev in E. unfold llen in Hs. cbn in E. lia.
  - pose proof (decode_last_pos a l). lia.
Qed.

(** A cut takes as many runes as fit. *)
Lemma prefix_full value limit rest : 0 <= limit < slen value -> value = takeUTF8PrefixBytes value limit +:+ rest ->
  limit < slen (takeUTF8PrefixBytes value limit) + first_size rest.
Proof.
  intros Hl E. unfold takeUTF8PrefixBytes in *. destruct (Z.leb_spec limit 0) as [Hz|Hz].
  { change ("" +:+ rest) with rest in E. subst rest. pose proof (first_size_pos value). change (slen "") with 0. lia. }
  destruct (Z.leb_spec (slen value) limit) as [Hs|Hs]; [lia|].
  pose proof (prefix_loop_bounds limit (String.length value) (explode value) 0 ltac:(lia)) as [[H0 H1] H2].
  destruct (prefix_loop_full limit (String.length value) (explode value) 0) as [Hn|Hn]; [by rewrite length_explode|lia|rewrite <-slen_explode in Hn; lia|].
  set (n := prefix_loop _ _ _ _) in *. rewrite <-slen_explode in H2. rewrite Z.sub_0_r in Hn. unfold slice_to in *.
  assert (Er : explode rest = drop (Z.to_nat n) (explode value)).
  { apply (f_equal explode) in E. rewrite explode_app, explode_implode in E.
    rewrite <-(take_drop (Z.to_nat n) (explode value)) in E at 1. by apply app_inv_head in E. }
  unfold first_size. rewrite Er, slen_implode. unfold llen. rewrite length_take, length_explode. unfold slen in *. lia.
Qed.
Lemma suffix_full value limit front : 0 <= limit < slen value -> value = front +:+ takeUTF8SuffixBytes value limit ->
  limit < slen (takeUTF8SuffixBytes value limit) + last_size front.
Proof.
  intros Hl E. unfold takeUTF8SuffixBytes in *. destruct (Z.leb_spec limit 0) as [Hz|Hz].
  { assert (front = value) as ->. { rewrite E at 1. apply explode_inj. by rewrite explode_app, app_nil_r. }
    pose proof (last_size_pos value). change (slen "") with 0. lia. }
  destruct (Z.leb_spec (slen value) limit) as [Hs|Hs]; [lia|].
  pose proof (suffix_loop_bounds limit (String.length value) (rev (explode value)) 0 ltac:(lia)) as [[H0 H1] H2].
  destruct (suffix_loop_full limit (String.length value) (rev (explode value)) 0) as [Hn|Hn];
    [by rewrite length_rev, length_explode|lia|unfold llen in Hn; rewrite length_rev, length_explode in Hn; unfold slen in *; lia|].
  set (n := suffix_loop _ _ _ _) in *. unfold llen in H2. rewrite length_rev, length_explode in H2. rewrite Z.sub_0_r in Hn.
  unfold slice_from in *. set (k := Z.to_nat (slen value - n)) in *.
  assert (Er : explode front = take k (explode value)).
  { apply (f_equal explode) in E. rewrite explode_app, explode_implode in E.
    rewrite <-(take_drop k (explode value)) in E at 1. by apply app_inv_tail in E. }
  assert (Ek : rev (take k (explode value)) = drop (Z.to_nat n) (rev (explode value))).
  { rewrite (skipn_rev (Z.to_nat n) (explode value)). f_equal. f_equal. rewrite length_explode. unfold k, slen in *. lia. }
  unfold last_size. rewrite Er, Ek, slen_implode. unfold llen. rewrite length_drop, length_explode. unfold k, slen in *. lia.
Qed.

(** A prefix and a suffix that fit side by side leave a middle. *)
Lemma cut_middle value head tail : (exists r, value = head +:+ r) -> (exists f, value = f +:+ tail) ->
  slen head + slen tail <= slen value -> exists mid, value = head +:+ mid +:+ tail.
Proof.
  intros [r Hr] [f Hf] Hlen. assert (E : explode head ++ explode r = explode f ++ explode tail).
  { by rewrite <-!explode_app, <-Hr, <-Hf. }
  rewrite Hr, slen_app, !slen_explode in Hlen. unfold llen in Hlen.
  assert (Hl : (List.length (explode f) >= List.length (explode head))%nat).
  { apply (f_equal (@List.length _)) in E. rewrite !length_app in E. lia. }
  exists (implode (drop (List.length (explode head)) (explode f))). apply explode_inj.
  rewrite Hf, !explode_app, explode_implode, app_assoc. f_equal.
  rewrite <-(take_drop (List.length (explode head)) (explode f)) at 1. f_equal.
  apply (f_equal (take (List.length (explode head)))) in E.
  by rewrite take_app_length, take_app_le in E by lia.
Qed.

(** ** Reading the marker back *)

Definition prefix_bytes : list ascii := explode auditTruncationMarkerPrefix.
Definition suffix_bytes : list ascii := explode auditTruncationMarkerSuffix.

Lemma digit_not (c : ascii) l : is_digit c = false ->
  forall d, is_digit d = true -> forall t, is_prefix (c :: l) (d :: t) = false.
Proof.
  intros Hc d Hd t. cbn [is_prefix]. destruct (Ascii.eqb c d) eqn:E; [|done].
  apply Ascii.eqb_eq in E. subst. congruence.
Qed.

Lemma marker_bytes n : 0 < n ->
  explode (marker_line n) = "010"%char :: prefix_bytes ++ explode (FormatUint n) ++ suffix_bytes ++ ["010"%char].
Proof.
  intros Hn. unfold marker_line, AuditPayloadTruncationMarker, Itoa.
  destruct (Z.leb_spec n 0); [lia|]. destruct (Z.ltb_spec n 0); [lia|].
  rewrite !explode_app, <-!app_assoc. reflexivity.
Qed.

(** No marker starts inside a marker or across its end. *)
Lemma inner_none ds tail i : 0 <= i -> forallb is_digit ds = true ->
  last_index_go prefix_bytes tail 0 = -1 ->
  last_index_go prefix_bytes (tl prefix_bytes ++ ds ++ suffix_bytes ++ "010"%char :: tail) i = -1.
Proof.
  intros Hi Hds Ht. set (rest := ds ++ _).
  assert (Hrest : forall k, 0 <= k -> last_index_go prefix_bytes rest k = -1).
  { intros k Hk. unfold rest. rewrite last_index_digits; [|by apply digit_not|done].
    set (k' := k + llen ds). assert (0 <= k') by (unfold k', llen; lia).
    change (suffix_bytes ++ "010"%char :: tail) with
      ("]"%char :: "."%char :: "."%char :: "."%char :: "010"%char :: tail).
    rewrite !last_index_skip by reflexivity. eapply last_index_none; [| |exact Ht]; lia. }
  change (tl prefix_bytes ++ rest) with (explode "..[truncated original_bytes=" ++ rest).
  cbn [explode list_ascii_of_string app]. rewrite !last_index_skip by reflexivity.
  apply Hrest. lia.
Qed.

(** The bytes of a payload with a marker in it. *)
Section MarkedPayload.
Context (payload : string) (h ds tail : list ascii)
  (E : explode payload = h ++ prefix_bytes ++ ds ++ suffix_bytes ++ "010"%char :: tail)
  (Hds : forallb is_digit ds = true).

Lemma marked_index : last_index_go prefix_bytes tail 0 = -1 ->
  LastIndex payload auditTruncationMarkerPrefix = llen h.
Proof.
  intros Ht. unfold LastIndex. fold prefix_bytes. rewrite E.
  set (after := ds ++ suffix_bytes ++ "010"%char :: tail).
  apply last_index_app; [|unfold llen; lia]. rewrite Z.add_0_l.
  assert (Hp : is_prefix prefix_bytes (prefix_bytes ++ after) = true) by (apply is_prefix_spec; by eexists).
  assert (Ep : prefix_bytes ++ after = "."%char :: (tl prefix_bytes ++ after)) by reflexivity.
  rewrite Ep in *. apply last_index_here; [exact Hp|].
  apply inner_none; [unfold llen; lia|exact Hds|exact Ht].
Qed.

Lemma marked_rest : slice_from payload (llen h + slen auditTruncationMarkerPrefix)
  = implode (ds ++ suffix_bytes ++ "010"%char :: tail).
Proof.
  unfold slice_from. rewrite E, app_assoc. f_equal.
  replace (Z.to_nat (llen h + slen auditTruncationMarkerPrefix))
    with (List.length (h ++ prefix_bytes)); [apply drop_app_length|].
  rewrite length_app. unfold llen. change (slen auditTruncationMarkerPrefix) with 29.
  change (List.length prefix_bytes) with 29%nat. lia.
Qed.

Lemma marked_digits :
  let rest := implode (ds ++ suffix_bytes ++ "010"%char :: tail) in
  Index rest auditTruncationMarkerSuffix = llen ds /\ slice_to rest (llen ds) = implode ds.
Proof.
  cbn zeta. split.
  - unfold Index. rewrite explode_implode. fold suffix_bytes.
    rewrite index_digits; [lia|by apply digit_not|done|]. apply is_prefix_spec. by eexists.
  - unfold slice_to. rewrite explode_implode. f_equal.
    replace (Z.to_nat (llen ds)) with (List.length ds) by (unfold llen; lia). apply take_app_length.
Qed.

Lemma marked_read n : last_index_go prefix_bytes tail 0 = -1 -> Atoi (implode ds) = Some n ->
  AuditPayloadOriginalBytesFromTruncationMarker payload = n.
Proof.
  intros Ht Hn. unfold AuditPayloadOriginalBytesFromTruncationMarker.
  rewrite marked_index by done. destruct (Z.ltb_spec (llen h) 0); [unfold llen in *; lia|].
  cbn zeta. rewrite marked_rest. destruct marked_digits as [-> ->].
  destruct (Z.ltb_spec (llen ds) 0); [unfold llen in *; lia|]. by rewrite Hn.
Qed.
End MarkedPayload.

Lemma marker_read head n tail : 0 < n <= MaxInt64 -> LastIndex tail auditTruncationMarkerPrefix = -1 ->
  AuditPayloadOriginalBytesFromTruncationMarker (head +:+ marker_line n +:+ tail) = n.
Proof.
  intros [Hn Hmax] Htail. destruct (FormatUint_digits n ltac:(lia)) as [Hds _].
  eapply (marked_read _ (explode head ++ ["010"%char]) (explode (FormatUint n)) (explode tail)).
  - rewrite !explode_app, marker_bytes by done. rewrite <-!app_assoc. cbn [app]. by rewrite <-!app_assoc.
  - exact Hds.
  - exact Htail.
  - rewrite implode_explode. apply Atoi_FormatUint. lia.
Qed.

Lemma ascii_valid l : forallb (fun c => byte_val c <? 128) l = true -> valid_bytes l = true.
Proof.
  intros H. apply valid_chunks. exists (map (fun c => [c]) l). split.
  - induction l as [|c l IH]; [done|]. cbn in *. f_equal. apply IH. by apply andb_true_iff in H as [_ ?].
  - unfold runes_of. rewrite Forall_map. apply Forall_forall. intros c Hc%list_elem_of_In.
    rewrite forallb_forall in H. apply H in Hc. apply rune_enc_spec. apply Z.ltb_lt in Hc.
    rewrite decode_rune_ascii by done. split_and!; [done|done|]. unfold proper. cbn.
    pose proof (byte_val_range c). destruct (Z.eqb_spec (byte_val c) RuneError); [unfold RuneError in *; lia|done].
Qed.
Lemma marker_ascii n : 0 < n -> forallb (fun c => byte_val c <? 128) (explode (marker_line n)) = true.
Proof.
  intros Hn. rewrite marker_bytes by done.
  destruct (FormatUint_digits n ltac:(lia)) as [Hd _].
  cbn [forallb]. rewrite !forallb_app. apply andb_true_iff. split; [done|].
  apply andb_true_iff. split; [done|]. apply andb_true_iff. split; [|done].
  rewrite forallb_forall in *. intros c Hc%Hd%is_digit_range. apply Z.ltb_lt. lia.
Qed.
Lemma marker_valid n : 0 < n -> valid_utf8 (marker_line n) = true.
Proof. intros Hn. rewrite valid_utf8_bytes. by apply ascii_valid, marker_ascii. Qed.

(** A cut of the marker itself is exact. *)
Lemma marker_cut n limit : 0 < n -> 0 < limit <= slen (marker_line n) ->
  exists rest, marker_line n = takeUTF8PrefixBytes (marker_line n) limit +:+ rest /\
    slen (takeUTF8PrefixBytes (marker_line n) limit) = limit.
Proof.
  intros Hn Hl. destruct (prefix_cut (marker_line n) limit) as [(H1 & H2 & _) [rest E]]. exists rest. split; [done|].
  destruct (decide (limit = slen (marker_line n))) as [->|Hne].
  { unfold takeUTF8PrefixBytes. destruct (Z.leb_spec (slen (marker_line n)) 0); [lia|]. by rewrite Z.leb_refl. }
  pose proof (prefix_full (marker_line n) limit rest ltac:(lia) E) as Hf.
  assert (Ha : forallb (fun c => byte_val c <? 128) (explode (marker_line n)) = true) by by apply marker_ascii.
  rewrite E, explode_app, forallb_app in Ha. apply andb_true_iff in Ha as [_ Ha].
  unfold first_size in Hf. destruct (explode rest) as [|c l]; [cbn in Hf; lia|].
  cbn [forallb] in Ha. apply andb_true_iff in Ha as [Hc%Z.ltb_lt _]. rewrite decode_rune_ascii in Hf by done. cbn [snd] in Hf. lia.
Qed.

(** What is kept of [value] around [marker] within [limit]: of the bytes that
    the marker leaves, the head has the half rounded down and the tail the
    rest, each taking as many whole runes as fit, so that no more than three
    bytes of either share go unused. *)
Record kept (value marker : string) (limit : Z) (head mid tail : string) : Prop := {
  kept_value : value = head +:+ mid +:+ tail;
  kept_head : Z.quot (limit - slen marker) 2 - 3 <= slen head <= Z.quot (limit - slen marker) 2;
  kept_tail : limit - slen marker - Z.quot (limit - slen marker) 2 - 3 <= slen tail
              <= limit - slen marker - Z.quot (limit - slen marker) 2;
  kept_head_full : Z.quot (limit - slen marker) 2 < slen head + first_size (mid +:+ tail);
  kept_tail_full : limit - slen marker - Z.quot (limit - slen marker) 2 < slen tail + last_size (head +:+ mid) }.

Lemma str_app_inj_l a x y : a +:+ x = a +:+ y -> x = y.
Proof. intros H%(f_equal explode). rewrite !explode_app in H. apply app_inv_head in H. by apply explode_inj. Qed.
Lemma cuts_kept value marker limit : slen marker < limit < slen value ->
  let hb := Z.quot (limit - slen marker) 2 in let tb := limit - slen marker - hb in
  exists mid, kept value marker limit (takeUTF8PrefixBytes value hb) mid (takeUTF8SuffixBytes value tb).
Proof.
  intros Hl hb tb. pose proof (slen_nonneg marker).
  assert (Hhb : 0 <= hb <= limit - slen marker) by (unfold hb; rewrite Z.quot_div_nonneg by lia; split;
    [apply Z.div_pos; lia|apply Z.div_le_upper_bound; lia]).
  destruct (prefix_cut value hb) as [(P1 & P2 & _) Phead], (suffix_cut value tb) as [(S1 & S2 & _) Ptail].
  destruct (cut_middle value _ _ Phead Ptail) as [mid Hmid]; [unfold tb in *; lia|]. exists mid.
  pose proof (prefix_full value hb _ ltac:(lia) Hmid) as Hh.
  assert (Hmid' : value = (takeUTF8PrefixBytes value hb +:+ mid) +:+ takeUTF8SuffixBytes value tb) by by rewrite str_app_assoc.
  pose proof (suffix_full value tb _ ltac:(lia) Hmid') as Ht.
  pose proof (first_size_le (mid +:+ takeUTF8SuffixBytes value tb)). pose proof (last_size_le (takeUTF8PrefixBytes value hb +:+ mid)).
  split; [done|fold hb; lia|fold hb; fold tb; lia|done|done].
Qed.

(** (C27) Truncating a payload keeps the limit and the evidence.  A payload
    within the limit, or without one, is kept whole.  A longer one is marked,
    never exceeds the limit, and is cut between runes, so valid text stays
    valid.  When the marker fits, the body is a head and a tail of the payload
    around it: of the bytes that the marker leaves, the head takes the half
    rounded down and the tail the rest, each as many whole runes as fit (no
    more than three bytes of either share unused); and the original size is
    read back from the body exactly, whatever the head holds, if no marker
    starts in the kept tail.  When the marker does not fit, the body is the
    first [limit] bytes of the marker. *)
Theorem truncate_payload_exact value limit :
  slen value <= MaxInt64 ->
  let r := truncateAuditPayload value limit in
  let marker := marker_line (slen value) in
  OriginalBytes r = slen value /\
  (limit <= 0 \/ slen value <= limit -> Body r = value /\ Truncated r = false) /\
  (0 < limit < slen value ->
     Truncated r = true /\ slen (Body r) <= limit /\
     (valid_utf8 value = true -> valid_utf8 (Body r) = true) /\
     (limit <= slen marker -> slen (Body r) = limit /\ exists rest, marker = Body r +:+ rest) /\
     (slen marker < limit -> exists head mid tail,
        kept value marker limit head mid tail /\ Body r = head +:+ marker +:+ tail /\
        (LastIndex tail auditTruncationMarkerPrefix = -1 ->
         AuditPayloadOriginalBytesFromTruncationMarker (Body r) = slen value))).
Proof.
  intros Hmax r marker. unfold r, truncateAuditPayload. cbn zeta. fold marker.
  destruct (Z.leb_spec limit 0); [split_and!; auto; lia|].
  destruct (Z.leb_spec (slen value) limit); [split_and!; auto; lia|].
  assert (Hm : valid_utf8 marker = true) by (apply marker_valid; lia).
  destruct (Z.leb_spec limit (slen marker)) as [Hl|Hl]; cbn [OriginalBytes Body Truncated].
  - destruct (prefix_cut marker limit) as [(H1 & H2 & H3) _].
    destruct (marker_cut (slen value) limit ltac:(lia) ltac:(done)) as (rest & Er & El).
    split_and!; [done|lia|]. intros _. split_and!; [done|lia|auto| |lia]. intros _. split; [done|by exists rest].
  - destruct (cuts_kept value marker limit ltac:(lia)) as [mid Hk]. cbv zeta in Hk. set (hb := Z.quot _ 2) in *.
    destruct (prefix_cut value hb) as [(_ & _ & P3) _]. destruct (suffix_cut value (limit - slen marker - hb)) as [(_ & _ & S3) _].
    set (head := takeUTF8PrefixBytes value hb) in *. set (tail := takeUTF8SuffixBytes value _) in *.
    pose proof (kept_head _ _ _ _ _ _ Hk) as K2. pose proof (kept_tail _ _ _ _ _ _ Hk) as K3. fold hb in K2, K3.
    split_and!; [done|lia|]. intros _. split_and!; [done| | |lia|].
    + rewrite !slen_app. lia.
    + intros Hv. rewrite !valid_utf8_bytes in *. rewrite !explode_app, !valid_bytes_app by auto. auto.
    + intros _. exists head, mid, tail. split_and!; [done..|]. intros Ht. by apply marker_read; [lia|].
Qed.

(** A payload of two-byte runes, cut to 60 bytes. *)
Fixpoint repeated (n : nat) (s : string) : string := match n with O => "" | S k => s +:+ repeated k s end.
Definition ex_payload : string := repeated 60 "é".

Lemma truncate_payload_exact_witness :
  let r := truncateAuditPayload ex_payload 60 in
  Truncated r = true /\ slen (Body r) <= 60 /\ valid_utf8 (Body r) = true /\
  exists head mid tail, kept ex_payload (marker_line 120) 60 head mid tail /\ Body r = head +:+ marker_line 120 +:+ tail.
Proof.
  destruct (truncate_payload_exact ex_payload 60) as (_ & _ & H); [vm_compute; discriminate|].
  destruct H as (H0 & H1 & H2 & _ & H3); [split; vm_compute; reflexivity|].
  split; [exact H0|]. split; [exact H1|]. split; [apply H2; vm_compute; reflexivity|].
  destruct H3 as (head & mid & tail & Hk & Hb & _); [vm_compute; reflexivity|].
  exists head, mid, tail. exact (conj Hk Hb).
Defined.

(** Marker-looking text in the kept tail is read instead of the marker. *)
Example tail_marker_wins :
  let value := repeated 90 "x" +:+ AuditPayloadTruncationMarker 7 in
  slen value = 124 /\
  AuditPayloadOriginalBytesFromTruncationMarker (Body (truncateAuditPayload value 112)) = 7.
Proof. vm_compute. auto. Qed.
