(* ===== verification/Memory.v ===== *)
(** * Durable memories

    [src/domain/model/memory.go] with the values it is made of in
    [src/domain/types]: scopes ([memory_scope.go]), evidence and artifact
    references ([evidence_ref.go], [artifact_ref.go], [ref_append.go]) and the
    decay policy ([memory_decay_policy.go]).  The injected clock is an
    argument of each operation: the times its calls to [Now] return. *)

From stdpp Require Import gmap.
From S2P Require Import Prelude GoStrings GoTime Labels.

Definition ErrInvalidMemoryState : error := Sentinel "invalid memory state".

(** ** Scopes *)

Inductive MemoryScope :=
| GlobalScope
| WorkspaceScope (workspace : string)
| AgentScope (agent : string)
| SessionFamilyScope (sessionID : string).
#[global] Instance MemoryScope_eq_dec : EqDecision MemoryScope.
Proof. solve_decision. Defined.

Definition MemoryScopeKindGlobal : string := "global".
Definition MemoryScopeKindWorkspace : string := "workspace".
Definition MemoryScopeKindAgent : string := "agent".
Definition MemoryScopeKindSessionFamily : string := "session_family".
Definition knownMemoryScopeKinds : list string :=
  [MemoryScopeKindGlobal; MemoryScopeKindWorkspace; MemoryScopeKindAgent; MemoryScopeKindSessionFamily].
Definition globalMemoryScopeKey : string := "global".

Definition MemoryScopeKindFrom (value : string) : result string :=
  let trimmedValue := TrimSpace value in
  if trimmedValue =?s "" then Err (Errorf "memory scope kind must not be empty" [])
  else if slices_contains knownMemoryScopeKinds trimmedValue then Ok trimmedValue
  else Err (Errorf "unknown memory scope kind: %s" [trimmedValue]).
#[export] Instance MemoryScopeKind_known : KnownLabel knownMemoryScopeKinds MemoryScopeKindFrom.
Proof. known_label. Qed.

(** The [Kind] and [Key] methods of the sealed interface. *)
Definition Scope_Kind (s : MemoryScope) : string :=
  match s with
  | GlobalScope => MemoryScopeKindGlobal
  | WorkspaceScope _ => MemoryScopeKindWorkspace
  | AgentScope _ => MemoryScopeKindAgent
  | SessionFamilyScope _ => MemoryScopeKindSessionFamily
  end.
Definition Scope_Key (s : MemoryScope) : string :=
  match s with
  | GlobalScope => globalMemoryScopeKey
  | WorkspaceScope w => w
  | AgentScope a => a
  | SessionFamilyScope i => i
  end.

Definition MemoryScopeFrom (kind value : string) : result MemoryScope :=
  let! resolvedKind := MemoryScopeKindFrom kind in
  if resolvedKind =?s MemoryScopeKindGlobal then
    if TrimSpace value <>?s globalMemoryScopeKey
    then Err (Errorf "invalid global scope value: %s" [value])
    else Ok GlobalScope
  else if resolvedKind =?s MemoryScopeKindWorkspace then
    let! workspace := wrap_err "invalid workspace scope: %w" (WorkspaceFrom value) in
    Ok (WorkspaceScope workspace)
  else if resolvedKind =?s MemoryScopeKindAgent then
    let! agent := wrap_err "invalid agent scope: %w" (AgentFrom value) in Ok (AgentScope agent)
  else if resolvedKind =?s MemoryScopeKindSessionFamily then
    let! sessionID := wrap_err "invalid session family scope: %w" (SessionIDFrom value) in
    Ok (SessionFamilyScope sessionID)
  else Err (Errorf "unsupported memory scope kind: %s" [resolvedKind]).

(** ** References *)

Definition knownEvidenceRefKinds : list string := ["event"; "session"; "url"; "file"; "issue"; "pr"].
Definition EvidenceRefKindFrom (value : string) : result string :=
  let trimmedValue := TrimSpace value in
  if trimmedValue =?s "" then Err (Errorf "evidence ref kind must not be empty" [])
  else if slices_contains knownEvidenceRefKinds trimmedValue then Ok trimmedValue
  else Err (Errorf "unknown evidence ref kind: %s" [trimmedValue]).
Definition knownArtifactRefKinds : list string := ["url"; "file"; "issue"; "pr"].
Definition ArtifactRefKindFrom (value : string) : result string :=
  let trimmedValue := TrimSpace value in
  if trimmedValue =?s "" then Err (Errorf "artifact ref kind must not be empty" [])
  else if slices_contains knownArtifactRefKinds trimmedValue then Ok trimmedValue
  else Err (Errorf "unknown artifact ref kind: %s" [trimmedValue]).
#[export] Instance EvidenceRefKind_known : KnownLabel knownEvidenceRefKinds EvidenceRefKindFrom.
Proof. known_label. Qed.
#[export] Instance ArtifactRefKind_known : KnownLabel knownArtifactRefKinds ArtifactRefKindFrom.
Proof. known_label. Qed.

Record EvidenceRef := mkEvidenceRef { ev_kind : string; ev_value : string }.
Record ArtifactRef := mkArtifactRef { ar_kind : string; ar_value : string }.

Definition EvidenceRefFrom (kind value : string) : result EvidenceRef :=
  let trimmedValue := TrimSpace value in
  if trimmedValue =?s "" then Err (Errorf "evidence ref value must not be empty" [])
  else let! _ := EvidenceRefKindFrom kind in Ok (mkEvidenceRef kind trimmedValue).
Definition ArtifactRefFrom (kind value : string) : result ArtifactRef :=
  let trimmedValue := TrimSpace value in
  if trimmedValue =?s "" then Err (Errorf "artifact ref value must not be empty" [])
  else let! _ := ArtifactRefKindFrom kind in Ok (mkArtifactRef kind trimmedValue).

(** [refWithIdentity]: what the generic append asks of a reference. *)
Class RefWithIdentity (T : Type) := { Kind : T -> string; Value : T -> string }.
#[export] Instance EvidenceRef_identity : RefWithIdentity EvidenceRef := {| Kind := ev_kind; Value := ev_value |}.
#[export] Instance ArtifactRef_identity : RefWithIdentity ArtifactRef := {| Kind := ar_kind; Value := ar_value |}.
(** Two references with one kind and value are one reference. *)
Class RefIdentityLaw (T : Type) `{RefWithIdentity T} : Prop :=
  ref_identity_inj : forall a b : T, Kind a = Kind b -> Value a = Value b -> a = b.
#[export] Instance EvidenceRef_law : RefIdentityLaw EvidenceRef.
Proof. intros [] []. cbn. congruence. Qed.
#[export] Instance ArtifactRef_law : RefIdentityLaw ArtifactRef.
Proof. intros [] []. cbn. congruence. Qed.

Section AppendRefs.
Context {T : Type} `{RefWithIdentity T}.
Definition ref_key (r : T) : string * string := (Kind r, Value r).

(** The loop over [refs] with the map of keys seen, shared by both calls. *)
Fixpoint appendUniqueRefsInto (result : list T) (seen : gset (string * string)) (refs : list T)
    : list T * gset (string * string) :=
  match refs with
  | [] => (result, seen)
  | ref :: rest =>
      if decide (ref_key ref ∈ seen) then appendUniqueRefsInto result seen rest
      else appendUniqueRefsInto (result ++ [ref]) ({[ref_key ref]} ∪ seen) rest
  end.
Definition appendUniqueRefs (dst refs : list T) : list T :=
  let '(result, seen) := appendUniqueRefsInto [] ∅ dst in
  fst (appendUniqueRefsInto result seen refs).
End AppendRefs.

Definition AppendEvidenceRefs (dst refs : list EvidenceRef) : list EvidenceRef := appendUniqueRefs dst refs.
Definition AppendArtifactRefs (dst refs : list ArtifactRef) : list ArtifactRef := appendUniqueRefs dst refs.

(** ** Decay policy *)

Record MemoryDecayPolicy := mkPolicy { olderThan : Z; sources : list string }.
Definition DefaultDecaySources : list string := ["extracted"; "extracted-hidden"].
Definition CandidateTTLApplies (source : string) : bool :=
  (source =?s "extracted") || (source =?s "extracted-hidden").
Definition DefaultMemoryDecayOlderThan : Z := 720 * Hour.
Definition MemoryDecayPolicyOf (older : Z) (srcs : list string) : result MemoryDecayPolicy :=
  if older <=? 0 then Err (Errorf "memory decay older-than must be positive" [])
  else Ok (mkPolicy older (if llen srcs =? 0 then DefaultDecaySources else srcs)).
Definition AllowsSource (p : MemoryDecayPolicy) (source : string) : bool := slices_contains (sources p) source.
Definition DecayGrantStart (createdAt : Time) (expiresAt : option Time) : Time :=
  match expiresAt with
  | Some exp => Add (UTC exp) (- DefaultMemoryDecayOlderThan)
  | None => UTC createdAt
  end.
Definition CandidateDue (p : MemoryDecayPolicy) (createdAt : Time) (expiresAt : option Time) (now : Time) : bool :=
  Before (DecayGrantStart createdAt expiresAt) (Add (UTC now) (- olderThan p)).

(** ** The aggregate *)

Record Memory := mkMemory {
  memoryID : string; memoryType : string; scope : MemoryScope; fact : string; status : string;
  confidence : string; source : string; evidenceRefs : list EvidenceRef; artifactRefs : list ArtifactRef;
  supersedes : option string; expiresAt : option Time; validFrom : Time; validTo : option Time;
  createdAt : Time; updatedAt : Time }.

(** [newMemory]; a nil scope is [None]. *)
Definition newMemory (id ty : string) (sc : option MemoryScope) (text st conf src : string)
    (evs : list EvidenceRef) (ars : list ArtifactRef) (sup : option string) (expires : option Time)
    (now : Time) : result Memory :=
  let trimmedFact := TrimSpace text in
  if trimmedFact =?s "" then Err (Errorf "memory fact must not be empty" [])
  else match sc with
       | None => Err (Errorf "memory scope must not be nil" [])
       | Some sc =>
           Ok (mkMemory id ty sc trimmedFact st conf src evs ars sup expires now None now now)
       end.

(** The clock is read for the expiry stamp first and for the row afterwards. *)
Definition NewMemoryCandidateWithClock (id ty : string) (sc : option MemoryScope) (text src : string)
    (evs : list EvidenceRef) (ars : list ArtifactRef) (sup : option string) (now_stamp now : Time)
    : result Memory :=
  let expires := if CandidateTTLApplies src then Some (Add now_stamp DefaultMemoryDecayOlderThan) else None in
  newMemory id ty sc text MemoryStatusCandidate "low" src evs ars sup expires now.

Definition set_window (m : Memory) (from : Time) (to : option Time) (updated : Time) : Memory :=
  mkMemory (memoryID m) (memoryType m) (scope m) (fact m) (status m) (confidence m) (source m)
    (evidenceRefs m) (artifactRefs m) (supersedes m) (expiresAt m) from to (createdAt m) updated.

Definition NewAcceptedMemoryWithValidityAndClock (id ty : string) (sc : option MemoryScope)
    (text conf src : string) (evs : list EvidenceRef) (ars : list ArtifactRef) (sup : option string)
    (from to : option Time) (now : Time) : result Memory :=
  let! memory := newMemory id ty sc text MemoryStatusAccepted conf src evs ars sup None now in
  Ok (set_window memory (match from with Some explicit => explicit | None => validFrom memory end) to
        (updatedAt memory)).

Definition NewAcceptedMemoryWithClock (id ty : string) (sc : option MemoryScope) (text conf src : string)
    (evs : list EvidenceRef) (ars : list ArtifactRef) (sup : option string) (now : Time) : result Memory :=
  NewAcceptedMemoryWithValidityAndClock id ty sc text conf src evs ars sup None None now.

Definition MemoryOf (id ty : string) (sc : MemoryScope) (text st conf src : string)
    (evs : list EvidenceRef) (ars : list ArtifactRef) (sup : option string) (expires : option Time)
    (from : Time) (to : option Time) (created updated : Time) : Memory :=
  mkMemory id ty sc text st conf src evs ars sup expires from to created updated.

Definition SetValidity (m : Memory) (from to : option Time) (now : Time) : Memory :=
  set_window m (match from with Some f => f | None => validFrom m end) to now.

(** The receiver with another status, confidence, references and stamps. *)
Definition set_status (m : Memory) (st conf : string) (expires : option Time) (now : Time) : Memory :=
  mkMemory (memoryID m) (memoryType m) (scope m) (fact m) st conf (source m) (evidenceRefs m)
    (artifactRefs m) (supersedes m) expires (validFrom m) (validTo m) (createdAt m) now.
Definition set_refs (m : Memory) (evs : list EvidenceRef) (ars : list ArtifactRef) (now : Time) : Memory :=
  mkMemory (memoryID m) (memoryType m) (scope m) (fact m) (status m) (confidence m) (source m) evs ars
    (supersedes m) (expiresAt m) (validFrom m) (validTo m) (createdAt m) now.

(** The methods return the receiver beside the error. *)
Definition AttachRefs (m : Memory) (evs : list EvidenceRef) (ars : list ArtifactRef) (now : Time)
    : Memory * option error :=
  if status m <>?s MemoryStatusCandidate then (m, Some ErrInvalidMemoryState)
  else (set_refs m (AppendEvidenceRefs (evidenceRefs m) evs) (AppendArtifactRefs (artifactRefs m) ars) now, None).
Definition Accept (m : Memory) (conf : string) (now : Time) : Memory * option error :=
  if status m <>?s MemoryStatusCandidate then (m, Some ErrInvalidMemoryState)
  else (set_status m MemoryStatusAccepted conf (expiresAt m) now, None).
Definition Reject (m : Memory) (now : Time) : Memory * option error :=
  if status m <>?s MemoryStatusCandidate then (m, Some ErrInvalidMemoryState)
  else (set_status m MemoryStatusRejected (confidence m) (expiresAt m) now, None).
Definition MarkSuperseded (m : Memory) (now : Time) : Memory * option error :=
  if status m <>?s MemoryStatusAccepted then (m, Some ErrInvalidMemoryState)
  else (set_status m MemoryStatusSuperseded (confidence m) (expiresAt m) now, None).
Definition MarkCandidateSupersededByDistillation (m : Memory) (now : Time) : Memory * option error :=
  if status m <>?s MemoryStatusCandidate then (m, Some ErrInvalidMemoryState)
  else (set_status m MemoryStatusSuperseded (confidence m) (expiresAt m) now, None).
Definition MarkCandidateSupersededByDuplicate (m : Memory) (now : Time) : Memory * option error :=
  if status m <>?s MemoryStatusCandidate then (m, Some ErrInvalidMemoryState)
  else (set_status m MemoryStatusSuperseded (confidence m) (expiresAt m) now, None).
Definition Expire (m : Memory) (expires now : Time) : Memory * option error :=
  if (status m <>?s MemoryStatusCandidate) && (status m <>?s MemoryStatusAccepted)
  then (m, Some ErrInvalidMemoryState)
  else (set_status m MemoryStatusExpired (confidence m) (Some expires) now, None).
Definition RestoreToCandidate (m : Memory) (now : Time) : Memory * option error :=
  if status m <>?s MemoryStatusExpired then (m, Some ErrInvalidMemoryState)
  else (set_status m MemoryStatusCandidate (confidence m)
          (if CandidateTTLApplies (source m) then Some (Add now DefaultMemoryDecayOlderThan) else None) now, None).

Definition EligibleForDecay (m : Memory) (policy : MemoryDecayPolicy) (now : Time) : bool :=
  if status m <>?s MemoryStatusCandidate then false
  else if negb (AllowsSource policy (source m)) then false
  else CandidateDue policy (createdAt m) (expiresAt m) now.

(** ** The lifecycle *)

Inductive memory_step : Memory -> Memory -> Prop :=
| mem_validity m from to now : memory_step m (SetValidity m from to now)
| mem_attach m evs ars now : memory_step m (fst (AttachRefs m evs ars now))
| mem_accept m conf now : memory_step m (fst (Accept m conf now))
| mem_reject m now : memory_step m (fst (Reject m now))
| mem_superseded m now : memory_step m (fst (MarkSuperseded m now))
| mem_distilled m now : memory_step m (fst (MarkCandidateSupersededByDistillation m now))
| mem_duplicate m now : memory_step m (fst (MarkCandidateSupersededByDuplicate m now))
| mem_expire m expires now : memory_step m (fst (Expire m expires now))
| mem_restore m now : memory_step m (fst (RestoreToCandidate m now)).

(** The status changes a memory may make, and reaching one through others. *)
Definition lifecycle (a b : string) : bool :=
  ((a =?s MemoryStatusCandidate)
     && slices_contains [MemoryStatusAccepted; MemoryStatusRejected; MemoryStatusSuperseded; MemoryStatusExpired] b)
  || ((a =?s MemoryStatusAccepted) && slices_contains [MemoryStatusSuperseded; MemoryStatusExpired] b)
  || ((a =?s MemoryStatusExpired) && (b =?s MemoryStatusCandidate)).

Definition mem_wf (m : Memory) : Prop :=
  status m ∈ knownMemoryStatuses /\ TrimSpace (fact m) = fact m /\ fact m <> "".

(** A memory that came out of a constructor, or out of the store. *)
Inductive mem_created : Memory -> Prop :=
| created_candidate id ty sc text src evs ars sup t1 t2 m :
    NewMemoryCandidateWithClock id ty sc text src evs ars sup t1 t2 = Ok m -> mem_created m
| created_accepted id ty sc text conf src evs ars sup from to now m :
    NewAcceptedMemoryWithValidityAndClock id ty sc text conf src evs ars sup from to now = Ok m -> mem_created m
| created_stored id ty sc text st conf src evs ars sup ex from to created updated v w :
    MemoryStatusFrom v = Ok st -> TrimSpace w = text -> text <> "" ->
    mem_created (MemoryOf id ty sc text st conf src evs ars sup ex from to created updated).

Lemma newMemory_ok id ty sc text st conf src evs ars sup ex now m :
  newMemory id ty sc text st conf src evs ars sup ex now = Ok m -> st ∈ knownMemoryStatuses -> mem_wf m.
Proof.
  unfold newMemory. cbn zeta. destruct (_ =?s _) eqn:E; [done|]. destruct sc; [|done].
  intros [= <-] Hst. breflect. split; [done|]. split; [apply TrimSpace_idemp|exact E].
Qed.
Lemma mem_created_wf m : mem_created m -> mem_wf m.
Proof.
  intros Hc. destruct Hc as [id ty sc text src evs ars sup t1 t2 m H
    |id ty sc text conf src evs ars sup from to now m H|id ty sc text st conf src evs ars sup ex from to cr up v w Hv Hw Hne].
  - eapply newMemory_ok; [exact H|by left].
  - unfold NewAcceptedMemoryWithValidityAndClock in H. destruct (newMemory _ _ _ _ _ _ _ _ _ _ _ _) eqn:E; [|done].
    injection H as <-. apply newMemory_ok in E as (H1 & H2 & H3); [done|by right; left].
  - split; [by eapply label_known|]. cbn [fact MemoryOf]. subst text. split; [apply TrimSpace_idemp|done].
Qed.

(** *** References are never lost *)

Section AppendFacts.
Context {T : Type} `{RefIdentityLaw T}.

Lemma append_into_spec refs : forall result (seen : gset (string * string)),
  (forall r, r ∈ result <-> ref_key r ∈ seen) -> NoDup result ->
  exists added, fst (appendUniqueRefsInto result seen refs) = result ++ added /\
    NoDup (result ++ added) /\
    (forall r, r ∈ result ++ added <-> r ∈ result \/ r ∈ refs) /\
    (forall r, r ∈ result ++ added <-> ref_key r ∈ snd (appendUniqueRefsInto result seen refs)).
Proof.
  induction refs as [|ref refs IH]; intros result seen Hseen Hnd; cbn [appendUniqueRefsInto].
  - exists []. rewrite app_nil_r. split_and!; [done|done| |exact Hseen].
    intros r. rewrite elem_of_nil. tauto.
  - destruct (decide (ref_key ref ∈ seen)) as [Hin|Hin].
    + destruct (IH result seen Hseen Hnd) as (added & E & H1 & H2 & H3). exists added.
      split_and!; [done|done| |exact H3]. intros r. rewrite H2, elem_of_cons.
      apply Hseen in Hin. split; [tauto|]. intros [?|[->|?]]; auto.
    + assert (Hnew : ref ∉ result) by (intros Hr; by apply Hseen in Hr).
      destruct (IH (result ++ [ref]) ({[ref_key ref]} ∪ seen)) as (added & E & H1 & H2 & H3).
      * intros r. rewrite elem_of_app, list_elem_of_singleton, elem_of_union, elem_of_singleton, Hseen.
        split; [intros [?| ->]; auto|]. intros [Hk|?]; [|auto]. right. injection Hk as ? ?.
        by apply ref_identity_inj.
      * apply NoDup_app. split_and!; [done| |apply NoDup_singleton].
        intros r Hr ->%list_elem_of_singleton. done.
      * exists (ref :: added). rewrite <-app_assoc in E, H1, H2, H3. cbn [app] in E, H1, H2, H3.
        split_and!; [done|done| |exact H3].
        intros r. rewrite H2, elem_of_app, list_elem_of_singleton, elem_of_cons. tauto.
Qed.

(** Appending keeps every reference once, the old ones first and in order. *)
Lemma append_spec dst refs :
  NoDup (appendUniqueRefs dst refs) /\
  (forall r, r ∈ appendUniqueRefs dst refs <-> r ∈ dst \/ r ∈ refs) /\
  exists kept added, appendUniqueRefs dst refs = kept ++ added /\ (forall r, r ∈ kept <-> r ∈ dst).
Proof.
  unfold appendUniqueRefs.
  destruct (append_into_spec dst [] ∅) as (a & Ea & Na & Ha & Ka); [set_solver|constructor|].
  destruct (appendUniqueRefsInto [] ∅ dst) as [result seen]. cbn [fst snd app] in *. subst result.
  destruct (append_into_spec refs a seen Ka Na) as (b & Eb & Nb & Hb & _). rewrite Eb.
  assert (Hd : forall r, r ∈ a <-> r ∈ dst) by (intros r; rewrite Ha, elem_of_nil; tauto).
  split_and!; [done| |].
  - intros r. by rewrite Hb, Hd.
  - by exists a, b.
Qed.
End AppendFacts.

(** *** What a step may change *)

Definition mem_identity (m n : Memory) : Prop :=
  memoryID n = memoryID m /\ memoryType n = memoryType m /\ scope n = scope m /\ fact n = fact m /\
  source n = source m /\ supersedes n = supersedes m /\ createdAt n = createdAt m.
Definition refs_kept (m n : Memory) : Prop :=
  (forall r, r ∈ evidenceRefs m -> r ∈ evidenceRefs n) /\ (forall r, r ∈ artifactRefs m -> r ∈ artifactRefs n).
Definition final (st : string) : Prop := st = MemoryStatusRejected \/ st = MemoryStatusSuperseded.
Definition mem_follows (m n : Memory) : Prop :=
  mem_identity m n /\ refs_kept m n /\
  (final (status m) -> exists from to updated, n = set_window m from to updated).

Lemma set_window_self m : m = set_window m (validFrom m) (validTo m) (updatedAt m).
Proof. by destruct m. Qed.
Lemma mem_follows_refl m : mem_follows m m.
Proof.
  split; [by unfold mem_identity|]. split; [by split|]. intros _. do 3 eexists. apply set_window_self.
Qed.
Lemma mem_follows_trans m n o : mem_follows m n -> mem_follows n o -> mem_follows m o.
Proof.
  intros (I1 & [E1 A1] & F1) (I2 & [E2 A2] & F2). split; [|split; [by split; auto|]].
  - unfold mem_identity in *. destruct_and!. split_and!; congruence.
  - intros Hf. destruct (F1 Hf) as (a & b & c & ->). destruct (F2 Hf) as (d & e & f & ->). by exists d, e, f.
Qed.

Lemma mem_status_follows m st conf ex now : ~ final (status m) -> mem_follows m (set_status m st conf ex now).
Proof. intros Hn. split; [by unfold mem_identity|]. split; [by split|]. intros Hf. by destruct Hn. Qed.
Lemma open_not_final st : st = MemoryStatusCandidate \/ st = MemoryStatusAccepted \/ st = MemoryStatusExpired ->
  ~ final st.
Proof. intros [->|[->| ->]] [H|H]; discriminate. Qed.

(** A guarded change of status is a refusal or one edge of the lifecycle. *)
Ltac guarded_status :=
  match goal with |- context [if ?c then _ else _] => destruct c eqn:?E end;
  [left; done|right; breflect; do 4 eexists; split; [reflexivity|]; cbn [fst set_status status];
   repeat match goal with E : status _ = _ |- _ => rewrite E end; reflexivity].

Lemma mem_step_cases m n : memory_step m n ->
  n = m \/ (exists st conf ex now, n = set_status m st conf ex now /\ lifecycle (status m) st = true) \/
  (exists evs ars now, n = set_refs m (AppendEvidenceRefs (evidenceRefs m) evs)
                             (AppendArtifactRefs (artifactRefs m) ars) now /\ status m = MemoryStatusCandidate) \/
  (exists from to now, n = set_window m from to now).
Proof.
  assert (Hgo : forall (P Q R S : Prop), P \/ Q -> P \/ Q \/ R \/ S) by tauto.
  intros Hs. destruct Hs.
  - right; right; right. by do 3 eexists.
  - unfold AttachRefs. destruct (_ <>?s _) eqn:E; [by left|]. right; right; left. breflect. by do 3 eexists.
  - apply Hgo. unfold Accept. guarded_status.
  - apply Hgo. unfold Reject. guarded_status.
  - apply Hgo. unfold MarkSuperseded. guarded_status.
  - apply Hgo. unfold MarkCandidateSupersededByDistillation. guarded_status.
  - apply Hgo. unfold MarkCandidateSupersededByDuplicate. guarded_status.
  - apply Hgo. unfold Expire. destruct (status m <>?s MemoryStatusCandidate) eqn:E1;
      [destruct (status m <>?s MemoryStatusAccepted) eqn:E2|]; cbn [andb]; [by left| |];
      right; breflect; do 4 eexists; (split; [reflexivity|]); [rewrite E2|rewrite E1]; reflexivity.
  - apply Hgo. unfold RestoreToCandidate. guarded_status.
Qed.

Lemma lifecycle_cases a b : lifecycle a b = true ->
  (a = MemoryStatusCandidate /\ b ∈ [MemoryStatusAccepted; MemoryStatusRejected; MemoryStatusSuperseded; MemoryStatusExpired]) \/
  (a = MemoryStatusAccepted /\ b ∈ [MemoryStatusSuperseded; MemoryStatusExpired]) \/
  (a = MemoryStatusExpired /\ b = MemoryStatusCandidate).
Proof.
  unfold lifecycle. rewrite !orb_true_iff, !andb_true_iff, !String.eqb_eq, !slices_contains_spec. tauto.
Qed.
Lemma lifecycle_open a b : lifecycle a b = true -> ~ final a /\ b ∈ knownMemoryStatuses.
Proof.
  intros [[-> Hb]|[[-> Hb]|[-> ->]]]%lifecycle_cases; (split; [apply open_not_final; tauto|]).
  - by apply (elem_of_cons _ _ MemoryStatusCandidate); right.
  - unfold knownMemoryStatuses. rewrite !elem_of_cons in *. tauto.
  - by left.
Qed.

Lemma mem_step_follows m n : memory_step m n -> mem_follows m n.
Proof.
  intros [->|[(st & conf & ex & now & -> & Hl)|[(evs & ars & now & -> & Hst)|(from & to & now & ->)]]]%mem_step_cases.
  - apply mem_follows_refl.
  - apply mem_status_follows. exact (proj1 (lifecycle_open _ _ Hl)).
  - split; [by unfold mem_identity|]. split; [split; intros r Hr; apply append_spec; by left|].
    intros Hf. exfalso. eapply open_not_final; [|exact Hf]. by left.
  - split; [by unfold mem_identity|]. split; [by split|]. intros _. by exists from, to, now.
Qed.
Lemma mem_step_wf m n : mem_wf m -> memory_step m n -> mem_wf n.
Proof.
  intros Hwf [->|[(st & conf & ex & now & -> & Hl)|[(evs & ars & now & -> & Hst)|(from & to & now & ->)]]]%mem_step_cases;
    try done. destruct Hwf as [_ Hf]. split; [exact (proj2 (lifecycle_open _ _ Hl))|exact Hf].
Qed.

(** Every edge of the lifecycle is one call. *)
Lemma lifecycle_edge m b : lifecycle (status m) b = true -> exists n, memory_step m n /\ status n = b.
Proof.
  set (now := UnixEpoch). intros [[Ha Hb]|[[Ha Hb]|[Ha ->]]]%lifecycle_cases.
  - rewrite !elem_of_cons, elem_of_nil in Hb. destruct Hb as [->|[->|[->|[->|[]]]]];
      [exists (fst (Accept m "low" now))|exists (fst (Reject m now))
      |exists (fst (MarkCandidateSupersededByDuplicate m now))|exists (fst (Expire m now now))];
      (split; [constructor|]);
      unfold Accept, Reject, MarkCandidateSupersededByDuplicate, Expire; by rewrite Ha.
  - rewrite !elem_of_cons, elem_of_nil in Hb. destruct Hb as [->|[->|[]]];
      [exists (fst (MarkSuperseded m now))|exists (fst (Expire m now now))];
      (split; [constructor|]); unfold MarkSuperseded, Expire; by rewrite Ha.
  - exists (fst (RestoreToCandidate m now)). split; [constructor|]. unfold RestoreToCandidate. by rewrite Ha.
Qed.

(** *** Decay *)

Lemma due_stamped p created t now :
  CandidateDue p created (Some (Add t DefaultMemoryDecayOlderThan)) now = (ns t <? ns now - olderThan p).
Proof.
  unfold CandidateDue, DecayGrantStart, Before, cmp_with, Add, UTC. cbn [mono ns].
  f_equal; lia.
Qed.
Lemma due_unstamped p created now : CandidateDue p created None now = (ns created <? ns now - olderThan p).
Proof. unfold CandidateDue, DecayGrantStart, Before, cmp_with, Add, UTC. cbn [mono ns]. f_equal; lia. Qed.

(** When a restored candidate decays again: a fresh window for the sources
    with a stamp, the age of the row for the others. *)
Lemma restored_decay m p t policy now : RestoreToCandidate m t = (p, None) ->
  EligibleForDecay p policy now =
    AllowsSource policy (source m) &&
    ((if CandidateTTLApplies (source m) then ns t else ns (createdAt m)) <? ns now - olderThan policy).
Proof.
  unfold RestoreToCandidate. destruct (_ <>?s _); [done|]. intros [= <-].
  unfold EligibleForDecay. cbn [set_status status source createdAt expiresAt]. cbn iota.
  change (MemoryStatusCandidate <>?s MemoryStatusCandidate) with false. cbn iota.
  destruct (AllowsSource policy (source m)); [|done]. cbn [negb andb].
  by destruct (CandidateTTLApplies (source m)); rewrite ?due_stamped, ?due_unstamped.
Qed.

(** (C18) The life of a memory.  Whatever is called on a created or stored
    memory, its identity, its fact and its references are never lost; its
    status moves along the edges of the lifecycle and every edge is one call;
    a rejected or superseded memory is final up to its validity window.  Only
    a candidate decays, its expiry is then accepted, and a restored candidate
    of a source with a stamp decays only after a whole new window. *)
Theorem memory_lifecycle m n o :
  mem_created m -> star memory_step m n -> star memory_step n o ->
  mem_wf n /\ mem_identity m o /\ refs_kept n o /\
  (final (status n) -> exists from to updated, o = set_window n from to updated) /\
  (forall b, (exists p, memory_step n p /\ status p = b) <-> b = status n \/ lifecycle (status n) b = true) /\
  (forall policy now, EligibleForDecay n policy now = true ->
     status n = MemoryStatusCandidate /\ AllowsSource policy (source n) = true /\
     Expire n now now = (set_status n MemoryStatusExpired (confidence n) (Some now) now, None)) /\
  (forall p t policy now, RestoreToCandidate n t = (p, None) ->
     EligibleForDecay p policy now =
       AllowsSource policy (source n) &&
       ((if CandidateTTLApplies (source n) then ns t else ns (createdAt n)) <? ns now - olderThan policy)).
Proof.
  intros Hc Hmn Hno. apply mem_created_wf in Hc.
  assert (Hn : mem_wf n) by (eapply (star_invariant memory_step mem_wf); eauto using mem_step_wf).
  assert (Hrel : forall a b, star memory_step a b -> mem_wf a -> mem_follows a b).
  { intros a b. apply (star_relation memory_step mem_wf mem_follows);
      eauto using mem_follows_refl, mem_follows_trans, mem_step_wf, mem_step_follows. }
  destruct (Hrel n o Hno Hn) as (_ & Hrefs & Hfin).
  destruct (mem_follows_trans m n o (Hrel m n Hmn Hc) (Hrel n o Hno Hn)) as (Hid & _ & _).
  split_and!; [done|done|done|done| | |].
  - intros b. split.
    + intros (p & Hp & <-).
      apply mem_step_cases in Hp as [->|[(st & conf & ex & now & -> & Hl)|[(evs & ars & now & -> & Hst)|(from & to & now & ->)]]];
        [by left|by right|by left|by left].
    + intros [->|Hl]; [|by apply lifecycle_edge].
      exists (SetValidity n None None UnixEpoch). split; [constructor|done].
  - intros policy now. unfold EligibleForDecay. destruct (status n <>?s MemoryStatusCandidate) eqn:Es; [done|].
    destruct (AllowsSource policy (source n)) eqn:Ea; [|done]. intros _.
    split_and!; [by breflect|done|]. unfold Expire. by rewrite Es.
  - intros p t policy now. apply restored_decay.
Qed.

Definition ex_candidate : Memory :=
  MemoryOf "m-1" "lesson" GlobalScope "run go vet" "candidate" "low" "extracted" [] [] None
    (Some (mkTime 1000 None 0)) (mkTime 10 None 0) None (mkTime 10 None 0) (mkTime 10 None 0).
Definition ex_now : Time := mkTime 9000000000000000 None 0.
Definition ex_expired : Memory := fst (Expire ex_candidate ex_now ex_now).
Definition ex_restored : Memory := fst (RestoreToCandidate ex_expired ex_now).
Definition ex_policy : MemoryDecayPolicy := mkPolicy DefaultMemoryDecayOlderThan DefaultDecaySources.

Lemma memory_lifecycle_witness :
  mem_wf ex_expired /\ EligibleForDecay ex_candidate ex_policy ex_now = true /\
  EligibleForDecay ex_restored ex_policy ex_now = false.
Proof.
  destruct (memory_lifecycle ex_candidate ex_expired ex_restored) as (H & _ & _ & _ & _ & _ & Hr).
  - apply (created_stored "m-1" "lesson" GlobalScope "run go vet" "candidate" "low" "extracted" [] [] None
      _ _ None _ _ "candidate" "run go vet"); [vm_compute; reflexivity|vm_compute; reflexivity|discriminate].
  - apply star_one, mem_expire.
  - apply star_one, mem_restore.
  - split; [exact H|]. split; [vm_compute; reflexivity|].
    rewrite (Hr ex_restored ex_now); [vm_compute; reflexivity|reflexivity].
Defined.

(** The comment of [SetValidity] says an absent start falls back to the
    creation time; the code keeps the start there was. *)
Example SetValidity_keeps_start :
  let m := SetValidity ex_candidate (Some (mkTime 500 None 0)) None ex_now in
  validFrom (SetValidity m None None ex_now) = mkTime 500 None 0 /\ createdAt m = mkTime 10 None 0.
Proof. vm_compute. auto. Qed.

(** A reference keeps the kind it was given, not the one that was validated,
    so a kind with spaces around it is accepted and is none of the known kinds. *)
Example untrimmed_ref_kind :
  EvidenceRefFrom " event " "e-1" = Ok (mkEvidenceRef " event " "e-1") /\
  slices_contains knownEvidenceRefKinds " event " = false /\
  List.length (AppendEvidenceRefs [mkEvidenceRef "event" "e-1"] [mkEvidenceRef " event " "e-1"]) = 2%nat.
Proof. vm_compute. auto. Qed.
