(* ===== verification/ManagedBlock.v ===== *)
(** * Managed blocks in host files

    [src/application/usecase/managed_block.go], [import_stub_block.go],
    [activation_file_writer.go] and [import_stub_activation.go]: Traceary owns
    one region, between a begin and an end marker line, of files that users
    write.  Contents are bytes; a file system maps a path to a file, a
    symbolic link or a directory.  The theorems: a merge keeps every byte of
    the user's, a second merge changes nothing, and applying a two-file plan
    converges however the writes failed before.  The textual diff of a plan is
    not modelled. *)

From S2P Require Import Prelude GoStrings.

Definition newline : ascii := "010"%char.
Definition carriage : ascii := "013"%char.

(** ** Lines *)

(** The loop of [splitContentLines]: the raw lines, each with its newline. *)
Fixpoint split_go_lines (cur : list ascii) (content : list ascii) : list (list ascii) :=
  match content with
  | [] => match cur with [] => [] | _ => [rev cur] end
  | c :: t => if Ascii.eqb c newline then rev (c :: cur) :: split_go_lines [] t
              else split_go_lines (c :: cur) t
  end.
Definition splitContentLines (content : list ascii) : list (list ascii) := split_go_lines [] content.

Definition trim_last (c : ascii) (l : list ascii) : list ascii :=
  match rev l with
  | d :: t => if Ascii.eqb d c then rev t else l
  | [] => l
  end.
(** [contentLine.text], and its trimmed form. *)
Definition line_text (raw : list ascii) : list ascii := trim_last carriage (trim_last newline raw).
Definition line_trimmed (raw : list ascii) : string := TrimSpace (implode (line_text raw)).

(** ** Markers

    [mk_prefix] stands for the pattern [^<prefix>(\d+) -->$]. *)
Record managedBlockMarkers := mkMarkers {
  mk_begin : string; mk_end : string; mk_prefix : string; mk_version : Z }.

Definition marker_suffix : string := " -->".

(** The digits that [FindStringSubmatch] captures, and [strconv.Atoi] of them. *)
Definition marker_digits (prefix line : string) : option string :=
  if HasPrefix line prefix then
    let rest := TrimPrefix line prefix in
    if HasSuffix rest marker_suffix then
      let d := TrimSuffix rest marker_suffix in
      if negb (d =?s "") && forallb is_digit (explode d) then Some d else None
    else None
  else None.
Definition matchManagedBeginLine (m : managedBlockMarkers) (line : string) : option Z :=
  match marker_digits (mk_prefix m) line with Some d => Atoi d | None => None end.

Definition MemoryBridgeMarkerBegin : string := "<!-- traceary-memories:begin:v1 -->".
Definition MemoryBridgeMarkerEnd : string := "<!-- traceary-memories:end -->".
Definition MemoryBridgeCurrentVersion : Z := 1.
Definition memoryBridgeBlockMarkers : managedBlockMarkers :=
  mkMarkers MemoryBridgeMarkerBegin MemoryBridgeMarkerEnd "<!-- traceary-memories:begin:v" MemoryBridgeCurrentVersion.
Definition importStubMarkerBegin : string := "<!-- traceary-memory-import:begin:v1 -->".
Definition importStubMarkerEnd : string := "<!-- traceary-memory-import:end -->".
Definition importStubBlockMarkers : managedBlockMarkers :=
  mkMarkers importStubMarkerBegin importStubMarkerEnd "<!-- traceary-memory-import:begin:v" 1.

Record managedBlockRegion := mkRegion { rg_start : Z; rg_end : Z }.

Definition newer_version_format : string :=
  "refusing to overwrite newer Traceary managed block version v%d (current v%d)".

(** The loop of [findRegion]. *)
Fixpoint find_loop (m : managedBlockMarkers) (lines : list (list ascii)) (offset beginStart endOffset : Z)
  : result (option managedBlockRegion) :=
  match lines with
  | [] =>
      if beginStart <? 0 then Ok None
      else if endOffset <? 0 then Err (Errorf "Traceary managed memory begin marker found without end marker" [])
      else Ok (Some (mkRegion beginStart endOffset))
  | raw :: rest =>
      let trimmed := line_trimmed raw in
      let! beginStart :=
        match matchManagedBeginLine m trimmed with
        | Some version =>
            if mk_version m <? version then Err (Errorf newer_version_format [Itoa version; Itoa (mk_version m)])
            else if 0 <=? beginStart then Err (Errorf "multiple Traceary managed memory blocks found" [])
            else Ok offset
        | None => Ok beginStart
        end in
      if trimmed =?s mk_end m then
        if beginStart <? 0 then find_loop m rest (offset + llen raw) beginStart endOffset
        else if 0 <=? endOffset then Err (Errorf "multiple Traceary managed memory end markers found" [])
        else find_loop m rest (offset + llen raw) beginStart (offset + llen raw)
      else find_loop m rest (offset + llen raw) beginStart endOffset
  end.
Definition findRegion (m : managedBlockMarkers) (content : list ascii) : result (option managedBlockRegion) :=
  find_loop m (splitContentLines content) 0 (-1) (-1).

(** ** Merging *)

Definition MemoryActivationApplyCreated : string := "created".
Definition MemoryActivationApplyUpdated : string := "updated".
Definition MemoryActivationApplyNoop : string := "noop".

Definition ends_with (l suffix : list ascii) : bool := is_prefix (rev suffix) (rev l).

Definition appendManagedBlockWithSpacing (existing managedBlock : list ascii) : list ascii :=
  match existing with
  | [] => managedBlock
  | _ =>
      if negb (ends_with existing [newline]) then existing ++ [newline; newline] ++ managedBlock
      else if negb (ends_with existing [newline; newline]) then existing ++ [newline] ++ managedBlock
      else existing ++ managedBlock
  end.

Definition replaceOrAppend (m : managedBlockMarkers) (existing : list ascii) (exists_ : bool) (managedBlock : list ascii)
  : result (list ascii * string) :=
  if negb exists_ then Ok (managedBlock, MemoryActivationApplyCreated)
  else
    let! region := findRegion m existing in
    let merged :=
      match region with
      | Some r => take (Z.to_nat (rg_start r)) existing ++ managedBlock ++ drop (Z.to_nat (rg_end r)) existing
      | None => appendManagedBlockWithSpacing existing managedBlock
      end in
    if bool_decide (merged = existing) then Ok (existing, MemoryActivationApplyNoop)
    else Ok (merged, MemoryActivationApplyUpdated).

(** [renderImportStubBlock]. *)
Definition renderImportStubBlock (target importPath : string) : list ascii :=
  explode importStubMarkerBegin ++ [newline] ++
  explode ("<!-- DO NOT EDIT: this import is managed by Traceary. Run `traceary memory activate --target " ++ target
           ++ " --dry-run --diff` before applying updates. -->") ++ [newline] ++
  explode ("@" ++ importPath) ++ [newline] ++
  explode importStubMarkerEnd ++ [newline].

(** ** The file writer

    [mkdir] and [fault] are the errors returned when the operating system fails
    to make the directory, or at any later point up to the rename, which is
    atomic. *)
Inductive Node := File (perm : Z) (content : list ascii) | Symlink | Directory.
Notation FS := (gmap string Node).

Definition Inspect_file (stat : option error) (fs : FS) (path : string) : result (option Z) :=
  match stat with
  | Some e => Err (Wrap "failed to stat activation target %s: %w" [path] e)
  | None =>
      match fs !! path with
      | None => Ok None
      | Some Symlink => Err (Errorf "activation target symlinks are not supported: %s" [path])
      | Some Directory => Err (Errorf "activation target is a directory: %s" [path])
      | Some (File perm _) => Ok (Some perm)
      end
  end.

Definition ReadIfExists (stat read : option error) (fs : FS) (path : string) : result (option (list ascii)) :=
  let! info := Inspect_file stat fs path in
  match info with
  | None => Ok None
  | Some _ =>
      match read with
      | Some e => Err (Wrap "failed to read activation target %s: %w" [path] e)
      | None => match fs !! path with Some (File _ content) => Ok (Some content) | _ => Ok None end
      end
  end.

Definition WriteAtomic (mkdir stat fault : option error) (fs : FS) (path : string) (content : list ascii)
  : FS * option error :=
  match mkdir with
  | Some e => (fs, Some e)
  | None =>
      match Inspect_file stat fs path with
      | Err e => (fs, Some e)
      | Ok info =>
          match fault with
          | Some e => (fs, Some e)
          | None =>
              let perm := match info with Some mode => if negb (mode =? 0) then mode else 384 | None => 384 end in
              (<[path := File perm content]> fs, None)
          end
      end
  end.

(** ** The two-file plan *)

Definition MemoryActivationStatusMissing : string := "missing".
Definition MemoryActivationStatusStale : string := "stale".
Definition MemoryActivationStatusInSync : string := "in_sync".
Definition MemoryActivationStatusInvalid : string := "invalid".

Record activationComponentPlan := mkComponent {
  cp_path : string; cp_existing : bool; cp_markdown : list ascii; cp_action : string; cp_status : string;
  cp_message : option error }.

Definition computeComponentStatus (existing : list ascii) (exists_ : bool) (managedBlock : list ascii)
  (m : managedBlockMarkers) : string :=
  if negb exists_ then MemoryActivationStatusMissing
  else match findRegion m existing with
       | Err _ => MemoryActivationStatusInvalid
       | Ok None => MemoryActivationStatusMissing
       | Ok (Some r) =>
           if bool_decide (drop (Z.to_nat (rg_start r)) (take (Z.to_nat (rg_end r)) existing) = managedBlock)
           then MemoryActivationStatusInSync else MemoryActivationStatusStale
       end.

(** The answers of the operating system while one component is planned. *)
Record PlanFaults := mkPlanFaults { pf_stat : option error; pf_stat_read : option error; pf_read : option error }.
Definition no_plan_faults : PlanFaults := mkPlanFaults None None None.

Definition planComponent (n : PlanFaults) (fs : FS) (path : string) (m : managedBlockMarkers) (managedBlock : list ascii)
  : activationComponentPlan :=
  let invalid := fun existing e => mkComponent path existing [] "" MemoryActivationStatusInvalid (Some e) in
  match Inspect_file (pf_stat n) fs path with
  | Err e => invalid false e
  | Ok _ =>
      match ReadIfExists (pf_stat_read n) (pf_read n) fs path with
      | Err e => invalid false e
      | Ok content =>
          let exists_ := match content with Some _ => true | None => false end in
          let existing := default [] content in
          match replaceOrAppend m existing exists_ managedBlock with
          | Err e => invalid exists_ e
          | Ok (planned, action) =>
              mkComponent path exists_ planned action (computeComponentStatus existing exists_ managedBlock m) None
          end
      end
  end.

Record importStubActivationCriteria := mkCriteria {
  ia_target : string; ia_hostPath : string; ia_externalPath : string; ia_importPath : string;
  ia_externalMarkdown : list ascii }.
Record importStubActivationPlan := mkActivation {
  ap_host : activationComponentPlan; ap_external : activationComponentPlan }.

Definition Plan (nh ne : PlanFaults) (fs : FS) (c : importStubActivationCriteria) : importStubActivationPlan :=
  mkActivation
    (planComponent nh fs (ia_hostPath c) importStubBlockMarkers (renderImportStubBlock (ia_target c) (ia_importPath c)))
    (planComponent ne fs (ia_externalPath c) memoryBridgeBlockMarkers (ia_externalMarkdown c)).

Record WriteFaults := mkWriteFaults { wf_mkdir : option error; wf_stat : option error; wf_fault : option error }.
Definition no_write_faults : WriteFaults := mkWriteFaults None None None.

Definition apply_component (n : WriteFaults) (fs : FS) (p : activationComponentPlan) : FS * option error :=
  if cp_action p <>?s MemoryActivationApplyNoop
  then WriteAtomic (wf_mkdir n) (wf_stat n) (wf_fault n) fs (cp_path p) (cp_markdown p)
  else (fs, None).

Definition refusing (format : string) (p : activationComponentPlan) : error :=
  match cp_message p with Some e => Wrap format [cp_path p] e | None => Errorf format [cp_path p] end.
Definition Apply (nh ne : WriteFaults) (fs : FS) (plan : importStubActivationPlan) : FS * option error :=
  if cp_status (ap_external plan) =?s MemoryActivationStatusInvalid
  then (fs, Some (refusing "refusing to apply invalid external memory file %s: %s" (ap_external plan)))
  else if cp_status (ap_host plan) =?s MemoryActivationStatusInvalid
  then (fs, Some (refusing "refusing to apply invalid host context stub %s: %s" (ap_host plan)))
  else
    match apply_component ne fs (ap_external plan) with
    | (fs1, Some e) => (fs1, Some (Wrap "failed to apply external memory file %s: %w" [cp_path (ap_external plan)] e))
    | (fs1, None) =>
        match apply_component nh fs1 (ap_host plan) with
        | (fs2, Some e) => (fs2, Some (Wrap "failed to apply host context stub %s: %w" [cp_path (ap_host plan)] e))
        | (fs2, None) => (fs2, None)
        end
    end.

(** ** Lines and contents *)

Definition complete (raw : list ascii) : Prop := exists b, newline ∉ b /\ raw = b ++ [newline].

Lemma split_go_cons b cur t : newline ∉ b ->
  split_go_lines cur (b ++ newline :: t) = (rev cur ++ b ++ [newline]) :: splitContentLines t.
Proof.
  revert cur. induction b as [|c b IH]; intros cur Hb; simpl; [done|].
  apply not_elem_of_cons in Hb as [Hc Hb].
  destruct (Ascii.eqb c newline) eqn:E; [apply Ascii.eqb_eq in E; congruence|].
  rewrite IH by done. simpl. by rewrite <-!app_assoc.
Qed.
Lemma split_go_end b cur : newline ∉ b ->
  split_go_lines cur b = match rev cur ++ b with [] => [] | l => [l] end.
Proof.
  revert cur. induction b as [|c b IH]; intros cur Hb; simpl.
  - rewrite app_nil_r. destruct cur as [|d cur]; [done|]. simpl. by destruct (rev cur ++ [d]) eqn:E; [destruct (rev cur)|].
  - apply not_elem_of_cons in Hb as [Hc Hb].
    destruct (Ascii.eqb c newline) eqn:E; [apply Ascii.eqb_eq in E; congruence|].
    rewrite IH by done. simpl. by rewrite <-app_assoc.
Qed.

Lemma split_complete ls t : Forall complete ls -> splitContentLines (concat ls ++ t) = ls ++ splitContentLines t.
Proof.
  induction 1 as [|l ls (b & Hb & ->) _ IH]; simpl; [done|]. rewrite <-!app_assoc. simpl.
  unfold splitContentLines at 1. rewrite split_go_cons by done. simpl. by rewrite IH.
Qed.
Lemma split_tail t : newline ∉ t -> splitContentLines t = match t with [] => [] | _ => [t] end.
Proof. intros H. unfold splitContentLines. rewrite split_go_end by done. by destruct t. Qed.

(** Every content is complete lines and a tail without a newline. *)
Lemma content_shape (l : list ascii) :
  exists ls tail, l = concat ls ++ tail /\ Forall complete ls /\ newline ∉ tail.
Proof.
  induction l as [|c l (ls & tail & -> & Hls & Ht)].
  - exists [], []. split_and!; [done|constructor|by intros ?%elem_of_nil].
  - destruct (decide (c = newline)) as [->|Hc].
    + exists ([newline] :: ls), tail. split_and!; [done| |done]. constructor; [|done].
      exists []. split; [by intros ?%elem_of_nil|done].
    + destruct ls as [|l ls]; simpl.
      * exists [], (c :: tail). split_and!; [done|constructor|]. apply not_elem_of_cons. auto.
      * apply Forall_cons in Hls as [(b & Hb & ->) Hls]. exists (((c :: b) ++ [newline]) :: ls), tail.
        split_and!; [done| |done]. constructor; [|done]. exists (c :: b). split; [|done].
        apply not_elem_of_cons. auto.
Qed.

Lemma split_shape l ls tail : l = concat ls ++ tail -> Forall complete ls -> newline ∉ tail ->
  splitContentLines l = ls ++ match tail with [] => [] | _ => [tail] end.
Proof. intros -> Hls Ht. by rewrite split_complete, split_tail. Qed.

Lemma split_concat l : concat (splitContentLines l) = l.
Proof.
  destruct (content_shape l) as (ls & tail & E & Hls & Ht). rewrite (split_shape l ls tail) by done.
  rewrite concat_app, E. f_equal. destruct tail; [done|]. simpl. by rewrite app_nil_r.
Qed.

(** All lines but the last one of a content are complete. *)
Lemma split_prefix_complete l pre x post :
  splitContentLines l = pre ++ x :: post -> Forall complete pre /\ splitContentLines (concat (x :: post)) = x :: post.
Proof.
  intros H. destruct (content_shape l) as (ls & tail & E & Hls & Ht).
  rewrite (split_shape l ls tail) in H by done.
  assert (Hpre : exists ls2, ls = pre ++ ls2 /\ x :: post = ls2 ++ match tail with [] => [] | _ => [tail] end).
  { destruct tail as [|c t].
    - rewrite app_nil_r in H. subst ls. exists (x :: post). by rewrite app_nil_r.
    - destruct (app_eq_inv ls [c :: t] pre (x :: post) H) as [(k & -> & Hk)|(k & -> & Hk)]; [by exists k|].
      destruct k as [|y k]; [exists []; by rewrite !app_nil_r|]. injection Hk as <- Hk.
      by destruct k. }
  destruct Hpre as (ls2 & -> & Hx). apply Forall_app in Hls as [H1 H2]. split; [done|]. rewrite Hx, concat_app.
  rewrite split_complete by done. destruct tail as [|c t]; simpl; [done|].
  rewrite app_nil_r, split_tail by done. done.
Qed.

(** ** Regions *)

Section Markers.
Context (m : managedBlockMarkers).
(** The end line is no begin line. *)
Hypothesis end_no_begin : matchManagedBeginLine m (mk_end m) = None.

Definition no_begin (raw : list ascii) : Prop := matchManagedBeginLine m (line_trimmed raw) = None.
Definition begins (raw : list ascii) : Prop :=
  exists v, matchManagedBeginLine m (line_trimmed raw) = Some v /\ v <= mk_version m.
Definition ends (raw : list ascii) : Prop := line_trimmed raw = mk_end m.
Definition plain (raw : list ascii) : Prop := no_begin raw /\ ~ ends raw.

(** A managed region: its begin line, its body and its end line. *)
Definition is_block (blk : list (list ascii)) : Prop :=
  exists b mid e, blk = b :: mid ++ [e] /\ begins b /\ Forall plain mid /\ ends e.

Lemma llen_nil {A} : llen (@nil A) = 0.
Proof. done. Qed.
Lemma llen_append {A} (l k : list A) : llen (l ++ k) = llen l + llen k.
Proof. unfold llen. rewrite length_app. lia. Qed.
Lemma llen_pos {A} (l : list A) : 0 <= llen l.
Proof. unfold llen. lia. Qed.

Lemma begins_not_ends raw : begins raw -> ~ ends raw.
Proof using end_no_begin. unfold begins, ends. intros (v & Hv & _) E. rewrite E in Hv. congruence. Qed.
Lemma ends_no_begin raw : ends raw -> no_begin raw.
Proof using end_no_begin. unfold ends, no_begin. by intros ->. Qed.

Lemma find_skip pre rest off :
  Forall no_begin pre -> 0 <= off ->
  find_loop m (pre ++ rest) off (-1) (-1) = find_loop m rest (off + llen (concat pre)) (-1) (-1).
Proof using Type.
  intros Hpre. revert off. induction Hpre as [|raw pre Hn _ IH]; intros off Ho; simpl.
  - by rewrite llen_nil, Z.add_0_r.
  - unfold no_begin in Hn. rewrite Hn. pose proof (llen_pos raw).
    rewrite llen_append, Z.add_assoc. destruct (_ =?s _); [|by apply IH; lia].
    change (-1 <? 0) with true. cbn iota. apply IH. lia.
Qed.
Lemma find_plain lines rest off b e :
  Forall plain lines -> find_loop m (lines ++ rest) off b e = find_loop m rest (off + llen (concat lines)) b e.
Proof using Type.
  intros Hl. revert off. induction Hl as [|raw lines [Hn He] _ IH]; intros off; simpl.
  - by rewrite llen_nil, Z.add_0_r.
  - unfold no_begin, ends in *. rewrite Hn. apply String.eqb_neq in He. rewrite He.
    by rewrite IH, llen_append, Z.add_assoc.
Qed.

Lemma find_plain_all lines off b e :
  Forall plain lines -> find_loop m lines off b e = find_loop m [] (off + llen (concat lines)) b e.
Proof using Type. intros H. rewrite <-(app_nil_r lines) at 1. by apply find_plain. Qed.

(** A content with one well-formed region. *)
Lemma find_found pre blk post :
  Forall no_begin pre -> is_block blk -> Forall plain post ->
  find_loop m (pre ++ blk ++ post) 0 (-1) (-1) =
    Ok (Some (mkRegion (llen (concat pre)) (llen (concat pre) + llen (concat blk)))).
Proof using end_no_begin.
  intros Hpre (b & mid & e & -> & Hb & Hmid & He) Hpost. rewrite find_skip, Z.add_0_l by done.
  set (p := llen (concat pre)). assert (Hp : 0 <= p) by apply llen_pos. simpl.
  pose proof (begins_not_ends _ Hb) as Hne. destruct Hb as (v & Hv & Hle). rewrite Hv.
  replace (mk_version m <? v) with false by (symmetry; apply Z.ltb_ge; lia). cbn [Z.leb Z.compare].
  change (0 <=? -1) with false. cbn iota.
  unfold ends in Hne. apply String.eqb_neq in Hne. rewrite Hne, <-app_assoc, find_plain by done.
  simpl. pose proof (ends_no_begin e He) as Hn. unfold no_begin in Hn. rewrite Hn.
  unfold ends in He. rewrite He, String.eqb_refl.
  replace (p <? 0) with false by (symmetry; apply Z.ltb_ge; lia). change (0 <=? -1) with false. cbn iota.
  rewrite find_plain_all by done. simpl.
  replace (p <? 0) with false by (symmetry; apply Z.ltb_ge; lia).
  pose proof (llen_pos b). pose proof (llen_pos (concat mid)). pose proof (llen_pos e).
  replace (_ <? 0) with false by (symmetry; apply Z.ltb_ge; lia).
  do 3 f_equal. rewrite concat_app, !llen_append. simpl. rewrite app_nil_r. lia.
Qed.

Lemma find_absent lines : Forall no_begin lines -> find_loop m lines 0 (-1) (-1) = Ok None.
Proof using Type. intros H. rewrite <-(app_nil_r lines). by rewrite find_skip. Qed.

(** After the end marker. *)
Lemma find_after lines off b e o :
  0 <= off -> 0 <= b -> 0 <= e -> find_loop m lines off b e = Ok o -> o = Some (mkRegion b e) /\ Forall plain lines.
Proof using end_no_begin.
  revert off. induction lines as [|raw lines IH]; intros off Ho Hb He H; simpl in H.
  - replace (b <? 0) with false in H by (symmetry; apply Z.ltb_ge; lia).
    replace (e <? 0) with false in H by (symmetry; apply Z.ltb_ge; lia). injection H as <-. by split.
  - pose proof (llen_pos raw). replace (0 <=? b) with true in H by (symmetry; apply Z.leb_le; lia).
    destruct (matchManagedBeginLine m (line_trimmed raw)) as [v|] eqn:Em; [by destruct (_ <? _)|].
    cbn beta iota in H. replace (b <? 0) with false in H by (symmetry; apply Z.ltb_ge; lia).
    replace (0 <=? e) with true in H by (symmetry; apply Z.leb_le; lia).
    destruct (_ =?s _) eqn:Ee; [done|]. apply IH in H as [-> Hl]; [|lia..]. split; [done|].
    constructor; [|done]. split; [done|]. by apply String.eqb_neq.
Qed.

(** Between the markers. *)
Lemma find_inside lines off b o :
  0 <= off -> 0 <= b -> find_loop m lines off b (-1) = Ok o ->
  exists mid e post, lines = mid ++ e :: post /\ Forall plain mid /\ ends e /\ Forall plain post /\
    o = Some (mkRegion b (off + llen (concat mid) + llen e)).
Proof using end_no_begin.
  revert off. induction lines as [|raw lines IH]; intros off Ho Hb H; simpl in H.
  - replace (b <? 0) with false in H by (symmetry; apply Z.ltb_ge; lia). done.
  - pose proof (llen_pos raw). replace (0 <=? b) with true in H by (symmetry; apply Z.leb_le; lia).
    destruct (matchManagedBeginLine m (line_trimmed raw)) as [v|] eqn:Em; [by destruct (_ <? _)|].
    cbn beta iota in H. replace (b <? 0) with false in H by (symmetry; apply Z.ltb_ge; lia).
    destruct (_ =?s _) eqn:Ee.
    + change (0 <=? -1) with false in H. cbn iota in H. apply String.eqb_eq in Ee.
      apply find_after in H as [-> Hl]; [|lia..]. exists [], raw, lines. simpl. split_and!; auto.
      rewrite llen_nil. do 2 f_equal. lia.
    + apply IH in H as (mid & e & post & -> & Hmid & He & Hpost & ->); [|lia..].
      exists (raw :: mid), e, post. split_and!; auto.
      * constructor; [|done]. split; [done|]. by apply String.eqb_neq.
      * simpl. rewrite llen_append. do 2 f_equal. lia.
Qed.

(** What a successful search says. *)
Lemma find_ok_from lines off o :
  0 <= off -> find_loop m lines off (-1) (-1) = Ok o ->
  match o with
  | None => Forall no_begin lines
  | Some r => exists pre blk post, lines = pre ++ blk ++ post /\ Forall no_begin pre /\ is_block blk /\
      Forall plain post /\ r = mkRegion (off + llen (concat pre)) (off + llen (concat pre) + llen (concat blk))
  end.
Proof using end_no_begin.
  revert off.
  induction lines as [|raw lines IH]; intros off Ho H; simpl in H; [by injection H as <-|].
  pose proof (llen_pos raw). destruct (matchManagedBeginLine m (line_trimmed raw)) as [v|] eqn:Em.
  - destruct (mk_version m <? v) eqn:Ev; [done|]. breflect. change (0 <=? -1) with false in H. cbn iota in H.
    assert (Hb : begins raw) by (exists v; auto).
    destruct (_ =?s _) eqn:Ee; [apply String.eqb_eq in Ee; by destruct (begins_not_ends raw Hb)|].
    apply find_inside in H as (mid & e & post & -> & Hmid & He & Hpost & ->); [|lia..].
    exists [], (raw :: mid ++ [e]), post. simpl. rewrite <-app_assoc. split_and!; auto.
    + by exists raw, mid, e.
    + rewrite llen_nil, concat_app, !llen_append. simpl. rewrite app_nil_r. f_equal; lia.
  - assert (Hgo : find_loop m lines (off + llen raw) (-1) (-1) = Ok o) by (by destruct (_ =?s _) in H).
    specialize (IH (off + llen raw) ltac:(lia) Hgo). destruct o as [r|].
    + destruct IH as (pre & blk & post & -> & Hpre & Hblk & Hpost & ->). exists (raw :: pre), blk, post.
      split_and!; auto. simpl. rewrite llen_append. f_equal; lia.
    + by constructor.
Qed.

Lemma find_ok lines o :
  find_loop m lines 0 (-1) (-1) = Ok o ->
  match o with
  | None => Forall no_begin lines
  | Some r => exists pre blk post, lines = pre ++ blk ++ post /\ Forall no_begin pre /\ is_block blk /\
      Forall plain post /\ r = mkRegion (llen (concat pre)) (llen (concat pre) + llen (concat blk))
  end.
Proof using end_no_begin. intros H. by apply find_ok_from in H. Qed.

(** ** Merging *)

Lemma take_llen (l k : list ascii) : take (Z.to_nat (llen l)) (l ++ k) = l.
Proof. unfold llen. rewrite Nat2Z.id. apply take_app_length. Qed.
Lemma drop_llen (l k : list ascii) : drop (Z.to_nat (llen l)) (l ++ k) = k.
Proof. unfold llen. rewrite Nat2Z.id. apply drop_app_length. Qed.

(** A merge puts the block in the place of the region, or after everything. *)
Inductive merged_as (existing block merged : list ascii) : Prop :=
| merged_replace pre blk post :
    splitContentLines existing = pre ++ blk ++ post -> Forall no_begin pre -> is_block blk -> Forall plain post ->
    merged = concat pre ++ block ++ concat post -> merged_as existing block merged
| merged_append sep :
    Forall no_begin (splitContentLines existing) ->
    sep = [] \/ sep = [newline] \/ sep = [newline; newline] ->
    (existing = [] -> sep = []) -> (existing <> [] -> exists l, existing ++ sep = l ++ [newline; newline]) ->
    merged = existing ++ sep ++ block -> merged_as existing block merged.

Lemma ends_with_spec l k : ends_with l k = true -> exists p, l = p ++ k.
Proof.
  unfold ends_with. intros [t Ht]%is_prefix_spec. exists (rev t).
  apply (f_equal (@rev ascii)) in Ht. by rewrite rev_app_distr, !rev_involutive in Ht.
Qed.

Lemma append_spacing existing block :
  exists sep, appendManagedBlockWithSpacing existing block = existing ++ sep ++ block /\
    (sep = [] \/ sep = [newline] \/ sep = [newline; newline]) /\ (existing = [] -> sep = []) /\
    (existing <> [] -> exists l, existing ++ sep = l ++ [newline; newline]).
Proof.
  unfold appendManagedBlockWithSpacing. destruct existing as [|c t]; [exists []; split_and!; auto; done|].
  destruct (ends_with (c :: t) [newline]) eqn:E1; cbn [negb]; cycle 1.
  { exists [newline; newline]. split_and!; eauto; done. }
  destruct (ends_with (c :: t) [newline; newline]) eqn:E2; cbn [negb].
  - exists []. apply ends_with_spec in E2 as [p Hp]. split_and!; auto. intros _. exists p. by rewrite app_nil_r.
  - exists [newline]. apply ends_with_spec in E1 as [p Hp]. split_and!; auto; [done|]. intros _. exists p.
    rewrite Hp, <-app_assoc. done.
Qed.

Lemma merge_spec existing block merged act :
  replaceOrAppend m existing true block = Ok (merged, act) ->
  merged_as existing block merged /\
  act = (if bool_decide (merged = existing) then MemoryActivationApplyNoop else MemoryActivationApplyUpdated).
Proof using end_no_begin.
  unfold replaceOrAppend. simpl. destruct (findRegion m existing) as [o|] eqn:Ef; [|done].
  unfold findRegion in Ef. apply find_ok in Ef. destruct o as [r|].
  - destruct Ef as (pre & blk & post & El & Hpre & Hblk & Hpost & ->). cbn [rg_start rg_end].
    assert (Ec : existing = concat pre ++ concat blk ++ concat post).
    { rewrite <-(split_concat existing), El, !concat_app. done. }
    assert (E1 : take (Z.to_nat (llen (concat pre))) existing = concat pre) by (rewrite Ec; apply take_llen).
    assert (E2 : drop (Z.to_nat (llen (concat pre) + llen (concat blk))) existing = concat post).
    { rewrite <-llen_append, Ec, app_assoc. apply drop_llen. }
    rewrite E1, E2. intros H.
    destruct (bool_decide (concat pre ++ block ++ concat post = existing)) eqn:Eb; injection H as <- <-; breflect.
    + rewrite (bool_decide_eq_true_2 (existing = existing)) by done. split; [|done].
      by apply (merged_replace _ _ _ pre blk post).
    + rewrite bool_decide_eq_false_2 by done. split; [|done]. by apply (merged_replace _ _ _ pre blk post).
  - destruct (append_spacing existing block) as (sep & -> & Hsep & Hnil & Hcons). intros H.
    destruct (bool_decide (existing ++ sep ++ block = existing)) eqn:Eb; injection H as <- <-; breflect.
    + rewrite (bool_decide_eq_true_2 (existing = existing)) by done. split; [|done].
      by apply (merged_append _ _ _ sep).
    + rewrite bool_decide_eq_false_2 by done. split; [|done]. by apply (merged_append _ _ _ sep).
Qed.

(** ** Merging again *)

Hypothesis blank_no_begin : matchManagedBeginLine m "" = None.

(** A block as the renderers write it: whole lines. *)
Definition canonical (block : list ascii) (blk : list (list ascii)) : Prop :=
  block = concat blk /\ is_block blk /\ Forall complete blk.

Lemma trim_last_snoc c l : trim_last c (l ++ [c]) = l.
Proof. unfold trim_last. rewrite rev_app_distr. simpl. by rewrite Ascii.eqb_refl, rev_involutive. Qed.
Lemma trim_last_notin c l : c ∉ l -> trim_last c l = l.
Proof.
  intros H. unfold trim_last. destruct (rev l) as [|d t] eqn:E; [done|].
  destruct (Ascii.eqb d c) eqn:Ed; [|done]. apply Ascii.eqb_eq in Ed as ->. destruct H.
  apply elem_of_rev. rewrite E. by left.
Qed.
Lemma trim_last_cases c l : trim_last c l = l \/ exists k, trim_last c l = k /\ l = k ++ [c].
Proof using Type.
  unfold trim_last. destruct (rev l) as [|d t] eqn:E; [by left|]. destruct (Ascii.eqb d c) eqn:Ed; [right|by left].
  apply Ascii.eqb_eq in Ed as ->. exists (rev t). split; [done|].
  apply (f_equal (@rev ascii)) in E. by rewrite rev_involutive in E.
Qed.
Lemma line_trimmed_newline tail : newline ∉ tail -> line_trimmed (tail ++ [newline]) = line_trimmed tail.
Proof. intros H. unfold line_trimmed, line_text. by rewrite trim_last_snoc, (trim_last_notin newline). Qed.

Lemma blank_line : no_begin [newline] /\ complete [newline].
Proof using blank_no_begin.
  split; [|exists []; split; [by intros ?%elem_of_nil|done]]. unfold no_begin.
  replace (line_trimmed [newline]) with "" by (by vm_compute). done.
Qed.

(** A content that ends with a newline, and its lines. *)
Lemma spaced_lines existing sep :
  Forall no_begin (splitContentLines existing) -> sep = [] \/ sep = [newline] \/ sep = [newline; newline] ->
  (exists l, existing ++ sep = l ++ [newline; newline]) ->
  exists ls, existing ++ sep = concat ls /\ Forall no_begin ls /\ Forall complete ls.
Proof using blank_no_begin.
  intros Hn Hsep [l Hl]. destruct (content_shape existing) as (ls & tail & E & Hls & Ht).
  rewrite (split_shape existing ls tail E Hls Ht) in Hn. apply Forall_app in Hn as [Hn1 Hn2].
  destruct blank_line as [B1 B2].
  assert (Hblank : exists bs, sep = concat bs /\ Forall no_begin bs /\ Forall complete bs).
  { destruct Hsep as [->|[->| ->]]; [exists []|exists [[newline]]|exists [[newline]; [newline]]];
      (split; [done|split; repeat constructor; done]). }
  destruct Hblank as (bs & Ebs & Hb1 & Hb2). destruct tail as [|c t].
  - rewrite app_nil_r in E. exists (ls ++ bs). rewrite concat_app, <-E, <-Ebs.
    split_and!; [done|by apply Forall_app|by apply Forall_app].
  - assert (Hnl : sep = [] -> False).
    { intros ->. rewrite app_nil_r in Hl. rewrite E in Hl.
      assert (Hin : newline ∈ c :: t); [|done].
      assert (Hlast : last (concat ls ++ c :: t) = Some newline) by (rewrite Hl; by rewrite last_app).
      rewrite last_app in Hlast. destruct (last (c :: t)) as [d|] eqn:Ed; [|by apply last_None in Ed].
      injection Hlast as ->. apply last_Some in Ed as [p Hp]. rewrite Hp. apply elem_of_app. right. by left. }
    assert (Hcons : exists sep', sep = newline :: sep' /\ (sep' = [] \/ sep' = [newline])).
    { destruct Hsep as [->|[->| ->]]; [by destruct Hnl|exists []|exists [newline]]; auto. }
    destruct Hcons as (sep' & -> & Hsep'). apply Forall_cons in Hn2 as [Hn2 _].
    exists (ls ++ [(c :: t) ++ [newline]] ++ match sep' with [] => [] | _ => [[newline]] end).
    split_and!.
    + rewrite E, !concat_app. simpl. rewrite app_nil_r, <-!app_assoc. simpl.
      do 3 f_equal. by destruct Hsep' as [->| ->].
    + apply Forall_app. split; [done|]. constructor; [|by destruct Hsep' as [->| ->]; repeat constructor].
      unfold no_begin. by rewrite line_trimmed_newline.
    + apply Forall_app. split; [done|]. constructor; [|by destruct Hsep' as [->| ->]; repeat constructor].
      by exists (c :: t).
Qed.

(** The lines of a merged content. *)
Lemma merged_lines existing block blk merged :
  merged_as existing block merged -> canonical block blk ->
  exists pre post, Forall no_begin pre /\ Forall plain post /\
    splitContentLines merged = pre ++ blk ++ post /\ merged = concat pre ++ block ++ concat post.
Proof using blank_no_begin.
  intros Hm (Eb & Hblk & Hc). destruct Hm as [pre blk0 post El Hpre Hb0 Hpost ->|sep Hn Hsep Hnil Hcons ->].
  - exists pre, post. split_and!; try done.
    destruct Hb0 as (b & mid & e & -> & _). simpl in El.
    destruct (split_prefix_complete _ _ _ _ El) as [Hcp _].
    rewrite split_complete by done. rewrite Eb, split_complete by done. do 2 f_equal.
    destruct post as [|x post]; [done|].
    assert (El' : splitContentLines existing = (pre ++ b :: mid ++ [e]) ++ x :: post)
      by (rewrite El, <-(app_assoc pre); done).
    by destruct (split_prefix_complete _ _ _ _ El') as [_ ?].
  - destruct (decide (existing = [])) as [->|Hne].
    + rewrite (Hnil eq_refl). exists [], []. simpl. rewrite !app_nil_r. split_and!; [constructor|constructor| |done].
      rewrite Eb. rewrite <-(app_nil_r (concat blk)), split_complete by done. by rewrite app_nil_r.
    + destruct (spaced_lines existing sep Hn Hsep (Hcons Hne)) as (ls & E & Hl1 & Hl2).
      exists ls, []. simpl. rewrite !app_nil_r, app_assoc, E. split_and!; [done|constructor| |done].
      rewrite Eb, split_complete by done. f_equal.
      rewrite <-(app_nil_r (concat blk)), split_complete by done. by rewrite app_nil_r.
Qed.

Lemma merge_again existing block blk merged :
  merged_as existing block merged -> canonical block blk ->
  replaceOrAppend m merged true block = Ok (merged, MemoryActivationApplyNoop) /\
  computeComponentStatus merged true block m = MemoryActivationStatusInSync.
Proof using end_no_begin blank_no_begin.
  intros Hm Hblk. destruct (merged_lines _ _ _ _ Hm Hblk) as (pre & post & Hpre & Hpost & El & Ec).
  destruct Hblk as (Eb & Hb & Hc).
  assert (Ef : findRegion m merged = Ok (Some (mkRegion (llen (concat pre)) (llen (concat pre) + llen block)))).
  { unfold findRegion. rewrite El, Eb. by apply find_found. }
  unfold replaceOrAppend, computeComponentStatus. rewrite Ef. cbn [negb rg_start rg_end].
  assert (E1 : take (Z.to_nat (llen (concat pre))) merged = concat pre) by (rewrite Ec; apply take_llen).
  assert (E2 : drop (Z.to_nat (llen (concat pre) + llen block)) merged = concat post).
  { rewrite <-llen_append, Ec, app_assoc. apply drop_llen. }
  assert (E3 : drop (Z.to_nat (llen (concat pre))) (take (Z.to_nat (llen (concat pre) + llen block)) merged) = block).
  { rewrite <-llen_append, Ec, app_assoc, take_llen. apply drop_llen. }
  rewrite E1, E2, E3, <-Ec, !bool_decide_eq_true_2 by done. done.
Qed.
End Markers.

(** ** The two kinds of markers *)

Definition known_markers (m : managedBlockMarkers) : Prop :=
  m = memoryBridgeBlockMarkers \/ m = importStubBlockMarkers.

Lemma known_end m : known_markers m -> matchManagedBeginLine m (mk_end m) = None.
Proof. intros [->| ->]; by vm_compute. Qed.
Lemma known_blank m : known_markers m -> matchManagedBeginLine m "" = None.
Proof. intros [->| ->]; by vm_compute. Qed.

(** A line that does not start like a comment of Traceary's is no marker. *)
Lemma plain_line m p r :
  known_markers m -> graphic_ends p = true -> newline ∉ p ++ r ->
  (forall x, is_prefix (explode "<!-- traceary-") (p ++ x) = false) -> plain m ((p ++ r) ++ [newline]).
Proof.
  intros Hm Hp Hn Hfree.
  assert (Hline : exists r', line_trimmed ((p ++ r) ++ [newline]) = implode (p ++ r')).
  { unfold line_trimmed, line_text. rewrite trim_last_snoc.
    destruct (trim_last_cases carriage (p ++ r)) as [->|(l & -> & E)]; [by apply TrimSpace_prefix|].
    destruct r as [|x r] using rev_ind.
    - rewrite app_nil_r in E. unfold graphic_ends in Hp. destruct p as [|c p]; [done|].
      rewrite E, rev_app_distr in Hp. simpl in Hp. destruct (l ++ [carriage]); [done|].
      by rewrite andb_false_r in Hp.
    - rewrite app_assoc in E. apply app_inj_tail in E as [<- _]. by apply TrimSpace_prefix. }
  destruct Hline as [r' Hline]. 
  assert (Hno : forall q, is_prefix (explode "<!-- traceary-") (explode q) = true ->
    HasPrefix (implode (p ++ r')) q = false /\ implode (p ++ r') <> q).
  { intros q Hq. unfold HasPrefix. rewrite explode_implode. split.
    - apply not_true_is_false. intros H. apply is_prefix_spec in H as [k Hk]. apply is_prefix_spec in Hq as [j Hj].
      specialize (Hfree r'). rewrite Hk, Hj, <-app_assoc in Hfree.
      assert (E : is_prefix (explode "<!-- traceary-") (explode "<!-- traceary-" ++ j ++ k) = true)
        by (apply is_prefix_spec; by exists (j ++ k)). congruence.
    - intros <-. rewrite explode_implode in Hq. by rewrite Hfree in Hq. }
  split.
  - unfold no_begin, matchManagedBeginLine, marker_digits. rewrite Hline.
    assert (H : HasPrefix (implode (p ++ r')) (mk_prefix m) = false)
      by (apply Hno; destruct Hm as [->| ->]; by vm_compute).
    by rewrite H.
  - unfold ends. rewrite Hline. apply Hno. destruct Hm as [->| ->]; by vm_compute.
Qed.

Lemma complete_line b : newline ∉ b -> complete (b ++ [newline]).
Proof. by exists b. Qed.
Lemma no_newline s : forallb (fun c => negb (Ascii.eqb c newline)) (explode s) = true -> newline ∉ explode s.
Proof.
  rewrite forallb_forall. intros H Hin%list_elem_of_In. specialize (H _ Hin). by rewrite Ascii.eqb_refl in H.
Qed.

(** The import stub is a block. *)
Lemma stub_canonical target importPath :
  newline ∉ explode target -> newline ∉ explode importPath ->
  exists blk, canonical importStubBlockMarkers (renderImportStubBlock target importPath) blk.
Proof.
  intros Ht Hp. set (p1 := explode "<!-- DO").
  set (r1 := explode " NOT EDIT: this import is managed by Traceary. Run `traceary memory activate --target " ++
    explode target ++ explode " --dry-run --diff` before applying updates. -->").
  assert (N1 : newline ∉ p1 ++ r1).
  { unfold p1, r1. rewrite !elem_of_app. intros [H|[H|[H|H]]]; [| |done|]; revert H; by apply no_newline. }
  assert (N2 : newline ∉ explode "@" ++ explode importPath).
  { rewrite elem_of_app. intros [H|H]; [|done]. revert H. by apply no_newline. }
  exists [explode importStubMarkerBegin ++ [newline]; (p1 ++ r1) ++ [newline];
          (explode "@" ++ explode importPath) ++ [newline]; explode importStubMarkerEnd ++ [newline]].
  split_and!.
  - unfold renderImportStubBlock, p1, r1. simpl concat. rewrite !explode_app. simpl. by rewrite <-!app_assoc.
  - exists (explode importStubMarkerBegin ++ [newline]),
      [(p1 ++ r1) ++ [newline]; (explode "@" ++ explode importPath) ++ [newline]], (explode importStubMarkerEnd ++ [newline]).
    split_and!; [done|exists 1; split; [by vm_compute|done]| |by vm_compute].
    repeat constructor; (apply plain_line; [by right|done|done|done]).
  - repeat constructor; apply complete_line; try done; by apply no_newline.
Qed.

(** ** Applying a plan *)

Section Components.
Context (m : managedBlockMarkers) (block : list ascii) (blk : list (list ascii)).
Hypothesis known : known_markers m.
Hypothesis canon : canonical m block blk.

(** The file holds the current block. *)
Definition settled (fs : FS) (path : string) : Prop :=
  exists perm content, fs !! path = Some (File perm content) /\
    replaceOrAppend m content true block = Ok (content, MemoryActivationApplyNoop) /\
    computeComponentStatus content true block m = MemoryActivationStatusInSync.

Lemma created_settles : 
  replaceOrAppend m block true block = Ok (block, MemoryActivationApplyNoop) /\
  computeComponentStatus block true block m = MemoryActivationStatusInSync.
Proof using known canon.
  apply (merge_again m (known_end m known) (known_blank m known) [] block blk); [|done].
  apply (merged_append _ _ _ _ []); simpl; auto; try done; constructor.
Qed.

Lemma settled_plan fs path : settled fs path ->
  let p := planComponent no_plan_faults fs path m block in
  cp_action p = MemoryActivationApplyNoop /\ cp_status p = MemoryActivationStatusInSync.
Proof using Type.
  intros (perm & content & Hf & Hr & Hs). unfold planComponent, ReadIfExists, Inspect_file. simpl.
  rewrite Hf. simpl. by rewrite Hr, Hs.
Qed.

(** A planned component that is not invalid. *)
Lemma plan_cases fs path :
  let p := planComponent no_plan_faults fs path m block in
  cp_status p <> MemoryActivationStatusInvalid ->
  cp_path p = path /\
  ((fs !! path = None \/ exists perm content, fs !! path = Some (File perm content)) /\
   replaceOrAppend m (cp_markdown p) true block = Ok (cp_markdown p, MemoryActivationApplyNoop) /\
   computeComponentStatus (cp_markdown p) true block m = MemoryActivationStatusInSync /\
   (cp_action p = MemoryActivationApplyNoop -> settled fs path)).
Proof using known canon.
  cbv zeta. unfold planComponent, ReadIfExists, Inspect_file. simpl.
  destruct (fs !! path) as [[perm content| |]|] eqn:Hf; simpl; try done.
  - destruct (replaceOrAppend m content true block) as [[planned act]|] eqn:Er; simpl; [|done]. intros _.
    destruct (merge_spec m (known_end m known) _ _ _ _ Er) as [Hm Hact].
    destruct (merge_again m (known_end m known) (known_blank m known) _ _ _ _ Hm canon) as [H1 H2].
    split_and!; eauto. intros E. rewrite E in *. destruct (bool_decide (planned = content)) eqn:Eb; [|done]. breflect.
    subst planned. by exists perm, content.
  - intros _. split_and!; auto; try apply created_settles. done.
Qed.

(** One write, whatever fails. *)
Lemma apply_component_cases n fs path fs' err :
  let p := planComponent no_plan_faults fs path m block in
  cp_status p <> MemoryActivationStatusInvalid -> apply_component n fs p = (fs', err) ->
  (forall q, q <> path -> fs' !! q = fs !! q) /\
  (fs' = fs /\ err <> None \/ settled fs' path /\ err = None) /\ (n = no_write_faults -> err = None).
Proof using known canon.
  cbv zeta. intros Hs Ha. destruct (plan_cases fs path Hs) as (Ep & Hnode & H1 & H2 & H3).
  unfold apply_component in Ha. destruct (_ <>?s _) eqn:Ea.
  - rewrite Ep in Ha. unfold WriteAtomic, Inspect_file in Ha.
    destruct (wf_mkdir n) eqn:E1; [injection Ha as <- <-; split_and!; auto; by intros ->|].
    destruct (wf_stat n) eqn:E2; [injection Ha as <- <-; split_and!; auto; by intros ->|].
    assert (Hwrite : forall perm, settled (<[path := File perm (cp_markdown (planComponent no_plan_faults fs path m block))]> fs) path).
    { intros perm. eexists perm, _. rewrite lookup_insert_eq. by split_and!. }
    destruct Hnode as [Hf|(perm & content & Hf)]; rewrite Hf in Ha;
      (destruct (wf_fault n) eqn:E3; [injection Ha as <- <-; split_and!; auto; by intros ->|]);
      injection Ha as <- <-; split_and!; auto; intros q Hq; by rewrite lookup_insert_ne.
  - injection Ha as <- <-. breflect. split_and!; auto.
Qed.
End Components.

Lemma settled_other m block fs fs' path :
  fs' !! path = fs !! path -> settled m block fs path -> settled m block fs' path.
Proof. intros E (perm & content & Hf & H). exists perm, content. by rewrite E. Qed.

Lemma plan_ext n fs fs' path m block :
  fs' !! path = fs !! path -> planComponent n fs' path m block = planComponent n fs path m block.
Proof. intros E. unfold planComponent, ReadIfExists, Inspect_file. by rewrite E. Qed.

(** Both components planned and written. *)
Section TwoFiles.
Context (c : importStubActivationCriteria) (hblk eblk : list (list ascii)).
Notation hblock := (renderImportStubBlock (ia_target c) (ia_importPath c)).
Notation eblock := (ia_externalMarkdown c).
Hypothesis paths : ia_hostPath c <> ia_externalPath c.
Hypothesis hcanon : canonical importStubBlockMarkers hblock hblk.
Hypothesis ecanon : canonical memoryBridgeBlockMarkers eblock eblk.

Definition plan (fs : FS) : importStubActivationPlan := Plan no_plan_faults no_plan_faults fs c.
Definition valid (fs : FS) : Prop :=
  cp_status (ap_host (plan fs)) <> MemoryActivationStatusInvalid /\
  cp_status (ap_external (plan fs)) <> MemoryActivationStatusInvalid.
Definition hsettled (fs : FS) : Prop := settled importStubBlockMarkers hblock fs (ia_hostPath c).
Definition esettled (fs : FS) : Prop := settled memoryBridgeBlockMarkers eblock fs (ia_externalPath c).

Lemma apply_two nh ne fs fs' err :
  valid fs -> Apply nh ne fs (plan fs) = (fs', err) ->
  (forall q, q <> ia_hostPath c -> q <> ia_externalPath c -> fs' !! q = fs !! q) /\ valid fs' /\
  (nh = no_write_faults -> ne = no_write_faults -> err = None /\ hsettled fs' /\ esettled fs').
Proof using paths hcanon ecanon.
  intros [Vh Ve] Ha. unfold Apply in Ha. pose proof Vh as Vh'. pose proof Ve as Ve'.
  apply String.eqb_neq in Vh', Ve'. rewrite Vh', Ve' in Ha.
  destruct (apply_component ne fs (ap_external (plan fs))) as [fs1 e1] eqn:E1.
  destruct (apply_component_cases memoryBridgeBlockMarkers eblock eblk (or_introl eq_refl) ecanon ne fs
    (ia_externalPath c) fs1 e1 Ve E1) as (O1 & S1 & N1).
  assert (Hplan : ap_host (plan fs) = planComponent no_plan_faults fs1 (ia_hostPath c) importStubBlockMarkers hblock).
  { symmetry. apply plan_ext. by apply O1. }
  assert (Hvalid : forall fs2, (fs2 !! ia_hostPath c = fs !! ia_hostPath c \/ hsettled fs2) ->
    (fs2 !! ia_externalPath c = fs !! ia_externalPath c \/ esettled fs2) -> valid fs2).
  { intros fs2 H1 H2. split; simpl.
    - destruct H1 as [H1|H1]; [by rewrite (plan_ext _ fs) by done|].
      destruct (settled_plan _ _ _ _ H1) as [_ ->]. done.
    - destruct H2 as [H2|H2]; [by rewrite (plan_ext _ fs) by done|].
      destruct (settled_plan _ _ _ _ H2) as [_ ->]. done. }
  destruct e1 as [e|].
  - injection Ha as <- <-. split_and!; [by auto| |intros _ Hn; specialize (N1 Hn); done].
    destruct S1 as [[-> _]|[_ ?]]; [|done]. apply Hvalid; by left.
  - destruct (apply_component nh fs1 (ap_host (plan fs))) as [fs2 e2] eqn:E2. rewrite Hplan in E2, Vh.
    destruct (apply_component_cases importStubBlockMarkers hblock hblk (or_intror eq_refl) hcanon nh fs1
      (ia_hostPath c) fs2 e2 Vh E2) as (O2 & S2 & N2).
    assert (He : esettled fs2).
    { destruct S1 as [[_ ?]|[H _]]; [done|]. apply (settled_other _ _ fs1); [apply O2; by auto|done]. }
    assert (Hh : fs2 !! ia_hostPath c = fs !! ia_hostPath c \/ hsettled fs2).
    { destruct S2 as [[-> _]|[H _]]; [left; by apply O1|by right]. }
    assert (Hfs : fs' = fs2) by (by destruct e2; injection Ha). subst fs'.
    split_and!; [|apply Hvalid; by auto|].
    + intros q H1 H2. rewrite O2 by done. by apply O1.
    + intros Hn1 Hn2. specialize (N2 Hn1). subst e2. injection Ha as <-. split_and!; [done| |done].
      by destruct S2 as [[_ ?]|[? _]].
Qed.
End TwoFiles.

(** ** Properties *)

(** (C23) Updating a managed file keeps every byte that is the user's.  A merge
    that succeeds on an existing file either replaces exactly one well-formed
    managed region, whose text before and after it stays byte for byte, or
    finds no begin marker in the file and appends the block after everything,
    separated by at most two newlines. *)
Theorem managed_merge_preserves m existing block merged act :
  known_markers m -> replaceOrAppend m existing true block = Ok (merged, act) ->
  (exists pre blk post, existing = concat pre ++ concat blk ++ concat post /\
     is_block m blk /\ Forall (no_begin m) pre /\ Forall (plain m) post /\
     merged = concat pre ++ block ++ concat post) \/
  (Forall (no_begin m) (splitContentLines existing) /\
   exists sep, merged = existing ++ sep ++ block /\ (sep = [] \/ sep = [newline] \/ sep = [newline; newline])).
Proof.
  intros Hm H. destruct (merge_spec m (known_end m Hm) _ _ _ _ H) as [Hmerged _].
  destruct Hmerged as [pre blk post El Hpre Hblk Hpost ->|sep Hn Hsep _ _ ->]; [left|right; eauto].
  exists pre, blk, post. split_and!; try done. by rewrite <-(split_concat existing), El, !concat_app.
Qed.

(** A managed file is refused exactly when its markers are ambiguous: a
    merge of an existing file fails if and only if the file has a begin marker
    and its lines are not one supported region, between text without begin
    markers and text without markers.  So a newer version, a missing end and
    a duplicate marker after the first are all refused, and nothing else. *)
Theorem managed_refusal_exact m existing block :
  known_markers m ->
  ((exists e, replaceOrAppend m existing true block = Err e) <->
   ~ Forall (no_begin m) (splitContentLines existing) /\
   ~ exists pre blk post, splitContentLines existing = pre ++ blk ++ post /\
       Forall (no_begin m) pre /\ is_block m blk /\ Forall (plain m) post).
Proof.
  intros Hm. pose proof (known_end m Hm) as He.
  assert (Hok : forall o, findRegion m existing = Ok o -> exists r, replaceOrAppend m existing true block = Ok r).
  { intros o E. unfold replaceOrAppend. rewrite E. simpl. case_match; eauto. }
  split.
  - intros [e H]. split.
    + intros Hn. pose proof (find_absent m _ Hn) as E. destruct (Hok _ E) as [r Hr]. congruence.
    + intros (pre & blk & post & El & Hpre & Hblk & Hpost).
      assert (E : exists o, findRegion m existing = Ok o).
      { unfold findRegion. rewrite El, (find_found m He) by done. eauto. }
      destruct E as [o E]. destruct (Hok _ E) as [r Hr]. congruence.
  - intros [Hn Hno]. unfold replaceOrAppend. simpl.
    destruct (findRegion m existing) as [o|e] eqn:E; [exfalso|eauto].
    unfold findRegion in E. apply (find_ok m He) in E. destruct o as [r|]; [|done].
    destruct E as (pre & blk & post & El & Hpre & Hblk & Hpost & _). apply Hno. by exists pre, blk, post.
Qed.

(** (C38) Activating a host converges.  Take a plan in which neither file is
    invalid, and let the writes of one run fail wherever they do.  Planning
    and applying once more without failures succeeds, leaves both files in
    sync, so that any further run writes nothing, and no other file was
    touched. *)
Theorem activation_converges c eblk fs nh ne fs1 err1 fs2 err2 :
  ia_hostPath c <> ia_externalPath c -> newline ∉ explode (ia_target c) -> newline ∉ explode (ia_importPath c) ->
  canonical memoryBridgeBlockMarkers (ia_externalMarkdown c) eblk ->
  valid c fs -> Apply nh ne fs (plan c fs) = (fs1, err1) ->
  Apply no_write_faults no_write_faults fs1 (plan c fs1) = (fs2, err2) ->
  err2 = None /\
  cp_status (ap_host (plan c fs2)) = MemoryActivationStatusInSync /\
  cp_status (ap_external (plan c fs2)) = MemoryActivationStatusInSync /\
  (forall mh me, Apply mh me fs2 (plan c fs2) = (fs2, None)) /\
  (forall q, q <> ia_hostPath c -> q <> ia_externalPath c -> fs2 !! q = fs !! q).
Proof.
  intros Hp Ht Hi Hecanon Hv H1 H2. destruct (stub_canonical _ _ Ht Hi) as [hblk Hhcanon].
  destruct (apply_two c hblk eblk Hp Hhcanon Hecanon _ _ _ _ _ Hv H1) as (O1 & V1 & _).
  destruct (apply_two c hblk eblk Hp Hhcanon Hecanon _ _ _ _ _ V1 H2) as (O2 & _ & S2).
  destruct (S2 eq_refl eq_refl) as (-> & Hh & He).
  destruct (settled_plan _ _ _ _ Hh) as [Ah Sh]. destruct (settled_plan _ _ _ _ He) as [Ae Se].
  split_and!; [done|exact Sh|exact Se| |].
  - intros mh me. unfold Apply, apply_component, plan, Plan. simpl. by rewrite Sh, Se, Ah, Ae.
  - intros q Hq1 Hq2. by rewrite O2, O1.
Qed.

(** *** Witnesses *)

Definition ex_user : list ascii := explode "# Mine" ++ [newline].
Definition ex_block : list ascii := renderImportStubBlock "claude" "./m.md".
Definition ex_merged : list ascii := ex_user ++ [newline] ++ ex_block.

Lemma managed_merge_preserves_witness :
  replaceOrAppend importStubBlockMarkers ex_user true ex_block = Ok (ex_merged, MemoryActivationApplyUpdated) /\
  ((exists pre blk post, ex_user = concat pre ++ concat blk ++ concat post /\
     is_block importStubBlockMarkers blk /\ Forall (no_begin importStubBlockMarkers) pre /\
     Forall (plain importStubBlockMarkers) post /\ ex_merged = concat pre ++ ex_block ++ concat post) \/
  (Forall (no_begin importStubBlockMarkers) (splitContentLines ex_user) /\
   exists sep, ex_merged = ex_user ++ sep ++ ex_block /\ (sep = [] \/ sep = [newline] \/ sep = [newline; newline]))).
Proof.
  assert (H : replaceOrAppend importStubBlockMarkers ex_user true ex_block = Ok (ex_merged, MemoryActivationApplyUpdated))
    by vm_refl.
  split; [exact H|].
  exact (managed_merge_preserves importStubBlockMarkers ex_user ex_block ex_merged _ (or_intror eq_refl) H).
Defined.

Lemma managed_refusal_exact_witness :
  let broken := explode importStubMarkerBegin ++ [newline] in
  let e := Errorf "Traceary managed memory begin marker found without end marker" [] in
  replaceOrAppend importStubBlockMarkers broken true ex_block = Err e /\
  ~ Forall (no_begin importStubBlockMarkers) (splitContentLines broken).
Proof.
  intros broken e.
  assert (H : replaceOrAppend importStubBlockMarkers broken true ex_block = Err e) by vm_refl.
  destruct (proj1 (managed_refusal_exact importStubBlockMarkers broken ex_block (or_intror eq_refl))
    (ex_intro _ e H)) as [Hn _].
  exact (conj H Hn).
Defined.

Definition ex_external : list ascii :=
  explode MemoryBridgeMarkerBegin ++ [newline] ++ explode MemoryBridgeMarkerEnd ++ [newline].
Definition ex_criteria : importStubActivationCriteria :=
  mkCriteria "claude" "/h/CLAUDE.md" "/h/m.md" "./m.md" ex_external.
Definition ex_fs : FS := {[ "/h/CLAUDE.md" := File 420 ex_user ]}.
Definition ex_fault : WriteFaults := mkWriteFaults None None (Some (Errorf "disk full" [])).
Definition ex_fs1 : FS := fst (Apply ex_fault no_write_faults ex_fs (plan ex_criteria ex_fs)).
Definition ex_fs2 : FS := fst (Apply no_write_faults no_write_faults ex_fs1 (plan ex_criteria ex_fs1)).

Lemma activation_converges_witness :
  ex_fs2 !! "/h/CLAUDE.md" = Some (File 420 (ex_user ++ [newline] ++ renderImportStubBlock "claude" "./m.md")) /\
  cp_status (ap_host (plan ex_criteria ex_fs2)) = MemoryActivationStatusInSync.
Proof.
  split; [vm_refl|].
  assert (Hc : canonical memoryBridgeBlockMarkers ex_external
    [explode MemoryBridgeMarkerBegin ++ [newline]; explode MemoryBridgeMarkerEnd ++ [newline]]).
  { split_and!; [vm_refl| |].
    - exists (explode MemoryBridgeMarkerBegin ++ [newline]), [], (explode MemoryBridgeMarkerEnd ++ [newline]).
      split; [vm_refl|]. split; [exists 1; split; [vm_refl|done]|]. split; [apply List.Forall_nil|by vm_compute].
    - repeat constructor; apply complete_line, no_newline; vm_refl. }
  assert (Hv : valid ex_criteria ex_fs).
  { split; apply String.eqb_neq; vm_refl. }
  destruct (activation_converges ex_criteria _ ex_fs ex_fault no_write_faults ex_fs1 (snd (Apply ex_fault no_write_faults ex_fs (plan ex_criteria ex_fs)))
    ex_fs2 None ltac:(apply String.eqb_neq; vm_refl) ltac:(apply no_newline; vm_refl) ltac:(apply no_newline; vm_refl)
    Hc Hv ltac:(apply surjective_pairing)) as (_ & H & _); [|exact H].
  vm_refl.
Defined.
