(* ===== verification/MemoryBridge.v ===== *)
(** * The memory bridge

    [src/application/usecase/memory_export.go] and the parser of
    [memory_bridge_import.go]: accepted memories are rendered into the managed
    block of a host instruction file, and the bullets that users write outside
    it are imported.  The theorems: what the export writes is one managed
    block with one bullet for each memory, and the import does not see it. *)

From Stdlib Require Import Sorted.
From stdpp Require Import sorting.
From S2P Require Import Prelude GoStrings Ordering Labels Memory ManagedBlock.

(** ** Export *)

(** The parts of a [MemorySummary] that the export reads; a scope may be nil. *)
Record MemorySummary := mkSummary {
  ms_id : string; ms_type : string; ms_scope : option MemoryScope; ms_fact : string }.

Definition memoryBridgeWarning : string :=
  "<!-- DO NOT EDIT: this block is managed by Traceary. Hand edits will be overwritten by `traceary memory export` or `traceary memory activate`. -->".
Definition maxMemoryBridgeRows : Z := 2000.

Definition knownMemoryBridgeTargets : list string := ["codex"; "claude"; "gemini"].

Definition memoryScopeLabel (s : option MemoryScope) : string :=
  match s with
  | None => "?"
  | Some sc => if Scope_Kind sc =?s MemoryScopeKindGlobal then "global"
               else Scope_Kind sc ++ "=" ++ Scope_Key sc
  end.
Definition memoryScopeRenderRank (s : option MemoryScope) : Z :=
  match s with
  | None => 99
  | Some sc =>
      if Scope_Kind sc =?s MemoryScopeKindGlobal then 0
      else if Scope_Kind sc =?s MemoryScopeKindWorkspace then 1
      else if Scope_Kind sc =?s MemoryScopeKindSessionFamily then 2
      else if Scope_Kind sc =?s MemoryScopeKindAgent then 3
      else 98
  end.
Definition titleForMemoryScope (s : option MemoryScope) : string :=
  match s with
  | None => "Unknown-scope memories"
  | Some sc =>
      if Scope_Kind sc =?s MemoryScopeKindGlobal then "Global memories"
      else if Scope_Kind sc =?s MemoryScopeKindWorkspace then "Workspace memories: " ++ Scope_Key sc
      else if Scope_Kind sc =?s MemoryScopeKindSessionFamily then "Session-family memories: " ++ Scope_Key sc
      else if Scope_Kind sc =?s MemoryScopeKindAgent then "Agent memories: " ++ Scope_Key sc
      else Scope_Kind sc ++ " memories: " ++ Scope_Key sc
  end.
Definition titleForMemoryType (t : string) : string :=
  if t =?s "preference" then "Preferences"
  else if t =?s "decision" then "Decisions"
  else if t =?s "constraint" then "Constraints"
  else if t =?s "lesson" then "Lessons"
  else if t =?s "artifact" then "Artifacts"
  else t.

(** The order that [sort.SliceStable] is given, and the sorted slice: the one
    stable rearrangement, here by insertion. *)
Definition memory_less (a b : MemorySummary) : bool :=
  let ra := memoryScopeRenderRank (ms_scope a) in let rb := memoryScopeRenderRank (ms_scope b) in
  if negb (ra =? rb) then ra <? rb
  else if memoryScopeLabel (ms_scope a) <>?s memoryScopeLabel (ms_scope b)
  then String.ltb (memoryScopeLabel (ms_scope a)) (memoryScopeLabel (ms_scope b))
  else if ms_type a <>?s ms_type b then String.ltb (ms_type a) (ms_type b)
  else String.ltb (ms_fact a) (ms_fact b).
Fixpoint insert_stable (x : MemorySummary) (l : list MemorySummary) : list MemorySummary :=
  match l with
  | [] => [x]
  | y :: t => if memory_less y x then y :: insert_stable x t else x :: l
  end.
Definition sort_memories (l : list MemorySummary) : list MemorySummary := fold_right insert_stable [] l.

Definition sameMemoryScope (a b : option MemoryScope) : bool :=
  match a, b with
  | Some x, Some y => (Scope_Kind x =?s Scope_Kind y) && (Scope_Key x =?s Scope_Key y)
  | None, None => true
  | _, _ => false
  end.
Record memoryScopeGroup := mkGroup { gr_scope : option MemoryScope; gr_summaries : list MemorySummary }.

(** One turn of the loop of [groupMemoriesByScope]; the groups are kept in
    reverse, the open one first. *)
Definition group_step (groups : list memoryScopeGroup) (s : MemorySummary) : list memoryScopeGroup :=
  match groups with
  | g :: rest => if sameMemoryScope (gr_scope g) (ms_scope s)
                 then mkGroup (gr_scope g) (gr_summaries g ++ [s]) :: rest
                 else mkGroup (ms_scope s) [s] :: groups
  | [] => [mkGroup (ms_scope s) [s]]
  end.
Definition groupMemoriesByScope (l : list MemorySummary) : list memoryScopeGroup := rev (fold_left group_step l []).

(** [groupMemoriesByType(summaries)[t]]. *)
Definition entries_of_type (t : string) (l : list MemorySummary) : list MemorySummary :=
  List.filter (fun s => ms_type s =?s t) l.

(** [strings.Fields] joined with spaces. *)
Fixpoint fields_go (skip : nat) (cur : list ascii) (l : list ascii) : list (list ascii) :=
  match l with
  | [] => match cur with [] => [] | _ => [rev cur] end
  | c :: t =>
      match skip with
      | S k => fields_go k cur t
      | O => match enc_width space_encs l with
             | O => fields_go 0 (c :: cur) t
             | S k => match cur with [] => fields_go k [] t | _ => rev cur :: fields_go k [] t end
             end
      end
  end.
Definition Fields (s : string) : list string := map implode (fields_go 0 [] (explode s)).
Definition escapeMarkdownBullet (fact : string) : string := String.concat " " (Fields fact).

Definition typeOrder : list string := ["preference"; "decision"; "constraint"; "lesson"; "artifact"].

(** The lines of [renderMemoryBridgeBlock], in the order in which they are
    written, and its bytes. *)
Definition bullet_line (s : MemorySummary) : string :=
  "- " ++ escapeMarkdownBullet (ms_fact s) ++ " (memory_id: " ++ ms_id s ++ ", scope: "
       ++ memoryScopeLabel (ms_scope s) ++ ")".
Definition type_lines (l : list MemorySummary) (t : string) : list string :=
  match entries_of_type t l with
  | [] => []
  | entries => [("### " ++ titleForMemoryType t)%string; ""] ++ map bullet_line entries ++ [""]
  end.
Definition group_lines (g : memoryScopeGroup) : list string :=
  [("## " ++ titleForMemoryScope (gr_scope g))%string; ""]
  ++ concat (map (type_lines (gr_summaries g)) typeOrder).
Definition body_lines (target : string) (summaries : list MemorySummary) : list string :=
  let sorted := sort_memories summaries in
  [memoryBridgeWarning; ""; ("# Traceary-managed " ++ target ++ " memories")%string; ""]
  ++ match sorted with [] => ["_No accepted durable memories matched the export scope._"; ""] | _ => [] end
  ++ concat (map group_lines (groupMemoriesByScope sorted)).
Definition render_lines (target : string) (summaries : list MemorySummary) : list string :=
  [MemoryBridgeMarkerBegin] ++ body_lines target summaries ++ [MemoryBridgeMarkerEnd].
Definition with_newline (line : string) : list ascii := explode line ++ [newline].
Definition renderMemoryBridgeBlock (target : string) (summaries : list MemorySummary) : list ascii :=
  concat (map with_newline (render_lines target summaries)).

(** The scopes of the query: duplicates by kind and key are dropped, nil scopes
    are kept. *)
Fixpoint dedupe_go (seen : list string) (scopes : list (option MemoryScope)) : list (option MemoryScope) :=
  match scopes with
  | [] => []
  | None :: t => None :: dedupe_go seen t
  | Some sc :: t =>
      let key := (Scope_Kind sc ++ String Ascii.zero (Scope_Key sc))%string in
      if slices_contains seen key then dedupe_go seen t else Some sc :: dedupe_go (key :: seen) t
  end.
Definition dedupeMemoryScopes (scopes : list (option MemoryScope)) : list (option MemoryScope) := dedupe_go [] scopes.
Definition memoryExportScopes (scopes : list (option MemoryScope)) (includeGlobal : bool) : list (option MemoryScope) :=
  match scopes with
  | [] => []
  | _ => dedupeMemoryScopes (scopes ++ (if includeGlobal then [Some GlobalScope] else []))
  end.

Record MemoryExportResult := mkExport {
  ex_target : string; ex_scopes : list (option MemoryScope); ex_markdown : list ascii; ex_count : Z }.

(** [query] is the memory query service: the accepted memories of the scopes,
    of all scopes when there are none, at most as many as the limit. *)
Definition Export (query : option (Z -> list (option MemoryScope) -> result (list MemorySummary)))
  (target : string) (scopes : list (option MemoryScope)) (includeGlobal : bool) : result MemoryExportResult :=
  match query with
  | None => Err (Errorf "memory query service is not configured" [])
  | Some List_ =>
      if negb (slices_contains knownMemoryBridgeTargets target)
      then Err (Errorf "unsupported memory export target: %s" [target])
      else
        let exportScopes := memoryExportScopes scopes includeGlobal in
        let! summaries := wrap_err "failed to list accepted memories: %w" (List_ maxMemoryBridgeRows exportScopes) in
        Ok (mkExport target exportScopes (renderMemoryBridgeBlock target summaries) (llen summaries))
  end.

(** ** Import *)

Record bridgeBullet := mkBullet { bb_fact : string; bb_line : Z; bb_source : string }.
Definition bridgeBulletMaxBytes : Z := 32 * 1024.
(** The scanner's token limit: a line that does not fit in its buffer with
    its newline ends the scan. *)
Definition scannerMaxBytes : Z := bridgeBulletMaxBytes + 64 * 1024.
Definition fits (raw : list ascii) : bool := llen (trim_last newline raw) <? scannerMaxBytes.

(** What a line outside the block is: the bullet's text, if it is one. *)
Definition bullet_fact (trimmed : string) : option string :=
  if HasPrefix trimmed "- " then Some (TrimSpace (TrimPrefix trimmed "-")) else None.

Fixpoint parse_go (source : string) (lines : list (list ascii)) (lineNumber : Z) (inside : bool)
  : list bridgeBullet * list string :=
  match lines with
  | [] => ([], [])
  | raw :: rest =>
      if negb (fits raw) then ([], [("failed to scan " ++ source ++ ": bufio.Scanner: token too long")%string])
      else
        let n := lineNumber + 1 in
        let trimmed := line_trimmed raw in
        match matchManagedBeginLine memoryBridgeBlockMarkers trimmed with
        | Some version =>
            let '(b, w) := parse_go source rest n true in
            (b, if MemoryBridgeCurrentVersion <? version
                then ("bridge block at " ++ source ++ ":" ++ Itoa n ++ " uses marker version v" ++ Itoa version
                      ++ " which this Traceary build (v" ++ Itoa MemoryBridgeCurrentVersion
                      ++ ") does not recognise; do not overwrite the block with this binary")%string :: w
                else w)
        | None =>
            if trimmed =?s MemoryBridgeMarkerEnd then parse_go source rest n false
            else if inside then parse_go source rest n inside
            else match bullet_fact trimmed with
                 | None => parse_go source rest n inside
                 | Some fact =>
                     let '(b, w) := parse_go source rest n inside in
                     if bridgeBulletMaxBytes <? slen fact
                     then (b, ("bullet at " ++ source ++ ":" ++ Itoa n ++ " exceeds size guard; skipping")%string :: w)
                     else if fact =?s "" then (b, w)
                     else (mkBullet fact n source :: b, w)
                 end
        end
  end.
Definition parseBridgeMarkdown (content : list ascii) (source : string) : list bridgeBullet * list string :=
  parse_go source (splitContentLines content) 0 false.

(** ** What the export writes *)

Notation bridge := memoryBridgeBlockMarkers.

Definition one_line (s : string) : Prop := newline ∉ explode s.
(** Names that are written as they are. *)
Definition one_line_summary (s : MemorySummary) : Prop :=
  one_line (ms_id s) /\ match ms_scope s with Some sc => one_line (Scope_Key sc) | None => True end.

Lemma one_line_app s t : one_line s -> one_line t -> one_line (s ++ t).
Proof. unfold one_line. rewrite explode_app. intros Hs Ht [H|H]%elem_of_app; done. Qed.
Lemma one_line_const s : forallb (fun c => negb (Ascii.eqb c newline)) (explode s) = true -> one_line s.
Proof. apply no_newline. Qed.
Ltac const_line := apply one_line_const; reflexivity.

Lemma fields_no_newline skip cur l :
  newline ∉ cur -> Forall (fun w => newline ∉ w) (fields_go skip cur l).
Proof.
  revert skip cur. induction l as [|c l IH]; intros skip cur Hc; simpl.
  - destruct cur as [|d cur]; [constructor|]. constructor; [|constructor]. by rewrite elem_of_rev.
  - destruct skip as [|k]; [|by apply IH].
    destruct (enc_width space_encs (c :: l)) as [|k] eqn:E.
    + apply IH. apply not_elem_of_cons. split; [|done]. intros <-. by vm_compute in E.
    + assert (Hn : newline ∉ @nil ascii) by (by intros ?%elem_of_nil).
      destruct cur as [|d cur]; [by apply IH|]. constructor; [by rewrite elem_of_rev|by apply IH].
Qed.

Lemma one_line_concat sep l : one_line sep -> Forall one_line l -> one_line (String.concat sep l).
Proof.
  intros Hs. induction 1 as [|x l Hx Hl IH]; simpl; [const_line|]. destruct l as [|y l]; [done|].
  by repeat apply one_line_app.
Qed.

Lemma one_line_escape fact : one_line (escapeMarkdownBullet fact).
Proof.
  apply one_line_concat; [const_line|]. unfold Fields. apply Forall_map.
  eapply Forall_impl; [apply (fields_no_newline 0 []); by intros ?%elem_of_nil|].
  intros w Hw. unfold one_line. simpl. by rewrite explode_implode.
Qed.

Lemma one_line_kind sc : one_line (Scope_Kind sc).
Proof. destruct sc; const_line. Qed.
Lemma one_line_label s : one_line_summary s -> one_line (memoryScopeLabel (ms_scope s)).
Proof.
  intros [_ H]. unfold memoryScopeLabel. destruct (ms_scope s) as [sc|]; [|const_line].
  destruct (_ =?s _); [const_line|]. apply one_line_app; [apply one_line_kind|]. apply one_line_app; [const_line|done].
Qed.

Definition one_line_scope (s : option MemoryScope) : Prop :=
  match s with Some sc => one_line (Scope_Key sc) | None => True end.
Lemma one_line_title s : one_line_scope s -> one_line (titleForMemoryScope s).
Proof.
  intros H. unfold titleForMemoryScope. destruct s as [sc|]; [|const_line]. simpl in H.
  repeat (destruct (_ =?s _); [first [const_line|apply one_line_app; [const_line|done]]|]).
  apply one_line_app; [apply one_line_kind|]. apply one_line_app; [const_line|done].
Qed.

(** A line of the block's body: no marker, whatever the names are. *)
Definition body_line (s : string) : Prop := plain bridge (with_newline s) /\ one_line s.

Lemma body_line_prefix p r :
  graphic_ends (explode p) = true ->
  (forall x, is_prefix (explode "<!-- traceary-") (explode p ++ x) = false) ->
  one_line (p ++ r) -> body_line (p ++ r).
Proof.
  intros Hp Hf Hl. split; [|done]. unfold with_newline. rewrite explode_app.
  apply plain_line; [by left|done| |done]. unfold one_line in Hl. by rewrite explode_app in Hl.
Qed.

Ltac lines := repeat match goal with |- Forall _ (_ :: _) => apply Forall_cons_2 | |- Forall _ [] => apply Forall_nil_2 end.
Lemma body_blank : body_line "".
Proof. split; [split; [by vm_compute|by vm_compute]|const_line]. Qed.
Lemma body_const s : plain bridge (with_newline s) -> 
  forallb (fun c => negb (Ascii.eqb c newline)) (explode s) = true -> body_line s.
Proof. intros H1 H2. split; [done|by apply one_line_const]. Qed.

Lemma body_bullet s : one_line_summary s -> body_line (bullet_line s).
Proof.
  intros H. unfold bullet_line.
  match goal with |- body_line ("- " ++ ?r)%string => change ("- " ++ r)%string with ("-" ++ (" " ++ r))%string end.
  apply body_line_prefix; [done|done|].
  repeat (apply one_line_app; [first [const_line|apply one_line_escape|apply H|by apply one_line_label]|]).
  const_line.
Qed.

(** *** The sorted summaries are a rearrangement, and grouping loses none *)

Lemma insert_stable_perm x l : insert_stable x l ≡ₚ x :: l.
Proof.
  induction l as [|y l IH]; simpl; [done|]. destruct (memory_less y x); [|done].
  rewrite IH. apply Permutation_swap.
Qed.
Lemma sort_memories_perm l : sort_memories l ≡ₚ l.
Proof. induction l as [|x l IH]; simpl; [done|]. by rewrite insert_stable_perm, IH. Qed.

Definition grouped (groups : list memoryScopeGroup) : list MemorySummary := concat (map gr_summaries groups).

Lemma group_step_grouped groups s : grouped (rev (group_step groups s)) = grouped (rev groups) ++ [s].
Proof.
  unfold grouped. destruct groups as [|g rest]; [done|]. simpl. destruct (sameMemoryScope _ _); simpl;
    rewrite !map_app, !concat_app; simpl; rewrite ?app_nil_r, <-?app_assoc; done.
Qed.
Lemma groups_concat l : grouped (groupMemoriesByScope l) = l.
Proof.
  unfold groupMemoriesByScope.
  cut (forall groups, grouped (rev (fold_left group_step l groups)) = grouped (rev groups) ++ l); [by intros ->|].
  induction l as [|s l IH]; intros groups; simpl; [by rewrite app_nil_r|].
  by rewrite IH, group_step_grouped, <-app_assoc.
Qed.

Lemma filter_split {A} (f g h : A -> bool) l :
  (forall x, h x = f x || g x) -> (forall x, f x = true -> g x = false) ->
  List.filter h l ≡ₚ List.filter f l ++ List.filter g l.
Proof.
  intros Hh Hd. induction l as [|x l IH]; simpl; [done|]. rewrite Hh. destruct (f x) eqn:Ef; simpl.
  - rewrite (Hd x Ef). by rewrite IH.
  - destruct (g x); [|done]. rewrite IH. apply Permutation_middle.
Qed.
Lemma entries_perm order l : List.NoDup order ->
  concat (map (fun t => entries_of_type t l) order) ≡ₚ List.filter (fun s => slices_contains order (ms_type s)) l.
Proof.
  induction 1 as [|t order Ht _ IH]; simpl; [by induction l|].
  rewrite (filter_split (fun s => ms_type s =?s t) (fun s => slices_contains order (ms_type s))).
  - by rewrite IH.
  - done.
  - intros s E. apply String.eqb_eq in E as ->. apply not_true_is_false. intros H%slices_contains_spec.
    apply Ht. by apply list_elem_of_In.
Qed.

Definition known_type (s : MemorySummary) : bool := slices_contains typeOrder (ms_type s).
Definition is_bullet (line : string) : bool := HasPrefix line "- ".

Lemma filter_perm {A} (f : A -> bool) l k : l ≡ₚ k -> List.filter f l ≡ₚ List.filter f k.
Proof.
  induction 1 as [|x l k _ IH|x y l|l k m _ IH1 _ IH2]; simpl; [done| | |by etransitivity].
  - destruct (f x); [by rewrite IH|done].
  - destruct (f x), (f y); try done. apply Permutation_swap.
Qed.
Lemma filter_concat {A} (f : A -> bool) ls : List.filter f (concat ls) = concat (map (List.filter f) ls).
Proof. induction ls as [|l ls IH]; simpl; [done|]. by rewrite List.filter_app, IH. Qed.
Lemma filter_bullets l : List.filter is_bullet (map bullet_line l) = map bullet_line l.
Proof. induction l as [|s l IH]; simpl; [done|]. change (is_bullet (bullet_line s)) with true. by rewrite IH. Qed.

Lemma type_bullets l t : List.filter is_bullet (type_lines l t) = map bullet_line (entries_of_type t l).
Proof.
  unfold type_lines. destruct (entries_of_type t l) as [|s es] eqn:E; [done|].
  rewrite !List.filter_app, filter_bullets. simpl. by rewrite app_nil_r.
Qed.
Lemma group_bullets g : List.filter is_bullet (group_lines g) ≡ₚ map bullet_line (List.filter known_type (gr_summaries g)).
Proof.
  unfold group_lines. rewrite List.filter_app, filter_concat, map_map.
  rewrite (map_ext _ _ (type_bullets (gr_summaries g))).
  rewrite <-(map_map (fun t => entries_of_type t (gr_summaries g)) (map bullet_line)), <-concat_map.
  simpl. rewrite <-(entries_perm typeOrder); [done|].
  repeat constructor; simpl; intuition discriminate.
Qed.

(** One bullet for each memory of a known type. *)
Lemma body_bullets target l : 
  List.filter is_bullet (body_lines target l) ≡ₚ map bullet_line (List.filter known_type l).
Proof.
  unfold body_lines. rewrite !List.filter_app.
  assert (E0 : List.filter is_bullet (match sort_memories l with [] =>
    ["_No accepted durable memories matched the export scope._"; ""] | _ => [] end) = [])
    by (by destruct (sort_memories l)).
  rewrite E0. simpl. rewrite filter_concat, map_map.
  assert (Hgroups : forall gs, concat (map (fun g => List.filter is_bullet (group_lines g)) gs) ≡ₚ
    map bullet_line (List.filter known_type (grouped gs))).
  { induction gs as [|g gs IH]; [done|]. unfold grouped in *. cbn [map concat].
    by rewrite (List.filter_app known_type), map_app, group_bullets, IH. }
  rewrite Hgroups, groups_concat. apply Permutation_map.
  apply filter_perm, sort_memories_perm.
Qed.

(** *** The block *)

Definition one_line_group (g : memoryScopeGroup) : Prop :=
  one_line_scope (gr_scope g) /\ Forall one_line_summary (gr_summaries g).

Lemma group_step_one_line groups s :
  Forall one_line_group groups -> one_line_summary s -> Forall one_line_group (group_step groups s).
Proof.
  intros Hg Hs. assert (Hnew : one_line_group (mkGroup (ms_scope s) [s])).
  { split; [apply Hs|]. by apply Forall_cons. }
  destruct groups as [|g rest]; simpl; [by apply Forall_cons|].
  apply Forall_cons in Hg as [[G1 G2] Hr]. destruct (sameMemoryScope _ _).
  - constructor; [|done]. split; [done|]. simpl. apply Forall_app. split; [done|]. by apply Forall_cons.
  - constructor; [done|]. by constructor.
Qed.
Lemma groups_one_line l : Forall one_line_summary l -> Forall one_line_group (groupMemoriesByScope l).
Proof.
  unfold groupMemoriesByScope. intros Hl. apply Forall_rev.
  cut (forall groups, Forall one_line_group groups -> Forall one_line_group (fold_left group_step l groups));
    [intros H; apply H; constructor|].
  induction Hl as [|s l Hs _ IH]; intros groups Hg; simpl; [done|]. apply IH. by apply group_step_one_line.
Qed.

Lemma body_title p t :
  graphic_ends (explode p) = true ->
  (forall x, is_prefix (explode "<!-- traceary-") (explode p ++ x) = false) ->
  one_line p -> one_line t -> body_line (p ++ " " ++ t).
Proof. intros H1 H2 H3 H4. apply body_line_prefix; [done|done|]. apply one_line_app; [done|]. by apply one_line_app; [const_line|]. Qed.

Lemma type_lines_body l t : Forall one_line_summary l -> t ∈ typeOrder -> Forall body_line (type_lines l t).
Proof.
  intros Hl Ht. unfold type_lines. destruct (entries_of_type t l) as [|s es] eqn:E; [constructor|].
  rewrite <-E. clear E s es. apply Forall_app. split; [|apply Forall_app; split].
  - lines; [|apply body_blank].
    change ("### " ++ titleForMemoryType t)%string with ("###" ++ " " ++ titleForMemoryType t)%string.
    apply body_title; [done|done|const_line|]. unfold typeOrder in Ht.
    repeat (apply elem_of_cons in Ht as [->|Ht]; [const_line|]). by apply elem_of_nil in Ht.
  - apply Forall_map. apply Forall_forall. intros s Hs. simpl. apply body_bullet.
    rewrite Forall_forall in Hl. apply Hl. apply list_elem_of_In in Hs. apply filter_In in Hs as [Hs _].
    by apply list_elem_of_In.
  - lines. apply body_blank.
Qed.

Lemma group_lines_body g : one_line_group g -> Forall body_line (group_lines g).
Proof.
  intros [Hs Hl]. unfold group_lines. apply Forall_app. split.
  - lines; [|apply body_blank].
    change ("## " ++ titleForMemoryScope (gr_scope g))%string with ("##" ++ " " ++ titleForMemoryScope (gr_scope g))%string.
    apply body_title; [done|done|const_line|by apply one_line_title].
  - apply Forall_concat, Forall_map, Forall_forall. intros t Ht. by apply type_lines_body.
Qed.

Lemma body_lines_body target l :
  one_line target -> Forall one_line_summary l -> Forall body_line (body_lines target l).
Proof.
  intros Ht Hl. unfold body_lines. apply Forall_app. split; [|apply Forall_app; split].
  - lines; try apply body_blank; [apply body_const; [split; by vm_compute|done]|].
    change ("# Traceary-managed " ++ target ++ " memories")%string
      with ("#" ++ (" Traceary-managed " ++ target ++ " memories"))%string.
    apply (body_line_prefix "#"); [done|done|].
    repeat (apply one_line_app; [first [done|const_line]|]). const_line.
  - destruct (sort_memories l); [|constructor]. lines; [|apply body_blank].
    apply body_const; [split; by vm_compute|done].
  - apply Forall_concat, Forall_map. eapply Forall_impl; [|intros g Hg; by apply group_lines_body].
    apply groups_one_line. by rewrite sort_memories_perm.
Qed.

Lemma export_canonical target l :
  one_line target -> Forall one_line_summary l ->
  canonical bridge (renderMemoryBridgeBlock target l) (map with_newline (render_lines target l)).
Proof.
  intros Ht Hl. pose proof (body_lines_body target l Ht Hl) as Hb. unfold render_lines. split_and!; [done| |].
  - exists (with_newline MemoryBridgeMarkerBegin), (map with_newline (body_lines target l)), (with_newline MemoryBridgeMarkerEnd).
    rewrite !map_app. split_and!; [done|exists 1; split; [by vm_compute|done]| |by vm_compute].
    apply Forall_map. eapply Forall_impl; [exact Hb|]. by intros s [? _].
  - rewrite !map_app. apply Forall_app. split; [|apply Forall_app; split]; cbn [map].
    + lines. apply complete_line. by apply no_newline.
    + apply Forall_map. eapply Forall_impl; [exact Hb|]. intros s [_ Hs]. by apply complete_line.
    + lines. apply complete_line. by apply no_newline.
Qed.

(** *** The written order depends on nothing but the memories *)

Definition memory_cmp : MemorySummary -> MemorySummary -> comparison :=
  lex (fun a b => Z.compare (memoryScopeRenderRank (ms_scope a)) (memoryScopeRenderRank (ms_scope b)))
  (lex (fun a b => String.compare (memoryScopeLabel (ms_scope a)) (memoryScopeLabel (ms_scope b)))
  (lex (fun a b => String.compare (ms_type a) (ms_type b)) (fun a b => String.compare (ms_fact a) (ms_fact b)))).
Lemma ordering_memory : ordering memory_cmp.
Proof. repeat apply ordering_lex; apply ordering_on; auto using ordering_Z, ordering_string. Qed.

Lemma memory_less_cmp a b : memory_less a b = match memory_cmp a b with Lt => true | _ => false end.
Proof.
  unfold memory_less, memory_cmp, lex, String.ltb. rewrite !string_cmp, Z.eqb_compare, Z.ltb_compare.
  destruct (memoryScopeRenderRank (ms_scope a) ?= memoryScopeRenderRank (ms_scope b))%Z; simpl; [|done..].
  by repeat (destruct (String.compare _ _); simpl).
Qed.

Lemma sort_memories_sorted l : StronglySorted (fun a b => memory_cmp a b <> Gt) (sort_memories l).
Proof.
  assert (Hins : forall x k, StronglySorted (fun a b => memory_cmp a b <> Gt) k ->
    StronglySorted (fun a b => memory_cmp a b <> Gt) (insert_stable x k)).
  { induction 1 as [|y k Hk IH Hy]; simpl; [by repeat constructor|]. rewrite memory_less_cmp.
    pose proof (ord_anti _ ordering_memory x y) as Ha.
    assert (Hcons : memory_cmp x y <> Gt -> StronglySorted (fun a b => memory_cmp a b <> Gt) (x :: y :: k)).
    { intros Hxy. constructor; [by constructor|]. constructor; [done|].
      eapply Forall_impl; [exact Hy|]. intros z Hz. exact (ord_trans _ ordering_memory _ _ _ Hxy Hz). }
    destruct (memory_cmp y x) eqn:E; [apply Hcons| |apply Hcons]; try (by destruct (memory_cmp x y)).
    constructor; [done|]. rewrite insert_stable_perm. constructor; [by rewrite E|done]. }
  induction l as [|x l IH]; simpl; [constructor|]. by apply Hins.
Qed.

(** Memories that tie are the same: they differ in scope, type or fact. *)
Definition distinct_keys (l : list MemorySummary) : Prop :=
  forall a b, a ∈ l -> b ∈ l -> memory_cmp a b = Eq -> a = b.

Lemma sort_memories_unique l k : distinct_keys l -> l ≡ₚ k -> sort_memories l = sort_memories k.
Proof.
  intros Hd Hp. apply (StronglySorted_unique_strong (fun a b => memory_cmp a b <> Gt));
    [|apply sort_memories_sorted..|by rewrite !sort_memories_perm].
  intros a b Ha Hb H1 H2. rewrite sort_memories_perm in Ha, Hb. rewrite <-Hp in Hb.
  apply Hd; [done|done|]. rewrite (ord_anti _ ordering_memory a b) in H2. by destruct (memory_cmp a b).
Qed.

Lemma group_lines_known l : Forall (fun s => known_type s = true) l -> List.filter known_type l = l.
Proof. induction 1 as [|s l Hs _ IH]; simpl; [done|]. by rewrite Hs, IH. Qed.

(** ** What the import reads *)

Definition facts (source : string) (lines : list (list ascii)) (n : Z) (inside : bool) : list string :=
  map bb_fact (fst (parse_go source lines n inside)).

Lemma facts_line src raw rest n i : fits raw = true ->
  facts src (raw :: rest) n i =
    match matchManagedBeginLine bridge (line_trimmed raw) with
    | Some _ => facts src rest (n + 1) true
    | None =>
        if line_trimmed raw =?s MemoryBridgeMarkerEnd then facts src rest (n + 1) false
        else if i then facts src rest (n + 1) i
        else match bullet_fact (line_trimmed raw) with
             | None => facts src rest (n + 1) i
             | Some fact =>
                 if (bridgeBulletMaxBytes <? slen fact) || (fact =?s "") then facts src rest (n + 1) i
                 else fact :: facts src rest (n + 1) i
             end
    end.
Proof.
  intros Hf. unfold facts. cbn [parse_go]. rewrite Hf. cbn [negb]. cbv zeta.
  destruct (matchManagedBeginLine _ _).
  { by destruct (parse_go src rest (n + 1) true). }
  destruct (_ =?s MemoryBridgeMarkerEnd); [done|]. destruct i; [done|].
  destruct (bullet_fact _) as [fact|]; [|done]. destruct (parse_go src rest (n + 1) false) as [b w].
  destruct (bridgeBulletMaxBytes <? slen fact); [done|]. by destruct (fact =?s "").
Qed.

(** Line numbers and the source's name do not matter to the facts. *)
Lemma facts_number src src' lines n n' i : facts src lines n i = facts src' lines n' i.
Proof.
  revert n n' i. induction lines as [|raw lines IH]; intros n n' i; [done|].
  destruct (fits raw) eqn:Ef; [|by unfold facts; simpl; rewrite Ef].
  rewrite !facts_line by done. by repeat case_match; auto with f_equal.
Qed.

(** A managed region is skipped, and what precedes it is read as alone. *)
Lemma facts_app src pre rest n :
  Forall (no_begin bridge) pre -> Forall (fun r => fits r = true) pre ->
  facts src (pre ++ rest) n false = facts src pre n false ++ facts src rest 0 false.
Proof.
  intros Hn Hf. revert n. induction Hn as [|raw pre Hraw _ IH]; intros n; [apply facts_number|].
  apply Forall_cons in Hf as [Hf1 Hf2]. simpl app. rewrite !facts_line by done. unfold no_begin in Hraw. rewrite Hraw.
  specialize (IH Hf2 (n + 1)). by repeat case_match; rewrite IH.
Qed.
Lemma facts_inside src mid rest n :
  Forall (plain bridge) mid -> Forall (fun r => fits r = true) mid ->
  facts src (mid ++ rest) n true = facts src rest 0 true.
Proof.
  intros Hp Hf. revert n. induction Hp as [|raw mid [Hn He] _ IH]; intros n; [apply facts_number|].
  apply Forall_cons in Hf as [Hf1 Hf2]. simpl app. rewrite facts_line by done. unfold no_begin, ends in *. rewrite Hn.
  apply String.eqb_neq in He. change (mk_end bridge) with MemoryBridgeMarkerEnd in He. rewrite He. by apply IH.
Qed.
Lemma facts_block src blk rest n :
  is_block bridge blk -> Forall (fun r => fits r = true) blk ->
  facts src (blk ++ rest) n false = facts src rest 0 false.
Proof.
  intros (b & mid & e & -> & (v & Hv & _) & Hmid & He) Hf.
  apply Forall_cons in Hf as [Hf1 Hf2]. apply Forall_app in Hf2 as [Hf2 Hf3]. apply Forall_cons in Hf3 as [Hf3 _].
  simpl app. rewrite facts_line, Hv by done. rewrite <-app_assoc, facts_inside by done. simpl app.
  rewrite facts_line by done. unfold ends in He. rewrite He, (known_end bridge) by (by left).
  change (mk_end bridge) with MemoryBridgeMarkerEnd. rewrite String.eqb_refl. apply facts_number.
Qed.

Definition all_fit (lines : list (list ascii)) : Prop := Forall (fun r => fits r = true) lines.

Lemma facts_newline src tail rest : newline ∉ tail -> fits tail = true ->
  fits (tail ++ [newline]) = true /\ facts src ((tail ++ [newline]) :: rest) 0 false = facts src (tail :: rest) 0 false.
Proof.
  intros Hn Hf. assert (Hf' : fits (tail ++ [newline]) = true).
  { unfold fits in *. by rewrite trim_last_snoc, <-(trim_last_notin newline tail). }
  split; [done|]. by rewrite !facts_line, line_trimmed_newline.
Qed.

(** The blank lines before an appended block. *)
Lemma facts_spacing src existing sep :
  Forall (no_begin bridge) (splitContentLines existing) -> all_fit (splitContentLines existing) ->
  sep = [] \/ sep = [newline] \/ sep = [newline; newline] ->
  all_fit (splitContentLines (existing ++ sep)) /\
  facts src (splitContentLines (existing ++ sep)) 0 false = facts src (splitContentLines existing) 0 false.
Proof.
  intros Hn Hf Hsep. assert (Hblank : forall s, s = [] \/ s = [newline] \/ s = [newline; newline] ->
    all_fit (splitContentLines s) /\ facts src (splitContentLines s) 0 false = []).
  { intros s [->|[->| ->]]; (split; [repeat constructor; by vm_compute|by vm_compute]). }
  destruct (content_shape existing) as (ls & tail & E & Hls & Ht). rewrite E, <-app_assoc, !split_complete by done.
  rewrite E, split_complete in Hn, Hf by done. apply Forall_app in Hn as [Hn1 Hn2]. apply Forall_app in Hf as [Hf1 Hf2].
  rewrite !facts_app by done. destruct (Hblank sep Hsep) as [Hs1 Hs2].
  cut (all_fit (splitContentLines (tail ++ sep)) /\
    facts src (splitContentLines (tail ++ sep)) 0 false = facts src (splitContentLines tail) 0 false).
  { intros [H1 ->]. split; [|done]. by apply Forall_app. }
  destruct tail as [|c t]; [done|].
  rewrite (split_tail (c :: t)) in Hn2, Hf2 by done. rewrite (split_tail (c :: t)) by done.
  destruct sep as [|d sep].
  { rewrite app_nil_r, (split_tail (c :: t)) by done. by split. }
  assert (Hd : d = newline /\ (sep = [] \/ sep = [newline])) by (destruct Hsep as [?|[?|?]]; simplify_eq; auto).
  destruct Hd as [-> Hsep']. destruct (Hblank sep ltac:(tauto)) as [Hs3 Hs4].
  unfold splitContentLines at 1 2. rewrite !split_go_cons by done. cbn [rev]. rewrite !app_nil_l.
  destruct (facts_newline src (c :: t) (splitContentLines sep) Ht) as [Hf3 ->]; [by apply Forall_cons in Hf2 as [? _]|].
  split; [by apply Forall_cons|].
  change ((c :: t) :: splitContentLines sep) with ([c :: t] ++ splitContentLines sep).
  by rewrite facts_app, Hs4, app_nil_r.
Qed.

Lemma fits_merged existing pre blk0 post : splitContentLines existing = pre ++ blk0 ++ post ->
  all_fit (splitContentLines existing) -> all_fit pre /\ all_fit blk0 /\ all_fit post.
Proof. intros -> [H1 [H2 H3]%Forall_app]%Forall_app. auto. Qed.

Lemma merge_facts src existing block blk merged :
  merged_as bridge existing block merged -> canonical bridge block blk ->
  all_fit (splitContentLines existing) -> all_fit blk ->
  facts src (splitContentLines merged) 0 false = facts src (splitContentLines existing) 0 false.
Proof.
  intros Hm (Eb & Hblk & Hc) Hf Hfb. destruct Hm as [pre blk0 post El Hpre Hb0 Hpost ->|sep Hn Hsep Hnil Hcons ->].
  - destruct (fits_merged _ _ _ _ El Hf) as (F1 & F2 & F3). rewrite El.
    assert (El' : exists b0, pre ++ blk0 ++ post = pre ++ b0 :: (tail blk0 ++ post) /\ blk0 = b0 :: tail blk0).
    { destruct Hb0 as (b & mid & e & -> & _). by exists b. }
    destruct El' as (b0 & El' & _). destruct (split_prefix_complete _ _ _ _ (eq_trans El El')) as [Hcp _].
    assert (Hpost' : splitContentLines (concat post) = post).
    { destruct post as [|x post]; [done|].
      by destruct (split_prefix_complete existing (pre ++ blk0) x post) as [_ ?]; [rewrite <-app_assoc|]. }
    rewrite split_complete by done. rewrite Eb, split_complete, Hpost' by done.
    rewrite (facts_app src pre (blk ++ post)), (facts_app src pre (blk0 ++ post)) by done. by rewrite !facts_block.
  - destruct (facts_spacing src existing sep Hn Hf Hsep) as [G1 G2].
    rewrite <-G2. destruct (decide (existing = [])) as [->|Hne].
    + rewrite (Hnil eq_refl). simpl. rewrite Eb, <-(app_nil_r (concat blk)), split_complete by done.
      by rewrite facts_block.
    + destruct (spaced_lines bridge eq_refl existing sep Hn Hsep (Hcons Hne)) as (ls & E & Hl1 & Hl2).
      assert (El : splitContentLines (concat ls) = ls)
        by (rewrite <-(app_nil_r (concat ls)), split_complete by done; apply app_nil_r).
      rewrite app_assoc, E, Eb in *. rewrite El in *. rewrite split_complete by done.
      rewrite <-(app_nil_r (concat blk)), split_complete by done. rewrite facts_app, facts_block by done.
      apply app_nil_r.
Qed.

(** ** The theorems *)

Lemma render_bullets target l :
  List.filter is_bullet (render_lines target l) ≡ₚ map bullet_line (List.filter known_type l).
Proof.
  unfold render_lines. rewrite !List.filter_app, (body_bullets target l). simpl. by rewrite app_nil_r.
Qed.
Lemma render_unique target l k : distinct_keys l -> l ≡ₚ k ->
  renderMemoryBridgeBlock target l = renderMemoryBridgeBlock target k.
Proof.
  intros Hd Hp. unfold renderMemoryBridgeBlock, render_lines, body_lines. by rewrite (sort_memories_unique l k Hd Hp).
Qed.

(** What the export writes: for names without a newline, one managed
    block of complete lines, whatever the facts contain, with exactly one
    bullet for each memory of a known type; and the order in which the store
    lists the memories does not matter, when no two share scope, type and
    fact. *)
Theorem memory_export_exact target l k :
  one_line target -> Forall one_line_summary l -> l ≡ₚ k ->
  (exists lines, canonical bridge (renderMemoryBridgeBlock target l) (map with_newline lines) /\
     List.filter is_bullet lines ≡ₚ map bullet_line (List.filter known_type l)) /\
  (distinct_keys l -> renderMemoryBridgeBlock target l = renderMemoryBridgeBlock target k).
Proof.
  intros Ht Hl Hp. split; [|by intros; apply render_unique].
  exists (render_lines target l). split; [by apply export_canonical|apply render_bullets].
Qed.

(** The import does not see the export: activating a memory file, in the
    place of its block or at its end, leaves the facts that the import reads
    from it as they were, the block alone gives none, and activating again
    changes nothing.  The lines fit in the scanner's buffer. *)
Theorem bridge_import_unaffected target l existing merged act source :
  one_line target -> Forall one_line_summary l ->
  all_fit (map with_newline (render_lines target l)) -> all_fit (splitContentLines existing) ->
  replaceOrAppend bridge existing true (renderMemoryBridgeBlock target l) = Ok (merged, act) ->
  let read := fun content => map bb_fact (fst (parseBridgeMarkdown content source)) in
  read merged = read existing /\ read (renderMemoryBridgeBlock target l) = [] /\
  replaceOrAppend bridge merged true (renderMemoryBridgeBlock target l) = Ok (merged, MemoryActivationApplyNoop).
Proof.
  intros Ht Hl Hfb Hf Hm read. pose proof (export_canonical target l Ht Hl) as Hc.
  pose proof (known_end bridge (or_introl eq_refl)) as He. pose proof (known_blank bridge (or_introl eq_refl)) as Hb.
  destruct (merge_spec bridge He _ _ _ _ Hm) as [Hmerged _]. split_and!.
  - by apply (merge_facts source _ _ _ _ Hmerged Hc).
  - destruct Hc as (E & Hblk & Hcl). unfold read, parseBridgeMarkdown. rewrite E, <-(app_nil_r (concat _)).
    rewrite split_complete by done. exact (facts_block source _ _ 0 Hblk Hfb).
  - by apply (merge_again bridge He Hb _ _ _ _ Hmerged Hc).
Qed.

(** ** Examples *)

Definition ex_memories : list MemorySummary :=
  [mkSummary "m2" "lesson" (Some (WorkspaceScope "repo")) (String.concat (String newline "") ["keep"; "<!-- traceary-memories:end -->"]);
   mkSummary "m1" "preference" (Some GlobalScope) "Tabs"].
Definition ex_file : list ascii :=
  concat (map with_newline ["# Notes"; "- mine"; "<!-- traceary-memories:begin:v1 -->"; "- old";
                            "<!-- traceary-memories:end -->"; "- last"]).

Lemma ex_memories_fine : one_line "claude" /\ Forall one_line_summary ex_memories /\
  all_fit (map with_newline (render_lines "claude" ex_memories)) /\ all_fit (splitContentLines ex_file).
Proof.
  split_and!.
  - const_line.
  - unfold ex_memories. lines; (split; simpl; [const_line|first [exact I|const_line]]).
  - unfold all_fit. apply Forall_forall. intros r Hr. 
    exact (proj1 (forallb_forall (fun r => fits r) (map with_newline (render_lines "claude" ex_memories))) ltac:(by vm_compute) r (proj1 (list_elem_of_In _ _) Hr)).
  - unfold all_fit. apply Forall_forall. intros r Hr. 
    exact (proj1 (forallb_forall (fun r => fits r) (splitContentLines ex_file)) ltac:(by vm_compute) r (proj1 (list_elem_of_In _ _) Hr)).
Qed.

Lemma memory_export_exact_witness :
  renderMemoryBridgeBlock "claude" ex_memories = renderMemoryBridgeBlock "claude" (rev ex_memories).
Proof.
  destruct ex_memories_fine as (Ht & Hl & _).
  refine (proj2 (memory_export_exact "claude" ex_memories (rev ex_memories) Ht Hl (Permutation_rev _)) _).
  intros a b Ha Hb Hab. repeat (apply elem_of_cons in Ha as [->|Ha] || apply elem_of_nil in Ha as []);
    repeat (apply elem_of_cons in Hb as [->|Hb] || apply elem_of_nil in Hb as []); first [done|by vm_compute in Hab].
Defined.

Definition ex_merged : list ascii :=
  match replaceOrAppend bridge ex_file true (renderMemoryBridgeBlock "claude" ex_memories) with
  | Ok (merged, _) => merged | Err _ => [] end.
Lemma ex_merged_ok :
  replaceOrAppend bridge ex_file true (renderMemoryBridgeBlock "claude" ex_memories) = Ok (ex_merged, MemoryActivationApplyUpdated).
Proof. vm_compute. reflexivity. Qed.

Lemma bridge_import_unaffected_witness :
  map bb_fact (fst (parseBridgeMarkdown ex_merged "AGENTS.md")) = ["mine"; "last"].
Proof.
  destruct ex_memories_fine as (Ht & Hl & Hfb & Hf).
  destruct (bridge_import_unaffected "claude" ex_memories ex_file ex_merged _ "AGENTS.md" Ht Hl Hfb Hf ex_merged_ok) as (H & _).
  rewrite H. vm_compute. reflexivity.
Defined.

(** A scope's key is written as it is: a workspace whose name holds an end
    marker on a line of its own is accepted, and makes a block that the next
    activation refuses. *)
Definition ex_bad_key : string := String.concat (String newline "") ["repo"; "<!-- traceary-memories:end -->"; "x"].
Example export_key_breaks_block :
  WorkspaceFrom ex_bad_key = Ok ex_bad_key /\
  let block := renderMemoryBridgeBlock "claude" [mkSummary "m1" "lesson" (Some (WorkspaceScope ex_bad_key)) "f"] in
  replaceOrAppend bridge block true block = Err (Errorf "multiple Traceary managed memory end markers found" []).
Proof. split; vm_compute; reflexivity. Qed.
