(* ===== verification/Event.v ===== *)
(** * Events and hook deliveries

    [src/domain/model/event.go], [event_persist_result.go] and the delivery
    evidence of [hook_delivery.go]: the recorded event, and the identity that
    tells a retried host delivery from a new one. *)

From S2P Require Import Prelude GoStrings GoTime Sha256 RuntimeValues Labels CommandAudit.

(** ** Delivery evidence *)

Record HookDeliveryEvidence := mkEvidence {
  reportedID : string; deliveryFingerprint : string; attributionFingerprint : string; rawWorkspace : string }.

Definition rootAgentName (value : string) : string := TrimSpace (Cut_before (TrimSpace value) "/").

Definition length_prefixed (field : string) : string := Itoa (slen field) +:+ ":" +:+ field.
Definition joinReportedIdentityFields (fields : list string) : string := Join (map length_prefixed fields) "|".

(** The bytes [digestFields] writes to the hash. *)
Definition digest_payload (values : list string) : list ascii :=
  flat_map (fun value => be_bytes 8 (u64 (slen value)) ++ explode value) values.
Definition digestFields (values : list string) : string := EncodeToString (Sum256 (digest_payload values)).

Definition DeliveryRecordID (e : HookDeliveryEvidence) : string :=
  "delivery:" +:+ digestFields [reportedID e; deliveryFingerprint e].
Definition ObservationID (e : HookDeliveryEvidence) : string :=
  "observation:" +:+ digestFields [DeliveryRecordID e; attributionFingerprint e].
Definition WorkspaceAttributionFingerprint (workspace rawWorkspace : string) : string :=
  digestFields [workspace; rawWorkspace].

(** ** Events *)

Record Event := mkEvent {
  eventID : string; kind : string; client : string; agent : string; sessionID : string;
  workspace : string; body : string; createdAt : Time; sourceHook : string; evRawWorkspace : string;
  deliveryEvidence : option HookDeliveryEvidence; commandAudit : option CommandAudit;
  persistKnown : bool; persistInserted : bool }.

Definition EventOf (eid k c a s w b : string) (created : Time) : Event :=
  mkEvent eid k c a s w b created "" "" None None false false.

(** [now] is the reading of the clock. *)
Definition NewEventWithClock (eid k c a s w b : string) (now : Time) : result Event :=
  let trimmedBody := TrimSpace b in
  if (trimmedBody =?s "") && (k <>?s "command_executed")
  then Err (Errorf "event body must not be empty" [])
  else Ok (mkEvent eid k c a s w trimmedBody now "" "" None None false false).

Definition with_hook (e : Event) (hook raw : string) : Event :=
  mkEvent (eventID e) (kind e) (client e) (agent e) (sessionID e) (workspace e) (body e) (createdAt e)
    hook raw (deliveryEvidence e) (commandAudit e) (persistKnown e) (persistInserted e).
Definition EventOfWithSourceHook (eid k c a s w b : string) (created : Time) (hook : string) : Event :=
  with_hook (EventOf eid k c a s w b created) hook "".
Definition SetSourceHook (e : Event) (name : string) : Event :=
  let trimmed := TrimSpace name in
  if trimmed =?s "" then e else with_hook e trimmed (evRawWorkspace e).
Definition SetRawWorkspace (e : Event) (value : string) : Event := with_hook e (sourceHook e) value.

Definition with_outcome (e : Event) (eid : string) (evidence : option HookDeliveryEvidence)
    (audit : option CommandAudit) (known inserted : bool) : Event :=
  mkEvent eid (kind e) (client e) (agent e) (sessionID e) (workspace e) (body e) (createdAt e)
    (sourceHook e) (evRawWorkspace e) evidence audit known inserted.
Definition SetDeliveryEvidence (e : Event) (evidence : HookDeliveryEvidence) : Event :=
  with_outcome e (eventID e) (Some evidence) (commandAudit e) (persistKnown e) (persistInserted e).
Definition AttachCommandAudit (e : Event) (audit : option CommandAudit) : Event :=
  with_outcome e (eventID e) (deliveryEvidence e) audit (persistKnown e) (persistInserted e).

Definition RecordPersistOutcome (e : Event) (inserted : bool) (persistedID : string) : Event :=
  let eid := if negb inserted
             then match EventIDFrom persistedID with Ok trimmed => trimmed | Err _ => eventID e end
             else eventID e in
  with_outcome e eid (deliveryEvidence e) (commandAudit e) true inserted.
Definition PersistInserted (e : option Event) : bool :=
  match e with
  | None => true
  | Some e => if negb (persistKnown e) then true else persistInserted e
  end.

Record EventPersistResult := mkPersistResult { inserted : bool; persistedID : string }.
Definition ApplyEventPersistResult (event : option Event) (r : EventPersistResult) : option Event :=
  match event with
  | None => None
  | Some e => Some (RecordPersistOutcome e (inserted r) (persistedID r))
  end.

(** The host fields that identify a delivery, and the fields it says. *)
Definition identity_fields (e : Event) (nativeID : string) : list string :=
  [rootAgentName (agent e); sourceHook e; sessionID e; TrimSpace nativeID].
Definition delivery_fields (e : Event) (semanticFields : list string) : list string :=
  [kind e; client e; agent e; sessionID e; sourceHook e; body e] ++ semanticFields.

Definition NewHookDeliveryEvidence (event : option Event) (nativeID rawWorkspace : string)
    (semanticFields : list string) : result HookDeliveryEvidence :=
  match event with
  | None => Err (Errorf "event must not be nil" [])
  | Some e =>
      if TrimSpace nativeID =?s "" then Err (Errorf "native delivery ID must not be empty" [])
      else if (rootAgentName (agent e) =?s "") || (TrimSpace (sourceHook e) =?s "") || (sessionID e =?s "")
      then Err (Errorf "hook delivery requires host, source hook, and session ID" [])
      else Ok (mkEvidence (joinReportedIdentityFields (identity_fields e nativeID))
                 (digestFields (delivery_fields e semanticFields))
                 (digestFields [workspace e; rawWorkspace]) rawWorkspace)
  end.

(** ** Self-delimiting encodings *)

Lemma length_prefixed_app_inj f g k l : explode (length_prefixed f) ++ k = explode (length_prefixed g) ++ l ->
  f = g /\ k = l.
Proof.
  unfold length_prefixed, Itoa. pose proof (slen_nonneg f) as Hf. pose proof (slen_nonneg g) as Hg.
  destruct (Z.ltb_spec (slen f) 0); [lia|]. destruct (Z.ltb_spec (slen g) 0); [lia|].
  rewrite !explode_app, <-!app_assoc. change (explode ":") with [":"%char]. cbn [app]. intros Heq.
  apply delimited_inj in Heq as [Hn Hr]; [|by apply FormatUint_no_char..].
  apply explode_inj, FormatUint_inj in Hn; [|done..].
  apply app_inj_1 in Hr as [Hfg Hkl]; [|rewrite !length_explode; unfold slen in Hn; lia].
  split; [by apply explode_inj|done].
Qed.

Lemma explode_Join_cons f fs :
  explode (joinReportedIdentityFields (f :: fs)) =
  explode (length_prefixed f) ++
    match fs with [] => [] | _ => "|"%char :: explode (joinReportedIdentityFields fs) end.
Proof.
  unfold joinReportedIdentityFields. destruct fs as [|g fs]; cbn [map Join].
  - by rewrite app_nil_r.
  - by rewrite !explode_app.
Qed.

Lemma length_prefixed_nonempty f k : explode (length_prefixed f) ++ k <> [].
Proof.
  unfold length_prefixed. rewrite !explode_app. change (explode ":") with [":"%char].
  intros H%app_eq_nil. destruct H as [H _]. by apply app_eq_nil in H as [_ H].
Qed.

Lemma join_identity_inj fs gs : joinReportedIdentityFields fs = joinReportedIdentityFields gs -> fs = gs.
Proof.
  revert gs. induction fs as [|f fs IH]; intros [|g gs] H; [done| | |].
  - apply (f_equal explode) in H. rewrite explode_Join_cons in H. symmetry in H.
    by apply length_prefixed_nonempty in H.
  - apply (f_equal explode) in H. rewrite explode_Join_cons in H. by apply length_prefixed_nonempty in H.
  - apply (f_equal explode) in H. rewrite !explode_Join_cons in H.
    apply length_prefixed_app_inj in H as [<- H].
    destruct fs as [|f2 fs], gs as [|g2 gs]; [done|done|done|].
    injection H as H. apply explode_inj, IH in H. by rewrite H.
Qed.

(** Go's strings are shorter than 2^63 bytes. *)
Definition go_string (s : string) : Prop := slen s <= MaxInt64.
Definition go_strings (l : list string) : Prop := Forall go_string l.

Lemma digest_payload_inj vs ws : go_strings vs -> go_strings ws -> digest_payload vs = digest_payload ws -> vs = ws.
Proof.
  intros Hv. revert ws. induction Hv as [|v vs Hv _ IH]; intros ws Hw H; destruct Hw as [|w ws Hw Hws];
    cbn [digest_payload flat_map] in H; [done| | |].
  - apply (f_equal (@List.length _)) in H. rewrite !length_app, be_bytes_length in H. cbn in H. lia.
  - apply (f_equal (@List.length _)) in H. rewrite !length_app, be_bytes_length in H. cbn in H. lia.
  - rewrite <-!app_assoc in H. apply app_inj_1 in H as [Hl H]; [|by rewrite !be_bytes_length].
    pose proof (slen_nonneg v). pose proof (slen_nonneg w). unfold go_string, MaxInt64 in *.
    rewrite !u64_small in Hl by (unfold is_u64, MaxUint64; lia).
    apply be_bytes_inj in Hl; [|change (8 * Z.of_nat 8) with 64; lia..].
    apply app_inj_1 in H as [Hvw H]; [|rewrite !length_explode; unfold slen in Hl; lia].
    apply explode_inj in Hvw. subst w. f_equal. by apply IH.
Qed.

(** Equal digests are equal fields, when the two payloads do not collide. *)
Lemma digestFields_inj ps qs vs ws : collision_free ps qs -> digest_payload vs ∈ ps -> digest_payload ws ∈ qs ->
  go_strings vs -> go_strings ws -> digestFields vs = digestFields ws -> vs = ws.
Proof. intros Hfree Hp Hq Hv Hw H%EncodeToString_inj. apply digest_payload_inj; [done..|]. by apply Hfree. Qed.

Lemma digest_go_string vs : go_string (digestFields vs).
Proof.
  unfold go_string, digestFields. rewrite EncodeToString_length. rewrite Sum256_length. done.
Qed.

Lemma record_go_string a : go_string (DeliveryRecordID a).
Proof.
  unfold go_string, DeliveryRecordID, digestFields. rewrite slen_app, EncodeToString_length.
  rewrite Sum256_length. done.
Qed.

(** ** Properties *)

(** What the evidence of a delivery was made from. *)
Record delivery := mkDelivery { d_event : Event; d_native : string; d_raw : string; d_fields : list string }.
Definition evidence_of (d : delivery) : result HookDeliveryEvidence :=
  NewHookDeliveryEvidence (Some (d_event d)) (d_native d) (d_raw d) (d_fields d).
Definition go_delivery (d : delivery) (a : HookDeliveryEvidence) : Prop :=
  go_strings (delivery_fields (d_event d) (d_fields d)) /\ go_strings [workspace (d_event d); d_raw d] /\
  go_string (reportedID a).

Lemma evidence_fields d a : evidence_of d = Ok a ->
  a = mkEvidence (joinReportedIdentityFields (identity_fields (d_event d) (d_native d)))
        (digestFields (delivery_fields (d_event d) (d_fields d)))
        (digestFields [workspace (d_event d); d_raw d]) (d_raw d).
Proof.
  unfold evidence_of, NewHookDeliveryEvidence. destruct (_ =?s ""); [done|].
  destruct (_ || (sessionID _ =?s "")); [done|]. by intros [= <-].
Qed.

Lemma pair_inj {A} (x y x' y' : A) : [x; y] = [x'; y'] -> x = x' /\ y = y'.
Proof. by intros [= -> ->]. Qed.

(** What is hashed for a delivery: the report, the place, and the two fields of
    the ledger row and of the observation. *)
Definition delivery_payloads (d : delivery) (a : HookDeliveryEvidence) : list (list ascii) :=
  digest_payload <$> [delivery_fields (d_event d) (d_fields d); [workspace (d_event d); d_raw d];
                      [reportedID a; deliveryFingerprint a]; [DeliveryRecordID a; attributionFingerprint a]].

Section Deliveries.
Context (d e : delivery) (a b : HookDeliveryEvidence)
  (Ha : evidence_of d = Ok a) (Hb : evidence_of e = Ok b) (Hd : go_delivery d a) (He : go_delivery e b).
Let same_identity := identity_fields (d_event d) (d_native d) = identity_fields (d_event e) (d_native e).
Let same_report := delivery_fields (d_event d) (d_fields d) = delivery_fields (d_event e) (d_fields e).
Let same_place := workspace (d_event d) = workspace (d_event e) /\ d_raw d = d_raw e.

Lemma identity_iff : reportedID a = reportedID b <-> same_identity.
Proof.
  unfold same_identity. rewrite (evidence_fields d a Ha), (evidence_fields e b Hb). cbn [reportedID].
  split; [apply join_identity_inj|by intros ->].
Qed.
Lemma record_same : same_identity -> same_report -> DeliveryRecordID a = DeliveryRecordID b.
Proof.
  intros Hi%identity_iff Hr. unfold DeliveryRecordID. rewrite Hi. unfold same_report in Hr.
  assert (deliveryFingerprint a = deliveryFingerprint b) as ->; [|done].
  rewrite (evidence_fields d a Ha), (evidence_fields e b Hb). cbn [deliveryFingerprint]. by rewrite Hr.
Qed.

Context (Hfree : collision_free (delivery_payloads d a) (delivery_payloads e b)).
Lemma record_iff : DeliveryRecordID a = DeliveryRecordID b <-> same_identity /\ same_report.
Proof.
  destruct Hd as (Hd1 & Hd2 & Hd3), He as (He1 & He2 & He3). split; [|by intros [? ?]; apply record_same].
  intros H%string_app_inj_l. apply (digestFields_inj _ _ _ _ Hfree) in H; [|by do 2 right; left|by do 2 right; left| |].
  - apply pair_inj in H as [Hr Hf]. split; [by apply identity_iff|]. rewrite (evidence_fields d a Ha), (evidence_fields e b Hb) in Hf. cbn [deliveryFingerprint] in Hf.
    apply (digestFields_inj _ _ _ _ Hfree) in Hf; [done|by left|by left|done..].
  - rewrite (evidence_fields d a Ha). repeat constructor; [|apply digest_go_string]. by rewrite (evidence_fields d a Ha) in Hd3.
  - rewrite (evidence_fields e b Hb). repeat constructor; [|apply digest_go_string]. by rewrite (evidence_fields e b Hb) in He3.
Qed.
Lemma observation_iff : ObservationID a = ObservationID b <-> same_identity /\ same_report /\ same_place.
Proof.
  destruct Hd as (Hd1 & Hd2 & Hd3), He as (He1 & He2 & He3). split.
  - intros H%string_app_inj_l. apply (digestFields_inj _ _ _ _ Hfree) in H; [|by do 3 right; left|by do 3 right; left| |].
    + apply pair_inj in H as [[? ?]%record_iff Hf]. split_and!; [done..|].
      rewrite (evidence_fields d a Ha), (evidence_fields e b Hb) in Hf. cbn [attributionFingerprint] in Hf.
      apply (digestFields_inj _ _ _ _ Hfree) in Hf; [|by right; left|by right; left|done..].
      by apply pair_inj in Hf.
    + rewrite (evidence_fields d a Ha). repeat constructor; [apply record_go_string|apply digest_go_string].
    + rewrite (evidence_fields e b Hb). repeat constructor; [apply record_go_string|apply digest_go_string].
  - intros (H1 & H2 & H3 & H4). unfold ObservationID. rewrite (record_same H1 H2).
    rewrite (evidence_fields d a Ha), (evidence_fields e b Hb). cbn [attributionFingerprint]. by rewrite H3, H4.
Qed.
End Deliveries.

(** (C28) A host delivery is identified by what it is and not by where it
    ran.  Two accepted deliveries (of texts of the lengths Go admits) have one reported identity exactly when
    host, hook, session and native id agree, whatever delimiters those texts
    hold.  When identity and report agree they share a ledger row, and, when
    the workspace evidence agrees too, an observation; so a retry that only
    corrects the workspace is the same delivery.  And when the payloads hashed
    for the two deliveries do not collide, they share a row only if identity
    and report agree, and an observation only if the workspace does as well. *)
Theorem delivery_identity_exact d e a b :
  evidence_of d = Ok a -> evidence_of e = Ok b -> go_delivery d a -> go_delivery e b ->
  let same_identity := identity_fields (d_event d) (d_native d) = identity_fields (d_event e) (d_native e) in
  let same_report := delivery_fields (d_event d) (d_fields d) = delivery_fields (d_event e) (d_fields e) in
  let same_place := workspace (d_event d) = workspace (d_event e) /\ d_raw d = d_raw e in
  (reportedID a = reportedID b <-> same_identity) /\
  (same_identity /\ same_report -> DeliveryRecordID a = DeliveryRecordID b) /\
  (same_identity /\ same_report /\ same_place -> ObservationID a = ObservationID b) /\
  (collision_free (delivery_payloads d a) (delivery_payloads e b) ->
     (DeliveryRecordID a = DeliveryRecordID b <-> same_identity /\ same_report) /\
     (ObservationID a = ObservationID b <-> same_identity /\ same_report /\ same_place)).
Proof.
  intros Ha Hb Hd He. cbn zeta. split_and!.
  - by apply identity_iff.
  - intros [H1 H2]. by apply (record_same d e a b).
  - intros (H1 & H2 & H3 & H4). unfold ObservationID. rewrite (record_same d e a b Ha Hb H1 H2).
    rewrite (evidence_fields d a Ha), (evidence_fields e b Hb). cbn [attributionFingerprint]. by rewrite H3, H4.
  - intros Hfree. split; [by apply record_iff|by apply observation_iff].
Qed.

Definition ex_event (w : string) : Event :=
  with_hook (EventOf "e-1" "prompt" "hook" "claude/opus" "s-1" w "hello" UnixEpoch) "user_prompt" "".
Definition ex_delivery (w : string) : delivery := mkDelivery (ex_event w) "n:1|" w ["x"].
Definition ex_evidence (w : string) : HookDeliveryEvidence :=
  let d := ex_delivery w in
  mkEvidence (joinReportedIdentityFields (identity_fields (d_event d) (d_native d)))
    (digestFields (delivery_fields (d_event d) (d_fields d)))
    (digestFields [workspace (d_event d); d_raw d]) (d_raw d).

(** The delivery with another body. *)
Definition ex_changed : delivery :=
  mkDelivery (with_hook (EventOf "e-1" "prompt" "hook" "claude/opus" "s-1" "/repo" "bye" UnixEpoch) "user_prompt" "") "n:1|" "/repo" ["x"].
Definition ex_changed_evidence : HookDeliveryEvidence :=
  mkEvidence (joinReportedIdentityFields (identity_fields (d_event ex_changed) (d_native ex_changed)))
    (digestFields (delivery_fields (d_event ex_changed) (d_fields ex_changed)))
    (digestFields [workspace (d_event ex_changed); d_raw ex_changed]) (d_raw ex_changed).
Lemma ex_moved_free : collision_free (delivery_payloads (ex_delivery "/repo") (ex_evidence "/repo"))
  (delivery_payloads (ex_delivery "/repo/sub") (ex_evidence "/repo/sub")).
Proof. apply (bool_decide_eq_true _). vm_refl. Qed.
Lemma ex_changed_free : collision_free (delivery_payloads (ex_delivery "/repo") (ex_evidence "/repo"))
  (delivery_payloads ex_changed ex_changed_evidence).
Proof. apply (bool_decide_eq_true _). vm_refl. Qed.
Lemma ex_go_delivery w : w = "/repo" \/ w = "/repo/sub" -> go_delivery (ex_delivery w) (ex_evidence w).
Proof. intros [-> | ->]; (split; [|split]); repeat constructor; vm_compute; discriminate. Qed.
Lemma ex_changed_go : go_delivery ex_changed ex_changed_evidence.
Proof. split; [|split]; repeat constructor; vm_compute; discriminate. Qed.

(** From another directory: the same row, another observation.  With another
    body: another row. *)
Lemma delivery_identity_exact_witness :
  DeliveryRecordID (ex_evidence "/repo") = DeliveryRecordID (ex_evidence "/repo/sub") /\
  ObservationID (ex_evidence "/repo") <> ObservationID (ex_evidence "/repo/sub") /\
  reportedID (ex_evidence "/repo") = reportedID ex_changed_evidence /\
  DeliveryRecordID (ex_evidence "/repo") <> DeliveryRecordID ex_changed_evidence.
Proof.
  destruct (delivery_identity_exact (ex_delivery "/repo") (ex_delivery "/repo/sub")
    (ex_evidence "/repo") (ex_evidence "/repo/sub") ltac:(vm_refl) ltac:(vm_refl)
    (ex_go_delivery _ (or_introl eq_refl)) (ex_go_delivery _ (or_intror eq_refl))) as (_ & Hsame & _ & Hmoved).
  destruct (delivery_identity_exact (ex_delivery "/repo") ex_changed
    (ex_evidence "/repo") ex_changed_evidence ltac:(vm_refl) ltac:(vm_refl)
    (ex_go_delivery _ (or_introl eq_refl)) ex_changed_go) as (Hid & _ & _ & Hchanged).
  destruct (Hmoved ex_moved_free) as [_ Hobs]. destruct (Hchanged ex_changed_free) as [Hrow _].
  split; [apply Hsame; split; reflexivity|]. split; [intros (_ & _ & H & _)%Hobs; discriminate H|].
  split; [apply Hid; reflexivity|]. intros [_ H]%Hrow. discriminate H.
Defined.
