(* ===== verification/Workspace.v ===== *)
(** * Workspaces

    [src/domain/types/workspace.go] and the workspace half of
    [src/domain/model/hook_delivery.go] and [workspace_alias.go]: which
    workspaces are local paths, the ancestors a lookup falls back to, and how
    an event's workspace relates to the canonical one of its session.
    [strings.ToLower] follows the Unicode tables, so it is a parameter of the
    relationship. *)

From S2P Require Import Prelude GoStrings GoTime Labels.

(** ** Local paths and their ancestors *)

Definition isASCIIAlpha (c : ascii) : bool := in_range 65 90 (byte_val c) || in_range 97 122 (byte_val c).
Definition isPathSeparator (c : ascii) : bool := Ascii.eqb c slash || Ascii.eqb c backslash.
Definition isWindowsDriveAbsolute (value : string) : bool :=
  match explode value with
  | drive :: colon :: sep :: _ => isASCIIAlpha drive && Ascii.eqb colon ":"%char && isPathSeparator sep
  | _ => false
  end.
Definition IsLocalPath (w : string) : bool := HasPrefix w "/" || isWindowsDriveAbsolute w.

(** The loop over parents; a parent is shorter than its child, so the length
    of the path is enough fuel. *)
Fixpoint ancestor_loop (fuel : nat) (cleaned : string) : list string :=
  match fuel with
  | O => []
  | S f => let parent := Dir cleaned in
           if parent =?s cleaned then []
           else parent :: (if parent =?s "/" then [] else ancestor_loop f parent)
  end.
Fixpoint windows_loop (fuel : nat) (volume : string) (separator : string) (cleanedRest : string) : list string :=
  match fuel with
  | O => []
  | S f => let parentRest := Dir cleanedRest in
           let parent := volume +:+ parentRest in
           let parent := if separator =?s "\" then ReplaceByte parent slash backslash else parent in
           parent :: (if parentRest =?s "/" then [] else windows_loop f volume separator parentRest)
  end.

Definition windowsDriveAncestorWorkspaces (value : string) : list string :=
  let separator := match explode value with
                   | _ :: _ :: c :: _ => if Ascii.eqb c backslash then "\" else "/" | _ => "/" end in
  let slashValue := ReplaceByte value backslash slash in
  let volume := slice_to slashValue 2 in
  let cleanedRest := Clean (slice_from slashValue 2) in
  let cleanedRest := if cleanedRest =?s "." then "/" else cleanedRest in
  if cleanedRest =?s "/" then []
  else windows_loop (String.length cleanedRest) volume separator cleanedRest.

Definition AncestorWorkspaces (w : string) : list string :=
  if negb (IsLocalPath w) then []
  else if isWindowsDriveAbsolute w then windowsDriveAncestorWorkspaces w
  else let cleaned := Clean w in
       if (cleaned =?s "/") || (cleaned =?s ".") then []
       else ancestor_loop (String.length cleaned) cleaned.

Example ancestor_examples :
  AncestorWorkspaces "/home/me/../you/repo/" = ["/home/you"; "/home"; "/"] /\
  AncestorWorkspaces "C:\work\repo" = ["C:\work"; "C:\"] /\
  AncestorWorkspaces "github.com/org/repo" = [].
Proof. vm_compute. auto. Qed.

(** ** Reviewed aliases *)

Record WorkspaceAlias := mkWorkspaceAlias {
  wa_session : string; wa_workspace : string; wa_reviewed_at : Time; wa_reviewed_by : string; wa_note : string }.

Definition NewWorkspaceAlias (sessionID workspace : string) (reviewedAt : Time) (reviewedBy note : string)
    : result WorkspaceAlias :=
  let! resolvedSessionID := wrap_err "invalid workspace alias session ID: %w" (SessionIDFrom sessionID) in
  if TrimSpace workspace =?s "" then Err (Errorf "workspace alias must not be empty" [])
  else if TrimSpace reviewedBy =?s "" then Err (Errorf "workspace alias reviewer must not be empty" [])
  else if IsZero reviewedAt then Err (Errorf "workspace alias review time must not be zero" [])
  else Ok (mkWorkspaceAlias resolvedSessionID (TrimSpace workspace) (UTC reviewedAt) (TrimSpace reviewedBy)
             (TrimSpace note)).

(** ** Relationships *)

Definition WorkspaceRelationshipExact : string := "exact".
Definition WorkspaceRelationshipDescendant : string := "descendant".
Definition WorkspaceRelationshipAncestor : string := "ancestor".
Definition WorkspaceRelationshipExplicitAlias : string := "explicit_alias".
Definition WorkspaceRelationshipConflict : string := "conflict".
Definition WorkspaceRelationshipUnknown : string := "unknown".

(** The outcomes of [normalizeAbsoluteWorkspacePath]: [("", false)], a path
    and [true], or the run-time panic of an index out of range. *)
Inductive normalization :=
| NotLocal
| Normalized (path : string)
| IndexPanic.

(** The loop over [parts]; the stack is reversed. *)
Fixpoint clean_parts (stack : list string) (parts : list string) : list string :=
  match parts with
  | [] => rev stack
  | part :: rest =>
      if (part =?s "") || (part =?s ".") then clean_parts stack rest
      else if part =?s ".." then clean_parts (tl stack) rest
      else clean_parts (part :: stack) rest
  end.

(** [len(s) >= 3 && s[1] == ':' && s[2] == '/']. *)
Definition drive_absolute (s : string) : bool :=
  match explode s with
  | _ :: c :: d :: _ => Ascii.eqb c ":"%char && Ascii.eqb d slash
  | _ => false
  end.

Section Relationship.
Variable ToLower : string -> string.

Definition normalizeAbsoluteWorkspacePath (value : string) : normalization :=
  let normalized := ReplaceByte (TrimSpace value) backslash slash in
  let isUnixAbsolute := HasPrefix normalized "/" in
  let isWindowsDriveAbsolute := drive_absolute normalized in
  let isUNCAbsolute := HasPrefix normalized "//" in
  if negb isUnixAbsolute && negb isWindowsDriveAbsolute && negb isUNCAbsolute then NotLocal
  else
    let cleaned := clean_parts [] (Split normalized slash) in
    let lowered (l : list string) := if isWindowsDriveAbsolute || isUNCAbsolute then map ToLower l else l in
    if isWindowsDriveAbsolute then
      match cleaned with
      | [] => IndexPanic
      | first :: rest => Normalized (TrimSuffix ((ToLower first +:+ "/") +:+ Join (lowered rest) "/") "/")
      end
    else
      let prefix := if isUNCAbsolute then "//" else "/" in
      Normalized (TrimSuffix (prefix +:+ Join (lowered cleaned) "/") "/").

(** [None] is the panic. *)
Definition ClassifyWorkspaceRelationship (canonical effective : string) : option string :=
  let canonicalValue := TrimSpace canonical in
  let effectiveValue := TrimSpace effective in
  if (canonicalValue =?s "") || (effectiveValue =?s "") then Some WorkspaceRelationshipUnknown
  else
    match normalizeAbsoluteWorkspacePath canonicalValue, normalizeAbsoluteWorkspacePath effectiveValue with
    | IndexPanic, _ => None
    | _, IndexPanic => None
    | Normalized c, Normalized e =>
        Some (if c =?s e then WorkspaceRelationshipExact
              else if HasPrefix e (c +:+ "/") then WorkspaceRelationshipDescendant
              else if HasPrefix c (e +:+ "/") then WorkspaceRelationshipAncestor
              else WorkspaceRelationshipConflict)
    | _, _ =>
        Some (if canonicalValue =?s effectiveValue then WorkspaceRelationshipExact
              else WorkspaceRelationshipConflict)
    end.
End Relationship.

(** A parent reference that removes the drive leaves nothing to index. *)
Example drive_parent_panics :
  normalizeAbsoluteWorkspacePath ToLower "C:/.." = IndexPanic /\
  normalizeAbsoluteWorkspacePath ToLower "C:/../x" = Normalized "x".
Proof. vm_compute. auto. Qed.

(** ** Elements between slashes *)

Definition slash_free (s : string) : Prop := slash ∉ explode s.

Lemma slash_free_app s t : slash_free (s +:+ t) <-> slash_free s /\ slash_free t.
Proof. unfold slash_free. rewrite explode_app, not_elem_of_app. done. Qed.

Lemma split_go_app cur l k :
  split_go slash cur (l ++ slash :: k) = split_go slash cur l ++ split_go slash [] k.
Proof.
  revert cur. induction l as [|c l IH]; intros cur; cbn [app split_go].
  - by rewrite Ascii.eqb_refl.
  - destruct (Ascii.eqb c slash); [|apply IH]. cbn [app]. by rewrite IH.
Qed.
Lemma split_go_free cur l : slash ∉ l -> split_go slash cur l = [implode (rev cur ++ l)].
Proof.
  revert cur. induction l as [|c l IH]; intros cur H; cbn [split_go]; [by rewrite app_nil_r|].
  apply not_elem_of_cons in H as [Hc H].
  destruct (Ascii.eqb_spec c slash) as [->|_]; [done|]. rewrite IH by done. cbn [rev]. by rewrite <-app_assoc.
Qed.
Lemma split_go_slash_free cur l : slash ∉ cur -> Forall slash_free (split_go slash cur l).
Proof.
  revert cur. induction l as [|c l IH]; intros cur H; cbn [split_go].
  - constructor; [|constructor]. unfold slash_free. rewrite explode_implode.
    by rewrite elem_of_rev.
  - destruct (Ascii.eqb_spec c slash) as [->|Hc].
    + constructor; [|by apply IH, not_elem_of_nil]. unfold slash_free. rewrite explode_implode.
      by rewrite elem_of_rev.
    + apply IH. intros [E|?]%elem_of_cons; [by apply Hc|done].
Qed.

Lemma Split_app s t : Split (s +:+ "/" +:+ t) slash = Split s slash ++ Split t slash.
Proof. unfold Split. rewrite !explode_app. apply split_go_app. Qed.
Lemma Split_free s : slash_free s -> Split s slash = [s].
Proof. intros H. unfold Split. rewrite split_go_free by exact H. cbn [rev app]. by rewrite implode_explode. Qed.
Lemma Split_elements s : Forall slash_free (Split s slash).
Proof. apply split_go_slash_free, not_elem_of_nil. Qed.
Lemma Split_nonempty s : Split s slash <> [].
Proof.
  unfold Split. generalize (@nil ascii). induction (explode s) as [|c l IH]; intros cur; cbn [split_go]; [done|].
  by destruct (Ascii.eqb c slash).
Qed.

Lemma Join_cons e l : l <> [] -> Join (e :: l) "/" = e +:+ "/" +:+ Join l "/".
Proof. by destruct l. Qed.
Lemma Join_app a b : a <> [] -> b <> [] -> Join (a ++ b) "/" = Join a "/" +:+ "/" +:+ Join b "/".
Proof.
  intros Ha Hb. induction a as [|e a IH]; [done|]. destruct a as [|e2 a].
  - cbn [app]. by rewrite Join_cons.
  - cbn [app] in *. rewrite Join_cons by done. rewrite IH by done. rewrite (Join_cons e (e2 :: a)) by done.
    apply explode_inj. rewrite !explode_app. by rewrite <-!app_assoc.
Qed.
Lemma Split_Join l : l <> [] -> Forall slash_free l -> Split (Join l "/") slash = l.
Proof.
  intros Hne Hl. induction Hl as [|e l He Hl IH]; [done|]. destruct l as [|e2 l].
  - by apply Split_free.
  - rewrite Join_cons by done. rewrite Split_app, Split_free, IH by done. done.
Qed.

(** A joined path extends another by a slash exactly when its elements do. *)
Lemma Join_prefix a b : a <> [] -> b <> [] -> Forall slash_free a -> Forall slash_free b ->
  HasPrefix (Join b "/") (Join a "/" +:+ "/") = true <-> exists c, c <> [] /\ b = a ++ c.
Proof.
  intros Ha Hb Fa Fb. unfold HasPrefix. rewrite is_prefix_spec. split.
  - intros [k Hk]. exists (Split (implode k) slash). split; [apply Split_nonempty|].
    rewrite <-(Split_Join b) by done. rewrite <-(Split_Join a Ha Fa) at 1. rewrite <-Split_app. f_equal.
    apply explode_inj. rewrite Hk, !explode_app, explode_implode. by rewrite <-app_assoc.
  - intros (c & Hc & ->). exists (explode (Join c "/")). rewrite Join_app by done.
    rewrite !explode_app. by rewrite <-app_assoc.
Qed.

Lemma Join_inj a b : a <> [] -> b <> [] -> Forall slash_free a -> Forall slash_free b ->
  Join a "/" = Join b "/" -> a = b.
Proof. intros Ha Hb Fa Fb H. by rewrite <-(Split_Join a), <-(Split_Join b), H. Qed.

(** The elements the loop keeps: no empty or dot element. *)
Definition proper_element (e : string) : Prop := slash_free e /\ e <> "" /\ e <> "." /\ e <> "..".
Lemma clean_parts_proper parts stack : Forall proper_element stack -> Forall slash_free parts ->
  Forall proper_element (clean_parts stack parts).
Proof.
  intros Hs Hp. revert stack Hs. induction Hp as [|e parts He Hp IH]; intros stack Hs; cbn [clean_parts].
  - by apply Forall_rev.
  - destruct ((e =?s "") || (e =?s ".")) eqn:E1; [by apply IH|].
    destruct (e =?s "..") eqn:E2.
    + apply IH. destruct Hs; [constructor|done].
    + apply IH. breflect. constructor; [|done]. by repeat split.
Qed.

(** [path.Clean] of a rooted path keeps the same elements. *)
Lemma clean_elems_rooted parts stack : Forall proper_element stack -> Forall slash_free parts ->
  clean_elems true stack parts = clean_parts stack parts.
Proof.
  intros Hs Hp. revert stack Hs. induction Hp as [|e parts He Hp IH]; intros stack Hs; [done|].
  cbn [clean_elems clean_parts]. destruct ((e =?s "") || (e =?s ".")) eqn:E1; [by apply IH|].
  destruct (e =?s "..") eqn:E2.
  - destruct Hs as [|top below Ht Hb]; [apply IH; constructor|].
    destruct Ht as (_ & _ & _ & Ht%String.eqb_neq). rewrite Ht. by apply IH.
  - apply IH. breflect. constructor; [|done]. by repeat split.
Qed.

Lemma TrimSuffix_slash s : TrimSuffix (s +:+ "/") "/" = s.
Proof.
  unfold TrimSuffix, HasSuffix. rewrite explode_app. change (explode "/") with [slash].
  rewrite rev_app_distr. cbn [rev app is_prefix]. rewrite Ascii.eqb_refl.
  rewrite <-(length_explode (s +:+ "/")), explode_app, length_app.
  replace (List.length (explode s) + List.length (explode "/") - String.length "/")%nat
    with (List.length (explode s)) by (cbn; lia).
  by rewrite take_app_length, implode_explode.
Qed.
Lemma TrimSuffix_id s x : x <> "" -> slash_free x -> TrimSuffix (s +:+ x) "/" = s +:+ x.
Proof.
  intros Hne Hx. unfold TrimSuffix, HasSuffix. rewrite explode_app. change (explode "/") with [slash].
  rewrite rev_app_distr. cbn [rev app]. destruct (explode x) as [|c l] eqn:E using rev_ind.
  - exfalso. apply Hne, explode_inj. by rewrite E.
  - rewrite rev_app_distr. cbn [rev app is_prefix]. destruct (Ascii.eqb_spec slash c) as [Ec|Ec]; [|done].
    exfalso. apply Hx. rewrite E, <-Ec. apply elem_of_app. right. by left.
Qed.

Lemma Join_last l x : Join (l ++ [x]) "/" = (match l with [] => "" | _ => Join l "/" +:+ "/" end) +:+ x.
Proof.
  destruct l as [|e l]; [done|]. rewrite Join_app by done. cbn [Join].
  apply explode_inj. rewrite !explode_app. by rewrite <-app_assoc.
Qed.
Lemma TrimSuffix_Join p l : l <> [] -> Forall (fun e => slash_free e /\ e <> "") l ->
  TrimSuffix (p +:+ Join l "/") "/" = p +:+ Join l "/".
Proof.
  intros Hne Hl. destruct (exists_last Hne) as (l' & x & ->). apply Forall_app in Hl as [_ Hx].
  apply Forall_cons in Hx as [[Hf Hx] _]. rewrite Join_last.
  assert (E : forall u : string, p +:+ u +:+ x = (p +:+ u) +:+ x)
    by (intros u; apply explode_inj; rewrite !explode_app; by rewrite <-app_assoc).
  rewrite E. by apply TrimSuffix_id.
Qed.

(** ** What a local path is *)

Section PathSpec.
Variable ToLower : string -> string.
(** The Unicode case map has no slash in its image but for the slash, and
    maps no text to nothing. *)
Hypothesis ToLower_slash : forall s, slash_free s -> slash_free (ToLower s).
Hypothesis ToLower_nonempty : forall s, s <> "" -> ToLower s <> "".

Definition path_elements (s : string) : list string := clean_parts [] (Split s slash).

(** The absolute path a workspace denotes, as its elements: none for the
    empty root, two empty ones for a network root, the drive itself. *)
Definition local_path (value : string) : option (list string) :=
  let n := ReplaceByte (TrimSpace value) backslash slash in
  if drive_absolute n then Some (map ToLower (path_elements n))
  else if HasPrefix n "//" then Some ([""; ""] ++ map ToLower (path_elements n))
  else if HasPrefix n "/" then Some ([""] ++ path_elements n)
  else None.

Definition segment (e : string) : Prop := slash_free e /\ e <> "".
Lemma path_elements_ok s : Forall segment (path_elements s).
Proof.
  eapply Forall_impl; [apply clean_parts_proper; [constructor|apply Split_elements]|].
  intros e (H1 & H2 & _). by split.
Qed.
Lemma lowered_ok l : Forall segment l -> Forall segment (map ToLower l).
Proof. intros H. apply Forall_map. eapply Forall_impl; [exact H|]. intros e [H1 H2]. split; auto. Qed.

(** The normal form is the join of that path. *)
Lemma normalize_spec value :
  normalizeAbsoluteWorkspacePath ToLower value =
    match local_path value with
    | None => NotLocal
    | Some [] => IndexPanic
    | Some l => Normalized (Join l "/")
    end.
Proof.
  unfold normalizeAbsoluteWorkspacePath, local_path. cbn zeta.
  set (n := ReplaceByte (TrimSpace value) backslash slash).
  pose proof (path_elements_ok n) as Hok. fold (path_elements n). set (es := path_elements n) in *.
  destruct (drive_absolute n) eqn:Hd; cbn [negb andb orb].
  - rewrite andb_false_r. cbn [andb]. destruct es as [|e es]; [done|]. cbn [map].
    apply lowered_ok in Hok. cbn [map] in Hok. apply Forall_cons in Hok as [He Hes].
    destruct es as [|e2 es].
    + cbn [map Join]. replace ((ToLower e +:+ "/") +:+ "") with (ToLower e +:+ "/"); [by rewrite TrimSuffix_slash|].
      apply explode_inj. by rewrite !explode_app, app_nil_r.
    + rewrite TrimSuffix_Join by done. f_equal. rewrite (Join_cons (ToLower e)) by done.
      apply explode_inj. rewrite !explode_app. by rewrite <-app_assoc.
  - destruct (HasPrefix n "//") eqn:Hu.
    + rewrite andb_false_r. cbn [negb andb]. apply lowered_ok in Hok.
      destruct (map ToLower es) as [|e l] eqn:El; [reflexivity|].
      rewrite TrimSuffix_Join by done. cbn [app]. f_equal.
    + destruct (HasPrefix n "/"); [|done]. cbn [negb andb].
      destruct es as [|e l] eqn:El; [reflexivity|]. rewrite TrimSuffix_Join by done. reflexivity.
Qed.

Lemma local_path_free value l : local_path value = Some l -> Forall slash_free l.
Proof.
  assert (Hseg : forall k, Forall segment k -> Forall slash_free k)
    by (intros k H; eapply Forall_impl; [exact H|]; by intros e [? _]).
  assert (Hempty : slash_free "") by apply not_elem_of_nil.
  unfold local_path. cbn zeta. intros H. ok_inv H.
  - apply Hseg, lowered_ok, path_elements_ok.
  - cbn [app]. constructor; [done|]. constructor; [done|]. apply Hseg, lowered_ok, path_elements_ok.
  - cbn [app]. constructor; [done|]. apply Hseg, path_elements_ok.
Qed.
Lemma local_path_trim value : local_path (TrimSpace value) = local_path value.
Proof. unfold local_path. by rewrite TrimSpace_idemp. Qed.

(** How path [b] relates to path [a]. *)
Definition path_relation (a b : list string) : string :=
  if decide (a = b) then WorkspaceRelationshipExact
  else if decide (a `prefix_of` b) then WorkspaceRelationshipDescendant
  else if decide (b `prefix_of` a) then WorkspaceRelationshipAncestor
  else WorkspaceRelationshipConflict.

Lemma Join_prefix_of a b : a <> [] -> b <> [] -> Forall slash_free a -> Forall slash_free b -> a <> b ->
  HasPrefix (Join b "/") (Join a "/" +:+ "/") = bool_decide (a `prefix_of` b).
Proof.
  intros Ha Hb Fa Fb Hne. apply eq_true_iff_eq. rewrite Join_prefix, bool_decide_eq_true by done. split.
  - intros (c & _ & ->). by exists c.
  - intros [c ->]. exists c. split; [|done]. intros ->. by rewrite app_nil_r in Hne.
Qed.

Lemma joined_relation a b : a <> [] -> b <> [] -> Forall slash_free a -> Forall slash_free b ->
  (if Join a "/" =?s Join b "/" then WorkspaceRelationshipExact
   else if HasPrefix (Join b "/") (Join a "/" +:+ "/") then WorkspaceRelationshipDescendant
   else if HasPrefix (Join a "/") (Join b "/" +:+ "/") then WorkspaceRelationshipAncestor
   else WorkspaceRelationshipConflict) = path_relation a b.
Proof.
  intros Ha Hb Fa Fb. unfold path_relation. destruct (decide (a = b)) as [->|Hne]; [by rewrite String.eqb_refl|].
  destruct (String.eqb_spec (Join a "/") (Join b "/")) as [E|_]; [by apply Join_inj in E|].
  rewrite (Join_prefix_of a b), (Join_prefix_of b a) by done.
  repeat case_decide; repeat case_bool_decide; done.
Qed.

(** The same relation seen from the other side. *)
Definition converse (r : string) : string :=
  if r =?s WorkspaceRelationshipDescendant then WorkspaceRelationshipAncestor
  else if r =?s WorkspaceRelationshipAncestor then WorkspaceRelationshipDescendant
  else r.
Lemma path_relation_converse a b : path_relation b a = converse (path_relation a b).
Proof.
  unfold path_relation. destruct (decide (a = b)) as [->|Hne]; [by rewrite decide_True|].
  rewrite (decide_False (P := b = a)) by done.
  destruct (decide (a `prefix_of` b)) as [Hab|], (decide (b `prefix_of` a)) as [Hba|]; try done.
  destruct Hne. by apply (anti_symm prefix).
Qed.

(** The relationship of two workspaces is that of the paths they denote,
    not of their spelling: for two local paths, however written (repeated
    slashes, dot elements, backslashes, letter case on drives and network
    shares), it is exact, descendant or ancestor exactly when the element
    lists are equal or one extends the other, so [/a] is no ancestor of
    [/ab]; other workspaces are compared as text, a blank one is unknown, and
    swapping the two sides swaps descendant and ancestor.  The
    classification does not return exactly when a side is a drive path whose
    elements were all removed by parent references. *)
Theorem workspace_relationship_exact c e :
  ClassifyWorkspaceRelationship ToLower c e =
    (if (TrimSpace c =?s "") || (TrimSpace e =?s "") then Some WorkspaceRelationshipUnknown
     else match local_path c, local_path e with
          | Some [], _ => None
          | _, Some [] => None
          | Some a, Some b => Some (path_relation a b)
          | _, _ => Some (if TrimSpace c =?s TrimSpace e then WorkspaceRelationshipExact
                          else WorkspaceRelationshipConflict)
          end) /\
  ClassifyWorkspaceRelationship ToLower e c = option_map converse (ClassifyWorkspaceRelationship ToLower c e).
Proof.
  assert (Hmain : forall c e, ClassifyWorkspaceRelationship ToLower c e =
    (if (TrimSpace c =?s "") || (TrimSpace e =?s "") then Some WorkspaceRelationshipUnknown
     else match local_path c, local_path e with
          | Some [], _ => None
          | _, Some [] => None
          | Some a, Some b => Some (path_relation a b)
          | _, _ => Some (if TrimSpace c =?s TrimSpace e then WorkspaceRelationshipExact
                          else WorkspaceRelationshipConflict)
          end)).
  { clear c e. intros c e. unfold ClassifyWorkspaceRelationship. cbn zeta. destruct (_ || _); [done|].
    rewrite !normalize_spec, !local_path_trim.
    destruct (local_path c) as [a|] eqn:Ea, (local_path e) as [b|] eqn:Eb; [|by destruct a|by destruct b|done].
    destruct a as [|x a]; [done|]. destruct b as [|y b]; [done|].
    apply local_path_free in Ea, Eb. by rewrite (joined_relation (x :: a) (y :: b)). }
  split; [apply Hmain|]. rewrite !Hmain, (orb_comm (TrimSpace e =?s "")).
  destruct (_ || _); [done|].
  rewrite (String.eqb_sym (TrimSpace e)).
  destruct (local_path c) as [[|x a]|], (local_path e) as [[|y b]|]; cbn [option_map]; try reflexivity;
    [by rewrite path_relation_converse|by destruct (_ =?s _)..].
Qed.
End PathSpec.

Lemma ToLower_slash_free s : slash_free s -> slash_free (ToLower s).
Proof.
  unfold slash_free, ToLower. rewrite explode_implode. intros H (c & Hc & Hin)%list_elem_of_fmap.
  unfold lower_chr in Hc. destruct (in_range 65 90 (byte_val c)) eqn:E; [|by subst].
  apply (f_equal byte_val) in Hc. unfold in_range in E. breflect.
  rewrite byte_val_chr in Hc by lia. change (byte_val slash) with 47 in Hc. lia.
Qed.
Lemma ToLower_not_empty s : s <> "" -> ToLower s <> "".
Proof. by destruct s. Qed.

Lemma workspace_relationship_exact_witness :
  ClassifyWorkspaceRelationship ToLower "C:\Work\repo" "c:/work//repo/./sub/x/.." = Some WorkspaceRelationshipDescendant /\
  ClassifyWorkspaceRelationship ToLower "/a" "/ab" = Some WorkspaceRelationshipConflict.
Proof.
  destruct (workspace_relationship_exact ToLower ToLower_slash_free ToLower_not_empty
    "C:\Work\repo" "c:/work//repo/./sub/x/..") as [H1 _].
  destruct (workspace_relationship_exact ToLower ToLower_slash_free ToLower_not_empty "/a" "/ab") as [H2 _].
  rewrite H1, H2. vm_compute. split; reflexivity.
Defined.

(** ** Ancestors *)

(** The absolute path of some elements. *)
Definition rooted (l : list string) : string := "/" +:+ Join l "/".

Lemma clean_parts_app stack l k : Forall proper_element l ->
  clean_parts stack (l ++ k) = clean_parts (rev l ++ stack) k.
Proof.
  intros Hl. revert stack. induction Hl as [|e l (Hs & H1 & H2 & H3) Hl IH]; intros stack; [done|].
  cbn [app clean_parts]. apply String.eqb_neq in H1, H2, H3. rewrite H1, H2, H3. cbn [orb].
  rewrite IH. cbn [rev]. by rewrite <-app_assoc.
Qed.

Lemma Clean_rooted p : HasPrefix p "/" = true -> Clean p = rooted (path_elements p).
Proof.
  intros Hp. unfold Clean. rewrite Hp. unfold rooted, path_elements.
  by rewrite clean_elems_rooted by (constructor || apply Split_elements).
Qed.

Lemma proper_free l : Forall proper_element l -> Forall slash_free l.
Proof. intros H. eapply Forall_impl; [exact H|]. by intros e [? _]. Qed.
Lemma rooted_prefix l : HasPrefix (rooted l) "/" = true.
Proof. unfold HasPrefix, rooted. rewrite explode_app. apply is_prefix_spec. by eexists. Qed.

(** The text before the last element of a path. *)
Definition parent_text (l : list string) : string := match l with [] => "" | _ => rooted l end.

Lemma rooted_snoc l x : rooted (l ++ [x]) = parent_text l +:+ "/" +:+ x.
Proof.
  unfold rooted. rewrite Join_last. destruct l as [|e l]; [done|]. unfold parent_text, rooted.
  apply explode_inj. rewrite !explode_app. by rewrite <-!app_assoc.
Qed.

Lemma last_index_absent c l i : c ∉ l -> last_index_go [c] l i = -1.
Proof.
  revert i. induction l as [|a l IH]; intros i H; [done|].
  apply not_elem_of_cons in H as [Ha Hl]. rewrite last_index_skip; [by apply IH|].
  cbn [is_prefix]. by destruct (Ascii.eqb_spec c a).
Qed.
Lemma last_slash s x : slash_free x -> LastIndex (s +:+ "/" +:+ x) "/" = llen (explode s).
Proof.
  intros Hx. unfold LastIndex. rewrite !explode_app. change (explode "/") with [slash].
  apply last_index_app; [|unfold llen; lia]. rewrite Z.add_0_l. cbn [app].
  apply last_index_here; [cbn [is_prefix]; by rewrite Ascii.eqb_refl|].
  by apply last_index_absent.
Qed.

(** [path.Dir] drops the last element of a clean path. *)
Lemma Dir_snoc l x : Forall proper_element l -> slash_free x -> Dir (rooted (l ++ [x])) = rooted l.
Proof.
  intros Hl Hx. rewrite rooted_snoc. unfold Dir. rewrite last_slash by done.
  replace (Z.to_nat (llen (explode (parent_text l)) + 1)) with (List.length (explode (parent_text l) ++ [slash]))
    by (rewrite length_app; unfold llen; cbn; lia).
  rewrite !explode_app. change (explode "/") with [slash]. rewrite app_assoc, take_app_length.
  replace (implode (explode (parent_text l) ++ [slash])) with (parent_text l +:+ "/")
    by (apply explode_inj; by rewrite explode_app, explode_implode).
  assert (Hp : HasPrefix (parent_text l +:+ "/") "/" = true).
  { unfold HasPrefix. rewrite explode_app. destruct l as [|e l]; [done|].
    apply is_prefix_app. exact (rooted_prefix (e :: l)). }
  rewrite Clean_rooted by done. f_equal. unfold path_elements.
  destruct l as [|e l]; [done|]. unfold parent_text, rooted.
  replace (("/" +:+ Join (e :: l) "/") +:+ "/") with ("" +:+ "/" +:+ Join (e :: l) "/" +:+ "/" +:+ "")
    by (apply explode_inj; rewrite !explode_app; by rewrite <-!app_assoc, app_nil_r).
  rewrite !Split_app, Split_Join by (done || by apply proper_free). change (Split "" slash) with [""].
  change (clean_parts [] ((e :: l) ++ [""]) = e :: l). rewrite clean_parts_app by done.
  change (clean_parts (rev (e :: l) ++ []) [""]) with (rev (rev (e :: l) ++ [])).
  by rewrite app_nil_r, rev_involutive.
Qed.

Lemma rooted_eq_root l : Forall proper_element l -> rooted l =?s "/" = bool_decide (l = []).
Proof.
  intros Hl. destruct Hl as [|e l (_ & He & _) _]; [done|].
  rewrite bool_decide_eq_false_2 by done. apply String.eqb_neq. unfold rooted.
  intros H%(f_equal explode). rewrite explode_app in H. injection H as H.
  destruct l as [|e2 l]; cbn [Join] in H.
  - by apply He, explode_inj.
  - rewrite explode_app in H. apply app_eq_nil in H as [H _]. by apply He, explode_inj.
Qed.
Lemma rooted_length l : Forall proper_element l -> (List.length l <= String.length (rooted l))%nat.
Proof.
  intros Hl. unfold rooted. rewrite <-length_explode, explode_app, length_app.
  change (List.length (explode "/")) with 1%nat.
  induction Hl as [|e l (_ & He & _) _ IH]; [cbn; lia|].
  assert (Hpos : (1 <= List.length (explode e))%nat).
  { destruct (explode e) eqn:E; [|cbn; lia]. by apply (explode_inj e "") in E. }
  destruct l as [|e2 l]; [cbn [Join List.length]; lia|].
  rewrite Join_cons by done. rewrite !explode_app, !length_app.
  change (List.length (explode "/")) with 1%nat. cbn [List.length] in *. lia.
Qed.

(** The proper prefixes of a path, nearest first. *)
Definition ancestor_paths (l : list string) : list (list string) :=
  map (fun i => take i l) (rev (seq 0 (List.length l))).
Lemma ancestor_paths_snoc l x : ancestor_paths (l ++ [x]) = l :: ancestor_paths l.
Proof.
  unfold ancestor_paths. rewrite length_app. cbn [List.length]. rewrite Nat.add_1_r, seq_S, rev_app_distr.
  cbn [rev app map Nat.add]. rewrite take_app_length. f_equal.
  apply map_ext_in. intros i Hi%in_rev%in_seq. apply take_app_le. lia.
Qed.

Lemma rooted_shorter l x : proper_element x -> rooted l =?s rooted (l ++ [x]) = false.
Proof.
  intros (_ & Hx & _). apply String.eqb_neq. rewrite rooted_snoc. intros H%(f_equal slen).
  rewrite !slen_app in H. change (slen "/") with 1 in H.
  assert (0 < slen x) by (pose proof (slen_nonneg x); destruct (Z.eq_dec (slen x) 0) as [E|]; [by apply slen_0 in E|lia]).
  destruct l as [|e l]; cbn [parent_text] in H.
  - change (slen (rooted [])) with 1 in H. change (slen "") with 0 in H. lia.
  - lia.
Qed.

Lemma ancestor_loop_spec l fuel : Forall proper_element l -> l <> [] -> (List.length l <= fuel)%nat ->
  ancestor_loop fuel (rooted l) = map rooted (ancestor_paths l).
Proof.
  revert fuel. induction l as [|x l IH] using rev_ind; intros fuel Hl Hne Hf; [done|].
  rewrite length_app in Hf. cbn [List.length] in Hf. destruct fuel as [|f]; [lia|]. cbn [ancestor_loop].
  apply Forall_app in Hl as [Hl Hx]. apply Forall_cons in Hx as [Hx _].
  rewrite Dir_snoc by (done || apply Hx). rewrite rooted_shorter by done.
  rewrite ancestor_paths_snoc. cbn [map]. f_equal. rewrite rooted_eq_root by done.
  case_bool_decide as E; [by subst|]. apply IH; [done|done|lia].
Qed.

(** The spelling of a Windows ancestor. *)
Definition windows_path (volume separator : string) (l : list string) : string :=
  let p := volume +:+ rooted l in
  if separator =?s "\" then ReplaceByte p slash backslash else p.

Lemma windows_loop_spec volume separator l fuel :
  Forall proper_element l -> l <> [] -> (List.length l <= fuel)%nat ->
  windows_loop fuel volume separator (rooted l) = map (windows_path volume separator) (ancestor_paths l).
Proof.
  revert fuel. induction l as [|x l IH] using rev_ind; intros fuel Hl Hne Hf; [done|].
  rewrite length_app in Hf. cbn [List.length] in Hf. destruct fuel as [|f]; [lia|]. cbn [windows_loop].
  apply Forall_app in Hl as [Hl Hx]. apply Forall_cons in Hx as [Hx _].
  rewrite Dir_snoc by (done || apply Hx). rewrite ancestor_paths_snoc. cbn [map].
  change (if separator =?s "\" then ReplaceByte (volume +:+ rooted l) slash backslash
          else volume +:+ rooted l) with (windows_path volume separator l). f_equal.
  rewrite rooted_eq_root by done. case_bool_decide as E; [by subst|]. apply IH; [done|done|lia].
Qed.

Lemma path_elements_proper s : Forall proper_element (path_elements s).
Proof. apply clean_parts_proper; [constructor|apply Split_elements]. Qed.

(** The path after the drive starts with a slash once separators are slashes. *)
Lemma drive_rest w : isWindowsDriveAbsolute w = true ->
  HasPrefix (slice_from (ReplaceByte w backslash slash) 2) "/" = true.
Proof.
  unfold isWindowsDriveAbsolute, slice_from, ReplaceByte, HasPrefix. rewrite !explode_implode.
  destruct (explode w) as [|d [|c [|s t]]]; try done. intros [_ Hs]%andb_true_iff.
  unfold isPathSeparator in Hs. cbn [map Z.to_nat Pos.to_nat Pos.iter_op Nat.add drop].
  change (drop (Z.to_nat 2) _) with
    ((if Ascii.eqb s backslash then slash else s) :: map (fun c => if Ascii.eqb c backslash then slash else c) t).
  cbn [is_prefix explode list_ascii_of_string]. change "/"%char with slash.
  apply orb_true_iff in Hs as [->%Ascii.eqb_eq| ->]; by rewrite ?Ascii.eqb_refl.
Qed.

(** The separator of a Windows path is the one after its drive. *)
Definition drive_separator (w : string) : string :=
  match explode w with
  | _ :: _ :: c :: _ => if Ascii.eqb c backslash then "\" else "/" | _ => "/" end.

(** The fallback of a workspace lookup climbs the path it was given: the
    ancestors of a local path are exactly the proper prefixes of its elements
    (dot elements and repeated separators removed), nearest first and down to
    the root, spelled with the drive and the separator of the path; so there
    are as many as elements, and a workspace that is no local path -- a remote
    repository -- has none. *)
Theorem workspace_ancestors_exact w :
  AncestorWorkspaces w =
    if negb (IsLocalPath w) then []
    else if isWindowsDriveAbsolute w then
      let n := ReplaceByte w backslash slash in
      map (windows_path (slice_to n 2) (drive_separator w)) (ancestor_paths (path_elements (slice_from n 2)))
    else map rooted (ancestor_paths (path_elements w)).
Proof.
  unfold AncestorWorkspaces. destruct (IsLocalPath w) eqn:Hl; [|done]. cbn [negb].
  destruct (isWindowsDriveAbsolute w) eqn:Hw.
  - unfold windowsDriveAncestorWorkspaces. fold (drive_separator w). cbn zeta.
    rewrite Clean_rooted by (by apply drive_rest).
    set (l := path_elements _). assert (Hp : Forall proper_element l) by apply path_elements_proper.
    change (rooted l =?s ".") with false. cbn iota. rewrite rooted_eq_root by done.
    case_bool_decide as E; [by rewrite E|]. apply windows_loop_spec; [done|done|by apply rooted_length].
  - unfold IsLocalPath in Hl. rewrite Hw, orb_false_r in Hl. cbn zeta. rewrite Clean_rooted by done.
    set (l := path_elements _). assert (Hp : Forall proper_element l) by apply path_elements_proper.
    change (rooted l =?s ".") with false. rewrite orb_false_r, rooted_eq_root by done.
    case_bool_decide as E; [by rewrite E|]. apply ancestor_loop_spec; [done|done|by apply rooted_length].
Qed.
