(* ===== verification/Interleaving.v ===== *)
(** * Programs that share a store

    A use case is a sequence of calls to its repositories; each call is one
    statement or transaction of the store, atomic with respect to the other
    processes that use it, and may fail before or after it took effect.  A
    program is the tree of its calls, branching on what they answer, so that a
    method of a use case reads as its source does.  Programs run interleaved
    with each other and with an environment; a proof about one of them
    assumes a relation that the others' steps keep, and shows that its own
    steps keep it too. *)

From S2P Require Import Prelude.

Section Programs.
Context {S : Type} {Op : Type -> Type}.

Inductive prog (A : Type) : Type :=
| Ret (a : A)
| Do {B : Type} (op : Op B) (k : result B -> prog A).
Arguments Ret {A} a.
Arguments Do {A B} op k.

Fixpoint bind {A B} (p : prog A) (f : A -> prog B) : prog B :=
  match p with
  | Ret a => f a
  | Do op k => Do op (fun r => bind (k r) f)
  end.

(** [v, err := call(); if err != nil { return wrapped }]. *)
Definition call {A B} (op : Op B) (failed : error -> A) (k : B -> prog A) : prog A :=
  Do op (fun r => match r with Ok b => k b | Err e => Ret (failed e) end).

Context (run : forall B, Op B -> S -> result B * S).
Arguments run {B} _ _.

(** How a call may answer: as the store does; with an error, without effect;
    or with an error although its effect is in the store. *)
Inductive answer {B} (op : Op B) (s : S) : result B -> S -> Prop :=
| answer_done : answer op s (fst (run op s)) (snd (run op s))
| answer_refused e : answer op s (Err e) s
| answer_lost e : answer op s (Err e) (snd (run op s)).

(** A program alone, with a store that does not fail. *)
Fixpoint alone {A} (p : prog A) (s : S) : A * S :=
  match p with
  | Ret a => (a, s)
  | Do op k => alone (k (fst (run op s))) (snd (run op s))
  end.

Lemma alone_call {A B} (op : Op B) (failed : error -> A) (k : B -> prog A) s :
  alone (call op failed k) s =
  match fst (run op s) with Ok b => alone (k b) (snd (run op s)) | Err e => (failed e, snd (run op s)) end.
Proof. unfold call. cbn [alone]. by destruct (fst (run op s)). Qed.
Lemma alone_bind {A B} (p : prog A) (f : A -> prog B) s :
  alone (bind p f) s = alone (f (fst (alone p s))) (snd (alone p s)).
Proof. revert s. induction p as [a|C op k IH]; intros s; [done|]. apply IH. Qed.

(** The first [n] calls of a program, answered as the store does: a process
    that is interrupted, or dies, after them. *)
Fixpoint steps {A} (n : nat) (p : prog A) (s : S) : prog A * S :=
  match n, p with
  | Datatypes.S n, Do op k => steps n (k (fst (run op s))) (snd (run op s))
  | _, _ => (p, s)
  end.

(** ** Interleaving *)

Section Pool.
Context {A : Type} (env : S -> S -> Prop).

Inductive pool_step : S * list (prog A) -> S * list (prog A) -> Prop :=
| pool_call s ps i B (op : Op B) k r s' :
    ps !! i = Some (Do op k) -> answer op s r s' -> pool_step (s, ps) (s', <[i := k r]> ps)
| pool_env s ps s' : env s s' -> pool_step (s, ps) (s', ps).

(** A thread that runs to its end while the others wait. *)
Lemma alone_star p s ps i : ps !! i = Some p ->
  star pool_step (s, ps) (snd (alone p s), <[i := Ret (fst (alone p s))]> ps).
Proof.
  revert s ps. induction p as [a|B op k IH]; intros s ps Hi; cbn [alone].
  - rewrite list_insert_id by done. constructor.
  - eapply star_step; [apply (pool_call s ps i B op k (fst (run op s)) (snd (run op s)) Hi), answer_done|].
    pose proof (IH (fst (run op s)) (snd (run op s)) (<[i := k (fst (run op s))]> ps)) as H.
    rewrite list_lookup_insert_eq in H by (by eapply lookup_lt_Some). rewrite list_insert_insert_eq in H. by apply H.
Qed.
Lemma steps_star n p s ps i : ps !! i = Some p ->
  star pool_step (s, ps) (snd (steps n p s), <[i := fst (steps n p s)]> ps).
Proof.
  revert p s ps. induction n as [|n IH]; intros p s ps Hi; [cbn; rewrite list_insert_id by done; constructor|].
  destruct p as [a|B op k]; cbn [steps]; [rewrite list_insert_id by done; constructor|].
  eapply star_step; [apply (pool_call s ps i B op k (fst (run op s)) (snd (run op s)) Hi), answer_done|].
  pose proof (IH (k (fst (run op s))) (snd (run op s)) (<[i := k (fst (run op s))]> ps)) as H.
  rewrite list_lookup_insert_eq in H by (by eapply lookup_lt_Some). rewrite list_insert_insert_eq in H. by apply H.
Qed.
End Pool.

(** ** Rely and guarantee *)

Section Rely.
Context (R G : S -> S -> Prop).

(** From [s] on, whatever the others do within [R], the steps of the program
    are within [G], and when it returns [a] in [s'], [Q a s'] holds. *)
Fixpoint secures {A} (p : prog A) (Q : A -> S -> Prop) (s : S) : Prop :=
  match p with
  | Ret a => forall s', R s s' -> Q a s'
  | Do op k => forall s' r s'', R s s' -> answer op s' r s'' -> G s' s'' /\ secures (k r) Q s''
  end.

Context (R_refl : forall s, R s s) (R_trans : forall s t u, R s t -> R t u -> R s u).

Lemma secures_later {A} (p : prog A) Q s t : R s t -> secures p Q s -> secures p Q t.
Proof using R_trans.
  destruct p as [a|B op k]; cbn; intros Hst H.
  - intros s' Hs'. apply H. by eapply R_trans.
  - intros s' r s'' Hs' Ha. apply (H s'); [by eapply R_trans|done].
Qed.

Lemma secures_weaken {A} (p : prog A) (Q Q' : A -> S -> Prop) s :
  (forall a t, Q a t -> Q' a t) -> secures p Q s -> secures p Q' s.
Proof.
  intros HQ. revert s. induction p as [a|B op k IH]; cbn; intros s H; [by eauto|].
  intros s' r s'' Hs' Ha. destruct (H s' r s'' Hs' Ha) as [? ?]. eauto.
Qed.

Lemma secures_reaches {A} (p : prog A) (Q : A -> S -> Prop) s : (forall t u, G t u -> R t u) ->
  secures p Q s -> secures p (fun a t => R s t /\ Q a t) s.
Proof using R_trans.
  intros HG. revert s. induction p as [a|B op k IH]; cbn; intros s H; [by eauto|].
  intros s' r s'' Hs' Ha. destruct (H s' r s'' Hs' Ha) as [Hg Hk]. split; [done|].
  apply (secures_weaken _ (fun a t => R s'' t /\ Q a t)); [|by apply IH]. intros a t [Ht HQ]. split; [|done].
  eapply R_trans; [exact Hs'|]. eapply R_trans; [by apply HG|done].
Qed.

Lemma secures_bind {A B} (p : prog A) (f : A -> prog B) Q s :
  secures p (fun a t => secures (f a) Q t) s -> secures (bind p f) Q s.
Proof using R_refl.
  revert s. induction p as [a|C op k IH]; cbn; intros s H; [by apply H|].
  intros s' r s'' Hs' Ha. destruct (H s' r s'' Hs' Ha) as [? ?]. eauto.
Qed.

Lemma secures_call {A B} (op : Op B) failed (k : B -> prog A) Q s :
  (forall s' r s'', R s s' -> answer op s' r s'' ->
     G s' s'' /\ match r with Ok b => secures (k b) Q s'' | Err e => forall t, R s'' t -> Q (failed e) t end) ->
  secures (call op failed k) Q s.
Proof. intros H. cbn. intros s' r s'' Hs' Ha. destruct (H s' r s'' Hs' Ha) as [? ?]. split; [done|]. by destruct r. Qed.

(** The steps of every thread and of the environment stay within what the
    others rely on, so each thread keeps what it secures. *)
Lemma pool_secures {A} (env : S -> S -> Prop) (Q : nat -> A -> S -> Prop) s ps s' ps' :
  (forall t u, G t u -> R t u) -> (forall t u, env t u -> R t u) ->
  star (pool_step env) (s, ps) (s', ps') ->
  (forall i p, ps !! i = Some p -> secures p (Q i) s) ->
  R s s' /\ forall i p, ps' !! i = Some p -> secures p (Q i) s'.
Proof using R_refl R_trans.
  intros HG Henv Hstar. remember (s, ps) as w eqn:E. remember (s', ps') as w' eqn:E'. revert s ps E.
  induction Hstar as [w|w w1 w2 Hstep _ IH]; intros s ps E Hps.
  - rewrite E in E'. injection E' as <- <-. by split.
  - destruct Hstep as [s0 ps0 i B op k r s1 Hi Ha|s0 ps0 s1 He]; injection E as <- <-.
    + destruct (Hps i _ Hi s0 r s1 (R_refl s0) Ha) as [Hg Hk]. pose proof (HG _ _ Hg) as Hr.
      destruct (IH E' s1 _ eq_refl) as [Hr' Hps'].
      { intros j p. destruct (decide (i = j)) as [<-|Hne].
        - rewrite list_lookup_insert_eq by (by eapply lookup_lt_Some). by intros [= <-].
        - rewrite list_lookup_insert_ne by done. intros Hj. eapply secures_later; [exact Hr|by apply Hps]. }
      split; [by eapply R_trans|done].
    + pose proof (Henv _ _ He) as Hr. destruct (IH E' s1 ps0 eq_refl) as [Hr' Hps'].
      { intros j p Hj. eapply secures_later; [exact Hr|by apply Hps]. }
      split; [by eapply R_trans|done].
Qed.

Lemma pool_outcome {A} (env : S -> S -> Prop) (Q : nat -> A -> S -> Prop) s ps s' ps' i a :
  (forall t u, G t u -> R t u) -> (forall t u, env t u -> R t u) ->
  star (pool_step env) (s, ps) (s', ps') ->
  (forall i p, ps !! i = Some p -> secures p (Q i) s) ->
  ps' !! i = Some (Ret a) -> Q i a s'.
Proof using R_refl R_trans.
  intros HG Henv Hstar Hps Hi. destruct (pool_secures env Q s ps s' ps' HG Henv Hstar Hps) as [_ H].
  apply (H i _ Hi s'). apply R_refl.
Qed.
End Rely.
End Programs.

Arguments Ret {Op A} a.
Arguments Do {Op A B} op k.
Arguments answer_done {S Op run B op s}.
