(* ===== verification/EventOrder.v ===== *)
(** * The order of events

    [src/infrastructure/sqlite/event_order_datasource.go] and its statements
    under [src/infrastructure/sqlite/sql]: the rows of [events] by primary
    key, and their canonical order, first the normalised timestamp and then
    the id.  [select_latest_event_id_for_session_by_norm] and
    [count_session_kind_after] read the stored column [created_at_norm], the
    others compute [ts_norm(created_at)].  Opening the database and the driver
    may fail; that is the business of the programs that make the calls
    ([Interleaving]). *)

From stdpp Require Import sets.
From S2P Require Import Prelude GoStrings Ordering GoTime GoTimeText SqliteText Labels.

Definition ErrInvalidSessionRefinement : error := Sentinel "invalid session refinement".

(** What the statements below read of a row. *)
Record EventRow := mkEventRow { ev_kind : string; ev_session : string; ev_body : string; ev_created_at : string }.
#[global] Instance EventRow_eq_dec : EqDecision EventRow.
Proof. solve_decision. Defined.
Notation Events := (gmap string EventRow).

Section Order.
Context (parse_layout : string -> result Time).
Let norm := ts_norm parse_layout.

(** [(ts_norm(created_at), id)]. *)
Definition event_key (e : string * EventRow) : string * string := (norm (ev_created_at (snd e)), fst e).
Definition key_cmp : string * string -> string * string -> comparison :=
  lex (fun a b => String.compare (fst a) (fst b)) (fun a b => String.compare (snd a) (snd b)).
(** [(created_at_norm, id)]. *)
Definition stored_key (e : string * EventRow) : string * string := (created_at_norm (ev_created_at (snd e)), fst e).

(** The rows of a session, in some order. *)
Definition session_events (evs : Events) (sid : string) : list (string * EventRow) :=
  List.filter (fun e => ev_session (snd e) =?s sid) (map_to_list evs).

Definition EarliestEventID (evs : Events) (sid : string) : result (option string) :=
  match least (fun a b => key_cmp (event_key a) (event_key b)) (session_events evs sid) with
  | None => Ok None
  | Some (id, _) =>
      let! eventID := wrap_err "invalid stored earliest event id: %w" (EventIDFrom id) in Ok (Some eventID)
  end.

Definition LatestEventID (evs : Events) (sid : string) : result (option string) :=
  match least (fun a b => key_cmp (stored_key b) (stored_key a)) (session_events evs sid) with
  | None => Ok None
  | Some (id, _) =>
      let! eventID := wrap_err "invalid stored latest event id: %w" (EventIDFrom id) in Ok (Some eventID)
  end.

Definition FindEventSessionID (evs : Events) (eventID : string) : result (option string) :=
  match evs !! eventID with
  | None => Ok None
  | Some row =>
      let! parsed := wrap_err "invalid stored event session id: %w" (SessionIDFrom (ev_session row)) in Ok (Some parsed)
  end.

(** The [CASE] of the statements: the first, and its mirror image, whose last
    comparison accepts equality. *)
Definition case_after (left right : string * EventRow) : Z :=
  match String.compare (norm (ev_created_at (snd left))) (norm (ev_created_at (snd right))) with
  | Gt => 1
  | Lt => 0
  | Eq => match String.compare (fst left) (fst right) with Gt => 1 | _ => 0 end
  end.
Definition case_not_after (left right : string * EventRow) : Z :=
  match String.compare (norm (ev_created_at (snd left))) (norm (ev_created_at (snd right))) with
  | Lt => 1
  | Gt => 0
  | Eq => match String.compare (fst left) (fst right) with Gt => 0 | _ => 1 end
  end.

Definition EventIsStrictlyAfter (evs : Events) (left right : string) : result bool :=
  match evs !! right, evs !! left with
  | Some right_event, Some left_event => Ok (case_after (left, left_event) (right, right_event) =? 1)
  | _, _ => Err (Wrap "cannot compare missing events %s and %s: %w" [left; right] ErrInvalidSessionRefinement)
  end.

(** [COALESCE(SUM(length(CAST(body AS BLOB))), 0)]; SQLite refuses a sum that
    leaves 64 bits. *)
Definition body_bytes (l : list (string * EventRow)) : Z :=
  fold_right (fun e n => slen (ev_body (snd e)) + n) 0 l.
Definition after_boundary (evs : Events) (sid boundary : string) : list (string * EventRow) :=
  match evs !! boundary with
  | None => []
  | Some row =>
      List.filter (fun e => match String.compare (norm (ev_created_at (snd e))) (norm (ev_created_at row)) with
                            | Gt => true
                            | Eq => match String.compare (fst e) boundary with Gt => true | _ => false end
                            | Lt => false
                            end) (session_events evs sid)
  end.
Definition SumBodyBytesAfter (evs : Events) (sid : string) (coversTo : option string) : result Z :=
  let total := body_bytes (match coversTo with
                           | Some boundary => after_boundary evs sid boundary
                           | None => session_events evs sid
                           end) in
  if MaxInt64 <? total then Err (Wrap "failed to sum session body bytes: %w" [] (Errorf "integer overflow" []))
  else Ok total.

Definition CountKindAfter (evs : Events) (sid kind : string) (after : option string) : result Z :=
  let of_kind := List.filter (fun e => ev_kind (snd e) =?s kind) (session_events evs sid) in
  match after with
  | None => Ok (llen of_kind)
  | Some boundary =>
      match evs !! boundary with
      | None => Ok 0
      | Some row =>
          Ok (llen (List.filter (fun e =>
            match String.compare (created_at_norm (ev_created_at (snd e))) (created_at_norm (ev_created_at row)) with
            | Gt => true
            | Eq => match String.compare (fst e) boundary with Gt => true | _ => false end
            | Lt => false
            end) of_kind))
      end
  end.
End Order.

(** ** A strict total order *)

Lemma ordering_key : ordering key_cmp.
Proof. apply ordering_lex; apply (ordering_on _ String.compare ordering_string). Qed.
Lemma key_cmp_eq k l : key_cmp k l = Eq -> k = l.
Proof.
  destruct k as [t i], l as [u j]. unfold key_cmp, lex. cbn. destruct (String.compare t u) eqn:E; [|done..].
  apply compare_eq_iff in E as ->. by intros ->%compare_eq_iff.
Qed.
#[export] Hint Resolve ordering_key ordering_on : traceary.

Section OrderFacts.
Context (parse_layout : string -> result Time).
Let key := event_key parse_layout.

Definition before (k l : string * string) : Prop := key_cmp k l = Lt.
Lemma before_trans k l m : before k l -> before l m -> before k m.
Proof. apply (ord_lt_trans _ ordering_key). Qed.
Lemma before_irrefl k : ~ before k k.
Proof. unfold before. by rewrite (ord_refl _ ordering_key). Qed.

Lemma case_after_spec l r : case_after parse_layout l r =? 1 = true <-> before (key r) (key l).
Proof using.
  unfold before, key, case_after, key_cmp, lex, event_key. cbn [fst snd].
  rewrite (ord_anti _ ordering_string (ts_norm _ (ev_created_at (snd l)))), (ord_anti _ ordering_string (fst l)).
  destruct (String.compare (ts_norm _ _) _), (String.compare (fst l) (fst r)); cbn; naive_solver.
Qed.
Lemma case_not_after_spec l r : case_not_after parse_layout l r =? 1 = true <-> ~ before (key r) (key l).
Proof.
  unfold before, key, case_not_after, key_cmp, lex, event_key. cbn [fst snd].
  rewrite (ord_anti _ ordering_string (ts_norm _ (ev_created_at (snd l)))), (ord_anti _ ordering_string (fst l)).
  destruct (String.compare (ts_norm _ _) _), (String.compare (fst l) (fst r)); cbn; naive_solver.
Qed.

Lemma strictly_after_true evs left right : EventIsStrictlyAfter parse_layout evs left right = Ok true ->
  exists l r, evs !! left = Some l /\ evs !! right = Some r /\ before (key (right, r)) (key (left, l)).
Proof.
  unfold EventIsStrictlyAfter. destruct (evs !! right) as [r|]; [|done]. destruct (evs !! left) as [l|]; [|done].
  intros [= H%case_after_spec]. eauto.
Qed.
Lemma strictly_after_ok evs left right b : EventIsStrictlyAfter parse_layout evs left right = Ok b ->
  exists l r, evs !! left = Some l /\ evs !! right = Some r /\ b = (case_after parse_layout (left, l) (right, r) =? 1).
Proof.
  unfold EventIsStrictlyAfter. destruct (evs !! right) as [r|]; [|done]. destruct (evs !! left) as [l|]; [|done].
  intros [= <-]. eauto.
Qed.

Lemma elem_of_session_events evs sid id row :
  (id, row) ∈ session_events evs sid <-> evs !! id = Some row /\ ev_session row = sid.
Proof.
  unfold session_events. rewrite list_elem_of_In, filter_In, <-list_elem_of_In, elem_of_map_to_list. cbn. by rewrite String.eqb_eq.
Qed.

(** ** The ends of a session *)

(** Ids that a reader keeps as they are. *)
Definition clean_id (id : string) : Prop := TrimSpace id = id /\ id <> "".
Lemma clean_EventIDFrom id : clean_id id -> EventIDFrom id = Ok id.
Proof. intros [H Hne]. unfold EventIDFrom. rewrite H. by apply String.eqb_neq in Hne as ->. Qed.
Lemma clean_SessionIDFrom id : clean_id id -> SessionIDFrom id = Ok id.
Proof. intros [H Hne]. unfold SessionIDFrom. rewrite H. by apply String.eqb_neq in Hne as ->. Qed.

(** Rows as the recorder writes them: clean ids, and the text of an instant. *)
Definition recorded (evs : Events) : Prop :=
  forall id row, evs !! id = Some row -> clean_id id /\ exists t, four_digits t /\ ev_created_at row = formatTimestamp t.

Lemma recorded_keys evs id row : recorded evs -> evs !! id = Some row -> stored_key (id, row) = key (id, row).
Proof.
  intros Hr Hid. destruct (Hr _ _ Hid) as (_ & t & Ht & E). unfold stored_key, key, event_key. cbn [snd fst]. rewrite E.
  destruct (timestamps_agree parse_layout t Ht) as [-> _]. done.
Qed.
End OrderFacts.


Lemma least_order {A} (c : A -> A -> comparison) l : ordering c ->
  (least c l = None <-> l = []) /\ forall x, least c l = Some x -> x ∈ l /\ forall y, y ∈ l -> c x y <> Gt.
Proof.
  intros Hc. pose proof (least_spec c Hc l) as H. destruct (least c l) as [m|]; split; try done.
  - split; [done|]. intros ->. destruct H as [H _]. by apply elem_of_nil in H.
  - by intros x [= <-].
Qed.

(** The first and the last event of a session, as its rows have them. *)
Definition bounds parse_layout (evs : Events) (sid first last : string) : Prop :=
  (exists r, evs !! first = Some r /\ ev_session r = sid) /\ (exists r, evs !! last = Some r /\ ev_session r = sid) /\
  forall id row, evs !! id = Some row -> ev_session row = sid ->
    EventIsStrictlyAfter parse_layout evs first id = Ok false /\ EventIsStrictlyAfter parse_layout evs id last = Ok false.

Lemma not_after parse_layout evs left right l r : evs !! left = Some l -> evs !! right = Some r ->
  key_cmp (event_key parse_layout (left, l)) (event_key parse_layout (right, r)) <> Gt ->
  EventIsStrictlyAfter parse_layout evs left right = Ok false.
Proof.
  intros Hl Hr H. unfold EventIsStrictlyAfter. rewrite Hl, Hr. f_equal. apply not_true_iff_false. intros H'%case_after_spec.
  apply H. by apply (ord_gt_lt _ ordering_key).
Qed.

(** The ends of a session: for rows as the recorder writes them, the
    earliest event of a session, by the computed order, and the latest, by the
    stored column, are events of the session; no event of it is before the
    one or after the other; and there are none exactly when the session has no
    events. *)
Theorem session_bounds_exact parse_layout evs sid : recorded evs ->
  match EarliestEventID parse_layout evs sid, LatestEventID evs sid with
  | Ok None, Ok None => session_events evs sid = []
  | Ok (Some first), Ok (Some last) => bounds parse_layout evs sid first last
  | _, _ => False
  end.
Proof.
  intros Hr. unfold EarliestEventID, LatestEventID.
  destruct (least_order (fun a b => key_cmp (event_key parse_layout a) (event_key parse_layout b)) (session_events evs sid)) as [N1 S1].
  { apply (ordering_on _ key_cmp ordering_key). }
  destruct (least_order (fun a b => key_cmp (stored_key b) (stored_key a)) (session_events evs sid)) as [N2 S2].
  { apply ordering_converse, (ordering_on _ key_cmp ordering_key). }
  destruct (least _ _) as [[first r1]|]; [|destruct (least _ _) as [x|]; [|by apply N1]].
  2: { destruct (S2 x eq_refl) as [Hx _]. rewrite (proj1 N1 eq_refl) in Hx. by apply elem_of_nil in Hx. }
  destruct (S1 _ eq_refl) as [[H1 E1]%elem_of_session_events L1].
  destruct (least _ _) as [[last r2]|].
  2: { destruct (elem_of_nil (first, r1)) as [Hn _]. exfalso. apply Hn. rewrite <-(proj1 N2 eq_refl). by apply elem_of_session_events. }
  destruct (S2 _ eq_refl) as [[H2 E2]%elem_of_session_events L2].
  rewrite !clean_EventIDFrom by (by eapply Hr). cbn. split_and!; [by eauto..|]. intros id row Hid Hs.
  assert (Hin : (id, row) ∈ session_events evs sid) by (by apply elem_of_session_events).
  split; (eapply not_after; [done..|]); [by apply L1|]. specialize (L2 _ Hin).
  by rewrite !(recorded_keys parse_layout evs) in L2.
Qed.

(** ** Pressure *)

Lemma body_bytes_nonneg l : 0 <= body_bytes l.
Proof. induction l as [|e l IH]; cbn [body_bytes fold_right]; [done|]. pose proof (slen_nonneg (ev_body (snd e))). unfold body_bytes in IH. lia. Qed.
Lemma body_bytes_filter f g l : (forall e, f e = true -> g e = true) ->
  body_bytes (List.filter f l) <= body_bytes (List.filter g l) /\
  forall e, e ∈ l -> f e = false -> g e = true ->
    body_bytes (List.filter f l) + slen (ev_body (snd e)) <= body_bytes (List.filter g l).
Proof.
  intros Hfg. induction l as [|x l [IH1 IH2]]; [split; [done|]; by intros e Hin%elem_of_nil|].
  pose proof (slen_nonneg (ev_body (snd x))) as Hx. cbn [List.filter].
  assert (Hc : forall k, body_bytes (x :: k) = slen (ev_body (snd x)) + body_bytes k) by done.
  destruct (f x) eqn:Ef; [rewrite (Hfg x Ef), !Hc; split; [lia|]|].
  - intros e [->|Hin]%elem_of_cons Hf Hg; [congruence|]. pose proof (IH2 e Hin Hf Hg). lia.
  - destruct (g x) eqn:Eg; [rewrite Hc|]; (split; [lia|]); intros e [->|Hin]%elem_of_cons Hf Hg; try congruence; try lia;
      pose proof (IH2 e Hin Hf Hg); lia.
Qed.

Lemma after_boundary_spec parse_layout evs sid b row : evs !! b = Some row ->
  after_boundary parse_layout evs sid b =
  List.filter (fun e => case_after parse_layout e (b, row) =? 1) (session_events evs sid).
Proof.
  intros Hb. unfold after_boundary. rewrite Hb. apply List.filter_ext. intros e. unfold case_after. cbn [fst snd].
  destruct (String.compare _ _); [|done..]. by destruct (String.compare _ _).
Qed.

(** Consolidation pressure falls as coverage advances: the bytes after
    an event are at most those of the session, and when the boundary moves
    from one of its events to a later one they fall by at least the later
    event's body; a boundary that is not stored leaves no pressure. *)
Theorem pressure_falls parse_layout evs sid from to row :
  EventIsStrictlyAfter parse_layout evs to from = Ok true -> evs !! to = Some row -> ev_session row = sid ->
  body_bytes (after_boundary parse_layout evs sid to) + slen (ev_body row) <= body_bytes (after_boundary parse_layout evs sid from) /\
  body_bytes (after_boundary parse_layout evs sid from) <= body_bytes (session_events evs sid) /\
  (forall id total, evs !! id = None -> SumBodyBytesAfter parse_layout evs sid (Some id) = Ok total -> total = 0) /\
  (forall n, SumBodyBytesAfter parse_layout evs sid (Some from) = Ok n ->
     exists m, SumBodyBytesAfter parse_layout evs sid (Some to) = Ok m /\ 0 <= m /\ m + slen (ev_body row) <= n).
Proof.
  intros (r & f & Hto & Hfrom & Hlt)%strictly_after_true Hto' Hs. assert (r = row) as -> by congruence.
  assert (Hmain : body_bytes (after_boundary parse_layout evs sid to) + slen (ev_body row) <= body_bytes (after_boundary parse_layout evs sid from)).
  { rewrite (after_boundary_spec _ _ _ _ _ Hto), (after_boundary_spec _ _ _ _ _ Hfrom).
    apply body_bytes_filter with (e := (to, row)).
    - intros e He. apply case_after_spec in He. apply case_after_spec. by eapply before_trans.
    - by apply elem_of_session_events.
    - apply not_true_iff_false. rewrite case_after_spec. apply before_irrefl.
    - by apply case_after_spec. }
  split_and!; [done| | |].
  - rewrite (after_boundary_spec _ _ _ _ _ Hfrom). rewrite <-(forallb_filter_id (fun _ => true) (session_events evs sid)) at 2 by (by apply forallb_forall).
    by apply body_bytes_filter.
  - intros id total Hid. unfold SumBodyBytesAfter, after_boundary. rewrite Hid. cbn. by intros [= <-].
  - intros n. unfold SumBodyBytesAfter. pose proof (body_bytes_nonneg (after_boundary parse_layout evs sid to)).
    pose proof (slen_nonneg (ev_body row)). destruct (Z.ltb_spec MaxInt64 (body_bytes (after_boundary parse_layout evs sid from))); [done|].
    intros [= <-]. destruct (Z.ltb_spec MaxInt64 (body_bytes (after_boundary parse_layout evs sid to))); [lia|]. eauto with lia.
Qed.
