(* ===== verification/Refinement.v ===== *)
(** * Session refinements

    [src/domain/model/session_refinement.go], the write port
    [src/application/usecase/session_refinement_usecase_impl.go] and the table
    [src/infrastructure/sqlite/session_refinement_datasource.go] with its
    guarded upsert.  A session has at most one refinement, whose coverage
    authorises the discarding of bodies; refiners run in several processes and
    race for the row with a compare-and-swap on its generation.  The use case
    is a program of [Interleaving] over the store. *)

From S2P Require Import Prelude GoStrings Ordering GoTime GoTimeText SqliteText Labels Interleaving EventOrder.

(** ** The aggregate *)

Record SessionRefinement := mkRefinement {
  rf_session : string; rf_generation : Z; rf_from : string; rf_to : string; rf_summary : string;
  rf_keywords : string; rf_produced_by : string; rf_produced_at : Time; rf_degraded : bool; rf_reasoning : bool }.

Definition SessionRefinement_validate (receiver : option SessionRefinement) : option error :=
  match receiver with
  | None => Some (Wrap "session refinement must not be nil: %w" [] ErrInvalidSessionRefinement)
  | Some r =>
      first_err
        [ fails (TrimSpace (rf_session r) =?s "") (Wrap "session id is required: %w" [] ErrInvalidSessionRefinement);
          fails (rf_generation r <? 1) (Wrap "generation must be at least 1: %w" [] ErrInvalidSessionRefinement);
          fails (TrimSpace (rf_from r) =?s "") (Wrap "covers_from event id is required: %w" [] ErrInvalidSessionRefinement);
          fails (TrimSpace (rf_to r) =?s "") (Wrap "covers_to event id is required: %w" [] ErrInvalidSessionRefinement);
          fails (rf_summary r =?s "") (Wrap "summary must not be empty: %w" [] ErrInvalidSessionRefinement);
          fails (rf_produced_by r =?s "") (Wrap "produced_by must not be empty: %w" [] ErrInvalidSessionRefinement);
          fails (IsZero (rf_produced_at r)) (Wrap "produced_at is required: %w" [] ErrInvalidSessionRefinement) ]
  end.

Definition NewSessionRefinement (sessionID : string) (generation : Z) (coversFrom coversTo summary keywords producedBy : string)
    (producedAt : Time) (degraded : bool) : result SessionRefinement :=
  let refinement := mkRefinement sessionID generation coversFrom coversTo (TrimSpace summary) keywords (TrimSpace producedBy)
                      (UTC producedAt) degraded (negb degraded) in
  match SessionRefinement_validate (Some refinement) with Some err => Err err | None => Ok refinement end.

(** On a receiver that is not nil. *)
Definition WithHasAgentReasoning (r : SessionRefinement) (hasAgentReasoning : bool) : SessionRefinement :=
  mkRefinement (rf_session r) (rf_generation r) (rf_from r) (rf_to r) (rf_summary r) (rf_keywords r) (rf_produced_by r)
    (rf_produced_at r) (rf_degraded r) hasAgentReasoning.

Definition SessionRefinementOf (sessionID : string) (generation : Z) (coversFrom coversTo summary keywords producedBy : string)
    (producedAt : Time) (degraded hasAgentReasoning : bool) : result SessionRefinement :=
  let! refinement := NewSessionRefinement sessionID generation coversFrom coversTo summary keywords producedBy producedAt degraded in
  Ok (WithHasAgentReasoning refinement hasAgentReasoning).

Definition SessionRefineOutcomeCreated : string := "created".
Definition SessionRefineOutcomeSuperseded : string := "superseded".
Definition SessionRefineOutcomeUnchanged : string := "unchanged".
Record SessionRefineResult := mkRefineResult { outcome : string; refinement : SessionRefinement }.
Definition SessionRefineResultOf (outcome : string) (refinement : option SessionRefinement) : result SessionRefineResult :=
  match refinement with
  | None => Err (Wrap "session refine result requires a refinement: %w" [] ErrInvalidSessionRefinement)
  | Some refinement =>
      if (outcome =?s SessionRefineOutcomeCreated) || (outcome =?s SessionRefineOutcomeSuperseded) || (outcome =?s SessionRefineOutcomeUnchanged)
      then Ok (mkRefineResult outcome refinement)
      else Err (Wrap "unknown session refine outcome %q: %w" [outcome] ErrInvalidSessionRefinement)
  end.

(** ** The table *)

Record RefinementRow := mkRefinementRow {
  rr_generation : Z; rr_from : string; rr_to : string; rr_summary : string; rr_keywords : string;
  rr_produced_by : string; rr_produced_at : string; rr_degraded : Z; rr_reasoning : Z }.
#[global] Instance RefinementRow_eq_dec : EqDecision RefinementRow.
Proof. solve_decision. Defined.

(** The tables that a refiner reads: the ids of the sessions, the events, and
    the refinements by session. *)
Record RefineStore := mkRefineStore { rs_sessions : list string; rs_events : Events; rs_rows : gmap string RefinementRow }.

(** [length(x) > 0] of a TEXT value, which counts characters before the first NUL. *)
Definition positive_length (s : string) : bool :=
  match explode s with [] => false | c :: _ => negb (byte_val c =? 0) end.
(** The [CHECK] constraints of [src/schema/sqlite/migrations/000046] and [000060]. *)
Definition refinement_checks (r : RefinementRow) : bool :=
  (0 <? rr_generation r) && positive_length (rr_summary r) && positive_length (rr_produced_by r)
  && ((rr_degraded r =? 0) || (rr_degraded r =? 1)) && ((rr_reasoning r =? 0) || (rr_reasoning r =? 1)).

Definition row_of (r : SessionRefinement) : RefinementRow :=
  mkRefinementRow (rf_generation r) (rf_from r) (rf_to r) (rf_summary r) (rf_keywords r) (rf_produced_by r)
    (formatTimestamp (rf_produced_at r)) (boolToInt (rf_degraded r)) (boolToInt (rf_reasoning r)).

Section Refinement.
Context (parse_layout : string -> result Time).

Definition scanSessionRefinement (sessionID : string) (r : RefinementRow) : result SessionRefinement :=
  let! producedAt := match time_Parse parse_layout (rr_produced_at r) with
                     | Err err => Err (Wrap "invalid session refinement produced_at %q: %w" [rr_produced_at r] err)
                     | Ok t => Ok t
                     end in
  wrap_err "failed to restore session refinement: %w"
    (SessionRefinementOf sessionID (rr_generation r) (rr_from r) (rr_to r) (rr_summary r) (rr_keywords r) (rr_produced_by r)
       producedAt (rr_degraded r =? 1) (rr_reasoning r =? 1)).

Definition FindBySessionID (s : RefineStore) (sessionID : string) : result (option SessionRefinement) :=
  match rs_rows s !! sessionID with
  | None => Ok None
  | Some row =>
      let! refinement := wrap_err "failed to restore session refinement: %w" (scanSessionRefinement sessionID row) in
      Ok (Some refinement)
  end.

(** A comparison of the upsert: of two events that must both exist. *)
Definition upsert_case (compare : string * EventRow -> string * EventRow -> Z) (evs : Events) (left right : string) : bool :=
  match evs !! left, evs !! right with
  | Some l, Some r => compare (left, l) (right, r) =? 1
  | _, _ => false
  end.
(** The [WHERE] of [ON CONFLICT ... DO UPDATE]. *)
Definition advances (evs : Events) (stored excluded : RefinementRow) (expectedGeneration : Z) : bool :=
  (rr_generation stored =? expectedGeneration)
  && upsert_case (case_after parse_layout) evs (rr_to excluded) (rr_to stored)
  && upsert_case (case_not_after parse_layout) evs (rr_from excluded) (rr_from stored).
Definition set_row (s : RefineStore) (sid : string) (row : RefinementRow) : RefineStore :=
  mkRefineStore (rs_sessions s) (rs_events s) (<[sid := row]> (rs_rows s)).

(** [upsert_session_refinement.sql] and the number of rows it affected.  The
    constraints of a single row are checked before its key. *)
Definition upsert (s : RefineStore) (sid : string) (row : RefinementRow) (expectedGeneration : Z) : result Z * RefineStore :=
  if negb ((expectedGeneration =? 0) || bool_decide (is_Some (rs_rows s !! sid))) then (Ok 0, s)
  else if negb (refinement_checks row) then (Err (Errorf "CHECK constraint failed" []), s)
  else match rs_rows s !! sid with
       | None => (Ok 1, set_row s sid row)
       | Some stored => if advances (rs_events s) stored row expectedGeneration then (Ok 1, set_row s sid row) else (Ok 0, s)
       end.

Definition SaveIfAdvances (s : RefineStore) (r : option SessionRefinement) (expectedGeneration : Z) : result bool * RefineStore :=
  match r with
  | None => (Err (Wrap "session refinement must not be nil: %w" [] ErrInvalidSessionRefinement), s)
  | Some r =>
      let '(rows, s') := upsert s (rf_session r) (row_of r) expectedGeneration in
      (match rows with
       | Err err => Err (Wrap "failed to save session refinement: %w" [] err)
       | Ok n => Ok (n =? 1)
       end, s')
  end.

(** ** The write port *)

Inductive RefineOp : Type -> Type :=
| OpSession (sid : string) : RefineOp bool
| OpEventSession (id : string) : RefineOp (option string)
| OpFind (sid : string) : RefineOp (option SessionRefinement)
| OpAfter (left right : string) : RefineOp bool
| OpEarliest (sid : string) : RefineOp (option string)
| OpSave (r : option SessionRefinement) (expectedGeneration : Z) : RefineOp bool.

Definition refine_run B (op : RefineOp B) (s : RefineStore) : result B * RefineStore :=
  match op with
  | OpSession sid => (Ok (bool_decide (sid ∈ rs_sessions s)), s)
  | OpEventSession id => (FindEventSessionID (rs_events s) id, s)
  | OpFind sid => (FindBySessionID s sid, s)
  | OpAfter l r => (EventIsStrictlyAfter parse_layout (rs_events s) l r, s)
  | OpEarliest sid => (EarliestEventID parse_layout (rs_events s) sid, s)
  | OpSave r expected => SaveIfAdvances s r expected
  end.

Record SessionRefineInput := mkRefineInput {
  in_session : string; in_summary : string; in_keywords : string; in_produced_by : string; in_covers_to : string;
  in_degraded : bool; in_reasoning : bool; in_coverage_only : bool }.
(** The repositories that are configured, and the clock at each attempt. *)
Record SessionRefinementUsecase := mkRefineUsecase { has_sessions : bool; has_refinements : bool; has_order : bool; rf_clock : nat -> Time }.

Definition sessionRefineMaxAttempts : nat := 3.
Definition errCoverageOnlyNoRow : error := Sentinel "coverage-only refine requires an existing session refinement".

Definition refineHasAgentReasoning (input : SessionRefineInput) (current : option SessionRefinement) : bool :=
  if match current with Some existing => rf_reasoning existing | None => false end then true
  else if negb (in_degraded input) then true
  else in_reasoning input.

(** [(result, written, err)]: without [written] the result is not read. *)
Definition Attempt : Type := result (option SessionRefineResult).
Notation refiner := (prog (Op := RefineOp)).
Definition failing {A} (format : string) (err : error) : result A := Err (Wrap format [] err).
Definition finished (format : string) (outcome : string) (r : SessionRefinement) : Attempt :=
  let! result := wrap_err format (SessionRefineResultOf outcome (Some r)) in Ok (Some result).

(** The saving tail shared by the three writes. *)
Definition save_attempt (r : SessionRefinement) (expected : Z) (outcome format : string) : refiner Attempt :=
  call (OpSave (Some r) expected) (failing "failed to save session refinement: %w") (fun advanced =>
    if negb advanced then Ret (Ok None) else Ret (finished format outcome r)).

Definition advanceCoverageOnly (now : Time) (current : option SessionRefinement) (sessionID coversTo : string) : refiner Attempt :=
  match current with
  | None => Ret (Err errCoverageOnlyNoRow)
  | Some existing =>
      call (OpAfter coversTo (rf_to existing)) (failing "failed to compare coverage: %w") (fun after =>
        if negb after then Ret (finished "failed to build unchanged refine result: %w" SessionRefineOutcomeUnchanged existing)
        else match NewSessionRefinement sessionID (i64 (rf_generation existing + 1)) (rf_from existing) coversTo (rf_summary existing)
                     (rf_keywords existing) (rf_produced_by existing) now (rf_degraded existing) with
             | Err err => Ret (failing "failed to build coverage-only refinement: %w" err)
             | Ok next =>
                 save_attempt (WithHasAgentReasoning next (rf_reasoning existing)) (rf_generation existing)
                   SessionRefineOutcomeSuperseded "failed to build superseded refine result: %w"
             end)
  end.

Definition decideAndWrite (now : Time) (input : SessionRefineInput) (sessionID coversTo producedBy : string) : refiner Attempt :=
  call (OpFind sessionID) (failing "failed to load session refinement: %w") (fun current =>
    if in_coverage_only input then advanceCoverageOnly now current sessionID coversTo
    else match current with
    | Some existing =>
        call (OpAfter coversTo (rf_to existing)) (failing "failed to compare coverage: %w") (fun after =>
          if negb after then Ret (finished "failed to build unchanged refine result: %w" SessionRefineOutcomeUnchanged existing)
          else match NewSessionRefinement sessionID (i64 (rf_generation existing + 1)) (rf_from existing) coversTo (in_summary input)
                       (in_keywords input) producedBy now (in_degraded input) with
               | Err err => Ret (failing "failed to build superseding refinement: %w" err)
               | Ok next =>
                   save_attempt (WithHasAgentReasoning next (refineHasAgentReasoning input current)) (rf_generation existing)
                     SessionRefineOutcomeSuperseded "failed to build superseded refine result: %w"
               end)
    | None =>
        call (OpEarliest sessionID) (failing "failed to resolve covers_from: %w") (fun earliest =>
          match earliest with
          | None => Ret (Err (Wrap "session %s has no events: %w" [sessionID] ErrInvalidSessionRefinement))
          | Some coversFrom =>
              match NewSessionRefinement sessionID 1 coversFrom coversTo (in_summary input) (in_keywords input) producedBy now
                      (in_degraded input) with
              | Err err => Ret (failing "failed to build session refinement: %w" err)
              | Ok created => save_attempt created 0 SessionRefineOutcomeCreated "failed to build created refine result: %w"
              end
          end)
    end).

Definition too_many_attempts (sessionID : string) : error :=
  Errorf "failed to refine session %s after %d concurrent attempts" [sessionID; Itoa (Z.of_nat sessionRefineMaxAttempts)].

(** The loop over attempts, of which [left] remain. *)
Fixpoint attempts (u : SessionRefinementUsecase) (input : SessionRefineInput) (sessionID coversTo producedBy : string) (left : nat)
    : refiner (result SessionRefineResult) :=
  match left with
  | O => Ret (Err (too_many_attempts sessionID))
  | S left' =>
      bind (decideAndWrite (rf_clock u (sessionRefineMaxAttempts - left)) input sessionID coversTo producedBy) (fun r =>
        match r with
        | Err err => Ret (Err err)
        | Ok (Some result) => Ret (Ok result)
        | Ok None => attempts u input sessionID coversTo producedBy left'
        end)
  end.

Definition Refine (u : SessionRefinementUsecase) (input : SessionRefineInput) : refiner (result SessionRefineResult) :=
  if negb (has_sessions u) then Ret (Err (Errorf "session repository is not configured" []))
  else if negb (has_refinements u) then Ret (Err (Errorf "session refinement repository is not configured" []))
  else if negb (has_order u) then Ret (Err (Errorf "session event order repository is not configured" []))
  else
    match SessionIDFrom (TrimSpace (in_session input)), EventIDFrom (TrimSpace (in_covers_to input)) with
    | Err err, _ => Ret (failing "failed to refine session: %w" err)
    | _, Err err => Ret (failing "failed to refine session: %w" err)
    | Ok sessionID, Ok coversTo =>
        let producedBy := TrimSpace (in_produced_by input) in
        if producedBy =?s "" then Ret (Err (Wrap "produced_by is required: %w" [] ErrInvalidSessionRefinement))
        else
          call (OpSession sessionID) (failing "failed to look up session: %w") (fun found =>
            if negb found then Ret (Err (Wrap "session %s not found: %w" [sessionID] (Sentinel "invalid session state")))
            else
              call (OpEventSession coversTo) (failing "failed to look up covers_to event: %w") (fun eventSession =>
                match eventSession with
                | None => Ret (Err (Wrap "covers_to event %s not found: %w" [coversTo] ErrInvalidSessionRefinement))
                | Some ownedBy =>
                    if ownedBy <>?s sessionID
                    then Ret (Err (Wrap "covers_to event %s belongs to session %s, not %s: %w" [coversTo; ownedBy; sessionID]
                                     ErrInvalidSessionRefinement))
                    else attempts u input sessionID coversTo producedBy sessionRefineMaxAttempts
                end))
    end.
End Refinement.

(** ** What a row may become *)

Section Evolution.
Context (parse_layout : string -> result Time).
(** An event id names one event: the timestamp with which it is recorded. *)
Context (born : string -> string).
(** Whether events are kept; [DeleteTranscript] may remove one otherwise. *)
Context (keeps : Prop).

Definition birth (id : string) : string * string := (ts_norm parse_layout (born id), id).
Definition recorded_as (evs : Events) : Prop :=
  forall id row, evs !! id = Some row -> clean_id id /\ ev_created_at row = born id.
Definition stored_ok (s : RefineStore) : Prop :=
  recorded_as (rs_events s) /\ forall sid row, rs_rows s !! sid = Some row -> 0 < rr_generation row <= MaxInt64.

(** The row itself, or a later one: of a higher generation, from the same
    event and to a later one; reasoning is not lost. *)
Definition followed_by (row row' : RefinementRow) : Prop :=
  rr_from row' = rr_from row /\ (rr_reasoning row = 1 -> rr_reasoning row' = 1) /\
  (row' = row \/ rr_generation row < rr_generation row' /\ before (birth (rr_to row)) (birth (rr_to row'))).

Lemma followed_refl row : followed_by row row.
Proof. split_and!; [done..|by left]. Qed.
Lemma followed_trans a b c : followed_by a b -> followed_by b c -> followed_by a c.
Proof.
  intros (F1 & A1 & H1) (F2 & A2 & H2). split_and!; [congruence|by auto|].
  destruct H1 as [->|[G1 B1]], H2 as [->|[G2 B2]]; [by left|by right..|right]. split; [lia|by eapply before_trans].
Qed.

(** Both ends of the coverage of each row are stored events. *)
Definition anchored (s : RefineStore) : Prop :=
  forall sid row, rs_rows s !! sid = Some row -> is_Some (rs_events s !! rr_from row) /\ is_Some (rs_events s !! rr_to row).

Definition evolves (s t : RefineStore) : Prop :=
  stored_ok s ->
  stored_ok t /\
  (forall sid row, rs_rows s !! sid = Some row -> exists row', rs_rows t !! sid = Some row' /\ followed_by row row') /\
  (keeps -> (forall id, is_Some (rs_events s !! id) -> is_Some (rs_events t !! id)) /\ (anchored s -> anchored t)).

Lemma evolves_refl s : evolves s s.
Proof. intros Hs. split_and!; eauto using followed_refl. Qed.
Lemma evolves_trans s t u : evolves s t -> evolves t u -> evolves s u.
Proof.
  intros H1 H2 Hs. destruct (H1 Hs) as (Ht & R1 & K1). destruct (H2 Ht) as (Hu & R2 & K2). split_and!; [done| |].
  - intros sid row Hrow. destruct (R1 _ _ Hrow) as (row' & Hrow' & F1). destruct (R2 _ _ Hrow') as (row'' & ? & F2).
    eauto using followed_trans.
  - intros Hk. destruct (K1 Hk), (K2 Hk). split; eauto.
Qed.
Hint Resolve evolves_refl evolves_trans followed_refl : core.

Definition generation_of (s : RefineStore) (sid : string) : Z :=
  match rs_rows s !! sid with Some row => rr_generation row | None => 0 end.
Lemma generation_nonneg s sid : stored_ok s -> 0 <= generation_of s sid.
Proof. intros [_ H]. unfold generation_of. destruct (rs_rows s !! sid) eqn:E; [apply H in E; lia|done]. Qed.
Lemma followed_generation row row' : followed_by row row' -> rr_generation row <= rr_generation row'.
Proof. intros (_ & _ & [->|[H _]]); lia. Qed.
Lemma generation_mono s t sid : stored_ok s -> evolves s t -> generation_of s sid <= generation_of t sid.
Proof.
  intros Hs H. destruct (H Hs) as (Ht & R & _). unfold generation_of at 1. destruct (rs_rows s !! sid) as [row|] eqn:E.
  - destruct (R _ _ E) as (row' & E' & F). unfold generation_of. rewrite E'. by apply followed_generation.
  - by apply generation_nonneg.
Qed.

(** ** The guarded upsert *)

Lemma birth_case left right evs l r : recorded_as evs -> evs !! left = Some l -> evs !! right = Some r ->
  event_key parse_layout (left, l) = birth left /\ event_key parse_layout (right, r) = birth right.
Proof. intros Hr Hl Hr'. unfold event_key, birth. cbn. by destruct (Hr _ _ Hl) as [_ ->], (Hr _ _ Hr') as [_ ->]. Qed.

Lemma advances_spec s stored row expected : stored_ok s ->
  advances parse_layout (rs_events s) stored row expected = true <->
  rr_generation stored = expected /\
  (is_Some (rs_events s !! rr_to row) /\ is_Some (rs_events s !! rr_to stored) /\ before (birth (rr_to stored)) (birth (rr_to row))) /\
  is_Some (rs_events s !! rr_from row) /\ is_Some (rs_events s !! rr_from stored) /\
  ~ before (birth (rr_from stored)) (birth (rr_from row)).
Proof.
  intros [Hr _]. unfold advances, upsert_case. rewrite !andb_true_iff, Z.eqb_eq.
  assert (Hcase : forall left right,
    match rs_events s !! left, rs_events s !! right with Some l, Some r => case_after parse_layout (left, l) (right, r) =? 1 | _, _ => false end = true
    <-> is_Some (rs_events s !! left) /\ is_Some (rs_events s !! right) /\ before (birth right) (birth left)).
  { intros left right. destruct (rs_events s !! left) as [l|] eqn:El; [|naive_solver]. destruct (rs_events s !! right) as [r|] eqn:Er; [|naive_solver].
    destruct (birth_case _ _ _ _ _ Hr El Er) as [<- <-]. rewrite case_after_spec. naive_solver. }
  assert (Hnot : forall left right,
    match rs_events s !! left, rs_events s !! right with Some l, Some r => case_not_after parse_layout (left, l) (right, r) =? 1 | _, _ => false end = true
    <-> is_Some (rs_events s !! left) /\ is_Some (rs_events s !! right) /\ ~ before (birth right) (birth left)).
  { intros left right. destruct (rs_events s !! left) as [l|] eqn:El; [|naive_solver]. destruct (rs_events s !! right) as [r|] eqn:Er; [|naive_solver].
    destruct (birth_case _ _ _ _ _ Hr El Er) as [<- <-]. rewrite case_not_after_spec. naive_solver. }
  rewrite Hcase, Hnot. tauto.
Qed.

Inductive upsert_outcome (s : RefineStore) (sid : string) (row : RefinementRow) (expected : Z) : result Z * RefineStore -> Prop :=
| upsert_inserts : rs_rows s !! sid = None -> expected = 0 -> refinement_checks row = true ->
    upsert_outcome s sid row expected (Ok 1, set_row s sid row)
| upsert_updates stored : rs_rows s !! sid = Some stored -> advances parse_layout (rs_events s) stored row expected = true ->
    refinement_checks row = true -> upsert_outcome s sid row expected (Ok 1, set_row s sid row)
| upsert_no_row : rs_rows s !! sid = None -> expected <> 0 -> upsert_outcome s sid row expected (Ok 0, s)
| upsert_stale stored : rs_rows s !! sid = Some stored -> advances parse_layout (rs_events s) stored row expected = false ->
    upsert_outcome s sid row expected (Ok 0, s)
| upsert_refused e : refinement_checks row = false -> upsert_outcome s sid row expected (Err e, s).
Lemma upsert_cases s sid row expected : upsert_outcome s sid row expected (upsert parse_layout s sid row expected).
Proof.
  unfold upsert. destruct (rs_rows s !! sid) as [stored|] eqn:E.
  - rewrite bool_decide_true, orb_true_r by done. cbn [negb]. destruct (refinement_checks row) eqn:Ec; cbn [negb]; [|by constructor].
    destruct (advances parse_layout (rs_events s) stored row expected) eqn:Ea; [by eapply upsert_updates|by eapply upsert_stale].
  - rewrite bool_decide_false, orb_false_r by (by intros []). destruct (Z.eqb_spec expected 0) as [->|Hne]; cbn [negb]; [|by constructor].
    destruct (refinement_checks row) eqn:Ec; cbn [negb]; by constructor.
Qed.

(** ** Saving what was derived from a read row *)

(** [r] as an attempt builds it from what it read in [s]. *)
Definition derived (s : RefineStore) (r : SessionRefinement) (expected : Z) : Prop :=
  rf_generation r <= MaxInt64 /\
  match rs_rows s !! rf_session r with
  | None => expected = 0 /\ rf_generation r = 1
  | Some row => expected = rr_generation row /\ rf_generation r = rr_generation row + 1 /\ rf_from r = rr_from row /\
                (rr_reasoning row = 1 -> rf_reasoning r = true) /\ before (birth (rr_to row)) (birth (rf_to r))
  end.
(** The ends it was given, in [t]: the first is that of the row, if there was one. *)
Definition ends_stored (s t : RefineStore) (r : SessionRefinement) : Prop :=
  keeps -> is_Some (rs_events t !! rf_to r) /\ (rs_rows s !! rf_session r = None -> is_Some (rs_events t !! rf_from r)).

Lemma set_row_evolves s sid row : (stored_ok s -> 0 < rr_generation row <= MaxInt64) ->
  (stored_ok s -> forall old, rs_rows s !! sid = Some old -> followed_by old row) ->
  (keeps -> stored_ok s -> anchored s -> is_Some (rs_events s !! rr_from row) /\ is_Some (rs_events s !! rr_to row)) ->
  evolves s (set_row s sid row).
Proof.
  intros Hg Hf Ha Hs. split_and!.
  - split; [apply Hs|]. cbn. intros k r. destruct (decide (sid = k)) as [<-|Hne].
    + rewrite lookup_insert_eq. intros [= <-]. by apply Hg.
    + rewrite lookup_insert_ne by done. apply Hs.
  - cbn. intros k r Hk. destruct (decide (sid = k)) as [<-|Hne].
    + rewrite lookup_insert_eq. eauto.
    + rewrite lookup_insert_ne by done. eauto.
  - intros Hk. split; [done|]. intros Han k r. cbn. destruct (decide (sid = k)) as [<-|Hne].
    + rewrite lookup_insert_eq. intros [= <-]. by apply Ha.
    + rewrite lookup_insert_ne by done. apply Han.
Qed.

Lemma derived_follows s t r expected old : stored_ok s -> evolves s t -> derived s r expected ->
  rs_rows t !! rf_session r = Some old -> advances parse_layout (rs_events t) old (row_of r) expected = true -> followed_by old (row_of r).
Proof.
  intros Hs He (_ & Hd) Hold Hadv. destruct (He Hs) as (Ht & Hrows & _).
  apply (advances_spec t _ _ _ Ht) in Hadv as (Hg & _). destruct (rs_rows s !! rf_session r) as [row|] eqn:Erow.
  - destruct Hd as (-> & Hgen & Hfrom & Hreason & Hbefore). destruct (Hrows _ _ Erow) as (row' & E & F).
    assert (row' = old) as -> by congruence. destruct F as (_ & _ & [->|[Hlt _]]); [|lia].
    split_and!; [done| |right; cbn; split; [lia|done]]. intros H. unfold row_of. cbn. by rewrite (Hreason H).
  - destruct Hd as (-> & _). destruct Ht as [_ Ht]. apply Ht in Hold. lia.
Qed.

Lemma save_evolves s t r expected : stored_ok s -> evolves s t -> derived s r expected -> ends_stored s t r ->
  evolves t (snd (SaveIfAdvances parse_layout t (Some r) expected)) /\
  match fst (SaveIfAdvances parse_layout t (Some r) expected) with
  | Ok true => rs_rows (snd (SaveIfAdvances parse_layout t (Some r) expected)) !! rf_session r = Some (row_of r)
  | Ok false => keeps -> anchored s ->
      generation_of s (rf_session r) < generation_of (snd (SaveIfAdvances parse_layout t (Some r) expected)) (rf_session r)
  | Err _ => True
  end.
Proof.
  intros Hs He Hd Hends. destruct (He Hs) as (Ht & Hrows & Hkeep). pose proof (derived_follows s t r expected) as Hfol.
  unfold SaveIfAdvances. destruct (upsert_cases t (rf_session r) (row_of r) expected) as [E E0 Hc|stored E Ha Hc|E Hne|stored E Ha|e Hc]; cbn.
  - split; [|by rewrite lookup_insert_eq]. destruct Hd as (Hmax & Hd). subst expected.
    destruct (rs_rows s !! rf_session r) as [row|] eqn:Erow; [destruct (Hrows _ _ Erow) as (? & ? & _); congruence|].
    destruct Hd as (_ & Hg). apply set_row_evolves; cbn; [intros; lia|congruence|]. intros Hk _ _. destruct (Hends Hk). auto.
  - split; [|by rewrite lookup_insert_eq]. assert (Hf : followed_by stored (row_of r)) by eauto.
    apply set_row_evolves; [|intros _ old Hold; congruence|].
    + intros _. pose proof (followed_generation _ _ Hf). destruct Hd as (Hmax & _). destruct Ht as [_ Ht]. apply Ht in E. cbn in *. lia.
    + intros Hk _ Han. apply (advances_spec t _ _ _ Ht) in Ha as (_ & (Hto & _) & Hfrom & _). done.
  - split; [done|]. intros Hk Han. destruct Hd as (_ & Hd). destruct (rs_rows s !! rf_session r) as [row|] eqn:Erow; [|lia].
    destruct (Hrows _ _ Erow) as (? & ? & _). congruence.
  - split; [done|]. intros Hk Han. destruct (Hkeep Hk) as [_ Hanc]. destruct (Hanc Han _ _ E) as [Hfr Hto].
    destruct (Hends Hk) as [Hcov _]. destruct Hd as (Hmax & Hd). unfold generation_of. rewrite E. destruct (rs_rows s !! rf_session r) as [row|] eqn:Erow.
    + destruct (Hrows _ _ Erow) as (row' & E' & F). assert (row' = stored) as -> by congruence.
      destruct F as (_ & _ & [->|[Hlt _]]); [|done]. destruct Hd as (-> & Hg & Hfrom & _ & Hb).
      apply not_true_iff_false in Ha. destruct Ha. apply advances_spec; [done|]. cbn. rewrite Hfrom.
      split_and!; [done|by auto|done|done|done|done|]. apply before_irrefl.
    + destruct Ht as [_ Ht]. apply Ht in E. lia.
  - done.
Qed.

(** ** What an attempt secures *)

Notation run := (refine_run parse_layout).
Notation secured := (secures run evolves evolves).

(** The row accounts for the answer: it covers the requested event, and is, or
    has come from, the row answered. *)
Definition accounted (sid coversTo : string) (res : SessionRefineResult) (t : RefineStore) : Prop :=
  exists row, rs_rows t !! sid = Some row /\ rf_session (refinement res) = sid /\
    ~ before (birth (rr_to row)) (birth coversTo) /\
    if outcome res =?s SessionRefineOutcomeUnchanged
    then exists read, scanSessionRefinement parse_layout sid read = Ok (refinement res) /\ followed_by read row
    else rf_to (refinement res) = coversTo /\ followed_by (row_of (refinement res)) row.

Lemma followed_covers row row' id : followed_by row row' -> ~ before (birth (rr_to row)) id -> ~ before (birth (rr_to row')) id.
Proof. intros (_ & _ & [->|[_ Hb]]) Hn H; [done|]. apply Hn. by eapply before_trans. Qed.

Lemma accounted_later sid coversTo res s t : stored_ok s -> evolves s t -> accounted sid coversTo res s -> accounted sid coversTo res t.
Proof.
  intros Hs He (row & Hrow & Hsid & Hb & Hres). destruct (He Hs) as (_ & Hrows & _). destruct (Hrows _ _ Hrow) as (row' & Hrow' & F).
  exists row'. split_and!; [done..|by eapply followed_covers|]. destruct (_ =?s _).
  - destruct Hres as (read & ? & ?). eauto using followed_trans.
  - destruct Hres. eauto using followed_trans.
Qed.

Definition attempt_post (s : RefineStore) (sid coversTo : string) (a : Attempt) (t : RefineStore) : Prop :=
  match a with
  | Err e => e <> too_many_attempts sid
  | Ok (Some res) => accounted sid coversTo res t
  | Ok None => keeps -> anchored s -> generation_of s sid < generation_of t sid
  end.

Lemma attempt_post_later s sid coversTo a t u : stored_ok t -> evolves t u -> attempt_post s sid coversTo a t -> attempt_post s sid coversTo a u.
Proof.
  intros Ht He. destruct a as [[res|]|e]; cbn; [by apply accounted_later| |done].
  intros H Hk Han. specialize (H Hk Han). pose proof (generation_mono t u sid Ht He). lia.
Qed.

(** A call that only reads. *)
Lemma secured_read {A B} (op : RefineOp B) format (k : B -> prog (result A)) Q s :
  (forall t, snd (run B op t) = t) -> (forall e t, Q (failing format e) t) ->
  (forall t b, evolves s t -> fst (run B op t) = Ok b -> secured (k b) Q t) ->
  secured (call op (failing format) k) Q s.
Proof.
  intros Hread Hfail Hk. apply secures_call. intros t r t' He Ha.
  assert (t' = t /\ (r = fst (run B op t) \/ exists e, r = Err e)) as [-> Hr].
  { destruct Ha; rewrite ?Hread; eauto. }
  split; [done|]. destruct r as [b|e]; [|by auto]. destruct Hr as [Hr|[? Hr]]; [|done]. by apply Hk.
Qed.

Lemma secured_save read s sid coversTo r expected oc format base : stored_ok read -> evolves read s -> derived read r expected -> ends_stored read s r ->
  rf_session r = sid -> rf_to r = coversTo -> generation_of base sid <= generation_of read sid -> (keeps -> anchored base -> anchored read) ->
  oc = SessionRefineOutcomeCreated \/ oc = SessionRefineOutcomeSuperseded ->
  secured (save_attempt r expected oc format) (attempt_post base sid coversTo) s.
Proof.
  intros Hs Hrs Hd Hends Hsid Hto Hgen Hanc Hoc. apply secures_call. intros t a t' He Ha.
  assert (Hrt : evolves read t) by eauto. destruct (Hrt Hs) as (Ht & _).
  assert (Hends' : ends_stored read t r).
  { intros Hk. destruct (Hrs Hs) as (Hs' & _). destruct (He Hs') as (_ & _ & Hkeep). destruct (Hkeep Hk), (Hends Hk). auto. }
  destruct (save_evolves read t r expected Hs Hrt Hd Hends') as [Hev Hout]. destruct Ha as [|e|e].
  - split; [done|]. assert (Ht' : stored_ok (snd (run _ (OpSave (Some r) expected) t))) by apply (Hev Ht).
    change (refine_run parse_layout bool (OpSave (Some r) expected) t) with (SaveIfAdvances parse_layout t (Some r) expected) in *.
    destruct (SaveIfAdvances _ _ _ _) as [[[]|e] u]; cbn [fst snd] in *; [| |done].
    + cbn [negb]. intros v Hv. assert (finished format oc r = Ok (Some (mkRefineResult oc r))) as ->.
      { unfold finished, SessionRefineResultOf. by destruct Hoc as [->| ->]. }
      apply (accounted_later _ _ _ u v Ht' Hv). exists (row_of r). rewrite <-Hsid. split_and!; [done..| |].
      * cbn. rewrite Hto. apply before_irrefl.
      * by destruct Hoc as [->| ->].
    + cbn [negb]. intros v Hv Hk Han. specialize (Hout Hk (Hanc Hk Han)). pose proof (generation_mono u v sid Ht' Hv). subst. lia.
  - done.
  - done.
Qed.

(** The value built for a row that was read. *)
Lemma new_fields sid g from to sm kw pb at_ dg r : NewSessionRefinement sid g from to sm kw pb at_ dg = Ok r ->
  r = mkRefinement sid g from to (TrimSpace sm) kw (TrimSpace pb) (UTC at_) dg (negb dg) /\ 1 <= g.
Proof.
  unfold NewSessionRefinement. destruct (SessionRefinement_validate _) as [e|] eqn:E; [done|]. intros [= <-]. split; [done|].
  apply first_err_None in E. cbn in E. rewrite !Forall_cons, !fails_None in E. destruct E as (_ & E & _). lia.
Qed.
Lemma scan_fields sid row r : scanSessionRefinement parse_layout sid row = Ok r ->
  rf_session r = sid /\ rf_generation r = rr_generation row /\ rf_from r = rr_from row /\ rf_to r = rr_to row /\
  rf_reasoning r = (rr_reasoning row =? 1).
Proof.
  unfold scanSessionRefinement, SessionRefinementOf. intros H. ok_inv H. unfold wrap_err in *. ok_inv H.
  match goal with E : NewSessionRefinement _ _ _ _ _ _ _ _ _ = Ok _ |- _ => apply new_fields in E as [-> _] end. done.
Qed.

Lemma secured_existing read s sid row existing coversTo built reasoning f1 f2 f3 f4 base :
  stored_ok read -> evolves read s -> rs_rows read !! sid = Some row -> scanSessionRefinement parse_layout sid row = Ok existing ->
  generation_of base sid <= generation_of read sid -> (keeps -> anchored base -> anchored read) ->
  (keeps -> is_Some (rs_events read !! coversTo)) -> (rf_reasoning existing = true -> reasoning = true) ->
  (forall next, built = Ok next -> rf_session next = sid /\ rf_generation next = i64 (rf_generation existing + 1) /\
     1 <= rf_generation next /\ rf_from next = rf_from existing /\ rf_to next = coversTo) ->
  secured (call (OpAfter coversTo (rf_to existing)) (failing f1) (fun after =>
      if negb after then Ret (finished f2 SessionRefineOutcomeUnchanged existing)
      else match built with
           | Err err => Ret (failing f3 err)
           | Ok next => save_attempt (WithHasAgentReasoning next reasoning) (rf_generation existing) SessionRefineOutcomeSuperseded f4
           end)) (attempt_post base sid coversTo) s.
Proof.
  intros Hr Hrs Hrow Hscan Hgen Hanc Hcov Hreason Hbuilt. destruct (scan_fields _ _ _ Hscan) as (Esid & Eg & Efrom & Eto & Ereason).
  apply secured_read; [done|done|]. intros t after Hst Hafter. assert (Hrt : evolves read t) by eauto. destruct (Hrt Hr) as (Ht & Hrows & _).
  apply strictly_after_ok in Hafter as (l & r & Hl & Hri & ->). rewrite Eto in *.
  destruct (birth_case _ _ _ _ _ (proj1 Ht) Hl Hri) as [Kl Kr].
  destruct (case_after parse_layout (coversTo, l) (rr_to row, r) =? 1) eqn:Ec; cbn [negb].
  - apply case_after_spec in Ec. rewrite Kl, Kr in Ec. destruct built as [next|e]; [|by cbn].
    destruct (Hbuilt next eq_refl) as (Nsid & Ng & Npos & Nfrom & Nto). rewrite Eg in *.
    pose proof (proj2 Hr _ _ Hrow) as Hbound. rewrite i64_succ in Ng by (unfold MinInt64; lia).
    apply (secured_save read); try done; [| |by right].
    2: { intros Hk. destruct (Hrt Hr) as (_ & _ & Hkeep). destruct (Hkeep Hk) as [Hev _]. cbn. rewrite Nsid, Nto, Hrow. split; [by auto|done]. }
    unfold derived. cbn [WithHasAgentReasoning rf_session rf_generation rf_from rf_to rf_reasoning]. rewrite Nsid, Hrow, Nto.
    destruct (Z.eqb_spec (rr_generation row) MaxInt64); unfold MinInt64 in *; [lia|]. split_and!; try done; try lia; try congruence.
    intros E1. apply Hreason. by rewrite Ereason, E1.
  - apply not_true_iff_false in Ec. rewrite case_after_spec, Kl, Kr in Ec. intros v Hv. cbn.
    destruct (Hrows _ _ Hrow) as (row' & Hrow' & F). apply (accounted_later _ _ _ t v Ht Hv).
    exists row'. split_and!; [done|done|by eapply followed_covers|]. cbn. eauto.
Qed.

Lemma earliest_stored evs sid id : recorded_as evs -> EarliestEventID parse_layout evs sid = Ok (Some id) -> is_Some (evs !! id).
Proof.
  intros Hr. unfold EarliestEventID.
  destruct (least_order (fun a b => key_cmp (event_key parse_layout a) (event_key parse_layout b)) (session_events evs sid)) as [_ Hl].
  { apply (ordering_on _ key_cmp ordering_key). }
  destruct (least _ _) as [[i row]|]; [|done]. destruct (Hl _ eq_refl) as [[Hi _]%elem_of_session_events _].
  rewrite clean_EventIDFrom by (by eapply Hr). intros [= <-]. eauto.
Qed.

Lemma secured_decide now input sid coversTo pb s base : stored_ok s ->
  generation_of base sid <= generation_of s sid -> (keeps -> anchored base -> anchored s) ->
  (keeps -> is_Some (rs_events s !! coversTo)) ->
  secured (decideAndWrite now input sid coversTo pb) (attempt_post base sid coversTo) s.
Proof.
  intros Hs Hgen Hanc Hcov. apply secured_read; [done|done|]. intros t current Hst Hcur. destruct (Hst Hs) as (Ht & _ & Hkeep).
  assert (Hgen' : generation_of base sid <= generation_of t sid) by (pose proof (generation_mono s t sid Hs Hst); lia).
  assert (Hanc' : keeps -> anchored base -> anchored t) by (intros Hk Ha; destruct (Hkeep Hk); auto).
  assert (Hcov' : keeps -> is_Some (rs_events t !! coversTo)) by (intros Hk; destruct (Hkeep Hk); auto).
  cbn in Hcur. unfold FindBySessionID in Hcur. destruct (rs_rows t !! sid) as [row|] eqn:Erow.
  - destruct (scanSessionRefinement parse_layout sid row) as [existing|e] eqn:Escan; [|done]. injection Hcur as <-. unfold advanceCoverageOnly.
    destruct (in_coverage_only input); apply (secured_existing t t sid row); try done; try apply evolves_refl.
    all: try (intros next [-> Hpos]%new_fields; done).
    unfold refineHasAgentReasoning. by intros ->.
  - injection Hcur as <-. cbn [advanceCoverageOnly]. destruct (in_coverage_only input); [done|].
    apply secured_read; [done|done|]. intros v earliest Htv Hear. destruct (Htv Ht) as (Hv & _ & Hkeep').
    destruct earliest as [coversFrom|]; [|done]. destruct (NewSessionRefinement _ _ _ _ _ _ _ _ _) as [created|e] eqn:Enew; [|done].
    apply new_fields in Enew as [-> _]. apply (secured_save t); try done; [|intros Hk|by left].
    + unfold derived. cbn. by rewrite Erow.
    + destruct (Hkeep' Hk) as [Hev _]. split; [by auto|]. intros _. cbn. by apply (earliest_stored _ _ _ (proj1 Hv) Hear).
Qed.

(** ** What the write port secures *)

Definition attempts_post (s : RefineStore) (sid coversTo : string) (left : nat) (a : result SessionRefineResult) (t : RefineStore) : Prop :=
  match a with
  | Ok res => accounted sid coversTo res t
  | Err e => e = too_many_attempts sid -> keeps -> anchored s -> generation_of s sid + Z.of_nat left <= generation_of t sid
  end.
Lemma secured_attempts u input sid coversTo pb left s : stored_ok s -> (keeps -> is_Some (rs_events s !! coversTo)) ->
  secured (attempts u input sid coversTo pb left) (attempts_post s sid coversTo left) s.
Proof.
  revert s. induction left as [|left IH]; intros s Hs Hcov; cbn [attempts].
  - intros t Ht _ _ _. pose proof (generation_mono s t sid Hs Ht). lia.
  - apply secures_bind; [apply evolves_refl|].
    apply (secures_weaken _ _ _ _ (fun a t => evolves s t /\ attempt_post s sid coversTo a t));
      [|apply secures_reaches; [apply evolves_trans|done|by apply secured_decide]].
    intros a t [Ht Ha]. destruct (Ht Hs) as (Htok & _ & Hkeep). destruct a as [[res|]|e]; cbn in Ha.
    + intros v Hv. by apply (accounted_later _ _ _ t v).
    + apply (secures_weaken _ _ _ _ (attempts_post t sid coversTo left)).
      * intros [res|e] v; [done|]. cbn. intros H He Hk Han. destruct (Hkeep Hk) as [_ Hanc].
        specialize (H He Hk (Hanc Han)). specialize (Ha Hk Han). lia.
      * apply IH; [done|]. intros Hk. destruct (Hkeep Hk). auto.
    + intros v Hv. by cbn.
Qed.

(** The session and the event that a request names. *)
Definition names (input : SessionRefineInput) (sid coversTo : string) : Prop :=
  SessionIDFrom (TrimSpace (in_session input)) = Ok sid /\ EventIDFrom (TrimSpace (in_covers_to input)) = Ok coversTo.
Definition refine_post (s : RefineStore) (input : SessionRefineInput) (a : result SessionRefineResult) (t : RefineStore) : Prop :=
  match a with
  | Ok res => exists sid coversTo, names input sid coversTo /\ accounted sid coversTo res t
  | Err e => forall sid coversTo, names input sid coversTo -> e = too_many_attempts sid -> keeps -> anchored s ->
               generation_of s sid + Z.of_nat sessionRefineMaxAttempts <= generation_of t sid
  end.
Lemma secured_refine u input s : stored_ok s -> secured (Refine u input) (refine_post s input) s.
Proof.
  intros Hs. unfold Refine. destruct (has_sessions u), (has_refinements u), (has_order u); cbn [negb]; try by cbn.
  destruct (SessionIDFrom _) as [sid|e] eqn:Esid; [|by cbn]. destruct (EventIDFrom _) as [coversTo|e] eqn:Eto; [|by cbn].
  destruct (_ =?s ""); [by cbn|]. apply secured_read; [done|done|]. intros t found Hst _. destruct found; cbn [negb]; [|by cbn].
  apply secured_read; [done|done|]. intros v owner Htv Howner. destruct owner as [ownedBy|]; [|by cbn].
  destruct (negb _); [by cbn|]. assert (Hsv : evolves s v) by eauto. destruct (Hsv Hs) as (Hv & _ & Hkeep).
  apply (secures_weaken _ _ _ _ (attempts_post v sid coversTo sessionRefineMaxAttempts)).
  - intros [res|e] w; cbn [attempts_post refine_post]; [intros H; exists sid, coversTo; by split|].
    intros H sid' coversTo' [Hsid _] He Hk Han. assert (sid' = sid) as -> by congruence. destruct (Hkeep Hk) as [_ Hanc].
    specialize (H He Hk (Hanc Han)). pose proof (generation_mono s v sid Hs Hsv). lia.
  - apply secured_attempts; [done|]. intros _. cbn in Howner. unfold FindEventSessionID in Howner.
    destruct (rs_events v !! coversTo); [by eauto|done].
Qed.

(** ** Coverage over every interleaving *)

(** Anything else may happen to the store that leaves the refinements alone
    and the timestamp of an event as it was. *)
Definition elsewhere (s t : RefineStore) : Prop :=
  rs_rows t = rs_rows s /\ (recorded_as (rs_events s) -> recorded_as (rs_events t)) /\
  (keeps -> forall id, is_Some (rs_events s !! id) -> is_Some (rs_events t !! id)).
Lemma elsewhere_evolves s t : elsewhere s t -> evolves s t.
Proof.
  intros (Hrows & Hrec & Hkeep) [Hr Hg]. split_and!.
  - split; [auto|]. rewrite Hrows. apply Hg.
  - rewrite Hrows. eauto.
  - intros Hk. split; [auto|]. intros Han sid row. rewrite Hrows. intros Hrow. destruct (Han _ _ Hrow). auto.
Qed.

Definition refiners (jobs : list (SessionRefinementUsecase * SessionRefineInput)) : list (prog (result SessionRefineResult)) :=
  map (fun job => Refine (fst job) (snd job)) jobs.

Lemma refiners_secured jobs s : stored_ok s -> forall i p, refiners jobs !! i = Some p ->
  secured p (fun a t => forall u input, jobs !! i = Some (u, input) -> refine_post s input a t) s.
Proof.
  intros Hs i p. unfold refiners. rewrite list_lookup_fmap. destruct (jobs !! i) as [[u input]|] eqn:E; [|done]. intros [= <-].
  apply (secures_weaken _ _ _ _ (refine_post s input)); [|by apply secured_refine]. by intros a t H u' input' [= <- <-].
Qed.

(** (C9) Coverage only advances: while any number of refiners run, in any
    interleaving with each other and with whatever else happens to the events
    and sessions, their calls failing before or after they took effect, the
    refinement of a session is never removed; it stays the same row or is
    replaced by one of a higher generation that covers from the same event to
    a strictly later one, in the order of the events' own timestamps; and
    what an agent reasoned is not lost. *)
Theorem refinement_coverage_advances jobs s t ps sid row :
  stored_ok s -> star (pool_step run elsewhere) (s, refiners jobs) (t, ps) -> rs_rows s !! sid = Some row ->
  stored_ok t /\ exists row', rs_rows t !! sid = Some row' /\ followed_by row row'.
Proof.
  intros Hs Hstar Hrow.
  destruct (pool_secures run evolves evolves evolves_refl evolves_trans elsewhere _ s _ t ps (fun _ _ H => H) elsewhere_evolves Hstar
              (refiners_secured jobs s Hs)) as [He _].
  destruct (He Hs) as (Ht & Hrows & _). eauto.
Qed.

(** (C10) What [Refine] answers is so: when it returns a result, the stored
    refinement of the session covers the requested event, and is, or has come
    from, the refinement it returned; and when it gives up after its three
    attempts although events are kept, at least three other refinements of the
    session have been written since it started. *)
Theorem refine_answer_exact jobs s t ps i u input a :
  stored_ok s -> star (pool_step run elsewhere) (s, refiners jobs) (t, ps) ->
  jobs !! i = Some (u, input) -> ps !! i = Some (Ret a) -> refine_post s input a t.
Proof.
  intros Hs Hstar Hjob Hret.
  apply (pool_outcome run evolves evolves evolves_refl evolves_trans elsewhere
           (fun i a t => forall u input, jobs !! i = Some (u, input) -> refine_post s input a t) s _ t ps i a
           (fun _ _ H => H) elsewhere_evolves Hstar (refiners_secured jobs s Hs) Hret u input Hjob).
Qed.
End Evolution.

(** ** A refiner alone *)

Section Alone.
Context (parse_layout : string -> result Time).
Notation run := (refine_run parse_layout).

Lemma validated sid g from to sm kw pb at_ dg r : NewSessionRefinement sid g from to sm kw pb at_ dg = Ok r ->
  SessionRefinement_validate (Some r) = None.
Proof. unfold NewSessionRefinement. destruct (SessionRefinement_validate _) eqn:E; [done|]. by intros [= <-]. Qed.

(** A refinement is read back from the row it was stored as. *)
Lemma scan_row_of sid g from to sm kw pb at_ dg r reasoning : NewSessionRefinement sid g from to sm kw pb at_ dg = Ok r ->
  four_digits at_ -> scanSessionRefinement parse_layout sid (row_of (WithHasAgentReasoning r reasoning)) = Ok (WithHasAgentReasoning r reasoning).
Proof.
  intros Hnew Hy. pose proof (validated _ _ _ _ _ _ _ _ _ _ Hnew) as Hval. apply new_fields in Hnew as [-> _].
  unfold scanSessionRefinement, row_of, formatTimestamp. cbn [WithHasAgentReasoning rf_session rf_generation rf_from rf_to rf_summary
    rf_keywords rf_produced_by rf_produced_at rf_degraded rf_reasoning rr_generation rr_from rr_to rr_summary rr_keywords rr_produced_by
    rr_produced_at rr_degraded rr_reasoning]. rewrite UTC_idemp, (time_Parse_format parse_layout (UTC at_) eq_refl Hy).
  unfold SessionRefinementOf, NewSessionRefinement. rewrite !TrimSpace_idemp.
  assert (E : UTC (mkTime (ns (UTC at_)) None 0) = UTC at_) by done. rewrite E.
  assert (Eb : forall b, (boolToInt b =? 1) = b) by (by intros []). by rewrite !Eb, Hval.
Qed.

Lemma find_after_save s row : forall sid, FindBySessionID parse_layout (set_row s sid row) sid =
  let! refinement := wrap_err "failed to restore session refinement: %w" (scanSessionRefinement parse_layout sid row) in Ok (Some refinement).
Proof. intros sid. unfold FindBySessionID. cbn. by rewrite lookup_insert_eq. Qed.

(** What the store holds after a request for [coversTo] was answered. *)
Definition answered (sid coversTo : string) (r : SessionRefinement) (s s' : RefineStore) : Prop :=
  rs_sessions s' = rs_sessions s /\ rs_events s' = rs_events s /\ FindBySessionID parse_layout s' sid = Ok (Some r) /\
  EventIsStrictlyAfter parse_layout (rs_events s') coversTo (rf_to r) = Ok false.

Lemma alone_save sid g from to sm kw pb at_ dg next reasoning expected oc format s s' a :
  NewSessionRefinement sid g from to sm kw pb at_ dg = Ok next -> four_digits at_ -> is_Some (rs_events s !! to) ->
  alone run (save_attempt (WithHasAgentReasoning next reasoning) expected oc format) s = (a, s') ->
  (a = Ok None -> s' = s) /\ forall res, a = Ok (Some res) -> answered sid to (refinement res) s s'.
Proof.
  intros Hnew Hy [ev Hev]. pose proof (new_fields _ _ _ _ _ _ _ _ _ _ Hnew) as [Hf _].
  unfold save_attempt. rewrite alone_call. cbn [refine_run]. unfold SaveIfAdvances.
  assert (Hsid : rf_session (WithHasAgentReasoning next reasoning) = sid) by (by rewrite Hf). rewrite Hsid.
  assert (Hgot : forall u, u = set_row s sid (row_of (WithHasAgentReasoning next reasoning)) ->
    answered sid to (WithHasAgentReasoning next reasoning) s u).
  { intros u ->. split_and!; [done|done|by rewrite find_after_save, (scan_row_of _ _ _ _ _ _ _ _ _ _ _ Hnew Hy)|].
    assert (Hto : rf_to (WithHasAgentReasoning next reasoning) = to) by (by rewrite Hf). rewrite Hto.
    apply (not_after _ _ _ _ ev ev); [done..|]. by rewrite (ord_refl _ ordering_key). }
  assert (Hres : forall res, finished format oc (WithHasAgentReasoning next reasoning) = Ok (Some res) ->
    refinement res = WithHasAgentReasoning next reasoning).
  { unfold finished, SessionRefineResultOf. destruct (_ || _); cbn; [|done]. by intros ? [= <-]. }
  destruct (upsert_cases parse_layout s sid (row_of (WithHasAgentReasoning next reasoning)) expected); cbn; intros [= <- <-].
  1,2: split; [by destruct (finished _ _ _) eqn:E; intros [= ->]; unfold finished in E; ok_inv E|]; intros res Hr; rewrite (Hres _ Hr); auto.
  all: split; done.
Qed.

Lemma alone_existing s sid existing coversTo built reasoning f1 f2 f3 f4 s' a :
  FindBySessionID parse_layout s sid = Ok (Some existing) -> is_Some (rs_events s !! coversTo) ->
  (forall next, built = Ok next -> exists g sm kw pb at_ dg,
     NewSessionRefinement sid g (rf_from existing) coversTo sm kw pb at_ dg = Ok next /\ four_digits at_) ->
  alone run (call (OpAfter coversTo (rf_to existing)) (failing f1) (fun after =>
      if negb after then Ret (finished f2 SessionRefineOutcomeUnchanged existing)
      else match built with
           | Err err => Ret (failing f3 err)
           | Ok next => save_attempt (WithHasAgentReasoning next reasoning) (rf_generation existing) SessionRefineOutcomeSuperseded f4
           end)) s = (a, s') ->
  (a = Ok None -> s' = s) /\ forall res, a = Ok (Some res) -> answered sid coversTo (refinement res) s s'.
Proof.
  intros Hfind Hev Hbuilt. rewrite alone_call. cbn [refine_run fst snd].
  destruct (EventIsStrictlyAfter _ _ _ _) as [[]|e] eqn:Ea; cbn [negb]; [| |by intros [= <- <-]].
  - destruct built as [next|e]; [|by intros [= <- <-]]. destruct (Hbuilt next eq_refl) as (g & sm & kw & pb & at_ & dg & Hnew & Hy).
    by apply (alone_save _ _ _ _ _ _ _ _ _ _ _ _ _ _ _ _ _ Hnew).
  - cbn. intros [= <- <-]. split; [done|]. intros res [= <-]. by split_and!.
Qed.

Lemma alone_decide now input sid coversTo pb s s' a : four_digits now -> is_Some (rs_events s !! coversTo) ->
  alone run (decideAndWrite now input sid coversTo pb) s = (a, s') ->
  (a = Ok None -> s' = s) /\ forall res, a = Ok (Some res) -> answered sid coversTo (refinement res) s s'.
Proof.
  intros Hy Hev. unfold decideAndWrite. rewrite alone_call. cbn [refine_run fst snd].
  destruct (FindBySessionID parse_layout s sid) as [[existing|]|e] eqn:Efind; [| |by intros [= <- <-]].
  - unfold advanceCoverageOnly. destruct (in_coverage_only input); apply alone_existing; try done; intros next Hnew; do 6 eexists; (split; [exact Hnew|exact Hy]).
  - cbn [advanceCoverageOnly]. destruct (in_coverage_only input); [by intros [= <- <-]|]. rewrite alone_call. cbn [refine_run fst snd].
    destruct (EarliestEventID _ _ _) as [[coversFrom|]|e]; [|by intros [= <- <-]..].
    destruct (NewSessionRefinement _ _ _ _ _ _ _ _ _) as [created|e] eqn:Enew; [|by intros [= <- <-]].
    assert (E : created = WithHasAgentReasoning created (rf_reasoning created)) by (by destruct created). rewrite E.
    by apply (alone_save _ _ _ _ _ _ _ _ _ _ _ _ _ _ _ _ _ Enew).
Qed.

Lemma alone_attempts u input sid coversTo pb left s res s' : (forall n, four_digits (rf_clock u n)) -> is_Some (rs_events s !! coversTo) ->
  alone run (attempts u input sid coversTo pb left) s = (Ok res, s') -> answered sid coversTo (refinement res) s s'.
Proof.
  intros Hy. revert s. induction left as [|left IH]; intros s Hev; cbn [attempts]; [done|]. rewrite alone_bind.
  destruct (alone run (decideAndWrite _ _ _ _ _) s) as [a t] eqn:Ed. cbn [fst snd].
  destruct (alone_decide _ _ _ _ _ _ _ _ (Hy _) Hev Ed) as [Hnone Hsome]. destruct a as [[r|]|e]; cbn; [| |done].
  - intros [= -> <-]. by apply Hsome.
  - rewrite (Hnone eq_refl). by apply IH.
Qed.

(** A request that may be made: of a session that exists, for one of its events. *)
Definition may_request (s : RefineStore) (input : SessionRefineInput) (sid coversTo : string) : Prop :=
  names input sid coversTo /\ sid ∈ rs_sessions s /\ FindEventSessionID (rs_events s) coversTo = Ok (Some sid).
Definition configured (u : SessionRefinementUsecase) : Prop := has_sessions u = true /\ has_refinements u = true /\ has_order u = true.

Lemma alone_refine u input s sid coversTo : configured u -> may_request s input sid coversTo -> TrimSpace (in_produced_by input) <> "" ->
  alone run (Refine u input) s = alone run (attempts u input sid coversTo (TrimSpace (in_produced_by input)) sessionRefineMaxAttempts) s.
Proof.
  intros (H1 & H2 & H3) [[Hsid Hto] [Hin Hown]] Hpb%String.eqb_neq. unfold Refine. rewrite H1, H2, H3, Hsid, Hto, Hpb. cbn [negb].
  rewrite alone_call. cbn [refine_run fst snd]. rewrite bool_decide_true by done. cbn [negb].
  rewrite alone_call. cbn [refine_run fst snd]. rewrite Hown. by rewrite String.eqb_refl.
Qed.
Lemma alone_refine_inv u input s res s' : alone run (Refine u input) s = (Ok res, s') ->
  configured u /\ TrimSpace (in_produced_by input) <> "" /\ exists sid coversTo, may_request s input sid coversTo.
Proof.
  unfold Refine, configured. destruct (has_sessions u), (has_refinements u), (has_order u); cbn [negb]; try done.
  destruct (SessionIDFrom _) as [sid|e] eqn:Esid; [|done]. destruct (EventIDFrom _) as [coversTo|e] eqn:Eto; [|done].
  destruct (TrimSpace (in_produced_by input) =?s "") eqn:Ep; [done|]. apply String.eqb_neq in Ep.
  rewrite alone_call. cbn [refine_run fst snd]. destruct (bool_decide _) eqn:Ein; cbn [negb]; [|done]. apply bool_decide_eq_true in Ein.
  rewrite alone_call. cbn [refine_run fst snd]. destruct (FindEventSessionID _ _) as [[owner|]|e] eqn:Eo; [|done..].
  destruct (owner =?s sid) eqn:Eq; cbn [negb]; [|done]. apply String.eqb_eq in Eq as ->. intros _.
  split_and!; [done..|]. exists sid, coversTo. by split_and!.
Qed.

(** Replaying a range is a no-op: once a request alone in the store has
    been answered with a refinement, any later request for the same event of
    the session -- whatever its text, its flags and the clock -- leaves the
    store as it is, down to the row, and is answered as unchanged with that
    same refinement, as it was stored and read back. *)
Theorem refine_replay_unchanged u u' input input' s s' res :
  (forall n, four_digits (rf_clock u n)) -> alone run (Refine u input) s = (Ok res, s') ->
  configured u' -> TrimSpace (in_session input') = TrimSpace (in_session input) ->
  TrimSpace (in_covers_to input') = TrimSpace (in_covers_to input) -> TrimSpace (in_produced_by input') <> "" ->
  alone run (Refine u' input') s' = (Ok (mkRefineResult SessionRefineOutcomeUnchanged (refinement res)), s').
Proof.
  intros Hy Hrun Hu' Es Ec Hpb. destruct (alone_refine_inv _ _ _ _ _ Hrun) as (Hu & Hpb0 & sid & coversTo & Hmay).
  rewrite (alone_refine _ _ _ _ _ Hu Hmay Hpb0) in Hrun. destruct Hmay as [Hnames [Hin Hown]].
  assert (Hev : is_Some (rs_events s !! coversTo)) by (unfold FindEventSessionID in Hown; destruct (rs_events s !! coversTo); [eauto|done]).
  destruct (alone_attempts _ _ _ _ _ _ _ _ _ Hy Hev Hrun) as (E1 & E2 & Hfind & Hafter).
  rewrite (alone_refine _ _ _ sid coversTo Hu'); [|split_and!; [by split; rewrite ?Es, ?Ec; apply Hnames|by rewrite E1|by rewrite E2]|done].
  unfold sessionRefineMaxAttempts. cbn [attempts]. rewrite alone_bind. unfold decideAndWrite. rewrite alone_call. cbn [refine_run fst snd].
  rewrite Hfind. unfold advanceCoverageOnly.
  destruct (in_coverage_only input'); rewrite alone_call; cbn [refine_run fst snd]; by rewrite Hafter.
Qed.

(** ** A bound that was deleted *)

(** The event at one end of the stored coverage is gone. *)
Definition bound_lost (s : RefineStore) (sid : string) : Prop :=
  exists row, rs_rows s !! sid = Some row /\ (rs_events s !! rr_from row = None \/ rs_events s !! rr_to row = None).

Lemma lost_save s sid r expected oc format : bound_lost s sid -> rf_session r = sid ->
  exists a, alone run (save_attempt r expected oc format) s = (a, s) /\ forall res, a <> Ok (Some res).
Proof.
  intros (row & Hrow & Hlost) Hsid. unfold save_attempt. rewrite alone_call. cbn [refine_run]. unfold SaveIfAdvances. rewrite Hsid.
  destruct (upsert_cases parse_layout s sid (row_of r) expected) as [E E0 Hc|stored E Ha Hc|E Hne|stored E Ha|e Hc]; cbn; [congruence| |by eauto..].
  exfalso. assert (stored = row) as -> by congruence. unfold advances, upsert_case in Ha. rewrite !andb_true_iff in Ha.
  destruct Ha as [[_ H1] H2]. destruct Hlost as [E'|E']; rewrite E' in *; cbn in *; by repeat case_match.
Qed.

Ltac refuses := eexists; split; [reflexivity|]; intros ? ?; discriminate.
Lemma lost_decide now input sid coversTo pb s : bound_lost s sid ->
  exists a, alone run (decideAndWrite now input sid coversTo pb) s = (a, s) /\
  forall res, a = Ok (Some res) -> outcome res = SessionRefineOutcomeUnchanged.
Proof.
  intros Hlost. unfold decideAndWrite. rewrite alone_call. cbn [refine_run fst snd].
  assert (Hsave : forall r expected oc format, rf_session r = sid -> exists a, alone run (save_attempt r expected oc format) s = (a, s) /\
            forall res, a = Ok (Some res) -> outcome res = SessionRefineOutcomeUnchanged).
  { intros r expected oc format Hr. destruct (lost_save s sid r expected oc format Hlost Hr) as (a & E & Ha). exists a. split; [done|].
    intros res ->. by destruct (Ha res). }
  destruct (FindBySessionID parse_layout s sid) as [[existing|]|e] eqn:Efind; [| |by refuses].
  - unfold advanceCoverageOnly. destruct (in_coverage_only input); rewrite alone_call; cbn [refine_run fst snd];
      (destruct (EventIsStrictlyAfter _ _ _ _) as [[]|e]; cbn [negb]; [|eexists; (split; [reflexivity|]); by intros res [= <-]|by refuses]);
      (destruct (NewSessionRefinement _ _ _ _ _ _ _ _ _) as [next|e] eqn:Enew; [|by refuses]);
      apply new_fields in Enew as [-> _]; by apply Hsave.
  - destruct Hlost as (row & Hrow & _). unfold FindBySessionID in Efind. rewrite Hrow in Efind. by destruct (scanSessionRefinement parse_layout sid row).
Qed.

(** A session whose refinement has lost the event at one end of its
    coverage is frozen: a refiner alone leaves the store as it is, and answers
    with an error or as unchanged, whatever it was given. *)
Theorem refine_bound_lost_frozen u input s sid coversTo : bound_lost s sid -> names input sid coversTo ->
  exists a, alone run (Refine u input) s = (a, s) /\
  forall res, a = Ok res -> outcome res = SessionRefineOutcomeUnchanged.
Proof.
  intros Hlost [Hsid Hto]. unfold Refine. destruct (has_sessions u), (has_refinements u), (has_order u); cbn [negb]; try by refuses.
  rewrite Hsid, Hto. destruct (_ =?s ""); [by refuses|]. rewrite alone_call. cbn [refine_run fst snd]. destruct (bool_decide _); cbn [negb]; [|by refuses].
  rewrite alone_call. cbn [refine_run fst snd]. destruct (FindEventSessionID _ _) as [[owner|]|e]; [|by refuses..].
  destruct (negb _); [by refuses|]. generalize sessionRefineMaxAttempts. intros left.
  induction left as [|left IH]; cbn [attempts]; [by refuses|]. rewrite alone_bind.
  destruct (lost_decide (rf_clock u (sessionRefineMaxAttempts - S left)) input sid coversTo (TrimSpace (in_produced_by input)) s Hlost) as (a & -> & Ha).
  cbn [fst snd]. destruct a as [[res|]|e]; cbn [alone]; [eexists; split; [done|]|done|by refuses]. intros r [= <-]. by apply Ha.
Qed.
End Alone.

(** ** Examples *)

Definition ex_at (n : Z) : Time := mkTime (unix_epoch_ns + n * Second) None 0.
Definition ex_event (n : Z) : EventRow := mkEventRow "transcript" "s-1" "body" (formatTimestamp (ex_at n)).
Definition ex_born (id : string) : string :=
  if id =?s "e-1" then formatTimestamp (ex_at 1) else if id =?s "e-2" then formatTimestamp (ex_at 2) else formatTimestamp (ex_at 3).
Definition ex_events : Events := <["e-1" := ex_event 1]> (<["e-2" := ex_event 2]> (<["e-3" := ex_event 3]> ∅)).
Definition ex_usecase : SessionRefinementUsecase := mkRefineUsecase true true true (fun _ => ex_at 9).
Definition ex_input (covers_to summary : string) (coverage_only : bool) : SessionRefineInput :=
  mkRefineInput "s-1" summary "" "claude" covers_to false false coverage_only.
Definition ex_empty : RefineStore := mkRefineStore ["s-1"] ex_events ∅.
Definition ex_first : result SessionRefineResult * RefineStore :=
  alone (refine_run no_layout) (Refine ex_usecase (ex_input "e-2" "first" false)) ex_empty.
Definition ex_jobs : list (SessionRefinementUsecase * SessionRefineInput) := [(ex_usecase, ex_input "e-3" "second" false)].
Definition ex_second : result SessionRefineResult * RefineStore :=
  alone (refine_run no_layout) (Refine ex_usecase (ex_input "e-3" "second" false)) (snd ex_first).

Lemma ex_recorded : recorded_as ex_born ex_events.
Proof.
  intros id row H. unfold ex_events in H.
  repeat (apply lookup_insert_Some in H as [[<- <-]|[_ H]]; [split; [split; [by vm_compute|done]|by vm_compute]|]).
  by rewrite lookup_empty in H.
Qed.
(** The runs, evaluated once. *)
Lemma ex_runs :
  (rs_rows (snd ex_first) !! "s-1", is_ok (fst ex_first), rs_events (snd ex_first),
   map_to_list (rs_rows (snd ex_first)), (option_map rr_to (rs_rows (snd ex_second) !! "s-1"), is_ok (fst ex_second)))
  = (Some (mkRefinementRow 1 "e-1" "e-2" "first" "" "claude" (formatTimestamp (ex_at 9)) 0 1), true, ex_events,
     [("s-1", mkRefinementRow 1 "e-1" "e-2" "first" "" "claude" (formatTimestamp (ex_at 9)) 0 1)], (Some "e-3", true)).
Proof. by vm_compute. Qed.
Definition ex_row : RefinementRow := mkRefinementRow 1 "e-1" "e-2" "first" "" "claude" (formatTimestamp (ex_at 9)) 0 1.

Lemma ex_stored : stored_ok ex_born (snd ex_first).
Proof.
  pose proof ex_runs as H. apply pair_parts in H as [H _]. apply pair_parts in H as [H Hl]. apply pair_parts in H as [_ He].
  split; [rewrite He; apply ex_recorded|]. intros sid row Hrow%elem_of_map_to_list. rewrite Hl in Hrow.
  apply list_elem_of_singleton in Hrow as [= -> ->]. clear. vm_compute. split; [reflexivity|discriminate].
Qed.
Lemma ex_star keeps : star (pool_step (refine_run no_layout) (elsewhere ex_born keeps)) (snd ex_first, refiners ex_jobs)
  (snd ex_second, [Ret (fst ex_second)]).
Proof.
  unfold ex_second.
  exact (alone_star (refine_run no_layout) (elsewhere ex_born keeps) (Refine ex_usecase (ex_input "e-3" "second" false)) (snd ex_first)
           [Refine ex_usecase (ex_input "e-3" "second" false)] 0%nat eq_refl).
Qed.

Lemma refinement_coverage_advances_witness :
  option_map rr_to (rs_rows (snd ex_second) !! "s-1") = Some "e-3" /\
  exists row', rs_rows (snd ex_second) !! "s-1" = Some row' /\ followed_by no_layout ex_born ex_row row'.
Proof.
  pose proof ex_runs as H. apply pair_parts in H as [H Hr]. apply pair_parts in Hr as [Hto _]. split; [exact Hto|].
  do 3 apply pair_parts in H as [H _].
  destruct (refinement_coverage_advances no_layout ex_born True ex_jobs (snd ex_first) (snd ex_second) _ "s-1" ex_row ex_stored (ex_star True) H) as [_ H'].
  exact H'.
Defined.

Lemma refine_answer_exact_witness :
  is_ok (fst ex_second) = true /\
  refine_post no_layout ex_born True (snd ex_first) (ex_input "e-3" "second" false) (fst ex_second) (snd ex_second).
Proof.
  pose proof ex_runs as H. apply pair_parts in H as [_ Hr]. apply pair_parts in Hr as [_ Hok]. split; [exact Hok|].
  exact (refine_answer_exact no_layout ex_born True ex_jobs (snd ex_first) (snd ex_second) _ 0 ex_usecase (ex_input "e-3" "second" false) (fst ex_second)
           ex_stored (ex_star True) eq_refl eq_refl).
Defined.

Lemma ex_clock n : four_digits (rf_clock ex_usecase n).
Proof. by vm_compute. Qed.
Lemma ex_configured : configured ex_usecase.
Proof. by split_and!. Qed.

Lemma refine_replay_unchanged_witness : exists res,
  alone (refine_run no_layout) (Refine ex_usecase (ex_input "e-2" "another text" true)) (snd ex_first) =
  (Ok (mkRefineResult SessionRefineOutcomeUnchanged (refinement res)), snd ex_first) /\ fst ex_first = Ok res.
Proof.
  pose proof ex_runs as H. do 3 apply pair_parts in H as [H _]. apply pair_parts in H as [_ Hok].
  destruct (fst ex_first) as [res|e] eqn:E; [|discriminate Hok]. exists res. split; [|reflexivity].
  apply (refine_replay_unchanged no_layout ex_usecase ex_usecase (ex_input "e-2" "first" false) (ex_input "e-2" "another text" true) ex_empty (snd ex_first) res).
  - exact ex_clock.
  - rewrite <-E. apply surjective_pairing.
  - exact ex_configured.
  - reflexivity.
  - reflexivity.
  - discriminate.
Defined.

(** The event that the coverage started from is deleted: a refiner that is
    alone gives up after three concurrent attempts. *)
Definition ex_lost : RefineStore := mkRefineStore ["s-1"] (delete "e-1" ex_events) (<["s-1" := ex_row]> ∅).
Lemma ex_lost_error :
  alone (refine_run no_layout) (Refine ex_usecase (ex_input "e-3" "second" false)) ex_lost = (Err (too_many_attempts "s-1"), ex_lost).
Proof. by vm_compute. Qed.
Lemma refine_bound_lost_frozen_witness : exists a,
  alone (refine_run no_layout) (Refine ex_usecase (ex_input "e-3" "second" false)) ex_lost = (a, ex_lost) /\
  forall res, a = Ok res -> outcome res = SessionRefineOutcomeUnchanged.
Proof.
  apply (refine_bound_lost_frozen no_layout ex_usecase (ex_input "e-3" "second" false) ex_lost "s-1" "e-3").
  - exists ex_row. split; [reflexivity|]. left. by vm_compute.
  - by split; vm_compute.
Defined.
