(* ===== verification/Consolidation.v ===== *)
(** * Consolidation requests

    [src/domain/model/consolidation_request.go], the write port
    [src/application/usecase/consolidation_request_usecase_impl.go] and the
    ledger [src/infrastructure/sqlite/consolidation_request_datasource.go]: the
    requests that an agent fold its session, the durable lease under which one
    process delivers a request in a prompt, and the outcome of the refinement
    that answers it.  Each method of the datasource is one statement or
    transaction; a statement is a function of the table. *)

From Stdlib Require Import Sorted.
From S2P Require Import Prelude GoStrings Ordering GoTime GoTimeText SqliteText Labels Interleaving.

(** ** Values *)

Definition ErrInvalidConsolidationRequest : error := Sentinel "invalid consolidation request".

Definition ConsolidationDeliveryStopExit2 : string := "stop_exit_2".
Definition ConsolidationDeliveryAdditionalContext : string := "additional_context".
Definition ConsolidationDeliveryNone : string := "none".
Definition ConsolidationDeliveryFrom (raw : string) : result string :=
  let d := TrimSpace raw in
  if d =?s ConsolidationDeliveryStopExit2 then Ok ConsolidationDeliveryStopExit2
  else if d =?s ConsolidationDeliveryAdditionalContext then Ok ConsolidationDeliveryAdditionalContext
  else if d =?s ConsolidationDeliveryNone then Ok ConsolidationDeliveryNone
  else Err (Errorf "unknown consolidation delivery %q" [raw]).

Definition ConsolidationRefineAccepted : string := "accepted".
Definition ConsolidationRefineRejected : string := "rejected".
Definition ConsolidationRefineOutcomeFrom (raw : string) : result string :=
  let o := TrimSpace raw in
  if o =?s ConsolidationRefineAccepted then Ok ConsolidationRefineAccepted
  else if o =?s ConsolidationRefineRejected then Ok ConsolidationRefineRejected
  else Err (Errorf "unknown consolidation refine outcome %q" [raw]).

Definition ConsolidationPromptRequestIDFrom (value : string) : result string :=
  let value := TrimSpace value in
  if value =?s "" then Err (Errorf "consolidation prompt request id must not be empty" []) else Ok value.
Definition ConsolidationPromptClaimTokenFrom (value : string) : result string :=
  let value := TrimSpace value in
  if value =?s "" then Err (Errorf "consolidation prompt claim token must not be empty" []) else Ok value.

Record ConsolidationRequest := mkRequest {
  cr_session : string; cr_client : string; cr_requested_at : Time; cr_at_event : string; cr_signal : string;
  cr_pressure : Z; cr_threshold : Z; cr_re_request : bool; cr_delivery : string }.

Definition ConsolidationRequest_validate (r : ConsolidationRequest) : option error :=
  first_err
    [ fails (TrimSpace (cr_session r) =?s "") (Wrap "session id must not be empty: %w" [] ErrInvalidConsolidationRequest);
      fails (cr_client r =?s "") (Wrap "client must not be empty: %w" [] ErrInvalidConsolidationRequest);
      fails (TrimSpace (cr_at_event r) =?s "") (Wrap "at event id must not be empty: %w" [] ErrInvalidConsolidationRequest);
      fails (cr_signal r =?s "") (Wrap "signal must not be empty: %w" [] ErrInvalidConsolidationRequest);
      fails (cr_threshold r <=? 0) (Wrap "threshold must be positive: %w" [] ErrInvalidConsolidationRequest);
      fails (cr_pressure r <? 0) (Wrap "pressure must not be negative: %w" [] ErrInvalidConsolidationRequest);
      err_of (wrap_err "delivery: %w" (ConsolidationDeliveryFrom (cr_delivery r))) ].

Definition NewConsolidationRequest (sessionID client : string) (requestedAt : Time) (atEventID signal : string)
    (pressureValue thresholdValue : Z) (reRequest : bool) (delivery : string) : result ConsolidationRequest :=
  let request := mkRequest sessionID (TrimSpace client) (UTC requestedAt) atEventID (TrimSpace signal) pressureValue thresholdValue
                   reRequest delivery in
  match ConsolidationRequest_validate request with Some err => Err err | None => Ok request end.

Record CodexPromptClaim := mkClaim { cl_request : ConsolidationRequest; cl_request_id : string; cl_token : string }.
Definition NewCodexPromptClaim (request : option ConsolidationRequest) (requestID token : string) : result CodexPromptClaim :=
  match request with
  | Some request =>
      if (requestID =?s "") || (token =?s "") then Err (Wrap "invalid Codex prompt claim: %w" [] ErrInvalidConsolidationRequest)
      else Ok (mkClaim request requestID token)
  | None => Err (Wrap "invalid Codex prompt claim: %w" [] ErrInvalidConsolidationRequest)
  end.

Record ConsolidationRefineStamp := mkStamp {
  st_session : string; st_outcome : string; st_reason : string; st_produced_by : string; st_generation : option Z; st_at : Time }.

(** ** The table *)

Record RequestRow := mkRequestRow {
  q_id : Z; q_session : string; q_client : string; q_requested_at : string; q_at_event : string; q_signal : string;
  q_pressure : Z; q_threshold : Z; q_re_request : Z; q_delivery : string;
  q_outcome : option string; q_reason : string; q_produced_by : string; q_refined_at : option string; q_generation : option Z;
  q_request_id : string; q_state : string; q_token : option string; q_claimed_at : option string; q_lease : option string;
  q_delivered_at : option string }.

(** The rows, newest first, and the next [AUTOINCREMENT] id. *)
Record Ledger := mkLedger { lg_rows : list RequestRow; lg_next : Z }.

(** [hex(x)] of a TEXT value. *)
Definition upper_chr (c : ascii) : ascii :=
  if in_range 97 122 (byte_val c) then byte_chr (byte_val c - 32) else c.
Definition sql_hex (s : string) : string := implode (map upper_chr (hex_encode_bytes (explode s))).
Definition prompt_request_id (sessionID atEventID : string) : string :=
  "consolidation:" +:+ sql_hex sessionID +:+ ":" +:+ sql_hex atEventID.

(** [WHERE ... ORDER BY id DESC LIMIT 1]. *)
Definition newest (l : Ledger) (cond : RequestRow -> bool) : option RequestRow := List.find cond (lg_rows l).
(** [UPDATE ... SET f WHERE cond] and the number of rows it affected. *)
Definition update (l : Ledger) (cond : RequestRow -> bool) (f : RequestRow -> RequestRow) : Ledger :=
  mkLedger (map (fun r => if cond r then f r else r) (lg_rows l)) (lg_next l).
Definition affected (l : Ledger) (cond : RequestRow -> bool) : Z := llen (List.filter cond (lg_rows l)).
Definition has_id (id : Z) (r : RequestRow) : bool := q_id r =? id.

Definition is_null {A} (o : option A) : bool := match o with Some _ => false | None => true end.
Definition eq_text (o : option string) (s : string) : bool := match o with Some v => v =?s s | None => false end.
(** [o <= s] of TEXT values; NULL is not. *)
Definition le_text (o : option string) (s : string) : bool :=
  match o with Some v => match String.compare v s with Gt => false | _ => true end | None => false end.

Definition set_prompt (r : RequestRow) (state : string) (token claimed lease delivered : option string) : RequestRow :=
  mkRequestRow (q_id r) (q_session r) (q_client r) (q_requested_at r) (q_at_event r) (q_signal r) (q_pressure r) (q_threshold r)
    (q_re_request r) (q_delivery r) (q_outcome r) (q_reason r) (q_produced_by r) (q_refined_at r) (q_generation r) (q_request_id r)
    state token claimed lease delivered.
Definition set_outcome (r : RequestRow) (outcome : string) (reason produced_by refined_at : string) (generation : option Z) : RequestRow :=
  mkRequestRow (q_id r) (q_session r) (q_client r) (q_requested_at r) (q_at_event r) (q_signal r) (q_pressure r) (q_threshold r)
    (q_re_request r) (q_delivery r) (Some outcome) reason produced_by (Some refined_at) generation (q_request_id r)
    (q_state r) (q_token r) (q_claimed_at r) (q_lease r) (q_delivered_at r).

(** [insert_consolidation_request.sql]: [OR IGNORE] skips a row that a unique
    index or a [CHECK] refuses. *)
Definition known_delivery (d : string) : bool :=
  (d =?s ConsolidationDeliveryStopExit2) || (d =?s ConsolidationDeliveryAdditionalContext) || (d =?s ConsolidationDeliveryNone).
Definition insert_row (id : Z) (r : ConsolidationRequest) : RequestRow :=
  mkRequestRow id (cr_session r) (cr_client r) (formatMemoryValidityTimestamp (cr_requested_at r)) (cr_at_event r) (cr_signal r)
    (cr_pressure r) (cr_threshold r) (boolToInt (cr_re_request r)) (cr_delivery r) None "" "" None None
    (prompt_request_id (cr_session r) (cr_at_event r)) "pending" None None None None.
Definition conflicts (r : ConsolidationRequest) (row : RequestRow) : bool :=
  (q_session row =?s cr_session r) && (q_at_event row =?s cr_at_event r)
  || (q_request_id row =?s prompt_request_id (cr_session r) (cr_at_event r)).
Definition insert_or_ignore (l : Ledger) (r : ConsolidationRequest) : Z * Ledger :=
  if existsb (conflicts r) (lg_rows l) || negb (known_delivery (cr_delivery r)) then (0, l)
  else (1, mkLedger (insert_row (lg_next l) r :: lg_rows l) (lg_next l + 1)).

Section Consolidation.
Context (parse_layout : string -> result Time).

Definition Save (l : Ledger) (request : option ConsolidationRequest) : result bool * Ledger :=
  match request with
  | None => (Err (Wrap "consolidation request must not be nil: %w" [] ErrInvalidConsolidationRequest), l)
  | Some r => let '(n, l') := insert_or_ignore l r in (Ok (0 <? n), l')
  end.

Definition consolidationRequestFromStored (r : RequestRow) : result ConsolidationRequest :=
  let! parsedAt := wrap_err "invalid consolidation requested_at: %w" (time_Parse parse_layout (q_requested_at r)) in
  let! sid := wrap_err "invalid stored consolidation session id: %w" (SessionIDFrom (q_session r)) in
  let! eid := wrap_err "invalid stored consolidation at_event_id: %w" (EventIDFrom (q_at_event r)) in
  let! del := wrap_err "invalid stored consolidation delivery: %w" (ConsolidationDeliveryFrom (q_delivery r)) in
  wrap_err "invalid stored consolidation request: %w"
    (NewConsolidationRequest sid (q_client r) parsedAt eid (q_signal r) (q_pressure r) (q_threshold r) (q_re_request r =? 1) del).

Definition open_of (sessionID : string) (r : RequestRow) : bool := (q_session r =?s sessionID) && is_null (q_outcome r).
Definition FindLatestOpen (l : Ledger) (sessionID : string) : result (option ConsolidationRequest) :=
  match newest l (open_of sessionID) with
  | None => Ok None
  | Some row => let! request := consolidationRequestFromStored row in Ok (Some request)
  end.
Definition FindLatest (l : Ledger) (sessionID : string) : result (option ConsolidationRequest) :=
  match newest l (fun r => q_session r =?s sessionID) with
  | None => Ok None
  | Some row => let! request := consolidationRequestFromStored row in Ok (Some request)
  end.

(** [update_consolidation_request_refine_outcome.sql] on the row it selects. *)
Definition stamp_row (stamp : ConsolidationRefineStamp) (r : RequestRow) : RequestRow :=
  let r' := set_outcome r (st_outcome stamp) (st_reason stamp) (st_produced_by stamp) (formatMemoryValidityTimestamp (st_at stamp))
              (st_generation stamp) in
  if (st_outcome stamp =?s ConsolidationRefineAccepted) && (q_delivery r =?s ConsolidationDeliveryNone)
  then set_prompt r' "fulfilled" None None None (q_delivered_at r) else r'.
(** [fulfill_superseded_codex_prompt_requests.sql]. *)
Definition superseded (l : Ledger) (sessionID : string) (r : RequestRow) : bool :=
  (q_session r =?s sessionID) && (q_client r =?s "codex") && (q_delivery r =?s ConsolidationDeliveryNone) && is_null (q_outcome r)
  && match newest l (fun r => q_session r =?s sessionID) with Some latest => q_id r <? q_id latest | None => false end.
Definition fulfill (r : RequestRow) : RequestRow := set_prompt r "fulfilled" None None None (q_delivered_at r).

(** One transaction; [CHECK (refine_outcome IN ...)] refuses other outcomes. *)
Definition MarkRefineOutcome (l : Ledger) (stamp : ConsolidationRefineStamp) : result bool * Ledger :=
  match newest l (open_of (st_session stamp)) with
  | None => (Ok false, l)
  | Some row =>
      if negb ((st_outcome stamp =?s ConsolidationRefineAccepted) || (st_outcome stamp =?s ConsolidationRefineRejected))
      then (Err (Wrap "failed to stamp consolidation request: %w" [] (Errorf "CHECK constraint failed" [])), l)
      else
        let l1 := update l (has_id (q_id row)) (stamp_row stamp) in
        (Ok true, if st_outcome stamp =?s ConsolidationRefineAccepted
                  then update l1 (superseded l1 (st_session stamp)) fulfill else l1)
  end.

(** [claim_codex_prompt_request.sql]: what may be claimed at a time. *)
Definition claimable (sessionID at_ : string) (r : RequestRow) : bool :=
  (q_session r =?s sessionID) && (q_client r =?s "codex") && (q_delivery r =?s ConsolidationDeliveryNone) && is_null (q_outcome r)
  && ((q_state r =?s "pending") || (q_state r =?s "claimed") && le_text (q_lease r) at_).
Definition claim_row (token at_ expires : string) (r : RequestRow) : RequestRow :=
  set_prompt r "claimed" (Some token) (Some at_) (Some expires) (q_delivered_at r).
Definition ClaimCodexPrompt (l : Ledger) (sessionID token : string) (at_ expiresAt : Time) : result (option CodexPromptClaim) * Ledger :=
  match newest l (claimable sessionID (formatMemoryValidityTimestamp at_)) with
  | None => (Ok None, l)
  | Some row =>
      (let! request := consolidationRequestFromStored row in
       let! stableID := wrap_err "invalid stored Codex prompt request id: %w" (ConsolidationPromptRequestIDFrom (q_request_id row)) in
       let! claim := wrap_err "invalid stored Codex prompt claim: %w" (NewCodexPromptClaim (Some request) stableID token) in
       Ok (Some claim),
       update l (has_id (q_id row)) (claim_row token (formatMemoryValidityTimestamp at_) (formatMemoryValidityTimestamp expiresAt)))
  end.

(** The lease that [release_...] and [confirm_...] look for. *)
Definition leased (requestID token : string) (r : RequestRow) : bool :=
  (q_request_id r =?s requestID) && eq_text (q_token r) token && (q_state r =?s "claimed").
Definition requireOneCodexPromptTransition (n : Z) : result unit :=
  if negb (n =? 1) then Err (Errorf "Codex prompt lease was no longer active" []) else Ok tt.
Definition transitionCodexPrompt (l : Ledger) (requestID token : string) (f : RequestRow -> RequestRow) : result unit * Ledger :=
  (requireOneCodexPromptTransition (affected l (leased requestID token)), update l (leased requestID token) f).
Definition ReleaseCodexPrompt (l : Ledger) (requestID token : string) : result unit * Ledger :=
  transitionCodexPrompt l requestID token (fun r => set_prompt r "pending" None None None (q_delivered_at r)).
Definition ConfirmCodexPrompt (l : Ledger) (requestID token : string) (deliveredAt : Time) : result unit * Ledger :=
  transitionCodexPrompt l requestID token
    (fun r => set_prompt r "delivered" None None None (Some (formatMemoryValidityTimestamp deliveredAt))).

(** ** The write port *)

Inductive LedgerOp : Type -> Type :=
| OpSave (request : option ConsolidationRequest) : LedgerOp bool
| OpLatestOpen (sessionID : string) : LedgerOp (option ConsolidationRequest)
| OpLatest (sessionID : string) : LedgerOp (option ConsolidationRequest)
| OpMark (stamp : ConsolidationRefineStamp) : LedgerOp bool
| OpClaim (sessionID token : string) (at_ expiresAt : Time) : LedgerOp (option CodexPromptClaim)
| OpRelease (requestID token : string) : LedgerOp unit
| OpConfirm (requestID token : string) (deliveredAt : Time) : LedgerOp unit.

Definition ledger_run B (op : LedgerOp B) (l : Ledger) : result B * Ledger :=
  match op with
  | OpSave request => Save l request
  | OpLatestOpen sessionID => (FindLatestOpen l sessionID, l)
  | OpLatest sessionID => (FindLatest l sessionID, l)
  | OpMark stamp => MarkRefineOutcome l stamp
  | OpClaim sessionID token at_ expiresAt => ClaimCodexPrompt l sessionID token at_ expiresAt
  | OpRelease requestID token => ReleaseCodexPrompt l requestID token
  | OpConfirm requestID token deliveredAt => ConfirmCodexPrompt l requestID token deliveredAt
  end.

Notation caller := (prog (Op := LedgerOp)).
Definition failed_with {A} (format : string) (err : error) : result A := Err (Wrap format [] err).

Record ConsolidationRequestInput := mkRequestInput {
  ri_session : string; ri_client : string; ri_at_event : string; ri_signal : string; ri_pressure : Z; ri_threshold : Z; ri_delivery : string }.
Record ConsolidationRequestRecorded := mkRecorded { Recorded : bool; ReRequest : bool }.
Definition Record_ (now : Time) (i : ConsolidationRequestInput) : caller (result ConsolidationRequestRecorded) :=
  call (OpLatestOpen (ri_session i)) (failed_with "failed to look up open consolidation request: %w") (fun open =>
    let reRequest := negb (is_null open) in
    match NewConsolidationRequest (ri_session i) (ri_client i) now (ri_at_event i) (ri_signal i) (ri_pressure i) (ri_threshold i)
            reRequest (ri_delivery i) with
    | Err err => Ret (failed_with "invalid consolidation request: %w" err)
    | Ok request =>
        call (OpSave (Some request)) (failed_with "failed to save consolidation request: %w") (fun recorded =>
          Ret (Ok (mkRecorded recorded reRequest)))
    end).

Definition codexPromptLeaseDuration : Z := 300 * Second.
(** [crypto/rand] answers sixteen bytes or fails. *)
Definition newCodexPromptClaimToken (random : result (list ascii)) : result string :=
  let! bytes := wrap_err "failed to generate Codex prompt claim token: %w" random in
  wrap_err "failed to validate generated Codex prompt claim token: %w" (ConsolidationPromptClaimTokenFrom (EncodeToString bytes)).
Definition UClaimCodexPrompt (random : result (list ascii)) (now : Time) (sessionID : string) : caller (result (option CodexPromptClaim)) :=
  match newCodexPromptClaimToken random with
  | Err err => Ret (failed_with "failed to create Codex prompt claim token: %w" err)
  | Ok token =>
      call (OpClaim sessionID token now (Add now codexPromptLeaseDuration)) (failed_with "failed to claim Codex prompt consolidation: %w")
        (fun claimed => Ret (Ok claimed))
  end.
Definition UReleaseCodexPrompt (requestID token : string) : caller (result unit) :=
  call (OpRelease requestID token) (failed_with "failed to release Codex prompt consolidation: %w") (fun _ => Ret (Ok tt)).
Definition UConfirmCodexPrompt (now : Time) (requestID token : string) : caller (result unit) :=
  call (OpConfirm requestID token now) (failed_with "failed to confirm Codex prompt consolidation: %w") (fun _ => Ret (Ok tt)).
Definition RecordRefineOutcome (now : Time) (stamp : ConsolidationRefineStamp) : caller (result bool) :=
  let stamp := if IsZero (st_at stamp)
               then mkStamp (st_session stamp) (st_outcome stamp) (st_reason stamp) (st_produced_by stamp) (st_generation stamp) now
               else stamp in
  call (OpMark stamp) (failed_with "failed to stamp consolidation request: %w") (fun stamped => Ret (Ok stamped)).
End Consolidation.

(** ** The request id determines the request *)

Lemma upper_digit d : 0 <= d < 16 -> lower_chr (upper_chr (hex_digit d)) = hex_digit d /\ graphic (upper_chr (hex_digit d)) = true /\
  upper_chr (hex_digit d) <> ":"%char.
Proof.
  intros H.
  assert (Hd : d = 0 \/ d = 1 \/ d = 2 \/ d = 3 \/ d = 4 \/ d = 5 \/ d = 6 \/ d = 7 \/ d = 8 \/ d = 9 \/ d = 10 \/ d = 11 \/ d = 12
    \/ d = 13 \/ d = 14 \/ d = 15) by lia.
  repeat (destruct Hd as [->|Hd]; [split_and!; [reflexivity|reflexivity|discriminate]|]). subst. split_and!; [reflexivity|reflexivity|discriminate].
Qed.
Lemma hex_bytes_all (P : ascii -> Prop) l : (forall d, 0 <= d < 16 -> P (hex_digit d)) -> forall c, c ∈ hex_encode_bytes l -> P c.
Proof.
  intros HP. induction l as [|x l IH]; intros c Hc; [by apply elem_of_nil in Hc|]. destruct (byte_nibbles x) as [H1 H2].
  change (hex_encode_bytes (x :: l)) with (hex_digit (byte_val x / 16) :: hex_digit (byte_val x `mod` 16) :: hex_encode_bytes l) in Hc.
  apply elem_of_cons in Hc as [->|Hc]; [by apply HP|]. apply elem_of_cons in Hc as [->|Hc]; [by apply HP|by apply IH].
Qed.

Lemma upper_all (P : ascii -> Prop) l : (forall d, 0 <= d < 16 -> P (upper_chr (hex_digit d))) ->
  forall c, c ∈ map upper_chr (hex_encode_bytes l) -> P c.
Proof.
  intros HP c Hc. apply list_elem_of_In, in_map_iff in Hc as (x & <- & Hx%list_elem_of_In).
  by apply (hex_bytes_all (fun x => P (upper_chr x)) l HP).
Qed.
Lemma sql_hex_lower s : map lower_chr (map upper_chr (hex_encode_bytes (explode s))) = hex_encode_bytes (explode s).
Proof.
  rewrite map_map. rewrite <-(map_id (hex_encode_bytes (explode s))) at 2. apply map_ext_in. intros c Hc%list_elem_of_In.
  apply (hex_bytes_all (fun c => lower_chr (upper_chr c) = c) (explode s)); [|done]. intros d Hd. by apply upper_digit.
Qed.
Lemma sql_hex_inj s t : sql_hex s = sql_hex t -> s = t.
Proof.
  unfold sql_hex. intros H. apply (f_equal explode) in H. rewrite !explode_implode in H. apply (f_equal (map lower_chr)) in H.
  rewrite !sql_hex_lower in H. apply explode_inj. pose proof (hex_decode_encode (explode s)) as E. rewrite H, hex_decode_encode in E. congruence.
Qed.
Lemma sql_hex_no_colon s : ":"%char ∉ explode (sql_hex s).
Proof.
  unfold sql_hex. rewrite explode_implode. intros H. apply (upper_all (fun c => c <> ":"%char) (explode s)) in H; [done|].
  intros d Hd. by apply upper_digit.
Qed.
Lemma prompt_request_id_inj s e s' e' : prompt_request_id s e = prompt_request_id s' e' -> s = s' /\ e = e'.
Proof.
  unfold prompt_request_id. intros H%string_app_inj_l. apply (f_equal explode) in H. rewrite !explode_app in H.
  apply delimited_inj in H as [H1%explode_inj H2%explode_inj]; [|apply sql_hex_no_colon..]. split; by apply sql_hex_inj.
Qed.
Lemma prompt_request_id_trimmed s e : TrimSpace (prompt_request_id s e) = prompt_request_id s e.
Proof.
  apply TrimSpace_graphic. unfold prompt_request_id, sql_hex. rewrite !explode_app, !explode_implode, !forallb_app.
  assert (Hg : forall l, forallb graphic (map upper_chr (hex_encode_bytes l)) = true).
  { intros l. apply forallb_forall. intros c Hc%list_elem_of_In. apply (upper_all (fun c => graphic c = true) l); [|done].
    intros d Hd. by apply upper_digit. }
  by rewrite !Hg.
Qed.

(** ** Well-formed ledgers *)

Definition identity_of (r : RequestRow) :=
  (q_id r, q_session r, q_client r, q_requested_at r, q_at_event r, q_signal r, q_pressure r, q_threshold r, q_re_request r,
   q_delivery r, q_request_id r).

(** A lease exists exactly while the prompt is claimed; a delivery time only
    afterwards. *)
Definition prompt_ok (r : RequestRow) : Prop :=
  (q_state r = "claimed" <-> is_Some (q_token r)) /\ (is_Some (q_token r) <-> is_Some (q_lease r)) /\
  (is_Some (q_delivered_at r) -> q_state r = "delivered" \/ q_state r = "fulfilled") /\
  (q_state r = "delivered" -> is_Some (q_delivered_at r)).

Record ledger_ok (l : Ledger) : Prop := {
  lo_sorted : StronglySorted (fun r r' => q_id r' < q_id r) (lg_rows l);
  lo_bound : forall r, r ∈ lg_rows l -> q_id r < lg_next l;
  lo_unique : forall r r', r ∈ lg_rows l -> r' ∈ lg_rows l -> q_session r = q_session r' -> q_at_event r = q_at_event r' -> r = r';
  lo_request : forall r, r ∈ lg_rows l -> q_request_id r = prompt_request_id (q_session r) (q_at_event r);
  lo_prompt : forall r, r ∈ lg_rows l -> prompt_ok r }.

Lemma lo_by_request l r r' : ledger_ok l -> r ∈ lg_rows l -> r' ∈ lg_rows l -> q_request_id r = q_request_id r' -> r = r'.
Proof.
  intros Hl Hr Hr'. rewrite (lo_request l Hl r Hr), (lo_request l Hl r' Hr'). intros [E1 E2]%prompt_request_id_inj. by apply (lo_unique l).
Qed.
Lemma sorted_by_id rows r r' : StronglySorted (fun r r' => q_id r' < q_id r) rows -> r ∈ rows -> r' ∈ rows -> q_id r = q_id r' -> r = r'.
Proof.
  induction 1 as [|x rows Hs IH Hx]; intros Hr Hr' E; [by apply elem_of_nil in Hr|]. rewrite Forall_forall in Hx.
  apply elem_of_cons in Hr as [->|Hr], Hr' as [->|Hr']; [done|apply Hx in Hr'; lia|apply Hx in Hr; lia|by apply IH].
Qed.
Lemma lo_by_id l r r' : ledger_ok l -> r ∈ lg_rows l -> r' ∈ lg_rows l -> q_id r = q_id r' -> r = r'.
Proof. intros Hl. apply sorted_by_id, Hl. Qed.

Lemma newest_some l cond r : newest l cond = Some r -> r ∈ lg_rows l /\ cond r = true.
Proof. intros [H1 H2]%find_some. split; [by apply list_elem_of_In|done]. Qed.
Lemma newest_none l cond r : newest l cond = None -> r ∈ lg_rows l -> cond r = false.
Proof. intros H Hr%list_elem_of_In. by apply (find_none _ _ H). Qed.
Lemma newest_max l cond r r' : ledger_ok l -> newest l cond = Some r -> r' ∈ lg_rows l -> cond r' = true -> q_id r' <= q_id r.
Proof.
  intros Hl. pose proof (lo_sorted l Hl) as Hs. unfold newest. induction Hs as [|x rows Hs IH Hx]; [done|]. cbn [find].
  destruct (cond x) eqn:Ex.
  - intros [= <-] [->|Hr']%elem_of_cons _; [lia|]. rewrite Forall_forall in Hx. apply Hx in Hr'. lia.
  - intros Hf [->|Hr']%elem_of_cons Hc; [congruence|by apply IH].
Qed.

Lemma prompt_idle r st cl de : st <> "claimed" -> (is_Some de -> st = "delivered" \/ st = "fulfilled") -> (st = "delivered" -> is_Some de) ->
  prompt_ok (set_prompt r st None cl None de).
Proof. intros H1 H2 H3. unfold prompt_ok. cbn. split_and!; [|done|done|done]. split; [done|by intros []]. Qed.
Lemma prompt_claimed r token claimed lease de : de = None -> prompt_ok (set_prompt r "claimed" (Some token) claimed (Some lease) de).
Proof. intros ->. unfold prompt_ok. cbn. split_and!; [split; eauto|split; eauto|by intros []|done]. Qed.

(** ** What a row may become *)

(** The request itself never changes; an outcome, once recorded, stays with
    its reason, author, time and generation; a delivery is recorded once; a
    prompt that was delivered is not offered again, and one that is fulfilled
    stays so. *)
Record row_later (r r' : RequestRow) : Prop := {
  rl_identity : identity_of r' = identity_of r;
  rl_outcome : is_Some (q_outcome r) -> q_outcome r' = q_outcome r /\ q_reason r' = q_reason r /\ q_produced_by r' = q_produced_by r /\
               q_refined_at r' = q_refined_at r /\ q_generation r' = q_generation r;
  rl_delivered : is_Some (q_delivered_at r) -> q_delivered_at r' = q_delivered_at r;
  rl_after : q_state r = "delivered" -> q_state r' = "delivered" \/ q_state r' = "fulfilled";
  rl_fulfilled : q_state r = "fulfilled" -> q_state r' = "fulfilled" }.

Lemma row_later_refl r : row_later r r.
Proof. split; auto. Qed.
Lemma row_later_trans a b c : row_later a b -> row_later b c -> row_later a c.
Proof.
  intros [I1 O1 D1 A1 F1] [I2 O2 D2 A2 F2]. split.
  - congruence.
  - intros H. destruct (O1 H) as (E1 & E2 & E3 & E4 & E5). rewrite <-E1, <-E2, <-E3, <-E4, <-E5. apply O2. by rewrite E1.
  - intros H. pose proof (D1 H) as E. rewrite <-E. apply D2. by rewrite E.
  - intros H. destruct (A1 H); auto.
  - auto.
Qed.

(** No request is lost, and each is as it was or later. *)
Definition ledger_later (l l' : Ledger) : Prop :=
  ledger_ok l -> ledger_ok l' /\ forall r, r ∈ lg_rows l -> exists r', r' ∈ lg_rows l' /\ row_later r r'.
Lemma ledger_later_refl l : ledger_later l l.
Proof. intros Hl. split; [done|]. eauto using row_later_refl. Qed.
Lemma ledger_later_trans a b c : ledger_later a b -> ledger_later b c -> ledger_later a c.
Proof.
  intros H1 H2 Ha. destruct (H1 Ha) as [Hb R1]. destruct (H2 Hb) as [Hc R2]. split; [done|]. intros r Hr.
  destruct (R1 r Hr) as (r' & Hr' & L1). destruct (R2 r' Hr') as (r'' & Hr'' & L2). eauto using row_later_trans.
Qed.

Lemma elem_of_update l cond f r' : r' ∈ lg_rows (update l cond f) <-> exists r, r ∈ lg_rows l /\ r' = if cond r then f r else r.
Proof. unfold update. cbn. rewrite list_elem_of_In, in_map_iff. setoid_rewrite <-list_elem_of_In. naive_solver. Qed.

Lemma identity_fields r r' : identity_of r' = identity_of r ->
  q_id r' = q_id r /\ q_session r' = q_session r /\ q_at_event r' = q_at_event r /\ q_request_id r' = q_request_id r /\
  q_client r' = q_client r /\ q_delivery r' = q_delivery r.
Proof. unfold identity_of. by intros [= -> -> -> _ -> _ _ _ _ -> ->]. Qed.

Lemma update_later l cond f : (forall r, r ∈ lg_rows l -> cond r = true -> prompt_ok r -> prompt_ok (f r) /\ row_later r (f r)) ->
  ledger_later l (update l cond f).
Proof.
  intros Hf Hl. set (g := fun r => if cond r then f r else r).
  assert (Hg : forall r, r ∈ lg_rows l -> prompt_ok (g r) /\ row_later r (g r)).
  { intros r Hr. pose proof (lo_prompt l Hl r Hr). unfold g. destruct (cond r) eqn:E; [auto|]. auto using row_later_refl. }
  assert (Hid : forall r, r ∈ lg_rows l -> q_id (g r) = q_id r /\ q_session (g r) = q_session r /\ q_at_event (g r) = q_at_event r /\
            q_request_id (g r) = q_request_id r).
  { intros r Hr. destruct (Hg r Hr) as [_ [I _ _ _ _]]. apply identity_fields in I. naive_solver. }
  split; [|intros r Hr; exists (g r); split; [apply elem_of_update; eauto|by apply Hg]]. split.
  - cbn. fold g. pose proof (lo_sorted l Hl) as Hs. revert Hid. clear -Hs. induction Hs as [|x rows Hs IH Hx]; intros Hid; cbn; [constructor|].
    constructor; [apply IH; intros r Hr; apply Hid; by right|]. apply Forall_map. rewrite Forall_forall in *. intros r Hr. unfold compose.
    destruct (Hid x) as [-> _]; [by left|]. destruct (Hid r) as [-> _]; [by right|]. by apply Hx.
  - intros r' (r & Hr & ->)%elem_of_update. fold (g r). destruct (Hid r Hr) as [-> _]. by apply (lo_bound l).
  - intros a b (r & Hr & ->)%elem_of_update (r' & Hr' & ->)%elem_of_update. fold (g r) (g r').
    destruct (Hid r Hr) as (_ & -> & -> & _), (Hid r' Hr') as (_ & -> & -> & _). intros E1 E2.
    by rewrite (lo_unique l Hl r r').
  - intros r' (r & Hr & ->)%elem_of_update. fold (g r). destruct (Hid r Hr) as (_ & -> & -> & ->). by apply (lo_request l).
  - intros r' (r & Hr & ->)%elem_of_update. by apply Hg.
Qed.

Lemma set_prompt_identity r st tk cl le de : identity_of (set_prompt r st tk cl le de) = identity_of r.
Proof. done. Qed.
Lemma set_outcome_identity r o re pb at_ g : identity_of (set_outcome r o re pb at_ g) = identity_of r.
Proof. done. Qed.

(** ** The operations *)

Section Facts.
Context (parse_layout : string -> result Time).
Notation lrun := (ledger_run parse_layout).

Lemma insert_later l r : ledger_later l (snd (insert_or_ignore l r)).
Proof.
  intros Hl. unfold insert_or_ignore. destruct (existsb (conflicts r) (lg_rows l) || _) eqn:E; cbn [snd].
  { split; [done|]. eauto using row_later_refl. }
  apply orb_false_iff in E as [E _]. assert (Hc : forall row, row ∈ lg_rows l -> conflicts r row = false).
  { intros row Hrow. apply not_true_iff_false. intros Hc. rewrite (proj2 (existsb_exists _ _)) in E; [done|].
    exists row. by split; [apply list_elem_of_In|]. }
  assert (Hnew : forall row, row ∈ lg_rows l -> q_session row = cr_session r -> q_at_event row = cr_at_event r -> False).
  { intros row Hrow E1 E2. pose proof (Hc row Hrow) as H. unfold conflicts in H. by rewrite E1, E2, !String.eqb_refl in H. }
  split; [|intros row Hrow; exists row; split; [by right|apply row_later_refl]]. split; cbn [lg_rows lg_next].
  - constructor; [apply Hl|]. apply Forall_forall. intros row Hrow. by apply (lo_bound l).
  - intros row [->|Hrow]%elem_of_cons; [cbn; lia|]. pose proof (lo_bound l Hl row Hrow). lia.
  - intros a b [->|Ha]%elem_of_cons [->|Hb]%elem_of_cons E1 E2; cbn in E1, E2; [done|by destruct (Hnew b Hb)|by destruct (Hnew a Ha)|].
    by apply (lo_unique l).
  - intros row [->|Hrow]%elem_of_cons; [done|by apply (lo_request l)].
  - intros row [->|Hrow]%elem_of_cons; [|by apply (lo_prompt l)].
    unfold prompt_ok. cbn. split_and!; [split; [done|by intros []]|done|by intros []|done].
Qed.

Lemma claim_later l sessionID at_ row token claimed expires : ledger_ok l -> newest l (claimable sessionID at_) = Some row ->
  ledger_later l (update l (has_id (q_id row)) (claim_row token claimed expires)).
Proof.
  intros Hl [Hin Hc]%newest_some. apply update_later. intros r Hr Hid%Z.eqb_eq (P1 & P2 & P3 & P4).
  assert (r = row) as -> by (by eapply lo_by_id). unfold claimable in Hc. rewrite !andb_true_iff in Hc. destruct Hc as [[_ Hopen] Hst].
  assert (Hnd : q_state row <> "delivered" /\ q_state row <> "fulfilled").
  { apply orb_true_iff in Hst as [Hst|[Hst _]%andb_true_iff]; apply String.eqb_eq in Hst; rewrite Hst; by split. }
  assert (Hnone : q_delivered_at row = None).
  { destruct (q_delivered_at row) eqn:E; [|done]. exfalso. destruct (P3 ltac:(eauto)); tauto. }
  split; [by apply prompt_claimed|]. split; cbn; try done; try tauto.
Qed.

Lemma leased_later l requestID token st de : st = "pending" /\ de = None \/ st = "delivered" /\ is_Some de ->
  ledger_later l (update l (leased requestID token)
    (fun r => set_prompt r st None None None (match de with Some d => Some d | None => q_delivered_at r end))).
Proof.
  intros Hde Hl. apply update_later; [|done]. intros r Hr Hc (P1 & P2 & P3 & P4). unfold leased in Hc. rewrite !andb_true_iff in Hc.
  destruct Hc as [[_ Htk] Hst%String.eqb_eq].
  assert (Hnd : q_delivered_at r = None).
  { destruct (q_delivered_at r); [|done]. destruct P3 as [E|E]; [by eauto|congruence|congruence]. }
  destruct Hde as [[-> ->]|[-> [d ->]]].
  - rewrite Hnd. split; [apply prompt_idle; [done|by intros []|done]|]. split; cbn; try done; congruence.
  - split; [apply prompt_idle; auto; done|]. split; cbn; try done; try congruence. rewrite Hnd. by intros [].
Qed.

Lemma stamp_later l row stamp : ledger_ok l -> newest l (open_of (st_session stamp)) = Some row ->
  ledger_later l (update l (has_id (q_id row)) (stamp_row stamp)).
Proof.
  intros Hl [Hin Hc]%newest_some. apply update_later. intros r Hr Hid%Z.eqb_eq Hp.
  assert (r = row) as -> by (by eapply lo_by_id). unfold open_of in Hc. apply andb_true_iff in Hc as [_ Hopen].
  assert (Hnot : ~ is_Some (q_outcome row)) by (destruct (q_outcome row); [done|by intros []]).
  unfold stamp_row. destruct (_ && _).
  - split; [apply prompt_idle; [done|by right|done]|]. split; cbn; try done; try tauto; auto.
  - split; [exact Hp|]. split; cbn; try done; tauto.
Qed.
Lemma fulfill_later l sessionID : ledger_later l (update l (superseded l sessionID) fulfill).
Proof.
  intros Hl. apply update_later; [|done]. intros r Hr Hc Hp. unfold superseded in Hc. rewrite !andb_true_iff in Hc.
  split; [apply prompt_idle; [done|by right|done]|]. split; cbn; auto.
Qed.
Lemma mark_later l stamp : ledger_later l (snd (MarkRefineOutcome l stamp)).
Proof.
  intros Hl. unfold MarkRefineOutcome. destruct (newest l _) as [row|] eqn:E; [|by apply ledger_later_refl].
  destruct (negb _); [by apply ledger_later_refl|]. pose proof (stamp_later l row stamp Hl E) as H. cbn [snd].
  destruct (_ =?s _); [|by apply H]. by apply (ledger_later_trans l _ _ H (fulfill_later _ _)).
Qed.

Lemma run_later B (op : LedgerOp B) l : ledger_later l (snd (lrun B op l)).
Proof.
  destruct op as [[r|]|sid|sid|stamp|sid token at_ ex|rid token|rid token at_]; cbn [ledger_run snd]; try apply ledger_later_refl.
  - unfold Save. pose proof (insert_later l r) as H. by destruct (insert_or_ignore l r).
  - apply mark_later.
  - unfold ClaimCodexPrompt. intros Hl. destruct (newest l _) as [row|] eqn:E; [|by apply ledger_later_refl]. by eapply claim_later.
  - by apply (leased_later l rid token "pending" None); left.
  - apply (leased_later l rid token "delivered" (Some (formatMemoryValidityTimestamp at_))). right. eauto.
Qed.

(** Any call of any process, answered or not. *)
Inductive ledger_step (allowed : forall B, LedgerOp B -> Prop) : Ledger -> Ledger -> Prop :=
| ledger_call l B (op : LedgerOp B) r l' : allowed B op -> answer lrun op l r l' -> ledger_step allowed l l'.
Definition any_call : forall B, LedgerOp B -> Prop := fun _ _ => True.

Lemma answer_state B (op : LedgerOp B) l r l' : answer lrun op l r l' -> l' = l \/ l' = snd (lrun B op l).
Proof. destruct 1; auto. Qed.
Lemma step_later allowed l l' : ledger_step allowed l l' -> ledger_later l l'.
Proof. intros [m B op r m' _ Ha]. destruct (answer_state _ _ _ _ _ Ha) as [->| ->]; [apply ledger_later_refl|apply run_later]. Qed.
Lemma steps_later allowed l l' : star (ledger_step allowed) l l' -> ledger_later l l'.
Proof. induction 1; [apply ledger_later_refl|]. eapply ledger_later_trans; [by eapply step_later|done]. Qed.

(** ** Requests *)

Lemma save_exact l r : ledger_ok l -> cr_delivery r = "none" \/ cr_delivery r = "stop_exit_2" \/ cr_delivery r = "additional_context" ->
  fst (Save l (Some r)) = Ok (negb (existsb (fun row => (q_session row =?s cr_session r) && (q_at_event row =?s cr_at_event r)) (lg_rows l))).
Proof.
  intros Hl Hd. unfold Save, insert_or_ignore. assert (Hk : known_delivery (cr_delivery r) = true) by (by destruct Hd as [->|[->| ->]]).
  rewrite Hk, orb_false_r. assert (E : existsb (conflicts r) (lg_rows l) =
    existsb (fun row => (q_session row =?s cr_session r) && (q_at_event row =?s cr_at_event r)) (lg_rows l)).
  { apply eq_iff_eq_true. rewrite !existsb_exists. split; intros (row & Hin & H); exists row; (split; [done|]).
    - unfold conflicts in H. apply orb_true_iff in H as [H|H%String.eqb_eq]; [done|].
      rewrite (lo_request l Hl row) in H by (by apply list_elem_of_In). apply prompt_request_id_inj in H as [-> ->]. by rewrite !String.eqb_refl.
    - unfold conflicts. by rewrite H. }
  rewrite E. clear E. match goal with |- context [if ?b then (0, l) else _] => by destruct b end.
Qed.

Lemma saved_again l r l' : ledger_ok l -> fst (Save l (Some r)) = Ok true -> ledger_later (snd (Save l (Some r))) l' ->
  Save l' (Some r) = (Ok false, l').
Proof.
  intros Hl Hok Hlater. pose proof (run_later _ (OpSave (Some r)) l Hl) as [Hl1 _]. cbn [ledger_run] in Hl1.
  destruct (Hlater Hl1) as [_ Hrows]. unfold Save, insert_or_ignore in *.
  destruct (existsb (conflicts r) (lg_rows l) || _) eqn:E; [done|]. cbn [snd lg_rows] in Hrows.
  destruct (Hrows (insert_row (lg_next l) r)) as (row' & Hin & [I _ _ _ _]); [by left|].
  apply identity_fields in I as (_ & E1 & E2 & _).
  rewrite (proj2 (existsb_exists (conflicts r) (lg_rows l'))); [done|]. exists row'. split; [by apply list_elem_of_In|].
  unfold conflicts. rewrite E1, E2. cbn. by rewrite !String.eqb_refl.
Qed.

(** A fold is requested once for each event of a session: whatever
    calls the processes make, answered or lost, no request is ever dropped or
    altered -- its outcome is recorded once, with its reason, author, time and
    generation, its delivery once -- and a request can be saved exactly when
    none of the same session and event has ever been. *)
Theorem consolidation_request_once l l' r :
  ledger_ok l -> star (ledger_step any_call) l l' ->
  ledger_ok l' /\ (forall row, row ∈ lg_rows l -> exists row', row' ∈ lg_rows l' /\ row_later row row') /\
  (known_delivery (cr_delivery r) = true ->
   fst (Save l' (Some r)) = Ok true <-> forall row, row ∈ lg_rows l' -> ~ (q_session row = cr_session r /\ q_at_event row = cr_at_event r)) /\
  (fst (Save l (Some r)) = Ok true -> star (ledger_step any_call) (snd (Save l (Some r))) l' -> Save l' (Some r) = (Ok false, l')).
Proof.
  intros Hl Hs. destruct (steps_later _ _ _ Hs Hl) as [Hl' Hrows]. split_and!; [done|done| |].
  - intros Hk. rewrite save_exact; [|done|unfold known_delivery in Hk; rewrite !orb_true_iff, !String.eqb_eq in Hk; tauto].
    split.
    + intros [= H%negb_true_iff] row Hrow [E1 E2]. rewrite (proj2 (existsb_exists _ _)) in H; [done|]. exists row.
      split; [by apply list_elem_of_In|]. by rewrite E1, E2, !String.eqb_refl.
    + intros H. f_equal. apply negb_true_iff, not_true_iff_false. intros (row & Hrow & [E1%String.eqb_eq E2%String.eqb_eq]%andb_true_iff)%existsb_exists.
      apply (H row); [by apply list_elem_of_In|done].
  - intros Hok Hs'. apply (saved_again l r); [done..|]. by eapply steps_later.
Qed.

(** ** Leases *)

Lemma update_other l cond f row : row ∈ lg_rows l -> cond row = false -> row ∈ lg_rows (update l cond f).
Proof. intros Hr Hc. apply elem_of_update. exists row. by rewrite Hc. Qed.

Lemma rows_nodup l : ledger_ok l -> NoDup (lg_rows l).
Proof.
  intros Hl. pose proof (lo_sorted l Hl) as Hs. induction Hs as [|x rows Hs IH Hx]; [constructor|]. constructor; [|done].
  intros Hin. rewrite Forall_forall in Hx. apply Hx in Hin. lia.
Qed.
Lemma affected_none l cond : (forall r, r ∈ lg_rows l -> cond r = false) -> affected l cond = 0.
Proof.
  unfold affected. intros H. induction (lg_rows l) as [|x rows IH]; [done|]. cbn [List.filter]. rewrite H by (by left).
  apply IH. intros r Hr. apply H. by right.
Qed.
Lemma affected_one l cond row : ledger_ok l -> row ∈ lg_rows l -> cond row = true ->
  (forall r, r ∈ lg_rows l -> cond r = true -> r = row) -> affected l cond = 1.
Proof.
  intros Hl Hin Hc Hu. pose proof (rows_nodup l Hl) as Hnd. unfold affected.
  induction Hnd as [|x rows Hx Hnd IH]; [by apply elem_of_nil in Hin|]. cbn [List.filter]. destruct (cond x) eqn:E.
  - assert (Ex : x = row) by (by apply Hu; [left|]). subst x.
    pose proof (affected_none (mkLedger rows 0) cond) as H0. unfold affected in H0. cbn [lg_rows] in H0. unfold llen in *. cbn [List.length].
    assert (Hz : forall r, r ∈ rows -> cond r = false).
    { intros r Hr. apply not_true_iff_false. intros Hcr. assert (r = row) as -> by (by apply Hu; [right|]). done. }
    specialize (H0 Hz). lia.
  - apply IH; [|intros r Hr; apply Hu; by right]. apply elem_of_cons in Hin as [->|Hin]; [congruence|done].
Qed.

(** Who holds the lease of a request, and until when. *)
Definition held (rid sid token expires : string) (l : Ledger) : Prop :=
  ledger_ok l /\ exists row, row ∈ lg_rows l /\ q_request_id row = rid /\ q_session row = sid /\ q_state row = "claimed" /\
    q_token row = Some token /\ q_lease row = Some expires.

(** Calls that leave a lease alone until it expires: claims made before then;
    releases and confirmations under other leases; outcomes of other sessions,
    and rejections. *)
Definition before_expiry (rid sid token : string) (expires : Time) : forall B, LedgerOp B -> Prop := fun B op =>
  match op with
  | OpClaim _ _ at_ _ => four_digits at_ /\ ns at_ < ns expires
  | OpRelease rid' token' | OpConfirm rid' token' _ => ~ (rid' = rid /\ token' = token)
  | OpMark stamp => st_session stamp = sid -> st_outcome stamp <> ConsolidationRefineAccepted
  | _ => True
  end.

Lemma not_claimable sid expires at_ row : four_digits at_ -> four_digits expires -> ns at_ < ns expires ->
  q_state row = "claimed" -> q_lease row = Some (formatMemoryValidityTimestamp expires) ->
  claimable sid (formatMemoryValidityTimestamp at_) row = false.
Proof.
  intros Ha He Hlt Hst Hlease. apply not_true_iff_false. unfold claimable. rewrite !andb_true_iff, orb_true_iff, andb_true_iff, Hst.
  intros [_ [H|[_ H]]]; [done|]. unfold le_text in H. rewrite Hlease, (fixed_chronological expires at_ He Ha) in H.
  destruct (Z.compare_spec (ns expires) (ns at_)); [lia|lia|done].
Qed.

Lemma held_step rid sid token expires l l' : four_digits expires ->
  ledger_step (before_expiry rid sid token expires) l l' ->
  held rid sid token (formatMemoryValidityTimestamp expires) l -> held rid sid token (formatMemoryValidityTimestamp expires) l'.
Proof.
  intros He Hstep [Hl (row & Hin & Hrid & Hsid & Hst & Htk & Hle)]. destruct (step_later _ _ _ Hstep Hl) as [Hl' _]. split; [done|].
  destruct Hstep as [l B op r l' Hop Ha]. destruct (answer_state _ _ _ _ _ Ha) as [->| ->]; [exists row; by split_and!|].
  assert (Hkeep : row ∈ lg_rows (snd (lrun B op l)) -> exists row, row ∈ lg_rows (snd (lrun B op l)) /\ q_request_id row = rid /\ q_session row = sid /\
    q_state row = "claimed" /\ q_token row = Some token /\ q_lease row = Some (formatMemoryValidityTimestamp expires)).
  { intros H. exists row. by split_and!. }
  destruct op as [[q|]|sid'|sid'|stamp|sid' token' at_ ex|rid' token'|rid' token' at_]; cbn [ledger_run snd] in *; try (by apply Hkeep).
  - apply Hkeep. unfold Save, insert_or_ignore. destruct (_ || _); cbn; [done|by right].
  - unfold MarkRefineOutcome in *. destruct (newest l _) as [q|] eqn:Eq; [|by apply Hkeep]. destruct (negb _); [by apply Hkeep|]. cbn [snd].
    apply newest_some in Eq as [Hq Hopen]. unfold open_of in Hopen. apply andb_true_iff in Hopen as [Hsq%String.eqb_eq _].
    destruct (decide (st_session stamp = sid)) as [E|Hne].
    + specialize (Hop E). apply String.eqb_neq in Hop. rewrite Hop. exists (if has_id (q_id q) row then stamp_row stamp row else row).
      split; [apply elem_of_update; eauto|]. destruct (has_id _ _); [|by split_and!]. unfold stamp_row. rewrite Hop. by cbn.
    + assert (Hrow : row ∈ lg_rows (update l (has_id (q_id q)) (stamp_row stamp))).
      { apply update_other; [done|]. apply Z.eqb_neq. intros E. apply Hne. rewrite <-Hsq. by rewrite <-(lo_by_id l row q Hl Hin Hq E). }
      exists row. split; [|by split_and!]. destruct (_ =?s _); [|done]. apply update_other; [done|]. unfold superseded.
      rewrite Hsid. apply String.eqb_neq in Hne. rewrite String.eqb_sym in Hne. by rewrite Hne.
  - destruct Hop as [H4 Hlt]. apply Hkeep. unfold ClaimCodexPrompt. destruct (newest l _) as [q|] eqn:Eq; [|done]. cbn [snd].
    apply newest_some in Eq as [Hq Hc]. apply update_other; [done|]. apply Z.eqb_neq. intros E.
    rewrite <-(lo_by_id l row q Hl Hin Hq E) in Hc. by rewrite (not_claimable sid' expires at_ row) in Hc.
  - apply Hkeep. apply update_other; [done|]. apply not_true_iff_false. unfold leased. rewrite Hrid, Htk. cbn.
    intros [[E1%String.eqb_eq E2%String.eqb_eq]%andb_true_iff _]%andb_true_iff. by apply Hop.
  - apply Hkeep. apply update_other; [done|]. apply not_true_iff_false. unfold leased. rewrite Hrid, Htk. cbn.
    intros [[E1%String.eqb_eq E2%String.eqb_eq]%andb_true_iff _]%andb_true_iff. by apply Hop.
Qed.

Lemma claim_inv l sid token at_ ex c l' : ledger_ok l -> ClaimCodexPrompt parse_layout l sid token at_ ex = (Ok (Some c), l') ->
  exists row, newest l (claimable sid (formatMemoryValidityTimestamp at_)) = Some row /\ cl_request_id c = q_request_id row /\ cl_token c = token /\
  l' = update l (has_id (q_id row)) (claim_row token (formatMemoryValidityTimestamp at_) (formatMemoryValidityTimestamp ex)).
Proof.
  intros Hl. unfold ClaimCodexPrompt. destruct (newest l _) as [row|] eqn:E; [|done]. intros [= H <-]. exists row. split; [done|].
  apply newest_some in E as [Hin _]. unfold wrap_err, NewCodexPromptClaim, ConsolidationPromptRequestIDFrom in H. ok_inv H. split_and!; try done.
  cbn. by rewrite (lo_request l Hl row Hin), prompt_request_id_trimmed.
Qed.
Lemma claim_holds l sid token at_ ex c l' : ledger_ok l -> ClaimCodexPrompt parse_layout l sid token at_ ex = (Ok (Some c), l') ->
  held (cl_request_id c) sid token (formatMemoryValidityTimestamp ex) l'.
Proof.
  intros Hl Hc. pose proof (run_later _ (OpClaim sid token at_ ex) l Hl) as [Hl' _]. cbn [ledger_run] in Hl'. rewrite Hc in Hl'. split; [done|].
  destruct (claim_inv _ _ _ _ _ _ _ Hl Hc) as (row & E & -> & _ & ->). apply newest_some in E as [Hin Hcl].
  exists (claim_row token (formatMemoryValidityTimestamp at_) (formatMemoryValidityTimestamp ex) row).
  split; [apply elem_of_update; exists row; unfold has_id; by rewrite Z.eqb_refl|]. unfold claimable in Hcl.
  rewrite !andb_true_iff in Hcl. destruct Hcl as [[[[Hs%String.eqb_eq _] _] _] _]. by cbn.
Qed.

Lemma transition_ok l rid token f row : ledger_ok l -> row ∈ lg_rows l -> leased rid token row = true ->
  fst (transitionCodexPrompt l rid token f) = Ok tt.
Proof.
  intros Hl Hin Hc. unfold transitionCodexPrompt, requireOneCodexPromptTransition. cbn [fst].
  rewrite (affected_one l (leased rid token) row Hl Hin Hc); [done|]. intros r Hr Hcr. apply (lo_by_request l); [done..|].
  unfold leased in *. rewrite !andb_true_iff in *. destruct Hc as [[E1%String.eqb_eq _] _], Hcr as [[E2%String.eqb_eq _] _]. congruence.
Qed.
Lemma transition_refused l rid token f : (forall row, row ∈ lg_rows l -> leased rid token row = false) ->
  fst (transitionCodexPrompt l rid token f) = Err (Errorf "Codex prompt lease was no longer active" []).
Proof. intros H. unfold transitionCodexPrompt, requireOneCodexPromptTransition. cbn [fst]. by rewrite affected_none. Qed.

(** (C11) A lease is exclusive until it expires.  From the moment a process has
    claimed a prompt, through any calls of the others -- claims at earlier
    instants than the expiry, releases and confirmations under other leases,
    saved requests, outcomes of other sessions and rejections -- no claim
    before the expiry returns that prompt, no other token can confirm or
    release it, and the holder's confirmation is accepted. *)
Theorem prompt_lease_exclusive l l1 l2 sid token at_ expires claim :
  ledger_ok l -> four_digits expires -> ClaimCodexPrompt parse_layout l sid token at_ expires = (Ok (Some claim), l1) ->
  star (ledger_step (before_expiry (cl_request_id claim) sid token expires)) l1 l2 ->
  (forall delivered, fst (ConfirmCodexPrompt l2 (cl_request_id claim) token delivered) = Ok tt) /\
  (forall token' delivered, token' <> token ->
     is_ok (fst (ConfirmCodexPrompt l2 (cl_request_id claim) token' delivered)) = false /\
     is_ok (fst (ReleaseCodexPrompt l2 (cl_request_id claim) token')) = false) /\
  (forall sid' token' t x c, four_digits t -> ns t < ns expires ->
     fst (ClaimCodexPrompt parse_layout l2 sid' token' t x) = Ok (Some c) -> cl_request_id c <> cl_request_id claim).
Proof.
  intros Hl He Hc Hs. pose proof (claim_holds _ _ _ _ _ _ _ Hl Hc) as Hheld. clear Hc.
  assert (H2 : held (cl_request_id claim) sid token (formatMemoryValidityTimestamp expires) l2) by (induction Hs; eauto using held_step).
  destruct H2 as [Hl2 (row & Hin & Hrid & Hsid & Hst & Htk & Hle)]. split_and!.
  - intros delivered. apply (transition_ok l2 _ _ _ row); [done..|]. unfold leased. rewrite Hrid, Htk, Hst. cbn. by rewrite !String.eqb_refl.
  - intros token' delivered Hne. unfold ConfirmCodexPrompt, ReleaseCodexPrompt. rewrite !transition_refused; [done|..].
    all: intros r Hr; apply not_true_iff_false; unfold leased; rewrite !andb_true_iff; intros [[E1%String.eqb_eq E2] _];
      assert (r = row) as -> by (apply (lo_by_request l2); [done..|congruence]); rewrite Htk in E2; cbn in E2; apply String.eqb_eq in E2; congruence.
  - intros sid' token' t x c Ht Hlt Hclaim Heq. destruct (ClaimCodexPrompt _ _ _ _ _ _) as [res l3] eqn:E. cbn [fst] in Hclaim. subst res.
    destruct (claim_inv _ _ _ _ _ _ _ Hl2 E) as (q & Eq & Hq & _). apply newest_some in Eq as [Hqin Hcl].
    assert (q = row) as -> by (apply (lo_by_request l2); [done..|congruence]).
    by rewrite (not_claimable sid' expires t row) in Hcl.
Qed.

(** ** Delivery and coverage *)

Lemma idle_not_leased rid token r : prompt_ok r -> q_state r <> "claimed" -> leased rid token r = false.
Proof. intros _ H. apply String.eqb_neq in H. unfold leased. rewrite H. apply andb_false_r. Qed.

(** A prompt is delivered at most once: when a confirmation has been
    accepted, its lease was the one in the table; and from then on, whatever
    the processes do, the request is neither claimed, confirmed nor released
    again under any lease, and its delivery time stands. *)
Theorem prompt_delivered_once l l1 l2 rid token delivered :
  ledger_ok l -> ConfirmCodexPrompt l rid token delivered = (Ok tt, l1) -> star (ledger_step any_call) l1 l2 ->
  (exists row, row ∈ lg_rows l /\ q_request_id row = rid /\ q_token row = Some token /\
   exists row', row' ∈ lg_rows l2 /\ row_later row row' /\ q_delivered_at row' = Some (formatMemoryValidityTimestamp delivered)) /\
  (forall token' t, is_ok (fst (ConfirmCodexPrompt l2 rid token' t)) = false /\ is_ok (fst (ReleaseCodexPrompt l2 rid token')) = false) /\
  (forall sid token' t x c, fst (ClaimCodexPrompt parse_layout l2 sid token' t x) = Ok (Some c) -> cl_request_id c <> rid).
Proof.
  intros Hl Hc Hs. pose proof (run_later _ (OpConfirm rid token delivered) l Hl) as [Hl1 Hrows]. cbn [ledger_run] in Hl1, Hrows. rewrite Hc in Hl1, Hrows.
  cbn [snd] in Hl1, Hrows. injection Hc as Hok <-. unfold requireOneCodexPromptTransition in Hok.
  destruct (newest l (leased rid token)) as [row|] eqn:E.
  2: { rewrite affected_none in Hok; [done|]. intros r Hr. by apply (newest_none l (leased rid token)). }
  apply newest_some in E as [Hin Hleased]. pose proof Hleased as Hlease. unfold leased in Hlease. rewrite !andb_true_iff in Hlease.
  destruct Hlease as [[Hrid%String.eqb_eq Htk] Hclaimed%String.eqb_eq].
  set (row1 := set_prompt row "delivered" None None None (Some (formatMemoryValidityTimestamp delivered))).
  assert (Hin1 : row1 ∈ lg_rows (update l (leased rid token) (fun r => set_prompt r "delivered" None None None (Some (formatMemoryValidityTimestamp delivered))))).
  { apply elem_of_update. exists row. by rewrite Hleased. }
  destruct (Hrows row Hin) as (row1' & Hin1' & Hlater1).
  assert (row1' = row1) as ->.
  { apply (lo_by_id _ row1' row1 Hl1); [done..|]. by destruct (identity_fields _ _ (rl_identity _ _ Hlater1)) as (-> & _). }
  destruct (steps_later _ _ _ Hs Hl1) as [Hl2 Hrows2]. destruct (Hrows2 row1 Hin1) as (row2 & Hin2 & Hlater2).
  assert (Hrid2 : q_request_id row2 = rid) by (by destruct (identity_fields _ _ (rl_identity _ _ Hlater2)) as (_ & _ & _ & -> & _)).
  assert (Hst2 : q_state row2 <> "claimed" /\ q_state row2 <> "pending").
  { destruct (rl_after _ _ Hlater2 eq_refl) as [-> | ->]; by split. }
  assert (Honly : forall r, r ∈ lg_rows l2 -> q_request_id r = rid -> r = row2).
  { intros r Hr Hreq. apply (lo_by_request l2); [done..|congruence]. }
  assert (Hno : forall token' r, r ∈ lg_rows l2 -> leased rid token' r = false).
  { intros token' r Hr. destruct (decide (q_request_id r = rid)) as [Ereq|Hne].
    - rewrite (Honly r Hr Ereq). apply idle_not_leased; [by apply (lo_prompt l2)|tauto].
    - unfold leased. apply String.eqb_neq in Hne. by rewrite Hne. }
  split_and!.
  - exists row. split_and!; [done|done| |].
    + destruct (q_token row) as [tk|]; [|done]. apply String.eqb_eq in Htk. by rewrite Htk.
    + exists row2. split_and!; [done|by eapply row_later_trans|]. rewrite (rl_delivered _ _ Hlater2); [done|]. cbn. eauto.
  - intros token' t. unfold ConfirmCodexPrompt, ReleaseCodexPrompt. by rewrite !transition_refused by apply Hno.
  - intros sid token' t x c Hclaim Heq. destruct (ClaimCodexPrompt _ _ _ _ _ _) as [res l3] eqn:E. cbn [fst] in Hclaim. subst res.
    destruct (claim_inv _ _ _ _ _ _ _ Hl2 E) as (q & Eq & Hq & _). apply newest_some in Eq as [Hqin Hcl].
    assert (q = row2) as -> by (apply Honly; [done|congruence]). unfold claimable in Hcl. rewrite !andb_true_iff, orb_true_iff, andb_true_iff in Hcl.
    rewrite !String.eqb_eq in Hcl. tauto.
Qed.

(** Calls that record no new request of a session. *)
Definition no_new_request (sid : string) : forall B, LedgerOp B -> Prop := fun B op =>
  match op with OpSave (Some r) => cr_session r <> sid | _ => True end.

(** Nothing of a session can be claimed: its open prompts are fulfilled. *)
Definition covered (sid : string) (r : RequestRow) : Prop :=
  q_session r = sid -> q_client r = "codex" -> q_delivery r = ConsolidationDeliveryNone -> q_outcome r = None -> q_state r = "fulfilled".
Lemma covered_later sid r r' : row_later r r' -> covered sid r -> covered sid r'.
Proof.
  intros [I O _ _ F] Hc H1 H2 H3 H4. apply identity_fields in I as (_ & E1 & _ & _ & E2 & E3). apply F, Hc; try congruence.
  destruct (q_outcome r) as [o|] eqn:E; [|done]. destruct O as [O _]; [by eauto|]. congruence.
Qed.
Lemma covered_not_claimable sid at_ r : covered sid r -> claimable sid at_ r = false.
Proof.
  intros Hc. apply not_true_iff_false. unfold claimable. rewrite !andb_true_iff, !orb_true_iff, !andb_true_iff, !String.eqb_eq.
  intros [[[[H1 H2] H3] H4] H5]. assert (Ho : q_outcome r = None) by (by destruct (q_outcome r)). rewrite (Hc H1 H2 H3 Ho) in H5. naive_solver.
Qed.

Lemma update_back l cond f r' : (forall r, identity_of (f r) = identity_of r) -> ledger_ok l -> ledger_later l (update l cond f) ->
  r' ∈ lg_rows (update l cond f) -> exists r, r ∈ lg_rows l /\ row_later r r'.
Proof.
  intros Hf Hl Hlater Hr'. destruct (Hlater Hl) as [Hl' Hrows]. pose proof Hr' as Hin. apply elem_of_update in Hr' as (r & Hr & E).
  exists r. split; [done|]. destruct (Hrows r Hr) as (r'' & Hr'' & L). assert (r' = r'') as ->; [|done].
  apply (lo_by_id _ _ _ Hl'); [done..|]. destruct (identity_fields _ _ (rl_identity _ _ L)) as (-> & _). subst r'.
  destruct (cond r); [|done]. by destruct (identity_fields _ _ (Hf r)) as (-> & _).
Qed.

(** A row that the call inserted. *)
Definition saved_by {B} (op : LedgerOp B) (r : RequestRow) : Prop :=
  match op with OpSave (Some q) => q_session r = cr_session q | _ => False end.
Lemma run_back B (op : LedgerOp B) l r' : ledger_ok l -> r' ∈ lg_rows (snd (lrun B op l)) ->
  (exists r, r ∈ lg_rows l /\ row_later r r') \/ saved_by op r'.
Proof.
  intros Hl. assert (Hself : r' ∈ lg_rows l -> (exists r, r ∈ lg_rows l /\ row_later r r')) by eauto using row_later_refl.
  destruct op as [[q|]|sid|sid|stamp|sid token at_ ex|rid token|rid token at_]; cbn [ledger_run snd]; try (by left; apply Hself).
  - unfold Save, insert_or_ignore. destruct (_ || _); cbn [snd lg_rows]; [by left; apply Hself|].
    intros [->|Hr]%elem_of_cons; [by right|]. left. by apply Hself.
  - unfold MarkRefineOutcome. destruct (newest l _) as [row|] eqn:E; [|by left; apply Hself]. destruct (negb _); [by left; apply Hself|]. cbn [snd].
    pose proof (stamp_later l row stamp Hl E) as H1. destruct (H1 Hl) as [Hl1 _].
    assert (Hst : forall r, identity_of (stamp_row stamp r) = identity_of r) by (intros r; unfold stamp_row; by destruct (_ && _)).
    destruct (_ =?s _); intros Hr; left; [|by apply (update_back _ _ _ _ Hst Hl H1)].
    destruct (update_back _ _ fulfill _ (fun r => eq_refl) Hl1 (fulfill_later _ _) Hr) as (r1 & Hr1 & L1).
    destruct (update_back _ _ _ _ Hst Hl H1 Hr1) as (r & Hr0 & L0). eauto using row_later_trans.
  - unfold ClaimCodexPrompt. destruct (newest l _) as [row|] eqn:E; [|by left; apply Hself]. intros Hr. left.
    refine (update_back _ _ _ _ _ Hl (claim_later _ _ _ _ _ _ _ Hl E) Hr). done.
  - intros Hr. left. refine (update_back _ _ _ _ _ Hl _ Hr); [done|]. by apply (leased_later l rid token "pending" None); left.
  - intros Hr. left. refine (update_back _ _ _ _ _ Hl _ Hr); [done|].
    apply (leased_later l rid token "delivered" (Some (formatMemoryValidityTimestamp at_))). right. eauto.
Qed.

Lemma covered_steps sid l l' : star (ledger_step (no_new_request sid)) l l' -> ledger_ok l ->
  (forall r, r ∈ lg_rows l -> covered sid r) -> ledger_ok l' /\ forall r, r ∈ lg_rows l' -> covered sid r.
Proof.
  induction 1 as [l|l m l' Hstep _ IH]; intros Hl Hc; [by split|]. destruct (step_later _ _ _ Hstep Hl) as [Hm _]. apply IH; [done|].
  destruct Hstep as [l B op r m Hop Ha]. intros r' Hr'. destruct (answer_state _ _ _ _ _ Ha) as [->| ->]; [by apply Hc|].
  destruct (run_back B op l r' Hl Hr') as [(r0 & Hr0 & L)|Hs]; [by apply (covered_later _ r0), Hc|].
  intros Hsid. exfalso. destruct op as [[q|]| | | | | |]; cbn in Hs, Hop; congruence.
Qed.

(** An accepted refinement closes the session's prompts: once the
    outcome of a session's newest open request has been recorded as accepted,
    no prompt of the session can be claimed, however stale the lease or early
    the request, until a new request of the session is saved. *)
Theorem accepted_outcome_closes l l1 l2 stamp token at_ expires :
  ledger_ok l -> MarkRefineOutcome l stamp = (Ok true, l1) -> st_outcome stamp = ConsolidationRefineAccepted ->
  star (ledger_step (no_new_request (st_session stamp))) l1 l2 ->
  ClaimCodexPrompt parse_layout l2 (st_session stamp) token at_ expires = (Ok None, l2).
Proof.
  intros Hl Hm Ho Hs. pose proof (mark_later l stamp Hl) as [Hl1 _]. rewrite Hm in Hl1. cbn [snd] in Hl1.
  assert (Hc : forall r, r ∈ lg_rows l1 -> covered (st_session stamp) r).
  { unfold MarkRefineOutcome in Hm. destruct (newest l _) as [row|] eqn:E; [|done]. destruct (negb _); [done|]. injection Hm as <-.
    rewrite Ho. cbn [String.eqb Ascii.eqb eqb]. pose proof (stamp_later l row stamp Hl E Hl) as [Hl' _].
    set (m := update l (has_id (q_id row)) (stamp_row stamp)) in *. intros r (r1 & Hr1 & ->)%elem_of_update.
    destruct (superseded m (st_session stamp) r1) eqn:Es; [done|]. intros H1 H2 H3 H4. exfalso. unfold superseded in Es.
    rewrite H1, H2, H3, H4, !String.eqb_refl in Es. cbn [andb is_null] in Es.
    apply elem_of_update in Hr1 as Hr0. destruct Hr0 as (r0 & Hr0 & E1). unfold has_id in E1.
    destruct (Z.eqb_spec (q_id r0) (q_id row)) as [Eid|Hne].
    { subst r1. unfold stamp_row in H4. by destruct (_ && _). }
    subst r1. pose proof (newest_max l _ _ r0 Hl E Hr0) as Hmax. unfold open_of in Hmax. rewrite H1, H4, String.eqb_refl in Hmax. specialize (Hmax eq_refl).
    pose proof (newest_some _ _ _ E) as [Hrow Hopen]. unfold open_of in Hopen. apply andb_true_iff in Hopen as [Hsrow _].
    assert (Hstamped : stamp_row stamp row ∈ lg_rows m) by (apply elem_of_update; exists row; unfold has_id; by rewrite Z.eqb_refl).
    assert (Eid : q_id (stamp_row stamp row) = q_id row /\ q_session (stamp_row stamp row) = q_session row)
      by (unfold stamp_row; by destruct (_ && _)). destruct Eid as [Eid Esid].
    destruct (newest m _) as [latest|] eqn:El.
    - pose proof (newest_max m _ _ _ Hl' El Hstamped) as Hmax2. cbn in Hmax2. rewrite Esid in Hmax2. specialize (Hmax2 Hsrow).
      apply Z.ltb_ge in Es. lia.
    - pose proof (newest_none m _ _ El Hstamped) as Hf. cbn in Hf. rewrite Esid in Hf. congruence. }
  destruct (covered_steps _ _ _ Hs Hl1 Hc) as [Hl2 Hc2]. unfold ClaimCodexPrompt.
  destruct (newest l2 _) as [row|] eqn:E; [|done]. apply newest_some in E as [Hin Hcl]. by rewrite (covered_not_claimable _ _ _ (Hc2 _ Hin)) in Hcl.
Qed.
End Facts.

(** ** Examples *)

Definition ex_now (n : Z) : Time := mkTime (unix_epoch_ns + n * Second) None 0.
Definition ex_request : ConsolidationRequest := mkRequest "s-1" "codex" (ex_now 0) "e-1" "work" 12 10 false "none".
Definition ex_ledger_empty : Ledger := mkLedger [] 1.
Definition ex_saved : Ledger := snd (Save ex_ledger_empty (Some ex_request)).
Definition ex_claim : result (option CodexPromptClaim) * Ledger :=
  ClaimCodexPrompt no_layout ex_saved "s-1" "token-a" (ex_now 10) (Add (ex_now 10) codexPromptLeaseDuration).
Definition ex_rid : string := prompt_request_id "s-1" "e-1".
Definition ex_confirm : result unit * Ledger := ConfirmCodexPrompt (snd ex_claim) ex_rid "token-a" (ex_now 20).
Definition ex_stamp : ConsolidationRefineStamp := mkStamp "s-1" "accepted" "created" "codex" (Some 1) (ex_now 30).
Definition ex_marked : result bool * Ledger := MarkRefineOutcome (snd ex_claim) ex_stamp.

Lemma ex_ledger_runs :
  (fst ex_claim, fst ex_confirm, fst ex_marked, llen (lg_rows ex_saved))
  = (Ok (Some (mkClaim ex_request ex_rid "token-a")), Ok tt, Ok true, 1).
Proof. by vm_compute. Qed.
Lemma ex_empty_ok : ledger_ok ex_ledger_empty.
Proof. split; cbn [ex_ledger_empty lg_rows]; [constructor|..]; intros; by match goal with H : _ ∈ [] |- _ => apply elem_of_nil in H end. Qed.
Lemma ex_saved_step : ledger_step no_layout any_call ex_ledger_empty ex_saved.
Proof. exact (ledger_call no_layout any_call _ _ (OpSave (Some ex_request)) _ _ I (answer_done (run := ledger_run no_layout))). Qed.
Lemma ex_saved_ok : ledger_ok ex_saved.
Proof. apply (step_later _ _ _ _ ex_saved_step), ex_empty_ok. Qed.
Lemma ex_claim_ok : ledger_ok (snd ex_claim).
Proof. apply (run_later no_layout _ (OpClaim "s-1" "token-a" (ex_now 10) (Add (ex_now 10) codexPromptLeaseDuration)) ex_saved), ex_saved_ok. Qed.

Lemma consolidation_request_once_witness : llen (lg_rows ex_saved) = 1 /\ Save ex_saved (Some ex_request) = (Ok false, ex_saved).
Proof.
  pose proof ex_ledger_runs as H. apply pair_parts in H as [_ H]. split; [exact H|].
  destruct (consolidation_request_once no_layout ex_ledger_empty ex_saved ex_request ex_empty_ok) as (_ & _ & _ & Hagain).
  - apply star_one, ex_saved_step.
  - apply Hagain; [reflexivity|constructor].
Defined.

Definition ex_expires : Time := Add (ex_now 10) codexPromptLeaseDuration.
(** Another process, two minutes later, finds nothing to claim. *)
Definition ex_other : Ledger := snd (ClaimCodexPrompt no_layout (snd ex_claim) "s-1" "token-b" (ex_now 130) (Add (ex_now 130) codexPromptLeaseDuration)).
Lemma ex_claimed : ClaimCodexPrompt no_layout ex_saved "s-1" "token-a" (ex_now 10) ex_expires = (Ok (Some (mkClaim ex_request ex_rid "token-a")), snd ex_claim).
Proof.
  pose proof ex_ledger_runs as H. do 3 apply pair_parts in H as [H _]. rewrite <-H. unfold ex_claim, ex_expires. apply surjective_pairing.
Qed.
Lemma ex_expires_ok : four_digits ex_expires.
Proof. by vm_compute. Qed.
Lemma ex_other_step : ledger_step no_layout (before_expiry ex_rid "s-1" "token-a" ex_expires) (snd ex_claim) ex_other.
Proof.
  refine (ledger_call no_layout _ _ _ (OpClaim "s-1" "token-b" (ex_now 130) (Add (ex_now 130) codexPromptLeaseDuration)) _ _ _
           (answer_done (run := ledger_run no_layout))).
  split; by vm_compute.
Qed.
Lemma prompt_lease_exclusive_witness : fst (ConfirmCodexPrompt ex_other ex_rid "token-a" (ex_now 140)) = Ok tt.
Proof.
  exact (proj1 (prompt_lease_exclusive no_layout ex_saved (snd ex_claim) ex_other "s-1" "token-a" (ex_now 10) ex_expires
    (mkClaim ex_request ex_rid "token-a") ex_saved_ok ex_expires_ok ex_claimed (star_one _ _ _ ex_other_step)) (ex_now 140)).
Defined.

Lemma ex_confirmed_once : ConfirmCodexPrompt (snd ex_claim) ex_rid "token-a" (ex_now 20) = (Ok tt, snd ex_confirm).
Proof.
  pose proof ex_ledger_runs as H. do 2 apply pair_parts in H as [H _]. apply pair_parts in H as [_ H]. rewrite <-H. apply surjective_pairing.
Qed.
Lemma prompt_delivered_once_witness :
  is_ok (fst (ConfirmCodexPrompt (snd ex_confirm) ex_rid "token-a" (ex_now 40))) = false.
Proof.
  exact (proj1 (proj1 (proj2 (prompt_delivered_once no_layout (snd ex_claim) (snd ex_confirm) (snd ex_confirm) ex_rid "token-a" (ex_now 20)
    ex_claim_ok ex_confirmed_once (star_refl _ _))) "token-a" (ex_now 40))).
Defined.

Lemma ex_marked_ok : MarkRefineOutcome (snd ex_claim) ex_stamp = (Ok true, snd ex_marked).
Proof.
  pose proof ex_ledger_runs as H. apply pair_parts in H as [H _]. apply pair_parts in H as [_ H]. rewrite <-H. apply surjective_pairing.
Qed.
Lemma accepted_outcome_closes_witness :
  ClaimCodexPrompt no_layout (snd ex_marked) "s-1" "token-c" (ex_now 9000) (ex_now 9300) = (Ok None, snd ex_marked).
Proof.
  exact (accepted_outcome_closes no_layout (snd ex_claim) (snd ex_marked) (snd ex_marked) ex_stamp "token-c" (ex_now 9000) (ex_now 9300)
    ex_claim_ok ex_marked_ok eq_refl (star_refl _ _)).
Defined.

(** A delivery with spaces around it passes the validation, is stored as it
    was given, and is then skipped by the table's check: the request is
    reported as already present. *)
Lemma padded_delivery_dropped :
  exists r, NewConsolidationRequest "s-1" "codex" (ex_now 0) "e-1" "work" 12 10 false " none " = Ok r /\
  Save ex_ledger_empty (Some r) = (Ok false, ex_ledger_empty).
Proof. exists (mkRequest "s-1" "codex" (ex_now 0) "e-1" "work" 12 10 false " none "). split; by vm_compute. Qed.
