(* ===== verification/Pressure.v ===== *)
(** * Consolidation pressure

    [src/application/usecase/consolidation_pressure_usecase_impl.go]: the
    check that a stop hook makes before it asks for a fold, over the sessions,
    the events ([EventOrder]), the refinements ([Refinement]) and the request
    ledger ([Consolidation]); and the outcome that a refinement is recorded
    with in the ledger. *)

From S2P Require Import Prelude GoStrings Ordering GoTime GoTimeText SqliteText Labels Interleaving EventOrder Refinement Consolidation.

(** The columns of a session that tell whether it is a main one. *)
Record SessionKindRow := mkKind { sk_parent : option string; sk_subagent : string; sk_agent : string }.
Record PressureStore := mkPressure { ps_sessions : gmap string SessionKindRow; ps_refine : RefineStore; ps_ledger : Ledger }.

Definition IsMainSession (s : PressureStore) (sessionID : string) : option bool :=
  match ps_sessions s !! sessionID with
  | None => None
  | Some r => Some (if text (sk_parent r) <>?s "" then false
                    else if sk_subagent r <>?s "" then false
                    else negb (Contains (sk_agent r) "/"))
  end.

Definition consolidationSkippedDisabled : string := "disabled".
Definition consolidationSkippedSubagent : string := "subagent".
Definition consolidationSkippedMinCommands : string := "min_commands".
Definition consolidationSkippedCadence : string := "cadence".
Definition ConsolidationSignalWork : string := "work".
Definition EventKindCommandExecuted : string := "command_executed".
Definition EventKindTranscript : string := "transcript".

Record ConsolidationPolicy := mkPolicy { MinCommands : Z; StopCadence : Z }.
Record ConsolidationPressureResult := mkPressureResult {
  Due : bool; Signal : string; Commands : Z; Stops : Z; Skipped : string; PreviousSummary : option string; PreviousCoversTo : option string }.
Definition skipped_only (s : string) : ConsolidationPressureResult := mkPressureResult false "" 0 0 s None None.

Inductive PressureOp : Type -> Type :=
| OpMain (sessionID : string) : PressureOp (option bool)
| OpRefinement (sessionID : string) : PressureOp (option SessionRefinement)
| OpCount (sessionID kind : string) (after : option string) : PressureOp Z
| OpRequest (sessionID : string) : PressureOp (option ConsolidationRequest).

Section Pressure.
Context (parse_layout : string -> result Time).

Definition pressure_run B (op : PressureOp B) (s : PressureStore) : result B * PressureStore :=
  match op with
  | OpMain sid => (Ok (IsMainSession s sid), s)
  | OpRefinement sid => (FindBySessionID parse_layout (ps_refine s) sid, s)
  | OpCount sid kind after => (CountKindAfter (rs_events (ps_refine s)) sid kind after, s)
  | OpRequest sid => (FindLatest parse_layout (ps_ledger s) sid, s)
  end.

Record ConsolidationPressureUsecase := mkPressureUsecase { has_pressure : bool; has_refinement : bool; has_kind : bool; has_requests : bool }.

Notation checker := (prog (Op := PressureOp) (result ConsolidationPressureResult)).
Definition refused (format : string) : error -> result ConsolidationPressureResult := fun err => Err (Wrap format [] err).

(** The part after the refinement has been read. *)
Definition check_work (sessionID : string) (policy : ConsolidationPolicy) (existing : option SessionRefinement) : checker :=
  let coversTo := option_map rf_to existing in
  let previousSummary := option_map rf_summary existing in
  call (OpCount sessionID EventKindCommandExecuted coversTo) (refused "failed to count session commands: %w") (fun commands =>
    let result due signal stops skipped := mkPressureResult due signal commands stops skipped previousSummary coversTo in
    if commands <? MinCommands policy then Ret (Ok (result false "" 0 consolidationSkippedMinCommands))
    else
      call (OpRequest sessionID) (refused "failed to look up latest consolidation request: %w") (fun latest =>
        match latest with
        | None => Ret (Ok (result true ConsolidationSignalWork 0 ""))
        | Some request =>
            call (OpCount sessionID EventKindTranscript (Some (cr_at_event request))) (refused "failed to count session stops: %w") (fun stops =>
              if stops <? StopCadence policy then Ret (Ok (result false "" stops consolidationSkippedCadence))
              else Ret (Ok (result true ConsolidationSignalWork stops "")))
        end)).

Definition Check_ (u : ConsolidationPressureUsecase) (sessionID : string) (policy : ConsolidationPolicy) : checker :=
  if (MinCommands policy <=? 0) || (StopCadence policy <=? 0) then Ret (Ok (skipped_only consolidationSkippedDisabled))
  else if negb (has_pressure u) then Ret (Err (Errorf "session consolidation pressure repository is not configured" []))
  else if negb (has_refinement u) then Ret (Err (Errorf "session refinement repository is not configured" []))
  else if negb (has_kind u) then Ret (Err (Errorf "session kind repository is not configured" []))
  else if negb (has_requests u) then Ret (Err (Errorf "consolidation request repository is not configured" []))
  else if TrimSpace sessionID =?s "" then Ret (Err (Errorf "session id is required" []))
  else
    call (OpMain sessionID) (refused "failed to classify session: %w") (fun main =>
      match main with
      | Some false => Ret (Ok (skipped_only consolidationSkippedSubagent))
      | _ =>
          call (OpRefinement sessionID) (refused "failed to load session refinement: %w") (fun existing =>
            check_work sessionID policy existing)
      end).
End Pressure.

(** What the ledger records of a refinement's outcome. *)
Definition ConsolidationRefineFromSessionOutcome (outcome : string) : string * string :=
  if outcome =?s SessionRefineOutcomeCreated then (ConsolidationRefineAccepted, "created")
  else if outcome =?s SessionRefineOutcomeSuperseded then (ConsolidationRefineAccepted, "superseded")
  else if outcome =?s SessionRefineOutcomeUnchanged then (ConsolidationRefineRejected, "unchanged")
  else (ConsolidationRefineRejected, "usecase_error").

(** ** Facts *)

Section Facts.
Context (parse_layout : string -> result Time).
Notation run := (pressure_run parse_layout).

Lemma filter_none {A} (f : A -> bool) l : (forall a, a ∈ l -> f a = false) -> List.filter f l = [].
Proof.
  intros H. induction l as [|a l IH]; [done|]. cbn [List.filter]. rewrite H by (by left). apply IH. intros b Hb. apply H. by right.
Qed.

(** Nothing of a kind is after the latest event. *)
Lemma count_after_latest evs sid kind last : LatestEventID evs sid = Ok (Some last) ->
  (forall id r, (id, r) ∈ session_events evs sid -> clean_id id) -> CountKindAfter evs sid kind (Some last) = Ok 0.
Proof.
  intros Hlatest Hall. unfold LatestEventID in Hlatest.
  destruct (least_order (fun a b => key_cmp (stored_key b) (stored_key a)) (session_events evs sid)) as [_ Hl].
  { apply ordering_converse, (ordering_on _ key_cmp ordering_key). }
  destruct (least _ _) as [[id row]|]; [|done]. destruct (Hl _ eq_refl) as [Hin Hmax].
  rewrite clean_EventIDFrom in Hlatest by (by eapply Hall). injection Hlatest as ->.
  apply elem_of_session_events in Hin as [Hin _]. unfold CountKindAfter. rewrite Hin. f_equal.
  rewrite filter_none; [done|]. intros e He%list_elem_of_In. apply filter_In in He as [He%list_elem_of_In _].
  specialize (Hmax e He). unfold key_cmp, lex, stored_key in Hmax. cbn [fst snd] in Hmax.
  destruct (String.compare (created_at_norm _) _); [|done..]. by destruct (String.compare (fst e) last).
Qed.

(** The measurements of a session, as the stores answer them. *)
Definition commands_since (s : PressureStore) (sid : string) (existing : option SessionRefinement) : result Z :=
  CountKindAfter (rs_events (ps_refine s)) sid EventKindCommandExecuted (option_map rf_to existing).
Definition stops_since (s : PressureStore) (sid : string) (request : ConsolidationRequest) : result Z :=
  CountKindAfter (rs_events (ps_refine s)) sid EventKindTranscript (Some (cr_at_event request)).

(** When a fold is due. *)
Definition due_now (s : PressureStore) (sid : string) (policy : ConsolidationPolicy) : Prop :=
  0 < MinCommands policy /\ 0 < StopCadence policy /\ IsMainSession s sid <> Some false /\
  exists existing commands latest,
    FindBySessionID parse_layout (ps_refine s) sid = Ok existing /\ commands_since s sid existing = Ok commands /\
    MinCommands policy <= commands /\ FindLatest parse_layout (ps_ledger s) sid = Ok latest /\
    match latest with
    | None => True
    | Some request => exists stops, stops_since s sid request = Ok stops /\ StopCadence policy <= stops
    end.

#[local] Opaque CountKindAfter.
Lemma check_reads u sid policy s : snd (alone run (Check_ u sid policy) s) = s.
Proof.
  unfold Check_. repeat (match goal with |- context [if ?b then _ else _] => destruct b; [done|] end).
  rewrite alone_call. cbn [pressure_run fst snd]. destruct (IsMainSession s sid) as [[]|]; [|done|];
    rewrite alone_call; cbn [pressure_run fst snd]; (destruct (FindBySessionID _ _ _) as [existing|]; [|done]);
    unfold check_work; rewrite alone_call; cbn [pressure_run fst snd]; (destruct (CountKindAfter _ _ _ _) as [c|]; [|done]);
    (destruct (c <? _); [done|]); rewrite alone_call; cbn [pressure_run fst snd]; (destruct (FindLatest _ _ _) as [[r|]|]; [|done..]);
    rewrite alone_call; cbn [pressure_run fst snd]; (destruct (CountKindAfter _ _ _ _) as [st|]; [|done]); by destruct (st <? _).
Qed.

Lemma check_due u sid policy s res : fst (alone run (Check_ u sid policy) s) = Ok res -> Due res = true <-> due_now s sid policy.
Proof.
  unfold Check_, due_now, commands_since, stops_since.
  destruct (Z.leb_spec (MinCommands policy) 0), (Z.leb_spec (StopCadence policy) 0); cbn [orb];
    try (cbn; intros [= <-]; cbn; split; [done|]; intros (? & ? & _); lia).
  repeat (match goal with |- context [if ?b then _ else _] => destruct b; [done|] end).
  rewrite alone_call. cbn [pressure_run fst snd]. destruct (decide (IsMainSession s sid = Some false)) as [E|E].
  { rewrite E. cbn. intros [= <-]. cbn. split; [done|]. by intros (_ & _ & ? & _). }
  assert (Hm : forall A (a b : A), match IsMainSession s sid with Some false => a | _ => b end = b) by (intros; by destruct (IsMainSession s sid) as [[]|]).
  rewrite Hm. rewrite alone_call. cbn [pressure_run fst snd]. destruct (FindBySessionID _ _ _) as [existing|e]; [|done].
  unfold check_work. rewrite alone_call. cbn [pressure_run fst snd]. destruct (CountKindAfter _ _ _ (option_map rf_to existing)) as [c|e] eqn:Ec; [|done].
  destruct (Z.ltb_spec c (MinCommands policy)).
  { cbn. intros [= <-]. cbn. split; [done|]. intros (_ & _ & _ & existing' & c' & latest & [= <-] & Hc & Hle & _). rewrite Ec in Hc. injection Hc as <-. lia. }
  rewrite alone_call. cbn [pressure_run fst snd]. destruct (FindLatest _ _ _) as [[r|]|e] eqn:El; [| |done].
  - rewrite alone_call. cbn [pressure_run fst snd]. destruct (CountKindAfter _ _ _ (Some _)) as [st|e] eqn:Est; [|done].
    destruct (Z.ltb_spec st (StopCadence policy)); cbn; intros [= <-]; cbn; (split; [try done|try done]).
    + intros (_ & _ & _ & _ & _ & latest & _ & _ & _ & [= <-] & stops & Hst & Hle). assert (st = stops) as <- by congruence. lia.
    + intros _. split_and!; try done. exists existing, c, (Some r). split_and!; try done. eauto.
  - cbn. intros [= <-]. cbn. split; [|done]. intros _. split_and!; try done. exists existing, c, None. by split_and!.
Qed.

(** A stop hook asks for a fold exactly when one is due: the check
    changes nothing; with a disabled policy it asks the stores nothing; what
    it answers is due when the session is not a subagent's, at least the
    required commands were run since the stored coverage, and there is no
    earlier request or enough turns ended since it.  So a session whose
    coverage has reached its latest event is not due, and neither is one that
    was asked at its latest event. *)
Theorem pressure_due_exact u sid policy s :
  snd (alone run (Check_ u sid policy) s) = s /\
  (MinCommands policy <= 0 \/ StopCadence policy <= 0 -> Check_ u sid policy = Ret (Ok (skipped_only consolidationSkippedDisabled))) /\
  forall res, fst (alone run (Check_ u sid policy) s) = Ok res ->
    (Due res = true <-> due_now s sid policy) /\
    ((forall id r, (id, r) ∈ session_events (rs_events (ps_refine s)) sid -> clean_id id) ->
     forall last, LatestEventID (rs_events (ps_refine s)) sid = Ok (Some last) ->
     (exists r, FindBySessionID parse_layout (ps_refine s) sid = Ok (Some r) /\ rf_to r = last) \/
     (exists q, FindLatest parse_layout (ps_ledger s) sid = Ok (Some q) /\ cr_at_event q = last) ->
     Due res = false).
Proof.
  split_and!; [apply check_reads| |].
  - intros [H|H]; unfold Check_; apply Z.leb_le in H; rewrite H; [done|by rewrite orb_true_r].
  - intros res Hres. pose proof (check_due u sid policy s res Hres) as Hdue. split; [done|].
    intros Hclean last Hlast Hor. apply not_true_iff_false. rewrite Hdue.
    intros (Hmin & Hcad & _ & existing & c & latest & Hf & Hc & Hle & Hl & Hm). unfold commands_since, stops_since in *.
    destruct Hor as [(r & Er & Eto)|(q & Eq & Eat)].
    + rewrite Hf in Er. injection Er as ->. cbn [option_map] in Hc. rewrite Eto, (count_after_latest _ _ _ _ Hlast Hclean) in Hc. injection Hc as <-. lia.
    + rewrite Hl in Eq. injection Eq as ->. destruct Hm as (st & Hst & Hle'). rewrite Eat, (count_after_latest _ _ _ _ Hlast Hclean) in Hst. injection Hst as <-. lia.
Qed.

End Facts.

(** ** Examples *)

Definition ex_command (n : Z) : EventRow := mkEventRow "command_executed" "s-1" "ls" (formatTimestamp (ex_at n)).
Definition ex_pressed : PressureStore :=
  mkPressure (<["s-1" := mkKind None "" "claude"]> ∅)
    (mkRefineStore ["s-1"] (<["e-1" := ex_event 1]> (<["e-2" := ex_command 2]> (<["e-3" := ex_command 3]> ∅))) ∅) ex_ledger_empty.
Definition ex_checker : ConsolidationPressureUsecase := mkPressureUsecase true true true true.
Definition ex_checked : result ConsolidationPressureResult * PressureStore :=
  alone (pressure_run no_layout) (Check_ ex_checker "s-1" (mkPolicy 2 3)) ex_pressed.
Lemma ex_checked_due : fst ex_checked = Ok (mkPressureResult true "work" 2 0 "" None None).
Proof. by vm_compute. Qed.
Lemma pressure_due_exact_witness : due_now no_layout ex_pressed "s-1" (mkPolicy 2 3).
Proof.
  destruct (pressure_due_exact no_layout ex_checker "s-1" (mkPolicy 2 3) ex_pressed) as (_ & _ & H).
  apply (proj1 (proj1 (H _ ex_checked_due))). reflexivity.
Defined.
