(* ===== verification/StoreContent.v ===== *)
(** * What a compaction copies, and how a copy is checked

    The rows of a store that the copy filter of
    [src/infrastructure/sqlite/compaction_copy_filter.go] rewrites, and the
    comparisons of two stores: the verification of a candidate
    ([compaction_sqlite.go], [compaction_verify_tables.go]) and the guard of a
    rollback ([compaction_rollback_guard.go]).  The tables of events and of
    command audits are maps by their primary keys; everything else of a store
    is [Rest], about which only what SQLite answers is known. *)

From stdpp Require Import sorting.
From S2P Require Import Prelude GoStrings Ordering.

Record eventIdentity := mkEventIdentity {
  Kind : string; SessionID : string; CreatedAt : string; CreatedAtNorm : string;
  Agent : string; Client : string; Workspace : string; SourceHook : string }.
#[global] Instance eventIdentity_eq_dec : EqDecision eventIdentity.
Proof. solve_decision. Defined.
Record eventVerifyRecord := mkEventVerify { ident : eventIdentity; body : string }.
#[global] Instance eventVerifyRecord_eq_dec : EqDecision eventVerifyRecord.
Proof. solve_decision. Defined.
(** A row of [command_audits]: the values of the columns that identify it, and
    [command_text], [input_text] and [output_text]. *)
Record AuditRow := mkAuditRow { au_ident : list string; au_command : string; au_input : string; au_output : string }.
Record AuditTable := mkAuditTable { at_columns : list string; at_rows : gmap string AuditRow }.

Record Content (Rest : Type) := mkContent {
  ct_events : option (gmap string eventVerifyRecord);  (* [None]: there is no such table *)
  ct_audits : option AuditTable;
  ct_legacy : bool;  (* the retired search index is present *)
  ct_rest : Rest }.
Arguments mkContent {Rest} _ _ _ _.
Arguments ct_events {Rest} _.
Arguments ct_audits {Rest} _.
Arguments ct_legacy {Rest} _.
Arguments ct_rest {Rest} _.

Record storeScrub := mkScrub { sc_Schema : string; sc_Tables : string }.
#[global] Instance storeScrub_eq_dec : EqDecision storeScrub.
Proof. solve_decision. Defined.

(** What SQLite and the checks that look at the rest of a store answer:
    [VACUUM] and [PRAGMA incremental_vacuum], which reorganise the pages;
    [VerifyStoreCompatibility], [scrubStore] and [VerifyAttestationChain]; the
    size of the file, its free pages and its digest; and the SHA-256 of the
    identifying columns of a command audit. *)
Class Engine (Rest : Type) := mkEngine {
  vacuum : Rest -> Rest;
  incremental_vacuum : Rest -> Rest;
  VerifyStoreCompatibility : Content Rest -> result unit;
  scrubStore : Content Rest -> result storeScrub;
  VerifyAttestationChain : Content Rest -> result unit;
  page_size : Content Rest -> Z;
  freelist_count : Content Rest -> Z;
  file_size : Content Rest -> Z;
  file_digest : Content Rest -> string;
  ident_digest : list string -> string;
  no_tables : Rest }.

Section Content.
Context {Rest : Type} `{Engine Rest}.
Notation Content := (Content Rest).

Definition events (s : Content) : gmap string eventVerifyRecord := default ∅ (ct_events s).
Definition audits (s : Content) : gmap string AuditRow := from_option at_rows ∅ (ct_audits s).
(** A file of no bytes, opened as a database. *)
Definition blank : Content := mkContent None None false no_tables.

(** ** The copy filter *)

Definition commandBodyReclaimReady (s : Content) : bool := bool_decide (is_Some (ct_events s)) && bool_decide (is_Some (ct_audits s)).
Definition duplicatedCommandExecutedBodyPredicate (s : Content) (id : string) (e : eventVerifyRecord) : bool :=
  (Kind (ident e) =?s "command_executed") && bool_decide (is_Some (audits s !! id)) && (0 <? slen (body e)).
Definition duplicated (s : Content) : gmap string eventVerifyRecord :=
  filter (fun p => duplicatedCommandExecutedBodyPredicate s (fst p) (snd p) = true) (events s).
(** The rows that hold a duplicated body, and the bytes of those. *)
Definition measureDuplicatedCommandExecutedBodies (s : Content) : Z * Z :=
  if commandBodyReclaimReady s
  then (Z.of_nat (base.size (duplicated s)), foldr (fun p n => slen (body (snd p)) + n) 0 (map_to_list (duplicated s)))
  else (0, 0).
Definition clear_body (s : Content) (id : string) (e : eventVerifyRecord) : eventVerifyRecord :=
  if duplicatedCommandExecutedBodyPredicate s id e then mkEventVerify (ident e) "" else e.
Definition clearDuplicatedCommandExecutedBodies (s : Content) : Content :=
  if negb (commandBodyReclaimReady s) || (fst (measureDuplicatedCommandExecutedBodies s) =? 0) then s
  else mkContent (option_map (map_imap (fun id e => Some (clear_body s id e))) (ct_events s)) (ct_audits s) (ct_legacy s) (ct_rest s).
Definition applyCopyFilters (s : Content) : Content :=
  let dropped := mkContent (ct_events s) (ct_audits s) false (ct_rest s) in
  match ct_events s with
  | None => dropped
  | Some _ => clearDuplicatedCommandExecutedBodies dropped
  end.
Definition with_rest (f : Rest -> Rest) (s : Content) : Content := mkContent (ct_events s) (ct_audits s) (ct_legacy s) (f (ct_rest s)).
(** What [Build] writes, and what [CompactInPlace] leaves. *)
Definition built (s : Content) : Content := with_rest vacuum (applyCopyFilters s).
Definition compacted_in_place (s : Content) : Content := with_rest incremental_vacuum (applyCopyFilters s).
Definition inspectReclaimableBytes (s : Content) : Z := page_size s * freelist_count s.

(** ** Verification *)

Definition permittedCommandBodyClears (s : Content) : gset string :=
  if commandBodyReclaimReady s then dom (duplicated s) else ∅.
(** The rows of [SELECT ... FROM command_audits ORDER BY event_id]. *)
Definition audit_rows (s : Content) : list (string * AuditRow) :=
  omap (fun id => option_map (pair id) (audits s !! id)) (merge_sort string_le (fst <$> map_to_list (audits s))).
Definition rewritten_field (a b : AuditRow) : option string :=
  if au_command a <>?s au_command b then Some "command"
  else if au_input a <>?s au_input b then Some "input"
  else if au_output a <>?s au_output b then Some "output" else None.
(** The loop over the two cursors. *)
Fixpoint compare_audits (kept : string -> bool) (source candidate : list (string * AuditRow)) : option error :=
  match source, candidate with
  | [], [] => None
  | (id, _) :: source', [] =>
      if kept id then Some (Errorf "candidate dropped command audit %s" [id]) else compare_audits kept source' candidate
  | [], (id, _) :: _ => Some (Errorf "candidate invented command audit %s" [id])
  | (id, a) :: source', (id', b) :: candidate' =>
      match String.compare id id' with
      | Lt => if kept id then Some (Errorf "candidate dropped command audit %s" [id]) else compare_audits kept source' candidate
      | Gt => Some (Errorf "candidate invented command audit %s" [id'])
      | Eq => if ident_digest (au_ident a) <>?s ident_digest (au_ident b)
              then Some (Errorf "candidate changed identity of command audit %s" [id])
              else match rewritten_field a b with
                   | Some field => Some (Errorf "candidate rewrote %s of command audit %s" [field; id])
                   | None => compare_audits kept source' candidate'
                   end
      end
  end.
Definition verifyCommandAudits (s c : Content) : option error :=
  match ct_audits s, ct_audits c with
  | None, None => None
  | Some ours, Some theirs =>
      if negb (bool_decide (at_columns ours = at_columns theirs)) then Some (Errorf "command_audits column list differs" [])
      else compare_audits (fun id => bool_decide (is_Some (events c !! id))) (audit_rows s) (audit_rows c)
  | _, _ => Some (Errorf "command_audits present on one side only" [])
  end.
(** One event of the candidate; the source iterates over the map. *)
Definition check_event (s : Content) (p : string * eventVerifyRecord) : option error :=
  let id := fst p in
  let got := snd p in
  match events s !! id with
  | None => Some (Errorf "candidate invented event %s" [id])
  | Some want =>
      if negb (bool_decide (ident got = ident want)) then Some (Errorf "candidate changed identity of event %s" [id])
      else if (body want <>?s body got) && negb (bool_decide (id ∈ permittedCommandBodyClears s) && (slen (body got) =? 0))
           then Some (Errorf "candidate rewrote body of event %s" [id])
           else None
  end.
Definition check_kept (c : Content) (id : string) : option error :=
  if bool_decide (is_Some (events c !! id)) then None else Some (Errorf "candidate dropped unique event %s" [id]).
Definition verifyFilteredCandidate (s c : Content) : option error :=
  match scrubStore s, scrubStore c with
  | Err e, _ => Some (Wrap "scrub source: %w" [] e)
  | _, Err e => Some (Wrap "scrub candidate: %w" [] e)
  | Ok _, Ok _ =>
      if ct_legacy c then Some (Errorf "candidate still carries the retired search index family" [])
      else
        let present t := match ct_events t with Some _ => None | None => Some (Sentinel "sqlite: no such table: events") end in
        first_err ([present s; present c] ++ (check_event s <$> map_to_list (events c))
                   ++ (check_kept c <$> (fst <$> map_to_list (events s))) ++ [verifyCommandAudits s c])
  end.
Definition VerifyPair (s c : Content) : option error :=
  let compared :=
    if bool_decide (is_Some (ct_events s)) || bool_decide (is_Some (ct_events c)) then verifyFilteredCandidate s c
    else match scrubStore s, scrubStore c with
         | Err e, _ => Some (Wrap "scrub source: %w" [] e)
         | _, Err e => Some (Wrap "scrub candidate: %w" [] e)
         | Ok l, Ok r => fails (negb (bool_decide (l = r))) (Errorf "candidate logical digest mismatch: source=%+v candidate=%+v" [])
         end in
  let wrapped f r := match r with Ok _ => None | Err e => Some (Wrap f [] e) end in
  first_err [ wrapped "source compatibility: %w" (VerifyStoreCompatibility s);
              wrapped "candidate compatibility: %w" (VerifyStoreCompatibility c);
              compared;
              wrapped "source attestation chain: %w" (VerifyAttestationChain s);
              wrapped "candidate attestation chain: %w" (VerifyAttestationChain c) ].

(** ** The rollback guard *)

Definition rollbackGuardLookupChunk : nat := 500.
Definition countAbsentFromRollback (rollback : Content) (ids : list string) : Z :=
  Z.of_nat (length (filter (fun id => events rollback !! id = None) ids)).
(** The pages of [SELECT id FROM events ORDER BY rowid LIMIT ? OFFSET ?]. *)
Fixpoint count_pages (fuel : nat) (rollback : Content) (ids : list string) (offset : nat) (atRisk : Z) : option Z :=
  match fuel with
  | O => None
  | S fuel =>
      match take rollbackGuardLookupChunk (drop offset ids) with
      | [] => Some atRisk
      | page => count_pages fuel rollback ids (offset + length page) (atRisk + countAbsentFromRollback rollback page)
      end
  end.
Definition published_ids (s : Content) : list string := fst <$> map_to_list (events s).
Definition CountRecordsAtRisk (published rollback : Content) : Z :=
  if bool_decide (is_Some (ct_events published)) && bool_decide (is_Some (ct_events rollback))
  then default 0 (count_pages (S (length (published_ids published))) rollback (published_ids published) 0 0)
  else 0.
End Content.
