(* ===== verification/StoreFiles.v ===== *)
(** * The files of a store replacement

    The store file, its candidate and its rollback copy as
    [src/infrastructure/sqlite/compaction_files.go] sees them, the run journal
    beside them, and the system calls on both.  A file is what its directory
    entry leads to: its identity, which names the version of its content too,
    and that content, of which only what the protocol asks about it is known.
    A call is atomic and may fail before or after it took effect
    ([Interleaving]). *)

From stdpp Require Import sorting.
From S2P Require Import Prelude GoStrings GoOs Ordering GoTime Upgrade.

(** ** Runs *)

Record ResourcePlan := mkResources {
  RequiredBytes : Z; DestinationBytes : Z; TemporaryBytes : Z; SafetyMarginBytes : Z; AvailableBytes : Z;
  FilesystemDevice : Z; LeaseCapability : bool; ExchangeCapability : bool }.
Record UpgradeBudget := mkBudget {
  WallTimeLimit : Z; PublishLockLimit : Z; OwnedDiskByteLimit : Z; WALByteLimit : Z; TemporaryByteLimit : Z; BudgetSafetyMargin : Z }.
Record CanonicalEvidence := mkCanonical { EventCount : Z; AuditCount : Z; CanonicalDigest : string }.
Record CandidateEvidence := mkEvidence {
  ev_SourceDigest : string; ev_CandidateDigest : string; MigrationSetDigest : string; SchemaDigest : string;
  Canonical : CanonicalEvidence; PeakOwnedBytes : Z; PeakWALBytes : Z; BuildMilliseconds : Z }.
#[global] Instance ResourcePlan_eq_dec : EqDecision ResourcePlan.
Proof. solve_decision. Defined.
#[global] Instance UpgradeBudget_eq_dec : EqDecision UpgradeBudget.
Proof. solve_decision. Defined.
#[global] Instance CanonicalEvidence_eq_dec : EqDecision CanonicalEvidence.
Proof. solve_decision. Defined.
#[global] Instance CandidateEvidence_eq_dec : EqDecision CandidateEvidence.
Proof. solve_decision. Defined.
Definition no_resources : ResourcePlan := mkResources 0 0 0 0 0 0 false false.
Definition no_budget : UpgradeBudget := mkBudget 0 0 0 0 0 0.
Definition no_evidence : CandidateEvidence := mkEvidence "" "" "" "" (mkCanonical 0 0 "") 0 0 0.

(** The fields of a run that the aggregate carries and does not read. *)
Record Carried := mkCarried { Resources : ResourcePlan; Budget : UpgradeBudget; Evidence : CandidateEvidence }.
Notation CompactionRun := (Run Carried).
Definition Resources_of (r : CompactionRun) : ResourcePlan := Resources (ru_payload r).
Definition Budget_of (r : CompactionRun) : UpgradeBudget := Budget (ru_payload r).
Definition Evidence_of (r : CompactionRun) : CandidateEvidence := Evidence (ru_payload r).
Definition zero_run : CompactionRun :=
  mkRun "" "" "" "" "" StoreFileIdentity_zero StoreFileIdentity_zero StoreFileIdentity_zero 0 "" "" "" "" None None
    (mkCarried no_resources no_budget no_evidence) time_zero time_zero.
Definition set_prepared (r : CompactionRun) (identity : StoreFileIdentity) (attempt : Z) : CompactionRun :=
  mkRun (ru_id r) (ru_source_path r) (ru_candidate_path r) (ru_rollback_path r) (ru_phase r) (ru_source r) (ru_candidate r)
    identity attempt (ru_operation r) (ru_consumer r) (ru_plan_digest r) (ru_source_digest r) (ru_bound_drop r) (ru_retention r)
    (ru_payload r) (ru_created r) (ru_updated r).
Definition set_candidate (r : CompactionRun) (identity : StoreFileIdentity) : CompactionRun :=
  mkRun (ru_id r) (ru_source_path r) (ru_candidate_path r) (ru_rollback_path r) (ru_phase r) (ru_source r) identity
    (ru_prepared r) (ru_attempt r) (ru_operation r) (ru_consumer r) (ru_plan_digest r) (ru_source_digest r) (ru_bound_drop r)
    (ru_retention r) (ru_payload r) (ru_created r) (ru_updated r).
Definition set_planned (r : CompactionRun) (source : StoreFileIdentity) (digest : string) (resources : ResourcePlan) : CompactionRun :=
  mkRun (ru_id r) (ru_source_path r) (ru_candidate_path r) (ru_rollback_path r) (ru_phase r) source (ru_candidate r)
    (ru_prepared r) (ru_attempt r) (ru_operation r) (ru_consumer r) (ru_plan_digest r) digest (ru_bound_drop r)
    (ru_retention r) (mkCarried resources (Budget_of r) (Evidence_of r)) (ru_created r) (ru_updated r).
(** A run as it is read back: times lose their monotonic reading. *)
Definition json_run (r : CompactionRun) : CompactionRun :=
  mkRun (ru_id r) (ru_source_path r) (ru_candidate_path r) (ru_rollback_path r) (ru_phase r) (ru_source r) (ru_candidate r)
    (ru_prepared r) (ru_attempt r) (ru_operation r) (ru_consumer r) (ru_plan_digest r) (ru_source_digest r) (ru_bound_drop r)
    (ru_retention r) (ru_payload r) (StripMono (ru_created r)) (StripMono (ru_updated r)).

(** ** What the journal admits *)

Definition offline (r : CompactionRun) : bool := ru_operation r =?s OperationOfflineMigrationUpgrade.
Definition no_identity (i : StoreFileIdentity) : bool := bool_decide (i = StoreFileIdentity_zero).
Definition validateInitialRun (run : CompactionRun) : option error :=
  let res := Resources_of run in
  let bud := Budget_of run in
  first_err [
    fails ((ru_phase run <>?s Planned) || (ru_source_path run =?s "") || (ru_candidate_path run =?s "") || (ru_rollback_path run =?s "")
           || IsZero (ru_created run) || IsZero (ru_updated run)) (Errorf "invalid initial compaction run" []);
    fails (no_identity (ru_source run)) (Errorf "initial source identity is required" []);
    fails (negb (no_identity (ru_prepared run)) || negb (ru_attempt run =? 0)) (Errorf "initial prepared candidate identity must be empty" []);
    fails ((RequiredBytes res =? 0) || (DestinationBytes res =? 0) || negb (FilesystemDevice res =? fi_device (ru_source run))
           || negb (ExchangeCapability res)) (Errorf "initial resource plan is incomplete" []);
    fails (Before (ru_updated run) (ru_created run)) (Errorf "initial timestamps are inconsistent" []);
    fails ((ru_operation run <>?s "") && (negb (Operation_Known (ru_operation run)) || (ru_consumer run =?s "")))
      (Errorf "initial prepared upgrade binding is invalid" []);
    fails (offline run && ((ru_plan_digest run =?s "") || (ru_source_digest run =?s "") || (WallTimeLimit bud <=? 0) || (PublishLockLimit bud <=? 0)
                           || (OwnedDiskByteLimit bud =? 0) || (WALByteLimit bud =? 0) || (TemporaryByteLimit bud =? 0)))
      (Errorf "initial offline upgrade plan or budget is invalid" []) ].
Definition immutable_changed (previous next : CompactionRun) : bool :=
  (ru_id previous <>?s ru_id next) || (ru_source_path previous <>?s ru_source_path next) || (ru_candidate_path previous <>?s ru_candidate_path next)
  || (ru_rollback_path previous <>?s ru_rollback_path next) || negb (bool_decide (ru_source previous = ru_source next))
  || (ru_source_digest previous <>?s ru_source_digest next) || negb (bool_decide (Resources_of previous = Resources_of next))
  || (ru_operation previous <>?s ru_operation next) || (ru_consumer previous <>?s ru_consumer next)
  || (ru_plan_digest previous <>?s ru_plan_digest next) || negb (bool_decide (Budget_of previous = Budget_of next))
  || negb (Equal (ru_created previous) (ru_created next)).
Definition no_evidence_yet (r : CompactionRun) : bool := bool_decide (Evidence_of r = no_evidence).
Definition validateRunAppend (previous next : CompactionRun) : option error :=
  let p := ru_phase previous in
  let q := ru_phase next in
  first_err [
    fails (immutable_changed previous next) (Errorf "immutable compaction run fields changed" []);
    fails (Before (ru_updated next) (ru_updated previous)) (Errorf "compaction timestamp moved backwards" []);
    fails (negb (no_identity (ru_candidate previous)) && negb (bool_decide (ru_candidate previous = ru_candidate next)))
      (Errorf "candidate identity changed after fencing" []);
    fails (no_identity (ru_candidate previous) && negb (no_identity (ru_candidate next)) && (q <>?s CandidateVerified))
      (Errorf "candidate identity appeared outside verification" []);
    fails ((q =?s CandidateVerified) && negb (SameInode (ru_candidate next) (ru_prepared next)))
      (Errorf "verified candidate differs from prepared inode" []);
    fails (negb (no_evidence_yet previous) && negb (bool_decide (Evidence_of previous = Evidence_of next)))
      (Errorf "candidate evidence changed after verification" []);
    fails (no_evidence_yet previous && negb (no_evidence_yet next) && (q <>?s CandidateVerified))
      (Errorf "candidate evidence appeared outside verification" []);
    if (q =?s CandidatePrepared) && ((p =?s CopyIntent) || (p =?s CopyRetryIntent))
    then fails (no_identity (ru_prepared next) || negb (fi_size (ru_prepared next) =? 0) || negb (ru_attempt next =? u64 (ru_attempt previous + 1)))
           (Errorf "prepared candidate identity/attempt is invalid" [])
    else fails (negb (bool_decide (ru_prepared next = ru_prepared previous)) || negb (ru_attempt next =? ru_attempt previous))
           (Errorf "prepared candidate identity changed outside prepare transition" []);
    err_of (Advance previous q (ru_updated next)) ].

(** ** The directory and the journal *)

Section World.
(** The content of a store file.  [size] is its length, [blank] that of a new
    file. *)
Context {Data : Type} (size : Data -> Z) (blank : Data).

Record StoreFile := mkStoreFile { sf_id : StoreFileIdentity; sf_regular : bool; sf_data : Data }.
(** [cw_clock] dates the next change of a file and numbers the next one, so
    that no version of a file has the identity of another; [cw_builds] says of
    the next builds which fail, and what they leave. *)
Record World := mkWorld {
  cw_files : gmap string StoreFile; cw_journal : gmap string (list CompactionRun); cw_clock : Z; cw_device : Z;
  cw_available : Z; cw_now : Time; cw_draws : list (list ascii); cw_builds : list (option Data) }.
Definition set_files (w : World) (files : gmap string StoreFile) (clock : Z) : World :=
  mkWorld files (cw_journal w) clock (cw_device w) (cw_available w) (cw_now w) (cw_draws w) (cw_builds w).
Definition set_journal (w : World) (journal : gmap string (list CompactionRun)) : World :=
  mkWorld (cw_files w) journal (cw_clock w) (cw_device w) (cw_available w) (cw_now w) (cw_draws w) (cw_builds w).

(** A new version of a file. *)
Definition rewritten (w : World) (f : StoreFile) (d : Data) : StoreFile :=
  let i := sf_id f in
  mkStoreFile (mkFileIdentity (fi_device i) (fi_inode i) (size d) (cw_clock w) (fi_mode i) (fi_links i)) (sf_regular f) d.
Definition rewrite_file (w : World) (path : string) (d : Data) : World :=
  match cw_files w !! path with
  | None => w
  | Some f => set_files w (<[path := rewritten w f d]> (cw_files w)) (cw_clock w + 1)
  end.

Definition not_regular (path : string) : error := Errorf "refuse non-regular or symlink path: %s" [path].
Definition inspectRegularFile (w : World) (path : string) : result StoreFileIdentity :=
  match cw_files w !! path with
  | None => Err (not_exist "lstat" path)
  | Some f => if sf_regular f then Ok (sf_id f) else Err (not_regular path)
  end.
Definition validateStoreLinkIdentity (w : World) (path : string) : result unit :=
  match cw_files w !! path with
  | None => Ok tt
  | Some f => if negb (sf_regular f) then Err (Errorf "SQLite store is not a regular file" [])
              else if 1 <? fi_links (sf_id f) then Err (Errorf "SQLite store has multiple hard links" []) else Ok tt
  end.
Definition file_exists (path : string) : error := Typed "*fs.PathError" ["open"; path] (Sentinel "file exists").
Definition create (w : World) (path : string) : result unit * World :=
  match cw_files w !! path with
  | Some _ => (Err (file_exists path), w)
  | None => (Ok tt, set_files w (<[path := mkStoreFile (mkFileIdentity (cw_device w) (cw_clock w) 0 (cw_clock w) 384 1) true blank]> (cw_files w))
                      (cw_clock w + 1))
  end.
Definition remove (w : World) (path : string) : result unit * World :=
  match cw_files w !! path with
  | None => (Err (not_exist "remove" path), w)
  | Some _ => (Ok tt, set_files w (delete path (cw_files w)) (cw_clock w))
  end.
Definition atomicExchange (w : World) (left right : string) : result unit * World :=
  match cw_files w !! left, cw_files w !! right with
  | Some f, Some g => (Ok tt, set_files w (<[left := g]> (<[right := f]> (cw_files w))) (cw_clock w))
  | _, _ => (Err (link_not_exist left right), w)
  end.
Definition renameNoReplace (w : World) (left right : string) : result unit * World :=
  match cw_files w !! left, cw_files w !! right with
  | Some f, None => (Ok tt, set_files w (<[right := f]> (delete left (cw_files w))) (cw_clock w))
  | Some _, Some _ => (Err (file_exists right), w)
  | None, _ => (Err (link_not_exist left right), w)
  end.
(** [VACUUM INTO] of a database of content [d], or a failure that leaves some
    of it. *)
Definition vacuumInto (w : World) (candidate : string) (d : Data) : result unit * World :=
  let partial := default None (head (cw_builds w)) in
  let w' := rewrite_file w candidate (default d partial) in
  (match partial with None => Ok tt | Some _ => Err (Sentinel "sqlite") end,
   mkWorld (cw_files w') (cw_journal w') (cw_clock w') (cw_device w') (cw_available w') (cw_now w') (cw_draws w') (tail (cw_builds w))).

(** ** Journals: a file of records for each run *)

(** The length of a record's JSON text. *)
Context (json_len : CompactionRun -> Z).
Definition maxCompactionJournalBytes : Z := 1048576.
Definition maxActiveUpgradeJournals : Z := 1024.
Definition hex_set (c : ascii) : bool := in_range 48 57 (byte_val c) || in_range 97 102 (byte_val c).
Definition valid_id (id : string) : bool := (slen id =? 32) && forallb hex_set (explode id).
Definition invalid_id : error := Errorf "invalid compaction run id" [].
Definition journal_size (records : list CompactionRun) : Z := foldr (fun r n => json_len r + 1 + n) 0 records.

Fixpoint check_records (id : string) (last : option CompactionRun) (records : list CompactionRun) : result (option CompactionRun) :=
  match records with
  | [] => Ok last
  | next :: rest =>
      if ru_id next <>?s id then Err (Errorf "compaction journal run id mismatch" [])
      else match last with
           | None => match validateInitialRun next with
                     | Some e => Err (Wrap "invalid initial journal record: %w" [] e)
                     | None => check_records id (Some next) rest
                     end
           | Some previous => match validateRunAppend previous next with
                              | Some e => Err (Wrap "invalid compaction journal transition: %w" [] e)
                              | None => check_records id (Some next) rest
                              end
           end
  end.
Definition Load (w : World) (id : string) : result CompactionRun :=
  if negb (valid_id id) then Err invalid_id
  else match cw_journal w !! id with
       | None => Err (not_exist "open" id)
       | Some records =>
           let n := journal_size records in
           if (n <=? 0) || (maxCompactionJournalBytes <? n) then Err (Errorf "invalid compaction journal size" [])
           else match check_records id None records with
                | Err e => Err e
                | Ok None => Err (Errorf "empty compaction journal" [])
                | Ok (Some last) => if ru_id last =?s "" then Err (Errorf "empty compaction journal" []) else Ok last
                end
       end.
Definition Create (w : World) (run : CompactionRun) : result unit * World :=
  if negb (valid_id (ru_id run)) then (Err invalid_id, w)
  else match validateInitialRun run with
       | Some e => (Err e, w)
       | None =>
           match cw_journal w !! ru_id run with
           | Some _ => (Err (Wrap "create compaction journal: %w" [] (file_exists (ru_id run))), w)
           | None =>
               if maxCompactionJournalBytes <? json_len run + 1
               then (Err (Errorf "compaction journal record too large" []), set_journal w (<[ru_id run := []]> (cw_journal w)))
               else (Ok tt, set_journal w (<[ru_id run := [json_run run]]> (cw_journal w)))
           end
       end.
Definition Append (w : World) (run : CompactionRun) : result unit * World :=
  if negb (valid_id (ru_id run)) then (Err invalid_id, w)
  else match Load w (ru_id run) with
       | Err e => (Err (Wrap "load journal before append: %w" [] e), w)
       | Ok previous =>
           match validateRunAppend previous run with
           | Some e => (Err e, w)
           | None =>
               let records := default [] (cw_journal w !! ru_id run) in
               if maxCompactionJournalBytes <? journal_size records + json_len run + 1
               then (Err (Errorf "compaction journal size limit exceeded" []), w)
               else (Ok tt, set_journal w (<[ru_id run := records ++ [json_run run]]> (cw_journal w)))
           end
       end.
(** The journals of the directory, in the order of their names. *)
Definition journals (w : World) : list string := merge_sort string_le (fst <$> map_to_list (cw_journal w)).
End World.
Arguments StoreFile : clear implicits.
Arguments World : clear implicits.
