(* ===== verification/Compaction.v ===== *)
(** * Store compaction

    [src/application/usecase/store_compaction.go] over the file protocol of
    [src/infrastructure/sqlite/compaction_files.go] and the builder of
    [compaction_sqlite.go]: a rewrite of the store into a candidate beside it,
    an atomic exchange of the two, and what a later invocation does about a
    run that was interrupted.  The operations are programs of [Interleaving]
    over [StoreFiles]. *)

From S2P Require Import Prelude GoStrings GoOs Ordering GoTime Upgrade Interleaving StoreContent StoreFiles.

Inductive StoreOp : Type -> Type :=
| OpNow : StoreOp Time
| OpContext : StoreOp unit
| OpLease (store : string) : StoreOp unit
| OpRandom : StoreOp string
| OpStat (path : string) : StoreOp Z
| OpLstat (path : string) : StoreOp unit
| OpInspect (path : string) : StoreOp StoreFileIdentity
| OpLinkIdentity (path : string) : StoreOp unit
(** The sidecars of SQLite: refused, or cleared when they are stale. *)
| OpSidecars (path : string) : StoreOp unit
| OpAvailable : StoreOp Z
| OpDigest (path : string) : StoreOp string
| OpProbeExchange : StoreOp unit
| OpProbeLease (path : string) : StoreOp unit
| OpSpoolReserve : StoreOp Z
| OpCreateFile (path : string) : StoreOp unit
| OpRemove (path : string) : StoreOp unit
| OpExchange (from onto : string) : StoreOp unit
| OpRenameNoReplace (from onto : string) : StoreOp unit
| OpSyncFile (path : string) : StoreOp unit
| OpSyncDir (path : string) : StoreOp unit
(** The builder and the guard read and write databases. *)
| OpReclaim (source : string) : StoreOp (Z * Z)
| OpEstimate (source : string) : StoreOp Z
| OpCompatible (path : string) : StoreOp unit
| OpVacuumInto (source candidate : string) : StoreOp unit
| OpVerifyPair (source candidate : string) : StoreOp unit
| OpRetiredIndex (path : string) : StoreOp bool
| OpCountAtRisk (published rollback : string) : StoreOp Z
| OpInPlace (source : string) : StoreOp unit
| OpJournals : StoreOp (list string)
| OpLoad (id : string) : StoreOp CompactionRun
| OpCreateRun (run : CompactionRun) : StoreOp unit
| OpAppendRun (run : CompactionRun) : StoreOp unit
| OpJournalSize (id : string) : StoreOp Z
(** The recipe of an offline upgrade. *)
| OpRecipePlan (run : CompactionRun) : StoreOp string
| OpRecipeBoundDrop (run : CompactionRun) : StoreOp unit
| OpRecipeRetention (run : CompactionRun) : StoreOp unit
| OpRecipeBuild (run : CompactionRun) : StoreOp unit
| OpRecipeClassify (run : CompactionRun) : StoreOp string
| OpRecipeSync (run : CompactionRun) : StoreOp unit
| OpRecipeVerify (run : CompactionRun) : StoreOp CandidateEvidence.

(** [PreparedCandidateRecipe] of [src/application/prepared_store_upgrade.go],
    with the two verifiers a recipe may implement: what the upgrade asks of the
    code that migrates a store.  [recipe_Build] is the content the recipe
    writes over the candidate. *)
Class Recipe (Rest : Type) := mkRecipe {
  recipe_Plan : CompactionRun -> Content Rest -> result string;
  recipe_VerifyBoundDrop : CompactionRun -> Content Rest -> result unit;
  recipe_VerifyUnavailableRetention : CompactionRun -> Content Rest -> result unit;
  recipe_Build : CompactionRun -> Content Rest -> Content Rest;
  recipe_ClassifyOwnedCandidate : CompactionRun -> Content Rest -> string;
  recipe_Verify : CompactionRun -> Content Rest -> Content Rest -> result CandidateEvidence }.

Section Run.
Context {Rest : Type} `{Engine Rest} `{Recipe Rest} (json_len : CompactionRun -> Z).
Notation Content := (Content Rest).
Notation World := (World Content).

Definition read {B} (w : World) (path : string) (f : Content -> result B) : result B :=
  match cw_files w !! path with
  | None => Err (not_exist "open" path)
  | Some g => if sf_regular g then f (sf_data g) else Err (not_regular path)
  end.
Definition read2 {B} (w : World) (from onto : string) (f : Content -> Content -> result B) : result B :=
  read w from (fun d => read w onto (f d)).
Definition exists_file (w : World) (op path : string) : result (StoreFile Content) :=
  match cw_files w !! path with None => Err (not_exist op path) | Some f => Ok f end.

Definition store_run (B : Type) (op : StoreOp B) (w : World) : result B * World :=
  match op in StoreOp B return result B * World with
  | OpNow => (Ok (cw_now w), w)
  | OpContext => (Ok tt, w)
  | OpLease _ => (Ok tt, w)
  | OpRandom => match cw_draws w with
                | [] => (Err (Sentinel "crypto/rand"), w)
                | r :: draws => (Ok (EncodeToString r), mkWorld (cw_files w) (cw_journal w) (cw_clock w) (cw_device w) (cw_available w)
                                                          (cw_now w) draws (cw_builds w))
                end
  | OpStat path => (let! f := exists_file w "stat" path in Ok (fi_size (sf_id f)), w)
  | OpLstat path => (let! _ := exists_file w "lstat" path in Ok tt, w)
  | OpInspect path => (inspectRegularFile w path, w)
  | OpLinkIdentity path => (validateStoreLinkIdentity w path, w)
  | OpSidecars _ => (Ok tt, w)
  | OpAvailable => (Ok (cw_available w), w)
  | OpDigest path => (read w path (fun d => Ok (file_digest d)), w)
  | OpProbeExchange => (Ok tt, w)
  | OpProbeLease _ => (Ok tt, w)
  | OpSpoolReserve => (Ok 67108864, w)
  | OpCreateFile path => create blank w path
  | OpRemove path => remove w path
  | OpExchange from onto => atomicExchange w from onto
  | OpRenameNoReplace from onto => renameNoReplace w from onto
  | OpSyncFile path => (let! _ := exists_file w "open" path in Ok tt, w)
  | OpSyncDir _ => (Ok tt, w)
  | OpReclaim source => (read w source (fun d => Ok (measureDuplicatedCommandExecutedBodies d)), w)
  | OpEstimate source => (read w source (fun d => Ok (inspectReclaimableBytes d)), w)
  | OpCompatible path => (read w path VerifyStoreCompatibility, w)
  | OpVacuumInto source candidate =>
      match read w source Ok with
      | Err e => (Err e, w)
      | Ok d => vacuumInto file_size w candidate (built d)
      end
  | OpVerifyPair source candidate =>
      (read2 w source candidate (fun s c => match VerifyPair s c with None => Ok tt | Some e => Err e end), w)
  | OpRetiredIndex path => (read w path (fun d => Ok (ct_legacy d)), w)
  | OpCountAtRisk published rollback => (read2 w published rollback (fun p r => Ok (CountRecordsAtRisk p r)), w)
  | OpInPlace source =>
      match cw_files w !! source with
      | None => (Err (not_exist "open" source), w)
      | Some f => (Ok tt, rewrite_file file_size w source (compacted_in_place (sf_data f)))
      end
  | OpJournals => (Ok (journals w), w)
  | OpLoad id => (Load json_len w id, w)
  | OpCreateRun run => Create json_len w run
  | OpAppendRun run => Append json_len w run
  | OpJournalSize id => (match cw_journal w !! id with None => Err (not_exist "lstat" id) | Some records => Ok (journal_size json_len records) end, w)
  | OpRecipePlan run => (read w (ru_source_path run) (recipe_Plan run), w)
  | OpRecipeBoundDrop run => (read w (ru_source_path run) (recipe_VerifyBoundDrop run), w)
  | OpRecipeRetention run => (read w (ru_source_path run) (recipe_VerifyUnavailableRetention run), w)
  | OpRecipeBuild run =>
      match read w (ru_source_path run) Ok with
      | Err e => (Err e, w)
      | Ok d => vacuumInto file_size w (ru_candidate_path run) (recipe_Build run d)
      end
  | OpRecipeClassify run => (read w (ru_candidate_path run) (fun d => Ok (recipe_ClassifyOwnedCandidate run d)), w)
  | OpRecipeSync run => (let! _ := exists_file w "open" (ru_candidate_path run) in Ok tt, w)
  | OpRecipeVerify run => (read2 w (ru_source_path run) (ru_candidate_path run) (recipe_Verify run), w)
  end.
End Run.

Notation storer := (prog (Op := StoreOp)).
(** [if err := call(); err != nil { return err }]: the error as it is. *)
Definition plain {A} (e : error) : result A := Err e.
Definition with_now {A} (k : Time -> storer A) : storer A :=
  Do OpNow (fun r => k (match r with Ok t => t | Err _ => time_zero end)).

Section Files.
(** [PreparedStoreUpgradeFiles], and the text of an error. *)
Context (CallerHoldsExclusiveLease : bool) (error_text : error -> string).

(** ** Planning *)

Definition ownedCandidatePath (run : CompactionRun) : string :=
  ru_source_path run +:+ (if offline run then ".upgrade-" else ".compact-") +:+ ru_id run.
Definition compactionRequiredBytes (destination temporary : Z) : result (Z * Z) :=
  if destination <? 0 then Err (Errorf "negative source size" [])
  else
    let base := u64 destination in
    let margin := Z.max (base / 10) 67108864 in
    if (MaxUint64 - base <? temporary) || (MaxUint64 - u64 (base + temporary) <? margin)
    then Err (Errorf "compaction resource size overflow" []) else Ok (u64 (base + temporary + margin), margin).
Definition insufficientCompactionSpaceError (required available sourceSize : Z) : error :=
  Errorf "insufficient free space: free %d more bytes to proceed (need %d, have %d)"
    [FormatUint (u64 (required - available)); FormatUint required; FormatUint available; Itoa sourceSize].
(** The planned sizes of the candidate and of what stands beside it. *)
Definition planned_sizes (run : CompactionRun) (sourceSize available : Z) (k : Z -> Z -> storer (result CompactionRun)) : storer (result CompactionRun) :=
  if offline run then
    if sourceSize <? 0 then Ret (Err (Errorf "negative source size" []))
    else
      let sourceBytes := u64 sourceSize in
      if MaxUint64 / 3 <? sourceBytes then Ret (Err (Errorf "prepared upgrade resource size overflow" []))
      else
        let temporary := sourceBytes + sourceBytes + sourceBytes in
        Do OpSpoolReserve (fun out =>
        let spool := match out with Ok n => n | Err _ => 67108864 end in
        if MaxUint64 - temporary <? spool then Ret (Err (Errorf "prepared upgrade resource size overflow" []))
        else k sourceSize (temporary + spool))
  else if 0 <? sourceSize then
    Do (OpEstimate (ru_source_path run)) (fun out =>
    let destination :=
      match out with
      | Ok estimate => if (0 <? estimate) && (estimate <? sourceSize) then Z.max (sourceSize - estimate) (sourceSize / 10) else sourceSize
      | Err _ => sourceSize
      end in
    if u64 sourceSize <=? available then k sourceSize (u64 sourceSize) else k destination 0)
  else k sourceSize 0.
Definition Plan_files (run : CompactionRun) : storer (result CompactionRun) :=
  call OpContext plain (fun _ =>
  if negb (Dir (ru_source_path run) =?s Dir (ru_candidate_path run)) || negb (Dir (ru_source_path run) =?s Dir (ru_rollback_path run))
  then Ret (Err (Errorf "compaction paths must share one directory" []))
  else
    let absent path k := Do (OpLstat path) (fun out =>
      match out with
      | Err e => if os_IsNotExist e then k else Ret (Err (Errorf "compaction output already exists: %s" [path]))
      | Ok _ => Ret (Err (Errorf "compaction output already exists: %s" [path]))
      end) in
    absent (ru_candidate_path run) (absent (ru_rollback_path run) (
    call (OpLinkIdentity (ru_source_path run)) plain (fun _ =>
    call (OpSidecars (ru_source_path run)) plain (fun _ =>
    call (OpInspect (ru_source_path run)) plain (fun id =>
    call OpAvailable plain (fun available =>
    planned_sizes run (fi_size id) available (fun destination temporary =>
    match compactionRequiredBytes destination temporary with
    | Err e => Ret (Err e)
    | Ok (required, margin) =>
        if available <? required then Ret (Err (insufficientCompactionSpaceError required available (fi_size id)))
        else
          call (OpDigest (ru_source_path run)) (fun _ => Err (Errorf "cannot digest prepared upgrade source" [])) (fun sum =>
          Do OpProbeExchange (fun exchange =>
          let finish lease :=
            let resources := mkResources required (u64 destination) temporary margin available (fi_device id) lease (is_ok exchange) in
            Ret (if negb (is_ok exchange) then Err (Errorf "atomic exchange capability unavailable" [])
                 else if negb lease then Err (Errorf "cross-process store lease capability unavailable" [])
                 else Ok (set_planned run id sum resources)) in
          if CallerHoldsExclusiveLease then finish true
          else Do (OpProbeLease (ru_source_path run)) (fun lease => finish (is_ok lease))))
    end)))))))).
Definition Recheck (run : CompactionRun) : storer (result unit) :=
  call OpContext plain (fun _ =>
  if negb (LeaseCapability (Resources_of run)) then Ret (Err (Errorf "cross-process store lease capability unavailable; apply fails closed" []))
  else
    call (OpLinkIdentity (ru_source_path run)) plain (fun _ =>
    call (OpInspect (ru_source_path run)) plain (fun current =>
    if negb (bool_decide (current = ru_source run)) then Ret (Err (Errorf "source identity drift after plan" []))
    else
      call (OpDigest (ru_source_path run)) plain (fun sum =>
      if sum <>?s ru_source_digest run then Ret (Err (Errorf "prepared upgrade source content changed" []))
      else
        call OpAvailable plain (fun available =>
        if available <? RequiredBytes (Resources_of run)
        then Ret (Err (Errorf "free space drift: need %d bytes, have %d" [FormatUint (RequiredBytes (Resources_of run)); FormatUint available]))
        else if negb (fi_device current =? FilesystemDevice (Resources_of run)) then Ret (Err (Errorf "planned filesystem capability drift" []))
        else call (OpSidecars (ru_source_path run)) plain (fun _ => Ret (Ok tt))))))).

(** ** The candidate *)

Definition PrepareCandidate (run : CompactionRun) : storer (result StoreFileIdentity) :=
  call OpContext plain (fun _ =>
  if negb ((ru_phase run =?s CopyIntent) || (ru_phase run =?s CopyRetryIntent)) then Ret (Err (Errorf "candidate prepare requires copy intent" []))
  else if ru_candidate_path run <>?s ownedCandidatePath run then Ret (Err (Errorf "candidate path is not owned by run" []))
  else
    call (OpCreateFile (ru_candidate_path run)) (fun e => Err (Wrap "create prepared candidate: %w" [] e)) (fun _ =>
    call (OpSyncFile (ru_candidate_path run)) (fun e => Err (Wrap "sync prepared candidate: %w" [] e)) (fun _ =>
    call (OpInspect (ru_candidate_path run)) plain (fun identity =>
    if negb (fi_size identity =? 0) || negb (fi_device identity =? fi_device (ru_source run))
    then Ret (Err (Errorf "prepared candidate identity is invalid" []))
    else call (OpSyncDir (Dir (ru_candidate_path run))) (fun e => Err (Wrap "sync directory after candidate create: %w" [] e)) (fun _ =>
         Ret (Ok identity)))))).
(** [SQLiteCompactionBuilder.Build]; the work copy it filters is not modelled. *)
Definition Build (source candidate : string) : storer (result unit) :=
  if negb (Dir source =?s Dir candidate) then Ret (Err (Errorf "VACUUM INTO candidate must be beside source" []))
  else
    call (OpInspect candidate) (fun e => Err (Wrap "inspect prepared compaction candidate: %w" [] e)) (fun id =>
    if negb (fi_size id =? 0) then Ret (Err (Errorf "prepared compaction candidate must be empty before VACUUM INTO" []))
    else
      call (OpCompatible source) (fun e => Err (Wrap "source compatibility: %w" [] e)) (fun _ =>
      call (OpVacuumInto source candidate) (fun e => Err (Wrap "VACUUM INTO candidate: %w" [] e)) (fun _ => Ret (Ok tt)))).
Definition Sync (candidate : string) : storer (result unit) :=
  call (OpSyncFile candidate) (fun e => Err (Wrap "sync compaction candidate: %w" [] e)) (fun _ =>
  call (OpSyncDir (Dir candidate)) plain (fun _ => Ret (Ok tt))).
Definition ClassifyCandidate (source candidate : string) : storer string :=
  Do (OpVerifyPair source candidate) (fun out => Ret (if is_ok out then ConditionComplete else ConditionOwnedIncomplete)).
Definition FenceCandidate (run : CompactionRun) : storer (result CompactionRun) :=
  call OpContext plain (fun _ =>
  call (OpSidecars (ru_candidate_path run)) plain (fun _ =>
  call (OpLinkIdentity (ru_source_path run)) plain (fun _ =>
  call (OpLinkIdentity (ru_candidate_path run)) plain (fun _ =>
  call (OpInspect (ru_candidate_path run)) plain (fun identity =>
  Ret (if negb (fi_device identity =? fi_device (ru_source run)) then Err (Errorf "candidate is not on source filesystem" [])
       else if negb (SameInode identity (ru_prepared run)) then Err (Errorf "candidate inode differs from prepared identity" [])
       else Ok (set_candidate run identity))))))).
(** The identity checks of a publication, repeated under its lease. *)
Definition RecheckForPublish (run : CompactionRun) : storer (result unit) :=
  call OpContext plain (fun _ =>
  call (OpLinkIdentity (ru_source_path run)) plain (fun _ =>
  call (OpSidecars (ru_source_path run)) plain (fun _ =>
  call (OpLinkIdentity (ru_candidate_path run)) plain (fun _ =>
  call (OpSidecars (ru_candidate_path run)) plain (fun _ =>
  call (OpInspect (ru_source_path run)) plain (fun source =>
  call (OpInspect (ru_candidate_path run)) plain (fun candidate =>
  if negb (bool_decide (source = ru_source run)) || negb (bool_decide (candidate = ru_candidate run)) || negb (SameInode candidate (ru_prepared run))
  then Ret (Err (Errorf "prepared upgrade publication identity fence changed" []))
  else Do (OpInspect (ru_rollback_path run)) (fun out =>
       Ret (if match out with Err e => os_IsNotExist e | Ok _ => false end then Ok tt
            else Err (Errorf "prepared upgrade rollback destination is not empty" [])))))))))).
(** The expected content may change after publication, not the file. *)
Definition samePublishedFile (current published : StoreFileIdentity) : bool :=
  SameInode current published && (fi_mode current =? fi_mode published) && (fi_links current =? fi_links published).
Definition RemoveOwnedPartialCandidate (run : CompactionRun) (obs : Observation) : storer (result unit) :=
  call OpContext plain (fun _ =>
  let prepared := ru_phase run =?s CandidatePrepared in
  if negb (prepared || (ru_phase run =?s CopyRetryIntent)) || negb (ob_orientation obs =?s OrientationCandidateReady)
     || prepared && negb (ob_condition obs =?s ConditionOwnedIncomplete)
  then Ret (Err (Errorf "partial candidate cleanup is not aggregate-authorized" []))
  else if ru_candidate_path run <>?s ownedCandidatePath run then Ret (Err (Errorf "candidate path is not owned by run" []))
  else if ob_rollback_exists obs then Ret (Err (Errorf "rollback path exists during copy recovery" []))
  else
    call (OpInspect (ru_source_path run)) plain (fun source =>
    call (OpInspect (ru_candidate_path run)) plain (fun candidate =>
    if negb (bool_decide (source = ru_source run)) || negb (bool_decide (candidate = ob_candidate obs))
       || negb (SameInode candidate (ru_prepared run)) || negb (fi_device candidate =? fi_device source)
    then Ret (Err (Errorf "partial candidate identity fence changed" []))
    else
      call (OpRemove (ru_candidate_path run)) (fun e => Err (Wrap "unlink owned partial candidate: %w" [] e)) (fun _ =>
      call (OpSyncDir (Dir (ru_candidate_path run))) (fun e => Err (Wrap "sync directory after partial candidate unlink: %w" [] e)) (fun _ =>
      Ret (Ok tt)))))).
(** [inspectOptionalRegularFile]. *)
Definition optional {A} (path : string) (k : StoreFileIdentity -> bool -> storer (result A)) : storer (result A) :=
  Do (OpInspect path) (fun out =>
  match out with
  | Ok id => k id true
  | Err e => if os_IsNotExist e then k StoreFileIdentity_zero false else Ret (Err e)
  end).
Definition removed (path : string) (failed : error -> error) (k : storer (result unit)) : storer (result unit) :=
  Do (OpRemove path) (fun out => match out with Ok _ => k | Err e => if os_IsNotExist e then k else Ret (Err (failed e)) end).
Definition RemoveAbandonedCandidate (run : CompactionRun) : storer (result unit) :=
  call OpContext plain (fun _ =>
  if negb (IsPrePublication (ru_phase run)) then Ret (Err (Errorf "abandoned candidate cleanup is not authorized after publication" []))
  else if ru_candidate_path run <>?s ownedCandidatePath run then Ret (Err (Errorf "candidate path is not owned by run" []))
  else optional (ru_rollback_path run) (fun _ rollbackExists =>
       if rollbackExists then Ret (Err (Errorf "rollback path exists during pre-publication abandon" []))
       else removed (ru_candidate_path run) (fun e => e) (
            if offline run then removed (ru_candidate_path run +:+ ".vacuum-" +:+ ru_id run) (Wrap "unlink vacuum upgrade output: %w" []) (Ret (Ok tt))
            else Ret (Ok tt)))).

(** ** Placement *)

Definition duplicates (a b : StoreFileIdentity) : bool :=
  negb (no_identity a) && negb (no_identity b) && (fi_device a =? fi_device b) && (fi_inode a =? fi_inode b).
(** The three identities as found, zero where there is no file. *)
Definition orient (run : CompactionRun) (source candidate rollback : StoreFileIdentity) (candidateExists rollbackExists : bool) : result Observation :=
  let obs orientation := mkObservation orientation source candidate rollback candidateExists rollbackExists "" in
  let original := bool_decide (source = ru_source run) in
  let fenced := negb (no_identity (ru_candidate run)) in
  if slices_contains [CopyComplete; CandidateSyncIntent; CandidateSynced; ScrubInProgress] (ru_phase run)
     && negb (candidateExists && SameInode candidate (ru_prepared run))
  then Err (Errorf "candidate inode differs from prepared identity" [])
  else if duplicates source candidate || duplicates source rollback || duplicates candidate rollback
  then Err (Errorf "duplicate compaction inode at %s and %s" [])
  else if original && negb candidateExists && negb rollbackExists then Ok (obs OrientationSourceOriginal)
  else if original && candidateExists && negb rollbackExists then
    if fenced && negb (bool_decide (candidate = ru_candidate run))
    then Err (Errorf "candidate-ready identity conflicts with journal fence" []) else Ok (obs OrientationCandidateReady)
  else if fenced && samePublishedFile source (ru_candidate run) && candidateExists && bool_decide (candidate = ru_source run) && negb rollbackExists
  then Ok (obs OrientationSwapped)
  else if fenced && samePublishedFile source (ru_candidate run) && negb candidateExists && rollbackExists && bool_decide (rollback = ru_source run)
  then Ok (obs OrientationRollbackReady)
  else if original && negb candidateExists && rollbackExists && samePublishedFile rollback (ru_candidate run) then Ok (obs OrientationRolledBack)
  else Err (Errorf "unknown compaction file orientation" []).
Definition Observe (run : CompactionRun) : storer (result Observation) :=
  call (OpInspect (ru_source_path run)) plain (fun source =>
  optional (ru_candidate_path run) (fun candidate candidateExists =>
  optional (ru_rollback_path run) (fun rollback rollbackExists =>
  Ret (orient run source candidate rollback candidateExists rollbackExists)))).

Definition RejectRetiredSearchIndex (run : CompactionRun) : storer (result unit) :=
  if offline run then Ret (Ok tt)
  else Do (OpStat (ru_candidate_path run)) (fun out =>
       let target := match out with Ok n => if 0 <? n then ru_candidate_path run else ru_source_path run | Err _ => ru_source_path run end in
       Do (OpRetiredIndex target) (fun out =>
       Ret (match out with
            | Ok true => Err (Errorf "legacy search index family is still present; store compact drops it during the copy" [])
            | _ => Ok tt
            end))).
Definition Exchange (run : CompactionRun) : storer (result unit) :=
  call OpContext plain (fun _ =>
  let rollback := ru_phase run =?s RollbackSwapIntent in
  let from := ru_source_path run in
  let onto := if rollback then ru_rollback_path run else ru_candidate_path run in
  call (OpLinkIdentity from) plain (fun _ =>
  call (OpLinkIdentity onto) plain (fun _ =>
  call (OpInspect from) plain (fun current =>
  if rollback && negb (samePublishedFile current (ru_candidate run)) then Ret (Err (Errorf "compacted source identity fence changed" []))
  else if negb rollback && negb (bool_decide (current = ru_source run)) then Ret (Err (Errorf "source identity fence changed" []))
  else
    call (OpInspect onto) plain (fun ontoIdentity =>
    if rollback && negb (bool_decide (ontoIdentity = ru_source run)) then Ret (Err (Errorf "rollback identity fence changed" []))
    else if negb rollback && negb (bool_decide (ontoIdentity = ru_candidate run)) then Ret (Err (Errorf "candidate identity fence changed" []))
    else
      call (OpSidecars from) plain (fun _ =>
      call (OpExchange from onto) plain (fun _ =>
      call (OpSyncFile from) plain (fun _ =>
      call (OpSyncFile onto) plain (fun _ =>
      call (OpSyncDir (Dir from)) plain (fun _ => Ret (Ok tt))))))))))).
Definition PublishRollback (run : CompactionRun) : storer (result unit) :=
  call OpContext plain (fun _ =>
  Do (OpLstat (ru_rollback_path run)) (fun out =>
  if match out with Err e => os_IsNotExist e | Ok _ => false end then
    call (OpLinkIdentity (ru_source_path run)) plain (fun _ =>
    call (OpLinkIdentity (ru_candidate_path run)) plain (fun _ =>
    call (OpRenameNoReplace (ru_candidate_path run) (ru_rollback_path run)) (fun e => Err (Wrap "publish rollback without replacement: %w" [] e)) (fun _ =>
    call (OpSyncFile (ru_rollback_path run)) plain (fun _ =>
    call (OpSyncDir (Dir (ru_source_path run))) plain (fun _ => Ret (Ok tt))))))
  else Ret (Err (Errorf "rollback destination exists" [])))).
Definition SyncRecoveredOrientation (run : CompactionRun) (obs : Observation) : storer (result unit) :=
  call OpContext plain (fun _ =>
  let sync path :=
    call (OpSyncFile (ru_source_path run)) plain (fun _ =>
    call (OpSyncFile path) plain (fun _ =>
    call (OpSyncDir (Dir (ru_source_path run))) plain (fun _ => Ret (Ok tt)))) in
  if ob_orientation obs =?s OrientationSwapped then sync (ru_candidate_path run)
  else if (ob_orientation obs =?s OrientationRollbackReady) || (ob_orientation obs =?s OrientationRolledBack) then sync (ru_rollback_path run)
  else Ret (Err (Errorf "cannot sync unknown recovered orientation" []))).
End Files.
