(* ===== verification/StoreCopy.v ===== *)
(** * What a verified copy keeps

    The comparisons of [StoreContent]: the merge of the two audit cursors
    decides an equality of maps, a pair that passes the verification has every
    event and every audit of one, the copy that [Build] makes passes it, and
    the guard counts what it says it counts. *)

From stdpp Require Import sorting.
From S2P Require Import Prelude GoStrings Ordering StoreContent.

Section Copy.
Context {Rest : Type} `{Engine Rest}.
Notation Content := (Content Rest).

(** What the verification compares of an audit. *)
Definition audit_view (a : AuditRow) : string * (string * string * string) :=
  (ident_digest (au_ident a), (au_command a, au_input a, au_output a)).
Definition event_kept (audited : Prop) (want got : eventVerifyRecord) : Prop :=
  ident got = ident want /\
  (body got = body want \/ body got = "" /\ Kind (ident want) = "command_executed" /\ audited).
(** Every event is still there, as it was or, for a command whose audit has
    its text, without a body; and so is every audit of an event. *)
Definition keeps (s c : Content) : Prop :=
  (forall id e, events s !! id = Some e ->
     exists e', events c !! id = Some e' /\ event_kept (is_Some (audits c !! id)) e e') /\
  (forall id a, audits s !! id = Some a -> is_Some (events s !! id) ->
     exists a', audits c !! id = Some a' /\ audit_view a' = audit_view a).

Lemma content_keeps_refl s : keeps s s.
Proof. split; [intros id e He; exists e; split; [done|]; split; by auto|intros id a Ha _; by exists a]. Qed.
Lemma content_keeps_trans s t u : keeps s t -> keeps t u -> keeps s u.
Proof.
  intros [E1 A1] [E2 A2]. split.
  - intros id e He. destruct (E1 id e He) as (e1 & H1 & Hi1 & Hb1). destruct (E2 id e1 H1) as (e2 & H2 & Hi2 & Hb2).
    exists e2. split; [done|]. split; [congruence|].
    assert (Hu : is_Some (audits t !! id) -> is_Some (audits u !! id)).
    { intros [a Ha]. destruct (A2 id a Ha) as (a' & Ha' & _); [by eexists|by eexists]. }
    rewrite Hi1 in Hb2. destruct Hb1 as [Hb1|(Hb1 & Hk & Ha)], Hb2 as [Hb2|(Hb2 & Hk2 & Ha2)].
    + left. congruence.
    + by right.
    + right. split_and!; [congruence|done|by apply Hu].
    + by right.
  - intros id a Ha [e He]. destruct (A1 id a Ha) as (a1 & Ha1 & V1); [by eexists|]. destruct (E1 id e He) as (e1 & He1 & _).
    destruct (A2 id a1 Ha1) as (a2 & Ha2 & V2); [by eexists|]. exists a2. split; [done|congruence].
Qed.

(** ** The cursors *)

Definition row_lt (x y : string * AuditRow) : Prop := String.compare (fst x) (fst y) = Lt.
Lemma row_lt_irrefl x : ~ row_lt x x.
Proof. unfold row_lt. by rewrite (ord_refl _ ordering_string). Qed.
Lemma row_lt_trans x y z : row_lt x y -> row_lt y z -> row_lt x z.
Proof. apply (ord_lt_trans _ ordering_string). Qed.

(** What the merge decides of two lists of rows. *)
Definition rows_agree (kept : string -> bool) (source candidate : list (string * AuditRow)) : Prop :=
  (forall id a, (id, a) ∈ source ->
     (exists b, (id, b) ∈ candidate /\ audit_view a = audit_view b) \/ kept id = false /\ forall b, (id, b) ∉ candidate) /\
  (forall id b, (id, b) ∈ candidate -> exists a, (id, a) ∈ source).

Lemma audit_view_eq a b :
  audit_view a = audit_view b <-> ident_digest (au_ident a) = ident_digest (au_ident b) /\ rewritten_field a b = None.
Proof.
  unfold audit_view, rewritten_field. split.
  - intros [= -> -> -> ->]. rewrite !String.eqb_refl. done.
  - intros [-> Hf]. destruct (au_command a =?s _) eqn:E1, (au_input a =?s _) eqn:E2, (au_output a =?s _) eqn:E3; try done.
    breflect. congruence.
Qed.

Definition absent_from (id : string) (rows : list (string * AuditRow)) : Prop := forall b, (id, b) ∉ rows.
Lemma sorted_absent id b rows : StronglySorted row_lt ((id, b) :: rows) -> absent_from id rows.
Proof.
  intros [_ Hlt]%StronglySorted_inv c Hc. rewrite Forall_forall in Hlt. specialize (Hlt _ Hc). unfold row_lt in Hlt. simpl in Hlt.
  by rewrite (ord_refl _ ordering_string) in Hlt.
Qed.
Lemma smaller_absent id id' b rows :
  StronglySorted row_lt ((id', b) :: rows) -> String.compare id id' = Lt -> absent_from id ((id', b) :: rows).
Proof.
  intros [_ Hlt]%StronglySorted_inv H1 c Hc. rewrite Forall_forall in Hlt.
  assert (Hn : id <> id') by (intros ->; by rewrite (ord_refl _ ordering_string) in H1).
  apply elem_of_cons in Hc as [[= -> _]|Hc]; [done|]. specialize (Hlt _ Hc). unfold row_lt in Hlt. simpl in Hlt.
  pose proof (ord_lt_trans _ ordering_string _ _ _ H1 Hlt) as Ht. by rewrite (ord_refl _ ordering_string) in Ht.
Qed.
Lemma rows_agree_dropped kept id a source candidate : absent_from id candidate -> absent_from id source ->
  rows_agree kept ((id, a) :: source) candidate <-> kept id = false /\ rows_agree kept source candidate.
Proof.
  intros Hc Hs. split.
  - intros [H1 H2]. split; [|split].
    + destruct (H1 id a) as [(b & Hb & _)|[? _]]; [by left|by destruct (Hc b)|done].
    + intros id' a' Ha'. apply H1. by right.
    + intros id' b Hb. destruct (H2 id' b Hb) as [a' [[= -> ->]|Ha']%elem_of_cons]; [by destruct (Hc b)|by eexists].
  - intros [Hk [H1 H2]]. split.
    + intros id' a' [[= -> ->]|Ha']%elem_of_cons; [by right|by apply H1].
    + intros id' b Hb. destruct (H2 id' b Hb) as [a' Ha']. exists a'. by right.
Qed.
Lemma rows_agree_same kept id a b source candidate : absent_from id source -> absent_from id candidate ->
  rows_agree kept ((id, a) :: source) ((id, b) :: candidate) <-> audit_view a = audit_view b /\ rows_agree kept source candidate.
Proof.
  intros Hs Hc. split.
  - intros [H1 H2]. split; [|split].
    + destruct (H1 id a) as [(b' & [[= ->]|Hb]%elem_of_cons & Hv)|[_ Hn]]; [by left|done|by destruct (Hc b')|]. destruct (Hn b). by left.
    + intros id' a' Ha'. assert (Hne : id' <> id) by (intros ->; by destruct (Hs a')). destruct (H1 id' a') as [(b' & Hb & Hv)|[Hk Hn]]; [by right| |].
      * left. exists b'. split; [|done]. apply elem_of_cons in Hb as [[= ? ?]|Hb]; done.
      * right. split; [done|]. intros b' Hb. apply (Hn b'). by right.
    + intros id' b' Hb. assert (Hne : id' <> id) by (intros ->; by destruct (Hc b')). destruct (H2 id' b') as [a' [[= -> ->]|Ha']%elem_of_cons]; [by right|done|by eexists].
  - intros [Hv [H1 H2]]. split.
    + intros id' a' [[= -> ->]|Ha']%elem_of_cons; [left; exists b; split; [by left|done]|]. destruct (H1 id' a' Ha') as [(b' & Hb & Hv')|[Hk Hn]].
      * left. exists b'. split; [by right|done].
      * right. split; [done|]. intros b' [[= -> ->]|Hb]%elem_of_cons; [by destruct (Hs a')|by apply (Hn b')].
    + intros id' b' [[= -> ->]|Hb]%elem_of_cons; [exists a; by left|]. destruct (H2 id' b' Hb) as [a' Ha']. exists a'. by right.
Qed.

Lemma compare_audits_spec kept source candidate :
  StronglySorted row_lt source -> StronglySorted row_lt candidate ->
  compare_audits kept source candidate = None <-> rows_agree kept source candidate.
Proof.
  revert candidate. induction source as [|[id a] source IH]; intros candidate Hs Hc.
  - destruct candidate as [|[id' b] candidate]; simpl.
    + split; [|done]. intros _. split; intros ? ? ?%elem_of_nil; done.
    + split; [done|]. intros [_ H2]. destruct (H2 id' b) as [a Ha]; [by left|]. by apply elem_of_nil in Ha.
  - pose proof (sorted_absent _ _ _ Hs) as Hsa. pose proof Hs as [Hs' _]%StronglySorted_inv.
    assert (Hdrop : absent_from id candidate ->
      (if kept id then Some (Errorf "candidate dropped command audit %s" [id]) else compare_audits kept source candidate) = None
      <-> rows_agree kept ((id, a) :: source) candidate).
    { intros Ha. rewrite rows_agree_dropped by done. destruct (kept id); [split; [done|by intros [? _]]|]. rewrite IH by done. by intuition. }
    destruct candidate as [|[id' b] candidate]; cbn [compare_audits]; [apply Hdrop; by intros b ?%elem_of_nil|].
    destruct (String.compare id id') eqn:E.
    + apply compare_eq_iff in E as <-. pose proof (sorted_absent _ _ _ Hc) as Hca. pose proof Hc as [Hc' _]%StronglySorted_inv.
      rewrite rows_agree_same, audit_view_eq, <-IH by done.
      destruct (ident_digest (au_ident a) =?s _) eqn:Ed; cbn; breflect; [|split; [done|by intros [[? _] _]]].
      destruct (rewritten_field a b); [split; [done|by intros [[_ ?] _]]|]. by intuition.
    + apply Hdrop. by eapply smaller_absent.
    + split; [done|]. intros [_ H2]. destruct (H2 id' b) as [a' Ha']; [by left|].
      apply (ord_gt_lt _ ordering_string) in E. exfalso. eapply (smaller_absent id' id a source); eauto.
Qed.

(** ** The rows of a table *)

Lemma audit_rows_elem (s : Content) id a : (id, a) ∈ audit_rows s <-> audits s !! id = Some a.
Proof.
  unfold audit_rows. rewrite list_elem_of_omap. setoid_rewrite merge_sort_Permutation. split.
  - intros (id' & _ & H'). destruct (audits s !! id') eqn:E; [|done]. by injection H' as -> ->.
  - intros Ha. exists id. rewrite Ha. split; [|done]. apply list_elem_of_fmap. exists (id, a). split; [done|]. by apply elem_of_map_to_list.
Qed.
Lemma audit_rows_sorted (s : Content) : StronglySorted row_lt (audit_rows s).
Proof.
  unfold audit_rows. assert (Hs : StronglySorted string_le (merge_sort string_le (fst <$> map_to_list (audits s)))) by (apply StronglySorted_merge_sort; apply _).
  assert (Hn : NoDup (merge_sort string_le (fst <$> map_to_list (audits s)))) by (rewrite merge_sort_Permutation; apply NoDup_fst_map_to_list).
  induction Hs as [|id ids _ IH Hle]; [constructor|]. apply NoDup_cons in Hn as [Hni Hn]. cbn [omap list_omap].
  destruct (audits s !! id) as [a|]; cbn; [|by apply IH]. constructor; [by apply IH|]. rewrite Forall_forall. intros [id' b] Hb.
  apply list_elem_of_omap in Hb as (id'' & Hin & E). destruct (audits s !! id''); [|done]. injection E as -> _.
  rewrite Forall_forall in Hle. specialize (Hle _ Hin). apply string_le_cmp in Hle. unfold row_lt. simpl.
  destruct (String.compare id id') eqn:Ec; [|done|done]. apply compare_eq_iff in Ec as ->. done.
Qed.

Lemma audit_merge (s c : Content) :
  verifyCommandAudits s c = None <->
  match ct_audits s, ct_audits c with
  | None, None => True
  | Some l, Some r =>
      at_columns l = at_columns r /\
      forall id, match at_rows l !! id, at_rows r !! id with
                 | Some a, Some b => audit_view a = audit_view b
                 | Some _, None => events c !! id = None
                 | None, Some _ => False
                 | None, None => True
                 end
  | _, _ => False
  end.
Proof.
  assert (Ek : forall id, bool_decide (is_Some (events c !! id)) = false <-> events c !! id = None).
  { intros id. rewrite bool_decide_eq_false. split; [by intros ?%eq_None_not_Some|intros ->; by intros [? ?]]. }
  unfold verifyCommandAudits. pose proof (compare_audits_spec (fun id => bool_decide (is_Some (events c !! id)))
    (audit_rows s) (audit_rows c) (audit_rows_sorted s) (audit_rows_sorted c)) as Hspec.
  assert (Hs : forall id a, (id, a) ∈ audit_rows s <-> audits s !! id = Some a) by (intros; apply audit_rows_elem).
  assert (Hc : forall id a, (id, a) ∈ audit_rows c <-> audits c !! id = Some a) by (intros; apply audit_rows_elem).
  unfold audits in Hs, Hc. destruct (ct_audits s) as [l|], (ct_audits c) as [r|]; [|done..]. simpl in Hs, Hc.
  destruct (bool_decide (at_columns l = at_columns r)) eqn:Eb; cbn; [|apply bool_decide_eq_false in Eb; by intuition].
  apply bool_decide_eq_true in Eb. rewrite Hspec. unfold rows_agree. split.
  - intros [H1 H2]. split; [done|]. intros id. destruct (at_rows l !! id) as [a|] eqn:El, (at_rows r !! id) as [b|] eqn:Er; [..|done].
    + destruct (H1 id a) as [(b' & Hb & Hv)|[_ Hn]]; [by apply Hs| |by destruct (Hn b); apply Hc]. apply Hc in Hb. congruence.
    + destruct (H1 id a) as [(b' & Hb & Hv)|[Hk Hn]]; [by apply Hs|apply Hc in Hb; congruence|by apply Ek].
    + destruct (H2 id b) as [a Ha]; [by apply Hc|]. apply Hs in Ha. congruence.
  - intros [_ Hm]. split.
    + intros id a Ha%Hs. specialize (Hm id). rewrite Ha in Hm. destruct (at_rows r !! id) as [b|] eqn:Er.
      * left. exists b. split; [by apply Hc|done].
      * right. split; [by apply Ek|]. intros b Hb%Hc. congruence.
    + intros id b Hb%Hc. specialize (Hm id). rewrite Hb in Hm. destruct (at_rows l !! id) as [a|] eqn:El; [|done]. exists a. by apply Hs.
Qed.

(** (C20) The merge of the audit cursors decides an equality of maps.  The
    audits of a candidate are accepted exactly when neither store has the
    table, or both have it with the same columns, every audit of the candidate
    is one of the source with the same identity and the same texts, and an
    audit of the source is missing only with its event. *)
Theorem audit_merge_exact (s c : Content) :
  verifyCommandAudits s c = None <->
  match ct_audits s, ct_audits c with
  | None, None => True
  | Some l, Some r =>
      at_columns l = at_columns r /\
      forall id, match at_rows l !! id, at_rows r !! id with
                 | Some a, Some b => audit_view a = audit_view b
                 | Some _, None => events c !! id = None
                 | None, Some _ => False
                 | None, None => True
                 end
  | _, _ => False
  end.
Proof. apply audit_merge. Qed.

(** ** The verification *)

Lemma duplicated_spec (s : Content) id : id ∈ dom (duplicated s) <-> exists e, events s !! id = Some e /\ duplicatedCommandExecutedBodyPredicate s id e = true.
Proof.
  rewrite elem_of_dom. unfold duplicated. split.
  - intros [e He]. apply map_lookup_filter_Some in He as [He Hp]. by exists e.
  - intros (e & He & Hp). exists e. apply map_lookup_filter_Some. by split.
Qed.
Lemma permitted_spec (s : Content) id : id ∈ permittedCommandBodyClears s ->
  exists e, events s !! id = Some e /\ Kind (ident e) = "command_executed" /\ is_Some (audits s !! id).
Proof.
  unfold permittedCommandBodyClears. destruct (commandBodyReclaimReady s); [|by intros ?%not_elem_of_empty].
  intros (e & He & Hp)%duplicated_spec. exists e. unfold duplicatedCommandExecutedBodyPredicate in Hp. breflect.
  done.
Qed.
Lemma slen_zero x : (slen x =? 0) = true -> x = "".
Proof. destruct x; [done|]. unfold slen. cbn [String.length]. intros ?%Z.eqb_eq. lia. Qed.

Lemma check_event_spec (s : Content) id got : check_event s (id, got) = None ->
  exists want, events s !! id = Some want /\ event_kept (is_Some (audits s !! id)) want got.
Proof.
  unfold check_event. cbn [fst snd]. destruct (events s !! id) as [want|] eqn:Es; [|done]. intros Hc. exists want. split; [done|].
  destruct (bool_decide (ident got = ident want)) eqn:Ei; [|done]. apply bool_decide_eq_true in Ei. split; [done|]. cbn [negb] in Hc.
  destruct (body want =?s body got) eqn:Eb; [breflect; by left|]. right. cbn [negb andb] in Hc.
  destruct (bool_decide (id ∈ permittedCommandBodyClears s)) eqn:Ep; [|done]. destruct (slen (body got) =? 0) eqn:El; [|done].
  apply bool_decide_eq_true, permitted_spec in Ep as (e & He & Hk & Ha). split_and!; [by apply slen_zero|congruence|done].
Qed.

Lemma filtered_kept (s c : Content) : verifyFilteredCandidate s c = None ->
  (forall id got, events c !! id = Some got -> exists want, events s !! id = Some want /\ event_kept (is_Some (audits s !! id)) want got) /\
  (forall id, is_Some (events s !! id) -> is_Some (events c !! id)) /\
  verifyCommandAudits s c = None /\ ct_legacy c = false /\ is_Some (ct_events s) /\ is_Some (ct_events c).
Proof.
  unfold verifyFilteredCandidate. destruct (scrubStore s); [|done]. destruct (scrubStore c); [|done].
  destruct (ct_legacy c); [done|]. intros Hf. rewrite first_err_None, Forall_forall in Hf.
  split_and!; [| | |done| |].
  - intros id got Hg. apply check_event_spec, Hf. apply elem_of_app. right. apply elem_of_app. left. apply list_elem_of_fmap.
    exists (id, got). split; [done|]. by apply elem_of_map_to_list.
  - intros id [e He]. assert (Hk : check_kept c id = None).
    { apply Hf. apply elem_of_app. right. apply elem_of_app. right. apply elem_of_app. left. apply list_elem_of_fmap. exists id. split; [done|].
      apply list_elem_of_fmap. exists (id, e). split; [done|]. by apply elem_of_map_to_list. }
    unfold check_kept in Hk. destruct (bool_decide _) eqn:E; [|done]. by apply bool_decide_eq_true in E.
  - apply Hf. rewrite !elem_of_app. right. right. right. by apply list_elem_of_singleton.
  - destruct (ct_events s) eqn:E; [by eexists|]. by specialize (Hf _ (list_elem_of_here _ _)).
  - destruct (ct_events c) eqn:E; [by eexists|]. by specialize (Hf _ (list_elem_of_further _ _ _ (list_elem_of_here _ _))).
Qed.

Lemma VerifyPair_compared (s c : Content) : VerifyPair s c = None ->
  ct_events s = None /\ ct_events c = None \/ verifyFilteredCandidate s c = None.
Proof.
  unfold VerifyPair. intros Hf. rewrite first_err_None, !Forall_cons in Hf. destruct Hf as (_ & _ & Hf & _).
  destruct (bool_decide (is_Some (ct_events s)) || bool_decide (is_Some (ct_events c))) eqn:E; [by right|]. left.
  apply orb_false_iff in E as [E1 E2]. rewrite bool_decide_eq_false in E1, E2. by rewrite <-!eq_None_not_Some in E1, E2.
Qed.
Lemma VerifyPair_keeps (s c : Content) : VerifyPair s c = None -> keeps s c.
Proof.
  intros [[Hs Hc]|Hf]%VerifyPair_compared.
  - assert (Hn : forall id, events s !! id = None) by (intros; unfold events; by rewrite Hs). split; [intros ? ? He; by rewrite Hn in He|].
    intros id a _ [e He]. by rewrite Hn in He.
  - destruct (filtered_kept _ _ Hf) as (He & Hk & Ha & _ & _ & _). rewrite audit_merge in Ha.
    assert (Haud : forall id a, audits s !! id = Some a -> is_Some (events s !! id) ->
      exists a', audits c !! id = Some a' /\ audit_view a' = audit_view a).
    { intros id a Hia Hie. apply Hk in Hie. unfold audits in *. destruct (ct_audits s) as [l|]; [|done]. destruct (ct_audits c) as [r|]; [|done].
      destruct Ha as [_ Ha]. specialize (Ha id). simpl in *. rewrite Hia in Ha. destruct (at_rows r !! id) as [b|]; [by exists b|].
      destruct Hie as [? Hie]. congruence. }
    split; [|done]. intros id e Hid. destruct (Hk id) as [got Hg]; [by eexists|]. exists got. split; [done|].
    destruct (He id got Hg) as (want & Hw & Hi & Hb). assert (want = e) as -> by congruence. split; [done|].
    destruct Hb as [Hb|(Hb & Hkd & [a Hia])]; [by left|]. right. split_and!; [done|done|].
    destruct (Haud id a Hia) as (a' & Ha' & _); by eexists.
Qed.

(** (C19) A candidate that passes the verification has lost nothing.  Every
    event of the source is in it with the same kind, session, times, agent,
    client, workspace and hook, and the same body, unless it is a command
    whose audit, which has the text, is in the candidate; every audit of an
    event is in it, the same in every column; it has no event the source has
    not, and no retired search index. *)
Theorem verified_copy_keeps (s c : Content) :
  VerifyPair s c = None ->
  keeps s c /\ (forall id, is_Some (events c !! id) <-> is_Some (events s !! id)) /\
  (is_Some (ct_events s) -> ct_legacy c = false).
Proof.
  intros Hv. split; [by apply VerifyPair_keeps|]. apply VerifyPair_compared in Hv as [[Hs Hc]|Hf].
  - split; [intros id; unfold events; by rewrite Hs, Hc|]. rewrite Hs. by intros [? ?].
  - destruct (filtered_kept _ _ Hf) as (He & Hk & _ & Hl & _). split; [|done]. intros id. split; [|apply Hk].
    intros [got Hg]. destruct (He id got Hg) as (want & Hw & _). by eexists.
Qed.

(** ** The copy filter *)

Lemma clear_body_id (s : Content) id e : (0 <? slen (body e)) = false \/ audits s !! id = None -> clear_body s id e = e.
Proof.
  intros Hc. unfold clear_body, duplicatedCommandExecutedBodyPredicate. destruct Hc as [->|Hn]; [by rewrite andb_false_r|].
  rewrite bool_decide_eq_false_2 by (rewrite Hn; by intros [? ?]). by rewrite andb_false_r.
Qed.
Lemma applyCopyFilters_audits (s : Content) : ct_audits (applyCopyFilters s) = ct_audits s.
Proof. unfold applyCopyFilters, clearDuplicatedCommandExecutedBodies. destruct (ct_events s); [|done]. by destruct (_ || _). Qed.
Lemma applyCopyFilters_legacy (s : Content) : ct_legacy (applyCopyFilters s) = false.
Proof. unfold applyCopyFilters, clearDuplicatedCommandExecutedBodies. destruct (ct_events s); [|done]. by destruct (_ || _). Qed.
Lemma applyCopyFilters_tabled (s : Content) : is_Some (ct_events s) -> is_Some (ct_events (applyCopyFilters s)).
Proof.
  intros [m Hm]. unfold applyCopyFilters, clearDuplicatedCommandExecutedBodies. rewrite Hm. destruct (_ || _); by eexists.
Qed.
Lemma applyCopyFilters_events (s : Content) id : events (applyCopyFilters s) !! id = option_map (clear_body s id) (events s !! id).
Proof.
  unfold applyCopyFilters. destruct (ct_events s) as [m|] eqn:Em; [|unfold events; by rewrite Em].
  set (t := mkContent (Some m) (ct_audits s) false (ct_rest s)). assert (Et : events s = events t) by (unfold events; by rewrite Em).
  assert (Ec : forall e, clear_body s id e = clear_body t id e) by done. rewrite Et.
  assert (Hid : (forall e, events t !! id = Some e -> clear_body t id e = e) -> events t !! id = option_map (clear_body s id) (events t !! id)).
  { intros Hh. destruct (events t !! id) as [e|] eqn:Ee; [|done]. cbn. by rewrite Ec, Hh. }
  unfold clearDuplicatedCommandExecutedBodies. destruct (commandBodyReclaimReady t) eqn:Er; cbn [negb orb].
  - unfold measureDuplicatedCommandExecutedBodies. rewrite Er. cbn [fst]. destruct (Z.of_nat (base.size (duplicated t)) =? 0) eqn:Ez.
    + apply Hid. intros e He. assert (Hd : duplicated t = ∅) by (apply map_size_empty_iff; breflect; lia).
      unfold clear_body. destruct (duplicatedCommandExecutedBodyPredicate t id e) eqn:Ep; [|done].
      assert (Hl : duplicated t !! id = Some e) by (apply map_lookup_filter_Some; by split). by rewrite Hd, lookup_empty in Hl.
    + unfold events at 1. cbn [ct_events t option_map default]. unfold Datatypes.id. rewrite map_lookup_imap. unfold events. cbn. by destruct (m !! id).
  - apply Hid. intros e _. apply clear_body_id. right. unfold commandBodyReclaimReady, audits in *. cbn in *.
    destruct (ct_audits s); [|done]. by rewrite !bool_decide_eq_true_2 in Er by by eexists.
Qed.
Lemma applyCopyFilters_keeps (s : Content) : keeps s (applyCopyFilters s).
Proof.
  assert (Ea : audits (applyCopyFilters s) = audits s) by (unfold audits; by rewrite applyCopyFilters_audits). split.
  - intros id e He. exists (clear_body s id e). rewrite applyCopyFilters_events, He, Ea. split; [done|].
    unfold clear_body. destruct (duplicatedCommandExecutedBodyPredicate s id e) eqn:Ep; [|split; by auto]. split; [done|]. right.
    unfold duplicatedCommandExecutedBodyPredicate in Ep. breflect. by split_and!.
  - intros id a Ha _. exists a. by rewrite Ea.
Qed.
Lemma with_rest_keeps f (s t : Content) : keeps s t -> keeps s (with_rest f t).
Proof. done. Qed.
Lemma built_keeps (s : Content) : keeps s (built s).
Proof. apply with_rest_keeps, applyCopyFilters_keeps. Qed.
Lemma compacted_in_place_keeps (s : Content) : keeps s (compacted_in_place s).
Proof. apply with_rest_keeps, applyCopyFilters_keeps. Qed.

Lemma check_event_filtered (s : Content) id e : events s !! id = Some e -> check_event s (id, clear_body s id e) = None.
Proof.
  intros He. unfold check_event. cbn [fst snd]. rewrite He. unfold clear_body.
  destruct (duplicatedCommandExecutedBodyPredicate s id e) eqn:Ep; cbn [ident body]; rewrite bool_decide_eq_true_2 by done; cbn [negb];
    [|by rewrite String.eqb_refl].
  rewrite bool_decide_eq_true_2; [by rewrite andb_false_r|]. unfold permittedCommandBodyClears.
  pose proof Ep as Ep'. unfold duplicatedCommandExecutedBodyPredicate in Ep'. breflect. unfold commandBodyReclaimReady.
  rewrite !bool_decide_eq_true_2; [apply duplicated_spec; by exists e| |]; unfold events, audits in *.
  - destruct (ct_audits s); [by eexists|]. by destruct H2.
  - destruct (ct_events s); [by eexists|done].
Qed.
Lemma verifyCommandAudits_same (s c : Content) : ct_audits c = ct_audits s -> verifyCommandAudits s c = None.
Proof.
  intros E. apply audit_merge. rewrite E. destruct (ct_audits s); [|done]. split; [done|]. intros id. by destruct (at_rows _ !! id).
Qed.

(** The copy that is built is accepted.  When the store and its copy pass
    the checks of SQLite and of the attestation chain, the comparison of the
    two accepts what the copy filter did: no refusal is left to the bodies it
    cleared, the index it dropped or the audits it kept.  (A store without
    events is compared by its scrub.) *)
Theorem built_copy_verifies (s : Content) (x y : storeScrub) :
  VerifyStoreCompatibility s = Ok tt -> VerifyStoreCompatibility (built s) = Ok tt ->
  scrubStore s = Ok x -> scrubStore (built s) = Ok y -> (ct_events s = None -> x = y) ->
  VerifyAttestationChain s = Ok tt -> VerifyAttestationChain (built s) = Ok tt ->
  VerifyPair s (built s) = None.
Proof.
  intros H1 H2 H3 H4 H5 H6 H7.
  assert (Ee : is_Some (ct_events (built s)) <-> is_Some (ct_events s)).
  { unfold built, with_rest, applyCopyFilters, clearDuplicatedCommandExecutedBodies. cbn. destruct (ct_events s) eqn:E; [|done].
    destruct (_ || _); cbn; split; intros _; by eexists. }
  unfold VerifyPair. rewrite H1, H2, H6, H7. apply first_err_None. repeat constructor.
  destruct (bool_decide (is_Some (ct_events s)) || _) eqn:E.
  - assert (Hs : is_Some (ct_events s)).
    { apply orb_true_iff in E as [E|E]; apply bool_decide_eq_true in E; [done|by apply Ee]. }
    pose proof (proj2 Ee Hs) as [? Hb]. destruct Hs as [m Hm].
    unfold verifyFilteredCandidate. rewrite H3, H4. replace (ct_legacy (built s)) with false by (symmetry; apply applyCopyFilters_legacy).
    rewrite Hb, Hm. apply first_err_None. rewrite !Forall_app, !Forall_fmap. split_and!; [repeat constructor| | |].
    + rewrite Forall_forall. intros [id got] Hin. apply elem_of_map_to_list in Hin. change (events (built s)) with (events (applyCopyFilters s)) in Hin.
      rewrite applyCopyFilters_events in Hin. destruct (events s !! id) as [e|] eqn:He; [|done]. injection Hin as <-. by apply check_event_filtered.
    + rewrite Forall_forall. intros [id e] Hin. apply elem_of_map_to_list in Hin. unfold compose, check_kept. cbn [fst].
      change (events (built s)) with (events (applyCopyFilters s)). rewrite applyCopyFilters_events, Hin, bool_decide_eq_true_2; [done|by eexists].
    + repeat constructor. apply verifyCommandAudits_same, applyCopyFilters_audits.
  - rewrite H3, H4. rewrite H5, bool_decide_eq_true_2 by (apply orb_false_iff in E as [E%bool_decide_eq_false _]; by apply eq_None_not_Some || done). done.
Qed.

(** ** The guard *)

Lemma countAbsent_app (r : Content) l k : countAbsentFromRollback r (l ++ k) = countAbsentFromRollback r l + countAbsentFromRollback r k.
Proof. unfold countAbsentFromRollback. rewrite filter_app, length_app. lia. Qed.
Lemma count_pages_spec (r : Content) ids : forall fuel offset n, (length (drop offset ids) < fuel)%nat ->
  count_pages fuel r ids offset n = Some (n + countAbsentFromRollback r (drop offset ids)).
Proof.
  induction fuel as [|fuel IH]; intros offset n Hf; [lia|]. cbn [count_pages]. unfold rollbackGuardLookupChunk.
  pose proof (length_take (drop offset ids) 500) as Hl. pose proof (take_drop 500 (drop offset ids)) as Htd.
  destruct (take 500 (drop offset ids)) as [|p ps] eqn:E.
  - rewrite (nil_length_inv (drop offset ids)) by (cbn [length] in Hl; lia). unfold countAbsentFromRollback. cbn. f_equal. lia.
  - assert (Hd : drop (offset + length (p :: ps)) ids = drop 500 (drop offset ids)).
    { rewrite !drop_drop. destruct (decide (500 <= length (drop offset ids))%nat) as [Hle|Hlt].
      - f_equal. rewrite Hl. lia.
      - rewrite length_drop in *. rewrite !drop_ge; [done|lia|lia]. }
    rewrite IH; rewrite Hd.
    + rewrite <-Htd at 2. rewrite countAbsent_app. f_equal. lia.
    + rewrite !length_drop in *. cbn [length] in Hl. lia.
Qed.
Lemma count_dom (p r : Content) :
  countAbsentFromRollback r (published_ids p) = Z.of_nat (base.size (dom (events p) ∖ dom (events r))).
Proof.
  unfold countAbsentFromRollback. f_equal. rewrite <-(size_list_to_set (C := gset string)).
  - f_equal. apply set_eq. intros id. rewrite elem_of_list_to_set, list_elem_of_filter, elem_of_difference, !elem_of_dom.
    unfold published_ids. rewrite list_elem_of_fmap. split.
    + intros [Hr ([id' e] & -> & Hin%elem_of_map_to_list)]. cbn in *. split; [by eexists|]. rewrite Hr. by intros [? ?].
    + intros [[e He] Hr]. split; [by apply eq_None_not_Some|]. exists (id, e). split; [done|]. by apply elem_of_map_to_list.
  - apply NoDup_filter, NoDup_fst_map_to_list.
Qed.
Lemma diff_size_zero (X Y : gset string) : Z.of_nat (base.size (X ∖ Y)) = 0 <-> X ⊆ Y.
Proof.
  split; intros Hz.
  - apply empty_difference_subseteq_L, leibniz_equiv, size_empty_inv. lia.
  - rewrite subseteq_empty_difference_L by done. by rewrite size_empty.
Qed.
Lemma CountRecordsAtRisk_dom (p r : Content) : is_Some (ct_events p) -> is_Some (ct_events r) ->
  CountRecordsAtRisk p r = Z.of_nat (base.size (dom (events p) ∖ dom (events r))).
Proof.
  intros Hp Hr. unfold CountRecordsAtRisk. rewrite !bool_decide_eq_true_2 by done. cbn [andb].
  rewrite count_pages_spec by (rewrite drop_0; lia). rewrite drop_0, <-count_dom. cbn. lia.
Qed.

Lemma CountRecordsAtRisk_nonneg (p r : Content) : 0 <= CountRecordsAtRisk p r.
Proof.
  unfold CountRecordsAtRisk. destruct (_ && _); [|done]. rewrite count_pages_spec by (rewrite drop_0; lia). cbn. unfold countAbsentFromRollback. lia.
Qed.

(** The guard counts what a rollback would discard.  Reading the ids of
    the published store five hundred at a time, it returns the number of its
    events that are not in the rollback copy, each counted once; in
    particular it returns zero exactly when the copy has every event. *)
Theorem rollback_guard_exact (p r : Content) :
  is_Some (ct_events p) -> is_Some (ct_events r) ->
  CountRecordsAtRisk p r = Z.of_nat (base.size (dom (events p) ∖ dom (events r))) /\
  (CountRecordsAtRisk p r = 0 <-> dom (events p) ⊆ dom (events r)).
Proof.
  intros Hp Hr. rewrite CountRecordsAtRisk_dom by done. split; [done|]. apply diff_size_zero.
Qed.
End Copy.
