(* ===== verification/StoreCompaction.v ===== *)
(** * The store compaction use case

    [src/application/usecase/store_compaction.go]: planning, the loop of
    actions, the resumption of an interrupted run, the abandonment of one
    whose source has moved on, and the rollback.  Each runs under the
    exclusive lease of the store.  On an error the run as far as it came is
    not returned. *)

From S2P Require Import Prelude GoStrings GoOs GoTime Upgrade Interleaving StoreContent StoreFiles Compaction.

Notation "'let?' x ':=' p 'in' k" :=
  (bind p (fun r => match r with Ok x => k | Err e => Ret (Err e) end))
  (at level 200, x name, p at level 100, k at level 200) : prog_scope.
#[local] Open Scope prog_scope.

Record CompactResult := mkCompactResult {
  cr_Run : CompactionRun; BytesBefore : Z; BytesAfter : Z; ReleasedCommandBodyRows : Z; ReleasedCommandBodyBytes : Z;
  EstimatedReclaimableBytes : Z; CompactStrategy : string }.
Definition CompactStrategyReplica : string := "replica".
Definition CompactStrategyExternal : string := "external".
Definition CompactStrategyInPlace : string := "in_place".

Section Usecase.
Context (CallerHoldsExclusiveLease : bool) (error_text : error -> string) (expectedStore : string).
Notation run_ := (storer (result CompactionRun)).

Definition validateBinding {A} (run : CompactionRun) (k : storer (result A)) : storer (result A) :=
  if Clean (ru_source_path run) <>?s expectedStore then Ret (Err (Errorf "compaction run is bound to another store" [])) else k.
Definition advance (run : CompactionRun) (phase : string) : storer (result CompactionRun) :=
  with_now (fun now =>
  match Advance run phase now with
  | Err e => Ret (Err e)
  | Ok next => call (OpAppendRun next) plain (fun _ => Ret (Ok next))
  end).
Definition leased {A} (k : storer (result A)) : storer (result A) := call (OpLease expectedStore) plain (fun _ => k).

(** ** Planning *)

Definition planLeased (source : string) : storer (result CompactionRun) :=
  call OpRandom (fun e => Err (Wrap "create compaction run id: %w" [] e)) (fun id =>
  with_now (fun now =>
  let run := mkRun id source (source +:+ ".compact-" +:+ id) (source +:+ ".rollback-" +:+ id) Planned StoreFileIdentity_zero StoreFileIdentity_zero
               StoreFileIdentity_zero 0 "" "" "" "" None None (mkCarried no_resources no_budget no_evidence) (UTC now) (UTC now) in
  let? planned := Plan_files CallerHoldsExclusiveLease run in
  call (OpCreateRun planned) plain (fun _ => Ret (Ok planned)))).
Definition bound {A} (source : string) (k : storer (result A)) : storer (result A) :=
  if Clean source <>?s expectedStore then Ret (Err (Errorf "compaction store binding mismatch" [])) else k.
Definition Plan (source : string) : storer (result CompactionRun) := bound source (leased (planLeased source)).

(** ** Abandoning *)

(** Its context is detached: nothing interrupts it. *)
Definition abandonPrePublication (run : CompactionRun) : storer (result CompactionRun) :=
  if negb (IsPrePublication (ru_phase run)) then Ret (Err (Errorf "cannot abandon compaction in phase %q" [ru_phase run]))
  else let? _ := RemoveAbandonedCandidate run in advance run Abandoned.
Definition abandonIfStalePrePublication (existing : CompactionRun) : storer (result bool) :=
  if negb (IsPrePublication (ru_phase existing)) then Ret (Ok false)
  else
    call OpContext plain (fun _ =>
    call (OpInspect (ru_source_path existing)) plain (fun current =>
    if negb (ShouldAbandonForStaleSource existing current) then Ret (Ok false)
    else let? _ := abandonPrePublication existing in Ret (Ok true))).

(** ** The loop of actions *)

Definition apply_action (action : string) (run : CompactionRun) : storer (result CompactionRun) :=
  if action =?s "recheck_plan" then let? _ := Recheck run in advance run CopyIntent
  else if action =?s "prepare_candidate" then
    let? identity := PrepareCandidate run in
    advance (set_prepared run identity (u64 (ru_attempt run + 1))) CandidatePrepared
  else if action =?s "build_candidate" then
    bind (Build (ru_source_path run) (ru_candidate_path run)) (fun out =>
    match out with
    | Ok _ => advance run CopyComplete
    | Err e =>
        Do OpContext (fun ctx =>
        if is_ok ctx then Ret (Err e)
        else bind (abandonPrePublication run) (fun out' =>
             match out' with
             | Ok _ => Ret (Err e)
             | Err e' => Ret (Err (Wrap "%w (also failed to abandon: %v)" [error_text e'] e))
             end))
    end)
  else if action =?s "record_sync_intent" then advance run CandidateSyncIntent
  else if action =?s "sync_candidate" then let? _ := Sync (ru_candidate_path run) in advance run CandidateSynced
  else if action =?s "record_scrub_in_progress" then advance run ScrubInProgress
  else if action =?s "verify_candidate" then
    call (OpVerifyPair (ru_source_path run) (ru_candidate_path run)) plain (fun _ =>
    let? fenced := FenceCandidate run in advance fenced CandidateVerified)
  else if action =?s "record_swap_intent" then advance run SwapIntent
  else if action =?s "exchange" then
    let? _ := RejectRetiredSearchIndex run in
    let? _ := Exchange run in advance run Swapped
  else if action =?s "record_publish_intent" then advance run RollbackPublishIntent
  else if action =?s "publish_rollback" then let? _ := PublishRollback run in advance run RollbackReady
  else if action =?s "commit" then advance run Committed
  else Ret (Err (Errorf "cannot execute compaction action %q" [action])).
Definition out_of_fuel : error := Sentinel "out of fuel".
Fixpoint apply_loop (fuel : nat) (run : CompactionRun) : storer (result CompactionRun) :=
  if ru_phase run =?s Committed then Ret (Ok run)
  else match fuel with
       | O => Ret (Err out_of_fuel)
       | S fuel =>
           match NextAction run with
           | Err e => Ret (Err e)
           | Ok action => let? next := apply_action action run in apply_loop fuel next
           end
       end.
(** Each action advances the run, which has twelve phases to commit. *)
Definition apply_fuel : nat := 13.
Definition applyLeased (run : CompactionRun) : storer (result CompactionRun) := apply_loop apply_fuel run.

(** ** Resuming *)

Definition phaseForRecoveryAction (action : string) : option string :=
  if action =?s "record_swap_intent" then Some SwapIntent
  else if action =?s "record_swapped" then Some Swapped
  else if action =?s "record_publish_intent" then Some RollbackPublishIntent
  else if action =?s "record_rollback_ready" then Some RollbackReady
  else if action =?s "record_rollback_swapped" then Some RollbackSwapped
  else if action =?s "record_rolled_back" then Some RolledBack
  else None.
Definition recover_action (run : CompactionRun) (obs : Observation) (action : string) : storer (result CompactionRun) :=
  if action =?s "sync_recovered_orientation" then let? _ := SyncRecoveredOrientation run obs in Ret (Ok run)
  else if action =?s "remove_owned_partial_candidate" then
    let? _ := Recheck run in
    let? _ := RemoveOwnedPartialCandidate run obs in Ret (Ok run)
  else if action =?s "record_copy_retry_intent" then advance run CopyRetryIntent
  else if action =?s "record_copy_complete" then advance run CopyComplete
  else if action =?s "exchange" then
    let? _ := RejectRetiredSearchIndex run in
    let? _ := Exchange run in Ret (Ok run)
  else if action =?s "rollback_exchange" then let? _ := Exchange run in Ret (Ok run)
  else match phaseForRecoveryAction action with
       | None => Ret (Err (Errorf "unsupported recovery action %q" [action]))
       | Some phase => advance run phase
       end.
Fixpoint recover_actions (run : CompactionRun) (obs : Observation) (actions : list string) : storer (result CompactionRun) :=
  match actions with
  | [] => Ret (Ok run)
  | action :: rest => let? next := recover_action run obs action in recover_actions next obs rest
  end.
Definition set_condition (obs : Observation) (condition : string) : Observation :=
  mkObservation (ob_orientation obs) (ob_source obs) (ob_candidate obs) (ob_rollback obs) (ob_candidate_exists obs) (ob_rollback_exists obs) condition.
Definition resumeLeased (run : CompactionRun) : storer (result CompactionRun) :=
  let? seen := Observe run in
  let? obs := (if (ru_phase run =?s CandidatePrepared) && (ob_orientation seen =?s OrientationCandidateReady)
               then bind (ClassifyCandidate (ru_source_path run) (ru_candidate_path run)) (fun c => Ret (Ok (set_condition seen c)))
               else Ret (Ok seen)) in
  match RecoveryActions run obs with
  | Err e => Ret (Err e)
  | Ok actions =>
      let? next := recover_actions run obs actions in
      if ru_phase next =?s RollbackSwapped then advance next RolledBack
      else if ru_phase next =?s RolledBack then Ret (Ok next)
      else applyLeased next
  end.
Definition loaded {A} (id : string) (k : CompactionRun -> storer (result A)) : storer (result A) :=
  call (OpLoad id) plain (fun run => validateBinding run (k run)).
Definition Apply (id : string) : storer (result CompactionRun) := leased (loaded id applyLeased).
Definition Resume (id : string) : storer (result CompactionRun) := leased (loaded id resumeLeased).
Definition Status (id : string) : storer (result CompactionRun) := loaded id (fun run => Ret (Ok run)).

(** ** Compacting *)

Definition ambiguous : error := Errorf "ambiguous in-flight compaction" [].
(** [FindInFlight]: the single run of the store that is not finished. *)
Fixpoint find_in_flight (source : string) (found : option CompactionRun) (ids : list string) : storer (result CompactionRun) :=
  match ids with
  | [] => Ret (match found with None => Err ErrNotExist | Some run => Ok run end)
  | id :: rest =>
      call (OpLoad id) plain (fun run =>
      if (Clean (ru_source_path run) <>?s Clean source) || (ru_operation run <>?s "") && (ru_operation run <>?s OperationCompaction)
         || IsTerminal (ru_phase run)
      then find_in_flight source found rest
      else match found with
           | Some _ => Ret (Err ambiguous)
           | None => find_in_flight source (Some run) rest
           end)
  end.
Definition FindInFlight (source : string) : storer (result CompactionRun) :=
  if source =?s "" then Ret (Err (Errorf "invalid compaction in-flight lookup" []))
  else call OpJournals plain (fun ids => find_in_flight source None ids).
Definition is_not_exist (e : error) : bool := errors_is e "file does not exist".

Definition AbandonStalePrePublication (source : string) : storer (result (option CompactionRun)) :=
  bound source (leased (
  bind (FindInFlight source) (fun out =>
  match out with
  | Err e => Ret (if is_not_exist e then Ok None else Err e)
  | Ok existing =>
      validateBinding existing (
      let? abandoned := abandonIfStalePrePublication existing in
      if negb abandoned then Ret (Ok None)
      else call (OpLoad (ru_id existing)) plain (fun run => Ret (Ok (Some run))))
  end))).
Definition compactLeased (source : string) : storer (result CompactionRun) :=
  let fresh := let? planned := planLeased source in applyLeased planned in
  bind (FindInFlight source) (fun out =>
  match out with
  | Err e => if is_not_exist e then fresh else Ret (Err e)
  | Ok existing =>
      let? abandoned := abandonIfStalePrePublication existing in
      if abandoned then fresh else validateBinding existing (resumeLeased existing)
  end).
Definition isInsufficientCompactionSpace (e : error) : bool := Contains (error_text e) "insufficient free space".
(** [in_source] and [in_workDir] of [CompactInput]; the progress reports and
    the steps of the builder are left out. *)
Definition Compact (in_source in_workDir : string) : storer (result CompactResult) :=
  let source := if in_source =?s "" then expectedStore else in_source in
  bound source (
  call (OpStat source) (fun e => Err (Wrap "stat compaction source: %w" [] e)) (fun before =>
  leased (
  call (OpReclaim source) plain (fun reclaim =>
  call (OpEstimate source) plain (fun estimated =>
  let strategy := if TrimSpace in_workDir <>?s "" then CompactStrategyExternal else CompactStrategyReplica in
  let finish run strategy :=
    call (OpStat source) (fun e => Err (Wrap "stat compacted store: %w" [] e)) (fun after =>
    Ret (Ok (mkCompactResult run before after (fst reclaim) (snd reclaim) estimated strategy))) in
  bind (compactLeased source) (fun out =>
  match out with
  | Ok run => finish run strategy
  | Err e =>
      if isInsufficientCompactionSpace e && (strategy <>?s CompactStrategyInPlace)
      then call (OpInPlace source) (fun e' => Err (Wrap "in-place compact after insufficient replica space: %w" [error_text e; Itoa estimated] e'))
             (fun _ => finish zero_run CompactStrategyInPlace)
      else Ret (Err e)
  end)))))).

(** ** Rolling back *)

Definition rollback_phases : list string := [Swapped; RollbackReady; Committed; RollbackSwapIntent; RollbackSwapped].
(** What [Rollback] does once the guard has let it. *)
Definition roll_back (run : CompactionRun) : storer (result CompactionRun) :=
  let finish run obs :=
    if ob_orientation obs <>?s OrientationRollbackReady
    then Ret (Err (Errorf "rollback requires rollback-ready orientation, got %q" [ob_orientation obs]))
    else
      let? intent := (if ru_phase run <>?s RollbackSwapIntent then advance run RollbackSwapIntent else Ret (Ok run)) in
      let? _ := Exchange intent in
      let? swapped := advance intent RollbackSwapped in
      advance swapped RolledBack in
  let? obs := Observe run in
  if ob_orientation obs =?s OrientationRolledBack then
    let? next := (if ru_phase run =?s RollbackSwapIntent then advance run RollbackSwapped else Ret (Ok run)) in
    if ru_phase next =?s RollbackSwapped then advance next RolledBack
    else Ret (Err (Errorf "rollback observation conflicts with phase" []))
  else if ob_orientation obs =?s OrientationSwapped then
    let? next := (if ru_phase run =?s Swapped then advance run RollbackPublishIntent else Ret (Ok run)) in
    if ru_phase next <>?s RollbackPublishIntent then Ret (Err (Errorf "swapped rollback requires publish intent, got %q" [ru_phase next]))
    else
      let? _ := PublishRollback next in
      let? ready := advance next RollbackReady in
      let? again := Observe ready in finish ready again
  else finish run obs.
Definition Rollback (id : string) : storer (result CompactionRun) :=
  leased (loaded id (fun run =>
  if negb (slices_contains rollback_phases (ru_phase run)) then Ret (Err (Errorf "cannot rollback compaction in phase %q" [ru_phase run]))
  else if TrimSpace (ru_rollback_path run) <>?s "" then
    call (OpCountAtRisk expectedStore (TrimSpace (ru_rollback_path run))) plain (fun atRisk =>
    if 0 <? atRisk then Ret (Err (Errorf "refuses compact rollback: %d record(s) written after the pre-compact snapshot would be discarded; rollback is available only before new records arrive" [Itoa atRisk]))
    else roll_back run)
  else roll_back run)).
End Usecase.
