(* ===== verification/CompactionSafe.v ===== *)
(** * Compaction never loses what the store acknowledged

    Whatever invocations of the compaction commands run one after another,
    each failing or dying at any call, with writes between them, the store
    file is there and has everything it had.  The proof is for any relation
    [rel] between contents that the verification of a candidate and the copy
    filter establish; a rollback asks that the guard establishes it too. *)

From S2P Require Import Prelude GoStrings GoOs GoTime Upgrade Interleaving StoreContent StoreFiles Compaction StoreCopy StoreCompaction.

(** The commands, and the resumption of a run by its id. *)
Inductive Request :=
| ReqCompact (source workDir : string)
| ReqResume (id : string)
| ReqAbandon (source : string)
| ReqRollback (id : string).

Section Safe.
Context {Rest : Type} `{Engine Rest} `{Recipe Rest} (json_len : CompactionRun -> Z) (CallerHoldsExclusiveLease : bool)
  (error_text : error -> string) (P : string).
Notation Content := (Content Rest).
Notation World := (World Content).
Notation run_op := (store_run json_len).

Definition outcome {A} (p : storer (result A)) : storer (result unit) :=
  bind p (fun r => Ret (match r with Ok _ => Ok tt | Err e => Err e end)).
Definition serve (q : Request) : storer (result unit) :=
  match q with
  | ReqCompact source workDir => outcome (Compact CallerHoldsExclusiveLease error_text P source workDir)
  | ReqResume id => outcome (Resume error_text P id)
  | ReqAbandon source => outcome (AbandonStalePrePublication P source)
  | ReqRollback id => outcome (Rollback P id)
  end.

(** A process that fails or dies after any of its calls. *)
Inductive interrupted {A} : storer A -> World -> World -> Prop :=
| interrupted_here p w : interrupted p w w
| interrupted_call B (op : StoreOp B) k w r w' w'' :
    answer run_op op w r w' -> interrupted (k r) w' w'' -> interrupted (Do op k) w w''.

Lemma alone_interrupted {A} (p : storer A) w : interrupted p w (snd (alone run_op p w)).
Proof. revert w. induction p as [a|B op k IH]; intros w; cbn [alone]; [constructor|]. econstructor; [apply answer_done|apply IH]. Qed.
Lemma steps_interrupted {A} n : forall (p : storer A) w, interrupted p w (snd (steps run_op n p w)).
Proof.
  induction n as [|n IH]; intros p w; [constructor|]. destruct p as [a|B op k]; cbn [steps]; [constructor|]. econstructor; [apply answer_done|apply IH].
Qed.

(** A rollback that died before its exchange is finished by [Rollback]. *)
Definition no_interrupted_rollback (w : World) : Prop :=
  forall id run, Load json_len w id = Ok run -> ru_phase run <> RollbackSwapIntent.

Section Kept.
Context (rel : Content -> Content -> Prop) (tabled : Content -> Prop) (may_roll_back : bool).

(** What happens to the directory: an invocation, a writer that commits, and
    the passing of time.  Only the exclusive lease lets invocations be serial;
    the writers hold the shared lease. *)
Inductive life : World -> World -> Prop :=
| life_invoke w q w' :
    match q with
    | ReqCompact source _ => source = "" \/ source = P
    | ReqAbandon source => source = P
    | ReqResume _ => True
    | ReqRollback _ => may_roll_back = true
    end ->
    (may_roll_back = true -> (exists id, q = ReqRollback id) \/ no_interrupted_rollback w) ->
    interrupted (serve q) w w' -> life w w'
| life_write w f d :
    cw_files w !! P = Some f -> rel (sf_data f) d -> life w (rewrite_file file_size w P d)
| life_elapse w w' :
    cw_files w' = cw_files w -> cw_journal w' = cw_journal w -> cw_clock w' = cw_clock w -> life w w'.

(** The store file of [w], in [w']. *)
Definition kept (w w' : World) : Prop :=
  forall f, cw_files w !! P = Some f -> exists f', cw_files w' !! P = Some f' /\ sf_regular f' = sf_regular f /\ rel (sf_data f) (sf_data f').

(** ** The invariant *)

Definition pair_ok (w : World) (run : CompactionRun) : Prop :=
  forall p q f g, cw_files w !! p = Some f -> cw_files w !! q = Some g ->
    sf_id f = ru_source run -> sf_id g = ru_candidate run -> rel (sf_data f) (sf_data g).
Definition source_ok (w : World) (run : CompactionRun) : Prop :=
  forall p f, cw_files w !! p = Some f -> sf_id f = ru_source run -> tabled (sf_data f).
Definition old (w : World) (i : StoreFileIdentity) : Prop := fi_mod_unix i < cw_clock w.
Record good (w : World) (run : CompactionRun) : Prop := mkGood {
  good_source : ru_source_path run = P;
  good_candidate : exists s id, s <> "" /\ ru_candidate_path run = P +:+ s +:+ id;
  good_rollback : exists id, ru_rollback_path run = P +:+ ".rollback-" +:+ id;
  good_trimmed : may_roll_back = true -> TrimSpace (ru_rollback_path run) = ru_rollback_path run;
  good_old_source : old w (ru_source run);
  good_old_candidate : old w (ru_candidate run);
  good_pair : pair_ok w run;
  good_tabled : source_ok w run;
  good_phase : may_roll_back = false -> ru_phase run <> RollbackSwapIntent }.
Record Inv (w : World) : Prop := mkInv {
  inv_store : exists f, cw_files w !! P = Some f /\ sf_regular f = true /\ tabled (sf_data f);
  inv_stamps : forall p f, cw_files w !! p = Some f -> 0 < fi_mod_unix (sf_id f) < cw_clock w;
  inv_unique : forall p q f g, cw_files w !! p = Some f -> cw_files w !! q = Some g -> sf_id f = sf_id g -> p = q;
  inv_runs : forall id records run, cw_journal w !! id = Some records -> run ∈ records -> good w run }.

Context (rel_refl : forall s, rel s s) (rel_trans : forall s t u, rel s t -> rel t u -> rel s u)
  (rel_tabled : forall s t, rel s t -> tabled s -> tabled t)
  (rel_verified : forall s c, VerifyPair s c = None -> rel s c)
  (rel_in_place : forall s, rel s (compacted_in_place s))
  (rel_guard : may_roll_back = true -> forall p r, tabled p -> tabled r -> CountRecordsAtRisk p r = 0 -> rel p r).

Lemma kept_refl w : kept w w.
Proof using rel_refl. intros f Hf. by exists f. Qed.
Lemma kept_trans w1 w2 w3 : kept w1 w2 -> kept w2 w3 -> kept w1 w3.
Proof using rel_trans.
  intros H1 H2 f Hf. destruct (H1 f Hf) as (g & Hg & Hr & Hrel). destruct (H2 g Hg) as (h & Hh & Hr' & Hrel').
  exists h. split_and!; [done|congruence|by eapply rel_trans].
Qed.
Lemma kept_same w w' : cw_files w' !! P = cw_files w !! P -> kept w w'.
Proof using rel_refl. intros E f Hf. exists f. by rewrite E. Qed.

(** Every file of [w'] is a file of [w], or a later version. *)
Definition evolves (w w' : World) : Prop :=
  cw_clock w <= cw_clock w' /\
  forall p f, cw_files w' !! p = Some f -> (exists q, cw_files w !! q = Some f) \/ cw_clock w <= fi_mod_unix (sf_id f).
Lemma good_evolves w w' run : evolves w w' -> good w run -> good w' run.
Proof.
  intros [Hc He] [? ? ? ? Hs Hd Hp Ht ?]. split; try done; unfold old in *; [lia|lia|..].
  - intros p q f g Hf Hg Ef Eg. destruct (He p f Hf) as [[p' Hf']|?]; [|rewrite Ef in *; lia].
    destruct (He q g Hg) as [[q' Hg']|?]; [by eapply Hp|rewrite Eg in *; lia].
  - intros p f Hf Ef. destruct (He p f Hf) as [[p' Hf']|?]; [by eapply Ht|rewrite Ef in *; lia].
Qed.
(** Runs that differ in what [good] does not read. *)
Lemma good_same w run run' :
  ru_source_path run' = ru_source_path run -> ru_candidate_path run' = ru_candidate_path run -> ru_rollback_path run' = ru_rollback_path run ->
  ru_source run' = ru_source run -> ru_candidate run' = ru_candidate run ->
  (may_roll_back = false -> ru_phase run' <> RollbackSwapIntent) -> good w run -> good w run'.
Proof. intros E1 E2 E3 E4 E5 E6 []. split; unfold pair_ok, source_ok in *; by rewrite ?E1, ?E2, ?E3, ?E4, ?E5. Qed.

(** ** The effects *)

Definition sound (w w' : World) : Prop := Inv w' /\ kept w w' /\ forall run, good w run -> good w' run.
Lemma sound_refl w : Inv w -> sound w w.
Proof using rel_refl. intros Hi. split_and!; [done|apply kept_refl|done]. Qed.
Lemma sound_trans w1 w2 w3 : sound w1 w2 -> sound w2 w3 -> sound w1 w3.
Proof using rel_trans. intros (_ & H1 & G1) (Hi & H2 & G2). split_and!; [done|by eapply kept_trans|by auto]. Qed.

Lemma inv_step w w' : Inv w -> evolves w w' -> kept w w' -> cw_journal w' = cw_journal w ->
  (forall p f, cw_files w' !! p = Some f -> 0 < fi_mod_unix (sf_id f) < cw_clock w') ->
  (forall p q f g, cw_files w' !! p = Some f -> cw_files w' !! q = Some g -> sf_id f = sf_id g -> p = q) -> sound w w'.
Proof using rel_tabled.
  intros [(f & Hf & Hr & Ht) _ _ Hruns] He Hk Hj Hs Hu. split; [|split; [done|by intros run; apply good_evolves]]. split; [|done|done|].
  - destruct (Hk f Hf) as (f' & Hf' & Hr' & Hrel). exists f'. split_and!; [done|congruence|by eapply rel_tabled].
  - rewrite Hj. intros id records run Hid Hrun. eapply good_evolves; [done|by eapply Hruns].
Qed.
Lemma inv_alike w w' : Inv w -> cw_files w' = cw_files w -> cw_clock w' = cw_clock w -> cw_journal w' = cw_journal w -> sound w w'.
Proof using rel_refl rel_tabled.
  intros Hi Ef Ec Ej. apply inv_step; [done| |apply kept_same; by rewrite Ef|done|rewrite Ef, Ec; apply Hi|rewrite Ef; apply Hi].
  split; [lia|]. rewrite Ef. intros p f Hf. left. by exists p.
Qed.

(** A new version of a file, or a new file. *)
Lemma fresh_file w path i d b :
  Inv w -> fi_mod_unix i = cw_clock w ->
  (path = P -> exists f, cw_files w !! path = Some f /\ b = sf_regular f /\ rel (sf_data f) d) ->
  let w' := set_files w (<[path := mkStoreFile i b d]> (cw_files w)) (cw_clock w + 1) in sound w w'.
Proof using rel_refl rel_tabled.
  intros Hi Hm Hp w'. pose proof (inv_stamps _ Hi) as Hs.
  assert (Hl : forall p f, cw_files w' !! p = Some f -> p = path /\ f = mkStoreFile i b d \/ p <> path /\ cw_files w !! p = Some f).
  { intros p f. cbn. intros [[-> <-]|[? ?]]%lookup_insert_Some; [by left|by right]. }
  assert (Hc : cw_clock w' = cw_clock w + 1) by done.
  apply inv_step; [done| | |done| |].
  - split; [lia|]. intros p f [[-> ->]|[_ Hf]]%Hl; [right; cbn; lia|left; by exists p].
  - intros f Hf. cbn. destruct (decide (path = P)) as [Ep|Hn].
    + destruct (Hp Ep) as (f0 & Hf0 & Hb & Hrel). subst path. rewrite lookup_insert_eq. exists (mkStoreFile i b d). split; [done|].
      assert (f0 = f) as -> by congruence. done.
    + rewrite lookup_insert_ne by done. exists f. by split_and!.
  - intros p f [[-> ->]|[_ Hf]]%Hl; rewrite Hc; [cbn|specialize (Hs p f Hf); lia].
    destruct (inv_store _ Hi) as (f0 & Hf0 & _). specialize (Hs _ _ Hf0). lia.
  - intros p q f g [[-> ->]|[Hnp Hf]]%Hl [[-> ->]|[Hnq Hg]]%Hl E; [done| | |by eapply (inv_unique _ Hi)].
    + cbn in E. specialize (Hs _ _ Hg). rewrite <-E in Hs. lia.
    + cbn in E. specialize (Hs _ _ Hf). rewrite E in Hs. lia.
Qed.
Lemma create_inv w path : Inv w -> path <> P ->
  sound w (snd (create blank w path)) /\ cw_files (snd (create blank w path)) !! P = cw_files w !! P.
Proof using rel_refl rel_tabled.
  intros Hi Hn. unfold create. destruct (cw_files w !! path) eqn:E; cbn [snd]; [by split; [apply sound_refl|]|].
  split; [by apply (fresh_file w path (mkFileIdentity (cw_device w) (cw_clock w) 0 (cw_clock w) 384 1) blank true Hi eq_refl)|]. cbn. by rewrite lookup_insert_ne.
Qed.
Lemma rewrite_inv w path d : Inv w -> (path = P -> forall f, cw_files w !! P = Some f -> rel (sf_data f) d) ->
  sound w (rewrite_file file_size w path d).
Proof using rel_refl rel_tabled.
  intros Hi Hp. unfold rewrite_file. destruct (cw_files w !! path) as [f|] eqn:E; [|by apply sound_refl].
  apply fresh_file; [done|done|]. intros ->. exists f. split_and!; [done|done|by apply Hp].
Qed.
Lemma rewrite_elsewhere w path d : path <> P -> cw_files (rewrite_file file_size w path d) !! P = cw_files w !! P.
Proof. intros Hn. unfold rewrite_file. destruct (cw_files w !! path); [|done]. cbn. by rewrite lookup_insert_ne. Qed.

(** Files moved or removed. *)
Lemma moved w files :
  Inv w -> (forall p f, files !! p = Some f -> exists q, cw_files w !! q = Some f) ->
  (forall p q f g, files !! p = Some f -> files !! q = Some g -> sf_id f = sf_id g -> p = q) ->
  (forall f, cw_files w !! P = Some f -> exists f', files !! P = Some f' /\ sf_regular f' = sf_regular f /\ rel (sf_data f) (sf_data f')) ->
  sound w (set_files w files (cw_clock w)).
Proof using rel_tabled.
  intros Hi Hf Hu Hk. apply inv_step; [done| |exact Hk|done| |exact Hu].
  - split; [cbn; lia|]. intros p f Hp. left. by apply (Hf p).
  - intros p f Hp. destruct (Hf p f Hp) as [q Hq]. by apply (inv_stamps _ Hi q).
Qed.
Lemma remove_inv w path : Inv w -> path <> P ->
  sound w (snd (remove w path)) /\ cw_files (snd (remove w path)) !! P = cw_files w !! P.
Proof using rel_refl rel_tabled.
  intros Hi Hn. unfold remove. destruct (cw_files w !! path) eqn:E; cbn [snd]; [|by split; [apply sound_refl|]].
  assert (Hd : forall p f, delete path (cw_files w) !! p = Some f -> cw_files w !! p = Some f) by (intros p f [_ ?]%lookup_delete_Some; done).
  split; [apply moved; [done|..]|].
  - intros p f Hp. exists p. by apply Hd.
  - intros p q f g Hp%Hd Hq%Hd. by apply (inv_unique _ Hi).
  - intros f Hf. exists f. by rewrite lookup_delete_ne.
  - cbn. by rewrite lookup_delete_ne.
Qed.
Lemma exchange_inv w onto f g : Inv w -> onto <> P -> cw_files w !! P = Some f -> cw_files w !! onto = Some g ->
  sf_regular g = true -> rel (sf_data f) (sf_data g) ->
  sound w (snd (atomicExchange w P onto)).
Proof using rel_tabled.
  intros Hi Hn Hf Hg Hr Hrel. unfold atomicExchange. rewrite Hf, Hg. cbn [snd].
  assert (Hl : forall p h, <[P := g]> (<[onto := f]> (cw_files w)) !! p = Some h ->
    p = P /\ h = g \/ p = onto /\ h = f \/ p <> P /\ p <> onto /\ cw_files w !! p = Some h).
  { intros p h [[-> <-]|[? Hh]]%lookup_insert_Some; [by left|]. apply lookup_insert_Some in Hh as [[-> <-]|[? ?]]; [by right; left|by right; right]. }
  pose proof (inv_unique _ Hi) as Hu. apply moved; [done|..].
  - intros p h [[-> ->]|[[-> ->]|(_ & _ & Hh)]]%Hl; by eexists.
  - intros p q h k Hp Hq E. apply Hl in Hp. apply Hl in Hq.
    destruct Hp as [[-> ->]|[[-> ->]|(Hp1 & Hp2 & Hp)]], Hq as [[-> ->]|[[-> ->]|(Hq1 & Hq2 & Hq)]]; try done.
    all: try (by pose proof (Hu _ _ _ _ Hf Hg E)); try (by pose proof (Hu _ _ _ _ Hg Hf E)).
    all: try (by pose proof (Hu _ _ _ _ Hf Hq E)); try (by pose proof (Hu _ _ _ _ Hg Hq E)).
    all: try (by pose proof (Hu _ _ _ _ Hp Hf E)); try (by pose proof (Hu _ _ _ _ Hp Hg E)). by eapply Hu.
  - intros f' Hf'. assert (f' = f) as -> by congruence. exists g. rewrite lookup_insert_eq. split_and!; [done| |done].
    destruct (inv_store _ Hi) as (f0 & Hf0 & Hr0 & _). congruence.
Qed.
Lemma rename_inv w from onto : Inv w -> from <> P -> onto <> P ->
  sound w (snd (renameNoReplace w from onto))
  /\ cw_files (snd (renameNoReplace w from onto)) !! P = cw_files w !! P.
Proof using rel_refl rel_tabled.
  intros Hi Hn Hn'. unfold renameNoReplace.
  destruct (cw_files w !! from) as [f|] eqn:Ef; [destruct (cw_files w !! onto) as [g|] eqn:Eo|]; cbn [snd]; [by split; [apply sound_refl|]| |by split; [apply sound_refl|]].
  assert (Hl : forall p h, <[onto := f]> (delete from (cw_files w)) !! p = Some h ->
    p = onto /\ h = f \/ p <> onto /\ p <> from /\ cw_files w !! p = Some h).
  { intros p h [[-> <-]|[? Hh]]%lookup_insert_Some; [by left|]. apply lookup_delete_Some in Hh as [? ?]. right. split_and!; by auto. }
  pose proof (inv_unique _ Hi) as Hu.
  split; [apply moved; [done|..]|].
  - intros p h [[-> ->]|(_ & _ & Hh)]%Hl; by eexists.
  - intros p q h k Hp Hq E. apply Hl in Hp. apply Hl in Hq.
    destruct Hp as [[-> ->]|(Hp1 & Hp2 & Hp)], Hq as [[-> ->]|(Hq1 & Hq2 & Hq)]; [done|..].
    + by destruct (Hq2 (eq_sym (Hu _ _ _ _ Ef Hq E))).
    + by destruct (Hp2 (Hu _ _ _ _ Hp Ef E)).
    + by eapply Hu.
  - intros f' Hf'. exists f'. by rewrite lookup_insert_ne, lookup_delete_ne.
  - cbn. by rewrite lookup_insert_ne, lookup_delete_ne.
Qed.

(** ** The journal *)

Lemma check_records_in id records : forall last run, check_records id last records = Ok (Some run) -> last = Some run \/ run ∈ records.
Proof.
  induction records as [|next records IH]; intros last run; cbn [check_records]; [intros [= ->]; by left|].
  destruct (_ <>?s _); [done|]. intros Hc. right.
  assert (Hn : check_records id (Some next) records = Ok (Some run)).
  { destruct last as [previous|]; [destruct (validateRunAppend previous next)|destruct (validateInitialRun next)]; done. }
  destruct (IH _ _ Hn) as [[= ->]|?]; [by left|by right].
Qed.
Lemma Load_in (w : World) id run : Load json_len w id = Ok run -> exists records, cw_journal w !! id = Some records /\ run ∈ records.
Proof.
  unfold Load. destruct (valid_id id); [|done]. destruct (cw_journal w !! id) as [records|]; [|done]. cbn [negb].
  destruct (_ || _); [done|]. destruct (check_records id None records) as [[last|]|] eqn:E; [|done|done].
  destruct (ru_id last =?s ""); [done|]. intros [= ->]. exists records. split; [done|]. by destruct (check_records_in _ _ _ _ E).
Qed.
Lemma Load_good w id run : Inv w -> Load json_len w id = Ok run -> good w run.
Proof. intros Hi (records & Hid & Hin)%Load_in. by apply (inv_runs _ Hi id records). Qed.
Lemma journaled w id records : Inv w -> (forall run, run ∈ records -> good w run) ->
  sound w (set_journal w (<[id := records]> (cw_journal w))).
Proof using rel_refl.
  intros [Hs Hst Hu Hr] Hg. split_and!; [|by apply kept_same|by intros r []]. split; [done|done|done|]. cbn. intros i rs run Hi Hin.
  assert (Hgr : good w run) by (apply lookup_insert_Some in Hi as [[-> <-]|[_ Hi]]; [by apply Hg|by eapply Hr]).
  destruct Hgr. by split.
Qed.
Lemma json_good w run : good w run -> good w (json_run run).
Proof. intros Hg. by apply (good_same w run); [..|apply (good_phase _ _ Hg)|]. Qed.
Lemma Append_inv w run : Inv w -> good w run -> sound w (snd (Append json_len w run))
  /\ cw_files (snd (Append json_len w run)) = cw_files w /\ cw_clock (snd (Append json_len w run)) = cw_clock w.
Proof using rel_refl.
  intros Hi Hg. unfold Append. assert (Hsame : sound w w /\ cw_files w = cw_files w /\ cw_clock w = cw_clock w) by (split_and!; [by apply sound_refl|done|done]).
  destruct (valid_id _); [|done]. destruct (Load json_len w (ru_id run)) as [previous|] eqn:El; [|done]. cbn [negb].
  destruct (validateRunAppend previous run); [done|]. destruct (_ <? _); [done|]. cbn [snd].
  apply Load_in in El as (records & Hid & _). rewrite Hid. cbn [default].
  split_and!; [apply journaled; [done|]|done|done]. intros r Hr. apply elem_of_app in Hr as [Hr|Hr]; [|apply list_elem_of_singleton in Hr as ->].
  - by apply (inv_runs _ Hi _ _ _ Hid).
  - by apply json_good.
Qed.
Lemma Create_inv w run : Inv w -> good w run -> sound w (snd (Create json_len w run))
  /\ cw_files (snd (Create json_len w run)) = cw_files w /\ cw_clock (snd (Create json_len w run)) = cw_clock w.
Proof using rel_refl.
  intros Hi Hg. unfold Create. assert (Hsame : sound w w /\ cw_files w = cw_files w /\ cw_clock w = cw_clock w) by (split_and!; [by apply sound_refl|done|done]).
  destruct (valid_id _); [|done]. cbn [negb]. destruct (validateInitialRun run); [done|]. destruct (cw_journal w !! ru_id run); [done|].
  destruct (_ <? _); cbn [snd].
  - split_and!; [apply journaled; [done|by intros r ?%elem_of_nil]|done|done].
  - split_and!; [apply journaled; [done|intros r Hr; apply list_elem_of_singleton in Hr as ->; by apply json_good]|done|done].
Qed.

(** ** Programs *)

Definition safe {A} (p : storer (result A)) (Q : A -> World -> Prop) (w : World) : Prop :=
  secures run_op eq sound p (fun r w' => Inv w' /\ match r with Ok a => Q a w' | Err _ => True end) w.
Lemma safe_ok {A} (a : A) (Q : A -> World -> Prop) w : Inv w -> Q a w -> safe (Ret (Ok a)) Q w.
Proof. by intros ? ? w' <-. Qed.
Lemma safe_err {A} e (Q : A -> World -> Prop) w : Inv w -> safe (Ret (Err e)) Q w.
Proof. by intros ? w' <-. Qed.
Lemma safe_weaken {A} p (Q Q' : A -> World -> Prop) w : (forall a w', Inv w' -> Q a w' -> Q' a w') -> safe p Q w -> safe p Q' w.
Proof. intros HQ. apply secures_weaken. intros [a|e] w' [Hi Hq]; [split; by auto|by split]. Qed.
Lemma sound_bind {A B} p (k : A -> storer (result B)) Q w :
  safe p (fun a => safe (k a) Q) w -> safe (bind p (fun r => match r with Ok a => k a | Err e => Ret (Err e) end)) Q w.
Proof. intros Hp. apply secures_bind; [done|]. revert Hp. apply secures_weaken. intros [a|e] w' [Hi Hq]; [done|by apply safe_err]. Qed.
Lemma safe_read {A B} (op : StoreOp B) (k : result B -> storer (result A)) Q w :
  snd (run_op B op w) = w -> Inv w -> (forall r, (forall b, r = Ok b -> fst (run_op B op w) = Ok b) -> safe (k r) Q w) -> safe (Do op k) Q w.
Proof using rel_refl.
  intros E Hi Hk w0 r w' <- Ha. destruct Ha; rewrite ?E; (split; [by apply sound_refl|]); apply Hk; by intros b ?.
Qed.
Lemma sound_call {A B} (op : StoreOp B) failed (k : B -> storer (result A)) Q w :
  snd (run_op B op w) = w -> Inv w -> (forall e, is_ok (failed e) = false) ->
  (forall b, fst (run_op B op w) = Ok b -> safe (k b) Q w) -> safe (call op failed k) Q w.
Proof using rel_refl.
  intros E Hi Hf Hk. apply safe_read; [done|done|]. intros [b|e] Hr; [by apply Hk, Hr|]. specialize (Hf e). destruct (failed e); [done|by apply safe_err].
Qed.
(** A call that changes the world, and what holds whether or not it did. *)
Lemma sound_write {A B} (op : StoreOp B) (k : result B -> storer (result A)) (S : World -> Prop) Q w :
  Inv w -> S w -> sound w (snd (run_op B op w)) -> S (snd (run_op B op w)) ->
  (forall r w', sound w w' -> S w' -> (forall b, r = Ok b -> w' = snd (run_op B op w) /\ fst (run_op B op w) = Ok b) -> safe (k r) Q w') ->
  safe (Do op k) Q w.
Proof using rel_refl.
  intros Hi Hs Hs1 Hs' Hk w0 r w' <- Ha. destruct Ha.
  - split; [done|]. apply Hk; [done|done|]. by intros b ->.
  - split; [by apply sound_refl|]. apply Hk; [by apply sound_refl|done|done].
  - split; [done|]. by apply Hk.
Qed.
Lemma safe_call_write {A B} (op : StoreOp B) failed (k : B -> storer (result A)) (S : World -> Prop) Q w :
  Inv w -> S w -> sound w (snd (run_op B op w)) -> S (snd (run_op B op w)) -> (forall e, is_ok (failed e) = false) ->
  (forall b w', sound w w' -> S w' -> w' = snd (run_op B op w) -> fst (run_op B op w) = Ok b -> safe (k b) Q w') ->
  safe (call op failed k) Q w.
Proof using rel_refl.
  intros Hi Hs Hi' Hs' Hf Hk. apply (sound_write op _ S); [done..|]. intros [b|e] w' Hiw Hsw Hr.
  - destruct (Hr b eq_refl) as [-> ?]. by apply Hk.
  - specialize (Hf e). destruct (failed e); [done|apply safe_err; apply Hiw].
Qed.

Lemma interrupted_safe {A} (p : storer A) Q w w' :
  secures run_op eq sound p Q w -> Inv w -> interrupted p w w' -> sound w w'.
Proof using rel_refl rel_trans.
  intros Hs Hi Hp. induction Hp as [p w|B op k w r w1 w2 Ha _ IH]; [by apply sound_refl|].
  destruct (Hs w r w1 eq_refl Ha) as [Hg1 Hs1]. eapply sound_trans; [exact Hg1|]. apply (IH Hs1), Hg1.
Qed.

(** The store file is as it was, and nothing was lost of what the runs know. *)
Definition still (w w' : World) : Prop := cw_files w' !! P = cw_files w !! P.
Definition fenced (w : World) (run : CompactionRun) : Prop := exists f, cw_files w !! P = Some f /\ sf_id f = ru_source run.
Lemma fenced_still w w' run : still w w' -> fenced w run -> fenced w' run.
Proof. by intros Hs (f & Hf & E); exists f; rewrite Hs. Qed.

Tactic Notation "look" simple_intropattern(b) simple_intropattern(Hb) :=
  apply sound_call; [reflexivity|assumption|reflexivity|intros b Hb].

Lemma Recheck_safe w run : Inv w -> good w run -> safe (Recheck run) (fun _ w' => w' = w /\ fenced w run) w.
Proof using rel_refl.
  intros Hi Hg. unfold Recheck. look u _. destruct (LeaseCapability _); [|by apply safe_err]. cbn [negb]. look u' _. look current Hc.
  destruct (bool_decide (current = ru_source run)) eqn:E; [|by apply safe_err]. cbn [negb]. apply bool_decide_eq_true in E as ->. look sum _.
  destruct (_ <>?s _); [by apply safe_err|]. look available _. destruct (_ <? _); [by apply safe_err|]. destruct (negb (_ =? _)); [by apply safe_err|]. look v _.
  apply safe_ok; [done|]. split; [done|]. revert Hc. cbn. rewrite (good_source _ _ Hg). unfold inspectRegularFile.
  destruct (cw_files w !! P) as [f|] eqn:Ef; [|done]. destruct (sf_regular f); [|done]. intros [= E]. by exists f.
Qed.

Lemma path_ne s id : s <> "" -> P +:+ s +:+ id <> P.
Proof. intros Hs E. apply (f_equal slen) in E. rewrite !slen_app in E. pose proof (slen_nonneg id). assert (0 < slen s) by (destruct s; [done|unfold slen; cbn [String.length]; lia]). lia. Qed.
Lemma candidate_ne w run : good w run -> ru_candidate_path run <> P.
Proof. intros Hg. destruct (good_candidate _ _ Hg) as (s & id & Hs & ->). by apply path_ne. Qed.
Lemma rollback_ne w run : good w run -> ru_rollback_path run <> P.
Proof. intros Hg. destruct (good_rollback _ _ Hg) as [id ->]. by apply path_ne. Qed.
Lemma still_refl w : still w w.
Proof. done. Qed.

Lemma good_alike w w' run : cw_files w' = cw_files w -> cw_clock w' = cw_clock w -> good w run -> good w' run.
Proof. intros Ef Ec. apply good_evolves. split; [lia|]. rewrite Ef. intros p f Hf. left. by exists p. Qed.
Lemma good_set_phase w run phase t : (may_roll_back = false -> phase <> RollbackSwapIntent) -> good w run -> good w (set_phase run phase t).
Proof. intros Hp. by apply good_same. Qed.

Lemma advance_safe w run phase : Inv w -> good w run -> (may_roll_back = false -> phase <> RollbackSwapIntent) ->
  safe (advance run phase) (fun next w' => cw_files w' = cw_files w /\ good w' next /\ ru_source next = ru_source run /\ ru_candidate next = ru_candidate run
                                           /\ ru_phase next = phase /\ phase ∈ transitions (ru_phase run)) w.
Proof using rel_refl.
  intros Hi Hg Hp. unfold advance, with_now. apply safe_read; [done|done|]. intros r _. set (now := match r with Ok t => t | Err _ => time_zero end).
  destruct (Advance run phase now) as [next|e] eqn:Ea; [|by apply safe_err]. destruct (Advance_inv _ _ _ _ Ea) as (Hn & -> & _).
  destruct (Append_inv w (set_phase run phase (UTC now))) as (Hs & Ef & Ec); [done|by apply good_set_phase|].
  apply (safe_call_write _ _ _ (fun w' => cw_files w' = cw_files w /\ cw_clock w' = cw_clock w)); [done|done|done|done|done|].
  intros u w' (Hi' & _ & Hgw) [Ef' Ec'] _ _. apply safe_ok; [done|]. split_and!; try done. by apply Hgw, good_set_phase.
Qed.

Lemma PrepareCandidate_safe w run : Inv w -> good w run -> safe (PrepareCandidate run) (fun _ w' => still w w' /\ good w' run) w.
Proof using rel_refl rel_tabled.
  intros Hi Hg. unfold PrepareCandidate. look u _. destruct (_ || _); cbn [negb]; [|by apply safe_err]. destruct (_ <>?s _); [by apply safe_err|].
  destruct (create_inv w (ru_candidate_path run) Hi (candidate_ne _ _ Hg)) as [Hs Hst].
  apply (safe_call_write _ _ _ (still w)); [done|done|done|done|done|]. intros v w1 (Hi1 & _ & Hg1) Hst1 _ _. look v1 _. look identity _.
  destruct (_ || _); [by apply safe_err|]. look v2 _. apply safe_ok; [done|]. split; [done|by apply Hg1].
Qed.
Lemma vacuum_inv w path d : Inv w -> path <> P ->
  sound w (snd (vacuumInto file_size w path d)) /\ still w (snd (vacuumInto file_size w path d)).
Proof using rel_refl rel_trans rel_tabled.
  intros Hi Hn. unfold vacuumInto. cbn [snd]. set (d' := default d _).
  pose proof (rewrite_inv w path d' Hi) as Hs. pose proof (rewrite_elsewhere w path d' Hn) as He.
  split; [|done]. eapply sound_trans; [apply Hs; done|]. apply inv_alike; [|done|done|done]. by apply Hs.
Qed.
Lemma Build_safe w run : Inv w -> good w run ->
  secures run_op eq sound (Build (ru_source_path run) (ru_candidate_path run)) (fun _ w' => Inv w' /\ still w w' /\ good w' run) w.
Proof using rel_refl rel_trans rel_tabled.
  intros Hi Hg. assert (Hr : forall r : result unit, secures run_op eq sound (Ret r) (fun _ w' => Inv w' /\ still w w' /\ good w' run) w) by (by intros r w' <-).
  unfold Build. destruct (negb _); [apply Hr|]. apply secures_call. intros w0 r w1 <- Ha.
  assert (Hs1 : sound w w1 /\ w1 = w) by (by destruct Ha; cbn; (split; [apply sound_refl|])). destruct Hs1 as [Hs1 ->]. split; [done|].
  destruct r as [id|e]; [|by intros t <-]. destruct (negb _); [apply Hr|]. apply secures_call. intros w0 r w1 <- Ha1.
  assert (Hs2 : sound w w1 /\ w1 = w) by (by destruct Ha1; cbn; (split; [apply sound_refl|])). destruct Hs2 as [Hs2 ->]. split; [done|].
  destruct r as [v|e]; [|by intros t <-]. apply secures_call. intros w0 r w1 <- Ha2.
  assert (Hs3 : sound w w1 /\ still w w1).
  { assert (Hop : sound w (snd (run_op unit (OpVacuumInto (ru_source_path run) (ru_candidate_path run)) w))
      /\ still w (snd (run_op unit (OpVacuumInto (ru_source_path run) (ru_candidate_path run)) w))).
    { cbn. destruct (read w _ _); cbn [snd]; [apply vacuum_inv; [done|by eapply candidate_ne]|split; [by apply sound_refl|done]]. }
    destruct Ha2; [done|split; [by apply sound_refl|done]|done]. }
  destruct Hs3 as ((Hi1 & Hk1 & Hg1) & Hst1). split; [by split_and!|]. destruct r; [intros t <-; by split_and!; [..|apply Hg1]|intros t <-; by split_and!; [..|apply Hg1]].
Qed.
Lemma Sync_safe w path : Inv w -> safe (Sync path) (fun _ w' => w' = w) w.
Proof using rel_refl. intros Hi. unfold Sync. look u _. look v _. by apply safe_ok. Qed.
Lemma FenceCandidate_safe w run : Inv w -> good w run -> fenced w run ->
  (forall f c, cw_files w !! P = Some f -> cw_files w !! ru_candidate_path run = Some c -> rel (sf_data f) (sf_data c)) ->
  safe (FenceCandidate run) (fun next w' => w' = w /\ good w next) w.
Proof using rel_refl.
  intros Hi Hg (f & Hf & Ef) Hrel. unfold FenceCandidate. look u _. look v _. look v1 _. look v2 _. look identity Hid.
  destruct (negb _); [by apply safe_err|]. destruct (negb _); [by apply safe_err|]. apply safe_ok; [done|]. split; [done|].
  revert Hid. cbn. unfold inspectRegularFile. destruct (cw_files w !! ru_candidate_path run) as [c|] eqn:Ec; [|done].
  destruct (sf_regular c); [|done]. intros [= <-]. destruct Hg. split; [done|done|done|done|done| | |done|done].
  - by apply (inv_stamps _ Hi _ _ Ec).
  - intros p q f' g Hp Hq E1 E2. cbn in E1, E2. rewrite <-Ef in E1. pose proof (inv_unique _ Hi _ _ _ _ Hp Hf E1) as ->.
    pose proof (inv_unique _ Hi _ _ _ _ Hq Ec E2) as ->. assert (f' = f) as -> by congruence. assert (g = c) as -> by congruence. by apply Hrel.
Qed.
Lemma inspected (w : World) path i : inspectRegularFile w path = Ok i -> exists f, cw_files w !! path = Some f /\ sf_regular f = true /\ sf_id f = i.
Proof. unfold inspectRegularFile. destruct (cw_files w !! path) as [f|]; [|done]. destruct (sf_regular f) eqn:E; [|done]. intros [= <-]. by exists f. Qed.

(** The exchange, and what allows it: for a rollback the guard, otherwise what
    is known of the two recorded identities. *)
Lemma Exchange_safe w run : Inv w -> good w run ->
  (ru_phase run = RollbackSwapIntent -> forall f g, cw_files w !! P = Some f -> cw_files w !! ru_rollback_path run = Some g ->
     sf_id g = ru_source run -> rel (sf_data f) (sf_data g)) ->
  safe (Exchange run) (fun _ w' => good w' run) w.
Proof using rel_refl rel_tabled.
  intros Hi Hg Hroll. unfold Exchange. look u _. look v _. look v1 _. look current Hc. rewrite (good_source _ _ Hg) in *.
  apply inspected in Hc as (f & Hf & Hfr & Hfi).
  set (onto := if ru_phase run =?s RollbackSwapIntent then _ else _).
  destruct (_ && _) eqn:E1; [by apply safe_err|]. destruct (negb (ru_phase run =?s _) && _) eqn:E2; [by apply safe_err|].
  look other Ho. apply inspected in Ho as (g & Hgo & Hgr & Hgi).
  destruct (_ && negb (bool_decide (other = ru_source run))) eqn:E3; [by apply safe_err|].
  destruct (negb (ru_phase run =?s _) && negb (bool_decide (other = _))) eqn:E4; [by apply safe_err|]. look v2 _.
  assert (Hrel : rel (sf_data f) (sf_data g) /\ onto <> P).
  { subst onto. destruct (ru_phase run =?s RollbackSwapIntent) eqn:Ep; breflect.
    - split; [|by eapply rollback_ne]. destruct (bool_decide (other = ru_source run)) eqn:Eb; [|done]. apply bool_decide_eq_true in Eb. subst other. by apply Hroll.
    - split; [|by eapply candidate_ne]. destruct (bool_decide (current = ru_source run)) eqn:Eb; [|done]. apply bool_decide_eq_true in Eb.
      destruct (bool_decide (other = ru_candidate run)) eqn:Eb'; [|done]. apply bool_decide_eq_true in Eb'. apply (good_pair _ _ Hg P (ru_candidate_path run)); congruence. }
  destruct Hrel as [Hrel Hne]. pose proof (exchange_inv w onto f g Hi Hne Hf Hgo Hgr Hrel) as Hs.
  apply (safe_call_write _ _ _ (fun _ => True)); [done|done|done|done|done|]. intros x w1 (Hi1 & _ & Hg1) _ _ _.
  look y1 _. look y2 _. look y3 _. apply safe_ok; [done|by apply Hg1].
Qed.
Lemma PublishRollback_safe w run : Inv w -> good w run -> safe (PublishRollback run) (fun _ w' => (still w w' /\ good w' run) /\ cw_files w !! ru_rollback_path run = None) w.
Proof using rel_refl rel_tabled.
  intros Hi Hg. unfold PublishRollback. look u _. apply safe_read; [done|done|]. intros r _.
  destruct (match r with Ok _ => _ | Err e => _ end); [|by apply safe_err]. look v _. look v1 _.
  destruct (rename_inv w (ru_candidate_path run) (ru_rollback_path run) Hi (candidate_ne _ _ Hg) (rollback_ne _ _ Hg)) as [Hs Hst].
  apply (safe_call_write _ _ _ (still w)); [done|done|done|done|done|]. intros x w1 (Hi1 & _ & Hg1) Hst1 _ Hren.
  look y1 _. look y2 _. apply safe_ok; [done|]. split; [split; [done|by apply Hg1]|]. revert Hren. cbn. unfold renameNoReplace.
  destruct (cw_files w !! ru_candidate_path run); [|done]. by destruct (cw_files w !! ru_rollback_path run).
Qed.
Lemma RejectRetiredSearchIndex_safe w run : Inv w -> safe (RejectRetiredSearchIndex run) (fun _ w' => w' = w) w.
Proof using rel_refl.
  intros Hi. unfold RejectRetiredSearchIndex. destruct (offline run); [by apply safe_ok|]. apply safe_read; [done|done|]. intros r _. apply safe_read; [done|done|].
  intros [[]|e] _; [by apply safe_err|by apply safe_ok..].
Qed.
Lemma SyncRecovered_safe w run obs : Inv w -> safe (SyncRecoveredOrientation run obs) (fun _ w' => w' = w) w.
Proof using rel_refl.
  intros Hi. unfold SyncRecoveredOrientation. look u _. destruct (_ =?s _); [|destruct (_ || _); [|by apply safe_err]]; look v _; look v1 _; look v2 _; by apply safe_ok.
Qed.
(** A file that is removed and is not the store. *)
Lemma remove_rule {A} w path failed (k : unit -> storer (result A)) Q run : Inv w -> good w run -> path <> P -> (forall e, is_ok (failed e) = false) ->
  (forall u w', Inv w' -> still w w' -> good w' run -> safe (k u) Q w') -> safe (call (OpRemove path) failed k) Q w.
Proof using rel_refl rel_tabled.
  intros Hi Hg Hn Hf Hk. destruct (remove_inv w path Hi Hn) as [Hs Hst].
  apply (safe_call_write _ _ _ (still w)); [done|done|done|done|done|]. intros x w1 (Hi1 & _ & Hg1) Hst1 _ _. by apply Hk; [| |apply Hg1].
Qed.
Lemma RemoveOwned_safe w run obs : Inv w -> good w run -> safe (RemoveOwnedPartialCandidate run obs) (fun _ w' => still w w' /\ good w' run) w.
Proof using rel_refl rel_tabled.
  intros Hi Hg. unfold RemoveOwnedPartialCandidate. look u _. destruct (_ || _ && _); [by apply safe_err|]. destruct (_ <>?s _); [by apply safe_err|].
  destruct (ob_rollback_exists obs); [by apply safe_err|]. look source _. look candidate _. destruct (_ || _); [by apply safe_err|].
  apply (remove_rule _ _ _ _ _ run); [done|done|by eapply candidate_ne|done|]. intros v w1 Hi1 Hst Hg1. look v1 _. by apply safe_ok.
Qed.
Lemma removed_rule w path failed (k : storer (result unit)) Q run : Inv w -> good w run -> path <> P ->
  (forall w', Inv w' -> still w w' -> good w' run -> safe k Q w') -> safe (removed path failed k) Q w.
Proof using rel_refl rel_tabled.
  intros Hi Hg Hn Hk. unfold removed. destruct (remove_inv w path Hi Hn) as [Hs Hst].
  apply (sound_write _ _ (still w)); [done|done|done|done|]. intros r w1 (Hi1 & _ & Hg1) Hst1 _.
  destruct r as [v|e]; [by apply Hk; [| |apply Hg1]|]. destruct (os_IsNotExist e); [by apply Hk; [| |apply Hg1]|by apply safe_err].
Qed.
(** [inspectOptionalRegularFile]. *)
Lemma optional_rule {A} w path (k : StoreFileIdentity -> bool -> storer (result A)) Q : Inv w ->
  (forall id b, safe (k id b) Q w) -> safe (optional path k) Q w.
Proof using rel_refl.
  intros Hi Hk. apply safe_read; [done|done|]. intros [id|e] _; [apply Hk|]. destruct (os_IsNotExist e); [apply Hk|by apply safe_err].
Qed.
Lemma RemoveAbandoned_safe w run : Inv w -> good w run -> safe (RemoveAbandonedCandidate run) (fun _ w' => still w w' /\ good w' run) w.
Proof using rel_refl rel_tabled.
  intros Hi Hg. unfold RemoveAbandonedCandidate. look u _. destruct (negb _); [by apply safe_err|]. destruct (_ <>?s _); [by apply safe_err|].
  apply optional_rule; [done|]. intros id b. destruct b; [by apply safe_err|]. apply (removed_rule _ _ _ _ _ run); [done|done|by eapply candidate_ne|].
  intros w1 Hi1 Hst Hg1. destruct (offline run); [|by apply safe_ok]. apply (removed_rule _ _ _ _ _ run); [done|done| |].
  - destruct (good_candidate _ _ Hg) as (s & id' & Hs & ->). rewrite !str_app_assoc. by apply path_ne.
  - intros w2 Hi2 Hst2 Hg2. apply safe_ok; [done|]. split; [|done]. unfold still in *. congruence.
Qed.

(** ** The loop of actions *)

Definition early (p : string) : bool :=
  slices_contains [Planned; CopyIntent; CopyRetryIntent; CandidatePrepared; CopyComplete; CandidateSyncIntent; CandidateSynced; ScrubInProgress] p.
Lemma early_step p q : q ∈ transitions p -> early q = true -> early p = true.
Proof.
  intros Hq He. set (T := fun p q => negb (early q) || early p). assert (HT : T p q = true) by (apply transitions_check; [by vm_compute|done]).
  unfold T in HT. by rewrite He in HT.
Qed.
(** A run that the loop may take up. *)
Definition ready (w : World) (run : CompactionRun) : Prop :=
  good w run /\ (early (ru_phase run) = true -> fenced w run) /\ ru_phase run <> RollbackSwapIntent.

Lemma safe_then {A B} p (k : A -> storer (result B)) (Q1 : A -> World -> Prop) Q w :
  safe p Q1 w -> (forall a w', Inv w' -> Q1 a w' -> safe (k a) Q w') ->
  safe (bind p (fun r => match r with Ok a => k a | Err e => Ret (Err e) end)) Q w.
Proof. intros Hp Hk. apply sound_bind. revert Hp. by apply safe_weaken. Qed.
Lemma advance_ready w run phase : Inv w -> good w run -> (early (ru_phase run) = true -> fenced w run) -> phase <> RollbackSwapIntent ->
  safe (advance run phase) (fun next w' => ready w' next /\ ru_phase next = phase /\ still w w') w.
Proof using rel_refl.
  intros Hi Hg Hf Hp. eapply safe_weaken; [|by apply advance_safe; auto]. intros next w' _ (Hs & Hgn & E1 & _ & E3 & Ht). split_and!; [|done|unfold still; by rewrite Hs].
  split_and!; [done| |congruence]. intros He. rewrite E3 in He. unfold fenced. rewrite E1, Hs. by apply Hf, (early_step _ phase).
Qed.
(** [advance] after a step that left the store where it was. *)
Lemma then_advance {A} w run run' phase (p : storer (result A)) :
  Inv w -> ready w run -> phase <> RollbackSwapIntent -> ru_phase run' = ru_phase run -> ru_source run' = ru_source run ->
  safe p (fun _ w' => still w w' /\ good w' run') w ->
  safe (bind p (fun r => match r with Ok _ => advance run' phase | Err e => Ret (Err e) end)) (fun next w' => ready w' next) w.
Proof using rel_refl.
  intros Hi (Hg & Hf & Hr) Hp E1 E2 Hs. eapply safe_then; [exact Hs|]. intros a w' Hi' [Hst Hg']. eapply safe_weaken; [|apply advance_ready; [done|done| |done]].
  - by intros next w'' _ [? _].
  - rewrite E1. intros He. unfold fenced. rewrite E2, Hst. by apply Hf.
Qed.
Lemma abandon_safe w run : Inv w -> good w run -> safe (abandonPrePublication run) (fun _ _ => True) w.
Proof using rel_refl rel_tabled.
  intros Hi Hg. unfold abandonPrePublication. destruct (negb _); [by apply safe_err|]. eapply safe_then; [by apply RemoveAbandoned_safe|].
  intros u w' Hi' [_ Hg']. eapply safe_weaken; [|by apply advance_safe]. done.
Qed.

Lemma prepare_safe w run : Inv w -> ready w run ->
  safe (bind (PrepareCandidate run) (fun r => match r with Ok identity => advance (set_prepared run identity (u64 (ru_attempt run + 1))) CandidatePrepared
                                              | Err e => Ret (Err e) end)) (fun next w' => ready w' next) w.
Proof using rel_refl rel_tabled.
  intros Hi (Hg & Hf & Hp). eapply safe_then; [by apply PrepareCandidate_safe|]. intros identity w' Hi' [Hst Hg'].
  eapply safe_weaken; [|apply advance_ready; [done| | |done]]; [by intros next w'' _ [? _]|by apply (good_same _ run); [..|apply (good_phase _ _ Hg)|]|].
  intros He. by apply (fenced_still w w' run), Hf.
Qed.
Lemma build_safe w run : Inv w -> ready w run -> ru_phase run <> RollbackSwapIntent ->
  safe (bind (Build (ru_source_path run) (ru_candidate_path run)) (fun out =>
    match out with
    | Ok _ => advance run CopyComplete
    | Err e => Do OpContext (fun ctx =>
        if is_ok ctx then Ret (Err e)
        else bind (abandonPrePublication run) (fun out' =>
             match out' with Ok _ => Ret (Err e) | Err e' => Ret (Err (Wrap "%w (also failed to abandon: %v)" [error_text e'] e)) end))
    end)) (fun next w' => ready w' next) w.
Proof using rel_refl rel_trans rel_tabled.
  intros Hi (Hg & Hf & _) Hp. apply secures_bind; [done|]. eapply secures_weaken; [|by apply Build_safe]. intros r w' (Hi' & Hst & Hg'). destruct r as [u|e].
  - eapply safe_weaken; [|apply advance_ready; [done|done| |done]]; [by intros next w'' _ [? _]|]. intros He. by apply (fenced_still w w'), Hf.
  - apply safe_read; [done|done|]. intros r _. destruct (is_ok r); [by apply safe_err|]. apply secures_bind; [done|].
    eapply secures_weaken; [|apply (abandon_safe w' run); [done|done]]. intros [x|e'] w'' [Hi'' _]; by apply safe_err.
Qed.
Lemma verified_at (w : World) source candidate u f c : fst (run_op unit (OpVerifyPair source candidate) w) = Ok u ->
  cw_files w !! source = Some f -> cw_files w !! candidate = Some c -> VerifyPair (sf_data f) (sf_data c) = None.
Proof.
  intros Hv Hf Hc. assert (Hr : read2 w source candidate (fun s c => match VerifyPair s c with None => Ok tt | Some e => Err e end) = Ok u) by exact Hv.
  revert Hr. unfold read2, read. rewrite Hf, Hc. destruct (sf_regular f); [|done]. destruct (sf_regular c); [|done]. by destruct (VerifyPair (sf_data f) (sf_data c)).
Qed.
Lemma verify_safe w run : Inv w -> good w run -> fenced w run ->
  safe (call (OpVerifyPair (ru_source_path run) (ru_candidate_path run)) plain (fun _ =>
    bind (FenceCandidate run) (fun r => match r with Ok fenced => advance fenced CandidateVerified | Err e => Ret (Err e) end))) (fun next w' => ready w' next) w.
Proof using rel_refl rel_verified.
  intros Hi Hg Hfe. look u Hv. eapply safe_then; [apply FenceCandidate_safe; [done|done|done|]|].
  - intros f c Hff Hc. apply rel_verified. rewrite (good_source _ _ Hg) in Hv. by eapply verified_at.
  - intros next w' Hi' [-> Hgn]. eapply safe_weaken; [|apply advance_safe; [done|done|done]].
    intros next' w'' _ (Hs & Hgn' & E1 & _ & E3' & Ht). split_and!; [done|by rewrite E3'|by rewrite E3'].
Qed.
Lemma publish_safe w run : Inv w -> good w run -> ru_phase run = SwapIntent ->
  safe (bind (RejectRetiredSearchIndex run) (fun r => match r with Err e => Ret (Err e) | Ok _ =>
    bind (Exchange run) (fun r => match r with Ok _ => advance run Swapped | Err e => Ret (Err e) end) end)) (fun next w' => ready w' next) w.
Proof using rel_refl rel_tabled.
  intros Hi Hg E. eapply safe_then; [by apply RejectRetiredSearchIndex_safe|]. intros u w' Hi' ->.
  eapply safe_then; [apply Exchange_safe; [done|done|by rewrite E]|]. intros v w'' Hi'' Hg''.
  eapply safe_weaken; [|apply advance_ready; [done|done|by rewrite E|done]]. by intros next w3 _ [? _].
Qed.

Ltac at_action := cbv beta iota delta [apply_action String.eqb Ascii.eqb Bool.eqb].
Lemma apply_action_safe w run action : Inv w -> ready w run -> NextAction run = Ok action ->
  safe (apply_action error_text action run) (fun next w' => ready w' next) w.
Proof using rel_refl rel_trans rel_tabled rel_verified.
  intros Hi Hr Hn. pose proof Hr as (Hg & Hf & Hp).
  assert (Hplain : forall phase, phase <> RollbackSwapIntent -> safe (advance run phase) (fun next w' => ready w' next) w).
  { intros phase Hph. eapply safe_weaken; [|by apply advance_ready]. by intros next w' _ [? _]. }
  unfold NextAction in Hn.
  destruct (ru_phase run =?s Planned); [injection Hn as <-; at_action|].
  { apply (then_advance w run); try done. eapply safe_weaken; [|by apply Recheck_safe]. by intros u w' _ [-> _]. }
  destruct (_ || _); [injection Hn as <-; at_action|].
  { by apply prepare_safe. }
  destruct (ru_phase run =?s CandidatePrepared) eqn:E3; [injection Hn as <-; at_action|].
  { by apply build_safe. }
  destruct (ru_phase run =?s CopyComplete); [injection Hn as <-; at_action; by apply Hplain|].
  destruct (ru_phase run =?s CandidateSyncIntent); [injection Hn as <-; at_action|].
  { apply (then_advance w run); try done. eapply safe_weaken; [|by apply Sync_safe]. by intros u w' _ ->. }
  destruct (ru_phase run =?s CandidateSynced); [injection Hn as <-; at_action; by apply Hplain|].
  destruct (ru_phase run =?s ScrubInProgress) eqn:E7; [injection Hn as <-; at_action|].
  { apply String.eqb_eq in E7. apply verify_safe; [done|done|]. apply Hf. by rewrite E7. }
  destruct (ru_phase run =?s CandidateVerified); [injection Hn as <-; at_action; by apply Hplain|].
  destruct (ru_phase run =?s SwapIntent) eqn:E9; [injection Hn as <-; at_action|].
  { apply String.eqb_eq in E9. by apply publish_safe. }
  destruct (ru_phase run =?s Swapped); [injection Hn as <-; at_action; by apply Hplain|].
  destruct (ru_phase run =?s RollbackPublishIntent) eqn:E11; [injection Hn as <-; at_action|].
  { apply (then_advance w run); try done. eapply safe_weaken; [|by apply PublishRollback_safe]. by intros u w' _ [? _]. }
  destruct (ru_phase run =?s RollbackReady); [injection Hn as <-; at_action; by apply Hplain|].
  destruct (ru_phase run =?s Committed); [injection Hn as <-; at_action; by apply safe_err|done].
Qed.
Lemma apply_loop_safe fuel : forall w run, Inv w -> ready w run -> safe (apply_loop error_text fuel run) (fun next w' => ready w' next) w.
Proof using rel_refl rel_trans rel_tabled rel_verified.
  induction fuel as [|fuel IH]; intros w run Hi Hr; cbn [apply_loop]; destruct (ru_phase run =?s Committed); try (by apply safe_ok); [by apply safe_err|].
  destruct (NextAction run) as [action|e] eqn:En; [|by apply safe_err]. eapply safe_then; [by apply apply_action_safe|]. intros next w' Hi' Hr'. by apply IH.
Qed.

(** ** Resuming *)

Definition original (o : string) : bool := (o =?s OrientationSourceOriginal) || (o =?s OrientationCandidateReady).
Lemma orient_original run source candidate rollback ce re obs :
  orient run source candidate rollback ce re = Ok obs -> original (ob_orientation obs) = true -> source = ru_source run.
Proof.
  unfold orient. intros Ho Hr. destruct (bool_decide (source = ru_source run)) eqn:E; [by apply bool_decide_eq_true in E|]. exfalso.
  destruct (_ && negb _); [done|]. destruct (_ || _ || _); [done|]. cbn [andb] in Ho.
  destruct (_ && _ && _ && _ && _); [by injection Ho as <-|]. destruct (_ && _ && _ && _ && _); [by injection Ho as <-|done].
Qed.
Lemma Observe_safe w run : Inv w -> good w run ->
  safe (Observe run) (fun obs w' => w' = w /\ (original (ob_orientation obs) = true -> fenced w run)) w.
Proof using rel_refl.
  intros Hi Hg. unfold Observe. look source Hs. rewrite (good_source _ _ Hg) in Hs. apply inspected in Hs as (f & Hf & _ & Ef).
  apply optional_rule; [done|]. intros candidate ce. apply optional_rule; [done|]. intros rollback re.
  destruct (orient run source candidate rollback ce re) as [obs|e] eqn:Eo; [|by apply safe_err]. apply safe_ok; [done|]. split; [done|].
  intros Ho. exists f. split; [done|]. rewrite Ef. by apply (orient_original _ _ _ _ _ _ _ Eo).
Qed.

(** The recovery actions but for the two exchanges. *)
Definition mild (a : string) : bool := negb (slices_contains ["exchange"; "rollback_exchange"] a).
(** A decision on the phase that leaves only late ones. *)
Ltac late_phases Hr :=
  revert Hr; repeat (let E := fresh in destruct (ru_phase _ =?s _) eqn:E; [apply String.eqb_eq in E|clear E]); cbn [orb]; intros Hr;
  first [discriminate Hr | injection Hr as <-]; first [by match goal with E : ru_phase _ = _ |- _ => destruct (_ E) end
  | split; [intros He; match goal with E : ru_phase _ = _ |- _ => rewrite E in He; discriminate He end|by left]].
Lemma RecoveryActions_cases (run : CompactionRun) obs actions : RecoveryActions run obs = Ok actions -> ru_phase run <> RollbackSwapIntent ->
  (early (ru_phase run) = true -> original (ob_orientation obs) = true) /\
  (forallb mild actions = true \/ ru_phase run = SwapIntent /\ actions = ["exchange"; "record_swapped"]).
Proof.
  unfold RecoveryActions. intros Hr Hp. unfold original.
  destruct (ob_orientation obs =?s OrientationSwapped) eqn:O1; [by late_phases Hr|].
  destruct (ob_orientation obs =?s OrientationRollbackReady) eqn:O2; [by late_phases Hr|].
  destruct (ob_orientation obs =?s OrientationRolledBack) eqn:O3; [by late_phases Hr|].
  destruct (ob_orientation obs =?s OrientationSourceOriginal) eqn:O4; cbn [orb].
  { split; [done|left]. destruct (_ || _); [by injection Hr as <-|done]. }
  destruct (ob_orientation obs =?s OrientationCandidateReady) eqn:O5; [|done]. split; [done|].
  destruct (ru_phase run =?s CopyIntent); [done|]. destruct (ru_phase run =?s CopyRetryIntent).
  { destruct (negb _); [done|]. injection Hr as <-. by left. }
  destruct (ru_phase run =?s CandidatePrepared).
  { destruct (negb _); [done|]. destruct (ob_condition obs =?s ConditionComplete); [injection Hr as <-; by left|].
    destruct (ob_condition obs =?s ConditionOwnedIncomplete); [injection Hr as <-; by left|done]. }
  destruct (slices_contains _ _); [injection Hr as <-; by left|]. destruct (ru_phase run =?s SwapIntent) eqn:E; [|done].
  right. injection Hr as <-. by apply String.eqb_eq in E.
Qed.
Lemma recover_action_safe w run obs a : Inv w -> ready w run -> mild a = true -> safe (recover_action run obs a) (fun next w' => ready w' next) w.
Proof using rel_refl rel_tabled.
  intros Hi Hr Hm. pose proof Hr as (Hg & Hf & Hp).
  assert (Hplain : forall phase, phase <> RollbackSwapIntent -> safe (advance run phase) (fun next w' => ready w' next) w).
  { intros phase Hph. eapply safe_weaken; [|by apply advance_ready]. by intros next w' _ [? _]. }
  unfold mild in Hm. cbn [slices_contains existsb] in Hm. unfold recover_action.
  destruct (a =?s "sync_recovered_orientation").
  { eapply safe_then; [by apply SyncRecovered_safe|]. intros u w' Hi' ->. by apply safe_ok. }
  destruct (a =?s "remove_owned_partial_candidate").
  { eapply safe_then; [by apply Recheck_safe|]. intros u w' Hi' [-> _]. eapply safe_then; [by apply RemoveOwned_safe|]. intros v w' Hi'' [Hst Hg'].
    apply safe_ok; [done|]. split_and!; [done| |done]. intros He. by apply (fenced_still w w' run), Hf. }
  destruct (a =?s "record_copy_retry_intent"); [by apply Hplain|]. destruct (a =?s "record_copy_complete"); [by apply Hplain|].
  destruct (a =?s "exchange") eqn:E1; [breflect; by subst|]. destruct (a =?s "rollback_exchange") eqn:E2; [breflect; by subst|].
  unfold phaseForRecoveryAction. clear E1 E2. repeat destruct (a =?s _); by first [apply Hplain|apply safe_err].
Qed.
Lemma recover_actions_safe obs actions : forall w run, Inv w -> ready w run -> forallb mild actions = true ->
  safe (recover_actions run obs actions) (fun next w' => ready w' next) w.
Proof using rel_refl rel_tabled.
  induction actions as [|a actions IH]; intros w run Hi Hr Hm; cbn [recover_actions]; [by apply safe_ok|]. cbn [forallb] in Hm. apply andb_true_iff in Hm as [Ha Hm].
  eapply safe_then; [by apply recover_action_safe|]. intros next w' Hi' Hr'. by apply IH.
Qed.
Lemma recover_exchange_safe w run obs : Inv w -> good w run -> ru_phase run = SwapIntent ->
  safe (recover_actions run obs ["exchange"; "record_swapped"]) (fun next w' => ready w' next) w.
Proof using rel_refl rel_tabled.
  intros Hi Hg E. cbn [recover_actions]. eapply safe_then.
  - unfold recover_action. cbv beta iota delta [String.eqb Ascii.eqb Bool.eqb]. eapply safe_then; [by apply RejectRetiredSearchIndex_safe|]. intros u w' Hi' ->.
    eapply safe_then; [apply Exchange_safe; [done|done|by rewrite E]|]. intros v w'' Hi'' Hg''.
    apply (safe_ok _ (fun next w' => next = run /\ good w' run)); by auto.
  - intros next w' Hi' [-> Hg']. eapply safe_then; [apply recover_action_safe; [done| |done]|].
    + split_and!; [done|by rewrite E|by rewrite E].
    + intros next w'' Hi'' Hr''. by apply safe_ok.
Qed.
Lemma resumeLeased_safe w run : Inv w -> good w run -> ru_phase run <> RollbackSwapIntent -> safe (resumeLeased error_text run) (fun _ _ => True) w.
Proof using rel_refl rel_trans rel_tabled rel_verified.
  intros Hi Hg Hp. unfold resumeLeased. eapply safe_then; [by apply Observe_safe|]. intros seen w' Hi' [-> Ho].
  eapply (safe_then _ _ (fun obs w' => w' = w /\ (original (ob_orientation obs) = true -> fenced w run))).
  - destruct (_ && _); [|by apply safe_ok]. apply safe_read; [done|done|]. intros r _. by apply safe_ok.
  - intros obs w' _ [-> Ho']. destruct (RecoveryActions run obs) as [actions|e] eqn:Er; [|by apply safe_err].
    destruct (RecoveryActions_cases _ _ _ Er Hp) as [He Hc].
    eapply (safe_then _ _ (fun next w' => ready w' next)).
    + destruct Hc as [Hm|[Es ->]]; [|by apply recover_exchange_safe]. apply recover_actions_safe; [done| |done]. split_and!; [done|by auto|done].
    + intros next w'' Hi'' Hr. destruct (_ =?s RollbackSwapped).
      { eapply safe_weaken; [|apply advance_safe; [done|apply Hr|done]]. done. }
      destruct (_ =?s RolledBack); [by apply safe_ok|]. eapply safe_weaken; [|by apply apply_loop_safe]. done.
Qed.

(** ** Planning and finding *)

Lemma planned_sizes_rule w run n available (k : Z -> Z -> storer (result CompactionRun)) Q : Inv w ->
  (forall d t, safe (k d t) Q w) -> safe (planned_sizes run n available k) Q w.
Proof using rel_refl.
  intros Hi Hk. unfold planned_sizes. destruct (offline run).
  - destruct (n <? 0); [by apply safe_err|]. destruct (_ <? _); [by apply safe_err|]. apply safe_read; [done|done|]. intros r _.
    destruct (_ <? _); [by apply safe_err|apply Hk].
  - destruct (0 <? n); [|apply Hk]. apply safe_read; [done|done|]. intros r _. destruct (_ <=? _); apply Hk.
Qed.
Lemma Plan_files_safe w run : Inv w -> ru_source_path run = P ->
  safe (Plan_files CallerHoldsExclusiveLease run) (fun planned w' => w' = w /\ exists f sum resources,
    cw_files w !! P = Some f /\ planned = set_planned run (sf_id f) sum resources) w.
Proof using rel_refl.
  intros Hi Es. unfold Plan_files. rewrite Es. look u _. destruct (_ || _); [by apply safe_err|].
  assert (Habs : forall A path e e' (k : storer (result A)) Q, safe k Q w ->
    safe (Do (OpLstat path) (fun out => match out with Err x => if os_IsNotExist x then k else Ret (Err e) | Ok _ => Ret (Err e') end)) Q w).
  { intros A path e e' k Q Hk. apply safe_read; [done|done|]. intros [v|x] _; [by apply safe_err|]. destruct (os_IsNotExist x); [done|by apply safe_err]. }
  apply Habs, Habs. look v _. look v1 _. look i Hid. apply inspected in Hid as (f & Hf & _ & <-). look available _.
  apply planned_sizes_rule; [done|]. intros d t. destruct (compactionRequiredBytes d t) as [[required margin]|e]; [|by apply safe_err].
  destruct (_ <? _); [by apply safe_err|]. look sum _. apply safe_read; [done|done|]. intros r _.
  assert (Hfin : forall lease x y resources, safe (Ret (if negb (is_ok r) then Err x else if negb lease then Err y else Ok (set_planned run (sf_id f) sum resources)))
    (fun planned w' => w' = w /\ exists f sum resources, cw_files w !! P = Some f /\ planned = set_planned run (sf_id f) sum resources) w).
  { intros lease x y resources. destruct (is_ok r); [|by apply safe_err]. destruct lease; [|by apply safe_err]. apply safe_ok; [done|]. split; [done|]. by eexists _, _, _. }
  destruct CallerHoldsExclusiveLease; [apply Hfin|]. apply safe_read; [done|done|]. intros r' _. apply Hfin.
Qed.
Lemma hex_graphic l : forallb graphic (hex_encode_bytes l) = true.
Proof.
  induction l as [|c l IH]; [done|]. cbn [hex_encode_bytes flat_map]. rewrite forallb_app. apply andb_true_iff. split; [|exact IH].
  clear. destruct c as [[] [] [] [] [] [] [] []]; reflexivity.
Qed.
Lemma rollback_trimmed r : HasPrefix P "/" = true -> TrimSpace (P +:+ ".rollback-" +:+ EncodeToString r) = P +:+ ".rollback-" +:+ EncodeToString r.
Proof.
  intros [p ->]%HasPrefix_spec.
  assert (Hl : exists l d, explode ".rollback-" ++ hex_encode_bytes r = l ++ [d] /\ graphic d = true).
  { assert (Hg : forallb graphic (explode ".rollback-" ++ hex_encode_bytes r) = true) by (by rewrite forallb_app, hex_graphic).
    destruct (explode ".rollback-" ++ hex_encode_bytes r) as [|d l _] eqn:E using rev_ind; [done|]. exists l, d. split; [done|].
    rewrite forallb_app in Hg. apply andb_true_iff in Hg as [_ Hg]. cbn in Hg. by apply andb_true_iff in Hg as [? _]. }
  destruct Hl as (l & d & El & Hd). apply (TrimSpace_ends _ "/"%char (explode p ++ l) d); [|done|done].
  unfold EncodeToString. rewrite !explode_app, explode_implode, El, <-!app_assoc. done.
Qed.
Lemma planLeased_safe w : Inv w -> HasPrefix P "/" = true -> safe (planLeased CallerHoldsExclusiveLease P) (fun run w' => ready w' run) w.
Proof using rel_refl rel_tabled.
  intros Hi Hp. unfold planLeased.
  assert (Hd : sound w (snd (run_op string OpRandom w)) /\ (forall id, fst (run_op string OpRandom w) = Ok id -> exists r, id = EncodeToString r)).
  { cbn. destruct (cw_draws w) as [|r draws]; cbn [fst snd]; (split; [by apply inv_alike|]); [done|]. intros id [= <-]. by exists r. }
  destruct Hd as [Hs Hr]. apply (safe_call_write _ _ _ (fun _ => True)); [done|done|done|done|done|].
  intros id w1 (Hi1 & _ & _) _ _ Hid. apply Hr in Hid as [r ->]. apply safe_read; [done|done|]. intros t _.
  eapply safe_then; [by apply Plan_files_safe|]. intros planned w2 Hi2 (-> & f & sum & resources & Hf & ->).
  set (run := set_planned _ _ _ _).
  assert (Hg : good w1 run).
  { split; [done|by exists ".compact-", (EncodeToString r)|by eexists|intros _; by apply rollback_trimmed|by apply (inv_stamps _ Hi1 _ _ Hf)| | | |done].
    - pose proof (inv_stamps _ Hi1 _ _ Hf). unfold old. cbn. lia.
    - intros p q f' g _ Hq _ E. pose proof (inv_stamps _ Hi1 _ _ Hq) as Hst. rewrite E in Hst. cbn in Hst. lia.
    - intros p f' Hf' E. pose proof (inv_unique _ Hi1 _ _ _ _ Hf' Hf E) as ->. destruct (inv_store _ Hi1) as (f0 & Hf0 & _ & Ht). congruence. }
  destruct (Create_inv w1 run Hi1 Hg) as (Hsc & Ef & Ec).
  apply (safe_call_write _ _ _ (fun w' => cw_files w' = cw_files w1)); [done|done|done|done|done|].
  intros u w2 (Hi2' & _ & Hg2) Ef2 _ _. apply safe_ok; [done|]. split_and!; [by apply Hg2| |done]. intros _. exists f. by rewrite Ef2.
Qed.

(** The runs of the journal that the commands may take up. *)
Definition calm (w : World) : Prop := forall id run, Load json_len w id = Ok run -> ru_phase run <> RollbackSwapIntent.
Lemma find_in_flight_safe w source ids : forall found, Inv w ->
  (forall run, found = Some run -> exists id, Load json_len w id = Ok run) ->
  safe (find_in_flight source found ids) (fun run w' => w' = w /\ exists id, Load json_len w id = Ok run) w.
Proof using rel_refl.
  induction ids as [|id ids IH]; intros found Hi Hf; cbn [find_in_flight].
  - destruct found as [run|]; [apply safe_ok; [done|split; [done|by apply Hf]]|by apply safe_err].
  - look run Hr. destruct (_ || _ || _); [by apply IH|]. destruct found; [by apply safe_err|]. apply IH; [done|]. intros run' [= <-]. by exists id.
Qed.
Lemma FindInFlight_safe w source : Inv w ->
  safe (FindInFlight source) (fun run w' => w' = w /\ exists id, Load json_len w id = Ok run) w.
Proof using rel_refl.
  intros Hi. unfold FindInFlight. destruct (source =?s ""); [by apply safe_err|]. look ids _. by apply find_in_flight_safe.
Qed.
Lemma abandonIfStale_safe w run : Inv w -> good w run -> safe (abandonIfStalePrePublication run) (fun b w' => b = false -> w' = w) w.
Proof using rel_refl rel_tabled.
  intros Hi Hg. unfold abandonIfStalePrePublication. destruct (negb _); [by apply safe_ok|]. look u _. look current _.
  destruct (negb _); [by apply safe_ok|]. eapply safe_then; [by apply abandon_safe|]. intros x w' Hi' _. by apply safe_ok.
Qed.

(** ** The commands *)

Lemma compactLeased_safe w : Inv w -> HasPrefix P "/" = true -> calm w ->
  safe (compactLeased CallerHoldsExclusiveLease error_text P P) (fun _ _ => True) w.
Proof using rel_refl rel_trans rel_tabled rel_verified.
  intros Hi Hp Hc. unfold compactLeased.
  assert (Hfresh : forall w, Inv w -> safe (bind (planLeased CallerHoldsExclusiveLease P) (fun r => match r with
    | Ok planned => applyLeased error_text planned | Err e => Ret (Err e) end)) (fun _ _ => True) w).
  { intros w1 Hi1. eapply safe_then; [by apply planLeased_safe|]. intros run w2 Hi2 Hr. eapply safe_weaken; [|by apply apply_loop_safe]. done. }
  apply secures_bind; [done|]. eapply secures_weaken; [|by apply FindInFlight_safe]. intros [run|e] w' [Hi' Hq].
  - destruct Hq as (-> & id & Hl). pose proof (Load_good _ _ _ Hi Hl) as Hg. eapply safe_then; [by apply abandonIfStale_safe|].
    intros b w1 Hi1 Hb. destruct b; [by apply Hfresh|]. rewrite Hb by done. unfold validateBinding. destruct (_ <>?s _); [by apply safe_err|].
    apply resumeLeased_safe; [done|done|by apply (Hc id)].
  - destruct (is_not_exist e); [by apply Hfresh|by apply safe_err].
Qed.
Lemma Compact_safe w source workDir : Inv w -> HasPrefix P "/" = true -> calm w -> source = "" \/ source = P ->
  safe (Compact CallerHoldsExclusiveLease error_text P source workDir) (fun _ _ => True) w.
Proof using rel_refl rel_trans rel_tabled rel_verified rel_in_place.
  intros Hi Hp Hc Hsrc. unfold Compact. replace (if source =?s "" then P else source) with P
    by (destruct (source =?s "") eqn:E; [done|destruct Hsrc as [->| ->]; done]).
  unfold bound. destruct (_ <>?s _); [by apply safe_err|]. look before _. unfold leased. look u _. look reclaim _. look estimated _.
  apply secures_bind; [done|]. eapply secures_weaken; [|by apply compactLeased_safe]. intros [run|e] w' [Hi' _].
  - look after _. by apply safe_ok.
  - destruct (_ && _); [|by apply safe_err]. apply (safe_call_write _ _ _ (fun _ => True)); [done|done| |done|done|].
    + cbn. destruct (cw_files w' !! P) as [f|] eqn:Ef; cbn [snd]; [|by apply sound_refl]. apply rewrite_inv; [done|]. intros _ f' Hf'.
      assert (f' = f) as -> by congruence. apply rel_in_place.
    + intros v w1 (Hi1 & _ & _) _ _ _. look after _. by apply safe_ok.
Qed.
Lemma Resume_safe w id : Inv w -> calm w -> safe (Resume error_text P id) (fun _ _ => True) w.
Proof using rel_refl rel_trans rel_tabled rel_verified.
  intros Hi Hc. unfold Resume, leased, loaded, validateBinding. look u _. look run Hl. destruct (_ <>?s _); [by apply safe_err|].
  apply resumeLeased_safe; [done|exact (Load_good w id run Hi Hl)|exact (Hc id run Hl)].
Qed.
Lemma Abandon_safe w source : Inv w -> safe (AbandonStalePrePublication P source) (fun _ _ => True) w.
Proof using rel_refl rel_tabled.
  intros Hi. unfold AbandonStalePrePublication, bound, leased. destruct (_ <>?s _); [by apply safe_err|]. look u _.
  apply secures_bind; [done|]. eapply secures_weaken; [|by apply FindInFlight_safe]. intros [run|e] w' [Hi' Hq].
  - destruct Hq as (-> & id & Hl). unfold validateBinding. destruct (_ <>?s _); [by apply safe_err|].
    eapply safe_then; [apply abandonIfStale_safe; [done|exact (Load_good w id run Hi Hl)]|]. intros b w1 Hi1 _. destruct b; [|by apply safe_ok]. cbn [negb]. look run' _. by apply safe_ok.
  - destruct (is_not_exist e); [by apply safe_ok|by apply safe_err].
Qed.

(** What the guard found: the rollback copy has all that is published. *)
Definition guarded (w : World) (run : CompactionRun) : Prop :=
  is_Some (cw_files w !! ru_rollback_path run) /\
  forall f g, cw_files w !! P = Some f -> cw_files w !! ru_rollback_path run = Some g -> sf_id g = ru_source run -> rel (sf_data f) (sf_data g).
Lemma advance_guarded w run phase : Inv w -> good w run -> guarded w run -> may_roll_back = true ->
  safe (advance run phase) (fun next w' => good w' next /\ guarded w' next) w.
Proof using rel_refl.
  intros Hi Hg Hgd Hm. unfold advance, with_now. apply safe_read; [done|done|]. intros r _. set (now := match r with Ok t => t | Err _ => time_zero end).
  destruct (Advance run phase now) as [next|e] eqn:Ea; [|by apply safe_err]. destruct (Advance_inv _ _ _ _ Ea) as (_ & -> & _).
  assert (Hn : good w (set_phase run phase (UTC now))) by (apply good_set_phase; [by rewrite Hm|done]).
  destruct (Append_inv w (set_phase run phase (UTC now))) as (Hs & Ef & _); [done|done|].
  apply (safe_call_write _ _ _ (fun w' => cw_files w' = cw_files w)); [done|done|done|done|done|].
  intros u w' (Hi' & _ & Hgw) Ef' _ _. apply safe_ok; [done|]. split; [by apply Hgw|]. unfold guarded. by rewrite Ef'.
Qed.
Lemma roll_back_safe w run : Inv w -> good w run -> guarded w run -> may_roll_back = true -> safe (roll_back run) (fun _ _ => True) w.
Proof using rel_refl rel_tabled.
  intros Hi Hg Hgd Hm. assert (Hadv : forall w run phase, Inv w -> good w run -> safe (advance run phase) (fun _ _ => True) w).
  { intros w1 run1 phase Hi1 Hg1. eapply safe_weaken; [|apply advance_safe; [done|done|by rewrite Hm]]. done. }
  assert (Hadv' : forall w run phase, Inv w -> good w run -> safe (advance run phase) (fun next w' => good w' next) w).
  { intros w1 run1 phase Hi1 Hg1. eapply safe_weaken; [|apply advance_safe; [done|done|by rewrite Hm]]. by intros next w' _ (_ & ? & _). }
  assert (Hfin : forall obs, safe (if ob_orientation obs <>?s OrientationRollbackReady
      then Ret (Err (Errorf "rollback requires rollback-ready orientation, got %q" [ob_orientation obs]))
      else bind (if ru_phase run <>?s RollbackSwapIntent then advance run RollbackSwapIntent else Ret (Ok run)) (fun r => match r with Err e => Ret (Err e) | Ok intent =>
           bind (Exchange intent) (fun r => match r with Err e => Ret (Err e) | Ok _ =>
           bind (advance intent RollbackSwapped) (fun r => match r with Err e => Ret (Err e) | Ok swapped => advance swapped RolledBack end) end) end))
      (fun _ _ => True) w).
  { intros obs. destruct (_ <>?s _); [by apply safe_err|]. eapply (safe_then _ _ (fun next w' => good w' next /\ guarded w' next)).
    - destruct (_ <>?s _); [by apply advance_guarded|]. by apply safe_ok.
    - intros intent w1 Hi1 [Hg1 [_ Hgd1]]. eapply safe_then; [apply Exchange_safe; [done|done|by intros _]|]. intros u w2 Hi2 Hg2.
      eapply safe_then; [by apply Hadv'|]. intros swapped w3 Hi3 Hg3. by apply Hadv. }
  unfold roll_back. eapply safe_then; [by apply Observe_safe|]. intros obs w' _ [-> _]. destruct (ob_orientation obs =?s OrientationRolledBack).
  { clear Hfin. eapply (safe_then _ _ (fun next w' => good w' next)); [destruct (ru_phase run =?s _); [by apply Hadv'|by apply safe_ok]|].
    intros next w1 Hi1 Hg1. destruct (ru_phase next =?s _); [by apply Hadv|by apply safe_err]. }
  destruct (ob_orientation obs =?s OrientationSwapped); [|apply Hfin].
  eapply (safe_then _ _ (fun next w' => good w' next /\ guarded w' next)); [destruct (ru_phase run =?s Swapped); [by apply advance_guarded|by apply safe_ok]|].
  intros next w1 Hi1 [Hg1 [[g Hgg] _]]. destruct (ru_phase next <>?s _); [by apply safe_err|]. eapply safe_then; [by apply PublishRollback_safe|].
  intros u w2 _ [_ Hnone]. congruence.
Qed.
Lemma Rollback_safe w id : Inv w -> may_roll_back = true -> safe (Rollback P id) (fun _ _ => True) w.
Proof using rel_refl rel_tabled rel_guard.
  intros Hi Hm. unfold Rollback, leased, loaded, validateBinding. look u _. look run Hl. destruct (Clean _ <>?s P); [by apply safe_err|].
  destruct (negb _); [by apply safe_err|]. pose proof (Load_good w id run Hi Hl) as Hg. rewrite (good_trimmed _ _ Hg Hm).
  assert (Hne : (ru_rollback_path run <>?s "") = true).
  { destruct (good_rollback _ _ Hg) as [i ->]. apply negb_true_iff, String.eqb_neq. intros E. apply (f_equal slen) in E. rewrite !slen_app in E.
    pose proof (slen_nonneg P). pose proof (slen_nonneg i). change (slen ".rollback-") with 10 in E. change (slen "") with 0 in E. lia. }
  rewrite Hne. look atRisk Hr. destruct (0 <? atRisk) eqn:Ez; [by apply safe_err|]. apply roll_back_safe; [done|done| |done].
  revert Hr. cbn [store_run fst]. unfold read2, read. destruct (inv_store _ Hi) as (f & Hf & Hfr & Ht). rewrite Hf, Hfr.
  destruct (cw_files w !! ru_rollback_path run) as [g|] eqn:Eg; [|done]. destruct (sf_regular g); [|done]. intros [= <-].
  split; [by eexists|]. intros f' g' Hf' Hg' Eid. assert (f' = f) as -> by congruence. assert (g' = g) as -> by congruence.
  apply rel_guard; [done|done|by apply (good_tabled _ _ Hg _ _ Eg)|]. pose proof (CountRecordsAtRisk_nonneg (sf_data f) (sf_data g)). breflect. lia.
Qed.

(** ** Every history *)

Lemma life_sound w w' : HasPrefix P "/" = true -> Inv w -> life w w' -> Inv w' /\ kept w w'.
Proof using rel_refl rel_trans rel_tabled rel_verified rel_in_place rel_guard.
  intros Hp Hi Hl. assert (Hs : sound w w'); [|by destruct Hs as (? & ? & _)]. destruct Hl as [w q w' Hq Hc Hint|w f d Hf Hrel|w w' Ef Ej Ec].
  - assert (Hcalm : (forall id, q <> ReqRollback id) -> calm w).
    { intros Hn. destruct may_roll_back eqn:Em; [by destruct (Hc eq_refl) as [[id ?]|?]; [destruct (Hn id)|]|].
      intros id run Hl. apply (good_phase _ _ (Load_good _ _ _ Hi Hl)). done. }
    assert (Hout : forall A (p : storer (result A)), safe p (fun _ _ => True) w -> secures run_op eq sound (outcome p) (fun _ _ => True) w).
    { intros A p Hsafe. apply secures_bind; [done|]. eapply secures_weaken; [|exact Hsafe]. intros r t _. destruct r; by intros ? <-. }
    eapply interrupted_safe; [|exact Hi|exact Hint]. destruct q as [source workDir|id|source|id]; cbn [serve]; apply Hout.
    + apply Compact_safe; [done|done|by apply Hcalm|done].
    + apply Resume_safe; [done|by apply Hcalm].
    + by apply Abandon_safe.
    + by apply Rollback_safe.
  - apply rewrite_inv; [done|]. intros _ f' Hf'. by assert (f' = f) as -> by congruence.
  - by apply inv_alike.
Qed.
Lemma history_sound w w' : HasPrefix P "/" = true -> Inv w -> star life w w' -> Inv w' /\ kept w w'.
Proof using rel_refl rel_trans rel_tabled rel_verified rel_in_place rel_guard.
  intros Hp Hi Hs. induction Hs as [w|w w1 w2 Hl _ IH]; [split; [done|apply kept_refl]|]. destruct (life_sound _ _ Hp Hi Hl) as [Hi1 Hk1].
  destruct (IH Hi1) as [Hi2 Hk2]. split; [done|by eapply kept_trans].
Qed.
End Kept.
End Safe.
