(* ===== verification/CompactionKept.v ===== *)
(** * What the compaction commands guarantee, and where they stop

    The theorems of [CompactionSafe] for the events of a store, the loop of
    actions always ends, and histories on which the commands do not do what
    they are for. *)

From S2P Require Import Prelude GoStrings GoOs GoTime Upgrade Interleaving StoreContent StoreFiles Compaction StoreCopy StoreCompaction CompactionSafe.

(** ** The loop of actions *)

(** Programs that make the same calls and answer the same. *)
Inductive same_prog {A} : storer A -> storer A -> Prop :=
| same_ret a : same_prog (Ret a) (Ret a)
| same_do B (op : StoreOp B) k k' : (forall r, same_prog (k r) (k' r)) -> same_prog (Do op k) (Do op k').
Fixpoint may_return {A} (p : storer A) (a : A) : Prop :=
  match p with Ret b => b = a | Do op k => exists r, may_return (k r) a end.
Lemma same_prog_refl {A} (p : storer A) : same_prog p p.
Proof. induction p; constructor; auto. Qed.
Lemma same_prog_bind {A B} (p : storer A) (f g : A -> storer B) :
  (forall a, may_return p a -> same_prog (f a) (g a)) -> same_prog (bind p f) (bind p g).
Proof.
  induction p as [a|C op k IH]; cbn; intros Hfg; [by apply Hfg|]. constructor. intros r. apply IH. intros a Ha. apply Hfg. by exists r.
Qed.
Lemma may_return_bind {A B} (p : storer A) (f : A -> storer B) b : may_return (bind p f) b -> exists a, may_return p a /\ may_return (f a) b.
Proof.
  induction p as [a|C op k IH]; cbn; [by intros Hb; exists a|]. intros [r Hr]. destruct (IH r Hr) as (a & Ha & Hb). exists a. split; [by exists r|done].
Qed.
Lemma may_return_then {A B} (p : storer (result A)) (f : A -> storer (result B)) b :
  may_return (bind p (fun r => match r with Ok a => f a | Err e => Ret (Err e) end)) (Ok b) -> exists a, may_return (f a) (Ok b).
Proof. intros ([a|e] & _ & Hb)%may_return_bind; [by exists a|done]. Qed.
Lemma advance_returns run phase next : may_return (advance run phase) (Ok next) -> ru_phase next = phase.
Proof.
  unfold advance, with_now. cbn. intros [r Hr]. destruct (Advance run phase _) as [n|e] eqn:E; [|done].
  destruct (Advance_inv _ _ _ _ E) as (_ & -> & _). cbn in Hr. destruct Hr as [[u|e] Hr]; [|done]. by injection Hr as <-.
Qed.

(** How many actions are left before the commit, at most. *)
Definition actions_left (p : string) : nat :=
  match list_find (fun x => x = p) [Committed; RollbackReady; RollbackPublishIntent; Swapped; SwapIntent; CandidateVerified; ScrubInProgress;
    CandidateSynced; CandidateSyncIntent; CopyComplete; CandidatePrepared; CopyIntent; Planned] with
  | Some (i, _) => i
  | None => 11
  end.
Lemma may_return_call {A B} (op : StoreOp B) (k : B -> storer (result A)) a : may_return (call op plain k) (Ok a) -> exists b, may_return (k b) (Ok a).
Proof. intros [[b|e] Hr]; [by exists b|done]. Qed.
Lemma build_returns error_text run next : may_return (bind (Build (ru_source_path run) (ru_candidate_path run)) (fun out =>
    match out with
    | Ok _ => advance run CopyComplete
    | Err e => Do OpContext (fun ctx =>
        if is_ok ctx then Ret (Err e)
        else bind (abandonPrePublication run) (fun out' =>
             match out' with Ok _ => Ret (Err e) | Err e' => Ret (Err (Wrap "%w (also failed to abandon: %v)" [error_text e'] e)) end))
    end)) (Ok next) -> ru_phase next = CopyComplete.
Proof.
  intros ([u|e] & _ & Hr)%may_return_bind; [by apply advance_returns in Hr|]. destruct Hr as [ctx Hr]. destruct (is_ok ctx); [done|].
  by apply may_return_bind in Hr as ([x|e'] & _ & Hr).
Qed.
(** From a phase by an action to the next one. *)
Ltac leads E Hr :=
  apply String.eqb_eq in E; rewrite E; cbv beta iota delta [apply_action String.eqb Ascii.eqb Bool.eqb] in Hr;
  first [apply build_returns in Hr | repeat first [apply may_return_then in Hr as [? Hr] | apply may_return_call in Hr as [? Hr]]; apply advance_returns in Hr];
  rewrite Hr; vm_compute; lia.
(** The phase an action leads to. *)
Lemma action_phase error_text action run next : may_return (apply_action error_text action run) (Ok next) ->
  NextAction run = Ok action -> (actions_left (ru_phase next) < actions_left (ru_phase run))%nat.
Proof.
  intros Hr Hn. unfold NextAction in Hn.
  destruct (ru_phase run =?s Planned) eqn:E1; [injection Hn as <-; by leads E1 Hr|].
  destruct ((ru_phase run =?s CopyIntent) || _) eqn:E2; [injection Hn as <-; apply orb_true_iff in E2 as [E2|E2]; by leads E2 Hr|].
  destruct (ru_phase run =?s CandidatePrepared) eqn:E3; [injection Hn as <-; by leads E3 Hr|].
  destruct (ru_phase run =?s CopyComplete) eqn:E4; [injection Hn as <-; by leads E4 Hr|].
  destruct (ru_phase run =?s CandidateSyncIntent) eqn:E5; [injection Hn as <-; by leads E5 Hr|].
  destruct (ru_phase run =?s CandidateSynced) eqn:E6; [injection Hn as <-; by leads E6 Hr|].
  destruct (ru_phase run =?s ScrubInProgress) eqn:E7; [injection Hn as <-; by leads E7 Hr|].
  destruct (ru_phase run =?s CandidateVerified) eqn:E8; [injection Hn as <-; by leads E8 Hr|].
  destruct (ru_phase run =?s SwapIntent) eqn:E9; [injection Hn as <-; by leads E9 Hr|].
  destruct (ru_phase run =?s Swapped) eqn:E10; [injection Hn as <-; by leads E10 Hr|].
  destruct (ru_phase run =?s RollbackPublishIntent) eqn:E11; [injection Hn as <-; by leads E11 Hr|].
  destruct (ru_phase run =?s RollbackReady) eqn:E12; [injection Hn as <-; by leads E12 Hr|].
  destruct (ru_phase run =?s Committed) eqn:E13; [injection Hn as <-; done|done].
Qed.
Section Loops.
(** A loop of actions, as those of the use case. *)
Context (final : string) (act : CompactionRun -> storer (result CompactionRun)) (loop : nat -> CompactionRun -> storer (result CompactionRun))
  (left_of : string -> nat)
  (loop_S : forall n run, loop (S n) run = if ru_phase run =?s final then Ret (Ok run)
     else bind (act run) (fun r => match r with Ok next => loop n next | Err e => Ret (Err e) end))
  (progress : forall run next, ru_phase run <> final -> may_return (act run) (Ok next) -> (left_of (ru_phase next) < left_of (ru_phase run))%nat).
Lemma loop_enough n : forall m run, (left_of (ru_phase run) < n)%nat -> (n <= m)%nat -> same_prog (loop m run) (loop n run).
Proof using loop_S progress.
  induction n as [|n IH]; intros m run Hl Hm; [lia|]. destruct m as [|m]; [lia|]. rewrite !loop_S.
  destruct (ru_phase run =?s final) eqn:E; [apply same_prog_refl|]. apply String.eqb_neq in E. apply same_prog_bind. intros [next|e] Hr; [|constructor].
  pose proof (progress _ _ E Hr). apply IH; lia.
Qed.
End Loops.

Definition decided (act : string -> CompactionRun -> storer (result CompactionRun)) (run : CompactionRun) : storer (result CompactionRun) :=
  match NextAction run with Err e => Ret (Err e) | Ok action => act action run end.
Lemma decided_progress act : (forall action run next, may_return (act action run) (Ok next) -> NextAction run = Ok action -> (actions_left (ru_phase next) < actions_left (ru_phase run))%nat) ->
  forall run next, may_return (decided act run) (Ok next) -> (actions_left (ru_phase next) < actions_left (ru_phase run))%nat.
Proof. intros Ha run next. unfold decided. destruct (NextAction run) as [action|e] eqn:E; [|done]. intros Hr. by apply (Ha action). Qed.
Lemma actions_left_bound p : (actions_left p < apply_fuel)%nat.
Proof.
  unfold actions_left, apply_fuel. destruct (list_find _ _) as [[i x]|] eqn:E; [|lia].
  apply list_find_Some in E as (E & _). apply lookup_lt_Some in E. cbn [length] in E. lia.
Qed.
(** A loop of the decided actions has as many turns as it needs. *)
Lemma decided_loop final (act : string -> CompactionRun -> storer (result CompactionRun)) loop n run :
  (forall action run next, may_return (act action run) (Ok next) -> NextAction run = Ok action -> (actions_left (ru_phase next) < actions_left (ru_phase run))%nat) ->
  (forall n run, loop (S n) run = if ru_phase run =?s final then Ret (Ok run)
     else match NextAction run with Err e => Ret (Err e) | Ok action => bind (act action run) (fun r => match r with Ok next => loop n next | Err e => Ret (Err e) end) end) ->
  same_prog (loop (apply_fuel + n)%nat run) (loop apply_fuel run).
Proof.
  intros Ha Hl. apply (loop_enough final (decided act) loop actions_left); [|by intros run' next _; apply decided_progress|apply actions_left_bound|lia].
  intros m run'. rewrite Hl. unfold decided. destruct (_ =?s _); [done|]. by destruct (NextAction run').
Qed.

(** (C35) The loop of actions ends.  With any more turns than the thirteen it is
    given, it makes the same calls and returns the same: whatever the calls
    answer, the run commits or an error is returned before the turns are
    spent. *)
Theorem apply_loop_terminates error_text run n :
  same_prog (apply_loop error_text (apply_fuel + n) run) (applyLeased error_text run).
Proof.
  apply (decided_loop Committed (apply_action error_text) (apply_loop error_text)); [|done].
  intros action run' next Hr Hn. by apply (action_phase error_text action).
Qed.

Section Kept.
Context {Rest : Type} `{Engine Rest} `{Recipe Rest} (json_len : CompactionRun -> Z) (CallerHoldsExclusiveLease : bool)
  (error_text : error -> string) (P : string).
Notation Content := (Content Rest).
Notation World := (World Content).

(** A store that was never compacted: its file, no journal, and every file a
    version of its own. *)
Record fresh (w : World) : Prop := mkFresh {
  fresh_store : exists f, cw_files w !! P = Some f /\ sf_regular f = true /\ is_Some (ct_events (sf_data f));
  fresh_journal : cw_journal w = ∅;
  fresh_stamps : forall p f, cw_files w !! p = Some f -> 0 < fi_mod_unix (sf_id f) < cw_clock w;
  fresh_unique : forall p q f g, cw_files w !! p = Some f -> cw_files w !! q = Some g -> sf_id f = sf_id g -> p = q }.
Lemma fresh_inv rel tabled may_roll_back w : (forall s, is_Some (ct_events s) -> tabled s) -> fresh w -> Inv P rel tabled may_roll_back w.
Proof.
  intros Ht [(f & Hf & Hr & He) Hj Hs Hu]. split; [|done|done|rewrite Hj; intros id records run Hid; by rewrite lookup_empty in Hid].
  exists f. split_and!; by auto.
Qed.

(** (C12) Compaction never loses a record.  Over any history of [store
    compact], the resumption of a run and the abandonment of a stale one, each
    of which may fail or die at any of its calls, with commits of other
    processes between them: the store file is always there, a regular file,
    and whatever it held at any moment it still holds: every event with its
    identity and its body (or, for a command, the audit with its text), and
    every audit. *)
Theorem compaction_keeps_records (w0 w w' : World) f :
  HasPrefix P "/" = true -> fresh w0 ->
  star (life json_len CallerHoldsExclusiveLease error_text P keeps false) w0 w ->
  star (life json_len CallerHoldsExclusiveLease error_text P keeps false) w w' ->
  cw_files w !! P = Some f ->
  exists f', cw_files w' !! P = Some f' /\ sf_regular f' = true /\ keeps (sf_data f) (sf_data f').
Proof.
  intros Hp Hf H1 H2 Hw. set (tabled := fun _ : Content => True).
  pose proof (fresh_inv keeps tabled false w0 (fun _ _ => I) Hf) as Hi.
  assert (Hs : forall w w', Inv P keeps tabled false w -> star (life json_len CallerHoldsExclusiveLease error_text P keeps false) w w' ->
    Inv P keeps tabled false w' /\ kept P keeps w w').
  { intros v v' Hv. apply (history_sound json_len CallerHoldsExclusiveLease error_text P keeps tabled false);
      [apply content_keeps_refl|apply content_keeps_trans|done|apply VerifyPair_keeps|apply compacted_in_place_keeps|done|done|done]. }
  destruct (Hs _ _ Hi H1) as [Hi1 _]. destruct (Hs _ _ Hi1 H2) as [_ Hk]. destruct (Hk f Hw) as (f' & Hf' & Hr & Hrel).
  destruct (inv_store _ _ _ _ _ Hi1) as (f0 & Hf0 & Hr0 & _). exists f'. split_and!; [done|congruence|done].
Qed.

(** Every event, by its id, and the table of events. *)
Definition keeps_events (s c : Content) : Prop :=
  dom (events s) ⊆ dom (events c) /\ (is_Some (ct_events s) -> is_Some (ct_events c)).
Lemma keeps_events_of (s c : Content) : keeps s c -> (is_Some (ct_events s) -> is_Some (ct_events c)) -> keeps_events s c.
Proof.
  intros [He _] Ht. split; [|done]. intros id [e Hid]%elem_of_dom. destruct (He id e Hid) as (e' & He' & _). apply elem_of_dom. by eexists.
Qed.
Lemma verified_keeps_events (s c : Content) : VerifyPair s c = None -> keeps_events s c.
Proof.
  intros Hv. apply keeps_events_of; [by apply VerifyPair_keeps|]. apply VerifyPair_compared in Hv as [[Hs Hc]|Hf]; [rewrite Hs; by intros [? ?]|].
  by destruct (filtered_kept _ _ Hf) as (_ & _ & _ & _ & _ & ?).
Qed.
Lemma compacted_keeps_events (s : Content) : keeps_events s (compacted_in_place s).
Proof. apply keeps_events_of; [apply compacted_in_place_keeps|]. apply applyCopyFilters_tabled. Qed.

(** (C13) The guard makes a rollback safe.  When [store compact rollback] is
    used too, whatever fails or dies, no event that the store held is lost,
    as long as a rollback that was interrupted is finished by [rollback] and
    not by another command. *)
Theorem rollback_keeps_events (w0 w w' : World) f :
  HasPrefix P "/" = true -> fresh w0 ->
  star (life json_len CallerHoldsExclusiveLease error_text P keeps_events true) w0 w ->
  star (life json_len CallerHoldsExclusiveLease error_text P keeps_events true) w w' ->
  cw_files w !! P = Some f ->
  exists f', cw_files w' !! P = Some f' /\ sf_regular f' = true /\ keeps_events (sf_data f) (sf_data f').
Proof.
  intros Hp Hf H1 H2 Hw. set (tabled := fun c : Content => is_Some (ct_events c)).
  pose proof (fresh_inv keeps_events tabled true w0 (fun _ Ht => Ht) Hf) as Hi.
  assert (Hs : forall w w', Inv P keeps_events tabled true w -> star (life json_len CallerHoldsExclusiveLease error_text P keeps_events true) w w' ->
    Inv P keeps_events tabled true w' /\ kept P keeps_events w w').
  { intros v v' Hv. apply (history_sound json_len CallerHoldsExclusiveLease error_text P keeps_events tabled true);
      [by intros s; split|intros s t u [A1 A2] [B1 B2]; split; [set_solver|by auto]|by intros s t [_ Ht]|apply verified_keeps_events|apply compacted_keeps_events| |done|done].
    intros _ p r Ht Hr Hz. split; [|done]. apply diff_size_zero. by rewrite <-CountRecordsAtRisk_dom. }
  destruct (Hs _ _ Hi H1) as [Hi1 _]. destruct (Hs _ _ Hi1 H2) as [_ Hk]. destruct (Hk f Hw) as (f' & Hf' & Hr & Hrel).
  destruct (inv_store _ _ _ _ _ Hi1) as (f0 & Hf0 & Hr0 & _). exists f'. split_and!; [done|congruence|done].
Qed.
End Kept.
