(* ===== verification/CompactionExamples.v ===== *)
(** * Compactions, evaluated

    A store of two events, compacted, rolled back and interrupted on a
    concrete directory: witnesses, and histories on which the commands do not
    do what they are for. *)

From S2P Require Import Prelude GoStrings GoOs GoTime Upgrade Interleaving StoreContent StoreFiles Compaction StoreCopy StoreCompaction CompactionSafe CompactionKept.

#[global] Instance ex_engine : Engine unit := {|
  vacuum := fun r => r; incremental_vacuum := fun r => r;
  VerifyStoreCompatibility := fun _ => Ok tt; scrubStore := fun _ => Ok (mkScrub "" ""); VerifyAttestationChain := fun _ => Ok tt;
  page_size := fun _ => 1; freelist_count := fun _ => 0;
  file_size := fun c => 100 + foldr (fun p n => slen (body (snd p)) + n) 0 (map_to_list (events c));
  file_digest := fun c => foldr (fun p s => fst p +:+ s) "#" (map_to_list (events c));
  ident_digest := fun l => Join l ","; no_tables := tt |}.
#[global] Instance ex_recipe : Recipe unit := {|
  recipe_Plan := fun _ _ => Ok "plan"; recipe_VerifyBoundDrop := fun _ _ => Ok tt; recipe_VerifyUnavailableRetention := fun _ _ => Ok tt;
  recipe_Build := fun _ d => d;
  recipe_ClassifyOwnedCandidate := fun _ d => if bool_decide (is_Some (ct_events d)) then ConditionComplete else ConditionOwnedIncomplete;
  recipe_Verify := fun _ s c => if bool_decide (dom (events s) = dom (events c)) then Ok (mkEvidence "s" "c" "m" "x" (mkCanonical 0 0 "") 0 0 0)
                                else Err (Errorf "candidate changed" []) |}.
Definition ex_len (_ : CompactionRun) : Z := 500.
Fixpoint ex_text (e : error) : string :=
  match e with Sentinel s => s | Errorf s _ => s | Wrap s _ c => s +:+ ex_text c | Typed s _ c => s +:+ ex_text c | Joined a b => ex_text a +:+ ex_text b end.
Definition ex_event (kind text : string) : eventVerifyRecord := mkEventVerify (mkEventIdentity kind "s" "t" "t" "a" "c" "w" "") text.
Definition ex_content : Content unit :=
  mkContent (Some {[ "e1" := ex_event "note" "hello"; "e2" := ex_event "command_executed" "ls" ]})
    (Some (mkAuditTable ["event_id"; "exit"] {[ "e2" := mkAuditRow ["0"] "ls" "" "out" ]})) true tt.
Definition ex_store : string := "/d/t.db".
Definition ex_world : World (Content unit) :=
  mkWorld {[ ex_store := mkStoreFile (mkFileIdentity 1 1 107 1 384 1) true ex_content ]} ∅ 10 1 1000000000 UnixEpoch
    [repeat "a"%char 16; repeat "b"%char 16; repeat "c"%char 16] [].
Definition ex_alone (q : Request) (w : World (Content unit)) : result unit * World (Content unit) :=
  alone (store_run ex_len) (serve true ex_text ex_store q) w.
Definition ex_run_id (c : ascii) : string := EncodeToString (repeat c 16).
Definition ex_phase (c : ascii) (w : World (Content unit)) : option string :=
  match Load ex_len w (ex_run_id c) with Ok r => Some (ru_phase r) | Err _ => None end.

(** An invocation that dies after [n] of its calls, and a commit. *)
Definition ex_die (q : Request) (n : nat) (w : World (Content unit)) : World (Content unit) :=
  snd (steps (store_run ex_len) n (serve true ex_text ex_store q) w).
Definition ex_content_at (path : string) (w : World (Content unit)) : Content unit := from_option sf_data blank (cw_files w !! path).
Definition ex_write (id : string) (w : World (Content unit)) : World (Content unit) :=
  let c := ex_content_at ex_store w in
  rewrite_file file_size w ex_store (mkContent (Some (<[id := ex_event "note" id]> (events c))) (ct_audits c) (ct_legacy c) tt).
Definition ex_has (id : string) (w : World (Content unit)) : bool := bool_decide (is_Some (events (ex_content_at ex_store w) !! id)).
Definition ex_compact : Request := ReqCompact "" "".
Definition ex_rollback : Request := ReqRollback (ex_run_id "a").
Definition ex_compacted : World (Content unit) := snd (ex_alone ex_compact ex_world).

(** A compaction that nothing disturbs commits, and leaves the old file as the
    rollback copy; a rollback brings it back. *)
Example compact_commits :
  fst (ex_alone ex_compact ex_world) = Ok tt /\ ex_phase "a" ex_compacted = Some Committed /\
  ex_content_at (ex_store +:+ ".rollback-" +:+ ex_run_id "a") ex_compacted = ex_content /\
  body <$> (events (ex_content_at ex_store ex_compacted) !! "e2") = Some "" /\
  let back := ex_alone ex_rollback ex_compacted in
  fst back = Ok tt /\ ex_phase "a" (snd back) = Some RolledBack /\ ex_content_at ex_store (snd back) = ex_content.
Proof. vm_compute. repeat split. Qed.

(** A rollback that dies between recording its intent and exchanging the
    files leaves the compacted store in use.  The compaction that is run next
    finishes the rollback without asking the guard: an event written
    meanwhile is gone, although [rollback] itself refuses. *)
Example interrupted_rollback_loses_event :
  let w := ex_write "e3" (ex_die ex_rollback 8 ex_compacted) in
  ex_phase "a" (ex_die ex_rollback 8 ex_compacted) = Some RollbackSwapIntent /\ ex_has "e3" w = true /\
  is_ok (fst (ex_alone ex_rollback w)) = false /\
  fst (ex_alone ex_compact w) = Ok tt /\ ex_phase "a" (snd (ex_alone ex_compact w)) = Some RolledBack /\
  ex_has "e3" (snd (ex_alone ex_compact w)) = false.
Proof. vm_compute. repeat split. Qed.

(** A compaction that dies once its candidate is complete and before the
    exchange, followed by a write: no later compaction succeeds, and the stale
    run is not abandoned, since its phase is no longer one of preparation. *)
Definition ex_stuck (n : nat) : bool :=
  let w := ex_write "e3" (ex_die ex_compact n ex_world) in
  let again := ex_alone ex_compact w in
  let abandon := ex_alone (ReqAbandon ex_store) w in
  bool_decide (fst again = Err (Errorf "unknown compaction file orientation" []))
  && bool_decide (ex_phase "a" (snd again) = ex_phase "a" w) && bool_decide (map fst (map_to_list (cw_files (snd again))) = map fst (map_to_list (cw_files w)))
  && bool_decide (fst abandon = Ok tt) && bool_decide (ex_phase "a" (snd abandon) = ex_phase "a" w).
Example interrupted_compaction_stuck :
  map (fun n => ex_phase "a" (ex_die ex_compact n ex_world)) [38; 40; 44; 46; 54; 56]%nat =
    map Some [CopyComplete; CandidateSyncIntent; CandidateSynced; ScrubInProgress; CandidateVerified; SwapIntent] /\
  forallb ex_stuck [38; 40; 44; 46; 54; 56]%nat = true.
Proof. vm_compute. by split. Qed.

(** A compaction that dies between creating its candidate and recording that:
    while the store is not written to, every later one is refused. *)
Example interrupted_create_stuck :
  let w := ex_die ex_compact 29 ex_world in
  let again := ex_alone ex_compact w in
  ex_phase "a" w = Some CopyIntent /\ is_Some (cw_files w !! (ex_store +:+ ".compact-" +:+ ex_run_id "a")) /\
  fst again = Err (Errorf "candidate appeared before prepared identity was durable" []) /\
  ex_phase "a" (snd again) = Some CopyIntent /\ fst (ex_alone (ReqAbandon ex_store) w) = Ok tt /\
  ex_phase "a" (snd (ex_alone (ReqAbandon ex_store) w)) = Some CopyIntent.
Proof. vm_compute. split_and!; try done. by eexists. Qed.

(** Before the rollback copy is published, [rollback] always fails: its guard
    reads that copy first. *)
Example rollback_before_publication_fails :
  let w := ex_die ex_compact 70 ex_world in
  ex_phase "a" w = Some Swapped /\
  fst (ex_alone ex_rollback w) = Err (not_exist "open" (ex_store +:+ ".rollback-" +:+ ex_run_id "a")).
Proof. vm_compute. by split. Qed.

(** The preflight asks for two copies and a tenth where the volume could hold
    one: between the two, [compact] rewrites the store in place, and no
    rollback copy is left. *)
Example plan_asks_for_two_copies :
  let w := mkWorld {[ ex_store := mkStoreFile (mkFileIdentity 1 1 1000000000 1 384 1) true ex_content ]} ∅ 10 1 2000000000 UnixEpoch [repeat "a"%char 16] [] in
  fst (alone (store_run ex_len) (Plan true ex_store ex_store) w) =
    Err (insufficientCompactionSpaceError 2100000000 2000000000 1000000000) /\
  fst (ex_alone ex_compact w) = Ok tt /\ map fst (map_to_list (cw_files (snd (ex_alone ex_compact w)))) = [ex_store].
Proof. vm_compute. by split_and!. Qed.

(** ** Witnesses *)

Lemma ex_fresh : fresh ex_store ex_world.
Proof.
  split.
  - eexists. split; [by apply lookup_singleton_eq|]. split; [done|by eexists].
  - done.
  - intros p f Hf. cbn [cw_files ex_world] in Hf. by apply lookup_singleton_Some in Hf as [<- <-].
  - intros p q f g Hf Hg _. cbn [cw_files ex_world] in Hf, Hg. apply lookup_singleton_Some in Hf as [<- _]. by apply lookup_singleton_Some in Hg as [<- _].
Qed.
Lemma ex_invoke rel may q w w' : w' = snd (ex_alone q w) ->
  match q with ReqCompact source _ => source = "" \/ source = ex_store | ReqAbandon source => source = ex_store | ReqResume _ => True | ReqRollback _ => may = true end ->
  (may = true -> (exists id, q = ReqRollback id) \/ no_interrupted_rollback ex_len w) -> star (life ex_len true ex_text ex_store rel may) w w'.
Proof. intros -> Hq Hc. apply star_one. apply (life_invoke _ _ _ _ _ _ _ q); [done|done|apply alone_interrupted]. Qed.
Lemma insert_keeps (c : Content unit) id e : events c !! id = None -> is_Some (ct_events c) ->
  keeps c (mkContent (Some (<[id := e]> (events c))) (ct_audits c) (ct_legacy c) tt).
Proof.
  intros Hn [m Hm]. assert (Ee : forall i e', events c !! i = Some e' -> <[id := e]> (events c) !! i = Some e').
  { intros i e' Hi. rewrite lookup_insert_ne; [done|]. intros ->. congruence. }
  split; [intros i e' Hi; exists e'; split; [by apply Ee|split; by auto]|intros i a Ha _; by exists a].
Qed.
Definition ex_later : World (Content unit) := ex_write "e3" ex_compacted.
Definition ex_compacted_file : StoreFile (Content unit) := default (mkStoreFile StoreFileIdentity_zero false blank) (cw_files ex_compacted !! ex_store).
Lemma ex_compacted_store : cw_files ex_compacted !! ex_store = Some ex_compacted_file.
Proof. vm_compute. reflexivity. Qed.
Lemma ex_compacted_new : events (ex_content_at ex_store ex_compacted) !! "e3" = None.
Proof. vm_compute. reflexivity. Qed.
Lemma ex_compacted_events : bool_decide (is_Some (ct_events (ex_content_at ex_store ex_compacted))) = true.
Proof. vm_compute. reflexivity. Qed.
Lemma ex_compacted_content : ex_content_at ex_store ex_compacted = sf_data ex_compacted_file.
Proof. unfold ex_content_at. rewrite ex_compacted_store. reflexivity. Qed.
Lemma ex_write_keeps : keeps (sf_data ex_compacted_file)
  (let c := ex_content_at ex_store ex_compacted in mkContent (Some (<[ "e3" := ex_event "note" "e3" ]> (events c))) (ct_audits c) (ct_legacy c) tt).
Proof.
  rewrite <-ex_compacted_content. exact (insert_keeps _ "e3" (ex_event "note" "e3") ex_compacted_new (bool_decide_eq_true_1 _ ex_compacted_events)).
Qed.
Lemma ex_later_life : star (life ex_len true ex_text ex_store keeps false) ex_world ex_later.
Proof.
  apply (star_trans _ _ ex_compacted _ (ex_invoke keeps false ex_compact ex_world ex_compacted eq_refl (or_introl eq_refl) (fun E => False_ind _ (Bool.diff_false_true E)))).
  apply star_one. exact (life_write _ _ _ _ _ _ _ _ _ ex_compacted_store ex_write_keeps).
Qed.

Lemma compaction_keeps_records_witness :
  exists f', cw_files ex_later !! ex_store = Some f' /\ sf_regular f' = true /\ keeps ex_content (sf_data f').
Proof.
  exact (compaction_keeps_records ex_len true ex_text ex_store ex_world ex_world ex_later
    (mkStoreFile (mkFileIdentity 1 1 107 1 384 1) true ex_content) eq_refl ex_fresh (star_refl _ _) ex_later_life eq_refl).
Defined.

(** A rollback that died is finished by the next. *)
Definition ex_dead : World (Content unit) := ex_die ex_rollback 8 ex_compacted.
Definition ex_back : World (Content unit) := snd (ex_alone ex_rollback ex_dead).
Lemma ex_undisturbed : no_interrupted_rollback ex_len ex_world.
Proof. intros id run Hl. apply Load_in in Hl as (records & Hr & _). cbn [cw_journal ex_world] in Hr. by rewrite lookup_empty in Hr. Qed.
Lemma ex_dead_life : star (life ex_len true ex_text ex_store keeps_events true) ex_world ex_dead.
Proof.
  apply (star_trans _ _ ex_compacted _ (ex_invoke keeps_events true ex_compact ex_world ex_compacted eq_refl (or_introl eq_refl) (fun _ => or_intror ex_undisturbed))).
  apply star_one. exact (life_invoke _ _ _ _ _ _ _ ex_rollback _ eq_refl (fun _ => or_introl (ex_intro _ (ex_run_id "a") eq_refl)) (steps_interrupted _ 8 _ _)).
Qed.
Lemma ex_back_life : star (life ex_len true ex_text ex_store keeps_events true) ex_dead ex_back.
Proof. unfold ex_back. exact (ex_invoke keeps_events true ex_rollback ex_dead (snd (ex_alone ex_rollback ex_dead)) (eq_refl (snd (ex_alone ex_rollback ex_dead))) eq_refl (fun _ => or_introl (ex_intro _ (ex_run_id "a") eq_refl))). Qed.
Definition ex_dead_file : StoreFile (Content unit) := default (mkStoreFile StoreFileIdentity_zero false blank) (cw_files ex_dead !! ex_store).
Lemma ex_dead_store : cw_files ex_dead !! ex_store = Some ex_dead_file.
Proof. vm_compute. reflexivity. Qed.
Lemma rollback_keeps_events_witness :
  exists f', cw_files ex_back !! ex_store = Some f' /\ sf_regular f' = true /\ keeps_events (sf_data ex_dead_file) (sf_data f').
Proof.
  exact (rollback_keeps_events ex_len true ex_text ex_store ex_world ex_dead ex_back ex_dead_file eq_refl ex_fresh ex_dead_life ex_back_life ex_dead_store).
Defined.

Lemma verified_copy_keeps_witness :
  keeps ex_content (built ex_content) /\ (forall id, is_Some (events (built ex_content) !! id) <-> is_Some (events ex_content !! id)) /\
  (is_Some (ct_events ex_content) -> ct_legacy (built ex_content) = false).
Proof. apply (verified_copy_keeps ex_content (built ex_content)). vm_compute. reflexivity. Defined.
Lemma built_copy_verifies_witness : VerifyPair ex_content (built ex_content) = None.
Proof. apply (built_copy_verifies ex_content (mkScrub "" "") (mkScrub "" "")); done. Defined.
Lemma rollback_guard_exact_witness :
  CountRecordsAtRisk (ex_content_at ex_store ex_later) ex_content = 1 /\
  CountRecordsAtRisk (ex_content_at ex_store ex_later) ex_content =
    Z.of_nat (base.size (dom (events (ex_content_at ex_store ex_later)) ∖ dom (events ex_content))) /\
  (CountRecordsAtRisk (ex_content_at ex_store ex_later) ex_content = 0
   <-> dom (events (ex_content_at ex_store ex_later)) ⊆ dom (events ex_content)).
Proof.
  split; [vm_compute; reflexivity|]. apply (rollback_guard_exact (ex_content_at ex_store ex_later) ex_content); eexists; vm_compute; reflexivity.
Defined.
