(* ===== verification/StoreUpgrade.v ===== *)
(** * The offline upgrade use case

    [src/application/usecase/prepared_store_upgrade.go] over the file protocol
    of [Compaction] and the journal of [StoreFiles]: a store is upgraded by a
    recipe that migrates a copy, which takes the place of the store once the
    recipe has verified it.  [doctor --fix] runs [RunUpgrade] with the one
    recipe it registers (main.go), for offline migrations. *)

From S2P Require Import Prelude GoStrings GoOs GoTime Upgrade Interleaving StoreContent StoreFiles Compaction StoreCompaction.
#[local] Open Scope prog_scope.

Record UpgradeCommand := mkUpgradeCommand {
  uc_Operation : string; TargetPath : string; uc_ConsumerBinding : string; uc_Budget : UpgradeBudget;
  uc_BoundDropApproval : option BoundDropApproval; uc_UnavailableRetentionApproval : option UnavailableRetentionApproval }.
Record UpgradeReceipt := mkUpgradeReceipt {
  RunID : string; rc_Operation : string; rc_ConsumerBinding : string; TargetIdentity : StoreFileIdentity; RollbackIdentity : StoreFileIdentity;
  rc_RollbackPath : string; rc_Evidence : CandidateEvidence; PublishMilliseconds : Z }.

Definition set_evidence (r : CompactionRun) (evidence : CandidateEvidence) : CompactionRun :=
  mkRun (ru_id r) (ru_source_path r) (ru_candidate_path r) (ru_rollback_path r) (ru_phase r) (ru_source r) (ru_candidate r)
    (ru_prepared r) (ru_attempt r) (ru_operation r) (ru_consumer r) (ru_plan_digest r) (ru_source_digest r) (ru_bound_drop r)
    (ru_retention r) (mkCarried (Resources_of r) (Budget_of r) evidence) (ru_created r) (ru_updated r).
Definition set_plan_digest (r : CompactionRun) (digest : string) : CompactionRun :=
  mkRun (ru_id r) (ru_source_path r) (ru_candidate_path r) (ru_rollback_path r) (ru_phase r) (ru_source r) (ru_candidate r)
    (ru_prepared r) (ru_attempt r) (ru_operation r) (ru_consumer r) digest (ru_source_digest r) (ru_bound_drop r)
    (ru_retention r) (ru_payload r) (ru_created r) (ru_updated r).
Definition set_retention (r : CompactionRun) (approval : option UnavailableRetentionApproval) : CompactionRun :=
  mkRun (ru_id r) (ru_source_path r) (ru_candidate_path r) (ru_rollback_path r) (ru_phase r) (ru_source r) (ru_candidate r)
    (ru_prepared r) (ru_attempt r) (ru_operation r) (ru_consumer r) (ru_plan_digest r) (ru_source_digest r) (ru_bound_drop r)
    approval (ru_payload r) (ru_created r) (ru_updated r).

(** The recipes that main.go registers. *)
Definition registered (operation : string) : bool := operation =?s OperationOfflineMigrationUpgrade.

Section Usecase.
Context (CallerHoldsExclusiveLease : bool) (expectedStore : string).
Notation run_ := (storer (result CompactionRun)).

Definition load {A} (id : string) (k : CompactionRun -> storer (result A)) : storer (result A) :=
  call (OpLoad id) plain (fun run =>
  if (Clean (ru_source_path run) <>?s expectedStore) || negb (Operation_Known (ru_operation run)) || negb (registered (ru_operation run))
  then Ret (Err (Errorf "prepared upgrade run binding mismatch" [])) else k run).

(** ** Planning *)

Definition planned_run (command : UpgradeCommand) (id : string) (now : Time) : CompactionRun :=
  let offline := uc_Operation command =?s OperationOfflineMigrationUpgrade in
  let target := TargetPath command in
  mkRun id target (target +:+ (if offline then ".upgrade-" else ".compact-") +:+ id)
    (target +:+ (if offline then ".rollback-upgrade-" else ".rollback-") +:+ id) Planned StoreFileIdentity_zero StoreFileIdentity_zero
    StoreFileIdentity_zero 0 (uc_Operation command) (uc_ConsumerBinding command) "" "" (uc_BoundDropApproval command) None
    (mkCarried no_resources (uc_Budget command) no_evidence) (UTC now) (UTC now).
Definition Plan_upgrade (command : UpgradeCommand) : run_ :=
  if (Clean (TargetPath command) <>?s expectedStore) || (uc_ConsumerBinding command =?s "") || negb (Operation_Known (uc_Operation command))
     || negb (registered (uc_Operation command))
  then Ret (Err (Errorf "invalid prepared upgrade binding" []))
  else
    call OpRandom (fun e => Err (Wrap "create prepared upgrade id: %w" [] e)) (fun id =>
    with_now (fun now =>
    let run := planned_run command id now in
    call (OpRecipePlan run) plain (fun digest =>
    let? planned := Plan_files CallerHoldsExclusiveLease (set_plan_digest run digest) in
    let approved := match uc_UnavailableRetentionApproval command with
                    | Some approval => set_retention planned (Some (Bind approval (ru_id planned) (ru_source planned)))
                    | None => planned
                    end in
    call (OpCreateRun approved) plain (fun _ => Ret (Ok approved))))).

(** ** Preparing *)

Definition prepare_action (action : string) (run : CompactionRun) : run_ :=
  if action =?s "recheck_plan" then let? _ := Recheck run in advance run CopyIntent
  else if action =?s "prepare_candidate" then
    let? identity := PrepareCandidate run in
    advance (set_prepared run identity (u64 (ru_attempt run + 1))) CandidatePrepared
  else if action =?s "build_candidate" then
    call (OpRecipeBoundDrop run) plain (fun _ =>
    call (OpRecipeRetention run) plain (fun _ =>
    call (OpRecipeBuild run) plain (fun _ => advance run CopyComplete)))
  else if action =?s "record_sync_intent" then advance run CandidateSyncIntent
  else if action =?s "sync_candidate" then call (OpRecipeSync run) plain (fun _ => advance run CandidateSynced)
  else if action =?s "record_scrub_in_progress" then advance run ScrubInProgress
  else if action =?s "verify_candidate" then
    call (OpRecipeVerify run) plain (fun evidence =>
    let? fenced := FenceCandidate (set_evidence run evidence) in advance fenced CandidateVerified)
  else Ret (Err (Errorf "preparation reached publication action %q" [action])).
Fixpoint prepare_loop (fuel : nat) (run : CompactionRun) : run_ :=
  if ru_phase run =?s CandidateVerified then Ret (Ok run)
  else match fuel with
       | O => Ret (Err out_of_fuel)
       | S fuel =>
           match NextAction run with
           | Err e => Ret (Err e)
           | Ok action => let? next := prepare_action action run in prepare_loop fuel next
           end
       end.
Definition prepare (run : CompactionRun) : run_ := prepare_loop apply_fuel run.
Definition Prepare (id : string) : run_ := load id prepare.

Definition preparation_phases : list string :=
  [Planned; CopyIntent; CopyRetryIntent; CandidatePrepared; CopyComplete; CandidateSyncIntent; CandidateSynced; ScrubInProgress].
Definition isPreparationPhase (p : string) : bool := slices_contains preparation_phases p.
Definition recover_preparation_action (run : CompactionRun) (obs : Observation) (action : string) : run_ :=
  if action =?s "record_copy_retry_intent" then advance run CopyRetryIntent
  else if action =?s "remove_owned_partial_candidate" then
    let? _ := Recheck run in
    let? _ := RemoveOwnedPartialCandidate run obs in Ret (Ok run)
  else if action =?s "record_copy_complete" then advance run CopyComplete
  else Ret (Err (Errorf "unexpected preparation recovery action %q" [action])).
Fixpoint recover_preparation_actions (run : CompactionRun) (obs : Observation) (actions : list string) : run_ :=
  match actions with
  | [] => Ret (Ok run)
  | a :: rest => let? next := recover_preparation_action run obs a in recover_preparation_actions next obs rest
  end.
Definition recoverPreparation (run : CompactionRun) : run_ :=
  let? seen := Observe run in
  let? obs := (if (ru_phase run =?s CandidatePrepared) && (ob_orientation seen =?s OrientationCandidateReady)
               then call (OpRecipeClassify run) plain (fun c => Ret (Ok (set_condition seen c)))
               else Ret (Ok seen)) in
  match RecoveryActions run obs with
  | Err e => Ret (Err e)
  | Ok actions => recover_preparation_actions run obs actions
  end.

(** ** Publishing *)

Definition publish_action (action : string) (run : CompactionRun) : run_ :=
  if action =?s "exchange" then
    let? _ := RejectRetiredSearchIndex run in
    let? _ := Exchange run in advance run Swapped
  else if action =?s "record_publish_intent" then advance run RollbackPublishIntent
  else if action =?s "publish_rollback" then let? _ := PublishRollback run in advance run RollbackReady
  else if action =?s "commit" then advance run Committed
  else Ret (Err (Errorf "publication encountered preparation action %q" [action])).
Fixpoint publish_loop (fuel : nat) (run : CompactionRun) : run_ :=
  if ru_phase run =?s Committed then Ret (Ok run)
  else match fuel with
       | O => Ret (Err out_of_fuel)
       | S fuel =>
           match NextAction run with
           | Err e => Ret (Err e)
           | Ok action => let? next := publish_action action run in publish_loop fuel next
           end
       end.
Definition publishLeased (run : CompactionRun) (leaseStarted : Time) : storer (result UpgradeReceipt) :=
  let? done := publish_loop apply_fuel run in
  let? observation := Observe done in
  with_now (fun now =>
  Ret (Ok (mkUpgradeReceipt (ru_id done) (ru_operation done) (ru_consumer done) (ob_source observation) (ob_rollback observation)
             (ru_rollback_path done) (Evidence_of done) (Z.quot (Sub now leaseStarted) 1000000)))).
(** The table of [phaseForRecoveryAction], written again. *)
Definition phaseForPreparedRecoveryAction : string -> option string := phaseForRecoveryAction.
Definition executeRecoveryAction (run : CompactionRun) (obs : Observation) (action : string) : run_ :=
  if action =?s "sync_recovered_orientation" then let? _ := SyncRecoveredOrientation run obs in Ret (Ok run)
  else if action =?s "exchange" then
    let? _ := RejectRetiredSearchIndex run in
    let? _ := Exchange run in Ret (Ok run)
  else if action =?s "rollback_exchange" then let? _ := Exchange run in Ret (Ok run)
  else if action =?s "publish_rollback" then let? _ := PublishRollback run in Ret (Ok run)
  else match phaseForPreparedRecoveryAction action with
       | None => Ret (Err (Errorf "unsupported prepared recovery action %q" [action]))
       | Some phase => advance run phase
       end.
Fixpoint execute_recovery_actions (run : CompactionRun) (obs : Observation) (actions : list string) : run_ :=
  match actions with
  | [] => Ret (Ok run)
  | a :: rest => let? next := executeRecoveryAction run obs a in execute_recovery_actions next obs rest
  end.
(** [held]: the process holds the exclusive lease already. *)
Definition acquireExclusiveSkippingIfHeld {A} (held : bool) (k : storer (result A)) : storer (result A) :=
  if held then k else call (OpLease expectedStore) plain (fun _ => k).
Definition recoverAndPublish (held : bool) (run0 : CompactionRun) : storer (result UpgradeReceipt) :=
  let? run := (if ru_phase run0 =?s CandidateVerified then advance run0 SwapIntent else Ret (Ok run0)) in
  acquireExclusiveSkippingIfHeld held (
  with_now (fun leaseStarted =>
  let? obs := Observe run in
  let? _ := (if (ru_phase run =?s SwapIntent) && (ob_orientation obs =?s OrientationCandidateReady) then RecheckForPublish run else Ret (Ok tt)) in
  match RecoveryActions run obs with
  | Err e => Ret (Err e)
  | Ok actions => let? next := execute_recovery_actions run obs actions in publishLeased next leaseStarted
  end)).
Definition Publish (id : string) : storer (result UpgradeReceipt) :=
  load id (fun run =>
  if ru_phase run <>?s CandidateVerified then Ret (Err (Errorf "prepared candidate is not verified" [])) else recoverAndPublish false run).
(** What is left of a run, from the phase it reached. *)
Definition resume_upgrade (held : bool) (run : CompactionRun) : storer (result UpgradeReceipt) :=
  if isPreparationPhase (ru_phase run) then
    let? recovered := recoverPreparation run in
    let? prepared := prepare recovered in recoverAndPublish held prepared
  else recoverAndPublish held run.
Definition Resume_upgrade (id : string) : storer (result UpgradeReceipt) := load id (resume_upgrade false).

(** ** The command *)

Definition ambiguous_active : error := Errorf "ambiguous active prepared upgrade" [].
Definition invalid_journal_file : error := Errorf "invalid prepared upgrade journal file" [].
Fixpoint find_active (operation target binding : string) (found : option CompactionRun) (ids : list string) : run_ :=
  match ids with
  | [] => Ret (match found with None => Err ErrNotExist | Some run => Ok run end)
  | id :: rest =>
      call OpContext plain (fun _ =>
      call (OpJournalSize id) (fun _ => Err invalid_journal_file) (fun n =>
      if (n <=? 0) || (maxCompactionJournalBytes <? n) then Ret (Err invalid_journal_file)
      else
        call (OpLoad id) plain (fun run =>
        if (ru_operation run <>?s operation) || (Clean (ru_source_path run) <>?s Clean target) || (ru_consumer run <>?s binding)
           || (ru_phase run =?s RolledBack)
        then find_active operation target binding found rest
        else match found with
             | Some _ => Ret (Err ambiguous_active)
             | None => find_active operation target binding (Some run) rest
             end)))
  end.
Definition FindActive (operation target binding : string) : run_ :=
  if negb (Operation_Known operation) || (target =?s "") || (binding =?s "") then Ret (Err (Errorf "invalid prepared upgrade lookup" []))
  else
    call OpJournals plain (fun ids =>
    if maxActiveUpgradeJournals <? Z.of_nat (length ids) then Ret (Err (Errorf "prepared upgrade journal entry limit exceeded" []))
    else find_active operation target binding None ids).
Definition RunUpgrade (command : UpgradeCommand) : storer (result UpgradeReceipt) :=
  if (Clean (TargetPath command) <>?s expectedStore) || (uc_ConsumerBinding command =?s "")
     || (uc_Operation command <>?s OperationOfflineMigrationUpgrade) || negb (registered (uc_Operation command))
  then Ret (Err (Errorf "invalid prepared upgrade binding" []))
  else
    call (OpLease expectedStore) plain (fun _ =>
    let afresh :=
      let? planned := Plan_upgrade command in
      let? prepared := prepare planned in recoverAndPublish true prepared in
    bind (FindActive (uc_Operation command) (TargetPath command) (uc_ConsumerBinding command)) (fun out =>
    match out with
    | Err e => if is_not_exist e then afresh else Ret (Err e)
    | Ok run => if negb (IsTerminal (ru_phase run)) then resume_upgrade true run else afresh
    end)).

(** ** Rolling back an upgrade that is not committed *)

Definition rollback_step (run : CompactionRun) : run_ :=
  let p := ru_phase run in
  if p =?s Swapped then advance run RollbackPublishIntent
  else if p =?s RollbackPublishIntent then let? _ := PublishRollback run in advance run RollbackReady
  else if (p =?s RollbackReady) || (p =?s Committed) then advance run RollbackSwapIntent
  else if p =?s RollbackSwapIntent then let? _ := Exchange run in advance run RollbackSwapped
  else if p =?s RollbackSwapped then advance run RolledBack
  else Ret (Err (Errorf "rollback cannot continue from phase %q" [p])).
Fixpoint rollback_loop (fuel : nat) (run : CompactionRun) : run_ :=
  if ru_phase run =?s RolledBack then Ret (Ok run)
  else match fuel with
       | O => Ret (Err out_of_fuel)
       | S fuel => let? next := rollback_step run in rollback_loop fuel next
       end.
(** Each step advances the run, which has six phases to be rolled back. *)
Definition rollback_fuel : nat := 7.
Definition Rollback_upgrade (id : string) : run_ :=
  load id (fun run0 =>
  let? run :=
    (if (ru_phase run0 =?s RollbackReady) || (ru_phase run0 =?s Committed) then
       if (ru_operation run0 =?s OperationOfflineMigrationUpgrade) && (ru_phase run0 =?s Committed)
       then Ret (Err (Errorf "upgrade run refuses post-commit rollback: retained file is a forensic backup, not an interchangeable rollback target" []))
       else advance run0 RollbackSwapIntent
     else Ret (Ok run0)) in
  acquireExclusiveSkippingIfHeld false (
  let? obs := Observe run in
  match RecoveryActions run obs with
  | Err e => Ret (Err e)
  | Ok actions => let? next := execute_recovery_actions run obs actions in rollback_loop rollback_fuel next
  end)).
End Usecase.
