(* ===== verification/UpgradeSafe.v ===== *)
(** * An offline upgrade publishes only what was verified

    Whatever invocations of the upgrade run one after another, each failing or
    dying at any call, with writes between them, the store file is there, and
    what it holds came from what it held by the writes and by candidates that
    the recipe verified against exactly the content they replaced.  The rules
    and the file protocol are those of [CompactionSafe]. *)

From S2P Require Import Prelude GoStrings GoOs GoTime Upgrade Interleaving StoreContent StoreFiles Compaction StoreCopy StoreCompaction CompactionSafe StoreUpgrade.

(** [doctor --fix], and the stages of the use case by themselves. *)
Inductive UpgradeRequest :=
| UpRun (command : UpgradeCommand)
| UpPlan (command : UpgradeCommand)
| UpPublish (id : string)
| UpResume (id : string).

Section Safe.
Context {Rest : Type} `{Engine Rest} `{Recipe Rest} (json_len : CompactionRun -> Z) (CallerHoldsExclusiveLease : bool) (P : string).
Notation Content := (Content Rest).
Notation World := (World Content).
Notation run_op := (store_run json_len).

Definition serve_upgrade (q : UpgradeRequest) : storer (result unit) :=
  match q with
  | UpRun command => outcome (RunUpgrade CallerHoldsExclusiveLease P command)
  | UpPlan command => outcome (Plan_upgrade CallerHoldsExclusiveLease P command)
  | UpPublish id => outcome (Publish P id)
  | UpResume id => outcome (Resume_upgrade P id)
  end.
Definition targets (q : UpgradeRequest) (path : string) : Prop :=
  match q with UpRun command | UpPlan command => TargetPath command = path | _ => True end.

(** What happens to the directory of the store. *)
Inductive upgrade_life (written : Content -> Content -> Prop) : World -> World -> Prop :=
| up_invoke w q w' : targets q P -> interrupted json_len (serve_upgrade q) w w' -> upgrade_life written w w'
| up_write w f d : cw_files w !! P = Some f -> written (sf_data f) d -> upgrade_life written w (rewrite_file file_size w P d)
| up_elapse w w' : cw_files w' = cw_files w -> cw_journal w' = cw_journal w -> cw_clock w' = cw_clock w -> upgrade_life written w w'.

Section Kept.
Context (rel : Content -> Content -> Prop) (rel_refl : forall s, rel s s) (rel_trans : forall s t u, rel s t -> rel t u -> rel s u)
  (rel_recipe : forall run s c evidence, recipe_Verify run s c = Ok evidence -> rel s c).
Notation tabled := (fun _ : Content => True).
Notation Inv := (CompactionSafe.Inv P rel tabled false).
Notation good := (CompactionSafe.good P rel tabled false).
Notation ready := (CompactionSafe.ready P rel tabled false).
Notation safe := (CompactionSafe.safe json_len P rel tabled false).
Notation sound := (CompactionSafe.sound P rel tabled false).

Tactic Notation "look" simple_intropattern(b) simple_intropattern(Hb) :=
  apply sound_call; [exact rel_refl|reflexivity|assumption|reflexivity|intros b Hb].

Lemma forward w run : good w run -> ru_phase run <> RollbackSwapIntent.
Proof using. intros Hg. by apply (good_phase _ _ _ _ _ _ Hg). Qed.
Lemma good_evidence w run evidence : good w run -> good w (set_evidence run evidence).
Proof using. intros Hg. apply (good_same P rel tabled false w run); [done..| |done]. intros _. by apply forward in Hg. Qed.
Lemma good_retention w run approval : good w run -> good w (set_retention run approval).
Proof using. intros Hg. apply (good_same P rel tabled false w run); [done..| |done]. intros _. by apply forward in Hg. Qed.
Lemma advance_good w run phase : Inv w -> good w run -> phase <> RollbackSwapIntent -> safe (advance run phase) (fun next w' => good w' next) w.
Proof using rel_refl. intros Hi Hg Hp. eapply safe_weaken; [|by apply advance_safe]. by intros next w' _ (_ & ? & _). Qed.
Lemma advance_ready' w run phase : Inv w -> ready w run -> phase <> RollbackSwapIntent -> safe (advance run phase) (fun next w' => ready w' next) w.
Proof using rel_refl. intros Hi (Hg & Hf & _) Hp. eapply safe_weaken; [|by apply advance_ready]. by intros next w' _ [? _]. Qed.

(** ** Preparing *)

Lemma recipe_build_safe w run : Inv w -> ready w run ->
  safe (call (OpRecipeBuild run) plain (fun _ => advance run CopyComplete)) (fun next w' => ready w' next) w.
Proof using rel_refl rel_trans.
  intros Hi (Hg & Hf & Hp).
  assert (Hop : sound w (snd (run_op unit (OpRecipeBuild run) w)) /\ still P w (snd (run_op unit (OpRecipeBuild run) w))).
  { cbn. destruct (read w _ _); cbn [snd]; [apply vacuum_inv; [done..|by eapply candidate_ne]|split; [by apply sound_refl|done]]. }
  destruct Hop as [Hs Hst]. apply (safe_call_write _ _ _ _ _ rel_refl _ _ _ (still P w)); [done|done|done|done|done|].
  intros u w' (Hi' & _ & Hgw) Hst' _ _. apply advance_ready'; [done| |done]. split_and!; [by apply Hgw| |done].
  intros He. by apply (fenced_still P w w'), Hf.
Qed.
Lemma recipe_verified (w : World) run evidence f c : fst (run_op CandidateEvidence (OpRecipeVerify run) w) = Ok evidence ->
  cw_files w !! ru_source_path run = Some f -> cw_files w !! ru_candidate_path run = Some c -> rel (sf_data f) (sf_data c).
Proof using rel_recipe.
  intros Hv Hf Hc. assert (Hr : read2 w (ru_source_path run) (ru_candidate_path run) (recipe_Verify run) = Ok evidence) by exact Hv.
  revert Hr. unfold read2, read. rewrite Hf, Hc. destruct (sf_regular f); [|done]. destruct (sf_regular c); [|done]. apply rel_recipe.
Qed.
Lemma recipe_verify_safe w run : Inv w -> good w run -> fenced P w run ->
  safe (call (OpRecipeVerify run) plain (fun evidence =>
    bind (FenceCandidate (set_evidence run evidence)) (fun r => match r with Ok fenced => advance fenced CandidateVerified | Err e => Ret (Err e) end)))
    (fun next w' => ready w' next) w.
Proof using rel_refl rel_recipe.
  intros Hi Hg Hfe. look evidence Hv. eapply safe_then; [apply FenceCandidate_safe; [done|done|by apply good_evidence|done|]|].
  - intros f c Hf Hc. apply (recipe_verified w run evidence); [done| |done]. by rewrite (good_source _ _ _ _ _ _ Hg).
  - intros next w' Hi' [-> Hgn]. eapply safe_weaken; [|by apply advance_safe].
    intros next' w'' _ (Hs & Hgn' & E1 & _ & E3' & Ht). split_and!; [done|by rewrite E3'|by rewrite E3'].
Qed.
Ltac at_prepare := cbv beta iota delta [prepare_action String.eqb Ascii.eqb Bool.eqb].
(** An action that is not one of preparation. *)
Ltac past Hn phase := destruct (_ =?s phase); [injection Hn as <-; at_prepare; by apply safe_err|].
Lemma prepare_action_safe w run action : Inv w -> ready w run -> NextAction run = Ok action ->
  safe (prepare_action action run) (fun next w' => ready w' next) w.
Proof using rel_refl rel_trans rel_recipe.
  intros Hi Hr Hn. pose proof Hr as (Hg & Hf & Hp). unfold NextAction in Hn.
  destruct (ru_phase run =?s Planned); [injection Hn as <-; at_prepare|].
  { apply (then_advance json_len P rel tabled false rel_refl w run); try done. eapply safe_weaken; [|by apply Recheck_safe]. by intros u w' _ [-> _]. }
  destruct (_ || _); [injection Hn as <-; at_prepare; by apply prepare_safe|].
  destruct (ru_phase run =?s CandidatePrepared); [injection Hn as <-; at_prepare|].
  { look u _. look v _. by apply recipe_build_safe. }
  destruct (ru_phase run =?s CopyComplete); [injection Hn as <-; at_prepare; by apply advance_ready'|].
  destruct (ru_phase run =?s CandidateSyncIntent); [injection Hn as <-; at_prepare; look u _; by apply advance_ready'|].
  destruct (ru_phase run =?s CandidateSynced); [injection Hn as <-; at_prepare; by apply advance_ready'|].
  destruct (ru_phase run =?s ScrubInProgress) eqn:E7; [injection Hn as <-; at_prepare|].
  { apply String.eqb_eq in E7. apply recipe_verify_safe; [done|done|]. apply Hf. by rewrite E7. }
  past Hn CandidateVerified. past Hn SwapIntent. past Hn Swapped. past Hn RollbackPublishIntent. past Hn RollbackReady. past Hn Committed. done.
Qed.
Lemma prepare_loop_safe fuel : forall w run, Inv w -> ready w run -> safe (prepare_loop fuel run) (fun next w' => good w' next) w.
Proof using rel_refl rel_trans rel_recipe.
  induction fuel as [|fuel IH]; intros w run Hi Hr; cbn [prepare_loop]; destruct (ru_phase run =?s CandidateVerified);
    try (by apply safe_ok; [done|apply Hr]); [by apply safe_err|].
  destruct (NextAction run) as [action|e] eqn:En; [|by apply safe_err]. eapply safe_then; [by apply prepare_action_safe|]. intros next w' Hi' Hr'. by apply IH.
Qed.
Lemma recover_preparation_action_safe w run obs a : Inv w -> ready w run ->
  safe (recover_preparation_action run obs a) (fun next w' => ready w' next) w.
Proof using rel_refl.
  intros Hi Hr. pose proof Hr as (Hg & Hf & Hp). unfold recover_preparation_action.
  destruct (a =?s "record_copy_retry_intent"); [by apply advance_ready'|]. destruct (a =?s "remove_owned_partial_candidate").
  { eapply safe_then; [by apply Recheck_safe|]. intros u w' Hi' [-> _]. eapply safe_then; [by apply RemoveOwned_safe|]. intros v w' Hi'' [Hst Hg'].
    apply safe_ok; [done|]. split_and!; [done| |done]. intros He. by apply (fenced_still P w w' run), Hf. }
  destruct (a =?s "record_copy_complete"); [by apply advance_ready'|by apply safe_err].
Qed.
Lemma recover_preparation_actions_safe obs actions : forall w run, Inv w -> ready w run ->
  safe (recover_preparation_actions run obs actions) (fun next w' => ready w' next) w.
Proof using rel_refl.
  induction actions as [|a actions IH]; intros w run Hi Hr; cbn [recover_preparation_actions]; [by apply safe_ok|].
  eapply safe_then; [by apply recover_preparation_action_safe|]. intros next w' Hi' Hr'. by apply IH.
Qed.
Lemma recoverPreparation_safe w run : Inv w -> good w run -> safe (recoverPreparation run) (fun next w' => ready w' next) w.
Proof using rel_refl.
  intros Hi Hg. unfold recoverPreparation. eapply safe_then; [by apply Observe_safe|]. intros seen w' Hi' [-> Ho].
  eapply (safe_then _ _ _ _ _ _ _ (fun obs w' => w' = w /\ (original (ob_orientation obs) = true -> fenced P w run))).
  - destruct (_ && _); [|by apply safe_ok]. look c _. by apply safe_ok.
  - intros obs w' _ [-> Ho']. destruct (RecoveryActions run obs) as [actions|e] eqn:Er; [|by apply safe_err].
    destruct (RecoveryActions_cases _ _ _ Er (forward _ _ Hg)) as [He _]. apply recover_preparation_actions_safe; [done|].
    split_and!; [done|by auto|by eapply forward].
Qed.

(** ** Publishing *)

Lemma publish_one w run phase : Inv w -> good w run -> phase <> RollbackSwapIntent ->
  safe (bind (RejectRetiredSearchIndex run) (fun r => match r with Err e => Ret (Err e) | Ok _ =>
    bind (Exchange run) (fun r => match r with Ok _ => advance run phase | Err e => Ret (Err e) end) end)) (fun next w' => good w' next) w.
Proof using rel_refl.
  intros Hi Hg Hp. eapply safe_then; [by apply RejectRetiredSearchIndex_safe|]. intros u w' Hi' ->.
  eapply safe_then; [apply Exchange_safe; [done|done|done|done|]; by intros E%(forward _ _ Hg)|]. intros v w'' Hi'' Hg''. by apply advance_good.
Qed.
Lemma publish_action_safe w run action : Inv w -> good w run -> safe (publish_action action run) (fun next w' => good w' next) w.
Proof using rel_refl.
  intros Hi Hg. unfold publish_action. destruct (action =?s "exchange"); [by apply publish_one|].
  destruct (action =?s "record_publish_intent"); [by apply advance_good|]. destruct (action =?s "publish_rollback").
  { eapply safe_then; [by apply PublishRollback_safe|]. intros u w' Hi' [[_ Hg'] _]. by apply advance_good. }
  destruct (action =?s "commit"); [by apply advance_good|by apply safe_err].
Qed.
Lemma publish_loop_safe fuel : forall w run, Inv w -> good w run -> safe (publish_loop fuel run) (fun next w' => good w' next) w.
Proof using rel_refl.
  induction fuel as [|fuel IH]; intros w run Hi Hg; cbn [publish_loop]; destruct (ru_phase run =?s Committed); try (by apply safe_ok); [by apply safe_err|].
  destruct (NextAction run) as [action|e]; [|by apply safe_err]. eapply safe_then; [by apply publish_action_safe|]. intros next w' Hi' Hg'. by apply IH.
Qed.
Lemma executeRecovery_safe w run obs a : Inv w -> good w run -> safe (executeRecoveryAction run obs a) (fun next w' => good w' next) w.
Proof using rel_refl.
  intros Hi Hg. assert (He : forall w, Inv w -> good w run -> safe (bind (Exchange run) (fun r => match r with Ok _ => Ret (Ok run) | Err e => Ret (Err e) end))
    (fun next w' => good w' next) w).
  { intros w1 Hi1 Hg1. eapply safe_then; [apply Exchange_safe; [done|done|done|done|]; by intros E%(forward _ _ Hg1)|]. intros v w2 Hi2 Hg2. by apply safe_ok. }
  unfold executeRecoveryAction. destruct (a =?s "sync_recovered_orientation").
  { eapply safe_then; [by apply SyncRecovered_safe|]. intros u w' Hi' ->. by apply safe_ok. }
  destruct (a =?s "exchange").
  { eapply safe_then; [by apply RejectRetiredSearchIndex_safe|]. intros u w' Hi' ->. by apply He. }
  destruct (a =?s "rollback_exchange"); [by apply He|]. destruct (a =?s "publish_rollback").
  { eapply safe_then; [by apply PublishRollback_safe|]. intros u w' Hi' [[_ Hg'] _]. by apply safe_ok. }
  unfold phaseForPreparedRecoveryAction, phaseForRecoveryAction. clear He. repeat destruct (a =?s _); by first [apply advance_good|apply safe_err].
Qed.
Lemma execute_recovery_actions_safe obs actions : forall w run, Inv w -> good w run ->
  safe (execute_recovery_actions run obs actions) (fun next w' => good w' next) w.
Proof using rel_refl.
  induction actions as [|a actions IH]; intros w run Hi Hg; cbn [execute_recovery_actions]; [by apply safe_ok|].
  eapply safe_then; [by apply executeRecovery_safe|]. intros next w' Hi' Hg'. by apply IH.
Qed.
Lemma publishLeased_safe w run started : Inv w -> good w run -> safe (publishLeased run started) (fun _ _ => True) w.
Proof using rel_refl.
  intros Hi Hg. unfold publishLeased. eapply safe_then; [by apply publish_loop_safe|]. intros next w' Hi' Hg'.
  eapply safe_then; [by apply Observe_safe|]. intros obs w'' Hi'' _. apply safe_read; [done|done|done|]. intros r _. by apply safe_ok.
Qed.
Lemma RecheckForPublish_safe w run : Inv w -> safe (RecheckForPublish run) (fun _ w' => w' = w) w.
Proof using rel_refl.
  intros Hi. unfold RecheckForPublish. look u1 _. look u2 _. look u3 _. look u4 _. look u5 _. look source _. look candidate _.
  destruct (_ || _ || _); [by apply safe_err|]. apply safe_read; [done|done|done|]. intros [i|e] _; [by apply safe_err|].
  destruct (os_IsNotExist e); [by apply safe_ok|by apply safe_err].
Qed.
Lemma recoverAndPublish_safe w held run : Inv w -> good w run -> safe (recoverAndPublish P held run) (fun _ _ => True) w.
Proof using rel_refl.
  intros Hi Hg. unfold recoverAndPublish. eapply (safe_then _ _ _ _ _ _ _ (fun next w' => good w' next)).
  { destruct (_ =?s _); [by apply advance_good|by apply safe_ok]. }
  intros next w1 Hi1 Hg1. set (k := with_now _).
  assert (Hk : safe k (fun _ _ => True) w1); [|by unfold acquireExclusiveSkippingIfHeld; destruct held; [|look u _]]. subst k.
  apply safe_read; [done|done|done|]. intros t _. eapply safe_then; [by apply Observe_safe|]. intros obs w' _ [-> _].
  eapply (safe_then _ _ _ _ _ _ _ (fun _ w' => w' = w1)); [destruct (_ && _); [by apply RecheckForPublish_safe|by apply safe_ok]|].
  intros u w' _ ->. destruct (RecoveryActions next obs) as [actions|e]; [|by apply safe_err].
  eapply safe_then; [by apply execute_recovery_actions_safe|]. intros last w' Hi' Hg'. by apply publishLeased_safe.
Qed.
Lemma resume_upgrade_safe w held run : Inv w -> good w run -> safe (resume_upgrade P held run) (fun _ _ => True) w.
Proof using rel_refl rel_trans rel_recipe.
  intros Hi Hg. unfold resume_upgrade. destruct (isPreparationPhase _); [|by apply recoverAndPublish_safe].
  eapply safe_then; [by apply recoverPreparation_safe|]. intros next w1 Hi1 Hr1. eapply safe_then; [by apply prepare_loop_safe|].
  intros last w2 Hi2 Hg2. by apply recoverAndPublish_safe.
Qed.

(** ** Planning and finding *)

Lemma planned_good w run f sum resources : Inv w -> cw_files w !! P = Some f -> ru_source_path run = P -> ru_candidate run = StoreFileIdentity_zero ->
  (exists s id, s <> "" /\ ru_candidate_path run = P +:+ s +:+ id) -> (exists id, ru_rollback_path run = P +:+ ".rollback-" +:+ id) ->
  ru_phase run = Planned -> good w (set_planned run (sf_id f) sum resources).
Proof using.
  intros Hi Hf Es Ec Hc Hr Hp. pose proof (inv_stamps _ _ _ _ _ Hi _ _ Hf) as Hst. split; [done|done|done|done|by apply Hst| | |done|intros _; cbn; by rewrite Hp].
  - unfold old. cbn. rewrite Ec. cbn. lia.
  - intros p q f' g _ Hq _ E. pose proof (inv_stamps _ _ _ _ _ Hi _ _ Hq) as Hst'. rewrite E in Hst'. cbn in Hst'. rewrite Ec in Hst'. cbn in Hst'. lia.
Qed.
Lemma Plan_upgrade_safe w command : Inv w -> TargetPath command = P ->
  safe (Plan_upgrade CallerHoldsExclusiveLease P command) (fun run w' => ready w' run) w.
Proof using rel_refl.
  intros Hi Et. unfold Plan_upgrade. destruct (_ || _ || _ || _); [by apply safe_err|].
  apply (safe_call_write _ _ _ _ _ rel_refl _ _ _ (fun _ => True)); [done|done| |done|done|].
  { cbn. destruct (cw_draws w); cbn [snd]; [by apply sound_refl|by apply inv_alike]. }
  intros id w1 (Hi1 & _ & _) _ _ _. apply safe_read; [done|done|done|]. intros t _. look digest _.
  eapply safe_then; [by apply Plan_files_safe|]. intros planned w2 Hi2 (-> & f & sum & resources & Hf & ->).
  set (base := set_planned _ (sf_id f) sum resources).
  assert (Hb : good w1 base).
  { apply planned_good; [done|done|done|done| | |done]; cbn; rewrite Et.
    - destruct (_ =?s _); [by exists ".upgrade-", id|by exists ".compact-", id].
    - destruct (_ =?s _); [by exists ("upgrade-" +:+ id)|by exists id]. }
  set (approved := match uc_UnavailableRetentionApproval command with Some _ => _ | None => _ end).
  assert (Hg : good w1 approved /\ ru_source approved = sf_id f /\ ru_phase approved = Planned).
  { subst approved. destruct (uc_UnavailableRetentionApproval command); split_and!; [by apply good_retention|done..]. }
  destruct Hg as (Hg & Es & Ep). clearbody approved.
  destruct (Create_inv json_len P rel tabled false rel_refl w1 approved Hi1 Hg) as (Hsc & Ef & Ec).
  apply (safe_call_write _ _ _ _ _ rel_refl _ _ _ (fun w' => cw_files w' = cw_files w1)); [done|done|done|done|done|].
  intros u w2 (Hi2' & _ & Hg2) Ef2 _ _. apply safe_ok; [done|]. split_and!; [by apply Hg2| |by rewrite Ep]. intros _. exists f. by rewrite Ef2.
Qed.
Lemma load_safe {A} w id (k : CompactionRun -> storer (result A)) Q : Inv w ->
  (forall run, good w run -> safe (k run) Q w) -> safe (load P id k) Q w.
Proof using rel_refl.
  intros Hi Hk. unfold load. look run Hl. destruct (_ || _ || _); [by apply safe_err|]. apply Hk. by apply (Load_good json_len P rel tabled false w id).
Qed.
Lemma find_active_safe w operation target binding ids : forall found, Inv w -> (forall run, found = Some run -> good w run) ->
  safe (find_active operation target binding found ids) (fun run w' => w' = w /\ good w run) w.
Proof using rel_refl.
  induction ids as [|id ids IH]; intros found Hi Hf; cbn [find_active].
  - destruct found as [run|]; [apply safe_ok; [done|split; [done|by apply Hf]]|by apply safe_err].
  - look u _. look n _. destruct (_ || _); [by apply safe_err|]. look run Hr. destruct (_ || _ || _ || _); [by apply IH|].
    destruct found; [by apply safe_err|]. apply IH; [done|]. intros run' [= <-]. by apply (Load_good json_len P rel tabled false w id).
Qed.
Lemma FindActive_safe w operation target binding : Inv w -> safe (FindActive operation target binding) (fun run w' => w' = w /\ good w run) w.
Proof using rel_refl.
  intros Hi. unfold FindActive. destruct (_ || _ || _); [by apply safe_err|]. look ids _. destruct (_ <? _); [by apply safe_err|]. by apply find_active_safe.
Qed.
Lemma RunUpgrade_safe w command : Inv w -> TargetPath command = P -> safe (RunUpgrade CallerHoldsExclusiveLease P command) (fun _ _ => True) w.
Proof using rel_refl rel_trans rel_recipe.
  intros Hi Et. unfold RunUpgrade. destruct (_ || _ || _ || _); [by apply safe_err|]. look u _. set (afresh := bind (Plan_upgrade _ _ _) _).
  assert (Ha : forall w, Inv w -> safe afresh (fun _ _ => True) w).
  { intros w1 Hi1. eapply safe_then; [by apply Plan_upgrade_safe|]. intros planned w2 Hi2 Hr2. eapply safe_then; [by apply prepare_loop_safe|].
    intros prepared w3 Hi3 Hg3. by apply recoverAndPublish_safe. }
  apply secures_bind; [done|]. eapply secures_weaken; [|by apply FindActive_safe]. intros [run|e] w' [Hi' Hq].
  - destruct Hq as [-> Hg]. destruct (negb _); [by apply resume_upgrade_safe|by apply Ha].
  - destruct (is_not_exist e); [by apply Ha|by apply safe_err].
Qed.

(** ** Every history *)

Lemma serve_upgrade_safe w q : Inv w -> targets q P -> secures run_op eq sound (serve_upgrade q) (fun _ _ => True) w.
Proof using rel_refl rel_trans rel_recipe.
  intros Hi Hq. assert (Hout : forall A (p : storer (result A)) Q, safe p Q w -> secures run_op eq sound (outcome p) (fun _ _ => True) w).
  { intros A p Q Hsafe. apply secures_bind; [done|]. eapply secures_weaken; [|exact Hsafe]. intros r t _. destruct r; by intros ? <-. }
  destruct q as [command|command|id|id]; cbn [serve_upgrade]; eapply Hout.
  - by apply RunUpgrade_safe.
  - by apply Plan_upgrade_safe.
  - apply (load_safe w id _ (fun _ _ => True)); [done|]. intros run Hg. destruct (_ <>?s _); [by apply safe_err|by apply recoverAndPublish_safe].
  - apply (load_safe w id _ (fun _ _ => True)); [done|]. intros run Hg. by apply resume_upgrade_safe.
Qed.
Lemma upgrade_history written w w' : (forall s t, written s t -> rel s t) -> Inv w -> star (upgrade_life written) w w' -> Inv w' /\ kept P rel w w'.
Proof using rel_refl rel_trans rel_recipe.
  intros Hw Hi Hs. induction Hs as [w|w w1 w2 Hl _ IH]; [split; [done|by apply kept_refl]|].
  assert (Hs : sound w w1).
  { destruct Hl as [w q w1 Hq Hint|w f d Hf Hrel|w w1 Ef Ej Ec].
    - eapply interrupted_safe; [done|done|by apply serve_upgrade_safe|done|exact Hint].
    - apply rewrite_inv; [done|done|done|]. intros _ f' Hf'. assert (f' = f) as -> by congruence. by apply Hw.
    - by apply inv_alike. }
  destruct Hs as (Hi1 & Hk1 & _). destruct (IH Hi1) as [Hi2 Hk2]. split; [done|by eapply kept_trans].
Qed.
End Kept.
End Safe.
