(* ===== verification/UpgradeKept.v ===== *)
(** * What the offline upgrade guarantees, and where it stops

    The theorem of [UpgradeSafe] for what a store holds, the loops of the
    upgrade always end, and histories, evaluated, on which the command does
    not do what it is for. *)

From S2P Require Import Prelude GoStrings GoOs GoTime Upgrade Interleaving StoreContent StoreFiles Compaction StoreCopy StoreCompaction CompactionSafe CompactionKept CompactionExamples StoreUpgrade UpgradeSafe.

(** ** The loops *)

(** One action of a loop, on the run of a known phase. *)
Ltac leads_on E Hr :=
  apply String.eqb_eq in E; rewrite E; cbv beta iota delta [prepare_action publish_action rollback_step String.eqb Ascii.eqb Bool.eqb] in Hr;
  repeat first [apply may_return_then in Hr as [? Hr] | apply may_return_call in Hr as [? Hr]]; first [done | apply advance_returns in Hr; rewrite Hr; vm_compute; lia].
Ltac each_phase Hr Hn :=
  repeat match type of Hn with
  | (if ?b then _ else _) = _ => let E := fresh "E" in destruct b eqn:E; [injection Hn as <-; (apply orb_true_iff in E as [E|E]; by leads_on E Hr) || by leads_on E Hr|]
  end; done.
Lemma prepare_progress action run next : may_return (prepare_action action run) (Ok next) -> NextAction run = Ok action ->
  (actions_left (ru_phase next) < actions_left (ru_phase run))%nat.
Proof. intros Hr Hn. unfold NextAction in Hn. each_phase Hr Hn. Qed.
Lemma publish_progress action run next : may_return (publish_action action run) (Ok next) -> NextAction run = Ok action ->
  (actions_left (ru_phase next) < actions_left (ru_phase run))%nat.
Proof. intros Hr Hn. unfold NextAction in Hn. each_phase Hr Hn. Qed.
(** How many steps a rollback has left, at most. *)
Definition rollbacks_left (p : string) : nat :=
  match list_find (fun x => x = p) [RolledBack; RollbackSwapped; RollbackSwapIntent; Committed; RollbackReady; RollbackPublishIntent; Swapped] with
  | Some (i, _) => i
  | None => 6
  end.
Lemma rollback_progress run next : may_return (rollback_step run) (Ok next) -> (rollbacks_left (ru_phase next) < rollbacks_left (ru_phase run))%nat.
Proof.
  intros Hr. unfold rollback_step in Hr. destruct (ru_phase run =?s Swapped) eqn:E1; [by leads_on E1 Hr|].
  destruct (ru_phase run =?s RollbackPublishIntent) eqn:E2; [by leads_on E2 Hr|].
  destruct (_ || _) eqn:E3; [apply orb_true_iff in E3 as [E3|E3]; by leads_on E3 Hr|].
  destruct (ru_phase run =?s RollbackSwapIntent) eqn:E4; [by leads_on E4 Hr|].
  destruct (ru_phase run =?s RollbackSwapped) eqn:E5; [by leads_on E5 Hr|done].
Qed.

(** The loops of the upgrade end: with more turns they make the same calls and
    return the same. *)
Theorem upgrade_loops_terminate run n :
  same_prog (prepare_loop (apply_fuel + n) run) (prepare run) /\
  same_prog (publish_loop (apply_fuel + n) run) (publish_loop apply_fuel run) /\
  same_prog (rollback_loop (rollback_fuel + n) run) (rollback_loop rollback_fuel run).
Proof.
  split_and!.
  - by apply (decided_loop CandidateVerified prepare_action prepare_loop); [exact prepare_progress|].
  - by apply (decided_loop Committed publish_action publish_loop); [exact publish_progress|].
  - apply (loop_enough RolledBack rollback_step rollback_loop rollbacks_left); [done|by intros run' next _; apply rollback_progress| |lia].
    unfold rollbacks_left, rollback_fuel. destruct (list_find _ _) as [[i x]|] eqn:E; [|lia].
    apply list_find_Some in E as (E & _). apply lookup_lt_Some in E. cbn [length] in E. lia.
Qed.

(** ** What the store holds *)

(** A write, or a candidate that the recipe verified against what it replaces. *)
Inductive accounted {Rest} `{Recipe Rest} (written : Content Rest -> Content Rest -> Prop) : Content Rest -> Content Rest -> Prop :=
| accounted_write s t : written s t -> accounted written s t
| accounted_upgrade run s t evidence : recipe_Verify run s t = Ok evidence -> accounted written s t.

(** (C14) An upgrade publishes only what was verified.  Over any history of
    upgrades, each of which may fail or die at any of its calls and be taken up
    again, with any writes of other processes between them: the store file is
    always there, a regular file, and whatever it holds came from what it held
    before by those writes and by candidates that the recipe verified against
    exactly the content they took the place of; so no write is lost that the
    verification does not let go. *)
Theorem upgrade_publishes_verified {Rest} `{Engine Rest} `{Recipe Rest} json_len held P written (w0 w w' : World (Content Rest)) f :
  fresh P w0 ->
  star (upgrade_life json_len held P written) w0 w -> star (upgrade_life json_len held P written) w w' ->
  cw_files w !! P = Some f ->
  exists f', cw_files w' !! P = Some f' /\ sf_regular f' = true /\ star (accounted written) (sf_data f) (sf_data f').
Proof.
  intros Hf H1 H2 Hw. set (tabled := fun _ : Content Rest => True).
  assert (Hs : forall w w', Inv P (star (accounted written)) tabled false w -> star (upgrade_life json_len held P written) w w' ->
    Inv P (star (accounted written)) tabled false w' /\ kept P (star (accounted written)) w w').
  { intros v v' Hi Hv. apply (upgrade_history json_len held P (star (accounted written))) with (written := written);
      [by constructor|by apply star_trans|by intros run s c evidence Hr; eapply star_one, accounted_upgrade|by intros s t Hst; apply star_one, accounted_write|done|done]. }
  pose proof (fresh_inv P (star (accounted written)) tabled false w0 (fun _ _ => I) Hf) as Hi.
  destruct (Hs _ _ Hi H1) as [Hi1 _]. destruct (Hs _ _ Hi1 H2) as [_ Hk]. destruct (Hk f Hw) as (f' & Hf' & Hr & Hrel).
  destruct (inv_store _ _ _ _ _ Hi1) as (f0 & Hf0 & Hr0 & _). exists f'. split_and!; [done|congruence|done].
Qed.

(** ** Histories *)

Definition ex_command : UpgradeCommand :=
  mkUpgradeCommand OperationOfflineMigrationUpgrade ex_store "traceary-doctor-offline-upgrade" (mkBudget 1 1 1 1 1 0) None None.
Definition ex_run_upgrade (w : World (Content unit)) : result unit * World (Content unit) :=
  alone (store_run ex_len) (serve_upgrade true ex_store (UpRun ex_command)) w.
Definition ex_upgrade_die (n : nat) (w : World (Content unit)) : World (Content unit) :=
  snd (steps (store_run ex_len) n (serve_upgrade true ex_store (UpRun ex_command)) w).

(** An upgrade that nothing disturbs commits, and keeps the old file. *)
Definition ex_upgraded : World (Content unit) := snd (ex_run_upgrade ex_world).
Example upgrade_commits :
  fst (ex_run_upgrade ex_world) = Ok tt /\ ex_phase "a" ex_upgraded = Some Committed /\
  ex_content_at (ex_store +:+ ".rollback-upgrade-" +:+ ex_run_id "a") ex_upgraded = ex_content.
Proof. vm_compute. by split_and!. Qed.

(** The third upgrade of a store is refused, and so is every later one: the
    lookup of an active run counts the committed ones. *)
Example third_upgrade_ambiguous :
  let again := ex_run_upgrade ex_upgraded in
  fst again = Ok tt /\ ex_phase "b" (snd again) = Some Committed /\
  fst (ex_run_upgrade (snd again)) = Err ambiguous_active /\
  map fst (map_to_list (cw_journal (snd (ex_run_upgrade (snd again))))) = map fst (map_to_list (cw_journal (snd again))).
Proof. vm_compute. by split_and!. Qed.

(** An upgrade that dies before its exchange, in whatever phase, followed by a
    write: no later upgrade succeeds, and there is no command that abandons
    the run. *)
Definition ex_upgrade_stuck (n : nat) : bool :=
  let w := ex_write "e3" (ex_upgrade_die n ex_world) in
  let again := ex_run_upgrade w in
  bool_decide (fst again = Err (Errorf "unknown compaction file orientation" []))
  && bool_decide (fst (ex_run_upgrade (snd again)) = Err (Errorf "unknown compaction file orientation" [])).
Example interrupted_upgrade_stuck :
  map (fun n => ex_phase "a" (ex_upgrade_die n ex_world)) [16; 24; 31; 36; 38; 41; 43; 51; 53]%nat =
    map Some [Planned; CopyIntent; CandidatePrepared; CopyComplete; CandidateSyncIntent; CandidateSynced; ScrubInProgress; CandidateVerified; SwapIntent] /\
  forallb ex_upgrade_stuck [16; 24; 31; 36; 38; 41; 43; 51; 53]%nat = true.
Proof. vm_compute. by split. Qed.

(** The preflight of an upgrade asks for four copies of the store, with the
    reserve and the margin, beside the store itself. *)
Definition ex_big (available : Z) : World (Content unit) :=
  mkWorld {[ ex_store := mkStoreFile (mkFileIdentity 1 1 1000000000 1 384 1) true ex_content ]} ∅ 10 1 available UnixEpoch [repeat "a"%char 16] [].
Example upgrade_asks_for_four_copies :
  fst (alone (store_run ex_len) (Plan_upgrade true ex_store ex_command) (ex_big 4100000000)) =
    Err (insufficientCompactionSpaceError 4167108864 4100000000 1000000000) /\
  is_ok (fst (alone (store_run ex_len) (Plan_upgrade true ex_store ex_command) (ex_big 4167108864))) = true.
Proof. vm_compute. by split. Qed.

(** ** Witness *)

Definition ex_written (s t : Content unit) : Prop := dom (events s) ⊆ dom (events t).
Definition ex_upgraded_later : World (Content unit) := ex_write "e3" ex_upgraded.
Definition ex_upgraded_twice : World (Content unit) := snd (ex_run_upgrade ex_upgraded_later).
Lemma ex_upgrade_step w : star (upgrade_life ex_len true ex_store ex_written) w (snd (ex_run_upgrade w)).
Proof. apply star_one. apply (up_invoke _ _ _ _ _ (UpRun ex_command)); [done|apply alone_interrupted]. Qed.
Lemma ex_upgraded_some : is_Some (cw_files ex_upgraded !! ex_store).
Proof. apply (bool_decide_eq_true_1 (is_Some (cw_files ex_upgraded !! ex_store))). vm_compute. reflexivity. Qed.
Lemma ex_write_step : star (upgrade_life ex_len true ex_store ex_written) ex_upgraded ex_upgraded_later.
Proof.
  destruct ex_upgraded_some as [f Hf]. apply star_one. apply (up_write _ _ _ _ _ f); [exact Hf|]. unfold ex_content_at. rewrite Hf.
  unfold ex_written, events at 2. simpl. rewrite dom_insert. apply union_subseteq_r.
Qed.
Definition ex_upgraded_file : StoreFile (Content unit) := default (mkStoreFile StoreFileIdentity_zero false blank) (cw_files ex_upgraded_later !! ex_store).
Lemma ex_upgraded_store : cw_files ex_upgraded_later !! ex_store = Some ex_upgraded_file.
Proof. vm_compute. reflexivity. Qed.
Lemma upgrade_publishes_verified_witness :
  exists f', cw_files ex_upgraded_twice !! ex_store = Some f' /\ sf_regular f' = true /\
    star (accounted ex_written) (sf_data ex_upgraded_file) (sf_data f').
Proof.
  exact (upgrade_publishes_verified ex_len true ex_store ex_written ex_world ex_upgraded_later ex_upgraded_twice ex_upgraded_file ex_fresh
    (star_trans _ _ _ _ (ex_upgrade_step ex_world) ex_write_step) (ex_upgrade_step ex_upgraded_later) ex_upgraded_store).
Defined.
