(* ===== verification/SpoolFiles.v ===== *)
(** * The files of the hook spool

    The directory in which a hook keeps its invocation until it is committed
    ([src/presentation/cli/hook_spool.go], [hook_spool_file_nofollow.go]): the
    record and its JSON text, the names of the files, and the system calls the
    spool makes.  Each call is atomic; a call may fail before or after it took
    effect ([Interleaving]).  Names are relative to the directory; the names
    under [dead/] are its subdirectory. *)

From stdpp Require Import sorting.
From S2P Require Import Prelude GoStrings GoOs Ordering GoTime GoTimeText Truncation.

(** ** Records *)

Definition hookSpoolSchemaVersion : Z := 1.
Record hookSpoolRecord := mkSpoolRecord {
  SchemaVersion : Z; Command : string; Client : string; Action : string; DBPath : string; Payload : string;
  CreatedAt : Time; ReceiptID : string; ResolvedWorkspace : option string; WorkspaceCaptureFailed : bool;
  AttemptCount : Z; LastError : string; Path : string }.
#[global] Instance Time_eq_dec : EqDecision Time.
Proof. solve_decision. Defined.
#[global] Instance hookSpoolRecord_eq_dec : EqDecision hookSpoolRecord.
Proof. solve_decision. Defined.

(** What [encoding/json] leaves of a Go string: a byte that is not part of a
    valid encoding becomes U+FFFD. *)
Definition replacement : list ascii := encode_rune RuneError.
Fixpoint json_go (skip : nat) (l : list ascii) : list ascii :=
  match l with
  | [] => []
  | a :: t =>
      match skip with
      | S k => a :: json_go k t
      | O => let rw := decode_rune l in
             if (fst rw =? RuneError) && (snd rw =? 1)%nat then replacement ++ json_go 0 t
             else a :: json_go (Nat.pred (snd rw)) t
      end
  end.
Definition json_string (s : string) : string := implode (json_go 0 (explode s)).

(** What a record reads back as: strings coerced, the time without its
    monotonic reading, and no path, which is not encoded. *)
Definition json_record (r : hookSpoolRecord) : hookSpoolRecord :=
  mkSpoolRecord (SchemaVersion r) (json_string (Command r)) (json_string (Client r)) (json_string (Action r))
    (json_string (DBPath r)) (json_string (Payload r)) (StripMono (CreatedAt r)) (json_string (ReceiptID r))
    (json_string <$> ResolvedWorkspace r) (WorkspaceCaptureFailed r) (AttemptCount r) (json_string (LastError r)) "".
Definition set_attempt (r : hookSpoolRecord) (attempt : Z) (lastError : string) : hookSpoolRecord :=
  mkSpoolRecord (SchemaVersion r) (Command r) (Client r) (Action r) (DBPath r) (Payload r) (CreatedAt r) (ReceiptID r)
    (ResolvedWorkspace r) (WorkspaceCaptureFailed r) attempt lastError "".
Definition set_path (r : hookSpoolRecord) (path : string) : hookSpoolRecord :=
  mkSpoolRecord (SchemaVersion r) (Command r) (Client r) (Action r) (DBPath r) (Payload r) (CreatedAt r) (ReceiptID r)
    (ResolvedWorkspace r) (WorkspaceCaptureFailed r) (AttemptCount r) (LastError r) path.

(** The invocation a record stands for, whatever happened to it so far. *)
Definition event_of (r : hookSpoolRecord) : hookSpoolRecord := set_attempt (json_record r) 0 "".

(** The bytes of a file, and what [json.Unmarshal] makes of them. *)
Record content := mkContent { bytes_of : string; decoded : option hookSpoolRecord }.
Definition parsed (c : content) : option hookSpoolRecord :=
  match decoded c with
  | Some r => if SchemaVersion r =? hookSpoolSchemaVersion then Some r else None
  | None => None
  end.
Definition content_event (c : content) : option hookSpoolRecord := event_of <$> parsed c.

(** [time.Time.Format("20060102T150405.000000000Z")] of a time in UTC. *)
Definition spool_stamp (t : Time) : string :=
  let secs := local_seconds t in
  let '(y, m, d) := civil_of_days (secs / 86400) in
  let s := secs `mod` 86400 in
  pad_left 4 (FormatUint y) +:+ pad_left 2 (FormatUint m) +:+ pad_left 2 (FormatUint d)
  +:+ "T" +:+ pad_left 2 (FormatUint (s / 3600)) +:+ pad_left 2 (FormatUint ((s / 60) `mod` 60)) +:+ pad_left 2 (FormatUint (s `mod` 60))
  +:+ "." +:+ pad_left 9 (FormatUint (ns t `mod` Second)) +:+ "Z".
Example spool_stamp_epoch : spool_stamp UnixEpoch = "19700101T000000.000000000Z".
Proof. by vm_compute. Qed.

(** ** Names *)

Definition hookSpoolClaimMarker : string := ".claim-".
Definition isHookSpoolClaimFile (name : string) : bool :=
  let idx := LastIndex name hookSpoolClaimMarker in
  if idx <? 0 then false else HasSuffix (slice_to name idx) ".json".
Definition in_dead (name : string) : bool := HasPrefix name "dead/".
Definition is_tmp (name : string) : bool := HasSuffix name ".tmp".

(** What the names of one record have in common as it is published, promoted,
    claimed and rewritten: what precedes the first extension. *)
Definition json_ext : list ascii := explode ".json".
Definition inflight_ext : list ascii := explode ".inflight".
Fixpoint base_go (l : list ascii) : list ascii :=
  match l with
  | [] => []
  | a :: t => if is_prefix json_ext l || is_prefix inflight_ext l then [] else a :: base_go t
  end.
Definition base_of (name : string) : string := implode (base_go (explode name)).

(** A file that a later drain replays, or that is retained for the operator. *)
Definition tracked (name : string) : bool :=
  negb (is_tmp name) && (HasSuffix name ".json" || HasSuffix name ".inflight" || isHookSpoolClaimFile name).

(** ** The directory *)

Record File := mkFile { f_content : content; f_mtime : Time; f_regular : bool }.
Definition file_event (f : File) : option hookSpoolRecord := if f_regular f then content_event (f_content f) else None.

(** Beside the files, the clock and what [crypto/rand] will give, the state
    records for the proofs what the first file under each base name stood for,
    whether a name drawn at random was already taken, which invocations were
    committed, and which were removed from [dead/]. *)
Record Spool := mkSpool {
  sp_files : gmap string File; sp_now : Time; sp_draws : list (list ascii);
  sp_first : gmap string (option hookSpoolRecord); sp_collided : bool;
  sp_delivered : list hookSpoolRecord; sp_pruned : list hookSpoolRecord }.
Definition set_files (s : Spool) (files : gmap string File) : Spool :=
  mkSpool files (sp_now s) (sp_draws s) (sp_first s) (sp_collided s) (sp_delivered s) (sp_pruned s).
Definition set_now (s : Spool) (t : Time) : Spool :=
  mkSpool (sp_files s) t (sp_draws s) (sp_first s) (sp_collided s) (sp_delivered s) (sp_pruned s).
Definition drawn (s : Spool) (draws : list (list ascii)) : Spool :=
  mkSpool (sp_files s) (sp_now s) draws (sp_first s) (sp_collided s) (sp_delivered s) (sp_pruned s).
(** A base name is taken with what its first file stands for. *)
Definition take_base (s : Spool) (name : string) (o : option hookSpoolRecord) : Spool :=
  match sp_first s !! base_of name with
  | Some _ => s
  | None => mkSpool (sp_files s) (sp_now s) (sp_draws s) (<[base_of name := o]> (sp_first s)) (sp_collided s) (sp_delivered s) (sp_pruned s)
  end.
(** A name that was drawn must be new. *)
Definition claim_base (s : Spool) (name : string) : Spool :=
  match sp_first s !! base_of name with
  | Some _ => mkSpool (sp_files s) (sp_now s) (sp_draws s) (sp_first s) true (sp_delivered s) (sp_pruned s)
  | None => s
  end.

(** ** Errors of the random source *)

Definition ErrRandom : error := Sentinel "crypto/rand".

(** ** System calls *)

Inductive SpoolOp : Type -> Type :=
| OpNow : SpoolOp Time
| OpContext : SpoolOp unit
| OpMkdirAll (name : string) : SpoolOp unit
| OpRandom : SpoolOp string
| OpReadDir (dead : bool) : SpoolOp (list string)
| OpInfo (name : string) : SpoolOp Time
| OpLstat (name : string) : SpoolOp unit
| OpRead (name : string) : SpoolOp content
| OpWrite (name : string) (c : content) : SpoolOp unit
| OpRename (src dst : string) : SpoolOp unit
| OpRemove (name : string) : SpoolOp unit
| OpChtimes (name : string) (mtime : Time) : SpoolOp unit
(** A draw and the first use of the name it makes. *)
| OpCreate (name : string -> string) (c : content) : SpoolOp string
| OpRenameNew (src : string) (dst : string -> string) : SpoolOp string
(** The handler of an invocation. *)
| OpDeliver (r : hookSpoolRecord) : SpoolOp unit.

(** In the order of the names. *)
Definition ReadDir (s : Spool) (dead : bool) : list string :=
  merge_sort string_le (filter (fun n => in_dead n = dead) (fst <$> map_to_list (sp_files s))).
Definition Read (s : Spool) (name : string) : result content :=
  match sp_files s !! name with
  | None => Err (Wrap "failed to open hook spool record without following links: %w" [] (not_exist "openat" name))
  | Some f => if f_regular f then Ok (f_content f) else Err (Errorf "hook spool record is not a regular file" [])
  end.
Definition Write (s : Spool) (name : string) (c : content) : Spool :=
  set_files (take_base s name (content_event c)) (<[name := mkFile c (StripMono (sp_now s)) true]> (sp_files s)).
Definition Rename (s : Spool) (src dst : string) : result unit * Spool :=
  match sp_files s !! src with
  | None => (Err (link_not_exist src dst), s)
  | Some f => (Ok tt, set_files (match sp_first s !! base_of src with Some o => take_base s dst o | None => s end)
                        (<[dst := f]> (delete src (sp_files s))))
  end.
Definition Remove (s : Spool) (name : string) : result unit * Spool :=
  match sp_files s !! name with
  | None => (Err (not_exist "remove" name), s)
  | Some f =>
      (Ok tt, mkSpool (delete name (sp_files s)) (sp_now s) (sp_draws s) (sp_first s) (sp_collided s) (sp_delivered s)
         (match sp_first s !! base_of name with
          | Some (Some e) => if in_dead name then e :: sp_pruned s else sp_pruned s
          | _ => sp_pruned s
          end))
  end.
Definition Chtimes (s : Spool) (name : string) (mtime : Time) : result unit * Spool :=
  match sp_files s !! name with
  | None => (Err (not_exist "chtimes" name), s)
  | Some f => (Ok tt, set_files s (<[name := mkFile (f_content f) (StripMono mtime) (f_regular f)]> (sp_files s)))
  end.

(** The handlers are the rest of the program: a parameter. *)
Section Run.
Context (handler : hookSpoolRecord -> option error).

Definition spool_run (B : Type) (op : SpoolOp B) (s : Spool) : result B * Spool :=
  match op in SpoolOp B return result B * Spool with
  | OpNow => (Ok (sp_now s), s)
  | OpContext => (Ok tt, s)
  | OpMkdirAll _ => (Ok tt, s)
  | OpRandom => match sp_draws s with [] => (Err ErrRandom, s) | r :: draws => (Ok (EncodeToString r), drawn s draws) end
  | OpReadDir dead => (Ok (ReadDir s dead), s)
  | OpInfo name => (match sp_files s !! name with Some f => Ok (f_mtime f) | None => Err (not_exist "lstat" name) end, s)
  | OpLstat name => (match sp_files s !! name with Some _ => Ok tt | None => Err (not_exist "lstat" name) end, s)
  | OpRead name => (Read s name, s)
  | OpWrite name c => (Ok tt, Write s name c)
  | OpRename src dst => Rename s src dst
  | OpRemove name => Remove s name
  | OpChtimes name mtime => Chtimes s name mtime
  | OpCreate name c =>
      match sp_draws s with
      | [] => (Err ErrRandom, s)
      | r :: draws => let x := EncodeToString r in (Ok x, Write (claim_base (drawn s draws) (name x)) (name x) c)
      end
  | OpRenameNew src dst =>
      match sp_draws s with
      | [] => (Err ErrRandom, s)
      | r :: draws =>
          let x := EncodeToString r in
          match sp_files s !! src with
          | None => (Err (link_not_exist src (dst x)), drawn s draws)
          | Some _ => (Ok x, snd (Rename (claim_base (drawn s draws) (dst x)) src (dst x)))
          end
      end
  | OpDeliver r =>
      match handler r with
      | Some e => (Err e, s)
      | None => (Ok tt, mkSpool (sp_files s) (sp_now s) (sp_draws s) (sp_first s) (sp_collided s) (event_of r :: sp_delivered s) (sp_pruned s))
      end
  end.
End Run.

(** ** JSON strings *)

Lemma json_go_skip c k : json_go (List.length c) (c ++ k) = c ++ json_go 0 k.
Proof. induction c as [|a c IH]; [by destruct k|]. cbn. by rewrite IH. Qed.
Lemma json_go_chunk c k : rune_enc c = true -> json_go 0 (c ++ k) = c ++ json_go 0 k.
Proof.
  intros Hc. pose proof (decode_rune_chunk c k Hc) as Hd. apply rune_enc_spec in Hc as (Hne & Hn & Hp).
  destruct c as [|a c]; [done|]. cbn [app json_go]. change (a :: c ++ k) with ((a :: c) ++ k). rewrite Hd, Hn.
  unfold proper in Hp. rewrite Hn in Hp. apply negb_true_iff in Hp. rewrite Hp. cbn [Nat.pred List.length].
  by rewrite json_go_skip.
Qed.
Lemma json_go_runes cs : runes_of cs -> json_go 0 (concat cs) = concat cs.
Proof. induction 1 as [|c cs Hc _ IH]; [done|]. cbn [concat]. by rewrite json_go_chunk, IH. Qed.
Lemma json_go_valid l : exists cs, json_go 0 l = concat cs /\ runes_of cs.
Proof.
  remember (List.length l) as n eqn:Hn. revert l Hn. induction (lt_wf n) as [n _ IH]. intros [|a l] ->; [by exists []; split; [|constructor]|].
  destruct (decode_rune_width (a :: l)) as (Hw & _ & H1). specialize (H1 ltac:(done)).
  assert (Hrest : forall k, (List.length k < List.length (a :: l))%nat -> exists cs, json_go 0 k = concat cs /\ runes_of cs) by (intros k Hk; by eapply IH).
  cbn [json_go]. destruct (decode_rune (a :: l)) as [r w] eqn:E. cbn [fst snd] in *. destruct (_ && _) eqn:Ev.
  - destruct (Hrest l) as (cs & -> & Hcs); [cbn; lia|]. exists (replacement :: cs). split; [done|]. by constructor.
  - destruct w as [|w]; [lia|]. cbn [Nat.pred List.length] in *. destruct (Hrest (drop w l)) as (cs & Hd & Hcs); [cbn; rewrite length_drop; lia|].
    exists (take (S w) (a :: l) :: cs). split.
    + cbn [concat take app]. f_equal. rewrite <-Hd. rewrite <-(take_drop w l) at 1. assert (El : w = List.length (take w l)) by (rewrite length_take; lia).
      rewrite El at 1. apply json_go_skip.
    + constructor; [|done]. apply rune_enc_spec. assert (Ed : decode_rune (take (S w) (a :: l)) = (r, S w)).
      { pose proof (decode_rune_take (a :: l) [] ltac:(done)) as Ht. rewrite E in Ht. cbn [fst snd] in Ht. rewrite app_nil_r in Ht.
        apply Ht, negb_true_iff, Ev. }
      rewrite Ed. split_and!; [done|cbn [snd]; rewrite length_take; cbn [List.length]; lia|]. apply negb_true_iff, Ev.
Qed.
Lemma json_string_idemp s : json_string (json_string s) = json_string s.
Proof.
  unfold json_string. rewrite explode_implode. destruct (json_go_valid (explode s)) as (cs & -> & Hcs). by rewrite json_go_runes.
Qed.
Lemma json_string_id s : valid_utf8 s = true -> json_string s = s.
Proof.
  rewrite valid_utf8_bytes. intros (cs & E & Hcs)%valid_chunks. unfold json_string. rewrite E, json_go_runes, <-E by done. apply implode_explode.
Qed.

#[global] Opaque json_string.
Lemma json_record_idemp r : json_record (json_record r) = json_record r.
Proof. destruct r as [? ? ? ? ? ? ? ? [w|] ? ? ? ?]; unfold json_record; cbn; by rewrite !json_string_idemp. Qed.
Lemma event_of_json r : event_of (json_record r) = event_of r.
Proof. unfold event_of. by rewrite json_record_idemp. Qed.
Lemma event_of_attempt r n e : event_of (set_attempt r n e) = event_of r.
Proof. done. Qed.
Lemma event_of_path r p : event_of (set_path r p) = event_of r.
Proof. done. Qed.

(** ** Names *)

(** An extension does not begin inside another. *)
Lemma is_prefix_stop p y c t : c ∉ p -> is_prefix p (y ++ c :: t) = is_prefix p y.
Proof.
  revert y. induction p as [|a p IH]; intros y Hc; [done|]. apply not_elem_of_cons in Hc as [Ha Hc]. destruct y as [|b y]; cbn.
  - destruct (Ascii.eqb_spec a c); [by subst|done].
  - by rewrite IH.
Qed.
Definition is_ext (m : list ascii) : Prop := m = json_ext \/ m = inflight_ext.
Lemma is_prefix_inside (d c : ascii) p a y t : forallb (fun e => negb (Ascii.eqb e c)) p = true ->
  is_prefix (d :: p) (a :: y ++ c :: t) = is_prefix (d :: p) (a :: y).
Proof.
  intros Hp. cbn. rewrite is_prefix_stop; [done|]. intros Hc. rewrite forallb_forall in Hp. specialize (Hp c ltac:(by apply list_elem_of_In)).
  by rewrite Ascii.eqb_refl in Hp.
Qed.
Lemma base_go_ext x m t m' t' : is_ext m -> is_ext m' -> base_go (x ++ m ++ t) = base_go (x ++ m' ++ t').
Proof.
  intros Hm Hm'. assert (H : forall k t0, is_ext k -> base_go (k ++ t0) = []) by (intros k t0 [->| ->]; done).
  assert (Hdot : forall k, is_ext k -> exists w, k = "."%char :: w) by (intros k [->| ->]; eexists; done).
  destruct (Hdot m Hm) as [w Ew], (Hdot m' Hm') as [w' Ew'].
  induction x as [|a x IH]; [by cbn [app]; rewrite !H|]. cbn [app base_go].
  assert (Hstop : forall k, is_ext k -> is_prefix k (a :: x ++ m ++ t) = is_prefix k (a :: x ++ m' ++ t')).
  { rewrite Ew, Ew'. cbn [app]. intros k [->| ->]; cbv [json_ext inflight_ext explode list_ascii_of_string];
      by rewrite !(is_prefix_inside "." ".") by done. }
  unfold is_ext in Hstop. rewrite (Hstop json_ext), (Hstop inflight_ext) by auto. by rewrite IH.
Qed.

Lemma base_of_ext x m t m' t' : is_ext (explode m) -> is_ext (explode m') -> base_of (x +:+ m +:+ t) = base_of (x +:+ m' +:+ t').
Proof. intros Hm Hm'. unfold base_of. rewrite !explode_app. f_equal. by apply base_go_ext. Qed.
Lemma base_of_json x t t' : base_of (x +:+ ".json" +:+ t) = base_of (x +:+ ".json" +:+ t').
Proof. apply base_of_ext; by left. Qed.
Lemma is_tmp_ends x (a : ascii) : a <> "p"%char -> is_tmp (x +:+ String a "") = false.
Proof.
  intros Ha. unfold is_tmp, HasSuffix. rewrite explode_app, rev_app_distr. change (rev (explode (String a ""))) with [a].
  change (rev (explode ".tmp")) with ("p" :: rev (explode ".tm"))%char. cbn [app is_prefix]. by destruct (Ascii.eqb_spec "p" a); [by subst|].
Qed.
Lemma tracked_json x : tracked (x +:+ ".json") = true.
Proof.
  unfold tracked. rewrite HasSuffix_app. change ".json" with (".jso" +:+ "n"). by rewrite <-str_app_assoc, is_tmp_ends.
Qed.
Lemma tracked_inflight x : tracked (x +:+ ".inflight") = true.
Proof.
  unfold tracked. rewrite (HasSuffix_app x ".inflight"). change ".inflight" with (".infligh" +:+ "t"). rewrite <-str_app_assoc, is_tmp_ends by done.
  cbn [negb andb]. by rewrite orb_true_r.
Qed.
Lemma tracked_not_tmp n : tracked n = true -> is_tmp n = false.
Proof. unfold tracked. by intros [H%negb_true_iff _]%andb_true_iff. Qed.

(** A claim is recognised whatever was drawn for it. *)
Lemma hex_chars (c : ascii) l : hex_val c = None -> c ∉ hex_encode_bytes l.
Proof.
  intros Hc Hin. apply list_elem_of_In, in_flat_map in Hin as (a & _ & Ha). pose proof (byte_nibbles a) as [H1 H2].
  destruct Ha as [<-|[<-|[]]]; by rewrite hex_val_digit in Hc.
Qed.
Lemma last_index_missing d p l i : d ∉ l -> last_index_go (d :: p) l i = -1.
Proof.
  revert i. induction l as [|a l IH]; intros i Hd; [done|]. apply not_elem_of_cons in Hd as [Ha Hd]. cbn [last_index_go].
  rewrite IH by done. cbn [is_prefix Z.eqb]. by destruct (Ascii.eqb_spec d a).
Qed.
Lemma claim_index path bytes : LastIndex (path +:+ hookSpoolClaimMarker +:+ EncodeToString bytes) hookSpoolClaimMarker = llen (explode path).
Proof.
  unfold LastIndex, EncodeToString. rewrite !explode_app, explode_implode. apply last_index_app; [|unfold llen; lia].
  cbn [Z.add]. change (explode hookSpoolClaimMarker) with ("."%char :: explode "claim-"). apply last_index_here; [done|].
  apply last_index_missing. rewrite not_elem_of_app. split; [|by apply hex_chars].
  intros H%list_elem_of_In. by repeat destruct H as [H|H].
Qed.
Lemma claim_tracked path bytes : HasSuffix path ".json" = true -> tracked (path +:+ hookSpoolClaimMarker +:+ EncodeToString bytes) = true.
Proof.
  intros Hp. unfold tracked, isHookSpoolClaimFile. rewrite claim_index. destruct (Z.ltb_spec (llen (explode path)) 0); [unfold llen in *; lia|].
  rewrite slice_to_app, Hp, !orb_true_r, andb_true_r. apply negb_true_iff. unfold is_tmp, HasSuffix.
  rewrite !explode_app, !rev_app_distr. unfold EncodeToString. rewrite explode_implode.
  destruct (rev (hex_encode_bytes bytes)) as [|a t] eqn:E; [done|].
  change (rev (explode ".tmp")) with ("p" :: rev (explode ".tm"))%char. cbn [app is_prefix]. destruct (Ascii.eqb_spec "p" a) as [<-|]; [|done].
  exfalso. apply (hex_chars "p" bytes); [done|]. apply elem_of_rev. rewrite E. by left.
Qed.
Lemma slice_to_prefix s i : exists t, s = slice_to s i +:+ t.
Proof. exists (slice_from s i). unfold slice_to, slice_from. rewrite <-implode_app, take_drop. by rewrite implode_explode. Qed.
