(* ===== verification/HookSpool.v ===== *)
(** * The hook spool

    [src/presentation/cli/hook_spool.go]: a hook writes its invocation to the
    spool before it runs it and clears it when it is committed; what failed, or
    was left by a process that died, is replayed by later hooks and by
    [doctor --fix], a bounded number of times, and then kept under [dead/].
    The functions are programs of [Interleaving] over [SpoolFiles]; several
    processes run them at once, with no lock but the atomicity of [rename]. *)

From S2P Require Import Prelude GoStrings GoOs Ordering GoTime GoTimeText SpoolFiles Interleaving.

Notation spooler := (prog (Op := SpoolOp)).
Definition failing {A} (format : string) (err : error) : result A := Err (Wrap format [] err).

(** ** Limits *)

Definition hookSpoolReplayBatchLimit : Z := 5.
Definition hookSpoolReplayBacklogCap : Z := 32.
Definition hookSpoolDoctorDrainRoundLimit : Z := 200.
Definition hookSpoolRetryLimit : Z := 3.
Definition packagedHostBudget : Z := 10 * Second.
Definition hookSpoolDrainReserve : Z := 2 * Second.
Definition hookSpoolDrainLowHeadroom : Z := 4 * Second.
Definition hookSpoolInflightStaleAge : Z := 60 * Second.
Definition hookSpoolDeadRetention : Z := 14 * 24 * Hour.
Definition hookSpoolDeadPruneLimit : Z := 200.
Definition hookSpoolDeadRequeueLimit : Z := 200.
Definition hookSpoolDeadRequeueDoctorWall : Z := 45 * Second.

Definition hookSpoolDrainAllowance (remaining : Z) : Z :=
  if remaining <=? hookSpoolDrainReserve then 0
  else if remaining <? hookSpoolDrainLowHeadroom then 1
  else hookSpoolReplayBatchLimit.
Definition hookSpoolBacklogDrainLimit (pending remaining : Z) : Z :=
  let allowance := hookSpoolDrainAllowance remaining in
  if allowance <=? 1 then allowance
  else
    let pending := if pending <? 0 then 0 else pending in
    let scaled := Z.quot pending 100 in
    let scaled := if scaled <? hookSpoolReplayBatchLimit then hookSpoolReplayBatchLimit else scaled in
    if hookSpoolReplayBacklogCap <? scaled then hookSpoolReplayBacklogCap else scaled.
Definition hookSpoolDrainRemaining (deadline : option Time) (startedAt now : Time) : Z :=
  match deadline with
  | Some d => Sub d now
  | None => packagedHostBudget - Sub now startedAt
  end.

Definition shouldDeadLetter (attempt : Z) : bool := hookSpoolRetryLimit <=? attempt.
Definition requeueable_markers : list string :=
  ["context deadline exceeded"; "database is locked"; "failed to ping sqlite db"; "invalid kimi usage record metadata";
   "conflicting duplicate claude assistant usage"].
Definition hookSpoolDeadLetterRequeueable (lastError : string) : bool :=
  let msg := ToLower (TrimSpace lastError) in
  if msg =?s "" then false else existsb (Contains msg) requeueable_markers.

Definition sanitize_rune (r : Z) : list ascii :=
  if in_range 65 90 r || in_range 97 122 r || in_range 48 57 r || (r =? 46) || (r =? 95) || (r =? 45) then encode_rune r else ["_"%char].
Definition sanitizeHookStateKey (value : string) : string :=
  match flat_map sanitize_rune (range_runes value) with [] => "default" | l => implode l end.

Record hookInvocationSpec := mkSpec { spec_Command : string; spec_Client : string; spec_Action : string; spec_DBPath : string }.
Definition boundedPassiveHook (spec : hookInvocationSpec) : bool := spec_Command spec =?s "passive".

(** ** The handlers that a replay finds *)

Definition replay_commands : list string :=
  ["passive"; "session"; "audit"; "compact"; "subagent-start"; "subagent-stop"; "prompt"; "transcript"; "usage"].
Definition antigravity_actions : list string := ["pre-invocation"; "pre-tool-use"; "post-tool-use"; "stop"].
Definition grok_actions : list string :=
  ["session-start"; "user-prompt-submit"; "pre-tool-use"; "post-tool-use"; "stop"; "pre-compact"; "post-compact"].
Definition kimi_actions : list string :=
  ["session-start"; "session-end"; "user-prompt-submit"; "pre-tool-use"; "post-tool-use"; "post-tool-use-failure"; "stop";
   "subagent-stop"; "pre-compact"; "post-compact"].
Definition muse_actions : list string :=
  ["session-start"; "user-prompt-submit"; "pre-tool-use"; "post-tool-use"; "post-tool-use-failure"; "stop"; "pre-compact"; "post-compact"].
Definition replay_action (known : list string) (unsupported : string) (r : hookSpoolRecord) : option error :=
  fails (negb (slices_contains known (TrimSpace (Action r)))) (Errorf unsupported [Action r]).
(** Nothing when a handler runs; else the error in its place. *)
Definition replay_unsupported (r : hookSpoolRecord) : option error :=
  let command := TrimSpace (Command r) in
  if slices_contains replay_commands command then None
  else if command =?s "antigravity" then replay_action antigravity_actions "unsupported antigravity spool action: %s" r
  else if command =?s "grok" then replay_action grok_actions "unsupported grok spool action: %s" r
  else if command =?s "kimi" then replay_action kimi_actions "unsupported kimi spool action: %s" r
  else if command =?s "muse" then replay_action muse_actions "unsupported muse spool action: %s" r
  else Some (Errorf "unsupported hook spool command: %s" [Command r]).
Definition replayHookSpoolRecord (r : hookSpoolRecord) : spooler (result unit) :=
  match replay_unsupported r with
  | Some e => Ret (Err e)
  | None => Do (OpDeliver r) Ret
  end.

(** [errors.As] for the error of a store under maintenance. *)
Fixpoint maintenance_pending (e : error) : bool :=
  match e with
  | Typed t _ c => (t =?s "*types.StoreMaintenancePendingError") || maintenance_pending c
  | Wrap _ _ c => maintenance_pending c
  | Joined l r => maintenance_pending l || maintenance_pending r
  | _ => false
  end.

(** The clock does not fail. *)
Definition with_now {A} (k : Time -> spooler A) : spooler A :=
  Do OpNow (fun r => k (match r with Ok t => t | Err _ => time_zero end)).

Section Spool.
(** The indented JSON text of a record, and the text of an error. *)
Context (json_text : hookSpoolRecord -> string) (error_text : error -> string).

(** ** Writing *)

Definition marshal (r : hookSpoolRecord) : result content :=
  if (0 <=? Year (CreatedAt r)) && (Year (CreatedAt r) <=? 9999)
  then Ok (mkContent (json_text r +:+ String "010"%char "") (Some (json_record r)))
  else failing "failed to encode hook spool record: %w" (Sentinel "Time.MarshalJSON: year outside of range [0,9999]").

Definition publish_format (e : error) : string :=
  if bool_decide (e = ErrRandom) then "failed to generate hook spool ID: %w" else "failed to write hook spool record: %w".
(** A record under a name drawn for it: written beside, then renamed. *)
Definition persistHookSpoolRecordWithSuffix (r : hookSpoolRecord) (suffix : string) : spooler (result string) :=
  call (OpMkdirAll "") (failing "failed to create hook spool directory: %w") (fun _ =>
  let path random := spool_stamp (CreatedAt r) +:+ "-" +:+ sanitizeHookStateKey (Client r) +:+ "-" +:+ random +:+ suffix in
  match marshal r with
  | Err e => Ret (Err e)
  | Ok encoded =>
      Do (OpCreate (fun random => path random +:+ ".tmp") encoded) (fun out =>
      match out with
      | Err e => Ret (Err (Wrap (publish_format e) [] e))
      | Ok random =>
          Do (OpRename (path random +:+ ".tmp") (path random)) (fun out =>
          match out with
          | Ok _ => Ret (Ok (path random))
          | Err e => Do (OpRemove (path random +:+ ".tmp")) (fun _ => Ret (failing "failed to publish hook spool record: %w" e))
          end)
      end)
  end).
Definition persistCurrentHookSpoolRecord (r : hookSpoolRecord) : spooler (result string) :=
  persistHookSpoolRecordWithSuffix r ".inflight".

Definition writeHookSpoolRecordAtomic (path : string) (r : hookSpoolRecord) : spooler (result unit) :=
  match marshal r with
  | Err e => Ret (Err e)
  | Ok encoded =>
      call (OpWrite (path +:+ ".tmp") encoded) (failing "failed to write hook spool record: %w") (fun _ =>
      Do (OpRename (path +:+ ".tmp") path) (fun out =>
      match out with
      | Ok _ => Ret (Ok tt)
      | Err e => Do (OpRemove (path +:+ ".tmp")) (fun _ => Ret (failing "failed to publish hook spool record: %w" e))
      end))
  end.

(** ** The current invocation *)

Definition replayablePathForCurrentHookSpool (path : string) : string := TrimSuffix path ".inflight" +:+ ".json".
Definition promoteCurrentHookSpoolRecord (path : string) : spooler (result unit) :=
  if negb (HasSuffix path ".inflight") then Ret (Err (Errorf "current hook spool path must end with .inflight" []))
  else call (OpRename path (replayablePathForCurrentHookSpool path)) (failing "failed to promote current hook spool record: %w") (fun _ =>
       Ret (Ok tt)).
Definition clearCurrentHookSpoolRecord (path : string) : spooler (result unit) :=
  Do (OpRemove path) (fun out =>
  match out with
  | Ok _ => Ret (Ok tt)
  | Err e =>
      if negb (os_IsNotExist e) then Ret (failing "failed to remove in-flight hook spool record: %w" e)
      else Do (OpRemove (replayablePathForCurrentHookSpool path)) (fun out =>
           match out with
           | Ok _ => Ret (Ok tt)
           | Err e => if os_IsNotExist e then Ret (Ok tt)
                      else Ret (failing "failed to remove promoted current hook spool record: %w" e)
           end)
  end).

(** The entries of a directory, none when it does not exist. *)
Definition read_entries {A} (dead : bool) (format : string) (k : list string -> spooler (result A)) (absent : A) : spooler (result A) :=
  Do (OpReadDir dead) (fun out =>
  match out with
  | Ok entries => k entries
  | Err e => if os_IsNotExist e then Ret (Ok absent) else Ret (failing format e)
  end).
Definition spool_unreadable : string := "failed to read hook spool directory: %w".

Fixpoint recover_current_loop (now : Time) (entries : list string) : spooler (result unit) :=
  match entries with
  | [] => Ret (Ok tt)
  | name :: rest =>
      if negb (HasSuffix name ".inflight") then recover_current_loop now rest
      else call (OpInfo name) (failing "failed to inspect in-flight hook spool record: %w") (fun mtime =>
           if Sub now mtime <? hookSpoolInflightStaleAge then recover_current_loop now rest
           else bind (promoteCurrentHookSpoolRecord name) (fun out =>
                match out with
                | Ok _ => recover_current_loop now rest
                | Err e => if os_IsNotExist e then recover_current_loop now rest else Ret (Err e)
                end))
  end.
Definition recoverStaleCurrentHookSpoolRecords (now : Time) : spooler (result unit) :=
  read_entries false spool_unreadable (recover_current_loop now) tt.

(** ** Leaving the queue *)

Definition move_format (generate move : string) (e : error) : string := if bool_decide (e = ErrRandom) then generate else move.
Definition retry_name (now : Time) (random : string) : string := "zz-retry-" +:+ spool_stamp (UTC now) +:+ "-" +:+ random +:+ ".json".
Definition dead_name (now : Time) (random : string) : string := "dead/dead-" +:+ spool_stamp (UTC now) +:+ "-" +:+ random +:+ ".json".
Definition renameHookSpoolRecordToRetryTail (path : string) : spooler (result unit) :=
  with_now (fun now =>
  Do (OpRenameNew path (retry_name now)) (fun out =>
  match out with
  | Ok _ => Ret (Ok tt)
  | Err e => Ret (failing (move_format "failed to generate hook spool retry ID: %w" "failed to move hook spool record to retry tail: %w" e) e)
  end)).
Definition renameHookSpoolRecordToDead (path : string) : spooler (result unit) :=
  call (OpMkdirAll "dead") (failing "failed to create hook spool dead-letter directory: %w") (fun _ =>
  with_now (fun now =>
  Do (OpRenameNew path (dead_name now)) (fun out =>
  match out with
  | Ok _ => Ret (Ok tt)
  | Err e => Ret (failing (move_format "failed to generate hook spool dead-letter ID: %w" "failed to move hook spool record to dead-letter: %w" e) e)
  end))).

(** A file that does not parse is wrapped: its bytes become the payload. *)
Definition raw_record (now : Time) (c : content) : hookSpoolRecord :=
  mkSpoolRecord hookSpoolSchemaVersion "" "" "" "" (bytes_of c) (UTC now) "" None false 0 "" "".
Definition failed_again (r : hookSpoolRecord) (lastError : string) : hookSpoolRecord :=
  let trimmed := TrimSpace lastError in
  set_attempt r (i64 (AttemptCount r + 1)) (if trimmed <>?s "" then trimmed else LastError r).
Definition requeueHookSpoolRecord (path lastError : string) : spooler (result unit) :=
  if TrimSpace path =?s "" then Ret (Err (Errorf "hook spool path is required" []))
  else Do (OpRead path) (fun out =>
       match out with
       | Err _ => renameHookSpoolRecordToDead path
       | Ok data =>
           with_now (fun now =>
           let record := failed_again (default (raw_record now data) (parsed data)) lastError in
           bind (writeHookSpoolRecordAtomic path record) (fun out =>
           match out with
           | Err e => Ret (Err e)
           | Ok _ => if shouldDeadLetter (AttemptCount record) then renameHookSpoolRecordToDead path
                     else renameHookSpoolRecordToRetryTail path
           end))
       end).

(** ** Claims *)

Definition claimHookSpoolRecord (path : string) : spooler (result (option string)) :=
  if TrimSpace path =?s "" then Ret (Err (Errorf "hook spool path is required" []))
  else if negb (HasSuffix path ".json") then Ret (Err (Errorf "hook spool claim source must end with .json" []))
  else call OpRandom (failing "failed to generate hook spool claim ID: %w") (fun random =>
       let claimedPath := path +:+ hookSpoolClaimMarker +:+ random in
       Do (OpRename path claimedPath) (fun out =>
       match out with
       | Err e => if os_IsNotExist e then Ret (Ok None) else Ret (failing "failed to claim hook spool record: %w" e)
       | Ok _ => with_now (fun now => Do (OpChtimes claimedPath now) (fun _ => Ret (Ok (Some claimedPath))))
       end)).

Definition releaseStaleClaimedHookSpoolRecord (claimedPath : string) : spooler (result unit) :=
  let idx := LastIndex claimedPath hookSpoolClaimMarker in
  if (idx <? 0) || negb (HasSuffix (slice_to claimedPath idx) ".json") then Ret (Err (Errorf "claimed hook spool path is malformed" []))
  else
    let restored := slice_to claimedPath idx in
    Do (OpLstat restored) (fun out =>
    match out with
    | Ok _ => renameHookSpoolRecordToRetryTail claimedPath
    | Err e =>
        if negb (os_IsNotExist e) then Ret (failing "failed to inspect restored hook spool path: %w" e)
        else Do (OpRename claimedPath restored) (fun out =>
             match out with
             | Ok _ => Ret (Ok tt)
             | Err e => if os_IsNotExist e then Ret (failing "claimed hook spool record disappeared during release: %w" e)
                        else renameHookSpoolRecordToRetryTail claimedPath
             end)
    end).
Fixpoint recover_claimed_loop (now : Time) (entries : list string) : spooler (result unit) :=
  match entries with
  | [] => Ret (Ok tt)
  | name :: rest =>
      if negb (isHookSpoolClaimFile name) then recover_claimed_loop now rest
      else call (OpInfo name) (failing "failed to inspect claimed hook spool record: %w") (fun mtime =>
           if Sub now mtime <? hookSpoolInflightStaleAge then recover_claimed_loop now rest
           else bind (releaseStaleClaimedHookSpoolRecord name) (fun out =>
                match out with
                | Ok _ => recover_claimed_loop now rest
                | Err e => if os_IsNotExist e then recover_claimed_loop now rest else Ret (Err e)
                end))
  end.
Definition recoverStaleClaimedHookSpoolRecords (now : Time) : spooler (result unit) :=
  read_entries false spool_unreadable (recover_claimed_loop now) tt.

Definition loadClaimedHookSpoolRecord (claimedPath : string) : spooler (result (option hookSpoolRecord)) :=
  call (OpRead claimedPath) Err (fun data => Ret (Ok ((fun r => set_path r claimedPath) <$> parsed data))).

(** ** Listing *)

Definition listHookSpoolRecordPaths : spooler (result (list string)) :=
  read_entries false spool_unreadable (fun entries => Ret (Ok (filter (fun n => HasSuffix n ".json" = true) entries))) [].
Definition countHookSpoolRecordPaths : spooler (result Z) :=
  bind listHookSpoolRecordPaths (fun out => Ret (let! paths := out in Ok (llen paths))).
Fixpoint count_inflight (now : Time) (entries : list string) (count : Z) : spooler (result Z) :=
  match entries with
  | [] => Ret (Ok count)
  | name :: rest =>
      if negb (HasSuffix name ".inflight") then count_inflight now rest count
      else call (OpInfo name) (failing "failed to inspect in-flight hook spool record: %w") (fun mtime =>
           count_inflight now rest (if hookSpoolInflightStaleAge <=? Sub now mtime then count + 1 else count))
  end.
Definition countHookSpoolPendingPaths (now : Time) : spooler (result Z) :=
  bind listHookSpoolRecordPaths (fun out =>
  match out with
  | Err e => Ret (Err e)
  | Ok paths => read_entries false spool_unreadable (fun entries => count_inflight now entries (llen paths)) (llen paths)
  end).

(** ** Draining *)

Record hookSpoolDrainResult := mkDrain { dr_Replayed : Z; dr_Failed : Z; dr_Unreadable : Z; dr_Remaining : Z; dr_Err : option error }.
Definition drain_none : hookSpoolDrainResult := mkDrain 0 0 0 0 None.
Definition drain_failed (e : error) : hookSpoolDrainResult := mkDrain 0 0 0 0 (Some e).
Definition one_replayed (d : hookSpoolDrainResult) := mkDrain (dr_Replayed d + 1) (dr_Failed d) (dr_Unreadable d) (dr_Remaining d) (dr_Err d).
Definition one_failed (d : hookSpoolDrainResult) := mkDrain (dr_Replayed d) (dr_Failed d + 1) (dr_Unreadable d) (dr_Remaining d) (dr_Err d).
Definition one_unreadable (d : hookSpoolDrainResult) := mkDrain (dr_Replayed d) (dr_Failed d) (dr_Unreadable d + 1) (dr_Remaining d) (dr_Err d).

(** What a drain does with a claim. *)
Definition drain_claimed (claimedPath : string) (result : hookSpoolDrainResult) : spooler hookSpoolDrainResult :=
  bind (loadClaimedHookSpoolRecord claimedPath) (fun loaded =>
  match loaded with
  | Err _ | Ok None => bind (requeueHookSpoolRecord claimedPath "unreadable hook spool record") (fun _ => Ret (one_unreadable result))
  | Ok (Some record) =>
      if shouldDeadLetter (AttemptCount record) then bind (renameHookSpoolRecordToDead claimedPath) (fun _ => Ret result)
      else bind (replayHookSpoolRecord record) (fun out =>
           match out with
           | Err e => bind (requeueHookSpoolRecord claimedPath (error_text e)) (fun _ => Ret (one_failed result))
           | Ok _ =>
               Do (OpRemove claimedPath) (fun out =>
               match out with
               | Ok _ => Ret (one_replayed result)
               | Err e => if os_IsNotExist e then Ret (one_replayed result)
                          else bind (requeueHookSpoolRecord claimedPath (error_text e)) (fun _ => Ret (one_failed result))
               end)
           end)
  end).
Definition past (deadline : option Time) : spooler bool :=
  match deadline with None => Ret false | Some d => with_now (fun now => Ret (negb (Before (UTC now) d))) end.
Fixpoint drain_loop (limit : Z) (deadline : option Time) (paths : list string) (claimed : Z) (result : hookSpoolDrainResult)
  : spooler hookSpoolDrainResult :=
  match paths with
  | [] => Ret result
  | path :: rest =>
      if limit <=? claimed then Ret result
      else Do OpContext (fun out =>
           match out with
           | Err _ => Ret result
           | Ok _ =>
               bind (past deadline) (fun late =>
               if late then Ret result
               else bind (claimHookSpoolRecord path) (fun out =>
                    match out with
                    | Err _ | Ok None => drain_loop limit deadline rest claimed result
                    | Ok (Some claimedPath) =>
                        bind (drain_claimed claimedPath result) (fun result => drain_loop limit deadline rest (claimed + 1) result)
                    end))
           end)
  end.
Definition with_remaining (d : hookSpoolDrainResult) (out : result Z) : hookSpoolDrainResult :=
  mkDrain (dr_Replayed d) (dr_Failed d) (dr_Unreadable d) (match out with Ok n => n | Err _ => 0 end) (err_of out).
Definition drainHookSpoolRecordsDetailed (limit : Z) (deadline : option Time) : spooler hookSpoolDrainResult :=
  with_now (fun t => let now := UTC t in
  bind (recoverStaleCurrentHookSpoolRecords now) (fun out =>
  match out with
  | Err e => Ret (drain_failed e)
  | Ok _ =>
      bind (recoverStaleClaimedHookSpoolRecords now) (fun out =>
      match out with
      | Err e => Ret (drain_failed e)
      | Ok _ =>
          if limit <=? 0 then bind (countHookSpoolPendingPaths now) (fun out => Ret (with_remaining drain_none out))
          else bind listHookSpoolRecordPaths (fun out =>
               match out with
               | Err e => Ret (drain_failed e)
               | Ok paths =>
                   bind (drain_loop limit deadline paths 0 drain_none) (fun result =>
                   bind countHookSpoolRecordPaths (fun out => Ret (with_remaining result out)))
               end)
      end)
  end)).
Definition drainHookSpoolRecords (limit : Z) : spooler (Z * Z) :=
  bind (drainHookSpoolRecordsDetailed limit None) (fun result => Ret (dr_Replayed result, dr_Failed result + dr_Unreadable result)).

(** The rounds of [doctor --fix], on fuel. *)
Definition nothing_done (d : hookSpoolDrainResult) : bool := (dr_Replayed d =? 0) && (dr_Failed d =? 0) && (dr_Unreadable d =? 0).
Fixpoint drain_rounds (fuel : nat) (deadline : option Time) (remaining : Z) (aggregated : hookSpoolDrainResult)
  : spooler (option hookSpoolDrainResult) :=
  match fuel with
  | O => Ret None
  | S fuel =>
      if remaining <=? 0 then Ret (Some aggregated)
      else Do OpContext (fun out =>
           match out with
           | Err e => Ret (Some (mkDrain (dr_Replayed aggregated) (dr_Failed aggregated) (dr_Unreadable aggregated) (dr_Remaining aggregated)
                                   (Some (Wrap "hook spool drain cancelled: %w" [] e))))
           | Ok _ =>
               bind (past deadline) (fun late =>
               if late then Ret (Some (mkDrain (dr_Replayed aggregated) (dr_Failed aggregated) (dr_Unreadable aggregated) remaining (dr_Err aggregated)))
               else
                 bind (drainHookSpoolRecordsDetailed (Z.min remaining hookSpoolDoctorDrainRoundLimit) deadline) (fun result =>
                 match dr_Err result with
                 | Some e => Ret (Some (mkDrain (dr_Replayed aggregated) (dr_Failed aggregated) (dr_Unreadable aggregated) (dr_Remaining result) (Some e)))
                 | None =>
                     if dr_Replayed result =? 0 then Ret (Some (if nothing_done aggregated then result else aggregated))
                     else drain_rounds fuel deadline (dr_Remaining result)
                            (mkDrain (dr_Replayed aggregated + dr_Replayed result) (dr_Failed aggregated + dr_Failed result)
                               (dr_Unreadable aggregated + dr_Unreadable result) (dr_Remaining result) (dr_Err aggregated))
                 end))
           end)
  end.
Definition drainHookSpoolRecordsUntil (fuel : nat) (pending : Z) (deadline : option Time) : spooler (option hookSpoolDrainResult) :=
  drain_rounds fuel deadline pending drain_none.

(** ** A hook *)

(** From the persisted record on. *)
Definition deliver_spooled (spec : hookInvocationSpec) (deadline : option Time) (startedAt : Time) (record : hookSpoolRecord) (path : string)
  : spooler (result unit) :=
  Do OpContext (fun out =>
  match out with
  | Err e => bind (promoteCurrentHookSpoolRecord path) (fun _ => Ret (failing "hook context cancelled after spool persistence: %w" e))
  | Ok _ =>
      Do (OpDeliver record) (fun out =>
      match out with
      | Err e => bind (promoteCurrentHookSpoolRecord path) (fun _ => Ret (if maintenance_pending e then Ok tt else Err e))
      | Ok _ =>
          bind (clearCurrentHookSpoolRecord path) (fun out =>
          match out with
          | Err e => Ret (failing "failed to clear committed hook spool record: %w" e)
          | Ok _ =>
              if boundedPassiveHook spec then Ret (Ok tt)
              else Do OpContext (fun out =>
                   match out with
                   | Err _ => Ret (Ok tt)
                   | Ok _ =>
                       with_now (fun now =>
                       bind (with_now (fun now => countHookSpoolPendingPaths (UTC now))) (fun pending =>
                       let limit := hookSpoolBacklogDrainLimit (match pending with Ok n => n | Err _ => 0 end)
                                      (hookSpoolDrainRemaining deadline startedAt now) in
                       if 0 <? limit then bind (drainHookSpoolRecords limit) (fun _ => Ret (Ok tt)) else Ret (Ok tt)))
                   end)
          end)
      end)
  end).
(** [capture] is what [captureHookWorkspace] found; the observation that a
    committed hook sends does not touch the spool. *)
Definition hook_body (spec : hookInvocationSpec) (deadline : option Time) (input : result string) (capture : option string * bool)
  : spooler (result unit) :=
  with_now (fun startedAt =>
  match input with
  | Err e => Ret (Err e)
  | Ok payload =>
      call OpRandom (failing "failed to acquire spool receipt: %w") (fun receipt =>
      with_now (fun now =>
      let record := mkSpoolRecord hookSpoolSchemaVersion (TrimSpace (spec_Command spec)) (TrimSpace (spec_Client spec))
                      (TrimSpace (spec_Action spec)) (TrimSpace (spec_DBPath spec)) payload (UTC now) ("spool:" +:+ receipt)
                      (fst capture) (snd capture) 0 "" "" in
      bind (persistCurrentHookSpoolRecord record) (fun out =>
      match out with
      | Err _ => Do (OpDeliver record) Ret
      | Ok path => deliver_spooled spec deadline startedAt record path
      end)))
  end).
(** [runHookBestEffort] swallows the error. *)
Definition runHookDurably (spec : hookInvocationSpec) (deadline : option Time) (input : result string) (capture : option string * bool)
  : spooler (result unit) := bind (hook_body spec deadline input capture) (fun _ => Ret (Ok tt)).

(** ** [doctor --fix] *)

(** Counts of a pass over [dead/], and the error that ended it. *)
Record RequeueResult := mkRequeue { rq_requeued : Z; rq_skipped : Z; rq_remaining : Z; rq_err : option error }.
Definition requeue_one (c : RequeueResult) := mkRequeue (rq_requeued c + 1) (rq_skipped c) (rq_remaining c) (rq_err c).
Definition skip_one (c : RequeueResult) := mkRequeue (rq_requeued c) (rq_skipped c + 1) (rq_remaining c + 1) (rq_err c).
Definition leave_one (c : RequeueResult) := mkRequeue (rq_requeued c) (rq_skipped c) (rq_remaining c + 1) (rq_err c).
Definition requeue_err (c : RequeueResult) (e : error) := mkRequeue (rq_requeued c) (rq_skipped c) (rq_remaining c) (Some e).
Definition dead_unreadable : string := "failed to read hook spool dead-letter directory: %w".

(** Renamed first, so that a crash cannot leave a dead file without its error. *)
Definition requeue_dead (now : Time) (path : string) (record : hookSpoolRecord) (c : RequeueResult) : spooler RequeueResult :=
  Do (OpRenameNew path (retry_name now)) (fun out =>
  match out with
  | Err e => Ret (requeue_err c (Wrap (move_format "failed to generate hook spool requeue ID: %w" "failed to requeue hook spool dead-letter: %w" e) [] e))
  | Ok random =>
      bind (writeHookSpoolRecordAtomic (retry_name now random) (set_attempt record 0 "")) (fun out =>
      match out with Err e => Ret (requeue_err c e) | Ok _ => Ret (requeue_one c) end)
  end).
Fixpoint requeue_loop (now : Time) (dryRun : bool) (limit : Z) (entries : list string) (c : RequeueResult) : spooler RequeueResult :=
  match entries with
  | [] => Ret c
  | path :: rest =>
      Do OpContext (fun out =>
      match out with
      | Err e => Ret (requeue_err c (Wrap "hook spool dead-letter requeue cancelled: %w" [] e))
      | Ok _ =>
          if negb (HasSuffix path ".json") then requeue_loop now dryRun limit rest c
          else Do (OpRead path) (fun out =>
               match out with
               | Err _ => requeue_loop now dryRun limit rest (skip_one c)
               | Ok data =>
                   match parsed data with
                   | None => requeue_loop now dryRun limit rest (skip_one c)
                   | Some record =>
                       if negb (hookSpoolDeadLetterRequeueable (LastError record)) then requeue_loop now dryRun limit rest (skip_one c)
                       else if (0 <? limit) && (limit <=? rq_requeued c) then requeue_loop now dryRun limit rest (leave_one c)
                       else if dryRun then requeue_loop now dryRun limit rest (requeue_one c)
                       else bind (requeue_dead now path record c) (fun c =>
                            match rq_err c with Some _ => Ret c | None => requeue_loop now dryRun limit rest c end)
                   end
               end)
      end)
  end.
Definition requeue_zero : RequeueResult := mkRequeue 0 0 0 None.
Definition requeueHookSpoolDeadLettersLimited (now : Time) (dryRun : bool) (limit : Z) : spooler RequeueResult :=
  Do (OpReadDir true) (fun out =>
  match out with
  | Ok entries => requeue_loop now dryRun limit entries requeue_zero
  | Err e => Ret (if os_IsNotExist e then requeue_zero else requeue_err requeue_zero (Wrap dead_unreadable [] e))
  end).
(** The batches, on fuel. *)
Fixpoint requeue_batches (fuel : nat) (now : Time) (deadline : option Time) (c : RequeueResult) : spooler (option RequeueResult) :=
  match fuel with
  | O => Ret None
  | S fuel =>
      Do OpContext (fun out =>
      match out with
      | Err e => Ret (Some (requeue_err c (Wrap "hook spool dead-letter requeue cancelled: %w" [] e)))
      | Ok _ =>
          bind (past deadline) (fun late =>
          if late then bind (requeueHookSpoolDeadLettersLimited now true 0) (fun left =>
                       Ret (Some (mkRequeue (rq_requeued c) (rq_skipped left) (rq_remaining left + rq_requeued left) (rq_err left))))
          else bind (requeueHookSpoolDeadLettersLimited now false hookSpoolDeadRequeueLimit) (fun batch =>
               let c := mkRequeue (rq_requeued c + rq_requeued batch) (rq_skipped batch) (rq_remaining batch) (rq_err batch) in
               match rq_err batch with
               | Some _ => Ret (Some c)
               | None => if rq_requeued batch =? 0 then Ret (Some c) else requeue_batches fuel now deadline c
               end))
      end)
  end.
Definition requeueHookSpoolDeadLettersUntil (fuel : nat) (now : Time) (dryRun : bool) (deadline : option Time) : spooler (option RequeueResult) :=
  if dryRun then bind (requeueHookSpoolDeadLettersLimited now true 0) (fun c => Ret (Some c))
  else requeue_batches fuel now deadline requeue_zero.

(** Removal of what is older than the retention; [keeps_young] tells whether a
    younger file counts as remaining, [gone_ok] whether a file that vanished
    before it was inspected is passed over. *)
Record PruneResult := mkPrune { pr_pruned : Z; pr_remaining : Z; pr_err : option error }.
Fixpoint prune_loop (suffix : string) (keeps_young gone_ok : bool) (inspect_failed remove_failed : string) (cutoff : Time) (dryRun : bool)
  (entries : list string) (c : PruneResult) : spooler PruneResult :=
  let next := prune_loop suffix keeps_young gone_ok inspect_failed remove_failed cutoff dryRun in
  match entries with
  | [] => Ret c
  | path :: rest =>
      if negb (HasSuffix path suffix) then next rest c
      else Do (OpInfo path) (fun out =>
           match out with
           | Err e => if gone_ok && os_IsNotExist e then next rest c
                      else Ret (mkPrune (pr_pruned c) (pr_remaining c) (Some (Wrap inspect_failed [] e)))
           | Ok mtime =>
               if negb (Before mtime cutoff) then next rest (mkPrune (pr_pruned c) (if keeps_young then pr_remaining c + 1 else pr_remaining c) None)
               else if hookSpoolDeadPruneLimit <=? pr_pruned c then next rest (mkPrune (pr_pruned c) (pr_remaining c + 1) None)
               else if dryRun then next rest (mkPrune (pr_pruned c + 1) (pr_remaining c) None)
               else Do (OpRemove path) (fun out =>
                    match out with
                    | Err e => if os_IsNotExist e then next rest (mkPrune (pr_pruned c + 1) (pr_remaining c) None)
                               else Ret (mkPrune (pr_pruned c) (pr_remaining c) (Some (Wrap remove_failed [] e)))
                    | Ok _ => next rest (mkPrune (pr_pruned c + 1) (pr_remaining c) None)
                    end)
           end)
  end.
Definition prune (dead : bool) (format : string) (loop : list string -> PruneResult -> spooler PruneResult) : spooler PruneResult :=
  Do (OpReadDir dead) (fun out =>
  match out with
  | Ok entries => loop entries (mkPrune 0 0 None)
  | Err e => Ret (mkPrune 0 0 (if os_IsNotExist e then None else Some (Wrap format [] e)))
  end).
Definition pruneHookSpoolDeadLetters (now : Time) (dryRun : bool) : spooler PruneResult :=
  prune true dead_unreadable
    (prune_loop ".json" true false "failed to inspect dead-letter file: %w" "failed to prune dead-letter file: %w"
       (Add now (- hookSpoolDeadRetention)) dryRun).
Definition pruneHookSpoolOrphanTmpFiles (now : Time) (dryRun : bool) : spooler PruneResult :=
  prune false spool_unreadable
    (prune_loop ".tmp" false true "failed to inspect hook spool tmp file: %w" "failed to prune orphan hook spool tmp file: %w"
       (Add now (- hookSpoolDeadRetention)) dryRun).

(** The counts of the report; nothing is drained in a dry run. *)
Record FixReport := mkFix { fx_requeued : Z; fx_skipped : Z; fx_pruned : Z; fx_dead_remaining : Z; fx_pruned_tmp : Z;
                            fx_pending : Z; fx_drain : option hookSpoolDrainResult }.
Definition fixHookSpoolRequeueThenDrain (fuel : nat) (now : Time) (dryRun : bool) : spooler (option (result FixReport)) :=
  bind (countHookSpoolPendingPaths now) (fun out =>
  match out with
  | Err e => Ret (Some (Err e))
  | Ok pending =>
      bind (if dryRun then Ret None else with_now (fun t => Ret (Some (Add (UTC t) hookSpoolDeadRequeueDoctorWall)))) (fun deadline =>
      bind (requeueHookSpoolDeadLettersUntil fuel now dryRun deadline) (fun requeued =>
      match requeued with
      | None => Ret None
      | Some c =>
          match rq_err c with
          | Some e => Ret (Some (Err e))
          | None =>
              bind (pruneHookSpoolDeadLetters now dryRun) (fun dead =>
              match pr_err dead with
              | Some e => Ret (Some (Err e))
              | None =>
                  bind (pruneHookSpoolOrphanTmpFiles now dryRun) (fun tmp =>
                  match pr_err tmp with
                  | Some e => Ret (Some (Err e))
                  | None =>
                      let report := mkFix (rq_requeued c) (rq_skipped c) (pr_pruned dead) (pr_remaining dead) (pr_pruned tmp) (pending + rq_requeued c) in
                      if dryRun then Ret (Some (Ok (report None)))
                      else bind (drainHookSpoolRecordsUntil fuel (pending + rq_requeued c) deadline) (fun drained =>
                           match drained with None => Ret None | Some d => Ret (Some (Ok (report (Some d)))) end)
                  end)
              end)
          end
      end))
  end).
End Spool.
