(* ===== verification/SpoolNames.v ===== *)
(** * The order of the names in the spool

    A drain replays the records in the order of their names
    ([src/presentation/cli/hook_spool.go]).  A record's name begins with the
    time it was made, or, once it was retried, with [zz-retry-] and the time of
    that; the times are written with a fixed number of digits, so that the
    order of the names is the order of the times, and a retried record sorts
    after every record not yet retried. *)

From S2P Require Import Prelude GoStrings Ordering GoTime GoTimeText SqliteText SpoolFiles HookSpool.

(** ** Time stamps *)

(** A stamp followed by [r], as its fields. *)
Definition stamp_text (c : Z * Z * Z) (s frac : Z) (r : list ascii) : list ascii :=
  let '(y, m, d) := c in
  field 4 y ++ field 2 m ++ field 2 d ++ "T"%char :: field 2 (s / 3600) ++ field 2 ((s / 60) `mod` 60) ++ field 2 (s `mod` 60)
  ++ "."%char :: field 9 frac ++ "Z"%char :: r.
Lemma stamp_format t a : spool_stamp (UTC t) +:+ a = implode (stamp_text (civil t) (day_seconds t) (fraction t) (explode a)).
Proof.
  unfold spool_stamp, stamp_text, civil, day_seconds, fraction. cbn zeta. destruct (civil_of_days _) as [[y m] d].
  apply explode_inj. rewrite explode_implode, !explode_app, <-!app_assoc. unfold field. by cbn.
Qed.
Lemma stamp_text_compare c s f r c' s' f' r' : civil_date c -> civil_date c' -> 0 <= fst (fst c) <= 9999 -> 0 <= fst (fst c') <= 9999 ->
  0 <= s < 86400 -> 0 <= s' < 86400 -> 0 <= f < Second -> 0 <= f' < Second ->
  String.compare (implode (stamp_text c s f r)) (implode (stamp_text c' s' f' r')) =
  match civil_cmp c c' with
  | Eq => match s ?= s' with Eq => match f ?= f' with Eq => String.compare (implode r) (implode r') | o => o end | o => o end
  | o => o
  end.
Proof.
  destruct c as [[y m] d], c' as [[y' m'] d']. intros [Hm Hd] [Hm' Hd'] Hy Hy' Hs Hs' Hf Hf'. cbn in Hy, Hy'.
  assert (Hday : d <= 31 /\ d' <= 31) by (unfold daysIn in *; repeat case_match; lia).
  destruct (euclid s 3600 ltac:(lia)), (euclid s 60 ltac:(lia)), (euclid (s / 60) 60 ltac:(lia)).
  destruct (euclid s' 3600 ltac:(lia)), (euclid s' 60 ltac:(lia)), (euclid (s' / 60) 60 ltac:(lia)).
  unfold Second in *. unfold stamp_text, civil_cmp, lex. cbn [fst snd].
  rewrite field_compare by (cbn; lia). destruct (y ?= y'); [|done..].
  rewrite field_compare by (cbn; lia). destruct (m ?= m'); [|done..].
  rewrite field_compare by (cbn; lia). destruct (d ?= d'); [|done..].
  rewrite (clock_compare s s') by lia.
  rewrite chr_compare, field_compare by (cbn; lia). destruct (s / 3600 ?= s' / 3600); [|done..].
  rewrite field_compare by (cbn; lia). destruct ((s / 60) `mod` 60 ?= _); [|done..].
  rewrite field_compare by (cbn; lia). destruct (s `mod` 60 ?= _); [|done..].
  rewrite chr_compare, field_compare by (cbn; lia). destruct (f ?= f'); [|done..]. by rewrite chr_compare.
Qed.

(** Stamps of years of four digits are ordered as the instants. *)
Lemma stamp_compare t u a b : four_digits t -> four_digits u ->
  String.compare (spool_stamp (UTC t) +:+ a) (spool_stamp (UTC u) +:+ b) =
  match ns t ?= ns u with Eq => String.compare a b | o => o end.
Proof.
  intros Ht Hu. rewrite !stamp_format, ns_compare, days_cmp by apply civil_ok.
  rewrite stamp_text_compare; try done; try apply civil_ok; try (apply Z.mod_pos_bound; unfold Second; lia).
  rewrite !implode_explode. by repeat case_match.
Qed.

(** ** Names *)

Lemma compare_same_head s a b : String.compare (s +:+ a) (s +:+ b) = String.compare a b.
Proof.
  induction s as [|c s IH]; [done|]. change (String c s +:+ a) with (String c (s +:+ a)). change (String c s +:+ b) with (String c (s +:+ b)).
  by rewrite string_compare_cons, ascii_compare_val, Z.compare_refl.
Qed.
(** A stamp begins with a digit. *)
Lemma stamp_digit t : exists c s, spool_stamp t = String c s /\ is_digit c = true \/ Year t < 0 \/ 9999 < Year t.
Proof.
  unfold spool_stamp, Year. destruct (civil_of_days _) as [[y m] d]. cbn [fst].
  destruct (decide (0 <= y <= 9999)) as [Hy|Hy]; [|exists "0"%char, ""; right; lia].
  destruct (field_spec 4 y ltac:(cbn; lia) ltac:(lia)) as (Hl & Hd & _). unfold field in *.
  destruct (pad_left 4 (FormatUint y)) as [|c s]; [done|]. cbn [explode list_ascii_of_string forallb] in Hd. apply andb_true_iff in Hd as [Hc _].
  eexists c, _. by left.
Qed.

(** The names of the files to replay, of records not yet retried, or last
    retried before [now]. *)
Definition queued_before (now : Time) (name : string) : Prop :=
  (exists created rest, 0 <= Year created <= 9999 /\ name = spool_stamp created +:+ "-" +:+ rest) \/
  (exists earlier random, four_digits earlier /\ ns earlier < ns now /\ name = retry_name earlier random).
Lemma queued_before_retry now name random : four_digits now -> queued_before now name ->
  String.compare name (retry_name now random) = Lt.
Proof.
  intros Hn [(created & rest & Hy & ->)|(u & x & Hu & Hlt & ->)].
  - destruct (stamp_digit created) as (c & s & [[-> Hc]|Hc]); [|lia]. unfold retry_name.
    change ((String c s) +:+ "-" +:+ rest) with (String c (s +:+ "-" +:+ rest)).
    change ("zz-retry-" +:+ ?y) with (String "z" ("z-retry-" +:+ y)). rewrite string_compare_cons, ascii_compare_val.
    apply is_digit_range in Hc. change (byte_val "z") with 122. by destruct (Z.compare_spec (byte_val c) 122); [lia|..|lia].
  - unfold retry_name. rewrite compare_same_head, stamp_compare by done. by apply Z.compare_lt_iff in Hlt as ->.
Qed.

Lemma json_named now random : HasSuffix (retry_name now random) ".json" = true.
Proof. unfold retry_name. rewrite <-!str_app_assoc. apply HasSuffix_app. Qed.

(** ** Examples *)

Example retry_order :
  let t := mkTime (unix_epoch_ns + 999999999 * Second) None 0 in
  let u := mkTime (unix_epoch_ns + 1000000000 * Second) None 0 in
  retry_name t "ff" = "zz-retry-20010909T014639.000000000Z-ff.json" /\ String.compare (retry_name t "ff") (retry_name u "00") = Lt.
Proof. by vm_compute. Qed.
