(* ===== verification/HookSpoolSafe.v ===== *)
(** * No invocation is lost

    Over every interleaving of hooks, drains and [doctor --fix], with crashes
    and failing system calls, a spooled invocation stays in the spool, or under
    [dead/], until it is committed or an operator's pruning removes it. *)

From S2P Require Import Prelude GoStrings GoOs Ordering GoTime GoTimeText SpoolFiles Interleaving HookSpool.

(** ** What the steps keep *)

(** The files under a base name stand for what the first one did. *)
Definition good (s : Spool) : Prop :=
  forall n f, sp_files s !! n = Some f ->
  exists o, sp_first s !! base_of n = Some o /\ forall e, o = Some e -> file_event f = Some e.
Definition kept (s : Spool) (e : hookSpoolRecord) : Prop :=
  exists n f, sp_files s !! n = Some f /\ tracked n = true /\ sp_first s !! base_of n = Some (Some e) /\ file_event f = Some e.
Definition accounted (s : Spool) (e : hookSpoolRecord) : Prop := kept s e \/ e ∈ sp_delivered s \/ e ∈ sp_pruned s.

Record later (s t : Spool) : Prop := {
  later_first : sp_first s ⊆ sp_first t;
  later_collided : sp_collided s = true -> sp_collided t = true;
  later_delivered : forall e, e ∈ sp_delivered s -> e ∈ sp_delivered t;
  later_pruned : forall e, e ∈ sp_pruned s -> e ∈ sp_pruned t;
  later_good : sp_collided t = false -> good s -> good t /\ forall e, kept s e -> accounted t e }.

Lemma spool_later_refl s : later s s.
Proof. split; [done..|]. intros _ Hg. split; [done|]. intros e He. by left. Qed.
Lemma spool_later_trans s t u : later s t -> later t u -> later s u.
Proof.
  intros H1 H2. destruct H1 as [F1 C1 D1 P1 G1], H2 as [F2 C2 D2 P2 G2]. split; [by etrans|by auto..|].
  intros Hc Hg. destruct (sp_collided t) eqn:Et; [by rewrite (C2 eq_refl) in Hc|]. destruct (G1 eq_refl Hg) as [Hg1 K1], (G2 Hc Hg1) as [Hg2 K2].
  split; [done|]. intros e He. destruct (K1 e He) as [Hk|[Hd|Hp]]; [by apply K2|right; left; auto|right; right; auto].
Qed.

(** ** The preconditions of the calls *)

Definition stands (s : Spool) (n : string) (o : option hookSpoolRecord) : Prop :=
  exists o', sp_first s !! base_of n = Some o' /\ forall e, o' = Some e -> o = Some e.
Definition unless_collided (s : Spool) (P : Prop) : Prop := sp_collided s = true \/ P.
Definition pre {B} (op : SpoolOp B) (s : Spool) : Prop :=
  match op with
  | OpWrite n c => is_tmp n = true /\ unless_collided s (stands s n (content_event c))
  | OpRename src dst => base_of src = base_of dst /\ tracked dst = true
  | OpRemove n =>
      is_tmp n = true \/ in_dead n = true \/
      unless_collided s (forall e, sp_first s !! base_of n = Some (Some e) -> e ∈ sp_delivered s)
  | OpRenameNew _ dst => forall x, tracked (dst x) = true
  | _ => True
  end.

Lemma same_later s t : sp_files t = sp_files s -> sp_first t = sp_first s -> sp_collided t = sp_collided s ->
  (forall e, e ∈ sp_delivered s -> e ∈ sp_delivered t) -> sp_pruned t = sp_pruned s -> later s t.
Proof.
  intros Hf Hb Hc Hd Hp. split; rewrite ?Hb, ?Hc, ?Hp; auto. intros _ Hg. split.
  - intros n f. rewrite Hf, Hb. apply Hg.
  - intros e (n & f & H). left. exists n, f. by rewrite Hf, Hb.
Qed.

Lemma take_base_grows s n o : sp_first s ⊆ sp_first (take_base s n o).
Proof. unfold take_base. destruct (sp_first s !! base_of n) eqn:E; [done|]. by apply insert_subseteq. Qed.
Lemma take_base_known s n o o' : sp_first s !! base_of n = Some o' -> take_base s n o = s.
Proof. intros E. unfold take_base. by rewrite E. Qed.
Lemma take_base_fields s n o : sp_collided (take_base s n o) = sp_collided s /\ sp_delivered (take_base s n o) = sp_delivered s /\
  sp_pruned (take_base s n o) = sp_pruned s.
Proof. unfold take_base. by destruct (sp_first s !! base_of n). Qed.
Lemma claim_base_fields s n : sp_files (claim_base s n) = sp_files s /\ sp_first (claim_base s n) = sp_first s /\
  sp_delivered (claim_base s n) = sp_delivered s /\ sp_pruned (claim_base s n) = sp_pruned s /\
  (sp_collided s = true -> sp_collided (claim_base s n) = true) /\
  (sp_collided (claim_base s n) = false -> sp_collided s = false /\ sp_first s !! base_of n = None).
Proof. unfold claim_base. by destruct (sp_first s !! base_of n). Qed.

(** A tracked file that is still there under its name keeps its invocation. *)
Lemma kept_here s t n f : good t -> sp_first s ⊆ sp_first t -> tracked n = true -> sp_files t !! n = Some f ->
  forall e, sp_first s !! base_of n = Some (Some e) -> kept t e.
Proof.
  intros Hg Hb Hn Hf e He. exists n, f. destruct (Hg n f Hf) as (o & Ho & Hev). pose proof (lookup_weaken _ _ _ _ He Hb) as He'.
  split_and!; [done..|]. apply Hev. congruence.
Qed.

Lemma write_later s n c : pre (OpWrite n c) s -> later s (Write s n c).
Proof.
  intros [Htmp Hst]. unfold Write. destruct (take_base_fields s n (content_event c)) as (Hc & Hd & Hp).
  split; cbn [set_files sp_first sp_collided sp_delivered sp_pruned]; rewrite ?Hc, ?Hd, ?Hp; [apply take_base_grows|done..|].
  intros Hcol Hg. destruct Hst as [Hst|(o & Ho & Hev)]; [congruence|]. rewrite (take_base_known _ _ _ _ Ho). cbn. split.
  - intros m f. cbn. rewrite lookup_insert_Some. intros [[<- <-]|[Hne Hf]]; [|by apply Hg]. exists o. split; [done|]. intros e He. by apply Hev.
  - intros e (m & f & Hf & Hm & H). left. exists m, f. split_and!; [|done|apply H..]. cbn. apply lookup_insert_Some. right. split; [|done].
    intros ->. apply tracked_not_tmp in Hm. congruence.
Qed.

Lemma rename_later s src dst : pre (OpRename src dst) s -> later s (snd (Rename s src dst)).
Proof.
  intros [Hbase Htr]. unfold Rename. destruct (sp_files s !! src) as [f|] eqn:Esrc; [|apply spool_later_refl]. cbn [snd].
  set (t := match sp_first s !! base_of src with Some o => take_base s dst o | None => s end).
  assert (Ht : t = s). { unfold t. destruct (sp_first s !! base_of src) as [o|] eqn:E; [|done]. apply (take_base_known _ _ _ o). by rewrite <-Hbase. }
  rewrite Ht. split; [done..|]. intros _ Hg.
  assert (Hg' : good (set_files s (<[dst:=f]> (delete src (sp_files s))))).
  { intros m g. cbn. rewrite lookup_insert_Some. intros [[<- <-]|[_ [_ Hm]%lookup_delete_Some]]; [|by apply Hg].
    destruct (Hg src f Esrc) as (o & Ho & Hev). exists o. by rewrite <-Hbase. }
  split; [done|]. intros e (m & g & Hm & Htm & He & Hev). left. destruct (decide (m = src \/ m = dst)) as [Hor|Hne].
  - apply (kept_here s _ dst f Hg'); [done|done|by cbn; rewrite lookup_insert_eq|]. destruct Hor; subst m; congruence.
  - exists m, g. split_and!; [|done..]. cbn. rewrite lookup_insert_ne, lookup_delete_ne by naive_solver. done.
Qed.

Lemma rename_new_later s src (dst : string -> string) draws r : (forall x, tracked (dst x) = true) ->
  later s (snd (Rename (claim_base (drawn s draws) (dst r)) src (dst r))).
Proof.
  intros Htr. destruct (claim_base_fields (drawn s draws) (dst r)) as (Hf & Hb & Hd & Hp & Hc & Hn). cbn in Hf, Hb, Hd, Hp, Hc, Hn.
  set (s1 := claim_base (drawn s draws) (dst r)) in *. unfold Rename. rewrite Hf, Hb. destruct (sp_files s !! src) as [f|] eqn:Esrc.
  2: { cbn [snd]. split; rewrite ?Hb, ?Hd, ?Hp; [done|done|done|done|]. intros Hcol Hg. split.
       - intros m g. rewrite Hf, Hb. apply Hg.
       - intros e (m & g & H). left. exists m, g. by rewrite Hf, Hb. }
  cbn [snd]. set (t := match sp_first s !! base_of src with Some o => take_base s1 (dst r) o | None => s1 end).
  assert (Ht : sp_first s ⊆ sp_first t /\ sp_collided t = sp_collided s1 /\ sp_delivered t = sp_delivered s /\ sp_pruned t = sp_pruned s).
  { unfold t. destruct (sp_first s !! base_of src) as [o|]; [|by rewrite Hb].
    destruct (take_base_fields s1 (dst r) o) as (-> & -> & ->). split_and!; [|done..]. rewrite <-Hb. apply take_base_grows. }
  destruct Ht as (Hgrow & Htc & Htd & Htp). split; cbn [set_files sp_first sp_collided sp_delivered sp_pruned];
    rewrite ?Htc, ?Htd, ?Htp; [done..|]. intros Hcol Hg. destruct (Hn Hcol) as [_ Hfresh].
  destruct (Hg src f Esrc) as (o & Ho & Hev). assert (Et : sp_first t !! base_of (dst r) = Some o).
  { unfold t, take_base. rewrite Ho, Hb, Hfresh. cbn. apply lookup_insert_eq. }
  assert (Hold : forall m g, sp_files s !! m = Some g -> m <> dst r).
  { intros m g Hm ->. destruct (Hg _ _ Hm) as (? & ? & _). congruence. }
  assert (Hg' : good (set_files t (<[dst r:=f]> (delete src (sp_files s))))).
  { intros m g. cbn. rewrite lookup_insert_Some. intros [[<- <-]|[_ [_ Hm]%lookup_delete_Some]]; [eauto|].
    destruct (Hg m g Hm) as (o' & Ho' & Hev'). exists o'. split; [by eapply lookup_weaken|done]. }
  split; [done|]. intros e (m & g & Hm & Htm & He & Hevm). left. destruct (decide (m = src)) as [->|Hne].
  - exists (dst r), f. cbn. rewrite lookup_insert_eq. assert (o = Some e) as -> by congruence. split_and!; auto.
  - exists m, g. cbn. rewrite lookup_insert_ne by (by apply not_eq_sym, (Hold m g)). rewrite lookup_delete_ne by done.
    split_and!; [done|done|by eapply lookup_weaken|done].
Qed.

Lemma remove_later s n : pre (OpRemove n) s -> later s (snd (Remove s n)).
Proof.
  intros Hpre. unfold Remove. destruct (sp_files s !! n) as [f|] eqn:En; [|apply spool_later_refl]. cbn [snd].
  set (pruned := match sp_first s !! base_of n with
                 | Some (Some e) => if in_dead n then e :: sp_pruned s else sp_pruned s | _ => sp_pruned s end).
  assert (Hpr : forall e, e ∈ sp_pruned s -> e ∈ pruned).
  { intros e He. unfold pruned. destruct (sp_first s !! base_of n) as [[e'|]|]; [|done..]. destruct (in_dead n); [by right|done]. }
  split; cbn [sp_first sp_collided sp_delivered sp_pruned]; [done..|]. intros Hcol Hg. split.
  - intros m g. cbn. rewrite lookup_delete_Some. intros [_ Hm]. by apply Hg.
  - intros e (m & g & Hm & Htm & He & Hev). destruct (decide (m = n)) as [->|Hne].
    + destruct Hpre as [Ht|[Hdead|[Hc|Hdel]]]; [apply tracked_not_tmp in Htm; congruence| |congruence|by right; left; apply Hdel].
      right. right. cbn. unfold pruned. rewrite He, Hdead. by left.
    + left. exists m, g. cbn. rewrite lookup_delete_ne by done. done.
Qed.

Lemma chtimes_later s n t : later s (snd (Chtimes s n t)).
Proof.
  unfold Chtimes. destruct (sp_files s !! n) as [f|] eqn:En; [|apply spool_later_refl]. cbn [snd]. split; [done..|]. intros _ Hg.
  assert (Hsame : forall m g, <[n := mkFile (f_content f) (StripMono t) (f_regular f)]> (sp_files s) !! m = Some g ->
    exists g', sp_files s !! m = Some g' /\ file_event g = file_event g').
  { intros m g. rewrite lookup_insert_Some. intros [[<- <-]|[_ Hm]]; eauto. }
  split.
  - intros m g Hm. destruct (Hsame m g Hm) as (g' & Hm' & ->). by apply Hg.
  - intros e (m & g & Hm & Htm & He & Hev). left. destruct (decide (m = n)) as [->|Hne].
    + exists n, (mkFile (f_content f) (StripMono t) (f_regular f)). cbn. rewrite lookup_insert_eq. assert (g = f) as -> by congruence. done.
    + exists m, g. cbn. by rewrite lookup_insert_ne.
Qed.

Lemma create_later s n c draws : later s (Write (claim_base (drawn s draws) n) n c).
Proof.
  destruct (claim_base_fields (drawn s draws) n) as (Hf & Hb & Hd & Hp & Hc & Hn). cbn in Hf, Hb, Hd, Hp, Hc, Hn.
  set (s1 := claim_base (drawn s draws) n) in *. unfold Write. destruct (take_base_fields s1 n (content_event c)) as (Tc & Td & Tp).
  pose proof (take_base_grows s1 n (content_event c)) as Hgrow. rewrite Hb in Hgrow.
  split; cbn [set_files sp_first sp_collided sp_delivered sp_pruned]; rewrite ?Tc, ?Td, ?Tp, ?Hd, ?Hp; [done..|].
  intros Hcol Hg. destruct (Hn Hcol) as [_ Hfresh]. assert (Et : sp_first (take_base s1 n (content_event c)) !! base_of n = Some (content_event c)).
  { unfold take_base. rewrite Hb, Hfresh. cbn. apply lookup_insert_eq. }
  assert (Hold : forall m g, sp_files s !! m = Some g -> n <> m).
  { intros m g Hm <-. destruct (Hg _ _ Hm) as (? & ? & _). congruence. }
  rewrite Hf. split.
  - intros m g. cbn. rewrite lookup_insert_Some. intros [[<- <-]|[_ Hm]]; [eauto|].
    destruct (Hg m g Hm) as (o' & Ho' & Hev'). exists o'. split; [by eapply lookup_weaken|done].
  - intros e (m & g & Hm & Htm & He & Hev). left. exists m, g. cbn. rewrite lookup_insert_ne by (by apply (Hold m g)).
    split_and!; [done|done|by eapply lookup_weaken|done].
Qed.

Section Safe.
Context (json_text : hookSpoolRecord -> string) (error_text : error -> string) (handler : hookSpoolRecord -> option error).
Notation run := (spool_run handler).
Notation secured := (secures run later later).

Lemma spool_step_later {B} (op : SpoolOp B) s : pre op s -> later s (snd (run B op s)).
Proof.
  destruct op; cbn [pre spool_run]; intros Hpre; try apply spool_later_refl.
  - destruct (sp_draws s); [apply spool_later_refl|]. by apply same_later.
  - by apply write_later.
  - by apply rename_later.
  - by apply remove_later.
  - apply chtimes_later.
  - destruct (sp_draws s); [apply spool_later_refl|]. apply create_later.
  - destruct (sp_draws s) as [|r draws]; [apply spool_later_refl|]. destruct (sp_files s !! src) eqn:E; cbn [snd]; [by apply rename_new_later|by apply same_later].
  - destruct (handler r); [apply spool_later_refl|]. apply same_later; try done. intros e He. by right.
Qed.
Lemma answer_later {B} (op : SpoolOp B) s r t : pre op s -> answer run op s r t -> later s t.
Proof. intros Hpre Ha. destruct Ha; [by apply spool_step_later|apply spool_later_refl|by apply spool_step_later]. Qed.

Lemma secured_later {A} (p : spooler A) Q s t : later s t -> secured p Q s -> secured p Q t.
Proof. apply secures_later. exact spool_later_trans. Qed.
Lemma secured_do {A B} (op : SpoolOp B) (k : result B -> spooler A) Q s :
  (forall t, later s t -> pre op t) ->
  (forall t r u, later s t -> later t u -> answer run op t r u -> secured (k r) Q u) -> secured (Do op k) Q s.
Proof. intros Hpre Hk. cbn. intros t r u Ht Ha. assert (later t u) by (apply (answer_later op t r u); auto). split; [done|eauto]. Qed.

(** A program that needs nothing of the state but what every step keeps. *)
Definition safe {A} (p : spooler A) (s : Spool) : Prop := secured p (fun _ _ => True) s.
Lemma safe_ret {A} (a : A) s : safe (Ret a) s.
Proof. done. Qed.
Lemma safe_do {A B} (op : SpoolOp B) (k : result B -> spooler A) s :
  (forall t, later s t -> pre op t) -> (forall r t, later s t -> safe (k r) t) -> safe (Do op k) s.
Proof. intros Hpre Hk. apply secured_do; [done|]. intros t r u Ht Hu _. apply Hk. by eapply spool_later_trans. Qed.
Lemma safe_call {A B} (op : SpoolOp B) failed (k : B -> spooler A) s :
  (forall t, later s t -> pre op t) -> (forall b t, later s t -> safe (k b) t) -> safe (call op failed k) s.
Proof. intros Hpre Hk. apply safe_do; [done|]. intros [b|e] t Ht; [by apply Hk|done]. Qed.
Lemma secured_bind {A B} (p : spooler A) (f : A -> spooler B) P Q s :
  secured p P s -> (forall a t, later s t -> P a t -> secured (f a) Q t) -> secured (bind p f) Q s.
Proof.
  intros Hp Hf. apply secures_bind; [exact spool_later_refl|].
  apply (secures_weaken _ _ _ p (fun a t => later s t /\ P a t)); [intros a t [? ?]; by apply Hf|].
  by apply secures_reaches; [exact spool_later_trans|done|].
Qed.
Lemma safe_bind {A B} (p : spooler A) (f : A -> spooler B) s :
  safe p s -> (forall a t, later s t -> safe (f a) t) -> safe (bind p f) s.
Proof. intros Hp Hf. apply (secured_bind p f (fun _ _ => True)); [done|]. intros a t Ht _. by apply Hf. Qed.
Lemma safe_keeps {A} (p : spooler A) s (P : Spool -> Prop) : (forall t, later s t -> P t) -> safe p s -> secured p (fun _ t => P t) s.
Proof.
  intros HP Hp. apply (secures_weaken _ _ _ p (fun _ t => later s t /\ True)); [intros _ t [? _]; auto|].
  by apply secures_reaches; [exact spool_later_trans|done|].
Qed.

(** ** What a program knows *)

Definition okay (s : Spool) : Prop := unless_collided s (good s).
Definition first_is (s : Spool) (n : string) (o : option hookSpoolRecord) : Prop := unless_collided s (sp_first s !! base_of n = Some o).
Definition knows (s : Spool) (n : string) (o : option hookSpoolRecord) : Prop := unless_collided s (stands s n o).

Lemma okay_later s t : later s t -> okay s -> okay t.
Proof.
  intros H [Hc|Hg]; [left; by apply (later_collided s t H)|]. destruct (sp_collided t) eqn:E; [by left|]. right. by apply (later_good s t H).
Qed.
Lemma knows_later s t n o : later s t -> knows s n o -> knows t n o.
Proof.
  intros H [Hc|(o' & Ho & Hev)]; [left; by apply (later_collided s t H)|]. right. exists o'. split; [|done].
  by eapply lookup_weaken; [|apply H].
Qed.
Lemma first_is_later s t n o : later s t -> first_is s n o -> first_is t n o.
Proof.
  intros H [Hc|Ho]; [left; by apply (later_collided s t H)|]. right. by eapply lookup_weaken; [|apply H].
Qed.
Definition settled (s : Spool) (e : hookSpoolRecord) : Prop := unless_collided s (accounted s e).
Lemma settled_later s t e : okay s -> later s t -> settled s e -> settled t e.
Proof.
  intros Hok H Hs. destruct (sp_collided t) eqn:E; [by left|]. right.
  assert (Hc : sp_collided s = false) by (destruct (sp_collided s) eqn:Es; [by rewrite (later_collided s t H Es) in E|done]).
  destruct Hok as [?|Hg], Hs as [?|[Hk|[Hd|Hp]]]; [congruence..| | |].
  - by apply (later_good s t H).
  - right. left. by apply (later_delivered s t H).
  - right. right. by apply (later_pruned s t H).
Qed.

(** ** The functions *)

Lemma safe_now {A} (k : Time -> spooler A) s : (forall now t, later s t -> safe (k now) t) -> safe (with_now k) s.
Proof. intros Hk. apply safe_do; [done|]. intros r t Ht. by apply Hk. Qed.

Lemma tracked_retry now x : tracked (retry_name now x) = true.
Proof. unfold retry_name. rewrite <-!str_app_assoc. apply tracked_json. Qed.
Lemma tracked_dead now x : tracked (dead_name now x) = true.
Proof. unfold dead_name. rewrite <-!str_app_assoc. apply tracked_json. Qed.
Lemma safe_tail path s : safe (renameHookSpoolRecordToRetryTail path) s.
Proof. apply safe_now. intros now t _. apply safe_do; [intros ? _ x; apply tracked_retry|]. by intros [] ? _. Qed.
Lemma safe_dead path s : safe (renameHookSpoolRecordToDead path) s.
Proof.
  apply safe_call; [done|]. intros _ t _. apply safe_now. intros now u _. apply safe_do; [intros ? _ x; apply tracked_dead|]. by intros [] ? _.
Qed.

Lemma promoted path : HasSuffix path ".inflight" = true ->
  base_of path = base_of (replayablePathForCurrentHookSpool path) /\ tracked (replayablePathForCurrentHookSpool path) = true.
Proof.
  intros [x ->]%HasSuffix_spec. unfold replayablePathForCurrentHookSpool. rewrite TrimSuffix_app. split; [|apply tracked_json].
  rewrite <-(str_app_nil_r ".inflight"), <-(str_app_nil_r ".json"). apply base_of_ext; [by right|by left].
Qed.
Lemma safe_promote path s : safe (promoteCurrentHookSpoolRecord path) s.
Proof.
  unfold promoteCurrentHookSpoolRecord. destruct (HasSuffix path ".inflight") eqn:E; cbn [negb]; [|done].
  apply safe_call; [intros t _; by apply promoted|done].
Qed.
Lemma safe_entries {A} dead format (k : list string -> spooler (result A)) absent s :
  (forall l t, later s t -> safe (k l) t) -> safe (read_entries dead format k absent) s.
Proof. intros Hk. apply safe_do; [done|]. intros [l|e] t Ht; [by apply Hk|]. by destruct (os_IsNotExist e). Qed.
Lemma safe_recover_current now l s : safe (recover_current_loop now l) s.
Proof.
  revert s. induction l as [|name l IH]; intros s; [done|]. cbn. destruct (negb _); [apply IH|]. apply safe_call; [done|]. intros mtime t _.
  destruct (_ <? _); [apply IH|]. apply safe_bind; [apply safe_promote|]. intros [|e] u _; [apply IH|]. destruct (os_IsNotExist e); [apply IH|done].
Qed.

Lemma released path : HasSuffix (slice_to path (LastIndex path hookSpoolClaimMarker)) ".json" = true ->
  base_of path = base_of (slice_to path (LastIndex path hookSpoolClaimMarker)) /\ tracked (slice_to path (LastIndex path hookSpoolClaimMarker)) = true.
Proof.
  set (restored := slice_to path _). intros H. destruct (slice_to_prefix path (LastIndex path hookSpoolClaimMarker)) as [t Et].
  fold restored in Et. apply HasSuffix_spec in H as [x Hx]. rewrite Hx in *. split; [|apply tracked_json].
  rewrite Et, str_app_assoc. rewrite <-(str_app_nil_r ".json") at 2. apply base_of_json.
Qed.
Lemma safe_release path s : safe (releaseStaleClaimedHookSpoolRecord path) s.
Proof.
  unfold releaseStaleClaimedHookSpoolRecord. destruct (HasSuffix _ ".json") eqn:E; cbn [negb]; [|by rewrite orb_true_r].
  destruct (_ || _); [done|]. apply safe_do; [done|]. intros [|e] t _; [apply safe_tail|]. destruct (negb (os_IsNotExist e)); [done|].
  apply safe_do; [intros u _; by apply released|]. intros [|e'] u _; [done|]. destruct (os_IsNotExist e'); [done|apply safe_tail].
Qed.
Lemma safe_recover_claimed now l s : safe (recover_claimed_loop now l) s.
Proof.
  revert s. induction l as [|name l IH]; intros s; [done|]. cbn. destruct (negb _); [apply IH|]. apply safe_call; [done|]. intros mtime t _.
  destruct (_ <? _); [apply IH|]. apply safe_bind; [apply safe_release|]. intros [|e] u _; [apply IH|]. destruct (os_IsNotExist e); [apply IH|done].
Qed.

(** What a read file stands for, a program may rely on from then on. *)
Lemma read_knows n s r t : okay s -> answer run (OpRead n) s r t ->
  match r with Ok c => knows t n (content_event c) | Err _ => True end.
Proof.
  intros Hok Ha. destruct Ha as [|e|e]; [|done..]. cbn. unfold Read. destruct (sp_files s !! n) as [f|] eqn:E; [|done].
  destruct (f_regular f) eqn:Er; [|done]. destruct Hok as [Hc|Hg]; [by left|]. right. destruct (Hg n f E) as (o & Ho & Hev).
  exists o. split; [done|]. intros e He. specialize (Hev e He). unfold file_event in Hev. by rewrite Er in Hev.
Qed.
Lemma spool_secured_read {A} n (k : result content -> spooler A) Q s : okay s ->
  (forall r t, later s t -> match r with Ok c => knows t n (content_event c) | Err _ => True end -> secured (k r) Q t) ->
  secured (Do (OpRead n) k) Q s.
Proof.
  intros Hok Hk. apply secured_do; [done|]. intros t r u Ht Hu Ha. apply Hk; [by eapply spool_later_trans|].
  apply (read_knows n t r u); [by eapply okay_later|done].
Qed.

Lemma base_tmp x t : base_of ((x +:+ ".json" +:+ t) +:+ ".tmp") = base_of (x +:+ ".json" +:+ t).
Proof. rewrite !str_app_assoc. apply base_of_json. Qed.
Definition spooled_name (path : string) : Prop := tracked path = true /\ base_of (path +:+ ".tmp") = base_of path.
Lemma spooled_json x : spooled_name (x +:+ ".json").
Proof. split; [apply tracked_json|]. rewrite <-(str_app_nil_r ".json"). apply base_tmp. Qed.
Lemma spooled_claim path bytes : HasSuffix path ".json" = true -> spooled_name (path +:+ hookSpoolClaimMarker +:+ EncodeToString bytes).
Proof.
  intros H. split; [by apply claim_tracked|]. apply HasSuffix_spec in H as [x ->].
  rewrite (str_app_assoc x ".json" (_ +:+ _)). apply base_tmp.
Qed.
Lemma spooled_retry now x : spooled_name (retry_name now x).
Proof. unfold retry_name. rewrite <-!str_app_assoc. apply spooled_json. Qed.

Lemma marshal_event r c : marshal json_text r = Ok c -> SchemaVersion r = hookSpoolSchemaVersion -> content_event c = Some (event_of r).
Proof.
  unfold marshal. destruct (_ && _); [|done]. intros [= <-] Hv. unfold content_event, parsed. cbn [decoded].
  change (SchemaVersion (json_record r)) with (SchemaVersion r). rewrite Hv. cbn [Z.eqb hookSpoolSchemaVersion fmap option_fmap option_map Pos.eqb].
  by rewrite event_of_json.
Qed.
Lemma safe_write path r s : spooled_name path -> SchemaVersion r = hookSpoolSchemaVersion -> knows s path (Some (event_of r)) ->
  safe (writeHookSpoolRecordAtomic json_text path r) s.
Proof.
  intros [Htr Hb] Hv Hk. unfold writeHookSpoolRecordAtomic. destruct (marshal json_text r) as [c|e] eqn:E; [|done].
  pose proof (marshal_event r c E Hv) as Hev. apply safe_call.
  - intros t Ht. split; [apply HasSuffix_app|]. rewrite Hev. destruct (knows_later s t _ _ Ht Hk) as [?|Hst]; [by left|]. right. unfold stands in *. by rewrite Hb.
  - intros _ t _. apply safe_do; [done|]. intros [|e] u _; [done|]. apply safe_do; [intros v _; left; apply HasSuffix_app|done].
Qed.

Lemma parsed_version c r : parsed c = Some r -> SchemaVersion r = hookSpoolSchemaVersion.
Proof. unfold parsed. destruct (decoded c) as [r'|]; [|done]. destruct (Z.eqb_spec (SchemaVersion r') hookSpoolSchemaVersion); [|done]. by intros [= <-]. Qed.
Lemma knows_again s path c now lastError : knows s path (content_event c) ->
  knows s path (Some (event_of (failed_again (default (raw_record now c) (parsed c)) lastError))).
Proof.
  intros [Hc|(o & Ho & Hev)]; [by left|]. right. exists o. split; [done|]. intros e He. specialize (Hev e He). unfold content_event in Hev.
  destruct (parsed c) as [r|]; [|done]. cbn in *. by rewrite <-Hev.
Qed.
Lemma again_version now c lastError : SchemaVersion (failed_again (default (raw_record now c) (parsed c)) lastError) = hookSpoolSchemaVersion.
Proof. destruct (parsed c) as [r|] eqn:E; [|done]. by apply parsed_version in E. Qed.
Lemma safe_requeue path lastError s : okay s -> spooled_name path -> safe (requeueHookSpoolRecord json_text path lastError) s.
Proof.
  intros Hok Hp. unfold requeueHookSpoolRecord. destruct (_ =?s _); [done|]. apply spool_secured_read; [done|]. intros [c|e] t Ht Hk; [|apply safe_dead].
  apply safe_now. intros now u Hu. apply safe_bind.
  - apply safe_write; [done|apply again_version|]. apply knows_again. by eapply knows_later.
  - intros [|e] v _; [|done]. destruct (shouldDeadLetter _); [apply safe_dead|apply safe_tail].
Qed.

Lemma secured_claim path s : secured (claimHookSpoolRecord path) (fun a _ => match a with Ok (Some c) => spooled_name c | _ => True end) s.
Proof.
  unfold claimHookSpoolRecord. destruct (_ =?s _); [done|]. destruct (HasSuffix path ".json") eqn:Ep; cbn [negb]; [|done].
  apply secured_do; [done|]. intros t r u _ _ Ha. destruct r as [x|e]; [|done].
  assert (exists bytes, x = EncodeToString bytes) as [bytes ->].
  { inversion Ha as [Hx| |]; subst. cbn in Hx. destruct (sp_draws t); [done|]. injection Hx as <-. eauto. }
  pose proof (spooled_claim path bytes Ep) as Hname. apply secured_do.
  - intros v _. split; [|apply Hname]. apply HasSuffix_spec in Ep as [y ->]. rewrite !str_app_assoc. rewrite <-(str_app_nil_r ".json") at 1. apply base_of_json.
  - intros v r w _ _ _. destruct r as [|e]; [|by destruct (os_IsNotExist e)]. apply secured_do; [done|]. intros v' r' w' _ _ _.
    apply secured_do; [done|]. intros ? ? ? _ _ _ ? _. exact Hname.
Qed.

Lemma secured_load c s : okay s -> secured (loadClaimedHookSpoolRecord c)
  (fun a t => match a with Ok (Some r) => knows t c (Some (event_of r)) | _ => True end) s.
Proof.
  intros Hok. apply spool_secured_read; [done|]. intros [data|e] t Ht Hk; [|done]. intros u Hu. unfold content_event in Hk.
  destruct (parsed data) as [r|]; cbn [fmap option_fmap option_map]; [|done]. by apply (knows_later t u).
Qed.

Lemma safe_clear_file n e s : (knows s n (Some e)) -> e ∈ sp_delivered s -> forall t, later s t -> pre (OpRemove n) t.
Proof.
  intros Hk Hd t Ht. right. right. destruct (knows_later s t _ _ Ht Hk) as [?|(o & Ho & Hev)]; [by left|]. right. intros e' He'.
  assert (o = Some e') as -> by congruence. specialize (Hev e' eq_refl). injection Hev as <-. by apply (later_delivered s t Ht).
Qed.
Lemma deliver_logs r s t : answer run (OpDeliver r) s (Ok tt) t -> event_of r ∈ sp_delivered t.
Proof. intros Ha. inversion Ha as [Hx Hy| |]; subst. cbn in *. destruct (handler r); [done|]. by left. Qed.
Lemma secured_replay r s : secured (replayHookSpoolRecord r) (fun a t => a = Ok tt -> event_of r ∈ sp_delivered t) s.
Proof.
  unfold replayHookSpoolRecord. destruct (replay_unsupported r); [done|]. apply secured_do; [done|]. intros t a u _ _ Ha v Hv ->.
  apply (later_delivered u v Hv). by apply (deliver_logs r t u).
Qed.

Lemma safe_drain_claimed c d s : okay s -> spooled_name c -> safe (drain_claimed json_text error_text c d) s.
Proof.
  intros Hok Hc. assert (Hre : forall e t, later s t -> forall d', safe (bind (requeueHookSpoolRecord json_text c e) (fun _ => Ret (d' : hookSpoolDrainResult))) t).
  { intros e t Ht d'. apply safe_bind; [|done]. apply safe_requeue; [by eapply okay_later|done]. }
  eapply secured_bind; [by apply secured_load|]. intros [[r|]|e] t Ht Hk; [|by apply Hre..].
  destruct (shouldDeadLetter _); [apply safe_bind; [apply safe_dead|done]|]. eapply secured_bind; [apply secured_replay|].
  intros [[]|e] u Hu Hd; [|apply Hre; by eapply spool_later_trans].
  apply safe_do; [by apply (safe_clear_file c (event_of r)); [by eapply knows_later|apply Hd]|].
  intros [|e] v Hv; [done|]. destruct (os_IsNotExist e); [done|]. apply Hre. by do 2 (eapply spool_later_trans; [eassumption|]).
Qed.
Lemma safe_past deadline s : safe (past deadline) s.
Proof. destruct deadline as [d|]; [|done]. apply safe_now. by intros now t _. Qed.
Lemma safe_drain_loop limit deadline paths claimed d s : okay s -> safe (drain_loop json_text error_text limit deadline paths claimed d) s.
Proof.
  revert claimed d s. induction paths as [|path rest IH]; intros claimed d s Hok; [done|]. cbn [drain_loop]. destruct (_ <=? _); [done|].
  apply safe_do; [done|]. intros [|e] t Ht; [|done]. apply safe_bind; [apply safe_past|]. intros [] u Hu; [done|].
  assert (Hoku : okay u) by (do 2 (eapply okay_later; [eassumption|]); done). eapply secured_bind; [apply secured_claim|].
  intros [[c|]|e] v Hv Hname; [|by apply IH; eapply okay_later..]. assert (Hokv : okay v) by (by eapply okay_later).
  apply safe_bind; [by apply safe_drain_claimed|]. intros d' w Hw. apply IH. by eapply okay_later.
Qed.

Lemma safe_count_inflight now l n s : safe (count_inflight now l n) s.
Proof.
  revert n s. induction l as [|name l IH]; intros n s; [done|]. cbn. destruct (negb _); [apply IH|]. apply safe_call; [done|]. intros; apply IH.
Qed.
Lemma safe_list s : safe listHookSpoolRecordPaths s.
Proof. apply safe_entries. by intros. Qed.
Lemma safe_count s : safe countHookSpoolRecordPaths s.
Proof. apply safe_bind; [apply safe_list|done]. Qed.
Lemma safe_pending now s : safe (countHookSpoolPendingPaths now) s.
Proof.
  apply safe_bind; [apply safe_list|]. intros [paths|e] t _; [|done]. apply safe_entries. intros. apply safe_count_inflight.
Qed.
Lemma safe_detailed limit deadline s : okay s -> safe (drainHookSpoolRecordsDetailed json_text error_text limit deadline) s.
Proof.
  intros Hok. apply safe_now. intros now t Ht. apply safe_bind; [apply safe_entries; intros; apply safe_recover_current|]. intros [|e] u Hu; [|done].
  apply safe_bind; [apply safe_entries; intros; apply safe_recover_claimed|]. intros [|e] v Hv; [|done].
  destruct (_ <=? _); [apply safe_bind; [apply safe_pending|done]|]. apply safe_bind; [apply safe_list|]. intros [paths|e] w Hw; [|done].
  apply safe_bind; [apply safe_drain_loop; do 4 (eapply okay_later; [eassumption|]); done|]. intros d x _. apply safe_bind; [apply safe_count|done].
Qed.
Lemma safe_rounds fuel deadline remaining d s : okay s -> safe (drain_rounds json_text error_text fuel deadline remaining d) s.
Proof.
  revert remaining d s. induction fuel as [|fuel IH]; intros remaining d s Hok; [done|]. cbn [drain_rounds]. destruct (_ <=? _); [done|].
  apply safe_do; [done|]. intros [|e] t Ht; [|done]. apply safe_bind; [apply safe_past|]. intros [] u Hu; [done|].
  assert (Hoku : okay u) by (do 2 (eapply okay_later; [eassumption|]); done). apply safe_bind; [by apply safe_detailed|].
  intros r v Hv. destruct (dr_Err r); [done|]. destruct (_ =? _); [done|]. apply IH. by eapply okay_later.
Qed.

(** A record that was published under a fresh name is in the spool. *)
Lemma secured_persist r s : okay s -> SchemaVersion r = hookSpoolSchemaVersion ->
  secured (persistCurrentHookSpoolRecord json_text r)
    (fun a t => match a with
                | Ok path => HasSuffix path ".inflight" = true /\ first_is t path (Some (event_of r)) /\ settled t (event_of r)
                | Err _ => True end) s.
Proof.
  intros Hok Hv. unfold persistCurrentHookSpoolRecord, persistHookSpoolRecordWithSuffix. apply secured_do; [done|].
  intros t0 a0 t Ht0 Ht _. destruct a0 as [_|e]; [|done]. assert (Hokt : okay t) by (do 2 (eapply okay_later; [eassumption|]); done). clear Hok Ht0 Ht s t0.
  destruct (marshal json_text r) as [c|e] eqn:Em; [|done]. pose proof (marshal_event r c Em Hv) as Hev.
  set (path x := (spool_stamp (CreatedAt r) +:+ "-" +:+ sanitizeHookStateKey (Client r) +:+ "-" +:+ x)).
  assert (Hpath : forall x, spool_stamp (CreatedAt r) +:+ "-" +:+ sanitizeHookStateKey (Client r) +:+ "-" +:+ x +:+ ".inflight" = path x +:+ ".inflight").
  { intros x. unfold path. by rewrite !str_app_assoc. }
  assert (Hbase : forall x, base_of ((path x +:+ ".inflight") +:+ ".tmp") = base_of (path x +:+ ".inflight")).
  { intros x. rewrite str_app_assoc. rewrite <-(str_app_nil_r ".inflight") at 2. by apply base_of_ext; right. }
  apply secured_do; [done|]. intros u a v Hu Hv' Ha. destruct a as [x|e]; [|done]. rewrite !Hpath.
  assert (Hfirst : first_is v (path x +:+ ".inflight") (Some (event_of r))).
  { inversion Ha as [Hx Hy| |]; subst. cbn [spool_run] in *. destruct (sp_draws u) as [|b draws]; [done|]. cbn [fst] in Hx. injection Hx as Hx. cbn [snd].
    rewrite Hx, Hpath. unfold first_is, unless_collided, Write. cbn [set_files sp_first sp_collided]. set (n := (path x +:+ ".inflight") +:+ ".tmp").
    destruct (take_base_fields (claim_base (drawn u draws) n) n (content_event c)) as (-> & _). unfold claim_base. cbn.
    destruct (sp_first u !! base_of n) eqn:E; [by left|]. right. unfold take_base. cbn. rewrite E. cbn. unfold n. rewrite Hbase, Hev. apply lookup_insert_eq. }
  assert (Hokv : okay v) by (do 2 (eapply okay_later; [eassumption|]); done). apply secured_do; [intros; split; [apply Hbase|apply tracked_inflight]|].
  intros w b y Hw Hy Hb. destruct b as [[]|e]; [|apply secured_do; [intros ? _; left; apply HasSuffix_app|done]].
  assert (Hoky : okay y) by (do 2 (eapply okay_later; [eassumption|]); done).
  assert (Hfy : first_is y (path x +:+ ".inflight") (Some (event_of r))) by (do 2 (eapply first_is_later; [eassumption|]); done).
  assert (Hset : settled y (event_of r)).
  { destruct Hoky as [?|Hg]; [by left|]. destruct Hfy as [?|Hf]; [by left|]. right. left. inversion Hb as [Hx| |]; subst. cbn [spool_run] in *.
    unfold Rename in *. destruct (sp_files w !! _) as [f|] eqn:E; [|done]. cbn [snd] in *.
    apply (kept_here _ _ (path x +:+ ".inflight") f Hg (reflexivity _)); [apply tracked_inflight|by cbn; rewrite lookup_insert_eq|done]. }
  intros z Hz. split_and!; [apply HasSuffix_app|by eapply first_is_later|by eapply settled_later].
Qed.

Lemma safe_clear path e s : HasSuffix path ".inflight" = true -> first_is s path (Some e) -> e ∈ sp_delivered s -> safe (clearCurrentHookSpoolRecord path) s.
Proof.
  intros Hp Hf Hd. assert (Hpre : forall n, base_of n = base_of path -> forall t, later s t -> pre (OpRemove n) t).
  { intros n Hn. apply (safe_clear_file n e s); [|done]. destruct Hf as [?|Hf]; [by left|]. right. exists (Some e). rewrite Hn. split; [done|]. by intros ? [= ->]. }
  apply safe_do; [by apply Hpre|]. intros [|err] t Ht; [done|]. destruct (negb _); [done|].
  apply safe_do; [intros u Hu; apply Hpre; [symmetry; by apply promoted|by eapply spool_later_trans]|]. intros [|err'] u _; [done|]. by destruct (os_IsNotExist err').
Qed.
Lemma safe_deliver spec deadline startedAt r path s : okay s -> HasSuffix path ".inflight" = true -> first_is s path (Some (event_of r)) ->
  safe (deliver_spooled json_text error_text spec deadline startedAt r path) s.
Proof.
  intros Hok Hp Hf. apply safe_do; [done|]. intros [_|e] t Ht; [|apply safe_bind; [apply safe_promote|done]].
  apply secured_do; [done|]. intros u a v Hu Hv Ha. destruct a as [[]|e]; [|apply safe_bind; [apply safe_promote|done]].
  pose proof (deliver_logs r u v Ha) as Hd. assert (Hokv : okay v) by (do 3 (eapply okay_later; [eassumption|]); done).
  apply safe_bind; [apply (safe_clear path (event_of r)); [done|do 3 (eapply first_is_later; [eassumption|]); done|done]|].
  intros [|e] w Hw; [|done]. destruct (boundedPassiveHook spec); [done|]. apply safe_do; [done|]. intros [|e] x Hx; [|done].
  apply safe_now. intros now y Hy. apply safe_bind; [apply safe_now; intros; apply safe_pending|]. intros pending z Hz.
  cbv zeta. destruct (0 <? _); [|done]. apply safe_bind; [|done]. unfold drainHookSpoolRecords. apply safe_bind; [|done].
  apply safe_detailed. do 4 (eapply okay_later; [eassumption|]). done.
Qed.

(** The spooled form of what a hook was given. *)
Definition carries (spec : hookInvocationSpec) (payload : string) (e : hookSpoolRecord) : Prop :=
  Command e = json_string (TrimSpace (spec_Command spec)) /\ Client e = json_string (TrimSpace (spec_Client spec)) /\
  Action e = json_string (TrimSpace (spec_Action spec)) /\ DBPath e = json_string (TrimSpace (spec_DBPath spec)) /\
  Payload e = json_string payload.
Definition hook_post (spec : hookInvocationSpec) (input : result string) (a : result unit) (t : Spool) : Prop :=
  a = Ok tt -> exists payload e, input = Ok payload /\ carries spec payload e /\ settled t e.
Lemma secured_hook spec deadline input capture s : okay s ->
  secured (hook_body json_text error_text spec deadline input capture) (hook_post spec input) s.
Proof.
  intros Hok. apply secured_do; [done|]. intros t0 r t Ht0 Ht _. assert (Hokt : okay t) by (do 2 (eapply okay_later; [eassumption|]); done).
  set (startedAt := match r with Ok x => x | Err _ => time_zero end). clearbody startedAt. clear Hok Ht0 Ht r t0 s.
  destruct input as [payload|e]; [|done]. apply secured_do; [done|]. intros u0 r u Hu0 Hu _. destruct r as [receipt|e]; [|done].
  apply secured_do; [done|]. intros v0 r v Hv0 Hv _. set (now := match r with Ok x => x | Err _ => time_zero end). clearbody now.
  assert (Hokv : okay v) by (do 4 (eapply okay_later; [eassumption|]); done).
  set (record := mkSpoolRecord _ _ _ _ _ _ _ _ _ _ _ _ _). assert (Hc : carries spec payload (event_of record)) by done.
  eapply secured_bind; [by apply secured_persist|]. intros [path|e] w Hw Hp; cbn beta iota.
  - destruct Hp as (Hp & Hf & Hs). assert (Hokw : okay w) by (by eapply okay_later).
    apply (secures_weaken _ _ _ _ (fun _ x => settled x (event_of record))); [intros [] x Hx _; exists payload, (event_of record); done|].
    apply safe_keeps; [intros x Hx; by apply (settled_later w)|by apply safe_deliver].
  - apply secured_do; [done|]. intros x a y _ _ Ha z Hz ->. exists payload, (event_of record). split_and!; [done..|].
    right. right. left. apply (later_delivered y z Hz). by apply (deliver_logs record x y).
Qed.

Lemma renamed_knows s src (dst : string -> string) x t o : knows s src o -> answer run (OpRenameNew src dst) s (Ok x) t -> knows t (dst x) o.
Proof.
  intros Hk Ha. inversion Ha as [Hx Hy| |]; subst. cbn [spool_run] in *. destruct (sp_draws s) as [|b draws]; [done|].
  destruct (sp_files s !! src) as [f|] eqn:E; [|done]. cbn [fst] in Hx. injection Hx as Hx. cbn [snd]. rewrite Hx in *.
  destruct (claim_base_fields (drawn s draws) (dst x)) as (Hf & Hb & _ & _ & Hc & Hn). cbn in Hf, Hb, Hc, Hn.
  set (s1 := claim_base (drawn s draws) (dst x)) in *. unfold Rename. rewrite Hf, E, Hb. cbn [snd]. unfold knows, unless_collided. cbn [set_files sp_collided].
  destruct Hk as [Hcol|(o' & Ho & Hev)].
  - left. destruct (sp_first s !! base_of src); [|by apply Hc]. destruct (take_base_fields s1 (dst x) o0) as (-> & _). by apply Hc.
  - rewrite Ho. destruct (take_base_fields s1 (dst x) o') as (-> & _). destruct (sp_collided s1) eqn:Es; [by left|]. right.
    destruct (Hn eq_refl) as [_ Hfresh]. exists o'. split; [|done]. cbn. unfold take_base. rewrite Hb, Hfresh. cbn. apply lookup_insert_eq.
Qed.
Lemma safe_requeue_dead now path r c s : SchemaVersion r = hookSpoolSchemaVersion -> knows s path (Some (event_of r)) ->
  safe (requeue_dead json_text now path r c) s.
Proof.
  intros Hv Hk. apply secured_do; [intros ? _ x; apply tracked_retry|]. intros t a u Ht Hu Ha. destruct a as [x|e]; [|done].
  apply safe_bind; [|by intros []]. apply safe_write; [apply spooled_retry|done|].
  apply (renamed_knows t path _ x u _ (knows_later s t _ _ Ht Hk) Ha).
Qed.
Lemma safe_requeue_loop now dryRun limit l c s : okay s -> safe (requeue_loop json_text now dryRun limit l c) s.
Proof.
  revert c s. induction l as [|path l IH]; intros c s Hok; [done|]. cbn [requeue_loop]. apply safe_do; [done|]. intros [|e] t Ht; [|done].
  assert (Hokt : okay t) by (by eapply okay_later). destruct (negb _); [by apply IH|]. apply spool_secured_read; [done|]. intros [data|e] u Hu Hk.
  2: { apply IH. by eapply okay_later. }
  assert (Hoku : okay u) by (by eapply okay_later). unfold content_event in Hk. destruct (parsed data) as [r|] eqn:Er; [|by apply IH].
  destruct (negb _); [by apply IH|]. destruct (_ && _); [by apply IH|]. destruct dryRun; [by apply IH|].
  apply safe_bind; [apply safe_requeue_dead; [by eapply parsed_version|done]|]. intros c' v Hv. destruct (rq_err c'); [done|]. apply IH. by eapply okay_later.
Qed.
Lemma safe_limited now dryRun limit s : okay s -> safe (requeueHookSpoolDeadLettersLimited json_text now dryRun limit) s.
Proof. intros Hok. apply safe_do; [done|]. intros [l|e] t Ht; [|done]. apply safe_requeue_loop. by eapply okay_later. Qed.
Lemma safe_batches fuel now deadline c s : okay s -> safe (requeue_batches json_text fuel now deadline c) s.
Proof.
  revert c s. induction fuel as [|fuel IH]; intros c s Hok; [done|]. cbn [requeue_batches]. apply safe_do; [done|]. intros [|e] t Ht; [|done].
  apply safe_bind; [apply safe_past|]. intros late u Hu. assert (Hoku : okay u) by (do 2 (eapply okay_later; [eassumption|]); done).
  destruct late; [apply safe_bind; [by apply safe_limited|done]|]. apply safe_bind; [by apply safe_limited|]. intros batch v Hv.
  destruct (rq_err batch); [done|]. destruct (_ =? _); [done|]. apply IH. by eapply okay_later.
Qed.
Lemma safe_until fuel now dryRun deadline s : okay s -> safe (requeueHookSpoolDeadLettersUntil json_text fuel now dryRun deadline) s.
Proof. intros Hok. unfold requeueHookSpoolDeadLettersUntil. destruct dryRun; [apply safe_bind; [by apply safe_limited|done]|by apply safe_batches]. Qed.

(** What may be pruned: retained files, and files that were never published. *)
Definition prunable (n : string) : Prop := in_dead n = true \/ is_tmp n = true.
Lemma safe_prune_loop suffix young gone f1 f2 cutoff dryRun l c s : (forall n, n ∈ l -> HasSuffix n suffix = true -> prunable n) ->
  safe (prune_loop suffix young gone f1 f2 cutoff dryRun l c) s.
Proof.
  revert c s. induction l as [|n l IH]; intros c s Hl; [done|]. assert (Hl' : forall m, m ∈ l -> HasSuffix m suffix = true -> prunable m) by (intros m Hm; apply Hl; by right).
  cbn [prune_loop]. destruct (HasSuffix n suffix) eqn:En; cbn [negb]; [|by apply IH]. apply safe_do; [done|]. intros [m|e] t _.
  2: { destruct (_ && _); [by apply IH|done]. }
  destruct (negb _); [by apply IH|]. destruct (_ <=? _); [by apply IH|]. destruct dryRun; [by apply IH|].
  apply safe_do; [intros u _; destruct (Hl n ltac:(by left) En); [right; by left|by left]|]. intros [|e] u _; [by apply IH|]. destruct (os_IsNotExist e); [by apply IH|done].
Qed.
Lemma secured_listing {A} dead (k : result (list string) -> spooler A) s :
  (forall r t, later s t -> (forall l n, r = Ok l -> n ∈ l -> in_dead n = dead) -> safe (k r) t) -> safe (Do (OpReadDir dead) k) s.
Proof.
  intros Hk. apply secured_do; [done|]. intros t r u Ht Hu Ha. apply Hk; [by eapply spool_later_trans|]. intros l n -> Hn.
  inversion Ha as [Hx Hy| |]; subst. unfold ReadDir in Hn. by rewrite sorting.merge_sort_Permutation, list_elem_of_filter in Hn; destruct Hn.
Qed.
Lemma safe_prune_dead now dryRun s : safe (pruneHookSpoolDeadLetters now dryRun) s.
Proof.
  apply secured_listing. intros [l|e] t _ Hl; [|done]. apply safe_prune_loop. intros n Hn _. left. by eapply Hl.
Qed.
Lemma safe_prune_tmp now dryRun s : safe (pruneHookSpoolOrphanTmpFiles now dryRun) s.
Proof. apply safe_do; [done|]. intros [l|e] t _; [|done]. apply safe_prune_loop. intros n _ Hn. by right. Qed.
Lemma safe_fix fuel now dryRun s : okay s -> safe (fixHookSpoolRequeueThenDrain json_text error_text fuel now dryRun) s.
Proof.
  intros Hok. apply safe_bind; [apply safe_pending|]. intros [pending|e] t Ht; [|done].
  apply safe_bind; [destruct dryRun; [done|apply safe_now; by intros]|]. intros deadline u Hu.
  assert (Hoku : okay u) by (do 2 (eapply okay_later; [eassumption|]); done). apply safe_bind; [by apply safe_until|]. intros [c|] v Hv; [|done].
  destruct (rq_err c); [done|]. apply safe_bind; [apply safe_prune_dead|]. intros dead w Hw. destruct (pr_err dead); [done|].
  apply safe_bind; [apply safe_prune_tmp|]. intros tmp x Hx. destruct (pr_err tmp); [done|]. destruct dryRun; [done|].
  apply safe_bind; [apply safe_rounds; do 3 (eapply okay_later; [eassumption|]); done|]. by intros [d|].
Qed.

(** ** Processes *)

Inductive job :=
| JHook (spec : hookInvocationSpec) (deadline : option Time) (input : result string) (capture : option string * bool)
| JDrain (limit : Z)
| JFix (fuel : nat) (now : Time) (dryRun : bool).
Definition process (j : job) : spooler (result unit) :=
  match j with
  | JHook spec deadline input capture => hook_body json_text error_text spec deadline input capture
  | JDrain limit => bind (drainHookSpoolRecordsDetailed json_text error_text limit None) (fun _ => Ret (Ok tt))
  | JFix fuel now dryRun => bind (fixHookSpoolRequeueThenDrain json_text error_text fuel now dryRun) (fun _ => Ret (Ok tt))
  end.
(** Meanwhile the clock moves, forwards or backwards. *)
Definition elsewhere (s t : Spool) : Prop := exists now, t = set_now s now.
Lemma elsewhere_later s t : elsewhere s t -> later s t.
Proof. intros [now ->]. by apply same_later. Qed.
Notation pool := (star (pool_step run elsewhere)).

Definition process_post (j : job) (a : result unit) (t : Spool) : Prop :=
  match j with JHook spec _ input _ => hook_post spec input a t | _ => True end.
Lemma secured_process j s : okay s -> secured (process j) (process_post j) s.
Proof.
  intros Hok. destruct j; cbn [process process_post]; [by apply secured_hook|..].
  - apply safe_bind; [by apply safe_detailed|done].
  - apply safe_bind; [by apply safe_fix|done].
Qed.
Definition jobs_post (jobs : list job) (i : nat) (a : result unit) (t : Spool) : Prop := forall j, jobs !! i = Some j -> process_post j a t.
Lemma jobs_secured jobs s : okay s -> forall i p, (process <$> jobs) !! i = Some p -> secured p (jobs_post jobs i) s.
Proof.
  intros Hok i p Hp. rewrite list_lookup_fmap in Hp. destruct (jobs !! i) as [j|] eqn:Ej; [|done]. injection Hp as <-.
  apply (secures_weaken _ _ _ _ (process_post j)); [|by apply secured_process]. intros a t H j' Hj'. congruence.
Qed.
Lemma pool_keeps jobs s0 s ps : good s0 -> pool (s0, process <$> jobs) (s, ps) ->
  later s0 s /\ forall i p, ps !! i = Some p -> secured p (jobs_post jobs i) s.
Proof.
  intros Hg H. apply (pool_secures run later later spool_later_refl spool_later_trans elsewhere _ _ _ _ _ (fun _ _ H => H) elsewhere_later H).
  apply jobs_secured. by right.
Qed.

(** (C15) An invocation in the spool stays in it, replayable or under [dead/], until
    a handler commits it or a pruning removes it from [dead/]: over every
    interleaving of hooks, drains and fixes, with crashes and failing calls,
    unless a name drawn at random was already taken. *)
Theorem spool_never_loses jobs s0 s ps t ps' e : good s0 -> pool (s0, process <$> jobs) (s, ps) -> pool (s, ps) (t, ps') ->
  sp_collided t = false -> kept s e -> accounted t e.
Proof.
  intros Hg Hs Ht Hc Hk. destruct (pool_keeps jobs s0 s ps Hg Hs) as [H0 Hps].
  destruct (pool_secures run later later spool_later_refl spool_later_trans elsewhere _ _ _ _ _ (fun _ _ H => H) elsewhere_later Ht Hps) as [Hst _].
  destruct (okay_later s0 s H0 ltac:(by right)) as [Hcs|Hgs]; [by rewrite (later_collided s t Hst Hcs) in Hc|]. by apply (later_good s t Hst).
Qed.

(** (C16) A hook that reports success has had its invocation committed, or it is in
    the spool from then on. *)
Theorem hook_success_accounted jobs s0 s ps t ps' i spec deadline input capture : good s0 ->
  pool (s0, process <$> jobs) (s, ps) -> pool (s, ps) (t, ps') -> sp_collided t = false ->
  jobs !! i = Some (JHook spec deadline input capture) -> ps !! i = Some (Ret (Ok tt)) ->
  exists payload e, input = Ok payload /\ carries spec payload e /\ accounted t e.
Proof.
  intros Hg Hs Ht Hc Hj Hi. destruct (pool_keeps jobs s0 s ps Hg Hs) as [H0 Hps].
  destruct (pool_secures run later later spool_later_refl spool_later_trans elsewhere _ _ _ _ _ (fun _ _ H => H) elsewhere_later Ht Hps) as [Hst _].
  destruct (Hps i _ Hi s (spool_later_refl s) _ Hj eq_refl) as (payload & e & Hin & Hcar & Hset). exists payload, e. split_and!; [done..|].
  destruct (settled_later s t e (okay_later s0 s H0 ltac:(by right)) Hst Hset); [congruence|done].
Qed.
End Safe.

(** ** Examples *)

Definition spool_new (now : Time) (draws : list (list ascii)) : Spool := mkSpool ∅ now draws ∅ false [] [].
Lemma good_new now draws : good (spool_new now draws).
Proof. intros n f H. cbn in H. by rewrite lookup_empty in H. Qed.

Definition ex_handler (r : hookSpoolRecord) : option error := if Payload r =?s "bad" then Some (Sentinel "database is locked") else None.
Definition ex_error (e : error) : string := "database is locked".
Definition ex_draws : list (list ascii) := map (fun n => [ascii_of_nat n]) (seq 1 20).
Definition ex_time (seconds : Z) : Time := mkTime (unix_epoch_ns + seconds * Second) None 0.
Definition ex_record (payload : string) (attempts : Z) : hookSpoolRecord :=
  mkSpoolRecord 1 "session" "claude" "start" "" payload (ex_time 0) "spool:00" None false attempts "" "".
Definition ex_file (payload : string) (attempts : Z) : File := mkFile (mkContent payload (Some (ex_record payload attempts))) (ex_time 0) true.
Definition ex_spool (files : list (string * File)) (seconds : Z) : Spool :=
  mkSpool (list_to_map files) (ex_time seconds) ex_draws (list_to_map (map (fun nf => (base_of (fst nf), file_event (snd nf))) files)) false [] [].
Definition ex_step {A} (n : nat) (p : spooler A) (s : Spool) : spooler A * Spool := steps (spool_run ex_handler) n p s.
Definition ex_alone {A} (p : spooler A) (s : Spool) : A * Spool := alone (spool_run ex_handler) p s.
Definition ex_drain (limit : Z) : spooler hookSpoolDrainResult := drainHookSpoolRecordsDetailed Payload ex_error limit None.
Definition ex_copies (s : Spool) (payload : string) : list string :=
  filter (fun n => HasSuffix n ".json" = true) (omap (fun nf => if bool_decide (file_event (snd nf) = Some (event_of (ex_record payload 0))) then Some (fst nf) else None) (map_to_list (sp_files s))).

(** A drain that dies while it rewrites the record of a failed delivery leaves
    the record under its claim and the new text beside it, under the name of
    the claim followed by [.tmp].  That name is taken for a claim too, so that
    the next drain makes two replayable records of one invocation. *)
Definition ex_old : Spool := ex_spool [("a.json", ex_file "bad" 0)] 7200.
Definition ex_crashed : Spool := set_now (snd (ex_step 14 (ex_drain 5) ex_old)) (ex_time 14400).
Lemma crash_duplicates : List.length (ex_copies ex_crashed "bad") = 0%nat /\
  let '(result, t) := ex_alone (ex_drain 5) ex_crashed in dr_Failed result = 2 /\ List.length (ex_copies t "bad") = 2%nat.
Proof. by vm_compute. Qed.

(** Between the rename of a claim and the setting of its time, the claim of a
    record that waited long looks stale: another drain releases it, and both
    deliver the record. *)
Definition ex_waiting : Spool := ex_spool [("a.json", ex_file "ok" 0)] 7200.
Definition ex_race : Spool :=
  let a := ex_step 7 (ex_drain 5) ex_waiting in
  let b := ex_step 4 (ex_drain 5) (snd a) in
  let a' := ex_step 3 (fst a) (snd b) in
  let b' := ex_alone (fst b) (snd a') in
  snd (ex_alone (fst a') (snd b')).
Lemma claim_window_delivers_twice : sp_delivered ex_race = [event_of (ex_record "ok" 0); event_of (ex_record "ok" 0)] /\ sp_now ex_race = ex_time 7200.
Proof. by vm_compute. Qed.

(** A drain that loses the race for a stale record gives up: the test for a
    file that does not exist does not see through the error's wrapping. *)
Lemma wrapped_not_seen format args e : os_IsNotExist (Wrap format args e) = false.
Proof. done. Qed.
Definition ex_lost : hookSpoolDrainResult :=
  let a := ex_step 3 (ex_drain 5) (ex_spool [("a.inflight", ex_file "ok" 0); ("b.json", ex_file "ok" 0)] 7200) in
  fst (ex_alone (fst a) (snd (ex_alone (promoteCurrentHookSpoolRecord "a.inflight") (snd a)))).
Lemma lost_race_aborts :
  ex_lost = drain_failed (Wrap "failed to promote current hook spool record: %w" [] (link_not_exist "a.inflight" "a.json")).
Proof. by vm_compute. Qed.

(** The round that replays nothing is left out of the report: here the second
    failed delivery, which moved the last record to [dead/]. *)
Definition ex_report : option hookSpoolDrainResult * Spool :=
  ex_alone (drainHookSpoolRecordsUntil Payload ex_error 10 2 None) (ex_spool [("a.json", ex_file "ok" 0); ("b.json", ex_file "bad" 1)] 0).
Lemma report_omits_last_round : fst ex_report = Some (mkDrain 1 1 0 1 None) /\ ReadDir (snd ex_report) false = [] /\
  omap (fun n => f ← sp_files (snd ex_report) !! n; r ← parsed (f_content f); Some (AttemptCount r)) (ReadDir (snd ex_report) true) = [3].
Proof. by vm_compute. Qed.

(** Bytes that are no UTF-8 do not survive the wrapping of an unreadable file. *)
Lemma raw_bytes_coerced : let raw := String "255" "" in
  Payload (json_record (raw_record (ex_time 0) (mkContent raw None))) <> raw.
Proof. by vm_compute. Qed.

(** ** Witnesses *)

Definition ex_kept : Spool := ex_spool [("b.json", ex_file "bad" 2); ("a.json", ex_file "ok" 0)] 0.
Lemma ex_kept_good : good ex_kept.
Proof.
  intros n f H. apply (elem_of_list_to_map_2 (M := gmap string)), list_elem_of_In in H. destruct H as [[= <- <-]|[[= <- <-]|[]]].
  - exists (file_event (ex_file "bad" 2)). split; [by vm_compute|done].
  - exists (file_event (ex_file "ok" 0)). split; [by vm_compute|done].
Qed.
Definition ex_processes : list job := [JDrain 5; JHook (mkSpec "session" "claude" "start" "") None (Ok "ok") (None, false)].
Definition ex_pool : list (spooler (result unit)) := process Payload ex_error <$> ex_processes.
Definition ex_after : Spool := snd (ex_alone (process Payload ex_error (JDrain 5)) ex_kept).
Lemma ex_after_reached : star (pool_step (spool_run ex_handler) elsewhere) (ex_kept, ex_pool)
  (ex_after, <[0%nat := Ret (fst (ex_alone (process Payload ex_error (JDrain 5)) ex_kept))]> ex_pool).
Proof. by apply alone_star. Qed.
Lemma ex_after_facts : sp_collided ex_after = false.
Proof. by vm_compute. Qed.
Lemma ex_bad_kept : kept ex_kept (event_of (ex_record "bad" 2)).
Proof. exists "b.json", (ex_file "bad" 2). split_and!; by vm_compute. Qed.
Lemma spool_never_loses_witness : accounted ex_after (event_of (ex_record "bad" 2)).
Proof.
  exact (spool_never_loses Payload ex_error ex_handler ex_processes ex_kept ex_kept ex_pool ex_after _ _ ex_kept_good
           (star_refl _ _) ex_after_reached ex_after_facts ex_bad_kept).
Defined.

Definition ex_spec : hookInvocationSpec := mkSpec "session" "claude" "start" "".
Definition ex_hooks : list job := [JHook ex_spec None (Ok "ok") (None, false); JDrain 5].
Definition ex_empty : Spool := spool_new (ex_time 0) ex_draws.
Definition ex_hook_pool : list (spooler (result unit)) := process Payload ex_error <$> ex_hooks.
Definition ex_hook : result unit * Spool := ex_alone (process Payload ex_error (JHook ex_spec None (Ok "ok") (None, false))) ex_empty.
Lemma ex_hook_facts : (fst ex_hook, sp_collided (snd ex_hook)) = (Ok tt, false).
Proof. by vm_compute. Qed.
Lemma ex_hook_reached : star (pool_step (spool_run ex_handler) elsewhere) (ex_empty, process Payload ex_error <$> ex_hooks)
  (snd ex_hook, <[0%nat := Ret (Ok tt)]> ex_hook_pool).
Proof. fold ex_hook_pool. pose proof ex_hook_facts as [H _]%pair_parts. rewrite <-H.
  exact (alone_star (spool_run ex_handler) elsewhere (process Payload ex_error (JHook ex_spec None (Ok "ok") (None, false))) ex_empty ex_hook_pool 0 eq_refl).
Qed.
Lemma ex_hook_at : <[0%nat := Ret (Ok tt)]> ex_hook_pool !! 0%nat = Some (Ret (Ok tt)).
Proof. apply list_lookup_insert_eq. unfold ex_hook_pool. rewrite length_fmap. cbn. lia. Qed.
Lemma ex_hook_job : ex_hooks !! 0%nat = Some (JHook ex_spec None (Ok "ok") (None, false)).
Proof. done. Qed.
Lemma ex_hook_fresh : sp_collided (snd ex_hook) = false.
Proof. by pose proof ex_hook_facts as [_ H]%pair_parts. Qed.
Lemma hook_success_accounted_witness : exists payload e, Ok "ok" = Ok payload /\ carries ex_spec payload e /\ accounted (snd ex_hook) e.
Proof.
  exact (hook_success_accounted Payload ex_error ex_handler ex_hooks ex_empty (snd ex_hook) (<[0%nat := Ret (Ok tt)]> ex_hook_pool) (snd ex_hook)
           (<[0%nat := Ret (Ok tt)]> ex_hook_pool) 0 ex_spec None (Ok "ok") (None, false) (good_new _ _) ex_hook_reached (star_refl _ _)
           ex_hook_fresh ex_hook_job ex_hook_at).
Defined.
