(* ===== verification/HookSpoolAlone.v ===== *)
(** * A drain alone

    What a drain does when no other process touches the spool and the file
    system does not fail: which records it delivers and in what order, and what
    becomes of a record whose handler refuses it. *)

From stdpp Require Import sorting.
From S2P Require Import Prelude GoStrings GoOs Ordering GoTime GoTimeText SqliteText SpoolFiles Interleaving HookSpool SpoolNames HookSpoolSafe.

(** ** The queue *)

Lemma sorted_filter {A} (R : relation A) (P : A -> Prop) `{!forall x, Decision (P x)} l : StronglySorted R l -> StronglySorted R (filter P l).
Proof.
  induction 1 as [|x l Hs IH Hx]; [constructor|]. rewrite filter_cons. destruct (decide (P x)); [|done]. constructor; [done|].
  apply Forall_forall. intros y [_ Hy]%list_elem_of_filter. rewrite Forall_forall in Hx. by apply Hx.
Qed.

(** The files that a drain replays, in the order of their names. *)
Definition pending (s : Spool) : list string := filter (fun n => HasSuffix n ".json" = true) (ReadDir s false).
Lemma elem_of_entries s dead n : n ∈ ReadDir s dead <-> in_dead n = dead /\ is_Some (sp_files s !! n).
Proof.
  unfold ReadDir. rewrite merge_sort_Permutation, list_elem_of_filter. f_equiv. rewrite list_elem_of_fmap. split.
  - intros ([m f] & -> & H%elem_of_map_to_list). by exists f.
  - intros [f Hf]. exists (n, f). split; [done|]. by apply elem_of_map_to_list.
Qed.
Lemma elem_of_pending s n : n ∈ pending s <-> HasSuffix n ".json" = true /\ in_dead n = false /\ is_Some (sp_files s !! n).
Proof. unfold pending. by rewrite list_elem_of_filter, elem_of_entries. Qed.
Lemma pending_sorted s : StronglySorted string_le (pending s).
Proof. apply sorted_filter. unfold ReadDir. apply StronglySorted_merge_sort; apply _. Qed.
Lemma pending_nodup s : NoDup (pending s).
Proof. apply NoDup_filter. unfold ReadDir. rewrite merge_sort_Permutation. apply NoDup_filter, NoDup_fst_map_to_list. Qed.

Section Alone.
Context (json_text : hookSpoolRecord -> string) (error_text : error -> string) (handler : hookSpoolRecord -> option error).
Notation run := (spool_run handler).

Lemma alone_do {A B} (op : SpoolOp B) (k : result B -> spooler A) s : alone run (Do op k) s = alone run (k (fst (run B op s))) (snd (run B op s)).
Proof. done. Qed.
Lemma alone_now {A} (k : Time -> spooler A) s : alone run (with_now k) s = alone run (k (sp_now s)) s.
Proof. done. Qed.

(** What the proofs follow of a state. *)
Definition looks (s : Spool) (files : gmap string File) (draws : list (list ascii)) (delivered : list hookSpoolRecord) : Prop :=
  sp_files s = files /\ sp_draws s = draws /\ sp_delivered s = delivered.
Definition touched (f : File) (t : Time) : File := mkFile (f_content f) (StripMono t) (f_regular f).

Lemma rename_looks s src dst f : sp_files s !! src = Some f ->
  fst (Rename s src dst) = Ok tt /\ looks (snd (Rename s src dst)) (<[dst:=f]> (delete src (sp_files s))) (sp_draws s) (sp_delivered s) /\
  sp_now (snd (Rename s src dst)) = sp_now s.
Proof.
  intros E. unfold Rename. rewrite E. split_and!; [done|..]; destruct (sp_first s !! base_of src) as [o|]; unfold take_base;
    try destruct (sp_first s !! base_of dst); done.
Qed.

Definition claim_name (path : string) (bytes : list ascii) : string := path +:+ hookSpoolClaimMarker +:+ EncodeToString bytes.
Lemma json_visible path : HasSuffix path ".json" = true -> (TrimSpace path =?s "") = false.
Proof. intros [x ->]%HasSuffix_spec. change ".json" with (".jso" +:+ "n"). rewrite <-str_app_assoc. by apply TrimSpace_visible. Qed.

Lemma alone_claim path f bytes draws s : HasSuffix path ".json" = true -> sp_files s !! path = Some f -> sp_draws s = bytes :: draws ->
  exists s', alone run (claimHookSpoolRecord path) s = (Ok (Some (claim_name path bytes)), s') /\
    looks s' (<[claim_name path bytes := touched f (sp_now s)]> (delete path (sp_files s))) draws (sp_delivered s).
Proof.
  intros Hj Hf Hd. pose proof (json_visible path Hj) as Ht. unfold claimHookSpoolRecord. rewrite Ht, Hj. cbn [negb]. rewrite alone_call. cbn [spool_run]. rewrite Hd. cbn [fst snd].
  fold (claim_name path bytes). set (c := claim_name path bytes). rewrite alone_do. cbn [spool_run].
  destruct (rename_looks (drawn s draws) path c f Hf) as (-> & (Ef & Ed & El) & En). set (s1 := snd (Rename (drawn s draws) path c)) in *.
  rewrite alone_now, alone_do. cbn [spool_run alone].
  exists (snd (Chtimes s1 c (sp_now s1))). split; [done|]. unfold Chtimes. rewrite Ef, lookup_insert_eq. cbn [snd].
  unfold looks. cbn. by rewrite Ed, El, En, insert_insert_eq.
Qed.

Lemma alone_load c f r s : sp_files s !! c = Some f -> f_regular f = true -> parsed (f_content f) = Some r ->
  alone run (loadClaimedHookSpoolRecord c) s = (Ok (Some (set_path r c)), s).
Proof.
  intros Hf Hr Hp. unfold loadClaimedHookSpoolRecord. rewrite alone_call. cbn [spool_run fst snd]. unfold Read. rewrite Hf, Hr. cbn. by rewrite Hp.
Qed.
Lemma alone_replay r s : replay_unsupported r = None -> handler r = None ->
  exists s', alone run (replayHookSpoolRecord r) s = (Ok tt, s') /\ looks s' (sp_files s) (sp_draws s) (event_of r :: sp_delivered s).
Proof.
  intros Hu Hh. unfold replayHookSpoolRecord. rewrite Hu, alone_do. cbn [spool_run]. rewrite Hh. cbn [fst snd alone]. by eexists.
Qed.

(** A record that its handler takes. *)
Definition acceptable (f : File) (r : hookSpoolRecord) : Prop :=
  f_regular f = true /\ parsed (f_content f) = Some r /\ shouldDeadLetter (AttemptCount r) = false /\ replay_unsupported r = None /\
  forall path, handler (set_path r path) = None.

Lemma alone_accepted c f r d s : sp_files s !! c = Some f -> acceptable f r ->
  exists s', alone run (drain_claimed json_text error_text c d) s = (one_replayed d, s') /\
    looks s' (delete c (sp_files s)) (sp_draws s) (event_of r :: sp_delivered s).
Proof.
  intros Hf (Hr & Hp & Ha & Hu & Hh). unfold drain_claimed. rewrite alone_bind, (alone_load c f r) by done. cbn [fst snd].
  change (AttemptCount (set_path r c)) with (AttemptCount r). rewrite Ha, alone_bind.
  destruct (alone_replay (set_path r c) s Hu (Hh c)) as (s1 & -> & Ef & Ed & El). cbn [fst snd]. rewrite alone_do. cbn [spool_run].
  exists (snd (Remove s1 c)). unfold Remove. rewrite Ef, Hf. cbn. split; [done|]. unfold looks. cbn. by rewrite Ed, El.
Qed.

(** The next record of the queue: claimed under a new name, delivered, and gone. *)
Lemma alone_next limit path rest n d f r bytes draws s : n < limit -> HasSuffix path ".json" = true ->
  sp_files s !! path = Some f -> sp_files s !! claim_name path bytes = None -> sp_draws s = bytes :: draws -> acceptable f r ->
  exists s', alone run (drain_loop json_text error_text limit None (path :: rest) n d) s =
             alone run (drain_loop json_text error_text limit None rest (n + 1) (one_replayed d)) s' /\
    looks s' (delete path (sp_files s)) draws (event_of r :: sp_delivered s).
Proof.
  intros Hn Hj Hf Hc Hd Hacc. cbn [drain_loop]. destruct (Z.leb_spec limit n); [lia|]. rewrite alone_do. cbn [spool_run fst snd past bind].
  rewrite alone_bind. destruct (alone_claim path f bytes draws s Hj Hf Hd) as (s1 & -> & Ef & Ed & El). cbn [fst snd]. rewrite alone_bind.
  destruct (alone_accepted (claim_name path bytes) (touched f (sp_now s)) r d s1) as (s2 & -> & Ef2 & Ed2 & El2).
  - by rewrite Ef, lookup_insert_eq.
  - exact Hacc.
  - exists s2. split; [done|]. unfold looks. rewrite Ef2, Ed2, El2, Ef, Ed, El. split_and!; [|done..].
    apply delete_insert_id. destruct (decide (claim_name path bytes = path)) as [->|]; [by rewrite lookup_delete_eq|by rewrite lookup_delete_ne].
Qed.

Lemma claim_unclaimed path bytes s : HasSuffix path ".json" = true -> (forall n f, sp_files s !! n = Some f -> isHookSpoolClaimFile n = false) ->
  sp_files s !! claim_name path bytes = None.
Proof.
  intros Hj Hn. destruct (sp_files s !! claim_name path bytes) as [f|] eqn:E; [|done]. exfalso. pose proof (Hn _ f E) as H.
  unfold isHookSpoolClaimFile, claim_name in H. rewrite claim_index in H. destruct (Z.ltb_spec (llen (explode path)) 0); [unfold llen in *; lia|].
  rewrite slice_to_app in H. congruence.
Qed.

Definition replayed (d : hookSpoolDrainResult) (n : nat) : hookSpoolDrainResult :=
  mkDrain (dr_Replayed d + Z.of_nat n) (dr_Failed d) (dr_Unreadable d) (dr_Remaining d) (dr_Err d).
Definition ready (s : Spool) (path : string) (r : hookSpoolRecord) : Prop := exists f, sp_files s !! path = Some f /\ acceptable f r.

Lemma Forall2_elem {A B} (P Q : A -> B -> Prop) l k : Forall2 P l k -> (forall x y, x ∈ l -> P x y -> Q x y) -> Forall2 Q l k.
Proof. induction 1 as [|x y l k Hxy _ IH]; intros HQ; constructor; [by apply HQ; [left|]|]. apply IH. intros a b Ha. apply HQ. by right. Qed.
Lemma alone_queue l rest limit rs : NoDup l -> Forall (fun path => HasSuffix path ".json" = true) l -> forall n d s,
  n + llen l <= limit -> rest = [] \/ n + llen l = limit -> (List.length l <= List.length (sp_draws s))%nat ->
  (forall m f, sp_files s !! m = Some f -> isHookSpoolClaimFile m = false) -> Forall2 (ready s) l rs ->
  exists s', alone run (drain_loop json_text error_text limit None (l ++ rest) n d) s = (replayed d (List.length l), s') /\
    sp_files s' = foldr delete (sp_files s) l /\ sp_delivered s' = rev (event_of <$> rs) ++ sp_delivered s.
Proof.
  intros Hnd Hj. revert rs. induction Hnd as [|path l Hpath Hnd IH]; intros rs n d s Hlim Hrest Hdraws Hclaims Hready.
  - apply Forall2_nil_inv_l in Hready as ->. exists s. cbn [app foldr fmap list_fmap rev List.length] in *. split_and!; [|done..].
    replace (replayed d 0) with d by (destruct d; unfold replayed; cbn; f_equal; lia).
    destruct rest as [|path rest]; [done|]. destruct Hrest as [?|Hn]; [done|]. cbn [drain_loop]. unfold llen in *. cbn in Hn.
    by destruct (Z.leb_spec limit n); [|lia].
  - apply Forall_cons in Hj as [Hjp Hj]. apply Forall2_cons_inv_l in Hready as (r & rs' & (f & Hf & Hacc) & Hready & ->).
    destruct (sp_draws s) as [|bytes draws] eqn:Ed; [cbn in Hdraws; lia|]. assert (Hlen : llen (path :: l) = llen l + 1) by (unfold llen; cbn; lia).
    destruct (alone_next limit path (l ++ rest) n d f r bytes draws s) as (s1 & E1 & Ef1 & Ed1 & El1); try done.
    { unfold llen in *. lia. } { by apply claim_unclaimed. }
    destruct (IH Hj rs' (n + 1) (one_replayed d) s1) as (s2 & E2 & Ef2 & El2).
    + lia.
    + destruct Hrest; [by left|right; lia].
    + rewrite Ed1. cbn in Hdraws. lia.
    + intros m g Hm. rewrite Ef1 in Hm. apply lookup_delete_Some in Hm as [_ Hm]. by eapply Hclaims.
    + apply (Forall2_elem (ready s)); [done|]. intros q r' Hq (g & Hg & Hacc'). exists g. split; [|done]. rewrite Ef1.
      rewrite lookup_delete_ne; [done|]. by intros ->.
    + exists s2. cbn [app]. rewrite E1, E2. split_and!.
      * f_equal. unfold replayed, one_replayed. cbn. f_equal. lia.
      * cbn [foldr]. by rewrite Ef2, Ef1, delete_foldr_delete.
      * rewrite El2, El1. cbn [fmap list_fmap rev]. by rewrite <-app_assoc.
Qed.

(** Nothing to take over: no claim, and no invocation in flight for long. *)
Definition calm (s : Spool) : Prop := forall n f, sp_files s !! n = Some f ->
  isHookSpoolClaimFile n = false /\ (HasSuffix n ".inflight" = true -> Sub (UTC (sp_now s)) (f_mtime f) < hookSpoolInflightStaleAge).

Lemma alone_entries {A} dead format (k : list string -> spooler (result A)) absent s :
  alone run (read_entries dead format k absent) s = alone run (k (ReadDir s dead)) s.
Proof. done. Qed.
Lemma alone_recover_current l s : calm s -> (forall n, n ∈ l -> is_Some (sp_files s !! n)) ->
  alone run (recover_current_loop (UTC (sp_now s)) l) s = (Ok tt, s).
Proof.
  intros Hc. induction l as [|n l IH]; intros Hl; [done|]. assert (Hl' : forall m, m ∈ l -> is_Some (sp_files s !! m)) by (intros m Hm; apply Hl; by right).
  cbn [recover_current_loop]. destruct (HasSuffix n ".inflight") eqn:E; cbn [negb]; [|by apply IH]. rewrite alone_call. cbn [spool_run fst snd].
  destruct (Hl n) as [f Hf]; [by left|]. rewrite Hf. destruct (Hc n f Hf) as [_ Hy]. specialize (Hy E).
  destruct (Z.ltb_spec (Sub (UTC (sp_now s)) (f_mtime f)) hookSpoolInflightStaleAge); [by apply IH|lia].
Qed.
Lemma alone_recover_claimed now l s : calm s -> (forall n, n ∈ l -> is_Some (sp_files s !! n)) -> alone run (recover_claimed_loop now l) s = (Ok tt, s).
Proof.
  intros Hc. induction l as [|n l IH]; intros Hl; [done|]. cbn [recover_claimed_loop]. destruct (Hl n) as [f Hf]; [by left|].
  destruct (Hc n f Hf) as [-> _]. cbn [negb]. apply IH. intros m Hm. apply Hl. by right.
Qed.
Lemma alone_list s : alone run listHookSpoolRecordPaths s = (Ok (pending s), s).
Proof. done. Qed.

Lemma pending_dropped s t l rest : pending s = l ++ rest -> sp_files t = foldr delete (sp_files s) l -> pending t = rest.
Proof.
  intros Hp Hf. pose proof (pending_nodup s) as Hnd. pose proof (pending_sorted s) as Hs. rewrite Hp in Hnd, Hs.
  apply NoDup_app in Hnd as (_ & Hdis & Hrest). apply (StronglySorted_unique string_le).
  - apply pending_sorted.
  - clear -Hs. induction l as [|x l IH]; [done|]. by inversion Hs; auto.
  - apply NoDup_Permutation; [apply pending_nodup|done|]. intros n. rewrite elem_of_pending, Hf. destruct (decide (n ∈ l)) as [Hin|Hout].
    + rewrite lookup_foldr_delete by done. split; [by intros (_ & _ & [? ?])|]. intros Hn. by destruct (Hdis n Hin).
    + rewrite lookup_foldr_delete_not_elem_of by done. rewrite <-elem_of_pending, Hp, elem_of_app. naive_solver.
Qed.

(** A drain in a calm spool. *)
Lemma alone_detailed limit s rs : calm s -> 0 < limit -> (List.length (take (Z.to_nat limit) (pending s)) <= List.length (sp_draws s))%nat ->
  Forall2 (ready s) (take (Z.to_nat limit) (pending s)) rs ->
  exists t, alone run (drainHookSpoolRecordsDetailed json_text error_text limit None) s =
              (mkDrain (llen rs) 0 0 (llen (drop (Z.to_nat limit) (pending s))) None, t) /\
    sp_files t = foldr delete (sp_files s) (take (Z.to_nat limit) (pending s)) /\
    pending t = drop (Z.to_nat limit) (pending s) /\ sp_delivered t = rev (event_of <$> rs) ++ sp_delivered s.
Proof.
  intros Hc Hlim Hdraws Hready. unfold drainHookSpoolRecordsDetailed. rewrite alone_now, alone_bind. unfold recoverStaleCurrentHookSpoolRecords.
  assert (Hin : forall n, n ∈ ReadDir s false -> is_Some (sp_files s !! n)) by (intros n Hn; by apply elem_of_entries in Hn as [_ ?]).
  rewrite alone_entries, alone_recover_current by done. cbn [fst snd]. rewrite alone_bind. unfold recoverStaleClaimedHookSpoolRecords.
  rewrite alone_entries, alone_recover_claimed by done. cbn [fst snd]. destruct (Z.leb_spec limit 0); [lia|]. rewrite alone_bind, alone_list. cbn [fst snd].
  rewrite alone_bind. set (l := take (Z.to_nat limit) (pending s)) in *. set (rest := drop (Z.to_nat limit) (pending s)).
  assert (Hsplit : pending s = l ++ rest) by (symmetry; apply take_drop). rewrite Hsplit.
  destruct (alone_queue l rest limit rs) with (n := 0) (d := drain_none) (s := s) as (t & E & Hf & Hd); try done.
  - pose proof (pending_nodup s) as Hnd. rewrite Hsplit in Hnd. by apply NoDup_app in Hnd as (? & _ & _).
  - apply Forall_forall. intros n Hn. apply (elem_of_pending s). rewrite Hsplit. apply elem_of_app. by left.
  - unfold l, llen. rewrite length_take. lia.
  - unfold l, rest, llen. rewrite length_take. destruct (decide (Z.to_nat limit <= List.length (pending s))%nat) as [Hle|Hgt]; [right; lia|left].
    apply drop_ge. lia.
  - intros n f Hn. by apply (Hc n f Hn).
  - exists t. rewrite E. cbn [fst snd]. rewrite alone_bind. unfold countHookSpoolRecordPaths. rewrite alone_bind, alone_list. cbn [fst snd alone].
    pose proof (pending_dropped s t l rest Hsplit Hf) as Hp. rewrite Hp. split_and!; [|done..].
    unfold with_remaining, replayed. cbn. apply Forall2_length in Hready. unfold llen. by rewrite Hready.
Qed.

(** ** Refusals *)

Lemma write_looks s n c : looks (Write s n c) (<[n := mkFile c (StripMono (sp_now s)) true]> (sp_files s)) (sp_draws s) (sp_delivered s) /\
  sp_now (Write s n c) = sp_now s.
Proof. unfold Write, take_base. by destruct (sp_first s !! base_of n). Qed.
Lemma claim_base_looks s n : looks (claim_base s n) (sp_files s) (sp_draws s) (sp_delivered s) /\ sp_now (claim_base s n) = sp_now s.
Proof. unfold claim_base. by destruct (sp_first s !! base_of n). Qed.

Lemma alone_write path r c s : marshal json_text r = Ok c -> path <> path +:+ ".tmp" -> sp_files s !! (path +:+ ".tmp") = None ->
  exists s', alone run (writeHookSpoolRecordAtomic json_text path r) s = (Ok tt, s') /\
    looks s' (<[path := mkFile c (StripMono (sp_now s)) true]> (sp_files s)) (sp_draws s) (sp_delivered s) /\ sp_now s' = sp_now s.
Proof.
  intros Hm Hne Htmp. unfold writeHookSpoolRecordAtomic. rewrite Hm, alone_call. cbn [spool_run fst snd].
  destruct (write_looks s (path +:+ ".tmp") c) as [(Ef & Ed & El) En]. set (s1 := Write s (path +:+ ".tmp") c) in *. rewrite alone_do. cbn [spool_run].
  destruct (rename_looks s1 (path +:+ ".tmp") path (mkFile c (StripMono (sp_now s)) true)) as (E & (Ef2 & Ed2 & El2) & En2).
  { rewrite Ef. apply lookup_insert_eq. }
  exists (snd (Rename s1 (path +:+ ".tmp") path)). rewrite E. cbn [alone]. split_and!; [done| |congruence]. unfold looks.
  rewrite Ef2, Ed2, El2, Ef, Ed, El. split_and!; [|done..]. by rewrite delete_insert_id.
Qed.
(** The record leaves the queue for a name drawn for it. *)
Lemma alone_move path (dst : string -> string) f bytes draws (failed : error -> result unit) s : sp_files s !! path = Some f -> sp_draws s = bytes :: draws ->
  exists s', alone run (Do (OpRenameNew path dst) (fun out => match out with Ok _ => Ret (Ok tt) | Err e => Ret (failed e) end)) s = (Ok tt, s') /\
    looks s' (<[dst (EncodeToString bytes) := f]> (delete path (sp_files s))) draws (sp_delivered s).
Proof.
  intros Hf Hd. rewrite alone_do. cbn [spool_run]. rewrite Hd, Hf. cbn [fst snd alone]. set (n := dst (EncodeToString bytes)).
  destruct (claim_base_looks (drawn s draws) n) as [(Ef & Ed & El) En]. set (s1 := claim_base (drawn s draws) n) in *.
  destruct (rename_looks s1 path n f) as (_ & (Ef2 & Ed2 & El2) & _); [by rewrite Ef|]. eexists. split; [done|]. unfold looks.
  by rewrite Ef2, Ed2, El2, Ef, Ed, El.
Qed.

(** Where a refused record goes, and what it is then. *)
Definition refused_name (s : Spool) (attempt : Z) (bytes : list ascii) : string :=
  if shouldDeadLetter attempt then dead_name (sp_now s) (EncodeToString bytes) else retry_name (sp_now s) (EncodeToString bytes).
Lemma alone_requeue c f r lastError bytes draws encoded s : (TrimSpace c =?s "") = false -> c <> c +:+ ".tmp" -> sp_files s !! c = Some f -> f_regular f = true ->
  sp_files s !! (c +:+ ".tmp") = None -> parsed (f_content f) = Some r -> sp_draws s = bytes :: draws ->
  marshal json_text (failed_again r lastError) = Ok encoded ->
  exists t, alone run (requeueHookSpoolRecord json_text c lastError) s = (Ok tt, t) /\
    looks t (<[refused_name s (i64 (AttemptCount r + 1)) bytes := mkFile encoded (StripMono (sp_now s)) true]> (delete c (sp_files s))) draws (sp_delivered s).
Proof.
  intros Ht Hne Hf Hr Htmp Hp Hd Hm. unfold requeueHookSpoolRecord. rewrite Ht, alone_do. cbn [spool_run fst snd]. unfold Read. rewrite Hf, Hr.
  rewrite alone_now, Hp. cbv zeta. change (default (raw_record (sp_now s) (f_content f)) (Some r)) with r. rewrite alone_bind.
  destruct (alone_write c (failed_again r lastError) encoded s Hm Hne Htmp) as (s1 & -> & (Ef & Ed & El) & En). cbn [fst snd].
  change (AttemptCount (failed_again r lastError)) with (i64 (AttemptCount r + 1)). unfold refused_name. rewrite <-En in *. rewrite <-Ed, <-El in *.
  assert (Hc : sp_files s1 !! c = Some (mkFile encoded (StripMono (sp_now s1)) true)) by (rewrite Ef; apply lookup_insert_eq).
  assert (Hdel : delete c (sp_files s1) = delete c (sp_files s)) by (rewrite Ef; apply delete_insert_eq). rewrite <-Hdel.
  destruct (shouldDeadLetter _); [unfold renameHookSpoolRecordToDead|unfold renameHookSpoolRecordToRetryTail]; [rewrite alone_call; cbn [spool_run fst snd]|];
    rewrite alone_now; by eapply alone_move.
Qed.
Definition refuses (r : hookSpoolRecord) (c : string) (err : error) : Prop :=
  replay_unsupported r = Some err \/ replay_unsupported r = None /\ handler (set_path r c) = Some err.
Lemma alone_refused c f r d err bytes draws encoded s : (TrimSpace c =?s "") = false -> c <> c +:+ ".tmp" -> sp_files s !! c = Some f -> f_regular f = true ->
  sp_files s !! (c +:+ ".tmp") = None -> parsed (f_content f) = Some r -> shouldDeadLetter (AttemptCount r) = false -> refuses r c err ->
  sp_draws s = bytes :: draws -> marshal json_text (failed_again r (error_text err)) = Ok encoded ->
  exists t, alone run (drain_claimed json_text error_text c d) s = (one_failed d, t) /\
    looks t (<[refused_name s (i64 (AttemptCount r + 1)) bytes := mkFile encoded (StripMono (sp_now s)) true]> (delete c (sp_files s))) draws (sp_delivered s).
Proof.
  intros Ht Hne Hf Hr Htmp Hp Hdead Href Hd Hm. unfold drain_claimed. rewrite alone_bind, (alone_load c f r) by done. cbn [fst snd].
  change (AttemptCount (set_path r c)) with (AttemptCount r). rewrite Hdead, alone_bind.
  assert (alone run (replayHookSpoolRecord (set_path r c)) s = (Err err, s)) as ->.
  { unfold replayHookSpoolRecord. change (replay_unsupported (set_path r c)) with (replay_unsupported r). destruct Href as [-> | [-> Hh]]; [done|].
    rewrite alone_do. cbn [spool_run]. by rewrite Hh. }
  cbn [fst snd]. rewrite alone_bind. destruct (alone_requeue c f r (error_text err) bytes draws encoded s) as (t & -> & Hl); try done. by exists t.
Qed.

Lemma tmp_differs c : c <> c +:+ ".tmp".
Proof. intros H. apply (f_equal (fun x => List.length (explode x))) in H. rewrite explode_app, length_app in H. cbn in H. lia. Qed.

(** (C30) A drain in a calm spool, when each record at the front of the queue --
    as many as the drain may take -- is readable, below the retry limit and
    accepted by its handler, and the random source names a claim for each,
    delivers those records in the order of their names, each once; their files
    are gone, every other file is as it was, content and time included, and the
    counts say so. *)
Theorem drain_in_order limit s rs : calm s -> 0 < limit ->
  (List.length (take (Z.to_nat limit) (pending s)) <= List.length (sp_draws s))%nat ->
  Forall2 (ready s) (take (Z.to_nat limit) (pending s)) rs ->
  exists t, alone run (drainHookSpoolRecordsDetailed json_text error_text limit None) s =
              (mkDrain (llen rs) 0 0 (llen (drop (Z.to_nat limit) (pending s))) None, t) /\
    StronglySorted string_le (pending s) /\ pending t = drop (Z.to_nat limit) (pending s) /\
    (forall n, sp_files t !! n = if decide (n ∈ take (Z.to_nat limit) (pending s)) then None else sp_files s !! n) /\
    sp_delivered t = rev (event_of <$> rs) ++ sp_delivered s.
Proof.
  intros Hc Hlim Hd Hr. destruct (alone_detailed limit s rs Hc Hlim Hd Hr) as (t & E & Hf & Hp & Hdel).
  exists t. split_and!; [done|apply pending_sorted|done| |done]. intros n. rewrite Hf.
  destruct (decide _) as [Hin|Hout]; [by apply lookup_foldr_delete|by apply lookup_foldr_delete_not_elem_of].
Qed.

(** A name after all others goes to the end of the queue. *)
Lemma sorted_snoc {A} (R : relation A) l x : StronglySorted R l -> Forall (fun y => R y x) l -> StronglySorted R (l ++ [x]).
Proof.
  induction 1 as [|y l _ IH Hy]; intros Hx; [by repeat constructor|]. apply Forall_cons in Hx as [Hyx Hx]. cbn. constructor; [by apply IH|].
  apply Forall_app. by split; [|apply Forall_singleton].
Qed.
Lemma pending_moved s t c name file : sp_files t = <[name := file]> (delete c (sp_files s)) -> HasSuffix c ".json" = false -> in_dead name = true ->
  pending t = pending s.
Proof.
  intros Hf Hc Hn. apply (StronglySorted_unique string_le); [apply pending_sorted..|]. apply NoDup_Permutation; [apply pending_nodup..|].
  intros n. rewrite !elem_of_pending, Hf. destruct (decide (n = name)) as [->|Hne]; [rewrite Hn; naive_solver|]. rewrite lookup_insert_ne by done.
  destruct (decide (n = c)) as [->|Hnc]; [rewrite Hc; naive_solver|]. by rewrite lookup_delete_ne.
Qed.
Lemma pending_tail s t c name file : sp_files t = <[name := file]> (delete c (sp_files s)) -> HasSuffix c ".json" = false ->
  HasSuffix name ".json" = true -> in_dead name = false -> Forall (fun n => String.compare n name = Lt) (pending s) -> pending t = pending s ++ [name].
Proof.
  intros Hf Hc Hj Hn Hlt. assert (Hout : name ∉ pending s).
  { intros Hin. rewrite Forall_forall in Hlt. specialize (Hlt _ Hin). by rewrite (ord_refl _ ordering_string) in Hlt. }
  apply (StronglySorted_unique string_le); [apply pending_sorted| |].
  - apply sorted_snoc; [apply pending_sorted|]. eapply Forall_impl; [exact Hlt|]. intros n E. apply string_le_cmp. by rewrite E.
  - apply NoDup_Permutation; [apply pending_nodup| |].
    { apply NoDup_app. split_and!; [apply pending_nodup| |apply NoDup_singleton]. intros n Hin ->%list_elem_of_singleton. done. }
    intros n. rewrite elem_of_app, list_elem_of_singleton, !elem_of_pending, Hf. destruct (decide (n = name)) as [->|Hne].
    + rewrite lookup_insert_eq. naive_solver.
    + rewrite lookup_insert_ne by done. destruct (decide (n = c)) as [->|Hnc]; [rewrite Hc; naive_solver|]. rewrite lookup_delete_ne by done. naive_solver.
Qed.

(** (C29) A claimed record, readable and below the retry limit, whose handler
    refuses it -- the random source answering, and no temporary file lying
    beside the claim, whose name does not end in [.json] -- is not delivered,
    and has one attempt more.  When it has attempts left it is kept under the
    retry name of the present time, and is last in a queue of records not yet retried or
    retried before (in years of four digits): that name sorts after theirs;
    when that was its last attempt, it is kept under [dead/] and the queue is
    as it was.  No other file changes. *)
Theorem refusal_exact c f r d err bytes draws encoded s : (TrimSpace c =?s "") = false ->
  sp_files s !! c = Some f -> f_regular f = true -> sp_files s !! (c +:+ ".tmp") = None ->
  parsed (f_content f) = Some r -> 0 <= AttemptCount r < hookSpoolRetryLimit -> refuses r c err ->
  sp_draws s = bytes :: draws -> marshal json_text (failed_again r (error_text err)) = Ok encoded -> HasSuffix c ".json" = false ->
  let retried := retry_name (sp_now s) (EncodeToString bytes) in
  let dead := dead_name (sp_now s) (EncodeToString bytes) in
  let file := mkFile encoded (StripMono (sp_now s)) true in
  exists t, alone run (drain_claimed json_text error_text c d) s = (one_failed d, t) /\ sp_delivered t = sp_delivered s /\
    content_event encoded = Some (event_of r) /\ (AttemptCount <$> parsed encoded) = Some (AttemptCount r + 1) /\
    (AttemptCount r + 1 < hookSpoolRetryLimit -> sp_files t = <[retried := file]> (delete c (sp_files s)) /\
       (four_digits (sp_now s) -> Forall (queued_before (sp_now s)) (pending s) -> pending t = pending s ++ [retried])) /\
    (AttemptCount r + 1 = hookSpoolRetryLimit -> sp_files t = <[dead := file]> (delete c (sp_files s)) /\
       in_dead dead = true /\ pending t = pending s).
Proof.
  intros Ht Hf Hr Htmp Hp Ha Href Hd Hm Hjson retried dead file. pose proof (tmp_differs c) as Hne.
  assert (Hi : i64 (AttemptCount r + 1) = AttemptCount r + 1).
  { unfold hookSpoolRetryLimit in Ha. rewrite i64_succ by (unfold MinInt64, MaxInt64; lia). destruct (Z.eqb_spec (AttemptCount r) MaxInt64); [unfold MaxInt64 in *; lia|done]. }
  destruct (alone_refused c f r d err bytes draws encoded s) as (t & E & Hfiles & _ & Hdel); try done.
  { unfold shouldDeadLetter. apply Z.leb_gt. lia. }
  rewrite Hi in Hfiles. unfold refused_name in Hfiles. fold retried dead file in Hfiles. exists t. split_and!; [done..| | | |].
  - apply (marshal_event json_text _ _ Hm). by apply parsed_version in Hp.
  - apply parsed_version in Hp. unfold marshal in Hm. destruct (_ && _); [|done]. injection Hm as <-. unfold parsed. cbn [decoded].
    change (SchemaVersion (json_record (failed_again r (error_text err)))) with (SchemaVersion r). rewrite Hp.
    change (Some (i64 (AttemptCount r + 1)) = Some (AttemptCount r + 1)). by rewrite Hi.
  - intros Hlt. unfold shouldDeadLetter in Hfiles. rewrite (proj2 (Z.leb_gt _ _) Hlt) in Hfiles. split; [done|]. intros Hy Hq.
    apply (pending_tail s t c retried file); [done..|by apply json_named|done|]. eapply Forall_impl; [exact Hq|]. intros n. by apply queued_before_retry.
  - intros Heq. unfold shouldDeadLetter in Hfiles. rewrite Heq, Z.leb_refl in Hfiles. split_and!; [done..|]. by apply (pending_moved s t c dead file).
Qed.
End Alone.

(** ** Witnesses *)

Definition ex_queue : Spool :=
  ex_spool [("c.json", ex_file "three" 0); ("a.json", ex_file "one" 2); ("b.json", ex_file "two" 0); ("d.inflight", ex_file "now" 0)] 30.
Definition ex_front : list hookSpoolRecord := [ex_record "one" 2; ex_record "two" 0].
Lemma ex_queue_file n f : sp_files ex_queue !! n = Some f -> f_mtime f = ex_time 0 /\ isHookSpoolClaimFile n = false.
Proof.
  intros H. apply (elem_of_list_to_map_2 (M := gmap string)), list_elem_of_In in H. by repeat (destruct H as [[= <- <-]|H]; [by vm_compute|]).
Qed.
Lemma ex_calm : calm ex_queue.
Proof. intros n f H. destruct (ex_queue_file n f H) as [-> ->]. split; [done|]. intros _. by vm_compute. Qed.
Lemma ex_pending : pending ex_queue = ["a.json"; "b.json"; "c.json"].
Proof. by vm_compute. Qed.
Lemma ex_acceptable payload n : bool_decide (payload = "bad") = false -> n < 3 -> acceptable ex_handler (ex_file payload n) (ex_record payload n).
Proof.
  intros Hp Hn. apply bool_decide_eq_false in Hp. split_and!; [done|done|apply Z.leb_gt; exact Hn|by vm_compute|].
  intros path. unfold ex_handler. cbn [Payload set_path ex_record]. by destruct (String.eqb_spec payload "bad").
Qed.
Lemma ex_ready : Forall2 (ready ex_handler ex_queue) ["a.json"; "b.json"] ex_front.
Proof.
  constructor; [|constructor; [|constructor]]; [exists (ex_file "one" 2)|exists (ex_file "two" 0)]; (split; [by vm_compute|]); by apply ex_acceptable.
Qed.
Lemma drain_in_order_witness : exists t, ex_alone (ex_drain 2) ex_queue = (mkDrain 2 0 0 1 None, t) /\
  sp_delivered t = [event_of (ex_record "two" 0); event_of (ex_record "one" 2)] /\
  sp_files t !! "a.json" = None /\ sp_files t !! "c.json" = Some (ex_file "three" 0).
Proof.
  destruct (drain_in_order Payload ex_error ex_handler 2 ex_queue ex_front ex_calm) as (t & E & _ & _ & Hf & Hd).
  - lia.
  - rewrite ex_pending. apply Nat.leb_le. by vm_compute.
  - rewrite ex_pending. exact ex_ready.
  - exists t. rewrite ex_pending in E, Hf. split; [exact E|]. split; [exact Hd|]. rewrite !Hf. split; by vm_compute.
Defined.

(** A refused record: with an attempt left, behind a record that was not yet
    retried and one that was, and on its last attempt. *)
Definition ex_bad_file (attempts : Z) : File := ex_file "bad" attempts.
Definition ex_stamped : string := spool_stamp (ex_time 0) +:+ "-" +:+ "claude-00.json".
Definition ex_claimed (attempts : Z) : Spool :=
  ex_spool [("b.json.claim-00", ex_bad_file attempts); (ex_stamped, ex_file "one" 0); (retry_name (ex_time 10) "ff", ex_file "two" 1)] 30.
Definition ex_encoded (attempts : Z) : content :=
  mkContent ("bad" +:+ String "010" "") (Some (json_record (failed_again (ex_record "bad" attempts) "database is locked"))).
Lemma ex_refuses attempts : refuses ex_handler (ex_record "bad" attempts) "b.json.claim-00" (Sentinel "database is locked").
Proof. right. split; by vm_compute. Qed.
Lemma ex_behind : pending (ex_claimed 1) = [ex_stamped; retry_name (ex_time 10) "ff"].
Proof. by vm_compute. Qed.
Lemma ex_queued : Forall (queued_before (ex_time 30)) (pending (ex_claimed 1)).
Proof.
  rewrite ex_behind. constructor; [|constructor; [|constructor]].
  - left. exists (ex_time 0), "claude-00.json". split; [by vm_compute|done].
  - right. exists (ex_time 10), "ff". split; [by vm_compute|]. split; [by vm_compute|done].
Qed.
Lemma ex_digits : four_digits (ex_time 30).
Proof. by vm_compute. Qed.
Lemma ex_attempts n : bool_decide (0 <= n < 3) = true -> 0 <= AttemptCount (ex_record "bad" n) < hookSpoolRetryLimit.
Proof. apply bool_decide_eq_true. Qed.
Lemma ex_claim n : n = 1 \/ n = 2 -> sp_files (ex_claimed n) !! "b.json.claim-00" = Some (ex_bad_file n) /\
  sp_files (ex_claimed n) !! ("b.json.claim-00" +:+ ".tmp") = None /\ sp_draws (ex_claimed n) = ["001"%char] :: tail ex_draws /\
  marshal Payload (failed_again (ex_record "bad" n) (ex_error (Sentinel "database is locked"))) = Ok (ex_encoded n).
Proof. intros [-> | ->]; split_and!; by vm_compute. Qed.
Lemma refusal_exact_witness : exists t u,
  ex_alone (drain_claimed Payload ex_error "b.json.claim-00" drain_none) (ex_claimed 1) = (one_failed drain_none, t) /\
  pending t = [ex_stamped; retry_name (ex_time 10) "ff"; retry_name (ex_time 30) "01"] /\
  ex_alone (drain_claimed Payload ex_error "b.json.claim-00" drain_none) (ex_claimed 2) = (one_failed drain_none, u) /\
  is_Some (sp_files u !! dead_name (ex_time 30) "01").
Proof.
  destruct (ex_claim 1) as (F1 & T1 & D1 & M1); [by left|]. destruct (ex_claim 2) as (F2 & T2 & D2 & M2); [by right|].
  destruct (refusal_exact Payload ex_error ex_handler "b.json.claim-00" (ex_bad_file 1) (ex_record "bad" 1) drain_none (Sentinel "database is locked")
              ["001"%char] (tail ex_draws) (ex_encoded 1) (ex_claimed 1) eq_refl F1 eq_refl T1 eq_refl (ex_attempts 1 eq_refl)
              (ex_refuses 1) D1 M1 eq_refl) as (t & E & _ & _ & _ & Hretry & _).
  destruct (refusal_exact Payload ex_error ex_handler "b.json.claim-00" (ex_bad_file 2) (ex_record "bad" 2) drain_none (Sentinel "database is locked")
              ["001"%char] (tail ex_draws) (ex_encoded 2) (ex_claimed 2) eq_refl F2 eq_refl T2 eq_refl (ex_attempts 2 eq_refl)
              (ex_refuses 2) D2 M2 eq_refl) as (u & E' & _ & _ & _ & _ & Hdead).
  change (EncodeToString ["001"%char]) with "01" in *. exists t, u. split; [exact E|]. split; [|split; [exact E'|]].
  - destruct (Hretry eq_refl) as [_ H]. change (sp_now (ex_claimed 1)) with (ex_time 30) in H. specialize (H ex_digits ex_queued).
    rewrite ex_behind in H. exact H.
  - destruct (Hdead eq_refl) as [H _]. rewrite H, lookup_insert_eq. by eexists.
Defined.
