(* ===== verification/MemoryTool.v ===== *)
(** * The memory tool

    A file system of notes under [/memories] that an agent drives with the
    commands of Anthropic's memory tool: its paths
    ([src/domain/types/memorytoolpath.go]), its files
    ([src/domain/model/memorytoolfile.go]), its table
    ([src/infrastructure/sqlite/memory_tool_file_datasource.go]) and the
    commands ([src/application/usecase/memory_tool_usecase.go]), which are
    programs of [Interleaving] over the table. *)

From stdpp Require Import sorting.
From S2P Require Import Prelude GoStrings Ordering GoTime GoTimeText SqliteText Workspace Interleaving.

Definition newline : ascii := "010"%char.

(** ** Paths *)

Definition memoryToolRootPath : string := "/memories".

(** [url.PathUnescape]. *)
Fixpoint unescape_go (l : list ascii) : option (list ascii) :=
  match l with
  | [] => Some []
  | "%"%char :: t =>
      match t with
      | a :: b :: t' =>
          match hex_val a, hex_val b with
          | Some x, Some y => cons (byte_chr (x * 16 + y)) <$> unescape_go t'
          | _, _ => None
          end
      | _ => None
      end
  | c :: t => cons c <$> unescape_go t
  end.
Definition PathUnescape (s : string) : option string := implode <$> unescape_go (explode s).

Definition hasTraversal (path : string) : bool :=
  let normalized := ReplaceByte path backslash slash in
  (normalized =?s "..") || HasPrefix normalized "../" || Contains normalized "/../" || HasSuffix normalized "/..".
Fixpoint decode_rounds (n : nat) (decoded : string) : option string :=
  match n with
  | O => Some decoded
  | S n => match PathUnescape decoded with
           | None => None
           | Some next => if next =?s decoded then Some decoded else decode_rounds n next
           end
  end.
Definition hasEncodedTraversal (path : string) : bool :=
  match decode_rounds 3 path with
  | None => true
  | Some decoded => (decoded <>?s path) && hasTraversal (ToLower decoded)
  end.
Definition isMemoryToolPathWithinRoot (path : string) : bool :=
  (path =?s memoryToolRootPath) || HasPrefix path (memoryToolRootPath +:+ "/").
Definition hasHiddenEmptyOrParentSegment (path : string) : bool :=
  existsb (fun segment => (segment =?s ".") || (segment =?s "..")) (Split path slash).

Definition NewMemoryToolPath (raw : string) : result string :=
  let trimmed := TrimSpace raw in
  if trimmed =?s "" then Err (Errorf "memory tool path must not be empty" [])
  else if hasEncodedTraversal trimmed then Err (Errorf "memory tool path must not contain encoded traversal: %s" [raw])
  else if hasTraversal trimmed then Err (Errorf "memory tool path must not contain traversal: %s" [raw])
  else if negb (HasPrefix trimmed memoryToolRootPath) then Err (Errorf "memory tool path must start with /memories: %s" [raw])
  else
    let normalized := ReplaceByte trimmed backslash slash in
    let cleaned := Clean normalized in
    if negb (isMemoryToolPathWithinRoot cleaned) then Err (Errorf "memory tool path escapes /memories: %s" [raw])
    else if hasHiddenEmptyOrParentSegment cleaned then Err (Errorf "memory tool path contains an invalid segment: %s" [raw])
    else Ok cleaned.
Definition IsRoot (p : string) : bool := p =?s memoryToolRootPath.
Definition IsDescendantOf (p parent : string) : bool := (p <>?s parent) && HasPrefix p (parent +:+ "/").

Example paths : NewMemoryToolPath " /memories//a\b/./c " = Ok "/memories/a/b/c" /\
  is_ok (NewMemoryToolPath "/memories/%252e%252e/x") = false /\ is_ok (NewMemoryToolPath "/memories/a\..\..\x") = false /\
  is_ok (NewMemoryToolPath "/memoriesx") = false.
Proof. by vm_compute. Qed.

(** ** Files and their table *)

Record MemoryToolFile := mkToolFile { mf_path : string; mf_content : string; mf_createdAt : Time; mf_updatedAt : Time }.
Definition NewMemoryToolFile (path content : string) (now : Time) : MemoryToolFile := mkToolFile path content now now.
Definition WithContent (f : MemoryToolFile) (content : string) (updatedAt : Time) : MemoryToolFile :=
  mkToolFile (mf_path f) content (mf_createdAt f) updatedAt.
Definition WithPath (f : MemoryToolFile) (path : string) (updatedAt : Time) : MemoryToolFile :=
  mkToolFile path (mf_content f) (mf_createdAt f) updatedAt.
Definition SizeBytes (f : MemoryToolFile) : Z := slen (mf_content f).

Record ToolRow := mkToolRow { tr_content : string; tr_created_at : string; tr_updated_at : string; tr_size_bytes : Z }.
#[global] Instance ToolRow_eq_dec : EqDecision ToolRow.
Proof. solve_decision. Defined.
Notation ToolRows := (gmap string ToolRow).

(** [CHECK (path LIKE '/memories/%')]; LIKE ignores the case of ASCII letters. *)
Definition path_like (path : string) : bool := HasPrefix (ToLower path) "/memories/".
Definition constraint_failed (what : string) : error := Errorf "constraint failed" [what].

Section Table.
(** The layouts beyond RFC 3339, and whether the driver binds an empty content,
    which is a nil slice, as NULL. *)
Context (parse_layout : string -> result Time) (nil_is_null : bool).
Let Parse := time_Parse parse_layout.

Definition Save (rows : ToolRows) (file : MemoryToolFile) : result unit * ToolRows :=
  let path := mf_path file in
  if negb (path_like path) then (Err (Wrap "failed to save memory tool file: %w" [] (constraint_failed "CHECK path")), rows)
  else if nil_is_null && (mf_content file =?s "") then (Err (Wrap "failed to save memory tool file: %w" [] (constraint_failed "NOT NULL content")), rows)
  else
    let created := match rows !! path with Some r => tr_created_at r | None => formatTimestamp (mf_createdAt file) end in
    (Ok tt, <[path := mkToolRow (mf_content file) created (formatTimestamp (mf_updatedAt file)) (SizeBytes file)]> rows).

Definition scanMemoryToolFile (path : string) (row : ToolRow) : result MemoryToolFile :=
  let! p := wrap_err "failed to restore memory tool path: %w" (NewMemoryToolPath path) in
  let! createdAt := wrap_err "failed to parse memory tool file created_at: %w" (Parse (tr_created_at row)) in
  let! updatedAt := wrap_err "failed to parse memory tool file updated_at: %w" (Parse (tr_updated_at row)) in
  Ok (mkToolFile p (tr_content row) createdAt updatedAt).
Definition FindByPath (rows : ToolRows) (path : string) : result (option MemoryToolFile) :=
  match rows !! path with
  | None => Ok None
  | Some row => let! file := wrap_err "failed to scan memory tool file: %w" (scanMemoryToolFile path row) in Ok (Some file)
  end.
(** [ORDER BY path ASC]. *)
Definition sorted_paths (rows : ToolRows) : list string := merge_sort string_le (fst <$> map_to_list rows).
Fixpoint scan_all (rows : ToolRows) (paths : list string) : result (list MemoryToolFile) :=
  match paths with
  | [] => Ok []
  | path :: rest =>
      match rows !! path with
      | None => scan_all rows rest
      | Some row =>
          let! file := wrap_err "failed to scan memory tool file: %w" (scanMemoryToolFile path row) in
          let! files := scan_all rows rest in
          Ok (file :: files)
      end
  end.
Definition List_ (rows : ToolRows) : result (list MemoryToolFile) := scan_all rows (sorted_paths rows).

Definition under (path filePath : string) : bool := (filePath =?s path) || IsDescendantOf filePath path.
Fixpoint prefix_loop (path : string) (raws : list string) : result (list string) :=
  match raws with
  | [] => Ok []
  | raw :: rest =>
      let! filePath := wrap_err "failed to restore memory tool path: %w" (NewMemoryToolPath raw) in
      let! paths := prefix_loop path rest in
      Ok (if under path filePath then filePath :: paths else paths)
  end.
Definition queryMemoryToolPathPrefix (rows : ToolRows) (path : string) : result (list string) := prefix_loop path (sorted_paths rows).

Definition DeletePathPrefix (rows : ToolRows) (path : string) : result Z * ToolRows :=
  match wrap_err "failed to query deleted memory tool file paths: %w" (queryMemoryToolPathPrefix rows path) with
  | Err e => (Err e, rows)
  | Ok paths => (Ok (llen paths), foldr delete rows paths)
  end.

(** [UPDATE ... SET path = ?, updated_at = ? WHERE path = ?]. *)
Definition rename_row (rows : ToolRows) (old new updated : string) : result ToolRows :=
  match rows !! old with
  | None => Ok rows
  | Some row =>
      if negb (path_like new) then Err (Wrap "failed to rename memory tool file: %w" [] (constraint_failed "CHECK path"))
      else if bool_decide (is_Some (delete old rows !! new)) then Err (Wrap "failed to rename memory tool file: %w" [] (constraint_failed "UNIQUE path"))
      else Ok (<[new := mkToolRow (tr_content row) (tr_created_at row) updated (tr_size_bytes row)]> (delete old rows))
  end.
Definition moved (oldPath newPath filePath : string) : string := newPath +:+ TrimPrefix filePath oldPath.
Fixpoint rename_loop (oldPath newPath updated : string) (paths : list string) (rows : ToolRows) : result ToolRows :=
  match paths with
  | [] => Ok rows
  | filePath :: rest =>
      let! rows := rename_row rows filePath (moved oldPath newPath filePath) updated in
      rename_loop oldPath newPath updated rest rows
  end.
Definition RenamePathPrefix (rows : ToolRows) (oldPath newPath : string) (updatedAt : Time) : result Z * ToolRows :=
  match wrap_err "failed to query renamed memory tool file paths: %w" (queryMemoryToolPathPrefix rows oldPath) with
  | Err e => (Err e, rows)
  | Ok paths => match rename_loop oldPath newPath (formatTimestamp updatedAt) paths rows with
                | Err e => (Err e, rows)
                | Ok rows' => (Ok (llen paths), rows')
                end
  end.

Inductive ToolOp : Type -> Type :=
| OpFindFile (path : string) : ToolOp (option MemoryToolFile)
| OpListFiles : ToolOp (list MemoryToolFile)
| OpSaveFile (file : MemoryToolFile) : ToolOp unit
| OpDeletePrefix (path : string) : ToolOp Z
| OpRenamePrefix (old new : string) (at_ : Time) : ToolOp Z.
Definition tool_run (B : Type) (op : ToolOp B) (rows : ToolRows) : result B * ToolRows :=
  match op in ToolOp B return result B * ToolRows with
  | OpFindFile path => (FindByPath rows path, rows)
  | OpListFiles => (List_ rows, rows)
  | OpSaveFile file => Save rows file
  | OpDeletePrefix path => DeletePathPrefix rows path
  | OpRenamePrefix old new at_ => RenamePathPrefix rows old new at_
  end.
End Table.

(** ** Lines *)

Definition newline_text : string := String newline "".
Definition splitMemoryToolLines (content : string) : list string * bool :=
  if content =?s "" then ([], false)
  else (Split (TrimSuffix content newline_text) newline, HasSuffix content newline_text).
Definition joinMemoryToolLines (lines : list string) (trailingNewline : bool) : string :=
  Join lines newline_text +:+ (if trailingNewline then newline_text else "").

(** [strings.Count] and [strings.Replace] of one occurrence. *)
Fixpoint count_go (skip : nat) (sub l : list ascii) : Z :=
  match l with
  | [] => 0
  | _ :: t => match skip with
              | S k => count_go k sub t
              | O => if is_prefix sub l then 1 + count_go (Nat.pred (List.length sub)) sub t else count_go 0 sub t
              end
  end.
Definition Count (s sub : string) : Z :=
  if sub =?s "" then llen (range_runes s) + 1 else count_go 0 (explode sub) (explode s).
Definition Replace1 (s old new : string) : string :=
  let i := Index s old in
  if (old =?s new) || (i <? 0) then s else slice_to s i +:+ new +:+ slice_from s (i + slen old).

Fixpoint occurrence_go (needle : string) (lines : list string) (index : Z) : list string :=
  match lines with
  | [] => []
  | line :: rest => if Contains line needle then Itoa (index + 1) :: occurrence_go needle rest (index + 1) else occurrence_go needle rest (index + 1)
  end.
Definition occurrenceLines (content needle : string) : string := Join (occurrence_go needle (fst (splitMemoryToolLines content)) 0) ", ".

(** ** Views *)

Definition maxMemoryToolLines : Z := 999999.
Definition normalizeViewRange (viewRange : list Z) (lineCount : Z) : result (Z * Z) :=
  match viewRange with
  | [] => Ok (0, lineCount)
  | [start; end_] =>
      if start <? 1 then Err (Errorf "view_range start must be >= 1" [])
      else
        let end_ := if (end_ =? -1) || (lineCount <? end_) then lineCount else end_ in
        if end_ <? start - 1 then Err (Errorf "view_range end must be >= start" [])
        else Ok (start - 1, end_)
  | _ => Err (Errorf "view_range must contain exactly two integers" [])
  end.
Definition pad_spaces (n : nat) (s : string) : string := implode (repeat " "%char (n - String.length s)) +:+ s.
(** Lines [start+1..end]; an index past the last line would panic. *)
Fixpoint numbered (lines : list string) (count : nat) (index : Z) : option string :=
  match count with
  | O => Some ""
  | S count => match lines !! Z.to_nat index with
               | None => None
               | Some line => (fun rest => newline_text +:+ pad_spaces 6 (Itoa (index + 1)) +:+ String "009" "" +:+ line +:+ rest) <$>
                              numbered lines count (index + 1)
               end
  end.
(** [None] for a panic. *)
Definition renderMemoryToolFile (path content : string) (viewRange : list Z) : option (result string) :=
  let lines := fst (splitMemoryToolLines content) in
  if maxMemoryToolLines <? llen lines then Some (Ok ("File " +:+ path +:+ " exceeds maximum line limit of 999,999 lines."))
  else match normalizeViewRange viewRange (llen lines) with
       | Err e => Some (Err e)
       | Ok (start, end_) =>
           (fun text => Ok ("Here's the content of " +:+ path +:+ " with line numbers:" +:+ text)) <$>
           numbered lines (Z.to_nat (end_ - start)) start
       end.

Definition trim_slashes (s : string) : string :=
  implode (rev (drop_trailing slash (rev (drop_trailing slash (explode s))))).
Definition segments (path : string) : list string := Split (trim_slashes path) slash.
Definition memoryToolDepth (path : string) : nat := List.length (segments path).
Definition isVisibleDescendantOrSelf (root path : string) : bool :=
  if (path <>?s root) && negb (HasPrefix path (root +:+ "/")) then false
  else forallb (fun segment => (segment =?s "") || negb (HasPrefix segment "." || (segment =?s "node_modules")))
         (Split (TrimPrefix (trim_slashes path) "memories/") slash).
Definition add_size (sizes : gmap string Z) (path : string) (n : Z) : gmap string Z := <[path := i64 (default 0 (sizes !! path) + n)]> sizes.
Definition entry_sizes (root : string) (sizes : gmap string Z) (file : MemoryToolFile) : gmap string Z :=
  if negb (isVisibleDescendantOrSelf root (mf_path file)) then sizes
  else
    let segs := segments (mf_path file) in
    let first := S (memoryToolDepth root) in
    let depths := seq first (Nat.min (List.length segs) (memoryToolDepth root + 2) - memoryToolDepth root) in
    let sizes := fold_left (fun sizes depth => add_size sizes ("/" +:+ Join (take depth segs) "/") (SizeBytes file)) depths sizes in
    add_size sizes root (SizeBytes file).
Definition directoryEntries (root : string) (files : list MemoryToolFile) : list (string * Z) :=
  let sizes := fold_left (entry_sizes root) files {[ root := 0 ]} in
  (fun path => (path, default 0 (sizes !! path))) <$> merge_sort string_le (fst <$> map_to_list sizes).
(** [%.1f] of a size over a power of 1024: exact below 2^53, halves to even. *)
Definition tenths (size unit : Z) : string :=
  let q := (10 * size) / unit in
  let r := (10 * size) mod unit in
  let n := if (unit <? 2 * r) || ((unit =? 2 * r) && Z.odd q) then q + 1 else q in
  FormatUint (n / 10) +:+ "." +:+ FormatUint (n mod 10).
Fixpoint human_go (size unit : Z) (suffixes : list string) : string :=
  match suffixes with
  | [] => tenths size unit +:+ "P"
  | suffix :: rest => if size <? 1024 * unit then tenths size unit +:+ suffix else human_go size (1024 * unit) rest
  end.
Definition humanMemoryToolSize (size : Z) : string :=
  if size <? 1024 then Itoa size +:+ "B" else human_go size 1024 ["K"; "M"; "G"; "T"].
Example human_sizes : humanMemoryToolSize 1023 = "1023B" /\ humanMemoryToolSize 1536 = "1.5K" /\ humanMemoryToolSize 1152 = "1.1K" /\
  humanMemoryToolSize 1048575 = "1024.0K" /\ humanMemoryToolSize 1048576 = "1.0M".
Proof. by vm_compute. Qed.
Definition renderMemoryToolDirectory (path : string) (files : list MemoryToolFile) : string :=
  "Here're the files and directories up to 2 levels deep in " +:+ path +:+ ", excluding hidden items and node_modules:" +:+
  Join ("" :: ((fun entry => pad_spaces 5 (humanMemoryToolSize (snd entry)) +:+ String "009" "" +:+ fst entry) <$> directoryEntries path files)) newline_text.

(** ** Commands *)

Notation commander := (prog (Op := ToolOp)).
Definition failing {A} (format : string) (err : error) : result A := Err (Wrap format [] err).

Definition hasDescendant (files : list MemoryToolFile) (path : string) : bool := existsb (fun f => IsDescendantOf (mf_path f) path) files.
Definition pathExists (path : string) : commander (result bool) :=
  call (OpFindFile path) (failing "failed to find memory tool file: %w") (fun file =>
  match file with
  | Some _ => Ret (Ok true)
  | None => call OpListFiles (failing "failed to list memory tool files: %w") (fun files => Ret (Ok (IsRoot path || hasDescendant files path)))
  end).
Definition findFile (rawPath : string) : commander (result (string * option MemoryToolFile)) :=
  match NewMemoryToolPath rawPath with
  | Err e => Ret (failing "invalid memory tool path: %w" e)
  | Ok path => call (OpFindFile path) (failing "failed to find memory tool file: %w") (fun file => Ret (Ok (path, file)))
  end.

Definition View (rawPath : string) (viewRange : list Z) : commander (option (result string)) :=
  match NewMemoryToolPath rawPath with
  | Err e => Ret (Some (failing "invalid memory tool path: %w" e))
  | Ok path =>
      call (OpFindFile path) (fun e => Some (failing "failed to find memory tool file: %w" e)) (fun file =>
      match file with
      | Some found => Ret (renderMemoryToolFile path (mf_content found) viewRange)
      | None =>
          call OpListFiles (fun e => Some (failing "failed to list memory tool files: %w" e)) (fun files =>
          if IsRoot path || hasDescendant files path then Ret (Some (Ok (renderMemoryToolDirectory path files)))
          else Ret (Some (Ok ("The path " +:+ path +:+ " does not exist. Please provide a valid path."))))
      end)
  end.
Definition already_exists (path : string) : string := "Error: File " +:+ path +:+ " already exists".
Definition Create (now : Time) (rawPath fileText : string) : commander (result string) :=
  match NewMemoryToolPath rawPath with
  | Err e => Ret (failing "invalid memory tool path: %w" e)
  | Ok path =>
      if IsRoot path then Ret (Ok (already_exists path))
      else bind (pathExists path) (fun out =>
           match out with
           | Err e => Ret (Err e)
           | Ok true => Ret (Ok (already_exists path))
           | Ok false =>
               call (OpSaveFile (NewMemoryToolFile path fileText now)) (failing "failed to save memory tool file: %w") (fun _ =>
               Ret (Ok ("File created successfully at: " +:+ path)))
           end)
  end.
Definition no_file (path : string) : string := "Error: The path " +:+ path +:+ " does not exist".
Definition StrReplace (now : Time) (rawPath oldStr newStr : string) : commander (option (result string)) :=
  bind (findFile rawPath) (fun out =>
  match out with
  | Err e => Ret (Some (Err e))
  | Ok (path, None) => Ret (Some (Ok (no_file path +:+ ". Please provide a valid path.")))
  | Ok (path, Some file) =>
      let content := mf_content file in
      let count := Count content oldStr in
      if count =? 0 then Ret (Some (Ok ("No replacement was performed, old_str `" +:+ oldStr +:+ "` did not appear verbatim in " +:+ path +:+ ".")))
      else if negb (count =? 1)
      then Ret (Some (Ok ("No replacement was performed. Multiple occurrences of old_str `" +:+ oldStr +:+ "` in lines: " +:+
                          occurrenceLines content oldStr +:+ ". Please ensure it is unique")))
      else
        let updatedContent := Replace1 content oldStr newStr in
        call (OpSaveFile (WithContent file updatedContent now)) (fun e => Some (failing "failed to save replaced memory tool file: %w" e)) (fun _ =>
        Ret ((fun out => match out with
                         | Err e => Err e
                         | Ok rendered => Ok ("The memory file has been edited." +:+ newline_text +:+ rendered)
                         end) <$> renderMemoryToolFile path updatedContent []))
  end).
(** The content after [insertText] went in after line [insertLine]. *)
Definition inserted (content : string) (insertLine : Z) (insertText : string) : string :=
  let '(lines, trailingNewline) := splitMemoryToolLines content in
  let '(insertLines, insertTrailingNewline) := splitMemoryToolLines insertText in
  joinMemoryToolLines (take (Z.to_nat insertLine) lines ++ insertLines ++ drop (Z.to_nat insertLine) lines)
    (trailingNewline || ((insertLine =? llen lines) && insertTrailingNewline)).
Definition Insert (now : Time) (rawPath : string) (insertLine : Z) (insertText : string) : commander (result string) :=
  bind (findFile rawPath) (fun out =>
  match out with
  | Err e => Ret (Err e)
  | Ok (path, None) => Ret (Ok (no_file path))
  | Ok (path, Some file) =>
      let content := mf_content file in
      let lines := fst (splitMemoryToolLines content) in
      if (insertLine <? 0) || (llen lines <? insertLine)
      then Ret (Ok ("Error: Invalid `insert_line` parameter: " +:+ Itoa insertLine +:+ ". It should be within the range of lines of the file: [0, " +:+
                    Itoa (llen lines) +:+ "]"))
      else
        call (OpSaveFile (WithContent file (inserted content insertLine insertText) now)) (failing "failed to save inserted memory tool file: %w") (fun _ =>
        Ret (Ok ("The file " +:+ path +:+ " has been edited.")))
  end).
Definition Delete (rawPath : string) : commander (result string) :=
  match NewMemoryToolPath rawPath with
  | Err e => Ret (failing "invalid memory tool path: %w" e)
  | Ok path =>
      call (OpDeletePrefix path) (failing "failed to delete memory tool path: %w") (fun deleted =>
      if deleted =? 0 then Ret (Ok (no_file path)) else Ret (Ok ("Successfully deleted " +:+ path)))
  end.
Definition Rename (now : Time) (rawOldPath rawNewPath : string) : commander (result string) :=
  match NewMemoryToolPath rawOldPath with
  | Err e => Ret (failing "invalid source memory tool path: %w" e)
  | Ok oldPath =>
      match NewMemoryToolPath rawNewPath with
      | Err e => Ret (failing "invalid destination memory tool path: %w" e)
      | Ok newPath =>
          bind (pathExists oldPath) (fun out =>
          match out with
          | Err e => Ret (Err e)
          | Ok false => Ret (Ok (no_file oldPath))
          | Ok true =>
              bind (pathExists newPath) (fun out =>
              match out with
              | Err e => Ret (Err e)
              | Ok true => Ret (Ok ("Error: The destination " +:+ newPath +:+ " already exists"))
              | Ok false =>
                  call (OpRenamePrefix oldPath newPath now) (failing "failed to rename memory tool path: %w") (fun _ =>
                  Ret (Ok ("Successfully renamed " +:+ oldPath +:+ " to " +:+ newPath)))
              end)
          end)
      end
  end.

(** ** Examples *)

Definition ex_layout (s : string) : result Time := Err (Errorf "no such layout" []).
Definition ex_stamp : string := "2025-01-01T00:00:00Z".
Definition ex_moment (n : Z) : Time := mkTime (unix_epoch_ns + n * Second) None 0.
Definition ex_tool_row : ToolRow := mkToolRow ("one" +:+ newline_text +:+ "two" +:+ newline_text) ex_stamp ex_stamp 8.
Definition ex_tool_rows : ToolRows := list_to_map [("/memories/a/x", ex_tool_row); ("/memories/ab", ex_tool_row)].
Definition ex_tool_file : MemoryToolFile :=
  match scanMemoryToolFile ex_layout "/memories/a/x" ex_tool_row with Ok file => file | Err _ => NewMemoryToolFile "" "" (ex_moment 0) end.
