(* ===== verification/MemoryToolText.v ===== *)
(** * The memory tool's texts

    The lines of a file's content, and what the commands that edit and show it
    do to them: [Insert], [StrReplace] and [View] of [MemoryTool]. *)

From S2P Require Import Prelude GoStrings Ordering GoTime GoTimeText SqliteText Workspace Interleaving MemoryTool.

(** ** Lines *)

Lemma Join_sep_cons (sep e : string) l : l <> [] -> Join (e :: l) sep = e +:+ sep +:+ Join l sep.
Proof. by destruct l. Qed.
Lemma split_go_nonempty (c : ascii) l cur : split_go c cur l <> [].
Proof. revert cur. induction l as [|a l IH]; intros cur; cbn; [done|]. destruct (Ascii.eqb a c); [done|apply IH]. Qed.
Lemma split_go_join (c : ascii) l : forall cur, Join (split_go c cur l) (String c "") = implode (rev cur) +:+ implode l.
Proof.
  induction l as [|a l IH]; intros cur; cbn [split_go].
  - cbn. apply explode_inj. by rewrite explode_app, app_nil_r.
  - destruct (Ascii.eqb_spec a c) as [->|_].
    + rewrite Join_sep_cons by apply split_go_nonempty. rewrite IH. done.
    + rewrite IH. cbn [rev]. rewrite implode_app, str_app_assoc. done.
Qed.
Lemma Join_Split s c : Join (Split s c) (String c "") = s.
Proof. unfold Split. rewrite split_go_join. cbn. apply implode_explode. Qed.

Lemma split_go_elem (c : ascii) e k cur : c ∉ e -> split_go c cur (e ++ c :: k) = implode (rev cur ++ e) :: split_go c [] k.
Proof.
  revert cur. induction e as [|a e IH]; intros cur He; cbn [app split_go]; [by rewrite Ascii.eqb_refl, app_nil_r|].
  apply not_elem_of_cons in He as [Ha He]. destruct (Ascii.eqb_spec a c); [by subst|]. rewrite IH by done. cbn [rev]. by rewrite <-app_assoc.
Qed.
Lemma split_go_last (c : ascii) e cur : c ∉ e -> split_go c cur e = [implode (rev cur ++ e)].
Proof.
  revert cur. induction e as [|a e IH]; intros cur He; cbn [split_go]; [by rewrite app_nil_r|].
  apply not_elem_of_cons in He as [Ha He]. destruct (Ascii.eqb_spec a c); [by subst|]. rewrite IH by done. cbn [rev]. by rewrite <-app_assoc.
Qed.
Lemma split_go_free_of (c : ascii) l cur : c ∉ cur -> Forall (fun e => c ∉ explode e) (split_go c cur l).
Proof.
  revert cur. induction l as [|a l IH]; intros cur Hc; cbn [split_go].
  - constructor; [|constructor]. rewrite explode_implode. by rewrite elem_of_rev.
  - destruct (Ascii.eqb_spec a c) as [->|Ha].
    + constructor; [rewrite explode_implode; by rewrite elem_of_rev|]. apply IH. by intros ?%elem_of_nil.
    + apply IH. by apply not_elem_of_cons.
Qed.
Lemma Split_Join_sep (c : ascii) l : l <> [] -> Forall (fun e => c ∉ explode e) l -> Split (Join l (String c "")) c = l.
Proof.
  intros Hne Hl. unfold Split. induction Hl as [|e l He Hl IH]; [done|]. destruct l as [|e2 l].
  - cbn [Join]. rewrite split_go_last by done. cbn. by rewrite implode_explode.
  - rewrite Join_sep_cons, !explode_app by done. change (explode (String c "")) with [c]. cbn [app]. rewrite split_go_elem, IH by done.
    cbn. by rewrite implode_explode.
Qed.

Lemma Join_snoc (sep : string) l x : Join (l ++ [x]) sep = match l with [] => x | _ => Join l sep +:+ sep +:+ x end.
Proof.
  induction l as [|e l IH]; [done|]. cbn [app]. rewrite Join_sep_cons by (by destruct l). rewrite IH. destruct l as [|e2 l]; [done|].
  rewrite (Join_sep_cons sep e (e2 :: l)) by done. by rewrite !str_app_assoc.
Qed.
Lemma newline_suffix p x : x <> "" -> newline ∉ explode x -> HasSuffix (p +:+ x) newline_text = false.
Proof.
  intros Hx Hn. unfold HasSuffix. rewrite explode_app, rev_app_distr. destruct (rev (explode x)) as [|a t] eqn:E.
  - apply (f_equal (@rev ascii)) in E. rewrite rev_involutive in E. destruct Hx. by destruct x.
  - assert (Ha : a ∈ explode x) by (apply elem_of_rev; rewrite E; by left). change (rev (explode newline_text)) with [newline]. cbn [app is_prefix].
    destruct (Ascii.eqb_spec newline a); [by subst|done].
Qed.

(** The lines of a text, and whether it ends in a newline. *)
Definition text_lines (lt : list string * bool) : Prop :=
  Forall (fun e => newline ∉ explode e) (fst lt) /\ (fst lt = [] -> snd lt = false) /\ (snd lt = false -> last (fst lt) <> Some "").

Lemma join_split content : joinMemoryToolLines (fst (splitMemoryToolLines content)) (snd (splitMemoryToolLines content)) = content.
Proof.
  unfold splitMemoryToolLines, joinMemoryToolLines. destruct (String.eqb_spec content "") as [->|_]; [done|]. cbn [fst snd]. change newline_text with (String newline "").
  rewrite Join_Split. destruct (HasSuffix content (String newline "")) eqn:E.
  - apply HasSuffix_spec in E as [x ->]. by rewrite TrimSuffix_app.
  - unfold TrimSuffix. rewrite E. apply explode_inj. by rewrite explode_app, app_nil_r.
Qed.
Lemma split_lines content : text_lines (splitMemoryToolLines content).
Proof.
  destruct (decide (content = "")) as [->|Hne]; [by split_and!; cbn|]. pose proof (join_split content) as Hj.
  unfold splitMemoryToolLines, joinMemoryToolLines in *. apply String.eqb_neq in Hne. rewrite Hne in *. apply String.eqb_neq in Hne.
  cbn [fst snd] in *. set (l := Split (TrimSuffix content newline_text) newline) in *. split_and!; cbn [fst snd].
  - apply split_go_free_of. by intros ?%elem_of_nil.
  - intros H. by apply split_go_nonempty in H.
  - intros Hs Hl. rewrite Hs in Hj. apply last_Some in Hl as [l' Hl]. rewrite Hl, Join_snoc in Hj. destruct l' as [|e l']; [done|].
    rewrite !str_app_nil_r in Hj. by rewrite <-Hj, HasSuffix_app in Hs.
Qed.
Lemma split_join lines trailing : text_lines (lines, trailing) -> splitMemoryToolLines (joinMemoryToolLines lines trailing) = (lines, trailing).
Proof.
  intros (Hfree & Hnil & Hlast). cbn [fst snd] in *. unfold splitMemoryToolLines, joinMemoryToolLines. destruct trailing.
  - assert (Hne : lines <> []) by (intros ->; by specialize (Hnil eq_refl)). rewrite HasSuffix_app, TrimSuffix_app.
    destruct (String.eqb_spec (Join lines newline_text +:+ newline_text) "") as [E|_].
    + apply (f_equal explode) in E. rewrite explode_app in E. by apply app_nil in E as [_ ?].
    + unfold newline_text. by rewrite (Split_Join_sep newline lines).
  - assert (E0 : Join lines newline_text +:+ "" = Join lines newline_text) by (apply explode_inj; by rewrite explode_app, app_nil_r). rewrite E0.
    destruct lines as [|e l _] using rev_ind; [done|]. specialize (Hlast eq_refl). rewrite last_snoc in Hlast. apply Forall_app in Hfree as [Hl He].
    apply Forall_cons in He as [He _]. assert (Hx : e <> "") by congruence.
    assert (Hp : exists p, Join (l ++ [e]) newline_text = p +:+ e).
    { rewrite Join_snoc. destruct l as [|e2 l]; [by exists ""|]. exists (Join (e2 :: l) newline_text +:+ newline_text). by rewrite str_app_assoc. }
    destruct Hp as [p Hp]. pose proof (newline_suffix p e Hx He) as Hs. rewrite <-Hp in Hs. rewrite Hs. unfold TrimSuffix. rewrite Hs.
    unfold newline_text in *. rewrite (Split_Join_sep newline (l ++ [e])); [|by destruct l|by apply Forall_app; split; [|by repeat constructor]].
    destruct (String.eqb_spec (Join (l ++ [e]) (String newline "")) "") as [E|_]; [|done]. rewrite Hp in E. apply (f_equal explode) in E. rewrite explode_app in E.
    apply app_nil in E as [_ E]. by destruct e.
Qed.

Lemma last_app_ne {A} (l k : list A) : k <> [] -> last (l ++ k) = last k.
Proof. intros Hk. destruct k as [|x k _] using rev_ind; [done|]. by rewrite app_assoc, !last_snoc. Qed.
Lemma inserted_lines content k text : 0 <= k <= llen (fst (splitMemoryToolLines content)) ->
  text_lines (take (Z.to_nat k) (fst (splitMemoryToolLines content)) ++ fst (splitMemoryToolLines text) ++ drop (Z.to_nat k) (fst (splitMemoryToolLines content)),
    snd (splitMemoryToolLines content) || ((k =? llen (fst (splitMemoryToolLines content))) && snd (splitMemoryToolLines text))).
Proof.
  pose proof (split_lines content) as (Fc & Nc & Lc). pose proof (split_lines text) as (Ft & Nt & Lt).
  destruct (splitMemoryToolLines content) as [lines tr], (splitMemoryToolLines text) as [ins itr]. cbn [fst snd] in *. intros Hk.
  set (n := Z.to_nat k). assert (Hsplit : lines = take n lines ++ drop n lines) by (symmetry; apply take_drop). split_and!; cbn [fst snd].
  - rewrite Hsplit in Fc. apply Forall_app in Fc as [? ?]. by repeat (apply Forall_app; split).
  - intros H. apply app_nil in H as [H1 H]. apply app_nil in H as [-> H2]. rewrite H1, H2 in Hsplit. rewrite (Nc Hsplit), (Nt eq_refl). by rewrite andb_false_r.
  - intros [Htr Hitr]%orb_false_iff. specialize (Lc Htr). destruct (decide (drop n lines = [])) as [Hd|Hd].
    + rewrite Hd, app_nil_r in *. rewrite <-Hsplit. destruct (decide (ins = [])) as [->|Hi]; [by rewrite app_nil_r|]. rewrite last_app_ne by done. apply Lt.
      assert (Hlen : (List.length lines <= n)%nat) by (rewrite Hsplit; apply length_take_le' || (rewrite length_take; lia)).
      assert (Ek : k =? llen lines = true) by (apply Z.eqb_eq; unfold llen in *; lia). rewrite Ek in Hitr. done.
    + rewrite !last_app_ne; [|done|by destruct (drop n lines); [done|destruct ins]]. intros Hl. apply Lc. rewrite Hsplit. by rewrite last_app_ne.
Qed.

Lemma index_go_spec p l i : 0 <= i -> match index_go p l i with
  | -1 => forall a b, l = a ++ p ++ b -> False
  | j => exists a b, l = a ++ p ++ b /\ j = i + llen a /\ forall a' b', l = a' ++ p ++ b' -> llen a <= llen a'
  end.
Proof.
  revert i. induction l as [|c t IH]; intros i Hi; cbn [index_go].
  - destruct (is_prefix p []) eqn:E.
    + apply is_prefix_spec in E as [k Hk]. assert (H : exists a b, [] = a ++ p ++ b /\ i = i + llen a /\ forall a' b', [] = a' ++ p ++ b' -> llen a <= llen a').
      { exists [], k. split_and!; [done|unfold llen; cbn; lia|unfold llen; cbn; lia]. }
      by destruct i as [|q|q]; [..|lia].
    + intros a b H. symmetry in H. apply app_nil in H as [-> H]. assert (is_prefix p [] = true) by (apply is_prefix_spec; eauto). congruence.
  - destruct (is_prefix p (c :: t)) eqn:E.
    + apply is_prefix_spec in E as [k Hk]. assert (H : exists a b, c :: t = a ++ p ++ b /\ i = i + llen a /\ forall a' b', c :: t = a' ++ p ++ b' -> llen a <= llen a').
      { exists [], k. split_and!; [done|unfold llen; cbn; lia|unfold llen; cbn; lia]. }
      by destruct i as [|q|q]; [..|lia].
    + assert (Hno : forall b, c :: t = p ++ b -> False) by (intros b Hb; assert (is_prefix p (c :: t) = true) by (apply is_prefix_spec; eauto); congruence).
      specialize (IH (i + 1) ltac:(lia)). destruct (index_go p t (i + 1)) as [|q|q] eqn:Ej.
      * destruct IH as (a & b & _ & H & _). unfold llen in H. lia.
      * destruct IH as (a & b & -> & Hj & Hmin). exists (c :: a), b. split_and!; [done|unfold llen in *; cbn; lia|].
        intros [|x a'] b' H; [by apply Hno in H|]. injection H as -> H. specialize (Hmin _ _ H). unfold llen in *. cbn. lia.
      * destruct q; try (destruct IH as (a & b & _ & H & _); unfold llen in H; lia).
        intros [|x a] b H; [by apply Hno in H|]. injection H as -> H. by apply (IH a b).
Qed.

(** [strings.Index] of bytes: the first place, or -1 for none. *)
Definition occurs (p l : list ascii) : Prop := exists a b, l = a ++ p ++ b.
Lemma index_first p l : match index_go p l 0 with
  | -1 => ~ occurs p l
  | j => exists a b, l = a ++ p ++ b /\ j = llen a /\ forall a' b', l = a' ++ p ++ b' -> llen a <= llen a'
  end.
Proof.
  pose proof (index_go_spec p l 0 ltac:(lia)) as H. destruct (index_go p l 0) as [|q|[| |]]; try exact H.
  intros (a & b & E). by eapply H.
Qed.

(** ** Occurrences *)

Lemma count_skip k sub l : count_go k sub l = count_go 0 sub (drop k l).
Proof. revert l. induction k as [|k IH]; intros [|c t]; cbn [drop count_go]; done. Qed.
Lemma count_nonneg k sub l : 0 <= count_go k sub l.
Proof. revert k. induction l as [|c t IH]; intros k; cbn [count_go]; [lia|]. destruct k; [|done]. destruct (is_prefix _ _); [|done]. specialize (IH (Nat.pred (List.length sub))). lia. Qed.
Lemma count_here sub b : sub <> [] -> count_go 0 sub (sub ++ b) = 1 + count_go 0 sub b.
Proof.
  intros Hs. destruct (sub ++ b) as [|c t] eqn:E; [by destruct sub|]. cbn [count_go].
  assert (Hp : is_prefix sub (c :: t) = true) by (apply is_prefix_spec; eauto). rewrite Hp, count_skip. do 2 f_equal.
  destruct sub as [|a sub]; [done|]. cbn [app List.length Nat.pred] in *. injection E as _ <-. by rewrite drop_app_length.
Qed.
Lemma count_step sub c t : is_prefix sub (c :: t) = false -> count_go 0 sub (c :: t) = count_go 0 sub t.
Proof. intros H. cbn [count_go]. by rewrite H. Qed.
(** The first occurrence counts, and the search goes on after it. *)
Lemma count_first sub l a b : sub <> [] -> l = a ++ sub ++ b -> (forall a' b', l = a' ++ sub ++ b' -> llen a <= llen a') ->
  count_go 0 sub l = 1 + count_go 0 sub b.
Proof.
  intros Hs -> Hmin. induction a as [|c a IH]; [exact (count_here sub b Hs)|]. cbn [app]. rewrite count_step.
  - apply IH. intros a' b' E. specialize (Hmin (c :: a') b' (f_equal (cons c) E)). unfold llen in *. cbn in Hmin. lia.
  - destruct (is_prefix sub _) eqn:E; [|done]. apply is_prefix_spec in E as [k E]. specialize (Hmin [] k E). unfold llen in Hmin. cbn in Hmin. lia.
Qed.
Lemma first_occurrence sub l : occurs sub l -> exists a b, index_go sub l 0 = llen a /\ l = a ++ sub ++ b /\ forall a' b', l = a' ++ sub ++ b' -> llen a <= llen a'.
Proof.
  intros Ho. pose proof (index_first sub l) as H. destruct (index_go sub l 0) as [|q|[| |]]; try (destruct H as (a & b & -> & -> & Hmin); by exists a, b).
  done.
Qed.
Lemma count_none sub l : sub <> [] -> count_go 0 sub l = 0 <-> ~ occurs sub l.
Proof.
  intros Hs. split.
  - intros H Ho. destruct (first_occurrence sub l Ho) as (a & b & _ & El & Hmin). rewrite (count_first sub l a b) in H by done.
    pose proof (count_nonneg 0 sub b). lia.
  - intros H. induction l as [|c t IH]; [done|]. rewrite count_step, IH; [done| |].
    + intros (a & b & ->). apply H. by exists (c :: a), b.
    + destruct (is_prefix sub _) eqn:E; [|done]. apply is_prefix_spec in E as [k E]. destruct H. by exists [], k.
Qed.

Lemma occurs_string (p s : string) : occurs (explode p) (explode s) <-> exists a b, s = a +:+ p +:+ b.
Proof.
  split.
  - intros (a & b & E). exists (implode a), (implode b). apply explode_inj. by rewrite !explode_app, !explode_implode.
  - intros (a & b & ->). exists (explode a), (explode b). by rewrite !explode_app.
Qed.
Lemma Count_none s old : Count s old = 0 <-> forall a b, s <> a +:+ old +:+ b.
Proof.
  transitivity (~ exists a b, s = a +:+ old +:+ b); [|firstorder]. rewrite <-occurs_string. unfold Count. destruct (String.eqb_spec old "") as [->|Hne].
  - split; [unfold llen; lia|]. intros H. destruct H. by exists [], (explode s).
  - apply count_none. by destruct old.
Qed.
(** A text that occurs once. *)
Definition unique_in (s old a b : string) : Prop := s = a +:+ old +:+ b /\ forall a' b', s = a' +:+ old +:+ b' -> a' = a.
Lemma unique_empty s a b : unique_in s "" a b -> s = "".
Proof.
  intros [_ H]. rewrite (H "" s eq_refl). apply (H s ""). by rewrite str_app_nil_r.
Qed.
Lemma unique_first s old a b : unique_in s old a b -> index_go (explode old) (explode s) 0 = llen (explode a).
Proof.
  intros [Hs Hu]. destruct (first_occurrence (explode old) (explode s)) as (a0 & b0 & -> & E & _); [by apply occurs_string; eauto|].
  rewrite <-(Hu (implode a0) (implode b0)); [by rewrite explode_implode|]. apply explode_inj. by rewrite !explode_app, !explode_implode.
Qed.
Lemma Count_unique s old a b : unique_in s old a b -> Count s old = 1.
Proof.
  intros Hu. pose proof Hu as [Hs Hun]. unfold Count. destruct (String.eqb_spec old "") as [->|Hne]; [by rewrite (unique_empty s a b Hu)|].
  assert (Ho : explode old <> []) by by destruct old. destruct (first_occurrence (explode old) (explode s)) as (a0 & b0 & E & El & Hmin); [by apply occurs_string; eauto|].
  rewrite (count_first _ _ a0 b0) by done. assert (H0 : count_go 0 (explode old) b0 = 0); [|lia]. apply count_none; [done|]. intros (x & y & ->).
  assert (Ha : implode a0 = a) by (apply (Hun _ (implode (x ++ explode old ++ y))); apply explode_inj; by rewrite !explode_app, !explode_implode).
  assert (Hb : implode (a0 ++ explode old ++ x) = a).
  { apply (Hun _ (implode y)). apply explode_inj. rewrite !explode_app, !explode_implode, El. by rewrite <-!app_assoc. }
  rewrite <-Ha in Hb. apply (f_equal explode) in Hb. rewrite !explode_implode in Hb. apply (f_equal List.length) in Hb. rewrite !length_app in Hb.
  destruct (explode old); [done|]. cbn in Hb. lia.
Qed.
Lemma Replace1_unique s old new a b : unique_in s old a b -> Replace1 s old new = a +:+ new +:+ b.
Proof.
  intros Hu. pose proof Hu as [Hs _]. unfold Replace1. destruct (String.eqb_spec old new) as [<-|_]; [done|]. cbn [orb]. unfold Index.
  rewrite (unique_first s old a b Hu). destruct (Z.ltb_spec (llen (explode a)) 0); [unfold llen in *; lia|]. rewrite Hs at 1. rewrite slice_to_app. do 2 f_equal.
  replace (llen (explode a) + slen old) with (llen (explode (a +:+ old))).
  - rewrite Hs, <-str_app_assoc. apply slice_from_app.
  - unfold llen, slen. rewrite explode_app, length_app, <-!length_explode. lia.
Qed.
Lemma Count_repeated s old a b c : old <> "" -> s = a +:+ old +:+ b +:+ old +:+ c -> 2 <= Count s old.
Proof.
  intros Hne Hs. unfold Count. destruct (String.eqb_spec old ""); [done|]. assert (Ho : explode old <> []) by by destruct old.
  destruct (first_occurrence (explode old) (explode s)) as (a0 & b0 & E & El & Hmin); [by apply occurs_string; eauto|].
  rewrite (count_first _ _ a0 b0) by done. assert (Hl : llen a0 <= llen (explode a)).
  { apply (Hmin _ (explode (b +:+ old +:+ c))). by rewrite Hs, !explode_app. }
  assert (H1 : count_go 0 (explode old) b0 <> 0); [|pose proof (count_nonneg 0 (explode old) b0); lia]. rewrite count_none by done. intros H. apply H.
  rewrite Hs, !explode_app in El. assert (E2 : (explode a ++ explode old ++ explode b) ++ explode old ++ explode c = (a0 ++ explode old) ++ b0) by (rewrite <-!app_assoc; exact El).
  apply app_eq_app in E2 as [k [[_ ->]|[Ek Eb]]]; [by exists k, (explode c)|]. apply (f_equal List.length) in Ek. rewrite !length_app in Ek. unfold llen in Hl.
  destruct k; [|cbn in Ek; lia]. exists [], (explode c). by rewrite Eb.
Qed.

(** ** Views *)

Lemma numbered_some lines count index : 0 <= index -> index + Z.of_nat count <= llen lines -> is_Some (numbered lines count index).
Proof.
  revert index. induction count as [|count IH]; intros index Hi Hl; [by eexists|]. cbn [numbered].
  destruct (lookup_lt_is_Some_2 lines (Z.to_nat index)) as [line ->]; [unfold llen in Hl; lia|]. destruct (IH (index + 1)) as [rest ->]; [lia..|]. by eexists.
Qed.
(** A view does not read past the lines. *)
Lemma view_in_range viewRange count start end_ : 0 <= count -> normalizeViewRange viewRange count = Ok (start, end_) -> 0 <= start <= end_ /\ end_ <= count.
Proof.
  intros Hc. unfold normalizeViewRange. destruct viewRange as [|s [|e [|]]]; [intros [= <- <-]; lia|done| |done]. destruct (Z.ltb_spec s 1); [done|].
  destruct ((e =? -1) || (count <? e)) eqn:E.
  - destruct (Z.ltb_spec count (s - 1)); [done|]. intros [= <- <-]. lia.
  - apply orb_false_iff in E as [_ He%Z.ltb_ge]. destruct (Z.ltb_spec e (s - 1)); [done|]. intros [= <- <-]. lia.
Qed.
Lemma render_some path content viewRange : exists r, renderMemoryToolFile path content viewRange = Some r.
Proof.
  unfold renderMemoryToolFile. set (lines := fst _). destruct (_ <? _); [by eexists|]. destruct (normalizeViewRange viewRange (llen lines)) as [[start end_]|e] eqn:E; [|by eexists].
  apply view_in_range in E as [? ?]; [|unfold llen; lia]. destruct (numbered_some lines (Z.to_nat (end_ - start)) start) as [text ->]; [lia..|]. by eexists.
Qed.
Lemma render_whole path content : exists text, renderMemoryToolFile path content [] = Some (Ok text).
Proof.
  destruct (render_some path content []) as [r Hr]. revert Hr. unfold renderMemoryToolFile. destruct (_ <? _); [by eexists|]. cbn [normalizeViewRange].
  destruct (numbered _ _ _); cbn; [by eexists|done].
Qed.

(** ** Editing a file *)

Section Edits.
Context (parse_layout : string -> result Time) (nil_is_null : bool).
Notation run := (tool_run parse_layout nil_is_null).

(** The row of a path, and the file it reads as. *)
Definition found (rows : ToolRows) (rawPath path : string) (row : ToolRow) (file : MemoryToolFile) : Prop :=
  NewMemoryToolPath rawPath = Ok path /\ rows !! path = Some row /\ scanMemoryToolFile parse_layout path row = Ok file /\
  mf_path file = path /\ path_like path = true.
Definition edited_row (row : ToolRow) (content : string) (now : Time) : ToolRow :=
  mkToolRow content (tr_created_at row) (formatTimestamp now) (slen content).

Lemma found_content rows rawPath path row file : found rows rawPath path row file -> mf_content file = tr_content row.
Proof. intros (_ & _ & Hs & _). unfold scanMemoryToolFile, wrap_err in Hs. by ok_inv Hs. Qed.
Lemma alone_find {A} rows rawPath path row file (f : result (string * option MemoryToolFile) -> prog A) : found rows rawPath path row file ->
  alone run (bind (findFile rawPath) f) rows = alone run (f (Ok (path, Some file))) rows.
Proof.
  intros (Hp & Hr & Hs & _). rewrite alone_bind. unfold findFile. rewrite Hp, alone_call. cbn [tool_run fst snd]. unfold FindByPath, wrap_err. rewrite Hr, Hs. done.
Qed.
Lemma save_edited rows rawPath path row file content now : found rows rawPath path row file -> nil_is_null = false \/ content <> "" ->
  Save nil_is_null rows (WithContent file content now) = (Ok tt, <[path := edited_row row content now]> rows).
Proof.
  intros (_ & Hr & _ & Hp & Hl) Hn. unfold Save, WithContent. cbn [mf_path mf_content mf_createdAt mf_updatedAt]. rewrite Hp, Hl, Hr. cbn [negb].
  assert (E : nil_is_null && (content =?s "") = false) by (destruct Hn as [->|Hc]; [done|]; apply String.eqb_neq in Hc; by rewrite Hc, andb_false_r). by rewrite E.
Qed.

(** An insertion alone: a line number within the file puts the lines of the
    text after that line and keeps the others, the final newline and the
    creation time; another changes nothing. *)
Theorem insert_exact now rawPath path row file insertLine insertText rows : found rows rawPath path row file ->
  nil_is_null = false \/ inserted (tr_content row) insertLine insertText <> "" ->
  let '(lines, trailing) := splitMemoryToolLines (tr_content row) in
  let '(insertLines, insertTrailing) := splitMemoryToolLines insertText in
  if (insertLine <? 0) || (llen lines <? insertLine)
  then snd (alone run (Insert now rawPath insertLine insertText) rows) = rows
  else exists content,
    alone run (Insert now rawPath insertLine insertText) rows =
      (Ok ("The file " +:+ path +:+ " has been edited."), <[path := edited_row row content now]> rows) /\
    splitMemoryToolLines content = (take (Z.to_nat insertLine) lines ++ insertLines ++ drop (Z.to_nat insertLine) lines,
      trailing || ((insertLine =? llen lines) && insertTrailing)).
Proof.
  intros Hf Hn. pose proof (found_content _ _ _ _ _ Hf) as Hc. pose proof (inserted_lines (tr_content row) insertLine insertText) as Ht.
  unfold Insert. rewrite (alone_find _ _ _ _ _ _ Hf). cbv zeta. rewrite Hc. unfold inserted in Hn.
  destruct (splitMemoryToolLines (tr_content row)) as [lines trailing] eqn:El, (splitMemoryToolLines insertText) as [ins itr] eqn:Ei. cbn [fst snd] in *.
  destruct ((insertLine <? 0) || (llen lines <? insertLine)) eqn:E; [reflexivity|]. apply orb_false_iff in E as [?%Z.ltb_ge ?%Z.ltb_ge]. eexists. split; [|apply split_join, Ht; lia].
  rewrite alone_call. cbn [tool_run]. unfold inserted. rewrite El, Ei. by rewrite (save_edited rows rawPath path row file).
Qed.

(** A replacement alone: a text that occurs once is replaced there and nowhere
    else; one that does not occur, or occurs twice apart, leaves the table as
    it is. *)
Theorem str_replace_exact now rawPath path row file old new rows : found rows rawPath path row file ->
  (forall a b, unique_in (tr_content row) old a b -> nil_is_null = false \/ a +:+ new +:+ b <> "" ->
     exists text, alone run (StrReplace now rawPath old new) rows =
       (Some (Ok ("The memory file has been edited." +:+ newline_text +:+ text)), <[path := edited_row row (a +:+ new +:+ b) now]> rows)) /\
  ((forall a b, tr_content row <> a +:+ old +:+ b) ->
     alone run (StrReplace now rawPath old new) rows =
       (Some (Ok ("No replacement was performed, old_str `" +:+ old +:+ "` did not appear verbatim in " +:+ path +:+ ".")), rows)) /\
  (forall a b c, old <> "" -> tr_content row = a +:+ old +:+ b +:+ old +:+ c ->
     alone run (StrReplace now rawPath old new) rows =
       (Some (Ok ("No replacement was performed. Multiple occurrences of old_str `" +:+ old +:+ "` in lines: " +:+
                  occurrenceLines (tr_content row) old +:+ ". Please ensure it is unique")), rows)).
Proof.
  intros Hf. pose proof (found_content _ _ _ _ _ Hf) as Hc. unfold StrReplace. rewrite (alone_find _ _ _ _ _ _ Hf). cbv zeta. rewrite Hc. split_and!.
  - intros a b Hu Hn. rewrite (Count_unique _ _ _ _ Hu), (Replace1_unique _ _ _ _ _ Hu). change (1 =? 0) with false. change (negb (1 =? 1)) with false. cbv iota.
    rewrite alone_call. cbn [tool_run]. rewrite (save_edited rows rawPath path row file) by done. destruct (render_whole path (a +:+ new +:+ b)) as [text ->]. by exists text.
  - intros H. apply Count_none in H. by rewrite H.
  - intros a b c Hne Hs. pose proof (Count_repeated _ _ _ _ _ Hne Hs) as H2.
    assert (E0 : Count (tr_content row) old =? 0 = false) by (apply Z.eqb_neq; lia). assert (E1 : Count (tr_content row) old =? 1 = false) by (apply Z.eqb_neq; lia).
    by rewrite E0, E1.
Qed.
End Edits.

(** ** Examples *)

Lemma ex_found : found ex_layout ex_tool_rows " /memories/a//x" "/memories/a/x" ex_tool_row ex_tool_file.
Proof. by vm_compute. Qed.

Lemma ex_unique : unique_in (tr_content ex_tool_row) "two" ("one" +:+ newline_text) newline_text.
Proof.
  split; [by vm_compute|]. intros a b. cbv [ex_tool_row tr_content]. do 9 (destruct a as [|? a]; [by intros [=]; subst|]). intros [=].
Qed.

Lemma insert_exact_witness :
  found ex_layout ex_tool_rows " /memories/a//x" "/memories/a/x" ex_tool_row ex_tool_file /\
  exists content,
    alone (tool_run ex_layout true) (Insert (ex_moment 0) " /memories/a//x" 1 "new") ex_tool_rows =
      (Ok "The file /memories/a/x has been edited.", <["/memories/a/x" := edited_row ex_tool_row content (ex_moment 0)]> ex_tool_rows) /\
    splitMemoryToolLines content = (["one"; "new"; "two"], true).
Proof.
  split; [exact ex_found|].
  apply (insert_exact ex_layout true (ex_moment 0) " /memories/a//x" "/memories/a/x" ex_tool_row ex_tool_file 1 "new" ex_tool_rows ex_found).
  right. by vm_compute.
Defined.

Lemma str_replace_exact_witness :
  exists text, alone (tool_run ex_layout true) (StrReplace (ex_moment 0) " /memories/a//x" "two" "2") ex_tool_rows =
    (Some (Ok ("The memory file has been edited." +:+ newline_text +:+ text)),
     <["/memories/a/x" := edited_row ex_tool_row ("one" +:+ newline_text +:+ "2" +:+ newline_text) (ex_moment 0)]> ex_tool_rows).
Proof.
  destruct (str_replace_exact ex_layout true (ex_moment 0) " /memories/a//x" "/memories/a/x" ex_tool_row ex_tool_file "two" "2" ex_tool_rows ex_found)
    as (H & _ & _). apply (H ("one" +:+ newline_text) newline_text ex_unique). right. by vm_compute.
Defined.

(** Two occurrences that overlap count as one. *)
Remark overlap_counts_once : Count "aaa" "aa" = 1 /\ Replace1 "aaa" "aa" "b" = "ba" /\
  "aaa" = "" +:+ "aa" +:+ "a" /\ "aaa" = "a" +:+ "aa" +:+ "".
Proof. by vm_compute. Qed.
(** The end of a view range may be one less than its start. *)
Remark empty_view_range : normalizeViewRange [2; 1] 3 = Ok (1, 1).
Proof. by vm_compute. Qed.
