(* ===== verification/MemoryToolFiles.v ===== *)
(** * The memory tool's files

    The paths that [MemoryTool] accepts stay under [/memories] whatever the
    commands of several clients do, and a rename moves a directory with all
    it holds and nothing else. *)

From stdpp Require Import sorting.
From S2P Require Import Prelude GoStrings Ordering GoTime GoTimeText SqliteText Workspace Interleaving MemoryTool.

(** ** Paths stay under the root *)

(** A path made of the root and proper elements. *)
Definition contained (p : string) : Prop := exists l, Forall proper_element l /\ p = rooted ("memories" :: l).

(** What the elements below a directory add to its path. *)
Definition below (c : list string) : string := match c with [] => "" | _ => "/" +:+ Join c "/" end.
Lemma rooted_app l c : l <> [] -> rooted (l ++ c) = rooted l +:+ below c.
Proof.
  intros Hl. destruct c as [|e c]; [rewrite app_nil_r; apply explode_inj; by rewrite explode_app, app_nil_r|].
  unfold rooted, below. rewrite Join_app by done. by rewrite str_app_assoc.
Qed.
Lemma rooted_inj a b : a <> [] -> b <> [] -> Forall slash_free a -> Forall slash_free b -> rooted a = rooted b -> a = b.
Proof. intros Ha Hb Fa Fb H. apply Join_inj; try done. unfold rooted in H. by apply string_app_inj_l in H. Qed.

Lemma within_root l : Forall slash_free l -> isMemoryToolPathWithinRoot (rooted l) = true -> exists c, l = "memories" :: c.
Proof.
  intros Hl H. destruct l as [|e l]; [done|]. assert (Hm : Forall slash_free ["memories"]) by (by repeat constructor; apply (bool_decide_unpack _); vm_compute).
  unfold isMemoryToolPathWithinRoot in H. apply orb_true_iff in H as [H|H].
  - apply String.eqb_eq in H. exists []. apply (rooted_inj _ ["memories"]); done.
  - change (memoryToolRootPath +:+ "/") with ("/" +:+ Join ["memories"] "/" +:+ "/") in H. unfold rooted in H. rewrite HasPrefix_same in H.
    apply (Join_prefix ["memories"] (e :: l)) in H; [|done..]. destruct H as (c & _ & Hc). by exists c.
Qed.
Lemma path_contained raw p : NewMemoryToolPath raw = Ok p -> contained p.
Proof.
  unfold NewMemoryToolPath. destruct (_ =?s _); [done|]. destruct (hasEncodedTraversal _); [done|]. destruct (hasTraversal _); [done|].
  destruct (HasPrefix (TrimSpace raw) memoryToolRootPath) eqn:Hp; cbn [negb]; [|done].
  destruct (isMemoryToolPathWithinRoot _) eqn:Hw; cbn [negb]; [|done]. destruct (hasHiddenEmptyOrParentSegment _); [done|]. intros [= <-].
  assert (Hr : HasPrefix (ReplaceByte (TrimSpace raw) backslash slash) "/" = true).
  { apply HasPrefix_spec in Hp as [t ->]. unfold ReplaceByte, HasPrefix. rewrite explode_implode, explode_app. done. }
  rewrite Clean_rooted in * by done. set (l := path_elements _) in *. pose proof (path_elements_proper (ReplaceByte (TrimSpace raw) backslash slash)) as Hl.
  fold l in Hl. destruct (within_root l (proper_free l Hl) Hw) as [c Ec]. exists c. rewrite Ec in *. split; [|done]. by apply Forall_cons in Hl as [_ ?].
Qed.

Lemma memories_free l : Forall proper_element l -> Forall slash_free ("memories" :: l).
Proof. intros H. constructor; [apply (bool_decide_unpack _); by vm_compute|by apply proper_free]. Qed.
(** A directory's descendants extend its elements. *)
Lemma under_spec a b : Forall proper_element a -> Forall proper_element b ->
  under (rooted ("memories" :: a)) (rooted ("memories" :: b)) = true <-> exists c, b = a ++ c.
Proof.
  intros Ha%memories_free Hb%memories_free. unfold under, IsDescendantOf. rewrite orb_true_iff, andb_true_iff, negb_true_iff, String.eqb_eq, String.eqb_neq.
  assert (Hpre : HasPrefix (rooted ("memories" :: b)) (rooted ("memories" :: a) +:+ "/") = true <-> exists c, c <> [] /\ b = a ++ c).
  { unfold rooted. rewrite str_app_assoc, HasPrefix_same, Join_prefix by done. split; intros (c & Hc & E); exists c; [by injection E|by rewrite E]. }
  rewrite Hpre. split.
  - intros [E|[_ (c & _ & ->)]]; [|by exists c]. apply rooted_inj in E; [|done..]. injection E as ->. exists []. by rewrite app_nil_r.
  - intros [c ->]. destruct c as [|e c]; [left; by rewrite app_nil_r|right]. split; [|by exists (e :: c)]. intros E.
    apply rooted_inj in E; [|done..]. injection E as E. apply (f_equal List.length) in E. rewrite length_app in E. cbn in E. lia.
Qed.
Lemma moved_spec a b c : moved (rooted ("memories" :: a)) (rooted ("memories" :: b)) (rooted ("memories" :: a ++ c)) = rooted ("memories" :: b ++ c).
Proof.
  unfold moved. change ("memories" :: a ++ c) with (("memories" :: a) ++ c). change ("memories" :: b ++ c) with (("memories" :: b) ++ c).
  rewrite (rooted_app ("memories" :: a) c), (rooted_app ("memories" :: b) c) by done. by rewrite TrimPrefix_app.
Qed.

(** ** What the table holds *)

Definition inside (rows : ToolRows) : Prop := forall k, is_Some (rows !! k) -> contained k /\ IsRoot k = false.
Lemma like_not_root p : path_like p = true -> IsRoot p = false.
Proof. unfold IsRoot. destruct (String.eqb_spec p memoryToolRootPath) as [->|]; [|done]. by vm_compute. Qed.

Section Inside.
Context (parse_layout : string -> result Time) (nil_is_null : bool).
Notation run := (tool_run parse_layout nil_is_null).

Lemma save_inside rows file : inside rows -> contained (mf_path file) -> inside (snd (Save nil_is_null rows file)).
Proof.
  intros Hr Hf. unfold Save. destruct (path_like (mf_path file)) eqn:El; cbn [negb]; [|done]. destruct (_ && _); [done|]. cbn [snd].
  intros k [<-|[_ Hk]]%lookup_insert_is_Some; [split; [done|by apply like_not_root]|]. by apply Hr.
Qed.
Lemma delete_inside rows paths : inside rows -> inside (foldr delete rows paths).
Proof.
  intros Hr. induction paths as [|p paths IH]; [done|]. cbn [foldr]. intros k [_ Hk]%lookup_delete_is_Some. by apply IH.
Qed.
Lemma prefix_loop_spec path raws paths : prefix_loop path raws = Ok paths ->
  Forall (fun p => under path p = true /\ exists raw, raw ∈ raws /\ NewMemoryToolPath raw = Ok p) paths.
Proof.
  revert paths. induction raws as [|raw raws IH]; intros paths; cbn; [by intros [= <-]|].
  destruct (NewMemoryToolPath raw) as [p|e] eqn:Ep; cbn; [|done]. destruct (prefix_loop path raws) as [ps|e]; [|done]. intros [= <-].
  assert (Hps : Forall (fun q => under path q = true /\ exists raw', raw' ∈ raw :: raws /\ NewMemoryToolPath raw' = Ok q) ps).
  { eapply Forall_impl; [by apply IH|]. intros q (Hq & raw' & Hin & E). split; [done|]. exists raw'. split; [by right|done]. }
  destruct (under path p) eqn:Eu; [|done]. constructor; [|done]. split; [done|]. exists raw. split; [by left|done].
Qed.
Lemma rename_row_inside rows old new updated rows' : inside rows -> contained new -> rename_row rows old new updated = Ok rows' -> inside rows'.
Proof.
  intros Hr Hn. unfold rename_row. destruct (rows !! old) as [row|]; [|by intros [= <-]]. destruct (path_like new) eqn:El; cbn [negb]; [|done].
  destruct (bool_decide _); [done|]. intros [= <-] k [<-|[_ [_ Hk]%lookup_delete_is_Some]]%lookup_insert_is_Some; [|by apply Hr].
  split; [done|by apply like_not_root].
Qed.
Lemma rename_loop_inside old new updated paths rows rows' : contained old -> contained new -> inside rows ->
  Forall (fun p => under old p = true /\ contained p) paths -> rename_loop old new updated paths rows = Ok rows' -> inside rows'.
Proof.
  intros (a & Ha & ->) (b & Hb & ->). revert rows. induction paths as [|p paths IH]; intros rows Hr Hp; cbn; [by intros [= <-]|].
  apply Forall_cons in Hp as [[Hu (l & Hl & ->)] Hp]. apply (under_spec a l) in Hu as [c ->]; [|done..]. rewrite moved_spec.
  destruct (rename_row _ _ _ _) as [rows1|e] eqn:E; [|done]. apply IH; [|done]. eapply rename_row_inside; [done| |exact E].
  exists (b ++ c). split; [|done]. apply Forall_app in Hl as [_ ?]. by apply Forall_app.
Qed.
Lemma run_inside {B} (op : ToolOp B) rows : inside rows ->
  match op with
  | OpSaveFile file => contained (mf_path file)
  | OpRenamePrefix old new _ => contained old /\ contained new
  | _ => True
  end -> inside (snd (run B op rows)).
Proof.
  intros Hr Hop. destruct op; cbn [tool_run snd]; try done.
  - by apply save_inside.
  - unfold DeletePathPrefix. destruct (wrap_err _ _); [by apply delete_inside|done].
  - destruct Hop as [Ho Hn]. unfold RenamePathPrefix, queryMemoryToolPathPrefix, wrap_err. destruct (prefix_loop _ _) as [paths|e] eqn:Eq; [|done].
    destruct (rename_loop _ _ _ _ _) as [rows'|e] eqn:El; [|done]. cbn [snd]. eapply rename_loop_inside; [exact Ho|exact Hn|done| |exact El].
    eapply Forall_impl; [by apply prefix_loop_spec|]. intros p (Hu & raw & _ & Hraw). split; [done|by eapply path_contained].
Qed.

Definition keeps_inside (s t : ToolRows) : Prop := inside s -> inside t.
Notation secured := (secures run keeps_inside keeps_inside).
Definition safe {A} (p : commander A) : Prop := forall s, secured p (fun _ _ => True) s.
Lemma tool_do {A B} (op : ToolOp B) (k : result B -> commander A) :
  match op with OpSaveFile file => contained (mf_path file) | OpRenamePrefix old new _ => contained old /\ contained new | _ => True end ->
  (forall r, safe (k r)) -> safe (Do op k).
Proof.
  intros Hop Hk s. cbn. intros t r u _ Ha. split; [|apply Hk]. intros Ht. destruct Ha; [by apply run_inside|done|by apply run_inside].
Qed.
Lemma tool_call {A B} (op : ToolOp B) (failed : error -> A) (k : B -> commander A) :
  match op with OpSaveFile file => contained (mf_path file) | OpRenamePrefix old new _ => contained old /\ contained new | _ => True end ->
  (forall b, safe (k b)) -> safe (call op failed k).
Proof. intros Hop Hk. apply tool_do; [done|]. by intros [b|e]. Qed.
Lemma tool_bind {A B} (p : commander A) (f : A -> commander B) : safe p -> (forall a, safe (f a)) -> safe (bind p f).
Proof.
  intros Hp Hf s. apply secures_bind; [by intros ? ?|]. apply (secures_weaken _ _ _ p (fun _ _ => True)); [by intros a t _; apply Hf|apply Hp].
Qed.
(** The file that was found has a path of its own, read from its row. *)
Lemma tool_find {A} rawPath (f : result (string * option MemoryToolFile) -> commander A) :
  (forall out, match out with Ok (_, Some file) => contained (mf_path file) | _ => True end -> safe (f out)) -> safe (bind (findFile rawPath) f).
Proof.
  intros Hf. unfold findFile. destruct (NewMemoryToolPath rawPath) as [path|e]; [|by apply Hf]. intros s. cbn. intros t r u _ Ha. split.
  { intros Ht. destruct Ha; [by apply run_inside|done|by apply run_inside]. }
  destruct r as [o|e]; [|by apply Hf]. apply Hf. destruct o as [file|]; [|done]. inversion Ha as [Hx| |]; subst. cbn in Hx. unfold FindByPath in Hx.
  destruct (t !! path) as [row|]; [|done]. unfold scanMemoryToolFile, wrap_err in Hx. ok_inv Hx. cbn. by eapply path_contained.
Qed.

Inductive command :=
| CView (path : string) (viewRange : list Z) | CCreate (now : Time) (path fileText : string)
| CStrReplace (now : Time) (path oldStr newStr : string) | CInsert (now : Time) (path : string) (insertLine : Z) (insertText : string)
| CDelete (path : string) | CRename (now : Time) (oldPath newPath : string).
Definition command_program (c : command) : commander unit :=
  match c with
  | CView path viewRange => bind (View path viewRange) (fun _ => Ret tt)
  | CCreate now path fileText => bind (Create now path fileText) (fun _ => Ret tt)
  | CStrReplace now path oldStr newStr => bind (StrReplace now path oldStr newStr) (fun _ => Ret tt)
  | CInsert now path insertLine insertText => bind (Insert now path insertLine insertText) (fun _ => Ret tt)
  | CDelete path => bind (Delete path) (fun _ => Ret tt)
  | CRename now oldPath newPath => bind (Rename now oldPath newPath) (fun _ => Ret tt)
  end.
Lemma tool_ret {A} (a : A) : safe (Ret a).
Proof. done. Qed.
Lemma tool_exists path : safe (pathExists path).
Proof. apply tool_call; [done|]. intros [f|]; [done|]. by apply tool_call. Qed.
Lemma tool_command c : safe (command_program c).
Proof.
  destruct c; cbn [command_program]; (apply tool_bind; [|done]).
  - unfold View. destruct (NewMemoryToolPath path); [|done]. apply tool_call; [done|]. intros [f|]; [done|]. apply tool_call; [done|]. intros l. by destruct (_ || _).
  - unfold Create. destruct (NewMemoryToolPath path) as [p|e] eqn:Ep; [|done]. destruct (IsRoot p); [done|]. apply tool_bind; [apply tool_exists|].
    intros [[]|e]; [done| |done]. apply tool_call; [by apply (path_contained path)|done].
  - apply tool_find. intros [[p [file|]]|e] Hf; [|done..]. cbv zeta. destruct (_ =? 0); [done|]. destruct (negb _); [done|]. by apply tool_call.
  - apply tool_find. intros [[p [file|]]|e] Hf; [|done..]. cbv zeta. destruct (_ || _); [done|]. by apply tool_call.
  - unfold Delete. destruct (NewMemoryToolPath path); [|done]. apply tool_call; [done|]. intros n. by destruct (_ =? 0).
  - unfold Rename. destruct (NewMemoryToolPath oldPath) as [o|e] eqn:Eo; [|done]. destruct (NewMemoryToolPath newPath) as [n|e] eqn:En; [|done].
    apply tool_bind; [apply tool_exists|]. intros [[]|e]; [|done..]. apply tool_bind; [apply tool_exists|]. intros [[]|e]; [done| |done].
    apply tool_call; [|done]. split; by eapply path_contained.
Qed.
Lemma commands_inside (env : ToolRows -> ToolRows -> Prop) commands rows rows' ps : (forall s t, env s t -> keeps_inside s t) ->
  star (pool_step run env) (rows, command_program <$> commands) (rows', ps) -> inside rows -> inside rows'.
Proof.
  intros Henv Hstar. assert (Htrans : forall s t u, keeps_inside s t -> keeps_inside t u -> keeps_inside s u) by (intros s t u H1 H2 Hs; by apply H2, H1).
  destruct (pool_secures run keeps_inside keeps_inside (fun _ H => H) Htrans env (fun _ _ _ => True) rows (command_program <$> commands) rows' ps
              (fun _ _ H => H) Henv Hstar) as [H _]; [|exact H].
  intros i p Hp. rewrite list_lookup_fmap in Hp. destruct (commands !! i) as [c|]; [|done]. injection Hp as <-. apply tool_command.
Qed.
End Inside.

(** ** A rename alone *)

(** The rows that read back as the files they store. *)
Definition canonical (parse_layout : string -> result Time) (rows : ToolRows) : Prop :=
  forall k row, rows !! k = Some row -> exists file, scanMemoryToolFile parse_layout k row = Ok file /\ mf_path file = k.
Definition touch (updated : string) (row : ToolRow) : ToolRow := mkToolRow (tr_content row) (tr_created_at row) updated (tr_size_bytes row).
Definition notes (l : list string) : string := rooted ("memories" :: l).

Lemma lower_app s t : ToLower (s +:+ t) = ToLower s +:+ ToLower t.
Proof. unfold ToLower. by rewrite explode_app, map_app, implode_app. Qed.
Lemma notes_like e l : path_like (notes (e :: l)) = true.
Proof.
  unfold path_like, notes, rooted. rewrite Join_cons by done. rewrite <-!str_app_assoc, lower_app. apply (HasPrefix_app "/memories/").
Qed.
Lemma notes_inj a b : Forall proper_element a -> Forall proper_element b -> notes a = notes b -> a = b.
Proof. intros Ha%memories_free Hb%memories_free H. apply rooted_inj in H; [|done..]. by injection H. Qed.
Lemma notes_root l : Forall proper_element l -> IsRoot (notes l) = bool_decide (l = []).
Proof.
  intros Hl. unfold IsRoot. apply eq_true_iff_eq. rewrite String.eqb_eq, bool_decide_eq_true. split; [|by intros ->].
  intros H. by apply (notes_inj l []).
Qed.

(** The loop moves the rows of its paths, and touches no other. *)
Lemma rename_loop_spec old new updated paths rows : NoDup paths ->
  (forall p, p ∈ paths -> is_Some (rows !! p) /\ rows !! moved old new p = None /\ path_like (moved old new p) = true) ->
  (forall p q, p ∈ paths -> q ∈ paths -> moved old new p = moved old new q -> p = q) ->
  exists rows', rename_loop old new updated paths rows = Ok rows' /\
    (forall p, p ∈ paths -> rows' !! moved old new p = touch updated <$> rows !! p) /\
    (forall k, (forall p, p ∈ paths -> k <> moved old new p) -> rows' !! k = if decide (k ∈ paths) then None else rows !! k).
Proof.
  set (f := moved old new). revert rows. induction paths as [|p paths IH]; intros rows Hnd Hp Hinj.
  - exists rows. split_and!; [done|by intros p ?%elem_of_nil|]. intros k _. by rewrite decide_False by apply not_elem_of_nil.
  - apply NoDup_cons in Hnd as [Hni Hnd]. destruct (Hp p) as ([row Hrow] & Hfree & Hlike); [by left|]. cbn [rename_loop]. fold f.
    assert (Hne : forall q, q ∈ p :: paths -> f p <> q) by (intros q Hq E; destruct (Hp q Hq) as ([r Hr] & _); congruence).
    assert (E : rename_row rows p (f p) updated = Ok (<[f p := touch updated row]> (delete p rows))).
    { unfold rename_row. rewrite Hrow, Hlike. cbn [negb]. rewrite bool_decide_false; [done|]. intros [_ [r Hr]]%lookup_delete_is_Some. by rewrite Hfree in Hr. }
    rewrite E. destruct (IH (<[f p := touch updated row]> (delete p rows))) as (rows' & E' & Hmoved & Hrest); [done| | |].
    { intros q Hq. assert (Hpq : p <> q) by (by intros ->). destruct (Hp q) as (Hs & Hn & Hl); [by right|]. split_and!; [| |done].
      - rewrite lookup_insert_ne by (by apply Hne; right). by rewrite lookup_delete_ne.
      - rewrite lookup_insert_ne by (intros Hf; apply Hpq, Hinj; [by left|by right|done]). by apply lookup_delete_None; right. }
    { intros q r Hq Hr. apply Hinj; by right. }
    exists rows'. split_and!; [done| |].
    + intros q Hq. apply elem_of_cons in Hq as [->|Hq].
      * rewrite Hrest; [|intros q Hq Hf; assert (p = q) by (apply Hinj; [by left|by right|done]); by subst].
        rewrite decide_False by (intros Hin; by apply (Hne (f p)); [right|]). by rewrite lookup_insert_eq, Hrow.
      * rewrite Hmoved by done. rewrite lookup_insert_ne by (by apply Hne; right). rewrite lookup_delete_ne; [done|]. by intros ->.
    + intros k Hk. rewrite Hrest by (intros q Hq; apply Hk; by right). rewrite lookup_insert_ne by (apply not_eq_sym, Hk; by left).
      destruct (decide (k = p)) as [->|Hkp].
      * rewrite lookup_delete_eq. rewrite (decide_True (P := p ∈ p :: paths)) by by left. by destruct (decide _).
      * rewrite lookup_delete_ne by done. destruct (decide (k ∈ paths)) as [Hin|Hin]; [by rewrite decide_True by (by right)|].
        rewrite decide_False; [done|]. by rewrite elem_of_cons; intros [|].
Qed.

Lemma sorted_elem rows k : k ∈ sorted_paths rows <-> is_Some (rows !! k).
Proof.
  unfold sorted_paths. rewrite merge_sort_Permutation, list_elem_of_fmap. split.
  - intros ([k' row] & -> & H%elem_of_map_to_list). by exists row.
  - intros [row H]. exists (k, row). split; [done|by apply elem_of_map_to_list].
Qed.
Lemma sorted_nodup rows : NoDup (sorted_paths rows).
Proof. unfold sorted_paths. rewrite merge_sort_Permutation. apply NoDup_fst_map_to_list. Qed.
Lemma prefix_all path raws : (forall raw, raw ∈ raws -> NewMemoryToolPath raw = Ok raw) -> prefix_loop path raws = Ok (List.filter (under path) raws).
Proof.
  induction raws as [|raw raws IH]; intros H; [done|]. cbn [prefix_loop List.filter]. rewrite H by by left. cbn. rewrite IH by (intros r Hr; apply H; by right).
  by destruct (under path raw).
Qed.

Section Renames.
Context (parse_layout : string -> result Time) (nil_is_null : bool).
Notation run := (tool_run parse_layout nil_is_null).

Lemma scanned_path k row file : scanMemoryToolFile parse_layout k row = Ok file -> NewMemoryToolPath k = Ok (mf_path file).
Proof. unfold scanMemoryToolFile, wrap_err. intros H. by ok_inv H. Qed.
Lemma canonical_key rows k : canonical parse_layout rows -> is_Some (rows !! k) -> NewMemoryToolPath k = Ok k /\ exists l, Forall proper_element l /\ k = notes l.
Proof.
  intros Hc [row Hk]. destruct (Hc k row Hk) as (file & Hs & Hp). apply scanned_path in Hs. rewrite Hp in Hs. split; [done|by apply (path_contained k)].
Qed.
Lemma scan_canonical rows paths : canonical parse_layout rows -> (forall k, k ∈ paths -> is_Some (rows !! k)) ->
  exists files, scan_all parse_layout rows paths = Ok files /\ mf_path <$> files = paths.
Proof.
  intros Hc. induction paths as [|k paths IH]; intros Hk; [by exists []|]. destruct (Hk k) as [row Hrow]; [by left|].
  destruct IH as (files & E & Ef); [intros q Hq; apply Hk; by right|]. destruct (Hc k row Hrow) as (file & Hs & Hp). exists (file :: files). cbn [scan_all].
  rewrite Hrow, Hs. cbn. rewrite E. cbn. by rewrite Hp, Ef.
Qed.
Lemma alone_exists rows path : canonical parse_layout rows ->
  alone run (pathExists path) rows = (Ok (IsRoot path || existsb (under path) (sorted_paths rows)), rows).
Proof.
  intros Hc. unfold pathExists. rewrite alone_call. cbn [tool_run fst snd]. unfold FindByPath, wrap_err. destruct (rows !! path) as [row|] eqn:Ep.
  - destruct (Hc path row Ep) as (file & -> & _). cbn. do 2 f_equal. symmetry. apply orb_true_iff. right. apply existsb_exists. exists path. split.
    + apply list_elem_of_In, sorted_elem. by exists row.
    + unfold under. by rewrite String.eqb_refl.
  - rewrite alone_call. cbn [tool_run fst snd]. unfold List_. destruct (scan_canonical rows (sorted_paths rows) Hc) as (files & -> & Ef); [by intros k ?%sorted_elem|].
    cbn [alone]. do 3 f_equal. unfold hasDescendant. apply eq_true_iff_eq. rewrite !existsb_exists. split.
    + intros (file & Hin & Hd). exists (mf_path file). split; [rewrite <-Ef; by apply in_map|]. unfold under. by rewrite Hd, orb_true_r.
    + intros (k & Hin & Hu). rewrite <-Ef in Hin. apply in_map_iff in Hin as (file & <- & Hin). exists file. split; [done|].
      unfold under in Hu. apply orb_true_iff in Hu as [Hu%String.eqb_eq|?]; [|done].
      assert (Hs : is_Some (rows !! mf_path file)) by (apply sorted_elem; rewrite <-Ef; apply list_elem_of_In; by apply in_map). rewrite Hu, Ep in Hs. by destruct Hs.
Qed.
Lemma under_notes a k rows : canonical parse_layout rows -> Forall proper_element a -> is_Some (rows !! k) ->
  under (notes a) k = true <-> exists c, Forall proper_element c /\ k = notes (a ++ c).
Proof.
  intros Hc Ha Hk. destruct (canonical_key rows k Hc Hk) as (_ & l & Hl & ->). unfold notes. rewrite under_spec by done. split.
  - intros [c ->]. exists c. split; [by apply Forall_app in Hl as [_ ?]|done].
  - intros (c & Hcp & E). exists c. apply notes_inj in E; [done..|by apply Forall_app].
Qed.

Lemma exists_notes a rows : canonical parse_layout rows -> Forall proper_element a ->
  IsRoot (notes a) || existsb (under (notes a)) (sorted_paths rows) = true <->
  a = [] \/ exists c, Forall proper_element c /\ is_Some (rows !! notes (a ++ c)).
Proof.
  intros Hc Ha. rewrite orb_true_iff, existsb_exists, notes_root, bool_decide_eq_true by done. f_equiv. split.
  - intros (k & Hk & Hu). apply list_elem_of_In, sorted_elem in Hk. pose proof Hk as Hs. apply (under_notes a k rows) in Hu as (c & Hcp & ->); [|done..]. by exists c.
  - intros (c & Hcp & Hs). exists (notes (a ++ c)). split; [by apply list_elem_of_In, sorted_elem|]. apply (under_notes a _ rows); [done..|]. by exists c.
Qed.

(** (C31) A rename alone, of an existing path to one that does not exist, in a
    table whose rows all read back as the files they store ([canonical]: each
    row's path is its own normal form, and its times parse): what is under the
    old path, the path itself included, is under the new one, with its content
    and its creation time; nothing else changes.  The condition is one that
    [Create] does not ensure: it can store a row whose path has a space before
    a slash, and a rename then misses that row ([rename_leaves_row]). *)
Theorem rename_exact now rawOld rawNew a b rows : canonical parse_layout rows -> Forall proper_element a -> Forall proper_element b ->
  NewMemoryToolPath rawOld = Ok (notes a) -> NewMemoryToolPath rawNew = Ok (notes b) ->
  a = [] \/ (exists c, Forall proper_element c /\ is_Some (rows !! notes (a ++ c))) ->
  b <> [] -> (forall c, Forall proper_element c -> rows !! notes (b ++ c) = None) ->
  exists t, alone run (Rename now rawOld rawNew) rows = (Ok ("Successfully renamed " +:+ notes a +:+ " to " +:+ notes b), t) /\
    (forall c, Forall proper_element c -> t !! notes (b ++ c) = touch (formatTimestamp now) <$> rows !! notes (a ++ c)) /\
    (forall k, (forall c, Forall proper_element c -> k <> notes (b ++ c)) -> t !! k = if under (notes a) k then None else rows !! k).
Proof.
  intros Hc Ha Hb Eo En Hex Hne Hfree. set (paths := List.filter (under (notes a)) (sorted_paths rows)).
  assert (Hin : forall k, k ∈ paths <-> exists c, Forall proper_element c /\ k = notes (a ++ c) /\ is_Some (rows !! k)).
  { intros k. unfold paths. rewrite list_elem_of_In, filter_In, <-list_elem_of_In, sorted_elem. split.
    - intros [Hs Hu]. apply (under_notes a k rows) in Hu as (c & ? & ?); [|done..]. by exists c.
    - intros (c & Hcp & E & Hs). split; [done|]. apply (under_notes a k rows); [done..|]. by exists c. }
  assert (Hm : forall c, moved (notes a) (notes b) (notes (a ++ c)) = notes (b ++ c)) by (intros c; apply moved_spec).
  destruct (rename_loop_spec (notes a) (notes b) (formatTimestamp now) paths rows) as (t & Et & Hmoved & Hrest).
  { apply NoDup_ListNoDup, List.NoDup_filter, NoDup_ListNoDup, sorted_nodup. }
  { intros p (c & Hcp & -> & Hs)%Hin. rewrite Hm. split_and!; [done|by apply Hfree|]. destruct b as [|e b]; [done|]. apply notes_like. }
  { intros p q (c & Hcp & -> & _)%Hin (d & Hdp & -> & _)%Hin. rewrite !Hm. intros E. apply notes_inj in E; [|by apply Forall_app..]. by apply app_inv_head in E as ->. }
  exists t. split_and!.
  - unfold Rename. rewrite Eo, En, alone_bind, alone_exists by done. cbn [fst snd].
    assert (E1 : IsRoot (notes a) || existsb (under (notes a)) (sorted_paths rows) = true) by by apply exists_notes.
    rewrite E1, alone_bind, alone_exists by done. cbn [fst snd].
    assert (E2 : IsRoot (notes b) || existsb (under (notes b)) (sorted_paths rows) = false).
    { apply not_true_iff_false. rewrite exists_notes by done. intros [?|(c & Hcp & Hs)]; [done|]. rewrite Hfree in Hs by done. by destruct Hs. }
    rewrite E2, alone_call. cbn [tool_run]. unfold RenamePathPrefix, queryMemoryToolPathPrefix, wrap_err.
    rewrite prefix_all by (intros k Hk%sorted_elem; by destruct (canonical_key rows k Hc Hk)). fold paths. by rewrite Et.
  - intros c Hcp. destruct (rows !! notes (a ++ c)) as [row|] eqn:Er.
    + rewrite <-Hm, Hmoved, Er; [done|]. apply Hin. by exists c.
    + assert (Hnm : forall p, p ∈ paths -> notes (b ++ c) <> moved (notes a) (notes b) p).
      { intros p (d & Hdp & -> & Hs)%Hin. rewrite Hm. intros E. apply notes_inj in E; [|by apply Forall_app..]. apply app_inv_head in E as ->. by rewrite Er in Hs; destruct Hs. }
      rewrite (Hrest _ Hnm), Hfree by done. by destruct (decide _).
  - intros k Hk. rewrite Hrest by (intros p (c & Hcp & -> & _)%Hin; rewrite Hm; by apply Hk).
    destruct (rows !! k) as [row|] eqn:Er; [|by destruct (decide _), (under _ _)].
    assert (Hs : is_Some (rows !! k)) by by exists row. destruct (under (notes a) k) eqn:Eu.
    + rewrite decide_True; [done|]. apply Hin. apply (under_notes a k rows) in Eu as (c & ? & ?); [by exists c|done..].
    + rewrite decide_False; [done|]. intros (c & Hcp & E & _)%Hin. assert (Ht : under (notes a) k = true) by (apply (under_notes a k rows); [done..|by exists c]). congruence.
Qed.
End Renames.

(** ** Every command stays inside *)

(** (C17) Whatever commands run, interleaved and failing, with paths of any text,
    the table holds no path but one of proper elements below the root. *)
Theorem memory_paths_contained parse_layout nil_is_null (env : ToolRows -> ToolRows -> Prop) commands rows rows' ps k :
  (forall s t, env s t -> inside s -> inside t) -> inside rows ->
  star (pool_step (tool_run parse_layout nil_is_null) env) (rows, command_program <$> commands) (rows', ps) ->
  is_Some (rows' !! k) -> exists e l, Forall proper_element (e :: l) /\ k = notes (e :: l).
Proof.
  intros Henv Hr Hstar Hk. destruct (commands_inside parse_layout nil_is_null env commands rows rows' ps Henv Hstar Hr k Hk) as [(l & Hl & ->) Hroot].
  destruct l as [|e l]; [done|]. by exists e, l.
Qed.

(** ** Examples *)

Lemma ex_proper l : forallb (fun e => bool_decide (slash_free e) && negb (e =?s "") && negb (e =?s ".") && negb (e =?s "..")) l = true -> Forall proper_element l.
Proof.
  intros H. apply Forall_forall. intros e He. rewrite forallb_forall in H. apply list_elem_of_In, H in He. breflect. unfold proper_element. by split_and!.
Qed.
Lemma ex_inside : inside ex_tool_rows.
Proof.
  intros k Hk. unfold ex_tool_rows in Hk. cbn in Hk. rewrite !lookup_insert_is_Some' in Hk. destruct Hk as [<-|[<-|Hk]].
  - split; [|by vm_compute]. exists ["a"; "x"]. split; [by apply ex_proper; vm_compute|done].
  - split; [|by vm_compute]. exists ["ab"]. split; [by apply ex_proper; vm_compute|done].
  - by destruct Hk.
Qed.
Lemma ex_canonical : canonical ex_layout ex_tool_rows.
Proof.
  intros k row Hk. assert (Hin : (k, row) ∈ map_to_list ex_tool_rows) by by apply elem_of_map_to_list.
  assert (E : forallb (fun kr => match scanMemoryToolFile ex_layout kr.1 kr.2 with Ok file => mf_path file =?s kr.1 | Err _ => false end) (map_to_list ex_tool_rows) = true) by by vm_compute.
  rewrite forallb_forall in E. apply list_elem_of_In, E in Hin. cbn in Hin. destruct (scanMemoryToolFile _ _ _) as [file|]; [|done].
  exists file. split; [done|by apply String.eqb_eq].
Qed.
Lemma ex_free c : Forall proper_element c -> ex_tool_rows !! notes (["new"] ++ c) = None.
Proof.
  intros _. unfold ex_tool_rows. cbn [list_to_map foldr]. rewrite !lookup_insert_ne; [done| |]; unfold notes, rooted; cbn [app]; rewrite Join_cons by done; by destruct c.
Qed.

Lemma rename_exact_witness : exists t,
  alone (tool_run ex_layout true) (Rename (ex_moment 0) "/memories/a" "/memories/new") ex_tool_rows =
    (Ok "Successfully renamed /memories/a to /memories/new", t) /\
  (forall c, Forall proper_element c -> t !! notes ("new" :: c) = touch (formatTimestamp (ex_moment 0)) <$> ex_tool_rows !! notes ("a" :: c)) /\
  (forall k, (forall c, Forall proper_element c -> k <> notes ("new" :: c)) -> t !! k = if under (notes ["a"]) k then None else ex_tool_rows !! k).
Proof.
  apply (rename_exact ex_layout true (ex_moment 0) "/memories/a" "/memories/new" ["a"] ["new"] ex_tool_rows ex_canonical).
  - by apply ex_proper.
  - by apply ex_proper.
  - by vm_compute.
  - by vm_compute.
  - right. exists ["x"]. split; [by apply ex_proper|]. by eexists.
  - done.
  - exact ex_free.
Defined.

Definition ex_commands : list command := [CCreate (ex_moment 0) " /memories\b//./c" "text"; CCreate (ex_moment 0) "/memories/%2e%2e/c" "text"].
Definition ex_after : ToolRows := snd (alone (tool_run ex_layout true) (command_program (CCreate (ex_moment 0) " /memories\b//./c" "text")) ex_tool_rows).
Lemma ex_created : is_Some (ex_after !! "/memories/b/c").
Proof. vm_compute. by eexists. Qed.
Lemma ex_keeps (s t : ToolRows) : s = t -> inside s -> inside t.
Proof. by intros ->. Qed.
Lemma memory_paths_contained_witness : exists e l, Forall proper_element (e :: l) /\ "/memories/b/c" = notes (e :: l).
Proof.
  exact (memory_paths_contained ex_layout true eq ex_commands ex_tool_rows ex_after _ "/memories/b/c" ex_keeps ex_inside
    (alone_star (tool_run ex_layout true) eq (command_program (CCreate (ex_moment 0) " /memories\b//./c" "text")) ex_tool_rows (command_program <$> ex_commands) 0%nat eq_refl)
    ex_created).
Defined.

(** A path is not always its own canonical form: the row of the one keeps the
    space that is trimmed from the other, and what a delete answers is then
    done for no row. *)
Remark path_not_stable : NewMemoryToolPath "/memories/a /." = Ok "/memories/a " /\ NewMemoryToolPath "/memories/a " = Ok "/memories/a".
Proof. by vm_compute. Qed.
Definition ex_spaced : ToolRows := {[ "/memories/a " := ex_tool_row ]}.
Remark delete_misses_row : alone (tool_run ex_layout true) (Delete "/memories/a") ex_spaced = (Ok "Successfully deleted /memories/a", ex_spaced).
Proof. vm_compute. reflexivity. Qed.

(** A row that [Create] stores and that a rename of its directory does not
    find: the rename succeeds, and the row stays under the old path. *)
Definition ex_spaced_below : ToolRows := snd (alone (tool_run ex_layout true) (Create (ex_moment 0) "/memories/b/c /." "text") ∅).
Remark create_stores_spaced :
  is_ok (fst (alone (tool_run ex_layout true) (Create (ex_moment 0) "/memories/b/c /." "text") ∅)) = true /\
  fst <$> map_to_list ex_spaced_below = ["/memories/b/c "].
Proof. by vm_compute. Qed.
Remark spaced_not_canonical : ~ canonical ex_layout ex_spaced_below.
Proof.
  intros H. assert (Hs : is_Some (ex_spaced_below !! "/memories/b/c ")) by (vm_compute; by eexists).
  destruct Hs as [row Hrow]. destruct (H _ _ Hrow) as (file & Hf & Hp). apply scanned_path in Hf. rewrite Hp in Hf. by vm_compute in Hf.
Qed.
Remark rename_leaves_row :
  alone (tool_run ex_layout true) (Rename (ex_moment 0) "/memories/b" "/memories/new") ex_spaced_below =
    (Ok "Successfully renamed /memories/b to /memories/new", ex_spaced_below).
Proof. vm_compute. reflexivity. Qed.
